(* ===== verification/_CoqProject ===== *)
-Q . S2P
Prelude.v
Float64.v
Breaker.v
Json.v
HookWire.v
HookProjection.v
Ranking.v
BreakerFsm.v
HealthState.v
HealthLemmas.v
HealthSpec.v
HealthAdmit.v
SwrrCore.v
Swrr.v
HealthRestore.v
BudgetLoop.v
StoreRuns.v
Classifier.v
Ir.v
ToolIds.v
EgressPrep.v
Anthropic.v
AnthropicSpec.v
AnthropicEgress.v
OpenAiChat.v
OpenAiStream.v
Bytes.v
EventStream.v
EventStreamSpec.v
Sse.v
UsageStrip.v
RequestBody.v
StreamFraming.v
StreamTranslate.v
StreamReassembly.v
StreamTranslateSpec.v
StreamBill.v
StreamClients.v
StreamPair.v
Selection.v
SelectionSpec.v
SelectionPick.v
Windows.v
Ledger.v
Groups.v
MemoryStore.v
GroupsSpec.v
CostModel.v
Governance.v
GovStore.v
HookPolicy.v
GovSpec.v
GovCheck.v
GovRuns.v
GovCounters.v
GovFlush.v
AuditLog.v
AuditSpec.v
AuditRuns.v
AuditCheck.v
Revocation.v
AdminRate.v
AuthKeys.v
AuthSigV4.v
AuthKeysSpec.v
AuthGate.v
AuthGateSpec.v
LaneFrame.v
Request.v
ResponseBody.v
Forward.v
Walk.v
ForwardLogic.v
Routing.v
ResponseSpec.v
ForwardSpec.v
WalkSpec.v
RoutingSpec.v
HookRuns.v
ForwardRuns.v
