(* ===== verification/Prelude.v ===== *)
(** * Busbar: a verification development

    Busbar is an LLM gateway: clients speak one of several chat protocols to it, and it forwards each
    request to an upstream lane of a pool, in the lane's protocol, with failover, limits, hooks and an
    admin plane.  This library models its core as executable definitions and proves what they promise.
    Paths below are relative to [crates/busbar/src/] unless they name another crate.

    ** How the parts interact

    A request crosses the gate ([auth/mod.rs]), which authenticates it and hands on a virtual key; the
    limit ledger ([governance/]) admits it against the chain of the key's groups; the decision seam
    ([proxy/hooks.rs]) lets hooks rewrite, reject, restrict or order it; the failover engine
    ([proxy/engine/]) picks lanes ([proxy/select.rs]) from the lane store ([store/in_memory/]), shapes the
    body for each lane ([proxy/lazy_body.rs], [proxy/wire.rs], [ir/]), classifies every answer
    ([breaker.rs]) and records it in the lane's breaker; the response body ([proxy/response_body.rs]) relays or
    translates the stream ([proto/stream.rs]), settles the permit and bills the tokens to the ledger, which
    a write-behind flush carries to the durable store.  Beside the data plane: signed keys and their
    revocation, the admin mutation budgets, and the audit log.

    ** Effects

    Stateful code is explicit state passing, [None] for a panic.  Where threads interleave, the atomic
    accesses of the code are the steps of a relation, or the outside acts between accesses:
    - the breaker cell: [CellOp], one constructor per critical section (BreakerFsm);
    - the lifetime budget: the loads and compare-exchanges of the loop as steps (BudgetLoop);
    - a request's run: the monad [Engine] over an oracle of [Moment]s, each saying what other threads did
      to the store, what the clock read and what the network answered (Request), with triples for it
      (ForwardLogic);
    - the ledger: the atomic steps of concurrent requests, flusher and deletions (GovRuns), and a flush
      interleaved with requests (GovFlush);
    - the audit log: pushes between the steps of the write-through (AuditSpec);
    - the revocation denylist: every atomic access a step (Revocation);
    - signed keys: a monad of store calls, each of which may fail with or without effect (AuthKeys);
    - the credential cache: any interleaving of lookups, puts and flushes (AuthGateSpec).

    ** Files

    Shared vocabulary.
    - Prelude: machine integers at their width, association lists, sums, sorting, tactics.
    - Float64: [f64] by the Standard Library's specification floats, axiom-free.
    - Bytes: byte strings with checked slices; UTF-8.  Json: strings by character and JSON values.

    Lanes and breakers ([store/mod.rs], [store/in_memory/{mod,availability,breaker}.rs]).
    - Breaker: the cell, its outcome window, cooldown and transitions, and the interfaces
      [BreakerCellAccess] and [Semaphore].  BreakerFsm: the abstract three-state machine, the refinement, the
      cell's invariants for every reachable state.
    - HealthState: the lanes with their gates and per-pool cells, every operation of the runtime trait.
      HealthLemmas, HealthSpec, HealthAdmit: that operations return, keep the store well formed, stay in
      their pool, and conserve permits.  LaneFrame: what each operation leaves alone.
    - SwrrCore, Swrr: smooth weighted round robin, on a vector and on the store.
    - HealthRestore: learned health across a configuration change.  BudgetLoop: the budget counter under
      contention.  StoreRuns: all operations as one instruction set and the invariant of every run.
    - Classifier: [breaker.rs], from a raw upstream error to what happens to the lane.

    Protocols ([ir/], [proto/]).
    - Ir: requests, responses and stream events between protocols, and the grammar of a stream.
      ToolIds: tool-call identifiers across protocols.  EgressPrep: [ir/variant.rs], what happens to a request
      between two protocols.
    - Anthropic, AnthropicSpec, AnthropicEgress: reader and writer of the Messages protocol, what crosses
      it unchanged, and that what it is sent is acceptable to it.
    - OpenAiChat, OpenAiStream: the same for Chat Completions, and its chunks as a bracketed stream.
    - EventStream, EventStreamSpec: [eventstream.rs], the AWS frame codec and its specification [reads].
    - Sse, UsageStrip, StreamFraming, StreamTranslate: frames, the usage member cut out of a chunk, a
      client's own framing, and the translator of [proto/stream.rs].  StreamReassembly: frames do not depend
      on how bytes are cut.  StreamTranslateSpec, StreamBill, StreamClients: what a client sees, what a stream is
      billed for, what particular clients are promised.  StreamPair: the two protocols wired through the
      translator's interfaces, and concrete runs.
    - RequestBody: [json.rs], [proxy/lazy_body.rs], [proxy/wire.rs]: the nesting guard, the body parsed only at its
      top level, the shaping for a lane.

    Limits ([governance/], [cost.rs], [config/groups.rs], [crates/api/src/store.rs], [crates/store-memory]).
    - Windows: UTC windows.  Groups, GroupsSpec: the limit tree, its buckets and chains.  CostModel: rates and
      spend.  Ledger: usage records and deltas.  MemoryStore: the in-memory durable store.
    - Governance: admission, refund, accrual on the ledger.  GovStore: flush, hydration, metering, reads.
      GovSpec: the state as a map, lemmas.  GovCheck: the check and the charge, and the atomicity of an
      admission.  GovRuns: every interleaving.  GovCounters, GovFlush: one view of cell, baseline and
      ledger, and the flush against failures.

    Hooks ([hooks/], [proxy/hooks.rs], [crates/api/src/hooks.rs], [crates/hooks-ranking]).
    - HookWire: an untrusted reply.  HookProjection: what a hook is shown and may put back.  Ranking: the
      built-in orders.  HookPolicy: resolution, grants and fallback chains.  Routing, RoutingSpec: the
      seam itself.  HookRuns: what hooks guarantee of a whole request, and who sees its prompt.

    The engine ([proxy/select.rs], [proxy/engine/{mod,walk}.rs], [proxy/response_body.rs]).
    - Selection, SelectionSpec, SelectionPick: one choice of a lane.  Request, ForwardLogic: the monad and
      its triples.  ResponseBody, ResponseSpec: the body and its settlement.  Forward, ForwardSpec: one
      attempt.  Walk, WalkSpec: exhaustion, fallback pools, queue, the whole walk.  ForwardRuns: the
      properties of a request's run.

    The admin plane and the gate ([admin/], [auth/], [auth_cache.rs], [sigv4.rs], [governance/{revocation,signing}.rs]).
    - AuditLog, AuditSpec, AuditRuns, AuditCheck: the hash-chained log, its steps, its runs, tampering and
      lost acknowledgements.
    - Revocation: the denylist's refresh.  AdminRate: the mutation budgets.
    - AuthKeys, AuthKeysSpec: signed keys on a fleet of nodes over one failing store.
    - AuthSigV4: AWS signatures, made and checked by one canonicalization.
    - AuthGate, AuthGateSpec: the credential cache, the chains, scopes, roles, the middleware.

    ** What the theorems show

    - Protocols: a request prepared for a lane is one its API accepts; reading undoes writing; a
      translated stream is well bracketed and ends once, whatever the backend sends; chunk boundaries do
      not matter; the bill does not depend on the client's protocol; the same protocol passes verbatim.
    - Engine: no permit leaks, no lane is called twice but as a last resort, every probe is settled, a
      body settles once, a pick finds a lane exactly when one is available.
    - Hooks: a restrict binds the last call; a refusing gate stops the request; prompts reach only
      granted hooks; fallback chains end.
    - Limits: an admission charges all of a chain or none; caps are hard under every schedule; a flush
      counts once; a restart restores the ledger; the budget is never overspent.
    - Lanes: the store's and the cell's invariants, exact proportionality of the round robin.
    - Admin plane: the audit log is append-only, complete on a working store, and its last hash commits
      to the chain; a retired key stays retired; a synced denial is refused; a signed request is admitted;
      a flush of the credential cache is final; authority and role grants are exactly what is configured.

    ** Fuel and bounds

    Where recursion is not structural, the fuel is a bound the code's own progress stays below, and a
    lemma or the totality of the property's conclusion says so:
    - byte loops ([utf8_loop], [parse_headers_loop], [drain_loop], [split_frames], [feed_loop], the scans of UsageStrip) have
      the length of the buffer (or one more): every turn moves at least one byte;
    - [pick_loop] and [fallback_loop] have one more than the candidates: every turn excludes one; [queue_loop] one
      more than its lanes;
    - [handle_exhaustion_for_pool] has [exhaustion_fuel], one more than the pools that have a fallback: the visited
      set grows at each level;
    - [walk_chain] has one more than the groups (the code's own bound stops it first), [on_error_links] two more
      than the hooks: each visits a new one, and [on_error_chains_end] proves a result;
    - [fill_base62] runs over the batches the operating system delivers; [emit_groups] has 3 of at most 2 turns;
      [first_free_self_epoch] has the code's own 64 probes.
    Dates of signatures are bounded by the end of the year 9999 ([LAST_SECOND]), where the format's four digits
    end.  64-bit counters of the ledger saturate or wrap as written; the audit sequence is not wrapped.

    ** Parameters

    Code outside the repository is a parameter with its documented behaviour as laws where a theorem needs
    them: the JSON library's parser and printer, hexadecimal and base64, CRC-32, SHA-256, HMAC, ed25519, the
    HTTP date parser, lower-casing outside ASCII, the operating system's random bytes, the clock, the
    network, the semaphores of the runtime, a durable store ([DurableStore], [AuditStore], [AuthKeys]' store calls),
    the answers of hooks and of loaded modules.  Every theorem with such a law has a witness on a concrete
    instance.

    ** Not modelled

    The Gemini, Bedrock Converse, Cohere and Responses readers and writers (further dialects of the
    shape of the two modelled); the codecs of operations other than chat; HTTP ingress and response
    building; configuration parsing, migration and validation; admin handlers and their documents; the
    browser login; the health prober's timer; egress credentials; TLS; telemetry, metrics and exports
    (nothing modelled reads them); the plugin loader and its ABI.  Metrics, logs and taps inside modelled
    functions are left out. *)

(** ** This file

    Machine integers kept at their width, association lists (the [Vec<(Box<str>, _)>] idiom of the store),
    integer sums, the "first maximum" fold of the weighted round robin, and the tactics and hint databases
    used by every component file. *)

From stdpp Require Export base tactics option list numbers gmap strings fin_maps relations sorting.
From Stdlib Require Export ZArith Lia.

Declare Scope busbar_scope.
Delimit Scope busbar_scope with busbar.

#[global] Open Scope Z_scope.

(** ** Machine integers

    A [w]-bit unsigned integer is a [Z] in [0, 2^w); the operations below write
    out Rust's [wrapping_*], [saturating_*] and atomic [fetch_*] behaviour. *)

Definition umax (w : Z) : Z := 2 ^ w - 1.
Definition U64_MAX : Z := 18446744073709551615.
Definition I64_MAX : Z := 9223372036854775807.
Definition I64_MIN : Z := -9223372036854775808.

(** [x as uW], [wrapping_*] and [fetch_add] on an unsigned atomic. *)
Definition wrap (w x : Z) : Z := x mod 2 ^ w.

(** [fetch_add]/[fetch_sub] on an [AtomicI64]. *)
Definition wrap_i64 (x : Z) : Z := (x + 2 ^ 63) mod 2 ^ 64 - 2 ^ 63.

(** [u64::saturating_add] and [saturating_sub]/[saturating_mul]. *)
Definition sat_add (a b : Z) : Z := Z.min (a + b) U64_MAX.
Definition sat_sub (a b : Z) : Z := Z.max (a - b) 0.
Definition sat_mul (a b : Z) : Z := Z.min (a * b) U64_MAX.

(** [i64::saturating_add] / [i64::saturating_mul]. *)
Definition clamp_i64 (x : Z) : Z := Z.max I64_MIN (Z.min x I64_MAX).

Notation "a +sat b" := (sat_add a b) (at level 50, left associativity) : busbar_scope.
Notation "a -sat b" := (sat_sub a b) (at level 50, left associativity) : busbar_scope.
#[global] Open Scope busbar_scope.

Definition is_u64 (x : Z) : Prop := 0 <= x <= U64_MAX.
Definition is_u32 (x : Z) : Prop := 0 <= x < 2 ^ 32.

(** [u64::checked_*] style conversion: [None] when out of range. *)
Definition try_u64 (x : Z) : option Z :=
  if (0 <=? x) && (x <=? U64_MAX) then Some x else None.

(** [i64::try_from(x).unwrap_or(i64::MAX)] for a non-negative [x]. *)
Definition i64_or_max (x : Z) : Z := if x <=? I64_MAX then x else I64_MAX.

Lemma sat_add_u64 a b : is_u64 a -> 0 <= b -> is_u64 (a +sat b).
Proof. unfold is_u64, sat_add, U64_MAX. lia. Qed.

Lemma sat_sub_u64 a b : is_u64 a -> 0 <= b -> is_u64 (a -sat b).
Proof. unfold is_u64, sat_sub, U64_MAX. lia. Qed.

Lemma sat_add_ge a b : is_u64 a -> 0 <= b -> a <= a +sat b.
Proof. unfold is_u64, sat_add, U64_MAX. lia. Qed.

Lemma sat_sub_le a b : 0 <= a -> 0 <= b -> a -sat b <= a.
Proof. unfold sat_sub. lia. Qed.

Lemma wrap_range w x : 0 <= w -> 0 <= wrap w x < 2 ^ w.
Proof. intros. unfold wrap. apply Z.mod_pos_bound, Z.pow_pos_nonneg; lia. Qed.

Lemma wrap_small w x : 0 <= x < 2 ^ w -> wrap w x = x.
Proof. intros. unfold wrap. by apply Z.mod_small. Qed.

Lemma wrap_u64_is x : is_u64 (wrap 64 x).
Proof. pose proof (wrap_range 64 x ltac:(lia)). unfold is_u64, U64_MAX. lia. Qed.

Lemma wrap_i64_small x : - 2 ^ 63 <= x < 2 ^ 63 -> wrap_i64 x = x.
Proof. intros. unfold wrap_i64. rewrite Z.mod_small; lia. Qed.

Lemma wrap_i64_range x : I64_MIN <= wrap_i64 x <= I64_MAX.
Proof.
  unfold wrap_i64, I64_MIN, I64_MAX.
  pose proof (Z.mod_pos_bound (x + 2 ^ 63) (2 ^ 64) ltac:(lia)). lia.
Qed.

Lemma try_u64_Some x y : try_u64 x = Some y <-> y = x /\ is_u64 x.
Proof.
  unfold try_u64, is_u64. destruct (0 <=? x) eqn:E1, (x <=? U64_MAX) eqn:E2; simpl;
    try apply Z.leb_le in E1; try apply Z.leb_le in E2;
    try apply Z.leb_gt in E1; try apply Z.leb_gt in E2;
    split; intros H; try (injection H; lia); try discriminate;
    try (destruct H as [-> ?]; reflexivity); try (destruct H; lia).
Qed.

Lemma try_u64_nonneg x : 0 <= x -> try_u64 x = if x <=? U64_MAX then Some x else None.
Proof. intros Hx. unfold try_u64. apply Z.leb_le in Hx. by rewrite Hx. Qed.

(** ** Sums *)

Definition Zsum (l : list Z) : Z := foldr Z.add 0 l.

Lemma Zsum_app l k : Zsum (l ++ k) = Zsum l + Zsum k.
Proof. induction l; simpl; lia. Qed.

Lemma Zsum_nonneg l : Forall (fun x => 0 <= x) l -> 0 <= Zsum l.
Proof. induction 1; simpl; lia. Qed.

Lemma Zsum_zip_add l k :
  length l = length k -> Zsum (zip_with Z.add l k) = Zsum l + Zsum k.
Proof.
  revert k. induction l as [|x l IH]; intros [|y k]; simpl; intros; try lia.
  rewrite IH; lia.
Qed.

(** ** Association lists: [Vec<(Box<str>, T)>] scanned by byte comparison *)

Section Assoc.
Context {A : Type}.
Implicit Types (l : list (string * A)) (k : string).

(** [v.iter().find(|(p, _)| p == k)] *)
Fixpoint assoc_find k l : option A :=
  match l with
  | [] => None
  | (k', a) :: l' => if String.eqb k' k then Some a else assoc_find k l'
  end.

(** Write through the reference the scan returns. *)
Fixpoint assoc_set k (a : A) l : list (string * A) :=
  match l with
  | [] => []
  | (k', a') :: l' =>
      if String.eqb k' k then (k', a) :: l' else (k', a') :: assoc_set k a l'
  end.

Lemma assoc_find_set_eq k a l :
  is_Some (assoc_find k l) -> assoc_find k (assoc_set k a l) = Some a.
Proof.
  induction l as [|[k' a'] l IH]; simpl; [by intros [? ?]|].
  destruct (String.eqb k' k) eqn:E; simpl; rewrite E; auto.
Qed.

Lemma assoc_find_set_ne k k' a l :
  k <> k' -> assoc_find k' (assoc_set k a l) = assoc_find k' l.
Proof.
  intros Hne. induction l as [|[k0 a0] l IH]; simpl; [done|].
  destruct (String.eqb_spec k0 k) as [->|]; simpl.
  - apply String.eqb_neq in Hne. by rewrite Hne.
  - by rewrite IH.
Qed.

Lemma assoc_find_app k l1 l2 :
  assoc_find k (l1 ++ l2) =
  match assoc_find k l1 with Some a => Some a | None => assoc_find k l2 end.
Proof.
  induction l1 as [|[k0 a0] l1 IH]; simpl; [done|]. by destruct (String.eqb k0 k).
Qed.

Lemma assoc_set_keys k a l : (assoc_set k a l).*1 = l.*1.
Proof.
  induction l as [|[k0 a0] l IH]; csimpl; [done|].
  destruct (String.eqb k0 k); csimpl; [done|]. by rewrite IH.
Qed.

Lemma assoc_set_length k a l : length (assoc_set k a l) = length l.
Proof.
  induction l as [|[k0 a0] l IH]; simpl; [done|].
  destruct (String.eqb k0 k); simpl; by rewrite ?IH.
Qed.

Lemma assoc_find_None_notin k l : assoc_find k l = None <-> k ∉ l.*1.
Proof.
  induction l as [|[k0 a0] l IH]; simpl; [by split; [set_solver|]|].
  destruct (String.eqb_spec k0 k) as [->|]; set_solver.
Qed.

Lemma assoc_find_elem k a l : assoc_find k l = Some a -> (k, a) ∈ l.
Proof.
  induction l as [|[k0 a0] l IH]; simpl; [done|].
  destruct (String.eqb_spec k0 k) as [->|]; [intros [= ->]|intros ?%IH]; set_solver.
Qed.

Lemma assoc_set_elem k a l x :
  x ∈ assoc_set k a l -> x ∈ l \/ x = (k, a).
Proof.
  induction l as [|[k0 a0] l IH]; simpl; [by intros ?%elem_of_nil|].
  destruct (String.eqb_spec k0 k) as [->|]; set_solver.
Qed.

Lemma assoc_set_Forall (P : A -> Prop) k a l :
  P a -> Forall (fun p => P p.2) l -> Forall (fun p => P p.2) (assoc_set k a l).
Proof.
  intros Ha. induction 1 as [|[k0 a0] l ? ? IH]; simpl; [constructor|].
  destruct (String.eqb k0 k); constructor; auto.
Qed.

Lemma assoc_find_Forall (P : A -> Prop) k a l :
  Forall (fun p => P p.2) l -> assoc_find k l = Some a -> P a.
Proof.
  intros HF Hf. apply assoc_find_elem in Hf. rewrite Forall_forall in HF.
  by apply (HF _ Hf).
Qed.
End Assoc.

(** ** Sorting

    [slice::sort_by] and [slice::sort_by_key]: stable, here by insertion. *)

Section Sorting.
Context {A : Type} (cmp : A -> A -> comparison).

Fixpoint insert_by (x : A) (l : list A) : list A :=
  match l with
  | [] => [x]
  | y :: l => match cmp x y with Gt => y :: insert_by x l | _ => x :: y :: l end
  end.

Definition sort_by (l : list A) : list A := foldr insert_by [] l.

Definition not_after (x y : A) : Prop := cmp x y <> Gt.

Lemma insert_by_perm x l : insert_by x l ≡ₚ x :: l.
Proof.
  induction l as [|y l IH]; [done|]. simpl. destruct (cmp x y); [done..|]. rewrite IH. apply perm_swap.
Qed.

Lemma sort_by_perm l : sort_by l ≡ₚ l.
Proof. induction l as [|x l IH]; [done|]. simpl. by rewrite insert_by_perm, IH. Qed.

(** On elements [cmp] orders totally. *)
Context (ok : A -> Prop).
Context (cmp_trans : forall x y z, ok x -> ok y -> ok z -> not_after x y -> not_after y z -> not_after x z).
Context (cmp_flip : forall x y, ok x -> ok y -> cmp x y = Gt -> not_after y x).

Lemma insert_by_sorted x l :
  ok x -> Forall ok l -> StronglySorted not_after l -> StronglySorted not_after (insert_by x l).
Proof.
  intros Hx Hl Hs. induction Hs as [|y l Hs IH Hy]; simpl; [by repeat constructor|].
  apply Forall_cons in Hl as [Hoy Hl].
  assert (Hin : not_after x y -> StronglySorted not_after (x :: y :: l)).
  { intros Hxy. constructor; [by constructor|]. constructor; [done|].
    apply Forall_forall. intros z Hz. rewrite Forall_forall in Hy, Hl.
    apply (cmp_trans x y z); auto. }
  destruct (cmp x y) eqn:E; try (apply Hin; unfold not_after; by rewrite E).
  constructor; [by apply IH|]. rewrite insert_by_perm. constructor; [by apply cmp_flip|done].
Qed.

Lemma sort_by_sorted l : Forall ok l -> StronglySorted not_after (sort_by l).
Proof.
  induction 1 as [|x l Hx Hl IH]; simpl; [constructor|]. apply insert_by_sorted; [done| |done].
  by rewrite sort_by_perm.
Qed.
End Sorting.

Lemma sort_by_fmap {A B} (f : A -> B) (cmp : B -> B -> comparison) l :
  sort_by cmp (f <$> l) = f <$> sort_by (fun x y => cmp (f x) (f y)) l.
Proof.
  assert (Hi : forall x l, insert_by cmp (f x) (f <$> l) = f <$> insert_by (fun x y => cmp (f x) (f y)) x l).
  { intros x l'. induction l' as [|y l' IH]; [done|]. csimpl. destruct (cmp (f x) (f y)); csimpl; by rewrite ?IH. }
  induction l as [|x l IH]; [done|]. csimpl. by rewrite IH, Hi.
Qed.

(** [sort_by_key] for an integer key. *)
Definition by_key {A} (key : A -> Z) (x y : A) : comparison := Z.compare (key x) (key y).

Lemma by_key_not_after {A} (key : A -> Z) x y : not_after (by_key key) x y <-> key x <= key y.
Proof. unfold not_after, by_key. pose proof (Z.compare_le_iff (key x) (key y)). tauto. Qed.

Lemma sort_by_key_sorted {A} (key : A -> Z) l :
  StronglySorted (fun x y => key x <= key y) (sort_by (by_key key) l).
Proof.
  assert (Hs : StronglySorted (not_after (by_key key)) (sort_by (by_key key) l)).
  { apply sort_by_sorted with (ok := fun _ => True).
    - intros x y z _ _ _. rewrite !by_key_not_after. lia.
    - intros x y _ _ Hg. apply by_key_not_after. unfold by_key in Hg. apply Z.compare_gt_iff in Hg. lia.
    - by apply Forall_true. }
  induction Hs as [|x l' _ IH Hf]; constructor; [done|]. eapply Forall_impl; [exact Hf|].
  intros y. apply by_key_not_after.
Qed.

(** Equal keys keep their order. *)
Lemma sort_by_key_stable {A} (key : A -> Z) k l :
  filter (fun x => key x = k) (sort_by (by_key key) l) = filter (fun x => key x = k) l.
Proof.
  assert (Hi : forall x l, filter (fun y => key y = k) (insert_by (by_key key) x l)
                           = filter (fun y => key y = k) (x :: l)).
  { intros x l'. induction l' as [|y l' IH]; [done|]. simpl insert_by.
    destruct (by_key key x y) eqn:E; [done..|]. unfold by_key in E. apply Z.compare_gt_iff in E.
    rewrite !filter_cons in *. rewrite IH. repeat case_decide; try done; lia. }
  induction l as [|x l IH]; [done|]. simpl. rewrite Hi, !filter_cons, IH. done.
Qed.

(** ** Lists and options *)

Lemma filter_all {A} (P : A -> Prop) `{forall x, Decision (P x)} l : Forall P l -> filter P l = l.
Proof. induction 1 as [|x l Hx Hl IH]; [done|]. by rewrite filter_cons_True, IH. Qed.


Lemma bind_Some_inv {A B} (x : option A) (f : A -> option B) b :
  (x ≫= f) = Some b -> exists a, x = Some a /\ f a = Some b.
Proof. destruct x as [a|]; [|done]. intros H. by exists a. Qed.

(** ** Tactics *)

(** Break an equation between a monadic computation and [Some _] into its steps. *)
Ltac mbind_inv :=
  repeat (simplify_eq; match goal with
  | H : (_ ≫= _) = Some _ |- _ =>
      apply bind_Some_inv in H; destruct H as (? & ? & H)
  end); simplify_eq.

(** Turn boolean integer comparisons of the code into propositions. *)
Ltac zbool :=
  repeat match goal with
  | H : (_ <=? _) = true |- _ => apply Z.leb_le in H
  | H : (_ <=? _) = false |- _ => apply Z.leb_gt in H
  | H : (_ <? _) = true |- _ => apply Z.ltb_lt in H
  | H : (_ <? _) = false |- _ => apply Z.ltb_ge in H
  | H : (_ =? _) = true |- _ => apply Z.eqb_eq in H
  | H : (_ =? _) = false |- _ => apply Z.eqb_neq in H
  | H : (_ && _) = true |- _ => apply andb_true_iff in H; destruct H
  | H : (_ || _) = false |- _ => apply orb_false_iff in H; destruct H
  | H : negb _ = true |- _ => apply negb_true_iff in H
  | H : negb _ = false |- _ => apply negb_false_iff in H
  end.

(** Case analysis on every boolean or match scrutinee the goal is stuck on. *)
Ltac cases :=
  repeat (match goal with
  | |- context [if ?b then _ else _] => let E := fresh "E" in destruct b eqn:E
  | |- context [match ?x with _ => _ end] => let E := fresh "E" in destruct x eqn:E
  end; simpl in *; try discriminate; zbool).

Create HintDb busbar.
#[export] Hint Resolve sat_add_u64 sat_sub_u64 wrap_u64_is wrap_i64_range : busbar.
#[export] Hint Resolve assoc_find_set_eq assoc_find_set_ne assoc_set_Forall : busbar.
Create HintDb busbar_rw.
#[export] Hint Rewrite @assoc_set_keys @assoc_set_length Zsum_app : busbar_rw.

(** ** Strings *)

(** [s.strip_prefix(p)] *)
Fixpoint strip_prefix (p s : string) : option string :=
  match p, s with
  | EmptyString, _ => Some s
  | String a p, String b s => if Ascii.eqb a b then strip_prefix p s else None
  | String _ _, EmptyString => None
  end.

Lemma strip_prefix_app p s : strip_prefix p (p +:+ s) = Some s.
Proof. induction p as [|a p IH]; simpl; [done|]. by rewrite Ascii.eqb_refl. Qed.

Lemma strip_prefix_Some p s r : strip_prefix p s = Some r -> s = p +:+ r.
Proof.
  revert s. induction p as [|a p IH]; intros s; simpl; [by intros [= ->]|].
  destruct s as [|b s]; [done|]. destruct (Ascii.eqb_spec a b) as [->|]; [|done]. intros H.
  change (String b p +:+ r) with (String b (p +:+ r)). f_equal. by apply IH.
Qed.
