(* ===== verification/Float64.v ===== *)
(** * Float64

    Rust's [f64] as the axiom-free IEEE-754 specification floats of the Standard
    Library (binary64: 53 bits of precision, maximal exponent 1024).  Only the
    operations the modelled code performs are named here: integer casts,
    division, multiplication, addition, subtraction and ordered comparison.  An [f64] is
    represented by its value; the bit pattern [0] of the source is [+0.0]. *)

From S2P Require Import Prelude.
From Stdlib Require Import SpecFloat.

Abbreviation f64 := spec_float.

(** [n as f64] for an unsigned integer [n] (round to nearest, ties to even). *)
Definition f64_of_Z (n : Z) : f64 := binary_normalize 53 1024 n 0 false.
Definition f64_div (a b : f64) : f64 := SFdiv 53 1024 a b.
Definition f64_mul (a b : f64) : f64 := SFmul 53 1024 a b.
Definition f64_add (a b : f64) : f64 := SFadd 53 1024 a b.
Definition f64_sub (a b : f64) : f64 := SFsub 53 1024 a b.

(** [a >= b] / [a <= b] / [a < b]; every comparison with a NaN is [false]. *)
Definition f64_le (a b : f64) : bool := SFleb a b.
Definition f64_ge (a b : f64) : bool := SFleb b a.
Definition f64_lt (a b : f64) : bool := SFltb a b.

Definition f64_is_finite (a : f64) : bool :=
  match a with S754_zero _ | S754_finite _ _ _ => true | _ => false end.

(** [bits == 0], i.e. positive zero. *)
Definition f64_bits_zero (a : f64) : bool :=
  match a with S754_zero false => true | _ => false end.

(** [f64::round]: to the nearest integer, halves away from zero. *)
Definition f64_round (a : f64) : f64 :=
  match a with
  | S754_finite s m e =>
      if 0 <=? e then a
      else
        let d := 2 ^ (- e) in
        let n := (2 * Zpos m + d) / (2 * d) in
        if n =? 0 then S754_zero s else binary_normalize 53 1024 (if s then - n else n) 0 s
  | _ => a
  end.

(** [a as u64]: truncation, saturating at both ends; a NaN is 0. *)
Definition f64_to_u64 (a : f64) : Z :=
  match a with
  | S754_finite false m e => Z.min U64_MAX (if 0 <=? e then Zpos m * 2 ^ e else Zpos m / 2 ^ (- e))
  | S754_infinity false => U64_MAX
  | _ => 0
  end.

Definition f64_zero : f64 := S754_zero false.
Definition f64_one : f64 := f64_of_Z 1.

(** The literals [0.2] and [0.5], rounded to nearest as rustc does. *)
Definition f64_0_2 : f64 := S754_finite false 7205759403792794 (-55).
Definition f64_0_5 : f64 := S754_finite false 4503599627370496 (-53).

(** A strictly positive finite number. *)
Definition f64_pos (a : f64) : bool :=
  match a with S754_finite false _ _ => true | _ => false end.

Lemma f64_0_2_ok : f64_0_2 = f64_div (f64_of_Z 1) (f64_of_Z 5).
Proof. vm_compute. reflexivity. Qed.

Lemma f64_0_5_ok : f64_0_5 = f64_div (f64_of_Z 1) (f64_of_Z 2).
Proof. vm_compute. reflexivity. Qed.

(** [0.0 / b] is zero for a strictly positive finite [b]. *)
Lemma f64_div_zero b : f64_pos b = true -> f64_div f64_zero b = f64_zero.
Proof. destruct b as [| | |[] m e]; simpl; intros; try discriminate; reflexivity. Qed.

(** Zero never reaches a strictly positive threshold. *)
Lemma f64_ge_zero_pos t : f64_pos t = true -> f64_ge f64_zero t = false.
Proof. destruct t as [| | |[] m e]; simpl; intros; try discriminate; reflexivity. Qed.

Lemma f64_of_Z_0 : f64_of_Z 0 = f64_zero.
Proof. reflexivity. Qed.
