(* ===== verification/Breaker.v ===== *)
(** * Breaker

    The per-(pool, lane) circuit-breaker cell of [store/in_memory/breaker.rs]:
    the bounded outcome window, the cell's atomics, the single decoder
    [breaker_verdict], the cooldown computation and every state transition.
    Transitions run under the cell's [transition_lock], so each is one atomic
    function of the cell; the two transitions whose code reads the cell before
    taking the lock ([cell_record_failure], [cell_acquire_breaker]) are split
    into the part before the lock and the part under it.  [None] is a panic
    (only [u64::clamp] with crossed bounds can raise one). *)

From S2P Require Import Prelude Float64.

(** ** Encodings and constants *)

Definition ST_CLOSED : Z := 0.
Definition ST_OPEN : Z := 1.
Definition ST_HALF_OPEN : Z := 2.

Definition restored_breaker_state (state : Z) : Z :=
  if state =? ST_HALF_OPEN then ST_OPEN else state.

Definition OUTCOME_WINDOW_CAPACITY : Z := 1024.

Definition FNV1A_OFFSET_BASIS : Z := 0xcbf29ce484222325.
Definition FNV1A_PRIME : Z := 0x00000100000001b3.

(** Breaker state for a lane (ADR-0002). *)
Inductive BreakerState :=
  | BS_Closed
  | BS_Open (until : Z)
  | BS_HalfOpen.

(** The decoded breaker situation of one cell at an instant. *)
Inductive BreakerVerdict :=
  | BV_Ready
  | BV_Open (until : Z)
  | BV_HalfOpen
  | BV_ProbeWinnable.

#[export] Instance BreakerState_eq_dec : EqDecision BreakerState.
Proof. solve_decision. Defined.
#[export] Instance BreakerVerdict_eq_dec : EqDecision BreakerVerdict.
Proof. solve_decision. Defined.

(** ** Configuration *)

Inductive TripMode := ErrorRate | Consecutive.

Record TripConfig := mkTrip {
  mode : TripMode;
  window_s : Z;
  threshold : f64;
  min_requests : Z;
  consecutive_n : Z;
}.

Record BreakerCfg := mkBreakerCfg {
  base_cooldown_secs : Z;
  max_cooldown_secs : Z;
  honor_retry_after : bool;
  trip : TripConfig;
}.

Definition DEFAULT_ERROR_RATE_WINDOW_S : Z := 30.

Definition TripConfig_default : TripConfig :=
  mkTrip ErrorRate 30 f64_0_5 5 3.

Definition BreakerCfg_default : BreakerCfg :=
  mkBreakerCfg 15 120 true TripConfig_default.

(** ** Outcome window *)

Record OutcomeWindow := mkWindow {
  entries : list (Z * bool);
  capacity : Z;
}.

Definition OutcomeWindow_new (cap : Z) : OutcomeWindow := mkWindow [] cap.

Definition window_push (w : OutcomeWindow) (ts : Z) (is_error : bool) : OutcomeWindow :=
  let es := if capacity w <=? Z.of_nat (length (entries w))
            then tail (entries w) else entries w in
  mkWindow (es ++ [(ts, is_error)]) (capacity w).

Definition count_in_window (w : OutcomeWindow) (now win : Z) : Z :=
  let start := now -sat win in
  Z.of_nat (length (filter (fun e : Z * bool => Is_true (start <=? e.1)) (entries w))).

Definition error_count_in_window (w : OutcomeWindow) (now win : Z) : Z :=
  let start := now -sat win in
  Z.of_nat (length (filter (fun e : Z * bool => Is_true ((start <=? e.1) && e.2)) (entries w))).

Definition window_clear (w : OutcomeWindow) : OutcomeWindow := mkWindow [] (capacity w).

(** ** The cell *)

Record BreakerCell := mkCell {
  breaker_state : Z;
  streak : Z;
  cooldown_until : Z;
  probe_in_flight : bool;
  probe_epoch : Z;
  err : Z;
  outcome_window : OutcomeWindow;
  current_weight : Z;
}.

Definition BreakerCell_new : BreakerCell :=
  mkCell ST_CLOSED 0 0 false 0 0 (OutcomeWindow_new OUTCOME_WINDOW_CAPACITY) 0.

(** Stores to the individual atomics. *)
Definition set_state (v : Z) (c : BreakerCell) : BreakerCell :=
  mkCell v (streak c) (cooldown_until c) (probe_in_flight c) (probe_epoch c) (err c)
    (outcome_window c) (current_weight c).
Definition set_streak (v : Z) (c : BreakerCell) : BreakerCell :=
  mkCell (breaker_state c) v (cooldown_until c) (probe_in_flight c) (probe_epoch c) (err c)
    (outcome_window c) (current_weight c).
Definition set_cooldown (v : Z) (c : BreakerCell) : BreakerCell :=
  mkCell (breaker_state c) (streak c) v (probe_in_flight c) (probe_epoch c) (err c)
    (outcome_window c) (current_weight c).
Definition set_probe (v : bool) (c : BreakerCell) : BreakerCell :=
  mkCell (breaker_state c) (streak c) (cooldown_until c) v (probe_epoch c) (err c)
    (outcome_window c) (current_weight c).
Definition set_epoch (v : Z) (c : BreakerCell) : BreakerCell :=
  mkCell (breaker_state c) (streak c) (cooldown_until c) (probe_in_flight c) v (err c)
    (outcome_window c) (current_weight c).
Definition set_err (v : Z) (c : BreakerCell) : BreakerCell :=
  mkCell (breaker_state c) (streak c) (cooldown_until c) (probe_in_flight c) (probe_epoch c) v
    (outcome_window c) (current_weight c).
Definition set_window (v : OutcomeWindow) (c : BreakerCell) : BreakerCell :=
  mkCell (breaker_state c) (streak c) (cooldown_until c) (probe_in_flight c) (probe_epoch c)
    (err c) v (current_weight c).
Definition set_weight (v : Z) (c : BreakerCell) : BreakerCell :=
  mkCell (breaker_state c) (streak c) (cooldown_until c) (probe_in_flight c) (probe_epoch c)
    (err c) (outcome_window c) v.

(** The trait through which the transitions reach the atomics of either a
    [LaneState] (the default cell) or a per-pool [BreakerCell]: a lens onto the
    embedded cell, with the usual laws. *)
Class BreakerCellAccess (T : Type) := {
  cell_get : T -> BreakerCell;
  cell_put : BreakerCell -> T -> T;
  cell_get_put : forall c t, cell_get (cell_put c t) = c;
  cell_put_get : forall t, cell_put (cell_get t) t = t;
  cell_put_put : forall c c' t, cell_put c (cell_put c' t) = cell_put c t;
}.

#[export] Instance BreakerCell_access : BreakerCellAccess BreakerCell.
Proof. by refine {| cell_get := id; cell_put := fun c _ => c |}. Defined.

(** ** Queries *)

Definition breaker_verdict (c : BreakerCell) (now : Z) : BreakerVerdict :=
  let until := cooldown_until c in
  if breaker_state c =? ST_CLOSED then
    if until <=? now then BV_Ready else BV_Open until
  else if breaker_state c =? ST_OPEN then
    if until <=? now then BV_ProbeWinnable else BV_Open until
  else if breaker_state c =? ST_HALF_OPEN then BV_HalfOpen
  else BV_Open U64_MAX.

Definition cell_ready_breaker (c : BreakerCell) (now : Z) : bool :=
  match breaker_verdict c now with
  | BV_Ready | BV_ProbeWinnable => true
  | BV_Open _ | BV_HalfOpen => false
  end.

Definition cell_breaker_state (c : BreakerCell) : BreakerState :=
  if breaker_state c =? ST_CLOSED then BS_Closed
  else if breaker_state c =? ST_OPEN then BS_Open (cooldown_until c)
  else if breaker_state c =? ST_HALF_OPEN then BS_HalfOpen
  else BS_Closed.

Definition should_trip (c : BreakerCell) (now : Z) (cfg : BreakerCfg) : bool :=
  match mode (trip cfg) with
  | ErrorRate =>
      let count := count_in_window (outcome_window c) now (window_s (trip cfg)) in
      if count <? min_requests (trip cfg) then false
      else
        let errors := error_count_in_window (outcome_window c) now (window_s (trip cfg)) in
        f64_ge (f64_div (f64_of_Z errors) (f64_of_Z count)) (threshold (trip cfg))
  | Consecutive => consecutive_n (trip cfg) <=? streak c
  end.

(** ** Cooldown *)

(** What the jitter seed mixes in besides the streak: the wall clock in
    nanoseconds and the cell's address. *)
Record Entropy := mkEntropy { time_seed : Z; cell_id : Z }.

Definition clamp_u64 (x lo hi : Z) : option Z :=
  if lo <=? hi then Some (if x <? lo then lo else if hi <? x then hi else x) else None.

Definition base_backoff (streak : Z) (cfg : BreakerCfg) : Z :=
  if streak =? 0 then base_cooldown_secs cfg
  else
    let shift := Z.min streak 63 in
    let shifted := wrap 128 (Z.shiftl (base_cooldown_secs cfg) shift) in
    Z.min (default U64_MAX (try_u64 shifted)) (max_cooldown_secs cfg).

Definition jitter_seed (e : Entropy) (streak : Z) : Z :=
  foldl (fun seed part => wrap 128 (Z.lxor seed part * FNV1A_PRIME))
    FNV1A_OFFSET_BASIS [time_seed e; cell_id e; streak].

Definition apply_jitter (duration seed : Z) : Z :=
  let jitter_range := Z.max (duration / 10) 1 in
  let span := 2 * jitter_range + 1 in
  let unbiased := wrap_i64 (seed mod span) in
  let jitter := unbiased - wrap_i64 jitter_range in
  if 0 <=? jitter then duration +sat jitter else duration -sat (Z.abs jitter).

Definition compute_cooldown_with_retry_after (c : BreakerCell) (cfg : BreakerCfg)
    (retry_after : option Z) (max_honored_retry_after_secs : Z) (e : Entropy) : option Z :=
  let duration := base_backoff (streak c) cfg in
  let jittered := apply_jitter duration (jitter_seed e (streak c)) in
  duration ← clamp_u64 jittered (Z.max (duration / 2) 1) (max_cooldown_secs cfg);
  Some match honor_retry_after cfg, retry_after with
       | true, Some ra => Z.max duration (Z.min ra max_honored_retry_after_secs)
       | false, Some _ => duration
       | true, None | false, None => duration
       end.

(** ** Transitions *)

Definition cell_open_locked (c : BreakerCell) (now : Z) (cfg : BreakerCfg)
    (retry_after : option Z) (max_honored : Z) (e : Entropy) : option BreakerCell :=
  duration ← compute_cooldown_with_retry_after c cfg retry_after max_honored e;
  Some (set_probe false (set_state ST_OPEN (set_cooldown (now +sat duration) c))).

Definition cell_closed_locked (c : BreakerCell) : BreakerCell :=
  set_probe false (set_state ST_CLOSED (set_cooldown 0
    (set_window (window_clear (outcome_window c)) (set_streak 0 c)))).

Definition cell_closed_if_recoverable (c : BreakerCell) (now observed_cooldown : Z)
    : BreakerCell * bool :=
  if observed_cooldown <? cooldown_until c then (c, false)
  else
    let suppressed := negb (breaker_state c =? ST_CLOSED) || (now <? cooldown_until c) in
    ((if suppressed then cell_closed_locked c else c), suppressed).

(** [compare_exchange(from, to)] on the state. *)
Definition cas_state (from to : Z) (c : BreakerCell) : BreakerCell * bool :=
  if breaker_state c =? from then (set_state to c, true) else (c, false).

Definition cell_release_probe (c : BreakerCell) : BreakerCell :=
  set_probe false (cas_state ST_HALF_OPEN ST_OPEN c).1.

Definition cell_release_probe_owned (c : BreakerCell) (owned_epoch : Z) : BreakerCell :=
  if negb (probe_epoch c =? owned_epoch) then c
  else set_probe false (cas_state ST_HALF_OPEN ST_OPEN c).1.

(** Under the transition lock: re-check, CAS Open to HalfOpen, bump the owner
    token, publish the in-flight flag. *)
Definition cell_acquire_locked (c : BreakerCell) (now : Z) : BreakerCell * bool :=
  if negb (breaker_state c =? ST_OPEN) || (now <? cooldown_until c) then (c, false)
  else
    let (c1, won) := cas_state ST_OPEN ST_HALF_OPEN c in
    if won then (set_probe true (set_epoch (wrap 64 (probe_epoch c1 + 1)) c1), true)
    else (c1, false).

(** The lock-free pre-check: [inl b] is decided without the lock, [inr tt] goes on to it. *)
Definition cell_acquire_precheck (c : BreakerCell) (now : Z) : bool + unit :=
  if breaker_state c =? ST_CLOSED then inl (cooldown_until c <=? now)
  else if breaker_state c =? ST_OPEN then
    if cooldown_until c <=? now then inr tt else inl false
  else inl false.

Definition cell_acquire_breaker (c : BreakerCell) (now : Z) : BreakerCell * bool :=
  match cell_acquire_precheck c now with
  | inl b => (c, b)
  | inr _ => cell_acquire_locked c now
  end.

Definition record_failure_pre (c : BreakerCell) (now : Z) : BreakerCell :=
  let c := set_window (window_push (outcome_window c) now true) c in
  set_err (wrap 64 (err c + 1)) c.

Definition record_failure_locked (c : BreakerCell) (now : Z) (cfg : BreakerCfg)
    (retry_after : option Z) (max_honored : Z) (e : Entropy) : option (BreakerCell * bool) :=
  if breaker_state c =? ST_CLOSED then
    let c := set_streak (wrap 32 (streak c + 1)) c in
    if should_trip c now cfg then
      c' ← cell_open_locked c now cfg retry_after max_honored e; Some (c', true)
    else
      duration ← compute_cooldown_with_retry_after c cfg retry_after max_honored e;
      Some (set_cooldown (now +sat duration) c, false)
  else if breaker_state c =? ST_HALF_OPEN then
    let c := set_streak (wrap 32 (streak c + 1)) c in
    c' ← cell_open_locked c now cfg retry_after max_honored e; Some (c', false)
  else if breaker_state c =? ST_OPEN then Some (c, false)
  else Some (c, false).

Definition cell_record_failure (c : BreakerCell) (now : Z) (cfg : BreakerCfg)
    (retry_after : option Z) (max_honored : Z) (e : Entropy) : option (BreakerCell * bool) :=
  record_failure_locked (record_failure_pre c now) now cfg retry_after max_honored e.

Definition cell_record_success (c : BreakerCell) (now : Z) : BreakerCell * bool :=
  let c := if negb (breaker_state c =? ST_OPEN) then set_streak 0 c else c in
  let c := set_window (window_push (outcome_window c) now false) c in
  let (c, won) := cas_state ST_HALF_OPEN ST_CLOSED c in
  if won then (cell_closed_locked c, true) else (c, false).

(** The per-cell [trip] of a hard-down. *)
Definition cell_hard_down (c : BreakerCell) (now hard_down_cooldown_secs : Z) : BreakerCell :=
  set_probe false (set_state ST_OPEN (set_cooldown (now +sat hard_down_cooldown_secs) c)).

(** The prober's notion of a suppressed cell. *)
Definition cell_suppressed (c : BreakerCell) (now : Z) : bool :=
  negb (breaker_state c =? ST_CLOSED) || (now <? cooldown_until c).

(** [recover_lane]'s lock-free [observe]: the cooldown it saw, when suppressed. *)
Definition cell_observe (c : BreakerCell) (now : Z) : option Z :=
  if cell_suppressed c now then Some (cooldown_until c) else None.

(** ** Well-formed cells and configurations *)

Definition window_wf (w : OutcomeWindow) : Prop :=
  0 < capacity w /\ Z.of_nat (length (entries w)) <= capacity w.

Record cell_wf (c : BreakerCell) : Prop := {
  wf_state : breaker_state c = ST_CLOSED \/ breaker_state c = ST_OPEN
             \/ breaker_state c = ST_HALF_OPEN;
  wf_probe : probe_in_flight c = true <-> breaker_state c = ST_HALF_OPEN;
  wf_streak : is_u32 (streak c);
  wf_cooldown : is_u64 (cooldown_until c);
  wf_epoch : is_u64 (probe_epoch c);
  wf_window : window_wf (outcome_window c);
}.

(** The bounds [config_validate] enforces on a pool's breaker block. *)
Record cfg_valid (cfg : BreakerCfg) : Prop := {
  cfg_base : 1 <= base_cooldown_secs cfg <= max_cooldown_secs cfg;
  cfg_max : is_u64 (max_cooldown_secs cfg);
  cfg_min_requests : 1 <= min_requests (trip cfg);
}.

Lemma BreakerCfg_default_valid : cfg_valid BreakerCfg_default.
Proof. by split. Qed.

Lemma cell_wf_new : cell_wf BreakerCell_new.
Proof.
  split; cbn; try by vm_compute; auto.
Qed.

Lemma window_push_wf w ts b : window_wf w -> window_wf (window_push w ts b).
Proof.
  intros [Hc Hl]. unfold window_push, window_wf. simpl. split; [done|].
  rewrite length_app. simpl. destruct (capacity w <=? _) eqn:E; zbool; [|lia].
  destruct (entries w); simpl in *; lia.
Qed.

Lemma window_push_last w ts b : last (entries (window_push w ts b)) = Some (ts, b).
Proof. unfold window_push. simpl. apply last_snoc. Qed.

Lemma window_clear_wf w : window_wf w -> window_wf (window_clear w).
Proof. intros [??]. split; simpl; lia. Qed.

Lemma error_count_le_count w now win :
  error_count_in_window w now win <= count_in_window w now win.
Proof.
  unfold error_count_in_window, count_in_window. apply inj_le.
  induction (entries w) as [|[ts b] es IH]; [done|].
  rewrite !filter_cons. simpl.
  destruct (now -sat win <=? ts), b; simpl; repeat case_decide; simpl in *; try done; lia.
Qed.

(** ** Cooldown bounds *)

Lemma base_backoff_eq s cfg :
  0 <= s -> cfg_valid cfg ->
  base_backoff s cfg = Z.min (base_cooldown_secs cfg * 2 ^ Z.min s 63) (max_cooldown_secs cfg).
Proof.
  intros Hs [[Hb1 Hb2] [_ Hm] _]. unfold base_backoff.
  destruct (s =? 0) eqn:E; zbool.
  - subst. change (Z.min 0 63) with 0. rewrite Z.pow_0_r. lia.
  - set (k := Z.min s 63). assert (0 <= k <= 63) by lia.
    assert (2 ^ k <= 2 ^ 63) by (apply Z.pow_le_mono_r; lia).
    assert (1 <= 2 ^ k) by (pose proof (Z.pow_pos_nonneg 2 k); lia).
    unfold U64_MAX in *.
    rewrite Z.shiftl_mul_pow2, wrap_small by nia.
    unfold try_u64, U64_MAX.
    destruct (0 <=? _) eqn:E1; zbool; [|nia].
    destruct (_ <=? _) eqn:E2; zbool; simpl; lia.
Qed.

Lemma base_backoff_bounds s cfg :
  0 <= s -> cfg_valid cfg ->
  base_cooldown_secs cfg <= base_backoff s cfg <= max_cooldown_secs cfg.
Proof.
  intros Hs Hv. rewrite base_backoff_eq by done. destruct Hv as [[??] _ _].
  assert (1 <= 2 ^ Z.min s 63) by (pose proof (Z.pow_pos_nonneg 2 (Z.min s 63)); lia).
  nia.
Qed.

Lemma base_backoff_mono s s' cfg :
  0 <= s <= s' -> cfg_valid cfg -> base_backoff s cfg <= base_backoff s' cfg.
Proof.
  intros [? ?] Hv. rewrite !base_backoff_eq by (done || lia). destruct Hv as [[??] _ _].
  assert (2 ^ Z.min s 63 <= 2 ^ Z.min s' 63) by (apply Z.pow_le_mono_r; lia).
  apply Z.min_le_compat_r. apply Z.mul_le_mono_nonneg_l; lia.
Qed.

(** The jitter is symmetric and bounded by a tenth of the duration (at least 1s). *)
Lemma apply_jitter_bounds d seed :
  1 <= d <= U64_MAX ->
  d - Z.max (d / 10) 1 <= apply_jitter d seed <= Z.min (d + Z.max (d / 10) 1) U64_MAX.
Proof.
  intros Hd. unfold apply_jitter. set (r := Z.max (d / 10) 1).
  assert (1 <= r <= 2 ^ 61) as Hr.
  { unfold U64_MAX in *. assert (d / 10 <= 2 ^ 61) by (apply Z.div_le_upper_bound; lia). lia. }
  pose proof (Z.mod_pos_bound seed (2 * r + 1) ltac:(lia)).
  rewrite !wrap_i64_small by lia.
  assert (r <= d).
  { assert (d / 10 <= d) by (apply Z.div_le_upper_bound; lia). lia. }
  unfold sat_add, sat_sub. destruct (0 <=? _) eqn:E; zbool; lia.
Qed.

Lemma clamp_u64_spec x lo hi y :
  clamp_u64 x lo hi = Some y <-> lo <= hi /\ y = Z.max lo (Z.min x hi).
Proof.
  unfold clamp_u64. destruct (lo <=? hi) eqn:E; zbool.
  - split; [intros [= <-]|intros [_ ->]; f_equal]; cases; lia.
  - split; [done|lia].
Qed.

Section cooldown.
Context (c : BreakerCell) (cfg : BreakerCfg) (ra : option Z) (maxh : Z) (e : Entropy).
Hypothesis Hcfg : cfg_valid cfg.
Hypothesis Hstreak : 0 <= streak c.
Local Notation D := (base_backoff (streak c) cfg).
Local Notation cooldown := (compute_cooldown_with_retry_after c cfg ra maxh e).

(** The duration before the [Retry-After] floor. *)
Lemma cooldown_jittered :
  exists j, clamp_u64 (apply_jitter D (jitter_seed e (streak c)))
              (Z.max (D / 2) 1) (max_cooldown_secs cfg) = Some j
            /\ 1 <= j <= max_cooldown_secs cfg
            /\ D / 2 <= j
            /\ Z.abs (j - D) <= Z.max (D / 10) 1.
Proof.
  pose proof (base_backoff_bounds _ _ Hstreak Hcfg) as HD.
  destruct Hcfg as [[H1 H2] [_ H3] _].
  pose proof (apply_jitter_bounds D (jitter_seed e (streak c)) ltac:(lia)) as HJ.
  assert (0 <= D / 2 <= D) as Hhalf.
  { split; [apply Z.div_pos; lia|apply Z.div_le_upper_bound; lia]. }
  assert (D / 2 <= Z.max (D - Z.max (D / 10) 1) 1) as Hlow.
  { pose proof (Z.div_mod D 2 ltac:(lia)). pose proof (Z.div_mod D 10 ltac:(lia)).
    pose proof (Z.mod_pos_bound D 2 ltac:(lia)). pose proof (Z.mod_pos_bound D 10 ltac:(lia)).
    lia. }
  eexists. split; [apply clamp_u64_spec; split; [lia|reflexivity]|]. lia.
Qed.

(** With a validated configuration the computation never panics; it never
    yields a zero cooldown, stays within the configured maximum or the honoured
    ceiling, and honours a [Retry-After] as a floor. *)
Lemma cooldown_spec :
  exists d, cooldown = Some d
    /\ 1 <= d
    /\ d <= Z.max (max_cooldown_secs cfg) maxh
    /\ (honor_retry_after cfg = false \/ ra = None -> d <= max_cooldown_secs cfg
          /\ Z.abs (d - D) <= Z.max (D / 10) 1)
    /\ (forall r, honor_retry_after cfg = true -> ra = Some r -> Z.min r maxh <= d).
Proof.
  destruct cooldown_jittered as (j & Hj & ? & ? & ?).
  unfold compute_cooldown_with_retry_after. rewrite Hj. simpl.
  eexists. split; [reflexivity|].
  destruct (honor_retry_after cfg), ra as [r|]; simpl; repeat split; intros;
    simplify_eq; try lia; try (match goal with H : _ \/ _ |- _ => destruct H end; done).
Qed.
End cooldown.

Lemma cooldown_total c cfg ra maxh e :
  cfg_valid cfg -> 0 <= streak c ->
  exists d, compute_cooldown_with_retry_after c cfg ra maxh e = Some d /\ 1 <= d.
Proof.
  intros Hv Hs. destruct (cooldown_spec c cfg ra maxh e Hv Hs) as (d & ? & ? & _). eauto.
Qed.

(** * Runtime

    The vocabulary the lane store shares with its callers ([store/mod.rs]): the
    availability taxonomy [Unavailable] with its recovery hints, the permit and
    admission values, the lane and pool-cell snapshots, and the interface to
    tokio's [Semaphore].  The semaphore is not code of this repository: it is a
    type class whose laws state its documented behaviour (a counter of permits,
    [try_acquire] fails exactly when none is left, dropping a permit returns
    it), with a counting instance for concrete runs. *)


(** ** The stable string hash of the shard selectors *)

Definition str_bytes (s : string) : list Z :=
  (fun a => Z.of_N (Ascii.N_of_ascii a)) <$> String.list_ascii_of_string s.

Definition fnv1a_u64 (s : string) : Z :=
  foldl (fun hash byte => wrap 64 (Z.lxor hash byte * FNV1A_PRIME)) FNV1A_OFFSET_BASIS
    (str_bytes s).

(** ** tokio's Semaphore *)

Class Semaphore (SemT : Type) := {
  MAX_PERMITS : Z;
  sem_new : Z -> SemT;
  available_permits : SemT -> Z;
  try_acquire_owned : SemT -> option SemT;
  sem_release : SemT -> SemT;
  MAX_PERMITS_pos : 0 < MAX_PERMITS;
  available_new : forall n, 0 <= n -> available_permits (sem_new n) = n;
  try_acquire_none : forall s, available_permits s <= 0 -> try_acquire_owned s = None;
  try_acquire_some : forall s, 0 < available_permits s ->
    exists s', try_acquire_owned s = Some s' /\ available_permits s' = available_permits s - 1;
  release_available : forall s, available_permits (sem_release s) = available_permits s + 1;
}.

(** A plain counter satisfies the interface. *)
#[export] Instance counting_semaphore : Semaphore Z.
Proof.
  refine {| MAX_PERMITS := 2 ^ 61 - 1; sem_new := fun n => n; available_permits := fun s => s;
            try_acquire_owned := fun s => if 0 <? s then Some (s - 1) else None;
            sem_release := fun s => s + 1 |}; intros.
  - lia.
  - done.
  - destruct (0 <? s) eqn:E; zbool; [lia|done].
  - exists (s - 1). destruct (0 <? s) eqn:E; zbool; [done|lia].
  - done.
Defined.

Lemma try_acquire_zero {SemT} `{Semaphore SemT} (s s' : SemT) :
  try_acquire_owned s = Some s' ->
  0 < available_permits s /\ available_permits s' = available_permits s - 1.
Proof.
  intros Hs. destruct (Z_lt_le_dec 0 (available_permits s)) as [Hp|Hp].
  - destruct (try_acquire_some s Hp) as (s1 & H1 & H2). rewrite Hs in H1. by simplify_eq.
  - by rewrite (try_acquire_none s Hp) in Hs.
Qed.

(** ** The availability taxonomy *)

Definition PROBE_RETRY_FLOOR_MS : Z := 250.
Definition SHED_RETRY_FLOOR_MS : Z := 1000.
Definition AT_CAPACITY_RECOVERY_FLOOR_MS : Z := 2000.

Inductive Unavailable :=
  | Dead
  | BudgetExhausted
  | BreakerOpen (until : Z)
  | ProbeInFlight
  | AtCapacity (drain_hint_ms : option Z)
  | Shedding.

#[export] Instance Unavailable_eq_dec : EqDecision Unavailable.
Proof. solve_decision. Defined.

Definition recovery_hint_ms (u : Unavailable) (now : Z) : option Z :=
  match u with
  | Dead | BudgetExhausted => None
  | BreakerOpen until => Some (sat_mul (until -sat now) 1000)
  | ProbeInFlight => Some PROBE_RETRY_FLOOR_MS
  | AtCapacity drain_hint_ms => Some (default AT_CAPACITY_RECOVERY_FLOOR_MS drain_hint_ms)
  | Shedding => Some SHED_RETRY_FLOOR_MS
  end.

Definition variant_name (u : Unavailable) : string :=
  match u with
  | Dead => "dead"
  | BudgetExhausted => "budget_exhausted"
  | BreakerOpen _ => "breaker_open"
  | ProbeInFlight => "probe_in_flight"
  | AtCapacity _ => "at_capacity"
  | Shedding => "shedding"
  end.

(** Rust's [Result]. *)
Inductive Result (A E : Type) :=
  | Ok (a : A)
  | Err (e : E).
Arguments Ok {A E} a.
Arguments Err {A E} e.

Inductive Permit := Bounded | Unbounded.

Record Admit := mkAdmit {
  permit : Permit;
  admit_probe_epoch : Z;
}.

(** ** Portable health state *)

Record PoolCellHealthSnapshot := mkPoolSnap {
  ps_pool : string;
  ps_breaker_state : Z;
  ps_cooldown_until : Z;
  ps_streak : Z;
  ps_err : Z;
}.

Record LaneHealthSnapshot := mkLaneSnap {
  hs_model : string;
  hs_provider : string;
  hs_budget : Z;
  hs_breaker_state : Z;
  hs_cooldown_until : Z;
  hs_streak : Z;
  hs_dead : bool;
  hs_dead_reason : string;
  hs_ok : Z;
  hs_err : Z;
  hs_client_fault : Z;
  hs_latency_ewma : f64;
  hs_trips : Z;
  hs_last_trip_at : Z;
  hs_cells : list PoolCellHealthSnapshot;
}.

(** Snapshot of lane stats for the [/stats] endpoint. *)
Record LaneSnapshot := mkLaneSnapshot {
  sn_model : string;
  sn_provider : string;
  sn_max_concurrent : Z;
  sn_inflight : Z;
  sn_free_slots : Z;
  sn_available : option Z;
  sn_at_capacity : bool;
  sn_availability : Result unit Unavailable;
  sn_breaker_state : BreakerState;
  sn_ok : Z;
  sn_err : Z;
  sn_client_fault : Z;
  sn_usable : bool;
  sn_dead : bool;
  sn_dead_reason : string;
  sn_cooldown_remaining_s : Z;
  sn_streak : Z;
  sn_budget : Z;
  sn_trips : Z;
  sn_last_trip_at : Z;
}.

(** * what a response says it used (ir/mod.rs)

    The counters readers extract and writers print, shared by the protocols, the metering of the relayed
    body and the ledger. *)

Record IrUsage := mkUsage {
  input_tokens : Z;
  output_tokens : Z;
  cache_creation_input_tokens : option Z;
  cache_read_input_tokens : option Z
}.

Definition no_usage : IrUsage := mkUsage 0 0 None None.

(** Every token of the request and the response, cached ones included. *)
Definition billable_tokens (u : IrUsage) : Z :=
  input_tokens u +sat default 0 (cache_read_input_tokens u) +sat default 0 (cache_creation_input_tokens u)
    +sat output_tokens u.
