(* ===== verification/Json.v ===== *)
(** * Json: strings by character and JSON values

    The part of Rust's [str] and of [serde_json] the hook seam uses. A string is its UTF-8 bytes; its
    characters are a leading byte with the continuation bytes that follow it. An object is an
    association list with each key once: nothing here observes the order of the keys. *)

From S2P Require Import Prelude Float64.

#[local] Open Scope Z_scope.

(** ** Characters *)

Definition byte_of (a : Ascii.ascii) : Z := Z.of_N (Ascii.N_of_ascii a).

Definition is_continuation (a : Ascii.ascii) : bool := (128 <=? byte_of a) && (byte_of a <? 192).

(** [s.chars()], each character as its bytes. *)
Fixpoint utf8_chars (s : string) : list string :=
  match s with
  | EmptyString => []
  | String a s =>
      match utf8_chars s with
      | String b c :: cs =>
          if is_continuation b then String a (String b c) :: cs
          else String a EmptyString :: String b c :: cs
      | cs => String a EmptyString :: cs
      end
  end.

(** [String::from_iter] *)
Definition of_chars (cs : list string) : string := foldr String.append EmptyString cs.

(** [s.chars().count()] *)
Definition char_count (s : string) : nat := length (utf8_chars s).

(** The scalar value of a character. *)
Definition scalar (c : string) : Z :=
  match byte_of <$> String.list_ascii_of_string c with
  | [b0] => b0
  | [b0; b1] => Z.land b0 31 * 64 + Z.land b1 63
  | [b0; b1; b2] => Z.land b0 15 * 4096 + Z.land b1 63 * 64 + Z.land b2 63
  | [b0; b1; b2; b3] => Z.land b0 7 * 262144 + Z.land b1 63 * 4096 + Z.land b2 63 * 64 + Z.land b3 63
  | _ => 65533
  end.

Definition between (a b x : Z) : bool := (a <=? x) && (x <=? b).

(** [String::from_utf8]: well-formed UTF-8, with no overlong form, no surrogate and nothing past
    U+10FFFF. *)
Fixpoint valid_bytes (l : list Z) : bool :=
  match l with
  | [] => true
  | b0 :: l0 =>
      if between 0 127 b0 then valid_bytes l0
      else match l0 with
           | [] => false
           | b1 :: l1 =>
               if between 194 223 b0 then between 128 191 b1 && valid_bytes l1
               else match l1 with
                    | [] => false
                    | b2 :: l2 =>
                        let low := if b0 =? 224 then 160 else 128 in
                        let high := if b0 =? 237 then 159 else 191 in
                        if between 224 239 b0
                        then between low high b1 && between 128 191 b2 && valid_bytes l2
                        else match l2 with
                             | [] => false
                             | b3 :: l3 =>
                                 let low := if b0 =? 240 then 144 else 128 in
                                 let high := if b0 =? 244 then 143 else 191 in
                                 between 240 244 b0 && between low high b1 && between 128 191 b2
                                 && between 128 191 b3 && valid_bytes l3
                             end
                    end
           end
  end.

Definition valid_utf8 (s : string) : bool := valid_bytes (byte_of <$> String.list_ascii_of_string s).

Definition from_utf8 (bytes : string) : option string := if valid_utf8 bytes then Some bytes else None.

(** [char::is_control]: the general category Cc. *)
Definition is_control (c : string) : bool := between 0 31 (scalar c) || between 127 159 (scalar c).

(** [char::is_whitespace]: the property White_Space. *)
Definition is_whitespace (c : string) : bool :=
  let x := scalar c in
  between 9 13 x || (x =? 32) || (x =? 133) || (x =? 160) || (x =? 5760) || between 8192 8202 x
  || (x =? 8232) || (x =? 8233) || (x =? 8239) || (x =? 8287) || (x =? 12288).

Fixpoint skip_whitespace (cs : list string) : list string :=
  match cs with
  | c :: cs' => if is_whitespace c then skip_whitespace cs' else cs
  | [] => []
  end.

(** [str::trim] *)
Definition trim_str (s : string) : string :=
  of_chars (rev (skip_whitespace (rev (skip_whitespace (utf8_chars s))))).

Definition is_empty (s : string) : bool := match s with EmptyString => true | _ => false end.

(** ** Values *)

Inductive Number := PosInt (n : Z) | NegInt (n : Z) | Float (x : f64).

Inductive Value :=
  | Null
  | Bool (b : bool)
  | Num (n : Number)
  | Str (s : string)
  | Array (l : list Value)
  | Object (fields : list (string * Value)).

Fixpoint field (k : string) (fields : list (string * Value)) : option Value :=
  match fields with
  | [] => None
  | (k', v) :: fields => if String.eqb k' k then Some v else field k fields
  end.

(** [v.get(k)] *)
Definition get (k : string) (v : Value) : option Value :=
  match v with Object fields => field k fields | _ => None end.

Definition as_str (v : Value) : option string := match v with Str s => Some s | _ => None end.
Definition as_array (v : Value) : option (list Value) := match v with Array l => Some l | _ => None end.
Definition as_u64 (v : Value) : option Z := match v with Num (PosInt n) => Some n | _ => None end.
Definition as_i64 (v : Value) : option Z :=
  match v with
  | Num (PosInt n) => if n <=? I64_MAX then Some n else None
  | Num (NegInt n) => Some n
  | _ => None
  end.
Definition as_f64 (v : Value) : option f64 :=
  match v with
  | Num (PosInt n) | Num (NegInt n) => Some (f64_of_Z n)
  | Num (Float x) => Some x
  | _ => None
  end.
Definition as_object (v : Value) : option (list (string * Value)) :=
  match v with Object fields => Some fields | _ => None end.
Definition is_null (v : Value) : bool := match v with Null => true | _ => false end.
Definition as_bool (v : Value) : option bool := match v with Bool b => Some b | _ => None end.

(** [json!(n)] for an unsigned and a signed integer and for an [f64]. *)
Definition num_u (n : Z) : Value := Num (PosInt n).
Definition num_i (n : Z) : Value := Num (if 0 <=? n then PosInt n else NegInt n).
Definition num_f (x : f64) : Value := if f64_is_finite x then Num (Float x) else Null.

(** [v.pointer("/a/b")] for tokens that are not array indices. *)
Definition pointer (path : list string) (v : Value) : option Value :=
  foldl (fun acc k => acc ≫= get k) (Some v) path.

(** [map.insert(k, v)] *)
Fixpoint set_field (k : string) (v : Value) (fields : list (string * Value)) : list (string * Value) :=
  match fields with
  | [] => [(k, v)]
  | (k', v') :: fields => if String.eqb k' k then (k, v) :: fields else (k', v') :: set_field k v fields
  end.

(** [map.get(k).and_then(..)], on an object and on any value. *)
Definition field_str (k : string) (obj : list (string * Value)) : option string := field k obj ≫= as_str.
Definition field_array (k : string) (obj : list (string * Value)) : option (list Value) :=
  field k obj ≫= as_array.
Definition field_u64 (k : string) (obj : list (string * Value)) : option Z := field k obj ≫= as_u64.
Definition field_f64 (k : string) (obj : list (string * Value)) : option f64 := field k obj ≫= as_f64.
Definition field_bool (k : string) (obj : list (string * Value)) : option bool := field k obj ≫= as_bool.
Definition get_str (k : string) (v : Value) : option string := get k v ≫= as_str.
Definition get_array (k : string) (v : Value) : option (list Value) := get k v ≫= as_array.
Definition get_u64 (k : string) (v : Value) : option Z := get k v ≫= as_u64.

(** [map.contains_key(k)] *)
Definition has_field (k : string) (fields : list (string * Value)) : bool :=
  match field k fields with Some _ => true | None => false end.

(** [u32::try_from(n).ok()] *)
Definition try_u32 (n : Z) : option Z := if (0 <=? n) && (n <? 2 ^ 32) then Some n else None.

(** [if !l.is_empty()] *)
Definition nonempty_list {A} (l : list A) : option (list A) := match l with [] => None | _ => Some l end.

(** [.filter(|s| !s.is_empty())] on an optional string. *)
Definition nonempty (s : option string) : option string :=
  match s with Some EmptyString => None | s => s end.

(** [a.or_else(|| b)] *)
Definition or_else {A} (a b : option A) : option A := match a with Some _ => a | None => b end.

(** [map.remove(k)] *)
Definition remove_field (k : string) (fields : list (string * Value)) : list (string * Value) :=
  List.filter (fun p => negb (String.eqb p.1 k)) fields.

(** [if let Some(v) = v { map.insert(k, v); }] *)
Definition set_opt (k : string) (v : option Value) (fields : list (string * Value)) : list (string * Value) :=
  match v with Some v => set_field k v fields | None => fields end.

(** [fields.get(k).map_or(d, f)] with [f] kept out of the recursion on [fields], so that [f] may be a
    recursive call on what is found. *)
Definition on_field {A} (k : string) (f : Value -> A) (d : A) : list (string * Value) -> A :=
  fix go fields :=
    match fields with
    | [] => d
    | (k', v) :: fields => if String.eqb k' k then f v else go fields
    end.

(** ** Lemmas *)

Lemma on_field_field {A} k (f : Value -> A) d fields :
  on_field k f d fields = match field k fields with Some v => f v | None => d end.
Proof. induction fields as [|[k' v] fields IH]; simpl; [done|]. by destruct (String.eqb k' k). Qed.

Lemma as_u64_num n : as_u64 (num_u n) = Some n.
Proof. done. Qed.

Lemma as_i64_num n : I64_MIN <= n <= I64_MAX -> as_i64 (num_i n) = Some n.
Proof.
  unfold num_i. intros Hn. destruct (0 <=? n) eqn:E; simpl; [|done].
  destruct (n <=? I64_MAX) eqn:E'; [done|]. zbool. lia.
Qed.

Lemma as_f64_num x : f64_is_finite x = true -> as_f64 (num_f x) = Some x.
Proof. unfold num_f. by intros ->. Qed.

Lemma of_chars_chars s : of_chars (utf8_chars s) = s.
Proof.
  induction s as [|a s IH]; [done|]. simpl. unfold of_chars in *.
  destruct (utf8_chars s) as [|[|b c] cs]; simpl in *; [by rewrite <- IH|by rewrite <- IH|].
  destruct (is_continuation b); simpl; by rewrite <- IH.
Qed.

(** No character is empty. *)
Lemma chars_nonempty s : Forall (fun c => c <> EmptyString) (utf8_chars s).
Proof.
  induction s as [|a s IH]; simpl; [constructor|].
  destruct (utf8_chars s) as [|[|b c] cs]; [by repeat constructor|by inversion IH|].
  apply Forall_cons in IH as [_ IH]. destruct (is_continuation b); by repeat constructor.
Qed.

Lemma chars_nil s : utf8_chars s = [] -> s = EmptyString.
Proof. intros Hs. by rewrite <- (of_chars_chars s), Hs. Qed.

(** Where a string may be cut: before a character. *)
Definition at_boundary (s : string) : Prop :=
  match s with EmptyString => True | String a _ => is_continuation a = false end.

Lemma chars_head s : forall c cs, utf8_chars s = c :: cs -> exists a s' c', s = String a s' /\ c = String a c'.
Proof.
  destruct s as [|a s]; simpl; [done|]. intros c cs Hc. exists a, s.
  destruct (utf8_chars s) as [|[|b d] ds]; [by simplify_eq; eexists|by simplify_eq; eexists|].
  destruct (is_continuation b); simplify_eq; by eexists.
Qed.

Lemma chars_app s t : at_boundary t -> utf8_chars (s +:+ t) = utf8_chars s ++ utf8_chars t.
Proof.
  intros Ht. induction s as [|a s IH]; [done|].
  change (String a s +:+ t) with (String a (s +:+ t)). simpl. rewrite IH.
  destruct (utf8_chars s) as [|[|b c] cs] eqn:E.
  - simpl. destruct (utf8_chars t) as [|c cs] eqn:Et; [done|].
    destruct (chars_head _ _ _ Et) as (b & t' & c' & -> & ->). simpl in Ht. by rewrite Ht.
  - done.
  - simpl. by destruct (is_continuation b).
Qed.

Lemma char_count_app s t : at_boundary t -> char_count (s +:+ t) = (char_count s + char_count t)%nat.
Proof. intros Ht. unfold char_count. by rewrite chars_app, length_app. Qed.

Lemma field_set_eq k v fields : field k (set_field k v fields) = Some v.
Proof.
  induction fields as [|[k' v'] fields IH]; simpl; [by rewrite String.eqb_refl|].
  destruct (String.eqb k' k) eqn:E; simpl; [by rewrite String.eqb_refl|by rewrite E].
Qed.

Lemma field_set_ne k k' v fields : k <> k' -> field k' (set_field k v fields) = field k' fields.
Proof.
  intros Hk. induction fields as [|[k1 v1] fields IH]; simpl.
  - by rewrite (proj2 (String.eqb_neq k k')).
  - destruct (String.eqb_spec k1 k) as [->|]; simpl; [|by destruct (String.eqb k1 k')].
    by rewrite (proj2 (String.eqb_neq k k')).
Qed.

Lemma field_set k k' v fields :
  field k (set_field k' v fields) = if String.eqb k' k then Some v else field k fields.
Proof.
  destruct (String.eqb_spec k' k) as [->|Hk]; [apply field_set_eq|by apply field_set_ne].
Qed.

Lemma field_set_opt k k' o fields :
  field k (set_opt k' o fields) = if String.eqb k' k then or_else o (field k fields) else field k fields.
Proof. destruct o as [v|]; simpl; [apply field_set|by destruct (String.eqb k' k)]. Qed.

Lemma field_remove k k' fields :
  field k (remove_field k' fields) = if String.eqb k' k then None else field k fields.
Proof.
  unfold remove_field. induction fields as [|[k1 v1] fields IH]; simpl; [by destruct (String.eqb k' k)|].
  destruct (String.eqb_spec k1 k') as [->|Hn]; simpl; rewrite IH.
  - by destruct (String.eqb k' k).
  - destruct (String.eqb_spec k1 k) as [->|]; [|done].
    by rewrite (proj2 (String.eqb_neq k' k)).
Qed.

(** *** Objects with each key once, up to the order of the keys *)

Definition keys_once (fields : list (string * Value)) : Prop := NoDup fields.*1.

Lemma set_field_keys k v fields x : x ∈ (set_field k v fields).*1 <-> x = k \/ x ∈ fields.*1.
Proof.
  induction fields as [|[k1 v1] fields IH]; csimpl; [set_solver|].
  destruct (String.eqb_spec k1 k) as [->|]; csimpl; set_solver.
Qed.

Lemma set_field_once k v fields : keys_once fields -> keys_once (set_field k v fields).
Proof.
  unfold keys_once. induction fields as [|[k1 v1] fields IH]; csimpl; [intros; apply NoDup_singleton|].
  rewrite NoDup_cons. intros [Hk1 Hnd]. destruct (String.eqb_spec k1 k) as [->|Hn]; csimpl; constructor; auto.
  rewrite set_field_keys. by intros [->|].
Qed.

Lemma set_opt_once k o fields : keys_once fields -> keys_once (set_opt k o fields).
Proof. destruct o; [apply set_field_once|done]. Qed.

Lemma field_None k fields : field k fields = None <-> k ∉ fields.*1.
Proof.
  induction fields as [|[k1 v1] fields IH]; csimpl; [set_solver|].
  destruct (String.eqb_spec k1 k) as [->|]; set_solver.
Qed.

(** Insert every pair of [extra] whose key [keep] accepts. *)
Definition overlay (keep : string -> bool) (extra out : list (string * Value)) : list (string * Value) :=
  foldl (fun out (p : string * Value) => if keep p.1 then set_field p.1 p.2 out else out) out extra.

Lemma overlay_once keep extra out : keys_once out -> keys_once (overlay keep extra out).
Proof.
  unfold overlay. revert out. induction extra as [|[k v] extra IH]; intros out Hout; simpl; [done|].
  apply IH. destruct (keep k); [by apply set_field_once|done].
Qed.

Lemma field_overlay keep extra out k :
  keys_once extra ->
  field k (overlay keep extra out) = if keep k then or_else (field k extra) (field k out) else field k out.
Proof.
  unfold overlay, keys_once. revert out. induction extra as [|[k1 v1] extra IH]; csimpl; intros out.
  - by destruct (keep k).
  - rewrite NoDup_cons. intros [Hk1 Hnd]. rewrite IH by done. destruct (String.eqb_spec k1 k) as [->|Hn].
    + rewrite (proj2 (field_None k extra) Hk1). destruct (keep k); [|done]. simpl. apply field_set_eq.
    + destruct (keep k1); [|done]. by rewrite field_set_ne by done.
Qed.

(** The same object: the same members, whatever their order. *)
Definition same_fields (f g : list (string * Value)) : Prop := forall k, field k f = field k g.

#[export] Instance same_fields_equivalence : Equivalence same_fields.
Proof.
  split; [by intros f k|intros f g H k; symmetry; apply H|].
  intros f g h H1 H2 k. etrans; [apply H1|apply H2].
Qed.

#[export] Instance field_proper k : Proper (same_fields ==> eq) (field k).
Proof. intros f g H. apply H. Qed.

#[export] Instance set_field_proper k v : Proper (same_fields ==> same_fields) (set_field k v).
Proof. intros f g H k'. by rewrite !field_set, (H k'). Qed.

#[export] Instance set_opt_proper k o : Proper (same_fields ==> same_fields) (set_opt k o).
Proof. intros f g H k'. by rewrite !field_set_opt, (H k'). Qed.

#[export] Instance remove_field_proper k : Proper (same_fields ==> same_fields) (remove_field k).
Proof. intros f g H k'. by rewrite !field_remove, (H k'). Qed.

(** Read members out of an object under construction. *)
Ltac read_fields := unfold field_str, field_u64, field_f64, field_bool, field_array, get_str, get_u64, get_array, get;
  repeat (simpl; rewrite ?field_set, ?field_set_opt).

Lemma pointer_snoc path k v : pointer (path ++ [k]) v = pointer path v ≫= get k.
Proof. unfold pointer. by rewrite foldl_app. Qed.
