(* ===== verification/HookWire.v ===== *)
(** * HookWire: what a decision hook may answer (api/src/hooks.rs, hooks/wire.rs, hooks/plugin.rs)

    The reply of a hook is untrusted JSON. It is parsed into the four verbs, normalized - unknown lanes
    dropped, statuses clamped to 4xx, messages stripped of what could split or spoof a log line - and
    handed on as a [RoutingDecision] or, on the rewrite path, as a [TransformOutcome]. *)

From S2P Require Import Prelude Float64 Json.

#[local] Open Scope Z_scope.

(** ** Decisions *)

Inductive RoutingDecision :=
  | RD_Prefer (order : list nat)
  | RD_Abstain
  | RD_Reject (status : Z) (message : string)
  | RD_Restrict (tags_any : list string).

(** Known lanes, each at its first mention. *)
Fixpoint ranked_from (valid seen : gset nat) (raw : list nat) : list nat :=
  match raw with
  | [] => []
  | i :: raw =>
      if bool_decide (i ∈ valid) && negb (bool_decide (i ∈ seen))
      then i :: ranked_from valid ({[i]} ∪ seen) raw
      else ranked_from valid seen raw
  end.

Definition from_ranked (raw : list nat) (valid : gset nat) : RoutingDecision :=
  match ranked_from valid ∅ raw with
  | [] => RD_Abstain
  | order => RD_Prefer order
  end.

Record RewriteReply := mkRewrite { rw_messages : list Value; rw_tools : list Value }.

Inductive TransformOutcome :=
  | TO_Rewrite (rw : RewriteReply)
  | TO_Reject (status : Z) (message : string)
  | TO_Abstain.

(** ** The reply *)

Record HookResponse := mkResponse {
  order : option (list nat);
  abstain : bool;
  reject : option Value;
  restrict : option Value;
  rewrite : option Value
}.

(** [Option<Vec<usize>>] *)
Definition parse_order (v : Value) : option (option (list nat)) :=
  match v with
  | Null => Some None
  | Array l => l ← mapM (fun x => Z.to_nat <$> as_u64 x) l; Some (Some l)
  | _ => None
  end.

(** [Option<Value>] *)
Definition parse_present (v : Value) : option Value := match v with Null => None | v => Some v end.

(** [serde_json::from_value::<HookResponse>]: an object, or an array of the fields in their order;
    every field has a default. *)
Definition parse_hook_response (v : Value) : option HookResponse :=
  let build (o a rj rs rw : option Value) :=
    o ← match o with Some v => parse_order v | None => Some None end;
    a ← match a with Some v => as_bool v | None => Some false end;
    Some (mkResponse o a (rj ≫= parse_present) (rs ≫= parse_present) (rw ≫= parse_present)) in
  match v with
  | Object fields =>
      build (field "order" fields) (field "abstain" fields) (field "reject" fields)
            (field "restrict" fields) (field "rewrite" fields)
  | Array l =>
      if bool_decide (length l <= 5)%nat
      then build (l !! 0%nat) (l !! 1%nat) (l !! 2%nat) (l !! 3%nat) (l !! 4%nat) else None
  | _ => None
  end.

(** ** The verbs *)

(** [*v != Value::Bool(false)] *)
Definition is_not_false (v : Value) : bool := match v with Bool false => false | _ => true end.

Definition parse_restrict (v : Value) : option (list string) :=
  l ← get "tags_any" v ≫= as_array;
  match filter (fun t => t <> EmptyString) (trim_str <$> omap as_str l) with
  | [] => None
  | tags => Some tags
  end.

Definition parse_rewrite (v : Value) : option RewriteReply :=
  messages ← get "messages" v ≫= as_array;
  match messages with
  | [] => None
  | _ => Some (mkRewrite messages (default [] (get "tools" v ≫= as_array)))
  end.

Definition REJECT_STATUS_DEFAULT : Z := 403.
Definition REJECT_MESSAGE_MAX_CHARS : nat := 300.
Definition REJECT_MESSAGE_DEFAULT : string := "Request rejected by the routing policy.".

Definition clamp_reject_status (status : Z) : Z :=
  if (400 <=? status) && (status <=? 499) then status else REJECT_STATUS_DEFAULT.

(** No control character, line or paragraph separator, zero-width or direction mark. *)
Definition shown (c : string) : bool :=
  let x := scalar c in
  negb (is_control c)
  && negb ((x =? 8232) || (x =? 8233) || between 8203 8207 x || between 8234 8238 x
           || between 8294 8297 x || (x =? 65279)).

Definition sanitize_reject_message (raw : string) : string :=
  let message := of_chars (take REJECT_MESSAGE_MAX_CHARS (filter shown (utf8_chars raw))) in
  if is_empty (trim_str message) then REJECT_MESSAGE_DEFAULT else message.

(** [u16::try_from] *)
Definition try_u16 (n : Z) : option Z := if between 0 65535 n then Some n else None.

Definition parse_reject_detail (reject : Value) : Z * string :=
  let status := default REJECT_STATUS_DEFAULT
                  (clamp_reject_status <$> ((get "status" reject ≫= as_i64) ≫= try_u16)) in
  (status, sanitize_reject_message (default EmptyString (get "message" reject ≫= as_str))).

Definition rejecting (parsed : HookResponse) : option Value :=
  v ← reject parsed; if is_not_false v then Some v else None.

Definition restricting (parsed : HookResponse) : option Value :=
  v ← restrict parsed; if is_not_false v then Some v else None.

(** reject, then restrict, then abstain, then order; [valid]: the lanes of the candidates. *)
Definition normalize (parsed : HookResponse) (valid : gset nat) : RoutingDecision :=
  match rejecting parsed with
  | Some v => let '(status, message) := parse_reject_detail v in RD_Reject status message
  | None =>
      match restricting parsed with
      | Some v => RD_Restrict (default [] (parse_restrict v))
      | None =>
          if abstain parsed then RD_Abstain else
          match order parsed with
          | None => RD_Abstain
          | Some order => from_ranked order valid
          end
      end
  end.

Definition transform_outcome (parsed : HookResponse) : TransformOutcome :=
  match rejecting parsed with
  | Some v => let '(status, message) := parse_reject_detail v in TO_Reject status message
  | None =>
      match rewrite parsed ≫= parse_rewrite with
      | Some rw => TO_Rewrite rw
      | None => TO_Abstain
      end
  end.

(** The [normalize] and [transform_outcome] projectors: an unparseable reply is no opinion. *)
Definition normalize_reply (v : Value) (valid : gset nat) : RoutingDecision :=
  match parse_hook_response v with
  | Some parsed => normalize parsed valid
  | None => RD_Abstain
  end.

Definition transform_reply (v : Value) : TransformOutcome :=
  match parse_hook_response v with
  | Some parsed => transform_outcome parsed
  | None => TO_Abstain
  end.

(** ** Orders *)

Lemma ranked_from_spec valid raw : forall seen,
  NoDup (ranked_from valid seen raw)
  /\ forall i, i ∈ ranked_from valid seen raw <-> i ∈ raw /\ i ∈ valid /\ i ∉ seen.
Proof.
  induction raw as [|j raw IH]; intros seen; simpl; [split; [constructor|set_solver]|].
  destruct (bool_decide_reflect (j ∈ valid)) as [Hv|Hv]; simpl.
  - destruct (bool_decide_reflect (j ∈ seen)) as [Hs|Hs]; simpl.
    + destruct (IH seen) as [Hnd Hin]. split; [done|]. intros i. rewrite Hin. set_solver.
    + destruct (IH ({[j]} ∪ seen)) as [Hnd Hin]. split.
      * constructor; [rewrite Hin; set_solver|done].
      * intros i. rewrite elem_of_cons, Hin. destruct (decide (i = j)); set_solver.
  - destruct (IH seen) as [Hnd Hin]. split; [done|]. intros i. rewrite Hin. set_solver.
Qed.

Lemma from_ranked_order raw valid order :
  from_ranked raw valid = RD_Prefer order ->
  NoDup order /\ order <> [] /\ (forall i, i ∈ order <-> i ∈ raw /\ i ∈ valid).
Proof.
  unfold from_ranked. destruct (ranked_from_spec valid raw ∅) as [Hnd Hin].
  destruct (ranked_from valid ∅ raw) as [|x l]; [done|]. intros [= <-].
  split; [done|]. split; [done|]. intros i. rewrite Hin. set_solver.
Qed.

Lemma from_ranked_cases raw valid :
  from_ranked raw valid = RD_Abstain \/ exists order, from_ranked raw valid = RD_Prefer order.
Proof. unfold from_ranked. case_match; eauto. Qed.

(** ** Messages *)

(** What [of_chars] puts together again as it was. *)
Definition is_char (c : string) : Prop :=
  exists a t, c = String a t /\ is_continuation a = false
    /\ Forall (fun b => is_continuation b = true) (String.list_ascii_of_string t).

Lemma utf8_chars_char a t cs :
  is_continuation a = false -> Forall (fun b => is_continuation b = true) (String.list_ascii_of_string t) ->
  forall s, at_boundary s -> utf8_chars s = cs -> utf8_chars (String a t +:+ s) = String a t :: cs.
Proof.
  intros Ha Ht s Hs <-. enough (forall a, utf8_chars (String a t +:+ s) = String a t :: utf8_chars s) by done.
  clear a Ha. induction t as [|b t IH]; intros a.
  - change (utf8_chars (String a s) = String a "" :: utf8_chars s). simpl.
    destruct (utf8_chars s) as [|c cs] eqn:E; [done|].
    destruct (chars_head _ _ _ E) as (b & s' & c' & -> & ->). simpl in Hs. by rewrite Hs.
  - inversion Ht as [|?? Hb Ht']; subst. specialize (IH Ht' b).
    change (utf8_chars (String a (String b t +:+ s)) = String a (String b t) :: utf8_chars s).
    cbn [utf8_chars]. rewrite IH. by rewrite Hb.
Qed.

Lemma of_chars_boundary cs : Forall is_char cs -> at_boundary (of_chars cs).
Proof. destruct 1 as [|c cs (a & t & -> & Ha & _)]; [done|]. exact Ha. Qed.

Lemma chars_of_chars cs : Forall is_char cs -> utf8_chars (of_chars cs) = cs.
Proof.
  induction 1 as [|c cs (a & t & -> & Ha & Ht) Hcs IH]; [done|].
  change (of_chars (String a t :: cs)) with (String a t +:+ of_chars cs).
  apply utf8_chars_char; [done..|by apply of_chars_boundary|done].
Qed.

Lemma chars_are_chars s : at_boundary s -> Forall is_char (utf8_chars s).
Proof.
  enough (forall c cs, utf8_chars s = c :: cs ->
    (exists a t, c = String a t /\ Forall (fun b => is_continuation b = true) (String.list_ascii_of_string t))
    /\ Forall is_char cs) as Hg.
  { intros Hs. destruct (utf8_chars s) as [|c cs] eqn:E; [constructor|].
    destruct (Hg _ _ eq_refl) as [(a & t & -> & Ht) Hcs]. constructor; [|done].
    destruct (chars_head _ _ _ E) as (b & s' & c' & -> & He). simplify_eq. by exists b, c'. }
  induction s as [|a s IH]; simpl; [done|]. intros c cs Hc.
  destruct (utf8_chars s) as [|d ds] eqn:E; [simplify_eq; split; [by exists a, ""|constructor]|].
  destruct (IH _ _ eq_refl) as [(b & t & -> & Ht) Hds].
  destruct (is_continuation b) eqn:Eb; simplify_eq.
  - split; [exists a, (String b t); split; [done|by constructor]|done].
  - split; [exists a, ""; by split; [|constructor]|]. constructor; [|done]. by exists b, t.
Qed.

(** Fit for a log line and for an error body. *)
Definition presentable (message : string) : Prop :=
  Forall (fun c => shown c = true) (utf8_chars message)
  /\ (char_count message <= REJECT_MESSAGE_MAX_CHARS)%nat
  /\ is_empty (trim_str message) = false.

Lemma sanitized_presentable raw : at_boundary raw -> presentable (sanitize_reject_message raw).
Proof.
  intros Hraw. unfold sanitize_reject_message. set (kept := take _ _).
  assert (Hk : Forall (fun c => is_char c /\ shown c = true) kept).
  { apply Forall_take. apply Forall_forall. intros c [Hs Hc]%list_elem_of_filter. split.
    - eapply Forall_forall; [|exact Hc]. by apply chars_are_chars.
    - by apply Is_true_eq_true. }
  assert (Hc : utf8_chars (of_chars kept) = kept).
  { apply chars_of_chars. eapply Forall_impl; [exact Hk|]. by intros ? []. }
  destruct (is_empty (trim_str (of_chars kept))) eqn:E.
  - split; [by repeat constructor|]. split; [|done]. unfold char_count, REJECT_MESSAGE_MAX_CHARS. vm_compute. lia.
  - split; [|split; [|done]].
    + rewrite Hc. eapply Forall_impl; [exact Hk|]. by intros ? [].
    + unfold char_count. rewrite Hc. subst kept. rewrite length_take. lia.
Qed.

Lemma clamp_is_4xx s : 400 <= clamp_reject_status s <= 499.
Proof. unfold clamp_reject_status, REJECT_STATUS_DEFAULT. case_match; lia. Qed.

Lemma clamp_idem s : 400 <= s <= 499 -> clamp_reject_status s = s.
Proof. unfold clamp_reject_status. case_match; lia. Qed.

(** What the code already cleaned stays as it is. *)
Lemma sanitize_idem m : presentable m -> sanitize_reject_message m = m.
Proof.
  intros (Hs & Hl & He). unfold sanitize_reject_message.
  rewrite filter_all by (eapply Forall_impl; [exact Hs|]; intros c Hc; by apply Is_true_eq_left).
  rewrite take_ge by exact Hl. by rewrite of_chars_chars, He.
Qed.

(** The message of a reject value is text. *)
Definition text_ok (v : Value) : Prop := forall s, get "message" v = Some (Str s) -> at_boundary s.

Lemma reject_detail_ok v status message :
  text_ok v -> parse_reject_detail v = (status, message) -> 400 <= status <= 499 /\ presentable message.
Proof.
  intros Hv [= <- <-]. split.
  - destruct ((get "status" v ≫= as_i64) ≫= try_u16); simpl; [apply clamp_is_4xx|unfold REJECT_STATUS_DEFAULT; lia].
  - apply sanitized_presentable. destruct (get "message" v) as [[]|] eqn:E; simpl; try done. by apply Hv.
Qed.
