(* ===== verification/HookProjection.v ===== *)
(** * HookProjection: what a hook is shown of a request, and what it may put back (proxy/hooks.rs)

    Routing and screening hooks do not see the body but a projection of it: sizes, and with a grant the
    text of every turn, read dialect by dialect. A rewrite hook answers with new turns, which are framed
    back into the caller's dialect. *)

From S2P Require Import Prelude Float64 Json HookWire.

#[local] Open Scope Z_scope.

(** ** Dialects (proto/mod.rs, proto/openai_responses/mod.rs) *)

Definition PROTO_ANTHROPIC : string := "anthropic".
Definition PROTO_OPENAI : string := "openai".
Definition PROTO_GEMINI : string := "gemini".
Definition PROTO_BEDROCK : string := "bedrock".
Definition PROTO_COHERE : string := "cohere".
Definition PROTO_RESPONSES : string := "responses".

Definition ITEM_TYPE_FUNCTION_CALL : string := "function_call".
Definition ITEM_TYPE_REASONING : string := "reasoning".
Definition CONTENT_TYPE_OUTPUT_TEXT : string := "output_text".
Definition CONTENT_TYPE_REASONING_TEXT : string := "reasoning_text".

Definition str_field (k : string) (v : Value) : option string := get k v ≫= as_str.
Definition array_field (k : string) (v : Value) : option (list Value) := get k v ≫= as_array.

(** A part without a [type], or with the expected one, and its [text]. *)
Definition reasoning_part (type_key : string) (part : Value) : option string :=
  match str_field "type" part with
  | Some t => if String.eqb t type_key then str_field "text" part else None
  | None => str_field "text" part
  end.

Definition read_reasoning_text (item : Value) : string :=
  String.concat EmptyString
    (omap (reasoning_part CONTENT_TYPE_REASONING_TEXT) (default [] (array_field "content" item))
     ++ omap (reasoning_part "summary_text") (default [] (array_field "summary" item))).

Definition read_reasoning_encrypted_content (item : Value) : option string :=
  s ← str_field "encrypted_content" item; if is_empty s then None else Some s.

(** ** The projections (api/src/hooks.rs, api/src/signal.rs) *)

Inductive Signal := CandidateBreakerState | CandidateErrorRate.

Inductive SignalValue := SV_Str (s : string) | SV_F64 (x : f64).

Record PromptProjection := mkPrompt {
  pp_system : option string;
  pp_messages : list (string * string)
}.

Record CallerIdentity := mkIdentity {
  ci_key_id : option string;
  ci_key_name : option string;
  ci_user : option string
}.

Record RoutingRequest := mkRouting {
  rr_request_id : Z;
  rr_pool : string;
  rr_ingress_protocol : string;
  rr_requested_model : option string;
  rr_message_count : nat;
  rr_tool_count : nat;
  rr_has_tools : bool;
  rr_total_chars : nat;
  rr_system_chars : nat;
  rr_max_tokens : option Z;
  rr_stream : bool;
  rr_prompt : option PromptProjection;
  rr_identity : option CallerIdentity;
  rr_signals : list (Signal * SignalValue)
}.

(** ** The text of a block *)

Definition REDACTED_REASONING_MARKER : string := "[busbar:redacted_reasoning]".

Inductive BlockText := BT_Text (t : string) | BT_Redacted | BT_None.

Definition generic_block_text (b : Value) : BlockText :=
  match str_field "text" b with Some t => BT_Text t | None => BT_None end.

Definition block_text (b : Value) (ingress_protocol : string) : BlockText :=
  if String.eqb ingress_protocol PROTO_ANTHROPIC then
    match str_field "type" b with
    | Some "thinking" =>
        match str_field "thinking" b with Some t => BT_Text t | None => BT_None end
    | Some "redacted_thinking" => BT_Redacted
    | _ => generic_block_text b
    end
  else if String.eqb ingress_protocol PROTO_BEDROCK then
    match pointer ["reasoningContent"; "reasoningText"; "text"] b ≫= as_str with
    | Some t => BT_Text t
    | None =>
        match pointer ["reasoningContent"; "redactedContent"] b with
        | Some _ => BT_Redacted
        | None => generic_block_text b
        end
    end
  else if String.eqb ingress_protocol PROTO_RESPONSES then
    if bool_decide (str_field "type" b = Some ITEM_TYPE_REASONING) then
      let text := read_reasoning_text b in
      if negb (is_empty text) then BT_Text text
      else match read_reasoning_encrypted_content b with Some _ => BT_Redacted | None => BT_None end
    else generic_block_text b
  else generic_block_text b.

(** What a hook is shown of a block. *)
Definition block_piece (ingress_protocol : string) (b : Value) : option string :=
  match block_text b ingress_protocol with
  | BT_Text t => Some t
  | BT_Redacted => Some REDACTED_REASONING_MARKER
  | BT_None => None
  end.

Definition block_chars (ingress_protocol : string) (b : Value) : nat :=
  match block_text b ingress_protocol with
  | BT_Text t => char_count t
  | BT_Redacted => char_count REDACTED_REASONING_MARKER
  | BT_None => 0
  end.

(** ** Sizes *)

Definition conversation_turns (v : Value) (ingress_protocol : string) : option (list Value) :=
  array_field (if String.eqb ingress_protocol PROTO_GEMINI then "contents"
               else if String.eqb ingress_protocol PROTO_RESPONSES then "input" else "messages") v.

Definition turn_count (v : Value) (ingress_protocol : string) : nat :=
  match conversation_turns v ingress_protocol with
  | Some turns => length turns
  | None =>
      match str_field "input" v with
      | Some _ => if String.eqb ingress_protocol PROTO_RESPONSES then 1 else 0
      | None => 0
      end
  end.

Definition max_tokens_for (v : Value) (ingress_protocol : string) : option Z :=
  let key := if String.eqb ingress_protocol PROTO_RESPONSES then "max_output_tokens" else "max_tokens" in
  (fun n => Z.min n (umax 32)) <$> (get key v ≫= as_u64).

Definition nat_sum (l : list nat) : nat := foldr Nat.add 0%nat l.

Definition part_texts (content : Value) : list string :=
  omap (str_field "text") (default [] (array_field "parts" content)).

Definition gemini_parts_chars (content : Value) : nat := nat_sum (char_count <$> part_texts content).

Definition system_text_chars (v : Value) (ingress_protocol : string) : nat :=
  if String.eqb ingress_protocol PROTO_GEMINI then
    match get "systemInstruction" v with Some s => gemini_parts_chars s | None => 0 end
  else if String.eqb ingress_protocol PROTO_RESPONSES then
    match str_field "instructions" v with Some s => char_count s | None => 0 end
  else match get "system" v with
       | Some (Str s) => char_count s
       | Some (Array blocks) => nat_sum (block_chars ingress_protocol <$> blocks)
       | _ => 0
       end.

Definition is_reasoning_item (m : Value) : bool :=
  bool_decide (str_field "type" m = Some ITEM_TYPE_REASONING).

(** One turn of [total_text_chars]' loop. *)
Definition turn_chars (ingress_protocol : string) (m : Value) : nat :=
  if String.eqb ingress_protocol PROTO_GEMINI then gemini_parts_chars m
  else if String.eqb ingress_protocol PROTO_RESPONSES && is_reasoning_item m
  then block_chars PROTO_RESPONSES m
  else match get "content" m with
       | Some (Str s) => char_count s
       | Some (Array blocks) => nat_sum (block_chars ingress_protocol <$> blocks)
       | _ => if String.eqb ingress_protocol PROTO_RESPONSES then block_chars PROTO_RESPONSES m else 0
       end.

Definition total_text_chars (v : Value) (ingress_protocol : string) (system_chars : nat) : nat :=
  system_chars +
  match conversation_turns v ingress_protocol with
  | Some turns => nat_sum (turn_chars ingress_protocol <$> turns)
  | None =>
      if String.eqb ingress_protocol PROTO_RESPONSES then
        match str_field "input" v with Some s => char_count s | None => 0 end
      else 0
  end.

Definition body_end_user (v : Value) : option string :=
  let nonempty s := if is_empty s then None else Some s in
  match str_field "user" v ≫= nonempty with
  | Some u => Some u
  | None => (get "metadata" v ≫= str_field "user_id") ≫= nonempty
  end.

(** ** The prompt *)

Definition NL : string := String (Ascii.ascii_of_nat 10) EmptyString.

(** [if !out.is_empty() { out.push('\n') }; out.push_str(&t)] *)
Definition push_piece (out t : string) : string :=
  (if is_empty out then EmptyString else out +:+ NL) +:+ t.

Definition flatten_content (c : option Value) (ingress_protocol : string) : string :=
  match c with
  | Some (Str s) => s
  | Some (Array blocks) => foldl push_piece EmptyString (omap (block_piece ingress_protocol) blocks)
  | _ => EmptyString
  end.

Definition flatten_gemini_parts (c : Value) : string := String.concat NL (part_texts c).

(** The text and the role of one turn. *)
Definition turn_text (ingress_protocol : string) (m : Value) : string :=
  if String.eqb ingress_protocol PROTO_GEMINI then flatten_gemini_parts m
  else if String.eqb ingress_protocol PROTO_RESPONSES && is_reasoning_item m
  then default EmptyString (block_piece PROTO_RESPONSES m)
  else if String.eqb ingress_protocol PROTO_RESPONSES && bool_decide (get "content" m = None)
  then default EmptyString (block_piece PROTO_RESPONSES m)
  else flatten_content (get "content" m) ingress_protocol.

Definition inferred_role (m : Value) : string :=
  match str_field "type" m with
  | Some t =>
      if String.eqb t CONTENT_TYPE_OUTPUT_TEXT || String.eqb t ITEM_TYPE_REASONING
         || String.eqb t ITEM_TYPE_FUNCTION_CALL then "assistant" else "user"
  | None => "user"
  end.

Definition turn_role (ingress_protocol : string) (m : Value) : string :=
  match str_field "role" m with
  | Some r =>
      if String.eqb ingress_protocol PROTO_GEMINI && String.eqb r "model" then "assistant" else r
  | None => if String.eqb ingress_protocol PROTO_RESPONSES then inferred_role m else EmptyString
  end.

Definition build_prompt_projection (v : Value) (ingress_protocol : string) : PromptProjection :=
  let system :=
    if String.eqb ingress_protocol PROTO_GEMINI then flatten_gemini_parts <$> get "systemInstruction" v
    else if String.eqb ingress_protocol PROTO_RESPONSES then str_field "instructions" v
    else (fun s => flatten_content (Some s) ingress_protocol) <$> get "system" v in
  let messages :=
    match conversation_turns v ingress_protocol with
    | Some turns => (fun m => (turn_role ingress_protocol m, turn_text ingress_protocol m)) <$> turns
    | None =>
        if String.eqb ingress_protocol PROTO_RESPONSES then
          match str_field "input" v with Some s => [("user", s)] | None => [] end
        else []
    end in
  mkPrompt (s ← system; if is_empty s then None else Some s) messages.

(** The projection a rewrite gate is sent, and a tap without a prompt grant. *)
Definition build_rewrite_request (v : Value) (pool ingress_protocol : string) (wants_stream with_prompt : bool)
    (request_id : Z) : RoutingRequest :=
  let system_chars := system_text_chars v ingress_protocol in
  let tools := default [] (array_field "tools" v) in
  mkRouting request_id pool ingress_protocol (str_field "model" v) (turn_count v ingress_protocol)
    (length tools) (negb (bool_decide (tools = []))) (total_text_chars v ingress_protocol system_chars)
    system_chars (max_tokens_for v ingress_protocol) wants_stream
    (if with_prompt then Some (build_prompt_projection v ingress_protocol) else None) None [].

(** ** Rewrites *)

(** [(role, text)] of every message of the reply, where all have both. *)
Definition as_text_pairs (rw : RewriteReply) : option (list (string * string)) :=
  mapM (fun m => role ← str_field "role" m; text ← str_field "content" m; Some (role, text)) (rw_messages rw).

Definition gemini_role (role : string) : string :=
  if String.eqb role "assistant" || String.eqb role "model" then "model" else "user".

Definition frame_bedrock (p : string * string) : Value :=
  Object [("role", Str p.1); ("content", Array [Object [("text", Str p.2)]])].
Definition frame_gemini (p : string * string) : Value :=
  Object [("role", Str (gemini_role p.1)); ("parts", Array [Object [("text", Str p.2)]])].
Definition frame_responses (p : string * string) : Value :=
  Object [("role", Str p.1); ("content", Str p.2)].

(** Whether the rewrite was applied, and the body after it. *)
Definition apply_rewrite_to_body (v : Value) (rw : RewriteReply) (ingress_protocol : string) : bool * Value :=
  match rw_messages rw, v with
  | [], _ => (false, v)
  | _, Object obj =>
      let is_list k := match field k obj with Some (Array _) => true | _ => false end in
      let reframe (container : bool) k frame :=
        if container then
          match as_text_pairs rw with
          | Some pairs => (true, Object (set_field k (Array (frame <$> pairs)) obj))
          | None => (false, v)
          end
        else (false, v) in
      if String.eqb ingress_protocol PROTO_BEDROCK then reframe (is_list "messages") "messages" frame_bedrock
      else if String.eqb ingress_protocol PROTO_GEMINI then reframe (is_list "contents") "contents" frame_gemini
      else if String.eqb ingress_protocol PROTO_RESPONSES then
        reframe (match field "input" obj with Some _ => true | None => false end) "input" frame_responses
      else if is_list "messages" then
        let obj := set_field "messages" (Array (rw_messages rw)) obj in
        let obj := match rw_tools rw with
                   | [] => obj
                   | tools =>
                       match field "tools" obj with
                       | Some (Array existing) => set_field "tools" (Array (existing ++ tools)) obj
                       | _ => set_field "tools" (Array tools) obj
                       end
                   end in
        (true, Object obj)
      else (false, v)
  | _, _ => (false, v)
  end.

(** * what the projections guarantee, and where they do not

    The projection keeps one entry per turn; a hook that answers with what it was shown changes nothing
    it is shown again; and exactly one shape of turn carries text that the sizes count and the prompt
    hides. *)


(** ** Empty texts *)

Lemma append_empty a b : a +:+ b = EmptyString -> a = EmptyString /\ b = EmptyString.
Proof. by destruct a. Qed.

Lemma concat_empty sep l : String.concat sep l = EmptyString -> Forall (fun s => s = EmptyString) l.
Proof.
  induction l as [|x [|y l] IH]; intros He; [constructor|by repeat constructor|].
  apply append_empty in He as [-> [_ He]%append_empty]. constructor; [done|by apply IH].
Qed.

Lemma push_piece_empty out t : push_piece out t = EmptyString -> out = EmptyString /\ t = EmptyString.
Proof.
  unfold push_piece. intros [Ho Ht]%append_empty. split; [|done]. destruct out; [done|].
  by apply append_empty in Ho as [].
Qed.

Lemma pushed_empty l : forall out, foldl push_piece out l = EmptyString ->
  out = EmptyString /\ Forall (fun s => s = EmptyString) l.
Proof.
  induction l as [|t l IH]; intros out; simpl; [by split|]. intros [[-> ->]%push_piece_empty Hl]%IH.
  split; [done|by constructor].
Qed.

Lemma block_chars_piece p b : block_chars p b = default 0%nat (char_count <$> block_piece p b).
Proof. unfold block_chars, block_piece. by destruct (block_text b p). Qed.

Lemma char_count_zero s : char_count s = 0%nat <-> s = EmptyString.
Proof. split; [|by intros ->]. unfold char_count. intros Hs%nil_length_inv. by apply chars_nil. Qed.

Lemma no_pieces_no_chars p blocks :
  Forall (fun s => s = EmptyString) (omap (block_piece p) blocks) -> nat_sum (block_chars p <$> blocks) = 0%nat.
Proof.
  induction blocks as [|b blocks IH]; [done|]. csimpl. rewrite block_chars_piece.
  destruct (block_piece p b) as [t|]; simpl; [|apply IH].
  intros [-> Hl]%Forall_cons. by rewrite IH.
Qed.

Lemma no_texts_no_chars l : Forall (fun s => s = EmptyString) l -> nat_sum (char_count <$> l) = 0%nat.
Proof. induction 1 as [|s l -> Hl IH]; [done|]. exact IH. Qed.

(** ** The hidden turn *)

(** An item with a [content] that is neither text nor a list, and its text beside it. *)
Definition hidden_turn (p : string) (m : Value) : Prop :=
  p = PROTO_RESPONSES /\ is_reasoning_item m = false
  /\ (exists c, get "content" m = Some c /\ as_str c = None /\ as_array c = None)
  /\ exists s, str_field "text" m = Some s /\ s <> EmptyString.

Lemma item_piece m :
  is_reasoning_item m = false -> block_piece PROTO_RESPONSES m = str_field "text" m.
Proof.
  unfold is_reasoning_item, block_piece, block_text. simpl. intros ->.
  unfold generic_block_text. by destruct (str_field "text" m).
Qed.

Lemma shown_or_empty p b :
  default EmptyString (block_piece p b) = EmptyString -> block_chars p b = 0%nat.
Proof. rewrite block_chars_piece. destruct (block_piece p b); simpl; [by intros ->|done]. Qed.

Lemma content_hides p m :
  p <> PROTO_RESPONSES -> flatten_content (get "content" m) p = EmptyString ->
  match get "content" m with
  | Some (Str s) => char_count s
  | Some (Array blocks) => nat_sum (block_chars p <$> blocks)
  | _ => if String.eqb p PROTO_RESPONSES then block_chars PROTO_RESPONSES m else 0%nat
  end = 0%nat.
Proof.
  intros Hp%String.eqb_neq. rewrite Hp. destruct (get "content" m) as [[]|]; simpl; try done.
  - by intros ->.
  - intros [_ Hl]%pushed_empty. by apply no_pieces_no_chars.
Qed.

Lemma other_turn_shown p m :
  p <> PROTO_RESPONSES -> turn_text p m = EmptyString -> turn_chars p m = 0%nat.
Proof.
  intros Hp. unfold turn_text, turn_chars. pose proof Hp as Hp'%String.eqb_neq. rewrite Hp'.
  destruct (String.eqb_spec p PROTO_GEMINI).
  - unfold flatten_gemini_parts, gemini_parts_chars. intros He%concat_empty. by apply no_texts_no_chars.
  - simpl. intros He. pose proof (content_hides p m Hp He) as Hc. by rewrite Hp' in Hc.
Qed.

Lemma responses_turn_hidden m :
  turn_text PROTO_RESPONSES m = EmptyString /\ (0 < turn_chars PROTO_RESPONSES m)%nat
  <-> hidden_turn PROTO_RESPONSES m.
Proof.
  unfold turn_text, turn_chars, hidden_turn. simpl.
  destruct (is_reasoning_item m) eqn:Er.
  { split; [|by intros (_ & ? & _)]. intros [He Hc]. rewrite (shown_or_empty _ _ He) in Hc. lia. }
  destruct (get "content" m) as [c|] eqn:Ec; simpl.
  2: { split; [|intros (_ & _ & (c & ? & _) & _); done].
       intros [He Hc]. rewrite (shown_or_empty _ _ He) in Hc. lia. }
  assert (Hitem : as_str c = None -> as_array c = None ->
    EmptyString = EmptyString /\ (0 < block_chars PROTO_RESPONSES m)%nat <->
    PROTO_RESPONSES = PROTO_RESPONSES /\ false = false
    /\ (exists c0, Some c = Some c0 /\ as_str c0 = None /\ as_array c0 = None)
    /\ exists s, str_field "text" m = Some s /\ s <> EmptyString).
  { intros Hs Ha. rewrite block_chars_piece, (item_piece _ Er). split.
    - intros [_ Hc]. split; [done|]. split; [done|]. split; [by exists c|].
      destruct (str_field "text" m) as [s|]; simpl in Hc; [|lia]. exists s. split; [done|].
      intros ->. unfold char_count in Hc. simpl in Hc. lia.
    - intros (_ & _ & _ & s & -> & Hs'). split; [done|]. simpl.
      destruct (char_count s) eqn:E; [by apply char_count_zero in E|lia]. }
  destruct c; try by apply Hitem.
  - split; [|intros (_ & _ & (c & [= <-] & Hc & _) & _); done]. simpl. intros [-> Hc].
    unfold char_count in Hc. simpl in Hc. lia.
  - split; [|intros (_ & _ & (c & [= <-] & _ & Hc) & _); done]. simpl. intros [[_ Hl]%pushed_empty Hc].
    rewrite (no_pieces_no_chars _ _ Hl) in Hc. lia.
Qed.

Lemma turn_hidden p m :
  turn_text p m = EmptyString /\ (0 < turn_chars p m)%nat <-> hidden_turn p m.
Proof.
  destruct (decide (p = PROTO_RESPONSES)) as [->|Hp]; [apply responses_turn_hidden|].
  split; [|by intros [? _]]. intros [He Hc]. rewrite (other_turn_shown _ _ Hp He) in Hc. lia.
Qed.

(** The prompt projection has one entry per turn, in order, and hides the text of a turn in exactly one
    shape: an item of the Responses dialect that is not a reasoning item, whose [content] is present but is
    neither a string nor a list (a [null], say), and that carries its text beside it. The sizes count that
    text, so a hook granted the prompt is told of characters it is not shown. *)
Theorem projection_hides_only_one_shape p v :
  length (pp_messages (build_prompt_projection v p)) = turn_count v p
  /\ forall turns i m, conversation_turns v p = Some turns -> turns !! i = Some m ->
       exists role text, pp_messages (build_prompt_projection v p) !! i = Some (role, text)
         /\ (text = EmptyString /\ (0 < turn_chars p m)%nat <-> hidden_turn p m).
Proof.
  split.
  - unfold build_prompt_projection, turn_count. simpl.
    destruct (conversation_turns v p) as [turns|]; [by rewrite length_fmap|].
    destruct (String.eqb p PROTO_RESPONSES), (str_field "input" v); done.
  - intros turns i m Ht Hi. exists (turn_role p m), (turn_text p m). split; [|apply turn_hidden].
    unfold build_prompt_projection. simpl. rewrite Ht. by rewrite list_lookup_fmap, Hi.
Qed.

(** ** Echoes *)

(** A hook's answer with exactly the messages it was shown. *)
Definition echo (p : string * string) : Value := Object [("role", Str p.1); ("content", Str p.2)].

(** The role an echoed turn comes back with: gemini knows two. *)
Definition echoed_role (p r : string) : string :=
  if String.eqb p PROTO_GEMINI && negb (String.eqb r "assistant") then "user" else r.

Lemma echo_pairs pairs tools : as_text_pairs (mkRewrite (echo <$> pairs) tools) = Some pairs.
Proof.
  apply mapM_Some. cbn [rw_messages]. apply Forall2_fmap_l, Forall2_same_length_lookup_2; [done|].
  intros i [r t] q Hx Hy. by simplify_eq.
Qed.

Lemma str_field_set k k' x obj :
  k <> k' -> str_field k' (Object (set_field k x obj)) = str_field k' (Object obj).
Proof. intros Hk. unfold str_field, get. by rewrite field_set_ne. Qed.

(** The projection of a body whose turns were replaced. *)
Definition with_turns (p : string) (turns : list Value) (obj obj' : list (string * Value)) : Prop :=
  conversation_turns (Object obj') p = Some turns
  /\ forall k, k ∈ ["system"; "systemInstruction"; "instructions"] -> field k obj' = field k obj.

Lemma projection_of_turns p turns obj obj' :
  with_turns p turns obj obj' ->
  pp_system (build_prompt_projection (Object obj') p) = pp_system (build_prompt_projection (Object obj) p)
  /\ pp_messages (build_prompt_projection (Object obj') p) = (fun m => (turn_role p m, turn_text p m)) <$> turns.
Proof.
  intros [Ht Hf]. unfold build_prompt_projection. rewrite Ht. split; [|done]. simpl.
  unfold str_field, get. rewrite !Hf by set_solver. done.
Qed.

Lemma reframed p turns_key turns obj :
  (if String.eqb p PROTO_GEMINI then "contents" else if String.eqb p PROTO_RESPONSES then "input" else "messages")
    = turns_key ->
  turns_key ∉ ["system"; "systemInstruction"; "instructions"] ->
  with_turns p turns obj (set_field turns_key (Array turns) obj).
Proof.
  intros Hk Hn. split.
  - unfold conversation_turns, array_field, get. by rewrite Hk, field_set_eq.
  - intros k Hin. apply field_set_ne. by intros ->.
Qed.

Lemma framed_turns p (frame : string * string -> Value) (pairs : list (string * string)) :
  (forall r t, turn_role p (frame (r, t)) = echoed_role p r /\ turn_text p (frame (r, t)) = t) ->
  (fun m => (turn_role p m, turn_text p m)) <$> (frame <$> pairs)
  = (fun '(r, t) => (echoed_role p r, t)) <$> pairs.
Proof.
  intros Hf. rewrite <- list_fmap_compose. apply list_fmap_ext. intros i [r t] _. simpl.
  by destruct (Hf r t) as [-> ->].
Qed.

Lemma frame_bedrock_shown r t :
  turn_role PROTO_BEDROCK (frame_bedrock (r, t)) = echoed_role PROTO_BEDROCK r
  /\ turn_text PROTO_BEDROCK (frame_bedrock (r, t)) = t.
Proof. done. Qed.

Lemma frame_responses_shown r t :
  turn_role PROTO_RESPONSES (frame_responses (r, t)) = echoed_role PROTO_RESPONSES r
  /\ turn_text PROTO_RESPONSES (frame_responses (r, t)) = t.
Proof. done. Qed.

Lemma frame_gemini_shown r t :
  r <> "model" ->
  turn_role PROTO_GEMINI (frame_gemini (r, t)) = echoed_role PROTO_GEMINI r
  /\ turn_text PROTO_GEMINI (frame_gemini (r, t)) = t.
Proof.
  intros Hr%String.eqb_neq. split; [|done]. unfold turn_role, echoed_role, frame_gemini, gemini_role.
  cbn [str_field get field String.eqb]. simpl. rewrite Hr, orb_false_r.
  destruct (String.eqb_spec r "assistant") as [->|]; done.
Qed.

Lemma echo_shown p r t :
  p <> PROTO_GEMINI -> p <> PROTO_RESPONSES ->
  turn_role p (echo (r, t)) = echoed_role p r /\ turn_text p (echo (r, t)) = t.
Proof.
  intros Hg%String.eqb_neq Hr%String.eqb_neq. unfold turn_role, turn_text, echoed_role. rewrite Hg, Hr. done.
Qed.

(** No dialect projects the role [model] that gemini alone maps on the way back. *)
Lemma projected_roles m : turn_role PROTO_GEMINI m <> "model".
Proof.
  unfold turn_role. simpl. destruct (str_field "role" m) as [r|]; [|done].
  destruct (String.eqb_spec r "model") as [->|]; done.
Qed.

Lemma gemini_turns (pairs : list (string * string)) :
  Forall (fun q => q.1 <> "model") pairs ->
  (fun m => (turn_role PROTO_GEMINI m, turn_text PROTO_GEMINI m)) <$> (frame_gemini <$> pairs)
  = (fun '(r, t) => (echoed_role PROTO_GEMINI r, t)) <$> pairs.
Proof.
  intros Hp. rewrite <- list_fmap_compose. apply list_fmap_ext. intros i [r t] Hi. simpl.
  pose proof (Forall_lookup_1 _ _ _ _ Hp Hi) as Hr. by destruct (frame_gemini_shown r t Hr) as [-> ->].
Qed.

(** The tools of a reply change no turn. *)
Lemma tools_keep_turns p turns x obj obj' :
  p <> PROTO_GEMINI -> p <> PROTO_RESPONSES ->
  with_turns p turns obj obj' -> with_turns p turns obj (set_field "tools" x obj').
Proof.
  intros Hg%String.eqb_neq Hr%String.eqb_neq [Ht Hf]. split.
  - rewrite <- Ht. unfold conversation_turns, array_field, get. rewrite Hg, Hr. by rewrite field_set_ne.
  - intros k Hk. rewrite field_set_ne; [by apply Hf|]. intros <-. set_solver.
Qed.

(** What an applied echo leaves. *)
Lemma echo_turns p v (pairs : list (string * string)) tools v' :
  (p = PROTO_GEMINI -> Forall (fun q => q.1 <> "model") pairs) ->
  apply_rewrite_to_body v (mkRewrite (echo <$> pairs) tools) p = (true, v') ->
  exists obj obj' turns, v = Object obj /\ v' = Object obj' /\ with_turns p turns obj obj'
    /\ (fun m => (turn_role p m, turn_text p m)) <$> turns = (fun '(r, t) => (echoed_role p r, t)) <$> pairs.
Proof.
  intros Hg. unfold apply_rewrite_to_body. rewrite (echo_pairs pairs tools). cbn [rw_messages rw_tools].
  destruct (echo <$> pairs) as [|x l] eqn:El; [by intros [=]|]. rewrite <- El. clear x l El.
  destruct v as [| | | | |obj]; try by intros [=]. intros He. exists obj.
  assert (Hre : forall k frame, v' = Object (set_field k (Array (frame <$> pairs)) obj) ->
    (if String.eqb p PROTO_GEMINI then "contents" else if String.eqb p PROTO_RESPONSES then "input" else "messages") = k ->
    k ∉ ["system"; "systemInstruction"; "instructions"] ->
    (fun m => (turn_role p m, turn_text p m)) <$> (frame <$> pairs) = (fun '(r, t) => (echoed_role p r, t)) <$> pairs ->
    exists obj' turns, Object obj = Object obj /\ v' = Object obj' /\ with_turns p turns obj obj'
      /\ (fun m => (turn_role p m, turn_text p m)) <$> turns = (fun '(r, t) => (echoed_role p r, t)) <$> pairs).
  { intros k frame -> Hk Hn Hf. do 2 eexists. split; [done|]. split; [done|]. split; [|exact Hf]. by apply reframed. }
  destruct (String.eqb_spec p PROTO_BEDROCK) as [->|Hb].
  { case_match; [|done]. injection He as <-. eapply Hre; [done|done|set_solver|]. by apply framed_turns. }
  destruct (String.eqb_spec p PROTO_GEMINI) as [->|Hgem].
  { case_match; [|done]. injection He as <-. eapply Hre; [done|done|set_solver|]. by apply gemini_turns, Hg. }
  destruct (String.eqb_spec p PROTO_RESPONSES) as [->|Hres].
  { case_match; [|done]. injection He as <-. eapply Hre; [done|done|set_solver|]. by apply framed_turns. }
  case_match; [|done]. injection He as <-.
  assert (Hw : with_turns p (echo <$> pairs) obj (set_field "messages" (Array (echo <$> pairs)) obj)).
  { apply reframed; [|set_solver]. by rewrite (proj2 (String.eqb_neq _ _) Hgem), (proj2 (String.eqb_neq _ _) Hres). }
  do 2 eexists. split; [done|]. split; [done|]. split; [|by apply framed_turns; intros; apply echo_shown].
  destruct tools as [|x tools]; [done|]. destruct (field "tools" _) as [[]|]; by apply tools_keep_turns.
Qed.

(** A rewrite hook that answers with what it was shown loses nothing: when its echo is applied, whatever
    the dialect and whatever tools it adds, the next hook is shown the same system prompt and the same turns
    with the same texts - in gemini's dialect with every role but the assistant's turned into the user's. *)
Theorem echo_keeps_the_projection p v tools v' :
  apply_rewrite_to_body v (mkRewrite (echo <$> pp_messages (build_prompt_projection v p)) tools) p = (true, v') ->
  pp_system (build_prompt_projection v' p) = pp_system (build_prompt_projection v p)
  /\ pp_messages (build_prompt_projection v' p)
     = (fun '(r, t) => (echoed_role p r, t)) <$> pp_messages (build_prompt_projection v p).
Proof.
  intros He. apply echo_turns in He as (obj & obj' & turns & -> & -> & Hw & Ht).
  - destruct (projection_of_turns _ _ _ _ Hw) as [-> ->]. by rewrite <- Ht.
  - intros ->. unfold build_prompt_projection. simpl.
    destruct (conversation_turns v PROTO_GEMINI) as [turns|]; simpl; [|constructor].
    apply Forall_fmap, Forall_forall. intros m _. apply projected_roles.
Qed.

(** ** Witnesses *)

(** A two-turn gemini body. *)
Definition demo_gemini : Value :=
  Object [("systemInstruction", Object [("parts", Array [Object [("text", Str "be brief")]])]);
          ("contents", Array
             [Object [("role", Str "user"); ("parts", Array [Object [("text", Str "a")]; Object [("text", Str "b")]])];
              Object [("role", Str "model"); ("parts", Array [Object [("text", Str "c")]])]])].

(** A Responses body whose only item hides its text. *)
Definition demo_hidden : Value :=
  Object [("input", Array [Object [("type", Str "input_text"); ("content", Null); ("text", Str "secret")]])].

Example demo_gemini_shown :
  build_prompt_projection demo_gemini PROTO_GEMINI
  = mkPrompt (Some "be brief") [("user", "a" +:+ NL +:+ "b"); ("assistant", "c")].
Proof. reflexivity. Qed.

Example demo_hidden_shown :
  pp_messages (build_prompt_projection demo_hidden PROTO_RESPONSES) = [("user", "")]
  /\ total_text_chars demo_hidden PROTO_RESPONSES 0 = 6%nat.
Proof. split; reflexivity. Qed.

Lemma projection_hides_only_one_shape_witness :
  exists role, pp_messages (build_prompt_projection demo_hidden PROTO_RESPONSES) !! 0%nat = Some (role, EmptyString).
Proof.
  destruct (proj2 (projection_hides_only_one_shape PROTO_RESPONSES demo_hidden)
    [Object [("type", Str "input_text"); ("content", Null); ("text", Str "secret")]] 0%nat
    (Object [("type", Str "input_text"); ("content", Null); ("text", Str "secret")]) eq_refl eq_refl)
    as (role & text & Hl & Hh).
  exists role. destruct Hh as [_ Hh]. destruct Hh as [-> _]; [|exact Hl].
  split; [done|]. split; [done|]. split; [by exists Null|]. by exists "secret".
Defined.

Lemma echo_keeps_the_projection_witness :
  exists v', apply_rewrite_to_body demo_gemini
      (mkRewrite (echo <$> pp_messages (build_prompt_projection demo_gemini PROTO_GEMINI)) []) PROTO_GEMINI = (true, v')
    /\ pp_messages (build_prompt_projection v' PROTO_GEMINI)
       = pp_messages (build_prompt_projection demo_gemini PROTO_GEMINI).
Proof.
  eexists. split; [reflexivity|].
  exact (proj2 (echo_keeps_the_projection PROTO_GEMINI demo_gemini [] _ eq_refl)).
Defined.
