(* ===== verification/Ranking.v ===== *)
(** * Ranking: the built-in ordering hooks (hooks-ranking/src/lib.rs)

    [cheapest], [fastest], [least_busy] and [usage] each sort the candidates by one live signal; a lane
    without the signal comes last but stays reachable. *)

From S2P Require Import Prelude Float64 Json HookWire HookProjection.
From Stdlib Require Import SpecFloat.

#[local] Open Scope Z_scope.

(** ** Candidates (api/src/hooks.rs) *)

Record Candidate := mkCandidate {
  cand_idx : nat;
  cand_model : string;
  cand_provider : string;
  cand_weight : Z;
  cand_context_max : option Z;
  cand_tier : option string;
  cand_cost_per_mtok : option f64;
  cand_tags : list string;
  cand_latency_ms : option f64;
  cand_available_concurrency : Z;
  cand_budget_remaining : option Z;
  cand_rate_headroom : option f64;
  cand_signals : list (Signal * SignalValue)
}.

(** ** The sort *)

Class PartialCmp (K : Type) := partial_cmp : K -> K -> option comparison.

#[export] Instance f64_partial_cmp : PartialCmp f64 := SFcompare.
#[export] Instance Z_partial_cmp : PartialCmp Z := fun a b => Some (Z.compare a b).

(** [Ordering::then] *)
Definition then_cmp (a b : comparison) : comparison := match a with Eq => b | _ => a end.

(** The comparison of both sorts; [flip]: the larger key first. *)
Definition cmp_keyed {K} `{PartialCmp K} (flip : bool) (a b : nat * option K) : comparison :=
  match a.2, b.2 with
  | Some x, Some y =>
      then_cmp (default Eq (if flip then partial_cmp y x else partial_cmp x y)) (Nat.compare a.1 b.1)
  | Some _, None => Lt
  | None, Some _ => Gt
  | None, None => Nat.compare a.1 b.1
  end.

Definition rank_by {K} `{PartialCmp K} (flip : bool) (candidates : list Candidate)
    (key : Candidate -> option K) : RoutingDecision :=
  let keyed := (fun c => (cand_idx c, key c)) <$> candidates in
  if forallb (fun x => match x.2 with None => true | Some _ => false end) keyed then RD_Abstain
  else RD_Prefer ((sort_by (cmp_keyed flip) keyed).*1).

Definition rank_ascending_by {K} `{PartialCmp K} := rank_by (K := K) false.
Definition rank_descending_by {K} `{PartialCmp K} := rank_by (K := K) true.

(** ** The policies *)

Inductive NativePolicy := WeightedPolicy | CheapestPolicy | FastestPolicy | LeastBusyPolicy | UsagePolicy.

Definition POLICY_NAME_WEIGHTED : string := "weighted".
Definition POLICY_NAME_CHEAPEST : string := "cheapest".
Definition POLICY_NAME_FASTEST : string := "fastest".
Definition POLICY_NAME_LEAST_BUSY : string := "least_busy".
Definition POLICY_NAME_USAGE : string := "usage".

Definition native_name (p : NativePolicy) : string :=
  match p with
  | WeightedPolicy => POLICY_NAME_WEIGHTED
  | CheapestPolicy => POLICY_NAME_CHEAPEST
  | FastestPolicy => POLICY_NAME_FASTEST
  | LeastBusyPolicy => POLICY_NAME_LEAST_BUSY
  | UsagePolicy => POLICY_NAME_USAGE
  end.

Definition native_policy (name : string) : option NativePolicy :=
  if String.eqb name POLICY_NAME_WEIGHTED then Some WeightedPolicy
  else if String.eqb name POLICY_NAME_CHEAPEST then Some CheapestPolicy
  else if String.eqb name POLICY_NAME_FASTEST then Some FastestPolicy
  else if String.eqb name POLICY_NAME_LEAST_BUSY then Some LeastBusyPolicy
  else if String.eqb name POLICY_NAME_USAGE then Some UsagePolicy
  else None.

Definition native_decide (p : NativePolicy) (candidates : list Candidate) : RoutingDecision :=
  match p with
  | WeightedPolicy => RD_Abstain
  | CheapestPolicy => rank_ascending_by candidates cand_cost_per_mtok
  | FastestPolicy => rank_ascending_by candidates cand_latency_ms
  | LeastBusyPolicy => rank_descending_by candidates (fun c => Some (cand_available_concurrency c))
  | UsagePolicy => rank_descending_by candidates cand_rate_headroom
  end.

Lemma native_names p : native_policy (native_name p) = Some p.
Proof. by destruct p. Qed.

(** ** Total keys

    Keys that a rank orders: what [partial_cmp] says of them is the lexicographic order of three
    integers. Every number but a NaN is one. *)

Definition lex (a b : Z * Z * Z) : comparison :=
  then_cmp (Z.compare a.1.1 b.1.1) (then_cmp (Z.compare a.1.2 b.1.2) (Z.compare a.2 b.2)).

Class RankedKey (K : Type) `{PartialCmp K} := {
  key_rank : K -> option (Z * Z * Z);
  key_rank_cmp : forall a b x y, key_rank a = Some x -> key_rank b = Some y -> partial_cmp a b = Some (lex x y);
}.

Lemma compare_cont_Z m n : Pos.compare_cont Eq m n = Z.compare (Zpos m) (Zpos n).
Proof. done. Qed.

#[export, refine] Instance Z_ranked : RankedKey Z := { key_rank z := Some (z, 0, 0) }.
Proof. intros a b x y [= <-] [= <-]. unfold partial_cmp, Z_partial_cmp, lex. simpl. by destruct (a ?= b). Defined.

#[export, refine] Instance f64_ranked : RankedKey f64 := {
  key_rank x := match x with
                | S754_nan => None
                | S754_infinity true => Some (-2, 0, 0)
                | S754_finite true m e => Some (-1, - e, - Zpos m)
                | S754_zero _ => Some (0, 0, 0)
                | S754_finite false m e => Some (1, e, Zpos m)
                | S754_infinity false => Some (2, 0, 0)
                end }.
Proof.
  intros a b x y Ha Hb. unfold partial_cmp, f64_partial_cmp.
  destruct a as [sa|sa| |sa ma ea], b as [sb|sb| |sb mb eb]; try done;
    repeat match goal with s : bool |- _ => destruct s end; simplify_eq; try done; unfold lex; simpl.
  - rewrite Z.compare_opp, (Z.compare_antisym ea eb). by destruct (ea ?= eb).
  - rewrite compare_cont_Z. by destruct (ea ?= eb).
Defined.

(** ** What a rank is *)

(** [lex], then the indices. *)
Definition lex_idx (x y : (Z * Z * Z) * nat) : comparison := then_cmp (lex x.1 y.1) (Nat.compare x.2 y.2).

Lemma lex_idx_trans x y z : lex_idx x y <> Gt -> lex_idx y z <> Gt -> lex_idx x z <> Gt.
Proof.
  destruct x as [[[a1 a2] a3] i], y as [[[b1 b2] b3] j], z as [[[c1 c2] c3] k].
  unfold lex_idx, lex, then_cmp. simpl.
  destruct (Z.compare_spec a1 b1), (Z.compare_spec b1 c1), (Z.compare_spec a1 c1); try done; try lia;
  destruct (Z.compare_spec a2 b2), (Z.compare_spec b2 c2), (Z.compare_spec a2 c2); try done; try lia;
  destruct (Z.compare_spec a3 b3), (Z.compare_spec b3 c3), (Z.compare_spec a3 c3); try done; try lia.
  rewrite !Nat.compare_le_iff. lia.
Qed.

Lemma lex_idx_flip x y : lex_idx y x = CompOpp (lex_idx x y).
Proof.
  unfold lex_idx, lex. rewrite (Z.compare_antisym x.1.1.1 y.1.1.1), (Z.compare_antisym x.1.1.2 y.1.1.2),
    (Z.compare_antisym x.1.2 y.1.2), (Nat.compare_antisym x.2 y.2).
  by destruct (x.1.1.1 ?= y.1.1.1), (x.1.1.2 ?= y.1.1.2), (x.1.2 ?= y.1.2), (x.2 ?= y.2)%nat.
Qed.

(** The key as the sort sees it. *)
Definition directed (flip : bool) (a : Z * Z * Z) : Z * Z * Z :=
  if flip then (- a.1.1, - a.1.2, - a.2) else a.

Lemma lex_directed flip a b : (if flip : bool then lex b a else lex a b) = lex (directed flip a) (directed flip b).
Proof. destruct flip; [|done]. unfold lex, directed. simpl. by rewrite !Z.compare_opp. Qed.

Section rank.
Context {K : Type} `{RankedKey K}.

(** [a] may come before [b]: the better signal first, a lane without one last, ties by index. *)
Definition ranks_before (flip : bool) (key : Candidate -> option K) (a b : Candidate) : Prop :=
  match key a, key b with
  | Some x, Some y =>
      let o := if flip then partial_cmp y x else partial_cmp x y in
      o = Some Lt \/ (o = Some Eq /\ (cand_idx a <= cand_idx b)%nat)
  | Some _, None => True
  | None, Some _ => False
  | None, None => (cand_idx a <= cand_idx b)%nat
  end.

(** The signals present are numbers. *)
Definition ranked_key (x : option K) : Prop := forall k, x = Some k -> is_Some (key_rank k).

Definition signals_ok (key : Candidate -> option K) (candidates : list Candidate) : Prop :=
  Forall (fun c => ranked_key (key c)) candidates.

Lemma key_directed (flip : bool) (x y : K) : is_Some (key_rank x) -> is_Some (key_rank y) ->
  exists a b, key_rank x = Some a /\ key_rank y = Some b
    /\ (if flip then partial_cmp y x else partial_cmp x y) = Some (lex (directed flip a) (directed flip b)).
Proof.
  intros [a Ha] [b Hb]. exists a, b. split; [done|]. split; [done|].
  rewrite <- lex_directed. destruct flip; by apply key_rank_cmp.
Qed.

(** What the sort compares. *)
Definition keyed_rank (flip : bool) (x : nat * option K) : (Z * Z * Z) * nat :=
  match x.2 ≫= key_rank with Some a => (directed flip a, x.1) | None => ((0, 0, 0), x.1) end.

Lemma cmp_keyed_rank flip x y :
  ranked_key x.2 -> ranked_key y.2 ->
  cmp_keyed flip x y = match x.2, y.2 with
                       | Some _, None => Lt
                       | None, Some _ => Gt
                       | _, _ => lex_idx (keyed_rank flip x) (keyed_rank flip y)
                       end.
Proof.
  destruct x as [i [x|]], y as [j [y|]]; unfold cmp_keyed; simpl; intros Hx Hy; try done.
  destruct (key_directed flip x y (Hx x eq_refl) (Hy y eq_refl)) as (a & b & Ha & Hb & Hd).
  rewrite Hd. unfold keyed_rank. simpl. by rewrite Ha, Hb.
Qed.

Lemma keyed_flip flip (x y : nat * option K) :
  ranked_key x.2 -> ranked_key y.2 -> cmp_keyed flip y x = CompOpp (cmp_keyed flip x y).
Proof.
  intros Hx Hy. rewrite !cmp_keyed_rank by done. destruct x.2, y.2; try done; apply lex_idx_flip.
Qed.

Lemma keyed_trans flip (x y z : nat * option K) :
  ranked_key x.2 -> ranked_key y.2 -> ranked_key z.2 ->
  not_after (cmp_keyed flip) x y -> not_after (cmp_keyed flip) y z -> not_after (cmp_keyed flip) x z.
Proof.
  intros Hx Hy Hz. unfold not_after. rewrite !cmp_keyed_rank by done.
  destruct x.2, y.2, z.2; try done; apply lex_idx_trans.
Qed.

Lemma keyed_ranks_before flip key a b :
  ranked_key (key a) -> ranked_key (key b) ->
  not_after (cmp_keyed flip) (cand_idx a, key a) (cand_idx b, key b) -> ranks_before flip key a b.
Proof.
  unfold not_after, cmp_keyed, ranks_before. simpl. intros Ha Hb.
  destruct (key a) as [x|], (key b) as [y|]; try done; [|by rewrite Nat.compare_le_iff].
  destruct (key_directed flip x y (Ha x eq_refl) (Hb y eq_refl)) as (p & q & _ & _ & Hd). rewrite Hd. simpl.
  destruct (lex (directed flip p) (directed flip q)); simpl; [|by left|done].
  rewrite Nat.compare_le_iff. by right.
Qed.

Lemma sorted_impl {A} (R S : A -> A -> Prop) (P : A -> Prop) l :
  Forall P l -> (forall x y, P x -> P y -> R x y -> S x y) -> StronglySorted R l -> StronglySorted S l.
Proof.
  intros Hp Hi Hs. induction Hs as [|x l Hs IH Hx]; [constructor|]. apply Forall_cons in Hp as [Hpx Hp].
  constructor; [by apply IH|]. rewrite Forall_forall in *. auto.
Qed.

(** A built-in ranking loses no lane and breaks every tie: it abstains exactly when no candidate has the
    signal, and otherwise prefers all the candidates, each once, the better signal first, those without the
    signal last, equals by index. *)
Theorem ranking_orders_every_candidate flip (key : Candidate -> option K) candidates :
  signals_ok key candidates ->
  (rank_by flip candidates key = RD_Abstain /\ Forall (fun c => key c = None) candidates)
  \/ exists ranked, rank_by flip candidates key = RD_Prefer (cand_idx <$> ranked)
       /\ ranked ≡ₚ candidates /\ Exists (fun c => key c <> None) candidates
       /\ StronglySorted (ranks_before flip key) ranked.
Proof.
  intros Hok. unfold rank_by. destruct (forallb _ _) eqn:E; [left|right].
  - split; [done|]. rewrite forallb_forall in E. apply Forall_forall. intros c Hc.
    specialize (E (cand_idx c, key c)). simpl in E.
    assert (Hin : In (cand_idx c, key c) ((fun c => (cand_idx c, key c)) <$> candidates)).
    { apply list_elem_of_In, list_elem_of_fmap. by exists c. }
    specialize (E Hin). by destruct (key c).
  - rewrite sort_by_fmap, <- list_fmap_compose. eexists. split; [done|].
    split; [apply sort_by_perm|]. split.
    + destruct (decide (Exists (fun c => key c <> None) candidates)) as [|Hn]; [done|].
      apply not_Exists_Forall in Hn; [|intros c; apply _]. exfalso. apply not_true_iff_false in E.
      apply E, forallb_forall. intros [i x] (c & [= -> ->] & Hc)%list_elem_of_In%list_elem_of_fmap. simpl.
      rewrite Forall_forall in Hn. specialize (Hn c Hc). simpl in Hn. destruct (key c); [by destruct Hn|done].
    + eapply sorted_impl; [|intros x y; apply keyed_ranks_before|].
      * rewrite sort_by_perm. exact Hok.
      * apply sort_by_sorted with (ok := fun c => ranked_key (key c)); [| |done].
        -- intros x y z Hx Hy Hz. by apply keyed_trans.
        -- intros x y Hx Hy Hg. unfold not_after. by rewrite keyed_flip, Hg.
Qed.
End rank.

(** ** A pool of three: two priced lanes and one without a price *)

Definition priced (i : nat) (cost : option f64) : Candidate :=
  mkCandidate i "m" "p" 1 None None cost [] None 0 None None [].

Definition three : list Candidate :=
  [priced 0 (Some (S754_finite false 6755399441055744 (-51))); priced 1 None;
   priced 2 (Some (S754_finite false 4503599627370496 (-52)))].

Lemma ranking_orders_every_candidate_witness :
  exists ranked, rank_by false three cand_cost_per_mtok = RD_Prefer (cand_idx <$> ranked)
    /\ ranked ≡ₚ three /\ rank_by false three cand_cost_per_mtok = RD_Prefer [2; 0; 1]%nat.
Proof.
  destruct (ranking_orders_every_candidate false cand_cost_per_mtok three) as [[_ Hn]|(ranked & Hr & Hp & _)].
  - repeat constructor; intros k [= <-]; by eexists.
  - exfalso. apply Forall_cons in Hn as [Hn _]. discriminate Hn.
  - exists ranked. split; [exact Hr|]. split; [exact Hp|]. vm_compute. reflexivity.
Defined.
