(* ===== verification/BreakerFsm.v ===== *)
(** * BreakerFsm

    The breaker cell as a concurrent object.  Every state-changing access the
    code makes to a cell is one of the atomic steps [CellOp] (a critical section
    of the transition lock, or a single atomic store), so any execution of any
    number of request, prober and administration threads is a sequence of such
    steps.  The file gives the abstract three-state machine of ADR-0002, proves
    that every atomic step refines it, and proves the invariants of a cell for
    every reachable state, including the single-flight discipline of the
    recovery probe and the behaviour of stale probe releases. *)

From Stdlib Require Import SpecFloat.
From S2P Require Import Prelude Float64 Breaker.

(** ** Atomic steps *)

Inductive CellOp :=
  | OpAcquire (now : Z)
  | OpFailPre (now : Z)
  | OpFail (now : Z) (cfg : BreakerCfg) (ra : option Z) (e : Entropy)
  | OpSuccess (now : Z)
  | OpHardDown (now : Z)
  | OpRelease
  | OpReleaseOwned (owned : Z)
  | OpRecover (now observed : Z)
  | OpWeight (w : Z)
  | OpCountErr.

(** Abstract machine: which transitions each kind of step may take. *)
Inductive fsm_step : CellOp -> BreakerState -> BreakerState -> Prop :=
  | fsm_stay_acquire now s : fsm_step (OpAcquire now) s s
  | fsm_probe now until :
      until <= now -> fsm_step (OpAcquire now) (BS_Open until) BS_HalfOpen
  | fsm_count now s : fsm_step (OpFailPre now) s s
  | fsm_fail_closed now cfg ra e : fsm_step (OpFail now cfg ra e) BS_Closed BS_Closed
  | fsm_trip now cfg ra e until :
      Z.min (now + 1) U64_MAX <= until ->
      fsm_step (OpFail now cfg ra e) BS_Closed (BS_Open until)
  | fsm_reopen now cfg ra e until :
      Z.min (now + 1) U64_MAX <= until ->
      fsm_step (OpFail now cfg ra e) BS_HalfOpen (BS_Open until)
  | fsm_fail_open now cfg ra e until :
      fsm_step (OpFail now cfg ra e) (BS_Open until) (BS_Open until)
  | fsm_success_closed now : fsm_step (OpSuccess now) BS_Closed BS_Closed
  | fsm_success_probe now : fsm_step (OpSuccess now) BS_HalfOpen BS_Closed
  | fsm_success_open now until :
      fsm_step (OpSuccess now) (BS_Open until) (BS_Open until)
  | fsm_hard_down now s until :
      now <= until -> fsm_step (OpHardDown now) s (BS_Open until)
  | fsm_release_probe until : fsm_step OpRelease BS_HalfOpen (BS_Open until)
  | fsm_release_stay s : s <> BS_HalfOpen -> fsm_step OpRelease s s
  | fsm_release_owned o until : fsm_step (OpReleaseOwned o) BS_HalfOpen (BS_Open until)
  | fsm_release_owned_stay o s : fsm_step (OpReleaseOwned o) s s
  | fsm_recover now o s : fsm_step (OpRecover now o) s BS_Closed
  | fsm_recover_rearmed now o until :
      o < until -> fsm_step (OpRecover now o) (BS_Open until) (BS_Open until)
  | fsm_recover_half now o : fsm_step (OpRecover now o) BS_HalfOpen BS_HalfOpen
  | fsm_weight w s : fsm_step (OpWeight w) s s
  | fsm_count_err s : fsm_step OpCountErr s s.

Section cell.
(** The store-wide hard-down cooldown and honoured [Retry-After] ceiling. *)
Context (hd maxh : Z).

Definition run_op (op : CellOp) (c : BreakerCell) : option BreakerCell :=
  match op with
  | OpAcquire now => Some (cell_acquire_locked c now).1
  | OpFailPre now => Some (record_failure_pre c now)
  | OpFail now cfg ra e => fst <$> record_failure_locked c now cfg ra maxh e
  | OpSuccess now => Some (cell_record_success c now).1
  | OpHardDown now => Some (cell_hard_down c now hd)
  | OpRelease => Some (cell_release_probe c)
  | OpReleaseOwned o => Some (cell_release_probe_owned c o)
  | OpRecover now o => Some (cell_closed_if_recoverable c now o).1
  | OpWeight w => Some (set_weight w c)
  | OpCountErr => Some (set_err (wrap 64 (err c + 1)) c)
  end.

(** Clock readings are [u64]; failure recording uses a validated configuration. *)
Definition op_ok (op : CellOp) : Prop :=
  match op with
  | OpAcquire now | OpFailPre now | OpSuccess now | OpHardDown now => is_u64 now
  | OpFail now cfg _ _ => is_u64 now /\ cfg_valid cfg
  | OpRecover now _ => is_u64 now
  | OpRelease | OpReleaseOwned _ | OpWeight _ | OpCountErr => True
  end.

Definition cell_step (c c' : BreakerCell) : Prop :=
  exists op, op_ok op /\ run_op op c = Some c'.

(** Cells of a running store: reached from a fresh cell by atomic steps. *)
Definition cell_reachable (c : BreakerCell) : Prop := rtc cell_step BreakerCell_new c.

Hypothesis Hhd : is_u64 hd.
Hypothesis Hmaxh : is_u64 maxh.

Lemma open_locked_wf c now cfg ra e :
  cell_wf c -> is_u64 now -> cfg_valid cfg ->
  exists c', cell_open_locked c now cfg ra maxh e = Some c' /\ cell_wf c'
    /\ breaker_state c' = ST_OPEN
    /\ Z.min (now + 1) U64_MAX <= cooldown_until c'.
Proof.
  intros [Hst Hpr Hsk Hcd Hep Hwin] Hn Hv.
  destruct (cooldown_total c cfg ra maxh e Hv) as (d & Hd & ?); [by destruct Hsk|].
  unfold cell_open_locked. rewrite Hd. simpl. eexists. split; [reflexivity|].
  assert (is_u64 (now +sat d)) by (apply sat_add_u64; [done|lia]).
  split; [|split; [done|]].
  - split; simpl; auto with busbar; try (by right; left).
    unfold ST_OPEN, ST_HALF_OPEN. split; [done|lia].
  - simpl. unfold sat_add. lia.
Qed.

Lemma closed_locked_wf c : cell_wf c -> cell_wf (cell_closed_locked c).
Proof.
  intros []. split; simpl; auto using window_clear_wf; try by (vm_compute; auto).
Qed.

Lemma set_streak_wf c v : cell_wf c -> is_u32 v -> cell_wf (set_streak v c).
Proof. by intros [] ?; split. Qed.

Lemma record_failure_locked_wf c now cfg ra e :
  cell_wf c -> is_u64 now -> cfg_valid cfg ->
  exists c' b, record_failure_locked c now cfg ra maxh e = Some (c', b) /\ cell_wf c'
    /\ fsm_step (OpFail now cfg ra e) (cell_breaker_state c) (cell_breaker_state c').
Proof.
  intros Hc Hn Hv. unfold record_failure_locked.
  set (cs := set_streak (wrap 32 (streak c + 1)) c).
  assert (Hcs : cell_wf cs) by (apply set_streak_wf; [done|apply wrap_range; lia]).
  destruct (open_locked_wf cs now cfg ra e Hcs Hn Hv) as (co & Hco & Hwo & Hso & Hun).
  destruct (wf_state _ Hc) as [Hs|[Hs|Hs]]; rewrite Hs; simpl.
  - rewrite Hco.
    destruct (cooldown_total cs cfg ra maxh e Hv) as (d & Hd & ?); [by destruct Hcs as [_ _ []]|].
    rewrite Hd. unfold cell_breaker_state at 1. rewrite Hs. simpl.
    destruct (should_trip cs now cfg); simpl; do 2 eexists; (split; [reflexivity|]).
    + split; [done|]. unfold cell_breaker_state. rewrite Hso. simpl. by constructor.
    + split.
      * destruct Hcs. split; simpl; auto. apply sat_add_u64; [done|lia].
      * unfold cell_breaker_state. simpl. rewrite Hs. simpl. constructor.
  - do 2 eexists. split; [reflexivity|]. split; [done|].
    unfold cell_breaker_state. rewrite Hs. simpl. constructor.
  - rewrite Hco. simpl. do 2 eexists. split; [reflexivity|]. split; [done|].
    unfold cell_breaker_state. rewrite Hs, Hso. simpl. by constructor.
Qed.

Lemma failure_pre_wf c now : cell_wf c -> cell_wf (record_failure_pre c now).
Proof. intros []. split; simpl; auto using window_push_wf. Qed.

Lemma release_wf c : cell_wf c -> cell_wf (cell_release_probe c).
Proof.
  intros []. unfold cell_release_probe, cas_state.
  destruct (breaker_state c =? ST_HALF_OPEN) eqn:E; zbool; split; simpl; auto;
    unfold ST_OPEN, ST_CLOSED, ST_HALF_OPEN in *; try lia; by split; [|lia].
Qed.

Lemma release_owned_wf c o : cell_wf c -> cell_wf (cell_release_probe_owned c o).
Proof.
  intros H. unfold cell_release_probe_owned. case_match; [done|]. by apply release_wf.
Qed.

Lemma acquire_locked_wf c now : cell_wf c -> cell_wf (cell_acquire_locked c now).1.
Proof.
  intros Hc. unfold cell_acquire_locked, cas_state.
  destruct (_ || _) eqn:E; [done|]. zbool.
  match goal with H : breaker_state c = ST_OPEN |- _ => rewrite H end. simpl.
  destruct Hc. split; simpl; auto with busbar. done.
Qed.

Lemma success_wf c now : cell_wf c -> cell_wf (cell_record_success c now).1.
Proof.
  intros Hc. unfold cell_record_success.
  set (c1 := if negb (breaker_state c =? ST_OPEN) then set_streak 0 c else c).
  assert (H1 : cell_wf c1).
  { unfold c1. case_match; [|done]. apply set_streak_wf; done. }
  set (c2 := set_window (window_push (outcome_window c1) now false) c1).
  assert (H2 : cell_wf c2) by (destruct H1; split; simpl; auto using window_push_wf).
  unfold cas_state. destruct (breaker_state c2 =? ST_HALF_OPEN); [|done].
  simpl. apply (closed_locked_wf c2) in H2. by destruct H2.
Qed.

Lemma hard_down_wf c now : cell_wf c -> is_u64 now -> cell_wf (cell_hard_down c now hd).
Proof.
  intros [] ?. split; simpl; auto; try by (right; left).
  - unfold ST_OPEN, ST_HALF_OPEN. split; [done|lia].
  - apply sat_add_u64; [done|]. by destruct Hhd.
Qed.

Lemma recover_wf c now o : cell_wf c -> cell_wf (cell_closed_if_recoverable c now o).1.
Proof.
  intros. unfold cell_closed_if_recoverable. case_match; [done|]. simpl.
  case_match; [by apply closed_locked_wf|done].
Qed.

(** Every atomic step of a well-formed cell returns (no panic), keeps the cell
    well-formed and refines the abstract machine. *)
Lemma run_op_refines op c :
  cell_wf c -> op_ok op ->
  exists c', run_op op c = Some c' /\ cell_wf c'
    /\ fsm_step op (cell_breaker_state c) (cell_breaker_state c').
Proof.
  intros Hc Hop. pose proof (wf_state _ Hc) as Hst.
  destruct op as [now|now|now cfg ra e|now|now| |o|now o|w|]; simpl in *.
  - eexists. split; [reflexivity|]. split; [by apply acquire_locked_wf|].
    unfold cell_acquire_locked, cas_state.
    destruct (_ || _) eqn:E; [constructor|]. zbool.
    unfold cell_breaker_state at 1.
    match goal with H : breaker_state c = ST_OPEN |- _ => rewrite H end. simpl. by constructor.
  - eexists. split; [reflexivity|]. split; [by apply failure_pre_wf|].
    unfold cell_breaker_state. simpl. constructor.
  - destruct Hop as [Hn Hv].
    destruct (record_failure_locked_wf c now cfg ra e Hc Hn Hv) as (c' & b & -> & ? & ?).
    simpl. eauto.
  - eexists. split; [reflexivity|]. split; [by apply success_wf|].
    unfold cell_record_success, cas_state, cell_breaker_state.
    destruct Hst as [Hs|[Hs|Hs]]; rewrite Hs; simpl; rewrite ?Hs; simpl; rewrite ?Hs; constructor.
  - eexists. split; [reflexivity|]. split; [by apply hard_down_wf|].
    unfold cell_breaker_state at 2. simpl. constructor. apply sat_add_ge; [done|].
    by destruct Hhd.
  - eexists. split; [reflexivity|]. split; [by apply release_wf|].
    unfold cell_release_probe, cas_state, cell_breaker_state.
    destruct Hst as [Hs|[Hs|Hs]]; rewrite Hs; simpl; rewrite ?Hs; simpl; by constructor.
  - eexists. split; [reflexivity|]. split; [by apply release_owned_wf|].
    unfold cell_release_probe_owned. case_match; [constructor|].
    unfold cas_state, cell_breaker_state.
    destruct Hst as [Hs|[Hs|Hs]]; rewrite Hs; simpl; rewrite ?Hs; simpl; constructor.
  - eexists. split; [reflexivity|]. split; [by apply recover_wf|].
    unfold cell_closed_if_recoverable, cell_breaker_state.
    destruct (o <? _) eqn:Eo; zbool; simpl.
    + destruct Hst as [Hs|[Hs|Hs]]; rewrite Hs; simpl; by constructor.
    + destruct (_ || _) eqn:Es; simpl; [constructor|]. zbool.
      match goal with H : breaker_state c = ST_CLOSED |- _ => rewrite H end. constructor.
  - eexists. split; [reflexivity|]. split; [|constructor].
    destruct Hc. by split.
  - eexists. split; [reflexivity|]. split; [|constructor].
    destruct Hc. by split.
Qed.

Lemma cell_step_wf c c' : cell_wf c -> cell_step c c' -> cell_wf c'.
Proof.
  intros Hc (op & Hop & Hr). destruct (run_op_refines op c Hc Hop) as (? & ? & ? & _).
  by simplify_eq.
Qed.

Lemma cell_reachable_wf c : cell_reachable c -> cell_wf c.
Proof.
  intros Hr. unfold cell_reachable in Hr.
  assert (H : forall c0, cell_wf c0 -> rtc cell_step c0 c -> cell_wf c).
  { intros c0 H0 Hrt. induction Hrt; [done|]. eauto using cell_step_wf. }
  by apply (H BreakerCell_new cell_wf_new).
Qed.
End cell.

(** ** Runs *)

Fixpoint run_ops (hd maxh : Z) (ops : list CellOp) (c : BreakerCell) : option BreakerCell :=
  match ops with
  | [] => Some c
  | op :: ops => c' ← run_op hd maxh op c; run_ops hd maxh ops c'
  end.

Inductive fsm_run : list CellOp -> BreakerState -> BreakerState -> Prop :=
  | fsm_run_nil s : fsm_run [] s s
  | fsm_run_cons op ops s s' s'' :
      fsm_step op s s' -> fsm_run ops s' s'' -> fsm_run (op :: ops) s s''.

(** What a store guarantees about its own limits. *)
Definition limits_ok (hd maxh : Z) : Prop := is_u64 hd /\ is_u64 maxh.

Lemma run_ops_wf hd maxh ops c :
  limits_ok hd maxh -> cell_wf c -> Forall op_ok ops ->
  exists c', run_ops hd maxh ops c = Some c' /\ cell_wf c'
    /\ fsm_run ops (cell_breaker_state c) (cell_breaker_state c').
Proof.
  intros [Hh Hm] Hc Hops. revert c Hc. induction Hops as [|op ops Hop _ IH]; intros c Hc; simpl.
  - exists c. repeat split; try apply Hc. constructor.
  - destruct (run_op_refines hd maxh Hh op c Hc Hop) as (c1 & -> & H1 & Hs). simpl.
    destruct (IH c1 H1) as (c' & -> & H' & Hr). exists c'. split_and!; [done..|].
    by econstructor.
Qed.

(** Fields no transition but the probe win / the window push may change. *)
Definition same_frame (c c' : BreakerCell) : Prop :=
  capacity (outcome_window c') = capacity (outcome_window c) /\ probe_epoch c' = probe_epoch c.

Lemma record_failure_locked_frame c now cfg ra maxh e c' b :
  record_failure_locked c now cfg ra maxh e = Some (c', b) -> same_frame c c'.
Proof.
  unfold record_failure_locked, cell_open_locked. intros H.
  repeat case_match; mbind_inv; done.
Qed.

Lemma run_op_frame hd maxh op c c' :
  (forall now, op <> OpAcquire now) -> run_op hd maxh op c = Some c' -> same_frame c c'.
Proof.
  intros Hne. destruct op; simpl; intros H; simplify_eq; try done.
  - by destruct (Hne now).
  - apply fmap_Some in H as ([c1 b] & H & ->). by eapply record_failure_locked_frame.
  - unfold cell_record_success, cas_state. by repeat (case_match; simplify_eq/=).
  - unfold cell_release_probe, cas_state. by case_match.
  - unfold cell_release_probe_owned, cas_state. by repeat case_match.
  - unfold cell_closed_if_recoverable. by repeat (case_match; simpl).
Qed.

Lemma run_op_capacity hd maxh op c c' :
  run_op hd maxh op c = Some c' ->
  capacity (outcome_window c') = capacity (outcome_window c).
Proof.
  intros H. destruct op as [now| | | | | | | | |];
    [|by apply run_op_frame in H as [??]; [|intros ? [=]]..].
  simpl in H. simplify_eq. unfold cell_acquire_locked, cas_state.
  by repeat (case_match; simplify_eq/=).
Qed.

Lemma run_ops_capacity hd maxh ops c c' :
  run_ops hd maxh ops c = Some c' ->
  capacity (outcome_window c') = capacity (outcome_window c).
Proof.
  revert c. induction ops as [|op ops IH]; simpl; intros c H; mbind_inv; [done|].
  etransitivity; [by eapply IH|]. by eapply run_op_capacity.
Qed.

(** ** Ownership of the recovery probe *)

(** Ghost history: the owner tokens handed to the winners of the single-flight
    probe so far, latest first. *)
Inductive probe_step (hd maxh : Z) :
    BreakerCell * list Z -> BreakerCell * list Z -> Prop :=
  | ps_win now c c' issued :
      is_u64 now -> cell_acquire_locked c now = (c', true) ->
      probe_step hd maxh (c, issued) (c', probe_epoch c' :: issued)
  | ps_lose now c c' issued :
      is_u64 now -> cell_acquire_locked c now = (c', false) ->
      probe_step hd maxh (c, issued) (c', issued)
  | ps_other op c c' issued :
      op_ok op -> (forall now, op <> OpAcquire now) -> run_op hd maxh op c = Some c' ->
      probe_step hd maxh (c, issued) (c', issued).

Definition probe_reachable (hd maxh : Z) (s : BreakerCell * list Z) : Prop :=
  rtc (probe_step hd maxh) (BreakerCell_new, []) s.

Lemma acquire_locked_false c now c' : cell_acquire_locked c now = (c', false) -> c' = c.
Proof.
  unfold cell_acquire_locked, cas_state. intros. repeat (case_match; simplify_eq); done.
Qed.

Lemma acquire_locked_true c now c' :
  cell_acquire_locked c now = (c', true) ->
  breaker_state c = ST_OPEN /\ cooldown_until c <= now
  /\ breaker_state c' = ST_HALF_OPEN /\ probe_epoch c' = wrap 64 (probe_epoch c + 1).
Proof.
  unfold cell_acquire_locked, cas_state. intros H.
  destruct (_ || _) eqn:E; simplify_eq. zbool.
  match goal with H : breaker_state c = ST_OPEN |- _ => rewrite H in * end.
  simpl in *. by simplify_eq.
Qed.

(** Tokens are the win count; so they never repeat before 2^64 wins. *)
Definition tokens_ok (s : BreakerCell * list Z) : Prop :=
  probe_epoch s.1 = Z.of_nat (length s.2)
  /\ Forall (fun e => 1 <= e <= Z.of_nat (length s.2)) s.2
  /\ NoDup s.2
  /\ (s.2 = [] \/ exists older, s.2 = probe_epoch s.1 :: older).

Lemma probe_step_length hd maxh s s' :
  probe_step hd maxh s s' -> (length s.2 <= length s'.2)%nat.
Proof. intros []; simpl; lia. Qed.

Lemma tokens_ok_step hd maxh s s' :
  tokens_ok s -> probe_step hd maxh s s' -> Z.of_nat (length s'.2) < 2 ^ 64 -> tokens_ok s'.
Proof.
  intros (He & HF & Hnd & Hh) Hs Hlen. destruct Hs as [now c c' iss Hn Ha|now c c' iss Hn Ha|op c c' iss ? Hop Hr]; simpl in *.
  - apply acquire_locked_true in Ha as (_ & _ & _ & Hep).
    rewrite He, wrap_small in Hep by lia. unfold tokens_ok; simpl. rewrite Hep. split_and!.
    + lia.
    + constructor; [lia|]. eapply Forall_impl; [apply HF|]. simpl. lia.
    + constructor; [|done]. intros Hin. rewrite Forall_forall in HF. apply HF in Hin. lia.
    + right. by eexists.
  - apply acquire_locked_false in Ha as ->. done.
  - apply run_op_frame in Hr as [_ Hr]; [|done]. unfold tokens_ok; simpl. by rewrite Hr.
Qed.

Lemma tokens_ok_reachable hd maxh s :
  probe_reachable hd maxh s -> Z.of_nat (length s.2) < 2 ^ 64 -> tokens_ok s.
Proof.
  intros Hr. apply rtc_ind_r with (P := fun s => Z.of_nat (length s.2) < 2 ^ 64 -> tokens_ok s)
    in Hr; [done|..].
  - intros _. split_and!; simpl; [done|constructor|constructor|by left].
  - intros y z _ Hs IH Hlen. eapply tokens_ok_step; [apply IH| |]; [|done..].
    apply probe_step_length in Hs. lia.
Qed.

Lemma half_open_state c :
  breaker_state c = ST_HALF_OPEN -> cell_breaker_state c = BS_HalfOpen.
Proof. unfold cell_breaker_state. by intros ->. Qed.

Lemma half_open_acquire c now :
  breaker_state c = ST_HALF_OPEN ->
  cell_acquire_breaker c now = (c, false) /\ cell_acquire_locked c now = (c, false)
  /\ cell_ready_breaker c now = false.
Proof.
  intros H. unfold cell_acquire_breaker, cell_acquire_precheck, cell_acquire_locked,
    cell_ready_breaker, breaker_verdict. by rewrite H.
Qed.

(** ** Sticky suppression *)

(** Steps that cannot re-admit a cell hard-downed at [t] before its deadline:
    any request-path step whose clock has not reached the deadline, a later
    hard-down, and a recovery whose probe observed an earlier cooldown. *)
Definition sticky_op (hd t : Z) (op : CellOp) : Prop :=
  match op with
  | OpAcquire now => now < t +sat hd
  | OpHardDown now => t <= now
  | OpRecover _ o => o < t +sat hd
  | _ => True
  end.

Definition parked (deadline : Z) (c : BreakerCell) : Prop :=
  breaker_state c = ST_OPEN /\ deadline <= cooldown_until c.

Lemma parked_step hd maxh t op c c' :
  parked (t +sat hd) c -> sticky_op hd t op -> run_op hd maxh op c = Some c' ->
  parked (t +sat hd) c'.
Proof.
  intros [Hs Hd] Hop Hr. destruct op; simpl in *; simplify_eq.
  - unfold cell_acquire_locked. assert (now <? cooldown_until c = true) as -> by (apply Z.ltb_lt; lia).
    by rewrite orb_true_r.
  - done.
  - unfold record_failure_locked in Hr. rewrite Hs in Hr. simpl in Hr. by simplify_eq.
  - unfold cell_record_success, cas_state. rewrite Hs. simpl. rewrite Hs. done.
  - unfold parked, cell_hard_down, sat_add in *. simpl. split; [done|lia].
  - unfold cell_release_probe, cas_state. by rewrite Hs.
  - unfold cell_release_probe_owned, cas_state. case_match; [done|]. by rewrite Hs.
  - unfold cell_closed_if_recoverable.
    by assert (observed <? cooldown_until c = true) as -> by (apply Z.ltb_lt; lia).
  - done.
  - done.
Qed.

Lemma parked_run hd maxh t ops c c' :
  parked (t +sat hd) c -> Forall (sticky_op hd t) ops -> run_ops hd maxh ops c = Some c' ->
  parked (t +sat hd) c'.
Proof.
  intros Hp HF. revert c Hp. induction HF as [|op ops Hop _ IH]; simpl; intros c Hp Hr; mbind_inv;
    eauto using parked_step.
Qed.

Lemma hard_down_parked c t hd : parked (t +sat hd) (cell_hard_down c t hd).
Proof. by split. Qed.

Lemma parked_refuses deadline c now :
  parked deadline c -> now < deadline ->
  cell_ready_breaker c now = false /\ cell_acquire_breaker c now = (c, false).
Proof.
  intros [Hs Hd] Hn.
  unfold cell_ready_breaker, breaker_verdict, cell_acquire_breaker, cell_acquire_precheck.
  rewrite Hs. simpl. assert (cooldown_until c <=? now = false) as -> by (apply Z.leb_gt; lia). done.
Qed.

Lemma closed_locked_ready c now : 0 <= now -> cell_ready_breaker (cell_closed_locked c) now = true.
Proof.
  intros. unfold cell_ready_breaker, breaker_verdict. simpl.
  by assert (0 <=? now = true) as -> by (by apply Z.leb_le).
Qed.

(** ** Properties of the cell *)

(** C30. Whatever sequence of atomic steps (any interleaving of request threads, the
    prober and hard-downs) a fresh cell goes through, no step panics, the run
    refines the abstract breaker machine step by step, and the resulting cell is
    well formed: its state encoding is one of the three sentinels, the probe
    flag is set exactly in HalfOpen, and the outcome window stays within 1024
    entries. *)
Theorem breaker_cell_invariant hd maxh ops :
  limits_ok hd maxh -> Forall op_ok ops ->
  exists c, run_ops hd maxh ops BreakerCell_new = Some c
    /\ fsm_run ops BS_Closed (cell_breaker_state c)
    /\ breaker_state c ∈ [ST_CLOSED; ST_OPEN; ST_HALF_OPEN]
    /\ (probe_in_flight c = true <-> breaker_state c = ST_HALF_OPEN)
    /\ is_u64 (cooldown_until c) /\ is_u32 (streak c)
    /\ Z.of_nat (length (entries (outcome_window c))) <= OUTCOME_WINDOW_CAPACITY.
Proof.
  intros Hl Hops.
  destruct (run_ops_wf hd maxh ops BreakerCell_new Hl cell_wf_new Hops) as (c & Hr & Hw & Hf).
  exists c. pose proof (run_ops_capacity _ _ _ _ _ Hr) as Hcap.
  destruct Hw as [Hst Hpr Hsk Hcd Hep [_ Hwin]]. rewrite Hcap in Hwin.
  split_and!; try done. rewrite !elem_of_cons. tauto.
Qed.

Definition demo_entropy : Entropy := mkEntropy 1700000000123456789 140735340871680.
Definition demo_ops : list CellOp :=
  [OpHardDown 1000; OpAcquire 2800; OpFailPre 2801;
   OpFail 2801 BreakerCfg_default (Some 7) demo_entropy; OpReleaseOwned 1].

Lemma breaker_cell_invariant_witness :
  exists c, run_ops 1800 86400 demo_ops BreakerCell_new = Some c
    /\ probe_in_flight c = false /\ breaker_state c = ST_OPEN.
Proof.
  destruct (breaker_cell_invariant 1800 86400 demo_ops) as (c & Hr & _ & _ & Hp & _).
  - by split.
  - unfold demo_ops. repeat constructor; try done.
  - exists c. split; [done|]. vm_compute in Hr. injection Hr as <-. done.
Defined.

(** No wedge: on a reachable HalfOpen cell, whichever step ends the probe - the
    dispatched request's failure or success, a hard-down, the unowned release,
    or the owner's release with its own token - leaves no probe in flight, and from the cell's
    cooldown deadline on the next request is admitted again. *)
Theorem probe_never_wedges hd maxh c op now' :
  limits_ok hd maxh -> cell_reachable hd maxh c -> breaker_state c = ST_HALF_OPEN ->
  op_ok op ->
  match op with
  | OpFail _ _ _ _ | OpSuccess _ | OpHardDown _ | OpRelease => True
  | OpReleaseOwned o => o = probe_epoch c
  | _ => False
  end ->
  exists c', run_op hd maxh op c = Some c' /\ probe_in_flight c' = false
    /\ breaker_state c' <> ST_HALF_OPEN
    /\ (cooldown_until c' <= now' -> (cell_acquire_breaker c' now').2 = true).
Proof.
  intros [Hh Hm] Hr Hs Hop Hkind.
  pose proof (cell_reachable_wf hd maxh Hh c Hr) as Hw.
  destruct (run_op_refines hd maxh Hh op c Hw Hop) as (c' & Hrun & Hw' & Hf).
  exists c'. assert (breaker_state c' <> ST_HALF_OPEN) as Hne.
  { intros Heq. rewrite (half_open_state c Hs), (half_open_state c' Heq) in Hf.
    destruct op; try done; inversion Hf; subst; try done.
    simpl in Hrun. simplify_eq. unfold cell_release_probe_owned, cas_state in Heq.
    rewrite Z.eqb_refl in Heq. simpl in Heq. rewrite Hs in Heq. discriminate. }
  split_and!; [done| |done|].
  - destruct (probe_in_flight c') eqn:E; [|done]. by apply (wf_probe _ Hw') in E.
  - intros Hnow. unfold cell_acquire_breaker, cell_acquire_precheck, cell_acquire_locked, cas_state.
    destruct (wf_state _ Hw') as [Hs'|[Hs'|Hs']]; [| |done]; rewrite Hs'; simpl.
    + by apply Z.leb_le.
    + assert (cooldown_until c' <=? now' = true) as -> by (by apply Z.leb_le).
      assert (now' <? cooldown_until c' = false) as -> by (by apply Z.ltb_ge).
      done.
Qed.

Definition demo_half_open : BreakerCell :=
  default BreakerCell_new (run_ops 1800 86400 [OpHardDown 1000; OpAcquire 2800] BreakerCell_new).

Lemma probe_never_wedges_witness :
  exists c', run_op 1800 86400 (OpReleaseOwned 1) demo_half_open = Some c'
    /\ (cell_acquire_breaker c' 2800).2 = true.
Proof.
  destruct (probe_never_wedges 1800 86400 demo_half_open (OpReleaseOwned 1) 2800)
    as (c' & Hr & _ & _ & Ha); try done.
  - eapply rtc_l; [exists (OpHardDown 1000); split; [done|reflexivity]|].
    eapply rtc_l; [exists (OpAcquire 2800); split; [done|reflexivity]|]. reflexivity.
  - exists c'. split; [done|]. apply Ha. vm_compute in Hr. injection Hr as <-. vm_compute. discriminate.
Defined.

(** Single flight: in every execution with fewer than 2^64 probe wins, all owner
    tokens handed out are distinct, the cell's epoch is the latest token, a release
    with any older token is a no-op on the cell (a stalled guard can never revert
    a newer probe), and while the probe is in flight nobody else is admitted. *)
Theorem stale_probe_release_is_noop hd maxh c latest older :
  probe_reachable hd maxh (c, latest :: older) ->
  Z.of_nat (length (latest :: older)) < 2 ^ 64 ->
  probe_epoch c = latest /\ NoDup (latest :: older)
  /\ Forall (fun e => cell_release_probe_owned c e = c) older
  /\ (breaker_state c = ST_HALF_OPEN ->
      forall now, cell_acquire_breaker c now = (c, false)
        /\ cell_acquire_locked c now = (c, false)).
Proof.
  intros Hr Hlen. destruct (tokens_ok_reachable _ _ _ Hr Hlen) as (He & HF & Hnd & [|[o Ho]]);
    simpl in *; [done|].
  injection Ho as -> ->. split_and!; [done|done| |].
  - apply Forall_forall. intros e Hin. unfold cell_release_probe_owned.
    destruct (probe_epoch c =? e) eqn:E; [|done]. zbool. subst.
    apply NoDup_cons in Hnd as [Hnot _]. done.
  - intros Hs now. destruct (half_open_acquire c now Hs) as (? & ? & _). done.
Qed.

Lemma stale_probe_release_is_noop_witness :
  exists c, probe_reachable 1800 86400 (c, [2; 1])
    /\ breaker_state c = ST_HALF_OPEN /\ cell_release_probe_owned c 1 = c.
Proof.
  set (c := default BreakerCell_new (run_ops 1800 86400
     [OpHardDown 1000; OpAcquire 2800; OpHardDown 2801; OpAcquire 5000] BreakerCell_new)).
  assert (Hr : probe_reachable 1800 86400 (c, [2; 1])).
  { eapply rtc_l; [by eapply (ps_other _ _ (OpHardDown 1000))|].
    eapply rtc_l; [by eapply (ps_win _ _ 2800)|].
    eapply rtc_l; [by eapply (ps_other _ _ (OpHardDown 2801))|].
    eapply rtc_l; [by eapply (ps_win _ _ 5000)|]. reflexivity. }
  destruct (stale_probe_release_is_noop 1800 86400 c 2 [1] Hr) as (_ & _ & HF & _); [done|].
  exists c. split; [done|]. split; [reflexivity|]. by apply Forall_inv in HF.
Defined.

(** A hard-down is sticky: after it, no interleaving of request-path steps that
    run before its deadline, of later hard-downs, of releases, and of recoveries whose
    probe observed an earlier cooldown can make the cell ready or admit a probe
    before the deadline. *)
Theorem hard_down_sticky hd maxh c t ops c' now :
  Forall (sticky_op hd t) ops -> run_ops hd maxh ops (cell_hard_down c t hd) = Some c' ->
  now < t +sat hd ->
  cell_ready_breaker c' now = false /\ cell_acquire_breaker c' now = (c', false)
  /\ breaker_state c' = ST_OPEN.
Proof.
  intros HF Hr Hn. pose proof (parked_run _ _ _ _ _ _ (hard_down_parked c t hd) HF Hr) as Hp.
  destruct (parked_refuses _ _ _ Hp Hn). by destruct Hp.
Qed.

Lemma hard_down_sticky_witness :
  exists c', run_ops 1800 86400 [OpSuccess 1200; OpAcquire 1300; OpRecover 1400 1100]
               (cell_hard_down BreakerCell_new 1000 1800) = Some c'
    /\ cell_ready_breaker c' 2799 = false.
Proof.
  eexists. split; [reflexivity|].
  eapply (hard_down_sticky 1800 86400 BreakerCell_new 1000
            [OpSuccess 1200; OpAcquire 1300; OpRecover 1400 1100] _ 2799).
  - repeat constructor; simpl; try done; vm_compute; reflexivity.
  - reflexivity.
  - vm_compute. reflexivity.
Defined.

(** A recovery probe's close is validated against the cooldown it observed: with no
    interference the observed suppression is cleared and the cell admits at once; if a
    concurrent hard-down armed a cooldown later than the observed one, the close
    changes nothing, whatever other pre-deadline steps ran in between. *)
Theorem recover_close_discipline hd maxh c now o t ops c' :
  0 <= now -> cell_observe c now = Some o ->
  (exists cr, cell_closed_if_recoverable c now o = (cr, true)
     /\ cell_breaker_state cr = BS_Closed /\ probe_in_flight cr = false
     /\ forall now', 0 <= now' -> cell_ready_breaker cr now' = true)
  /\ (o < t +sat hd -> Forall (sticky_op hd t) ops ->
      run_ops hd maxh ops (cell_hard_down c t hd) = Some c' ->
      cell_closed_if_recoverable c' now o = (c', false)).
Proof.
  intros Hn Ho. unfold cell_observe in Ho. case_match eqn:Hsup; simplify_eq. split.
  - exists (cell_closed_locked c). unfold cell_closed_if_recoverable.
    rewrite Z.ltb_irrefl. unfold cell_suppressed in Hsup. rewrite Hsup.
    split_and!; try done. intros. by apply closed_locked_ready.
  - intros Hlt HF Hr.
    destruct (parked_run _ _ _ _ _ _ (hard_down_parked c t hd) HF Hr) as [_ Hd].
    unfold cell_closed_if_recoverable.
    by assert (cooldown_until c <? cooldown_until c' = true) as -> by (apply Z.ltb_lt; lia).
Qed.

Definition demo_soft : BreakerCell := set_cooldown 1100 BreakerCell_new.

Lemma recover_close_discipline_witness :
  cell_closed_if_recoverable (cell_hard_down demo_soft 1001 1800) 1000 1100
  = (cell_hard_down demo_soft 1001 1800, false).
Proof.
  destruct (recover_close_discipline 1800 86400 demo_soft 1000 1100 1001 []
    (cell_hard_down demo_soft 1001 1800)) as [_ H]; [lia|reflexivity|].
  apply H; [by vm_compute|constructor|reflexivity].
Defined.

(** The re-validation compares cooldowns, not events: when the probe observed a
    cooldown at or past the hard-down's deadline (a honoured [Retry-After] may
    exceed the hard-down cooldown), the close drops a hard-down armed after the observation. *)
Theorem recover_close_drops_shorter_hard_down hd c now o t :
  0 <= now -> t +sat hd <= o ->
  exists cr, cell_closed_if_recoverable (cell_hard_down c t hd) now o = (cr, true)
    /\ cell_breaker_state cr = BS_Closed /\ cell_ready_breaker cr now = true.
Proof.
  intros Hn Hle. exists (cell_closed_locked (cell_hard_down c t hd)).
  unfold cell_closed_if_recoverable. simpl.
  assert (o <? t +sat hd = false) as -> by (by apply Z.ltb_ge). simpl.
  split_and!; [done..|]. by apply closed_locked_ready.
Qed.

(** The observation is reachable: a single honoured 24h [Retry-After] at 1000,
    observed at 2000, against a 30 minute hard-down at 2001. *)
Lemma recover_close_drops_shorter_hard_down_witness :
  exists c o cr,
    run_ops 1800 86400 [OpFailPre 1000; OpFail 1000 BreakerCfg_default (Some 86400) demo_entropy]
      BreakerCell_new = Some c
    /\ cell_observe c 2000 = Some o
    /\ cell_closed_if_recoverable (cell_hard_down c 2001 1800) 2000 o = (cr, true)
    /\ cell_ready_breaker cr 2000 = true.
Proof.
  set (c := default BreakerCell_new (run_ops 1800 86400
    [OpFailPre 1000; OpFail 1000 BreakerCfg_default (Some 86400) demo_entropy] BreakerCell_new)).
  destruct (recover_close_drops_shorter_hard_down 1800 c 2000 87400 2001) as (cr & H1 & _ & H3).
  - lia.
  - vm_compute. discriminate.
  - exists c, 87400, cr. split_and!; [reflexivity|reflexivity|done|done].
Defined.

(** * CellRuns

    Every cell operation the store performs is a run of the atomic steps of
    [BreakerFsm], so whatever the store does to a cell stays within the
    reachable, well-formed cells of the abstract machine. *)


Definition cell_ok (c : BreakerCell) : Prop :=
  cell_wf c /\ capacity (outcome_window c) = OUTCOME_WINDOW_CAPACITY.

Lemma cell_ok_new : cell_ok BreakerCell_new.
Proof. split; [apply cell_wf_new|done]. Qed.

Section runs.
Context (hd maxh : Z).
Hypothesis Hlim : limits_ok hd maxh.
Local Notation steps := (rtc (cell_step hd maxh)).

Lemma run_op_ok op c c' : cell_ok c -> op_ok op -> run_op hd maxh op c = Some c' -> cell_ok c'.
Proof.
  intros [Hw Hc] Hop Hr. destruct Hlim as [Hh _].
  destruct (run_op_refines hd maxh Hh op c Hw Hop) as (c1 & Hr' & Hw' & _). simplify_eq.
  split; [done|]. by rewrite (run_op_capacity _ _ _ _ _ Hr).
Qed.

Lemma steps_ok c c' : steps c c' -> cell_ok c -> cell_ok c'.
Proof. induction 1 as [|c c1 c' (op & Hop & Hr) _ IH]; eauto using run_op_ok. Qed.

Lemma step_once op c c' : op_ok op -> run_op hd maxh op c = Some c' -> steps c c'.
Proof. intros. apply rtc_once. by exists op. Qed.

Lemma acquire_steps c now : is_u64 now -> steps c (cell_acquire_breaker c now).1.
Proof.
  intros. unfold cell_acquire_breaker. case_match; [done|].
  by eapply (step_once (OpAcquire now)).
Qed.

Lemma failure_steps c now cfg ra e :
  cell_ok c -> is_u64 now -> cfg_valid cfg ->
  exists c' b, cell_record_failure c now cfg ra maxh e = Some (c', b) /\ steps c c'.
Proof.
  intros [Hw _] Hn Hv. unfold cell_record_failure. destruct Hlim as [Hh _].
  destruct (record_failure_locked_wf maxh (record_failure_pre c now) now cfg ra e)
    as (c' & b & Hr & _ & _); [by apply failure_pre_wf|done..|].
  exists c', b. split; [done|].
  eapply rtc_l; [by exists (OpFailPre now)|].
  eapply (step_once (OpFail now cfg ra e)); [done|]. simpl. by rewrite Hr.
Qed.

Lemma success_steps c now : is_u64 now -> steps c (cell_record_success c now).1.
Proof. intros. by eapply (step_once (OpSuccess now)). Qed.

Lemma hard_down_steps c now : is_u64 now -> steps c (cell_hard_down c now hd).
Proof. intros. by eapply (step_once (OpHardDown now)). Qed.

Lemma release_steps c : steps c (cell_release_probe c).
Proof. by eapply (step_once OpRelease). Qed.

Lemma release_owned_steps c o : steps c (cell_release_probe_owned c o).
Proof. by eapply (step_once (OpReleaseOwned o)). Qed.

Lemma recoverable_steps c now o : is_u64 now -> steps c (cell_closed_if_recoverable c now o).1.
Proof. intros. by eapply (step_once (OpRecover now o)). Qed.

Lemma weight_steps c w : steps c (set_weight w c).
Proof. by eapply (step_once (OpWeight w)). Qed.

Lemma count_err_steps c : steps c (set_err (wrap 64 (err c + 1)) c).
Proof. by eapply (step_once OpCountErr). Qed.
End runs.

#[export] Hint Resolve acquire_steps success_steps hard_down_steps release_steps
  release_owned_steps recoverable_steps weight_steps count_err_steps : busbar.

(** The verdict and the mutating acquisition agree, so a peek never lies to a
    caller that runs alone. *)
Lemma verdict_acquires c now :
  cell_ready_breaker c now = true -> (cell_acquire_breaker c now).2 = true.
Proof.
  unfold cell_ready_breaker, breaker_verdict, cell_acquire_breaker, cell_acquire_precheck,
    cell_acquire_locked, cas_state.
  destruct (breaker_state c =? ST_CLOSED) eqn:E0; [by destruct (cooldown_until c <=? now)|].
  destruct (breaker_state c =? ST_OPEN) eqn:E1;
    [|by destruct (breaker_state c =? ST_HALF_OPEN)].
  destruct (cooldown_until c <=? now) eqn:E2; [|done]. zbool. simpl.
  assert (now <? cooldown_until c = false) as -> by (by apply Z.ltb_ge). done.
Qed.

Lemma verdict_refuses c now :
  cell_ready_breaker c now = false -> cell_acquire_breaker c now = (c, false).
Proof.
  unfold cell_ready_breaker, breaker_verdict, cell_acquire_breaker, cell_acquire_precheck.
  destruct (breaker_state c =? ST_CLOSED); [by destruct (cooldown_until c <=? now)|].
  destruct (breaker_state c =? ST_OPEN); [by destruct (cooldown_until c <=? now)|].
  by destruct (breaker_state c =? ST_HALF_OPEN).
Qed.

Lemma ready_verdict c now :
  cell_ready_breaker c now = true <->
  breaker_verdict c now = BV_Ready \/ breaker_verdict c now = BV_ProbeWinnable.
Proof.
  unfold cell_ready_breaker. destruct (breaker_verdict c now); naive_solver.
Qed.

(** * TripPolicy

    What makes a breaker trip and for how long: the evidence the error-rate mode
    requires, and the bounds, escalation and [Retry-After] discipline of the
    cooldown. *)


(** ** Error rates in binary64 *)

(** A number divided by itself is exactly [1.0]. *)
Lemma f64_div_self s m e :
  f64_div (S754_finite s m e) (S754_finite s m e) = f64_one.
Proof.
  unfold f64_div, SFdiv, SFdiv_core_binary. rewrite Z.sub_diag. cbv zeta.
  assert (Zdigits2 (Zpos m) + e - (Zdigits2 (Zpos m) + e) = 0) as -> by lia.
  change (Z.min (fexp 53 1024 0) 0) with (-53).
  change (0 - -53) with 53. cbv iota. rewrite xorb_nilpotent.
  assert (Z.div_eucl (Z.shiftl (Z.pos m) 53) (Z.pos m) = (2 ^ 53, 0)) as ->.
  2: { unfold new_location. destruct (Z.even (Z.pos m)); reflexivity. }
  rewrite Z.shiftl_mul_pow2 by lia.
  pose proof (Z.div_mul (2 ^ 53) (Z.pos m) ltac:(lia)) as Hd.
  pose proof (Z.mod_mul (2 ^ 53) (Z.pos m) ltac:(lia)) as Hm.
  rewrite Z.mul_comm in Hd, Hm. unfold Z.div in Hd. unfold Z.modulo in Hm.
  destruct (Z.div_eucl _ _). congruence.
Qed.

Lemma f64_of_count n :
  1 <= n <= 1024 -> f64_pos (f64_of_Z n) = true.
Proof.
  intros Hn.
  assert (Hall : forallb (fun k => f64_pos (f64_of_Z (Z.of_nat k))) (seq 1 1024) = true)
    by reflexivity.
  rewrite forallb_forall in Hall. specialize (Hall (Z.to_nat n)).
  rewrite Z2Nat.id in Hall by lia. apply Hall. apply in_seq. lia.
Qed.

Lemma all_errors_rate n : 1 <= n <= 1024 -> f64_div (f64_of_Z n) (f64_of_Z n) = f64_one.
Proof.
  intros Hn. pose proof (f64_of_count n Hn) as Hp.
  destruct (f64_of_Z n) as [| | |s m e]; try done. apply f64_div_self.
Qed.

Lemma error_count_nonneg w now win : 0 <= error_count_in_window w now win.
Proof. unfold error_count_in_window. lia. Qed.

(** ** Properties *)

(** Tripping needs evidence. In error-rate mode with a positive threshold a cell trips only when the
    window holds at least [min_requests] outcomes and at least one of them is an error;
    conversely a full window of nothing but errors always trips a threshold of at
    most 1.0. In consecutive mode it trips exactly at the configured streak. *)
Theorem tripping_needs_evidence c now cfg :
  cell_ok c -> 1 <= min_requests (trip cfg) ->
  let count := count_in_window (outcome_window c) now (window_s (trip cfg)) in
  let errors := error_count_in_window (outcome_window c) now (window_s (trip cfg)) in
  (mode (trip cfg) = ErrorRate -> f64_pos (threshold (trip cfg)) = true ->
     should_trip c now cfg = true ->
     min_requests (trip cfg) <= count /\ 0 < errors <= count)
  /\ (mode (trip cfg) = ErrorRate -> f64_ge f64_one (threshold (trip cfg)) = true ->
     min_requests (trip cfg) <= count -> errors = count -> should_trip c now cfg = true)
  /\ (mode (trip cfg) = Consecutive ->
     (should_trip c now cfg = true <-> consecutive_n (trip cfg) <= streak c)).
Proof.
  intros [Hw Hcap] Hmin count errors. unfold should_trip.
  pose proof (error_count_le_count (outcome_window c) now (window_s (trip cfg))) as Hle.
  pose proof (error_count_nonneg (outcome_window c) now (window_s (trip cfg))) as H0.
  fold count errors in Hle, H0 |- *. split_and!.
  - intros -> Hthr Htrip. destruct (count <? _) eqn:Ec; zbool; [done|]. split; [done|].
    split; [|done]. destruct (Z.eq_dec errors 0) as [He|]; [|lia]. exfalso.
    rewrite He, f64_of_Z_0 in Htrip.
    assert (f64_pos (f64_of_Z count) = true) as Hp.
    { apply f64_of_count. split; [lia|]. unfold count, count_in_window.
      destruct (wf_window _ Hw) as [_ Hlen]. rewrite Hcap in Hlen.
      unfold OUTCOME_WINDOW_CAPACITY in Hlen. etransitivity; [|exact Hlen].
      apply inj_le. apply length_filter. }
    rewrite f64_div_zero in Htrip by done. by rewrite f64_ge_zero_pos in Htrip.
  - intros -> Hthr Hc He. destruct (count <? _) eqn:Ec; zbool; [lia|].
    rewrite He, all_errors_rate; [done|]. split; [lia|]. unfold count, count_in_window.
    destruct (wf_window _ Hw) as [_ Hlen]. rewrite Hcap in Hlen.
    unfold OUTCOME_WINDOW_CAPACITY in Hlen. etransitivity; [|exact Hlen].
    apply inj_le. apply length_filter.
  - intros ->. apply Z.leb_le.
Qed.

(** A cell whose five recorded outcomes, all within the window, are errors. *)
Definition demo_errors : BreakerCell :=
  set_window (foldl (fun w t => window_push w t true) (OutcomeWindow_new OUTCOME_WINDOW_CAPACITY)
    [1000; 1001; 1002; 1003; 1004]) BreakerCell_new.

Lemma tripping_needs_evidence_witness :
  should_trip demo_errors 1005 BreakerCfg_default = true
  /\ (should_trip BreakerCell_new 1005 BreakerCfg_default = true ->
      5 <= count_in_window (outcome_window BreakerCell_new) 1005 30).
Proof.
  assert (Hok : cell_ok demo_errors).
  { split; [|done]. split; simpl; try done; auto. }
  destruct (tripping_needs_evidence demo_errors 1005 BreakerCfg_default Hok) as (_ & Hall & _);
    [done|].
  destruct (tripping_needs_evidence BreakerCell_new 1005 BreakerCfg_default cell_ok_new)
    as (Hev & _ & _); [done|].
  split; [by apply Hall|]. intros Ht. by apply Hev.
Defined.

(** Cooldowns back off exponentially within bounds: on a validated configuration the
    computation never panics (its clamp bounds never cross) and, whatever the clock and
    address entropy, the cooldown is at least one second, within a tenth (at least one second) of
    [min (base * 2^streak) max] and at most [max] when no [Retry-After] is honoured; an honoured
    [Retry-After] is a floor, cut at the operator's ceiling; and the nominal backoff never shrinks
    as the streak grows and never wraps to zero at any streak. *)
Theorem cooldown_backs_off_within_bounds c cfg ra maxh e :
  cfg_valid cfg -> 0 <= streak c ->
  let nominal s := Z.min (base_cooldown_secs cfg * 2 ^ Z.min s 63) (max_cooldown_secs cfg) in
  exists d, compute_cooldown_with_retry_after c cfg ra maxh e = Some d
    /\ 1 <= d <= Z.max (max_cooldown_secs cfg) maxh
    /\ (honor_retry_after cfg = false \/ ra = None ->
          d <= max_cooldown_secs cfg
          /\ Z.abs (d - nominal (streak c)) <= Z.max (nominal (streak c) / 10) 1)
    /\ (forall r, honor_retry_after cfg = true -> ra = Some r -> Z.min r maxh <= d)
    /\ (forall s, streak c <= s -> 1 <= nominal (streak c) <= nominal s).
Proof.
  intros Hcfg Hs nominal.
  destruct (cooldown_spec c cfg ra maxh e Hcfg Hs) as (d & Hd & Hpos & Hmax & Hno & Hra).
  exists d. unfold nominal. rewrite <- !base_backoff_eq by done. split_and!; [done..|].
  intros s Hle. rewrite <- !base_backoff_eq by (done || lia). split.
  - pose proof (base_backoff_bounds (streak c) cfg Hs Hcfg). destruct Hcfg as [[? ?] _ _]. lia.
  - apply base_backoff_mono; [lia|done].
Qed.

Lemma cooldown_backs_off_within_bounds_witness :
  exists d, compute_cooldown_with_retry_after (set_streak 70 BreakerCell_new) BreakerCfg_default
      (Some 600) 86400 demo_entropy = Some d /\ 600 <= d.
Proof.
  destruct (cooldown_backs_off_within_bounds (set_streak 70 BreakerCell_new) BreakerCfg_default
    (Some 600) 86400 demo_entropy BreakerCfg_default_valid) as (d & Hd & _ & _ & Hra & _);
    [simpl; lia|].
  exists d. split; [done|]. by apply (Hra 600).
Defined.

(** A cooling cell keeps its escalation: while a cell is Open, late outcomes of requests admitted
    before the trip change neither its state, its cooldown, its streak nor its probe -
    a straggling failure does not extend the cooldown, and a straggling success does not
    reset the streak the next re-trip escalates from. Only the outcome
    window (and for a failure the error count) records them. *)
Theorem open_cell_ignores_stragglers c now cfg ra maxh e :
  breaker_state c = ST_OPEN ->
  let core c := (breaker_state c, cooldown_until c, streak c, probe_in_flight c, probe_epoch c) in
  (exists cf, cell_record_failure c now cfg ra maxh e = Some (cf, false)
     /\ core cf = core c /\ err cf = wrap 64 (err c + 1)
     /\ outcome_window cf = window_push (outcome_window c) now true)
  /\ exists cs, cell_record_success c now = (cs, false)
     /\ core cs = core c /\ err cs = err c
     /\ outcome_window cs = window_push (outcome_window c) now false.
Proof.
  intros Hs core. split.
  - exists (record_failure_pre c now). unfold cell_record_failure, record_failure_locked. simpl.
    rewrite Hs. simpl. split; [done|]. unfold core. simpl. done.
  - unfold cell_record_success, cas_state. rewrite Hs. simpl. rewrite Hs. simpl.
    eexists. split; [done|]. unfold core. simpl. done.
Qed.

Lemma open_cell_ignores_stragglers_witness :
  exists cs, cell_record_success (cell_hard_down BreakerCell_new 1000 1800) 1010 = (cs, false)
    /\ cooldown_until cs = 2800.
Proof.
  destruct (open_cell_ignores_stragglers (cell_hard_down BreakerCell_new 1000 1800) 1010
    BreakerCfg_default None 86400 demo_entropy) as (_ & cs & Hs & Hcore & _); [reflexivity|].
  exists cs. split; [done|]. injection Hcore as _ Hc _ _ _. by rewrite Hc.
Defined.
