(* ===== verification/HealthState.v ===== *)
(** * HealthState

    The in-memory lane store of [store/in_memory/mod.rs] and
    [store/in_memory/availability.rs]: the lanes with their lane-global gates
    and default breaker cell, the per-(pool, lane) cells created lazily, and
    every operation of the [LaneRuntime] trait except weighted selection (see
    [Swrr]).  A store operation is a function from the store to its result and
    the new store; [None] is a panic (a lane index out of bounds).  A cell is
    reached through a [CellRef], the model of the [Arc<dyn BreakerCellAccess>]
    that [HealthState::cell] hands out: it designates either the lane's own
    default cell or a per-pool cell, so writes through it are seen by every
    other holder of the reference.

    This file holds the data and the operations; the theorems are in
    [HealthLemmas], [HealthSpec], [HealthAdmit] and [HealthRestore]. *)

From S2P Require Import Prelude Float64 Breaker.

Definition SWRR_SHARDS : Z := 64.

Definition swrr_shard_index (pool : string) : Z := Z.land (fnv1a_u64 pool) (SWRR_SHARDS - 1).

Definition LATENCY_EWMA_ALPHA : f64 := f64_0_2.

Definition DEFAULT_HARD_DOWN_COOLDOWN_SECS : Z := 1800.
Definition DEFAULT_MAX_HONORED_RETRY_AFTER_SECS : Z := 86400.

(** What the store hands out for a breaker cell. *)
Inductive CellRef :=
  | LaneCell (lane : nat)
  | PoolCell (pool : string) (lane : nat).

#[export] Instance CellRef_eq_dec : EqDecision CellRef.
Proof. solve_decision. Defined.

Section store.
Context {SemT : Type} `{Semaphore SemT}.

Record LaneData := mkLaneData {
  ld_model : string;
  ld_provider : string;
  ld_max : Z;
  ld_sem : SemT;
  ld_limited : bool;
  ld_budget : Z;
  ld_cooldown_until : Z;
  ld_streak : Z;
  ld_dead : bool;
  ld_dead_reason : string;
  ld_ok : Z;
  ld_err : Z;
  ld_client_fault : Z;
}.

(** The breaker atomics of the lane (state, streak, cooldown, probe, epoch, err, outcome
    window, SWRR weight) form its default cell. *)
Record LaneState := mkLane {
  ls_model : string;
  ls_provider : string;
  ls_max : Z;
  ls_sem : SemT;
  ls_limited : bool;
  ls_dead : bool;
  ls_cell : BreakerCell;
  ls_budget : Z;
  ls_ok : Z;
  ls_client_fault : Z;
  ls_latency_ewma : f64;
  ls_trips : Z;
  ls_last_trip_at : Z;
  ls_dead_reason : string;
}.

Record HealthState := mkHealth {
  lanes : list LaneState;
  pool_cells : gmap nat (list (string * BreakerCell));
  hard_down_cooldown_secs : Z;
  max_honored_retry_after_secs : Z;
  pool_shards : list (string * Z);
}.

(** *** Stores to the fields of a lane *)

Definition set_ls_sem (v : SemT) (l : LaneState) : LaneState :=
  mkLane (ls_model l) (ls_provider l) (ls_max l) v (ls_limited l) (ls_dead l) (ls_cell l)
    (ls_budget l) (ls_ok l) (ls_client_fault l) (ls_latency_ewma l) (ls_trips l)
    (ls_last_trip_at l) (ls_dead_reason l).
Definition set_ls_cell (v : BreakerCell) (l : LaneState) : LaneState :=
  mkLane (ls_model l) (ls_provider l) (ls_max l) (ls_sem l) (ls_limited l) (ls_dead l) v
    (ls_budget l) (ls_ok l) (ls_client_fault l) (ls_latency_ewma l) (ls_trips l)
    (ls_last_trip_at l) (ls_dead_reason l).
Definition set_ls_budget (v : Z) (l : LaneState) : LaneState :=
  mkLane (ls_model l) (ls_provider l) (ls_max l) (ls_sem l) (ls_limited l) (ls_dead l)
    (ls_cell l) v (ls_ok l) (ls_client_fault l) (ls_latency_ewma l) (ls_trips l)
    (ls_last_trip_at l) (ls_dead_reason l).
Definition set_ls_ok (v : Z) (l : LaneState) : LaneState :=
  mkLane (ls_model l) (ls_provider l) (ls_max l) (ls_sem l) (ls_limited l) (ls_dead l)
    (ls_cell l) (ls_budget l) v (ls_client_fault l) (ls_latency_ewma l) (ls_trips l)
    (ls_last_trip_at l) (ls_dead_reason l).
Definition set_ls_client_fault (v : Z) (l : LaneState) : LaneState :=
  mkLane (ls_model l) (ls_provider l) (ls_max l) (ls_sem l) (ls_limited l) (ls_dead l)
    (ls_cell l) (ls_budget l) (ls_ok l) v (ls_latency_ewma l) (ls_trips l)
    (ls_last_trip_at l) (ls_dead_reason l).
Definition set_ls_latency (v : f64) (l : LaneState) : LaneState :=
  mkLane (ls_model l) (ls_provider l) (ls_max l) (ls_sem l) (ls_limited l) (ls_dead l)
    (ls_cell l) (ls_budget l) (ls_ok l) (ls_client_fault l) v (ls_trips l)
    (ls_last_trip_at l) (ls_dead_reason l).
Definition set_ls_trips (trips at_ : Z) (l : LaneState) : LaneState :=
  mkLane (ls_model l) (ls_provider l) (ls_max l) (ls_sem l) (ls_limited l) (ls_dead l)
    (ls_cell l) (ls_budget l) (ls_ok l) (ls_client_fault l) (ls_latency_ewma l) trips
    at_ (ls_dead_reason l).
Definition set_ls_dead_reason (v : string) (l : LaneState) : LaneState :=
  mkLane (ls_model l) (ls_provider l) (ls_max l) (ls_sem l) (ls_limited l) (ls_dead l)
    (ls_cell l) (ls_budget l) (ls_ok l) (ls_client_fault l) (ls_latency_ewma l) (ls_trips l)
    (ls_last_trip_at l) v.

(** The [fetch_add(1)]s of the lane counters. *)
Definition bump_ok (l : LaneState) : LaneState := set_ls_ok (wrap 64 (ls_ok l + 1)) l.
Definition bump_err (l : LaneState) : LaneState :=
  set_ls_cell (set_err (wrap 64 (err (ls_cell l) + 1)) (ls_cell l)) l.
Definition bump_trips (now : Z) (l : LaneState) : LaneState :=
  set_ls_trips (wrap 64 (ls_trips l + 1)) now l.

(** [impl BreakerCellAccess for LaneState]. *)
#[export] Instance LaneState_access : BreakerCellAccess LaneState.
Proof.
  refine {| cell_get := ls_cell; cell_put := set_ls_cell |}; [done| |done].
  by intros [].
Defined.

Definition upd_lane (lane : nat) (f : LaneState -> LaneState) (h : HealthState) : HealthState :=
  mkHealth (alter f lane (lanes h)) (pool_cells h) (hard_down_cooldown_secs h)
    (max_honored_retry_after_secs h) (pool_shards h).
Definition set_pool_cells (m : gmap nat (list (string * BreakerCell))) (h : HealthState)
    : HealthState :=
  mkHealth (lanes h) m (hard_down_cooldown_secs h) (max_honored_retry_after_secs h)
    (pool_shards h).
Definition set_pool_shards (v : list (string * Z)) (h : HealthState) : HealthState :=
  mkHealth (lanes h) (pool_cells h) (hard_down_cooldown_secs h)
    (max_honored_retry_after_secs h) v.

(** *** Construction *)

Definition lane_of_data (ld : LaneData) : LaneState :=
  mkLane (ld_model ld) (ld_provider ld) (ld_max ld) (ld_sem ld) (ld_limited ld) (ld_dead ld)
    (mkCell ST_CLOSED (ld_streak ld) (ld_cooldown_until ld) false 0 (ld_err ld)
       (OutcomeWindow_new OUTCOME_WINDOW_CAPACITY) 0)
    (ld_budget ld) (ld_ok ld) (ld_client_fault ld) f64_zero 0 0 (ld_dead_reason ld).

Definition new_with_limits (data : list LaneData) (hard_down max_honored : Z) : HealthState :=
  mkHealth (lane_of_data <$> data) ∅ hard_down max_honored [].

Definition HealthState_new (data : list LaneData) : HealthState :=
  new_with_limits data DEFAULT_HARD_DOWN_COOLDOWN_SECS DEFAULT_MAX_HONORED_RETRY_AFTER_SECS.

(** *** Lanes and cells *)

Definition get_lane (h : HealthState) (lane : nat) : option LaneState := lanes h !! lane.

(** [cells.get(&lane).into_iter().flatten()]. *)
Definition lane_pool_cells (h : HealthState) (lane : nat) : list (string * BreakerCell) :=
  default [] (pool_cells h !! lane).

(** The shard index for a pool, memoized in [pool_shards]. *)
Definition swrr_shard (pool : string) (h : HealthState) : Z * HealthState :=
  match assoc_find pool (pool_shards h) with
  | Some idx => (idx, h)
  | None =>
      let idx := swrr_shard_index pool in
      (idx, set_pool_shards (pool_shards h ++ [(pool, idx)]) h)
  end.

(** The breaker state a new pool cell inherits from the lane. *)
Definition inherit_cell (ls : LaneState) : BreakerCell :=
  let inherited := breaker_state (ls_cell ls) in
  let normalized := if inherited =? ST_HALF_OPEN then ST_OPEN else inherited in
  set_streak (streak (ls_cell ls)) (set_cooldown (cooldown_until (ls_cell ls))
    (set_state normalized BreakerCell_new)).

Definition cell (pool : string) (lane : nat) (h : HealthState)
    : option (CellRef * HealthState) :=
  if String.eqb pool "" then
    _ ← get_lane h lane; Some (LaneCell lane, h)
  else
    match assoc_find pool (lane_pool_cells h lane) with
    | Some _ => Some (PoolCell pool lane, h)
    | None =>
        ls ← get_lane h lane;
        Some (PoolCell pool lane,
          set_pool_cells
            (<[lane := lane_pool_cells h lane ++ [(pool, inherit_cell ls)]]> (pool_cells h)) h)
    end.

Definition read_cell (r : CellRef) (h : HealthState) : option BreakerCell :=
  match r with
  | LaneCell lane => ls_cell <$> get_lane h lane
  | PoolCell pool lane => assoc_find pool (lane_pool_cells h lane)
  end.

Definition write_cell (r : CellRef) (c : BreakerCell) (h : HealthState) : HealthState :=
  match r with
  | LaneCell lane => upd_lane lane (set_ls_cell c) h
  | PoolCell pool lane => set_pool_cells (alter (assoc_set pool c) lane (pool_cells h)) h
  end.

(** Resolve a cell and read it. *)
Definition load_cell (pool : string) (lane : nat) (h : HealthState)
    : option (CellRef * BreakerCell * HealthState) :=
  '(r, h) ← cell pool lane h; c ← read_cell r h; Some (r, c, h).

Definition reset_swrr_for (pool : string) (r : CellRef) (h : HealthState)
    : option HealthState :=
  let '(_, h) := swrr_shard pool h in
  c ← read_cell r h; Some (write_cell r (set_weight 0 c) h).

(** *** Admission checks *)

Definition lane_gate (ls : LaneState) : option Unavailable :=
  if ls_dead ls then Some Dead
  else if ls_limited ls && (ls_budget ls <=? 0) then Some BudgetExhausted
  else None.

Definition lane_admissible (h : HealthState) (lane : nat) : option bool :=
  ls ← get_lane h lane;
  Some (if ls_dead ls then false
        else if ls_limited ls && (ls_budget ls <=? 0) then false else true).

Definition usable_for (pool : string) (lane : nat) (now : Z) (h : HealthState)
    : option (bool * HealthState) :=
  adm ← lane_admissible h lane;
  if negb adm then Some (false, h)
  else
    '(r, c, h) ← load_cell pool lane h;
    let (c', won) := cell_acquire_breaker c now in
    Some (won, write_cell r c' h).

Definition acquire_for_dispatch_in := usable_for.

Definition ready_for (pool : string) (lane : nat) (now : Z) (h : HealthState)
    : option (bool * HealthState) :=
  adm ← lane_admissible h lane;
  if negb adm then Some (false, h)
  else '(_, c, h) ← load_cell pool lane h; Some (cell_ready_breaker c now, h).

Definition ready_in := ready_for.

Definition breaker_state_for (pool : string) (lane : nat) (h : HealthState)
    : option (BreakerState * HealthState) :=
  ls ← get_lane h lane;
  if ls_dead ls then Some (BS_Open U64_MAX, h)
  else '(_, c, h) ← load_cell pool lane h; Some (cell_breaker_state c, h).

Definition cooldown_remaining_for (pool : string) (lane : nat) (now : Z) (h : HealthState)
    : option (Z * HealthState) :=
  '(_, c, h) ← load_cell pool lane h; Some (cooldown_until c -sat now, h).

Definition lane_usable_any_cell (h : HealthState) (lane : nat) (now : Z) : option bool :=
  adm ← lane_admissible h lane;
  if negb adm then Some false
  else
    match lane_pool_cells h lane with
    | [] => ls ← get_lane h lane; Some (cell_ready_breaker (cell_get ls) now)
    | per_lane => Some (existsb (fun pc => cell_ready_breaker pc.2 now) per_lane)
    end.

Definition lane_max_cooldown_remaining (h : HealthState) (lane : nat) (now : Z) : option Z :=
  ls ← get_lane h lane;
  Some (foldl (fun worst pc => Z.max worst (cooldown_until pc.2 -sat now))
          (cooldown_until (cell_get ls) -sat now) (lane_pool_cells h lane)).

Definition lane_max_streak (h : HealthState) (lane : nat) : option Z :=
  ls ← get_lane h lane;
  Some (foldl (fun worst pc => Z.max worst (streak pc.2)) (streak (cell_get ls))
          (lane_pool_cells h lane)).

(** *** Outcome recording *)

Definition record_failure_for (pool : string) (lane : nat) (now : Z) (cfg : BreakerCfg)
    (retry_after : option Z) (e : Entropy) (h : HealthState) : option (bool * HealthState) :=
  ls ← get_lane h lane;
  if ls_dead ls then Some (false, h)
  else
    '(r, c, h) ← load_cell pool lane h;
    '(c', tripped) ← cell_record_failure c now cfg retry_after
                       (max_honored_retry_after_secs h) e;
    let h := write_cell r c' h in
    let h := if String.eqb pool "" then h else upd_lane lane bump_err h in
    let h := if (tripped : bool) then upd_lane lane (bump_trips now) h else h in
    Some (tripped, h).

Definition record_transient_in := record_failure_for.
Definition record_rate_limit_in := record_failure_for.

Definition record_success_for (pool : string) (lane : nat) (now : Z) (h : HealthState)
    : option HealthState :=
  ls ← get_lane h lane;
  if ls_dead ls then Some (upd_lane lane bump_ok h)
  else
    '(r, c, h) ← load_cell pool lane h;
    let (c', recovered) := cell_record_success c now in
    let h := write_cell r c' h in
    h ← (if recovered then reset_swrr_for pool r h else Some h);
    Some (upd_lane lane bump_ok h).

Definition record_hard_down_for (pool : string) (lane : nat) (reason : string) (now : Z)
    (h : HealthState) : option HealthState :=
  _ ← get_lane h lane;
  let h := upd_lane lane (set_ls_dead_reason reason) h in
  '(r, c, h) ← load_cell pool lane h;
  let was_closed := breaker_state c =? ST_CLOSED in
  let h := write_cell r (cell_hard_down c now (hard_down_cooldown_secs h)) h in
  Some (if was_closed then upd_lane lane (bump_trips now) h else h).

Definition record_client_fault (lane : nat) (h : HealthState) : option HealthState :=
  _ ← get_lane h lane;
  Some (upd_lane lane (fun ls => set_ls_client_fault (wrap 64 (ls_client_fault ls + 1)) ls) h).

(** *** Lane-wide sweeps: the default cell, then every existing pool cell in order *)

Definition record_hard_down_all_cells (lane : nat) (reason : string) (now : Z)
    (h : HealthState) : option (bool * HealthState) :=
  ls ← get_lane h lane;
  let hd := hard_down_cooldown_secs h in
  let default_was_closed := breaker_state (cell_get ls) =? ST_CLOSED in
  let h := upd_lane lane (fun ls =>
             cell_put (cell_hard_down (cell_get ls) now hd) (set_ls_dead_reason reason ls)) h in
  let h := set_pool_cells
             (alter (fmap (fun pc => (pc.1, cell_hard_down pc.2 now hd))) lane (pool_cells h)) h in
  let h := if default_was_closed then upd_lane lane (bump_trips now) h else h in
  Some (default_was_closed, h).

(** Apply a transition to each pool cell of a lane, resetting the SWRR accumulator of
    the cells it closed; the shard memo is threaded as [reset_swrr_for] does. *)
Fixpoint sweep_cells (f : BreakerCell -> BreakerCell * bool)
    (cells : list (string * BreakerCell)) (lane : nat) (h : HealthState)
    : option HealthState :=
  match cells with
  | [] => Some h
  | (pool_name, c) :: cells =>
      let (c', closed) := f c in
      let h := write_cell (PoolCell pool_name lane) c' h in
      h ← (if closed then reset_swrr_for pool_name (PoolCell pool_name lane) h else Some h);
      sweep_cells f cells lane h
  end.

(** The same transition on the lane's default cell. *)
Definition sweep_default (f : BreakerCell -> BreakerCell * bool) (lane : nat)
    (h : HealthState) : option HealthState :=
  ls ← get_lane h lane;
  let (c', closed) := f (cell_get ls) in
  let h := write_cell (LaneCell lane) c' h in
  if closed then reset_swrr_for "" (LaneCell lane) h else Some h.

Definition record_probe_success_all_cells (lane : nat) (now : Z) (h : HealthState)
    : option HealthState :=
  ls ← get_lane h lane;
  if ls_dead ls then Some (upd_lane lane bump_ok h)
  else
    h ← sweep_default (fun c => cell_record_success c now) lane h;
    h ← sweep_cells (fun c => cell_record_success c now) (lane_pool_cells h lane) lane h;
    Some (upd_lane lane bump_ok h).

(** [recover_lane]'s [close]: observe, then close if still recoverable. *)
Definition recover_close (now : Z) (c : BreakerCell) : BreakerCell * bool :=
  match cell_observe c now with
  | Some observed => cell_closed_if_recoverable c now observed
  | None => (c, false)
  end.

Definition recover_lane (lane : nat) (now : Z) (h : HealthState) : option HealthState :=
  h ← sweep_default (recover_close now) lane h;
  sweep_cells (recover_close now) (lane_pool_cells h lane) lane h.

Fixpoint fail_cells (now : Z) (resolve_cfg : string -> BreakerCfg) (retry_after : option Z)
    (maxh : Z) (ent : string -> Entropy) (cells : list (string * BreakerCell))
    : option (list (string * BreakerCell)) :=
  match cells with
  | [] => Some []
  | (pool_name, c) :: cells =>
      '(c', _) ← cell_record_failure c now (resolve_cfg pool_name) retry_after maxh
                   (ent pool_name);
      rest ← fail_cells now resolve_cfg retry_after maxh ent cells;
      Some ((pool_name, c') :: rest)
  end.

Definition record_probe_failure_all_cells (lane : nat) (resolve_cfg : string -> BreakerCfg)
    (retry_after : option Z) (now : Z) (ent : string -> Entropy) (h : HealthState)
    : option HealthState :=
  ls ← get_lane h lane;
  if ls_dead ls then Some h
  else
    let maxh := max_honored_retry_after_secs h in
    '(c', _) ← cell_record_failure (cell_get ls) now (resolve_cfg ""%string) retry_after maxh
                 (ent ""%string);
    let h := write_cell (LaneCell lane) c' h in
    match pool_cells h !! lane with
    | None => Some h
    | Some cells =>
        cells' ← fail_cells now resolve_cfg retry_after maxh ent cells;
        Some (set_pool_cells (<[lane := cells']> (pool_cells h)) h)
    end.

Definition lane_needs_probe (h : HealthState) (lane : nat) (now : Z) : option bool :=
  ls ← get_lane h lane;
  if cell_suppressed (cell_get ls) now then Some true
  else Some (existsb (fun pc => cell_suppressed pc.2 now) (lane_pool_cells h lane)).

(** *** Concurrency permits and the lifetime budget *)

Definition lane_available_permits (ls : LaneState) : Z := available_permits (ls_sem ls).

Definition try_acquire (lane : nat) (h : HealthState) : option (option Permit * HealthState) :=
  ls ← get_lane h lane;
  if MAX_PERMITS <=? ls_max ls then Some (Some Unbounded, h)
  else
    Some match try_acquire_owned (ls_sem ls) with
         | Some s => (Some Bounded, upd_lane lane (set_ls_sem s) h)
         | None => (None, h)
         end.

(** Dropping the permit. *)
Definition drop_permit (lane : nat) (p : Permit) (h : HealthState) : HealthState :=
  match p with
  | Bounded => upd_lane lane (fun ls => set_ls_sem (sem_release (ls_sem ls)) ls) h
  | Unbounded => h
  end.

Definition lane_semaphore (h : HealthState) (lane : nat) : option (option SemT) :=
  ls ← get_lane h lane;
  Some (if MAX_PERMITS <=? ls_max ls then None else Some (ls_sem ls)).

Definition lane_budget_remaining (h : HealthState) (lane : nat) : option (option Z) :=
  ls ← get_lane h lane; Some (if ls_limited ls then Some (ls_budget ls) else None).

(** The body of the compare-and-swap loop on the budget it read: [None] gives up,
    [Some v] attempts to store [v]. *)
Definition spend_attempt (cur : Z) : option Z := if cur <=? 0 then None else Some (cur - 1).

Definition spend_budget (lane : nat) (h : HealthState) : option (bool * HealthState) :=
  ls ← get_lane h lane;
  if negb (ls_limited ls) then Some (true, h)
  else
    Some match spend_attempt (ls_budget ls) with
         | None => (false, h)
         | Some v => (true, upd_lane lane (set_ls_budget v) h)
         end.

Definition refund_budget (lane : nat) (h : HealthState) : option HealthState :=
  ls ← get_lane h lane;
  if negb (ls_limited ls) then Some h
  else Some (upd_lane lane (set_ls_budget (wrap_i64 (ls_budget ls + 1))) h).

(** *** Latency *)

Definition lane_latency_ms (h : HealthState) (lane : nat) : option (option f64) :=
  ls ← get_lane h lane;
  Some (if f64_bits_zero (ls_latency_ewma ls) then None else Some (ls_latency_ewma ls)).

(** The value one iteration of the loop would store; [None] keeps the previous one. *)
Definition latency_attempt (latency_ms cur : f64) : option f64 :=
  let next :=
    if f64_bits_zero cur then latency_ms
    else f64_add (f64_mul LATENCY_EWMA_ALPHA latency_ms)
           (f64_mul (f64_sub f64_one LATENCY_EWMA_ALPHA) cur) in
  if f64_bits_zero next then None else Some next.

Definition record_latency_in (lane : nat) (latency_ms : f64) (h : HealthState)
    : option HealthState :=
  if negb (f64_is_finite latency_ms) || f64_le latency_ms f64_zero then Some h
  else
    ls ← get_lane h lane;
    Some match latency_attempt latency_ms (ls_latency_ewma ls) with
         | None => h
         | Some next => upd_lane lane (set_ls_latency next) h
         end.

Definition error_rate_in (pool : string) (lane : nat) (now : Z) (h : HealthState)
    : option (option f64 * HealthState) :=
  '(_, c, h) ← load_cell pool lane h;
  let count := count_in_window (outcome_window c) now DEFAULT_ERROR_RATE_WINDOW_S in
  if count =? 0 then Some (None, h)
  else
    let errors := error_count_in_window (outcome_window c) now DEFAULT_ERROR_RATE_WINDOW_S in
    Some (Some (f64_div (f64_of_Z errors) (f64_of_Z count)), h).

(** *** Classification and admission *)

Definition classify (pool : string) (lane : nat) (now : Z) (h : HealthState)
    : option (Result unit Unavailable * HealthState) :=
  ls ← get_lane h lane;
  match lane_gate ls with
  | Some u => Some (Err u, h)
  | None =>
      '(_, c, h) ← load_cell pool lane h;
      Some (match breaker_verdict c now with
            | BV_Open until => Err (BreakerOpen until)
            | BV_HalfOpen => Err ProbeInFlight
            | BV_Ready | BV_ProbeWinnable =>
                if lane_available_permits ls =? 0 then Err (AtCapacity None) else Ok tt
            end, h)
  end.

(** [peer] is whatever other threads do to the store between the verdict peek and
    the breaker acquisition. *)
Definition try_admit (peer : HealthState -> HealthState) (pool : string) (lane : nat)
    (now : Z) (h : HealthState) : option (Result Admit Unavailable * HealthState) :=
  ls ← get_lane h lane;
  match lane_gate ls with
  | Some u => Some (Err u, h)
  | None =>
      '(r, c, h) ← load_cell pool lane h;
      match breaker_verdict c now with
      | BV_Open until => Some (Err (BreakerOpen until), h)
      | BV_HalfOpen => Some (Err ProbeInFlight, h)
      | BV_Ready | BV_ProbeWinnable =>
          '(got, h) ← try_acquire lane h;
          match got with
          | None => Some (Err (AtCapacity None), h)
          | Some p =>
              let h := peer h in
              c ← read_cell r h;
              let (c', won) := cell_acquire_breaker c now in
              let h := write_cell r c' h in
              if negb won then Some (Err ProbeInFlight, drop_permit lane p h)
              else Some (Ok (mkAdmit p (probe_epoch c')), h)
          end
      end
  end.

(** The queue's re-check: the caller already holds a permit. *)
Definition try_admit_breaker (peer : HealthState -> HealthState) (pool : string) (lane : nat)
    (now : Z) (h : HealthState) : option (Result Z Unavailable * HealthState) :=
  ls ← get_lane h lane;
  match lane_gate ls with
  | Some u => Some (Err u, h)
  | None =>
      '(r, c, h) ← load_cell pool lane h;
      match breaker_verdict c now with
      | BV_Open until => Some (Err (BreakerOpen until), h)
      | BV_HalfOpen => Some (Err ProbeInFlight, h)
      | BV_Ready | BV_ProbeWinnable =>
          let h := peer h in
          c ← read_cell r h;
          let (c', won) := cell_acquire_breaker c now in
          let h := write_cell r c' h in
          Some (if negb won then Err ProbeInFlight else Ok (probe_epoch c'), h)
      end
  end.

Definition release_probe_in (pool : string) (lane : nat) (h : HealthState)
    : option HealthState :=
  '(r, c, h) ← load_cell pool lane h; Some (write_cell r (cell_release_probe c) h).

Definition probe_epoch_in (pool : string) (lane : nat) (h : HealthState)
    : option (Z * HealthState) :=
  '(_, c, h) ← load_cell pool lane h; Some (probe_epoch c, h).

Definition release_probe_owned_in (pool : string) (lane : nat) (owned_epoch : Z)
    (h : HealthState) : option HealthState :=
  '(r, c, h) ← load_cell pool lane h;
  Some (write_cell r (cell_release_probe_owned c owned_epoch) h).

(** *** The lane-global aggregate *)

Definition verdict_rank (v : BreakerVerdict) : Z :=
  match v with
  | BV_Ready => 3
  | BV_ProbeWinnable => 2
  | BV_HalfOpen => 1
  | BV_Open _ => 0
  end.

Definition better (a b : BreakerVerdict) : BreakerVerdict :=
  match a, b with
  | BV_Open ua, BV_Open ub => BV_Open (Z.min ua ub)
  | _, _ => if verdict_rank b <=? verdict_rank a then a else b
  end.

Definition lane_breaker_verdict (h : HealthState) (lane : nat) (now : Z)
    : option BreakerVerdict :=
  match lane_pool_cells h lane with
  | (_, c) :: rest =>
      Some (foldl (fun acc pc => better acc (breaker_verdict pc.2 now))
              (breaker_verdict c now) rest)
  | [] => ls ← get_lane h lane; Some (breaker_verdict (cell_get ls) now)
  end.

Definition classify_lane_from_verdict (h : HealthState) (lane : nat) (verdict : BreakerVerdict)
    : option (Result unit Unavailable) :=
  ls ← get_lane h lane;
  Some match lane_gate ls with
       | Some u => Err u
       | None =>
           match verdict with
           | BV_Open until => Err (BreakerOpen until)
           | BV_HalfOpen => Err ProbeInFlight
           | BV_Ready | BV_ProbeWinnable =>
               if lane_available_permits ls =? 0 then Err (AtCapacity None) else Ok tt
           end
       end.

Definition classify_lane (h : HealthState) (lane : nat) (now : Z)
    : option (Result unit Unavailable) :=
  v ← lane_breaker_verdict h lane now; classify_lane_from_verdict h lane v.

Definition lane_breaker_state_from_verdict (h : HealthState) (lane : nat)
    (verdict : BreakerVerdict) (now : Z) : option BreakerState :=
  ls ← get_lane h lane;
  Some (if ls_dead ls then BS_Open U64_MAX
        else match verdict with
             | BV_Ready => BS_Closed
             | BV_HalfOpen => BS_HalfOpen
             | BV_ProbeWinnable => BS_Open now
             | BV_Open until => BS_Open until
             end).

Definition lane_breaker_state (h : HealthState) (lane : nat) (now : Z) : option BreakerState :=
  v ← lane_breaker_verdict h lane now; lane_breaker_state_from_verdict h lane v now.

Definition snapshot (h : HealthState) (lane : nat) (t : Z) : option LaneSnapshot :=
  ls ← get_lane h lane;
  verdict ← lane_breaker_verdict h lane t;
  availability ← classify_lane_from_verdict h lane verdict;
  bstate ← lane_breaker_state_from_verdict h lane verdict t;
  usable ← lane_usable_any_cell h lane t;
  cooldown ← lane_max_cooldown_remaining h lane t;
  str ← lane_max_streak h lane;
  let free := lane_available_permits ls in
  Some (mkLaneSnapshot (ls_model ls) (ls_provider ls) (ls_max ls)
    (wrap_i64 (ls_max ls -sat free)) free
    (if MAX_PERMITS <=? ls_max ls then None else Some free)
    ((ls_max ls <? MAX_PERMITS) && (free =? 0))
    availability bstate (ls_ok ls) (err (cell_get ls)) (ls_client_fault ls) usable
    (ls_dead ls) (ls_dead_reason ls) cooldown str
    (if ls_limited ls then ls_budget ls else -1) (ls_trips ls) (ls_last_trip_at ls)).

(** *** Export and restore *)

Definition export_pool_cell (pc : string * BreakerCell) : PoolCellHealthSnapshot :=
  mkPoolSnap pc.1 (breaker_state pc.2) (cooldown_until pc.2) (streak pc.2) (err pc.2).

Definition export_lane (h : HealthState) (idx : nat) (ls : LaneState) : LaneHealthSnapshot :=
  mkLaneSnap (ls_model ls) (ls_provider ls) (if ls_limited ls then ls_budget ls else -1)
    (breaker_state (cell_get ls)) (cooldown_until (cell_get ls)) (streak (cell_get ls))
    (ls_dead ls) (ls_dead_reason ls) (ls_ok ls) (err (cell_get ls)) (ls_client_fault ls)
    (ls_latency_ewma ls) (ls_trips ls) (ls_last_trip_at ls)
    (export_pool_cell <$> lane_pool_cells h idx).

Definition export_health (h : HealthState) : list LaneHealthSnapshot :=
  imap (export_lane h) (lanes h).

(** Overlay the restored FSM triple and error count on a cell. *)
Definition restore_cell (state until strk errs : Z) (c : BreakerCell) : BreakerCell :=
  set_err errs (set_streak strk (set_cooldown until
    (set_state (restored_breaker_state state) c))).

Definition restore_pool_cell (cells : list (string * BreakerCell)) (cs : PoolCellHealthSnapshot)
    : list (string * BreakerCell) :=
  let overlay := restore_cell (ps_breaker_state cs) (ps_cooldown_until cs) (ps_streak cs)
                   (ps_err cs) in
  match assoc_find (ps_pool cs) cells with
  | Some c => assoc_set (ps_pool cs) (overlay c) cells
  | None => cells ++ [(ps_pool cs, overlay BreakerCell_new)]
  end.

Definition restore_lane_state (snap : LaneHealthSnapshot) (ls : LaneState) : LaneState :=
  let budget := if ls_limited ls && (0 <=? hs_budget snap)
                then Z.min (hs_budget snap) (ls_budget ls) else ls_budget ls in
  mkLane (ls_model ls) (ls_provider ls) (ls_max ls) (ls_sem ls) (ls_limited ls) (hs_dead snap)
    (restore_cell (hs_breaker_state snap) (hs_cooldown_until snap) (hs_streak snap)
       (hs_err snap) (cell_get ls))
    budget (hs_ok snap) (hs_client_fault snap) (hs_latency_ewma snap) (hs_trips snap)
    (hs_last_trip_at snap) (hs_dead_reason snap).

Definition find_snapshot (restored : list LaneHealthSnapshot) (ls : LaneState)
    : option LaneHealthSnapshot :=
  snd <$> list_find (fun s => hs_model s = ls_model ls /\ hs_provider s = ls_provider ls)
    restored.

Definition restore_lane (restored : list LaneHealthSnapshot) (h : HealthState) (idx : nat)
    : HealthState :=
  match get_lane h idx with
  | None => h
  | Some ls =>
      match find_snapshot restored ls with
      | None => h
      | Some snap =>
          let h := upd_lane idx (restore_lane_state snap) h in
          set_pool_cells
            (<[idx := foldl restore_pool_cell (lane_pool_cells h idx) (hs_cells snap)]>
               (pool_cells h)) h
      end
  end.

Definition restore_health_impl (restored : list LaneHealthSnapshot) (h : HealthState)
    : HealthState :=
  foldl (restore_lane restored) h (seq 0 (length (lanes h))).

Definition new_with_limits_restored (data : list LaneData) (hard_down max_honored : Z)
    (restored : list LaneHealthSnapshot) : HealthState :=
  restore_health_impl restored (new_with_limits data hard_down max_honored).

End store.

Arguments LaneData SemT : clear implicits.
Arguments LaneState SemT : clear implicits.
Arguments HealthState SemT : clear implicits.
