(* ===== verification/HealthLemmas.v ===== *)
(** * HealthLemmas

    The library of the lane store: what resolving a breaker cell does, the
    abstract view of the store as a function from (pool, lane) to a cell, the
    frame lemmas of reads and writes through a [CellRef], and the well-formedness
    invariant of the store with its preservation by every cell access. *)

From S2P Require Import Prelude Float64 Breaker BreakerFsm HealthState.

Section store.
Context {SemT : Type} `{Semaphore SemT}.
Implicit Types (h : HealthState SemT) (ls : LaneState SemT) (r : CellRef).

(** ** Lanes *)

Lemma get_upd_lane_eq h lane f ls :
  get_lane h lane = Some ls -> get_lane (upd_lane lane f h) lane = Some (f ls).
Proof. unfold get_lane. simpl. intros Hl. by rewrite list_lookup_alter_eq, Hl. Qed.

Lemma get_upd_lane_ne h lane lane' f :
  lane <> lane' -> get_lane (upd_lane lane f h) lane' = get_lane h lane'.
Proof. unfold get_lane. simpl. intros. by rewrite list_lookup_alter_ne. Qed.

Lemma length_upd_lane h lane f : length (lanes (upd_lane lane f h)) = length (lanes h).
Proof. simpl. apply length_alter. Qed.

Lemma get_lane_set_cells m h lane : get_lane (set_pool_cells m h) lane = get_lane h lane.
Proof. done. Qed.

Lemma lane_pool_cells_set m h lane :
  lane_pool_cells (set_pool_cells m h) lane = default [] (m !! lane).
Proof. done. Qed.

(** ** The store as a function from (pool, lane) to a cell

    A pool that has not touched the lane yet sees the cell it would inherit. *)

Definition view_cell (pool : string) (lane : nat) h : option BreakerCell :=
  if String.eqb pool "" then ls_cell <$> get_lane h lane
  else match assoc_find pool (lane_pool_cells h lane) with
       | Some c => Some c
       | None => inherit_cell <$> get_lane h lane
       end.

Definition cell_ref (pool : string) (lane : nat) : CellRef :=
  if String.eqb pool "" then LaneCell lane else PoolCell pool lane.

(** Resolving a cell only materialises it: nothing else of the store changes and
    no cell looks different afterwards. *)
Record same_view h h' : Prop := {
  sv_lanes : lanes h' = lanes h;
  sv_hd : hard_down_cooldown_secs h' = hard_down_cooldown_secs h;
  sv_max : max_honored_retry_after_secs h' = max_honored_retry_after_secs h;
  sv_shards : pool_shards h' = pool_shards h;
  sv_view : forall pool lane, view_cell pool lane h' = view_cell pool lane h;
}.

#[export] Instance same_view_preorder : PreOrder same_view.
Proof.
  split; [by intros h; split|].
  intros h1 h2 h3 [] []. split; congruence.
Qed.

Lemma same_view_get_lane h h' lane : same_view h h' -> get_lane h' lane = get_lane h lane.
Proof. intros Hs. unfold get_lane. by rewrite (sv_lanes _ _ Hs). Qed.

Lemma lane_pool_cells_insert h lane lane' cs :
  lane_pool_cells (set_pool_cells (<[lane := cs]> (pool_cells h)) h) lane'
  = if decide (lane = lane') then cs else lane_pool_cells h lane'.
Proof.
  unfold lane_pool_cells. simpl. case_decide; subst.
  - by rewrite lookup_insert_eq.
  - by rewrite lookup_insert_ne.
Qed.

Lemma cell_materialises pool lane h ls :
  get_lane h lane = Some ls ->
  exists h', cell pool lane h = Some (cell_ref pool lane, h') /\ same_view h h'
    /\ read_cell (cell_ref pool lane) h' = view_cell pool lane h
    /\ is_Some (view_cell pool lane h).
Proof.
  intros Hl. unfold cell, cell_ref, view_cell, read_cell. rewrite Hl.
  destruct (String.eqb pool "") eqn:Ep; simpl.
  { exists h. rewrite Hl. split_and!; eauto. reflexivity. }
  destruct (assoc_find pool (lane_pool_cells h lane)) as [c|] eqn:Ef; simpl.
  { exists h. rewrite Ef. split_and!; eauto. reflexivity. }
  eexists. split; [reflexivity|]. split_and!; [|by rewrite lane_pool_cells_insert, decide_True,
    assoc_find_app, Ef by done; simpl; rewrite String.eqb_refl|eauto].
  split; try done. intros pool' lane'. unfold view_cell. rewrite get_lane_set_cells.
  destruct (String.eqb pool' ""); [done|].
  rewrite lane_pool_cells_insert. case_decide as Hd; [subst lane'|done].
  rewrite assoc_find_app, Hl. simpl.
  destruct (assoc_find pool' _) eqn:Ef'; [done|].
  by destruct (String.eqb_spec pool pool') as [->|].
Qed.

Lemma load_cell_view pool lane h ls :
  get_lane h lane = Some ls ->
  exists c h', view_cell pool lane h = Some c
    /\ load_cell pool lane h = Some (cell_ref pool lane, c, h')
    /\ read_cell (cell_ref pool lane) h' = Some c
    /\ same_view h h'.
Proof.
  intros Hl. destruct (cell_materialises pool lane h ls Hl) as (h' & Hc & Hs & Hr & [c Hv]).
  exists c, h'. unfold load_cell. rewrite Hc. simpl. rewrite Hr, Hv. done.
Qed.


(** ** Reads and writes through a reference *)

Lemma read_write_eq r c h :
  is_Some (read_cell r h) -> read_cell r (write_cell r c h) = Some c.
Proof.
  destruct r as [lane|pool lane]; simpl; intros [c0 Hr].
  - apply fmap_Some in Hr as (ls & Hl & _). by erewrite get_upd_lane_eq by done.
  - unfold lane_pool_cells in *. simpl. rewrite lookup_alter_eq.
    destruct (pool_cells h !! lane); simpl in *; [|done]. apply assoc_find_set_eq. eauto.
Qed.

Lemma read_write_ne r r' c h :
  r <> r' -> read_cell r' (write_cell r c h) = read_cell r' h.
Proof.
  destruct r as [lane|pool lane], r' as [lane'|pool' lane']; simpl; intros Hne; try done.
  - rewrite get_upd_lane_ne by congruence. done.
  - unfold lane_pool_cells. simpl. destruct (decide (lane = lane')) as [->|].
    + rewrite lookup_alter_eq. destruct (pool_cells h !! lane'); simpl; [|done].
      apply assoc_find_set_ne. congruence.
    + by rewrite lookup_alter_ne.
Qed.

Lemma view_ref pool lane h c :
  read_cell (cell_ref pool lane) h = Some c -> view_cell pool lane h = Some c.
Proof.
  unfold cell_ref, view_cell. destruct (String.eqb pool ""); simpl; [done|]. by intros ->.
Qed.

Lemma view_write_eq pool lane c h :
  is_Some (read_cell (cell_ref pool lane) h) ->
  view_cell pool lane (write_cell (cell_ref pool lane) c h) = Some c.
Proof. intros. by apply view_ref, read_write_eq. Qed.

(** A named pool's cell is isolated from every other (pool, lane). *)
Lemma view_write_ne pool lane pool' lane' c h :
  pool <> ""%string -> (pool, lane) <> (pool', lane') ->
  view_cell pool' lane' (write_cell (cell_ref pool lane) c h) = view_cell pool' lane' h.
Proof.
  intros Hp Hne. unfold cell_ref. apply String.eqb_neq in Hp. rewrite Hp.
  unfold view_cell. destruct (String.eqb pool' ""); [done|].
  pose proof (read_write_ne (PoolCell pool lane) (PoolCell pool' lane') c h) as Hr.
  simpl in Hr |- *. rewrite Hr by congruence. done.
Qed.

Lemma get_lane_write_pool pool lane c h lane' :
  get_lane (write_cell (PoolCell pool lane) c h) lane' = get_lane h lane'.
Proof. done. Qed.

Lemma get_lane_write r c h lane ls :
  get_lane h lane = Some ls ->
  exists c', get_lane (write_cell r c h) lane = Some (set_ls_cell c' ls).
Proof.
  intros Hl. destruct r as [lane'|pool lane']; simpl.
  - destruct (decide (lane' = lane)) as [->|].
    + exists c. by erewrite get_upd_lane_eq.
    + exists (ls_cell ls). rewrite get_upd_lane_ne by done. rewrite Hl. by destruct ls.
  - exists (ls_cell ls). unfold get_lane in *. simpl. rewrite Hl. by destruct ls.
Qed.

(** ** The store invariant *)

Record lane_wf ls : Prop := {
  lw_cell : cell_ok (ls_cell ls);
  lw_permits : 0 <= available_permits (ls_sem ls);
  lw_unbounded : MAX_PERMITS <= ls_max ls -> 0 < available_permits (ls_sem ls);
}.

(** The cells of one lane: distinct non-empty pool names, each cell well formed. *)
Record cells_wf (cells : list (string * BreakerCell)) : Prop := {
  cw_nodup : NoDup cells.*1;
  cw_named : ""%string ∉ cells.*1;
  cw_cells : Forall (fun pc => cell_ok pc.2) cells;
}.

(** Every memoized shard index is the one the hash gives. *)
Definition shards_wf (m : list (string * Z)) : Prop :=
  Forall (fun ps => ps.2 = swrr_shard_index ps.1) m.

Record health_wf h : Prop := {
  hw_lanes : Forall lane_wf (lanes h);
  hw_cells : forall lane cells, pool_cells h !! lane = Some cells -> cells_wf cells;
  hw_limits : limits_ok (hard_down_cooldown_secs h) (max_honored_retry_after_secs h);
  hw_shards : shards_wf (pool_shards h);
}.

Lemma cells_wf_nil : cells_wf [].
Proof. split; simpl; [constructor|set_solver|constructor]. Qed.

Lemma health_wf_cells h lane : health_wf h -> cells_wf (lane_pool_cells h lane).
Proof.
  intros Hw. unfold lane_pool_cells. destruct (pool_cells h !! lane) eqn:E; simpl.
  - by eapply hw_cells.
  - apply cells_wf_nil.
Qed.

Lemma health_wf_lane h lane ls : health_wf h -> get_lane h lane = Some ls -> lane_wf ls.
Proof. intros [Hl _ _ _] Hg. rewrite Forall_lookup in Hl. by eapply Hl. Qed.

Lemma cells_wf_set cells pool c :
  cells_wf cells -> cell_ok c -> cells_wf (assoc_set pool c cells).
Proof.
  intros [] Hc. split; autorewrite with busbar_rw; try done. by apply assoc_set_Forall.
Qed.

Lemma cells_wf_snoc cells pool c :
  cells_wf cells -> pool ∉ cells.*1 -> pool <> ""%string -> cell_ok c ->
  cells_wf (cells ++ [(pool, c)]).
Proof.
  intros [] Hp Hn Hc. split; rewrite ?fmap_app; csimpl.
  - apply NoDup_app. split_and!; [done|set_solver|]. apply NoDup_singleton.
  - set_solver.
  - apply Forall_app. auto.
Qed.

Lemma inherit_ok ls : cell_ok (ls_cell ls) -> cell_ok (inherit_cell ls).
Proof.
  intros [Hw _]. split; [|done]. destruct Hw as [Hst _ Hsk Hcd _ _].
  split; simpl; try done.
  - case_match eqn:E; zbool; tauto.
  - case_match eqn:E; zbool; [done|]. split; [done|]. intros ?. exfalso. auto.
Qed.

Lemma view_cell_ok h pool lane c : health_wf h -> view_cell pool lane h = Some c -> cell_ok c.
Proof.
  intros Hw. unfold view_cell. destruct (String.eqb pool "").
  { intros (ls & Hl & ->)%fmap_Some. by eapply lw_cell, health_wf_lane. }
  destruct (assoc_find pool _) as [c'|] eqn:Ef.
  - intros [= ->]. eapply assoc_find_Forall; [|done]. by apply cw_cells, health_wf_cells.
  - intros (ls & Hl & ->)%fmap_Some. by eapply inherit_ok, lw_cell, health_wf_lane.
Qed.

(** ** Store steps

    [hstep h h']: the store stays well formed, its limits and the boot-time fields of its
    lanes are unchanged, and every existing cell moves only by atomic steps of the
    breaker machine. *)

Definition boot_fields ls : string * string * Z * bool :=
  (ls_model ls, ls_provider ls, ls_max ls, ls_limited ls).

Record hstep h h' : Prop := {
  st_wf : health_wf h';
  st_hd : hard_down_cooldown_secs h' = hard_down_cooldown_secs h;
  st_max : max_honored_retry_after_secs h' = max_honored_retry_after_secs h;
  st_boot : boot_fields <$> lanes h' = boot_fields <$> lanes h;
  st_cells : forall r c, read_cell r h = Some c -> exists c', read_cell r h' = Some c'
    /\ rtc (cell_step (hard_down_cooldown_secs h) (max_honored_retry_after_secs h)) c c';
}.

Lemma hstep_refl h : health_wf h -> hstep h h.
Proof. intros. split; try done. intros r c ?. by exists c. Qed.

Lemma hstep_trans h1 h2 h3 : hstep h1 h2 -> hstep h2 h3 -> hstep h1 h3.
Proof.
  intros [? Hd1 Hm1 Hb1 Hc1] [? Hd2 Hm2 Hb2 Hc2]. split; try congruence.
  intros r c Hr. destruct (Hc1 r c Hr) as (c2 & Hr2 & Hs2).
  destruct (Hc2 r c2 Hr2) as (c3 & Hr3 & Hs3). exists c3. split; [done|].
  rewrite Hd1, Hm1 in Hs3. by etransitivity.
Qed.

Lemma hstep_lane h h' lane ls :
  hstep h h' -> get_lane h lane = Some ls ->
  exists ls', get_lane h' lane = Some ls' /\ boot_fields ls' = boot_fields ls.
Proof.
  intros Hs Hl. pose proof (st_boot _ _ Hs) as Hb. unfold get_lane in *.
  assert (Hb' : (boot_fields <$> lanes h') !! lane = Some (boot_fields ls)).
  { by rewrite Hb, list_lookup_fmap, Hl. }
  apply list_lookup_fmap_Some in Hb' as (ls' & ? & ?). eauto.
Qed.

Lemma same_view_hstep pool lane h h' :
  health_wf h -> cell pool lane h = Some (cell_ref pool lane, h') -> hstep h h'.
Proof.
  intros Hw Hc. unfold cell, cell_ref in Hc.
  destruct (String.eqb_spec pool "") as [->|Hne].
  { mbind_inv. by apply hstep_refl. }
  destruct (assoc_find pool _) eqn:Ef; mbind_inv; [by apply hstep_refl|].
  rename x into ls. rename H0 into Hl.
  pose proof (health_wf_cells h lane Hw) as Hcs.
  split; try done.
  - destruct Hw as [Hl1 Hl2 Hl3 Hl4]. split; try done. intros lane' cells. simpl.
    destruct (decide (lane = lane')) as [<-|].
    + rewrite lookup_insert_eq. intros [= <-].
      apply cells_wf_snoc; [done|by apply assoc_find_None_notin|done|].
      eapply inherit_ok, lw_cell. rewrite Forall_lookup in Hl1. by eapply Hl1.
    + rewrite lookup_insert_ne by done. apply Hl2.
  - intros [lane'|pool' lane'] c Hr; [by exists c|]. exists c. split; [|done].
    simpl in *. rewrite lane_pool_cells_insert. case_decide; [|done]. subst.
    by rewrite assoc_find_app, Hr.
Qed.

Lemma load_cell_hstep pool lane h ls :
  health_wf h -> get_lane h lane = Some ls ->
  exists c h', load_cell pool lane h = Some (cell_ref pool lane, c, h')
    /\ view_cell pool lane h = Some c /\ read_cell (cell_ref pool lane) h' = Some c
    /\ cell_ok c /\ same_view h h' /\ hstep h h'.
Proof.
  intros Hw Hl. destruct (cell_materialises pool lane h ls Hl) as (h' & Hc & Hs & Hr & [c Hv]).
  exists c, h'. rewrite Hv in Hr. unfold load_cell. rewrite Hc. simpl. rewrite Hr.
  split_and!; try done; eauto using view_cell_ok, same_view_hstep.
Qed.

(** A lane update that moves the default cell by atomic steps. *)
Lemma upd_lane_hstep h lane f :
  health_wf h ->
  (forall ls, get_lane h lane = Some ls -> lane_wf ls ->
     lane_wf (f ls) /\ boot_fields (f ls) = boot_fields ls
     /\ rtc (cell_step (hard_down_cooldown_secs h) (max_honored_retry_after_secs h))
          (ls_cell ls) (ls_cell (f ls))) ->
  hstep h (upd_lane lane f h).
Proof.
  intros Hw Hf. pose proof Hw as [Hl Hc Hlim Hsh]. split; simpl; try done.
  - split; simpl; try done. apply Forall_lookup. intros i ls' Hi.
    destruct (decide (lane = i)) as [<-|Hne].
    + rewrite list_lookup_alter_eq in Hi. apply fmap_Some in Hi as (ls & Hi & ->).
      apply (Hf ls Hi). rewrite Forall_lookup in Hl. by eapply Hl.
    + rewrite list_lookup_alter_ne in Hi by done. rewrite Forall_lookup in Hl. by eapply Hl.
  - apply list_eq. intros i. rewrite !list_lookup_fmap.
    destruct (decide (lane = i)) as [<-|Hne]; [|by rewrite list_lookup_alter_ne].
    rewrite list_lookup_alter_eq. destruct (lanes h !! lane) as [ls|] eqn:E; simpl; [|done].
    f_equal. apply Hf; [done|]. by eapply health_wf_lane.
  - intros [lane'|pool lane'] c Hr; simpl in *; [|by exists c].
    destruct (decide (lane = lane')) as [<-|Hne].
    + apply fmap_Some in Hr as (ls & Hi & ->). erewrite get_upd_lane_eq by done. simpl.
      eexists. split; [done|]. apply Hf; [done|]. by eapply health_wf_lane.
    + rewrite get_upd_lane_ne by done. by exists c.
Qed.

(** Replacing a lane-level field outside the breaker cell and the semaphore. *)
Lemma upd_lane_hstep_simple h lane f :
  health_wf h ->
  (forall ls, ls_sem (f ls) = ls_sem ls /\ ls_cell (f ls) = ls_cell ls
     /\ boot_fields (f ls) = boot_fields ls) ->
  hstep h (upd_lane lane f h).
Proof.
  intros Hw Hf. apply upd_lane_hstep; [done|]. intros ls _ [].
  destruct (Hf ls) as (Hs & Hc & Hb). rewrite Hc. split_and!; [|done..].
  split; rewrite ?Hs, ?Hc; try done. injection Hb as _ _ -> _. done.
Qed.

Lemma bump_err_hstep h lane : health_wf h -> hstep h (upd_lane lane bump_err h).
Proof.
  intros Hw. apply upd_lane_hstep; [done|]. intros ls _ []. simpl.
  pose proof (count_err_steps (hard_down_cooldown_secs h) (max_honored_retry_after_secs h)
    (ls_cell ls)) as Hs.
  split_and!; [|done|done]. split; simpl; try done.
  eapply steps_ok; [apply Hw|done|done].
Qed.

Lemma write_cell_hstep h r c c' :
  health_wf h -> read_cell r h = Some c ->
  rtc (cell_step (hard_down_cooldown_secs h) (max_honored_retry_after_secs h)) c c' ->
  hstep h (write_cell r c' h).
Proof.
  intros Hw Hr Hs. destruct r as [lane|pool lane].
  - apply upd_lane_hstep; [done|]. intros ls Hl [Hlc]. simpl in *. rewrite Hl in Hr.
    simpl in Hr. simplify_eq. split_and!; [|done|done].
    split; simpl; try done. eapply steps_ok; [apply Hw|done|done].
  - simpl in *. pose proof Hw as [Hl Hc Hlim Hsh]. split; try done.
    + split; try done. simpl. intros lane' cells Hi. apply lookup_alter_Some in Hi as
        [(<- & cells' & Hi & ->)|[_ Hi]]; [|by eapply Hc].
      apply cells_wf_set; [by eapply Hc|]. eapply steps_ok; [apply Hlim|done|].
      unfold lane_pool_cells in Hr. rewrite Hi in Hr.
      eapply assoc_find_Forall; [|done]. by eapply cw_cells, Hc.
    + intros r0 c0 Hr0. destruct (decide (r0 = PoolCell pool lane)) as [->|Hne].
      * exists c'. simpl in Hr0. simplify_eq. split; [|done].
        apply (read_write_eq (PoolCell pool lane) c' h). eauto.
      * exists c0. split; [|done].
        rewrite <- Hr0. apply (read_write_ne (PoolCell pool lane) r0 c' h). congruence.
Qed.

Lemma swrr_shard_spec pool h :
  health_wf h ->
  (swrr_shard pool h).1 = swrr_shard_index pool /\ hstep h (swrr_shard pool h).2
  /\ (forall r, read_cell r (swrr_shard pool h).2 = read_cell r h)
  /\ lanes (swrr_shard pool h).2 = lanes h
  /\ pool_cells (swrr_shard pool h).2 = pool_cells h.
Proof.
  intros Hw. unfold swrr_shard. destruct (assoc_find pool (pool_shards h)) as [idx|] eqn:E; simpl.
  - split_and!; try done; [|by apply hstep_refl].
    pose proof (hw_shards _ Hw) as Hs. unfold shards_wf in Hs. rewrite Forall_forall in Hs.
    apply assoc_find_elem in E. by apply Hs in E.
  - split_and!; try done.
    destruct Hw as [? ? ? Hsh]. split; try done; [|intros [] c Hr; by exists c].
    split; try done. apply Forall_app. split; [done|]. by repeat constructor.
Qed.

Lemma reset_swrr_hstep pool r h c :
  health_wf h -> read_cell r h = Some c ->
  exists h', reset_swrr_for pool r h = Some h' /\ hstep h h'
    /\ read_cell r h' = Some (set_weight 0 c)
    /\ (forall r', r' <> r -> read_cell r' h' = read_cell r' h).
Proof.
  intros Hw Hr. unfold reset_swrr_for.
  destruct (swrr_shard_spec pool h Hw) as (_ & Hs & Hrd & _).
  destruct (swrr_shard pool h) as [idx h1]. simpl in *. rewrite Hrd, Hr. simpl.
  eexists. split; [reflexivity|]. split_and!.
  - eapply hstep_trans; [done|]. apply (write_cell_hstep h1 r c); [apply Hs|by rewrite Hrd|].
    apply weight_steps.
  - apply read_write_eq. rewrite Hrd. by exists c.
  - intros r' Hne. by rewrite read_write_ne, Hrd by done.
Qed.
End store.

#[export] Hint Resolve hstep_refl upd_lane_hstep_simple bump_err_hstep : busbar.
