(* ===== verification/HealthSpec.v ===== *)
(** * HealthSpec

    What the operations of the lane store promise: every operation returns (no
    panic on an existing lane), keeps the store well formed and moves cells only
    by atomic breaker steps; the lane-wide sweeps reach every pool, including
    pools whose cell does not exist yet; failures stay within their pool. *)

From S2P Require Import Prelude Float64 Breaker BreakerFsm HealthState HealthLemmas.

Section store.
Context {SemT : Type} `{Semaphore SemT}.
Implicit Types (h : HealthState SemT) (ls : LaneState SemT) (r : CellRef).
#[local] Arguments read_cell : simpl never.
#[local] Arguments write_cell : simpl never.

(** ** Operations on one cell *)

(** Read a cell through the store, replace it by a cell it can step to. *)
Lemma touch_cell pool lane h ls (g : BreakerCell -> BreakerCell) :
  health_wf h -> get_lane h lane = Some ls ->
  (forall c, cell_ok c -> rtc (cell_step (hard_down_cooldown_secs h)
     (max_honored_retry_after_secs h)) c (g c)) ->
  exists c h', load_cell pool lane h = Some (cell_ref pool lane, c, h')
    /\ view_cell pool lane h = Some c /\ cell_ok c /\ same_view h h'
    /\ read_cell (cell_ref pool lane) h' = Some c
    /\ hstep h (write_cell (cell_ref pool lane) (g c) h')
    /\ view_cell pool lane (write_cell (cell_ref pool lane) (g c) h') = Some (g c).
Proof.
  intros Hw Hl Hg.
  destruct (load_cell_hstep pool lane h ls Hw Hl) as (c & h' & Hld & Hv & Hr & Hok & Hsv & Hst).
  exists c, h'. split_and!; try done.
  - eapply hstep_trans; [done|]. eapply write_cell_hstep; [apply Hst|done|].
    rewrite (sv_hd _ _ Hsv), (sv_max _ _ Hsv). by apply Hg.
  - apply view_write_eq. by exists c.
Qed.

Lemma hstep_get h h' lane ls :
  hstep h h' -> get_lane h lane = Some ls -> exists ls', get_lane h' lane = Some ls'.
Proof. intros Hs Hl. destruct (hstep_lane _ _ _ _ Hs Hl) as (ls' & ? & _). eauto. Qed.

Lemma bump_ok_hstep h lane : health_wf h -> hstep h (upd_lane lane bump_ok h).
Proof. intros. by apply upd_lane_hstep_simple. Qed.

Lemma bump_trips_hstep h lane now : health_wf h -> hstep h (upd_lane lane (bump_trips now) h).
Proof. intros. by apply upd_lane_hstep_simple. Qed.

(** The SWRR reset that follows a close. *)
Definition after_close (p : BreakerCell * bool) : BreakerCell :=
  if p.2 then set_weight 0 p.1 else p.1.

Lemma after_close_steps hd maxh c p :
  rtc (cell_step hd maxh) c p.1 -> rtc (cell_step hd maxh) c (after_close p).
Proof.
  intros. unfold after_close. destruct p.2; [|done]. etransitivity; [done|]. apply weight_steps.
Qed.

(** Write a transition's result through [r] and reset the accumulator if it closed. *)
Lemma write_reset_hstep (pool : string) h r c (p : BreakerCell * bool) :
  health_wf h -> read_cell r h = Some c ->
  rtc (cell_step (hard_down_cooldown_secs h) (max_honored_retry_after_secs h)) c p.1 ->
  exists h', (if p.2 then reset_swrr_for pool r (write_cell r p.1 h)
              else Some (write_cell r p.1 h)) = Some h'
    /\ hstep h h' /\ read_cell r h' = Some (after_close p)
    /\ (forall r', r' <> r -> read_cell r' h' = read_cell r' h).
Proof.
  intros Hw Hr Hs. pose proof (write_cell_hstep h r c p.1 Hw Hr Hs) as Hst.
  assert (Hr1 : read_cell r (write_cell r p.1 h) = Some p.1) by (apply read_write_eq; eauto).
  unfold after_close. destruct p.2.
  - destruct (reset_swrr_hstep pool r _ _ (st_wf _ _ Hst) Hr1) as (h' & He & Hst' & Hr' & Hne).
    exists h'. split_and!; [done|by eapply hstep_trans|done|].
    intros r' Hn. rewrite Hne by done. by apply read_write_ne.
  - exists (write_cell r p.1 h). split_and!; [done..|]. intros. by apply read_write_ne.
Qed.

(** ** Sweeps over the cells of a lane *)

Lemma sweep_cells_spec f lane cells h :
  health_wf h -> NoDup cells.*1 ->
  (forall c, cell_ok c -> rtc (cell_step (hard_down_cooldown_secs h)
     (max_honored_retry_after_secs h)) c (f c).1) ->
  (forall p c, (p, c) ∈ cells -> read_cell (PoolCell p lane) h = Some c) ->
  exists h', sweep_cells f cells lane h = Some h' /\ hstep h h'
    /\ (forall p c, (p, c) ∈ cells ->
          read_cell (PoolCell p lane) h' = Some (after_close (f c)))
    /\ (forall r, (forall p, p ∈ cells.*1 -> r <> PoolCell p lane) ->
          read_cell r h' = read_cell r h).
Proof.
  revert h. induction cells as [|[p0 c0] cells IH]; simpl; intros h Hw Hnd Hf Hrd.
  { exists h. split_and!; [done|by apply hstep_refl|set_solver|done]. }
  csimpl in Hnd. apply NoDup_cons in Hnd as [Hnot Hnd].
  assert (Hr0 : read_cell (PoolCell p0 lane) h = Some c0) by (apply Hrd; left).
  assert (Hok0 : cell_ok c0).
  { eapply assoc_find_Forall; [|done]. by apply cw_cells, health_wf_cells. }
  destruct (write_reset_hstep p0 h _ c0 (f c0) Hw Hr0 (Hf _ Hok0)) as (h1 & He & Hst & Hr1 & Hne).
  destruct (f c0) as [c1 closed] eqn:Ef0. simpl in He. rewrite He. simpl.
  destruct (IH h1) as (h' & He' & Hst' & Hin' & Hout').
  - apply Hst.
  - done.
  - rewrite (st_hd _ _ Hst), (st_max _ _ Hst). done.
  - intros p c Hp. rewrite Hne; [apply Hrd; by right|].
    intros [= ->]. apply Hnot. apply list_elem_of_fmap. by exists (p0, c).
  - exists h'. split_and!; [done|by eapply hstep_trans| |].
    + intros p c [[= -> ->]|Hp]%elem_of_cons; [|by apply Hin'].
      rewrite Hout', Hr1 by set_solver. by rewrite Ef0.
    + intros r Hr. rewrite Hout', Hne; [done| |]; set_solver.
Qed.

Definition ref_lane r : nat := match r with LaneCell l => l | PoolCell _ l => l end.

Lemma elem_assoc_find {A} (cells : list (string * A)) p c :
  NoDup cells.*1 -> (p, c) ∈ cells <-> assoc_find p cells = Some c.
Proof.
  intros Hnd. split; [|apply assoc_find_elem].
  induction cells as [|[p0 c0] cells IH]; simpl; [by intros ?%elem_of_nil|].
  csimpl in Hnd. apply NoDup_cons in Hnd as [Hnot Hnd].
  intros [[= -> ->]|Hin]%elem_of_cons; [by rewrite String.eqb_refl|].
  destruct (String.eqb_spec p0 p) as [->|]; [|by apply IH].
  exfalso. apply Hnot. apply list_elem_of_fmap. by exists (p, c).
Qed.

(** The default cell, then every pool cell of the lane. *)
Lemma sweep_lane_spec f lane h ls :
  health_wf h -> get_lane h lane = Some ls ->
  (forall c, cell_ok c -> rtc (cell_step (hard_down_cooldown_secs h)
     (max_honored_retry_after_secs h)) c (f c).1) ->
  exists h', (h1 ← sweep_default f lane h; sweep_cells f (lane_pool_cells h1 lane) lane h1)
               = Some h'
    /\ hstep h h'
    /\ (forall r c, ref_lane r = lane -> read_cell r h = Some c ->
          read_cell r h' = Some (after_close (f c)))
    /\ (forall r, ref_lane r <> lane -> read_cell r h' = read_cell r h)
    /\ (forall p, read_cell (PoolCell p lane) h = None -> read_cell (PoolCell p lane) h' = None).
Proof.
  intros Hw Hl Hf. unfold sweep_default. rewrite Hl. simpl.
  assert (Hr : read_cell (LaneCell lane) h = Some (ls_cell ls)).
  { unfold read_cell. by rewrite Hl. }
  pose proof (lw_cell _ (health_wf_lane _ _ _ Hw Hl)) as Hok.
  destruct (write_reset_hstep "" h _ _ (f (ls_cell ls)) Hw Hr (Hf _ Hok))
    as (h1 & He & Hst & Hr1 & Hne).
  destruct (f (ls_cell ls)) as [c1 closed] eqn:Ef. simpl in He. rewrite He. simpl.
  pose proof (health_wf_cells h1 lane (st_wf _ _ Hst)) as Hcs.
  destruct (sweep_cells_spec f lane (lane_pool_cells h1 lane) h1) as (h' & He' & Hst' & Hin & Hout).
  - apply Hst.
  - apply Hcs.
  - by rewrite (st_hd _ _ Hst), (st_max _ _ Hst).
  - intros p c Hp. by apply elem_assoc_find in Hp; [|apply Hcs].
  - exists h'. split_and!; [done|by eapply hstep_trans| | |].
    + intros [lane'|p lane'] c Hrl Hrd; simpl in Hrl; subst lane'.
      * rewrite Hout, Hr1 by done. rewrite Hr in Hrd. by simplify_eq; rewrite Ef.
      * apply Hin. apply elem_assoc_find; [apply Hcs|].
        by rewrite <- (Hne (PoolCell p lane)) in Hrd.
    + intros r Hrl. rewrite Hout, Hne; [done|..].
      * intros ->. done.
      * intros p _ ->. done.
    + intros p Hn. rewrite Hout, Hne; try done. intros p' Hp' [= <-].
      rewrite <- (Hne (PoolCell p lane)) in Hn by done.
      apply assoc_find_None_notin in Hn. done.
Qed.

(** What any pool sees after a sweep: its own swept cell, or what it would inherit from
    the swept default cell. *)
Lemma view_swept f lane h h' pool c' :
  (forall r c, ref_lane r = lane -> read_cell r h = Some c ->
     read_cell r h' = Some (after_close (f c))) ->
  (forall p, read_cell (PoolCell p lane) h = None -> read_cell (PoolCell p lane) h' = None) ->
  health_wf h -> is_Some (get_lane h lane) -> view_cell pool lane h' = Some c' ->
  exists c, cell_ok c
    /\ (c' = after_close (f c) \/ exists ls', c' = inherit_cell ls' /\ ls_cell ls' = after_close (f c)).
Proof.
  intros Hin Hnone Hw [ls Hl].
  assert (Hr : read_cell (LaneCell lane) h = Some (ls_cell ls)).
  { unfold read_cell. by rewrite Hl. }
  pose proof (lw_cell _ (health_wf_lane _ _ _ Hw Hl)) as Hok.
  pose proof (Hin (LaneCell lane) _ eq_refl Hr) as Hr'.
  unfold view_cell. destruct (String.eqb pool "").
  { unfold read_cell in Hr'. rewrite Hr'. intros [= <-]. eauto. }
  fold (read_cell (PoolCell pool lane) h').
  destruct (read_cell (PoolCell pool lane) h) as [c|] eqn:Ep.
  - rewrite (Hin (PoolCell pool lane) _ eq_refl Ep). intros [= <-]. exists c. split; [|by left].
    eapply assoc_find_Forall; [|apply Ep]. by apply cw_cells, health_wf_cells.
  - rewrite (Hnone _ Ep). intros (ls' & Hl' & ->)%fmap_Some.
    exists (ls_cell ls). split; [done|]. right. exists ls'. split; [done|].
    unfold read_cell in Hr'. rewrite Hl' in Hr'. simpl in Hr'. by simplify_eq.
Qed.

(** ** Reading through the view *)

(** The answer of [classify], as a function of the lane and the cell it resolves. *)
Definition admission ls (c : BreakerCell) (now : Z) : Result unit Unavailable :=
  match lane_gate ls with
  | Some u => Err u
  | None => match breaker_verdict c now with
            | BV_Open until => Err (BreakerOpen until)
            | BV_HalfOpen => Err ProbeInFlight
            | BV_Ready | BV_ProbeWinnable =>
                if lane_available_permits ls =? 0 then Err (AtCapacity None) else Ok tt
            end
  end.

Lemma classify_view pool lane now h ls c :
  health_wf h -> get_lane h lane = Some ls -> view_cell pool lane h = Some c ->
  exists h', classify pool lane now h = Some (admission ls c now, h')
    /\ same_view h h' /\ hstep h h'.
Proof.
  intros Hw Hl Hv. unfold classify, admission. rewrite Hl. simpl.
  destruct (lane_gate ls).
  { exists h. split_and!; [done|reflexivity|by apply hstep_refl]. }
  destruct (load_cell_hstep pool lane h ls Hw Hl) as (c0 & h' & Hld & Hv' & _ & _ & Hsv & Hst).
  rewrite Hv in Hv'. simplify_eq. rewrite Hld. simpl. eauto.
Qed.

Lemma ready_view pool lane now h ls c :
  health_wf h -> get_lane h lane = Some ls -> view_cell pool lane h = Some c ->
  lane_gate ls = None ->
  exists h', ready_for pool lane now h = Some (cell_ready_breaker c now, h') /\ hstep h h'.
Proof.
  intros Hw Hl Hv Hg. unfold ready_for, lane_admissible. rewrite Hl. simpl.
  unfold lane_gate in Hg. destruct (ls_dead ls); [done|].
  destruct (ls_limited ls && _); [done|]. simpl.
  destruct (load_cell_hstep pool lane h ls Hw Hl) as (c0 & h' & Hld & Hv' & _ & _ & Hsv & Hst).
  rewrite Hv in Hv'. simplify_eq. rewrite Hld. simpl. eauto.
Qed.

Lemma view_some pool lane h ls :
  get_lane h lane = Some ls -> exists c, view_cell pool lane h = Some c.
Proof.
  intros Hl. destruct (load_cell_view pool lane h ls Hl) as (c & _ & Hv & _). eauto.
Qed.

(** ** Recovery *)

Lemma recover_close_steps hd maxh now c :
  is_u64 now -> rtc (cell_step hd maxh) c (recover_close now c).1.
Proof.
  intros. unfold recover_close. destruct (cell_observe c now); [|done].
  by apply recoverable_steps.
Qed.

Lemma recover_close_closed c now :
  0 <= now ->
  breaker_state (after_close (recover_close now c)) = ST_CLOSED
  /\ cooldown_until (after_close (recover_close now c)) <= now.
Proof.
  intros Hn. unfold after_close, recover_close, cell_observe.
  destruct (cell_suppressed c now) eqn:Es.
  - unfold cell_closed_if_recoverable. rewrite Z.ltb_irrefl. unfold cell_suppressed in Es.
    by rewrite Es.
  - unfold cell_suppressed in Es. zbool. done.
Qed.

Lemma closed_ready c now :
  breaker_state c = ST_CLOSED -> cooldown_until c <= now ->
  cell_ready_breaker c now = true /\ cell_suppressed c now = false
  /\ breaker_verdict c now = BV_Ready.
Proof.
  intros Hs Hc. unfold cell_ready_breaker, breaker_verdict, cell_suppressed. rewrite Hs. simpl.
  assert (cooldown_until c <=? now = true) as -> by (by apply Z.leb_le).
  assert (now <? cooldown_until c = false) as -> by (by apply Z.ltb_ge). done.
Qed.

Lemma recover_lane_spec lane now h ls :
  health_wf h -> get_lane h lane = Some ls -> is_u64 now ->
  exists h', recover_lane lane now h = Some h' /\ hstep h h'
    /\ forall pool c, view_cell pool lane h' = Some c ->
         breaker_state c = ST_CLOSED /\ cooldown_until c <= now.
Proof.
  intros Hw Hl Hn.
  destruct (sweep_lane_spec (recover_close now) lane h ls Hw Hl) as
    (h' & He & Hst & Hin & Hout & Hnone); [by intros; apply recover_close_steps|].
  exists h'. split_and!; [done..|]. intros pool c Hv.
  destruct (view_swept _ _ _ _ _ _ Hin Hnone Hw ltac:(by exists ls) Hv) as (c0 & _ & Hc).
  destruct Hn as [Hn _]. pose proof (recover_close_closed c0 now Hn) as [Hs Hcd].
  destruct Hc as [->|(ls' & -> & Hls)]; [done|].
  unfold inherit_cell. rewrite Hls, Hs. simpl. done.
Qed.

Lemma existsb_false {A} (f : A -> bool) (l : list A) :
  Forall (fun x => f x = false) l -> existsb f l = false.
Proof. induction 1 as [|x l Hx _ IH]; simpl; [done|]. by rewrite Hx. Qed.

Lemma pool_cells_view h lane (P : BreakerCell -> Prop) :
  health_wf h -> (forall pool c, view_cell pool lane h = Some c -> P c) ->
  Forall (fun pc => P pc.2) (lane_pool_cells h lane).
Proof.
  intros Hw HP. pose proof (health_wf_cells h lane Hw) as Hc.
  apply Forall_forall. intros [p c] Hin. simpl. apply (HP p).
  unfold view_cell. destruct (String.eqb_spec p "") as [->|].
  - exfalso. apply (cw_named _ Hc). apply list_elem_of_fmap. by exists (""%string, c).
  - apply elem_assoc_find in Hin; [|apply Hc]. by rewrite Hin.
Qed.

Lemma default_view h lane ls :
  get_lane h lane = Some ls -> view_cell "" lane h = Some (ls_cell ls).
Proof. intros Hl. unfold view_cell. simpl. by rewrite Hl. Qed.

(** ** Hard-down *)

(** Mapping an atomic transition over the existing pool cells of a lane. *)
Lemma map_cells_hstep h lane (g : BreakerCell -> BreakerCell) :
  health_wf h ->
  (forall c, rtc (cell_step (hard_down_cooldown_secs h) (max_honored_retry_after_secs h)) c (g c)) ->
  hstep h (set_pool_cells (alter (fmap (fun pc => (pc.1, g pc.2))) lane (pool_cells h)) h).
Proof.
  intros Hw Hg. pose proof Hw as [Hl Hc Hlim Hsh]. split; try done.
  - split; try done. simpl. intros lane' cells Hi.
    apply lookup_alter_Some in Hi as [(<- & cells' & Hi & ->)|[_ Hi]]; [|by eapply Hc].
    destruct (Hc _ _ Hi) as [Hnd Hnm Hok].
    assert (((fun pc : string * BreakerCell => (pc.1, g pc.2)) <$> cells').*1 = cells'.*1) as Hk.
    { rewrite <- list_fmap_compose. done. }
    split; rewrite ?Hk; try done. apply Forall_fmap. eapply Forall_impl; [done|].
    intros [p c] Hcok. simpl in *. eapply steps_ok; [apply Hlim|apply Hg|done].
  - intros [lane'|p lane'] c Hr; [by exists c|]. unfold read_cell, lane_pool_cells in *. simpl.
    destruct (decide (lane = lane')) as [<-|]; [|rewrite lookup_alter_ne by done; by exists c].
    rewrite lookup_alter_eq. destruct (pool_cells h !! lane) as [cells|]; [|done]. simpl in *.
    exists (g c). split; [|done]. revert Hr. induction cells as [|[p0 c0] cells IH]; [done|]. simpl.
    destruct (String.eqb p0 p); [by intros [= ->]|]. apply IH.
Qed.

Lemma view_map_cells h lane (g : BreakerCell -> BreakerCell) pool :
  view_cell pool lane (set_pool_cells (alter (fmap (fun pc => (pc.1, g pc.2))) lane (pool_cells h)) h)
  = if String.eqb pool "" then view_cell pool lane h
    else match assoc_find pool (lane_pool_cells h lane) with
         | Some c => Some (g c)
         | None => inherit_cell <$> get_lane h lane
         end.
Proof.
  unfold view_cell. destruct (String.eqb pool ""); [done|].
  unfold lane_pool_cells. simpl. rewrite lookup_alter_eq.
  destruct (pool_cells h !! lane) as [cells|]; simpl; [|done].
  assert (assoc_find pool ((fun pc : string * BreakerCell => (pc.1, g pc.2)) <$> cells)
          = g <$> assoc_find pool cells) as Hf.
  { induction cells as [|[p0 c0] cells IH]; [done|]. simpl. by destruct (String.eqb p0 pool). }
  change ((λ pc : string * BreakerCell, (pc.1, g pc.2)) <$> cells)
    with ((fun pc : string * BreakerCell => (pc.1, g pc.2)) <$> cells).
  rewrite Hf. by destruct (assoc_find pool cells).
Qed.

(** Lane fields a pool's view depends on. *)
Lemma view_upd_lane pool lane lane' f h :
  (forall ls, ls_cell (f ls) = ls_cell ls) ->
  view_cell pool lane' (upd_lane lane f h) = view_cell pool lane' h.
Proof.
  intros Hf. unfold view_cell. unfold lane_pool_cells. simpl.
  destruct (decide (lane = lane')) as [<-|]; [|by rewrite get_upd_lane_ne].
  destruct (get_lane h lane) as [ls|] eqn:Hl.
  - erewrite get_upd_lane_eq by done. simpl. rewrite Hf. unfold inherit_cell. by rewrite Hf.
  - unfold get_lane in *. simpl. by rewrite list_lookup_alter_eq, Hl.
Qed.

Lemma hard_down_all_spec lane reason now h ls :
  health_wf h -> get_lane h lane = Some ls -> is_u64 now ->
  exists h' ls', record_hard_down_all_cells lane reason now h
                   = Some (breaker_state (ls_cell ls) =? ST_CLOSED, h')
    /\ hstep h h'
    /\ get_lane h' lane = Some ls' /\ ls_dead ls' = ls_dead ls /\ ls_dead_reason ls' = reason
    /\ ls_budget ls' = ls_budget ls
    /\ ls_trips ls' = (if breaker_state (ls_cell ls) =? ST_CLOSED
                       then wrap 64 (ls_trips ls + 1) else ls_trips ls)
    /\ forall pool c, view_cell pool lane h' = Some c ->
         parked (now +sat hard_down_cooldown_secs h) c.
Proof.
  intros Hw Hl Hn. unfold record_hard_down_all_cells. rewrite Hl. simpl.
  set (hd := hard_down_cooldown_secs h).
  set (h1 := upd_lane lane _ h).
  assert (Hs1 : hstep h h1).
  { apply upd_lane_hstep; [done|]. intros ls0 _ []. simpl.
    pose proof (hard_down_steps hd (max_honored_retry_after_secs h) (ls_cell ls0) now Hn) as Hs.
    split_and!; [|done|done]. split; simpl; try done. eapply steps_ok; [apply Hw|done|done]. }
  assert (Hl1 : get_lane h1 lane = Some (set_ls_cell (cell_hard_down (ls_cell ls) now hd)
                                           (set_ls_dead_reason reason ls))).
  { unfold h1. by erewrite get_upd_lane_eq by done. }
  set (h2 := set_pool_cells _ h1).
  assert (Hs2 : hstep h1 h2).
  { apply (map_cells_hstep h1 lane (fun c => cell_hard_down c now hd)); [apply Hs1|].
    intros c. by apply hard_down_steps. }
  assert (Hview : forall pool c, view_cell pool lane h2 = Some c -> parked (now +sat hd) c).
  { intros pool c. unfold h2. rewrite (view_map_cells h1 lane (fun c => cell_hard_down c now hd)).
    unfold view_cell. rewrite Hl1. simpl.
    destruct (String.eqb pool ""); [intros [= <-]; apply hard_down_parked|].
    destruct (assoc_find pool _) as [c0|]; intros [= <-]; [apply hard_down_parked|].
    unfold inherit_cell. simpl. split; simpl; [done|lia]. }
  destruct (breaker_state (ls_cell ls) =? ST_CLOSED) eqn:Ecl.
  - exists (upd_lane lane (bump_trips now) h2). eexists. split; [done|]. split.
    { eapply hstep_trans; [done|]. eapply hstep_trans; [done|]. apply bump_trips_hstep, Hs2. }
    split; [by erewrite (get_upd_lane_eq h2) by done|]. split_and!; try done.
    intros pool c Hv. apply (Hview pool). by rewrite view_upd_lane in Hv.
  - exists h2. eexists. split; [done|]. split; [by eapply hstep_trans|].
    split; [done|]. split_and!; done.
Qed.

Lemma parked_verdict d c now :
  parked d c -> now < d ->
  breaker_verdict c now = BV_Open (cooldown_until c) /\ cell_ready_breaker c now = false.
Proof.
  intros [Hs Hd] Hn. unfold cell_ready_breaker, breaker_verdict. rewrite Hs. simpl.
  by assert (cooldown_until c <=? now = false) as -> by (apply Z.leb_gt; lia).
Qed.
End store.

(** ** Fresh stores *)

(** What the boot code guarantees of the lanes it builds. *)
Record lane_data_ok {SemT} `{Semaphore SemT} (ld : LaneData SemT) : Prop := {
  ldo_cooldown : is_u64 (ld_cooldown_until ld);
  ldo_streak : is_u32 (ld_streak ld);
  ldo_permits : 0 <= available_permits (ld_sem ld);
  ldo_unbounded : MAX_PERMITS <= ld_max ld -> 0 < available_permits (ld_sem ld);
}.

Lemma new_with_limits_wf {SemT} `{Semaphore SemT} (data : list (LaneData SemT)) hd maxh :
  Forall lane_data_ok data -> limits_ok hd maxh -> health_wf (new_with_limits data hd maxh).
Proof.
  intros Hd Hl. split; simpl; try done; [|by constructor].
  apply Forall_fmap. eapply Forall_impl; [done|]. intros ld []. split; simpl; try done.
  split; [|done]. split; simpl; try done; auto.
Qed.

Definition demo_lane (model : string) (permits : Z) : LaneData Z :=
  mkLaneData model "openai" permits permits false (-1) 0 0 false "" 0 0 0.

Definition demo_store : HealthState Z :=
  HealthState_new [demo_lane "gpt-4o" 2; demo_lane "claude" 1].

Lemma demo_store_wf : health_wf demo_store.
Proof.
  apply new_with_limits_wf; [|done]. repeat constructor; simpl; try done; lia.
Qed.

(** ** Properties *)

Section properties.
Context {SemT : Type} `{Semaphore SemT}.
Implicit Types (h : HealthState SemT) (ls : LaneState SemT).

(** A lane-wide hard-down (auth, billing, quota failures of the shared upstream) is
    total: it returns, keeps the store well formed, counts at most one trip, reports a
    trip exactly when the default cell was Closed, and until the sticky cooldown elapses
    no pool - including a pool that has never touched the lane - is admitted, and the
    lane reads as not usable. *)
Theorem hard_down_blocks_every_pool lane reason now h ls :
  health_wf h -> get_lane h lane = Some ls -> is_u64 now ->
  exists h' ls',
    record_hard_down_all_cells lane reason now h
      = Some (breaker_state (ls_cell ls) =? ST_CLOSED, h')
    /\ health_wf h' /\ get_lane h' lane = Some ls'
    /\ ls_dead ls' = ls_dead ls /\ ls_dead_reason ls' = reason
    /\ ls_trips ls' = (if breaker_state (ls_cell ls) =? ST_CLOSED
                       then wrap 64 (ls_trips ls + 1) else ls_trips ls)
    /\ forall now', now' < now +sat hard_down_cooldown_secs h ->
         lane_usable_any_cell h' lane now' = Some false
         /\ forall pool, exists u h'',
              classify pool lane now' h' = Some (Err u, h'')
              /\ (u = Dead \/ u = BudgetExhausted
                  \/ exists until, u = BreakerOpen until
                       /\ now +sat hard_down_cooldown_secs h <= until).
Proof.
  intros Hw Hl Hn.
  destruct (hard_down_all_spec lane reason now h ls Hw Hl Hn)
    as (h' & ls' & He & Hst & Hl' & Hdead & Hreason & Hbudget & Htrips & Hview).
  pose proof (st_wf _ _ Hst) as Hw'.
  exists h', ls'. split_and!; try done. intros now' Hnow. split.
  - unfold lane_usable_any_cell, lane_admissible. rewrite Hl'. simpl.
    destruct (ls_dead ls'); [done|]. destruct (ls_limited ls' && _); [done|]. simpl.
    pose proof (pool_cells_view h' lane _ Hw' Hview) as Hall.
    destruct (lane_pool_cells h' lane) as [|pc cells].
    + f_equal. eapply parked_verdict; [|done]. by eapply (Hview ""%string), default_view.
    + f_equal. apply (existsb_false (fun pc => cell_ready_breaker pc.2 now') (pc :: cells)).
      eapply Forall_impl; [done|]. intros [p c] Hp.
      by eapply parked_verdict.
  - intros pool. destruct (view_some pool lane h' ls' Hl') as [c Hv].
    destruct (classify_view pool lane now' h' ls' c Hw' Hl' Hv) as (h'' & Hc & _).
    unfold admission, lane_gate in Hc.
    destruct (ls_dead ls'); [eauto 6|]. destruct (ls_limited ls' && _); [eauto 8|].
    destruct (parked_verdict _ _ _ (Hview _ _ Hv) Hnow) as [Hver _]. rewrite Hver in Hc.
    do 2 eexists. split; [done|]. right; right. eexists. split; [done|]. by apply Hview in Hv as [].
Qed.

(** A successful health probe re-admits the lane for every pool: [recover_lane] returns,
    keeps the store well formed, leaves nothing for the prober to do, and afterwards
    every pool - named, default, or not yet seen - is admitted unless the lane is
    dead, out of budget or out of permits. *)
Theorem recover_lane_readmits_every_pool lane now h ls :
  health_wf h -> get_lane h lane = Some ls -> is_u64 now ->
  exists h' ls',
    recover_lane lane now h = Some h' /\ health_wf h' /\ get_lane h' lane = Some ls'
    /\ lane_needs_probe h' lane now = Some false
    /\ forall pool now', now <= now' ->
         exists res h'', classify pool lane now' h' = Some (res, h'')
           /\ match res with
              | Ok _ => True
              | Err u => u ∈ [Dead; BudgetExhausted; AtCapacity None]
              end.
Proof.
  intros Hw Hl Hn. destruct (recover_lane_spec lane now h ls Hw Hl Hn) as (h' & He & Hst & Hview).
  destruct (hstep_get _ _ _ _ Hst Hl) as [ls' Hl']. pose proof (st_wf _ _ Hst) as Hw'.
  exists h', ls'. split_and!; try done.
  - unfold lane_needs_probe. rewrite Hl'. simpl.
    destruct (Hview ""%string _ (default_view _ _ _ Hl')) as [Hs Hc].
    destruct (closed_ready _ now Hs Hc) as (_ & -> & _). f_equal. apply existsb_false.
    eapply Forall_impl; [apply (pool_cells_view h' lane _ Hw' Hview)|].
    intros [p c] [Hs' Hc']. by apply closed_ready.
  - intros pool now' Hle. destruct (view_some pool lane h' ls' Hl') as [c Hv].
    destruct (classify_view pool lane now' h' ls' c Hw' Hl' Hv) as (h'' & Hcl & _).
    do 2 eexists. split; [done|]. destruct (Hview _ _ Hv) as [Hs Hc].
    destruct (closed_ready c now' Hs ltac:(lia)) as (_ & _ & Hver).
    unfold admission, lane_gate. rewrite Hver.
    destruct (ls_dead ls'); [set_solver|]. destruct (ls_limited ls' && _); [set_solver|].
    destruct (lane_available_permits ls' =? 0); set_solver.
Qed.
End properties.

Lemma hard_down_blocks_every_pool_witness :
  exists b h u h'', record_hard_down_all_cells 0 "invalid api key" 1000 demo_store = Some (b, h)
    /\ classify "team" 0 2799 h = Some (Err u, h'').
Proof.
  destruct (hard_down_blocks_every_pool 0 "invalid api key" 1000 demo_store
    (lane_of_data (demo_lane "gpt-4o" 2))) as (h & ls' & He & _ & _ & _ & _ & _ & Hb).
  - apply demo_store_wf.
  - reflexivity.
  - by vm_compute.
  - destruct (Hb 2799) as [_ Hp]; [by vm_compute|].
    destruct (Hp "team"%string) as (u & h'' & Hc & _). by eexists _, h, u, h''.
Defined.

Lemma recover_lane_readmits_every_pool_witness :
  exists h, recover_lane 0 1200 (default demo_store (snd <$>
      record_hard_down_all_cells 0 "invalid api key" 1000 demo_store)) = Some h
    /\ lane_needs_probe h 0 1200 = Some false.
Proof.
  set (h0 := default demo_store (snd <$>
      record_hard_down_all_cells 0 "invalid api key" 1000 demo_store)).
  destruct (hard_down_all_spec 0 "invalid api key" 1000 demo_store
    (lane_of_data (demo_lane "gpt-4o" 2))) as (h1 & ls1 & He & Hst & Hl & _).
  { apply demo_store_wf. } { reflexivity. } { by vm_compute. }
  assert (h0 = h1) as Heq by (unfold h0; rewrite He; reflexivity).
  destruct (recover_lane_readmits_every_pool 0 1200 h0 ls1) as (h' & _ & Hr & _ & _ & Hp & _).
  - rewrite Heq. apply Hst.
  - by rewrite Heq.
  - by vm_compute.
  - eauto.
Defined.
