(* ===== verification/HealthAdmit.v ===== *)
(** * HealthAdmit

    Admission in the lane store: the read-only [classify] and the mutating
    [try_admit] agree, concurrency permits are conserved whatever other threads
    do in the middle of an admission, failures are accounted once and stay in
    their pool, and the lane-global aggregate used by the statistics agrees
    with the per-cell verdicts. *)

From S2P Require Import Prelude Float64 Breaker BreakerFsm HealthState HealthLemmas HealthSpec.

Section store.
Context {SemT : Type} `{Semaphore SemT}.
Implicit Types (h : HealthState SemT) (ls : LaneState SemT) (r : CellRef).
#[local] Arguments read_cell : simpl never.
#[local] Arguments write_cell : simpl never.

(** ** Permits *)

Definition lane_permits h lane : option Z := lane_available_permits <$> get_lane h lane.

Lemma lane_permits_write h r c lane : lane_permits (write_cell r c h) lane = lane_permits h lane.
Proof.
  unfold lane_permits. destruct r as [lane'|pool lane']; [|done]. unfold write_cell.
  destruct (decide (lane' = lane)) as [<-|]; [|by rewrite get_upd_lane_ne].
  destruct (get_lane h lane') as [ls|] eqn:E.
  - by erewrite get_upd_lane_eq.
  - unfold get_lane in *. simpl. by rewrite list_lookup_alter_eq, E.
Qed.

Lemma same_view_permits h h' lane : same_view h h' -> lane_permits h' lane = lane_permits h lane.
Proof. intros Hs. unfold lane_permits. by rewrite (same_view_get_lane _ _ _ Hs). Qed.

(** Reads do not depend on the semaphore. *)
Lemma read_upd_lane r lane f h :
  (forall ls, ls_cell (f ls) = ls_cell ls) -> read_cell r (upd_lane lane f h) = read_cell r h.
Proof.
  intros Hf. destruct r as [lane'|pool lane']; unfold read_cell; [|done].
  destruct (decide (lane = lane')) as [<-|]; [|by rewrite get_upd_lane_ne].
  destruct (get_lane h lane) as [ls|] eqn:Hl.
  - erewrite get_upd_lane_eq by done. simpl. by rewrite Hf.
  - unfold get_lane in *. simpl. by rewrite list_lookup_alter_eq, Hl.
Qed.

Lemma set_sem_hstep lane s h ls :
  health_wf h -> get_lane h lane = Some ls ->
  0 <= available_permits s -> (MAX_PERMITS <= ls_max ls -> 0 < available_permits s) ->
  hstep h (upd_lane lane (set_ls_sem s) h).
Proof.
  intros Hw Hl Hs Hu. apply upd_lane_hstep; [done|]. intros ls' Hl' []. simplify_eq. done.
Qed.

(** What one held permit is worth. *)
Definition permit_cost (p : Permit) : Z := match p with Bounded => 1 | Unbounded => 0 end.

Lemma try_acquire_spec lane h ls :
  health_wf h -> get_lane h lane = Some ls ->
  exists got h', try_acquire lane h = Some (got, h') /\ hstep h h'
    /\ (forall pool lane', view_cell pool lane' h' = view_cell pool lane' h)
    /\ (forall r, read_cell r h' = read_cell r h)
    /\ match got with
       | Some p => lane_permits h' lane = Some (lane_available_permits ls - permit_cost p)
           /\ p = (if MAX_PERMITS <=? ls_max ls then Unbounded else Bounded)
           /\ 0 < lane_available_permits ls
       | None => h' = h /\ lane_available_permits ls = 0
       end.
Proof.
  intros Hw Hl. destruct (health_wf_lane _ _ _ Hw Hl) as [_ Hp Hu].
  unfold try_acquire. rewrite Hl. simpl.
  destruct (MAX_PERMITS <=? ls_max ls) eqn:Em; zbool.
  - do 2 eexists. split; [done|]. split_and!; [by apply hstep_refl|done|done| |done|auto].
    unfold lane_permits. rewrite Hl. simpl. f_equal. lia.
  - destruct (try_acquire_owned (ls_sem ls)) as [s|] eqn:Ea.
    + destruct (try_acquire_zero _ _ Ea) as [Hpos Hs].
      do 2 eexists. split; [done|]. split_and!; try done.
      * eapply set_sem_hstep; [done..| |]; lia.
      * intros. by apply view_upd_lane.
      * intros. by apply read_upd_lane.
      * unfold lane_permits. erewrite get_upd_lane_eq by done. simpl.
        unfold lane_available_permits. simpl. by rewrite Hs.
    + do 2 eexists. split; [done|]. split_and!; try done; [by apply hstep_refl|].
      destruct (Z_lt_le_dec 0 (available_permits (ls_sem ls))) as [Hlt|].
      * destruct (try_acquire_some _ Hlt) as (? & ? & _). congruence.
      * unfold lane_available_permits. lia.
Qed.

Lemma drop_permit_hstep lane p h : health_wf h -> hstep h (drop_permit lane p h).
Proof.
  intros Hw. destruct p; simpl; [|by apply hstep_refl].
  apply upd_lane_hstep; [done|]. intros ls _ []. simpl. split_and!; [|done|done].
  split; simpl; try done; rewrite release_available; [lia|]. intros. lia.
Qed.

Lemma drop_permit_permits lane p h n :
  lane_permits h lane = Some n -> lane_permits (drop_permit lane p h) lane = Some (n + permit_cost p).
Proof.
  unfold lane_permits. intros (ls & Hl & ->)%fmap_Some. destruct p; simpl.
  - erewrite get_upd_lane_eq by done. simpl. unfold lane_available_permits. simpl.
    by rewrite release_available.
  - rewrite Hl. simpl. f_equal. lia.
Qed.

Lemma drop_permit_read lane p h r : read_cell r (drop_permit lane p h) = read_cell r h.
Proof. destruct p; simpl; [|done]. by apply read_upd_lane. Qed.

(** ** The shape of an admission *)

(** What an admission has done when it returns [res]: before the peers run nothing is
    changed on the failing branches; after them, either the permit and the acquired cell are
    held, or both are back to what the peers left. *)
Definition admit_post (peer : HealthState SemT -> HealthState SemT) pool lane now h ls
    (res : Result Admit Unavailable) h2 : Prop :=
  match res with
  | Err u => (admission ls (default BreakerCell_new (view_cell pool lane h)) now = Err u
              /\ same_view h h2)
      \/ (u = ProbeInFlight
          /\ admission ls (default BreakerCell_new (view_cell pool lane h)) now = Ok tt
          /\ exists h1 c1, hstep h h1
          /\ (forall pool' lane', view_cell pool' lane' h1 = view_cell pool' lane' h)
          /\ read_cell (cell_ref pool lane) (peer h1) = Some c1
          /\ cell_ready_breaker c1 now = false
          /\ lane_permits h1 lane = Some (lane_available_permits ls -
               permit_cost (if MAX_PERMITS <=? ls_max ls then Unbounded else Bounded))
          /\ lane_permits h2 lane =
             (fun n => n + permit_cost (if MAX_PERMITS <=? ls_max ls then Unbounded else Bounded))
               <$> lane_permits (peer h1) lane
          /\ forall r, read_cell r h2 = read_cell r (peer h1))
  | Ok a => admission ls (default BreakerCell_new (view_cell pool lane h)) now = Ok tt
      /\ exists h1 c1, hstep h h1
      /\ (forall pool' lane', view_cell pool' lane' h1 = view_cell pool' lane' h)
      /\ lane_permits h1 lane = Some (lane_available_permits ls - permit_cost (permit a))
      /\ permit a = (if MAX_PERMITS <=? ls_max ls then Unbounded else Bounded)
      /\ lane_permits h2 lane = lane_permits (peer h1) lane
      /\ read_cell (cell_ref pool lane) (peer h1) = Some c1
      /\ (cell_acquire_breaker c1 now).2 = true
      /\ read_cell (cell_ref pool lane) h2 = Some (cell_acquire_breaker c1 now).1
      /\ admit_probe_epoch a = probe_epoch (cell_acquire_breaker c1 now).1
  end.

Definition peer_ok (peer : HealthState SemT -> HealthState SemT) : Prop :=
  forall h1, health_wf h1 -> hstep h1 (peer h1).

Lemma admission_gate ls c now u : lane_gate ls = Some u -> admission ls c now = Err u.
Proof. unfold admission. by intros ->. Qed.

Lemma get_lane_permits h lane ls :
  get_lane h lane = Some ls -> lane_permits h lane = Some (lane_available_permits ls).
Proof. unfold lane_permits. by intros ->. Qed.

(** The mutating half, once the verdict peek has passed and the permit is held. *)
Lemma admit_tail peer pool lane now h ls h1 p c1 :
  health_wf h -> get_lane h lane = Some ls -> is_u64 now -> peer_ok peer -> hstep h h1 ->
  lane_permits h1 lane = Some (lane_available_permits ls - permit_cost p) ->
  p = (if MAX_PERMITS <=? ls_max ls then Unbounded else Bounded) ->
  read_cell (cell_ref pool lane) (peer h1) = Some c1 ->
  admission ls (default BreakerCell_new (view_cell pool lane h)) now = Ok tt ->
  (forall pool' lane', view_cell pool' lane' h1 = view_cell pool' lane' h) ->
  exists res h2,
    (let (c', won) := cell_acquire_breaker c1 now in
     let h := write_cell (cell_ref pool lane) c' (peer h1) in
     if negb won then Some (Err ProbeInFlight, drop_permit lane p h)
     else Some (Ok (mkAdmit p (probe_epoch c')), h)) = Some (res, h2)
    /\ hstep h h2 /\ admit_post peer pool lane now h ls res h2.
Proof.
  intros Hw Hl Hn Hpeer Hst Hp Hpk Hr Hadm Hview.
  pose proof (Hpeer h1 (st_wf _ _ Hst)) as Hpst.
  assert (Hs : hstep (peer h1)
    (write_cell (cell_ref pool lane) (cell_acquire_breaker c1 now).1 (peer h1))).
  { eapply write_cell_hstep; [apply Hpst|done|]. by apply acquire_steps. }
  destruct (cell_acquire_breaker c1 now) as [c' won] eqn:Ea. destruct won; simpl in *.
  - do 2 eexists. split; [done|]. split.
    { eapply hstep_trans; [done|]. eapply hstep_trans; done. }
    split; [done|]. exists h1, c1. rewrite Ea. simpl. split_and!; try done.
    + by rewrite lane_permits_write.
    + apply read_write_eq. by exists c1.
  - do 2 eexists. split; [done|]. split.
    { eapply hstep_trans; [done|]. eapply hstep_trans; [done|]. eapply hstep_trans; [done|].
      apply drop_permit_hstep, Hs. }
    assert (cell_ready_breaker c1 now = false) as Hnr.
    { destruct (cell_ready_breaker c1 now) eqn:E; [|done].
      apply verdict_acquires in E. by rewrite Ea in E. }
    right. split_and!; [done..|]. exists h1, c1. split_and!; [done..|by rewrite <- Hpk| |].
    + rewrite <- Hpk.
      destruct (hstep_lane _ _ _ _ (hstep_trans _ _ _ Hst Hpst) Hl) as (lsp & Hlp & _).
      rewrite (get_lane_permits _ _ _ Hlp). simpl. apply drop_permit_permits.
      by rewrite lane_permits_write, (get_lane_permits _ _ _ Hlp).
    + intros r. rewrite drop_permit_read. destruct (decide (r = cell_ref pool lane)) as [->|Hne].
      * rewrite read_write_eq by (by exists c1). rewrite Hr.
        apply verdict_refuses in Hnr. rewrite Ea in Hnr. by simplify_eq.
      * by apply read_write_ne.
Qed.

Lemma try_admit_spec peer pool lane now h ls :
  health_wf h -> get_lane h lane = Some ls -> is_u64 now -> peer_ok peer ->
  exists res h2, try_admit peer pool lane now h = Some (res, h2)
    /\ hstep h h2 /\ admit_post peer pool lane now h ls res h2.
Proof.
  intros Hw Hl Hn Hpeer. unfold try_admit. rewrite Hl. simpl.
  destruct (lane_gate ls) as [u|] eqn:Hg.
  { do 2 eexists. split; [done|]. split; [by apply hstep_refl|]. left.
    split; [by apply admission_gate|reflexivity]. }
  destruct (load_cell_hstep pool lane h ls Hw Hl) as (c & h0 & -> & Hv & Hr & Hok & Hsv & Hst).
  simpl. assert (Hadm : forall u h2, admission ls c now = Err u -> same_view h h2 ->
    admit_post peer pool lane now h ls (Err u) h2) by (intros; left; by rewrite Hv).
  unfold admission in Hadm. rewrite Hg in Hadm.
  assert (Hl0 : get_lane h0 lane = Some ls) by (by rewrite (same_view_get_lane _ _ _ Hsv)).
  destruct (breaker_verdict c now) eqn:Ev.
  2: do 2 eexists; split_and!; eauto.
  2: do 2 eexists; split_and!; eauto.
  all: destruct (try_acquire_spec lane h0 ls (st_wf _ _ Hst) Hl0)
         as (got & h1 & -> & Hst1 & Hvw1 & Hrd1 & Hgot); simpl.
  all: destruct got as [p|]; [|destruct Hgot as [-> Hz]; do 2 eexists; split_and!; [done|done|];
    apply Hadm; [by rewrite Hz|done]].
  all: destruct Hgot as (Hperm & Hpk & Hpos).
  all: pose proof (hstep_trans _ _ _ Hst Hst1) as Hst01.
  all: rewrite <- Hrd1 in Hr.
  all: destruct (st_cells _ _ (Hpeer h1 (st_wf _ _ Hst1)) _ _ Hr) as (c1 & Hr1 & _); rewrite Hr1.
  all: apply (admit_tail peer pool lane now h ls h1 p c1); try done.
  1, 3: by rewrite Hv; simpl; unfold admission; rewrite Hg, Ev;
    destruct (lane_available_permits ls =? 0) eqn:?; zbool; [lia|].
  all: intros; by rewrite Hvw1, (sv_view _ _ Hsv).
Qed.
End store.

(** ** Failure accounting *)

Lemma record_failure_err c now cfg ra maxh e c' b :
  cell_record_failure c now cfg ra maxh e = Some (c', b) -> err c' = wrap 64 (err c + 1).
Proof.
  unfold cell_record_failure, record_failure_locked, cell_open_locked. intros Hr.
  repeat case_match; mbind_inv; done.
Qed.

Section accounting.
Context {SemT : Type} `{Semaphore SemT}.
Implicit Types (h : HealthState SemT) (ls : LaneState SemT).

(** A lane update the views of named pools cannot see. *)
Lemma view_upd_lane_named pool lane lane' f h :
  (forall ls, inherit_cell (f ls) = inherit_cell ls) -> pool <> ""%string ->
  view_cell pool lane' (upd_lane lane f h) = view_cell pool lane' h.
Proof.
  intros Hf Hp. unfold view_cell. apply String.eqb_neq in Hp. rewrite Hp.
  unfold lane_pool_cells. simpl.
  destruct (decide (lane = lane')) as [<-|]; [|by rewrite get_upd_lane_ne].
  destruct (get_lane h lane) as [ls|] eqn:Hl.
  - erewrite get_upd_lane_eq by done. simpl. by rewrite Hf.
  - unfold get_lane in *. simpl. by rewrite list_lookup_alter_eq, Hl.
Qed.

Definition err_trips ls : Z * Z := (err (ls_cell ls), ls_trips ls).

Lemma record_failure_for_spec pool lane now cfg ra e h ls :
  health_wf h -> get_lane h lane = Some ls -> ls_dead ls = false -> is_u64 now ->
  cfg_valid cfg ->
  exists tripped h' c c' ls',
    record_failure_for pool lane now cfg ra e h = Some (tripped, h')
    /\ hstep h h' /\ view_cell pool lane h = Some c
    /\ cell_record_failure c now cfg ra (max_honored_retry_after_secs h) e = Some (c', tripped)
    /\ view_cell pool lane h' = Some c'
    /\ get_lane h' lane = Some ls'
    /\ err_trips ls' = (wrap 64 (err (ls_cell ls) + 1),
                        if tripped then wrap 64 (ls_trips ls + 1) else ls_trips ls)
    /\ (pool <> ""%string -> forall pool' lane', pool' <> ""%string ->
          (pool, lane) <> (pool', lane') -> view_cell pool' lane' h' = view_cell pool' lane' h).
Proof.
  intros Hw Hl Hd Hn Hv. unfold record_failure_for. rewrite Hl. simpl. rewrite Hd.
  destruct (load_cell_hstep pool lane h ls Hw Hl) as (c & h0 & -> & Hvc & Hr & Hok & Hsv & Hst).
  simpl. rewrite (sv_max _ _ Hsv).
  destruct (failure_steps _ _ (hw_limits _ Hw) c now cfg ra e Hok Hn Hv) as (c' & b & He & Hsteps).
  rewrite He. simpl. set (h1 := write_cell _ c' h0).
  assert (Hs1 : hstep h h1).
  { eapply hstep_trans; [done|]. eapply write_cell_hstep; [apply Hst|done|].
    by rewrite (sv_hd _ _ Hsv), (sv_max _ _ Hsv). }
  pose proof (record_failure_err _ _ _ _ _ _ _ _ He) as Herr.
  set (h2 := if String.eqb pool "" then h1 else upd_lane lane bump_err h1).
  assert (Hs2 : hstep h h2).
  { unfold h2. case_match; [done|]. eapply hstep_trans; [done|]. apply bump_err_hstep, Hs1. }
  exists b. eexists _, c, c'. assert (exists ls2, get_lane h2 lane = Some ls2
    /\ err (ls_cell ls2) = wrap 64 (err (ls_cell ls) + 1) /\ ls_trips ls2 = ls_trips ls) as
    (ls2 & Hl2 & He2 & Ht2).
  { unfold h2, h1, cell_ref. assert (get_lane h0 lane = Some ls) as Hl0
      by (by rewrite (same_view_get_lane _ _ _ Hsv)).
    unfold view_cell in Hvc. destruct (String.eqb pool ""); simpl.
    - erewrite get_upd_lane_eq by done. eexists. split; [done|]. simpl. rewrite Hl in Hvc.
      simpl in Hvc. by simplify_eq.
    - erewrite (get_upd_lane_eq (set_pool_cells _ _)) by done. eexists. by split. }
  assert (Hview : forall pl l, (pl <> ""%string \/ pool = ""%string) ->
            view_cell pl l h2 = view_cell pl l h1).
  { intros pl l Hor. unfold h2. destruct (String.eqb_spec pool ""); [done|].
    apply view_upd_lane_named; [done|]. tauto. }
  exists (if b then bump_trips now ls2 else ls2). split; [reflexivity|]. split_and!.
  - destruct b; [|done]. eapply hstep_trans; [done|]. apply bump_trips_hstep, Hs2.
  - done.
  - done.
  - assert (view_cell pool lane h2 = Some c') as Hv2.
    { rewrite Hview by (destruct (decide (pool = ""%string)); auto).
      apply view_write_eq. by exists c. }
    destruct b; [|done]. by rewrite view_upd_lane.
  - destruct b; [|done]. by erewrite get_upd_lane_eq.
  - unfold err_trips. destruct b; simpl; by rewrite He2, ?Ht2.
  - intros Hp pl l Hpl Hne. assert (view_cell pl l h2 = view_cell pl l h) as Hv2.
    { rewrite Hview by auto. unfold h1. rewrite view_write_ne by done. apply Hsv. }
    destruct b; [|done]. by rewrite view_upd_lane.
Qed.
End accounting.

(** ** The lane-global aggregate *)

Definition verdict_ready (v : BreakerVerdict) : bool :=
  match v with BV_Ready | BV_ProbeWinnable => true | _ => false end.

(** The fold keeps an admitting verdict if there is one, and otherwise the soonest
    deadline when every verdict is Open. *)
Definition aggregates (vs : list BreakerVerdict) (v : BreakerVerdict) : Prop :=
  verdict_ready v = existsb verdict_ready vs
  /\ (forall u, v = BV_Open u -> BV_Open u ∈ vs
        /\ Forall (fun w => exists u', w = BV_Open u' /\ u <= u') vs)
  /\ (v = BV_HalfOpen -> BV_HalfOpen ∈ vs).

Lemma better_aggregates vs a b : aggregates vs a -> aggregates (vs ++ [b]) (better a b).
Proof.
  intros (Hr & Ho & Hh). unfold aggregates. rewrite existsb_app, <- Hr. simpl.
  rewrite orb_false_r. split_and!.
  - destruct a, b; reflexivity.
  - intros u Hu. destruct a as [|ua| |], b as [|ub| |]; simpl in Hu; try discriminate.
    destruct (Ho ua eq_refl) as [Hin Hall]. injection Hu as <-. split.
    + apply elem_of_app. destruct (Z.min_spec ua ub) as [[_ ->]|[_ ->]]; [by left|].
      right. by apply list_elem_of_singleton.
    + apply Forall_app. split.
      * eapply Forall_impl; [done|]. intros w (u' & -> & ?). exists u'. split; [done|lia].
      * constructor; [|done]. exists ub. split; [done|lia].
  - intros Hu. apply elem_of_app.
    destruct a, b; simpl in Hu; try discriminate; auto;
      right; by apply list_elem_of_singleton.
Qed.

Lemma aggregates_one v : aggregates [v] v.
Proof.
  split_and!; simpl; [by rewrite orb_false_r| |intros ->; by left].
  intros u ->. split; [by left|]. constructor; [|done]. by exists u.
Qed.

Lemma fold_aggregates now cells vs v :
  aggregates vs v ->
  aggregates (vs ++ ((fun pc : string * BreakerCell => breaker_verdict pc.2 now) <$> cells))
    (foldl (fun acc pc => better acc (breaker_verdict pc.2 now)) v cells).
Proof.
  revert vs v. induction cells as [|[p c] cells IH]; intros vs v Hv; csimpl.
  - by rewrite app_nil_r.
  - rewrite cons_middle, app_assoc. apply IH. by apply better_aggregates.
Qed.

Section aggregate.
Context {SemT : Type} `{Semaphore SemT}.
Implicit Types (h : HealthState SemT) (ls : LaneState SemT).

(** The cells production routes through: the pool cells if there are any, else the default. *)
Definition routed_cells h lane : list BreakerCell :=
  match lane_pool_cells h lane with
  | [] => option_list (ls_cell <$> get_lane h lane)
  | cells => cells.*2
  end.

Lemma lane_breaker_verdict_spec h lane now ls :
  get_lane h lane = Some ls ->
  exists v, lane_breaker_verdict h lane now = Some v
    /\ aggregates ((fun c => breaker_verdict c now) <$> routed_cells h lane) v.
Proof.
  intros Hl. unfold lane_breaker_verdict, routed_cells.
  destruct (lane_pool_cells h lane) as [|[p c] cells]; rewrite ?Hl; simpl.
  - eexists. split; [done|]. apply aggregates_one.
  - eexists. split; [done|]. rewrite <- list_fmap_compose.
    apply (fold_aggregates now cells [breaker_verdict c now]). apply aggregates_one.
Qed.

Lemma verdict_ready_cell c now : verdict_ready (breaker_verdict c now) = cell_ready_breaker c now.
Proof. done. Qed.

Lemma existsb_routed h lane now ls :
  get_lane h lane = Some ls ->
  existsb verdict_ready ((fun c => breaker_verdict c now) <$> routed_cells h lane)
  = match lane_pool_cells h lane with
    | [] => cell_ready_breaker (ls_cell ls) now
    | cells => existsb (fun pc => cell_ready_breaker pc.2 now) cells
    end.
Proof.
  intros Hl. unfold routed_cells. destruct (lane_pool_cells h lane) as [|pc cells].
  - rewrite Hl. simpl. by rewrite orb_false_r.
  - generalize (pc :: cells). clear. intros l. induction l as [|pc l IH]; [done|].
    csimpl. by rewrite IH.
Qed.

Lemma lane_usable_verdict h lane now ls v :
  get_lane h lane = Some ls ->
  aggregates ((fun c => breaker_verdict c now) <$> routed_cells h lane) v ->
  lane_usable_any_cell h lane now
  = Some (match lane_gate ls with Some _ => false | None => verdict_ready v end).
Proof.
  intros Hl (Hr & _). rewrite (existsb_routed h lane now ls Hl) in Hr.
  unfold lane_usable_any_cell, lane_admissible, lane_gate. rewrite Hl. simpl.
  destruct (ls_dead ls); [done|]. destruct (ls_limited ls && _); [done|].
  rewrite Hr. by destruct (lane_pool_cells h lane).
Qed.
End aggregate.

(** ** Properties *)

Section properties.
Context {SemT : Type} `{Semaphore SemT}.
Implicit Types (h : HealthState SemT) (ls : LaneState SemT).

(** The read-only [classify] and the mutating [try_admit] speak one taxonomy: run on the
    same store at the same instant, [try_admit] refuses exactly when [classify] does
    and with the same reason, leaving lanes, permits and cells as they were; and when
    [classify] says the lane is available, [try_admit] takes exactly one permit of a
    bounded lane (none of an unbounded one) and the cell's admission, and hands out the
    owner token of the admitted cell. *)
Theorem classify_predicts_try_admit pool lane now h ls :
  health_wf h -> get_lane h lane = Some ls -> is_u64 now ->
  exists res h1 res' h2 c,
    classify pool lane now h = Some (res, h1) /\ same_view h h1
    /\ view_cell pool lane h = Some c
    /\ try_admit id pool lane now h = Some (res', h2) /\ health_wf h2
    /\ match res, res' with
       | Err u, Err u' => u' = u /\ same_view h h2
       | Ok _, Ok a =>
           lane_permits h2 lane = Some (lane_available_permits ls - permit_cost (permit a))
           /\ permit a = (if MAX_PERMITS <=? ls_max ls then Unbounded else Bounded)
           /\ view_cell pool lane h2 = Some (cell_acquire_breaker c now).1
           /\ admit_probe_epoch a = probe_epoch (cell_acquire_breaker c now).1
       | _, _ => False
       end.
Proof.
  intros Hw Hl Hn. destruct (view_some pool lane h ls Hl) as [c Hv].
  destruct (classify_view pool lane now h ls c Hw Hl Hv) as (h1 & Hc & Hsv & _).
  destruct (try_admit_spec id pool lane now h ls Hw Hl Hn) as (res' & h2 & Ht & Hst & Hpost).
  { intros h0 Hw0. by apply hstep_refl. }
  exists (admission ls c now), h1, res', h2, c. split_and!; try done; [apply Hst|].
  unfold admit_post in Hpost. rewrite Hv in Hpost. simpl in Hpost. destruct res' as [a|u].
  - destruct Hpost as (Hadm & h3 & c1 & _ & Hvw & Hp & Hpk & Hp2 & Hr & _ & Hr2 & He).
    rewrite Hadm. apply view_ref in Hr. unfold id in *. rewrite Hvw, Hv in Hr. injection Hr as <-.
    split_and!; [by rewrite Hp2|done|by apply view_ref|done].
  - destruct Hpost as [[Hadm Hs]|(-> & Hadm & h3 & c1 & _ & Hvw & Hr & Hnr & _ & _)];
      rewrite Hadm; [done|].
    apply view_ref in Hr. unfold id in Hr. rewrite Hvw, Hv in Hr. injection Hr as <-.
    unfold admission in Hadm. destruct (lane_gate ls); [done|].
    unfold cell_ready_breaker in Hnr. by destruct (breaker_verdict c now).
Qed.

(** Permits are conserved across an admission, whatever the other threads do between the
    verdict peek and the probe acquisition (they may change the lane's free permits by any
    amount [d], trip or recover cells): a refused admission holds nothing, and an admitted
    one on a bounded lane holds exactly one permit. When it loses the race for the
    breaker it reports [ProbeInFlight] and leaves every breaker cell as the others left it. *)
Theorem try_admit_conserves_permits peer d pool lane now h ls :
  health_wf h -> get_lane h lane = Some ls -> is_u64 now -> peer_ok peer ->
  (forall h1 n, lane_permits h1 lane = Some n -> lane_permits (peer h1) lane = Some (n + d)) ->
  exists res h2 n, try_admit peer pool lane now h = Some (res, h2) /\ health_wf h2
    /\ lane_permits h2 lane = Some n
    /\ match res with
       | Ok a => n + permit_cost (permit a) = lane_available_permits ls + d
           /\ permit a = (if MAX_PERMITS <=? ls_max ls then Unbounded else Bounded)
       | Err u => (n = lane_available_permits ls /\ same_view h h2)
           \/ (u = ProbeInFlight /\ n = lane_available_permits ls + d
               /\ exists h1, forall r, read_cell r h2 = read_cell r (peer h1))
       end.
Proof.
  intros Hw Hl Hn Hpeer Hd.
  destruct (try_admit_spec peer pool lane now h ls Hw Hl Hn Hpeer) as (res & h2 & Ht & Hst & Hpost).
  pose proof (st_wf _ _ Hst) as Hw2. destruct res as [a|u]; simpl in Hpost.
  - destruct Hpost as (_ & h1 & c1 & _ & _ & Hp & Hpk & Hp2 & _).
    rewrite (Hd _ _ Hp) in Hp2. exists (Ok a), h2. eexists. split_and!; try done. lia.
  - destruct Hpost as [[_ Hs]|(-> & _ & h1 & c1 & Hs1 & _ & _ & _ & Hp1 & Hp & Hr)].
    + exists (Err u), h2, (lane_available_permits ls). split_and!; try done; [|by left].
      rewrite (same_view_permits _ _ _ Hs). by apply get_lane_permits.
    + rewrite (Hd _ _ Hp1) in Hp. simpl in Hp.
      exists (Err ProbeInFlight), h2. eexists. split_and!; try done. right.
      split_and!; [done|lia|by exists h1].
Qed.

(** Failures are recorded once and stay in their pool: on a live lane the failure reaches
    exactly the (pool, lane) cell, with the outcome of the breaker transition on that cell;
    the lane-wide error counter advances by one whether the failure came through a named
    pool or the default cell; the monotonic trip counter advances exactly when the cell
    tripped; and no other named pool sees any difference on any lane. *)
Theorem failure_is_isolated_and_counted_once pool lane now cfg ra e h ls :
  health_wf h -> get_lane h lane = Some ls -> ls_dead ls = false -> is_u64 now ->
  cfg_valid cfg ->
  exists tripped h' c c' ls',
    record_failure_for pool lane now cfg ra e h = Some (tripped, h') /\ health_wf h'
    /\ view_cell pool lane h = Some c
    /\ cell_record_failure c now cfg ra (max_honored_retry_after_secs h) e = Some (c', tripped)
    /\ view_cell pool lane h' = Some c'
    /\ get_lane h' lane = Some ls'
    /\ err (ls_cell ls') = wrap 64 (err (ls_cell ls) + 1)
    /\ ls_trips ls' = (if tripped then wrap 64 (ls_trips ls + 1) else ls_trips ls)
    /\ (pool <> ""%string -> forall pool' lane', pool' <> ""%string ->
          (pool, lane) <> (pool', lane') -> view_cell pool' lane' h' = view_cell pool' lane' h).
Proof.
  intros Hw Hl Hd Hn Hv.
  destruct (record_failure_for_spec pool lane now cfg ra e h ls Hw Hl Hd Hn Hv)
    as (b & h' & c & c' & ls' & Hr & Hst & Hvw & Hc & Hv' & Hl' & Het & Hiso).
  injection Het as He Ht. exists b, h', c, c', ls'. split_and!; try done. apply Hst.
Qed.

(** The [/stats] snapshot cannot drift from routing: for every existing lane it is defined;
    it reads usable exactly when its availability is Ok or only capacity is missing;
    a dead or out-of-budget lane says so before anything else; when it reports the
    breaker open until [u], every cell traffic is routed through refuses, none
    before [u], and [u] is the deadline of one of them. *)
Theorem snapshot_agrees_with_routing h lane now ls :
  get_lane h lane = Some ls ->
  exists sn, snapshot h lane now = Some sn
    /\ (sn_usable sn = true <->
          sn_availability sn = Ok tt \/ sn_availability sn = Err (AtCapacity None))
    /\ (sn_availability sn = Err Dead <-> ls_dead ls = true)
    /\ (ls_dead ls = true -> sn_breaker_state sn = BS_Open U64_MAX)
    /\ (forall u, sn_availability sn = Err (BreakerOpen u) ->
          sn_breaker_state sn = BS_Open u
          /\ BV_Open u ∈ ((fun c => breaker_verdict c now) <$> routed_cells h lane)
          /\ Forall (fun c => cell_ready_breaker c now = false
               /\ exists u', breaker_verdict c now = BV_Open u' /\ u <= u')
               (routed_cells h lane)).
Proof.
  intros Hl. destruct (lane_breaker_verdict_spec h lane now ls Hl) as (v & Hv & Hagg).
  pose proof (lane_usable_verdict h lane now ls v Hl Hagg) as Hu. destruct Hagg as (_ & Ho & _).
  unfold snapshot, classify_lane_from_verdict, lane_breaker_state_from_verdict,
    lane_max_cooldown_remaining, lane_max_streak.
  rewrite Hu, Hl, Hv. simpl. unfold lane_gate.
  destruct (ls_dead ls); simpl.
  { eexists. split; [done|]. simpl. naive_solver. }
  destruct (ls_limited ls && (ls_budget ls <=? 0)); simpl.
  { eexists. split; [done|]. simpl. naive_solver. }
  eexists. split; [done|]. simpl.
  destruct v as [|u| |]; simpl; [| | |]; try (destruct (lane_available_permits ls =? 0));
    split_and!; try naive_solver.
  all: intros u' [= <-]; destruct (Ho u eq_refl) as [Hin Hall]; split; [done|]; split; [done|].
  all: apply (Forall_fmap (fun c => breaker_verdict c now)) in Hall; eapply Forall_impl; [apply Hall|]; intros c (u'' & Hc & ?).
  all: simpl in Hc; split; [|by exists u'']; unfold cell_ready_breaker; by rewrite Hc.
Qed.
End properties.

Lemma classify_predicts_try_admit_witness :
  exists a h2, try_admit id "team" 1 1000 demo_store = Some (Ok a, h2)
    /\ lane_permits h2 1 = Some (1 - permit_cost (permit a)) /\ permit a = Bounded.
Proof.
  destruct (classify_predicts_try_admit "team" 1 1000 demo_store (lane_of_data (demo_lane "claude" 1)))
    as (res & h1 & res' & h2 & c & Hc & _ & _ & Ht & _ & Hm).
  - apply demo_store_wf.
  - reflexivity.
  - by vm_compute.
  - assert (res = Ok tt) as ->.
    { assert (fst <$> classify "team" 1 1000 demo_store = Some (Ok tt)) as Hf by (vm_compute; done).
      rewrite Hc in Hf. by injection Hf. }
    destruct res' as [a|]; [|done]. exists a, h2. destruct Hm as (Hp & Hk & _). done.
Defined.

(** The peer trips the cell in the middle of the admission. *)
Definition demo_peer (h : HealthState Z) : HealthState Z :=
  match read_cell (PoolCell "team" 1) h with
  | Some c => write_cell (PoolCell "team" 1) (cell_hard_down c 1000 (hard_down_cooldown_secs h)) h
  | None => h
  end.

Lemma demo_peer_ok : peer_ok demo_peer.
Proof.
  intros h Hw. unfold demo_peer. destruct (read_cell _ h) as [c|] eqn:Hr; [|by apply hstep_refl].
  eapply write_cell_hstep; [done|done|]. by apply hard_down_steps.
Qed.

Lemma try_admit_conserves_permits_witness :
  exists h2, try_admit demo_peer "team" 1 1000 demo_store = Some (Err ProbeInFlight, h2)
    /\ lane_permits h2 1 = Some 1.
Proof.
  destruct (try_admit_conserves_permits demo_peer 0 "team" 1 1000 demo_store
    (lane_of_data (demo_lane "claude" 1))) as (res & h2 & n & Ht & _ & Hp & Hm).
  - apply demo_store_wf.
  - reflexivity.
  - by vm_compute.
  - apply demo_peer_ok.
  - intros h1 n Hn. unfold demo_peer. rewrite Z.add_0_r.
    destruct (read_cell _ h1); [|done]. by rewrite lane_permits_write.
  - assert (res = Err ProbeInFlight) as ->.
    { assert (fst <$> try_admit demo_peer "team" 1 1000 demo_store = Some (Err ProbeInFlight)) as Hf
        by (vm_compute; done).
      rewrite Ht in Hf. by injection Hf. }
    exists h2. split; [done|]. rewrite Hp.
    destruct Hm as [[-> _]|(_ & -> & _)]; vm_compute; done.
Defined.

Lemma failure_is_isolated_and_counted_once_witness :
  exists b h', record_failure_for "team" 0 1000 BreakerCfg_default None demo_entropy demo_store
                 = Some (b, h')
    /\ view_cell "other" 0 h' = view_cell "other" 0 demo_store.
Proof.
  destruct (failure_is_isolated_and_counted_once "team" 0 1000 BreakerCfg_default None
    demo_entropy demo_store (lane_of_data (demo_lane "gpt-4o" 2)))
    as (b & h' & c & c' & ls' & Hr & _ & _ & _ & _ & _ & _ & _ & Hiso).
  - apply demo_store_wf.
  - reflexivity.
  - reflexivity.
  - by vm_compute.
  - apply BreakerCfg_default_valid.
  - exists b, h'. split; [done|]. by apply Hiso.
Defined.

Lemma snapshot_agrees_with_routing_witness :
  exists sn, snapshot demo_store 0 1000 = Some sn /\ sn_usable sn = true.
Proof.
  destruct (snapshot_agrees_with_routing demo_store 0 1000 (lane_of_data (demo_lane "gpt-4o" 2)))
    as (sn & Hs & Hu & _); [reflexivity|].
  exists sn. split; [done|]. apply Hu. left.
  assert (sn_availability <$> snapshot demo_store 0 1000 = Some (Ok tt)) as Hf by (vm_compute; done).
  rewrite Hs in Hf. by injection Hf.
Defined.
