(* ===== verification/SwrrCore.v ===== *)
(** * SwrrCore

    Smooth weighted round robin on a vector of accumulators: add every weight,
    pick the first maximum, subtract the total from it.  The theorem of this file
    is exact proportionality: from zero accumulators, in a period of
    [W = sum of the weights] rounds member [i] is picked exactly [w_i] times, and
    the accumulators are back to zero. *)

From S2P Require Import Prelude.

(** The code's scan: strictly greater wins, starting below every value. *)
Fixpoint scan_max (idx : nat) (best : option nat) (best_weight : Z) (l : list Z) : option nat :=
  match l with
  | [] => best
  | cw :: l =>
      if best_weight <? cw then scan_max (S idx) (Some idx) cw l
      else scan_max (S idx) best best_weight l
  end.

Definition argmax (l : list Z) : option nat := scan_max 0 None I64_MIN l.

Definition swrr_add (cs ws : list Z) : list Z := zip_with (fun c w => wrap_i64 (c + w)) cs ws.

Definition swrr_round (ws cs : list Z) : option (nat * list Z) :=
  let added := swrr_add cs ws in
  i ← argmax added; Some (i, alter (fun c => wrap_i64 (c - Zsum ws)) i added).

Fixpoint swrr_run (n : nat) (ws cs : list Z) : option (list nat * list Z) :=
  match n with
  | O => Some ([], cs)
  | S n =>
      '(i, cs) ← swrr_round ws cs;
      '(picks, cs) ← swrr_run n ws cs;
      Some (i :: picks, cs)
  end.

(** ** The scan *)

Lemma scan_max_spec l idx best bw i :
  scan_max idx best bw l = Some i ->
  (best = Some i /\ Forall (fun c => c <= bw) l)
  \/ exists j c, i = (idx + j)%nat /\ l !! j = Some c /\ bw < c
       /\ forall j' c', l !! j' = Some c' -> c' <= c.
Proof.
  revert idx best bw. induction l as [|c l IH]; simpl; intros idx best bw Hs.
  { left. split; [done|constructor]. }
  destruct (bw <? c) eqn:E; zbool; destruct (IH _ _ _ Hs) as [[Hb Hall]|(j & c' & Hi & Hj & Hlt & Hmax)].
  - right. injection Hb as <-. exists 0%nat, c. split_and!; [lia|done|done|].
    intros [|j'] c' Hj'; simpl in Hj'; [injection Hj'; lia|].
    rewrite Forall_lookup in Hall. by eapply Hall.
  - right. exists (S j), c'. split_and!; [lia|done|lia|].
    intros [|j'] c'' Hj'; simpl in Hj'; [injection Hj'; lia|]. by eapply Hmax.
  - left. split; [done|]. constructor; [lia|done].
  - right. exists (S j), c'. split_and!; [lia|done|lia|].
    intros [|j'] c'' Hj'; simpl in Hj'; [injection Hj'; lia|]. by eapply Hmax.
Qed.

Lemma scan_max_none l idx best bw :
  scan_max idx best bw l = None -> best = None /\ Forall (fun c => c <= bw) l.
Proof.
  revert idx best bw. induction l as [|c l IH]; simpl; intros idx best bw Hs; [done|].
  destruct (bw <? c) eqn:E; zbool; destruct (IH _ _ _ Hs) as [Hb Hall]; [done|].
  split; [done|]. constructor; [lia|done].
Qed.

Lemma argmax_spec l i :
  argmax l = Some i ->
  exists c, l !! i = Some c /\ forall j c', l !! j = Some c' -> c' <= c.
Proof.
  intros Hs. destruct (scan_max_spec _ _ _ _ _ Hs) as [[? _]|(j & c & -> & Hj & _ & Hmax)]; [done|].
  exists c. by split.
Qed.

Lemma argmax_some l j c : l !! j = Some c -> I64_MIN < c -> exists i, argmax l = Some i.
Proof.
  intros Hj Hc. destruct (argmax l) as [i|] eqn:E; [eauto|].
  destruct (scan_max_none _ _ _ _ E) as [_ Hall]. rewrite Forall_lookup in Hall.
  specialize (Hall _ _ Hj). simpl in Hall. lia.
Qed.

(** ** Sums over vectors *)

Lemma Zsum_alter f i l x :
  l !! i = Some x -> Zsum (alter f i l) = Zsum l - x + f x.
Proof.
  revert i. induction l as [|y l IH]; intros [|i] Hi; simpl in *; try done.
  - injection Hi as ->. unfold alter. simpl. lia.
  - change (y + Zsum (alter f i l) = y + Zsum l - x + f x). rewrite (IH i Hi). lia.
Qed.

Lemma Zsum_le l k :
  length l = length k -> (forall i x y, l !! i = Some x -> k !! i = Some y -> x <= y) ->
  Zsum l <= Zsum k.
Proof.
  revert k. induction l as [|x l IH]; intros [|y k] Hl Hle; simpl in *; try lia.
  pose proof (Hle 0%nat x y eq_refl eq_refl).
  enough (Zsum l <= Zsum k) by lia. apply IH; [lia|]. intros i. apply (Hle (S i)).
Qed.

Lemma Zsum_le_eq l k :
  length l = length k -> (forall i x y, l !! i = Some x -> k !! i = Some y -> x <= y) ->
  Zsum l = Zsum k -> l = k.
Proof.
  revert k. induction l as [|x l IH]; intros [|y k] Hl Hle Hs; simpl in *; try done.
  pose proof (Hle 0%nat x y eq_refl eq_refl).
  assert (Zsum l <= Zsum k) by (apply Zsum_le; [lia|]; intros i; apply (Hle (S i))).
  f_equal; [lia|]. apply IH; [lia| |lia]. intros i. apply (Hle (S i)).
Qed.

Lemma Zsum_ge_elem l i x : Forall (fun y => 0 <= y) l -> l !! i = Some x -> x <= Zsum l.
Proof.
  intros Hf. revert i. induction Hf as [|y l Hy Hf IH]; intros [|i] Hi; simpl in *; try done.
  - injection Hi as ->. pose proof (Zsum_nonneg l Hf). lia.
  - apply IH in Hi. lia.
Qed.

Lemma Zsum_zip_lin a b ws ks :
  length ws = length ks ->
  Zsum (zip_with (fun w k => a * w - b * k) ws ks) = a * Zsum ws - b * Zsum ks.
Proof.
  revert ks. induction ws as [|w ws IH]; intros [|k ks] Hl; simpl in *; try lia.
  rewrite IH by lia. lia.
Qed.

Lemma Zsum_max_pos l : 0 < Zsum l -> exists i x, l !! i = Some x /\ 0 < x.
Proof.
  induction l as [|x l IH]; simpl; intros Hs; [lia|].
  destruct (Z_lt_le_dec 0 x); [by exists 0%nat, x|].
  destruct IH as (i & y & ? & ?); [lia|]. by exists (S i), y.
Qed.

(** ** One period *)

Section period.
Context (ws : list Z).
Hypothesis Hpos : Forall (fun w => 1 <= w) ws.
Hypothesis Hne : ws <> [].
Hypothesis Hsmall : Zsum ws <= 2 ^ 31.
Local Notation W := (Zsum ws).

(** After [n] rounds: the accumulators are [n * w_i - W * k_i] where [k_i] is how often
    member [i] was picked, and nobody is ahead of its share of the period. *)
Definition progress (n : Z) (ks cs : list Z) : Prop :=
  length ks = length ws
  /\ cs = zip_with (fun w k => n * w - W * k) ws ks
  /\ Zsum ks = n
  /\ forall i w k, ws !! i = Some w -> ks !! i = Some k -> 0 <= k <= w.

Lemma W_pos : 1 <= W.
Proof.
  assert (Forall (fun w => 0 <= w) ws) as H0 by (eapply Forall_impl; [done|]; simpl; lia).
  destruct ws as [|w l]; [done|]. apply Forall_cons in Hpos as [Hw _].
  apply Forall_cons in H0 as [_ H0]. simpl. pose proof (Zsum_nonneg l H0). lia.
Qed.

Lemma weight_le i w : ws !! i = Some w -> 1 <= w <= W.
Proof.
  intros Hi. split; [by eapply (Forall_lookup_1 _ _ _ _ Hpos)|].
  eapply Zsum_ge_elem; [|done]. eapply Forall_impl; [done|]. simpl. lia.
Qed.

Lemma share_lookup n ks i w k :
  ws !! i = Some w -> ks !! i = Some k ->
  zip_with (fun w k => n * w - W * k) ws ks !! i = Some (n * w - W * k).
Proof. intros Hw Hk. by rewrite lookup_zip_with, Hw, Hk. Qed.

(** No accumulator ever leaves the machine range. *)
Lemma progress_added n ks cs :
  0 <= n < W -> progress n ks cs ->
  swrr_add cs ws = zip_with (fun w k => (n + 1) * w - W * k) ws ks.
Proof.
  intros Hn (Hlen & -> & Hsum & Hk). unfold swrr_add. apply list_eq. intros i.
  rewrite !lookup_zip_with. destruct (ws !! i) as [w|] eqn:Ew; simpl; [|done].
  destruct (ks !! i) as [k|] eqn:Ek; simpl; [|done].
  pose proof (weight_le _ _ Ew). pose proof (Hk _ _ _ Ew Ek). f_equal.
  rewrite wrap_i64_small by nia. lia.
Qed.

Lemma progress_step n ks cs :
  0 <= n < W -> progress n ks cs ->
  exists i cs' ks', swrr_round ws cs = Some (i, cs')
    /\ ks' = alter (Z.add 1) i ks /\ (i < length ws)%nat /\ progress (n + 1) ks' cs'.
Proof.
  intros Hn Hp. pose proof W_pos as HW. pose proof (progress_added n ks cs Hn Hp) as Hadd.
  destruct Hp as (Hlen & -> & Hsum & Hk).
  set (added := zip_with (fun w k => (n + 1) * w - W * k) ws ks) in *.
  assert (Hs : Zsum added = W).
  { unfold added. rewrite Zsum_zip_lin by lia. rewrite Hsum. lia. }
  destruct (Zsum_max_pos added ltac:(lia)) as (j & x & Hj & Hx).
  destruct (argmax_some added j x Hj) as [i Hi]; [unfold I64_MIN; lia|].
  destruct (argmax_spec added i Hi) as (c & Hc & Hmax).
  pose proof (Hmax _ _ Hj) as Hxc.
  unfold added in Hc. rewrite lookup_zip_with in Hc.
  apply bind_Some_inv in Hc as (w & Hw & Hc). apply bind_Some_inv in Hc as (k & Hki & Hc).
  injection Hc as <-. pose proof (Hk _ _ _ Hw Hki) as Hkw. pose proof (weight_le _ _ Hw) as Hww.
  assert (k < w) as Hlt by nia.
  unfold swrr_round. rewrite Hadd, Hi. simpl.
  do 3 eexists. split; [done|]. split; [done|]. split; [by eapply lookup_lt_Some|].
  split; [by rewrite length_alter|]. split_and!.
  - apply list_eq. intros j'. destruct (decide (i = j')) as [<-|Hne'].
    + rewrite list_lookup_alter_eq. unfold added. rewrite !lookup_zip_with, Hw, Hki. simpl.
      rewrite list_lookup_alter_eq, Hki. simpl. f_equal. rewrite wrap_i64_small by nia. lia.
    + rewrite list_lookup_alter_ne by done. unfold added. rewrite !lookup_zip_with.
      destruct (ws !! j'); simpl; [|done]. by rewrite list_lookup_alter_ne.
  - rewrite (Zsum_alter _ _ _ _ Hki). lia.
  - intros j' w' k' Hw' Hk'. destruct (decide (i = j')) as [<-|Hne'].
    + rewrite list_lookup_alter_eq, Hki in Hk'. simpl in Hk'. simplify_eq. lia.
    + rewrite list_lookup_alter_ne in Hk' by done. by eapply Hk.
Qed.

(** How often [i] occurs in a list of picks. *)
Definition picked (i : nat) (picks : list nat) : Z :=
  Z.of_nat (length (filter (fun j => j = i) picks)).

Lemma picked_cons i j picks : picked i (j :: picks) = (if decide (j = i) then 1 else 0) + picked i picks.
Proof. unfold picked. rewrite filter_cons. case_decide; simpl; lia. Qed.

Lemma period_run m n ks cs :
  0 <= n -> n + Z.of_nat m <= W -> progress n ks cs ->
  exists picks cs' ks', swrr_run m ws cs = Some (picks, cs')
    /\ length picks = m /\ Forall (fun i => (i < length ws)%nat) picks
    /\ progress (n + Z.of_nat m) ks' cs'
    /\ forall i k, ks !! i = Some k -> ks' !! i = Some (k + picked i picks).
Proof.
  revert n ks cs. induction m as [|m IH]; intros n ks cs Hn Hm Hp; simpl.
  { exists [], cs, ks. rewrite Z.add_0_r. split_and!; try done. intros i k Hi.
    unfold picked. simpl. by rewrite Z.add_0_r. }
  destruct (progress_step n ks cs ltac:(lia) Hp) as (i & cs1 & ks1 & Hr & -> & Hilt & Hp1).
  rewrite Hr. simpl.
  destruct (IH (n + 1) _ cs1 ltac:(lia) ltac:(lia) Hp1) as (picks & cs' & ks' & Hrun & Hl & Hall & Hp' & Hcnt).
  rewrite Hrun. simpl. exists (i :: picks), cs', ks'. split_and!; [done|simpl; lia|by constructor| |].
  - replace (n + Z.of_nat (S m)) with (n + 1 + Z.of_nat m) by lia. done.
  - intros j k Hj. rewrite picked_cons. destruct (decide (i = j)) as [<-|Hne'].
    + rewrite (Hcnt i (1 + k)); [f_equal; lia|]. by rewrite list_lookup_alter_eq, Hj.
    + rewrite (Hcnt j k); [f_equal; lia|]. by rewrite list_lookup_alter_ne.
Qed.

Lemma progress_start : progress 0 (replicate (length ws) 0) (replicate (length ws) 0).
Proof.
  split_and!.
  - apply length_replicate.
  - apply list_eq. intros i. rewrite lookup_zip_with.
    destruct (ws !! i) as [w|] eqn:Ew; simpl.
    + rewrite lookup_replicate_2 by (by eapply lookup_lt_Some). simpl. f_equal; lia.
    + apply lookup_replicate_None. by apply lookup_ge_None.
  - generalize (length ws). induction n; simpl; lia.
  - intros i w k Hw [-> _]%lookup_replicate. pose proof (weight_le _ _ Hw). lia.
Qed.

(** A full period returns to zero and serves every member exactly its weight. *)
Lemma full_period :
  exists picks, swrr_run (Z.to_nat W) ws (replicate (length ws) 0)
      = Some (picks, replicate (length ws) 0)
    /\ length picks = Z.to_nat W
    /\ Forall (fun i => (i < length ws)%nat) picks
    /\ forall i w, ws !! i = Some w -> picked i picks = w.
Proof.
  pose proof W_pos as HW.
  destruct (period_run (Z.to_nat W) 0 _ _ ltac:(lia) ltac:(lia) progress_start)
    as (picks & cs & ks & Hrun & Hlen & Hall & Hp & Hcnt).
  rewrite Z2Nat.id, Z.add_0_l in Hp by lia. destruct Hp as (Hlk & -> & Hsum & Hk).
  assert (ks = ws) as ->.
  { apply Zsum_le_eq; [done| |done]. intros i k w Hki Hw. by eapply Hk. }
  exists picks. split_and!; try done.
  - rewrite Hrun. do 2 f_equal. apply list_eq. intros i. rewrite lookup_zip_with.
    destruct (ws !! i) as [w|] eqn:Ew; simpl.
    + rewrite lookup_replicate_2 by (by eapply lookup_lt_Some). f_equal. lia.
    + symmetry. apply lookup_replicate_None. by apply lookup_ge_None.
  - intros i w Hw. pose proof (Hcnt i 0) as Hc.
    rewrite lookup_replicate_2 in Hc by (by eapply lookup_lt_Some).
    specialize (Hc eq_refl). rewrite Hw in Hc. injection Hc. lia.
Qed.
End period.

(** The sum of the accumulators never drifts, in any round that stays in range. *)
Lemma swrr_round_sum ws cs i cs' :
  length ws = length cs ->
  (forall j c w, cs !! j = Some c -> ws !! j = Some w ->
     I64_MIN + Zsum ws <= c + w <= I64_MAX /\ 0 <= Zsum ws) ->
  swrr_round ws cs = Some (i, cs') -> Zsum cs' = Zsum cs.
Proof.
  intros Hl Hr Hround. unfold swrr_round in Hround. mbind_inv. rename H into Hmax.
  destruct (argmax_spec _ _ Hmax) as (c & Hc & _).
  assert (swrr_add cs ws = zip_with Z.add cs ws) as Hadd.
  { unfold swrr_add. apply list_eq. intros j. rewrite !lookup_zip_with.
    destruct (cs !! j) as [cj|] eqn:Ec; simpl; [|done].
    destruct (ws !! j) as [wj|] eqn:Ew; simpl; [|done].
    destruct (Hr j cj wj Ec Ew). f_equal. unfold I64_MIN, I64_MAX in *. apply wrap_i64_small. lia. }
  rewrite (Zsum_alter _ _ _ _ Hc), Hadd, Zsum_zip_add by done.
  rewrite Hadd, lookup_zip_with in Hc. mbind_inv.
  match goal with Ha : cs !! i = Some ?a, Hb : ws !! i = Some ?b |- _ => destruct (Hr i a b Ha Hb) end.
  unfold I64_MIN, I64_MAX in *. rewrite wrap_i64_small by lia. lia.
Qed.
