(* ===== verification/Swrr.v ===== *)
(** * Swrr

    [HealthState::select_weighted_for]: the weighted round robin over the healthy
    members of a pool, on the store.  The selection is proved to be one round of
    [SwrrCore] on the accumulators of the healthy members, and to touch nothing
    else of any cell. *)

From S2P Require Import Prelude Float64 Breaker BreakerFsm HealthState HealthLemmas HealthSpec HealthAdmit SwrrCore.

Lemma NoDup_zip_fst {A B} (l : list A) (k : list B) : NoDup l -> NoDup (zip l k).
Proof.
  intros Hl. revert k. induction Hl as [|x l Hx _ IH]; intros [|y k]; simpl; try constructor; [|done].
  intros Hin. apply Hx. apply elem_of_zip_l in Hin. done.
Qed.

Section store.
Context {SemT : Type} `{Semaphore SemT}.
Implicit Types (h : HealthState SemT) (ls : LaneState SemT) (r : CellRef).
#[local] Arguments read_cell : simpl never.
#[local] Arguments write_cell : simpl never.

(** ** The code *)

(** The side-effect-free filter: [(candidate, cell, weight)] of each usable member. *)
Fixpoint collect_healthy (pool : string) (now : Z) (members : list (nat * Z)) h
    : option (list (nat * CellRef * Z) * HealthState SemT) :=
  match members with
  | [] => Some ([], h)
  | (candidate, weight) :: members =>
      if weight =? 0 then collect_healthy pool now members h
      else
        adm ← lane_admissible h candidate;
        if negb adm then collect_healthy pool now members h
        else
          '(r, c, h) ← load_cell pool candidate h;
          '(healthy, h) ← collect_healthy pool now members h;
          Some (if cell_ready_breaker c now then (candidate, r, weight) :: healthy else healthy, h)
  end.

Fixpoint add_weights (healthy : list (nat * CellRef * Z)) h : option (HealthState SemT) :=
  match healthy with
  | [] => Some h
  | (_, r, eff_wt) :: healthy =>
      c ← read_cell r h;
      add_weights healthy (write_cell r (set_weight (wrap_i64 (current_weight c + eff_wt)) c) h)
  end.

Fixpoint find_best (healthy : list (nat * CellRef * Z)) h (best : option (nat * CellRef))
    (best_weight : Z) : option (option (nat * CellRef)) :=
  match healthy with
  | [] => Some best
  | (lane_idx, r, _) :: healthy =>
      c ← read_cell r h;
      let cw := current_weight c in
      if best_weight <? cw then find_best healthy h (Some (lane_idx, r)) cw
      else find_best healthy h best best_weight
  end.

Definition select_weighted_for (pool : string) (candidates : list nat) (weights : list Z)
    (now : Z) h : option (option nat * HealthState SemT) :=
  '(healthy, h) ← collect_healthy pool now (zip candidates weights) h;
  match healthy with
  | [] => Some (None, h)
  | _ =>
      let '(_, h) := swrr_shard pool h in
      let total := Zsum healthy.*2 in
      h ← add_weights healthy h;
      best ← find_best healthy h None I64_MIN;
      match best with
      | Some (idx, r) =>
          c ← read_cell r h;
          Some (Some idx, write_cell r (set_weight (wrap_i64 (current_weight c - total)) c) h)
      | None => Some (None, h)
      end
  end.

Definition select_weighted_in := select_weighted_for.

(** ** Accumulators behind references *)

Definition refs (healthy : list (nat * CellRef * Z)) : list CellRef := (fun x => x.1.2) <$> healthy.

(** The accumulators of the given cells. *)
Definition accumulators (rs : list CellRef) h : option (list Z) :=
  mapM (fun r => current_weight <$> read_cell r h) rs.

(** Only accumulators of [rs] may differ. *)
Record weights_only (rs : list CellRef) h h' : Prop := {
  wo_in : forall r c, read_cell r h = Some c ->
    exists w, read_cell r h' = Some (set_weight w c) /\ (r ∉ rs -> w = current_weight c);
  wo_none : forall r, read_cell r h = None -> read_cell r h' = None;
  wo_gate : forall lane ls, get_lane h lane = Some ls ->
    exists c, get_lane h' lane = Some (set_ls_cell c ls);
}.

Lemma set_weight_id c : set_weight (current_weight c) c = c.
Proof. by destruct c. Qed.

Lemma set_cell_id ls : set_ls_cell (ls_cell ls) ls = ls.
Proof. by destruct ls. Qed.

Lemma weights_only_refl rs h : weights_only rs h h.
Proof.
  split; [|done|].
  - intros r c Hr. exists (current_weight c). by rewrite set_weight_id.
  - intros lane ls Hl. exists (ls_cell ls). by rewrite set_cell_id.
Qed.

Lemma weights_only_trans rs h1 h2 h3 :
  weights_only rs h1 h2 -> weights_only rs h2 h3 -> weights_only rs h1 h3.
Proof.
  intros [Ha1 Hn1 Hg1] [Ha2 Hn2 Hg2]. split.
  - intros r c Hr. destruct (Ha1 r c Hr) as (w & Hr2 & Hw).
    destruct (Ha2 r _ Hr2) as (w' & Hr3 & Hw'). exists w'. split; [done|].
    intros Hnot. rewrite (Hw' Hnot). simpl. by apply Hw.
  - eauto.
  - intros lane ls Hl. destruct (Hg1 lane ls Hl) as (c & Hl2).
    destruct (Hg2 lane _ Hl2) as (c' & Hl3). exists c'. done.
Qed.

Lemma weights_only_write rs r c w h :
  r ∈ rs -> read_cell r h = Some c -> weights_only rs h (write_cell r (set_weight w c) h).
Proof.
  intros Hin Hr. split.
  - intros r' c' Hr'. destruct (decide (r = r')) as [<-|Hne].
    + exists w. rewrite read_write_eq by (by exists c). rewrite Hr in Hr'. simplify_eq.
      split; [done|]. by intros [].
    + exists (current_weight c'). rewrite read_write_ne, set_weight_id by done. by split.
  - intros r' Hr'. destruct (decide (r = r')) as [<-|Hne]; [congruence|].
    by rewrite read_write_ne.
  - intros lane ls Hl. by apply get_lane_write.
Qed.

Lemma accumulators_lookup rs h cs i r :
  accumulators rs h = Some cs -> rs !! i = Some r ->
  exists c, read_cell r h = Some c /\ cs !! i = Some (current_weight c).
Proof.
  intros Ha Hr. apply mapM_Some_1 in Ha.
  destruct (Forall2_lookup_l _ _ _ _ _ Ha Hr) as (w & Hw & Hc).
  apply fmap_Some in Hc as (c & ? & ->). eauto.
Qed.

Lemma accumulators_ext rs h h' :
  (forall r, r ∈ rs -> read_cell r h' = read_cell r h) -> accumulators rs h' = accumulators rs h.
Proof.
  intros He. unfold accumulators. induction rs as [|r rs IH]; [done|]. simpl.
  rewrite He by left. rewrite IH; [done|]. intros r' Hr'. apply He. by right.
Qed.

Lemma accumulators_total rs h :
  (forall r, r ∈ rs -> is_Some (read_cell r h)) -> exists cs, accumulators rs h = Some cs.
Proof.
  intros Hs. unfold accumulators. induction rs as [|r rs IH]; simpl; [eauto|].
  destruct (Hs r) as [c ->]; [left|]. destruct IH as [cs ->]; [intros; apply Hs; by right|].
  simpl. eauto.
Qed.

Lemma add_weights_spec healthy h cs :
  NoDup (refs healthy) -> health_wf h -> accumulators (refs healthy) h = Some cs ->
  exists h', add_weights healthy h = Some h' /\ hstep h h'
    /\ weights_only (refs healthy) h h'
    /\ accumulators (refs healthy) h' = Some (swrr_add cs healthy.*2).
Proof.
  enough (forall rs, refs healthy ⊆ rs -> NoDup (refs healthy) -> health_wf h ->
    accumulators (refs healthy) h = Some cs ->
    exists h', add_weights healthy h = Some h' /\ hstep h h' /\ weights_only rs h h'
      /\ (forall r, r ∉ refs healthy -> read_cell r h' = read_cell r h)
      /\ accumulators (refs healthy) h' = Some (swrr_add cs healthy.*2)) as Hgen.
  { intros. destruct (Hgen (refs healthy)) as (h' & ? & ? & ? & _ & ?); eauto. }
  intros rs. revert h cs. induction healthy as [|[[l r] w] healthy IH]; intros h cs Hsub Hnd Hw Ha;
    csimpl in *.
  { unfold accumulators in Ha. simpl in Ha. injection Ha as <-. exists h.
    split_and!; try done; [by apply hstep_refl|apply weights_only_refl]. }
  apply NoDup_cons in Hnd as [Hnot Hnd]. unfold accumulators in Ha. simpl in Ha.
  apply bind_Some_inv in Ha as (cw & Hc & Ha). apply bind_Some_inv in Ha as (cs' & Hcs & Ha).
  injection Ha as <-. apply fmap_Some in Hc as (c & Hr & ->). rewrite Hr. simpl.
  set (c' := set_weight (wrap_i64 (current_weight c + w)) c).
  set (h1 := write_cell r c' h).
  assert (Hs1 : hstep h h1) by (eapply write_cell_hstep; eauto using weight_steps).
  assert (Hr1 : read_cell r h1 = Some c') by (apply read_write_eq; eauto).
  destruct (IH h1 cs') as (h' & He & Hs & Hwo & Hout & Ha').
  - set_solver.
  - done.
  - apply Hs1.
  - rewrite <- Hcs. apply accumulators_ext. intros r' Hr'. apply read_write_ne. set_solver.
  - exists h'. split_and!; [done|by eapply hstep_trans| | |].
    + eapply weights_only_trans; [|done]. apply weights_only_write; [set_solver|done].
    + intros r' Hr'. rewrite Hout by set_solver. apply read_write_ne. set_solver.
    + unfold accumulators. simpl. rewrite Hout, Hr1 by done. simpl.
      unfold accumulators in Ha'. fold (refs healthy). rewrite Ha'. done.
Qed.

Lemma find_best_spec healthy h cs best bw idx :
  accumulators (refs healthy) h = Some cs ->
  find_best healthy h best bw
  = Some match scan_max idx None bw cs with
         | Some i => (fun x : nat * CellRef * Z => (x.1.1, x.1.2)) <$> healthy !! (i - idx)%nat
         | None => best
         end.
Proof.
  revert cs best bw idx. induction healthy as [|[[l r] w] healthy IH]; intros cs best bw idx Ha;
    csimpl in *.
  { unfold accumulators in Ha. simpl in Ha. by injection Ha as <-. }
  unfold accumulators in Ha. simpl in Ha.
  apply bind_Some_inv in Ha as (cw & Hc & Ha). apply bind_Some_inv in Ha as (cs' & Hcs & Ha).
  injection Ha as <-. apply fmap_Some in Hc as (c & Hr & ->). rewrite Hr. simpl.
  assert (Hshift : forall o b i, scan_max (S idx) o b cs' = Some i -> o = None -> (S idx <= i)%nat).
  { intros o b i Hs ->. destruct (scan_max_spec _ _ _ _ _ Hs) as [[? _]|(j & ? & -> & _)]; [done|lia]. }
  destruct (bw <? current_weight c) eqn:E.
  - rewrite (IH cs' _ _ (S idx) Hcs). f_equal.
    assert (forall o b, scan_max (S idx) (Some o) b cs'
      = match scan_max (S idx) None b cs' with Some i => Some i | None => Some o end) as Hsc.
    { clear. generalize (S idx). induction cs' as [|x cs' IH]; intros n o b; [done|]. simpl.
      destruct (b <? x); [|apply IH]. rewrite !IH. by destruct (scan_max _ None x cs'). }
    rewrite Hsc. destruct (scan_max (S idx) None _ cs') as [i|] eqn:Es.
    + apply Hshift in Es; [|done]. by replace (i - idx)%nat with (S (i - S idx)) by lia.
    + by rewrite Nat.sub_diag.
  - rewrite (IH cs' _ _ (S idx) Hcs). f_equal.
    destruct (scan_max (S idx) None _ cs') as [i|] eqn:Es; [|done].
    apply Hshift in Es; [|done]. by replace (i - idx)%nat with (S (i - S idx)) by lia.
Qed.

(** ** The healthy set *)

Definition member_healthy (pool : string) (now : Z) h (m : nat * Z) : bool :=
  negb (m.2 =? 0)
  && match get_lane h m.1, view_cell pool m.1 h with
     | Some ls, Some c =>
         match lane_gate ls with None => cell_ready_breaker c now | Some _ => false end
     | _, _ => false
     end.

Definition healthy_members (pool : string) (now : Z) h (members : list (nat * Z))
    : list (nat * CellRef * Z) :=
  (fun m => (m.1, cell_ref pool m.1, m.2)) <$> filter (fun m => Is_true (member_healthy pool now h m)) members.

Lemma healthy_members_cons pool now h m members :
  healthy_members pool now h (m :: members)
  = if member_healthy pool now h m
    then (m.1, cell_ref pool m.1, m.2) :: healthy_members pool now h members
    else healthy_members pool now h members.
Proof.
  unfold healthy_members. rewrite filter_cons. by destruct (member_healthy pool now h m).
Qed.

Lemma same_view_healthy pool now h h' members :
  same_view h h' -> healthy_members pool now h' members = healthy_members pool now h members.
Proof.
  intros Hs. unfold healthy_members. f_equal. apply list_filter_iff. intros [cand w].
  unfold member_healthy. by rewrite (same_view_get_lane _ _ _ Hs), (sv_view _ _ Hs).
Qed.

Lemma lane_admissible_gate h lane ls :
  get_lane h lane = Some ls ->
  lane_admissible h lane = Some (match lane_gate ls with None => true | Some _ => false end).
Proof.
  intros Hl. unfold lane_admissible, lane_gate. rewrite Hl. simpl.
  destruct (ls_dead ls); [done|]. by destruct (ls_limited ls && _).
Qed.

Lemma hstep_read_view h h' pool lane c :
  hstep h h' -> same_view h h' -> read_cell (cell_ref pool lane) h = Some c ->
  read_cell (cell_ref pool lane) h' = Some c.
Proof.
  intros Hst Hsv Hr. destruct (st_cells _ _ Hst _ _ Hr) as (c' & Hr' & _). rewrite Hr'.
  apply view_ref in Hr, Hr'. rewrite (sv_view _ _ Hsv), Hr in Hr'. congruence.
Qed.

Lemma collect_healthy_spec pool now members h :
  health_wf h -> Forall (fun m => is_Some (get_lane h m.1)) members ->
  exists h', collect_healthy pool now members h = Some (healthy_members pool now h members, h')
    /\ hstep h h' /\ same_view h h'
    /\ forall r, r ∈ refs (healthy_members pool now h members) -> is_Some (read_cell r h').
Proof.
  revert h. induction members as [|[cand w] members IH]; intros h Hw Hl.
  { exists h. split_and!; [done|by apply hstep_refl|reflexivity|intros r []%elem_of_nil]. }
  apply Forall_cons in Hl as [[ls Hls] Hl]. simpl in Hls. simpl.
  assert (Hskip : member_healthy pool now h (cand, w) = false ->
    healthy_members pool now h ((cand, w) :: members) = healthy_members pool now h members).
  { intros Hm. by rewrite healthy_members_cons, Hm. }
  destruct (w =? 0) eqn:Ew.
  { rewrite Hskip by (unfold member_healthy; simpl; by rewrite Ew). by apply IH. }
  rewrite (lane_admissible_gate h cand ls Hls). simpl.
  destruct (lane_gate ls) eqn:Eg; simpl.
  { rewrite Hskip; [by apply IH|]. unfold member_healthy. simpl. rewrite Hls, Eg.
    rewrite andb_comm. by destruct (view_cell pool cand h). }
  destruct (load_cell_hstep pool cand h ls Hw Hls) as (c & h1 & -> & Hv & Hr & _ & Hsv & Hst). simpl.
  destruct (IH h1) as (h' & -> & Hst' & Hsv' & Hrd).
  { apply Hst. }
  { eapply Forall_impl; [done|]. intros m. by rewrite (same_view_get_lane _ _ _ Hsv). }
  simpl. rewrite (same_view_healthy _ _ _ _ _ Hsv) in Hrd |- *.
  assert (Hcons : healthy_members pool now h ((cand, w) :: members)
    = if cell_ready_breaker c now
      then (cand, cell_ref pool cand, w) :: healthy_members pool now h members
      else healthy_members pool now h members).
  { rewrite healthy_members_cons. unfold member_healthy. simpl. by rewrite Ew, Hls, Hv, Eg. }
  exists h'. split_and!; [|by eapply hstep_trans|by etransitivity|].
  - do 2 f_equal. by rewrite Hcons.
  - intros r Hin. rewrite Hcons in Hin. destruct (cell_ready_breaker c now); [|by apply Hrd].
    csimpl in Hin. apply elem_of_cons in Hin as [->|Hin]; [|by apply Hrd].
    exists c. by apply (hstep_read_view h1).
Qed.

(** ** One selection *)

Lemma weights_only_view rs h h' pool lane c :
  weights_only rs h h' -> view_cell pool lane h = Some c ->
  exists w, view_cell pool lane h' = Some (set_weight w c)
    /\ (cell_ref pool lane ∉ rs -> w = current_weight c).
Proof.
  intros [Hin Hnone Hgate] Hv. destruct (read_cell (cell_ref pool lane) h) as [c0|] eqn:Hr.
  - pose proof (view_ref _ _ _ _ Hr) as Hv0. rewrite Hv in Hv0. injection Hv0 as <-.
    destruct (Hin _ _ Hr) as (w & Hr' & Hw). exists w. split; [by apply view_ref|done].
  - pose proof (Hnone _ Hr) as Hr'. unfold view_cell, cell_ref, read_cell in *.
    destruct (String.eqb pool ""); [congruence|]. rewrite Hr in Hv. rewrite Hr'.
    apply fmap_Some in Hv as (ls & Hl & ->). destruct (Hgate _ _ Hl) as (c1 & Hl').
    destruct (Hin (LaneCell lane) (ls_cell ls)) as (w & Hrl & _).
    { unfold read_cell. by rewrite Hl. }
    unfold read_cell in Hrl. rewrite Hl' in Hrl. simpl in Hrl. injection Hrl as ->.
    exists 0. by rewrite Hl'.
Qed.

Lemma select_from_healthy healthy h cs i cs' :
  healthy <> [] -> NoDup (refs healthy) -> health_wf h ->
  accumulators (refs healthy) h = Some cs -> swrr_round healthy.*2 cs = Some (i, cs') ->
  exists lane r w h', healthy !! i = Some (lane, r, w)
    /\ (h1 ← add_weights healthy h; best ← find_best healthy h1 None I64_MIN;
        match best with
        | Some (idx, r) =>
            c ← read_cell r h1;
            Some (Some idx, write_cell r (set_weight (wrap_i64 (current_weight c - Zsum healthy.*2)) c) h1)
        | None => Some (None, h1)
        end) = Some (Some lane, h')
    /\ hstep h h' /\ weights_only (refs healthy) h h' /\ accumulators (refs healthy) h' = Some cs'.
Proof.
  intros Hne Hnd Hw Ha Hround.
  destruct (add_weights_spec healthy h cs Hnd Hw Ha) as (h1 & -> & Hst & Hwo & Ha1). simpl.
  unfold swrr_round in Hround. apply bind_Some_inv in Hround as (i' & Hmax & Hround).
  injection Hround as -> <-.
  rewrite (find_best_spec _ _ _ None I64_MIN 0 Ha1). unfold argmax in Hmax. rewrite Hmax. simpl.
  rewrite Nat.sub_0_r. destruct (argmax_spec _ _ Hmax) as (cw & Hcw & _).
  destruct (healthy !! i) as [[[lane r] w]|] eqn:Hi.
  2: { exfalso. apply lookup_ge_None in Hi. apply lookup_lt_Some in Hcw.
       unfold swrr_add in Hcw. rewrite length_zip_with, length_fmap in Hcw. lia. }
  assert (Hri : refs healthy !! i = Some r) by (unfold refs; by rewrite list_lookup_fmap, Hi).
  destruct (accumulators_lookup _ _ _ _ _ Ha1 Hri) as (c & Hr & Hc'). simpl. rewrite Hr. simpl.
  set (h' := write_cell r _ h1). exists lane, r, w, h'.
  assert (r ∈ refs healthy) as Hin by (by eapply list_elem_of_lookup_2).
  split_and!; try done.
  - eapply hstep_trans; [done|]. eapply write_cell_hstep; [apply Hst|done|]. apply weight_steps.
  - eapply weights_only_trans; [done|]. by apply weights_only_write.
  - apply mapM_Some_2. apply mapM_Some_1 in Ha1. apply Forall2_lookup. intros j.
    rewrite Forall2_lookup in Ha1. specialize (Ha1 j). destruct (decide (i = j)) as [<-|Hij].
    + rewrite Hri, list_lookup_alter_eq, Hc'. simpl. constructor. unfold h'.
      by rewrite read_write_eq by (by exists c).
    + rewrite list_lookup_alter_ne by done.
      destruct (refs healthy !! j) as [r'|] eqn:Ej; [|inversion Ha1; constructor].
      inversion Ha1 as [? w' Hrw|]; subst. constructor. unfold h'.
      rewrite read_write_ne; [done|]. intros ->. apply Hij. by eapply NoDup_lookup.
Qed.

(** Distinct candidates give distinct cells. *)
Lemma refs_nodup pool now h candidates weights :
  NoDup candidates -> NoDup (refs (healthy_members pool now h (zip candidates weights))).
Proof.
  intros Hnd. unfold refs, healthy_members. rewrite <- list_fmap_compose.
  apply NoDup_fmap_2_strong.
  - intros [c1 w1] [c2 w2] H1 H2 Heq. simpl in Heq.
    apply list_elem_of_filter in H1 as [_ H1]. apply list_elem_of_filter in H2 as [_ H2].
    assert (c1 = c2) as -> by (unfold cell_ref in Heq; destruct (String.eqb pool ""); congruence).
    apply list_elem_of_lookup_1 in H1 as [i1 H1]. apply list_elem_of_lookup_1 in H2 as [i2 H2].
    rewrite lookup_zip_with in H1, H2.
    apply bind_Some_inv in H1 as (x1 & Hx1 & H1). apply bind_Some_inv in H1 as (y1 & Hy1 & H1).
    apply bind_Some_inv in H2 as (x2 & Hx2 & H2). apply bind_Some_inv in H2 as (y2 & Hy2 & H2).
    simplify_eq. pose proof (NoDup_lookup _ _ _ _ Hnd Hx1 Hx2) as ->. congruence.
  - apply NoDup_filter. by apply NoDup_zip_fst.
Qed.

(** The whole selection, seen through the views of the pool's members. *)
Lemma select_spec pool candidates weights now h :
  health_wf h -> NoDup candidates ->
  Forall (fun m => is_Some (get_lane h m.1)) (zip candidates weights) ->
  let healthy := healthy_members pool now h (zip candidates weights) in
  (healthy = [] ->
     exists h', select_weighted_for pool candidates weights now h = Some (None, h')
       /\ hstep h h' /\ same_view h h')
  /\ (healthy <> [] ->
     exists h1 cs, same_view h h1 /\ hstep h h1
       /\ accumulators (refs healthy) h1 = Some cs
       /\ forall i cs', swrr_round healthy.*2 cs = Some (i, cs') ->
          exists lane r w h', healthy !! i = Some (lane, r, w)
            /\ select_weighted_for pool candidates weights now h = Some (Some lane, h')
            /\ hstep h h' /\ weights_only (refs healthy) h1 h'
            /\ accumulators (refs healthy) h' = Some cs').
Proof.
  intros Hw Hnd Hl healthy.
  destruct (collect_healthy_spec pool now _ h Hw Hl) as (h1 & Hc & Hst & Hsv & Hrd).
  fold healthy in Hc, Hrd. unfold select_weighted_for. rewrite Hc. simpl. split; intros Hh.
  { rewrite Hh. eauto. }
  destruct (swrr_shard_spec pool h1 (st_wf _ _ Hst)) as (_ & Hsst & Hsrd & Hsl & _).
  destruct (swrr_shard pool h1) as [idx h2] eqn:Esh. simpl in *.
  destruct (accumulators_total (refs healthy) h2) as [cs Hcs].
  { intros r Hr. rewrite Hsrd. by apply Hrd. }
  exists h1, cs. split_and!; [done|done| |].
  { rewrite <- Hcs. symmetry. by apply accumulators_ext. }
  intros i cs' Hround.
  pose proof (refs_nodup pool now h candidates weights Hnd) as Hndr. fold healthy in Hndr.
  destruct (select_from_healthy healthy h2 cs i cs' Hh Hndr (st_wf _ _ Hsst) Hcs Hround)
    as (lane & r & w & h' & Hi & He & Hst' & Hwo & Ha).
  exists lane, r, w, h'. split_and!; [done| | | |done].
  - destruct healthy as [|x healthy']; [done|]. exact He.
  - eapply hstep_trans; [done|]. by eapply hstep_trans.
  - eapply weights_only_trans; [|done]. split.
    + intros r0 c0 Hr0. exists (current_weight c0). rewrite Hsrd, set_weight_id. by split.
    + intros r0 Hr0. by rewrite Hsrd.
    + intros lane0 ls0 Hl0. exists (ls_cell ls0). unfold get_lane in *. rewrite Hsl, set_cell_id. done.
Qed.

(** Whatever the accumulators, a selection returns and keeps the store well formed. *)
Lemma select_hstep pool candidates weights now h :
  health_wf h -> NoDup candidates ->
  Forall (fun m => is_Some (get_lane h m.1)) (zip candidates weights) ->
  exists pick h', select_weighted_for pool candidates weights now h = Some (pick, h') /\ hstep h h'.
Proof.
  intros Hw Hnd Hl.
  destruct (collect_healthy_spec pool now _ h Hw Hl) as (h1 & Hc & Hst & Hsv & Hrd).
  set (healthy := healthy_members pool now h (zip candidates weights)) in *.
  pose proof (refs_nodup pool now h candidates weights Hnd) as Hndr. fold healthy in Hndr.
  unfold select_weighted_for. rewrite Hc. simpl.
  destruct healthy as [|x rest] eqn:Eh; [eauto|]. rewrite <- Eh in *. clear Eh x rest.
  destruct (swrr_shard_spec pool h1 (st_wf _ _ Hst)) as (_ & Hsst & Hsrd & Hsl & _).
  destruct (swrr_shard pool h1) as [idx h2]. simpl in *.
  destruct (accumulators_total (refs healthy) h2) as [cs Hcs].
  { intros r Hr. rewrite Hsrd. by apply Hrd. }
  destruct (add_weights_spec healthy h2 cs Hndr (st_wf _ _ Hsst) Hcs) as (h3 & -> & Hst3 & _ & Ha3).
  simpl. rewrite (find_best_spec _ _ _ None I64_MIN 0 Ha3). simpl.
  assert (Hs3 : hstep h h3) by (eapply hstep_trans; [done|]; by eapply hstep_trans).
  destruct (scan_max 0 None I64_MIN _) as [i|]; [|eauto].
  destruct (healthy !! (i - 0)%nat) as [[[lane r] w]|] eqn:Hi; simpl; [|eauto].
  destruct (accumulators_lookup _ h3 _ (i - 0)%nat r Ha3) as (c & Hr & _).
  { unfold refs. by rewrite list_lookup_fmap, Hi. }
  rewrite Hr. simpl. do 2 eexists. split; [done|].
  eapply hstep_trans; [done|]. eapply write_cell_hstep; [apply Hst3|done|]. apply weight_steps.
Qed.

(** ** A period of selections on a steady pool *)

(** Every member is routable from [t0] on: its lane passes the gates and its cell is Closed with
    no cooldown past [t0]; [cs] are the accumulators. *)
Definition steady (pool : string) (t0 : Z) (candidates : list nat) h (cs : list Z) : Prop :=
  health_wf h /\ length cs = length candidates
  /\ forall i cand, candidates !! i = Some cand ->
       exists ls c, get_lane h cand = Some ls /\ lane_gate ls = None
         /\ view_cell pool cand h = Some c
         /\ breaker_state c = ST_CLOSED /\ cooldown_until c <= t0
         /\ cs !! i = Some (current_weight c).

Lemma steady_healthy pool t0 candidates weights now h cs :
  steady pool t0 candidates h cs -> length weights = length candidates ->
  Forall (fun w => 1 <= w) weights -> t0 <= now ->
  healthy_members pool now h (zip candidates weights)
  = (fun m => (m.1, cell_ref pool m.1, m.2)) <$> zip candidates weights.
Proof.
  intros (_ & _ & Hs) Hlen Hpos Ht. unfold healthy_members. f_equal.
  apply filter_all. apply Forall_lookup. intros i [cand w] Hi.
  apply lookup_zip_Some in Hi as [Hc Hwt]. simpl in *.
  destruct (Hs i cand Hc) as (ls & c & Hl & Hg & Hv & Hcl & Hcd & _).
  pose proof (Forall_lookup_1 _ _ _ _ Hpos Hwt) as Hwp. simpl in Hwp.
  unfold member_healthy. simpl. rewrite Hl, Hv, Hg.
  assert (w =? 0 = false) as -> by (apply Z.eqb_neq; lia). simpl.
  destruct (closed_ready c now Hcl ltac:(lia)) as (-> & _). done.
Qed.

Lemma steady_round pool t0 candidates weights now h cs i cs' :
  candidates <> [] -> NoDup candidates -> length weights = length candidates ->
  Forall (fun w => 1 <= w) weights -> t0 <= now -> steady pool t0 candidates h cs ->
  swrr_round weights cs = Some (i, cs') ->
  exists cand h', candidates !! i = Some cand
    /\ select_weighted_for pool candidates weights now h = Some (Some cand, h')
    /\ steady pool t0 candidates h' cs'.
Proof.
  intros Hne Hnd Hlen Hpos Ht Hst Hround.
  pose proof (steady_healthy _ _ _ _ _ _ _ Hst Hlen Hpos Ht) as Hh.
  destruct Hst as (Hw & Hlc & Hs).
  assert (Hin : Forall (fun m : nat * Z => is_Some (get_lane h m.1)) (zip candidates weights)).
  { apply Forall_lookup. intros j [cand w] Hj. apply lookup_zip_Some in Hj as [Hc _].
    destruct (Hs j cand Hc) as (ls & c & Hl & _). simpl. eauto. }
  destruct (select_spec pool candidates weights now h Hw Hnd Hin) as [_ Hsel].
  rewrite Hh in Hsel.
  assert (Hrefs : refs ((fun m : nat * Z => (m.1, cell_ref pool m.1, m.2)) <$> zip candidates weights)
    = cell_ref pool <$> candidates).
  { unfold refs. rewrite <- list_fmap_compose.
    transitivity ((cell_ref pool ∘ fst) <$> zip candidates weights); [done|].
    rewrite list_fmap_compose. f_equal. apply fst_zip. lia. }
  assert (Hsnd : ((fun m : nat * Z => (m.1, cell_ref pool m.1, m.2)) <$> zip candidates weights).*2
    = weights).
  { rewrite <- list_fmap_compose. transitivity ((zip candidates weights).*2); [done|].
    apply snd_zip. lia. }
  rewrite Hrefs, Hsnd in Hsel. destruct Hsel as (h1 & cs1 & Hsv & Hst1 & Hacc & Hsel).
  { destruct candidates, weights; simpl in *; try lia; done. }
  assert (Hrd : forall j cand, candidates !! j = Some cand ->
    exists c, read_cell (cell_ref pool cand) h1 = Some c /\ cs1 !! j = Some (current_weight c)).
  { intros j cand Hj. eapply accumulators_lookup; [done|]. by rewrite list_lookup_fmap, Hj. }
  assert (cs1 = cs) as ->.
  { apply list_eq_same_length with (n := length candidates); [done| |].
    - apply length_mapM in Hacc. by rewrite length_fmap in Hacc.
    - intros j x y Hj Hx Hy. apply lookup_lt_is_Some_2 in Hj as [cand Hj].
      destruct (Hrd j cand Hj) as (c & Hrc & Hc1).
      destruct (Hs j cand Hj) as (ls & c' & _ & _ & Hv & _ & _ & Hc2).
      apply view_ref in Hrc. rewrite (sv_view _ _ Hsv), Hv in Hrc. congruence. }
  destruct (Hsel i cs' Hround) as (cand & r & w & h' & Hi & He & Hst' & Hwo & Hacc').
  rewrite list_lookup_fmap in Hi. apply fmap_Some in Hi as ([c0 w0] & Hz & Heq).
  apply lookup_zip_Some in Hz as [Hz _]. simplify_eq/=.
  exists c0, h'. split_and!; [done|done|]. split_and!.
  - apply Hst'.
  - apply length_mapM in Hacc'. by rewrite length_fmap in Hacc'.
  - intros j cand Hj. destruct (Hs j cand Hj) as (ls & c & Hl & Hg & Hv & Hcl & Hcd & _).
    assert (get_lane h1 cand = Some ls) as Hl1 by (by rewrite (same_view_get_lane _ _ _ Hsv)).
    destruct (wo_gate _ _ _ Hwo _ _ Hl1) as (c2 & Hl').
    assert (Hv1 : view_cell pool cand h1 = Some c) by (by rewrite (sv_view _ _ Hsv)).
    destruct (weights_only_view _ _ _ _ _ _ Hwo Hv1) as (w1 & Hv' & _).
    destruct (accumulators_lookup _ h' cs' j (cell_ref pool cand) Hacc') as (c3 & Hr3 & Hc3).
    { by rewrite list_lookup_fmap, Hj. }
    apply view_ref in Hr3. rewrite Hv' in Hr3. injection Hr3 as <-.
    exists (set_ls_cell c2 ls), (set_weight w1 c). split_and!; done.
Qed.

(** Selections at the given instants. *)
Fixpoint select_many (pool : string) (candidates : list nat) (weights nows : list Z) h
    : option (list (option nat) * HealthState SemT) :=
  match nows with
  | [] => Some ([], h)
  | now :: nows =>
      '(pick, h) ← select_weighted_for pool candidates weights now h;
      '(picks, h) ← select_many pool candidates weights nows h;
      Some (pick :: picks, h)
  end.

Lemma steady_run pool t0 candidates weights nows h cs picks cs' :
  candidates <> [] -> NoDup candidates -> length weights = length candidates ->
  Forall (fun w => 1 <= w) weights -> Forall (fun now => t0 <= now) nows ->
  steady pool t0 candidates h cs ->
  swrr_run (length nows) weights cs = Some (picks, cs') ->
  exists h', select_many pool candidates weights nows h
      = Some ((fun i => candidates !! i) <$> picks, h')
    /\ steady pool t0 candidates h' cs'.
Proof.
  intros Hne Hnd Hlen Hpos Hnows. revert h cs picks.
  induction Hnows as [|now nows Hnow _ IH]; intros h cs picks Hst Hrun; simpl in *.
  { simplify_eq. by exists h. }
  apply bind_Some_inv in Hrun as ([i cs1] & Hround & Hrun).
  apply bind_Some_inv in Hrun as ([picks' cs2] & Hrun & Heq). injection Heq as <- ->.
  destruct (steady_round _ _ _ _ now _ _ _ _ Hne Hnd Hlen Hpos Hnow Hst Hround)
    as (cand & h1 & Hc & -> & Hst1). simpl.
  destruct (IH h1 cs1 picks' Hst1 Hrun) as (h' & -> & Hst'). simpl.
  exists h'. split; [|done]. by rewrite Hc.
Qed.

Lemma elem_healthy_members pool now h members lane r w :
  (lane, r, w) ∈ healthy_members pool now h members <->
  r = cell_ref pool lane /\ (lane, w) ∈ members /\ member_healthy pool now h (lane, w) = true.
Proof.
  unfold healthy_members. rewrite list_elem_of_fmap. split.
  - intros ([c0 w0] & Heq & Hin). apply list_elem_of_filter in Hin as [Hp Hin].
    simplify_eq/=. split_and!; [done..|]. by apply Is_true_true.
  - intros (-> & Hin & Hm). exists (lane, w). split; [done|]. apply list_elem_of_filter.
    by rewrite Hm.
Qed.

(** A round on accumulators far from the end of the machine range always picks somebody. *)
Lemma round_defined healthy h cs :
  healthy <> [] -> accumulators (refs healthy) h = Some cs ->
  (forall lane r w, (lane, r, w) ∈ healthy -> is_u32 w /\
     forall c, read_cell r h = Some c -> - 2 ^ 62 <= current_weight c <= 2 ^ 62) ->
  exists i cs', swrr_round healthy.*2 cs = Some (i, cs').
Proof.
  intros Hne Hacc Hr. destruct healthy as [|[[lane r] w] rest]; [done|].
  destruct (accumulators_lookup _ h cs 0 r Hacc) as (c & Hrc & Hc); [done|].
  destruct (Hr lane r w ltac:(left)) as [Hw Hcw]. specialize (Hcw c Hrc). unfold is_u32 in Hw.
  destruct (argmax_some (swrr_add cs ((lane, r, w) :: rest).*2) 0 (current_weight c + w)) as [i Hi].
  - unfold swrr_add. rewrite lookup_zip_with, Hc. simpl. f_equal. apply wrap_i64_small. lia.
  - unfold I64_MIN. lia.
  - unfold swrr_round. rewrite Hi. simpl. eauto.
Qed.
End store.

(** ** Properties *)

Section properties.
Context {SemT : Type} `{Semaphore SemT}.
Implicit Types (h : HealthState SemT).

(** C32. Weighted round robin is exactly proportional: on a pool of distinct routable members
    with positive weights and zero accumulators, any [W] consecutive selections ([W] the sum
    of the weights, up to 2^31), at any instants from [t0] on, all succeed, pick every member
    exactly as many times as its weight says, and leave all accumulators at zero. *)
Theorem swrr_period_is_exact pool t0 candidates weights nows h :
  candidates <> [] -> NoDup candidates -> length weights = length candidates ->
  Forall (fun w => 1 <= w) weights -> Zsum weights <= 2 ^ 31 ->
  Forall (fun now => t0 <= now) nows -> Z.of_nat (length nows) = Zsum weights ->
  steady pool t0 candidates h (replicate (length candidates) 0) ->
  exists picks h', select_many pool candidates weights nows h = Some (Some <$> picks, h')
    /\ (forall i cand w, candidates !! i = Some cand -> weights !! i = Some w ->
         picked cand picks = w)
    /\ steady pool t0 candidates h' (replicate (length candidates) 0).
Proof.
  intros Hne Hnd Hlen Hpos Hsum Hnows Hlnow Hst.
  destruct (full_period weights Hpos) as (idxs & Hrun & _ & Hall & Hcnt); [by destruct weights, candidates|done|].
  rewrite <- Hlnow, Nat2Z.id, Hlen in Hrun. rewrite Hlen in Hall.
  destruct (steady_run pool t0 candidates weights nows h _ idxs _ Hne Hnd Hlen Hpos Hnows Hst Hrun)
    as (h' & Hsel & Hst').
  exists (omap (fun i => candidates !! i) idxs), h'. split_and!; [|clear Hrun Hsel|done].
  - rewrite Hsel. do 2 f_equal. clear -Hall. induction Hall as [|i idxs Hi _ IH]; [done|].
    csimpl. destruct (lookup_lt_is_Some_2 candidates i Hi) as [cand ->]. csimpl. by rewrite IH.
  - intros i cand w Hc Hw. rewrite <- (Hcnt i w Hw). unfold picked. f_equal.
    clear -Hall Hc Hnd. induction Hall as [|j idxs Hj _ IH]; [done|].
    csimpl. destruct (lookup_lt_is_Some_2 candidates j Hj) as [cj Ecj]. rewrite Ecj, !filter_cons.
    destruct (decide (j = i)) as [->|Hne].
    + rewrite Hc in Ecj. injection Ecj as <-. rewrite decide_True by done. simpl. by rewrite IH.
    + rewrite decide_False; [done|]. intros ->. apply Hne. by eapply NoDup_lookup.
Qed.

(** Selection is sound, complete and free of side effects on the breakers: it picks a lane
    exactly when some member with a non-zero weight is admissible and its cell ready, it only
    ever picks such a member (a member drained to weight 0, dead, out of budget or tripped is
    never picked), and the only thing it changes in any cell is the round-robin
    accumulator of healthy members - no probe is taken, no state or cooldown moves. *)
Theorem selection_is_sound_and_pure pool candidates weights now h :
  health_wf h -> NoDup candidates ->
  Forall (fun m => is_Some (get_lane h m.1)) (zip candidates weights) ->
  Forall is_u32 weights ->
  (forall cand c, cand ∈ candidates -> view_cell pool cand h = Some c ->
     - 2 ^ 62 <= current_weight c <= 2 ^ 62) ->
  exists pick h', select_weighted_for pool candidates weights now h = Some (pick, h')
    /\ health_wf h'
    /\ (pick = None <-> forall m, m ∈ zip candidates weights -> member_healthy pool now h m = false)
    /\ (forall lane, pick = Some lane -> exists w, (lane, w) ∈ zip candidates weights
          /\ member_healthy pool now h (lane, w) = true)
    /\ (forall pool' lane c, view_cell pool' lane h = Some c ->
          exists w, view_cell pool' lane h' = Some (set_weight w c)).
Proof.
  intros Hw Hnd Hl Hws Hrange.
  destruct (select_spec pool candidates weights now h Hw Hnd Hl) as [Hnone Hsome].
  set (healthy := healthy_members pool now h (zip candidates weights)) in *.
  pose proof (elem_healthy_members pool now h (zip candidates weights)) as Hmem. fold healthy in Hmem.
  destruct (decide (healthy = [])) as [He|He].
  - destruct (Hnone He) as (h' & Hsel & Hst & Hsv). exists None, h'.
    split_and!; [done|apply Hst| |done|].
    + split; [|done]. intros _ [lane w] Hin. destruct (member_healthy pool now h (lane, w)) eqn:E; [|done].
      assert ((lane, cell_ref pool lane, w) ∈ healthy) as Hh by (by apply Hmem).
      rewrite He in Hh. by apply elem_of_nil in Hh.
    + intros pool' lane c Hv. exists (current_weight c).
      by rewrite (sv_view _ _ Hsv), set_weight_id.
  - destruct (Hsome He) as (h1 & cs & Hsv & Hst1 & Hacc & Hsel).
    assert (Hround : exists i cs', swrr_round healthy.*2 cs = Some (i, cs')).
    { apply (round_defined healthy h1 cs He Hacc). intros lane r w Hin.
      apply Hmem in Hin as (-> & Hin & _). apply elem_of_zip_l in Hin as Hcand.
      apply elem_of_zip_r in Hin. rewrite Forall_forall in Hws. split; [by apply Hws|].
      intros c Hr. apply view_ref in Hr. rewrite (sv_view _ _ Hsv) in Hr. by eapply Hrange. }
    destruct Hround as (i & cs' & Hround).
    destruct (Hsel i cs' Hround) as (lane & r & w & h' & Hi & He' & Hst' & Hwo & _).
    exists (Some lane), h'. apply list_elem_of_lookup_2 in Hi. apply Hmem in Hi as (-> & Hin & Hm).
    split_and!; [done|apply Hst'| | |].
    + split; [done|]. intros Hno. by rewrite (Hno _ Hin) in Hm.
    + intros ? [= <-]. eauto.
    + intros pool' lane' c Hv. rewrite <- (sv_view _ _ Hsv) in Hv.
      destruct (weights_only_view _ _ _ _ _ _ Hwo Hv) as (w' & ? & _). eauto.
Qed.
End properties.

Definition demo_pool : HealthState Z :=
  HealthState_new [demo_lane "gpt-4o" 2; demo_lane "claude" 1; demo_lane "gemini" 3].

Lemma demo_pool_wf : health_wf demo_pool.
Proof. apply new_with_limits_wf; [|done]. repeat constructor; simpl; try done; lia. Qed.

Lemma demo_pool_steady : steady "team" 1000 [0%nat; 1%nat; 2%nat] demo_pool [0; 0; 0].
Proof.
  split; [apply demo_pool_wf|]. split; [done|].
  intros [|[|[|i]]] cand Hc; simplify_eq/=; do 2 eexists; split_and!; try reflexivity;
    vm_compute; discriminate.
Qed.

Lemma swrr_period_is_exact_witness :
  exists picks h', select_many "team" [0%nat; 1%nat; 2%nat] [5; 1; 1]
      [1000; 1001; 1001; 1002; 1003; 1003; 1004] demo_pool = Some (Some <$> picks, h')
    /\ picked 0 picks = 5 /\ picked 2 picks = 1.
Proof.
  destruct (swrr_period_is_exact "team" 1000 [0%nat; 1%nat; 2%nat] [5; 1; 1]
    [1000; 1001; 1001; 1002; 1003; 1003; 1004] demo_pool) as (picks & h' & Hs & Hc & _).
  - done.
  - repeat constructor; set_solver.
  - done.
  - repeat constructor; lia.
  - by vm_compute.
  - repeat constructor; lia.
  - done.
  - apply demo_pool_steady.
  - exists picks, h'. split; [done|]. split; [by apply (Hc 0%nat)|by apply (Hc 2%nat)].
Defined.

Lemma selection_is_sound_and_pure_witness :
  exists pick h', select_weighted_for "team" [0%nat; 1%nat] [0; 7] 1000 demo_pool = Some (pick, h')
    /\ pick <> Some 0%nat.
Proof.
  destruct (selection_is_sound_and_pure "team" [0%nat; 1%nat] [0; 7] 1000 demo_pool)
    as (pick & h' & Hs & _ & _ & Hp & _).
  - apply demo_pool_wf.
  - repeat constructor; set_solver.
  - repeat constructor; simpl; eauto.
  - repeat constructor; vm_compute; done.
  - intros cand c Hin Hv. assert (cand = 0%nat \/ cand = 1%nat) as [-> | ->] by set_solver;
      vm_compute in Hv; injection Hv as <-; simpl; lia.
  - exists pick, h'. split; [done|]. intros ->. destruct (Hp 0%nat eq_refl) as (w & Hin & Hm).
    assert (w = 0) as -> by (simpl in Hin; set_solver). vm_compute in Hm. discriminate.
Defined.
