(* ===== verification/HealthRestore.v ===== *)
(** * HealthRestore

    Carrying learned health across a configuration apply or a restart: a store
    exported with [export_health] and restored by lane identity into a freshly
    built store exports the same snapshots again, with every HalfOpen cell turned
    into an Open one (the in-flight probe belonged to the old store), in whatever
    order the new configuration lists the lanes. *)

From S2P Require Import Prelude Float64 Breaker BreakerFsm HealthState HealthLemmas HealthSpec.

Section store.
Context {SemT : Type} `{Semaphore SemT}.
Implicit Types (h : HealthState SemT) (ls : LaneState SemT).

Definition lane_id ls : string * string := (ls_model ls, ls_provider ls).
Definition snap_id (s : LaneHealthSnapshot) : string * string := (hs_model s, hs_provider s).

(** What [restore_lane] leaves at one index. *)
Definition restored_at (restored : list LaneHealthSnapshot) h (idx : nat)
    : option (LaneState SemT * list (string * BreakerCell)) :=
  ls ← get_lane h idx;
  Some match find_snapshot restored ls with
       | None => (ls, lane_pool_cells h idx)
       | Some snap => (restore_lane_state snap ls,
                       foldl restore_pool_cell (lane_pool_cells h idx) (hs_cells snap))
       end.

Definition lane_with_cells h (idx : nat) : option (LaneState SemT * list (string * BreakerCell)) :=
  ls ← get_lane h idx; Some (ls, lane_pool_cells h idx).

Lemma restore_lane_at restored h idx :
  lane_with_cells (restore_lane restored h idx) idx = restored_at restored h idx.
Proof.
  unfold lane_with_cells, restored_at, restore_lane.
  destruct (get_lane h idx) as [ls|] eqn:Hl; simpl; [|by rewrite Hl].
  destruct (find_snapshot restored ls) as [snap|]; simpl; [|by rewrite Hl].
  unfold get_lane in *. simpl. rewrite list_lookup_alter_eq, Hl. simpl.
  unfold lane_pool_cells. simpl. by rewrite lookup_insert_eq.
Qed.

Lemma restore_lane_other restored h idx i :
  i <> idx ->
  get_lane (restore_lane restored h idx) i = get_lane h i
  /\ lane_pool_cells (restore_lane restored h idx) i = lane_pool_cells h i.
Proof.
  intros Hne. unfold restore_lane.
  destruct (get_lane h idx) as [ls|]; [|done]. destruct (find_snapshot restored ls); [|done].
  unfold get_lane, lane_pool_cells. simpl.
  rewrite list_lookup_alter_ne, lookup_insert_ne by done. done.
Qed.

Lemma restore_lane_length restored h idx :
  length (lanes (restore_lane restored h idx)) = length (lanes h).
Proof.
  unfold restore_lane. destruct (get_lane h idx); [|done]. destruct (find_snapshot _ _); [|done].
  apply length_alter.
Qed.

Lemma restore_fold_at restored idxs h i :
  NoDup idxs ->
  lane_with_cells (foldl (restore_lane restored) h idxs) i
  = if decide (i ∈ idxs) then restored_at restored h i else lane_with_cells h i.
Proof.
  intros Hnd. revert h. induction Hnd as [|idx idxs Hnot _ IH]; intros h; simpl.
  { done. }
  rewrite IH. destruct (decide (i = idx)) as [->|Hne].
  - repeat case_decide; try done; try apply restore_lane_at; set_solver.
  - destruct (restore_lane_other restored h idx i Hne) as [Hg Hc].
    unfold restored_at, lane_with_cells. rewrite Hg, Hc. repeat case_decide; set_solver.
Qed.

Lemma restore_all_at restored h i ls :
  get_lane h i = Some ls ->
  lane_with_cells (restore_health_impl restored h) i = restored_at restored h i.
Proof.
  intros Hl. unfold restore_health_impl. rewrite restore_fold_at by apply NoDup_seq.
  case_decide as Hin; [done|]. exfalso. apply Hin. apply elem_of_seq.
  apply lookup_lt_Some in Hl. lia.
Qed.

Lemma restore_length restored h : length (lanes (restore_health_impl restored h)) = length (lanes h).
Proof.
  unfold restore_health_impl. generalize (seq 0 (length (lanes h))). intros l.
  revert h. induction l as [|idx l IH]; intros h; simpl; [done|].
  rewrite IH. apply restore_lane_length.
Qed.

(** ** Snapshots are found by identity *)

Lemma export_lookup h i ls :
  get_lane h i = Some ls -> export_health h !! i = Some (export_lane h i ls).
Proof. intros Hl. unfold export_health. rewrite list_lookup_imap. unfold get_lane in Hl. by rewrite Hl. Qed.

Lemma export_ids h : snap_id <$> export_health h = lane_id <$> lanes h.
Proof.
  unfold export_health. apply list_eq. intros i. rewrite !list_lookup_fmap, list_lookup_imap.
  by destruct (lanes h !! i).
Qed.

Lemma find_snapshot_unique restored ls i snap :
  NoDup (snap_id <$> restored) -> restored !! i = Some snap -> snap_id snap = lane_id ls ->
  find_snapshot restored ls = Some snap.
Proof.
  intros Hnd Hi Hid. unfold find_snapshot.
  destruct (list_find _ restored) as [[j s]|] eqn:Ef; simpl.
  - apply list_find_Some in Ef as (Hj & [Hm Hp] & _). f_equal.
    assert (j = i) as ->; [|congruence].
    apply (NoDup_lookup (snap_id <$> restored) j i (lane_id ls)); [done|..];
      rewrite list_lookup_fmap.
    + rewrite Hj. simpl. unfold snap_id, lane_id. by rewrite Hm, Hp.
    + rewrite Hi. simpl. by rewrite Hid.
  - exfalso. apply list_find_None in Ef. rewrite Forall_lookup in Ef. apply (Ef _ _ Hi).
    unfold snap_id, lane_id in Hid. by simplify_eq.
Qed.

(** ** The pool cells of one lane *)

Definition normalise_cell (s : PoolCellHealthSnapshot) : PoolCellHealthSnapshot :=
  mkPoolSnap (ps_pool s) (restored_breaker_state (ps_breaker_state s)) (ps_cooldown_until s)
    (ps_streak s) (ps_err s).

Lemma restore_cells_fresh (done todo : list (string * BreakerCell)) acc :
  NoDup (done ++ todo).*1 -> acc.*1 = done.*1 ->
  export_pool_cell <$> foldl restore_pool_cell acc (export_pool_cell <$> todo)
  = (export_pool_cell <$> acc) ++ (normalise_cell <$> (export_pool_cell <$> todo)).
Proof.
  revert done acc. induction todo as [|[p c] todo IH]; intros done acc Hnd Hk; csimpl.
  { by rewrite app_nil_r. }
  assert (assoc_find p acc = None) as Hnone.
  { apply assoc_find_None_notin. rewrite Hk. rewrite fmap_app in Hnd. csimpl in Hnd.
    apply NoDup_app in Hnd as (_ & Hd & _). intros Hin. apply (Hd p Hin). left. }
  unfold restore_pool_cell at 2. simpl. rewrite Hnone.
  rewrite (IH (done ++ [(p, c)])).
  - rewrite fmap_app, <- app_assoc. done.
  - by rewrite <- app_assoc.
  - rewrite !fmap_app, Hk. done.
Qed.

Lemma restore_cells_export cells :
  NoDup cells.*1 ->
  export_pool_cell <$> foldl restore_pool_cell [] (export_pool_cell <$> cells)
  = normalise_cell <$> (export_pool_cell <$> cells).
Proof. intros Hnd. by apply (restore_cells_fresh [] cells []). Qed.

(** ** The lane record *)

Definition normalise (s : LaneHealthSnapshot) : LaneHealthSnapshot :=
  mkLaneSnap (hs_model s) (hs_provider s) (hs_budget s)
    (restored_breaker_state (hs_breaker_state s)) (hs_cooldown_until s) (hs_streak s)
    (hs_dead s) (hs_dead_reason s) (hs_ok s) (hs_err s) (hs_client_fault s)
    (hs_latency_ewma s) (hs_trips s) (hs_last_trip_at s) (normalise_cell <$> hs_cells s).

(** The new configuration has the same identity and limits for a lane, and a budget cap
    that is at least what was left. *)
Record compatible (ld : LaneData SemT) ls : Prop := {
  co_id : (ld_model ld, ld_provider ld) = lane_id ls;
  co_limited : ld_limited ld = ls_limited ls;
  co_budget : ls_limited ls = true -> 0 <= ls_budget ls <= ld_budget ld;
}.

(** The exported snapshot of a lane of [h], found and restored into a compatible fresh lane. *)
Lemma restore_one h i ls ld j h' :
  health_wf h -> NoDup (lane_id <$> lanes h) -> get_lane h i = Some ls -> compatible ld ls ->
  get_lane h' j = Some (lane_of_data ld) -> lane_pool_cells h' j = [] ->
  exists ls' cells', restored_at (export_health h) h' j = Some (ls', cells')
    /\ forall h2, lane_pool_cells h2 j = cells' ->
         export_lane h2 j ls' = normalise (export_lane h i ls).
Proof.
  intros Hw Hnd Hl [Hid Hlim Hbud] Hl' Hc'. unfold restored_at. rewrite Hl'. simpl.
  rewrite (find_snapshot_unique _ _ i (export_lane h i ls)).
  2: by rewrite export_ids. 2: by apply export_lookup. 2: by symmetry.
  do 2 eexists. split; [done|]. intros h2 Hh2. rewrite Hc' in Hh2.
  unfold export_lane at 1. rewrite Hh2. unfold normalise. simpl.
  rewrite restore_cells_export by apply cw_nodup, health_wf_cells, Hw.
  unfold lane_id in Hid. injection Hid as -> ->. rewrite Hlim.
  destruct (ls_limited ls) eqn:El; simpl; [|done].
  destruct (Hbud eq_refl). assert (0 <=? ls_budget ls = true) as -> by (by apply Z.leb_le).
  by rewrite Z.min_l by lia.
Qed.

Lemma lane_with_cells_inv h i ls cells :
  lane_with_cells h i = Some (ls, cells) -> get_lane h i = Some ls /\ lane_pool_cells h i = cells.
Proof. unfold lane_with_cells. intros Hl. mbind_inv. done. Qed.

Lemma restored_not_half_open st : restored_breaker_state st <> ST_HALF_OPEN.
Proof.
  unfold restored_breaker_state. destruct (st =? ST_HALF_OPEN) eqn:E; zbool; [|done].
  unfold ST_OPEN, ST_HALF_OPEN. lia.
Qed.

(** A lane whose export is normalised has no HalfOpen cell, seen from any pool. *)
Lemma normalised_no_half_open h j ls snap pool c :
  get_lane h j = Some ls -> export_lane h j ls = normalise snap ->
  view_cell pool j h = Some c -> breaker_state c <> ST_HALF_OPEN.
Proof.
  intros Hl He Hv. unfold view_cell in Hv. rewrite Hl in Hv. simpl in Hv.
  assert (Hs : breaker_state (ls_cell ls) <> ST_HALF_OPEN).
  { apply (f_equal hs_breaker_state) in He. simpl in He. rewrite He. apply restored_not_half_open. }
  destruct (String.eqb pool ""); [by simplify_eq|].
  destruct (assoc_find pool (lane_pool_cells h j)) as [c0|] eqn:Ef; simplify_eq.
  - apply assoc_find_elem in Ef. apply (f_equal hs_cells) in He. simpl in He.
    assert (export_pool_cell (pool, c) ∈ normalise_cell <$> hs_cells snap) as Hin.
    { rewrite <- He. by apply list_elem_of_fmap_2. }
    apply list_elem_of_fmap in Hin as (ps & Heq & _).
    apply (f_equal ps_breaker_state) in Heq. simpl in Heq. rewrite Heq. apply restored_not_half_open.
  - unfold inherit_cell. simpl. case_match eqn:E; zbool; [done|done].
Qed.
End store.

(** ** Properties *)

Section properties.
Context {SemT : Type} `{Semaphore SemT}.
Implicit Types (h : HealthState SemT) (ls : LaneState SemT).

(** Learned health survives a configuration apply or a restart: building the new lanes from a
    compatible configuration - in any order, with any lanes added or dropped - and restoring the
    exported snapshots gives every surviving lane exactly the exported health (counters, latency,
    hard-down reason, remaining budget, every pool's breaker state, cooldown and streak), except
    that a HalfOpen cell comes back Open; so no cell of a restored lane, in any pool, is HalfOpen
    with nobody holding its probe. *)
Theorem restore_round_trip h data hd maxh j ld i ls :
  health_wf h -> NoDup (lane_id <$> lanes h) ->
  data !! j = Some ld -> get_lane h i = Some ls -> compatible ld ls ->
  let h' := new_with_limits_restored data hd maxh (export_health h) in
  length (lanes h') = length data
  /\ export_health h' !! j = Some (normalise (export_lane h i ls))
  /\ forall pool c, view_cell pool j h' = Some c -> breaker_state c <> ST_HALF_OPEN.
Proof.
  intros Hw Hnd Hj Hl Hco h'.
  set (h0 := new_with_limits data hd maxh).
  assert (Hl0 : get_lane h0 j = Some (lane_of_data ld)).
  { unfold get_lane, h0. simpl. by rewrite list_lookup_fmap, Hj. }
  destruct (restore_one h i ls ld j h0 Hw Hnd Hl Hco Hl0) as (ls' & cells' & Hr & He); [done|].
  pose proof (restore_all_at (export_health h) h0 j _ Hl0) as Hall. rewrite Hr in Hall.
  change (restore_health_impl (export_health h) h0) with h' in Hall.
  apply lane_with_cells_inv in Hall as [Hl' Hc']. specialize (He h' Hc').
  split_and!.
  - unfold h', new_with_limits_restored. rewrite restore_length. simpl. apply length_fmap.
  - by rewrite (export_lookup _ _ _ Hl'), He.
  - intros pool c Hv. by eapply normalised_no_half_open.
Qed.
End properties.

(** A store with a hard-downed lane and a HalfOpen pool cell, restored into a reordered
    configuration. *)
Definition demo_used : HealthState Z :=
  default demo_store (snd <$> record_hard_down_all_cells 1 "quota" 1000
    (default demo_store (snd <$> usable_for "team" 1 1000 demo_store))).

Lemma demo_used_wf : health_wf demo_used.
Proof.
  destruct (touch_cell "team" 1 demo_store (lane_of_data (demo_lane "claude" 1))
    (fun c => (cell_acquire_breaker c 1000).1) demo_store_wf eq_refl)
    as (c & h1 & Hld & _ & _ & _ & _ & Hst & _).
  { intros. by apply acquire_steps. }
  assert (Hu : snd <$> usable_for "team" 1 1000 demo_store
    = Some (write_cell (cell_ref "team" 1) (cell_acquire_breaker c 1000).1 h1)).
  { unfold usable_for. simpl. rewrite Hld. simpl. by destruct (cell_acquire_breaker c 1000). }
  unfold demo_used. rewrite Hu. cbn [from_option id].
  destruct (hstep_get _ _ 1 (lane_of_data (demo_lane "claude" 1)) Hst eq_refl) as [ls' Hl'].
  destruct (hard_down_all_spec 1 "quota" 1000 _ ls' (st_wf _ _ Hst) Hl') as (h' & ? & He & Hst' & _);
    [by vm_compute|].
  rewrite He. apply Hst'.
Qed.

Lemma restore_round_trip_witness :
  exists ls, get_lane demo_used 1 = Some ls
    /\ export_health (new_with_limits_restored [demo_lane "claude" 1; demo_lane "new" 1] 1800 86400
         (export_health demo_used)) !! 0%nat = Some (normalise (export_lane demo_used 1 ls)).
Proof.
  destruct (get_lane demo_used 1) as [ls|] eqn:Hl; [|by vm_compute in Hl].
  destruct (restore_round_trip demo_used [demo_lane "claude" 1; demo_lane "new" 1] 1800 86400 0
    (demo_lane "claude" 1) 1 ls) as (_ & He & _).
  - apply demo_used_wf.
  - vm_compute. repeat constructor; set_solver.
  - reflexivity.
  - done.
  - vm_compute in Hl. injection Hl as <-. split; vm_compute; done.
  - exists ls. done.
Defined.
