(* ===== verification/BudgetLoop.v ===== *)
(** * BudgetLoop

    The lock-free lifetime-budget counter ([spend_budget]/[refund_budget]) under
    contention.  The compare-and-swap loop is run by any number of threads as
    separate atomic steps: the initial load, a compare-exchange that succeeds, and
    one that fails - because a racing thread moved the counter, or spuriously, as
    [compare_exchange_weak] may.  Each request spends at most once and refunds
    only a unit it spent. *)

From S2P Require Import Prelude Float64 Breaker HealthState HealthLemmas.

(** One request's progress through the loop. *)
Inductive SpendThread :=
  | TStart
  | TLoop (cur : Z)
  | TSpent
  | TRefused
  | TRefunded.

#[export] Instance SpendThread_eq_dec : EqDecision SpendThread.
Proof. solve_decision. Defined.

(** The shared counter of a limited lane and the requests. *)
Record BudgetSys := mkSys { counter : Z; threads : list SpendThread }.

Inductive budget_step : BudgetSys -> BudgetSys -> Prop :=
  | bs_load b ts i :
      ts !! i = Some TStart ->
      budget_step (mkSys b ts) (mkSys b (<[i := TLoop b]> ts))
  | bs_exhausted b ts i cur :
      ts !! i = Some (TLoop cur) -> spend_attempt cur = None ->
      budget_step (mkSys b ts) (mkSys b (<[i := TRefused]> ts))
  | bs_cas_ok b ts i next :
      ts !! i = Some (TLoop b) -> spend_attempt b = Some next ->
      budget_step (mkSys b ts) (mkSys next (<[i := TSpent]> ts))
  | bs_cas_err b ts i cur next :
      ts !! i = Some (TLoop cur) -> spend_attempt cur = Some next ->
      budget_step (mkSys b ts) (mkSys b (<[i := TLoop b]> ts))
  | bs_refund b ts i :
      ts !! i = Some TSpent ->
      budget_step (mkSys b ts) (mkSys (wrap_i64 (b + 1)) (<[i := TRefunded]> ts)).

Definition spent (ts : list SpendThread) : Z :=
  Zsum ((fun t => if decide (t = TSpent) then 1 else 0) <$> ts).

Lemma spent_insert ts i t t' :
  ts !! i = Some t ->
  spent (<[i := t']> ts)
  = spent ts - (if decide (t = TSpent) then 1 else 0) + (if decide (t' = TSpent) then 1 else 0).
Proof.
  unfold spent. revert i. induction ts as [|t0 ts IH]; intros [|i] Hi; csimpl in *; try done.
  - injection Hi as ->. lia.
  - rewrite (IH i Hi). lia.
Qed.

Lemma spent_nonneg ts : 0 <= spent ts.
Proof.
  apply Zsum_nonneg. apply Forall_fmap, Forall_true. intros t. simpl. case_decide; lia.
Qed.

Lemma spent_filter ts : Z.of_nat (length (filter (fun t => t = TSpent) ts)) = spent ts.
Proof.
  unfold spent. induction ts as [|t ts IH]; [done|]. csimpl.
  destruct (decide (t = TSpent)).
  - rewrite filter_cons_True by done. csimpl. lia.
  - rewrite filter_cons_False by done. lia.
Qed.

(** Nothing is spent twice: what is gone from the counter is exactly what is spent and not
    refunded. *)
Definition budget_inv (cap : Z) (s : BudgetSys) : Prop :=
  0 <= counter s /\ counter s + spent (threads s) = cap.

Lemma budget_step_inv cap s s' :
  cap <= I64_MAX -> budget_inv cap s -> budget_step s s' -> budget_inv cap s'.
Proof.
  unfold budget_inv. intros Hcap [Hpos Hsum] Hstep. unfold I64_MAX in Hcap.
  destruct Hstep as [b ts i Hi|b ts i cur Hi Ha|b ts i next Hi Ha|b ts i cur next Hi Ha|b ts i Hi];
    simpl in *; rewrite (spent_insert _ _ _ _ Hi); simpl; try (split; lia).
  - unfold spend_attempt in Ha. case_match eqn:E; simplify_eq. zbool. split; lia.
  - pose proof (spent_nonneg (<[i := TRefunded]> ts)) as Hn.
    rewrite (spent_insert _ _ _ _ Hi) in Hn. simpl in Hn.
    rewrite wrap_i64_small by lia. split; lia.
Qed.

Lemma budget_reachable_inv cap n s :
  0 <= cap <= I64_MAX -> rtc budget_step (mkSys cap (replicate n TStart)) s -> budget_inv cap s.
Proof.
  intros Hcap Hr.
  assert (H0 : budget_inv cap (mkSys cap (replicate n TStart))).
  { split; simpl; [lia|]. assert (spent (replicate n TStart) = 0) as ->; [|lia].
    unfold spent. clear. induction n as [|n IH]; [done|]. csimpl. by rewrite IH. }
  induction Hr as [|s1 s2 s3 Hs _ IH]; [done|]. apply IH. eapply budget_step_inv; [|done..]. lia.
Qed.

(** ** Properties *)

(** C34. The request budget is a hard ceiling under any interleaving: from a budget of [cap], with
    any number of requests racing on the counter and compare-exchanges failing spuriously at
    will, the counter never goes negative nor above [cap], and the spends not refunded are
    exactly what is missing from it - never more than [cap]. *)
Theorem budget_never_overspent cap n s :
  0 <= cap <= I64_MAX -> rtc budget_step (mkSys cap (replicate n TStart)) s ->
  0 <= counter s <= cap
  /\ spent (threads s) = cap - counter s
  /\ Z.of_nat (length (filter (fun t => t = TSpent) (threads s))) <= cap.
Proof.
  intros Hcap Hr. destruct (budget_reachable_inv cap n s Hcap Hr) as [Hpos Hsum].
  pose proof (spent_nonneg (threads s)) as Hn.
  rewrite spent_filter. split_and!; lia.
Qed.

Lemma budget_never_overspent_witness :
  exists s, rtc budget_step (mkSys 1 (replicate 2 TStart)) s /\ counter s = 0
    /\ threads s = [TSpent; TRefused] /\ 0 <= counter s <= 1.
Proof.
  set (s := mkSys 0 [TSpent; TRefused]).
  assert (Hr : rtc budget_step (mkSys 1 (replicate 2 TStart)) s).
  { eapply rtc_l; [by apply (bs_load 1 _ 0)|]. eapply rtc_l; [by apply (bs_load 1 _ 1)|].
    eapply rtc_l; [by eapply (bs_cas_err 1 _ 0 1)|]. eapply rtc_l; [by eapply (bs_cas_ok 1 _ 0 0)|].
    eapply rtc_l; [by eapply (bs_cas_err 0 _ 1 1)|]. eapply rtc_l; [by apply (bs_exhausted 0 _ 1 0)|].
    reflexivity. }
  destruct (budget_never_overspent 1 2 s) as (Hc & _); [by vm_compute|done|].
  exists s. split; [done|]. split; [done|]. split; [done|]. exact Hc.
Defined.

(** The loop terminates and agrees with the sequential operation: from any state of the race, a
    request about to load the counter - or retrying after a lost race - that then runs without
    interference finishes in two of its own steps, having spent one unit exactly when the counter
    was positive - the answer and the new budget that [spend_budget] gives on the store - and
    having left the counter alone otherwise. *)
Theorem spend_loop_agrees_with_spend_budget {SemT} `{Semaphore SemT} (h : HealthState SemT)
    lane ls b ts i t :
  get_lane h lane = Some ls -> ls_limited ls = true -> ls_budget ls = b ->
  ts !! i = Some t -> t = TStart \/ (exists cur, t = TLoop cur /\ 0 < cur) ->
  exists (ok : bool) h' b',
    nsteps budget_step 2 (mkSys b ts) (mkSys b' (<[i := if ok then TSpent else TRefused]> ts))
    /\ spend_budget lane h = Some (ok, h')
    /\ ls_budget <$> get_lane h' lane = Some b'
    /\ (ok = true <-> 0 < b) /\ (ok = false -> b' = b).
Proof.
  intros Hl Hlim Hb Hi Ht.
  assert (Hfresh : budget_step (mkSys b ts) (mkSys b (<[i := TLoop b]> ts))).
  { destruct Ht as [->|(cur & -> & Hc)]; [by apply bs_load|].
    eapply (bs_cas_err _ _ _ cur (cur - 1)); [done|]. unfold spend_attempt.
    by assert (cur <=? 0 = false) as -> by (by apply Z.leb_gt). }
  assert (Hi' : <[i := TLoop b]> ts !! i = Some (TLoop b)).
  { apply list_lookup_insert_eq. by eapply lookup_lt_Some. }
  unfold spend_budget. rewrite Hl. simpl. rewrite Hlim. simpl. rewrite Hb.
  destruct (spend_attempt b) as [next|] eqn:Ea; pose proof Ea as Hsp;
    unfold spend_attempt in Hsp; case_match eqn:Eb; simplify_eq; zbool.
  - exists true. do 2 eexists. split_and!; [|done|by erewrite get_upd_lane_eq by done| |done].
    + eapply nsteps_l; [done|]. apply nsteps_once.
      rewrite <- (list_insert_insert_eq ts i (TSpent) (TLoop (ls_budget ls))). by eapply bs_cas_ok.
    + split; [lia|done].
  - exists false. do 2 eexists. split_and!; [|done|by rewrite Hl| |done].
    + eapply nsteps_l; [done|]. apply nsteps_once.
      rewrite <- (list_insert_insert_eq ts i (TRefused) (TLoop (ls_budget ls))).
      by eapply bs_exhausted.
    + split; [done|lia].
Qed.

Definition demo_budget : HealthState Z :=
  HealthState_new [mkLaneData "gpt-4o" "openai" 2 2 true 1 0 0 false "" 0 0 0].

Lemma spend_loop_agrees_with_spend_budget_witness :
  exists (ok : bool) h' b', nsteps budget_step 2 (mkSys 1 [TStart; TStart])
      (mkSys b' [if (ok : bool) then TSpent else TRefused; TStart])
    /\ spend_budget 0 demo_budget = Some (ok, h') /\ ok = true.
Proof.
  destruct (spend_loop_agrees_with_spend_budget demo_budget 0
    (lane_of_data (mkLaneData "gpt-4o" "openai" 2 2 true 1 0 0 false "" 0 0 0)) 1 [TStart; TStart] 0
    TStart) as (ok & h' & b' & Hn & Hs & _ & Hok & _); try reflexivity; [by left|].
  exists ok, h', b'. split_and!; [done|done|]. apply Hok. lia.
Defined.
