(* ===== verification/StoreRuns.v ===== *)
(** * StoreRuns

    The lane store as a whole: its operations as one instruction set, and the
    invariant of every sequence of them. *)

From S2P Require Import Prelude Float64 Breaker BreakerFsm HealthState HealthLemmas HealthSpec HealthAdmit SwrrCore Swrr.

Inductive StoreOp :=
  | SUsable (pool : string) (lane : nat) (now : Z)
  | SReady (pool : string) (lane : nat) (now : Z)
  | SClassify (pool : string) (lane : nat) (now : Z)
  | SAdmit (pool : string) (lane : nat) (now : Z)
  | SAdmitBreaker (pool : string) (lane : nat) (now : Z)
  | SDropPermit (lane : nat) (p : Permit)
  | SReleaseProbe (pool : string) (lane : nat)
  | SReleaseOwned (pool : string) (lane : nat) (epoch : Z)
  | SFailure (pool : string) (lane : nat) (now : Z) (cfg : BreakerCfg) (ra : option Z) (e : Entropy)
  | SSuccess (pool : string) (lane : nat) (now : Z)
  | SHardDown (pool : string) (lane : nat) (reason : string) (now : Z)
  | SHardDownAll (lane : nat) (reason : string) (now : Z)
  | SRecover (lane : nat) (now : Z)
  | SProbeSuccess (lane : nat) (now : Z)
  | SProbeFailure (lane : nat) (cfgs : string -> BreakerCfg) (ra : option Z) (now : Z)
      (ent : string -> Entropy)
  | SClientFault (lane : nat)
  | SSpend (lane : nat)
  | SRefund (lane : nat)
  | SLatency (lane : nat) (ms : f64)
  | SSelect (pool : string) (candidates : list nat) (weights : list Z) (now : Z).

Section store.
Context {SemT : Type} `{Semaphore SemT}.
Implicit Types (h : HealthState SemT) (ls : LaneState SemT) (r : CellRef).
#[local] Arguments read_cell : simpl never.
#[local] Arguments write_cell : simpl never.

Definition run_store (op : StoreOp) h : option (HealthState SemT) :=
  match op with
  | SUsable pool lane now => snd <$> usable_for pool lane now h
  | SReady pool lane now => snd <$> ready_for pool lane now h
  | SClassify pool lane now => snd <$> classify pool lane now h
  | SAdmit pool lane now => snd <$> try_admit id pool lane now h
  | SAdmitBreaker pool lane now => snd <$> try_admit_breaker id pool lane now h
  | SDropPermit lane p => Some (drop_permit lane p h)
  | SReleaseProbe pool lane => release_probe_in pool lane h
  | SReleaseOwned pool lane epoch => release_probe_owned_in pool lane epoch h
  | SFailure pool lane now cfg ra e => snd <$> record_failure_for pool lane now cfg ra e h
  | SSuccess pool lane now => record_success_for pool lane now h
  | SHardDown pool lane reason now => record_hard_down_for pool lane reason now h
  | SHardDownAll lane reason now => snd <$> record_hard_down_all_cells lane reason now h
  | SRecover lane now => recover_lane lane now h
  | SProbeSuccess lane now => record_probe_success_all_cells lane now h
  | SProbeFailure lane cfgs ra now ent => record_probe_failure_all_cells lane cfgs ra now ent h
  | SClientFault lane => record_client_fault lane h
  | SSpend lane => snd <$> spend_budget lane h
  | SRefund lane => refund_budget lane h
  | SLatency lane ms => record_latency_in lane ms h
  | SSelect pool candidates weights now => snd <$> select_weighted_for pool candidates weights now h
  end.

(** The lane exists, the clock is a [u64], the configuration is a validated one. *)
Definition store_op_ok (n : nat) (op : StoreOp) : Prop :=
  match op with
  | SUsable _ lane now | SReady _ lane now | SClassify _ lane now | SAdmit _ lane now
  | SAdmitBreaker _ lane now | SSuccess _ lane now | SHardDown _ lane _ now
  | SHardDownAll lane _ now | SRecover lane now | SProbeSuccess lane now =>
      (lane < n)%nat /\ is_u64 now
  | SDropPermit lane _ | SReleaseProbe _ lane | SReleaseOwned _ lane _ | SClientFault lane
  | SSpend lane | SRefund lane | SLatency lane _ => (lane < n)%nat
  | SFailure _ lane now cfg _ _ => (lane < n)%nat /\ is_u64 now /\ cfg_valid cfg
  | SProbeFailure lane cfgs _ now _ =>
      (lane < n)%nat /\ is_u64 now /\ forall pool, cfg_valid (cfgs pool)
  | SSelect _ candidates weights now =>
      NoDup candidates /\ Forall (fun l => (l < n)%nat) candidates /\ Forall is_u32 weights
  end.

Lemma lane_exists h lane : (lane < length (lanes h))%nat -> exists ls, get_lane h lane = Some ls.
Proof. intros Hl. by apply lookup_lt_is_Some_2. Qed.

(** ** One lemma per operation *)

Lemma usable_hstep pool lane now h ls :
  health_wf h -> get_lane h lane = Some ls -> is_u64 now ->
  exists b h', usable_for pool lane now h = Some (b, h') /\ hstep h h'.
Proof.
  intros Hw Hl Hn. unfold usable_for. rewrite (lane_admissible_gate _ _ _ Hl). simpl.
  destruct (lane_gate ls); simpl; [eauto using hstep_refl|].
  destruct (touch_cell pool lane h ls (fun c => (cell_acquire_breaker c now).1) Hw Hl)
    as (c & h' & -> & _ & _ & _ & _ & Hst & _); [intros; by apply acquire_steps|].
  simpl in *. destruct (cell_acquire_breaker c now). eauto.
Qed.

Lemma ready_hstep pool lane now h ls :
  health_wf h -> get_lane h lane = Some ls ->
  exists b h', ready_for pool lane now h = Some (b, h') /\ hstep h h'.
Proof.
  intros Hw Hl. destruct (view_some pool lane h ls Hl) as [c Hv].
  destruct (lane_gate ls) eqn:Eg.
  - unfold ready_for. rewrite (lane_admissible_gate _ _ _ Hl), Eg. simpl. eauto using hstep_refl.
  - destruct (ready_view pool lane now h ls c Hw Hl Hv Eg) as (h' & ? & ?). eauto.
Qed.

Lemma release_hstep pool lane (g : BreakerCell -> BreakerCell) h ls :
  health_wf h -> get_lane h lane = Some ls ->
  (forall c, rtc (cell_step (hard_down_cooldown_secs h) (max_honored_retry_after_secs h)) c (g c)) ->
  exists h', ('(r, c, h) ← load_cell pool lane h; Some (write_cell r (g c) h)) = Some h'
    /\ hstep h h'.
Proof.
  intros Hw Hl Hg.
  destruct (touch_cell pool lane h ls g Hw Hl) as (c & h' & -> & _ & _ & _ & _ & Hst & _); [auto|].
  simpl. eauto.
Qed.

Lemma admit_breaker_hstep pool lane now h ls :
  health_wf h -> get_lane h lane = Some ls -> is_u64 now ->
  exists res h', try_admit_breaker id pool lane now h = Some (res, h') /\ hstep h h'.
Proof.
  intros Hw Hl Hn. unfold try_admit_breaker. rewrite Hl. simpl.
  destruct (lane_gate ls); [eauto using hstep_refl|].
  destruct (load_cell_hstep pool lane h ls Hw Hl) as (c & h0 & -> & _ & Hr & _ & Hsv & Hst). simpl.
  destruct (breaker_verdict c now); [|by eauto..|];
    unfold id; rewrite Hr; simpl;
    pose proof (acquire_steps (hard_down_cooldown_secs h0) (max_honored_retry_after_secs h0) c now Hn)
      as Hsteps; destruct (cell_acquire_breaker c now) as [c' won]; do 2 eexists; (split; [done|]);
    (eapply hstep_trans; [done|]; eapply write_cell_hstep; [apply Hst|done|done]).
Qed.

Lemma success_hstep pool lane now h ls :
  health_wf h -> get_lane h lane = Some ls -> is_u64 now ->
  exists h', record_success_for pool lane now h = Some h' /\ hstep h h'.
Proof.
  intros Hw Hl Hn. unfold record_success_for. rewrite Hl. simpl.
  destruct (ls_dead ls); [eauto using bump_ok_hstep|].
  destruct (load_cell_hstep pool lane h ls Hw Hl) as (c & h0 & -> & _ & Hr & _ & Hsv & Hst). simpl.
  destruct (write_reset_hstep pool h0 _ c (cell_record_success c now) (st_wf _ _ Hst) Hr)
    as (h1 & He & Hst1 & _); [by apply success_steps|].
  destruct (cell_record_success c now) as [c' rec]. simpl in He. rewrite He. simpl.
  eexists. split; [done|]. eapply hstep_trans; [done|]. eapply hstep_trans; [done|].
  apply bump_ok_hstep, Hst1.
Qed.

Lemma hard_down_for_hstep pool lane reason now h ls :
  health_wf h -> get_lane h lane = Some ls -> is_u64 now ->
  exists h', record_hard_down_for pool lane reason now h = Some h' /\ hstep h h'.
Proof.
  intros Hw Hl Hn. unfold record_hard_down_for. rewrite Hl. simpl.
  set (h1 := upd_lane lane _ h).
  assert (Hs1 : hstep h h1) by (by apply upd_lane_hstep_simple).
  destruct (hstep_get _ _ _ _ Hs1 Hl) as [ls1 Hl1].
  destruct (load_cell_hstep pool lane h1 ls1 (st_wf _ _ Hs1) Hl1)
    as (c & h2 & -> & _ & Hr & _ & Hsv & Hst2). simpl.
  assert (Hs3 : hstep h2 (write_cell (cell_ref pool lane)
     (cell_hard_down c now (hard_down_cooldown_secs h2)) h2)).
  { eapply write_cell_hstep; [apply Hst2|done|]. by apply hard_down_steps. }
  pose proof (hstep_trans _ _ _ Hs1 (hstep_trans _ _ _ Hst2 Hs3)) as Hall.
  eexists. split; [done|]. case_match; [|done].
  eapply hstep_trans; [done|]. apply bump_trips_hstep, Hs3.
Qed.

Lemma probe_success_hstep lane now h ls :
  health_wf h -> get_lane h lane = Some ls -> is_u64 now ->
  exists h', record_probe_success_all_cells lane now h = Some h' /\ hstep h h'.
Proof.
  intros Hw Hl Hn. unfold record_probe_success_all_cells. rewrite Hl. simpl.
  destruct (ls_dead ls); [eauto using bump_ok_hstep|].
  destruct (sweep_lane_spec (fun c => cell_record_success c now) lane h ls Hw Hl)
    as (h' & He & Hst & _); [intros; by apply success_steps|].
  apply bind_Some_inv in He as (h1 & He1 & He2). rewrite He1. simpl. rewrite He2. simpl.
  eexists. split; [done|]. eapply hstep_trans; [done|]. apply bump_ok_hstep, Hst.
Qed.

(** Rewriting the pool cells of one lane by atomic steps. *)
Lemma set_cells_hstep h lane cells cells' :
  health_wf h -> pool_cells h !! lane = Some cells ->
  Forall2 (fun pc pc' : string * BreakerCell => pc'.1 = pc.1 /\
    rtc (cell_step (hard_down_cooldown_secs h) (max_honored_retry_after_secs h)) pc.2 pc'.2)
    cells cells' ->
  hstep h (set_pool_cells (<[lane := cells']> (pool_cells h)) h).
Proof.
  intros Hw Hc HF. pose proof Hw as [Hl Hcs Hlim Hsh]. pose proof (Hcs _ _ Hc) as [Hnd Hnm Hok].
  assert (Hk : cells'.*1 = cells.*1).
  { clear -HF. induction HF as [|pc pc' cells cells' [Hp _] _ IH]; [done|]. csimpl. by rewrite Hp, IH. }
  split; try done.
  - split; try done. intros lane' cells0 Hi. simpl in Hi.
    apply lookup_insert_Some in Hi as [[<- <-]|[_ Hi]]; [|by eapply Hcs].
    split; rewrite ?Hk; try done. clear -HF Hok Hlim.
    induction HF as [|pc pc' cells cells' [_ Hs] _ IH]; [done|]. apply Forall_cons in Hok as [Hc Hok].
    constructor; [by eapply steps_ok|auto].
  - intros [lane'|p lane'] c Hr; [by exists c|]. unfold read_cell in *.
    rewrite lane_pool_cells_insert. case_decide as Hd; [subst lane'|by exists c].
    unfold lane_pool_cells in Hr. rewrite Hc in Hr. simpl in Hr. clear -HF Hr.
    induction HF as [|[p0 c0] [p1 c1] cells cells' [Hp Hs] _ IH]; [done|]. simpl in *. subst p1.
    destruct (String.eqb p0 p); [injection Hr as ->; eauto|auto].
Qed.

Lemma fail_cells_spec now cfgs ra hd maxh ent cells :
  limits_ok hd maxh -> is_u64 now -> (forall pool, cfg_valid (cfgs pool)) ->
  Forall (fun pc => cell_ok pc.2) cells ->
  exists cells', fail_cells now cfgs ra maxh ent cells = Some cells'
    /\ Forall2 (fun pc pc' : string * BreakerCell => pc'.1 = pc.1 /\
         rtc (cell_step hd maxh) pc.2 pc'.2) cells cells'.
Proof.
  intros Hlim Hn Hcfg. induction 1 as [|[p c] cells Hok _ IH]; simpl; [eauto|].
  destruct (failure_steps hd maxh Hlim c now (cfgs p) ra (ent p) Hok Hn (Hcfg p))
    as (c' & b & -> & Hs). simpl.
  destruct IH as (cells' & -> & HF). simpl. eexists. split; [done|]. by constructor.
Qed.

Lemma probe_failure_hstep lane cfgs ra now ent h ls :
  health_wf h -> get_lane h lane = Some ls -> is_u64 now -> (forall pool, cfg_valid (cfgs pool)) ->
  exists h', record_probe_failure_all_cells lane cfgs ra now ent h = Some h' /\ hstep h h'.
Proof.
  intros Hw Hl Hn Hcfg. unfold record_probe_failure_all_cells. rewrite Hl. simpl.
  destruct (ls_dead ls); [eauto using hstep_refl|].
  assert (Hr : read_cell (LaneCell lane) h = Some (ls_cell ls)) by (unfold read_cell; by rewrite Hl).
  destruct (failure_steps _ _ (hw_limits _ Hw) (ls_cell ls) now (cfgs ""%string) ra (ent ""%string))
    as (c' & b & -> & Hs); [by eapply lw_cell, health_wf_lane|done|done|]. simpl.
  pose proof (write_cell_hstep h _ _ _ Hw Hr Hs) as Hst.
  change (pool_cells (write_cell (LaneCell lane) c' h)) with (pool_cells h).
  destruct (pool_cells h !! lane) as [cells|] eqn:Ec; [|eauto].
  destruct (fail_cells_spec now cfgs ra (hard_down_cooldown_secs h) (max_honored_retry_after_secs h)
    ent cells (hw_limits _ Hw) Hn Hcfg) as (cells' & -> & HF).
  { eapply cw_cells, hw_cells; done. }
  simpl. eexists. split; [done|]. eapply hstep_trans; [done|].
  by apply (set_cells_hstep (write_cell (LaneCell lane) c' h) lane cells cells'); [apply Hst| |].
Qed.

Lemma budget_hstep lane v h : health_wf h -> hstep h (upd_lane lane (set_ls_budget v) h).
Proof. intros. by apply upd_lane_hstep_simple. Qed.

Lemma spend_hstep lane h ls :
  health_wf h -> get_lane h lane = Some ls ->
  exists b h', spend_budget lane h = Some (b, h') /\ hstep h h'.
Proof.
  intros Hw Hl. unfold spend_budget. rewrite Hl. simpl.
  destruct (negb _); [eauto using hstep_refl|].
  destruct (spend_attempt _); eauto using hstep_refl, budget_hstep.
Qed.

Lemma refund_hstep lane h ls :
  health_wf h -> get_lane h lane = Some ls ->
  exists h', refund_budget lane h = Some h' /\ hstep h h'.
Proof.
  intros Hw Hl. unfold refund_budget. rewrite Hl. simpl.
  destruct (negb _); eauto using hstep_refl, budget_hstep.
Qed.

Lemma latency_hstep lane ms h ls :
  health_wf h -> get_lane h lane = Some ls ->
  exists h', record_latency_in lane ms h = Some h' /\ hstep h h'.
Proof.
  intros Hw Hl. unfold record_latency_in. destruct (_ || _); [eauto using hstep_refl|].
  rewrite Hl. simpl. destruct (latency_attempt _ _); [|eauto using hstep_refl].
  eexists. split; [done|]. by apply upd_lane_hstep_simple.
Qed.

Lemma run_store_hstep op h :
  health_wf h -> store_op_ok (length (lanes h)) op ->
  exists h', run_store op h = Some h' /\ hstep h h'.
Proof.
  intros Hw Hop.
  assert (Hfmap : forall A (x : option (A * HealthState SemT)),
    (exists a h', x = Some (a, h') /\ hstep h h') -> exists h', snd <$> x = Some h' /\ hstep h h').
  { intros A x (a & h' & -> & ?). simpl. eauto. }
  destruct op; simpl in *;
    repeat match goal with Ho : _ /\ _ |- _ => destruct Ho end;
    try (match goal with Hl : (?l < _)%nat |- _ =>
           destruct (lane_exists h l Hl) as [ls Hls] end).
  - apply Hfmap. by eapply usable_hstep.
  - apply Hfmap. by eapply ready_hstep.
  - apply Hfmap. destruct (view_some pool lane h ls Hls) as [c Hv].
    destruct (classify_view pool lane now h ls c Hw Hls Hv) as (h' & ? & _ & ?). eauto.
  - apply Hfmap. destruct (try_admit_spec id pool lane now h ls) as (res & h' & ? & ? & _);
      [done..|by intros ??; apply hstep_refl|eauto].
  - apply Hfmap. by eapply admit_breaker_hstep.
  - eauto using drop_permit_hstep.
  - eapply release_hstep; [done..|]. intros. apply release_steps.
  - eapply (release_hstep _ _ (fun c => cell_release_probe_owned c epoch)); [done..|].
    intros. apply release_owned_steps.
  - apply Hfmap. destruct (ls_dead ls) eqn:Ed.
    + exists false, h. unfold record_failure_for. rewrite Hls. simpl. rewrite Ed.
      split; [done|by apply hstep_refl].
    + destruct (record_failure_for_spec pool lane now cfg ra e h ls)
        as (b & h' & _ & _ & _ & ? & ? & _); eauto.
  - by eapply success_hstep.
  - by eapply hard_down_for_hstep.
  - apply Hfmap. destruct (hard_down_all_spec lane reason now h ls) as (h' & _ & ? & ? & _); eauto.
  - destruct (recover_lane_spec lane now h ls) as (h' & ? & ? & _); eauto.
  - by eapply probe_success_hstep.
  - by eapply probe_failure_hstep.
  - unfold record_client_fault. rewrite Hls. simpl. eexists. split; [done|].
    by apply upd_lane_hstep_simple.
  - apply Hfmap. by eapply spend_hstep.
  - by eapply refund_hstep.
  - by eapply latency_hstep.
  - apply Hfmap. apply select_hstep; [done..|].
    apply Forall_forall. intros [l w] Hin. apply elem_of_zip_l in Hin.
    match goal with HF : Forall (fun l => (l < _)%nat) _ |- _ =>
      rewrite Forall_forall in HF; apply HF in Hin end.
    by apply lane_exists.
Qed.

Fixpoint run_stores (ops : list StoreOp) h : option (HealthState SemT) :=
  match ops with
  | [] => Some h
  | op :: ops => h ← run_store op h; run_stores ops h
  end.

Lemma hstep_length h h' : hstep h h' -> length (lanes h') = length (lanes h).
Proof.
  intros Hs. pose proof (f_equal length (st_boot _ _ Hs)) as Hl. by rewrite !length_fmap in Hl.
Qed.

Lemma run_stores_hstep ops h :
  health_wf h -> Forall (store_op_ok (length (lanes h))) ops ->
  exists h', run_stores ops h = Some h' /\ hstep h h'.
Proof.
  intros Hw Hops. revert h Hw Hops. induction ops as [|op ops IH]; intros h Hw Hops; simpl.
  { eauto using hstep_refl. }
  apply Forall_cons in Hops as [Hop Hops].
  destruct (run_store_hstep op h Hw Hop) as (h1 & -> & Hs1). simpl.
  destruct (IH h1) as (h' & -> & Hs'); [apply Hs1|by rewrite (hstep_length _ _ Hs1)|].
  exists h'. split; [done|]. by eapply hstep_trans.
Qed.
End store.

(** ** Property *)

(** C29. The store never panics and never corrupts itself: from any store built from sane lane data,
    every sequence of its operations on existing lanes (admissions, releases, outcomes, hard-downs,
    probes, recoveries, budget and latency updates, weighted selections) returns; the result is
    well formed - every breaker cell in its invariant, no pool listed twice on a lane, every
    memoized shard index the hashed one, no permit count negative - the lanes' boot-time fields are
    unchanged, and every breaker cell has moved only by atomic steps of the breaker machine. *)
Theorem store_invariant {SemT} `{Semaphore SemT} data hd maxh ops :
  Forall lane_data_ok data -> limits_ok hd maxh -> Forall (store_op_ok (length data)) ops ->
  let h0 := new_with_limits (SemT := SemT) data hd maxh in
  exists h, run_stores ops h0 = Some h /\ health_wf h
    /\ boot_fields <$> lanes h = boot_fields <$> lanes h0
    /\ forall r c, read_cell r h0 = Some c ->
         exists c', read_cell r h = Some c' /\ rtc (cell_step hd maxh) c c'.
Proof.
  intros Hd Hl Hops h0.
  destruct (run_stores_hstep ops h0) as (h & Hr & Hst).
  - by apply new_with_limits_wf.
  - unfold h0. simpl. by rewrite length_fmap.
  - exists h. split_and!; [done|apply Hst|apply Hst|]. apply Hst.
Qed.

Definition demo_store_ops : list StoreOp :=
  [SAdmit "team" 0 1000; SFailure "team" 0 1001 BreakerCfg_default (Some 30) demo_entropy;
   SDropPermit 0 Bounded; SHardDownAll 0 "quota" 1002; SSelect "team" [0%nat; 1%nat] [3; 1] 1003;
   SRecover 0 2000; SSuccess "team" 0 2001].

Lemma store_invariant_witness :
  exists h, run_stores demo_store_ops demo_store = Some h /\ health_wf h.
Proof.
  destruct (store_invariant [demo_lane "gpt-4o" 2; demo_lane "claude" 1] 1800 86400 demo_store_ops)
    as (h & Hr & Hw & _).
  - repeat constructor; simpl; try done; lia.
  - by split.
  - unfold demo_store_ops. repeat constructor; simpl; try done; try lia; set_solver.
  - exists h. done.
Defined.
