(* ===== verification/Classifier.v ===== *)
(** * Classifier

    The two-stage error disposition of [crates/busbar/src/breaker.rs]: stage 1
    normalises a raw upstream error (HTTP status, provider code, structured type)
    through the operator's [error_map] into a canonical signal; stage 2 maps the
    signal to what happens to the lane.  [httpdate]'s date parser is code of a
    dependency and a parameter; the wall clock is an argument in nanoseconds. *)

From S2P Require Import Prelude HealthState.

Definition HTTP_OVERLOADED : Z := 529.

Inductive StatusClass :=
  | RateLimit
  | Overloaded
  | ServerError
  | Timeout
  | Network
  | Auth
  | Billing
  | ClientError
  | ContextLength.

Inductive Disposition :=
  | D_ClientFault
  | D_TransientUpstream
  | D_HardDown
  | D_ContextLength.

#[export] Instance StatusClass_eq_dec : EqDecision StatusClass.
Proof. solve_decision. Defined.
#[export] Instance Disposition_eq_dec : EqDecision Disposition.
Proof. solve_decision. Defined.

Definition status_class_from_str (s : string) : option StatusClass :=
  if String.eqb s "rate_limit" then Some RateLimit
  else if String.eqb s "overloaded" then Some Overloaded
  else if String.eqb s "server_error" then Some ServerError
  else if String.eqb s "timeout" then Some Timeout
  else if String.eqb s "network" then Some Network
  else if String.eqb s "auth" then Some Auth
  else if String.eqb s "billing" then Some Billing
  else if String.eqb s "client_error" then Some ClientError
  else if String.eqb s "context_length" then Some ContextLength
  else None.

Record CanonicalSignal := mkSignal {
  class : StatusClass;
  provider_signal : option string;
  retry_after : option Z;
}.

(** The logged-once set of unrecognised [error_map] values: [true] when a warning is
    emitted. *)
Definition warn_unrecognized_error_map_value (value : string) (seen : gset string)
    : bool * gset string := (bool_decide (value ∉ seen), {[value]} ∪ seen).

Definition classify_signal (sig : CanonicalSignal) : Disposition :=
  match class sig with
  | RateLimit | Overloaded | ServerError | Timeout | Network => D_TransientUpstream
  | Auth | Billing => D_HardDown
  | ClientError => D_ClientFault
  | ContextLength => D_ContextLength
  end.

Record RawUpstreamError := mkRaw {
  http_status : Z;
  provider_code : option string;
  structured_type : option string;
  retry_after_secs : option Z;
}.

(** ** [Retry-After] *)

(** [str::trim] on a header value (visible ASCII, spaces and tabs). *)
Definition is_ws (a : Ascii.ascii) : bool :=
  match Ascii.N_of_ascii a with 32%N | 9%N => true | _ => false end.
Fixpoint trim_start (l : list Ascii.ascii) : list Ascii.ascii :=
  match l with
  | a :: l' => if is_ws a then trim_start l' else l
  | [] => []
  end.
Definition trim (l : list Ascii.ascii) : list Ascii.ascii :=
  reverse (trim_start (reverse (trim_start l))).

(** [str::parse::<u64>]: an optional plus sign, at least one digit, checked arithmetic. *)
Definition digit (a : Ascii.ascii) : option Z :=
  let n := Z.of_N (Ascii.N_of_ascii a) in
  if (48 <=? n) && (n <=? 57) then Some (n - 48) else None.
Fixpoint parse_digits (acc : Z) (l : list Ascii.ascii) : option Z :=
  match l with
  | [] => Some acc
  | a :: l =>
      d ← digit a;
      acc ← try_u64 (acc * 10);
      acc ← try_u64 (acc + d);
      parse_digits acc l
  end.
Definition parse_u64 (l : list Ascii.ascii) : option Z :=
  let body := match l with
              | a :: l' => if Z.of_N (Ascii.N_of_ascii a) =? 43 then l' else l
              | [] => l
              end in
  match body with [] => None | _ => parse_digits 0 body end.

Section retry_after.
(** [httpdate::parse_http_date]: the instant, in seconds since the epoch. *)
Context (parse_http_date : list Ascii.ascii -> option Z).

(** [header] is the value when present and visible ASCII ([headers.get], [to_str]). *)
Definition parse_retry_after (header : option (list Ascii.ascii)) (now_ns : Z) : option Z :=
  s ← header;
  let s := trim s in
  match parse_u64 s with
  | Some n => Some n
  | None =>
      at_ ← parse_http_date s;
      Some (Z.max (at_ * 1000000000 - now_ns) 0 / 1000000000)
  end.
End retry_after.

(** ** Stage 1 *)

Definition PROVIDER_CODE_CONTEXT_LENGTH : string := "context_length_exceeded".

Definition is_5xx (status : Z) : bool := (500 <=? status) && (status <? 600).

(** The guard of both mapped paths: a mapping to [ContextLength] never applies to a 5xx. *)
Definition mapping_applies (c : StatusClass) (status : Z) : bool :=
  negb (bool_decide (c = ContextLength) && is_5xx status).

Definition class_of_status (http_status : Z) : StatusClass :=
  if (http_status =? 401) || (http_status =? 403) then Auth
  else if http_status =? 429 then RateLimit
  else if http_status =? 408 then Timeout
  else if http_status =? HTTP_OVERLOADED then Overloaded
  else if is_5xx http_status then ServerError
  else if (400 <=? http_status) && (http_status <? 500) then ClientError
  else ClientError.

(** Step 1, on the provider code: [inl] returns a signal, [inr] falls through with the
    provider signal collected so far. *)
Definition normalize_code (raw : RawUpstreamError) (error_map : gmap string string)
    (code : string) (seen : gset string) : (CanonicalSignal + option string) * gset string :=
  let sig c := inl (mkSignal c (Some code) (retry_after_secs raw)) in
  let builtin :=
    if String.eqb code PROVIDER_CODE_CONTEXT_LENGTH
       && ((http_status raw =? 400) || (http_status raw =? 413))
    then sig ContextLength else inr (Some code) in
  match error_map !! code with
  | Some mapped_class =>
      match status_class_from_str mapped_class with
      | Some c =>
          if mapping_applies c (http_status raw) then (sig c, seen) else (builtin, seen)
      | None => (builtin, (warn_unrecognized_error_map_value mapped_class seen).2)
      end
  | None => (builtin, seen)
  end.

(** Step 1b, on the structured type. *)
Definition normalize_type (raw : RawUpstreamError) (error_map : gmap string string)
    (ty : string) (provider_signal : option string) (seen : gset string)
    : option CanonicalSignal * gset string :=
  match error_map !! ty with
  | Some m =>
      match status_class_from_str m with
      | Some c =>
          (if mapping_applies c (http_status raw)
           then Some (mkSignal c (match provider_signal with
                                  | Some p => Some p | None => Some ty end)
                       (retry_after_secs raw))
           else None, seen)
      | None => (None, (warn_unrecognized_error_map_value m seen).2)
      end
  | None => (None, seen)
  end.

Definition normalize_raw_error (raw : RawUpstreamError) (error_map : gmap string string)
    (seen : gset string) : CanonicalSignal * gset string :=
  let '(step1, seen) :=
    match provider_code raw with
    | Some code => normalize_code raw error_map code seen
    | None => (inr None, seen)
    end in
  match step1 with
  | inl sig => (sig, seen)
  | inr provider_signal =>
      let '(step1b, seen) :=
        match structured_type raw with
        | Some ty => normalize_type raw error_map ty provider_signal seen
        | None => (None, seen)
        end in
      match step1b with
      | Some sig => (sig, seen)
      | None =>
          (mkSignal (class_of_status (http_status raw)) provider_signal (retry_after_secs raw),
           seen)
      end
  end.

(** ** Lemmas *)

Lemma class_of_status_5xx st :
  is_5xx st = true -> class_of_status st = ServerError \/ class_of_status st = Overloaded.
Proof.
  intros H5. pose proof H5 as Hr. unfold is_5xx in Hr. zbool.
  unfold class_of_status, HTTP_OVERLOADED.
  assert (st =? 401 = false) as -> by (apply Z.eqb_neq; lia).
  assert (st =? 403 = false) as -> by (apply Z.eqb_neq; lia).
  assert (st =? 429 = false) as -> by (apply Z.eqb_neq; lia).
  assert (st =? 408 = false) as -> by (apply Z.eqb_neq; lia). simpl.
  rewrite H5. destruct (st =? 529); auto.
Qed.

Lemma class_of_status_not_context st : class_of_status st <> ContextLength.
Proof. unfold class_of_status. repeat case_match; done. Qed.

(** Whatever path produced the signal, it is a mapped class that applies, the built-in
    oversized-request rule, or the status table. *)
Lemma normalize_cases raw error_map seen :
  let sig := (normalize_raw_error raw error_map seen).1 in
  retry_after sig = retry_after_secs raw
  /\ ((exists k m c, (provider_code raw = Some k \/ structured_type raw = Some k)
        /\ error_map !! k = Some m /\ status_class_from_str m = Some c
        /\ mapping_applies c (http_status raw) = true /\ class sig = c)
      \/ (class sig = ContextLength /\ provider_code raw = Some PROVIDER_CODE_CONTEXT_LENGTH
          /\ (http_status raw = 400 \/ http_status raw = 413))
      \/ class sig = class_of_status (http_status raw)).
Proof.
  unfold normalize_raw_error, normalize_code, normalize_type. simpl.
  repeat (case_match; simplify_eq/=); split; try done;
    try (right; right; done);
    try (left; do 3 eexists; split_and!; eauto; done).
  all: right; left; zbool;
    match goal with Hs : String.eqb _ _ = true |- _ => apply String.eqb_eq in Hs as -> end;
    split_and!; [done|congruence|].
  all: match goal with Ho : (_ || _) = true |- _ => apply orb_true_iff in Ho as [Ho|Ho]; zbool; auto end.
Qed.

(** Neither signal is mapped by the operator to a recognised class. *)
Definition unmapped (raw : RawUpstreamError) (error_map : gmap string string) : Prop :=
  forall k, provider_code raw = Some k \/ structured_type raw = Some k ->
    (error_map !! k ≫= status_class_from_str) = None.

(** The status table, as dispositions. *)
Definition table_disposition (st : Z) : Disposition :=
  if (st =? 401) || (st =? 403) then D_HardDown
  else if (st =? 429) || (st =? 408) || is_5xx st then D_TransientUpstream
  else D_ClientFault.

Lemma class_table st ps ra :
  classify_signal (mkSignal (class_of_status st) ps ra) = table_disposition st.
Proof.
  unfold classify_signal, class_of_status, table_disposition. simpl.
  destruct ((st =? 401) || (st =? 403)); [done|]. destruct (st =? 429); [done|].
  destruct (st =? 408); [done|]. simpl. destruct (st =? HTTP_OVERLOADED) eqn:E9.
  - zbool. unfold is_5xx. rewrite E9. done.
  - destruct (is_5xx st); [done|]. by destruct (_ && _).
Qed.

Lemma normalize_code_unmapped raw error_map code seen :
  (error_map !! code ≫= status_class_from_str) = None ->
  exists seen', normalize_code raw error_map code seen
    = (if String.eqb code PROVIDER_CODE_CONTEXT_LENGTH
          && ((http_status raw =? 400) || (http_status raw =? 413))
       then inl (mkSignal ContextLength (Some code) (retry_after_secs raw)) else inr (Some code),
       seen').
Proof.
  intros Hcode. unfold normalize_code. destruct (error_map !! code) as [m|]; simpl in Hcode; [|eauto].
  rewrite Hcode. eauto.
Qed.

Lemma rest_unmapped raw error_map ps seen :
  unmapped raw error_map ->
  classify_signal (let '(step1b, seen0) := match structured_type raw with
      | Some ty => normalize_type raw error_map ty ps seen | None => (None, seen) end in
    match step1b with Some sig => (sig, seen0)
    | None => (mkSignal (class_of_status (http_status raw)) ps (retry_after_secs raw), seen0)
    end).1 = table_disposition (http_status raw).
Proof.
  intros Hun. destruct (structured_type raw) as [ty|] eqn:Et; [|apply class_table].
  pose proof (Hun ty (or_intror Et)) as Hn. unfold normalize_type.
  destruct (error_map !! ty) as [m|]; simpl in Hn; [rewrite Hn|]; apply class_table.
Qed.

(** ** Decimal delay-seconds *)

Definition digits_value (acc : Z) (ds : list Z) : Z := foldl (fun a d => a * 10 + d) acc ds.

Lemma digits_value_ge ds acc : 0 <= acc -> Forall (fun d => 0 <= d) ds -> acc <= digits_value acc ds.
Proof.
  intros Ha Hd. revert acc Ha. induction Hd as [|d ds Hd _ IH]; simpl; intros acc Ha; [lia|].
  etransitivity; [|apply IH]; lia.
Qed.

Lemma parse_digits_value l ds acc :
  0 <= acc -> mapM digit l = Some ds ->
  parse_digits acc l = if digits_value acc ds <=? U64_MAX then Some (digits_value acc ds)
                       else if bool_decide (ds = []) then Some acc else None.
Proof.
  revert ds acc. induction l as [|a l IH]; intros ds acc Ha Hds; simpl in *.
  { injection Hds as <-. simpl. by destruct (_ <=? _). }
  apply bind_Some_inv in Hds as (d & Hd & Hds). apply bind_Some_inv in Hds as (ds' & Hds' & Heq).
  injection Heq as <-. rewrite Hd. simpl.
  assert (0 <= d <= 9) as Hd9.
  { unfold digit in Hd. case_match eqn:E; simplify_eq. zbool. lia. }
  assert (Forall (fun d => 0 <= d) ds') as Hpos.
  { clear -Hds'. revert ds' Hds'. induction l as [|b l IH]; intros ds' Hds'; simpl in Hds'.
    - injection Hds' as <-. constructor.
    - apply bind_Some_inv in Hds' as (x & Hx & Hds'). apply bind_Some_inv in Hds' as (y & Hy & Heq).
      injection Heq as <-. constructor; [|eauto]. unfold digit in Hx. case_match eqn:E; simplify_eq.
      zbool. lia. }
  pose proof (digits_value_ge ds' (acc * 10 + d) ltac:(lia) Hpos) as Hge.
  rewrite (try_u64_nonneg (acc * 10)) by lia.
  destruct (acc * 10 <=? U64_MAX) eqn:E1; zbool; simpl.
  - rewrite (try_u64_nonneg (acc * 10 + d)) by lia.
    destruct (acc * 10 + d <=? U64_MAX) eqn:E2; zbool; simpl.
    + rewrite (IH ds') by (done || lia). simpl.
      destruct (digits_value (acc * 10 + d) ds' <=? U64_MAX) eqn:E3; [done|]. zbool.
      destruct ds'; [simpl in E3; lia|done].
    + destruct (digits_value (acc * 10 + d) ds' <=? U64_MAX) eqn:E3; [zbool; lia|done].
  - destruct (digits_value (acc * 10 + d) ds' <=? U64_MAX) eqn:E3; [zbool; lia|done].
Qed.

Lemma trim_start_ws ws l : Forall (fun a => is_ws a = true) ws -> trim_start (ws ++ l) = trim_start l.
Proof. induction 1 as [|a ws Ha _ IH]; simpl; [done|]. by rewrite Ha. Qed.

Lemma trim_start_id a l : is_ws a = false -> trim_start (a :: l) = a :: l.
Proof. simpl. by intros ->. Qed.

Lemma digit_not_ws a d : digit a = Some d -> is_ws a = false.
Proof.
  unfold digit, is_ws. intros Hd. case_match eqn:E; [|done]. zbool.
  destruct (Ascii.N_of_ascii a) as [|p]; [done|].
  do 7 (destruct p as [p|p|]; try done; try lia).
Qed.

Lemma digits_Forall l ds : mapM digit l = Some ds -> Forall (fun a => is_ws a = false) l.
Proof.
  revert ds. induction l as [|a l IH]; intros ds Hds; [constructor|]. simpl in Hds.
  apply bind_Some_inv in Hds as (d & Hd & Hds). apply bind_Some_inv in Hds as (ds' & Hds' & _).
  constructor; [by eapply digit_not_ws|eauto].
Qed.

Lemma trim_digits ws1 ws2 l ds :
  Forall (fun a => is_ws a = true) ws1 -> Forall (fun a => is_ws a = true) ws2 ->
  mapM digit l = Some ds -> l <> [] -> trim (ws1 ++ l ++ ws2) = l.
Proof.
  intros H1 H2 Hds Hne. pose proof (digits_Forall _ _ Hds) as Hl. unfold trim.
  rewrite trim_start_ws by done. destruct l as [|a l]; [done|].
  pose proof Hl as Hl'. apply Forall_cons in Hl' as [Ha _].
  simpl app at 1. rewrite trim_start_id by done.
  rewrite app_comm_cons, reverse_app, trim_start_ws by (by apply Forall_reverse).
  destruct (reverse (a :: l)) as [|b r] eqn:Er.
  - apply (f_equal length) in Er. rewrite length_reverse in Er. done.
  - apply Forall_reverse in Hl. rewrite Er in Hl. apply Forall_cons in Hl as [Hb _].
    rewrite trim_start_id by done. rewrite <- Er. apply reverse_involutive.
Qed.

Lemma digit_not_plus a d : digit a = Some d -> (Z.of_N (Ascii.N_of_ascii a) =? 43) = false.
Proof. unfold digit. intros Hd. case_match eqn:E; [|done]. zbool. apply Z.eqb_neq. lia. Qed.

(** ** Properties *)

(** An upstream outage is never waved through: whatever the operator's error map and the
    provider's code and type say, a 5xx response is never given the no-penalty context-length
    disposition; when the operator maps neither signal it always counts against the lane as a
    transient upstream failure; and the [Retry-After] hint always reaches the signal. *)
Theorem outage_is_never_masked raw error_map seen :
  is_5xx (http_status raw) = true ->
  let sig := (normalize_raw_error raw error_map seen).1 in
  classify_signal sig <> D_ContextLength
  /\ (unmapped raw error_map -> classify_signal sig = D_TransientUpstream)
  /\ retry_after sig = retry_after_secs raw.
Proof.
  intros H5 sig. pose proof (normalize_cases raw error_map seen) as [Hra Hc]. fold sig in Hra, Hc.
  assert (H5' : is_5xx (http_status raw) = true -> http_status raw <> 400 /\ http_status raw <> 413).
  { unfold is_5xx. intros Hr. zbool. lia. }
  destruct (H5' H5) as [H400 H413].
  destruct Hc as [(k & m & c & Hk & Hm & Hs & Happ & Hcl)|[(_ & _ & [?|?])|Hcl]]; try done.
  - split_and!; [|intros Hun|done].
    + unfold classify_signal. rewrite Hcl. unfold mapping_applies in Happ. rewrite H5 in Happ.
      by destruct c.
    + specialize (Hun k Hk). by rewrite Hm in Hun; simpl in Hun; rewrite Hs in Hun.
  - unfold classify_signal. rewrite Hcl.
    destruct (class_of_status_5xx _ H5) as [-> | ->]; done.
Qed.

Lemma outage_is_never_masked_witness :
  classify_signal (normalize_raw_error
    (mkRaw 503 (Some "context_length_exceeded"%string) (Some "ctx"%string) (Some 7))
    (<["ctx"%string := "context_length"%string]> ∅) ∅).1 <> D_ContextLength.
Proof. by apply (outage_is_never_masked (mkRaw 503 _ _ (Some 7))). Defined.

(** Unmapped errors follow the published table: without an operator mapping, 401 and 403 take the
    lane hard down, 429, 408, 529 and every 5xx are transient, an oversized request (400 or 413 with the
    canonical provider code) fails over without penalty, and everything else is the
    caller's fault and records nothing against the lane. *)
Theorem unmapped_errors_follow_the_table raw error_map seen :
  unmapped raw error_map ->
  let st := http_status raw in
  classify_signal (normalize_raw_error raw error_map seen).1
  = if bool_decide (provider_code raw = Some PROVIDER_CODE_CONTEXT_LENGTH)
       && ((st =? 400) || (st =? 413)) then D_ContextLength
    else if (st =? 401) || (st =? 403) then D_HardDown
    else if (st =? 429) || (st =? 408) || is_5xx st then D_TransientUpstream
    else D_ClientFault.
Proof.
  intros Hun st. unfold normalize_raw_error. fold st.
  destruct (provider_code raw) as [code|] eqn:Ec;
    [|rewrite bool_decide_false by done; by apply rest_unmapped].
  destruct (normalize_code_unmapped raw error_map code seen) as [seen' ->]; [by apply Hun; left|].
  fold st. assert (bool_decide (Some code = Some PROVIDER_CODE_CONTEXT_LENGTH)
          = String.eqb code PROVIDER_CODE_CONTEXT_LENGTH) as ->.
  { destruct (String.eqb_spec code PROVIDER_CODE_CONTEXT_LENGTH) as [->|Hne].
    - by apply bool_decide_true.
    - apply bool_decide_false. congruence. }
  destruct (_ && _); [done|]. by apply rest_unmapped.
Qed.

Lemma unmapped_errors_follow_the_table_witness :
  classify_signal (normalize_raw_error (mkRaw 413 (Some "context_length_exceeded"%string) None None) ∅ ∅).1
  = D_ContextLength.
Proof.
  rewrite (unmapped_errors_follow_the_table
    (mkRaw 413 (Some "context_length_exceeded"%string) None None) ∅ ∅); [reflexivity|].
  intros k _. by rewrite lookup_empty.
Defined.

(** Both normative forms of [Retry-After] are honoured: a decimal delay that fits 64 bits is taken
    exactly, with or without surrounding blanks; a decimal that does not fit is not wrapped or
    truncated but handed to the date parser; and a date in the past means retry now, a date in the
    future its whole seconds - whatever the date parser is. *)
Theorem retry_after_forms parse_http_date ws1 l ws2 ds now_ns :
  Forall (fun a => is_ws a = true) ws1 -> Forall (fun a => is_ws a = true) ws2 ->
  mapM digit l = Some ds -> l <> [] ->
  let value := digits_value 0 ds in
  (value <= U64_MAX ->
     parse_retry_after parse_http_date (Some (ws1 ++ l ++ ws2)) now_ns = Some value)
  /\ (U64_MAX < value -> forall at_, parse_http_date l = Some at_ ->
     (at_ * 1000000000 <= now_ns ->
       parse_retry_after parse_http_date (Some (ws1 ++ l ++ ws2)) now_ns = Some 0)
     /\ (forall s, 0 <= s -> now_ns = (at_ - s) * 1000000000 ->
       parse_retry_after parse_http_date (Some (ws1 ++ l ++ ws2)) now_ns = Some s)).
Proof.
  intros H1 H2 Hds Hne value. unfold parse_retry_after. simpl.
  rewrite (trim_digits ws1 ws2 l ds) by done.
  assert (Hp : parse_u64 l = if value <=? U64_MAX then Some value else None).
  { unfold parse_u64. destruct l as [|a l]; [done|]. pose proof Hds as Hds'. simpl in Hds'.
    apply bind_Some_inv in Hds' as (d & Hd & Hds'). rewrite (digit_not_plus _ _ Hd).
    rewrite (parse_digits_value _ ds) by done.
    fold value. destruct (value <=? U64_MAX); [done|]. rewrite bool_decide_false; [done|].
    apply bind_Some_inv in Hds' as (ds' & _ & Heq). injection Heq as <-. done. }
  rewrite Hp. split.
  - intros Hle. apply Z.leb_le in Hle. by rewrite Hle.
  - intros Hgt at_ Hat. apply Z.leb_gt in Hgt. rewrite Hgt, Hat. simpl. split.
    + intros Hpast. by rewrite Z.max_r by lia.
    + intros s Hs ->. rewrite Z.max_l by lia. f_equal.
      replace (at_ * 1000000000 - (at_ - s) * 1000000000) with (s * 1000000000) by lia.
      by apply Z.div_mul.
Qed.

Definition chars (s : string) : list Ascii.ascii := String.list_ascii_of_string s.

Lemma retry_after_forms_witness :
  parse_retry_after (fun _ => None) (Some (chars " 120 ")) 0 = Some 120.
Proof.
  destruct (retry_after_forms (fun _ => None) (chars " ") (chars "120") (chars " ") [1; 2; 0] 0)
    as [Hv _]; [by repeat constructor|by repeat constructor|reflexivity|done|].
  apply Hv. by vm_compute.
Defined.
