(* ===== verification/Ir.v ===== *)
(** * Ir: the protocol-neutral request, response and stream events

    The superset representation of [ir/mod.rs] every protocol's reader and writer maps to and from.
    An [IrError] is the classifier's [CanonicalSignal]; what a reader returns is [Parsed]. *)

From S2P Require Import Prelude Float64 Breaker Json Classifier.

#[local] Open Scope Z_scope.

(** ** Errors *)

Abbreviation IrError := CanonicalSignal.

Definition SIGNAL_IR_PARSE : string := "ir_parse".
Definition parse_error : IrError := mkSignal ClientError (Some SIGNAL_IR_PARSE) None.

(** [Result<A, IrError>], with [?] as its bind. *)
Definition Parsed (A : Type) : Type := Result A IrError.

#[export] Instance Parsed_ret : MRet Parsed := fun A a => Ok a.
#[export] Instance Parsed_bind : MBind Parsed := fun A B f x =>
  match x with Ok a => f a | Err e => Err e end.

(** [opt.ok_or(parse error)?] *)
Definition ok_or {A} (o : option A) : Parsed A :=
  match o with Some a => Ok a | None => Err parse_error end.

(** [l.iter().map(f).collect::<Result<Vec<_>, _>>()]: the first error ends it. *)
Definition collect {A B} (f : A -> Parsed B) : list A -> Parsed (list B) :=
  fix go l :=
    match l with
    | [] => Ok []
    | a :: l => match f a with
                | Ok b => match go l with Ok k => Ok (b :: k) | Err e => Err e end
                | Err e => Err e
                end
    end.

(** ** Blocks *)

Inductive CacheKind := Ephemeral.
Record CacheControl := mkCache { cache_kind : CacheKind }.

Record IrCitation := mkCitation {
  ci_kind : option string;
  ci_cited_text : option string;
  ci_title : option string;
  ci_url : option string;
  ci_document_index : option Z;
  ci_start_index : option Z;
  ci_end_index : option Z;
  ci_encrypted_index : option string;
  ci_raw : option Value;
}.

Inductive IrImageSource :=
  | Base64 (media_type data : string)
  | Url (url : string)
  | Vendor (vendor : string) (value : Value).

Inductive IrBlock :=
  | BText (text : string) (cache_control : option CacheControl) (citations : list IrCitation)
  | BThinking (text : string) (signature : option string) (redacted : bool)
      (cache_control : option CacheControl)
  | BToolUse (id name : string) (input : Value) (cache_control : option CacheControl)
      (thought_signature : option string)
  | BToolResult (tool_use_id : string) (content : list IrBlock) (is_error : bool)
      (cache_control : option CacheControl)
  | BImage (source : IrImageSource) (cache_control : option CacheControl)
  | BJson (v : Value).

(** A text block with nothing attached, which every reader builds. *)
Definition plain_text (text : string) : IrBlock := BText text None [].

Inductive IrRole := RSystem | RUser | RAssistant | RTool.

#[export] Instance IrRole_eq_dec : EqDecision IrRole.
Proof. solve_decision. Defined.

Record IrMessage := mkMessage { msg_role : IrRole; msg_content : list IrBlock }.

Record IrTool := mkTool {
  t_name : string;
  t_description : option string;
  t_input_schema : Value;
  t_cache_control : option CacheControl;
  t_hosted : option Value;
}.

(** ** Requests *)

Inductive IrToolChoice := TcAuto | TcNone | TcRequired | TcTool (name : string).

Inductive IrReasoningEffort := Minimal | Low | Medium | High.

Inductive IrReasoningAsk :=
  | Effort (e : IrReasoningEffort)
  | Budget (n : Z)
  | Dynamic.

Record IrResponseFormat := mkFormat {
  rf_json : bool;
  rf_schema : option Value;
  rf_name : option string;
  rf_strict : option bool;
  rf_description : option string;
}.

(** The effort-to-budget table: minimal, low, medium, high. *)
Record Budgets := mkBudgets { bud_minimal : Z; bud_low : Z; bud_medium : Z; bud_high : Z }.

Definition REASONING_BUDGET_DEFAULTS : Budgets := mkBudgets 1024 4096 8192 16384.

Record IrRequest := mkRequest {
  rq_system : list IrBlock;
  rq_messages : list IrMessage;
  rq_tools : list IrTool;
  rq_max_tokens : option Z;
  rq_temperature : option f64;
  rq_top_p : option f64;
  rq_top_k : option Z;
  rq_frequency_penalty : option f64;
  rq_presence_penalty : option f64;
  rq_seed : option Z;
  rq_n : option Z;
  rq_reasoning : option IrReasoningAsk;
  rq_reasoning_budgets : option Budgets;
  rq_logprobs : option bool;
  rq_top_logprobs : option Z;
  rq_response_format : option IrResponseFormat;
  rq_stop : list string;
  rq_tool_choice : option IrToolChoice;
  rq_user : option string;
  rq_parallel_tool_calls : option bool;
  rq_stream : bool;
  rq_extra : list (string * Value);
}.

(** [IrRequest::default()] *)
Definition default_request : IrRequest :=
  mkRequest [] [] [] None None None None None None None None None None None None None [] None None None
    false [].

(** [read_stop_sequences] *)
Definition read_stop_sequences (val : option Value) : list string :=
  match val with
  | Some (Str s) => if is_empty s then [] else [s]
  | Some (Array arr) => List.filter (fun s => negb (is_empty s)) (omap as_str arr)
  | _ => []
  end.

Definition to_budget (ask : IrReasoningAsk) (table : Budgets) : Z :=
  match ask with
  | Budget n => n
  | Effort Minimal => bud_minimal table
  | Effort Low => bud_low table
  | Effort Medium => bud_medium table
  | Effort High => bud_high table
  | Dynamic => bud_medium table
  end.

Definition to_effort (ask : IrReasoningAsk) (table : Budgets) : IrReasoningEffort :=
  match ask with
  | Effort e => e
  | Dynamic => Medium
  | Budget n =>
      if bud_high table <=? n then High
      else if bud_medium table <=? n then Medium
      else if bud_low table <=? n then Low
      else Minimal
  end.

(** [IrReasoningEffort::as_str] *)
Definition effort_str (e : IrReasoningEffort) : string :=
  match e with Minimal => "minimal" | Low => "low" | Medium => "medium" | High => "high" end.

Definition as_openai_reasoning_effort (e : IrReasoningEffort) : string :=
  match e with Minimal => "low" | other => effort_str other end.

(** [IrReasoningEffort::parse] *)
Definition parse_effort (s : string) : option IrReasoningEffort :=
  if String.eqb s "minimal" then Some Minimal
  else if String.eqb s "low" then Some Low
  else if String.eqb s "medium" then Some Medium
  else if String.eqb s "high" then Some High
  else None.

(** ** Responses *)

Inductive IrStopReason :=
  | EndTurn | StopSequence | MaxTokens | StopToolUse | Safety | Refusal | PauseTurn | StopError | Other.

#[export] Instance IrStopReason_eq_dec : EqDecision IrStopReason.
Proof. solve_decision. Defined.

Record IrTopLogprob := mkTop {
  tl_token : string;
  tl_logprob : f64;
  tl_bytes : option (list Z);
}.

Record IrTokenLogprob := mkLogprob {
  lp_token : string;
  lp_logprob : f64;
  lp_bytes : option (list Z);
  lp_top : list IrTopLogprob;
}.

Record IrResponse := mkResponse {
  rs_role : IrRole;
  rs_content : list IrBlock;
  rs_stop_reason : option IrStopReason;
  rs_usage : IrUsage;
  rs_model : option string;
  rs_id : option string;
  rs_created : option Z;
  rs_system_fingerprint : option string;
  rs_stop_sequence : option string;
  rs_logprobs : list IrTokenLogprob;
}.

(** ** Streams *)

Inductive IrBlockMeta :=
  | MText
  | MThinking
  | MToolUse (id name : string)
  | MImage.

Inductive IrDelta :=
  | TextDelta (s : string)
  | ThinkingDelta (s : string)
  | InputJsonDelta (s : string)
  | SignatureDelta (s : string)
  | RedactedReasoningDelta (s : string)
  | CitationsDelta (cs : list IrCitation)
  | LogprobsDelta (lps : list IrTokenLogprob).

Inductive IrStreamEvent :=
  | MessageStart (role : IrRole) (usage : option IrUsage) (id : option string) (created : option Z)
      (model : option string)
  | BlockStart (index : Z) (block : IrBlockMeta)
  | BlockDelta (index : Z) (delta : IrDelta)
  | BlockStop (index : Z)
  | MessageDelta (stop_reason : option IrStopReason) (stop_sequence : option string) (usage : IrUsage)
  | MessageStop
  | Error (e : IrError).

(** The state a reader keeps across the chunks of one stream. *)
Record StreamDecodeState := mkDecode {
  started : bool;
  text_block_open : bool;
  text_index : option Z;
  text_block_closed : bool;
  open_tools : gset Z;
  reasoning_seen : bool;
  thinking_block_open : bool;
  refusal_seen : bool;
  pending_stop_reason : option IrStopReason;
  tool_ir_index : gmap Z Z;
  next_ir_index : Z;
}.

Definition default_decode : StreamDecodeState :=
  mkDecode false false None false ∅ false false false None ∅ 0.

(** ** Blocks, by induction through tool results *)

Section IrBlock_ind.
Context (P : IrBlock -> Prop).
Context (Htext : forall t cc cs, P (BText t cc cs)).
Context (Hthinking : forall t sig r cc, P (BThinking t sig r cc)).
Context (Htool_use : forall id n i cc ts, P (BToolUse id n i cc ts)).
Context (Htool_result : forall id content e cc, Forall P content -> P (BToolResult id content e cc)).
Context (Himage : forall src cc, P (BImage src cc)).
Context (Hjson : forall v, P (BJson v)).

Fixpoint IrBlock_nested_ind (b : IrBlock) : P b :=
  match b with
  | BText t cc cs => Htext t cc cs
  | BThinking t sig r cc => Hthinking t sig r cc
  | BToolUse id n i cc ts => Htool_use id n i cc ts
  | BToolResult id content e cc =>
      Htool_result id content e cc
        ((fix go l : Forall P l :=
            match l with
            | [] => Forall_nil_2 P
            | b :: l => Forall_cons_2 P b l (IrBlock_nested_ind b) (go l)
            end) content)
  | BImage src cc => Himage src cc
  | BJson v => Hjson v
  end.
End IrBlock_ind.

(** ** Lemmas *)

Lemma Parsed_bind_Ok {A B} (x : Parsed A) (f : A -> Parsed B) b :
  (x ≫= f) = Ok b -> exists a, x = Ok a /\ f a = Ok b.
Proof. destruct x as [a|e]; [|done]. by exists a. Qed.

Lemma Parsed_bind_intro {A B} (x : Parsed A) (f : A -> Parsed B) a y : x = Ok a -> f a = y -> (x ≫= f) = y.
Proof. by intros -> <-. Qed.

Lemma ok_or_Ok {A} (o : option A) a : ok_or o = Ok a -> o = Some a.
Proof. destruct o; simpl; congruence. Qed.

Lemma collect_inverse {A B} (f : A -> Parsed B) (g : B -> A) l :
  Forall (fun b => f (g b) = Ok b) l -> collect f (g <$> l) = Ok l.
Proof. induction 1 as [|b l Hb Hl IH]; csimpl; [done|]. by rewrite Hb, IH. Qed.

Lemma collect_Ok {A B} (f : A -> Parsed B) l : forall k, collect f l = Ok k -> Forall2 (fun a b => f a = Ok b) l k.
Proof.
  induction l as [|a l IH]; simpl; intros k; [by intros [= <-]|].
  destruct (f a) as [b|e] eqn:E; [|done]. destruct (collect f l) as [k'|e]; [|done].
  intros [= <-]. by constructor; auto.
Qed.

Lemma collect_total {A B} (f : A -> Parsed B) l :
  Forall (fun a => exists b, f a = Ok b) l -> exists k, collect f l = Ok k.
Proof. induction 1 as [|a l [b Hb] Hl [k IH]]; simpl; [by eexists|]. rewrite Hb, IH. by eexists. Qed.

(** Take a parse that succeeded apart. *)
Ltac parsed_inv :=
  repeat (simplify_eq; match goal with
  | H : (_ ≫= _) = Ok _ |- _ => apply Parsed_bind_Ok in H; destruct H as (? & ? & H)
  | H : ok_or _ = Ok _ |- _ => apply ok_or_Ok in H
  end); simplify_eq.

(** * what a sequence of stream events may look like

    The grammar every consumer of a stream relies on, as an automaton over the events of [Ir]: the
    message starts once and first, a block is opened before it is added to or closed and is not open
    twice, and the message is concluded with no block open.  A reader that keeps to it is an instance of
    [BracketedReader]; what consumes a reader's events is proved against that interface. *)


(** Whether the message has started, and the indices of the open blocks. *)
Record Grammar := mkGrammar { g_started : bool; g_open : gset Z }.

Definition no_stream : Grammar := mkGrammar false ∅.

(** One event, or [None] where the grammar has no place for it. *)
Definition grammar_step (g : Grammar) (ev : IrStreamEvent) : option Grammar :=
  match ev with
  | MessageStart _ _ _ _ _ => if g_started g then None else Some (mkGrammar true (g_open g))
  | BlockStart i _ =>
      if negb (g_started g) || bool_decide (i ∈ g_open g) then None
      else Some (mkGrammar true ({[i]} ∪ g_open g))
  | BlockDelta i _ => if g_started g && bool_decide (i ∈ g_open g) then Some g else None
  | BlockStop i =>
      if g_started g && bool_decide (i ∈ g_open g) then Some (mkGrammar true (g_open g ∖ {[i]})) else None
  | MessageDelta (Some _) _ _ | MessageStop =>
      if g_started g && bool_decide (g_open g = ∅) then Some g else None
  | MessageDelta None _ _ => if g_started g then Some g else None
  | Error _ => Some g
  end.

Fixpoint grammar_run (g : Grammar) (evs : list IrStreamEvent) : option Grammar :=
  match evs with
  | [] => Some g
  | ev :: evs => g' ← grammar_step g ev; grammar_run g' evs
  end.

Lemma grammar_run_app g evs evs' : grammar_run g (evs ++ evs') = g' ← grammar_run g evs; grammar_run g' evs'.
Proof.
  revert g. induction evs as [|ev evs IH]; intros g; [done|]. simpl. destruct (grammar_step g ev); [apply IH|done].
Qed.

(** A reader of stream frames that keeps to the grammar from its initial state on, whatever it is fed. *)
Class BracketedReader (read : string -> Value -> StreamDecodeState -> list IrStreamEvent * StreamDecodeState) := {
  reader_ok : StreamDecodeState -> Prop;
  reader_view : StreamDecodeState -> Grammar;
  reader_starts : reader_ok default_decode /\ reader_view default_decode = no_stream;
  reader_steps : forall event_type data st, reader_ok st ->
    grammar_run (reader_view st) (read event_type data st).1 = Some (reader_view (read event_type data st).2)
    /\ reader_ok (read event_type data st).2;
}.

(** Frames in order. *)
Fixpoint read_frames (read : string -> Value -> StreamDecodeState -> list IrStreamEvent * StreamDecodeState)
    (frames : list (string * Value)) (st : StreamDecodeState) : list IrStreamEvent * StreamDecodeState :=
  match frames with
  | [] => ([], st)
  | (event_type, data) :: frames =>
      let '(out, st) := read event_type data st in
      let '(out', st) := read_frames read frames st in (out ++ out', st)
  end.

Lemma read_frames_cons read event_type data frames st :
  read_frames read ((event_type, data) :: frames) st =
  let first := read event_type data st in
  let others := read_frames read frames first.2 in (first.1 ++ others.1, others.2).
Proof. simpl. destruct (read event_type data st) as [out st']. simpl. by destruct (read_frames read frames st'). Qed.

Lemma bracketed_frames `{BracketedReader read} frames st :
  reader_ok st ->
  grammar_run (reader_view st) (read_frames read frames st).1 = Some (reader_view (read_frames read frames st).2)
  /\ reader_ok (read_frames read frames st).2.
Proof.
  revert st. induction frames as [|[et data] frames IH]; intros st Hst; simpl; [done|].
  destruct (reader_steps et data st Hst) as [H1 H2]. destruct (read et data st) as [out st'].
  destruct (IH st' H2) as [H3 H4]. destruct (read_frames read frames st') as [out' st'']. simpl in *.
  by rewrite grammar_run_app, H1.
Qed.

(** Distinct open blocks, closed one after the other. *)
Lemma close_all l : NoDup l -> grammar_run (mkGrammar true (list_to_set l)) (BlockStop <$> l) = Some (mkGrammar true ∅).
Proof.
  induction 1 as [|i l Hi Hl IH]; [done|]. csimpl. rewrite bool_decide_eq_true_2 by set_solver. simpl.
  replace (({[i]} ∪ list_to_set l) ∖ {[i]}) with (list_to_set (C := gset Z) l); [exact IH|].
  apply set_eq. intros x. rewrite elem_of_difference, elem_of_union, elem_of_list_to_set, elem_of_singleton.
  split; [intros Hx; split; [by right|by intros ->]|intros [[?|?] ?]; done].
Qed.

(** Blocks are open in a started message only. *)
Lemma grammar_started evs : forall g g',
  grammar_run g evs = Some g' -> (g_open g <> ∅ -> g_started g = true) -> g_open g' <> ∅ -> g_started g' = true.
Proof.
  induction evs as [|ev evs IH]; intros g g' Hrun Hg; [by simplify_eq/=|]. simpl in Hrun.
  destruct (grammar_step g ev) as [g1|] eqn:E; [|done]. apply (IH g1 g' Hrun). clear IH Hrun. intros Ho.
  destruct g as [st op], ev as [| | | |[r|] s u| |]; simpl in *; destruct st; simpl in *; repeat case_match; simplify_eq/=;
    auto.
Qed.
