(* ===== verification/ToolIds.v ===== *)
(** * ToolIds: tool-call identifiers across protocols

    [proto/mod.rs], lines 1209-1389: a backend's tool-call identifier reaches a client of another
    protocol in that protocol's own shape, with the original in it, and is decoded when the client
    replays it. Hexadecimal coding is the [hex] crate's and enters through the class below. *)

From S2P Require Import Prelude Breaker Json HookProjection Ir.

#[local] Open Scope Z_scope.

(** [hex::encode] and [hex::decode]: what is encoded decodes to itself, and only the empty string
    encodes to the empty string. *)
Class Hex := {
  hex_encode : string -> string;
  hex_decode : string -> option string;
  hex_decode_encode : forall s, hex_decode (hex_encode s) = Some s;
  hex_encode_empty : forall s, hex_encode s = ""%string -> s = ""%string;
}.

Definition native_tool_id_prefix (protocol_name : string) : option string :=
  if String.eqb protocol_name PROTO_ANTHROPIC then Some "toolu_"%string
  else if String.eqb protocol_name PROTO_OPENAI then Some "call_"%string
  else if String.eqb protocol_name PROTO_RESPONSES then Some "call_"%string
  else if String.eqb protocol_name PROTO_BEDROCK then Some "tooluse_"%string
  else if String.eqb protocol_name PROTO_COHERE then None
  else None.

Definition TOOL_ID_REMAP_MARKER : string := "bb1".

(** Visit a list with a state, [f] kept out of the recursion. *)
Definition visit {A B S} (f : A -> S -> B * S) : list A -> S -> list B * S :=
  fix go l st :=
    match l with
    | [] => ([], st)
    | a :: l => let '(b, st) := f a st in let '(k, st) := go l st in (b :: k, st)
    end.

(** [ToolIdRemap]: the identifiers of one response or stream, each minted once. *)
Abbreviation ToolIdRemap := (gmap string string).

Section with_hex.
Context `{Hex}.


Definition native_for (map : ToolIdRemap) (ingress_protocol egress_id : string) : string * ToolIdRemap :=
  match native_tool_id_prefix ingress_protocol with
  | None => (egress_id, map)
  | Some prefix =>
      match map !! egress_id with
      | Some existing => (existing, map)
      | None =>
          let native := prefix +:+ TOOL_ID_REMAP_MARKER +:+ hex_encode egress_id in
          (native, <[egress_id := native]> map)
      end
  end.

Fixpoint remap_block (ingress_protocol : string) (block : IrBlock) (map : ToolIdRemap) : IrBlock * ToolIdRemap :=
  match block with
  | BToolUse id name input cc ts =>
      let '(id, map) := native_for map ingress_protocol id in (BToolUse id name input cc ts, map)
  | BToolResult tool_use_id content e cc =>
      let '(tool_use_id, map) := native_for map ingress_protocol tool_use_id in
      let '(content, map) := visit (remap_block ingress_protocol) content map in
      (BToolResult tool_use_id content e cc, map)
  | BText _ _ _ | BThinking _ _ _ _ | BImage _ _ | BJson _ => (block, map)
  end.

Definition set_content (content : list IrBlock) (ir : IrResponse) : IrResponse :=
  {| rs_role := rs_role ir; rs_content := content; rs_stop_reason := rs_stop_reason ir;
     rs_usage := rs_usage ir; rs_model := rs_model ir; rs_id := rs_id ir; rs_created := rs_created ir;
     rs_system_fingerprint := rs_system_fingerprint ir; rs_stop_sequence := rs_stop_sequence ir;
     rs_logprobs := rs_logprobs ir |}.

Definition remap_response (map : ToolIdRemap) (ingress_protocol : string) (ir : IrResponse)
    : IrResponse * ToolIdRemap :=
  let '(content, map) := visit (remap_block ingress_protocol) (rs_content ir) map in
  (set_content content ir, map).

Definition remap_event (map : ToolIdRemap) (ingress_protocol : string) (event : IrStreamEvent)
    : IrStreamEvent * ToolIdRemap :=
  match event with
  | BlockStart index (MToolUse id name) =>
      let '(id, map) := native_for map ingress_protocol id in (BlockStart index (MToolUse id name), map)
  | event => (event, map)
  end.

Definition decode_native_tool_id (ingress_protocol id : string) : option string :=
  prefix ← native_tool_id_prefix ingress_protocol;
  rest ← strip_prefix prefix id;
  hexpart ← strip_prefix TOOL_ID_REMAP_MARKER rest;
  if is_empty hexpart then None
  else
    bytes ← hex_decode hexpart;
    from_utf8 bytes.

(** [if let Some(orig) = decode(id) { id = orig }] *)
Definition decode_id (ingress_protocol id : string) : string :=
  default id (decode_native_tool_id ingress_protocol id).

Fixpoint decode_block (ingress_protocol : string) (block : IrBlock) : IrBlock :=
  match block with
  | BToolUse id name input cc ts => BToolUse (decode_id ingress_protocol id) name input cc ts
  | BToolResult tool_use_id content e cc =>
      BToolResult (decode_id ingress_protocol tool_use_id) (map (decode_block ingress_protocol) content) e cc
  | BText _ _ _ | BThinking _ _ _ _ | BImage _ _ | BJson _ => block
  end.

Definition decode_request_tool_ids (ingress_protocol : string) (messages : list IrMessage) : list IrMessage :=
  (fun msg => mkMessage (msg_role msg) (map (decode_block ingress_protocol) (msg_content msg))) <$> messages.

(** [IrResp::prepare_for_ingress], for chat: the backend's identity goes, the client's takes over. *)
Definition prepare_for_ingress (ingress_protocol : string) (now_epoch : Z) (ir : IrResponse) : IrResponse :=
  (remap_response ∅ ingress_protocol
     {| rs_role := rs_role ir; rs_content := rs_content ir; rs_stop_reason := rs_stop_reason ir;
        rs_usage := rs_usage ir; rs_model := rs_model ir; rs_id := None;
        rs_created := Some (default now_epoch (rs_created ir));
        rs_system_fingerprint := None; rs_stop_sequence := None; rs_logprobs := rs_logprobs ir |}).1.

(** ** What is minted decodes *)

(** The identifiers a block carries. *)
Fixpoint block_ids (block : IrBlock) : list string :=
  match block with
  | BToolUse id _ _ _ _ => [id]
  | BToolResult id content _ _ => id :: flat_map block_ids content
  | _ => []
  end.

(** A backend's identifier: some text. *)
Definition id_ok (id : string) : Prop := id <> ""%string /\ valid_utf8 id = true.

(** The map holds what was minted for its keys. *)
Definition map_ok (p : string) (map : ToolIdRemap) : Prop :=
  forall id native, map !! id = Some native ->
    exists prefix, native_tool_id_prefix p = Some prefix
                   /\ native = prefix +:+ TOOL_ID_REMAP_MARKER +:+ hex_encode id.

Lemma map_ok_empty p : map_ok p ∅.
Proof. intros id native. by rewrite lookup_empty. Qed.

Definition minted (p id : string) : string :=
  match native_tool_id_prefix p with
  | Some prefix => prefix +:+ TOOL_ID_REMAP_MARKER +:+ hex_encode id
  | None => id
  end.

Lemma native_for_minted p map id :
  map_ok p map -> (native_for map p id).1 = minted p id /\ map_ok p (native_for map p id).2.
Proof.
  intros Hm. unfold native_for, minted. destruct (native_tool_id_prefix p) as [prefix|] eqn:Ep; [|done].
  destruct (map !! id) as [n|] eqn:El; simpl.
  - split; [|done]. destruct (Hm _ _ El) as (prefix' & Hp & ->). congruence.
  - split; [done|]. intros id' n'. destruct (decide (id = id')) as [<-|Hne].
    + rewrite lookup_insert. case_decide; [|done]. intros [= <-]. by exists prefix.
    + rewrite lookup_insert_ne by done. apply Hm.
Qed.

Lemma decode_minted p id : id_ok id -> decode_id p (minted p id) = id.
Proof.
  intros [Hne Hu]. unfold decode_id, minted, decode_native_tool_id.
  destruct (native_tool_id_prefix p) as [prefix|]; [|done]. simpl. rewrite strip_prefix_app. simpl.
  change ("" +:+ hex_encode id) with (hex_encode id). rewrite hex_decode_encode. simpl. unfold from_utf8. rewrite Hu.
  destruct (hex_encode id) eqn:E; [|done]. by apply hex_encode_empty in E.
Qed.

(** *** Through blocks and responses *)

Lemma visit_inverse {A B S} (f : A -> S -> B * S) (g : B -> A) (ok : S -> Prop) l : forall st,
  ok st -> Forall (fun a => forall st, ok st -> g (f a st).1 = a /\ ok (f a st).2) l ->
  map g (visit f l st).1 = l /\ ok (visit f l st).2.
Proof.
  induction l as [|a l IH]; intros st Hst Hl; simpl; [done|]. apply Forall_cons in Hl as [Ha Hl].
  destruct (f a st) as [b st'] eqn:Ef. destruct (Ha st Hst) as [H1 H2]. rewrite Ef in H1, H2. simpl in *.
  destruct (IH st' H2 Hl) as [H3 H4]. destruct (visit f l st') as [k st'']. simpl in *. by rewrite H1, H3.
Qed.

Lemma block_ids_round_trip p b : forall map,
  Forall id_ok (block_ids b) -> map_ok p map ->
  decode_block p (remap_block p b map).1 = b /\ map_ok p (remap_block p b map).2.
Proof.
  induction b as [| |id n i cc ts|id content e cc IH| |] using IrBlock_nested_ind; intros map Hids Hm; try done.
  - apply Forall_cons in Hids as [Hid _]. simpl. destruct (native_for_minted p map id Hm) as [Hn Hm'].
    destruct (native_for map p id) as [nid map']. simpl in *. subst. by rewrite decode_minted.
  - simpl in Hids. apply Forall_cons in Hids as [Hid Hin]. simpl.
    destruct (native_for_minted p map id Hm) as [Hn Hm'].
    destruct (native_for map p id) as [nid map']. simpl in *. subst.
    destruct (visit_inverse (remap_block p) (decode_block p) (map_ok p) content map' Hm') as [H1 H2].
    { rewrite Forall_forall in IH |- *. intros b Hb st Hst. apply IH; [done| |done].
      rewrite Forall_forall in Hin |- *. intros x Hx. apply Hin, list_elem_of_In, in_flat_map.
      exists b. by rewrite <- !list_elem_of_In. }
    destruct (visit (remap_block p) content map') as [content' map'']. simpl in *.
    by rewrite decode_minted, H1.
Qed.

(** What a client of any protocol is sent for a backend's tool-call identifiers is, when the client
    replays the turn in its history, decoded to the identifiers the backend issued: in the calls, in the
    results, in results nested in results, whatever else the turn holds. *)
Theorem tool_ids_round_trip p now r role :
  Forall id_ok (flat_map block_ids (rs_content r)) ->
  decode_request_tool_ids p [mkMessage role (rs_content (prepare_for_ingress p now r))]
  = [mkMessage role (rs_content r)].
Proof.
  intros Hids. unfold prepare_for_ingress, remap_response, decode_request_tool_ids. csimpl.
  destruct (visit_inverse (remap_block p) (decode_block p) (map_ok p) (rs_content r) ∅) as [H1 _].
  - apply map_ok_empty.
  - apply Forall_forall. intros b Hb st Hst. apply block_ids_round_trip; [|done].
    rewrite Forall_forall in Hids |- *. intros x Hx. apply Hids, list_elem_of_In, in_flat_map.
    exists b. by rewrite <- !list_elem_of_In.
  - destruct (visit (remap_block p) (rs_content r) ∅) as [content map']. simpl in *. by rewrite H1.
Qed.

(** Two calls of one turn never meet under one identifier. *)
Lemma minted_injective p id id' : id_ok id -> id_ok id' -> minted p id = minted p id' -> id = id'.
Proof. intros H1 H2 Hm. by rewrite <- (decode_minted p id H1), Hm, decode_minted. Qed.
End with_hex.

(** ** A concrete codec *)

Definition hex_digit (n : N) : Ascii.ascii :=
  Ascii.ascii_of_N (if (n <? 10)%N then 48 + n else 87 + n).
Definition hex_value (a : Ascii.ascii) : option N :=
  let n := Ascii.N_of_ascii a in
  if ((48 <=? n) && (n <? 58))%N then Some (n - 48)%N
  else if ((97 <=? n) && (n <? 103))%N then Some (n - 87)%N
  else None.

Fixpoint plain_hex_encode (s : string) : string :=
  match s with
  | EmptyString => EmptyString
  | String a s =>
      let n := Ascii.N_of_ascii a in
      String (hex_digit (n / 16)) (String (hex_digit (n mod 16)) (plain_hex_encode s))
  end.

Fixpoint plain_hex_decode (s : string) : option string :=
  match s with
  | EmptyString => Some EmptyString
  | String a (String b s) =>
      h ← hex_value a;
      l ← hex_value b;
      t ← plain_hex_decode s;
      Some (String (Ascii.ascii_of_N (h * 16 + l)) t)
  | _ => None
  end.

Lemma hex_digit_pair a :
  (h ← hex_value (hex_digit (Ascii.N_of_ascii a / 16));
   l ← hex_value (hex_digit (Ascii.N_of_ascii a mod 16));
   Some (Ascii.ascii_of_N (h * 16 + l))) = Some a.
Proof. destruct a as [[] [] [] [] [] [] [] []]; vm_compute; reflexivity. Qed.

Lemma plain_hex_decode_encode s : plain_hex_decode (plain_hex_encode s) = Some s.
Proof.
  induction s as [|a s IH]; [done|]. cbn [plain_hex_encode plain_hex_decode]. pose proof (hex_digit_pair a) as Ha.
  destruct (hex_value (hex_digit (Ascii.N_of_ascii a / 16))) as [h|]; [|done]. simpl in Ha |- *.
  destruct (hex_value (hex_digit (Ascii.N_of_ascii a mod 16))) as [l|]; [|done]. simpl in Ha |- *.
  rewrite IH. simpl. by simplify_eq.
Qed.

#[local] Instance plain_hex : Hex.
Proof.
  refine {| hex_encode := plain_hex_encode; hex_decode := plain_hex_decode |}.
  - exact plain_hex_decode_encode.
  - by destruct s.
Defined.

Definition demo_turn : IrResponse :=
  mkResponse RAssistant
    [plain_text "calling"; BToolUse "call_abc" "f" Null None None;
     BToolResult "call_x" [plain_text "ok"; BToolResult "call_y" [] false None] false None]
    None no_usage None None None None None [].

Lemma tool_ids_round_trip_witness :
  Forall id_ok (flat_map block_ids (rs_content demo_turn))
  /\ decode_request_tool_ids PROTO_ANTHROPIC
       [mkMessage RAssistant (rs_content (prepare_for_ingress PROTO_ANTHROPIC 7 demo_turn))]
     = [mkMessage RAssistant (rs_content demo_turn)]
  /\ rs_content (prepare_for_ingress PROTO_ANTHROPIC 7 demo_turn) <> rs_content demo_turn.
Proof.
  assert (H : Forall id_ok (flat_map block_ids (rs_content demo_turn))).
  { repeat constructor; done. }
  split; [exact H|]. split; [exact (tool_ids_round_trip PROTO_ANTHROPIC 7 demo_turn RAssistant H)|].
  vm_compute. discriminate.
Defined.
