(* ===== verification/EgressPrep.v ===== *)
(** * EgressPrep: a request on its way across protocols

    [IrReq::prepare_for_egress] ([ir/variant.rs]), for chat: what the seam between two protocols does to
    a request before the backend's writer sees it, and what every request is after it. *)

From S2P Require Import Prelude Float64 Breaker Json Ir ToolIds.

#[local] Open Scope Z_scope.

Definition GEMINI_SKIP_THOUGHT_SIGNATURE : string := "skip_thought_signature_validator".

Record EgressPrep := mkPrep {
  ep_ingress_protocol : string;
  ep_egress_requires_max_tokens : bool;
  ep_lane_default_max_tokens : option Z;
  ep_global_default_max_tokens : Z;
  ep_reasoning_allowed : bool;
  ep_reasoning_budgets : Budgets;
  ep_prompt_caching_allowed : bool;
  ep_cache_control_cap : option nat;
  ep_thought_signature_fill : bool;
}.

(** The [cache_control] of a block, and the block with another one; a JSON block has none. *)
Definition block_cache (b : IrBlock) : option CacheControl :=
  match b with
  | BText _ cc _ | BThinking _ _ _ cc | BToolUse _ _ _ cc _ | BToolResult _ _ _ cc | BImage _ cc => cc
  | BJson _ => None
  end.

Definition uncached (b : IrBlock) : IrBlock :=
  match b with
  | BText text _ citations => BText text None citations
  | BThinking text sig r _ => BThinking text sig r None
  | BToolUse id name input _ ts => BToolUse id name input None ts
  | BToolResult id content e _ => BToolResult id content e None
  | BImage source _ => BImage source None
  | BJson v => BJson v
  end.

Definition uncached_tool (t : IrTool) : IrTool :=
  mkTool (t_name t) (t_description t) (t_input_schema t) None (t_hosted t).

(** One step of the walk: the breakpoint stays while fewer than [cap] have been seen. *)
Definition take_breakpoint {A} (cache : A -> option CacheControl) (clear : A -> A) (cap : nat) (a : A)
    (seen : nat) : A * nat :=
  match cache a with
  | None => (a, seen)
  | Some _ => if (seen <? cap)%nat then (a, S seen) else (clear a, seen)
  end.

Definition walk_take (cap : nat) : list IrBlock -> nat -> list IrBlock * nat :=
  visit (take_breakpoint block_cache uncached cap).

Definition walk_message (cap : nat) (m : IrMessage) (seen : nat) : IrMessage * nat :=
  let '(content, seen) := walk_take cap (msg_content m) seen in (mkMessage (msg_role m) content, seen).

Definition map_content (f : list IrBlock -> list IrBlock) (m : IrMessage) : IrMessage :=
  mkMessage (msg_role m) (f (msg_content m)).

(** The sentinel for a call whose history has no signature to echo. *)
Definition fill_block (b : IrBlock) : IrBlock :=
  match b with
  | BToolUse id name input cc None => BToolUse id name input cc (Some GEMINI_SKIP_THOUGHT_SIGNATURE)
  | b => b
  end.

(** The three parts a cache breakpoint can stand in. *)
Record Parts := mkParts {
  p_system : list IrBlock;
  p_messages : list IrMessage;
  p_tools : list IrTool;
}.

Definition clear_breakpoints (p : Parts) : Parts :=
  mkParts (uncached <$> p_system p) (map_content (fmap uncached) <$> p_messages p)
    (uncached_tool <$> p_tools p).

Definition cap_breakpoints (cap : nat) (p : Parts) : Parts :=
  let '(system, seen) := walk_take cap (p_system p) 0%nat in
  let '(messages, seen) := visit (walk_message cap) (p_messages p) seen in
  let '(tools, seen) := visit (take_breakpoint t_cache_control uncached_tool cap) (p_tools p) seen in
  mkParts system messages tools.

(** The two cache gates in order: markers the lane does not take, then the dialect's cap. *)
Definition gate_breakpoints (prep : EgressPrep) (parts : Parts) : Parts :=
  let parts := if ep_prompt_caching_allowed prep then parts else clear_breakpoints parts in
  match ep_cache_control_cap prep with Some cap => cap_breakpoints cap parts | None => parts end.

Definition is_function_tool (t : IrTool) : bool := match t_hosted t with None => true | Some _ => false end.

Definition fill_signatures (prep : EgressPrep) (messages : list IrMessage) : list IrMessage :=
  if ep_thought_signature_fill prep then map_content (fmap fill_block) <$> messages else messages.

Section with_hex.
Context `{Hex}.

Definition prepare_for_egress (prep : EgressPrep) (ir : IrRequest) : IrRequest :=
  let max_tokens :=
    match rq_max_tokens ir with
    | None => if ep_egress_requires_max_tokens prep
              then Some (default (ep_global_default_max_tokens prep) (ep_lane_default_max_tokens prep))
              else None
    | some => some
    end in
  let messages := decode_request_tool_ids (ep_ingress_protocol prep) (rq_messages ir) in
  let n := match rq_n ir with Some n => if 1 <? n then Some 1 else Some n | None => None end in
  let '(reasoning, budgets) :=
    match rq_reasoning ir with
    | None => (None, rq_reasoning_budgets ir)
    | Some ask => if ep_reasoning_allowed prep then (Some ask, Some (ep_reasoning_budgets prep))
                  else (None, rq_reasoning_budgets ir)
    end in
  let parts := gate_breakpoints prep (mkParts (rq_system ir) messages (rq_tools ir)) in
  let tools := List.filter is_function_tool (p_tools parts) in
  let messages := fill_signatures prep (p_messages parts) in
  {| rq_system := p_system parts; rq_messages := messages; rq_tools := tools; rq_max_tokens := max_tokens;
     rq_temperature := rq_temperature ir; rq_top_p := rq_top_p ir; rq_top_k := rq_top_k ir;
     rq_frequency_penalty := rq_frequency_penalty ir; rq_presence_penalty := rq_presence_penalty ir;
     rq_seed := rq_seed ir; rq_n := n; rq_reasoning := reasoning; rq_reasoning_budgets := budgets;
     rq_logprobs := rq_logprobs ir; rq_top_logprobs := rq_top_logprobs ir;
     rq_response_format := rq_response_format ir; rq_stop := rq_stop ir; rq_tool_choice := rq_tool_choice ir;
     rq_user := rq_user ir; rq_parallel_tool_calls := rq_parallel_tool_calls ir; rq_stream := rq_stream ir;
     rq_extra := [] |}.
End with_hex.

(** ** The breakpoints of a request, in the order of the walk *)

Definition is_set {A} (o : option A) : bool := match o with Some _ => true | None => false end.

Definition breakpoints (p : Parts) : list bool :=
  (is_set ∘ block_cache <$> p_system p)
  ++ flat_map (fun m => is_set ∘ block_cache <$> msg_content m) (p_messages p)
  ++ (is_set ∘ t_cache_control <$> p_tools p).

Definition count_set (l : list bool) : nat := length (List.filter id l).

(** The reference: of a list of marks, the first [k] set ones stay. *)
Fixpoint keep_first (k : nat) (l : list bool) : list bool :=
  match l with
  | [] => []
  | true :: l => match k with O => false :: keep_first O l | S k => true :: keep_first k l end
  | false :: l => false :: keep_first k l
  end.

Lemma keep_first_count k l : count_set (keep_first k l) = Nat.min k (count_set l).
Proof.
  unfold count_set. revert k. induction l as [|[] l IH]; intros k; simpl; [lia| |apply IH].
  destruct k; simpl; rewrite IH; lia.
Qed.

Lemma keep_first_app k l l' :
  keep_first k (l ++ l') = keep_first k l ++ keep_first (k - count_set l) l'.
Proof.
  unfold count_set. revert k. induction l as [|[] l IH]; intros k; simpl.
  - by rewrite Nat.sub_0_r.
  - destruct k; simpl; f_equal; apply IH.
  - f_equal. apply IH.
Qed.

Section walk.
Context {A : Type} (cache : A -> option CacheControl) (clear : A -> A).
Context (cleared : forall a, cache (clear a) = None).

Lemma visit_take cap l : forall seen, (seen <= cap)%nat ->
  is_set ∘ cache <$> (visit (take_breakpoint cache clear cap) l seen).1
    = keep_first (cap - seen) (is_set ∘ cache <$> l)
  /\ (visit (take_breakpoint cache clear cap) l seen).2
     = Nat.min cap (seen + count_set (is_set ∘ cache <$> l)).
Proof.
  unfold count_set. induction l as [|a l IH]; intros seen Hseen; csimpl; [split; [done|lia]|].
  unfold take_breakpoint at 1 3. destruct (cache a) as [cc|] eqn:Ea.
  - destruct (seen <? cap)%nat eqn:E.
    + apply Nat.ltb_lt in E. destruct (IH (S seen)) as [H1 H2]; [lia|].
      destruct (visit (take_breakpoint cache clear cap) l (S seen)) as [k st]. csimpl in *.
      rewrite Ea, H1, H2. simpl. replace (cap - seen)%nat with (S (cap - S seen)) by lia. split; [done|lia].
    + apply Nat.ltb_ge in E. destruct (IH seen) as [H1 H2]; [lia|].
      destruct (visit (take_breakpoint cache clear cap) l seen) as [k st]. csimpl in *.
      rewrite cleared, H1, H2. simpl. replace (cap - seen)%nat with 0%nat by lia. split; [done|lia].
  - destruct (IH seen) as [H1 H2]; [lia|].
    destruct (visit (take_breakpoint cache clear cap) l seen) as [k st]. csimpl in *.
    rewrite Ea, H1, H2. simpl. split; [done|lia].
Qed.
End walk.

Lemma uncached_cache b : block_cache (uncached b) = None.
Proof. by destruct b. Qed.

Lemma visit_messages cap l : forall seen, (seen <= cap)%nat ->
  flat_map (fun m => is_set ∘ block_cache <$> msg_content m) (visit (walk_message cap) l seen).1
    = keep_first (cap - seen) (flat_map (fun m => is_set ∘ block_cache <$> msg_content m) l)
  /\ (visit (walk_message cap) l seen).2
     = Nat.min cap (seen + count_set (flat_map (fun m => is_set ∘ block_cache <$> msg_content m) l)).
Proof.
  induction l as [|m l IH]; intros seen Hseen; [split; [done|unfold count_set; simpl; lia]|].
  destruct (visit_take block_cache uncached uncached_cache cap (msg_content m) seen Hseen) as [H1 H2].
  cbn [visit flat_map]. unfold walk_message at 1 3. unfold walk_take.
  destruct (visit (take_breakpoint block_cache uncached cap) (msg_content m) seen) as [content seen'].
  cbn [fst snd] in H1, H2. destruct (IH seen') as [H3 H4]; [lia|].
  destruct (visit (walk_message cap) l seen') as [k seen'']. cbn [fst snd flat_map msg_content] in *.
  rewrite H1, H3, H4, keep_first_app.
  assert (Hc : count_set ((is_set ∘ block_cache <$> msg_content m)
                 ++ flat_map (fun m => is_set ∘ block_cache <$> msg_content m) l)
               = (count_set (is_set ∘ block_cache <$> msg_content m)
                  + count_set (flat_map (fun m => is_set ∘ block_cache <$> msg_content m) l))%nat).
  { unfold count_set. by rewrite List.filter_app, length_app. }
  rewrite Hc. split; [|lia]. f_equal.
  destruct (Nat.le_gt_cases (seen + count_set (is_set ∘ block_cache <$> msg_content m)) cap) as [Hle|Hgt].
  - f_equal. lia.
  - f_equal. lia.
Qed.

Lemma cap_breakpoints_spec cap p : breakpoints (cap_breakpoints cap p) = keep_first cap (breakpoints p).
Proof.
  unfold cap_breakpoints, breakpoints, walk_take.
  destruct (visit_take block_cache uncached uncached_cache cap (p_system p) 0) as [H1 H2]; [lia|].
  destruct (visit (take_breakpoint block_cache uncached cap) (p_system p) 0%nat) as [system seen].
  destruct (visit_messages cap (p_messages p) seen) as [H3 H4]; [simpl in H2; lia|].
  destruct (visit (walk_message cap) (p_messages p) seen) as [messages seen'].
  destruct (visit_take t_cache_control uncached_tool (fun _ => eq_refl) cap (p_tools p) seen') as [H5 H6];
    [simpl in H4; lia|].
  destruct (visit (take_breakpoint t_cache_control uncached_tool cap) (p_tools p) seen') as [tools seen''].
  cbn [fst snd p_system p_messages p_tools] in *. rewrite H1, H3, H5, !keep_first_app, Nat.sub_0_r.
  f_equal. f_equal; f_equal; lia.
Qed.

(** ** What every prepared request is *)

Definition parts_of (r : IrRequest) : Parts := mkParts (rq_system r) (rq_messages r) (rq_tools r).

(** Content but for its marks and the sentinel signatures. *)
Definition bare_block (b : IrBlock) : IrBlock :=
  match b with
  | BToolUse id name input _ _ => BToolUse id name input None None
  | b => uncached b
  end.

Definition bare_messages (ms : list IrMessage) : list IrMessage := map_content (fmap bare_block) <$> ms.

Lemma bare_uncached b : bare_block (uncached b) = bare_block b.
Proof. by destruct b. Qed.

Lemma bare_fill b : bare_block (fill_block b) = bare_block b.
Proof. by destruct b as [| |? ? ? ? []| | |]. Qed.

Lemma fill_cache b : block_cache (fill_block b) = block_cache b.
Proof. by destruct b as [| |? ? ? ? []| | |]. Qed.

Lemma bare_map f (l : list IrBlock) : (forall b, bare_block (f b) = bare_block b) -> bare_block <$> (f <$> l) = bare_block <$> l.
Proof. intros Hf. rewrite <- list_fmap_compose. apply list_fmap_ext. intros i b _. apply Hf. Qed.

Lemma bare_messages_map f ms :
  (forall b, bare_block (f b) = bare_block b) -> bare_messages (map_content (fmap f) <$> ms) = bare_messages ms.
Proof.
  intros Hf. unfold bare_messages. rewrite <- list_fmap_compose. apply list_fmap_ext. intros i m _.
  unfold compose, map_content. simpl. f_equal. by apply bare_map.
Qed.

Lemma bare_visit cap l : forall seen,
  bare_block <$> (visit (take_breakpoint block_cache uncached cap) l seen).1 = bare_block <$> l.
Proof.
  induction l as [|b l IH]; intros seen; [done|]. cbn [visit].
  destruct (take_breakpoint block_cache uncached cap b seen) as [b' st] eqn:E.
  assert (Hb : bare_block b' = bare_block b).
  { unfold take_breakpoint in E. destruct (block_cache b); [destruct (_ <? _)%nat|]; simplify_eq; try done.
    apply bare_uncached. }
  specialize (IH st). destruct (visit (take_breakpoint block_cache uncached cap) l st) as [k st'].
  csimpl in *. by rewrite Hb, IH.
Qed.

Lemma bare_visit_messages cap ms : forall seen, bare_messages (visit (walk_message cap) ms seen).1 = bare_messages ms.
Proof.
  unfold bare_messages. induction ms as [|m ms IH]; intros seen; [done|]. cbn [visit]. unfold walk_message at 1, walk_take.
  pose proof (bare_visit cap (msg_content m) seen) as Hb.
  destruct (visit (take_breakpoint block_cache uncached cap) (msg_content m) seen) as [content st].
  specialize (IH st). destruct (visit (walk_message cap) ms st) as [k st']. csimpl in *.
  unfold map_content at 1 3. simpl. by rewrite Hb, IH.
Qed.

Lemma bare_cap cap p :
  bare_messages (p_messages (cap_breakpoints cap p)) = bare_messages (p_messages p)
  /\ bare_block <$> p_system (cap_breakpoints cap p) = bare_block <$> p_system p.
Proof.
  unfold cap_breakpoints, walk_take. pose proof (bare_visit cap (p_system p) 0%nat) as H1.
  destruct (visit (take_breakpoint block_cache uncached cap) (p_system p) 0%nat) as [system seen].
  pose proof (bare_visit_messages cap (p_messages p) seen) as H2.
  destruct (visit (walk_message cap) (p_messages p) seen) as [messages seen'].
  by destruct (visit (take_breakpoint t_cache_control uncached_tool cap) (p_tools p) seen') as [tools seen''].
Qed.

Lemma marks_cleared p : count_set (breakpoints (clear_breakpoints p)) = 0%nat.
Proof.
  unfold count_set, breakpoints, clear_breakpoints. cbn [p_system p_messages p_tools].
  rewrite !List.filter_app.
  assert (H : forall l, List.filter id (is_set ∘ block_cache <$> (uncached <$> l)) = []).
  { induction l as [|b l IH]; [done|]. csimpl. by rewrite uncached_cache, IH. }
  rewrite H. simpl.
  assert (Hm : List.filter id (flat_map (fun m => is_set ∘ block_cache <$> msg_content m)
                 (map_content (fmap uncached) <$> p_messages p)) = []).
  { induction (p_messages p) as [|m ms IH]; [done|]. csimpl. by rewrite List.filter_app, H, IH. }
  rewrite Hm. simpl. induction (p_tools p) as [|t l IH]; [done|]. csimpl. apply IH.
Qed.

Lemma fill_marks ms :
  flat_map (fun m => is_set ∘ block_cache <$> msg_content m) (map_content (fmap fill_block) <$> ms)
  = flat_map (fun m => is_set ∘ block_cache <$> msg_content m) ms.
Proof.
  induction ms as [|m ms IH]; [done|]. csimpl. rewrite IH. f_equal. rewrite <- list_fmap_compose.
  apply list_fmap_ext. intros i b _. unfold compose. by rewrite fill_cache.
Qed.

Lemma tool_marks_le keep l :
  (count_set (is_set ∘ t_cache_control <$> List.filter keep l) <= count_set (is_set ∘ t_cache_control <$> l))%nat.
Proof.
  unfold count_set. induction l as [|t l IH]; [done|]. csimpl.
  destruct (keep t), (is_set (t_cache_control t)) eqn:E; csimpl; rewrite ?E; simpl; lia.
Qed.

Lemma count_set_app l l' : count_set (l ++ l') = (count_set l + count_set l')%nat.
Proof. unfold count_set. by rewrite List.filter_app, length_app. Qed.

(** A lane's terms, and what the seam did not touch. *)
Record fits_lane `{Hex} (prep : EgressPrep) (r r' : IrRequest) : Prop := {
  fl_max_tokens : ep_egress_requires_max_tokens prep = true -> is_Some (rq_max_tokens r');
  fl_single : forall n, rq_n r' = Some n -> n <= 1;
  fl_reasoning : forall ask, rq_reasoning r' = Some ask ->
    ep_reasoning_allowed prep = true /\ rq_reasoning r = Some ask
    /\ rq_reasoning_budgets r' = Some (ep_reasoning_budgets prep);
  fl_uncached : ep_prompt_caching_allowed prep = false -> count_set (breakpoints (parts_of r')) = 0%nat;
  fl_cap : forall cap, ep_cache_control_cap prep = Some cap -> (count_set (breakpoints (parts_of r')) <= cap)%nat;
  fl_hosted : Forall (fun t => t_hosted t = None) (rq_tools r');
  fl_signed : ep_thought_signature_fill prep = true ->
    Forall (fun m => Forall (fun b => match b with BToolUse _ _ _ _ ts => is_Some ts | _ => True end)
                       (msg_content m)) (rq_messages r');
  fl_extra : rq_extra r' = [];
  fl_messages : bare_messages (rq_messages r')
                = bare_messages (decode_request_tool_ids (ep_ingress_protocol prep) (rq_messages r));
  fl_system : bare_block <$> rq_system r' = bare_block <$> rq_system r;
}.

Lemma gate_spec prep p :
  bare_messages (p_messages (gate_breakpoints prep p)) = bare_messages (p_messages p)
  /\ bare_block <$> p_system (gate_breakpoints prep p) = bare_block <$> p_system p
  /\ (ep_prompt_caching_allowed prep = false -> count_set (breakpoints (gate_breakpoints prep p)) = 0%nat)
  /\ (forall cap, ep_cache_control_cap prep = Some cap ->
        (count_set (breakpoints (gate_breakpoints prep p)) <= cap)%nat).
Proof.
  unfold gate_breakpoints. set (p' := if ep_prompt_caching_allowed prep then p else clear_breakpoints p).
  assert (H : bare_messages (p_messages p') = bare_messages (p_messages p)
              /\ bare_block <$> p_system p' = bare_block <$> p_system p
              /\ (ep_prompt_caching_allowed prep = false -> count_set (breakpoints p') = 0%nat)).
  { unfold p'. destruct (ep_prompt_caching_allowed prep); [done|]. split; [|split].
    - apply bare_messages_map, bare_uncached.
    - apply bare_map, bare_uncached.
    - intros _. apply marks_cleared. }
  destruct H as (Hm & Hs & Hc). clearbody p'. destruct (ep_cache_control_cap prep) as [cap|]; [|done].
  destruct (bare_cap cap p') as [Hm' Hs']. rewrite cap_breakpoints_spec, keep_first_count, Hm', Hs'.
  split; [done|]. split; [done|]. split; [intros H; specialize (Hc H); lia|]. intros cap' [= <-]. lia.
Qed.

Lemma bare_fill_signatures prep ms : bare_messages (fill_signatures prep ms) = bare_messages ms.
Proof.
  unfold fill_signatures. destruct (ep_thought_signature_fill prep); [|done]. apply bare_messages_map, bare_fill.
Qed.

Lemma marks_le prep system messages tools :
  (count_set (breakpoints (mkParts system (fill_signatures prep messages) (List.filter is_function_tool tools)))
   <= count_set (breakpoints (mkParts system messages tools)))%nat.
Proof.
  unfold breakpoints, fill_signatures. cbn [p_system p_messages p_tools]. rewrite !count_set_app.
  pose proof (tool_marks_le is_function_tool tools).
  destruct (ep_thought_signature_fill prep); rewrite ?fill_marks; lia.
Qed.

Lemma filled_signatures prep ms :
  ep_thought_signature_fill prep = true ->
  Forall (fun m => Forall (fun b => match b with BToolUse _ _ _ _ ts => is_Some ts | _ => True end)
                     (msg_content m)) (fill_signatures prep ms).
Proof.
  unfold fill_signatures. intros ->. apply Forall_forall. intros m Hin.
  apply list_elem_of_fmap in Hin as (m' & -> & _). apply Forall_forall. intros b Hb.
  simpl in Hb. apply list_elem_of_fmap in Hb as (b' & -> & _).
  destruct b' as [| |? ? ? ? []| | |]; simpl; try done; by eexists.
Qed.

(** C17. Every request that crosses to another protocol fits the lane it goes to: [max_tokens] where the
    backend requires it, one candidate, thinking only where the lane declares it and under the operator's
    budgets, no cache mark where the lane has none and never more than the dialect's cap, no hosted tool,
    a signature on every call where the backend insists, nothing of the caller's private parameters; and
    the conversation itself is the caller's, tool identifiers restored, but for those marks. *)
Theorem prepared_request_fits_the_lane `{Hex} prep r : fits_lane prep r (prepare_for_egress prep r).
Proof.
  unfold prepare_for_egress.
  set (p := mkParts (rq_system r) (decode_request_tool_ids (ep_ingress_protocol prep) (rq_messages r)) (rq_tools r)).
  destruct (gate_spec prep p) as (Hm & Hs & Hclear & Hcap). destruct (gate_breakpoints prep p) as [system messages tools].
  pose proof (marks_le prep system messages tools) as Hle. cbn [p_system p_messages p_tools] in *.
  destruct (match rq_reasoning r with Some ask => _ | None => _ end) as [reasoning budgets] eqn:Er.
  split; unfold parts_of;
    cbn [rq_max_tokens rq_n rq_reasoning rq_reasoning_budgets rq_tools rq_messages rq_extra rq_system].
  - intros ->. destruct (rq_max_tokens r); by eexists.
  - intros n. destruct (rq_n r) as [n'|]; [|done]. destruct (1 <? n') eqn:E; intros [= <-]; zbool; lia.
  - intros ask ->. destruct (rq_reasoning r) as [a|]; [|by simplify_eq].
    destruct (ep_reasoning_allowed prep); by simplify_eq.
  - intros Hc. specialize (Hclear Hc). lia.
  - intros cap Hc. specialize (Hcap cap Hc). lia.
  - apply Forall_forall. intros t Ht. apply list_elem_of_In, filter_In in Ht as [_ Ht].
    unfold is_function_tool in Ht. by destruct (t_hosted t).
  - apply filled_signatures.
  - done.
  - rewrite bare_fill_signatures. exact Hm.
  - exact Hs.
Qed.
