(* ===== verification/Anthropic.v ===== *)
(** * Anthropic: reader and writer of the Messages protocol

    [proto/anthropic/{mod,reader,writer}.rs]: the wire objects of the Messages API to and from the
    representation of [Ir].  The identifiers the writer mints come from the operating system's random
    numbers; [synth_id_with_prefix] is modelled on the batches they deliver, and the writers take the
    minted identifier as an argument. *)

From S2P Require Import Prelude Float64 Breaker Json Classifier Ir.

#[local] Open Scope Z_scope.

(** ** Constants *)

Definition EVT_MESSAGE_START : string := "message_start".
Definition EVT_CONTENT_BLOCK_START : string := "content_block_start".
Definition EVT_CONTENT_BLOCK_DELTA : string := "content_block_delta".
Definition EVT_CONTENT_BLOCK_STOP : string := "content_block_stop".
Definition EVT_MESSAGE_DELTA : string := "message_delta".
Definition EVT_MESSAGE_STOP : string := "message_stop".

Definition DELTA_TYPE_TEXT : string := "text_delta".
Definition DELTA_TYPE_THINKING : string := "thinking_delta".
Definition DELTA_TYPE_INPUT_JSON : string := "input_json_delta".
Definition DELTA_TYPE_SIGNATURE : string := "signature_delta".
Definition DELTA_TYPE_CITATIONS : string := "citations_delta".

Definition STOP_END_TURN : string := "end_turn".
Definition STOP_MAX_TOKENS : string := "max_tokens".
Definition STOP_STOP_SEQUENCE : string := "stop_sequence".
Definition STOP_TOOL_USE : string := "tool_use".
Definition STOP_PAUSE_TURN : string := "pause_turn".
Definition STOP_REFUSAL : string := "refusal".

Definition BLOCK_TYPE_REDACTED_THINKING : string := "redacted_thinking".
Definition ANTHROPIC_UNMODELED_BLOCKS_SENTINEL : string := "__busbar_anthropic_unmodeled_blocks".
Definition CITATION_TYPE_CHAR : string := "char_location".
Definition CITATION_TYPE_PAGE : string := "page_location".
Definition CITATION_TYPE_CONTENT_BLOCK : string := "content_block_location".
Definition CITATION_TYPE_WEB : string := "web_search_result_location".
Definition CACHE_KIND_EPHEMERAL : string := "ephemeral".
Definition MAX_ANTHROPIC_BLOCK_INDEX : Z := 1023.

Definition ERR_TYPE_OVERLOADED : string := "overloaded_error".
Definition ERR_TYPE_INVALID_REQUEST : string := "invalid_request_error".
Definition ERR_TYPE_AUTHENTICATION : string := "authentication_error".
Definition ERR_TYPE_RATE_LIMIT : string := "rate_limit_error".
Definition ERR_TYPE_API_ERROR : string := "api_error".
Definition ERR_TYPE_TIMEOUT : string := "timeout_error".
Definition ERR_TYPE_NOT_FOUND : string := "not_found_error".
Definition ERR_TYPE_PERMISSION : string := "permission_error".
Definition ERR_TYPE_REQUEST_TOO_LARGE : string := "request_too_large".

Definition one_of (s : string) (l : list string) : bool := existsb (String.eqb s) l.

(** ** Unmodelled blocks *)

Definition is_modeled_anthropic_block_type (t : string) : bool :=
  one_of t ["text"; "thinking"; STOP_TOOL_USE; "tool_result"; "image"; BLOCK_TYPE_REDACTED_THINKING]%string.

(** What the message at position [m] of the history adds to the sink. *)
Definition stash_unmodeled_blocks (msg_val : Value) (m : nat) : list Value :=
  match get_array "content" msg_val with
  | None => []
  | Some content_arr =>
      omap (fun p : nat * Value =>
        let block_type := default ""%string (get_str "type" p.2) in
        if is_modeled_anthropic_block_type block_type then None
        else Some (Object [("m", num_u (Z.of_nat m)); ("i", num_u (Z.of_nat p.1)); ("block", p.2)]%string))
        (imap pair content_arr)
  end.

Definition stashed_at (m i : nat) (entry : Value) : option Value :=
  em ← get_u64 "m" entry;
  ei ← get_u64 "i" entry;
  if (em =? Z.of_nat m) && (ei =? Z.of_nat i) then get "block" entry else None.

(** [find_map]: the first entry the closure accepts. *)
Definition find_stashed_block (sentinel : list Value) (m i : nat) : option Value :=
  head (omap (stashed_at m i) sentinel).

(** ** Parts *)

Definition read_clamped_block_index (data : Value) : option Z :=
  (fun v => Z.min v MAX_ANTHROPIC_BLOCK_INDEX) <$> get_u64 "index" data.

(** [f64::clamp(0.0, 1.0)] and whether it changed the value. *)
Definition clamp_temperature_for_anthropic (temperature : f64) : f64 * bool :=
  if negb (f64_is_finite temperature) then (temperature, false)
  else
    let clamped :=
      if f64_lt temperature f64_zero then f64_zero
      else if f64_lt f64_one temperature then f64_one
      else temperature in
    (clamped, f64_lt clamped temperature || f64_lt temperature clamped).

Definition stream_error_class (error_type : option string) : StatusClass :=
  match error_type with
  | None => ClientError
  | Some t =>
      if String.eqb t ERR_TYPE_OVERLOADED then Overloaded
      else if String.eqb t ERR_TYPE_RATE_LIMIT then RateLimit
      else if String.eqb t ERR_TYPE_API_ERROR then ServerError
      else if String.eqb t ERR_TYPE_TIMEOUT then Timeout
      else if one_of t [ERR_TYPE_AUTHENTICATION; ERR_TYPE_PERMISSION] then Auth
      else if String.eqb t "billing_error" then Billing
      else ClientError
  end.

Definition read_cache_control (val : option Value) : Parsed (option CacheControl) :=
  match val ≫= as_object with
  | None => Ok None
  | Some cc_obj =>
      match field_str "type" cc_obj with
      | None => Ok None
      | Some t => if String.eqb t CACHE_KIND_EPHEMERAL then Ok (Some (mkCache Ephemeral)) else Err parse_error
      end
  end.

Definition write_cache_control (cc : CacheControl) : Value :=
  match cache_kind cc with Ephemeral => Object [("type", Str CACHE_KIND_EPHEMERAL)]%string end.

Definition read_anthropic_tool_choice (val : option Value) : option IrToolChoice :=
  obj ← val ≫= as_object;
  t ← field_str "type" obj;
  if String.eqb t "auto" then Some TcAuto
  else if String.eqb t "none" then Some TcNone
  else if String.eqb t "any" then Some TcRequired
  else if String.eqb t "tool" then TcTool <$> field_str "name" obj
  else None.

Definition write_anthropic_tool_choice (tc : IrToolChoice) : list (string * Value) :=
  match tc with
  | TcAuto => [("type", Str "auto")]
  | TcNone => [("type", Str "none")]
  | TcRequired => [("type", Str "any")]
  | TcTool name => [("type", Str "tool"); ("name", Str name)]
  end%string.

Definition read_anthropic_stop_reason (token : string) : IrStopReason :=
  if String.eqb token STOP_END_TURN then EndTurn
  else if String.eqb token STOP_MAX_TOKENS then MaxTokens
  else if String.eqb token STOP_STOP_SEQUENCE then StopSequence
  else if String.eqb token STOP_TOOL_USE then StopToolUse
  else if String.eqb token STOP_PAUSE_TURN then PauseTurn
  else if String.eqb token STOP_REFUSAL then Refusal
  else Other.

Definition write_anthropic_stop_reason (reason : IrStopReason) : string :=
  match reason with
  | EndTurn => STOP_END_TURN
  | MaxTokens => STOP_MAX_TOKENS
  | StopSequence => STOP_STOP_SEQUENCE
  | StopToolUse => STOP_TOOL_USE
  | PauseTurn => STOP_PAUSE_TURN
  | Refusal => STOP_REFUSAL
  | Safety | StopError | Other => STOP_END_TURN
  end.

(** ** Citations *)

Definition read_citation (val : Value) : IrCitation :=
  mkCitation (get_str "type" val) (get_str "cited_text" val)
    (or_else (get "document_title" val) (get "title" val) ≫= as_str)
    (get_str "url" val)
    (get "document_index" val ≫= as_i64)
    (or_else (or_else (get "start_char_index" val) (get "start_page_number" val))
       (get "start_block_index" val) ≫= as_i64)
    (or_else (or_else (get "end_char_index" val) (get "end_page_number" val))
       (get "end_block_index" val) ≫= as_i64)
    (get_str "encrypted_index" val)
    (Some val).

Definition is_anthropic_citation_shape (raw : Value) : bool :=
  match get_str "type" raw with
  | Some t => one_of t [CITATION_TYPE_CHAR; CITATION_TYPE_PAGE; CITATION_TYPE_CONTENT_BLOCK; CITATION_TYPE_WEB]
  | None => false
  end.

(** The four fields a document citation carries, the offsets under the names of its kind. *)
Definition write_location (start_key end_key : string) (c : IrCitation) (obj : list (string * Value))
    : list (string * Value) :=
  let obj := set_opt "document_index" (num_i <$> ci_document_index c) obj in
  let obj := set_opt "document_title" (Str <$> ci_title c) obj in
  let obj := set_opt start_key (num_i <$> ci_start_index c) obj in
  set_opt end_key (num_i <$> ci_end_index c) obj.

Definition write_citation (c : IrCitation) : Value :=
  let synthesize :=
    let kind := default CITATION_TYPE_WEB (ci_kind c) in
    let obj := set_opt "cited_text" (Str <$> ci_cited_text c) [("type", Str kind)]%string in
    Object
      (if String.eqb kind CITATION_TYPE_PAGE then write_location "start_page_number" "end_page_number" c obj
       else if String.eqb kind CITATION_TYPE_CONTENT_BLOCK
       then write_location "start_block_index" "end_block_index" c obj
       else if String.eqb kind CITATION_TYPE_WEB then
         let obj := set_opt "url" (Str <$> ci_url c) obj in
         let obj := set_opt "title" (Str <$> ci_title c) obj in
         set_opt "encrypted_index" (Str <$> ci_encrypted_index c) obj
       else write_location "start_char_index" "end_char_index" c obj) in
  match ci_raw c with
  | Some raw => if is_anthropic_citation_shape raw then raw else synthesize
  | None => synthesize
  end.

(** ** Blocks *)

Definition read_image (obj : list (string * Value)) : Parsed IrBlock :=
  source ← ok_or (field "source" obj);
  cache_control ← read_cache_control (field "cache_control" obj);
  src_obj ← ok_or (as_object source);
  Ok (BImage
        (if bool_decide (field_str "type" src_obj = Some "url"%string)
         then Url (default ""%string (field_str "url" src_obj))
         else Base64 (default ""%string (field_str "media_type" src_obj))
                (default ""%string (field_str "data" src_obj)))
        cache_control).

Fixpoint read_block (block_val : Value) : Parsed IrBlock :=
  match block_val with
  | Object obj =>
      let block_type := default ""%string (field_str "type" obj) in
      if String.eqb block_type "text" then
        cache_control ← read_cache_control (field "cache_control" obj);
        Ok (BText (default ""%string (field_str "text" obj)) cache_control
              (read_citation <$> default [] (field_array "citations" obj)))
      else if String.eqb block_type "thinking" then
        cache_control ← read_cache_control (field "cache_control" obj);
        Ok (BThinking (default ""%string (field_str "thinking" obj)) (field_str "signature" obj) false
              cache_control)
      else if String.eqb block_type STOP_TOOL_USE then
        cache_control ← read_cache_control (field "cache_control" obj);
        Ok (BToolUse (default ""%string (field_str "id" obj)) (default ""%string (field_str "name" obj))
              (default Null (field "input" obj)) cache_control None)
      else if String.eqb block_type "tool_result" then
        content ← on_field "content"
                    (fun content_val =>
                       match content_val with
                       | Array arr => collect read_block arr
                       | v => Ok [plain_text (default ""%string (as_str v))]
                       end)
                    (Ok [plain_text ""]) obj;
        cache_control ← read_cache_control (field "cache_control" obj);
        Ok (BToolResult (default ""%string (field_str "tool_use_id" obj)) content
              (default false (field_bool "is_error" obj)) cache_control)
      else if String.eqb block_type "image" then read_image obj
      else if String.eqb block_type BLOCK_TYPE_REDACTED_THINKING then
        cache_control ← read_cache_control (field "cache_control" obj);
        Ok (BThinking (default ""%string (field_str "data" obj)) None true cache_control)
      else Ok (plain_text "")
  | _ => Err parse_error
  end.

Definition is_json_tool_result_block (b : IrBlock) : bool := match b with BJson _ => true | _ => false end.

Fixpoint write_block (block : IrBlock) : Value :=
  match block with
  | BText text cache_control citations =>
      let obj := [("type", Str "text"); ("text", Str text)]%string in
      let obj := set_opt "cache_control" (write_cache_control <$> cache_control) obj in
      Object (set_opt "citations" (Array ∘ fmap write_citation <$> nonempty_list citations) obj)
  | BThinking text _ true cache_control =>
      Object (set_opt "cache_control" (write_cache_control <$> cache_control)
                [("type", Str BLOCK_TYPE_REDACTED_THINKING); ("data", Str text)]%string)
  | BThinking text signature false cache_control =>
      let obj := [("type", Str "thinking"); ("thinking", Str text)]%string in
      let obj := set_opt "signature" (Str <$> signature) obj in
      Object (set_opt "cache_control" (write_cache_control <$> cache_control) obj)
  | BToolUse id name input cache_control _ =>
      Object (set_opt "cache_control" (write_cache_control <$> cache_control)
                [("type", Str STOP_TOOL_USE); ("id", Str id); ("name", Str name); ("input", input)]%string)
  | BToolResult tool_use_id content is_error cache_control =>
      let obj := [("type", Str "tool_result"); ("tool_use_id", Str tool_use_id)]%string in
      let obj :=
        match content with
        | [] => set_field "content" (Str "") obj
        | _ =>
            set_field "content"
              (Array (omap (fun b => if is_json_tool_result_block b then None else Some (write_block b)) content))
              obj
        end in
      let obj := if is_error then set_field "is_error" (Bool true) obj else obj in
      Object (set_opt "cache_control" (write_cache_control <$> cache_control) obj)
  | BImage source cache_control =>
      let img :=
        match source with
        | Url url =>
            [("type", Str "image"); ("source", Object [("type", Str "url"); ("url", Str url)])]
        | Base64 media_type data =>
            [("type", Str "image");
             ("source", Object [("type", Str "base64"); ("media_type", Str media_type); ("data", Str data)])]
        | Vendor _ _ => [("type", Str "text"); ("text", Str "")]
        end%string in
      Object (set_opt "cache_control" (write_cache_control <$> cache_control) img)
  | BJson _ => Object [("type", Str "text"); ("text", Str "")]%string
  end.

(** ** Messages and tools *)

(** The content of a message: blocks, or a bare string. *)
Definition read_content (content_val : option Value) : Parsed (list IrBlock) :=
  match content_val with
  | Some (Array arr) => collect read_block arr
  | Some v => Ok [plain_text (default ""%string (as_str v))]
  | None => Ok [plain_text ""]
  end.

Definition read_message (msg_val : Value) : Parsed IrMessage :=
  obj ← ok_or (as_object msg_val);
  let role_str := default ""%string (field_str "role" obj) in
  role ← (if String.eqb role_str "user" then Ok RUser
          else if String.eqb role_str "assistant" then Ok RAssistant
          else if String.eqb role_str "system" then Ok RSystem
          else Err parse_error : Parsed IrRole);
  content ← read_content (field "content" obj);
  Ok (mkMessage role content).

Definition read_tool (tool_val : Value) : Parsed IrTool :=
  obj ← ok_or (as_object tool_val);
  cache_control ← read_cache_control (field "cache_control" obj);
  Ok (mkTool (default ""%string (field_str "name" obj)) (field_str "description" obj)
        (default Null (field "input_schema" obj)) cache_control None).

Definition is_unresolvable_image_ref (source : IrImageSource) : bool :=
  match source with Vendor _ _ => true | _ => false end.

(** One block of a message on its way out: unsigned thinking and vendor images are left out, and a
    position that held a block the reader could not model gets that block back. *)
Definition write_message_block (sentinel : list Value) (m : nat) (p : nat * IrBlock) : option Value :=
  match p.2 with
  | BThinking _ None false _ => None
  | block =>
      if match block with BImage source _ => is_unresolvable_image_ref source | _ => false end then None
      else match find_stashed_block sentinel m p.1 with
           | Some raw => Some raw
           | None => Some (write_block block)
           end
  end.

Definition write_message (msg : IrMessage) (m : nat) (unmodeled_sentinel : list Value) : Value :=
  let role_str := match msg_role msg with
                  | RUser => "user" | RAssistant => "assistant" | RSystem => "user" | RTool => "user"
                  end%string in
  Object [("role", Str role_str);
          ("content", Array (omap (write_message_block unmodeled_sentinel m)
                               (imap pair (msg_content msg))))]%string.

Definition write_tool (tool : IrTool) : Value :=
  let obj := [("name", Str (t_name tool))]%string in
  let obj := set_opt "description" (Str <$> t_description tool) obj in
  let obj := set_field "input_schema" (t_input_schema tool) obj in
  Object (set_opt "cache_control" (write_cache_control <$> t_cache_control tool) obj).

(** ** Requests *)

Definition MODELED_KEYS : list string :=
  ["max_tokens"; "messages"; "model"; "stop_sequences"; "stream"; "system"; "temperature"; "tool_choice";
   "tools"; "top_k"; "top_p"]%string.

(** The [system] prompt: a string or blocks. *)
Definition read_system (system_val : option Value) : Parsed (list IrBlock) :=
  match system_val with
  | Some (Str text) => Ok [plain_text text]
  | Some (Array arr) => collect read_block arr
  | _ => Ok []
  end.

(** The loop over [messages]: the system blocks, the history and the unmodelled blocks so far. *)
Fixpoint read_messages (msgs : list Value) (system : list IrBlock) (messages : list IrMessage)
    (unmodeled : list Value) : Parsed (list IrBlock * list IrMessage * list Value) :=
  match msgs with
  | [] => Ok (system, messages, unmodeled)
  | msg_val :: msgs =>
      msg ← read_message msg_val;
      if bool_decide (msg_role msg = RSystem)
      then read_messages msgs (system ++ msg_content msg) messages unmodeled
      else read_messages msgs system (messages ++ [msg])
             (unmodeled ++ stash_unmodeled_blocks msg_val (length messages))
  end.

(** [thinking.budget_tokens], when thinking is enabled. *)
Definition read_thinking (obj : list (string * Value)) : option IrReasoningAsk :=
  t ← field "thinking" obj;
  if bool_decide (get_str "type" t = Some "enabled"%string)
  then Budget <$> (get_u64 "budget_tokens" t ≫= try_u32)
  else None.

(** What the reader does not model, with the sentinel of the unmodelled blocks. *)
Definition read_extra (obj : list (string * Value)) (unmodeled : list Value) (reasoning : option IrReasoningAsk)
    : list (string * Value) :=
  let extra := set_opt ANTHROPIC_UNMODELED_BLOCKS_SENTINEL (Array <$> nonempty_list unmodeled) [] in
  let extra := overlay (fun key => negb (one_of key MODELED_KEYS)) obj extra in
  match reasoning with Some _ => remove_field "thinking" extra | None => extra end.

Definition read_request (body : Value) : Parsed IrRequest :=
  obj ← ok_or (as_object body);
  system_blocks ← read_system (field "system" obj);
  parts ← read_messages (default [] (field_array "messages" obj)) system_blocks [] [];
  let '(system_blocks, messages, unmodeled_blocks) := parts in
  tools ← collect read_tool (default [] (field_array "tools" obj));
  let max_tokens := match field_u64 "max_tokens" obj ≫= try_u32 with
                    | Some v => if 0 <? v then Some v else None
                    | None => None
                    end in
  let reasoning := read_thinking obj in
  Ok {| rq_system := system_blocks;
        rq_messages := messages;
        rq_tools := tools;
        rq_max_tokens := max_tokens;
        rq_temperature := field_f64 "temperature" obj;
        rq_top_p := field_f64 "top_p" obj;
        rq_top_k := field_u64 "top_k" obj ≫= try_u32;
        rq_frequency_penalty := None;
        rq_presence_penalty := None;
        rq_seed := None;
        rq_n := None;
        rq_reasoning := reasoning;
        rq_reasoning_budgets := None;
        rq_logprobs := None;
        rq_top_logprobs := None;
        rq_response_format := None;
        rq_stop := read_stop_sequences (field "stop_sequences" obj);
        rq_tool_choice := read_anthropic_tool_choice (field "tool_choice" obj);
        rq_user := field "metadata" obj ≫= get_str "user_id";
        rq_parallel_tool_calls :=
          negb <$> ((field "tool_choice" obj ≫= get "disable_parallel_tool_use") ≫= as_bool);
        rq_stream := default false (field_bool "stream" obj);
        rq_extra := read_extra obj unmodeled_blocks reasoning |}.

(** The tool choice with the parallelism switch, when there is a tool to choose. *)
Definition write_tool_choice (req : IrRequest) : option (list (string * Value)) :=
  match rq_tools req with
  | [] => None
  | _ =>
      match rq_tool_choice req with
      | Some tc =>
          let map := write_anthropic_tool_choice tc in
          match rq_parallel_tool_calls req with
          | Some parallel =>
              if bool_decide (field_str "type" map = Some "none"%string) then Some map
              else Some (set_field "disable_parallel_tool_use" (Bool (negb parallel)) map)
          | None => Some map
          end
      | None =>
          (fun parallel => [("type", Str "auto"); ("disable_parallel_tool_use", Bool (negb parallel))]%string)
            <$> rq_parallel_tool_calls req
      end
  end.

(** The thinking budget sent: at least 1024 tokens under [max_tokens], or none. *)
Definition thinking_budget (req : IrRequest) : option Z :=
  ask ← rq_reasoning req;
  let want := to_budget ask (default REASONING_BUDGET_DEFAULTS (rq_reasoning_budgets req)) in
  let budget := match rq_max_tokens req with
                | Some mt => Z.min want (mt -sat 1024)
                | None => want
                end in
  if 1024 <=? budget then Some budget else None.

(** Forced tool use does not go with thinking: it is downgraded. *)
Definition downgrade_tool_choice (tc : list (string * Value)) : list (string * Value) :=
  if one_of (default ""%string (field_str "type" tc)) ["any"; "tool"]%string
  then remove_field "name" (set_field "type" (Str "auto") tc)
  else tc.

(** The members the writer models. *)
Definition modeled_fields (req : IrRequest) : list (string * Value) :=
  let system_blocks :=
    rq_system req
    ++ concat (msg_content <$> filter (fun msg => msg_role msg = RSystem) (rq_messages req)) in
  let out := set_opt "system" (Array ∘ fmap write_block <$> nonempty_list system_blocks) [] in
  let unmodeled_sentinel := default [] (field_array ANTHROPIC_UNMODELED_BLOCKS_SENTINEL (rq_extra req)) in
  let messages_array :=
    imap (fun m msg => write_message msg m unmodeled_sentinel)
      (filter (fun msg => msg_role msg <> RSystem) (rq_messages req)) in
  let out := set_field "messages" (Array messages_array) out in
  let out := set_opt "tools" (Array ∘ fmap write_tool <$> nonempty_list (rq_tools req)) out in
  let budget := thinking_budget req in
  let tool_choice := match budget with
                     | Some _ => downgrade_tool_choice <$> write_tool_choice req
                     | None => write_tool_choice req
                     end in
  let out := set_opt "tool_choice" (Object <$> tool_choice) out in
  let out := set_opt "max_tokens" (num_u <$> rq_max_tokens req) out in
  let out := set_opt "thinking"
               ((fun b => Object [("type", Str "enabled"); ("budget_tokens", num_u b)]%string) <$> budget) out in
  let unless_thinking {A} (o : option A) : option A := match budget with Some _ => None | None => o end in
  let out := set_opt "temperature"
               ((fun t => num_f (clamp_temperature_for_anthropic t).1) <$> unless_thinking (rq_temperature req)) out in
  let out := set_opt "top_p" (num_f <$> unless_thinking (rq_top_p req)) out in
  let out := set_opt "top_k" (num_u <$> unless_thinking (rq_top_k req)) out in
  let out := set_opt "stop_sequences" (Array ∘ fmap Str <$> nonempty_list (rq_stop req)) out in
  let out := set_field "stream" (Bool (rq_stream req)) out in
  set_opt "metadata" ((fun user => Object [("user_id", Str user)]%string) <$> rq_user req) out.

(** The modelled members, then everything in [extra] over them. *)
Definition write_request (req : IrRequest) : Value :=
  Object (overlay (fun _ => true) (rq_extra req) (modeled_fields req)).

(** ** Responses *)

(** [json.get("usage")] into the representation; the counters default to 0. *)
Definition read_usage (usage_val : option Value) : IrUsage :=
  mkUsage (default 0 (usage_val ≫= get_u64 "input_tokens"))
    (default 0 (usage_val ≫= get_u64 "output_tokens"))
    (usage_val ≫= get_u64 "cache_creation_input_tokens")
    (usage_val ≫= get_u64 "cache_read_input_tokens").

Definition write_usage (usage : IrUsage) : Value :=
  let map := [("input_tokens", num_u (input_tokens usage));
              ("output_tokens", num_u (output_tokens usage))]%string in
  let map := set_opt "cache_creation_input_tokens" (num_u <$> cache_creation_input_tokens usage) map in
  Object (set_opt "cache_read_input_tokens" (num_u <$> cache_read_input_tokens usage) map).

Definition read_response (body : Value) : Parsed IrResponse :=
  obj ← ok_or (as_object body);
  role ← (if bool_decide (field_str "role" obj = Some "assistant"%string) then Ok RAssistant
          else Err parse_error : Parsed IrRole);
  content_val ← ok_or (field "content" obj);
  content ← collect read_block (default [] (as_array content_val));
  Ok {| rs_role := role;
        rs_content := content;
        rs_stop_reason := read_anthropic_stop_reason <$> field_str "stop_reason" obj;
        rs_usage := read_usage (field "usage" obj);
        rs_model := nonempty (field_str "model" obj);
        rs_id := field_str "id" obj;
        rs_created := None;
        rs_system_fingerprint := None;
        rs_stop_sequence := field_str "stop_sequence" obj;
        rs_logprobs := [] |}.

(** [synth_message_id] is what the generator mints when the response carries no identifier. *)
Definition write_response (synth_message_id : string) (resp : IrResponse) : Value :=
  let obj := [("id", Str (default synth_message_id (rs_id resp)));
              ("type", Str "message");
              ("role", Str "assistant");
              ("model", Str (default "" (rs_model resp)));
              ("content", Array (write_block <$> rs_content resp))]%string in
  let obj := set_opt "stop_reason" (Str ∘ write_anthropic_stop_reason <$> rs_stop_reason resp) obj in
  let obj := set_field "stop_sequence" (default Null (Str <$> rs_stop_sequence resp)) obj in
  Object (set_field "usage" (write_usage (rs_usage resp)) obj).

(** ** Stream events *)

Definition read_message_start (data : Value) : option IrStreamEvent :=
  msg ← get "message" data;
  role_str ← get_str "role" msg;
  role ← (if String.eqb role_str "user" then Some RUser
          else if String.eqb role_str "assistant" then Some RAssistant
          else None);
  Some (MessageStart role (read_usage ∘ Some <$> get "usage" msg) (get_str "id" msg) None
          (nonempty (get_str "model" msg))).

Definition read_block_start (data : Value) : option IrStreamEvent :=
  index ← read_clamped_block_index data;
  block ← get "content_block" data;
  block_type ← get_str "type" block;
  meta ← (if String.eqb block_type "text" then Some MText
          else if String.eqb block_type "thinking" then Some MThinking
          else if String.eqb block_type STOP_TOOL_USE then
            id ← get_str "id" block;
            name ← get_str "name" block;
            Some (MToolUse id name)
          else if String.eqb block_type "image" then Some MImage
          else None);
  Some (BlockStart index meta).

Definition read_block_delta (data : Value) : option IrStreamEvent :=
  index ← read_clamped_block_index data;
  delta_val ← get "delta" data;
  delta_type ← get_str "type" delta_val;
  delta ← (if String.eqb delta_type DELTA_TYPE_TEXT then TextDelta <$> get_str "text" delta_val
           else if String.eqb delta_type DELTA_TYPE_THINKING then ThinkingDelta <$> get_str "thinking" delta_val
           else if String.eqb delta_type DELTA_TYPE_INPUT_JSON then
             InputJsonDelta <$> (or_else (get "partial_json" delta_val) (get "input_json" delta_val) ≫= as_str)
           else if String.eqb delta_type DELTA_TYPE_SIGNATURE then
             SignatureDelta <$> get_str "signature" delta_val
           else if String.eqb delta_type DELTA_TYPE_CITATIONS then
             citation_val ← get "citation" delta_val;
             Some (CitationsDelta [read_citation citation_val])
           else None);
  Some (BlockDelta index delta).

Definition read_message_delta (data : Value) : option IrStreamEvent :=
  delta ← get "delta" data;
  Some (MessageDelta (read_anthropic_stop_reason <$> get_str "stop_reason" delta)
          (get_str "stop_sequence" delta) (read_usage (get "usage" data))).

Definition read_error_event (data : Value) : option IrStreamEvent :=
  err_val ← get "error" data;
  let type_token := get_str "type" err_val in
  Some (Error (mkSignal (stream_error_class type_token) type_token None)).

Definition read_response_event (event_type : string) (data : Value) : option IrStreamEvent :=
  if String.eqb event_type EVT_MESSAGE_START then read_message_start data
  else if String.eqb event_type EVT_CONTENT_BLOCK_START then read_block_start data
  else if String.eqb event_type EVT_CONTENT_BLOCK_DELTA then read_block_delta data
  else if String.eqb event_type EVT_CONTENT_BLOCK_STOP then BlockStop <$> read_clamped_block_index data
  else if String.eqb event_type EVT_MESSAGE_DELTA then read_message_delta data
  else if String.eqb event_type EVT_MESSAGE_STOP then Some MessageStop
  else if String.eqb event_type "error" then read_error_event data
  else None.

(** A redacted block arrives whole in its start event; everything else is one event or none. *)
Definition read_redacted_start (event_type : string) (data : Value) : option (list IrStreamEvent) :=
  if negb (String.eqb event_type EVT_CONTENT_BLOCK_START) then None
  else
    block ← get "content_block" data;
    if bool_decide (get_str "type" block = Some BLOCK_TYPE_REDACTED_THINKING) then
      index ← read_clamped_block_index data;
      Some [BlockStart index MThinking;
            BlockDelta index (RedactedReasoningDelta (default ""%string (get_str "data" block)))]
    else None.

Definition read_response_events (event_type : string) (data : Value) (state : StreamDecodeState)
    : list IrStreamEvent * StreamDecodeState :=
  (match read_redacted_start event_type data with
   | Some evs => evs
   | None => option_list (read_response_event event_type data)
   end, state).

Definition write_block_meta (block : IrBlockMeta) : Value :=
  match block with
  | MText => Object [("type", Str "text"); ("text", Str "")]
  | MThinking => Object [("type", Str "thinking"); ("thinking", Str ""); ("signature", Str "")]
  | MToolUse id name =>
      Object [("type", Str STOP_TOOL_USE); ("id", Str id); ("name", Str name); ("input", Object [])]
  | MImage => Object [("type", Str "image")]
  end%string.

Definition write_delta (delta : IrDelta) : option Value :=
  match delta with
  | TextDelta text => Some (Object [("type", Str DELTA_TYPE_TEXT); ("text", Str text)])
  | ThinkingDelta thinking => Some (Object [("type", Str DELTA_TYPE_THINKING); ("thinking", Str thinking)])
  | InputJsonDelta json => Some (Object [("type", Str DELTA_TYPE_INPUT_JSON); ("partial_json", Str json)])
  | SignatureDelta sig => Some (Object [("type", Str DELTA_TYPE_SIGNATURE); ("signature", Str sig)])
  | RedactedReasoningDelta _ => None
  | LogprobsDelta _ => None
  | CitationsDelta citations =>
      c ← head citations;
      Some (Object [("type", Str DELTA_TYPE_CITATIONS); ("citation", write_citation c)])
  end%string.

(** What a client is told of an error that carries no text of its own. *)
Definition STREAM_ERROR_FALLBACK : string := "an error occurred while streaming the response".

Definition write_stream_error (err : IrError) : Value :=
  let message := default STREAM_ERROR_FALLBACK (nonempty (provider_signal err)) in
  Object [("type", Str "error");
          ("error", Object [("type", default Null (Str <$> provider_signal err)); ("message", Str message)])]%string.

Definition write_response_event (synth_message_id : string) (ev : IrStreamEvent) : option (string * Value) :=
  match ev with
  | MessageStart role usage id _ model =>
      role_str ← match role with
                 | RUser => Some "user"%string
                 | RAssistant => Some "assistant"%string
                 | _ => None
                 end;
      Some (EVT_MESSAGE_START,
            Object [("type", Str EVT_MESSAGE_START);
                    ("message",
                      Object [("id", Str (default synth_message_id id));
                              ("type", Str "message");
                              ("role", Str role_str);
                              ("model", Str (default "" model));
                              ("content", Array []);
                              ("stop_reason", Null);
                              ("stop_sequence", Null);
                              ("usage", write_usage (default no_usage usage))])])%string
  | BlockStart index block =>
      Some (EVT_CONTENT_BLOCK_START,
            Object [("type", Str EVT_CONTENT_BLOCK_START); ("index", num_u index);
                    ("content_block", write_block_meta block)])%string
  | BlockDelta index delta =>
      delta_val ← write_delta delta;
      Some (EVT_CONTENT_BLOCK_DELTA,
            Object [("type", Str EVT_CONTENT_BLOCK_DELTA); ("index", num_u index); ("delta", delta_val)])%string
  | BlockStop index =>
      Some (EVT_CONTENT_BLOCK_STOP,
            Object [("type", Str EVT_CONTENT_BLOCK_STOP); ("index", num_u index)])%string
  | MessageDelta stop_reason stop_sequence usage =>
      let delta_obj := [("stop_reason", default Null (Str ∘ write_anthropic_stop_reason <$> stop_reason));
                        ("stop_sequence", default Null (Str <$> stop_sequence))]%string in
      Some (EVT_MESSAGE_DELTA,
            Object [("type", Str EVT_MESSAGE_DELTA); ("delta", Object delta_obj);
                    ("usage", write_usage usage)])%string
  | MessageStop => Some (EVT_MESSAGE_STOP, Object [("type", Str EVT_MESSAGE_STOP)])%string
  | Error err => Some ("error"%string, write_stream_error err)
  end.

(** ** Errors *)

Definition error_envelope (synth_request_id error_type message : string) : Value :=
  Object [("type", Str "error");
          ("error", Object [("type", Str error_type); ("message", Str message)]);
          ("request_id", Str synth_request_id)]%string.

Definition STATUS_OVERLOADED : Z := 503.
Definition STATUS_ANTHROPIC_OVERLOADED : Z := 529.

Definition anthropic_type (kind : string) : string :=
  if one_of kind ["invalid_request"; "bad_request"]%string then ERR_TYPE_INVALID_REQUEST
  else if one_of kind ["authentication"; "unauthorized"]%string then ERR_TYPE_AUTHENTICATION
  else if one_of kind ["permission"; "forbidden"]%string then ERR_TYPE_PERMISSION
  else if String.eqb kind "not_found" then ERR_TYPE_NOT_FOUND
  else if one_of kind [ERR_TYPE_REQUEST_TOO_LARGE; "payload_too_large"]%string then ERR_TYPE_REQUEST_TOO_LARGE
  else if one_of kind ["rate_limit"; "too_many_requests"]%string then ERR_TYPE_RATE_LIMIT
  else if String.eqb kind "overloaded" then ERR_TYPE_OVERLOADED
  else if String.eqb kind "timeout" then ERR_TYPE_TIMEOUT
  else if one_of kind [ERR_TYPE_API_ERROR; "server_error"; "internal"]%string then ERR_TYPE_API_ERROR
  else kind.

Definition write_error (synth_request_id : string) (status : Z) (kind message : string) : Value :=
  if (status =? STATUS_OVERLOADED) || (status =? STATUS_ANTHROPIC_OVERLOADED)
  then error_envelope synth_request_id ERR_TYPE_OVERLOADED message
  else error_envelope synth_request_id (anthropic_type kind) message.

(** [text.contains(pat)] *)
Definition contains (pat text : string) : bool :=
  match String.index 0 pat text with Some _ => true | None => false end.

(** [json] is the parsed body and [lower] its text in lower case. *)
Definition extract_error (status : Z) (json : option Value) (lower : string) : RawUpstreamError :=
  let error := json ≫= get "error" in
  let is_request_size_status := (status =? 400) || (status =? 413) in
  let scanned :=
    if negb is_request_size_status then None
    else if contains "prompt is too long" lower
            || (contains "exceeds the maximum" lower
                && (contains "token" lower || contains "context" lower))
    then Some PROVIDER_CODE_CONTEXT_LENGTH else None in
  {| http_status := status;
     provider_code := or_else (error ≫= get_str "code") scanned;
     structured_type := error ≫= get_str "type";
     retry_after_secs := None |}.

(** ** Minted identifiers *)

Definition ANTHROPIC_NATIVE_ALPHABET : string :=
  "0123456789ABCDEFGHIJKLMNOPQRSTUVWXYZabcdefghijklmnopqrstuvwxyz".
Definition SYNTH_ID_TOKEN_LEN : nat := 24.
Definition BASE62_REJECT_THRESHOLD : Z := 248.

(** [alphabet[(byte % 62) as usize]] *)
Definition base62_char (alphabet : string) (byte : Z) : Ascii.ascii :=
  default Ascii.zero (String.get (Z.to_nat (byte mod 62)) alphabet).

(** One batch of random bytes: those under the threshold, in order, until the token is full. *)
Definition take_batch (alphabet : string) (len : nat) (out : list Ascii.ascii) (batch : list Z)
    : list Ascii.ascii :=
  take len (out ++ (base62_char alphabet <$> List.filter (fun b => b <? BASE62_REJECT_THRESHOLD) batch)).

(** [fill_base62] on the batches the operating system delivers, [None] for a failed call: the filled
    prefix, and [false] when a call failed.  The outer [None] is a list of batches that ended before
    the token was full. *)
Fixpoint fill_base62 (alphabet : string) (len : nat) (out : list Ascii.ascii) (batches : list (option (list Z)))
    : option (list Ascii.ascii * bool) :=
  if (len <=? length out)%nat then Some (out, true)
  else match batches with
       | [] => None
       | None :: _ => Some (out, false)
       | Some batch :: batches => fill_base62 alphabet len (take_batch alphabet len out batch) batches
       end.

(** The token starts as zeros, so what a failed call leaves unfilled is ['0']. *)
Definition synth_id_with_prefix (prefix : string) (batches : list (option (list Z))) : option string :=
  filled ← fill_base62 ANTHROPIC_NATIVE_ALPHABET SYNTH_ID_TOKEN_LEN [] batches;
  let token := filled.1 ++ replicate (SYNTH_ID_TOKEN_LEN - length filled.1) (Ascii.ascii_of_nat 48) in
  Some (prefix +:+ "01" +:+ String.string_of_list_ascii token).

(** [synth_anthropic_request_id]: no identifier when the generator fails. *)
Definition synth_anthropic_request_id (alphabet : string) (batches : list (option (list Z)))
    : option (option string) :=
  filled ← fill_base62 alphabet SYNTH_ID_TOKEN_LEN [] batches;
  Some (if filled.2 : bool then Some ("req_01" +:+ String.string_of_list_ascii filled.1) else None).
