(* ===== verification/AnthropicSpec.v ===== *)
(** * AnthropicSpec: what crosses the Messages protocol unchanged

    Blocks, responses and requests in the vocabulary of the protocol survive a write followed by a
    read, blocks the reader has no model of come back where they stood, and the events of a stream
    are read back as they were written. *)

From S2P Require Import Prelude Float64 Breaker Json Classifier Ir Anthropic.

#[local] Open Scope Z_scope.

(** ** Blocks *)

(** A citation as the reader builds it from one of the four shapes of the protocol. *)
Definition native_citation (c : IrCitation) : Prop :=
  exists raw, is_anthropic_citation_shape raw = true /\ c = read_citation raw.

(** What the protocol can express: no foreign citation, no opaque reference, no continuation token,
    and a tool result that is not empty. *)
Inductive native_block : IrBlock -> Prop :=
  | native_text text cc cs : Forall native_citation cs -> native_block (BText text cc cs)
  | native_thinking text sig cc : native_block (BThinking text sig false cc)
  | native_redacted text cc : native_block (BThinking text None true cc)
  | native_tool_use id name input cc : native_block (BToolUse id name input cc None)
  | native_tool_result id content e cc :
      content <> [] -> Forall native_block content -> native_block (BToolResult id content e cc)
  | native_base64 media_type data cc : native_block (BImage (Base64 media_type data) cc)
  | native_url url cc : native_block (BImage (Url url) cc).

Lemma citation_round_trip c : native_citation c -> read_citation (write_citation c) = c.
Proof. intros (raw & Hraw & ->). unfold write_citation. simpl. by rewrite Hraw. Qed.

Lemma citations_round_trip cs : Forall native_citation cs -> read_citation <$> (write_citation <$> cs) = cs.
Proof.
  intros Hcs. rewrite <- list_fmap_compose. induction Hcs as [|c cs Hc Hcs IH]; csimpl; [done|].
  by rewrite IH, citation_round_trip.
Qed.

Lemma native_not_json b : native_block b -> is_json_tool_result_block b = false.
Proof. by destruct 1. Qed.

Lemma kept_blocks content :
  Forall native_block content ->
  omap (fun b => if is_json_tool_result_block b then None else Some (write_block b)) content
  = write_block <$> content.
Proof.
  induction 1 as [|b content Hb Hc IH]; [done|]. csimpl. by rewrite native_not_json, IH.
Qed.

Lemma or_else_None {A} (o : option A) : or_else o None = o.
Proof. by destruct o. Qed.

Lemma cache_round_trip cc : read_cache_control (write_cache_control <$> cc) = Ok cc.
Proof. by destruct cc as [[[]]|]. Qed.

(** Look members up in an object the writer built. *)
Ltac lookup_fields :=
  unfold field_str, field_u64, field_f64, field_bool, field_array;
  rewrite ?field_set, ?field_set_opt; simpl String.eqb; cbv iota;
  repeat (rewrite ?field_set, ?field_set_opt; simpl String.eqb; cbv iota);
  simpl field; simpl String.eqb; cbv iota; rewrite ?or_else_None, ?cache_round_trip.

(** The reader, one kind of block at a time. *)
Lemma read_block_text obj :
  field_str "type" obj = Some "text"%string ->
  read_block (Object obj) =
    cache_control ← read_cache_control (field "cache_control" obj);
    Ok (BText (default ""%string (field_str "text" obj)) cache_control
          (read_citation <$> default [] (field_array "citations" obj))).
Proof. intros H. cbn [read_block]. by rewrite H. Qed.

Lemma read_block_thinking obj :
  field_str "type" obj = Some "thinking"%string ->
  read_block (Object obj) =
    cache_control ← read_cache_control (field "cache_control" obj);
    Ok (BThinking (default ""%string (field_str "thinking" obj)) (field_str "signature" obj) false
          cache_control).
Proof. intros H. cbn [read_block]. by rewrite H. Qed.

Lemma read_block_tool_result obj :
  field_str "type" obj = Some "tool_result"%string ->
  read_block (Object obj) =
    content ← read_content (field "content" obj);
    cache_control ← read_cache_control (field "cache_control" obj);
    Ok (BToolResult (default ""%string (field_str "tool_use_id" obj)) content
          (default false (field_bool "is_error" obj)) cache_control).
Proof.
  intros H. cbn [read_block]. rewrite H, on_field_field. simpl String.eqb. cbv iota.
  unfold read_content. by destruct (field "content" obj) as [[]|].
Qed.

Lemma text_round_trip t cc cs :
  Forall native_citation cs -> read_block (write_block (BText t cc cs)) = Ok (BText t cc cs).
Proof.
  intros Hcs. cbn [write_block]. rewrite read_block_text by (lookup_fields; done). lookup_fields. simpl.
  destruct cs as [|c cs]; [done|]. do 2 f_equal. exact (citations_round_trip (c :: cs) Hcs).
Qed.

Lemma thinking_round_trip t sig cc :
  read_block (write_block (BThinking t sig false cc)) = Ok (BThinking t sig false cc).
Proof.
  cbn [write_block]. rewrite read_block_thinking by (lookup_fields; done). lookup_fields. by destruct sig.
Qed.

Lemma tool_result_round_trip id content e cc :
  content <> [] -> Forall native_block content -> collect read_block (write_block <$> content) = Ok content ->
  read_block (write_block (BToolResult id content e cc)) = Ok (BToolResult id content e cc).
Proof.
  intros Hne Hc Hcol. cbn [write_block]. destruct content as [|b content]; [done|].
  rewrite (kept_blocks (b :: content) Hc).
  rewrite read_block_tool_result by (destruct e; lookup_fields; done).
  destruct e; lookup_fields; unfold read_content; by rewrite Hcol.
Qed.

Lemma block_round_trip b : native_block b -> read_block (write_block b) = Ok b.
Proof.
  induction b as [t cc cs|t sig r cc|id n i cc ts|id content e cc IH|src cc|v] using IrBlock_nested_ind;
    intros Hb; inversion Hb as [? ? ? Hcs| | | |? ? ? ? Hne Hc| |]; subst; clear Hb.
  - by apply text_round_trip.
  - apply thinking_round_trip.
  - by destruct cc as [[[]]|].
  - by destruct cc as [[[]]|].
  - apply tool_result_round_trip; [done..|]. apply collect_inverse. rewrite Forall_forall in Hc, IH |- *. auto.
  - by destruct cc as [[[]]|].
  - by destruct cc as [[[]]|].
Qed.

Lemma blocks_round_trip l : Forall native_block l -> collect read_block (write_block <$> l) = Ok l.
Proof. intros Hl. apply collect_inverse. eapply Forall_impl; [exact Hl|]. apply block_round_trip. Qed.

(** ** Responses *)

(** The stop reasons the protocol has a word for. *)
Definition native_stop_reason (s : IrStopReason) : Prop :=
  match s with Safety | StopError | Other => False | _ => True end.

Lemma stop_reason_round_trip s :
  native_stop_reason s -> read_anthropic_stop_reason (write_anthropic_stop_reason s) = s.
Proof. by destruct s. Qed.

Record native_response (r : IrResponse) : Prop := {
  nr_role : rs_role r = RAssistant;
  nr_content : Forall native_block (rs_content r);
  nr_stop : forall s, rs_stop_reason r = Some s -> native_stop_reason s;
  nr_model : rs_model r <> Some ""%string;
  nr_id : is_Some (rs_id r);
  nr_foreign : rs_created r = None /\ rs_system_fingerprint r = None /\ rs_logprobs r = [];
}.

Lemma usage_round_trip u : read_usage (Some (write_usage u)) = u.
Proof. by destruct u as [i o [cc|] [cr|]]. Qed.

Lemma model_round_trip m : m <> Some ""%string -> nonempty (Some (default ""%string m)) = m.
Proof. by destruct m as [[|]|]. Qed.

(** A response in the vocabulary of the Messages protocol - text with native citations, thinking
    signed or not, redacted thinking, tool calls, nested tool results, images, every counter of the usage,
    the stop reason and the stop string - is read back exactly as it was written. *)
Theorem anthropic_response_round_trip synth_message_id r :
  native_response r -> read_response (write_response synth_message_id r) = Ok r.
Proof.
  intros [Hrole Hcontent Hstop Hmodel [id Hid] (Hc & Hf & Hl)].
  unfold read_response, write_response. simpl ok_or. simpl mbind. cbv beta.
  lookup_fields. simpl. rewrite blocks_round_trip by done. simpl. f_equal.
  destruct r as [role content stop usage model rid created fp seq lps]; simpl in *; subst.
  f_equal.
  - destruct stop as [s|]; [|done]. simpl. by rewrite stop_reason_round_trip by auto.
  - apply usage_round_trip.
  - by apply model_round_trip.
  - by destruct seq.
Qed.

Definition demo_response : IrResponse :=
  mkResponse RAssistant
    [BText "see" (Some (mkCache Ephemeral))
       [read_citation (Object [("type", Str CITATION_TYPE_PAGE); ("document_title", Str "t")]%string)];
     BThinking "hm" (Some "sig"%string) false None;
     BToolUse "toolu_1" "f" (Object [("x", num_u 1)]%string) None None]
    (Some StopToolUse) (mkUsage 10 20 (Some 3) None) (Some "claude"%string) (Some "msg_1"%string) None None None [].

Lemma anthropic_response_round_trip_witness :
  native_response demo_response /\ read_response (write_response "msg_x" demo_response) = Ok demo_response.
Proof.
  assert (H : native_response demo_response).
  { split; try done; [|by intros s [= <-]].
    repeat constructor. eexists. split; [|reflexivity]. reflexivity. }
  split; [exact H|]. exact (anthropic_response_round_trip "msg_x" demo_response H).
Defined.

(** ** Messages *)

(** Blocks a request may carry: a thinking block only with its signature. *)
Definition signed (b : IrBlock) : bool :=
  match b with BThinking _ None false _ => false | _ => true end.

Definition sendable (b : IrBlock) : Prop := native_block b /\ signed b = true.

Lemma write_sendable sentinel m i b :
  sendable b ->
  write_message_block sentinel m (i, b) =
    Some (match find_stashed_block sentinel m i with Some raw => raw | None => write_block b end).
Proof.
  intros [Hb Hs]. unfold write_message_block. simpl.
  destruct Hb; simpl in *; try (by destruct (find_stashed_block sentinel m i)).
  destruct sig; [|done]. by destruct (find_stashed_block sentinel m i).
Qed.

Lemma written_content m content (g : nat -> nat) :
  Forall sendable content ->
  omap (write_message_block [] m) (imap (fun i b => (g i, b)) content) = write_block <$> content.
Proof.
  intros Hc. revert g. induction Hc as [|b content Hb Hc IH]; intros g; [done|]. csimpl.
  rewrite (write_sendable [] m _ b Hb). simpl. f_equal. apply (IH (g ∘ S)).
Qed.

Record native_message (msg : IrMessage) : Prop := {
  nm_role : msg_role msg = RUser \/ msg_role msg = RAssistant;
  nm_content : Forall sendable (msg_content msg);
}.

Lemma message_round_trip msg m : native_message msg -> read_message (write_message msg m []) = Ok msg.
Proof.
  intros [Hrole Hc]. unfold write_message. rewrite (written_content m _ (fun i => i)) by done.
  unfold read_message. simpl ok_or. simpl mbind. cbv beta. lookup_fields. simpl.
  rewrite blocks_round_trip by (eapply Forall_impl; [exact Hc|]; by intros b [? _]).
  destruct msg as [role content]. simpl in *. by destruct Hrole as [-> | ->].
Qed.

(** No block the writer builds looks unmodelled. *)
Lemma written_is_modeled b :
  is_modeled_anthropic_block_type (default ""%string (get_str "type" (write_block b))) = true.
Proof.
  destruct b as [? [[[]]|] []|? [] [] [[[]]|]|? ? ? [[[]]|]|? [] [] [[[]]|]|[] [[[]]|]|]; reflexivity.
Qed.

Lemma nothing_stashed msg m m' : native_message msg -> stash_unmodeled_blocks (write_message msg m []) m' = [].
Proof.
  intros [Hrole Hc]. unfold write_message. rewrite (written_content m _ (fun i => i)) by done.
  unfold stash_unmodeled_blocks. simpl.
  assert (H : forall l (g : nat -> nat),
    omap (fun p : nat * Value =>
        let block_type := default ""%string (get_str "type" p.2) in
        if is_modeled_anthropic_block_type block_type then None
        else Some (Object [("m", num_u (Z.of_nat m')); ("i", num_u (Z.of_nat p.1)); ("block", p.2)]%string))
      (imap (fun i b => (g i, b)) (write_block <$> l)) = []).
  { induction l as [|b l IH]; intros g; [done|]. csimpl. rewrite written_is_modeled. apply (IH (g ∘ S)). }
  apply (H _ (fun i => i)).
Qed.

Lemma messages_round_trip msgs (g : nat -> nat) system acc :
  Forall native_message msgs ->
  read_messages (imap (fun m msg => write_message msg (g m) []) msgs) system acc [] = Ok (system, acc ++ msgs, []).
Proof.
  intros Hm. revert g acc. induction Hm as [|msg msgs Hmsg Hm IH]; intros g acc; csimpl; [by rewrite app_nil_r|].
  rewrite message_round_trip by done. simpl.
  rewrite bool_decide_eq_false_2 by (destruct Hmsg as [[H|H] _]; by rewrite H).
  rewrite nothing_stashed by done. rewrite (IH (g ∘ S)). by rewrite <- app_assoc.
Qed.

Lemma tool_round_trip t : t_hosted t = None -> read_tool (write_tool t) = Ok t.
Proof. destruct t as [n [d|] i [[[]]|] h]; simpl; by intros ->. Qed.

(** ** Requests *)

(** A sampling control the writer sends as it is. *)
Definition native_temperature (t : f64) : Prop :=
  f64_is_finite t = true /\ clamp_temperature_for_anthropic t = (t, false).

(** The thinking ask: absent, or a budget within the protocol's bounds with none of the controls
    the protocol refuses next to it. *)
Definition native_thinking_ask (r : IrRequest) : Prop :=
  match rq_reasoning r with
  | None => True
  | Some (Budget b) =>
      1024 <= b < 2 ^ 32 /\ (forall mt, rq_max_tokens r = Some mt -> b <= mt -sat 1024)
      /\ rq_temperature r = None /\ rq_top_p r = None /\ rq_top_k r = None
      /\ rq_tool_choice r <> Some TcRequired /\ (forall n, rq_tool_choice r <> Some (TcTool n))
  | Some _ => False
  end.

(** A tool choice needs tools; the parallelism switch needs a choice that is not [none]. *)
Definition native_tool_choice (r : IrRequest) : Prop :=
  (rq_tools r = [] -> rq_tool_choice r = None)
  /\ (rq_tool_choice r = None \/ rq_tool_choice r = Some TcNone -> rq_parallel_tool_calls r = None).

(** What the reader leaves in [extra]: nothing it models, each key once, and the caller's identity and
    thinking parameters in agreement with the typed fields. *)
Record native_extra (r : IrRequest) : Prop := {
  ne_once : keys_once (rq_extra r);
  ne_unmodeled : forall k, one_of k MODELED_KEYS = true -> field k (rq_extra r) = None;
  ne_sentinel : field ANTHROPIC_UNMODELED_BLOCKS_SENTINEL (rq_extra r) = None;
  ne_user : rq_user r = field "metadata" (rq_extra r) ≫= get_str "user_id";
  ne_thinking : match rq_reasoning r with
                | Some _ => field "thinking" (rq_extra r) = None
                | None => read_thinking (rq_extra r) = None
                end;
}.

Record native_request (r : IrRequest) : Prop := {
  nq_system : Forall native_block (rq_system r);
  nq_messages : Forall native_message (rq_messages r);
  nq_tools : Forall (fun t => t_hosted t = None) (rq_tools r);
  nq_max_tokens : forall v, rq_max_tokens r = Some v -> 0 < v < 2 ^ 32;
  nq_temperature : forall t, rq_temperature r = Some t -> native_temperature t;
  nq_top_p : forall t, rq_top_p r = Some t -> f64_is_finite t = true;
  nq_top_k : forall v, rq_top_k r = Some v -> 0 <= v < 2 ^ 32;
  nq_stop : Forall (fun s => is_empty s = false) (rq_stop r);
  nq_thinking : native_thinking_ask r;
  nq_tool_choice : native_tool_choice r;
  nq_extra : native_extra r;
  nq_foreign : rq_frequency_penalty r = None /\ rq_presence_penalty r = None /\ rq_seed r = None
               /\ rq_n r = None /\ rq_reasoning_budgets r = None /\ rq_logprobs r = None
               /\ rq_top_logprobs r = None /\ rq_response_format r = None;
}.

(** Equal but for the order of the keys of [extra]. *)
Definition set_extra (e : list (string * Value)) (r : IrRequest) : IrRequest :=
  {| rq_system := rq_system r; rq_messages := rq_messages r; rq_tools := rq_tools r;
     rq_max_tokens := rq_max_tokens r; rq_temperature := rq_temperature r; rq_top_p := rq_top_p r;
     rq_top_k := rq_top_k r; rq_frequency_penalty := rq_frequency_penalty r;
     rq_presence_penalty := rq_presence_penalty r; rq_seed := rq_seed r; rq_n := rq_n r;
     rq_reasoning := rq_reasoning r; rq_reasoning_budgets := rq_reasoning_budgets r;
     rq_logprobs := rq_logprobs r; rq_top_logprobs := rq_top_logprobs r;
     rq_response_format := rq_response_format r; rq_stop := rq_stop r; rq_tool_choice := rq_tool_choice r;
     rq_user := rq_user r; rq_parallel_tool_calls := rq_parallel_tool_calls r; rq_stream := rq_stream r;
     rq_extra := e |}.

Definition same_request (r r' : IrRequest) : Prop :=
  set_extra [] r = set_extra [] r' /\ same_fields (rq_extra r) (rq_extra r').

#[export] Instance same_request_equivalence : Equivalence same_request.
Proof.
  split; [by intros r|by intros r r' [H1 H2]|].
  intros r r' r'' [H1 H2] [H3 H4]. split; [by rewrite H1|by etrans].
Qed.

(** The tool choice as sent: downgraded next to thinking. *)
Definition sent_tool_choice (r : IrRequest) : option (list (string * Value)) :=
  match thinking_budget r with
  | Some _ => downgrade_tool_choice <$> write_tool_choice r
  | None => write_tool_choice r
  end.

(** A control the protocol refuses next to thinking. *)
Definition without_thinking {A} (r : IrRequest) (o : option A) : option A :=
  match thinking_budget r with Some _ => None | None => o end.

(** The controls of any request, as the writer sends them. *)
Lemma written_controls r :
  field "tools" (modeled_fields r) = Array ∘ fmap write_tool <$> nonempty_list (rq_tools r)
  /\ field "tool_choice" (modeled_fields r) = Object <$> sent_tool_choice r
  /\ field "max_tokens" (modeled_fields r) = num_u <$> rq_max_tokens r
  /\ field "thinking" (modeled_fields r)
     = (fun b => Object [("type", Str "enabled"); ("budget_tokens", num_u b)]%string) <$> thinking_budget r
  /\ field "temperature" (modeled_fields r)
     = (fun t => num_f (clamp_temperature_for_anthropic t).1) <$> without_thinking r (rq_temperature r)
  /\ field "top_p" (modeled_fields r) = num_f <$> without_thinking r (rq_top_p r)
  /\ field "top_k" (modeled_fields r) = num_u <$> without_thinking r (rq_top_k r)
  /\ field "stop_sequences" (modeled_fields r) = Array ∘ fmap Str <$> nonempty_list (rq_stop r)
  /\ field "stream" (modeled_fields r) = Some (Bool (rq_stream r))
  /\ field "metadata" (modeled_fields r) = (fun user => Object [("user_id", Str user)]%string) <$> rq_user r.
Proof. unfold modeled_fields. repeat split; by lookup_fields. Qed.

Lemma written_conversation r :
  field "system" (modeled_fields r)
    = Array ∘ fmap write_block <$> nonempty_list (rq_system r
        ++ concat (msg_content <$> filter (fun msg => msg_role msg = RSystem) (rq_messages r)))
  /\ field "messages" (modeled_fields r)
     = Some (Array (imap (fun m msg => write_message msg m
                            (default [] (field_array ANTHROPIC_UNMODELED_BLOCKS_SENTINEL (rq_extra r))))
                (filter (fun msg => msg_role msg <> RSystem) (rq_messages r)))).
Proof. unfold modeled_fields. split; by lookup_fields. Qed.

(** *** The modelled members, read back one at a time *)

Section written.
Context (r : IrRequest) (Hr : native_request r).

Definition sent : list (string * Value) := overlay (fun _ => true) (rq_extra r) (modeled_fields r).

Lemma field_sent k : field k sent = or_else (field k (rq_extra r)) (field k (modeled_fields r)).
Proof. apply field_overlay, ne_once, nq_extra, Hr. Qed.

Lemma field_sent_modeled k : one_of k MODELED_KEYS = true -> field k sent = field k (modeled_fields r).
Proof. intros Hk. rewrite field_sent. by rewrite (ne_unmodeled _ (nq_extra _ Hr) k Hk). Qed.

Lemma no_system_messages :
  filter (fun msg => msg_role msg = RSystem) (rq_messages r) = []
  /\ filter (fun msg => msg_role msg <> RSystem) (rq_messages r) = rq_messages r.
Proof.
  assert (H : Forall (fun msg => msg_role msg <> RSystem) (rq_messages r)).
  { eapply Forall_impl; [apply nq_messages, Hr|]. intros msg [[H|H] _]; by rewrite H. }
  split; [|by apply filter_all]. induction H as [|msg msgs Hm H IH]; [done|]. by rewrite filter_cons_False.
Qed.

Lemma sentinel_absent : field_array ANTHROPIC_UNMODELED_BLOCKS_SENTINEL (rq_extra r) = None.
Proof. unfold field_array. by rewrite (ne_sentinel _ (nq_extra _ Hr)). Qed.

Lemma thinking_budget_native :
  thinking_budget r = match rq_reasoning r with Some (Budget b) => Some b | _ => None end.
Proof.
  pose proof (nq_thinking _ Hr) as H. unfold native_thinking_ask in H. unfold thinking_budget.
  destruct (rq_reasoning r) as [[e|b|]|]; try done. simpl. destruct H as (Hb & Hmt & _).
  destruct (rq_max_tokens r) as [mt|]; [specialize (Hmt mt eq_refl)|].
  - rewrite Z.min_l by lia. rewrite (proj2 (Z.leb_le 1024 b)) by lia. done.
  - rewrite (proj2 (Z.leb_le 1024 b)) by lia. done.
Qed.

Lemma downgrade_native : forall b, rq_reasoning r = Some b ->
  downgrade_tool_choice <$> write_tool_choice r = write_tool_choice r.
Proof.
  intros b Hb. pose proof (nq_thinking _ Hr) as H. unfold native_thinking_ask in H. rewrite Hb in H.
  destruct b as [|b|]; try done. destruct H as (_ & _ & _ & _ & _ & H1 & H2).
  unfold write_tool_choice. destruct (rq_tools r); [done|].
  destruct (rq_tool_choice r) as [[| | |n]|]; try done; [..|by destruct (H2 n)|];
    by destruct (rq_parallel_tool_calls r).
Qed.

Lemma sent_tool_choice_native : sent_tool_choice r = write_tool_choice r.
Proof.
  unfold sent_tool_choice. rewrite thinking_budget_native. pose proof downgrade_native as H.
  destruct (rq_reasoning r) as [[]|]; try done. by eapply H.
Qed.

Lemma conversation_sent :
  field "system" (modeled_fields r) = Array ∘ fmap write_block <$> nonempty_list (rq_system r)
  /\ field "messages" (modeled_fields r)
     = Some (Array (imap (fun m msg => write_message msg m []) (rq_messages r))).
Proof.
  destruct (written_conversation r) as [-> ->]. destruct no_system_messages as [-> ->].
  by rewrite sentinel_absent, app_nil_r.
Qed.

Lemma modeled_other k :
  one_of k MODELED_KEYS = false -> k <> "thinking"%string -> k <> "metadata"%string ->
  field k (modeled_fields r) = None.
Proof.
  unfold one_of, MODELED_KEYS, existsb. rewrite !orb_false_iff.
  intros (H1 & H2 & H3 & H4 & H5 & H6 & H7 & H8 & H9 & H10 & H11 & _) Ht Hm.
  unfold modeled_fields. rewrite ?field_set_opt, ?field_set, ?field_set_opt, ?field_set.
  repeat (rewrite ?field_set_opt, ?field_set).
  rewrite !(String.eqb_sym _ k). rewrite H1, H2, H4, H5, H6, H7, H8, H9, H10, H11.
  by rewrite (proj2 (String.eqb_neq k _) Ht), (proj2 (String.eqb_neq k _) Hm).
Qed.

(** A control the protocol refuses next to thinking is absent when there is a budget. *)
Lemma without_thinking_id {A} (f : IrRequest -> option A) :
  (forall b, rq_reasoning r = Some (Budget b) -> f r = None) -> without_thinking r (f r) = f r.
Proof.
  intros H. unfold without_thinking. rewrite thinking_budget_native.
  destruct (rq_reasoning r) as [[|b|]|]; try done. by rewrite (H b).
Qed.

Lemma refused_next_to_thinking b :
  rq_reasoning r = Some (Budget b) -> rq_temperature r = None /\ rq_top_p r = None /\ rq_top_k r = None.
Proof.
  intros Hb. pose proof (nq_thinking _ Hr) as H. unfold native_thinking_ask in H. rewrite Hb in H.
  by destruct H as (_ & _ & ? & ? & ? & _).
Qed.

Lemma read_system_sent : read_system (field "system" sent) = Ok (rq_system r).
Proof.
  rewrite field_sent_modeled by done. rewrite (proj1 conversation_sent).
  destruct (rq_system r) as [|b l] eqn:E; [done|]. rewrite <- E.
  replace (nonempty_list (rq_system r)) with (Some (rq_system r)) by by rewrite E.
  apply (blocks_round_trip (rq_system r)), nq_system, Hr.
Qed.

Lemma read_messages_sent :
  read_messages (default [] (field_array "messages" sent)) (rq_system r) [] [] = Ok (rq_system r, rq_messages r, []).
Proof.
  unfold field_array. rewrite field_sent_modeled by done. destruct conversation_sent as [_ ->].
  apply (messages_round_trip (rq_messages r) (fun m => m) (rq_system r) []), nq_messages, Hr.
Qed.

Lemma stream_sent : default false (field_bool "stream" sent) = rq_stream r.
Proof.
  unfold field_bool. rewrite field_sent_modeled by done.
  by destruct (written_controls r) as (_ & _ & _ & _ & _ & _ & _ & _ & -> & _).
Qed.

Lemma read_tools_sent : collect read_tool (default [] (field_array "tools" sent)) = Ok (rq_tools r).
Proof.
  unfold field_array. rewrite field_sent_modeled by done.
  destruct (written_controls r) as (-> & _). pose proof (nq_tools _ Hr) as Ht.
  assert (H : collect read_tool (write_tool <$> rq_tools r) = Ok (rq_tools r)).
  { apply collect_inverse. eapply Forall_impl; [exact Ht|]. apply tool_round_trip. }
  by destruct (rq_tools r).
Qed.

Lemma try_u32_id v : 0 <= v < 2 ^ 32 -> try_u32 v = Some v.
Proof.
  intros Hv. unfold try_u32. by rewrite (proj2 (Z.leb_le 0 v)), (proj2 (Z.ltb_lt v _)) by lia.
Qed.

Lemma max_tokens_sent :
  match field_u64 "max_tokens" sent ≫= try_u32 with
  | Some v => if 0 <? v then Some v else None
  | None => None
  end = rq_max_tokens r.
Proof.
  unfold field_u64. rewrite field_sent_modeled by done. destruct (written_controls r) as (_ & _ & -> & _).
  pose proof (nq_max_tokens _ Hr) as H. destruct (rq_max_tokens r) as [v|]; [|done].
  specialize (H v eq_refl). simpl. rewrite try_u32_id by lia. by rewrite (proj2 (Z.ltb_lt 0 v)) by lia.
Qed.

Lemma temperature_sent : field_f64 "temperature" sent = rq_temperature r.
Proof.
  unfold field_f64. rewrite field_sent_modeled by done.
  destruct (written_controls r) as (_ & _ & _ & _ & -> & _).
  rewrite (without_thinking_id rq_temperature) by (intros b Hb; by apply (refused_next_to_thinking b)).
  pose proof (nq_temperature _ Hr) as H. destruct (rq_temperature r) as [t|]; [|done].
  destruct (H t eq_refl) as [Hf Hc]. simpl. rewrite Hc. by apply as_f64_num.
Qed.

Lemma top_p_sent : field_f64 "top_p" sent = rq_top_p r.
Proof.
  unfold field_f64. rewrite field_sent_modeled by done.
  destruct (written_controls r) as (_ & _ & _ & _ & _ & -> & _).
  rewrite (without_thinking_id rq_top_p) by (intros b Hb; by apply (refused_next_to_thinking b)).
  pose proof (nq_top_p _ Hr) as H. destruct (rq_top_p r) as [t|]; [|done]. by apply as_f64_num, H.
Qed.

Lemma top_k_sent : field_u64 "top_k" sent ≫= try_u32 = rq_top_k r.
Proof.
  unfold field_u64. rewrite field_sent_modeled by done.
  destruct (written_controls r) as (_ & _ & _ & _ & _ & _ & -> & _).
  rewrite (without_thinking_id rq_top_k) by (intros b Hb; by apply (refused_next_to_thinking b)).
  pose proof (nq_top_k _ Hr) as H. destruct (rq_top_k r) as [v|]; [|done]. by apply try_u32_id, H.
Qed.

Lemma stop_sent : read_stop_sequences (field "stop_sequences" sent) = rq_stop r.
Proof.
  rewrite field_sent_modeled by done. destruct (written_controls r) as (_ & _ & _ & _ & _ & _ & _ & -> & _).
  pose proof (nq_stop _ Hr) as H. revert H. generalize (rq_stop r) as l. intros l H.
  assert (He : List.filter (fun s => negb (is_empty s)) (omap as_str (Str <$> l)) = l).
  { induction H as [|s l Hs Hl IH]; [done|]. csimpl. by rewrite Hs, IH. }
  by destruct l.
Qed.

Lemma tool_choice_sent :
  read_anthropic_tool_choice (field "tool_choice" sent) = rq_tool_choice r
  /\ negb <$> ((field "tool_choice" sent ≫= get "disable_parallel_tool_use") ≫= as_bool)
     = rq_parallel_tool_calls r.
Proof.
  rewrite field_sent_modeled by done. destruct (written_controls r) as (_ & -> & _). rewrite sent_tool_choice_native.
  destruct (nq_tool_choice _ Hr) as [Ht Hp]. unfold write_tool_choice.
  destruct (rq_tools r) as [|t l].
  { rewrite Ht, Hp by auto. done. }
  destruct (rq_tool_choice r) as [[| | |n]|]; [|rewrite Hp by auto; done|..|rewrite Hp by auto; done];
    by destruct (rq_parallel_tool_calls r) as [[]|].
Qed.

Lemma thinking_sent : read_thinking sent = rq_reasoning r.
Proof.
  pose proof (ne_thinking _ (nq_extra _ Hr)) as He. pose proof (nq_thinking _ Hr) as H.
  unfold native_thinking_ask in H. unfold read_thinking in *. rewrite field_sent.
  destruct (written_controls r) as (_ & _ & _ & -> & _). rewrite thinking_budget_native.
  destruct (rq_reasoning r) as [[|b|]|]; try done.
  - rewrite He. simpl. rewrite try_u32_id by lia. done.
  - simpl. by rewrite or_else_None.
Qed.

Lemma user_sent : field "metadata" sent ≫= get_str "user_id" = rq_user r.
Proof.
  rewrite field_sent. pose proof (ne_user _ (nq_extra _ Hr)) as He.
  destruct (written_controls r) as (_ & _ & _ & _ & _ & _ & _ & _ & _ & ->).
  destruct (field "metadata" (rq_extra r)) as [v|]; [done|]. simpl. by rewrite He.
Qed.

Lemma modeled_once : keys_once (modeled_fields r).
Proof.
  unfold modeled_fields. repeat first [apply set_opt_once|apply set_field_once]. apply NoDup_nil_2.
Qed.

Lemma extra_sent : same_fields (rq_extra r) (read_extra sent [] (rq_reasoning r)).
Proof.
  intros k. pose proof (nq_extra _ Hr) as [Hone Hun _ Hu Hth]. unfold read_extra. change (set_opt _ _ _) with (@nil (string * Value)).
  assert (Hk : field k (overlay (fun key => negb (one_of key MODELED_KEYS)) sent [])
               = if one_of k MODELED_KEYS then None else field k sent).
  { rewrite field_overlay by apply overlay_once, modeled_once. destruct (one_of k MODELED_KEYS); [done|].
    simpl. apply or_else_None. }
  destruct (one_of k MODELED_KEYS) eqn:Em.
  { rewrite (Hun k Em). destruct (rq_reasoning r); [|done]. rewrite field_remove, Hk.
    by destruct (String.eqb _ _). }
  destruct (decide (k = "thinking"%string)) as [->|Ht].
  { rewrite field_sent in Hk. destruct (written_controls r) as (_ & _ & _ & Hm & _).
    rewrite Hm, thinking_budget_native in Hk. destruct (rq_reasoning r).
    - by rewrite field_remove, Hth.
    - rewrite Hk. simpl. by rewrite or_else_None. }
  assert (Hs : field k sent = field k (rq_extra r)).
  { rewrite field_sent. destruct (decide (k = "metadata"%string)) as [->|Hm].
    - destruct (written_controls r) as (_ & _ & _ & _ & _ & _ & _ & _ & _ & ->).
      destruct (field "metadata" (rq_extra r)) as [v|]; [done|]. simpl in Hu. by rewrite Hu.
    - rewrite modeled_other by done. apply or_else_None. }
  destruct (rq_reasoning r); [|by rewrite Hk, Hs].
  rewrite field_remove, Hk, Hs. by rewrite (proj2 (String.eqb_neq "thinking" k)) by congruence.
Qed.
End written.

(** C16. A request in the vocabulary of the Messages protocol - system prompt, history with signed thinking,
    tool calls and results, tools, sampling controls within the protocol's ranges, a thinking budget, the
    tool choice with its parallelism switch, the end user - is read back as the request it was written
    from, with every member of [extra] as it stood. *)
Theorem anthropic_request_round_trip r :
  native_request r -> exists r', read_request (write_request r) = Ok r' /\ same_request r r'.
Proof.
  intros Hr. unfold read_request. change (write_request r) with (Object (sent r)). eexists. split.
  - eapply Parsed_bind_intro; [reflexivity|]. eapply Parsed_bind_intro; [apply read_system_sent, Hr|].
    eapply Parsed_bind_intro; [apply read_messages_sent, Hr|].
    eapply Parsed_bind_intro; [apply read_tools_sent, Hr|]. reflexivity.
  - split; [|cbn [rq_extra]; rewrite (thinking_sent r Hr); by apply extra_sent].
    unfold set_extra. cbn -[field_u64 field_f64 field sent].
    rewrite (max_tokens_sent r Hr), (temperature_sent r Hr), (top_p_sent r Hr), (top_k_sent r Hr),
      (thinking_sent r Hr), (stop_sent r Hr), (stream_sent r Hr), (user_sent r Hr).
    destruct (tool_choice_sent r Hr) as [-> ->].
    by destruct (nq_foreign _ Hr) as (-> & -> & -> & -> & -> & -> & -> & ->).
Qed.

Definition demo_request : IrRequest :=
  {| rq_system := [BText "be brief" (Some (mkCache Ephemeral)) []];
     rq_messages := [mkMessage RUser [plain_text "hi"];
                     mkMessage RAssistant [BThinking "hm" (Some "sig"%string) false None;
                                           BToolUse "toolu_1" "f" (Object []) None None];
                     mkMessage RUser [BToolResult "toolu_1" [plain_text "42"] true None]];
     rq_tools := [mkTool "f" (Some "does f"%string) (Object [("type", Str "object")]%string) None None];
     rq_max_tokens := Some 4096; rq_temperature := None; rq_top_p := None; rq_top_k := None;
     rq_frequency_penalty := None; rq_presence_penalty := None; rq_seed := None; rq_n := None;
     rq_reasoning := Some (Budget 2048); rq_reasoning_budgets := None; rq_logprobs := None;
     rq_top_logprobs := None; rq_response_format := None; rq_stop := ["END"%string];
     rq_tool_choice := Some TcAuto; rq_user := Some "u1"%string; rq_parallel_tool_calls := Some false;
     rq_stream := true;
     rq_extra := [("metadata", Object [("user_id", Str "u1")]); ("service_tier", Str "auto")]%string |}.

Lemma demo_request_extra : native_extra demo_request.
Proof.
  split; try reflexivity; [by repeat constructor; set_solver|].
  intros k Hk. apply field_None. simpl. intros H. apply elem_of_cons in H as [->|H]; [done|].
  apply elem_of_cons in H as [->|H]; [done|]. by apply elem_of_nil in H.
Qed.

Lemma demo_request_native : native_request demo_request.
Proof.
  split; try (by simpl; intros; simplify_eq); try done; try apply demo_request_extra.
  - repeat constructor.
  - repeat first [apply Forall_cons; split|apply Forall_nil_2]; (split; simpl; [by auto|]);
      repeat first [apply Forall_cons; split|apply Forall_nil_2]; (split; [|done]); repeat constructor; done.
  - repeat constructor.
  - repeat constructor.
  - simpl. repeat split; try done. intros mt [= <-]. unfold sat_sub. lia.
  - split; [done|]. by intros [|].
Qed.

Lemma anthropic_request_round_trip_witness :
  native_request demo_request
  /\ exists r', read_request (write_request demo_request) = Ok r' /\ same_request demo_request r'.
Proof.
  split; [exact demo_request_native|]. exact (anthropic_request_round_trip demo_request demo_request_native).
Defined.

(** ** Blocks the reader has no model of *)

(** The entries of other messages do not answer for message [m]. *)
Definition elsewhere (m : nat) (entry : Value) : Prop :=
  forall em, get_u64 "m" entry = Some em -> em <> Z.of_nat m.

Lemma elsewhere_not_found m i l : Forall (elsewhere m) l -> omap (stashed_at m i) l = [].
Proof.
  induction 1 as [|e l He Hl IH]; [done|]. csimpl. rewrite IH. unfold stashed_at.
  destruct (get_u64 "m" e) as [em|] eqn:E; simpl; [|done]. destruct (get_u64 "i" e) as [ei|]; simpl; [|done].
  rewrite (proj2 (Z.eqb_neq em _)) by by apply He. done.
Qed.

Definition modeled (block_val : Value) : bool :=
  is_modeled_anthropic_block_type (default ""%string (get_str "type" block_val)).

Definition stash_entry (m : nat) (p : nat * Value) : option Value :=
  if modeled p.2 then None
  else Some (Object [("m", num_u (Z.of_nat m)); ("i", num_u (Z.of_nat p.1)); ("block", p.2)]%string).

(** Looking position [i] up among the entries of the positions from [n] on. *)
Lemma stash_lookup m n i arr :
  omap (stashed_at m i) (omap (stash_entry m) (imap (fun j b => ((n + j)%nat, b)) arr))
  = match arr !! (i - n)%nat with
    | Some b => if (n <=? i)%nat && negb (modeled b) then [b] else []
    | None => []
    end.
Proof.
  revert n. induction arr as [|b arr IH]; intros n; csimpl; [done|].
  assert (Hrec : omap (stashed_at m i) (omap (stash_entry m) (imap ((fun j b => ((n + j)%nat, b)) ∘ S) arr))
                 = match arr !! (i - S n)%nat with
                   | Some b => if (S n <=? i)%nat && negb (modeled b) then [b] else []
                   | None => []
                   end).
  { rewrite <- IH. do 2 f_equal. apply imap_ext. intros j b' _. simpl. f_equal. lia. }
  assert (Hi : stashed_at m i (Object [("m", num_u (Z.of_nat m)); ("i", num_u (Z.of_nat (n + 0))); ("block", b)]%string)
               = if (n =? i)%nat then Some b else None).
  { unfold stashed_at. simpl. rewrite Z.eqb_refl. simpl. rewrite Nat.add_0_r.
    destruct (Nat.eqb_spec n i) as [->|Hn]; [by rewrite Z.eqb_refl|]. by rewrite (proj2 (Z.eqb_neq _ _)) by lia. }
  destruct (Nat.lt_trichotomy n i) as [Hlt|[->|Hgt]].
  - replace (i - n)%nat with (S (i - S n)) by lia. simpl.
    rewrite (proj2 (Nat.leb_le n i)) by lia. rewrite (proj2 (Nat.leb_le (S n) i)) in Hrec by lia.
    rewrite (proj2 (Nat.eqb_neq n i)) in Hi by lia.
    unfold stash_entry at 1. simpl. destruct (modeled b); csimpl; [|rewrite Hi]; apply Hrec.
  - rewrite Nat.sub_diag, Nat.leb_refl. simpl. rewrite Nat.eqb_refl in Hi.
    replace (i - S i)%nat with 0%nat in Hrec by lia.
    rewrite (proj2 (Nat.leb_gt (S i) i)) in Hrec by lia.
    assert (Hn : match arr !! 0%nat with Some b => if false && negb (modeled b) then [b] else [] | None => [] end = [])
      by by destruct (arr !! 0%nat).
    rewrite Hn in Hrec. unfold stash_entry at 1. simpl. destruct (modeled b); csimpl; [|rewrite Hi]; by rewrite Hrec.
  - rewrite (proj2 (Nat.leb_gt (S n) i)) in Hrec by lia. rewrite (proj2 (Nat.leb_gt n i)) by lia.
    rewrite (proj2 (Nat.eqb_neq n i)) in Hi by lia. simpl in Hrec |- *.
    replace (i - S n)%nat with 0%nat in Hrec by lia. replace (i - n)%nat with 0%nat by lia.
    simpl. assert (Hn : match arr !! 0%nat with Some _ => @nil Value | None => [] end = [])
      by by destruct (arr !! 0%nat).
    rewrite Hn in Hrec. unfold stash_entry at 1. simpl. destruct (modeled b); csimpl; [|rewrite Hi]; apply Hrec.
Qed.

(** A block of a message on the wire: one the reader knows, in the writer's own spelling, or one it
    does not know. *)
Inductive wire_block : Value -> Prop :=
  | wire_known b : sendable b -> wire_block (write_block b)
  | wire_unknown obj : modeled (Object obj) = false -> wire_block (Object obj).

Definition wire_message (role : string) (arr : list Value) : Value :=
  Object [("role", Str role); ("content", Array arr)]%string.

Lemma wire_block_read v :
  wire_block v -> exists b, read_block v = Ok b /\ sendable b /\ (modeled v = true -> write_block b = v).
Proof.
  destruct 1 as [b [Hb Hs]|obj Hm].
  - exists b. rewrite block_round_trip by done. done.
  - exists (plain_text "").
    assert (Ht : is_modeled_anthropic_block_type (default ""%string (field_str "type" obj)) = false) by exact Hm.
    revert Ht. unfold is_modeled_anthropic_block_type, one_of. cbn [existsb read_block].
    rewrite !orb_false_iff. intros (-> & -> & -> & -> & -> & -> & _).
    split; [done|]. split; [|by rewrite Hm]. by repeat constructor.
Qed.

Lemma wire_blocks_written m arr content :
  Forall wire_block arr -> collect read_block arr = Ok content ->
  forall pre post, Forall (elsewhere m) pre -> Forall (elsewhere m) post ->
  omap (write_message_block (pre ++ omap (stash_entry m) (imap pair arr) ++ post) m) (imap pair content) = arr.
Proof.
  intros Hw Hc pre post Hpre Hpost. set (s := pre ++ _ ++ post).
  assert (Hs : forall i, find_stashed_block s m i
             = match arr !! i with Some b => if negb (modeled b) then Some b else None | None => None end).
  { intros i. unfold find_stashed_block, s. rewrite !omap_app, (elsewhere_not_found m i pre), (elsewhere_not_found m i post), app_nil_r by done.
    cbn [app].
    pose proof (stash_lookup m 0 i arr) as H. rewrite Nat.sub_0_r in H. simpl in H.
    replace (imap pair arr) with (imap (fun j b => (j, b)) arr) by done. rewrite H.
    destruct (arr !! i) as [b|]; [|done]. by destruct (modeled b). }
  clearbody s. apply collect_Ok in Hc.
  assert (H : forall (n : nat) arr' content', Forall wire_block arr' ->
    Forall2 (fun a b => read_block a = Ok b) arr' content' ->
    (forall i, find_stashed_block s m (n + i)
               = match arr' !! i with Some b => if negb (modeled b) then Some b else None | None => None end) ->
    omap (write_message_block s m) (imap (fun i b => ((n + i)%nat, b)) content') = arr').
  { intros n arr' content' Hw' Hc'. revert n.
    induction Hc' as [|v b arr' content' Hv Hc' IH]; intros n Hf; [done|].
    apply Forall_cons in Hw' as [Hwv Hw']. csimpl.
    destruct (wire_block_read v Hwv) as (b' & Hb' & Hsend & Hmod).
    assert (b' = b) as -> by congruence.
    rewrite (write_sendable s m _ b Hsend). pose proof (Hf 0%nat) as H0. simpl in H0. rewrite H0.
    f_equal.
    - destruct (modeled v) eqn:E; simpl; [by apply Hmod|done].
    - etrans; [|apply (IH Hw' (S n))].
      + f_equal. apply imap_ext. intros i b0 _. simpl. f_equal. lia.
      + intros i. specialize (Hf (S i)). by replace (S n + i)%nat with (n + S i)%nat by lia. }
  apply (H 0%nat arr content Hw Hc Hs).
Qed.

(** A message of the history that mixes known blocks with blocks of types the reader has no model of
    (documents, server tools, ...) leaves the reader and the writer as it came: every unknown block is put
    back verbatim at its own position, whatever other messages have stashed. *)
Theorem unmodeled_blocks_come_back role arr m pre post :
  role = "user"%string \/ role = "assistant"%string ->
  Forall wire_block arr -> Forall (elsewhere m) pre -> Forall (elsewhere m) post ->
  exists msg,
    read_message (wire_message role arr) = Ok msg
    /\ write_message msg m (pre ++ stash_unmodeled_blocks (wire_message role arr) m ++ post)
       = wire_message role arr.
Proof.
  intros Hrole Hw Hpre Hpost.
  destruct (collect_total read_block arr) as [content Hc].
  { eapply Forall_impl; [exact Hw|]. intros v Hv. destruct (wire_block_read v Hv) as (b & Hb & _). by exists b. }
  pose proof (wire_blocks_written m arr content Hw Hc pre post Hpre Hpost) as H.
  destruct Hrole as [-> | ->]; eexists; (split; [unfold read_message, wire_message; simpl; by rewrite Hc|]);
    unfold write_message; cbn [msg_role msg_content]; (replace (stash_unmodeled_blocks _ m)
      with (omap (stash_entry m) (imap pair arr)) by done); by rewrite H.
Qed.

Definition demo_document : Value := Object [("type", Str "document"); ("title", Str "report")]%string.

Lemma unmodeled_blocks_come_back_witness :
  exists msg,
    read_message (wire_message "user" [write_block (plain_text "read"); demo_document]) = Ok msg
    /\ write_message msg 3
         ([] ++ stash_unmodeled_blocks (wire_message "user" [write_block (plain_text "read"); demo_document]) 3 ++ [])
       = wire_message "user" [write_block (plain_text "read"); demo_document].
Proof.
  apply (unmodeled_blocks_come_back "user" [write_block (plain_text "read"); demo_document] 3 [] []).
  - by left.
  - apply Forall_cons. split; [|apply Forall_cons; split; [|apply Forall_nil_2]].
    + apply wire_known. by repeat constructor.
    + apply wire_unknown. reflexivity.
  - apply Forall_nil_2.
  - apply Forall_nil_2.
Defined.
