(* ===== verification/AnthropicEgress.v ===== *)
(** * AnthropicEgress: what the Messages API is sent

    Requests of any protocol, prepared for the lane and written for the Messages API, keep to the rules
    the API refuses a request for; the events of a stream are read back as they were written. *)

From S2P Require Import Prelude Float64 Breaker Json Classifier Ir ToolIds EgressPrep Anthropic AnthropicSpec.
From Stdlib Require Import SpecFloat.

#[local] Open Scope Z_scope.

(** ** The temperature *)

Lemma compare_finite a b :
  f64_is_finite a = true -> f64_is_finite b = true -> exists c, SFcompare a b = Some c /\ SFcompare b a = Some (CompOpp c).
Proof.
  destruct a as [sa|sa| |sa ma ea], b as [sb|sb| |sb mb eb]; try done; intros _ _; simpl.
  - by exists Eq.
  - by destruct sb; eexists.
  - by destruct sa; eexists.
  - assert (He : (eb ?= ea) = CompOpp (ea ?= eb)) by apply Z.compare_antisym.
    assert (Hm : Pos.compare_cont Eq mb ma = CompOpp (Pos.compare_cont Eq ma mb))
      by (symmetry; apply (Pos.compare_cont_antisym ma mb Eq)).
    rewrite He, Hm. destruct sa, sb; (eexists; split; [reflexivity|]); try done;
      destruct (ea ?= eb); simpl; try done; by destruct (Pos.compare_cont Eq ma mb).
Qed.

Lemma not_lt_le a b :
  f64_is_finite a = true -> f64_is_finite b = true -> f64_lt a b = false -> f64_le b a = true.
Proof.
  intros Ha Hb. destruct (compare_finite a b Ha Hb) as (c & H1 & H2).
  unfold f64_lt, f64_le, SFltb, SFleb. rewrite H1, H2. by destruct c.
Qed.

Lemma clamped_in_range t :
  f64_is_finite t = true ->
  let c := (clamp_temperature_for_anthropic t).1 in
  f64_is_finite c = true /\ f64_le f64_zero c = true /\ f64_le c f64_one = true.
Proof.
  intros Ht. unfold clamp_temperature_for_anthropic. rewrite Ht. simpl.
  destruct (f64_lt t f64_zero) eqn:E0; [done|]. destruct (f64_lt f64_one t) eqn:E1; [done|].
  split; [done|]. split; by apply not_lt_le.
Qed.

(** ** The rules *)

(** A thinking block the API refuses: it carries no signature. *)
Definition unsigned_thinking (v : Value) : Prop :=
  get_str "type" v = Some "thinking"%string /\ get "signature" v = None.

Definition accepted_message (v : Value) : Prop :=
  (get_str "role" v = Some "user"%string \/ get_str "role" v = Some "assistant"%string)
  /\ exists blocks, get_array "content" v = Some blocks /\ Forall (fun b => ~ unsigned_thinking b) blocks.

Record accepted_request (out : list (string * Value)) : Prop := {
  ar_max_tokens : exists n, field_u64 "max_tokens" out = Some n /\ 0 < n;
  ar_temperature : forall v, field "temperature" out = Some v ->
    exists t, v = Num (Float t) /\ f64_le f64_zero t = true /\ f64_le t f64_one = true;
  ar_thinking : forall t, field "thinking" out = Some t ->
    exists b n, get_u64 "budget_tokens" t = Some b /\ field_u64 "max_tokens" out = Some n
      /\ 1024 <= b /\ b < n
      /\ field "temperature" out = None /\ field "top_p" out = None /\ field "top_k" out = None
      /\ (forall tc, field "tool_choice" out = Some tc ->
           get_str "type" tc <> Some "any"%string /\ get_str "type" tc <> Some "tool"%string);
  ar_tool_choice : forall tc, field "tool_choice" out = Some tc ->
    exists t ts, field_array "tools" out = Some (t :: ts);
  ar_messages : exists ms, field_array "messages" out = Some ms /\ Forall accepted_message ms;
  ar_members : forall k, field k out <> None ->
    one_of k MODELED_KEYS = true \/ k = "thinking"%string \/ k = "metadata"%string;
}.

(** Numbers a reader can have read: a positive [max_tokens], a finite temperature. *)
Record plausible (r : IrRequest) : Prop := {
  pl_max_tokens : forall n, rq_max_tokens r = Some n -> 0 < n;
  pl_temperature : forall t, rq_temperature r = Some t -> f64_is_finite t = true;
}.

Lemma thinking_budget_bounds r b :
  thinking_budget r = Some b ->
  1024 <= b /\ forall n, rq_max_tokens r = Some n -> b + 1024 <= n.
Proof.
  unfold thinking_budget. intros H. destruct (rq_reasoning r) as [ask|]; [|done]. simpl in H.
  destruct (rq_max_tokens r) as [n|].
  - destruct (1024 <=? Z.min _ _) eqn:E; [|done]. simplify_eq. zbool. split; [done|].
    intros n' [= <-]. unfold sat_sub in *. lia.
  - destruct (1024 <=? _) eqn:E; [|done]. simplify_eq. by zbool.
Qed.

Lemma downgraded tc :
  field_str "type" (downgrade_tool_choice tc) <> Some "any"%string
  /\ field_str "type" (downgrade_tool_choice tc) <> Some "tool"%string.
Proof.
  unfold downgrade_tool_choice. destruct (one_of _ _) eqn:E.
  - unfold field_str. rewrite field_remove. simpl. rewrite field_set_eq. by split.
  - unfold one_of in E. cbn [existsb] in E. rewrite !orb_false_iff in E. destruct E as (E1 & E2 & _).
    split; intros H; rewrite H in E1, E2; discriminate.
Qed.

Lemma written_message_accepted msg m : accepted_message (write_message msg m []).
Proof.
  split; [by destruct msg as [[] ?]; simpl; auto|]. eexists. split; [reflexivity|].
  apply Forall_forall. intros v Hv. apply list_elem_of_omap in Hv as ([i b] & _ & Hb).
  unfold write_message_block in Hb. simpl in Hb. intros [Ht Hs].
  destruct b as [t [[[]]|] []|t sig [] [[[]]|]|? ? ? [[[]]|] ?|? [] [] [[[]]|]|[] [[[]]|]|]; try (destruct sig);
    simpl in Hb; simplify_eq; try discriminate Ht; try discriminate Hs.
Qed.

Lemma modeled_members r k :
  field k (modeled_fields r) <> None ->
  one_of k MODELED_KEYS = true \/ k = "thinking"%string \/ k = "metadata"%string.
Proof.
  intros Hk. destruct (one_of k MODELED_KEYS) eqn:E; [by left|]. right.
  destruct (decide (k = "thinking"%string)); [by left|]. destruct (decide (k = "metadata"%string)); [by right|].
  by rewrite modeled_other in Hk.
Qed.

(** A request with nothing private keeps to the rules. *)
Lemma written_request_accepted r :
  rq_extra r = [] -> is_Some (rq_max_tokens r) -> plausible r -> accepted_request (modeled_fields r).
Proof.
  intros Hx [n Hn] [Hpos Hfin].
  destruct (written_controls r) as (Htools & Htc & Hmt & Hth & Htemp & Htp & Htk & _).
  destruct (written_conversation r) as [_ Hms]. rewrite Hx in Hms.
  assert (Hn' : field_u64 "max_tokens" (modeled_fields r) = Some n).
  { unfold field_u64. by rewrite Hmt, Hn. }
  split.
  - exists n. auto.
  - intros v Hv. rewrite Htemp in Hv. unfold without_thinking in Hv.
    destruct (thinking_budget r); [done|]. destruct (rq_temperature r) as [t|]; [|done].
    destruct (clamped_in_range t (Hfin t eq_refl)) as (Hf & H0 & H1). simpl in Hv. simplify_eq.
    unfold num_f. rewrite Hf. by eexists.
  - intros t Ht. rewrite Hth in Ht. unfold without_thinking in Htemp, Htp, Htk. unfold sent_tool_choice in Htc.
    destruct (thinking_budget r) as [b|] eqn:Eb; [|done]. simpl in Ht. simplify_eq.
    destruct (thinking_budget_bounds r b Eb) as [Hb Hbn]. specialize (Hbn n Hn).
    exists b, n. split; [done|]. split; [done|]. do 5 (split; [done || lia|]).
    intros tc. rewrite Htc. destruct (write_tool_choice r) as [tc'|]; [|done]. intros [= <-].
    apply (downgraded tc').
  - intros tc. rewrite Htc. unfold field_array. rewrite Htools. unfold sent_tool_choice, write_tool_choice.
    destruct (rq_tools r) as [|t ts]; [by destruct (thinking_budget r)|]. intros _. by do 2 eexists.
  - unfold field_array. rewrite Hms. eexists. split; [reflexivity|]. apply Forall_forall. intros v Hv.
    apply elem_of_lookup_imap in Hv as (i & msg & -> & _). apply written_message_accepted.
  - apply modeled_members.
Qed.

(** C1. A request of any protocol, prepared for a Messages lane and written, is one the Messages API has
    no rule against: [max_tokens] is there, the temperature lies in its range, thinking fits under
    [max_tokens] and stands next to no control it excludes and no forced tool, a tool choice comes with
    tools, no thinking block lacks its signature, every role is one of the two, and there is no member the
    API does not know. *)
Theorem translated_requests_are_accepted `{Hex} prep r :
  ep_egress_requires_max_tokens prep = true ->
  0 < default (ep_global_default_max_tokens prep) (ep_lane_default_max_tokens prep) ->
  plausible r ->
  exists out, write_request (prepare_for_egress prep r) = Object out /\ accepted_request out.
Proof.
  intros Hreq Hdef [Hpos Hfin]. set (r' := prepare_for_egress prep r).
  assert (Hr : rq_extra r' = [] /\ rq_temperature r' = rq_temperature r
               /\ exists n, rq_max_tokens r' = Some n /\ 0 < n).
  { unfold r', prepare_for_egress. destruct (match rq_reasoning r with Some ask => _ | None => _ end).
    cbn [rq_extra rq_temperature rq_max_tokens]. rewrite Hreq. split; [done|]. split; [done|].
    destruct (rq_max_tokens r) as [n|]; eexists; auto. }
  destruct Hr as (Hx & Ht & n & Hn & Hnpos). exists (modeled_fields r'). split; [unfold write_request; by rewrite Hx|].
  apply written_request_accepted; [done|by rewrite Hn|]. split; [by intros n'; rewrite Hn; intros [= <-]|by rewrite Ht].
Qed.

(** A caller of another protocol: hot, with a forced tool, thinking hard, with private parameters. *)
Definition foreign_request : IrRequest :=
  {| rq_system := [plain_text "be brief"];
     rq_messages := [mkMessage RUser [plain_text "hi"]; mkMessage RAssistant [BThinking "hm" None false None];
                     mkMessage RTool [BToolResult "call_1" [plain_text "42"] false None]];
     rq_tools := [mkTool "f" None (Object []) None None; mkTool "" None Null None (Some Null)];
     rq_max_tokens := None; rq_temperature := Some (f64_of_Z 2); rq_top_p := None; rq_top_k := None;
     rq_frequency_penalty := None; rq_presence_penalty := None; rq_seed := None; rq_n := Some 3;
     rq_reasoning := Some (Effort High); rq_reasoning_budgets := None; rq_logprobs := None;
     rq_top_logprobs := None; rq_response_format := None; rq_stop := []; rq_tool_choice := Some TcRequired;
     rq_user := None; rq_parallel_tool_calls := None; rq_stream := false;
     rq_extra := [("service_tier", Str "auto")]%string |}.

Definition messages_lane (reasoning : bool) : EgressPrep :=
  mkPrep "openai" true None 4096 reasoning REASONING_BUDGET_DEFAULTS true (Some 4%nat) false.

#[local] Existing Instance plain_hex.

Lemma translated_requests_are_accepted_witness :
  plausible foreign_request
  /\ (exists out, write_request (prepare_for_egress (messages_lane true) foreign_request) = Object out
                  /\ accepted_request out)
  /\ get "temperature" (write_request (prepare_for_egress (messages_lane false) foreign_request))
     = Some (Num (Float f64_one))
  /\ get "thinking" (write_request (prepare_for_egress (messages_lane true) foreign_request))
     = Some (Object [("type", Str "enabled"); ("budget_tokens", num_u 3072)]%string).
Proof.
  assert (H : plausible foreign_request) by (split; [done|by intros t [= <-]]).
  split; [exact H|]. split; [|by split; vm_compute].
  exact (translated_requests_are_accepted (messages_lane true) foreign_request eq_refl eq_refl H).
Defined.

(** ** Stream events *)

(** Events in the vocabulary of the protocol, their indices under the reader's bound. *)
Definition native_delta (d : IrDelta) : Prop :=
  match d with
  | TextDelta _ | ThinkingDelta _ | InputJsonDelta _ | SignatureDelta _ => True
  | CitationsDelta [c] => native_citation c
  | _ => False
  end.

Definition native_index (i : Z) : Prop := 0 <= i <= MAX_ANTHROPIC_BLOCK_INDEX.

Definition native_event (ev : IrStreamEvent) : Prop :=
  match ev with
  | MessageStart role usage id created model =>
      (role = RUser \/ role = RAssistant) /\ is_Some usage /\ is_Some id /\ created = None
      /\ model <> Some ""%string
  | BlockStart i _ | BlockStop i => native_index i
  | BlockDelta i d => native_index i /\ native_delta d
  | MessageDelta stop _ _ => forall s, stop = Some s -> native_stop_reason s
  | MessageStop => True
  | Error err => class err = stream_error_class (provider_signal err) /\ retry_after err = None
  end.

Lemma index_round_trip i : native_index i -> Z.min i MAX_ANTHROPIC_BLOCK_INDEX = i.
Proof. unfold native_index. lia. Qed.

(** Every event of a stream in the protocol's vocabulary - start, blocks and their deltas, citations,
    the stop with its reason and usage, an error - is read back as itself, one event for one frame. *)
Theorem anthropic_events_round_trip synth_message_id state ev :
  native_event ev ->
  exists event_type data,
    write_response_event synth_message_id ev = Some (event_type, data)
    /\ read_response_events event_type data state = ([ev], state).
Proof.
  destruct ev as [role usage id created model|i b|i d|i|stop seq usage| |err]; intros Hev.
  - destruct Hev as (Hrole & [u ->] & [x ->] & -> & Hmodel).
    assert (Hm := model_round_trip model Hmodel). assert (Hu := usage_round_trip u).
    destruct Hrole as [-> | ->]; do 2 eexists; (split; [reflexivity|]); unfold read_response_events; simpl;
      unfold read_message_start; simpl; rewrite Hu; destruct model as [[|]|]; done.
  - simpl in Hev. do 2 eexists. split; [reflexivity|]. unfold read_response_events, read_redacted_start. simpl.
    destruct b as [| |id name|]; simpl; unfold read_block_start, read_clamped_block_index; simpl;
      by rewrite index_round_trip.
  - destruct Hev as [Hi Hd].
    destruct d as [t|t|j|s|r|[|c [|]]|l]; try done;
      do 2 eexists; (split; [reflexivity|]); unfold read_response_events; simpl;
      unfold read_block_delta, read_clamped_block_index; simpl; rewrite index_round_trip by done; try done.
    simpl. by rewrite citation_round_trip.
  - do 2 eexists. split; [reflexivity|]. unfold read_response_events, read_redacted_start. simpl.
    unfold read_clamped_block_index. simpl. by rewrite index_round_trip.
  - do 2 eexists. split; [reflexivity|]. unfold read_response_events. simpl.
    unfold read_message_delta. simpl. rewrite usage_round_trip.
    destruct stop as [s|]; simpl; [rewrite stop_reason_round_trip by by apply Hev|]; by destruct seq.
  - by do 2 eexists.
  - destruct Hev as [Hc Hr]. do 2 eexists. split; [reflexivity|]. unfold read_response_events. simpl.
    unfold read_error_event. destruct err as [c [s|] r]; simpl in *; by subst.
Qed.

Lemma anthropic_events_round_trip_witness :
  native_event (BlockDelta 3 (CitationsDelta [read_citation (Object [("type", Str CITATION_TYPE_WEB)]%string)]))
  /\ exists event_type data,
       write_response_event "msg_x"
         (BlockDelta 3 (CitationsDelta [read_citation (Object [("type", Str CITATION_TYPE_WEB)]%string)]))
       = Some (event_type, data)
       /\ read_response_events event_type data default_decode
          = ([BlockDelta 3 (CitationsDelta [read_citation (Object [("type", Str CITATION_TYPE_WEB)]%string)])],
             default_decode).
Proof.
  assert (H : native_event
    (BlockDelta 3 (CitationsDelta [read_citation (Object [("type", Str CITATION_TYPE_WEB)]%string)]))).
  { split; [unfold native_index, MAX_ANTHROPIC_BLOCK_INDEX; lia|]. eexists. split; [|reflexivity]. reflexivity. }
  split; [exact H|]. exact (anthropic_events_round_trip "msg_x" default_decode _ H).
Defined.
