(* ===== verification/OpenAiChat.v ===== *)
(** * OpenAiChat: reader and writer of the Chat Completions protocol

    [proto/openai_chat/{mod,reader,writer}.rs]: requests, responses and stream chunks of the Chat
    Completions API to and from [Ir], and the framing of a stream towards an OpenAI client. The JSON
    library's parser and printer are parameters ([parse_str], [to_string]); minted identifiers and the
    clock are arguments. *)

From S2P Require Import Prelude Float64 Breaker Json Classifier Ir ToolIds Anthropic.

#[local] Open Scope Z_scope.

(** ** Constants *)

Definition MAX_TOOL_INDEX : Z := 127.
Definition MAX_OPEN_TOOLS : nat := 128.
Definition DEFAULT_MODEL : string := "gpt-4o".
Definition MAX_COMPLETION_TOKENS_SENTINEL : string := "__busbar_max_completion_tokens".
Definition OBJ_COMPLETION : string := "chat.completion".
Definition OBJ_CHUNK : string := "chat.completion.chunk".
Definition FINISH_STOP : string := "stop".
Definition FINISH_LENGTH : string := "length".
Definition FINISH_TOOL_CALLS : string := "tool_calls".
Definition FINISH_CONTENT_FILTER : string := "content_filter".
Definition FINISH_FUNCTION_CALL : string := "function_call".
Definition RESP_FORMAT_TEXT : string := "text".
Definition RESP_FORMAT_JSON_SCHEMA : string := "json_schema".
Definition RESP_FORMAT_JSON_OBJECT : string := "json_object".
Definition TOOL_TYPE_FUNCTION : string := "function".
Definition JSON_SCHEMA_DEFAULT_NAME : string := "response".
Definition SSE_DONE_SENTINEL : string := "[DONE]".

Definition model_or_default (model : option string) : string := default DEFAULT_MODEL model.

Definition read_openai_stop_reason (token : string) : IrStopReason :=
  if String.eqb token FINISH_STOP then EndTurn
  else if String.eqb token FINISH_LENGTH then MaxTokens
  else if one_of token [FINISH_TOOL_CALLS; FINISH_FUNCTION_CALL] then StopToolUse
  else if String.eqb token FINISH_CONTENT_FILTER then Safety
  else Other.

Definition write_openai_stop_reason (reason : IrStopReason) : string :=
  match reason with
  | EndTurn | StopSequence => FINISH_STOP
  | MaxTokens => FINISH_LENGTH
  | StopToolUse => FINISH_TOOL_CALLS
  | Safety => FINISH_CONTENT_FILTER
  | Refusal | StopError | PauseTurn | Other => FINISH_STOP
  end.

(** ** Parts *)

Definition read_openai_response_format (v : Value) : option IrResponseFormat :=
  o ← as_object v;
  t ← field_str "type" o;
  if String.eqb t RESP_FORMAT_TEXT then Some (mkFormat false None None None None)
  else if String.eqb t RESP_FORMAT_JSON_SCHEMA then
    let js := field "json_schema" o in
    Some (mkFormat true (js ≫= get "schema") (js ≫= get_str "name")
            ((js ≫= get "strict") ≫= as_bool) (js ≫= get_str "description"))
  else Some (mkFormat true None None None None).

Definition write_openai_response_format (rf : IrResponseFormat) : Value :=
  if negb (rf_json rf) then Object [("type", Str RESP_FORMAT_TEXT)]%string
  else match rf_schema rf with
       | Some schema =>
           let js := [("name", Str (default JSON_SCHEMA_DEFAULT_NAME (rf_name rf))); ("schema", schema)]%string in
           let js := set_opt "strict" (Bool <$> rf_strict rf) js in
           let js := set_opt "description" (Str <$> rf_description rf) js in
           Object [("type", Str RESP_FORMAT_JSON_SCHEMA); ("json_schema", Object js)]%string
       | None => Object [("type", Str RESP_FORMAT_JSON_OBJECT)]%string
       end.

(** The bytes of a token: those that are integers under 256. *)
Definition as_u8 (b : Value) : option Z :=
  match as_u64 b with Some n => if n <=? 255 then Some n else None | None => None end.

Definition read_bytes (e : Value) : option (list Z) :=
  (fun arr : list Value => omap as_u8 arr) <$> get_array "bytes" e.

Definition read_top_logprob (t : Value) : option IrTopLogprob :=
  token ← get_str "token" t;
  logprob ← get "logprob" t ≫= as_f64;
  Some (mkTop token logprob (read_bytes t)).

Definition read_logprob (e : Value) : option IrTokenLogprob :=
  token ← get_str "token" e;
  logprob ← get "logprob" e ≫= as_f64;
  Some (mkLogprob token logprob (read_bytes e) (omap read_top_logprob (default [] (get_array "top_logprobs" e)))).

Definition read_openai_logprobs (v : option Value) : list IrTokenLogprob :=
  omap read_logprob (default [] (v ≫= get_array "content")).

(** [s.as_bytes()] *)
Definition string_bytes (s : string) : list Z := byte_of <$> String.list_ascii_of_string s.

Definition write_bytes (bytes : option (list Z)) (token : string) : Value :=
  Array (num_u <$> default (string_bytes token) bytes).

Definition write_top_logprob (t : IrTopLogprob) : Value :=
  Object [("token", Str (tl_token t)); ("logprob", num_f (tl_logprob t));
          ("bytes", write_bytes (tl_bytes t) (tl_token t))]%string.

Definition write_logprob (lp : IrTokenLogprob) : Value :=
  Object [("token", Str (lp_token lp)); ("logprob", num_f (lp_logprob lp));
          ("bytes", write_bytes (lp_bytes lp) (lp_token lp));
          ("top_logprobs", Array (write_top_logprob <$> lp_top lp))]%string.

Definition write_openai_logprobs (lps : list IrTokenLogprob) : Value :=
  Object [("content", Array (write_logprob <$> lps))]%string.

(** ** Image urls ([proto/mod.rs]) *)

(** [s.split_once(c)] *)
Fixpoint split_once (c : Ascii.ascii) (s : string) : option (string * string) :=
  match s with
  | EmptyString => None
  | String a s => if Ascii.eqb a c then Some (""%string, s)
                  else p ← split_once c s; Some (String a p.1, p.2)
  end.

Definition COMMA : Ascii.ascii := Ascii.ascii_of_nat 44.
Definition SEMICOLON : Ascii.ascii := Ascii.ascii_of_nat 59.

(** [meta.split(';').next()]: everything before the first separator. *)
Definition first_part (c : Ascii.ascii) (s : string) : string :=
  match split_once c s with Some (a, _) => a | None => s end.

Definition parse_image_url (url : string) : IrImageSource :=
  let data_uri :=
    rest ← strip_prefix "data:" url;
    parts ← split_once COMMA rest;
    let media_type := first_part SEMICOLON parts.1 in
    if contains "base64" parts.1 && negb (is_empty media_type) then Some (Base64 media_type parts.2) else None in
  default (Url url) data_uri.

Definition image_url_from_ir (source : IrImageSource) : option string :=
  match source with
  | Url url => Some url
  | Base64 media_type data => Some ("data:" +:+ media_type +:+ ";base64," +:+ data)
  | Vendor _ _ => None
  end.

(** ** Annotations *)

(** [text.find(q)], [text[..i]] and [text[i..]] by bytes. *)
Definition find_str (q text : string) : option nat := String.index 0 q text.
Definition prefix_to (i : nat) (s : string) : string := String.substring 0 i s.
Definition suffix_from (i : nat) (s : string) : string := String.substring i (String.length s - i) s.

Definition sat_i64 (a b : Z) : Z := clamp_i64 (a + b).

(** Where the citation points: its own offsets, or those of its quote when it occurs once. *)
Definition citation_span (text : string) (base : Z) (c : IrCitation) : option (Z * Z) :=
  let by_quote :=
    q ← nonempty (ci_cited_text c);
    first ← find_str q text;
    if contains q (suffix_from (first + String.length q) text) then None
    else
      let start_ch := Z.of_nat (char_count (prefix_to first text)) in
      let len_ch := Z.of_nat (char_count q) in
      Some (base + start_ch, base + start_ch + len_ch) in
  match ci_start_index c, ci_end_index c with
  | Some s, Some e => if (0 <=? s) && (s <=? e) then Some (sat_i64 s base, sat_i64 e base) else by_quote
  | _, _ => by_quote
  end.

Definition url_annotation (text : string) (base : Z) (c : IrCitation) : option Value :=
  url ← nonempty (ci_url c);
  span ← citation_span text base c;
  Some (Object [("type", Str "url_citation"); ("url", Str url);
                ("title", Str (default url (nonempty (ci_title c))));
                ("start_index", num_i span.1); ("end_index", num_i span.2)]%string).

Definition url_annotations (text : string) (base : Z) (citations : list IrCitation) : list Value :=
  omap (url_annotation text base) citations.

Definition read_url_annotation (entry : Value) : option IrCitation :=
  if negb (bool_decide (get_str "type" entry = Some "url_citation"%string)) then None
  else
    citation ← get "url_citation" entry;
    url ← nonempty (get_str "url" citation);
    Some (mkCitation (Some CITATION_TYPE_WEB) None (nonempty (get_str "title" citation)) (Some url)
            None None None None None).

Definition read_url_annotations (annotations : Value) : list IrCitation :=
  omap read_url_annotation (default [] (as_array annotations)).

(** ** Blocks, tools and tool choice *)

Definition read_openai_block (block_val : Value) : Parsed IrBlock :=
  obj ← ok_or (as_object block_val);
  let block_type := default ""%string (field_str "type" obj) in
  if String.eqb block_type "text" then Ok (plain_text (default ""%string (field_str "text" obj)))
  else if String.eqb block_type "image_url" then
    image_obj ← ok_or (field "image_url" obj);
    Ok (BImage (parse_image_url (default ""%string (get_str "url" image_obj))) None)
  else if String.eqb block_type "refusal" then Ok (plain_text (default ""%string (field_str "refusal" obj)))
  else Ok (plain_text "").

Definition read_openai_tool (tool_val : Value) : Parsed IrTool :=
  obj ← ok_or (as_object tool_val);
  let src := default obj (field "function" obj ≫= as_object) in
  Ok (mkTool (default ""%string (field_str "name" src)) (field_str "description" src)
        (default Null (or_else (field "parameters" src) (field "input_schema" src))) None None).

Definition read_openai_tool_choice (val : option Value) : option IrToolChoice :=
  v ← val;
  match v with
  | Str s =>
      if String.eqb s "auto" then Some TcAuto
      else if String.eqb s "none" then Some TcNone
      else if String.eqb s "required" then Some TcRequired
      else None
  | Object o =>
      if bool_decide (field_str "type" o = Some TOOL_TYPE_FUNCTION)
      then TcTool <$> (field "function" o ≫= get_str "name")
      else None
  | _ => None
  end.

Definition write_openai_tool_choice (tc : IrToolChoice) : Value :=
  match tc with
  | TcAuto => Str "auto"
  | TcNone => Str "none"
  | TcRequired => Str "required"
  | TcTool name => Object [("type", Str TOOL_TYPE_FUNCTION); ("function", Object [("name", Str name)])]
  end%string.

Section with_json.
(** [crate::json::parse_str] and [crate::json::to_string]. *)
Context (parse_str : string -> option Value) (to_string : Value -> string).

Definition tool_arguments_to_string (input : Value) : string :=
  match input with Str s => s | other => to_string other end.

(** One entry of [tool_calls]. *)
Definition read_tool_call (tc_val : Value) : Parsed IrBlock :=
  func ← ok_or (get "function" tc_val);
  let arguments := default "{}"%string (get_str "arguments" func) in
  Ok (BToolUse (default ""%string (get_str "id" tc_val)) (default ""%string (get_str "name" func))
        (default (Str arguments) (parse_str arguments)) None None).

Definition write_tool_call (block : IrBlock) : option Value :=
  match block with
  | BToolUse id name input _ _ =>
      Some (Object [("type", Str TOOL_TYPE_FUNCTION); ("id", Str id);
                    ("function", Object [("name", Str name);
                                         ("arguments", Str (tool_arguments_to_string input))])]%string)
  | _ => None
  end.

(** ** Requests *)

Definition modeled_request_keys : list string :=
  ["model"; "messages"; "tools"; "max_tokens"; "max_completion_tokens"; "temperature"; "top_p"; "stop";
   "stream"; "tool_choice"; "frequency_penalty"; "presence_penalty"; "seed"; "n"; "response_format";
   "user"; "parallel_tool_calls"; "logprobs"; "top_logprobs"; "reasoning_effort"]%string.

Definition read_role (role_str : string) : Parsed IrRole :=
  if one_of role_str ["developer"; "system"]%string then Ok RSystem
  else if String.eqb role_str "user" then Ok RUser
  else if String.eqb role_str "assistant" then Ok RAssistant
  else if String.eqb role_str "tool" then Ok RTool
  else Err parse_error.

(** Text or an array of parts; anything else is no block. *)
Definition read_parts (content : option Value) : Parsed (list IrBlock) :=
  match content with
  | Some (Str text) => Ok [plain_text text]
  | Some (Array arr) => collect read_openai_block arr
  | _ => Ok []
  end.

(** A system message always leaves a block. *)
Definition read_system_blocks (content : option Value) : Parsed (list IrBlock) :=
  blocks ← read_parts content;
  Ok (match blocks with [] => [plain_text ""] | blocks => blocks end).

(** The text of a tool message: its parts that are text, joined. *)
Definition tool_content_text (content : option Value) : string :=
  match content with
  | Some (Str s) => s
  | Some (Array parts) =>
      foldl (fun acc part => match read_openai_block part with
                             | Ok (BText text _ _) => acc +:+ text
                             | _ => acc
                             end) ""%string parts
  | _ => ""%string
  end.

Definition read_history_message (role : IrRole) (msg_val : Value) : Parsed IrMessage :=
  let content_val := get "content" msg_val in
  parts ← (match role with RTool => Ok [] | _ => read_parts content_val end : Parsed (list IrBlock));
  calls ← (match role with
           | RAssistant => collect read_tool_call (default [] (get_array "tool_calls" msg_val))
           | _ => Ok []
           end : Parsed (list IrBlock));
  let result := match role with
                | RTool => [BToolResult (default ""%string (get_str "tool_call_id" msg_val))
                              [plain_text (tool_content_text content_val)] false None]
                | _ => []
                end in
  Ok (mkMessage role (parts ++ calls ++ result)).

Fixpoint read_messages (msgs : list Value) (system : list IrBlock) (messages : list IrMessage)
    : Parsed (list IrBlock * list IrMessage) :=
  match msgs with
  | [] => Ok (system, messages)
  | msg_val :: msgs =>
      role ← read_role (default ""%string (get_str "role" msg_val));
      match role with
      | RSystem =>
          blocks ← read_system_blocks (get "content" msg_val);
          read_messages msgs (system ++ blocks) messages
      | role =>
          msg ← read_history_message role msg_val;
          read_messages msgs system (messages ++ [msg])
      end
  end.

(** Keys the reader does not model; the marks of a [max_completion_tokens] source and of an effort word
    it does not know. *)
Definition read_extra (obj : list (string * Value)) (max_tokens : option Z) (reasoning : option IrReasoningAsk)
    : list (string * Value) :=
  let extra := overlay (fun key => negb (one_of key modeled_request_keys)) obj [] in
  let max_completion_tokens_was_source :=
    negb (has_field "max_tokens" obj) && has_field "max_completion_tokens" obj in
  let extra := if max_completion_tokens_was_source && match max_tokens with Some _ => true | None => false end
               then set_field MAX_COMPLETION_TOKENS_SENTINEL (Bool true) extra else extra in
  match field_str "reasoning_effort" obj, reasoning with
  | Some raw, None => set_field "reasoning_effort" (Str raw) extra
  | _, _ => extra
  end.

Definition read_request (body : Value) : Parsed IrRequest :=
  obj ← ok_or (as_object body);
  let max_tokens :=
    match (or_else (field "max_tokens" obj) (field "max_completion_tokens" obj) ≫= as_u64) ≫= try_u32 with
    | Some v => if 0 <? v then Some v else None
    | None => None
    end in
  msgs ← (match field "messages" obj with
          | Some messages_val => ok_or (as_array messages_val)
          | None => Ok []
          end : Parsed (list Value));
  parts ← read_messages msgs [] [];
  tools ← collect read_openai_tool (default [] (field_array "tools" obj));
  let reasoning := Effort <$> (field_str "reasoning_effort" obj ≫= parse_effort) in
  Ok {| rq_system := parts.1;
        rq_messages := parts.2;
        rq_tools := tools;
        rq_max_tokens := max_tokens;
        rq_temperature := field_f64 "temperature" obj;
        rq_top_p := field_f64 "top_p" obj;
        rq_top_k := None;
        rq_frequency_penalty := field_f64 "frequency_penalty" obj;
        rq_presence_penalty := field_f64 "presence_penalty" obj;
        rq_seed := field "seed" obj ≫= as_i64;
        rq_n := field_u64 "n" obj ≫= try_u32;
        rq_reasoning := reasoning;
        rq_reasoning_budgets := None;
        rq_logprobs := field_bool "logprobs" obj;
        rq_top_logprobs := field_u64 "top_logprobs" obj ≫= try_u32;
        rq_response_format := field "response_format" obj ≫= read_openai_response_format;
        rq_stop := read_stop_sequences (field "stop" obj);
        rq_tool_choice := read_openai_tool_choice (field "tool_choice" obj);
        rq_user := field_str "user" obj;
        rq_parallel_tool_calls := field_bool "parallel_tool_calls" obj;
        rq_stream := default false (field_bool "stream" obj);
        rq_extra := read_extra obj max_tokens reasoning |}.

(** ** Responses *)

(** The chain of thought: the first of its two spellings that is a non-empty string. *)
Definition read_reasoning (message_val : Value) : list IrBlock :=
  match omap (fun key => nonempty (get_str key message_val)) ["reasoning_content"; "reasoning"]%string with
  | r :: _ => [BThinking r None false None]
  | [] => []
  end.

Definition is_image (b : IrBlock) : bool := match b with BImage _ _ => true | _ => false end.

Definition read_message_content (message_val : Value) : Parsed (list IrBlock) :=
  match get "content" message_val with
  | Some (Str text) =>
      Ok (if is_empty text then []
          else [BText text None (default [] (read_url_annotations <$> get "annotations" message_val))])
  | Some (Array arr) =>
      blocks ← collect read_openai_block arr;
      Ok (List.filter (fun b => negb (is_image b)) blocks)
  | _ => Ok []
  end.

(** [usage] of a response or a chunk: the cached part is taken out of the prompt. *)
Definition read_usage (usage_val : option Value) : IrUsage :=
  let cached := (usage_val ≫= get "prompt_tokens_details") ≫= get_u64 "cached_tokens" in
  mkUsage (default 0 (usage_val ≫= get_u64 "prompt_tokens") -sat default 0 cached)
    (default 0 (usage_val ≫= get_u64 "completion_tokens")) None cached.

Definition read_response (body : Value) : Parsed IrResponse :=
  obj ← ok_or (as_object body);
  choices_val ← ok_or (field "choices" obj);
  choices ← ok_or (as_array choices_val);
  choice ← ok_or (head choices);
  message_val ← ok_or (get "message" choice);
  blocks ← read_message_content message_val;
  let refusal := nonempty (get_str "refusal" message_val) in
  calls ← collect read_tool_call (default [] (get_array "tool_calls" message_val));
  let stop_reason := read_openai_stop_reason <$> nonempty (get_str "finish_reason" choice) in
  let stop_reason := match refusal, stop_reason with
                     | Some _, Some EndTurn => Some Refusal
                     | _, s => s
                     end in
  Ok {| rs_role := RAssistant;
        rs_content := read_reasoning message_val ++ blocks ++ option_list (plain_text <$> refusal) ++ calls;
        rs_stop_reason := stop_reason;
        rs_usage := read_usage (field "usage" obj);
        rs_model := field_str "model" obj;
        rs_id := field_str "id" obj;
        rs_created := field_u64 "created" obj;
        rs_system_fingerprint := field_str "system_fingerprint" obj;
        rs_stop_sequence := None;
        rs_logprobs := read_openai_logprobs (get "logprobs" choice) |}.

(** ** Stream chunks

    A chunk is read in the steps of the source, each adding events to those before it. *)

Definition Step : Type := StreamDecodeState -> list IrStreamEvent * StreamDecodeState.

Definition nothing : Step := fun st => ([], st).
Definition then_ (f g : Step) : Step := fun st =>
  let '(out, st) := f st in let '(out', st) := g st in (out ++ out', st).

Fixpoint steps (l : list Step) : Step :=
  match l with [] => nothing | f :: l => then_ f (steps l) end.

Definition set_started (st : StreamDecodeState) : StreamDecodeState :=
  mkDecode true (text_block_open st) (text_index st) (text_block_closed st) (open_tools st) (reasoning_seen st)
    (thinking_block_open st) (refusal_seen st) (pending_stop_reason st) (tool_ir_index st) (next_ir_index st).

Definition set_text (is_open : bool) (index : option Z) (st : StreamDecodeState) : StreamDecodeState :=
  mkDecode (started st) is_open index (text_block_closed st) (open_tools st) (reasoning_seen st)
    (thinking_block_open st) (refusal_seen st) (pending_stop_reason st) (tool_ir_index st) (next_ir_index st).

Definition set_tools (open : gset Z) (index : gmap Z Z) (st : StreamDecodeState) : StreamDecodeState :=
  mkDecode (started st) (text_block_open st) (text_index st) (text_block_closed st) open (reasoning_seen st)
    (thinking_block_open st) (refusal_seen st) (pending_stop_reason st) index (next_ir_index st).

Definition set_thinking (seen is_open : bool) (st : StreamDecodeState) : StreamDecodeState :=
  mkDecode (started st) (text_block_open st) (text_index st) (text_block_closed st) (open_tools st) seen
    is_open (refusal_seen st) (pending_stop_reason st) (tool_ir_index st) (next_ir_index st).

Definition set_refusal (st : StreamDecodeState) : StreamDecodeState :=
  mkDecode (started st) (text_block_open st) (text_index st) (text_block_closed st) (open_tools st)
    (reasoning_seen st) (thinking_block_open st) true (pending_stop_reason st) (tool_ir_index st)
    (next_ir_index st).

Definition set_next (next : Z) (st : StreamDecodeState) : StreamDecodeState :=
  mkDecode (started st) (text_block_open st) (text_index st) (text_block_closed st) (open_tools st)
    (reasoning_seen st) (thinking_block_open st) (refusal_seen st) (pending_stop_reason st) (tool_ir_index st)
    next.

(** [StreamDecodeState::claim_ir_index]: the next free index, 0 kept for a thinking block. *)
Definition claim_ir_index (st : StreamDecodeState) : Z * StreamDecodeState :=
  let idx := Z.max (next_ir_index st) (if reasoning_seen st then 1 else 0) in
  (idx, set_next (idx + 1) st).

Definition open_message (data : Value) : Step := fun st =>
  if started st then ([], st)
  else ([MessageStart RAssistant None (get_str "id" data) (get_u64 "created" data) (get_str "model" data)],
        set_started st).

Definition close_thinking : Step := fun st =>
  if thinking_block_open st then ([BlockStop 0], set_thinking (reasoning_seen st) false st) else ([], st).

(** Reasoning counts while no answer block is open. *)
Definition step_reasoning (delta : option Value) : Step := fun st =>
  let reasoning :=
    if negb (text_block_open st) && bool_decide (open_tools st = ∅)
    then (delta ≫= fun d => or_else (get "reasoning_content" d) (get "reasoning" d)) ≫= as_str
    else None in
  match nonempty reasoning with
  | Some r =>
      (if thinking_block_open st then [BlockDelta 0 (ThinkingDelta r)]
       else [BlockStart 0 MThinking; BlockDelta 0 (ThinkingDelta r)],
       set_thinking true true st)
  | None => ([], st)
  end.

(** The index of the text block, claimed on first use, and the block open. *)
Definition open_text : Step := fun st =>
  let '(ti, st) := match text_index st with
                   | Some i => (i, st)
                   | None => let '(i, st) := claim_ir_index st in (i, set_text (text_block_open st) (Some i) st)
                   end in
  if text_block_open st then ([], st) else ([BlockStart ti MText], set_text true (Some ti) st).

(** A delta for the open text block. *)
Definition text_delta (d : IrDelta) : Step := fun st =>
  match text_index st with Some ti => ([BlockDelta ti d], st) | None => ([], st) end.

Definition step_text (delta : option Value) : Step := fun st =>
  let refusal_delta := nonempty (delta ≫= get_str "refusal") in
  let st := match refusal_delta with Some _ => set_refusal st | None => st end in
  match or_else (delta ≫= get_str "content") refusal_delta with
  | Some content => steps [close_thinking; open_text; text_delta (TextDelta content)] st
  | None => ([], st)
  end.

Definition step_logprobs (choice0 : option Value) : Step := fun st =>
  match read_openai_logprobs (choice0 ≫= get "logprobs") with
  | [] => ([], st)
  | lps =>
      (if text_block_open st then text_delta (LogprobsDelta lps)
       else steps [close_thinking; open_text; text_delta (LogprobsDelta lps)]) st
  end.

(** One tool call: its block opens with its name, its arguments follow it. *)
Definition tool_key (tc : Value) : Z :=
  match get_u64 "index" tc with Some v => Z.min v MAX_TOOL_INDEX | None => 0 end.

Definition open_tool (tc : Value) : Step := fun st =>
  match get "function" tc ≫= get_str "name" with
  | Some name =>
      if negb (bool_decide (tool_key tc ∈ open_tools st)) && (size (open_tools st) <? MAX_OPEN_TOOLS)%nat then
        let '(ir_idx, st) := claim_ir_index st in
        ([BlockStart ir_idx (MToolUse (default ""%string (get_str "id" tc)) name)],
         set_tools ({[tool_key tc]} ∪ open_tools st) (<[tool_key tc := ir_idx]> (tool_ir_index st)) st)
      else ([], st)
  | None => ([], st)
  end.

Definition tool_arguments (tc : Value) : Step := fun st =>
  match get "function" tc ≫= get_str "arguments", tool_ir_index st !! tool_key tc with
  | Some args, Some index => ([BlockDelta index (InputJsonDelta args)], st)
  | _, _ => ([], st)
  end.

Definition step_tool (tc : Value) : Step := then_ (open_tool tc) (tool_arguments tc).

Definition step_tools (delta : option Value) : Step := fun st =>
  match delta ≫= get_array "tool_calls" with
  | Some tcs => then_ close_thinking (steps (step_tool <$> tcs)) st
  | None => ([], st)
  end.

(** [BTreeSet] iteration. *)
Definition ascending (s : gset Z) : list Z := merge_sort Z.le (elements s).

Definition close_text : Step := fun st =>
  if text_block_open st
  then (match text_index st with Some ti => [BlockStop ti] | None => [] end, set_text false (text_index st) st)
  else ([], st).

Definition close_tools : Step := fun st =>
  (omap (fun oai_idx => BlockStop <$> tool_ir_index st !! oai_idx) (ascending (open_tools st)),
   set_tools ∅ ∅ st).

(** The end of the message, or a usage chunk on its own. *)
Definition step_finish (data : Value) (choice0 : option Value) : Step := fun st =>
  let chunk_usage := match get "usage" data with
                     | Some (Object u) => Some (read_usage (Some (Object u)))
                     | _ => None
                     end in
  match choice0 ≫= get_str "finish_reason" with
  | Some fr =>
      let stop_reason := match read_openai_stop_reason fr with
                         | EndTurn => if refusal_seen st then Refusal else EndTurn
                         | other => other
                         end in
      steps [close_thinking; close_text; close_tools;
             fun st => ([MessageDelta (Some stop_reason) None (default no_usage chunk_usage); MessageStop], st)] st
  | None =>
      match chunk_usage, choice0 with
      | Some usage, None => ([MessageDelta None None usage], st)
      | _, _ => ([], st)
      end
  end.

Definition read_response_events (event_type : string) (data : Value) : Step := fun st =>
  if bool_decide (as_str data = Some SSE_DONE_SENTINEL) then ([], st)
  else
    let choice0 := get_array "choices" data ≫= head in
    let delta := choice0 ≫= get "delta" in
    steps [open_message data; step_reasoning delta; step_text delta; step_logprobs choice0; step_tools delta;
           step_finish data choice0] st.

(** ** Writing requests *)

Definition system_text (block : IrBlock) : string :=
  match block with BText text _ _ => text | BThinking text _ _ _ => text | _ => ""%string end.

Definition write_role (role : IrRole) : string :=
  match role with RUser => "user" | RAssistant => "assistant" | RTool => "tool" | RSystem => "system" end%string.

Definition write_part (block : IrBlock) : option Value :=
  match block with
  | BText text _ _ => Some (Object [("type", Str "text"); ("text", Str text)]%string)
  | BImage source _ =>
      (fun url => Object [("type", Str "image_url"); ("image_url", Object [("url", Str url)])]%string)
        <$> image_url_from_ir source
  | _ => None
  end.

Definition write_content (content : list IrBlock) : Value :=
  match content with
  | [] => Str ""
  | _ => match omap write_part content with [] => Null | parts => Array parts end
  end.

Definition block_text (b : IrBlock) : option string := match b with BText text _ _ => Some text | _ => None end.

(** [parts.concat()] *)
Definition concat_strings (l : list string) : string := foldr String.append ""%string l.

Definition write_tool_result (block : IrBlock) : option Value :=
  match block with
  | BToolResult tool_use_id content _ _ =>
      Some (Object [("role", Str "tool"); ("tool_call_id", Str tool_use_id);
                    ("content", Str (concat_strings (omap block_text content)))]%string)
  | _ => None
  end.

(** A message of the history becomes its tool results, then the rest of it where there is any. *)
Definition write_message (msg : IrMessage) : list Value :=
  let msg_obj := [("role", Str (write_role (msg_role msg))); ("content", write_content (msg_content msg))]%string in
  let calls := omap write_tool_call (msg_content msg) in
  let msg_obj := set_opt "tool_calls" (Array <$> nonempty_list calls) msg_obj in
  match omap write_tool_result (msg_content msg) with
  | [] => [Object msg_obj]
  | results =>
      let msg_has_payload := negb (is_null (write_content (msg_content msg)))
                             || match calls with [] => false | _ => true end in
      results ++ (if msg_has_payload then [Object msg_obj] else [])
  end.

Definition write_tool (tool : IrTool) : Value :=
  let function_obj := [("name", Str (t_name tool))]%string in
  let function_obj := set_opt "description" (Str <$> t_description tool) function_obj in
  let params := if is_null (t_input_schema tool) then Object [] else t_input_schema tool in
  Object [("type", Str TOOL_TYPE_FUNCTION); ("function", Object (set_field "parameters" params function_obj))]%string.

(** [clamp_stop]: the first [cap] stop sequences. *)
Definition clamp_stop (stop : list string) (cap : nat) : list string := take cap stop.

Definition write_request (req : IrRequest) : Value :=
  let messages_array :=
    ((fun block => Object [("role", Str "system"); ("content", Str (system_text block))]%string) <$> rq_system req)
    ++ flat_map write_message (rq_messages req) in
  let out := set_opt "model" (field "model" (rq_extra req)) [] in
  let out := set_field "messages" (Array messages_array) out in
  let key := if default false (field_bool MAX_COMPLETION_TOKENS_SENTINEL (rq_extra req))
             then "max_completion_tokens"%string else "max_tokens"%string in
  let out := set_opt key (num_u <$> rq_max_tokens req) out in
  let out := set_opt "temperature" (num_f <$> rq_temperature req) out in
  let out := set_opt "top_p" (num_f <$> rq_top_p req) out in
  let out := set_opt "stop" ((fun stop => Array (Str <$> clamp_stop stop 4)) <$> nonempty_list (rq_stop req)) out in
  let out := set_opt "frequency_penalty" (num_f <$> rq_frequency_penalty req) out in
  let out := set_opt "presence_penalty" (num_f <$> rq_presence_penalty req) out in
  let out := set_opt "seed" (num_i <$> rq_seed req) out in
  let out := set_opt "n" (num_u <$> rq_n req) out in
  let out := set_opt "user" (Str <$> rq_user req) out in
  let out := match nonempty_list (rq_tools req) with
             | Some _ => set_opt "parallel_tool_calls" (Bool <$> rq_parallel_tool_calls req) out
             | None => out
             end in
  let table := default REASONING_BUDGET_DEFAULTS (rq_reasoning_budgets req) in
  let out := set_opt "reasoning_effort"
               ((fun ask => Str (as_openai_reasoning_effort (to_effort ask table))) <$> rq_reasoning req) out in
  let out := match rq_top_logprobs req with
             | Some top => set_field "top_logprobs" (num_u top) (set_field "logprobs" (Bool true) out)
             | None => set_opt "logprobs" (Bool <$> rq_logprobs req) out
             end in
  let out := set_opt "response_format" (write_openai_response_format <$> rq_response_format req) out in
  let out := set_field "stream" (Bool (rq_stream req)) out in
  let out := set_opt "tools" (Array ∘ fmap write_tool <$> nonempty_list (rq_tools req)) out in
  let out := match nonempty_list (rq_tools req) with
             | Some _ => set_opt "tool_choice" (write_openai_tool_choice <$> rq_tool_choice req) out
             | None => out
             end in
  Object (overlay (fun key => negb (String.eqb key MAX_COMPLETION_TOKENS_SENTINEL)) (rq_extra req) out).

(** ** Writing responses *)

(** Cached and written tokens are part of the prompt in this protocol. *)
Definition prompt_tokens (u : IrUsage) : Z :=
  input_tokens u +sat default 0 (cache_read_input_tokens u) +sat default 0 (cache_creation_input_tokens u).

Definition write_usage (u : IrUsage) : list (string * Value) :=
  set_opt "prompt_tokens_details" ((fun c => Object [("cached_tokens", num_u c)]%string) <$> cache_read_input_tokens u)
    [("prompt_tokens", num_u (prompt_tokens u)); ("completion_tokens", num_u (output_tokens u));
     ("total_tokens", num_u (prompt_tokens u +sat output_tokens u))]%string.

(** The annotations of the text blocks, each shifted to where its block stands in the joined text. *)
Fixpoint write_annotations (base : Z) (content : list IrBlock) : list Value :=
  match content with
  | [] => []
  | BText text _ citations :: content =>
      url_annotations text base citations ++ write_annotations (base + Z.of_nat (char_count text)) content
  | _ :: content => write_annotations base content
  end.

Definition write_response (synth_completion_id : string) (now : Z) (resp : IrResponse) : Value :=
  let text_parts := omap block_text (rs_content resp) in
  let content := match text_parts with [] => Null | _ => Str (concat_strings text_parts) end in
  let message_obj := [("role", Str "assistant"); ("content", content)]%string in
  let message_obj :=
    set_opt "tool_calls" (Array <$> nonempty_list (omap write_tool_call (rs_content resp))) message_obj in
  let message_obj :=
    set_opt "annotations" (Array <$> nonempty_list (write_annotations 0 (rs_content resp))) message_obj in
  let choice_obj := [("index", num_u 0); ("message", Object message_obj)]%string in
  let choice_obj := set_opt "logprobs" (write_openai_logprobs <$> nonempty_list (rs_logprobs resp)) choice_obj in
  let choice_obj := set_field "finish_reason"
                      (default Null (Str ∘ write_openai_stop_reason <$> rs_stop_reason resp)) choice_obj in
  let obj := [("id", Str (default synth_completion_id (rs_id resp))); ("object", Str OBJ_COMPLETION);
              ("created", num_u (default now (rs_created resp)));
              ("model", Str (model_or_default (rs_model resp)))]%string in
  let obj := set_opt "system_fingerprint" (Str <$> rs_system_fingerprint resp) obj in
  Object (set_field "usage" (Object (write_usage (rs_usage resp)))
            (set_field "choices" (Array [Object choice_obj]) obj)).

(** ** Writing stream events *)

Definition chunk_choice (delta : Value) (extra : list (string * Value)) (finish_reason : Value) : Value :=
  Object ([("index", num_u 0); ("delta", delta)]%string ++ extra ++ [("finish_reason", finish_reason)]%string).

Definition chunk (choice : Value) : Value := Object [("object", Str OBJ_CHUNK); ("choices", Array [choice])]%string.

Definition delta_chunk (delta : list (string * Value)) : Value := chunk (chunk_choice (Object delta) [] Null).

(** [ERR_TYPE_*] of a stream error by its class, and the code that goes with it. *)
Definition stream_error_type (c : StatusClass) : string :=
  match c with
  | RateLimit => ERR_TYPE_RATE_LIMIT
  | Auth => ERR_TYPE_AUTHENTICATION
  | Billing => "insufficient_quota"
  | ContextLength | ClientError => ERR_TYPE_INVALID_REQUEST
  | Overloaded | ServerError | Timeout | Network => "server_error"
  end.

Definition bearer_error_code (error_type : string) : Value :=
  if String.eqb error_type ERR_TYPE_AUTHENTICATION then Str "invalid_api_key"
  else if String.eqb error_type "insufficient_quota" then Str "insufficient_quota"
  else Null.

Definition write_stream_error (err : IrError) : Value :=
  let error_type := stream_error_type (class err) in
  Object [("error", Object [("message", Str (default "error" (provider_signal err))); ("type", Str error_type);
                            ("code", bearer_error_code error_type); ("param", Null)])]%string.

Definition write_message_delta (stop_reason : option IrStopReason) (usage : IrUsage) : Value :=
  let finish_reason := default Null (Str ∘ write_openai_stop_reason <$> stop_reason) in
  let chunk_obj := [("object", Str OBJ_CHUNK);
                    ("choices", Array [chunk_choice (Object []) [] finish_reason])]%string in
  Object (if negb (prompt_tokens usage =? 0) || negb (output_tokens usage =? 0)
          then set_field "usage" (Object (write_usage usage)) chunk_obj else chunk_obj).

Definition write_response_event (synth_completion_id : string) (now : Z) (ev : IrStreamEvent)
    : option (string * Value) :=
  match ev with
  | MessageStart role _ id created model =>
      match role with
      | RAssistant =>
          Some (""%string,
                Object [("id", Str (default synth_completion_id id)); ("object", Str OBJ_CHUNK);
                        ("created", num_u (default now created)); ("model", Str (model_or_default model));
                        ("choices", Array [chunk_choice (Object [("role", Str "assistant")]) [] Null])]%string)
      | _ => None
      end
  | BlockStart index (MToolUse id name) =>
      Some (""%string,
            delta_chunk [("tool_calls",
              Array [Object [("index", num_u index); ("id", Str id); ("type", Str TOOL_TYPE_FUNCTION);
                             ("function", Object [("name", Str name); ("arguments", Str "")])]])]%string)
  | BlockStart _ _ => None
  | BlockDelta _ (TextDelta text) => Some (""%string, delta_chunk [("content", Str text)]%string)
  | BlockDelta index (InputJsonDelta json) =>
      Some (""%string,
            delta_chunk [("tool_calls",
              Array [Object [("index", num_u index); ("function", Object [("arguments", Str json)])]])]%string)
  | BlockDelta _ (LogprobsDelta lps) =>
      match lps with
      | [] => None
      | _ => Some (""%string, chunk (chunk_choice (Object []) [("logprobs", write_openai_logprobs lps)]%string Null))
      end
  | BlockDelta _ _ => None
  | BlockStop _ => None
  | MessageDelta stop_reason _ usage => Some (""%string, write_message_delta stop_reason usage)
  | MessageStop => None
  | Error err => Some (""%string, write_stream_error err)
  end.
End with_json.

(** ** Errors *)

Definition openai_error_type (status : Z) (kind : string) : string :=
  if one_of kind [ERR_TYPE_INVALID_REQUEST; "invalid_request"; "bad_request"]%string then ERR_TYPE_INVALID_REQUEST
  else if one_of kind [ERR_TYPE_AUTHENTICATION; "unauthorized"; "auth"]%string then ERR_TYPE_AUTHENTICATION
  else if one_of kind [ERR_TYPE_PERMISSION; "permission_denied"; "forbidden"]%string then ERR_TYPE_PERMISSION
  else if String.eqb kind ERR_TYPE_NOT_FOUND then ERR_TYPE_NOT_FOUND
  else if one_of kind [ERR_TYPE_RATE_LIMIT; "rate_limit"; "too_many_requests"]%string then ERR_TYPE_RATE_LIMIT
  else if one_of kind ["server_error"; "internal_error"; "internal_server_error"]%string then "server_error"
  else if String.eqb kind ERR_TYPE_API_ERROR then ERR_TYPE_API_ERROR
  else if String.eqb kind "insufficient_quota" then "insufficient_quota"
  else if one_of kind ["overloaded"; ERR_TYPE_OVERLOADED; "service_unavailable"; "unavailable"; "transient";
                       "timeout"; "network"; "5xx"]%string then "server_error"
  else if String.eqb kind PROVIDER_CODE_CONTEXT_LENGTH then ERR_TYPE_INVALID_REQUEST
  else if String.eqb kind "" then (if is_5xx status then "server_error" else ERR_TYPE_INVALID_REQUEST)
  else kind.

Definition write_error (status : Z) (kind message : string) : Value :=
  let error_type := openai_error_type status kind in
  Object [("error", Object [("message", Str message); ("type", Str error_type); ("param", Null);
                            ("code", bearer_error_code error_type)])]%string.

Definition openai_context_length_prose_scan (text : string) : bool :=
  contains "maximum context length" text || contains "context length exceeded" text
  || contains "reduce the length" text
  || (contains "exceeds" text && (contains "context" text || contains "token limit" text)).

Section extract.
(** [str::to_lowercase]. *)
Context (to_lowercase : string -> string).

Definition extract_error (status : Z) (json : option Value) : RawUpstreamError :=
  let error_obj := (json ≫= get "error") ≫= as_object in
  let oversized_status := (status =? 400) || (status =? 413) in
  let message := to_lowercase (default ""%string (error_obj ≫= field_str "message")) in
  let scanned := if oversized_status && openai_context_length_prose_scan message
                 then Some PROVIDER_CODE_CONTEXT_LENGTH else None in
  {| http_status := status;
     provider_code := or_else (error_obj ≫= field_str "code") scanned;
     structured_type := error_obj ≫= field_str "type";
     retry_after_secs := None |}.
End extract.

(** ** Framing towards a client of this protocol *)

Record ChunkIdentity := mkIdentity {
  ident_id : Value;
  ident_created : Value;
  ident_model : option Value;
}.

Record OpenAiStreamFraming := mkFraming {
  chunk_identity : option ChunkIdentity;
  tool_call_index : gmap Z Z;
  client_include_usage : bool;
}.

Definition default_framing : OpenAiStreamFraming := mkFraming None ∅ false.

(** [obj.entry(k).or_insert(v)] *)
Definition or_insert (k : string) (v : Value) (obj : list (string * Value)) : list (string * Value) :=
  if has_field k obj then obj else set_field k v obj.

Definition is_chunk (obj : list (string * Value)) : bool :=
  bool_decide (field_str "object" obj = Some OBJ_CHUNK).

(** Every chunk of a stream repeats the identity of the first. *)
Definition apply_chunk_identity (self : OpenAiStreamFraming) (obj : list (string * Value))
    : OpenAiStreamFraming * list (string * Value) :=
  if negb (is_chunk obj) then (self, obj)
  else match chunk_identity self with
       | None =>
           if has_field "id" obj then
             (mkFraming (Some (mkIdentity (default Null (field "id" obj)) (default Null (field "created" obj))
                                 (field "model" obj)))
                (tool_call_index self) (client_include_usage self), obj)
           else (self, obj)
       | Some identity =>
           let obj := or_insert "id" (ident_id identity) obj in
           let obj := or_insert "created" (ident_created identity) obj in
           (self, match ident_model identity with Some model => or_insert "model" model obj | None => obj end)
       end.

(** Tool-call indices count the calls from 0, by first appearance. *)
Definition remap_tool_call (tc : Value) (index : gmap Z Z) : Value * gmap Z Z :=
  match tc, get_u64 "index" tc with
  | Object tc_obj, Some raw =>
      let next := Z.of_nat (size index) in
      let '(ordinal, index) := match index !! raw with
                               | Some ordinal => (ordinal, index)
                               | None => (next, <[raw := next]> index)
                               end in
      (Object (set_field "index" (num_u ordinal) tc_obj), index)
  | tc, _ => (tc, index)
  end.

(** [v.get_mut(k)] rewritten by [f], with its state. *)
Definition with_member {S} (k : string) (f : Value -> S -> Value * S) (v : Value) (st : S) : Value * S :=
  match v with
  | Object obj =>
      match field k obj with
      | Some x => let '(x, st) := f x st in (Object (set_field k x obj), st)
      | None => (v, st)
      end
  | v => (v, st)
  end.

(** [v.as_array_mut()], each element rewritten in order. *)
Definition with_elements {S} (f : Value -> S -> Value * S) (v : Value) (st : S) : Value * S :=
  match v with
  | Array l => let '(l, st) := visit f l st in (Array l, st)
  | v => (v, st)
  end.

Definition remap_choice : Value -> gmap Z Z -> Value * gmap Z Z :=
  with_member "delta" (with_member "tool_calls" (with_elements remap_tool_call)).

Definition remap_tool_call_index (self : OpenAiStreamFraming) (obj : list (string * Value))
    : OpenAiStreamFraming * list (string * Value) :=
  if negb (is_chunk obj) then (self, obj)
  else
    let '(v, index) := with_member "choices" (with_elements remap_choice) (Object obj) (tool_call_index self) in
    (mkFraming (chunk_identity self) index (client_include_usage self), default obj (as_object v)).

Definition has_finish (obj : list (string * Value)) : bool :=
  match (field_array "choices" obj ≫= head) ≫= get "finish_reason" with
  | Some fr => negb (is_null fr)
  | None => false
  end.

(** The chunk without its usage, and the usage as a chunk of its own. *)
Definition split_openai_trailing_usage (obj : list (string * Value))
    : list (string * Value) * option (list (string * Value)) :=
  match field "usage" obj with
  | Some usage =>
      if is_chunk obj && has_finish obj then
        let trailing := set_opt "id" (field "id" obj) [] in
        let trailing := set_field "object" (Str OBJ_CHUNK) trailing in
        let trailing := set_opt "created" (field "created" obj) trailing in
        let trailing := set_opt "model" (field "model" obj) trailing in
        (remove_field "usage" obj, Some (set_field "usage" usage (set_field "choices" (Array []) trailing)))
      else (obj, None)
  | None => (obj, None)
  end.

Definition strip_folded_usage (obj : list (string * Value)) : list (string * Value) :=
  if is_chunk obj && has_field "usage" obj && has_finish obj then remove_field "usage" obj else obj.

(** [on_egress_chunk]: the chunk as sent, and the chunk that follows it if any. *)
Definition on_egress_chunk (self : OpenAiStreamFraming) (chunk : Value)
    : OpenAiStreamFraming * Value * option Value :=
  match chunk with
  | Object obj =>
      let '(self, obj) := apply_chunk_identity self obj in
      let '(self, obj) := remap_tool_call_index self obj in
      if client_include_usage self then
        let '(obj, trailing) := split_openai_trailing_usage obj in (self, Object obj, Object <$> trailing)
      else (self, Object (strip_folded_usage obj), None)
  | chunk => (self, chunk, None)
  end.

(** The same-protocol path: chunks a client that asked for no usage must not see. *)
Definition suppress_same_proto_frame (self : OpenAiStreamFraming) (data : Value) : bool :=
  if client_include_usage self then false
  else match data with
       | Object obj =>
           is_chunk obj
           && match field "usage" obj with Some (Object _) => true | _ => false end
           && match field_array "choices" obj with Some [] => true | _ => false end
       | _ => false
       end.

Definition strip_same_proto_usage (self : OpenAiStreamFraming) (data : Value) : bool :=
  if client_include_usage self then false
  else match data with
       | Object obj =>
           has_field "usage" obj && match field_array "choices" obj with Some (_ :: _) => true | _ => false end
       | _ => false
       end.
