(* ===== verification/OpenAiStream.v ===== *)
(** * OpenAiStream: the chunks of Chat Completions as a well-bracketed stream

    For any sequence of chunks, well-formed or not, what the reader of [OpenAiChat] emits keeps to the
    grammar of [StreamGrammar]. *)

From S2P Require Import Prelude Breaker Json Classifier Ir Anthropic OpenAiChat.

#[local] Open Scope Z_scope.

(** ** The invariant *)

Record decode_ok (st : StreamDecodeState) : Prop := {
  do_thinking : thinking_block_open st = true ->
    text_block_open st = false /\ open_tools st = ∅ /\ tool_ir_index st = ∅;
  do_text : text_block_open st = true -> is_Some (text_index st);
  do_keys : dom (tool_ir_index st) = open_tools st;
  do_text_claimed : forall i, text_index st = Some i -> i < next_ir_index st;
  do_tool_claimed : forall k i, tool_ir_index st !! k = Some i -> i < next_ir_index st;
  do_injective : forall k k' i, tool_ir_index st !! k = Some i -> tool_ir_index st !! k' = Some i -> k = k';
  do_disjoint : forall k i, tool_ir_index st !! k = Some i -> text_index st <> Some i;
}.

(** The blocks the reader holds open. *)
Definition open_blocks (st : StreamDecodeState) : gset Z :=
  (if thinking_block_open st then {[0]} else ∅)
  ∪ (if text_block_open st then match text_index st with Some i => {[i]} | None => ∅ end else ∅)
  ∪ map_img (tool_ir_index st).

Definition view (st : StreamDecodeState) : Grammar := mkGrammar (started st) (open_blocks st).

(** A step keeps the invariant and stays within the grammar, from states of [P] to states of [Q]. *)
Definition step_ok (P : StreamDecodeState -> Prop) (f : Step) (Q : StreamDecodeState -> Prop) : Prop :=
  forall st, decode_ok st -> started st = true -> P st ->
    grammar_run (view st) (f st).1 = Some (view (f st).2)
    /\ decode_ok (f st).2 /\ started (f st).2 = true /\ Q (f st).2.

Lemma then_ok P Q R f g : step_ok P f Q -> step_ok Q g R -> step_ok P (then_ f g) R.
Proof.
  intros Hf Hg st Hst Hs HP. unfold then_. destruct (Hf st Hst Hs HP) as (H1 & H2 & H3 & H4).
  destruct (f st) as [out st']. simpl in *. destruct (Hg st' H2 H3 H4) as (H5 & H6 & H7 & H8).
  destruct (g st') as [out' st'']. simpl in *. by rewrite grammar_run_app, H1.
Qed.

Lemma nothing_ok P : step_ok P nothing P.
Proof. by intros st Hst Hs HP. Qed.

Lemma step_ok_weaken (P P' Q Q' : StreamDecodeState -> Prop) f :
  step_ok P f Q -> (forall st, P' st -> P st) -> (forall st, Q st -> Q' st) -> step_ok P' f Q'.
Proof. intros Hf HP HQ st Hst Hs H. destruct (Hf st Hst Hs (HP _ H)) as (H1 & H2 & H3 & H4). auto. Qed.

Lemma steps_ok_same P l : Forall (fun f => step_ok P f P) l -> step_ok P (steps l) P.
Proof. induction 1 as [|f l Hf Hl IH]; [apply nothing_ok|]. by eapply then_ok. Qed.

Definition anywhere (st : StreamDecodeState) : Prop := True.
Definition answering (st : StreamDecodeState) : Prop := thinking_block_open st = false.
Definition in_text (st : StreamDecodeState) : Prop := text_block_open st = true.
Definition quiet (st : StreamDecodeState) : Prop := thinking_block_open st = false /\ text_block_open st = false.
Definition all_closed (st : StreamDecodeState) : Prop := open_blocks st = ∅.

Ltac start_step :=
  intros [sa bo ti txc ot rs tb rf ps tm ni] Hst Hs HP; pose proof Hst as [Hth Htx Hk Hti Hto Hinj Hdis];
  unfold anywhere, answering, in_text, quiet, all_closed in *; simpl in Hs, HP, Hth, Htx, Hk, Hti, Hto, Hinj, Hdis;
  subst sa.

Ltac keep := unfold view, open_blocks; simpl.

Lemma close_thinking_ok : step_ok anywhere close_thinking answering.
Proof.
  start_step. unfold close_thinking. simpl. destruct tb; [|done].
  destruct (Hth eq_refl) as (-> & -> & ->). keep. rewrite bool_decide_eq_true_2 by set_solver. simpl.
  split; [do 2 f_equal; rewrite map_img_empty; set_solver|]. by repeat split.
Qed.

(** What [claim_ir_index] hands out is no block's index yet. *)
Lemma claim_fresh st :
  decode_ok st ->
  let i := (claim_ir_index st).1 in
  (forall j, text_index st = Some j -> j < i) /\ (forall k j, tool_ir_index st !! k = Some j -> j < i).
Proof.
  intros [_ _ _ Hti Hto _ _]. simpl. split.
  - intros j H. specialize (Hti _ H). lia.
  - intros k j H. specialize (Hto _ _ H). lia.
Qed.

Lemma open_text_ok : step_ok answering open_text (fun st => answering st /\ in_text st).
Proof.
  start_step. subst tb. unfold open_text. simpl. destruct bo.
  { destruct (Htx eq_refl) as [i ->]. by split_and!. }
  destruct ti as [i|]; keep.
  - rewrite bool_decide_eq_false_2.
    2:{ rewrite !elem_of_union, elem_of_map_img. intros [[H|H]|[k Hm]]; [set_solver|set_solver|]. by apply (Hdis k i). }
    simpl. split; [do 2 f_equal; set_solver|]. split; [|done]. by split.
  - rewrite bool_decide_eq_false_2.
    2:{ rewrite !elem_of_union, elem_of_map_img. intros [[H|H]|[k Hm]]; [set_solver|set_solver|].
        specialize (Hto k _ Hm). lia. }
    simpl. split; [do 2 f_equal; set_solver|]. split; [|done]. split; simpl; try done.
    + intros i [= <-]. lia.
    + intros k i Hm. specialize (Hto k i Hm). lia.
    + intros k i Hm [= Hi]. specialize (Hto k i Hm). lia.
Qed.

Lemma text_delta_ok d : step_ok in_text (text_delta d) in_text.
Proof.
  start_step. subst bo. destruct (Htx eq_refl) as [i ->]. unfold text_delta. keep.
  rewrite bool_decide_eq_true_2 by set_solver. done.
Qed.

Lemma open_message_ok data st :
  decode_ok st ->
  grammar_run (view st) (open_message data st).1 = Some (view (open_message data st).2)
  /\ decode_ok (open_message data st).2 /\ started (open_message data st).2 = true.
Proof. intros Hst. unfold open_message. destruct st as [[] ? ? ? ? ? ? ? ? ? ?]; [done|]. by destruct Hst. Qed.

Lemma step_reasoning_ok delta : step_ok anywhere (step_reasoning delta) anywhere.
Proof.
  start_step. unfold step_reasoning. simpl. destruct (nonempty _) as [r|] eqn:E; [|done].
  destruct bo; [done|]. destruct (bool_decide (ot = ∅)) eqn:Eo; [|done].
  apply bool_decide_eq_true in Eo. rewrite Eo in Hk. apply dom_empty_inv_L in Hk. subst tm ot.
  destruct tb; keep; rewrite (map_img_empty_L (M := gmap Z) (A := Z) (SA := gset Z)).
  - rewrite bool_decide_eq_true_2 by set_solver. done.
  - rewrite bool_decide_eq_false_2 by set_solver. simpl. rewrite bool_decide_eq_true_2 by set_solver. simpl.
    split; [do 2 f_equal; set_solver|]. split; [|done]. by split.
Qed.

Lemma step_text_ok delta : step_ok anywhere (step_text delta) anywhere.
Proof.
  intros st Hst Hs _. unfold step_text.
  assert (H : exists st', view st' = view st /\ decode_ok st' /\ started st' = true
              /\ match nonempty (delta ≫= get_str "refusal") with Some _ => set_refusal st | None => st end = st').
  { destruct (nonempty _); [exists (set_refusal st)|by exists st]. split_and!; try done. by destruct Hst. }
  destruct H as (st' & Hv & Hst' & Hs' & ->). rewrite <- Hv.
  destruct (or_else _ _) as [content|]; [|done].
  assert (Hok : step_ok anywhere (steps [close_thinking; open_text; text_delta (TextDelta content)]) in_text).
  { eapply then_ok; [apply close_thinking_ok|]. eapply then_ok; [apply open_text_ok|].
    eapply then_ok; [|apply nothing_ok]. eapply step_ok_weaken; [apply text_delta_ok|by intros ? []|done]. }
  destruct (Hok st' Hst' Hs' I) as (H1 & H2 & H3 & _). done.
Qed.

Lemma step_logprobs_ok choice0 : step_ok anywhere (step_logprobs choice0) anywhere.
Proof.
  intros st Hst Hs _. unfold step_logprobs. destruct (read_openai_logprobs _) as [|lp lps]; [done|].
  destruct (text_block_open st) eqn:E.
  - destruct (text_delta_ok (LogprobsDelta (lp :: lps)) st Hst Hs E) as (H1 & H2 & H3 & _). done.
  - assert (Hok : step_ok anywhere (steps [close_thinking; open_text; text_delta (LogprobsDelta (lp :: lps))]) in_text).
    { eapply then_ok; [apply close_thinking_ok|]. eapply then_ok; [apply open_text_ok|].
      eapply then_ok; [|apply nothing_ok]. eapply step_ok_weaken; [apply text_delta_ok|by intros ? []|done]. }
    destruct (Hok st Hst Hs I) as (H1 & H2 & H3 & _). done.
Qed.

Lemma open_tool_ok tc : step_ok answering (open_tool tc) answering.
Proof.
  start_step. subst tb. unfold open_tool. simpl. destruct (get "function" tc ≫= get_str "name") as [name|]; [|done].
  destruct (bool_decide (tool_key tc ∈ ot)) eqn:Ek; [done|]. destruct (size ot <? MAX_OPEN_TOOLS)%nat; [|done].
  apply bool_decide_eq_false in Ek. rewrite <- Hk in Ek. apply not_elem_of_dom in Ek. keep.
  set (i := Z.max ni (if rs then 1 else 0)).
  assert (Hf : forall k j, tm !! k = Some j -> j < i) by (intros k j H; specialize (Hto k j H); lia).
  assert (Hft : forall j, ti = Some j -> j < i) by (intros j H; specialize (Hti j H); lia).
  rewrite bool_decide_eq_false_2.
  2:{ rewrite !elem_of_union, elem_of_map_img. intros [[H|Hb]|[k Hm]]; [set_solver| |].
      - destruct bo; [|by apply elem_of_empty in Hb]. destruct ti as [j|]; [|by apply elem_of_empty in Hb].
        apply elem_of_singleton in Hb. subst j.
        specialize (Hft i eq_refl). lia.
      - specialize (Hf k i Hm). lia. }
  simpl. split; [do 2 f_equal; rewrite map_img_insert_notin_L by done; clear; set_solver|].
  split; [|done]. split; simpl; try done.
  - by rewrite dom_insert_L, Hk.
  - intros j Hj. specialize (Hft j Hj). lia.
  - intros k j. rewrite lookup_insert_Some. intros [[_ <-]|[_ H]]; [lia|]. specialize (Hf k j H). lia.
  - intros k k' j. rewrite !lookup_insert_Some. intros [[<- <-]|[_ H]] [[<- Hj]|[_ H']]; try done.
    + specialize (Hf k' i H'). lia.
    + subst j. specialize (Hf k i H). lia.
    + by apply (Hinj k k' j).
  - intros k j. rewrite lookup_insert_Some. intros [[_ <-]|[_ H]] Hj; [specialize (Hft i Hj); lia|].
    by apply (Hdis k j).
Qed.

Lemma tool_arguments_ok tc : step_ok answering (tool_arguments tc) answering.
Proof.
  start_step. unfold tool_arguments. simpl. destruct (get "function" tc ≫= _) as [args|]; [|done].
  destruct (tm !! tool_key tc) as [i|] eqn:E; [|done]. keep.
  rewrite bool_decide_eq_true_2; [done|]. apply elem_of_union_r. apply elem_of_map_img. by eexists.
Qed.

Lemma step_tools_ok delta : step_ok anywhere (step_tools delta) anywhere.
Proof.
  intros st Hst Hs _. unfold step_tools. destruct (delta ≫= _) as [tcs|]; [|done].
  assert (Hok : step_ok anywhere (then_ close_thinking (steps (step_tool <$> tcs))) answering).
  { eapply then_ok; [apply close_thinking_ok|]. apply steps_ok_same. apply Forall_fmap, Forall_true. intros tc.
    unfold compose. eapply then_ok; [apply open_tool_ok|apply tool_arguments_ok]. }
  destruct (Hok st Hst Hs I) as (H1 & H2 & H3 & _). done.
Qed.

(** ** The end of the message *)

Lemma close_text_ok : step_ok answering close_text quiet.
Proof.
  start_step. subst tb. unfold close_text. simpl. destruct bo; [|by split_and!].
  destruct (Htx eq_refl) as [i ->]. keep. rewrite bool_decide_eq_true_2 by set_solver. simpl.
  assert (Hi : i ∉ map_img (SA := gset Z) tm).
  { rewrite elem_of_map_img. intros [k Hm]. by apply (Hdis k i). }
  split; [|split; [by split|done]]. do 2 f_equal. clear -Hi. set_solver.
Qed.

Lemma omap_fmap_stop (m : gmap Z Z) (l : list Z) : omap (fun k => BlockStop <$> m !! k) l = BlockStop <$> omap (fun k => m !! k) l.
Proof. induction l as [|k l IH]; [done|]. csimpl. destruct (m !! k); csimpl; by rewrite IH. Qed.

Lemma opened_tools (m : gmap Z Z) (l : list Z) :
  (forall k k' i, m !! k = Some i -> m !! k' = Some i -> k = k') -> NoDup l -> NoDup (omap (fun k => m !! k) l).
Proof.
  intros Hinj. induction 1 as [|k l Hk Hl IH]; csimpl; [constructor|]. destruct (m !! k) as [i|] eqn:E; [|done].
  constructor; [|done]. rewrite list_elem_of_omap. intros (k' & Hk' & Hm). by rewrite (Hinj k k' i) in Hk.
Qed.

Lemma close_tools_ok : step_ok quiet close_tools all_closed.
Proof.
  start_step. destruct HP as [-> ->]. unfold close_tools. keep.
  assert (Hnd : NoDup (ascending ot)).
  { unfold ascending. rewrite merge_sort_Permutation. apply NoDup_elements. }
  assert (Himg : ∅ ∪ ∅ ∪ map_img tm = list_to_set (C := gset Z) (omap (fun k => tm !! k) (ascending ot))).
  { apply set_eq. intros i. rewrite !elem_of_union, elem_of_map_img, elem_of_list_to_set, list_elem_of_omap.
    unfold ascending. setoid_rewrite merge_sort_Permutation. setoid_rewrite elem_of_elements. rewrite <- Hk.
    split; [intros [[[]%elem_of_empty|[]%elem_of_empty]|[k Hm]]|intros (k & _ & Hm)].
    - exists k. split; [by apply elem_of_dom_2 in Hm|done].
    - right. by exists k. }
  rewrite Himg, omap_fmap_stop, close_all by by apply opened_tools.
  rewrite (map_img_empty_L (M := gmap Z) (A := Z) (SA := gset Z)).
  split; [do 2 f_equal; set_solver|]. split; [|split; [done|set_solver]].
  by split.
Qed.

Lemma conclude_ok stop usage :
  step_ok all_closed (fun st => ([MessageDelta (Some stop) None usage; MessageStop], st)) all_closed.
Proof.
  intros st Hst Hs HP. unfold all_closed in HP. unfold view. simpl. rewrite Hs, HP. simpl.
  rewrite !bool_decide_eq_true_2 by done. done.
Qed.

Lemma conclusion_ok stop usage :
  step_ok anywhere
    (steps [close_thinking; close_text; close_tools;
            fun st => ([MessageDelta (Some stop) None usage; MessageStop], st)]) all_closed.
Proof.
  repeat (eapply then_ok; [first [apply close_thinking_ok|apply close_text_ok|apply close_tools_ok|apply conclude_ok]|]).
  apply nothing_ok.
Qed.

Lemma step_finish_ok data choice0 : step_ok anywhere (step_finish data choice0) anywhere.
Proof.
  intros st Hst Hs _. unfold step_finish. destruct (choice0 ≫= get_str "finish_reason") as [fr|].
  - eapply (step_ok_weaken anywhere anywhere all_closed anywhere); [apply conclusion_ok|done..].
  - destruct (match get "usage" data with Some (Object u) => _ | _ => None end); [|done].
    destruct choice0; [done|]. simpl. by rewrite Hs.
Qed.

(** Once a chunk says how the message ended, nothing is open. *)
Lemma finish_closes data choice0 fr st :
  decode_ok st -> started st = true -> choice0 ≫= get_str "finish_reason" = Some fr ->
  open_blocks (step_finish data choice0 st).2 = ∅.
Proof.
  intros Hst Hs Hfr. unfold step_finish. rewrite Hfr.
  eapply (fun stop usage => proj2 (proj2 (proj2 (conclusion_ok stop usage st Hst Hs I)))).
Qed.

(** ** The reader *)

Lemma message_then_ok data f st :
  step_ok anywhere f anywhere -> decode_ok st ->
  grammar_run (view st) (then_ (open_message data) f st).1 = Some (view (then_ (open_message data) f st).2)
  /\ decode_ok (then_ (open_message data) f st).2.
Proof.
  intros Hf Hst. destruct (open_message_ok data st Hst) as (H1 & H2 & H3). unfold then_.
  destruct (open_message data st) as [out st']. destruct (Hf st' H2 H3 I) as (H4 & H5 & _).
  destruct (f st') as [out' st'']. cbn [fst snd] in *. by rewrite grammar_run_app, H1.
Qed.

Lemma chunk_ok event_type data st :
  decode_ok st ->
  grammar_run (view st) (read_response_events event_type data st).1
    = Some (view (read_response_events event_type data st).2)
  /\ decode_ok (read_response_events event_type data st).2.
Proof.
  intros Hst. unfold read_response_events. destruct (bool_decide _); [done|].
  set (choice0 := get_array "choices" data ≫= head). set (delta := choice0 ≫= get "delta").
  assert (Hrest : step_ok anywhere
    (steps [step_reasoning delta; step_text delta; step_logprobs choice0; step_tools delta; step_finish data choice0])
    anywhere).
  { apply steps_ok_same. repeat (apply Forall_cons; split);
      [apply step_reasoning_ok|apply step_text_ok|apply step_logprobs_ok|apply step_tools_ok|apply step_finish_ok|constructor]. }
  by apply (message_then_ok data).
Qed.

#[export] Instance openai_bracketed : BracketedReader read_response_events.
Proof.
  refine {| reader_ok := decode_ok; reader_view := view |}.
  - split; [|unfold view, open_blocks, no_stream; simpl; f_equal; rewrite map_img_empty_L; set_solver].
    by split.
  - apply chunk_ok.
Defined.

(** The end of a chunk: why the message ended, when the chunk says so. *)
Definition finish_reason (data : Value) : option string :=
  if bool_decide (as_str data = Some SSE_DONE_SENTINEL) then None
  else (get_array "choices" data ≫= head) ≫= get_str "finish_reason".

Lemma chunk_finish_closes event_type data fr st :
  decode_ok st -> finish_reason data = Some fr ->
  view (read_response_events event_type data st).2 = mkGrammar true ∅.
Proof.
  unfold finish_reason, read_response_events. intros Hst Hfr. destruct (bool_decide _); [done|].
  set (choice0 := get_array "choices" data ≫= head) in *. set (delta := choice0 ≫= get "delta").
  assert (Hpre : step_ok anywhere
    (steps [step_reasoning delta; step_text delta; step_logprobs choice0; step_tools delta]) anywhere).
  { apply steps_ok_same. repeat (apply Forall_cons; split);
      [apply step_reasoning_ok|apply step_text_ok|apply step_logprobs_ok|apply step_tools_ok|constructor]. }
  assert (Hsplit : forall f1 f2 f3 f4 f5 s,
    (steps [f1; f2; f3; f4; f5] s).2 = (f5 (steps [f1; f2; f3; f4] s).2).2).
  { intros. simpl. unfold then_, nothing. destruct (f1 s) as [? s1], (f2 s1) as [? s2], (f3 s2) as [? s3].
    destruct (f4 s3) as [? s4]. simpl. by destruct (f5 s4). }
  destruct (open_message_ok data st Hst) as (_ & H2 & H3).
  assert (Hhead : forall f l s, (steps (f :: l) s).2 = (steps l (f s).2).2).
  { intros f l s. simpl. unfold then_. destruct (f s) as [? s1]. simpl. by destruct (steps l s1). }
  rewrite Hhead, Hsplit. set (s1 := (open_message data st).2) in *.
  destruct (Hpre s1 H2 H3 I) as (_ & H4 & H5 & _). set (s2 := (steps _ s1).2) in *.
  destruct (step_finish_ok data choice0 s2 H4 H5 I) as (_ & _ & H6 & _).
  unfold view. by rewrite (finish_closes data choice0 fr s2 H4 H5 Hfr), H6.
Qed.

(** Whatever chunks a Chat Completions backend sends - reordered, repeated, malformed, after the end -
    the events read from them keep to the grammar: the message starts once and first, no block opens
    twice, nothing is added to a block that is not open, the message concludes only with every block
    closed; and a chunk that says why the message ended leaves no block open. *)
Theorem openai_stream_is_well_bracketed chunks :
  exists g,
    grammar_run no_stream (read_frames read_response_events chunks default_decode).1 = Some g
    /\ forall before event_type data fr,
         chunks = before ++ [(event_type, data)] -> finish_reason data = Some fr -> g = mkGrammar true ∅.
Proof.
  destruct reader_starts as [Hok Hview].
  destruct (bracketed_frames chunks default_decode Hok) as [Hrun _]. rewrite Hview in Hrun.
  eexists. split; [exact Hrun|]. intros before et data fr -> Hfr.
  assert (Happ : forall st, (read_frames read_response_events (before ++ [(et, data)]) st).2
                 = (read_response_events et data (read_frames read_response_events before st).2).2).
  { clear. induction before as [|[et' data'] before IH]; intros st; simpl.
    - by destruct (read_response_events et data st).
    - destruct (read_response_events et' data' st) as [out st']. specialize (IH st').
      destruct (read_frames read_response_events (before ++ [(et, data)]) st') as [o1 s1].
      destruct (read_frames read_response_events before st') as [o2 s2]. simpl in *. done. }
  rewrite Happ. eapply chunk_finish_closes; [|exact Hfr].
  by destruct (bracketed_frames before default_decode Hok) as [_ H].
Qed.

Definition content_chunk (text : string) : Value :=
  Object [("choices", Array [Object [("delta", Object [("content", Str text)])]])]%string.
Definition reasoning_chunk (text : string) : Value :=
  Object [("choices", Array [Object [("delta", Object [("reasoning_content", Str text)])]])]%string.
Definition tool_chunk (index : Z) (name : string) : Value :=
  Object [("choices", Array [Object [("delta", Object [("tool_calls", Array [Object
    [("index", num_u index); ("id", Str "call_1");
     ("function", Object [("name", Str name); ("arguments", Str "{}")])]])])]])]%string.
Definition finish_chunk (reason : string) : Value :=
  Object [("choices", Array [Object [("delta", Object []); ("finish_reason", Str reason)]])]%string.

Definition demo_chunks : list (string * Value) :=
  [(""%string, reasoning_chunk "let me see"); (""%string, tool_chunk 1 "f"); (""%string, content_chunk "and");
   (""%string, finish_chunk "tool_calls")].

Lemma openai_stream_is_well_bracketed_witness :
  exists g,
    grammar_run no_stream (read_frames read_response_events demo_chunks default_decode).1 = Some g
    /\ g = mkGrammar true ∅
    /\ length (read_frames read_response_events demo_chunks default_decode).1 = 12%nat.
Proof.
  destruct (openai_stream_is_well_bracketed demo_chunks) as (g & Hg & Hf). exists g. split; [exact Hg|].
  split; [|vm_compute; reflexivity].
  exact (Hf (take 3 demo_chunks) ""%string (finish_chunk "tool_calls") "tool_calls"%string eq_refl eq_refl).
Defined.

(** ** Indices before the end of the message *)

(** The indices at which answer blocks (text, tools) started, and whether thinking did. *)
Definition answer_start (ev : IrStreamEvent) : option Z :=
  match ev with BlockStart _ MThinking => None | BlockStart i _ => Some i | _ => None end.
Definition answer_starts (evs : list IrStreamEvent) : list Z := omap answer_start evs.
Definition is_thinking_start (ev : IrStreamEvent) : bool :=
  match ev with BlockStart _ MThinking => true | _ => false end.

(** The indices claimed for answer blocks. *)
Definition claimed (st : StreamDecodeState) (i : Z) : Prop :=
  text_index st = Some i \/ exists k, tool_ir_index st !! k = Some i.

(** After the events [h], no chunk having ended the message. *)
Record history (h : list IrStreamEvent) (st : StreamDecodeState) : Prop := {
  hi_ok : decode_ok st;
  hi_distinct : NoDup (answer_starts h);
  hi_claimed : forall i, i ∈ answer_starts h <-> claimed st i;
  hi_text : is_Some (text_index st) -> text_block_open st = true;
  hi_thinking : existsb is_thinking_start h = true -> reasoning_seen st = true;
  hi_reserved : reasoning_seen st = true -> forall i, claimed st i -> 1 <= i;
  hi_next : 0 <= next_ir_index st;
}.

Definition extends (f : Step) : Prop := forall h st, history h st -> history (h ++ (f st).1) (f st).2.

Lemma extends_then f g : extends f -> extends g -> extends (then_ f g).
Proof.
  intros Hf Hg h st Hh. specialize (Hf h st Hh). unfold then_. destruct (f st) as [out st'].
  simpl in Hf. specialize (Hg _ _ Hf). destruct (g st') as [out' st'']. simpl in *. by rewrite app_assoc.
Qed.

Lemma extends_steps l : Forall extends l -> extends (steps l).
Proof.
  induction 1 as [|f l Hf Hl IH]; [intros h st Hh; simpl; by rewrite app_nil_r|]. by apply extends_then.
Qed.

Lemma extends_nil h st : history h st -> history (h ++ []) st.
Proof. by rewrite app_nil_r. Qed.

(** Events that start no block. *)
Lemma history_quiet h evs st :
  answer_starts evs = [] -> existsb is_thinking_start evs = false -> history h st -> history (h ++ evs) st.
Proof.
  intros H1 H2 [Hok Hnd Hcl Htx Hth Hre Hn]. unfold answer_starts in *.
  split; try done; unfold answer_starts; rewrite ?omap_app, ?H1, ?app_nil_r; try done.
  by rewrite existsb_app, H2, orb_false_r.
Qed.

(** The state seen by [history], but for its invariant. *)
Lemma history_state h st st' :
  history h st -> decode_ok st' ->
  text_index st' = text_index st -> tool_ir_index st' = tool_ir_index st ->
  text_block_open st' = text_block_open st -> reasoning_seen st' = reasoning_seen st ->
  next_ir_index st' = next_ir_index st -> history h st'.
Proof.
  intros [Hok Hnd Hcl Htx Hth Hre Hn] Hok' E1 E2 E3 E4 E5. unfold claimed in *.
  split; try done; unfold claimed; rewrite ?E1, ?E2, ?E3, ?E4, ?E5; done.
Qed.

(** Steps of the grammar proof keep the invariant of the reader; these steps keep the history too. *)
Lemma ok_after P f Q st : step_ok P f Q -> decode_ok st -> started st = true -> P st -> decode_ok (f st).2.
Proof. intros Hf H1 H2 H3. by destruct (Hf st H1 H2 H3) as (_ & H & _). Qed.

(** An answer block opened at a claimed index. *)
Lemma history_open h st st' i m :
  m <> MThinking -> history h st -> decode_ok st' ->
  i = (claim_ir_index st).1 -> next_ir_index st' = i + 1 -> reasoning_seen st' = reasoning_seen st ->
  (forall j, claimed st' j <-> j = i \/ claimed st j) ->
  (is_Some (text_index st') -> text_block_open st' = true) ->
  history (h ++ [BlockStart i m]) st'.
Proof.
  intros Hm Hh Hok' Hi Hn' Hr Hcl' Htx'. pose proof (claim_fresh st (hi_ok _ _ Hh)) as [F1 F2].
  destruct Hh as [Hok Hnd Hcl Htx Hth Hre Hn].
  assert (Hfresh : forall j, claimed st j -> j < i) by (subst i; intros j [Hj|[k Hj]]; eauto).
  assert (Hstart : answer_starts [BlockStart i m] = [i]) by by destruct m.
  unfold answer_starts in *. split; unfold answer_starts; rewrite ?omap_app, ?Hstart; try done.
  - apply NoDup_app. split; [done|]. split; [|apply NoDup_singleton].
    intros j Hj ->%list_elem_of_singleton. apply Hcl, Hfresh in Hj. lia.
  - intros j. rewrite elem_of_app, list_elem_of_singleton, Hcl, Hcl'. tauto.
  - rewrite existsb_app, Hr. replace (existsb is_thinking_start [BlockStart i m]) with false by by destruct m.
    by rewrite orb_false_r.
  - rewrite Hr. intros Hs j [->|Hj]%Hcl'; [|by apply Hre]. subst i. simpl. rewrite Hs. lia.
  - rewrite Hn'. subst i. simpl. lia.
Qed.

Section steps.
Context (h : list IrStreamEvent) (st : StreamDecodeState) (Hh : history h st).

Lemma open_message_extends data : history (h ++ (open_message data st).1) (open_message data st).2.
Proof.
  pose proof (open_message_ok data st (hi_ok _ _ Hh)) as (_ & Hok & _). unfold open_message in *.
  destruct (started st); [by apply extends_nil|]. apply history_quiet; [done..|].
  by eapply history_state.
Qed.

Lemma close_thinking_extends : started st = true -> history (h ++ (close_thinking st).1) (close_thinking st).2.
Proof.
  intros Hs. pose proof (ok_after _ _ _ st close_thinking_ok (hi_ok _ _ Hh) Hs I) as Hok.
  unfold close_thinking in *. destruct (thinking_block_open st); [|by apply extends_nil].
  apply history_quiet; [done..|]. by eapply history_state.
Qed.

Lemma text_delta_extends d : history (h ++ (text_delta d st).1) (text_delta d st).2.
Proof. unfold text_delta. destruct (text_index st); [by apply history_quiet|by apply extends_nil]. Qed.

Lemma tool_arguments_extends tc : history (h ++ (tool_arguments tc st).1) (tool_arguments tc st).2.
Proof.
  unfold tool_arguments. destruct (_ ≫= get_str "arguments"); [|by apply extends_nil].
  destruct (tool_ir_index st !! tool_key tc); [by apply history_quiet|by apply extends_nil].
Qed.

Lemma step_reasoning_extends delta :
  started st = true -> history (h ++ (step_reasoning delta st).1) (step_reasoning delta st).2.
Proof.
  intros Hs. pose proof (ok_after _ _ _ st (step_reasoning_ok delta) (hi_ok _ _ Hh) Hs I) as Hok.
  unfold step_reasoning in *. destruct (nonempty _) as [r|] eqn:E; [|by apply extends_nil].
  destruct (text_block_open st) eqn:Eb; [done|]. destruct (bool_decide (open_tools st = ∅)) eqn:Eo; [|done].
  apply bool_decide_eq_true in Eo. destruct Hh as [Hok0 Hnd Hcl Htx Hth Hre Hn].
  assert (Hnone : forall i, ~ claimed st i).
  { intros i [Hi|[k Hk]].
    - rewrite Htx in Eb; [done|by eexists].
    - apply elem_of_dom_2 in Hk. rewrite (do_keys _ Hok0), Eo in Hk. by apply elem_of_empty in Hk. }
  destruct (thinking_block_open st); simpl in *.
  - split; simpl; try done.
    + unfold answer_starts. rewrite omap_app. simpl. by rewrite app_nil_r.
    + intros i. unfold answer_starts. rewrite omap_app. simpl. rewrite app_nil_r. apply Hcl.
    + intros _ i Hi. by destruct (Hnone i).
  - split; simpl; try done.
    + unfold answer_starts. rewrite omap_app. simpl. by rewrite app_nil_r.
    + intros i. unfold answer_starts. rewrite omap_app. simpl. rewrite app_nil_r. apply Hcl.
    + intros _ i Hi. by destruct (Hnone i).
Qed.

Lemma open_text_extends :
  started st = true -> thinking_block_open st = false -> history (h ++ (open_text st).1) (open_text st).2.
Proof.
  intros Hs Ht. pose proof (ok_after _ _ _ st open_text_ok (hi_ok _ _ Hh) Hs Ht) as Hok.
  unfold open_text in *. destruct (text_index st) as [i|] eqn:Ei.
  - assert (Hb : text_block_open st = true) by (apply (hi_text _ _ Hh); rewrite Ei; by eexists).
    rewrite Hb in *. by apply extends_nil.
  - assert (Hb : text_block_open st = false).
    { destruct (text_block_open st) eqn:Eb; [|done]. destruct (do_text _ (hi_ok _ _ Hh) Eb) as [? H]. congruence. }
    cbn [claim_ir_index] in *. simpl in *. rewrite Hb in *.
    eapply (history_open h st); [done..| |by simpl].
    intros j. unfold claimed. simpl. rewrite Ei. split; [intros [[= <-]|Hk]; auto|].
    intros [->|[[=]|Hk]]; [by left|by right].
Qed.

Lemma open_tool_extends tc :
  started st = true -> thinking_block_open st = false -> history (h ++ (open_tool tc st).1) (open_tool tc st).2.
Proof.
  intros Hs Ht. pose proof (ok_after _ _ _ st (open_tool_ok tc) (hi_ok _ _ Hh) Hs Ht) as Hok.
  unfold open_tool in *. destruct (get "function" tc ≫= get_str "name") as [name|]; [|by apply extends_nil].
  destruct (bool_decide (tool_key tc ∈ open_tools st)) eqn:Ek; [by apply extends_nil|].
  destruct (size (open_tools st) <? MAX_OPEN_TOOLS)%nat; [|by apply extends_nil].
  apply bool_decide_eq_false in Ek. rewrite <- (do_keys _ (hi_ok _ _ Hh)) in Ek. apply not_elem_of_dom in Ek.
  cbn [claim_ir_index negb andb] in *. simpl in *.
  eapply (history_open h st); [done..| |apply (hi_text _ _ Hh)].
  intros j. unfold claimed. simpl. split.
  - intros [Hj|[k Hk]]; [by auto|]. apply lookup_insert_Some in Hk as [[_ <-]|[_ Hk]]; [by left|].
    right. right. by exists k.
  - intros [->|[Hj|[k Hk]]]; [right; exists (tool_key tc); by rewrite lookup_insert_eq|by left|].
    right. exists k. rewrite lookup_insert_ne; [done|]. intros <-. congruence.
Qed.
End steps.

(** Steps that start from, and lead to, states of a kind and keep the history. *)
Definition extends_in (P : StreamDecodeState -> Prop) (f : Step) (Q : StreamDecodeState -> Prop) : Prop :=
  forall h st, history h st -> started st = true -> P st ->
    history (h ++ (f st).1) (f st).2 /\ started (f st).2 = true /\ Q (f st).2.

Lemma extends_of P f Q :
  step_ok P f Q ->
  (forall h st, history h st -> started st = true -> P st -> history (h ++ (f st).1) (f st).2) -> extends_in P f Q.
Proof.
  intros Hok Hf h st Hh Hs HP. destruct (Hok st (hi_ok _ _ Hh) Hs HP) as (_ & _ & H1 & H2). auto.
Qed.

Lemma extends_in_then P Q R f g : extends_in P f Q -> extends_in Q g R -> extends_in P (then_ f g) R.
Proof.
  intros Hf Hg h st Hh Hs HP. destruct (Hf h st Hh Hs HP) as (H1 & H2 & H3). unfold then_.
  destruct (f st) as [out st']. simpl in *. destruct (Hg _ _ H1 H2 H3) as (H4 & H5 & H6).
  destruct (g st') as [out' st'']. simpl in *. by rewrite app_assoc.
Qed.

Lemma extends_in_nothing P : extends_in P nothing P.
Proof. intros h st Hh Hs HP. split; [by apply extends_nil|done]. Qed.

Lemma extends_in_steps P l : Forall (fun f => extends_in P f P) l -> extends_in P (steps l) P.
Proof. induction 1 as [|f l Hf Hl IH]; [apply extends_in_nothing|]. by eapply extends_in_then. Qed.

Lemma close_thinking_keeps : extends_in anywhere close_thinking answering.
Proof. apply extends_of; [apply close_thinking_ok|]. intros. by apply close_thinking_extends. Qed.

Lemma text_run_keeps d :
  extends_in anywhere (steps [close_thinking; open_text; text_delta d]) anywhere.
Proof.
  eapply extends_in_then; [apply close_thinking_keeps|].
  eapply (extends_in_then _ in_text).
  { apply extends_of; [|intros; by apply open_text_extends]. eapply step_ok_weaken; [apply open_text_ok|done|by intros ? []]. }
  eapply (extends_in_then _ anywhere); [|apply extends_in_nothing].
  apply extends_of; [|intros; by apply text_delta_extends].
  eapply step_ok_weaken; [apply text_delta_ok|done|done].
Qed.

Lemma step_text_keeps delta : extends_in anywhere (step_text delta) anywhere.
Proof.
  apply extends_of; [apply step_text_ok|]. intros h st Hh Hs _. unfold step_text.
  assert (H : exists st', history h st' /\ started st' = true
              /\ match nonempty (delta ≫= get_str "refusal") with Some _ => set_refusal st | None => st end = st').
  { destruct (nonempty _); [exists (set_refusal st)|by exists st]. split_and!; try done.
    eapply history_state; try done. by destruct (hi_ok _ _ Hh). }
  destruct H as (st' & Hh' & Hs' & ->). destruct (or_else _ _) as [content|]; [|by apply extends_nil].
  by apply (text_run_keeps (TextDelta content)).
Qed.

Lemma step_logprobs_keeps choice0 : extends_in anywhere (step_logprobs choice0) anywhere.
Proof.
  apply extends_of; [apply step_logprobs_ok|]. intros h st Hh Hs _. unfold step_logprobs.
  destruct (read_openai_logprobs _) as [|lp lps]; [by apply extends_nil|].
  destruct (text_block_open st); [by apply text_delta_extends|]. by apply (text_run_keeps (LogprobsDelta (lp :: lps))).
Qed.

Lemma step_tools_keeps delta : extends_in anywhere (step_tools delta) anywhere.
Proof.
  apply extends_of; [apply step_tools_ok|]. intros h st Hh Hs _. unfold step_tools.
  destruct (delta ≫= _) as [tcs|]; [|by apply extends_nil].
  assert (H : extends_in anywhere (then_ close_thinking (steps (step_tool <$> tcs))) answering).
  { eapply extends_in_then; [apply close_thinking_keeps|]. apply extends_in_steps, Forall_fmap, Forall_true. intros tc.
    unfold compose, step_tool. eapply extends_in_then.
    - apply extends_of; [apply open_tool_ok|]. intros. by apply open_tool_extends.
    - apply extends_of; [apply tool_arguments_ok|]. intros. by apply tool_arguments_extends. }
  by apply H.
Qed.

(** A chunk that does not end the message. *)
Lemma chunk_keeps event_type data h st :
  history h st -> finish_reason data = None ->
  history (h ++ (read_response_events event_type data st).1) (read_response_events event_type data st).2.
Proof.
  unfold finish_reason, read_response_events. intros Hh Hfr. destruct (bool_decide _); [by apply extends_nil|].
  set (choice0 := get_array "choices" data ≫= head) in *. set (delta := choice0 ≫= get "delta").
  assert (Hfinish : extends_in anywhere (step_finish data choice0) anywhere).
  { apply extends_of; [apply step_finish_ok|]. intros h' st' Hh' _ _. unfold step_finish. rewrite Hfr.
    destruct (match get "usage" data with Some (Object u) => _ | _ => None end); [|by apply extends_nil].
    destruct choice0; [by apply extends_nil|]. by apply history_quiet. }
  assert (Hrest : extends_in anywhere
    (steps [step_reasoning delta; step_text delta; step_logprobs choice0; step_tools delta; step_finish data choice0])
    anywhere).
  { apply extends_in_steps. repeat (apply Forall_cons; split); [|apply step_text_keeps|apply step_logprobs_keeps
      |apply step_tools_keeps|exact Hfinish|constructor].
    apply extends_of; [apply step_reasoning_ok|]. intros. by apply step_reasoning_extends. }
  pose proof (open_message_extends h st Hh data) as H1.
  destruct (open_message_ok data st (hi_ok _ _ Hh)) as (_ & _ & H2).
  change (steps (open_message data :: ?l) st) with (then_ (open_message data) (steps l) st).
  set (rest := steps _) in *. unfold then_. destruct (open_message data st) as [out st']. simpl in H1, H2.
  destruct (Hrest _ _ H1 H2 I) as (H3 & _). destruct (rest st') as [out' st'']. simpl in *. by rewrite (assoc_L (++)).
Qed.

Lemma frames_keep chunks h st :
  history h st -> Forall (fun c => finish_reason c.2 = None) chunks ->
  history (h ++ (read_frames read_response_events chunks st).1) (read_frames read_response_events chunks st).2.
Proof.
  intros Hh Hc. revert h st Hh. induction Hc as [|[et data] chunks Hfr Hc IH]; intros h st Hh; [by apply extends_nil|].
  rewrite read_frames_cons. cbn [fst snd]. rewrite (assoc_L (++)). by apply IH, chunk_keeps.
Qed.

(** Before a chunk ends the message, the blocks of the answer (text, tool calls) get indices of their
    own: no index is handed out twice, whatever the backend's own tool indices are; and once thinking
    has streamed, at index 0, no answer block takes that index. *)
Theorem answer_blocks_get_their_own_index chunks :
  Forall (fun c => finish_reason c.2 = None) chunks ->
  let events := (read_frames read_response_events chunks default_decode).1 in
  NoDup (answer_starts events)
  /\ (existsb is_thinking_start events = true -> forall i, i ∈ answer_starts events -> 1 <= i).
Proof.
  intros Hc. assert (H0 : history [] default_decode).
  { destruct reader_starts as [Hok _]. split; try done; [by constructor| |by intros [? [=]]].
    intros i. split; [by intros ?%elem_of_nil|]. intros [[=]|[k Hk]]. change ((∅ : gmap Z Z) !! k = Some i) in Hk. by rewrite lookup_empty in Hk. }
  destruct (frames_keep _ _ _ H0 Hc) as [_ Hnd Hcl _ Hth Hre _]. simpl in *. split; [done|].
  intros Hs i Hi. apply Hre; [by apply Hth|by apply Hcl].
Qed.

Lemma answer_blocks_get_their_own_index_witness :
  let events := (read_frames read_response_events (take 3 demo_chunks) default_decode).1 in
  NoDup (answer_starts events) /\ answer_starts events = [1; 2].
Proof.
  split; [|vm_compute; reflexivity]. apply (answer_blocks_get_their_own_index (take 3 demo_chunks)).
  repeat constructor.
Defined.
