(* ===== verification/Bytes.v ===== *)
(** * Bytes

    Byte strings as lists of integers, with the slice, index and big-endian operations the wire
    codecs use: an out-of-range index or slice is [None], as Rust's bounds check panics. A [&str] is
    the bytes of its UTF-8 encoding; [utf8_valid] is the check of [std::str::from_utf8]. *)

From S2P Require Import Prelude.

Definition bytes := list Z.

Definition is_byte (b : Z) : Prop := 0 <= b < 256.

Definition zlen {A} (l : list A) : Z := Z.of_nat (length l).

(** [l[i]] *)
Definition byte_at (l : bytes) (i : Z) : option Z :=
  if 0 <=? i then l !! Z.to_nat i else None.

(** [&l[a..b]] and [&l[a..]] *)
Definition slice (l : bytes) (a b : Z) : option bytes :=
  if (0 <=? a) && (a <=? b) && (b <=? zlen l)
  then Some (take (Z.to_nat (b - a)) (drop (Z.to_nat a) l)) else None.

Definition slice_from (l : bytes) (a : Z) : option bytes := slice l a (zlen l).

(** [l[a..a + src.len()].copy_from_slice(src)] *)
Definition copy_at (l : bytes) (a : Z) (src : bytes) : option bytes :=
  if (0 <=? a) && (a + zlen src <=? zlen l)
  then Some (take (Z.to_nat a) l ++ src ++ drop (Z.to_nat (a + zlen src)) l) else None.

(** [to_be_bytes] and [from_be_bytes]. *)
Definition be16 (n : Z) : bytes := [Z.shiftr n 8 mod 256; n mod 256].

Definition be32 (n : Z) : bytes :=
  [Z.shiftr n 24 mod 256; Z.shiftr n 16 mod 256; Z.shiftr n 8 mod 256; n mod 256].

Definition of_be16 (a b : Z) : Z := a * 256 + b.

Definition of_be32 (a b c d : Z) : Z := ((a * 256 + b) * 256 + c) * 256 + d.

(** A string literal's bytes. *)
Definition str (s : string) : bytes :=
  map (fun a => Z.of_N (Ascii.N_of_ascii a)) (String.list_ascii_of_string s).

(** ** UTF-8 *)

(** A continuation byte in the given range. *)
Definition cont (lo hi b : Z) : bool := (lo <=? b) && (b <=? hi).

(** The number of bytes of the well-formed sequence at the head of the list, from the Unicode table
    of well-formed byte sequences [std::str::from_utf8] implements. *)
Definition utf8_head (l : bytes) : option nat :=
  match l with
  | b0 :: l =>
      if (0 <=? b0) && (b0 <=? 127) then Some 1%nat else
      match l with
      | b1 :: l =>
          if (194 <=? b0) && (b0 <=? 223) && cont 128 191 b1 then Some 2%nat else
          match l with
          | b2 :: l =>
              if ((b0 =? 224) && cont 160 191 b1 || (225 <=? b0) && (b0 <=? 236) && cont 128 191 b1
                  || (b0 =? 237) && cont 128 159 b1 || (238 <=? b0) && (b0 <=? 239) && cont 128 191 b1)
                 && cont 128 191 b2 then Some 3%nat else
              match l with
              | b3 :: _ =>
                  if ((b0 =? 240) && cont 144 191 b1 || (241 <=? b0) && (b0 <=? 243) && cont 128 191 b1
                      || (b0 =? 244) && cont 128 143 b1)
                     && cont 128 191 b2 && cont 128 191 b3 then Some 4%nat else None
              | [] => None
              end
          | [] => None
          end
      | [] => None
      end
  | [] => None
  end.

Fixpoint utf8_loop (fuel : nat) (l : bytes) : bool :=
  match l, fuel with
  | [], _ => true
  | _, O => false
  | _, S fuel =>
      match utf8_head l with
      | Some n => utf8_loop fuel (drop n l)
      | None => false
      end
  end.

(** [std::str::from_utf8(l).is_ok()]; one byte is consumed per round at least. *)
Definition utf8_valid (l : bytes) : bool := utf8_loop (length l) l.

Definition from_utf8 (l : bytes) : option bytes := if utf8_valid l then Some l else None.

(** ** Lemmas *)

Lemma zlen_nonneg {A} (l : list A) : 0 <= zlen l.
Proof. unfold zlen. lia. Qed.

Lemma zlen_app {A} (l k : list A) : zlen (l ++ k) = zlen l + zlen k.
Proof. unfold zlen. rewrite length_app. lia. Qed.

Lemma zlen_cons {A} (x : A) l : zlen (x :: l) = 1 + zlen l.
Proof. unfold zlen. simpl. lia. Qed.

Lemma zlen_nil {A} : zlen (@nil A) = 0.
Proof. done. Qed.

Lemma zlen_drop {A} n (l : list A) : 0 <= n <= zlen l -> zlen (drop (Z.to_nat n) l) = zlen l - n.
Proof. unfold zlen. rewrite length_drop. lia. Qed.

Lemma zlen_take {A} n (l : list A) : 0 <= n <= zlen l -> zlen (take (Z.to_nat n) l) = n.
Proof. unfold zlen. rewrite length_take. lia. Qed.

Lemma zlen_be32 n : zlen (be32 n) = 4.
Proof. done. Qed.

Lemma zlen_be16 n : zlen (be16 n) = 2.
Proof. done. Qed.

Lemma of_be16_be16 n : 0 <= n < 2 ^ 16 -> of_be16 (Z.shiftr n 8 mod 256) (n mod 256) = n.
Proof.
  intros Hn. unfold of_be16. rewrite Z.shiftr_div_pow2 by lia. change (2 ^ 8) with 256.
  rewrite (Z.mod_small (n / 256)); [pose proof (Z.div_mod n 256); lia|].
  split; [apply Z.div_pos; lia|apply Z.div_lt_upper_bound; lia].
Qed.

Lemma of_be32_be32 n : 0 <= n < 2 ^ 32 ->
  of_be32 (Z.shiftr n 24 mod 256) (Z.shiftr n 16 mod 256) (Z.shiftr n 8 mod 256) (n mod 256) = n.
Proof.
  intros Hn. unfold of_be32. rewrite !Z.shiftr_div_pow2 by lia.
  change (2 ^ 8) with 256. change (2 ^ 16) with (256 * 256). change (2 ^ 24) with (256 * 256 * 256).
  rewrite <- !Z.div_div by lia.
  rewrite (Z.mod_small (n / 256 / 256 / 256)).
  - pose proof (Z.div_mod n 256). pose proof (Z.div_mod (n / 256) 256).
    pose proof (Z.div_mod (n / 256 / 256) 256). lia.
  - split; [repeat apply Z.div_pos; lia|]. rewrite !Z.div_div by lia.
    apply Z.div_lt_upper_bound; lia.
Qed.

(** Reading inside, and past, a prefix. *)
Lemma slice_app (l1 l2 l3 : bytes) a b :
  a = zlen l1 -> b = zlen l1 + zlen l2 -> slice (l1 ++ l2 ++ l3) a b = Some l2.
Proof.
  intros -> ->. unfold slice. rewrite !zlen_app.
  pose proof (zlen_nonneg l1). pose proof (zlen_nonneg l2). pose proof (zlen_nonneg l3).
  rewrite (proj2 (Z.leb_le 0 _)), (proj2 (Z.leb_le (zlen l1) _)), (proj2 (Z.leb_le (_ + _) _)) by lia.
  simpl. f_equal. unfold zlen in *. rewrite Nat2Z.id, drop_app_length.
  replace (Z.to_nat _) with (length l2) by lia. apply take_app_length.
Qed.

Lemma slice_app_l (l k : bytes) a b :
  b <= zlen l -> slice (l ++ k) a b = slice l a b.
Proof.
  intros Hb. unfold slice. rewrite zlen_app. pose proof (zlen_nonneg k).
  destruct (0 <=? a) eqn:Ea; [|done]. destruct (a <=? b) eqn:Eab; [|done]. simpl. zbool.
  rewrite (proj2 (Z.leb_le b (zlen l))), (proj2 (Z.leb_le b _)) by lia. f_equal.
  unfold zlen in *. rewrite drop_app_le by lia. apply take_app_le. rewrite length_drop. lia.
Qed.

Lemma slice_Some l a b :
  0 <= a <= b -> b <= zlen l ->
  slice l a b = Some (take (Z.to_nat (b - a)) (drop (Z.to_nat a) l)).
Proof.
  intros [? ?] ?. unfold slice.
  rewrite (proj2 (Z.leb_le 0 a)), (proj2 (Z.leb_le a b)), (proj2 (Z.leb_le b _)) by lia. done.
Qed.

Lemma slice_from_Some l a :
  0 <= a <= zlen l -> slice_from l a = Some (drop (Z.to_nat a) l).
Proof.
  intros Ha. unfold slice_from. rewrite slice_Some by lia. f_equal. apply take_ge.
  rewrite length_drop. unfold zlen in *. lia.
Qed.

Lemma slice_length l a b s : slice l a b = Some s -> zlen s = b - a.
Proof.
  unfold slice. destruct (_ && _) eqn:E; [|done]. zbool. intros [= <-].
  unfold zlen in *. rewrite length_take, length_drop. lia.
Qed.

Lemma byte_at_Some l i : 0 <= i < zlen l -> exists b, byte_at l i = Some b.
Proof.
  intros Hi. unfold byte_at. rewrite (proj2 (Z.leb_le 0 i)) by lia.
  apply lookup_lt_is_Some. unfold zlen in *. lia.
Qed.

Lemma byte_at_Forall (P : Z -> Prop) l i b : Forall P l -> byte_at l i = Some b -> P b.
Proof.
  unfold byte_at. intros HF H. destruct (0 <=? i); [|done]. by eapply Forall_lookup_1 in H.
Qed.

Lemma byte_at_app_l l k i : i < zlen l -> byte_at (l ++ k) i = byte_at l i.
Proof.
  intros Hi. unfold byte_at. destruct (0 <=? i) eqn:E; [|done]. zbool.
  apply lookup_app_l. unfold zlen in *. lia.
Qed.

Lemma byte_at_app_r l k i : zlen l <= i -> byte_at (l ++ k) i = byte_at k (i - zlen l).
Proof.
  intros Hi. unfold byte_at. pose proof (zlen_nonneg l).
  rewrite (proj2 (Z.leb_le 0 i)), (proj2 (Z.leb_le 0 (i - zlen l))) by lia.
  unfold zlen in *. etransitivity; [apply lookup_app_r; lia|]. f_equal. lia.
Qed.

Lemma copy_at_Some l a src :
  0 <= a -> a + zlen src <= zlen l ->
  copy_at l a src = Some (take (Z.to_nat a) l ++ src ++ drop (Z.to_nat (a + zlen src)) l).
Proof.
  intros ? ?. unfold copy_at. rewrite (proj2 (Z.leb_le 0 a)), (proj2 (Z.leb_le _ (zlen l))) by lia.
  done.
Qed.

(** ASCII text is UTF-8, whatever its length. *)
Lemma utf8_loop_fuel n m l :
  (length l <= n)%nat -> (length l <= m)%nat -> utf8_loop n l = utf8_loop m l.
Proof.
  revert m l. induction n as [|n IH]; intros m l Hn Hm.
  - destruct l; [by destruct m|simpl in Hn; lia].
  - destruct l as [|b l]; [by destruct m|]. destruct m as [|m]; [simpl in Hm; lia|].
    change (match utf8_head (b :: l) with
            | Some k => utf8_loop n (drop k (b :: l)) | None => false end
          = match utf8_head (b :: l) with
            | Some k => utf8_loop m (drop k (b :: l)) | None => false end).
    destruct (utf8_head (b :: l)) as [k|] eqn:E; [|done].
    assert (1 <= k)%nat.
    { unfold utf8_head in E. repeat (case_match; try discriminate); simplify_eq; lia. }
    apply IH; rewrite length_drop; simpl in *; lia.
Qed.

Lemma utf8_valid_ascii l : Forall (fun b => 0 <= b <= 127) l -> utf8_valid l = true.
Proof.
  unfold utf8_valid. induction 1 as [|b l Hb Hl IH]; [done|].
  cbn [length utf8_loop utf8_head].
  rewrite (proj2 (Z.leb_le 0 b)), (proj2 (Z.leb_le b 127)) by lia. done.
Qed.

(** A decidable check of the byte range, for concrete inputs. *)
Definition bytes_ok (l : bytes) : bool := forallb (fun b => (0 <=? b) && (b <? 256)) l.

Lemma bytes_ok_Forall l : bytes_ok l = true -> Forall is_byte l.
Proof.
  unfold bytes_ok. induction l as [|b l IH]; simpl; intros H; [constructor|]. zbool.
  constructor; [unfold is_byte; lia|by apply IH].
Qed.

(** The length normaliser the codec proofs share. *)
Ltac zlens := rewrite ?zlen_app, ?zlen_cons, ?zlen_be32, ?zlen_be16, ?(zlen_nil (A := Z)).

#[export] Hint Resolve zlen_nonneg : busbar.
#[export] Hint Rewrite @zlen_app @zlen_cons zlen_be32 zlen_be16 @zlen_nil : busbar_rw.
