(* ===== verification/EventStream.v ===== *)
(** * EventStream: the AWS event-stream frame codec (eventstream.rs)

    The incremental decoder [drain_frames_checked] over a reassembly buffer, the scan of a frame's
    headers, and the encoders of normal and exception frames. Every index and slice the code takes
    is checked, so a [None] is a panic. [crc32fast::hash] and [serde_json] are dependencies, hence
    parameters: [crc32] gives a checksum and [json_message] the body of an exception. *)

From S2P Require Import Prelude Bytes.

(** ** Constants *)

Definition MAX_FRAME_BYTES : Z := 16 * 1024 * 1024.
Definition PRELUDE_LEN : Z := 12.
Definition CRC_BYTES : Z := 4.
Definition MIN_FRAME_BYTES : Z := PRELUDE_LEN + CRC_BYTES.
Definition HDR_EVENT_TYPE : bytes := str ":event-type".
Definition HDR_CONTENT_TYPE : bytes := str ":content-type".
Definition HDR_MESSAGE_TYPE : bytes := str ":message-type".
Definition HDR_EXCEPTION_TYPE : bytes := str ":exception-type".
Definition MSG_TYPE_EVENT : bytes := str "event".
Definition MSG_TYPE_EXCEPTION : bytes := str "exception".
Definition HDR_TYPE_STRING : Z := 7.
Definition APPLICATION_JSON : bytes := str "application/json".

Inductive DrainStatus := DrainOk | MalformedPrelude.

(** ** Headers *)

Record FrameHeaders := mkHeaders {
  event_type : option bytes;
  message_type : option bytes;
  exception_type : option bytes
}.

Definition no_headers : FrameHeaders := mkHeaders None None None.

Definition fixed_width (value_type : Z) : option Z :=
  match value_type with
  | 0 | 1 => Some 0
  | 2 => Some 1
  | 3 => Some 2
  | 4 => Some 4
  | 5 => Some 8
  | 8 => Some 8
  | 9 => Some 16
  | _ => None
  end.

(** The value of a header whose value starts at [p]: the outer [option] is a panic, [inl tt] leaves
    the loop, [inr (value, p)] goes on at the new [p]. *)
Definition header_value (h : bytes) (value_type p : Z) : option (unit + option bytes * Z) :=
  if (value_type =? 6) || (value_type =? HDR_TYPE_STRING) then
    if zlen h <? p + 2 then Some (inl ()) else
    hi ← byte_at h p; lo ← byte_at h (p + 1);
    let vlen := of_be16 hi lo in
    let p := p + 2 in
    if zlen h <? p + vlen then Some (inl ()) else
    v ← slice h p (p + vlen);
    Some (inr (Some v, p + vlen))
  else match fixed_width value_type with
       | Some w => if zlen h <? p + w then Some (inl ()) else Some (inr (None, p + w))
       | None => Some (inl ())
       end.

(** The [match name] that records a string value. *)
Definition record_header (found : FrameHeaders) (name : bytes) (value : option bytes) : FrameHeaders :=
  match value ≫= from_utf8 with
  | Some v =>
      if bool_decide (name = HDR_EVENT_TYPE)
      then mkHeaders (Some v) (message_type found) (exception_type found)
      else if bool_decide (name = HDR_MESSAGE_TYPE)
      then mkHeaders (event_type found) (Some v) (exception_type found)
      else if bool_decide (name = HDR_EXCEPTION_TYPE)
      then mkHeaders (event_type found) (message_type found) (Some v)
      else found
  | None => found
  end.

(** One round of the loop on a non-empty block: [inl] breaks out, [inr] goes on with the rest. *)
Definition header_round (h : bytes) (found : FrameHeaders)
    : option (FrameHeaders + FrameHeaders * bytes) :=
  match byte_at h 0 with
  | None => Some (inl found)
  | Some name_len =>
      if zlen h <? 1 + name_len + 1 then Some (inl found) else
      name ← slice h 1 (1 + name_len);
      value_type ← byte_at h (1 + name_len);
      res ← header_value h value_type (1 + name_len + 1);
      match res with
      | inl _ => Some (inl found)
      | inr (value, p) =>
          rest ← slice_from h p;
          Some (inr (record_header found name value, rest))
      end
  end.

Fixpoint parse_headers_loop (fuel : nat) (h : bytes) (found : FrameHeaders) : option FrameHeaders :=
  match h, fuel with
  | [], _ => Some found
  | _, O => None
  | _, S fuel =>
      r ← header_round h found;
      match r with
      | inl found => Some found
      | inr (found, h) => parse_headers_loop fuel h found
      end
  end.

Definition parse_frame_headers (h : bytes) : option FrameHeaders :=
  parse_headers_loop (length h) h no_headers.

(** [s.split(['#', '/'])], the delimiters 35 and 47 being ASCII. *)
Definition is_delim (b : Z) : bool := (b =? 35) || (b =? 47).

Fixpoint split_delim (acc s : bytes) : list bytes :=
  match s with
  | [] => [reverse acc]
  | b :: s => if is_delim b then reverse acc :: split_delim [] s else split_delim (b :: acc) s
  end.

Fixpoint find_non_empty (ts : list bytes) : option bytes :=
  match ts with
  | [] => None
  | [] :: ts => find_non_empty ts
  | t :: _ => Some t
  end.

(** [exc.rsplit(['#', '/']).find(|s| !s.is_empty()).unwrap_or(&exc)] *)
Definition bare_exception (exc : bytes) : bytes :=
  default exc (find_non_empty (reverse (split_delim [] exc))).

Definition to_ascii_lowercase (b : Z) : Z := if (65 <=? b) && (b <=? 90) then b + 32 else b.

Definition lowercase_first (s : bytes) : bytes :=
  match s with
  | first :: rest => to_ascii_lowercase first :: rest
  | [] => []
  end.

Definition event_type_for_frame (headers : bytes) : option bytes :=
  parsed ← parse_frame_headers headers;
  Some (if bool_decide (message_type parsed = Some MSG_TYPE_EXCEPTION)
        then match exception_type parsed with
             | Some exc => lowercase_first (bare_exception exc)
             | None => default [] (event_type parsed)
             end
        else default [] (event_type parsed)).

(** ** Decoder *)

(** Where the loop stands: the frames read, how far the front is consumed, the sink. *)
Record Drain := mkDrain {
  out : list (bytes * bytes);
  pos : Z;
  sink : option bytes
}.

(** What the unread remainder [rem] holds: [inl status] breaks out, [inr] is a complete frame and
    its length. *)
Definition read_frame (rem : bytes) : option (DrainStatus + (bytes * bytes) * Z) :=
  if zlen rem <? PRELUDE_LEN then Some (inl DrainOk) else
  t0 ← byte_at rem 0; t1 ← byte_at rem 1; t2 ← byte_at rem 2; t3 ← byte_at rem 3;
  let total_len := of_be32 t0 t1 t2 t3 in
  h0 ← byte_at rem 4; h1 ← byte_at rem 5; h2 ← byte_at rem 6; h3 ← byte_at rem 7;
  let headers_len := of_be32 h0 h1 h2 h3 in
  if negb ((MIN_FRAME_BYTES <=? total_len) && (total_len <=? MAX_FRAME_BYTES))
     || (total_len - MIN_FRAME_BYTES <? headers_len)
  then Some (inl MalformedPrelude)
  else if zlen rem <? total_len then Some (inl DrainOk) else
  headers ← slice rem PRELUDE_LEN (PRELUDE_LEN + headers_len);
  event_type ← event_type_for_frame headers;
  payload ← slice rem (PRELUDE_LEN + headers_len) (total_len - CRC_BYTES);
  Some (inr (event_type, payload, total_len)).

(** [sink.extend_from_slice(&rem[..total_len])], when there is one. *)
Definition push_verbatim (sink : option bytes) (rem : bytes) (total_len : Z) : option (option bytes) :=
  match sink with
  | Some s => verbatim ← slice rem 0 total_len; Some (Some (s ++ verbatim))
  | None => Some None
  end.

(** One round of the loop, with the push to the sink. *)
Definition drain_round (buf : bytes) (d : Drain) : option (DrainStatus + Drain) :=
  rem ← slice_from buf (pos d);
  r ← read_frame rem;
  match r with
  | inl status => Some (inl status)
  | inr (frame, total_len) =>
      sink ← push_verbatim (sink d) rem total_len;
      Some (inr (mkDrain (out d ++ [frame]) (pos d + total_len) sink))
  end.

Fixpoint drain_loop (fuel : nat) (buf : bytes) (d : Drain) : option (DrainStatus * Drain) :=
  match fuel with
  | O => None
  | S fuel =>
      r ← drain_round buf d;
      match r with
      | inl status => Some (status, d)
      | inr d => drain_loop fuel buf d
      end
  end.

(** The frames, the status and the consumed count it returns; the buffer and the sink it leaves. *)
Record Drained := mkDrained {
  frames : list (bytes * bytes);
  status : DrainStatus;
  consumed : Z;
  buffer : bytes;
  consumed_sink : option bytes
}.

Definition drain_frames_checked (buf : bytes) (consumed_sink : option bytes) : option Drained :=
  r ← drain_loop (S (length buf)) buf (mkDrain [] 0 consumed_sink);
  let '(status, d) := r in
  buf ← match status with
        | DrainOk => slice_from buf (pos d)
        | MalformedPrelude => Some []
        end;
  Some (mkDrained (out d) status (pos d) buf (sink d)).

(** ** Encoder *)

(** [push_string_header]: [None] is the [false] that pushes nothing. *)
Definition push_string_header (headers name value : bytes) : option bytes :=
  if (255 <? zlen name) || (65535 <? zlen value) then None
  else Some (headers ++ [zlen name mod 256] ++ name ++ [HDR_TYPE_STRING]
             ++ be16 (zlen value mod 65536) ++ value).

Definition frame_open : bytes := repeat 0 (Z.to_nat PRELUDE_LEN).

Section encoder.
(** [crc32fast::hash]; [serde_json::to_vec(&json!({"message": message})).ok()]. *)
Context (crc32 : bytes -> Z) (json_message : bytes -> option bytes).

Definition frame_close (frame payload : bytes) : option bytes :=
  let headers_len := zlen frame - PRELUDE_LEN in
  let total_len := PRELUDE_LEN + headers_len + zlen payload + CRC_BYTES in
  if MAX_FRAME_BYTES <? total_len then Some [] else
  frame ← copy_at frame 0 (be32 (total_len mod 2 ^ 32));
  frame ← copy_at frame 4 (be32 (headers_len mod 2 ^ 32));
  head ← slice frame 0 8;
  let prelude_crc := crc32 head in
  frame ← copy_at frame 8 (be32 prelude_crc);
  let frame := frame ++ payload in
  let message_crc := crc32 frame in
  Some (frame ++ be32 message_crc).

(** The three headers of a frame pushed in order; an oversized one drops the frame. *)
Definition encode_with (type_name type_value message_type payload : bytes) : option bytes :=
  match push_string_header frame_open type_name type_value with
  | None => Some []
  | Some frame =>
      match push_string_header frame HDR_CONTENT_TYPE APPLICATION_JSON with
      | None => Some []
      | Some frame =>
          match push_string_header frame HDR_MESSAGE_TYPE message_type with
          | None => Some []
          | Some frame => frame_close frame payload
          end
      end
  end.

Definition encode_frame (event_type payload : bytes) : option bytes :=
  encode_with HDR_EVENT_TYPE event_type MSG_TYPE_EVENT payload.

(** The body of last resort, its quotes being byte 34. *)
Definition fallback_body : bytes :=
  str "{" ++ [34] ++ str "message" ++ [34] ++ str ":" ++ [34]
  ++ str "An internal server error occurred." ++ [34] ++ str "}".

Definition encode_exception_frame (exception_type message : bytes) : option bytes :=
  let payload := default fallback_body (json_message message) in
  encode_with HDR_EXCEPTION_TYPE exception_type MSG_TYPE_EXCEPTION payload.
End encoder.

