(* ===== verification/EventStreamSpec.v ===== *)
(** * EventStreamSpec: what the frame codec promises

    [reads] is the specification of the decoder: the frames a byte string starts with and why reading
    stops. The loop of [drain_frames_checked] refines it, an encoded frame reads back, and reading
    does not depend on how the bytes arrive in chunks. *)

From S2P Require Import Prelude Bytes EventStream.

#[local] Open Scope Z_scope.

(** ** The header block *)

Lemma header_value_total h vt p :
  Forall is_byte h -> 0 <= p <= zlen h ->
  exists r, header_value h vt p = Some r
    /\ forall v q, r = inr (v, q) -> p <= q <= zlen h.
Proof.
  intros Hb Hp. unfold header_value. destruct (_ || _).
  - destruct (zlen h <? p + 2) eqn:E; [eexists; by split|]. zbool.
    destruct (byte_at_Some h p) as [hi Hhi]; [lia|].
    destruct (byte_at_Some h (p + 1)) as [lo Hlo]; [lia|].
    rewrite Hhi, Hlo. simpl.
    assert (0 <= of_be16 hi lo) as Hv.
    { unfold of_be16. apply byte_at_Forall with (P := is_byte) in Hhi, Hlo; [|done|done].
      unfold is_byte in *. lia. }
    destruct (zlen h <? p + 2 + of_be16 hi lo) eqn:E2; [eexists; by split|]. zbool.
    rewrite slice_Some by lia. simpl. eexists. split; [done|]. intros v q [= <- <-]. lia.
  - destruct (fixed_width vt) as [w|] eqn:Ew; [|eexists; by split].
    destruct (zlen h <? p + w) eqn:E; [eexists; by split|]. zbool. eexists. split; [done|].
    intros v q [= <- <-]. enough (0 <= w) by lia.
    unfold fixed_width in Ew. repeat (case_match; try discriminate); simplify_eq; lia.
Qed.

Lemma header_round_total h found :
  Forall is_byte h -> h <> [] ->
  exists r, header_round h found = Some r
    /\ forall found' rest, r = inr (found', rest) ->
         Forall is_byte rest /\ (length rest < length h)%nat.
Proof.
  intros Hb Hne. unfold header_round.
  destruct (byte_at h 0) as [n|] eqn:En; [|eexists; by split].
  pose proof (byte_at_Forall is_byte _ _ _ Hb En) as Hn. unfold is_byte in Hn.
  destruct (zlen h <? 1 + n + 1) eqn:E; [eexists; by split|]. zbool.
  rewrite slice_Some by lia. simpl.
  destruct (byte_at_Some h (1 + n)) as [vt ->]; [lia|]. simpl.
  destruct (header_value_total h vt (1 + n + 1) Hb) as (r & -> & Hr); [lia|]. simpl.
  destruct r as [[]|[v q]]; [eexists; by split|]. specialize (Hr v q eq_refl).
  rewrite slice_from_Some by lia. simpl. eexists. split; [done|]. intros f' rest [= <- <-].
  split; [by apply Forall_drop|]. rewrite length_drop. unfold zlen in *. lia.
Qed.

(** The scan of a header block never panics and always ends. *)
Lemma parse_headers_total fuel h found :
  Forall is_byte h -> (length h <= fuel)%nat -> is_Some (parse_headers_loop fuel h found).
Proof.
  revert h found. induction fuel as [|fuel IH]; intros [|b h] found Hb Hf; try done; [simpl in Hf; lia|].
  cbn [parse_headers_loop].
  destruct (header_round_total (b :: h) found Hb) as (r & -> & Hr); [done|]. cbn [mbind option_bind].
  destruct r as [f|[f rest]]; [done|]. destruct (Hr f rest eq_refl) as [Hbr Hlen].
  apply IH; [done|]. simpl in *. lia.
Qed.

Lemma event_type_total h : Forall is_byte h -> is_Some (event_type_for_frame h).
Proof.
  intros Hb. unfold event_type_for_frame, parse_frame_headers.
  destruct (parse_headers_total (length h) h no_headers Hb) as [p ->]; [lia|]. simpl. eauto.
Qed.

(** ** Reading one frame *)

Lemma of_be32_range a b c d :
  is_byte a -> is_byte b -> is_byte c -> is_byte d -> 0 <= of_be32 a b c d.
Proof. unfold is_byte, of_be32. lia. Qed.

(** A complete frame is within the cap and within what has arrived; a partial one too. *)
Lemma read_frame_bounds rem r :
  read_frame rem = Some r ->
  match r with
  | inr (_, n) => MIN_FRAME_BYTES <= n <= MAX_FRAME_BYTES /\ n <= zlen rem
  | inl DrainOk => zlen rem < MAX_FRAME_BYTES
  | inl MalformedPrelude => PRELUDE_LEN <= zlen rem
  end.
Proof.
  unfold read_frame. destruct (zlen rem <? PRELUDE_LEN) eqn:E1.
  { intros [= <-]. zbool. unfold PRELUDE_LEN, MAX_FRAME_BYTES in *. lia. }
  intros H. mbind_inv. zbool.
  destruct (_ || _) eqn:E2 in H; simplify_eq; [done|]. zbool.
  destruct (_ <? _) eqn:E3 in H; simplify_eq; zbool; [lia|].
  mbind_inv. lia.
Qed.

Lemma read_frame_total rem : Forall is_byte rem -> is_Some (read_frame rem).
Proof.
  intros Hb. unfold read_frame. destruct (zlen rem <? PRELUDE_LEN) eqn:E1; [done|]. zbool.
  unfold PRELUDE_LEN in *.
  destruct (byte_at_Some rem 0) as [t0 H0]; [lia|]. destruct (byte_at_Some rem 1) as [t1 H1]; [lia|].
  destruct (byte_at_Some rem 2) as [t2 H2]; [lia|]. destruct (byte_at_Some rem 3) as [t3 H3]; [lia|].
  destruct (byte_at_Some rem 4) as [h0 H4]; [lia|]. destruct (byte_at_Some rem 5) as [h1 H5]; [lia|].
  destruct (byte_at_Some rem 6) as [h2 H6]; [lia|]. destruct (byte_at_Some rem 7) as [h3 H7]; [lia|].
  rewrite H0, H1, H2, H3, H4, H5, H6, H7. simpl.
  assert (0 <= of_be32 h0 h1 h2 h3) as Hh by (apply of_be32_range; eapply byte_at_Forall; eauto).
  destruct (_ || _) eqn:E2; [done|]. destruct (zlen rem <? _) eqn:E3; [done|]. zbool.
  unfold MIN_FRAME_BYTES, CRC_BYTES, PRELUDE_LEN in *.
  rewrite !slice_Some by lia. cbn [mbind option_bind].
  edestruct event_type_total as [ty Hty]; [|rewrite Hty].
  { by apply Forall_take, Forall_drop. }
  done.
Qed.

(** More bytes behind change neither a complete frame nor a malformed prelude. *)
Lemma read_frame_app rem more r :
  read_frame rem = Some r -> r <> inl DrainOk -> read_frame (rem ++ more) = Some r.
Proof.
  unfold read_frame. rewrite zlen_app. pose proof (zlen_nonneg more) as Hmore.
  destruct (zlen rem <? PRELUDE_LEN) eqn:E1; [by intros [= <-]|].
  intros H Hr. zbool. rewrite (proj2 (Z.ltb_ge _ PRELUDE_LEN)) by lia.
  unfold PRELUDE_LEN in E1. rewrite !byte_at_app_l by lia.
  destruct (byte_at rem 0) as [t0|]; [simpl in *|done].
  destruct (byte_at rem 1) as [t1|]; [simpl in *|done].
  destruct (byte_at rem 2) as [t2|]; [simpl in *|done].
  destruct (byte_at rem 3) as [t3|]; [simpl in *|done].
  destruct (byte_at rem 4) as [h0|]; [simpl in *|done].
  destruct (byte_at rem 5) as [h1|]; [simpl in *|done].
  destruct (byte_at rem 6) as [h2|]; [simpl in *|done].
  destruct (byte_at rem 7) as [h3|]; [simpl in *|done].
  destruct (_ || _) eqn:E2; [done|]. destruct (zlen rem <? _) eqn:E3; [by simplify_eq|]. zbool.
  rewrite (proj2 (Z.ltb_ge _ _)) by lia.
  unfold MIN_FRAME_BYTES, CRC_BYTES, PRELUDE_LEN in *.
  rewrite !slice_app_l by lia. done.
Qed.

(** ** The specification of the decoder *)

Inductive reads : bytes -> list (bytes * bytes) -> DrainStatus -> Z -> Prop :=
| reads_stop rem st : read_frame rem = Some (inl st) -> reads rem [] st 0
| reads_frame rem f n fs st c :
    read_frame rem = Some (inr (f, n)) ->
    reads (drop (Z.to_nat n) rem) fs st c ->
    reads rem (f :: fs) st (n + c).

Lemma reads_bounds rem fs st c :
  reads rem fs st c -> 0 <= c <= zlen rem /\ MIN_FRAME_BYTES * zlen fs <= c.
Proof.
  induction 1 as [rem st Hr|rem f n fs st c Hr _ IH].
  - split; [|done]. split; [done|apply zlen_nonneg].
  - apply read_frame_bounds in Hr as [[Hlo _] Hhi].
    unfold MIN_FRAME_BYTES, PRELUDE_LEN, CRC_BYTES in *. zlens.
    rewrite zlen_drop in IH by lia. lia.
Qed.

Lemma reads_total rem : Forall is_byte rem -> exists fs st c, reads rem fs st c.
Proof.
  remember (length rem) as k eqn:Hk. revert rem Hk.
  induction k as [k IH] using lt_wf_ind. intros rem -> Hb.
  destruct (read_frame_total rem Hb) as [[st|[f n]] Hr]; [do 3 eexists; by apply reads_stop|].
  pose proof (read_frame_bounds _ _ Hr) as [[Hlo _] Hhi].
  unfold MIN_FRAME_BYTES, PRELUDE_LEN, CRC_BYTES in Hlo.
  destruct (IH (length (drop (Z.to_nat n) rem))) with (rem := drop (Z.to_nat n) rem)
    as (fs & st & c & Hrest); [rewrite length_drop; unfold zlen in *; lia|done|by apply Forall_drop|].
  do 3 eexists. by eapply reads_frame.
Qed.

(** What is left when reading stops cleanly is a partial frame. *)
Lemma reads_rest rem fs c :
  reads rem fs DrainOk c -> read_frame (drop (Z.to_nat c) rem) = Some (inl DrainOk).
Proof.
  remember DrainOk as st eqn:Est. induction 1 as [rem st Hr|rem f n fs st c Hr Hrest IH]; subst.
  - done.
  - pose proof (read_frame_bounds _ _ Hr) as [[Hlo _] _]. pose proof (reads_bounds _ _ _ _ Hrest).
    unfold MIN_FRAME_BYTES, PRELUDE_LEN, CRC_BYTES in *.
    rewrite Z2Nat.inj_add, <- drop_drop by lia. by apply IH.
Qed.

(** Reading does not look past what it has consumed: clean reading continues where it stopped,
    and a malformed prelude stays malformed. *)
Lemma reads_app rem more fs c fs' st' c' :
  reads rem fs DrainOk c -> reads (drop (Z.to_nat c) rem ++ more) fs' st' c' ->
  reads (rem ++ more) (fs ++ fs') st' (c + c').
Proof.
  remember DrainOk as st eqn:Est. intros H H'.
  induction H as [rem st Hr|rem f n fs st c Hr Hrest IH]; subst.
  - rewrite Z.add_0_l. exact H'.
  - pose proof (read_frame_bounds _ _ Hr) as [[Hlo _] Hhi]. pose proof (reads_bounds _ _ _ _ Hrest).
    unfold MIN_FRAME_BYTES, PRELUDE_LEN, CRC_BYTES in *.
    rewrite <- Z.add_assoc. simpl app. apply reads_frame; [by apply read_frame_app|].
    rewrite drop_app_le by (unfold zlen in *; lia). apply IH; [done|].
    rewrite drop_drop, <- Z2Nat.inj_add by lia. exact H'.
Qed.

Lemma reads_app_malformed rem more fs c :
  reads rem fs MalformedPrelude c -> reads (rem ++ more) fs MalformedPrelude c.
Proof.
  remember MalformedPrelude as st eqn:Est.
  induction 1 as [rem st Hr|rem f n fs st c Hr Hrest IH]; subst.
  - apply reads_stop. by apply read_frame_app.
  - pose proof (read_frame_bounds _ _ Hr) as [[Hlo _] Hhi].
    apply reads_frame; [by apply read_frame_app|].
    rewrite drop_app_le by (unfold zlen in *; lia). by apply IH.
Qed.

(** ** The loop refines the specification *)

(** A verbatim copy taken into the sink, if there is one. *)
Definition sink_app (snk : option bytes) (b : bytes) : option bytes :=
  match snk with Some s => Some (s ++ b) | None => None end.

Lemma push_verbatim_Some snk rem n :
  0 <= n <= zlen rem -> push_verbatim snk rem n = Some (sink_app snk (take (Z.to_nat n) rem)).
Proof.
  intros Hn. unfold push_verbatim. destruct snk; [|done]. rewrite slice_Some by lia.
  cbn. by rewrite Z.sub_0_r.
Qed.

Lemma sink_app_nil snk : sink_app snk [] = snk.
Proof. destruct snk; simpl; by rewrite ?app_nil_r. Qed.

Lemma sink_app_app snk b b' : sink_app (sink_app snk b) b' = sink_app snk (b ++ b').
Proof. destruct snk; simpl; by rewrite ?app_assoc. Qed.

Lemma take_two (l : bytes) n m :
  0 <= n -> 0 <= m ->
  take (Z.to_nat n) l ++ take (Z.to_nat m) (drop (Z.to_nat n) l) = take (Z.to_nat (n + m)) l.
Proof.
  intros Hn Hm. rewrite Z2Nat.inj_add by lia. generalize (Z.to_nat n) (Z.to_nat m). clear.
  intros n m. revert l. induction n as [|n IH]; intros [|x l]; simpl; try done.
  - by rewrite take_nil.
  - by rewrite IH.
Qed.

Lemma drain_loop_reads fuel buf d fs st c :
  0 <= pos d -> reads (drop (Z.to_nat (pos d)) buf) fs st c -> pos d <= zlen buf ->
  (length fs < fuel)%nat ->
  drain_loop fuel buf d
  = Some (st, mkDrain (out d ++ fs) (pos d + c)
                (sink_app (sink d) (take (Z.to_nat c) (drop (Z.to_nat (pos d)) buf)))).
Proof.
  revert d fs c. induction fuel as [|fuel IH]; intros d fs c Hp Hr Hle Hf; [lia|].
  cbn [drain_loop]. unfold drain_round. rewrite slice_from_Some by lia. cbn [mbind option_bind].
  inversion Hr as [rem st' Hr1|rem f n fs' st' c' Hr1 Hr2]; subst; rewrite Hr1; cbn [mbind option_bind].
  - rewrite app_nil_r, Z.add_0_r, sink_app_nil. by destruct d.
  - pose proof (read_frame_bounds _ _ Hr1) as [[Hlo _] Hhi].
    pose proof (reads_bounds _ _ _ _ Hr2) as [Hc _].
    unfold MIN_FRAME_BYTES, PRELUDE_LEN, CRC_BYTES in *. rewrite zlen_drop in Hhi by lia.
    rewrite (push_verbatim_Some _ _ n) by (rewrite zlen_drop; lia).
    cbn [mbind option_bind]. rewrite drop_drop, <- Z2Nat.inj_add in Hr2 by lia.
    rewrite (IH _ fs' c'); simpl; [|lia|exact Hr2|lia|simpl in Hf; lia].
    rewrite <- app_assoc, Z.add_assoc, sink_app_app. do 4 f_equal.
    rewrite <- take_two by lia. by rewrite drop_drop, <- Z2Nat.inj_add by lia.
Qed.

(** The whole operation, on any input [reads] describes. *)
Lemma drain_of_reads buf snk fs st c :
  reads buf fs st c ->
  drain_frames_checked buf snk
  = Some (mkDrained fs st c
            (match st with DrainOk => drop (Z.to_nat c) buf | MalformedPrelude => [] end)
            (sink_app snk (take (Z.to_nat c) buf))).
Proof.
  intros Hr. pose proof (reads_bounds _ _ _ _ Hr) as [Hc Hn].
  unfold drain_frames_checked. rewrite (drain_loop_reads _ _ _ fs st c); simpl;
    [|done|done|apply zlen_nonneg|].
  - destruct st; [|done]. rewrite slice_from_Some by lia. done.
  - unfold MIN_FRAME_BYTES, PRELUDE_LEN, CRC_BYTES, zlen in *. lia.
Qed.

(** ** What the encoder writes *)

(** A string header on the wire. *)
Definition hdr (name value : bytes) : bytes :=
  [zlen name] ++ name ++ [HDR_TYPE_STRING] ++ be16 (zlen value) ++ value.

Lemma push_string_header_spec h name value :
  push_string_header h name value
  = if (zlen name <=? 255) && (zlen value <=? 65535) then Some (h ++ hdr name value) else None.
Proof.
  unfold push_string_header, hdr. pose proof (zlen_nonneg name). pose proof (zlen_nonneg value).
  destruct (255 <? zlen name) eqn:E1; zbool.
  { by rewrite (proj2 (Z.leb_gt _ _)) by lia. }
  rewrite (proj2 (Z.leb_le _ 255)) by lia. simpl.
  destruct (65535 <? zlen value) eqn:E2; zbool.
  { by rewrite (proj2 (Z.leb_gt _ _)) by lia. }
  rewrite (proj2 (Z.leb_le _ 65535)) by lia.
  by rewrite (Z.mod_small (zlen name)), (Z.mod_small (zlen value)) by lia.
Qed.

Lemma zlen_hdr name value : zlen (hdr name value) = 4 + zlen name + zlen value.
Proof. unfold hdr. zlens. lia. Qed.

Lemma be32_bytes n : Forall is_byte (be32 n).
Proof. repeat constructor; apply Z.mod_pos_bound; lia. Qed.

Lemma hdr_bytes name value :
  zlen name <= 255 -> Forall is_byte name -> Forall is_byte value -> Forall is_byte (hdr name value).
Proof.
  intros Hl Hn Hv. pose proof (zlen_nonneg name). unfold hdr.
  repeat (apply Forall_app_2 || apply Forall_cons_2 || apply Forall_nil_2); try done;
    try apply Z.mod_pos_bound; unfold is_byte, HDR_TYPE_STRING; lia.
Qed.

Lemma header_value_string pre value rest :
  zlen value <= 65535 ->
  header_value (pre ++ be16 (zlen value) ++ value ++ rest) HDR_TYPE_STRING (zlen pre)
  = Some (inr (Some value, zlen pre + 2 + zlen value)).
Proof.
  intros Hv. unfold header_value. pose proof (zlen_nonneg pre). pose proof (zlen_nonneg value).
  pose proof (zlen_nonneg rest).
  assert (Hlen : zlen (pre ++ be16 (zlen value) ++ value ++ rest)
                 = zlen pre + 2 + zlen value + zlen rest) by (zlens; lia).
  rewrite Hlen. cbn [orb Z.eqb HDR_TYPE_STRING Pos.eqb].
  rewrite (proj2 (Z.ltb_ge _ _)) by lia.
  assert (byte_at (pre ++ be16 (zlen value) ++ value ++ rest) (zlen pre)
          = Some (Z.shiftr (zlen value) 8 mod 256)) as ->
    by (by rewrite byte_at_app_r, Z.sub_diag by lia).
  assert (byte_at (pre ++ be16 (zlen value) ++ value ++ rest) (zlen pre + 1)
          = Some (zlen value mod 256)) as ->
    by (rewrite byte_at_app_r by lia; by replace (zlen pre + 1 - zlen pre) with 1 by lia).
  cbn [mbind option_bind]. rewrite of_be16_be16 by lia. cbv zeta.
  rewrite (proj2 (Z.ltb_ge _ _)) by lia.
  rewrite (app_assoc pre), slice_app by (zlens; lia). done.
Qed.

Lemma header_round_hdr name value rest found :
  zlen name <= 255 -> zlen value <= 65535 ->
  header_round (hdr name value ++ rest) found
  = Some (inr (record_header found name (Some value), rest)).
Proof.
  intros Hn Hv. pose proof (zlen_nonneg name). pose proof (zlen_nonneg value).
  pose proof (zlen_nonneg rest). unfold header_round.
  assert (Hlen : zlen (hdr name value ++ rest) = 4 + zlen name + zlen value + zlen rest)
    by (rewrite zlen_app, zlen_hdr; lia).
  change (byte_at (hdr name value ++ rest) 0) with (Some (zlen name)). cbv iota.
  rewrite Hlen, (proj2 (Z.ltb_ge _ _)) by lia.
  assert (hdr name value ++ rest = [zlen name] ++ name ++ ([HDR_TYPE_STRING] ++ be16 (zlen value)
            ++ value ++ rest)) as Hs1 by (unfold hdr; by rewrite <- !app_assoc).
  rewrite Hs1 at 1. rewrite slice_app by (zlens; lia). cbn [mbind option_bind].
  rewrite Hs1 at 1. rewrite byte_at_app_r by (zlens; lia). rewrite byte_at_app_r by (zlens; lia).
  replace (1 + zlen name - zlen [zlen name] - zlen name) with 0 by (zlens; lia).
  change (byte_at ([HDR_TYPE_STRING] ++ _) 0) with (Some HDR_TYPE_STRING). cbn [mbind option_bind].
  set (pre := [zlen name] ++ name ++ [HDR_TYPE_STRING]).
  assert (Hpre : 1 + zlen name + 1 = zlen pre) by (unfold pre; zlens; lia).
  assert (hdr name value ++ rest = pre ++ be16 (zlen value) ++ value ++ rest) as ->
    by (unfold hdr, pre; by rewrite <- !app_assoc).
  rewrite Hpre, header_value_string by done. cbn [mbind option_bind].
  rewrite slice_from_Some by (zlens; pose proof (zlen_nonneg pre); lia). cbn [mbind option_bind].
  replace (pre ++ be16 (zlen value) ++ value ++ rest) with ((pre ++ be16 (zlen value) ++ value) ++ rest)
    by (by rewrite <- !app_assoc).
  replace (Z.to_nat (zlen pre + 2 + zlen value)) with (length (pre ++ be16 (zlen value) ++ value))
    by (unfold zlen; rewrite !length_app; simpl; lia).
  by rewrite drop_app_length.
Qed.

(** The three headers of an encoded frame, decoded. *)
Lemma parse_three n1 v1 n2 v2 n3 v3 :
  zlen n1 <= 255 -> zlen n2 <= 255 -> zlen n3 <= 255 ->
  zlen v1 <= 65535 -> zlen v2 <= 65535 -> zlen v3 <= 65535 ->
  parse_frame_headers (hdr n1 v1 ++ hdr n2 v2 ++ hdr n3 v3)
  = Some (record_header (record_header (record_header no_headers n1 (Some v1)) n2 (Some v2))
            n3 (Some v3)).
Proof.
  intros. unfold parse_frame_headers.
  assert (4 <= length (hdr n1 v1 ++ hdr n2 v2 ++ hdr n3 v3))%nat as Hlen
    by (unfold hdr; rewrite !length_app; simpl; lia).
  destruct (length _) as [|[|[|[|k]]]]; [lia..|]. clear Hlen.
  assert (Hstep : forall fuel n v rest found, zlen n <= 255 -> zlen v <= 65535 ->
    parse_headers_loop (S fuel) (hdr n v ++ rest) found
    = parse_headers_loop fuel rest (record_header found n (Some v))).
  { intros fuel n v rest found Hn Hv.
    change (parse_headers_loop (S fuel) (hdr n v ++ rest) found)
      with (r ← header_round (hdr n v ++ rest) found;
            match r with inl f => Some f | inr (f, h) => parse_headers_loop fuel h f end).
    by rewrite header_round_hdr by done. }
  rewrite !Hstep by done. rewrite <- (app_nil_r (hdr n3 v3)), Hstep by done. done.
Qed.

Lemma copy_prefix (l1 l2 src : bytes) :
  zlen l1 = zlen src -> copy_at (l1 ++ l2) 0 src = Some (src ++ l2).
Proof.
  intros Hl. pose proof (zlen_nonneg l2). rewrite copy_at_Some by (rewrite ?zlen_app; lia).
  replace (Z.to_nat (0 + zlen src)) with (length l1) by (unfold zlen in *; lia).
  by rewrite drop_app_length.
Qed.

Lemma copy_mid (l0 l1 l2 src : bytes) a :
  a = zlen l0 -> zlen l1 = zlen src -> copy_at (l0 ++ l1 ++ l2) a src = Some (l0 ++ src ++ l2).
Proof.
  intros -> Hl. pose proof (zlen_nonneg l2). pose proof (zlen_nonneg l0).
  rewrite copy_at_Some by (rewrite ?zlen_app; lia). f_equal.
  replace (Z.to_nat (zlen l0 + zlen src)) with (length (l0 ++ l1))
    by (rewrite length_app; unfold zlen in *; lia).
  unfold zlen. rewrite Nat2Z.id, take_app_length. do 2 f_equal. by rewrite app_assoc, drop_app_length.
Qed.

Lemma prelude_bytes a b r :
  byte_at (be32 a ++ be32 b ++ r) 0 = Some (Z.shiftr a 24 mod 256)
  /\ byte_at (be32 a ++ be32 b ++ r) 1 = Some (Z.shiftr a 16 mod 256)
  /\ byte_at (be32 a ++ be32 b ++ r) 2 = Some (Z.shiftr a 8 mod 256)
  /\ byte_at (be32 a ++ be32 b ++ r) 3 = Some (a mod 256)
  /\ byte_at (be32 a ++ be32 b ++ r) 4 = Some (Z.shiftr b 24 mod 256)
  /\ byte_at (be32 a ++ be32 b ++ r) 5 = Some (Z.shiftr b 16 mod 256)
  /\ byte_at (be32 a ++ be32 b ++ r) 6 = Some (Z.shiftr b 8 mod 256)
  /\ byte_at (be32 a ++ be32 b ++ r) 7 = Some (b mod 256).
Proof. done. Qed.

Section encoder_spec.
Context (crc32 : bytes -> Z) (json_message : bytes -> option bytes).

(** The frame with the given header block and payload, both checksums computed. *)
Definition wire_prelude (headers payload : bytes) : bytes :=
  be32 (16 + zlen headers + zlen payload) ++ be32 (zlen headers).

Definition wire_body (headers payload : bytes) : bytes :=
  wire_prelude headers payload ++ be32 (crc32 (wire_prelude headers payload)) ++ headers ++ payload.

Definition wire (headers payload : bytes) : bytes :=
  wire_body headers payload ++ be32 (crc32 (wire_body headers payload)).

Lemma zlen_wire headers payload : zlen (wire headers payload) = 16 + zlen headers + zlen payload.
Proof. unfold wire, wire_body, wire_prelude. zlens. lia. Qed.

Lemma frame_close_spec headers payload :
  frame_close crc32 (frame_open ++ headers) payload
  = Some (if MAX_FRAME_BYTES <? 16 + zlen headers + zlen payload then [] else wire headers payload).
Proof.
  unfold frame_close. pose proof (zlen_nonneg headers). pose proof (zlen_nonneg payload).
  replace (zlen (frame_open ++ headers) - PRELUDE_LEN) with (zlen headers)
    by (rewrite zlen_app; change (zlen frame_open) with 12; unfold PRELUDE_LEN; lia).
  replace (PRELUDE_LEN + zlen headers + zlen payload + CRC_BYTES) with
    (16 + zlen headers + zlen payload) by (unfold PRELUDE_LEN, CRC_BYTES; lia).
  destruct (MAX_FRAME_BYTES <? _) eqn:E; [done|]. zbool. unfold MAX_FRAME_BYTES in E.
  rewrite !Z.mod_small by lia.
  change frame_open with ([0; 0; 0; 0] ++ [0; 0; 0; 0] ++ [0; 0; 0; 0]).
  rewrite <- !app_assoc, copy_prefix by done. cbn [mbind option_bind].
  rewrite copy_mid by done. cbn [mbind option_bind].
  rewrite app_assoc. rewrite slice_app_l by done. rewrite slice_Some by done. cbn [mbind option_bind].
  rewrite copy_mid by done. cbn [mbind option_bind].
  unfold wire, wire_body. by rewrite <- !app_assoc.
Qed.

Definition headers_of (type_name type_value message_type : bytes) : bytes :=
  hdr type_name type_value ++ hdr HDR_CONTENT_TYPE APPLICATION_JSON ++ hdr HDR_MESSAGE_TYPE message_type.

Lemma headers_of_bytes tn tv mt :
  zlen tn <= 255 -> Forall is_byte tn -> Forall is_byte tv -> Forall is_byte mt ->
  Forall is_byte (headers_of tn tv mt).
Proof.
  intros. unfold headers_of. rewrite !Forall_app.
  split_and!; apply hdr_bytes; try done; by repeat constructor.
Qed.

Lemma wire_bytes headers payload :
  Forall is_byte headers -> Forall is_byte payload -> Forall is_byte (wire headers payload).
Proof.
  intros. unfold wire, wire_body, wire_prelude.
  rewrite !Forall_app. split_and!; try apply be32_bytes; done.
Qed.

(** Encoding never panics; it drops the frame exactly when a header or the whole is over its cap. *)
Lemma encode_with_spec tn tv mt payload :
  zlen tn <= 255 -> zlen mt <= 65535 ->
  encode_with crc32 tn tv mt payload
  = Some (if (65535 <? zlen tv) || (MAX_FRAME_BYTES <? 16 + zlen (headers_of tn tv mt) + zlen payload)
          then [] else wire (headers_of tn tv mt) payload).
Proof.
  intros Htn Hmt. unfold encode_with. rewrite push_string_header_spec.
  rewrite (proj2 (Z.leb_le _ 255)) by lia. simpl andb.
  destruct (65535 <? zlen tv) eqn:E; zbool.
  { by rewrite (proj2 (Z.leb_gt _ _)) by lia. }
  rewrite (proj2 (Z.leb_le (zlen tv) _)) by lia.
  rewrite push_string_header_spec. change (zlen HDR_CONTENT_TYPE <=? 255) with true.
  change (zlen APPLICATION_JSON <=? 65535) with true. simpl andb. cbv iota.
  rewrite push_string_header_spec. change (zlen HDR_MESSAGE_TYPE <=? 255) with true.
  rewrite (proj2 (Z.leb_le (zlen mt) _)) by lia. simpl andb. cbv iota.
  rewrite <- !app_assoc. by rewrite frame_close_spec.
Qed.

(** The type the decoder finds in the headers. *)
Lemma event_type_of_event ty :
  zlen ty <= 65535 -> utf8_valid ty = true ->
  event_type_for_frame (headers_of HDR_EVENT_TYPE ty MSG_TYPE_EVENT) = Some ty.
Proof.
  intros Hl Hu. unfold event_type_for_frame, headers_of. rewrite parse_three by done.
  unfold record_header, from_utf8. simpl. by rewrite Hu.
Qed.

Lemma event_type_of_exception exc :
  zlen exc <= 65535 -> utf8_valid exc = true ->
  event_type_for_frame (headers_of HDR_EXCEPTION_TYPE exc MSG_TYPE_EXCEPTION)
  = Some (lowercase_first (bare_exception exc)).
Proof.
  intros Hl Hu. unfold event_type_for_frame, headers_of. rewrite parse_three by done.
  unfold record_header, from_utf8. simpl. by rewrite Hu.
Qed.

(** A frame reads back, whatever follows it. *)
Lemma wire_shape headers payload rest :
  wire headers payload ++ rest
  = be32 (16 + zlen headers + zlen payload) ++ be32 (zlen headers)
    ++ be32 (crc32 (wire_prelude headers payload)) ++ headers ++ payload
    ++ be32 (crc32 (wire_body headers payload)) ++ rest.
Proof. unfold wire at 1, wire_body at 1, wire_prelude at 1. by rewrite <- !app_assoc. Qed.

Lemma read_wire headers payload rest ty :
  16 + zlen headers + zlen payload <= MAX_FRAME_BYTES -> event_type_for_frame headers = Some ty ->
  read_frame (wire headers payload ++ rest)
  = Some (inr (ty, payload, zlen (wire headers payload))).
Proof.
  intros Hmax Hty. pose proof (zlen_nonneg headers). pose proof (zlen_nonneg payload).
  pose proof (zlen_nonneg rest). rewrite zlen_wire.
  assert (Hl : zlen (wire headers payload ++ rest) = 16 + zlen headers + zlen payload + zlen rest)
    by (rewrite zlen_app, zlen_wire; lia).
  unfold read_frame. rewrite Hl. rewrite wire_shape in *.
  set (T := 16 + zlen headers + zlen payload) in *.
  set (crc1 := crc32 (wire_prelude _ _)) in *. set (crc2 := crc32 (wire_body _ _)) in *.
  unfold MAX_FRAME_BYTES, MIN_FRAME_BYTES, PRELUDE_LEN, CRC_BYTES in *.
  rewrite (proj2 (Z.ltb_ge _ 12)) by (subst T; lia).
  destruct (prelude_bytes T (zlen headers) (be32 crc1 ++ headers ++ payload ++ be32 crc2 ++ rest))
    as (-> & -> & -> & -> & -> & -> & -> & ->).
  cbn [mbind option_bind]. rewrite !of_be32_be32 by (subst T; lia). cbv zeta.
  rewrite (proj2 (Z.leb_le (12 + 4) T)), (proj2 (Z.leb_le T _)) by (subst T; lia).
  rewrite (proj2 (Z.ltb_ge (T - _) _)) by (subst T; lia). simpl orb. cbv iota.
  rewrite (proj2 (Z.ltb_ge _ T)) by (subst T; lia).
  rewrite (app_assoc (be32 (zlen headers))), (app_assoc (be32 T)).
  set (pre := be32 T ++ be32 (zlen headers) ++ be32 crc1).
  assert (Hpre : zlen pre = 12) by done.
  assert (slice (pre ++ headers ++ payload ++ be32 crc2 ++ rest) (12 + zlen headers) (T - 4)
          = Some payload) as ->
    by (rewrite app_assoc; apply slice_app; zlens; subst T; lia).
  assert (slice (pre ++ headers ++ payload ++ be32 crc2 ++ rest) 12 (12 + zlen headers)
          = Some headers) as -> by (apply slice_app; lia).
  cbn [mbind option_bind]. by rewrite Hty.
Qed.
End encoder_spec.

(** * the theorems of the frame codec

    Round trip of encoder and decoder, independence of the way the bytes are chunked, totality and
    memory bound of the decoder on arbitrary bytes, the encoder's caps and checksums, and the
    normalisation of exception names. *)


(** ** Helper lemmas *)

Section codec.
Context (crc32 : bytes -> Z) (json_message : bytes -> option bytes).

(** A message of the streaming path, its frame, and what a decoder should see of it. *)
Inductive Message :=
| MEvent (event_type payload : bytes)
| MException (exception_type message : bytes).

Definition encode_message (m : Message) : option bytes :=
  match m with
  | MEvent ty payload => encode_frame crc32 ty payload
  | MException exc msg => encode_exception_frame crc32 json_message exc msg
  end.

Definition type_of (m : Message) : bytes :=
  match m with MEvent ty _ => ty | MException exc _ => exc end.

Definition token (m : Message) : bytes :=
  match m with MEvent ty _ => ty | MException exc _ => lowercase_first (bare_exception exc) end.

Definition body (m : Message) : bytes :=
  match m with MEvent _ p => p | MException _ msg => default fallback_body (json_message msg) end.

Definition message_headers (m : Message) : bytes :=
  match m with
  | MEvent ty _ => headers_of HDR_EVENT_TYPE ty MSG_TYPE_EVENT
  | MException exc _ => headers_of HDR_EXCEPTION_TYPE exc MSG_TYPE_EXCEPTION
  end.

(** The frame is over one of the caps, hence dropped. *)
Definition oversized (m : Message) : bool :=
  (65535 <? zlen (type_of m)) || (MAX_FRAME_BYTES <? 16 + zlen (message_headers m) + zlen (body m)).

(** What the Rust types give: a [&str] is UTF-8 and a body is made of bytes. *)
Definition well_typed (m : Message) : Prop :=
  utf8_valid (type_of m) = true /\ Forall is_byte (type_of m) /\ Forall is_byte (body m).

Lemma well_typed_ok m :
  utf8_valid (type_of m) && bytes_ok (type_of m) && bytes_ok (body m) = true -> well_typed m.
Proof. intros H. zbool. split_and!; [done|by apply bytes_ok_Forall..]. Qed.

Definition decoded (m : Message) : list (bytes * bytes) :=
  if oversized m then [] else [(token m, body m)].

Lemma encode_message_spec m :
  encode_message m
  = Some (if oversized m then [] else wire crc32 (message_headers m) (body m)).
Proof.
  destruct m as [ty p|exc msg]; simpl;
    unfold encode_frame, encode_exception_frame; by rewrite encode_with_spec.
Qed.

Lemma message_event_type m :
  well_typed m -> oversized m = false -> event_type_for_frame (message_headers m) = Some (token m).
Proof.
  unfold well_typed, oversized. intros (Hu & _ & _) Ho. zbool. destruct m as [ty p|exc msg]; simpl in *.
  - by apply event_type_of_event.
  - by apply event_type_of_exception.
Qed.

Lemma message_size m :
  oversized m = false -> 16 + zlen (message_headers m) + zlen (body m) <= MAX_FRAME_BYTES.
Proof. unfold oversized. intros Ho. zbool. lia. Qed.

Lemma read_message m f rest :
  well_typed m -> oversized m = false -> encode_message m = Some f ->
  read_frame (f ++ rest) = Some (inr (token m, body m, zlen f)).
Proof.
  intros Hu Ho. rewrite encode_message_spec, Ho. intros [= <-].
  apply read_wire; [by apply message_size|by apply message_event_type].
Qed.

Lemma message_headers_bytes m : Forall is_byte (type_of m) -> zlen (type_of m) <= 65535 ->
  Forall is_byte (message_headers m).
Proof.
  intros Hb Hl. destruct m; simpl in *; apply headers_of_bytes; try done; by repeat constructor.
Qed.

(** A strict prefix of a frame is a partial frame. *)
Lemma read_partial m f k :
  well_typed m -> encode_message m = Some f -> (k < length f)%nat ->
  read_frame (take k f) = Some (inl DrainOk).
Proof.
  intros Hu He Hk. destruct (oversized m) eqn:Ho.
  { rewrite encode_message_spec, Ho in He. injection He as <-. simpl in Hk. lia. }
  pose proof (read_message m f [] Hu Ho He) as Hr. rewrite app_nil_r in Hr.
  destruct (read_frame (take k f)) as [[[|]|[g n]]|] eqn:E; [done|..].
  - apply (read_frame_app _ (drop k f)) in E; [|done]. rewrite take_drop in E. congruence.
  - pose proof (read_frame_bounds _ _ E) as [_ Hn].
    apply (read_frame_app _ (drop k f)) in E; [|done]. rewrite take_drop in E.
    assert (n = zlen f) as -> by congruence. unfold zlen in Hn. rewrite length_take in Hn. lia.
  - exfalso. apply (is_Some_None (A := DrainStatus + bytes * bytes * Z)). rewrite <- E.
    apply read_frame_total, Forall_take. rewrite encode_message_spec, Ho in He. injection He as <-.
    destruct Hu as (_ & Hb1 & Hb2). apply wire_bytes; [|done]. apply message_headers_bytes; [done|].
    unfold oversized in Ho. zbool. lia.
Qed.

(** A list of messages sent back to back reads as their decoded frames. *)
Lemma reads_messages ms fs tail :
  Forall well_typed ms -> mapM encode_message ms = Some fs ->
  read_frame tail = Some (inl DrainOk) ->
  reads (concat fs ++ tail) (concat (map decoded ms)) DrainOk (zlen (concat fs)).
Proof.
  intros Hw. revert fs. induction Hw as [|m ms Hm _ IH]; intros fs Hfs Htail; simpl in *.
  { injection Hfs as <-. by apply reads_stop. }
  apply bind_Some_inv in Hfs as (f & Hf & Hfs). apply bind_Some_inv in Hfs as (fs' & Hfs' & Heq).
  injection Heq as <-. specialize (IH fs' Hfs' Htail). simpl. rewrite <- app_assoc, zlen_app.
  unfold decoded at 1. destruct (oversized m) eqn:Ho.
  - rewrite encode_message_spec, Ho in Hf. injection Hf as <-. exact IH.
  - apply reads_frame; [by apply read_message|]. unfold zlen at 1.
    by rewrite Nat2Z.id, drop_app_length.
Qed.
End codec.

Arguments MEvent : clear implicits.
Arguments MException : clear implicits.

(** The caller's use: each chunk is appended to the buffer and the buffer drained, until a malformed
    prelude. *)
Fixpoint drain_chunks (buf : bytes) (snk : option bytes) (chunks : list bytes) : option Drained :=
  match chunks with
  | [] => Some (mkDrained [] DrainOk 0 buf snk)
  | chunk :: chunks =>
      r ← drain_frames_checked (buf ++ chunk) snk;
      match status r with
      | MalformedPrelude => Some r
      | DrainOk =>
          r' ← drain_chunks (buffer r) (consumed_sink r) chunks;
          Some (mkDrained (frames r ++ frames r') (status r') (consumed r + consumed r') (buffer r')
                  (consumed_sink r'))
      end
  end.

Lemma drain_chunks_reads chunks buf snk :
  Forall is_byte buf -> Forall (Forall is_byte) chunks -> read_frame buf = Some (inl DrainOk) ->
  exists fs st c, reads (buf ++ concat chunks) fs st c
    /\ drain_chunks buf snk chunks
       = Some (mkDrained fs st c
           (match st with DrainOk => drop (Z.to_nat c) (buf ++ concat chunks) | MalformedPrelude => [] end)
           (sink_app snk (take (Z.to_nat c) (buf ++ concat chunks)))).
Proof.
  intros Hb Hc. revert buf snk Hb. induction Hc as [|chunk chunks Hch _ IH]; intros buf snk Hb Hbuf.
  { exists [], DrainOk, 0. rewrite app_nil_r. split; [by apply reads_stop|].
    simpl. by rewrite drop_0, sink_app_nil. }
  destruct (reads_total (buf ++ chunk)) as (fs & st & c & Hr); [by apply Forall_app_2|].
  pose proof (reads_bounds _ _ _ _ Hr) as [Hc0 _].
  cbn [drain_chunks concat]. rewrite (drain_of_reads _ _ _ _ _ Hr). cbn [mbind option_bind status].
  rewrite app_assoc. destruct st.
  - cbn [buffer consumed_sink frames consumed].
    destruct (IH (drop (Z.to_nat c) (buf ++ chunk)) (sink_app snk (take (Z.to_nat c) (buf ++ chunk))))
      as (fs' & st' & c' & Hr' & ->); [by apply Forall_drop, Forall_app_2|by eapply reads_rest|].
    pose proof (reads_bounds _ _ _ _ Hr') as [Hc1 _].
    exists (fs ++ fs'), st', (c + c'). split; [by apply reads_app|]. cbn [mbind option_bind].
    cbn [buffer consumed_sink frames consumed status]. do 2 f_equal.
    + destruct st'; [|done]. rewrite Z2Nat.inj_add, <- drop_drop by lia.
      rewrite (drop_app_le (buf ++ chunk)) by (unfold zlen in *; lia). done.
    + rewrite sink_app_app. f_equal. rewrite <- take_two by lia.
      rewrite (take_app_le (buf ++ chunk)), (drop_app_le (buf ++ chunk)) by (unfold zlen in *; lia).
      done.
  - exists fs, MalformedPrelude, c. split; [by apply reads_app_malformed|].
    rewrite (take_app_le (buf ++ chunk)) by (unfold zlen in *; lia). done.
Qed.

(** ** Exception names *)

Lemma split_no_delim acc s : Forall (fun b => is_delim b = false) s ->
  split_delim acc s = [reverse acc ++ s].
Proof.
  intros Hs. revert acc. induction Hs as [|b s Hb _ IH]; intros acc; simpl; [by rewrite app_nil_r|].
  rewrite Hb, IH. by rewrite reverse_cons, <- app_assoc.
Qed.

Lemma split_app acc s d rest : is_delim d = true ->
  split_delim acc (s ++ d :: rest) = split_delim acc s ++ split_delim [] rest.
Proof.
  intros Hd. revert acc. induction s as [|b s IH]; intros acc; simpl; [by rewrite Hd|].
  destruct (is_delim b); simpl; by rewrite IH.
Qed.

Lemma split_delims ds : Forall (fun b => is_delim b = true) ds ->
  split_delim [] ds = repeat [] (S (length ds)).
Proof. induction 1 as [|d ds Hd _ IH]; [done|]. simpl. rewrite Hd, IH. done. Qed.

Lemma find_non_empty_repeat n t ts : t <> [] ->
  find_non_empty (repeat [] n ++ t :: ts) = Some t.
Proof. intros Ht. induction n as [|n IH]; simpl; [by destruct t|done]. Qed.

Lemma reverse_repeat {A} (x : A) n : reverse (repeat x n) = repeat x n.
Proof.
  induction n as [|n IH]; [done|]. simpl. rewrite reverse_cons, IH. clear.
  induction n as [|n IH]; [done|]. simpl. by rewrite IH.
Qed.

Lemma find_non_empty_none n : find_non_empty (repeat [] n) = None.
Proof. by induction n. Qed.

(** The name between the last delimiter before it and the delimiters behind it. *)
Lemma bare_exception_spec pre name ds :
  (pre = [] \/ exists p d, pre = p ++ [d] /\ is_delim d = true) ->
  name <> [] -> Forall (fun b => is_delim b = false) name ->
  Forall (fun b => is_delim b = true) ds ->
  bare_exception (pre ++ name ++ ds) = name.
Proof.
  intros Hpre Hne Hn Hds.
  assert (exists ts n, split_delim [] (pre ++ name ++ ds) = ts ++ name :: repeat [] n) as (ts & n & Hs).
  { assert (exists n, split_delim [] (name ++ ds) = name :: repeat [] n) as [n Hnd].
    { destruct ds as [|d ds]; [rewrite app_nil_r, split_no_delim by done; by exists O|].
      apply Forall_cons in Hds as [Hd Hds]. rewrite split_app, split_no_delim by done.
      rewrite split_delims by done. by eexists. }
    destruct Hpre as [->|(p & d & -> & Hd)]; [by exists [], n|].
    rewrite <- app_assoc. simpl. rewrite split_app, Hnd by done. by eexists _, n. }
  unfold bare_exception. rewrite Hs, reverse_app, reverse_cons, reverse_repeat, <- app_assoc. simpl.
  by rewrite find_non_empty_repeat.
Qed.

(** ** Properties *)

(** C31. Encoder and decoder are inverse: any messages (normal events and modeled exceptions) encoded
    back to back, followed by any strict prefix of another frame, drain to exactly their types and
    payloads in order - a message over a cap having been dropped whole -, consume exactly the whole
    frames, copy them verbatim to the sink, and leave the partial frame in the buffer. *)
Theorem codec_round_trip crc32 json_message ms fs m k f snk :
  Forall (well_typed json_message) ms -> mapM (encode_message crc32 json_message) ms = Some fs ->
  well_typed json_message m -> encode_message crc32 json_message m = Some f ->
  (k < length f)%nat ->
  drain_frames_checked (concat fs ++ take k f) snk
  = Some (mkDrained (concat (map (decoded json_message) ms)) DrainOk (zlen (concat fs)) (take k f)
            (sink_app snk (concat fs))).
Proof.
  intros Hw Hfs Hm Hf Hk.
  rewrite (drain_of_reads _ _ _ _ _ (reads_messages crc32 json_message ms fs (take k f) Hw Hfs
    (read_partial _ _ m f k Hm Hf Hk))).
  unfold zlen at 2 3. rewrite Nat2Z.id, drop_app_length, take_app_length. done.
Qed.

(** Concrete messages: a checksum and a serializer stand in for the dependencies. *)
Definition toy_crc (l : bytes) : Z := fold_left Z.add l 1.
Definition toy_json (m : bytes) : option bytes := Some (str "{" ++ m ++ str "}").
Definition ev : Message := MEvent (str "messageStart") (str "{}").
Definition exc : Message :=
  MException (str "com.amazon.coral.service#ThrottlingException") (str "slow down").

Definition frame_of (m : Message) : bytes := default [] (encode_message toy_crc toy_json m).

Lemma codec_round_trip_witness :
  drain_frames_checked (concat [frame_of ev; frame_of exc] ++ take 20 (frame_of ev)) (Some [])
  = Some (mkDrained [(str "messageStart", str "{}"); (str "throttlingException", str "{slow down}")]
            DrainOk (zlen (concat [frame_of ev; frame_of exc])) (take 20 (frame_of ev))
            (Some (concat [frame_of ev; frame_of exc]))).
Proof.
  rewrite (codec_round_trip toy_crc toy_json [ev; exc] [frame_of ev; frame_of exc] ev 20
             (frame_of ev) (Some [])); [reflexivity| |reflexivity| |reflexivity|].
  - apply Forall_cons. split; [by apply well_typed_ok|]. apply Forall_singleton. by apply well_typed_ok.
  - by apply well_typed_ok.
  - apply Nat.ltb_lt. reflexivity.
Defined.

(** How the bytes are cut into chunks does not matter: for any bytes and any cutting,
    appending and draining chunk by chunk returns the same frames, status and byte count, leaves the
    same buffer and writes the same verbatim copy as draining everything at once - malformed
    streams included. *)
Theorem chunking_is_irrelevant snk chunks :
  Forall (Forall is_byte) chunks ->
  drain_chunks [] snk chunks = drain_frames_checked (concat chunks) snk.
Proof.
  intros Hc. destruct (drain_chunks_reads chunks [] snk) as (fs & st & c & Hr & ->); [done..|].
  simpl in *. by rewrite (drain_of_reads _ _ _ _ _ Hr).
Qed.

Lemma chunking_is_irrelevant_witness :
  drain_chunks [] None [[0; 0; 0]; [16; 0; 0; 0; 0; 0]; [0; 0; 0; 9; 9; 9; 9; 0]]
  = drain_frames_checked [0; 0; 0; 16; 0; 0; 0; 0; 0; 0; 0; 0; 9; 9; 9; 9; 0] None.
Proof.
  apply (chunking_is_irrelevant None [[0; 0; 0]; [16; 0; 0; 0; 0; 0]; [0; 0; 0; 9; 9; 9; 9; 0]]).
  repeat (apply Forall_cons; split; [by apply bytes_ok_Forall|]). by apply Forall_nil.
Defined.

(** The decoder is total and its memory is bounded, whatever the upstream sends: it never panics
    and always ends; what it reports consumed is within the buffer, at least sixteen bytes for each
    frame, and is what it copies to the sink; a clean stop leaves exactly the unconsumed bytes, which are
    fewer than the frame cap however large a length the stream declares; a malformed prelude
    leaves nothing. *)
Theorem decoder_is_total_and_bounded buf snk :
  Forall is_byte buf ->
  exists d, drain_frames_checked buf snk = Some d
    /\ MIN_FRAME_BYTES * zlen (frames d) <= consumed d <= zlen buf
    /\ consumed_sink d = sink_app snk (take (Z.to_nat (consumed d)) buf)
    /\ match status d with
       | DrainOk => buffer d = drop (Z.to_nat (consumed d)) buf /\ zlen (buffer d) < MAX_FRAME_BYTES
       | MalformedPrelude => buffer d = []
       end.
Proof.
  intros Hb. destruct (reads_total buf Hb) as (fs & st & c & Hr).
  rewrite (drain_of_reads _ _ _ _ _ Hr). eexists. split; [done|]. simpl.
  pose proof (reads_bounds _ _ _ _ Hr) as [Hc Hn]. split; [lia|]. split; [done|].
  destruct st; [|done]. split; [done|].
  exact (read_frame_bounds _ _ (reads_rest _ _ _ Hr)).
Qed.

Lemma decoder_is_total_and_bounded_witness :
  exists d, drain_frames_checked [255; 255; 255; 255; 0; 0; 0; 0; 0; 0; 0; 0; 1] None = Some d
    /\ buffer d = [] /\ status d = MalformedPrelude.
Proof.
  destruct (decoder_is_total_and_bounded [255; 255; 255; 255; 0; 0; 0; 0; 0; 0; 0; 0; 1] None)
    as (d & Hd & _ & _ & Hst); [by apply bytes_ok_Forall|]. exists d. split; [exact Hd|].
  vm_compute in Hd. injection Hd as <-. by split.
Defined.

(** What the encoders emit is a frame an AWS client accepts or nothing at all: encoding never
    panics; the message is dropped exactly when its type exceeds the 65535 bytes of a string
    header or the whole frame the cap; otherwise the frame declares its own length, is within
    the decoder's bounds, and carries the checksum of its first eight bytes and of everything before
    the trailer. *)
Theorem encoder_emits_valid_frames crc32 json_message m :
  exists f, encode_message crc32 json_message m = Some f
    /\ (f = [] <-> oversized json_message m = true)
    /\ (f <> [] ->
         MIN_FRAME_BYTES <= zlen f <= MAX_FRAME_BYTES
         /\ take 4 f = be32 (zlen f)
         /\ take 4 (drop 8 f) = be32 (crc32 (take 8 f))
         /\ drop (length f - 4) f = be32 (crc32 (take (length f - 4) f))).
Proof.
  exists (if oversized json_message m then [] else wire crc32 (message_headers m) (body json_message m)).
  split; [apply encode_message_spec|]. destruct (oversized json_message m) eqn:Ho; [done|].
  pose proof (message_size _ _ Ho). pose proof (zlen_nonneg (message_headers m)).
  pose proof (zlen_nonneg (body json_message m)).
  assert (Hl := zlen_wire crc32 (message_headers m) (body json_message m)).
  set (w := wire crc32 _ _) in *. split.
  - split; [|done]. intros ->. rewrite zlen_nil in Hl. lia.
  - intros _. unfold MIN_FRAME_BYTES, PRELUDE_LEN, CRC_BYTES. split; [lia|]. rewrite Hl.
    split; [done|]. split; [done|].
    assert (length w - 4 = length (wire_body crc32 (message_headers m) (body json_message m)))%nat as ->
      by (unfold w, wire; rewrite length_app; simpl; lia).
    unfold w, wire. by rewrite drop_app_length, take_app_length.
Qed.

(** A mid-stream exception keeps its name: whatever namespace qualifies it, up to a last [#] or
    [/], and whatever delimiters trail it, the decoder hands the reader the bare name with its first
    letter lowercased; a value of delimiters only is passed on as it is. *)
Theorem exception_name_is_recovered pre name ds :
  (pre = [] \/ exists p d, pre = p ++ [d] /\ is_delim d = true) ->
  name <> [] -> Forall (fun b => is_delim b = false) name ->
  Forall (fun b => is_delim b = true) ds ->
  zlen (pre ++ name ++ ds) <= 65535 -> utf8_valid (pre ++ name ++ ds) = true ->
  event_type_for_frame (headers_of HDR_EXCEPTION_TYPE (pre ++ name ++ ds) MSG_TYPE_EXCEPTION)
    = Some (lowercase_first name)
  /\ lowercase_first (bare_exception ds) = ds.
Proof.
  intros Hpre Hne Hn Hds Hl Hu. rewrite event_type_of_exception by done.
  rewrite bare_exception_spec by done. split; [done|].
  unfold bare_exception. rewrite split_delims, reverse_repeat, find_non_empty_none by done.
  simpl. destruct Hds as [|d ds Hd _]; [done|]. simpl. f_equal.
  unfold is_delim, to_ascii_lowercase in *. apply orb_true_iff in Hd as [Hd|Hd]; zbool; by subst.
Qed.

Lemma exception_name_is_recovered_witness :
  event_type_for_frame (headers_of HDR_EXCEPTION_TYPE (str "aws.bedrock/InternalServerException#")
    MSG_TYPE_EXCEPTION) = Some (str "internalServerException").
Proof.
  apply (exception_name_is_recovered (str "aws.bedrock/") (str "InternalServerException") (str "#")).
  - right. exists (str "aws.bedrock"), 47. by split.
  - done.
  - by repeat constructor.
  - by repeat constructor.
  - done.
  - by vm_compute.
Defined.
