(* ===== verification/Sse.v ===== *)
(** * Sse: server-sent event frames (proto/mod.rs)

    Finding the end of a frame in a byte buffer, reading a frame's event and data, writing one.  The
    buffer is bytes; a frame's text is a string once its UTF-8 has been checked. *)

From S2P Require Import Prelude Json Bytes.

#[local] Open Scope Z_scope.

Definition LF : Z := 10.
Definition CR : Z := 13.

(** ** The end of a frame *)

(** At a line feed: whether the bytes around it end a frame, and if so with carriage returns. [prev] is
    the byte before it. *)
Definition ends_here (prev : option Z) (rest : bytes) : option bool :=
  if bool_decide (rest !! 0%nat = Some LF) then Some false
  else if bool_decide (prev = Some CR) && bool_decide (rest !! 0%nat = Some CR)
          && bool_decide (rest !! 1%nat = Some LF) then Some true
  else None.

Fixpoint scan_terminator (prev : option Z) (i : nat) (buf : bytes) : option (nat * nat) :=
  match buf with
  | [] => None
  | b :: rest =>
      match (if b =? LF then ends_here prev rest else None) with
      | Some false => Some (i, 2%nat)
      | Some true => Some (pred i, 4%nat)
      | None => scan_terminator (Some b) (S i) rest
      end
  end.

Definition find_frame_terminator (buf : bytes) : option (nat * nat) := scan_terminator None 0 buf.

(** ** Text *)

(** A byte string as the text it encodes. *)
Definition text_of (l : bytes) : string := String.string_of_list_ascii (Ascii.ascii_of_N ∘ Z.to_N <$> l).
Definition str_from_utf8 (l : bytes) : option string := if utf8_valid l then Some (text_of l) else None.

Definition strip_cr (line : string) : string :=
  match String.rev line with
  | String a line' => if byte_of a =? CR then String.rev line' else line
  | EmptyString => line
  end.

(** A line in front of the others, [ended] when a line feed followed it. *)
Definition cons_line (line : string) (ended : bool) (lines : list string) : list string :=
  if ended then strip_cr line :: lines else if is_empty line then lines else line :: lines.

(** The first line, whether it is ended, and the lines after it. *)
Fixpoint break_lines (s : string) : string * bool * list string :=
  match s with
  | EmptyString => (EmptyString, false, [])
  | String a s =>
      let '(line, ended, lines) := break_lines s in
      if byte_of a =? LF then (EmptyString, true, cons_line line ended lines) else (String a line, ended, lines)
  end.

(** [str::lines] *)
Definition lines (s : string) : list string :=
  let '(line, ended, lines) := break_lines s in cons_line line ended lines.

Definition newline : string := String (Ascii.ascii_of_N 10) EmptyString.

(** ** Frames *)

(** One line of a frame: the event named last, and the data lines so far. *)
Definition read_line (acc : string * list string) (line : string) : string * list string :=
  let '(event_type, data_lines) := acc in
  match strip_prefix "event:" line with
  | Some rest => (trim_str rest, data_lines)
  | None =>
      match strip_prefix "data:" line with
      | Some rest => (event_type, data_lines ++ [default rest (strip_prefix " " rest)])
      | None => acc
      end
  end.

Definition parse_sse_frame (frame : bytes) : option (string * string) :=
  text ← str_from_utf8 frame;
  let '(event_type, data_lines) := foldl read_line (""%string, []) (lines text) in
  match data_lines with
  | [] => None
  | _ => Some (event_type, String.concat newline data_lines)
  end.

(** [to_vec] prints a value. *)
Definition write_sse_frame (to_vec : Value -> bytes) (event_type : string) (data : Value) : bytes :=
  (if is_empty event_type then [] else str "event: " ++ str event_type ++ [LF])
  ++ str "data: " ++ to_vec data ++ [LF; LF].

Definition SSE_DONE : string := "[DONE]".
Definition SSE_DONE_FRAME : bytes := str "data: [DONE]" ++ [LF; LF].

(** ** Frames of a buffer *)

(** The complete frames at the front of a buffer, and what is left. *)
Fixpoint split_frames (fuel : nat) (buf : bytes) : list bytes * bytes :=
  match fuel with
  | O => ([], buf)
  | S fuel =>
      match find_frame_terminator buf with
      | None => ([], buf)
      | Some (off, len) =>
          let '(frames, rest) := split_frames fuel (drop (off + len) buf) in
          (take (off + len) buf :: frames, rest)
      end
  end.

(** A frame takes two bytes at least. *)
Definition frames_of (buf : bytes) : list bytes * bytes := split_frames (length buf) buf.

(** ** Lemmas *)

Lemma ends_here_bounds prev rest e :
  ends_here prev rest = Some e -> (1 <= length rest /\ (e = true -> prev = Some CR /\ 2 <= length rest))%nat.
Proof.
  unfold ends_here. case_bool_decide as E1; [apply lookup_lt_Some in E1; intros [= <-]; by split; [lia|]|].
  case_bool_decide as E0; [|done]. case_bool_decide as E2; [|done]. case_bool_decide as E3; [|done].
  intros [= <-]. apply lookup_lt_Some in E2, E3. repeat split; [lia|done|lia].
Qed.

Lemma scan_terminator_bounds prev i buf off len :
  (prev = None \/ 1 <= i)%nat -> scan_terminator prev i buf = Some (off, len) ->
  (i <= off + 1 /\ off + len <= i + length buf /\ 2 <= len /\ i + 2 <= off + len /\ (prev = None -> i <= off))%nat.
Proof.
  revert prev i. induction buf as [|b rest IH]; intros prev i Hi; simpl; [done|].
  destruct (if b =? LF then ends_here prev rest else None) as [e|] eqn:E.
  - destruct (b =? LF); [|done]. apply ends_here_bounds in E as [H1 H2].
    destruct e; intros [= <- <-]; [destruct (H2 eq_refl) as [-> H3]; destruct Hi as [|Hi]; [done|]|];
      repeat split; try lia; done.
  - intros H. apply IH in H as (H1 & H2 & H3 & H4 & _); lia.
Qed.

Lemma find_bounds buf off len :
  find_frame_terminator buf = Some (off, len) -> (2 <= len /\ off + len <= length buf)%nat.
Proof. intros H. apply scan_terminator_bounds in H; [lia|by left]. Qed.

(** More bytes behind do not move the first end of frame. *)
Lemma ends_here_app prev rest more e : ends_here prev rest = Some e -> ends_here prev (rest ++ more) = Some e.
Proof.
  unfold ends_here. destruct rest as [|b [|c rest]]; simpl; repeat (case_bool_decide; simplify_eq; simpl in *; try done).
Qed.

Lemma ends_here_app_None prev rest more :
  (2 <= length rest)%nat -> ends_here prev rest = None -> ends_here prev (rest ++ more) = None.
Proof.
  unfold ends_here. destruct rest as [|b [|c rest]]; simpl; [lia|lia|]. done.
Qed.

Lemma scan_terminator_app prev i buf more r :
  (prev = None \/ 1 <= i)%nat ->
  scan_terminator prev i buf = Some r -> scan_terminator prev i (buf ++ more) = Some r.
Proof.
  revert prev i. induction buf as [|b rest IH]; intros prev i Hi; [done|]. simpl.
  destruct (b =? LF); [|apply IH; lia].
  destruct (ends_here prev rest) as [e|] eqn:E; [by rewrite (ends_here_app _ _ _ _ E)|].
  intros H. rewrite ends_here_app_None; [apply IH; [lia|done]| |done].
  destruct r. apply scan_terminator_bounds in H; [lia|lia].
Qed.

Lemma find_app buf more r : find_frame_terminator buf = Some r -> find_frame_terminator (buf ++ more) = Some r.
Proof. apply scan_terminator_app. by left. Qed.

(** Searching the tail from three bytes before what has been searched finds what searching everything
    would. *)
Definition shift (k : nat) (r : nat * nat) : nat * nat := ((k + r.1)%nat, r.2).

Lemma scan_shift k prev i buf :
  (prev = None \/ 1 <= i)%nat -> scan_terminator prev (k + i) buf = shift k <$> scan_terminator prev i buf.
Proof.
  revert prev i. induction buf as [|b rest IH]; intros prev i Hi; [done|]. simpl.
  destruct (if b =? LF then ends_here prev rest else None) as [e|] eqn:E.
  - destruct (b =? LF); [|done]. apply ends_here_bounds in E as [_ H].
    destruct e; [|done]. destruct (H eq_refl) as [-> _]. destruct Hi as [|Hi]; [done|].
    unfold shift. simpl. do 2 f_equal. lia.
  - rewrite <- Nat.add_succ_r. apply IH. lia.
Qed.

Lemma ends_here_weaken b rest : ends_here (Some b) rest = None -> ends_here None rest = None.
Proof. unfold ends_here. case_bool_decide; [done|]. by rewrite (bool_decide_eq_false_2 (None = _)). Qed.

Lemma ends_here_forget b rest more :
  (2 <= length rest)%nat -> ends_here (Some b) rest = None ->
  ends_here (Some b) (rest ++ more) = None /\ ends_here None (rest ++ more) = None.
Proof.
  intros Hlen H. split; [by apply ends_here_app_None|]. apply ends_here_app_None; [done|by eapply ends_here_weaken].
Qed.

Lemma scan_forget b i old new :
  (3 <= length old)%nat -> scan_terminator (Some b) i old = None ->
  scan_terminator (Some b) i (old ++ new) = scan_terminator None i (old ++ new)
  /\ scan_terminator None i old = None.
Proof.
  destruct old as [|c old]; simpl; [lia|]. intros Hlen H.
  destruct (c =? LF); [|done]. destruct (ends_here (Some b) old) as [[|]|] eqn:E; [done..|].
  destruct (ends_here_forget b old new) as [-> ->]; [lia|done|]. by rewrite (ends_here_weaken _ _ E).
Qed.

Lemma find_from_tail s old new :
  (s + 3 <= length old)%nat -> find_frame_terminator old = None ->
  find_frame_terminator (old ++ new) = shift s <$> find_frame_terminator (drop s (old ++ new)).
Proof.
  revert old. induction s as [|s IH]; intros old Hs Hold.
  { rewrite drop_0. by destruct (find_frame_terminator (old ++ new)) as [[]|]. }
  destruct old as [|b old]; simpl in Hs; [lia|]. unfold find_frame_terminator in *.
  change (drop (S s) ((b :: old) ++ new)) with (drop s (old ++ new)).
  assert (Hstep : scan_terminator None 0 ((b :: old) ++ new) = scan_terminator (Some b) 1 (old ++ new)
                  /\ scan_terminator (Some b) 1 old = None).
  { simpl in Hold |- *. destruct (b =? LF); [|done]. destruct (ends_here None old) as [[|]|] eqn:E; [done..|].
    rewrite ends_here_app_None; [done|lia|done]. }
  destruct Hstep as [-> Hold']. destruct (scan_forget b 1 old new) as [-> Hnone]; [lia|done|].
  rewrite (scan_shift 1 None 0) in Hnone by by left. rewrite (scan_shift 1 None 0) by by left.
  rewrite IH; [|lia|by destruct (scan_terminator None 0 old)].
  by destruct (scan_terminator None 0 (drop s (old ++ new))) as [[]|].
Qed.

(** The frames of a buffer do not depend on the fuel. *)
Lemma split_frames_fuel n m buf :
  (length buf <= n)%nat -> (length buf <= m)%nat -> split_frames n buf = split_frames m buf.
Proof.
  revert m buf. induction n as [|n IH]; intros m buf Hn Hm.
  { destruct buf; [|simpl in Hn; lia]. by destruct m. }
  destruct m as [|m]; [destruct buf; [done|simpl in Hm; lia]|]. simpl.
  destruct (find_frame_terminator buf) as [[off len]|] eqn:E; [|done].
  apply find_bounds in E. by rewrite (IH m) by (rewrite length_drop; lia).
Qed.

Lemma frames_of_step buf :
  frames_of buf =
  match find_frame_terminator buf with
  | None => ([], buf)
  | Some (off, len) =>
      let more := frames_of (drop (off + len) buf) in (take (off + len) buf :: more.1, more.2)
  end.
Proof.
  unfold frames_of. destruct buf as [|b buf]; [done|]. simpl length. simpl split_frames.
  destruct (find_frame_terminator (b :: buf)) as [[off len]|] eqn:E; [|done].
  apply find_bounds in E. simpl in E.
  rewrite (split_frames_fuel _ (length (drop (off + len) (b :: buf)))) by (rewrite length_drop; simpl; lia).
  by destruct (split_frames _ _).
Qed.

Lemma frames_ind (P : bytes -> Prop) :
  (forall buf, (forall off len, find_frame_terminator buf = Some (off, len) -> P (drop (off + len) buf)) -> P buf) ->
  forall buf, P buf.
Proof.
  intros Hstep buf. remember (length buf) as n eqn:En. revert buf En.
  induction (lt_wf n) as [n _ IH]. intros buf ->. apply Hstep. intros off len H. apply find_bounds in H.
  eapply IH; [|done]. rewrite length_drop. lia.
Qed.

Lemma frames_of_residue buf : find_frame_terminator (frames_of buf).2 = None.
Proof.
  revert buf. apply frames_ind. intros buf IH. rewrite frames_of_step.
  destruct (find_frame_terminator buf) as [[off len]|] eqn:E; [|done]. by apply (IH off len).
Qed.

Lemma frames_of_concat buf : concat (frames_of buf).1 ++ (frames_of buf).2 = buf.
Proof.
  revert buf. apply frames_ind. intros buf IH. rewrite frames_of_step.
  destruct (find_frame_terminator buf) as [[off len]|] eqn:E; [|done]. simpl.
  rewrite <- app_assoc, IH by done. apply take_drop.
Qed.

(** Chunks may be cut anywhere. *)
Lemma frames_of_app buf more :
  frames_of (buf ++ more) =
  let first := frames_of buf in let second := frames_of (first.2 ++ more) in (first.1 ++ second.1, second.2).
Proof.
  revert buf. apply frames_ind. intros buf IH. rewrite (frames_of_step buf).
  destruct (find_frame_terminator buf) as [[off len]|] eqn:E; simpl; [|by destruct (frames_of (buf ++ more))].
  rewrite frames_of_step, (find_app _ _ _ E). apply find_bounds in E as E'.
  rewrite take_app_le, drop_app_le, (IH off len) by (done || lia). done.
Qed.
