(* ===== verification/UsageStrip.v ===== *)
(** * UsageStrip: taking the usage member out of a chunk's bytes (proto/mod.rs, proto/stream.rs)

    On the same-protocol path a client that asked for no usage must not see the member the proxy's own
    request for usage put there, and nothing else may change: the member is cut out of the text. *)

From S2P Require Import Prelude Json Bytes Sse.

#[local] Open Scope Z_scope.

Definition QUOTE : Z := 34.
Definition BACKSLASH : Z := 92.
Definition COMMA : Z := 44.
Definition COLON : Z := 58.

Definition is_ascii_whitespace (b : Z) : bool := (b =? 32) || (b =? 9) || (b =? 10) || (b =? 12) || (b =? 13).
Definition opens (b : Z) : bool := (b =? 123) || (b =? 91).
Definition closes (b : Z) : bool := (b =? 125) || (b =? 93).

(** The first position from [i] on that holds no white space. *)
Fixpoint skip_spaces (fuel i : nat) (l : bytes) : nat :=
  match fuel, l !! i with
  | S fuel, Some b => if is_ascii_whitespace b then skip_spaces fuel (S i) l else i
  | _, _ => i
  end.
Definition skip_ws (l : bytes) (i : nat) : nat := skip_spaces (length l) i l.

Fixpoint string_end (fuel i : nat) (l : bytes) : option nat :=
  match fuel, l !! i with
  | S fuel, Some b =>
      if b =? BACKSLASH then string_end fuel (S (S i)) l
      else if b =? QUOTE then Some (S i)
      else string_end fuel (S i) l
  | _, _ => None
  end.

Definition scan_json_string_end (l : bytes) (open_quote : nat) : option nat :=
  string_end (length l) (S open_quote) l.

(** The end of a bracketed value, [depth] brackets being open at [i]. *)
Fixpoint bracket_end (fuel i depth : nat) (l : bytes) : option nat :=
  match fuel, l !! i with
  | S fuel, Some b =>
      if b =? QUOTE then i ← scan_json_string_end l i; bracket_end fuel i depth l
      else if opens b then bracket_end fuel (S i) (S depth) l
      else if closes b then
        if (pred depth =? 0)%nat then Some (S i) else bracket_end fuel (S i) (pred depth) l
      else bracket_end fuel (S i) depth l
  | _, _ => None
  end.

Fixpoint scalar_end (fuel i : nat) (l : bytes) : nat :=
  match fuel, l !! i with
  | S fuel, Some b => if (b =? COMMA) || closes b || is_ascii_whitespace b then i else scalar_end fuel (S i) l
  | _, _ => i
  end.

Definition scan_json_value_end (l : bytes) (start : nat) : option nat :=
  let i := skip_ws l start in
  b ← l !! i;
  if b =? QUOTE then scan_json_string_end l i
  else if opens b then bracket_end (length l) i 0 l
  else let j := scalar_end (length l) i l in if (j =? i)%nat then None else Some j.

(** The scan of the top-level members: [None] declines, [Some r] is the range of the usage member. *)
Fixpoint scan_members (fuel i depth : nat) (usage_range : option (nat * nat)) (expect_key : bool) (l : bytes)
    : option (option (nat * nat)) :=
  match fuel, l !! i with
  | S fuel, Some b =>
      if b =? QUOTE then
        str_end ← scan_json_string_end l i;
        if (depth =? 0)%nat && expect_key then
          let j := skip_ws l str_end in
          if bool_decide (l !! j = Some COLON) then
            value_end ← scan_json_value_end l (S j);
            if bool_decide (take (str_end - i) (drop i l) = [QUOTE] ++ str "usage" ++ [QUOTE]) then
              match usage_range with
              | Some _ => None
              | None => scan_members fuel value_end depth (Some (i, value_end)) false l
              end
            else scan_members fuel value_end depth usage_range false l
          else None
        else scan_members fuel str_end depth usage_range expect_key l
      else if opens b then scan_members fuel (S i) (S depth) usage_range false l
      else if closes b then
        if (depth =? 0)%nat then if b =? 93 then None else Some usage_range
        else scan_members fuel (S i) (pred depth) usage_range expect_key l
      else if b =? COMMA then
        scan_members fuel (S i) depth usage_range (if (depth =? 0)%nat then true else expect_key) l
      else scan_members fuel (S i) depth usage_range expect_key l
  | _, _ => Some usage_range
  end.

(** White space before [k], down to [floor]. *)
Fixpoint back_ws (k : nat) (floor : nat) (l : bytes) : nat :=
  match k with
  | O => O
  | S k' =>
      if (floor <? k)%nat && match l !! k' with Some b => is_ascii_whitespace b | None => false end
      then back_ws k' floor l else k
  end.

(** The member's range with one comma: the one before it, else the one after it. *)
Definition cut_range (l : bytes) (obj_open start end_ : nat) : nat * nat :=
  let k := back_ws start (S obj_open) l in
  if (S obj_open <? k)%nat && bool_decide (l !! pred k = Some COMMA) then (pred k, end_)
  else let m := skip_ws l end_ in
       if bool_decide (l !! m = Some COMMA) then (start, S m) else (start, end_).

Definition strip_top_level_usage_member (json : bytes) : option bytes :=
  let obj_open := skip_ws json 0 in
  if bool_decide (json !! obj_open = Some 123) then
    found ← scan_members (S (length json)) (S obj_open) 0 None true json;
    range ← found;
    let '(cut_start, cut_end) := cut_range json obj_open range.1 range.2 in
    Some (take cut_start json ++ drop cut_end json)
  else None.

(** ** The frame *)

(** [l.starts_with(p)], [l.ends_with(p)], [l.find(p)] *)
Definition starts_with (p l : bytes) : bool := bool_decide (take (length p) l = p).
Definition ends_with (p l : bytes) : bool :=
  (length p <=? length l)%nat && bool_decide (drop (length l - length p) l = p).

Fixpoint find_bytes (p l : bytes) : option nat :=
  if starts_with p l then Some 0%nat
  else match l with [] => None | _ :: l => S <$> find_bytes p l end.

Definition terminator_of (frame : bytes) : bytes :=
  if ends_with [CR; LF; CR; LF] frame then [CR; LF; CR; LF]
  else if ends_with [LF; LF] frame then [LF; LF]
  else if ends_with [CR; LF] frame then [CR; LF]
  else if ends_with [LF] frame then [LF]
  else [LF; LF].

Definition rewrite_frame_strip_usage (frame data_str : bytes) : bytes :=
  match strip_top_level_usage_member data_str with
  | Some stripped =>
      let rewritten := str "data: " ++ stripped ++ terminator_of frame in
      if utf8_valid frame then
        match find_bytes data_str frame with
        | Some pos =>
            let after := drop (pos + length data_str) frame in
            match find_bytes data_str after with
            | None => take pos frame ++ stripped ++ after
            | Some _ => rewritten
            end
        | None => rewritten
        end
      else rewritten
  | None => frame
  end.

(** * the cut is exact on every object text

    The scanner of [UsageStrip] is proved against the grammar of JSON object texts, white space, escapes
    and nesting included: on an object with one usage member it gives the text of the object with the
    other members as they stood, on any other it declines. *)


(** ** Object texts *)

Definition spaces : bytes -> Prop := Forall (fun b => is_ascii_whitespace b = true).

(** What stands between the quotes of a string. *)
Inductive chars : bytes -> Prop :=
  | chars_nil : chars []
  | chars_plain b l : b <> QUOTE -> b <> BACKSLASH -> chars l -> chars (b :: l)
  | chars_escape b l : chars l -> chars (BACKSLASH :: b :: l).

Definition string_text (l : bytes) : Prop := exists cs, chars cs /\ l = QUOTE :: cs ++ [QUOTE].

(** Text in which every bracket and string is closed. *)
Inductive balanced : bytes -> Prop :=
  | balanced_nil : balanced []
  | balanced_byte b l : b <> QUOTE -> opens b = false -> closes b = false -> balanced l -> balanced (b :: l)
  | balanced_string s l : string_text s -> balanced l -> balanced (s ++ l)
  | balanced_nest o m c l : opens o = true -> closes c = true -> balanced m -> balanced l -> balanced (o :: m ++ c :: l).

Definition delimits (b : Z) : bool := (b =? COMMA) || closes b || is_ascii_whitespace b.

Inductive value_text : bytes -> Prop :=
  | value_string s : string_text s -> value_text s
  | value_bracket o m c : opens o = true -> closes c = true -> balanced m -> value_text (o :: m ++ [c])
  | value_scalar b l : b <> QUOTE -> opens b = false -> Forall (fun b => delimits b = false) (b :: l) -> value_text (b :: l).

Record Member := mkMember {
  m_before : bytes;
  m_key : bytes;
  m_mid : bytes;
  m_gap : bytes;
  m_value : bytes;
  m_after : bytes;
}.

Record member_ok (m : Member) : Prop := {
  mo_before : spaces (m_before m);
  mo_key : string_text (m_key m);
  mo_mid : spaces (m_mid m);
  mo_gap : spaces (m_gap m);
  mo_value : value_text (m_value m);
  mo_after : spaces (m_after m);
}.

(** A member from its key to its value. *)
Definition body (m : Member) : bytes := m_key m ++ m_mid m ++ [COLON] ++ m_gap m ++ m_value m.
Definition member_text (m : Member) : bytes := m_before m ++ body m ++ m_after m.

Fixpoint members_text (ms : list Member) : bytes :=
  match ms with [] => [] | [m] => member_text m | m :: ms => member_text m ++ COMMA :: members_text ms end.

Definition OPEN : Z := 123.
Definition CLOSE : Z := 125.

(** [o_pad] is the inside of an object with no members. *)
Record ObjectText := mkObject { o_lead : bytes; o_pad : bytes; o_members : list Member; o_trail : bytes }.

Definition inside (o : ObjectText) : bytes := match o_members o with [] => o_pad o | ms => members_text ms end.
Definition object_text (o : ObjectText) : bytes := o_lead o ++ OPEN :: inside o ++ CLOSE :: o_trail o.

Record object_ok (o : ObjectText) : Prop := {
  oo_lead : spaces (o_lead o);
  oo_pad : spaces (o_pad o);
  oo_members : Forall member_ok (o_members o);
}.

Definition usage_key : bytes := [QUOTE] ++ str "usage" ++ [QUOTE].
Definition is_usage (m : Member) : bool := bool_decide (m_key m = usage_key).
Definition content (m : Member) : bytes * bytes := (m_key m, m_value m).

(** ** Positions *)

(** [at_ l i rest]: [rest] is what stands from [i] on. *)
Definition at_ (l : bytes) (i : nat) (rest : bytes) : Prop := drop i l = rest.

Lemma at_lookup l i b rest : at_ l i (b :: rest) -> l !! i = Some b.
Proof. unfold at_. intros H. pose proof (lookup_drop l i 0) as E. by rewrite Nat.add_0_r, H in E. Qed.

Lemma at_end l i : at_ l i [] -> l !! i = None.
Proof. unfold at_. intros H. pose proof (lookup_drop l i 0) as E. by rewrite Nat.add_0_r, H in E. Qed.

Lemma at_skip l i a rest : at_ l i (a ++ rest) -> at_ l (i + length a) rest.
Proof. unfold at_. intros H. by rewrite <- drop_drop, H, drop_app_length. Qed.

Lemma at_next l i b rest : at_ l i (b :: rest) -> at_ l (S i) rest.
Proof. intros H. replace (S i) with (i + length [b])%nat by (simpl; lia). by apply (at_skip l i [b]). Qed.

Lemma at_bound l i rest : at_ l i rest -> (length rest <= length l - i)%nat.
Proof. intros <-. by rewrite length_drop. Qed.

Lemma skip_spaces_at ws : forall fuel i l rest,
  at_ l i (ws ++ rest) -> spaces ws -> (length ws < fuel)%nat ->
  match rest with b :: _ => is_ascii_whitespace b = false | [] => True end ->
  skip_spaces fuel i l = (i + length ws)%nat.
Proof.
  induction ws as [|b ws IH]; intros fuel i l rest Hat Hws Hf Hr; destruct fuel as [|fuel]; simpl in Hf; try lia.
  - simpl in *. rewrite Nat.add_0_r. destruct rest as [|b rest].
    + by rewrite (at_end _ _ Hat).
    + by rewrite (at_lookup _ _ _ _ Hat), Hr.
  - simpl in Hat. apply Forall_cons in Hws as [Hb Hws]. cbn [skip_spaces]. rewrite (at_lookup _ _ _ _ Hat), Hb.
    rewrite (IH fuel (S i) l rest (at_next _ _ _ _ Hat)); [simpl; lia|done|lia|done].
Qed.

Lemma skip_ws_at l i ws b rest :
  at_ l i (ws ++ b :: rest) -> spaces ws -> is_ascii_whitespace b = false -> skip_ws l i = (i + length ws)%nat.
Proof.
  intros Hat Hws Hb. unfold skip_ws. apply (skip_spaces_at ws _ _ _ (b :: rest) Hat Hws); [|done].
  pose proof (at_bound _ _ _ Hat) as Hl. rewrite length_app in Hl. simpl in Hl. lia.
Qed.

(** ** Strings *)

Lemma string_end_at cs : chars cs -> forall fuel i l rest,
  at_ l i (cs ++ QUOTE :: rest) -> (length cs < fuel)%nat -> string_end fuel i l = Some (S (i + length cs)).
Proof.
  intros H. induction H as [|b cs Hq Hb _ IH|b cs _ IH]; intros fuel i l rest Hat Hf; destruct fuel as [|fuel]; simpl in Hf; try lia;
    cbn [string_end]; rewrite (at_lookup _ _ _ _ Hat).
  - simpl. by rewrite Nat.add_0_r.
  - apply Z.eqb_neq in Hq as ->, Hb as ->. rewrite (IH fuel (S i) l rest (at_next _ _ _ _ Hat)) by lia. simpl. f_equal. lia.
  - change (BACKSLASH =? BACKSLASH) with true. cbn iota.
    rewrite (IH fuel (S (S i)) l rest) by (lia || by apply (at_next _ _ b), (at_next _ _ BACKSLASH)). simpl. f_equal. lia.
Qed.

Lemma scan_string l i s rest :
  string_text s -> at_ l i (s ++ rest) -> scan_json_string_end l i = Some (i + length s)%nat.
Proof.
  intros (cs & Hcs & ->) Hat. unfold scan_json_string_end. simpl in Hat. apply at_next in Hat as Hat'.
  rewrite <- (assoc_L (++)) in Hat'. simpl in Hat'.
  rewrite (string_end_at cs Hcs (length l) (S i) l rest Hat').
  - f_equal. simpl. rewrite length_app. simpl. lia.
  - apply at_bound in Hat'. rewrite length_app in Hat'. simpl in Hat'. lia.
Qed.

(** ** Values *)

Lemma opens_other o : opens o = true -> (o =? QUOTE) = false /\ closes o = false /\ is_ascii_whitespace o = false /\ (o =? COMMA) = false.
Proof.
  unfold opens. rewrite orb_true_iff, !Z.eqb_eq. by intros [-> | ->].
Qed.

Lemma closes_other c : closes c = true -> (c =? QUOTE) = false /\ opens c = false /\ is_ascii_whitespace c = false.
Proof.
  unfold closes. rewrite orb_true_iff, !Z.eqb_eq. by intros [-> | ->].
Qed.

Lemma string_text_head s : string_text s -> exists cs, s = QUOTE :: cs.
Proof. intros (cs & _ & ->). by eexists. Qed.

Lemma bracket_end_inside m : balanced m -> forall fuel i d l tail,
  at_ l i (m ++ tail) -> (length (m ++ tail) <= fuel)%nat ->
  exists fuel', (length tail <= fuel')%nat /\ bracket_end fuel i (S d) l = bracket_end fuel' (i + length m) (S d) l.
Proof.
  intros H. induction H as [|b m Hq Ho Hc _ IH|s m Hs _ IH|o m1 c m2 Ho Hc _ IH1 _ IH2]; intros fuel i d l tail Hat Hf.
  - exists fuel. simpl in *. by rewrite Nat.add_0_r.
  - destruct fuel as [|fuel]; [simpl in Hf; lia|]. simpl in Hat, Hf.
    destruct (IH fuel (S i) d l tail (at_next _ _ _ _ Hat)) as (f' & F1 & F2); [lia|]. exists f'. split; [done|].
    cbn [bracket_end]. rewrite (at_lookup _ _ _ _ Hat), Ho, Hc. apply Z.eqb_neq in Hq as ->.
    rewrite F2. simpl. f_equal. lia.
  - rewrite <- (assoc_L (++)) in Hat, Hf. destruct (string_text_head s Hs) as [cs ->].
    destruct fuel as [|fuel]; [simpl in Hf; lia|].
    destruct (IH fuel (i + length (QUOTE :: cs))%nat d l tail (at_skip _ _ _ _ Hat)) as (f' & F1 & F2).
    { rewrite length_app in Hf. simpl in Hf. lia. }
    exists f'. split; [done|]. pose proof (scan_string l i _ _ Hs Hat) as Hend. simpl in Hat.
    cbn [bracket_end]. rewrite (at_lookup _ _ _ _ Hat). change (QUOTE =? QUOTE) with true. cbn iota.
    rewrite Hend. cbn [mbind option_bind]. rewrite F2. rewrite length_app. f_equal. lia.
  - destruct fuel as [|fuel]; [simpl in Hf; lia|]. simpl in Hat, Hf. destruct (opens_other o Ho) as (Oq & _ & _ & _).
    destruct (closes_other c Hc) as (Cq & Co & _).
    rewrite <- (assoc_L (++)) in Hat, Hf. simpl in Hat, Hf.
    destruct (IH1 fuel (S i) (S d) l (c :: m2 ++ tail) (at_next _ _ _ _ Hat)) as (f1 & F1 & F2); [lia|].
    destruct f1 as [|f1]; [simpl in F1; lia|]. pose proof (at_skip _ _ _ _ (at_next _ _ _ _ Hat)) as Hat2.
    destruct (IH2 f1 (S (S i + length m1)) d l tail (at_next _ _ _ _ Hat2)) as (f2 & G1 & G2); [simpl in F1; lia|].
    exists f2. split; [done|]. cbn [bracket_end]. rewrite (at_lookup _ _ _ _ Hat), Oq, Ho, F2. cbn [bracket_end].
    rewrite (at_lookup _ _ _ _ Hat2), Cq, Co, Hc. cbn [pred Nat.eqb]. rewrite G2. f_equal. simpl. rewrite length_app.
    simpl. lia.
Qed.

Lemma scalar_end_at v : forall fuel i l b rest,
  at_ l i (v ++ b :: rest) -> Forall (fun b => delimits b = false) v -> delimits b = true -> (length v < fuel)%nat ->
  scalar_end fuel i l = (i + length v)%nat.
Proof.
  induction v as [|x v IH]; intros fuel i l b rest Hat Hv Hb Hf; destruct fuel as [|fuel]; simpl in Hf; try lia;
    simpl in Hat; cbn [scalar_end]; rewrite (at_lookup _ _ _ _ Hat).
  - fold (delimits b). rewrite Hb. simpl. lia.
  - apply Forall_cons in Hv as [Hx Hv]. fold (delimits x). rewrite Hx.
    rewrite (IH fuel (S i) l b rest (at_next _ _ _ _ Hat)) by (done || lia). simpl. lia.
Qed.

Lemma value_text_head v : value_text v -> exists b v', v = b :: v' /\ is_ascii_whitespace b = false.
Proof.
  intros [s (cs & _ & ->)|o m c Ho _ _|b l _ _ Hl]; [by do 2 eexists|do 2 eexists; split; [done|by apply opens_other]|].
  do 2 eexists. split; [done|]. apply Forall_cons in Hl as [Hb _]. unfold delimits in Hb.
  by apply orb_false_iff in Hb as [_ Hb].
Qed.

Lemma scan_value l start ws v b rest :
  at_ l start (ws ++ v ++ b :: rest) -> spaces ws -> value_text v -> delimits b = true ->
  scan_json_value_end l start = Some (start + length ws + length v)%nat.
Proof.
  intros Hat Hws Hv Hb. unfold scan_json_value_end. destruct (value_text_head v Hv) as (x & v' & Ev & Hx).
  pose proof Hat as Hskip. rewrite Ev in Hskip. simpl in Hskip.
  rewrite (skip_ws_at _ _ _ _ _ Hskip Hws Hx). set (i := (start + length ws)%nat).
  apply at_skip in Hat. fold i in Hat. pose proof Hat as Hhead. rewrite Ev in Hhead. simpl in Hhead.
  rewrite (at_lookup _ _ _ _ Hhead). cbn [mbind option_bind].
  pose proof (at_bound _ _ _ Hat) as Hlen. rewrite length_app in Hlen. simpl in Hlen.
  destruct Hv as [s Hs|o m c Ho Hc Hm|y w Hq Ho Hall].
  - destruct (string_text_head s Hs) as [cs ->]. simplify_eq/=. exact (scan_string l i _ _ Hs Hat).
  - simplify_eq/=. destruct (opens_other x Ho) as (-> & _). rewrite Ho.
    destruct (length l) as [|f] eqn:El; [lia|]. cbn [bracket_end]. rewrite (at_lookup _ _ _ _ Hhead), Ho.
    destruct (opens_other x Ho) as (-> & _). apply at_next in Hhead as Hin. rewrite <- (assoc_L (++)) in Hin.
    rewrite length_app in Hlen. simpl in Hlen.
    destruct (bracket_end_inside m Hm f (S i) 0 l ([c] ++ b :: rest) Hin) as (f' & F1 & ->).
    { rewrite !length_app. simpl. lia. }
    destruct f' as [|f']; [simpl in F1; lia|]. apply at_skip in Hin. cbn [bracket_end].
    rewrite (at_lookup _ _ _ _ Hin), Hc. destruct (closes_other c Hc) as (-> & -> & _). cbn [pred Nat.eqb].
    f_equal. rewrite length_app. simpl. lia.
  - simplify_eq/=. apply Z.eqb_neq in Hq as ->. rewrite Ho.
    rewrite (scalar_end_at (x :: v') (length l) i l b rest Hat Hall Hb) by (simpl; lia).
    rewrite (proj2 (Nat.eqb_neq _ _)) by (simpl; lia). done.
Qed.

(** ** Members *)

Definition span (i : nat) (m : Member) : nat * nat :=
  let start := (i + length (m_before m))%nat in (start, (start + length (body m))%nat).

Fixpoint usage_spans (i : nat) (ms : list Member) : list (nat * nat) :=
  match ms with
  | [] => []
  | m :: ms => (if is_usage m then [span i m] else []) ++ usage_spans (i + length (member_text m) + 1) ms
  end.

(** One usage member is found, none is nothing found, a second one is declined. *)
Definition verdict (found : list (nat * nat)) : option (option (nat * nat)) :=
  match found with [] => Some None | [r] => Some (Some r) | _ => None end.

Lemma space_other b : is_ascii_whitespace b = true ->
  (b =? QUOTE) = false /\ opens b = false /\ closes b = false /\ (b =? COMMA) = false.
Proof.
  unfold is_ascii_whitespace. rewrite !orb_true_iff, !Z.eqb_eq. by intros [[[[-> | ->] | ->] | ->] | ->].
Qed.

Lemma scan_spaces ws : forall fuel i r e l tail,
  at_ l i (ws ++ tail) -> spaces ws -> (length (ws ++ tail) <= fuel)%nat ->
  exists fuel', (length tail <= fuel')%nat /\ scan_members fuel i 0 r e l = scan_members fuel' (i + length ws) 0 r e l.
Proof.
  induction ws as [|b ws IH]; intros fuel i r e l tail Hat Hws Hf.
  { exists fuel. simpl in *. by rewrite Nat.add_0_r. }
  apply Forall_cons in Hws as [Hb Hws]. destruct fuel as [|fuel]; [simpl in Hf; lia|]. simpl in Hat, Hf.
  destruct (IH fuel (S i) r e l tail (at_next _ _ _ _ Hat) Hws) as (f' & F1 & F2); [lia|]. exists f'. split; [done|].
  cbn [scan_members]. rewrite (at_lookup _ _ _ _ Hat). destruct (space_other b Hb) as (-> & -> & -> & ->). rewrite F2.
  simpl. f_equal. lia.
Qed.

Lemma scan_member m fuel i r l b rest :
  member_ok m -> at_ l i (member_text m ++ b :: rest) -> delimits b = true -> (length (member_text m ++ b :: rest) <= fuel)%nat ->
  exists fuel', (length (b :: rest) <= fuel')%nat
    /\ scan_members fuel i 0 r true l
       = match is_usage m, r with
         | true, Some _ => None
         | true, None => scan_members fuel' (i + length (member_text m)) 0 (Some (span i m)) false l
         | false, _ => scan_members fuel' (i + length (member_text m)) 0 r false l
         end.
Proof.
  intros [Hbefore Hkey Hmid Hgap Hvalue Hafter] Hat Hb Hf.
  unfold member_text, body in Hat, Hf. rewrite <- !(assoc_L (++)) in Hat, Hf. cbn [app] in Hat, Hf.
  destruct (scan_spaces (m_before m) fuel i r true l _ Hat Hbefore Hf) as (f1 & F1 & ->).
  apply at_skip in Hat. set (k := (i + length (m_before m))%nat) in *.
  destruct (string_text_head _ Hkey) as [cs Ecs]. pose proof Hat as Hq. rewrite Ecs in Hq. simpl in Hq.
  destruct f1 as [|f1]; [rewrite Ecs in F1; simpl in F1; lia|]. cbn [scan_members]. rewrite (at_lookup _ _ _ _ Hq).
  change (QUOTE =? QUOTE) with true. cbn iota. rewrite (scan_string l k _ _ Hkey Hat). cbn [mbind option_bind].
  change (0 =? 0)%nat with true. cbn [andb].
  assert (Hname : take (k + length (m_key m) - k) (drop k l) = m_key m).
  { unfold at_ in Hat. rewrite Hat. replace (k + length (m_key m) - k)%nat with (length (m_key m)) by lia.
    apply take_app_length. }
  pose proof (at_skip _ _ _ _ Hat) as Hat2. rewrite (skip_ws_at _ _ _ _ _ Hat2 Hmid eq_refl).
  pose proof (at_skip _ _ _ _ Hat2) as Hat3. rewrite (at_lookup _ _ _ _ Hat3). rewrite bool_decide_eq_true_2 by done.
  set (colon := (k + length (m_key m) + length (m_mid m))%nat) in *.
  assert (Hnext : exists b' rest', m_after m ++ b :: rest = b' :: rest' /\ delimits b' = true).
  { destruct (m_after m) as [|a after]; [by do 2 eexists|]. do 2 eexists. split; [done|].
    apply Forall_cons in Hafter as [Ha _]. unfold delimits. by rewrite Ha, orb_true_r. }
  destruct Hnext as (b' & rest' & En & Hb'). pose proof (at_next _ _ _ _ Hat3) as Hat4. rewrite En in Hat4.
  rewrite (scan_value _ _ _ _ _ _ Hat4 Hgap Hvalue Hb'). cbn [mbind option_bind].
  assert (Hspan : (k, (S colon + length (m_gap m) + length (m_value m))%nat) = span i m).
  { unfold span, body. fold k. rewrite !length_app. simpl. rewrite ?length_app. f_equal. unfold colon. lia. }
  assert (Htail : at_ l (S colon + length (m_gap m) + length (m_value m)) (m_after m ++ b :: rest)).
  { rewrite En. by apply at_skip, at_skip. }
  assert (Hlast : (S colon + length (m_gap m) + length (m_value m) + length (m_after m) = i + length (member_text m))%nat).
  { unfold member_text, body. rewrite !length_app. simpl. rewrite ?length_app. unfold colon, k. lia. }
  assert (Hfuel : (length (m_after m ++ b :: rest) <= f1)%nat).
  { rewrite !length_app in F1. simpl in F1. rewrite ?length_app in F1. rewrite Ecs in F1. rewrite !length_app. simpl in *. lia. }
  assert (Hu : forall D : Decision (m_key m = usage_key), @bool_decide _ D = is_usage m)
    by (intros D; unfold is_usage; by do 2 case_bool_decide).
  rewrite Hname. fold usage_key. rewrite Hu, Hspan. destruct (is_usage m).
  - destruct r as [r|]; [exists (length (b :: rest)); done|].
    destruct (scan_spaces (m_after m) f1 _ (Some (span i m)) false l _ Htail Hafter Hfuel) as (f2 & G1 & G2).
    exists f2. split; [done|]. by rewrite G2, Hlast.
  - destruct (scan_spaces (m_after m) f1 _ r false l _ Htail Hafter Hfuel) as (f2 & G1 & G2).
    exists f2. split; [done|]. by rewrite G2, Hlast.
Qed.

Lemma scan_all ms : forall fuel i r l trail,
  ms <> [] -> Forall member_ok ms -> at_ l i (members_text ms ++ CLOSE :: trail) ->
  (length (members_text ms ++ CLOSE :: trail) <= fuel)%nat ->
  scan_members fuel i 0 r true l = verdict (option_list r ++ usage_spans i ms).
Proof.
  induction ms as [|m ms IH]; intros fuel i r l trail Hne Hok Hat Hf; [done|]. apply Forall_cons in Hok as [Hm Hok].
  destruct ms as [|m' ms].
  - cbn [members_text] in Hat, Hf. destruct (scan_member m fuel i r l CLOSE trail Hm Hat eq_refl Hf) as (f' & F1 & ->).
    apply at_skip in Hat. destruct f' as [|f']; [simpl in F1; lia|].
    assert (Hend : forall r', scan_members (S f') (i + length (member_text m)) 0 r' false l = Some r').
    { intros r'. cbn [scan_members]. by rewrite (at_lookup _ _ _ _ Hat). }
    rewrite !Hend. cbn [usage_spans]. destruct (is_usage m), r as [r|]; done.
  - change (members_text (m :: m' :: ms)) with (member_text m ++ COMMA :: members_text (m' :: ms)) in Hat, Hf.
    rewrite <- (assoc_L (++)) in Hat, Hf. cbn [app] in Hat, Hf.
    destruct (scan_member m fuel i r l COMMA _ Hm Hat eq_refl Hf) as (f' & F1 & ->).
    apply at_skip in Hat. destruct f' as [|f']; [simpl in F1; lia|].
    assert (Hgo : forall r', scan_members (S f') (i + length (member_text m)) 0 r' false l
                             = verdict (option_list r' ++ usage_spans (i + length (member_text m) + 1) (m' :: ms))).
    { intros r'. cbn [scan_members]. rewrite (at_lookup _ _ _ _ Hat). cbn [Z.eqb]. 
      change (COMMA =? QUOTE) with false. change (opens COMMA) with false. change (closes COMMA) with false.
      change (COMMA =? COMMA) with true. change (0 =? 0)%nat with true. cbn iota.
      rewrite (IH f' (S (i + length (member_text m))) r' l trail); [by rewrite Nat.add_1_r|done|done|by apply at_next in Hat|].
      simpl in F1. simpl. lia. }
    cbn [usage_spans]. cbn [usage_spans] in Hgo. rewrite !Hgo. by destruct (is_usage m), r as [r|].
Qed.

(** ** The cut *)

Lemma back_ws_at ws : forall pre floor (l : bytes),
  spaces ws -> (floor <= length pre)%nat -> take (length (pre ++ ws)) l = pre ++ ws ->
  match last pre with Some b => length pre = floor \/ is_ascii_whitespace b = false | None => True end ->
  back_ws (length (pre ++ ws)) floor l = length pre.
Proof.
  induction ws as [|b ws IH] using rev_ind; intros pre floor l Hws Hfl Hl Hlast.
  - rewrite app_nil_r in *. destruct (length pre) as [|k] eqn:Ek; [done|]. cbn [back_ws].
    destruct pre as [|x pre _] using rev_ind; [done|]. rewrite last_snoc in Hlast.
    rewrite length_app in Ek. simpl in Ek.
    destruct Hlast as [<-|Hx]; [by rewrite Nat.ltb_irrefl|].
    assert (Hk : l !! k = Some x).
    { apply (f_equal (.!! k)) in Hl. rewrite lookup_take_lt in Hl by lia. etransitivity; [exact Hl|].
      rewrite lookup_app_r by lia. by replace (k - length pre)%nat with 0%nat by lia. }
    by rewrite Hk, Hx, andb_false_r.
  - apply Forall_app in Hws as [Hws Hb]. apply Forall_cons in Hb as [Hb _].
    rewrite (assoc_L (++)) in Hl |- *. set (p := pre ++ ws) in *.
    assert (Hlen : length (p ++ [b]) = S (length p)) by (rewrite length_app; simpl; lia).
    rewrite Hlen in Hl |- *. cbn [back_ws].
    assert (Hp : l !! length p = Some b).
    { apply (f_equal (.!! length p)) in Hl. rewrite lookup_take_lt in Hl by lia. etransitivity; [exact Hl|].
      rewrite lookup_app_r by lia. by rewrite Nat.sub_diag. }
    rewrite Hp, Hb, andb_true_r.
    assert (Hpl : length p = (length pre + length ws)%nat) by (unfold p; by rewrite length_app).
    rewrite (proj2 (Nat.ltb_lt _ _)) by lia. apply IH; [done|done| |done].
    apply (f_equal (take (length p))) in Hl. rewrite take_take, Nat.min_l in Hl by lia. by rewrite take_app_length in Hl.
Qed.

(** With something before it, the member goes with the comma before it. *)
Lemma cut_after_comma pre before m rest obj_open :
  spaces before -> (obj_open < length pre)%nat ->
  cut_range (pre ++ [COMMA] ++ before ++ m ++ rest) obj_open (length (pre ++ [COMMA] ++ before))
    (length (pre ++ [COMMA] ++ before) + length m)
  = (length pre, (length (pre ++ [COMMA] ++ before) + length m)%nat).
Proof.
  intros Hb Ho. set (l := pre ++ [COMMA] ++ before ++ m ++ rest : bytes).
  assert (Hl : l = ((pre ++ [COMMA]) ++ before) ++ m ++ rest) by (unfold l; by rewrite <- !(assoc_L (++))).
  unfold cut_range. assert (Hk : back_ws (length (pre ++ [COMMA] ++ before)) (S obj_open) l = S (length pre)).
  { rewrite (assoc_L (++)). rewrite (back_ws_at before (pre ++ [COMMA])).
    - rewrite length_app. simpl. lia.
    - done.
    - rewrite length_app. simpl. lia.
    - rewrite Hl. apply take_app_length.
    - rewrite last_snoc. by right. }
  rewrite Hk. rewrite (proj2 (Nat.ltb_lt _ _)) by lia. cbn [pred].
  rewrite bool_decide_eq_true_2; [done|].
  transitivity ((pre ++ [COMMA] ++ before ++ m ++ rest) !! length pre); [done|]. rewrite lookup_app_r by lia. by rewrite Nat.sub_diag.
Qed.

(** At the front of the object, with the comma after it if there is one. *)
Lemma cut_at_front lead before m after b rest :
  spaces before -> spaces after -> is_ascii_whitespace b = false ->
  let l : bytes := lead ++ OPEN :: before ++ m ++ after ++ b :: rest in
  let start := (length lead + 1 + length before)%nat in
  cut_range l (length lead) start (start + length m)
  = (start, if (b =? COMMA)%Z then S (start + length m + length after) else start + length m)%nat.
Proof.
  intros Hb Ha Hws. cbv zeta. set (l := lead ++ OPEN :: before ++ m ++ after ++ b :: rest : bytes).
  assert (Hl : l = ((lead ++ [OPEN]) ++ before) ++ m ++ after ++ b :: rest) by (unfold l; by rewrite <- !(assoc_L (++))).
  assert (Hs : (length lead + 1 + length before)%nat = length ((lead ++ [OPEN]) ++ before)) by (rewrite !length_app; done).
  assert (Hafter : at_ l (length ((lead ++ [OPEN]) ++ before) + length m) (after ++ b :: rest)).
  { apply at_skip. unfold at_. rewrite Hl. apply drop_app_length. }
  unfold cut_range. rewrite Hs. rewrite (back_ws_at before (lead ++ [OPEN])).
  - rewrite (proj2 (Nat.ltb_ge _ _)) by (rewrite length_app; simpl; lia). cbn [andb].
    rewrite (skip_ws_at _ _ _ _ _ Hafter Ha Hws). apply at_skip in Hafter. rewrite (at_lookup _ _ _ _ Hafter).
    destruct (b =? COMMA) eqn:E.
    + apply Z.eqb_eq in E as ->. by rewrite bool_decide_eq_true_2.
    + rewrite bool_decide_eq_false_2; [done|]. intros [= ->]. by rewrite Z.eqb_refl in E.
  - done.
  - rewrite length_app. simpl. lia.
  - rewrite Hl. apply take_app_length.
  - rewrite last_snoc. left. rewrite length_app. simpl. lia.
Qed.

(** ** The whole *)

Lemma usage_spans_app i ms1 ms2 :
  usage_spans i (ms1 ++ ms2)
  = usage_spans i ms1 ++ usage_spans (i + length (concat (map (fun m => member_text m ++ [COMMA]) ms1))) ms2.
Proof.
  revert i. induction ms1 as [|m ms1 IH]; intros i; [simpl; by rewrite Nat.add_0_r|]. cbn [app usage_spans].
  rewrite IH, <- (assoc_L (++)). do 3 f_equal. simpl. rewrite !length_app. simpl. lia.
Qed.

Lemma usage_spans_length i ms : length (usage_spans i ms) = length (filter (fun m => is_usage m = true) ms).
Proof.
  revert i. induction ms as [|m ms IH]; intros i; [done|]. cbn [usage_spans]. rewrite length_app, IH, filter_cons.
  by destruct (is_usage m) eqn:E; case_decide.
Qed.

Lemma usage_spans_none i ms : filter (fun m => is_usage m = true) ms = [] -> usage_spans i ms = [].
Proof. intros H. apply nil_length_inv. by rewrite usage_spans_length, H. Qed.

(** A list with one usage member, around it. *)
Lemma one_usage ms u : filter (fun m => is_usage m = true) ms = [u] ->
  exists ms1 ms2, ms = ms1 ++ u :: ms2 /\ is_usage u = true
    /\ filter (fun m => is_usage m = true) ms1 = [] /\ filter (fun m => is_usage m = true) ms2 = [].
Proof.
  induction ms as [|m ms IH]; [done|]. rewrite filter_cons. case_decide as Hm; intros E.
  - injection E as -> E. by exists [], ms.
  - destruct (IH E) as (ms1 & ms2 & -> & Hu & F1 & F2). exists (m :: ms1), ms2. split_and!; try done.
    by rewrite filter_cons_False.
Qed.

Lemma scan_object o :
  object_ok o ->
  scan_members (S (length (object_text o))) (S (length (o_lead o))) 0 None true (object_text o)
  = verdict (usage_spans (S (length (o_lead o))) (o_members o)).
Proof.
  intros [Hlead Hpad Hms]. assert (Hat : at_ (object_text o) (length (o_lead o)) (OPEN :: inside o ++ CLOSE :: o_trail o))
    by apply drop_app_length.
  apply at_next in Hat. pose proof (at_bound _ _ _ Hat) as Hlen. unfold inside in *. destruct (o_members o) as [|m ms].
  - destruct (scan_spaces (o_pad o) (S (length (object_text o))) _ None true _ _ Hat Hpad) as (f & F1 & ->); [lia|].
    apply at_skip in Hat. destruct f as [|f]; [simpl in F1; lia|]. cbn [scan_members].
    by rewrite (at_lookup _ _ _ _ Hat).
  - by rewrite (scan_all (m :: ms) _ _ None _ _ ltac:(done) Hms Hat) by lia.
Qed.

Lemma members_text_app ms1 ms2 :
  ms1 <> [] -> ms2 <> [] -> members_text (ms1 ++ ms2) = members_text ms1 ++ COMMA :: members_text ms2.
Proof.
  intros H1 H2. induction ms1 as [|m ms1 IH]; [done|]. destruct ms1 as [|m' ms1].
  - by destruct ms2.
  - change (members_text ((m :: m' :: ms1) ++ ms2)) with (member_text m ++ COMMA :: members_text ((m' :: ms1) ++ ms2)).
    rewrite IH by done. change (members_text (m :: m' :: ms1)) with (member_text m ++ COMMA :: members_text (m' :: ms1)).
    by rewrite <- (assoc_L (++)).
Qed.

Lemma members_text_length ms : ms <> [] ->
  length (concat (map (fun m => member_text m ++ [COMMA]) ms)) = S (length (members_text ms)).
Proof.
  induction ms as [|m ms IH]; [done|]. intros _. destruct ms as [|m' ms].
  - simpl. rewrite app_nil_r, length_app. simpl. lia.
  - change (members_text (m :: m' :: ms)) with (member_text m ++ COMMA :: members_text (m' :: ms)).
    cbn [map concat]. rewrite length_app. cbn [map concat] in IH. rewrite IH by done. rewrite !length_app. simpl. lia.
Qed.

Definition pad_before ws m := mkMember (ws ++ m_before m) (m_key m) (m_mid m) (m_gap m) (m_value m) (m_after m).
Definition pad_after ws m := mkMember (m_before m) (m_key m) (m_mid m) (m_gap m) (m_value m) (m_after m ++ ws).

Lemma text_pad_before ws m ms : members_text (pad_before ws m :: ms) = ws ++ members_text (m :: ms).
Proof.
  assert (E : member_text (pad_before ws m) = ws ++ member_text m) by (unfold member_text, pad_before; cbn [m_before m_after]; by rewrite <- (assoc_L (++))).
  destruct ms; cbn [members_text]; by rewrite E, <- ?(assoc_L (++)).
Qed.

Lemma text_pad_after ws ms m : members_text (ms ++ [pad_after ws m]) = members_text (ms ++ [m]) ++ ws.
Proof.
  assert (E : member_text (pad_after ws m) = member_text m ++ ws) by (unfold member_text, pad_after; cbn [m_before m_after]; by rewrite <- !(assoc_L (++))).
  destruct ms as [|m' ms]; [exact E|]. rewrite !members_text_app by done. cbn [members_text]. by rewrite E, <- (assoc_L (++)).
Qed.

Lemma strip_reaches_the_cut o :
  object_ok o ->
  strip_top_level_usage_member (object_text o)
  = match verdict (usage_spans (S (length (o_lead o))) (o_members o)) with
    | Some (Some range) =>
        let '(cut_start, cut_end) := cut_range (object_text o) (length (o_lead o)) range.1 range.2 in
        Some (take cut_start (object_text o) ++ drop cut_end (object_text o))
    | _ => None
    end.
Proof.
  intros Hok. unfold strip_top_level_usage_member.
  assert (Hat : at_ (object_text o) 0 (o_lead o ++ OPEN :: inside o ++ CLOSE :: o_trail o)) by done.
  rewrite (skip_ws_at _ _ _ _ _ Hat (oo_lead _ Hok) eq_refl). apply at_skip in Hat.
  rewrite (at_lookup _ _ _ _ Hat). rewrite bool_decide_eq_true_2 by done. cbn [Nat.add].
  rewrite (scan_object o Hok). by destruct (verdict _) as [[r|]|].
Qed.

Lemma inside_members lead pad ms1 m ms2 trail :
  inside (mkObject lead pad ((ms1 ++ [m]) ++ ms2) trail) = members_text ((ms1 ++ [m]) ++ ms2).
Proof. unfold inside. simpl. by destruct ms1. Qed.

Lemma cut_middle (a m r l : bytes) i j :
  l = a ++ m ++ r -> i = length a -> j = (length a + length m)%nat -> take i l ++ drop j l = a ++ r.
Proof.
  intros -> -> ->. rewrite take_app_length. f_equal. rewrite <- length_app, (assoc_L (++)). apply drop_app_length.
Qed.

(** The one member cut, and what is left. *)
Lemma cut_one o ms1 u ms2 :
  object_ok o -> o_members o = ms1 ++ u :: ms2 ->
  let start := (S (length (o_lead o)) + length (concat (map (fun m => member_text m ++ [COMMA]) ms1)) + length (m_before u))%nat in
  exists o', object_ok o' /\ content <$> o_members o' = content <$> (ms1 ++ ms2)
    /\ o_lead o' = o_lead o /\ o_trail o' = o_trail o
    /\ (let '(cut_start, cut_end) := cut_range (object_text o) (length (o_lead o)) start (start + length (body u)) in
        take cut_start (object_text o) ++ drop cut_end (object_text o)) = object_text o'.
Proof.
  intros [Hlead Hpad Hms] Ems. cbv zeta. rewrite Ems in Hms. apply Forall_app in Hms as [Hms1 Hms2].
  apply Forall_cons in Hms2 as [Hu Hms2]. pose proof (mo_before _ Hu) as Hb. pose proof (mo_after _ Hu) as Ha.
  assert (Hin : inside o = members_text (o_members o)) by (unfold inside; rewrite Ems; by destruct ms1).
  assert (Hl : object_text o = o_lead o ++ OPEN :: members_text (ms1 ++ u :: ms2) ++ CLOSE :: o_trail o)
    by (unfold object_text; by rewrite Hin, Ems).
  destruct ms1 as [|p ms1 _] using rev_ind.
  - cbn [app] in *. cbn [map concat length]. rewrite Nat.add_0_r.
    replace (S (length (o_lead o)) + length (m_before u))%nat with (length (o_lead o) + 1 + length (m_before u))%nat by lia.
    assert (Hfront : length (o_lead o ++ OPEN :: m_before u) = (length (o_lead o) + 1 + length (m_before u))%nat)
      by (rewrite length_app; simpl; lia).
    destruct ms2 as [|n ms2].
    + exists (mkObject (o_lead o) (m_before u ++ m_after u) [] (o_trail o)).
      split_and!; [split; [done|by apply Forall_app|done]|done..|].
      assert (Hl' : object_text o = o_lead o ++ OPEN :: m_before u ++ body u ++ m_after u ++ CLOSE :: o_trail o)
        by (rewrite Hl; cbn [members_text]; unfold member_text; by rewrite <- !(assoc_L (++))).
      rewrite Hl', cut_at_front by done. change (CLOSE =? COMMA) with false. cbn iota.
      rewrite (cut_middle (o_lead o ++ OPEN :: m_before u) (body u) (m_after u ++ CLOSE :: o_trail o)).
      * unfold object_text, inside. simpl. by rewrite <- !(assoc_L (++)).
      * by rewrite <- !(assoc_L (++)).
      * by rewrite Hfront.
      * by rewrite Hfront.
    + apply Forall_cons in Hms2 as [Hn Hms2].
      exists (mkObject (o_lead o) (o_pad o) (pad_before (m_before u) n :: ms2) (o_trail o)).
      split_and!; [split; [done..|]|done..|].
      { constructor; [|done]. destruct Hn. split; try done. by apply Forall_app. }
      assert (Hl' : object_text o = o_lead o ++ OPEN :: m_before u ++ body u ++ m_after u
                                      ++ COMMA :: members_text (n :: ms2) ++ CLOSE :: o_trail o).
      { rewrite Hl. change (members_text (u :: n :: ms2)) with (member_text u ++ COMMA :: members_text (n :: ms2)).
        unfold member_text at 1. by rewrite <- !(assoc_L (++)). }
      rewrite Hl', cut_at_front by done. change (COMMA =? COMMA) with true. cbn iota.
      rewrite (cut_middle (o_lead o ++ OPEN :: m_before u) (body u ++ m_after u ++ [COMMA])
                 (members_text (n :: ms2) ++ CLOSE :: o_trail o)).
      * unfold object_text, inside. cbn [o_lead o_members o_trail]. rewrite text_pad_before. by rewrite <- !(assoc_L (++)).
      * by rewrite <- !(assoc_L (++)).
      * by rewrite Hfront.
      * rewrite Hfront, !length_app. simpl. lia.
  - set (pre := o_lead o ++ OPEN :: members_text (ms1 ++ [p])).
    apply Forall_app in Hms1 as [Hms1 Hp]. apply Forall_cons in Hp as [Hp _].
    set (rest := m_after u ++ match ms2 with [] => [] | _ => COMMA :: members_text ms2 end ++ CLOSE :: o_trail o).
    assert (Hl' : object_text o = pre ++ [COMMA] ++ m_before u ++ body u ++ rest).
    { rewrite Hl, members_text_app by (done || by destruct ms1). unfold pre, rest.
      destruct ms2 as [|n ms2]; [|change (members_text (u :: n :: ms2)) with (member_text u ++ COMMA :: members_text (n :: ms2))];
        cbn [members_text]; unfold member_text at 1; by rewrite <- ?(assoc_L (++)); simpl; rewrite <- ?(assoc_L (++)). }
    assert (Hstart : (S (length (o_lead o)) + length (concat (map (fun m => member_text m ++ [COMMA]) (ms1 ++ [p])))
                      + length (m_before u))%nat = length (pre ++ [COMMA] ++ m_before u)).
    { rewrite members_text_length by (by destruct ms1). unfold pre. rewrite !length_app. simpl. rewrite ?length_app. lia. }
    rewrite Hstart, Hl', cut_after_comma; [|done|unfold pre; rewrite length_app; simpl; lia].
    exists (mkObject (o_lead o) (o_pad o) (ms1 ++ pad_after (m_after u) p :: ms2) (o_trail o)). cbn [o_lead o_members o_trail].
    split_and!; [split; [done..|]| |done..|].
    { apply Forall_app. split; [done|]. constructor; [|done]. destruct Hp. split; try done. by apply Forall_app. }
    { rewrite <- (assoc_L (++)), !fmap_app. done. }
    rewrite (cut_middle pre ([COMMA] ++ m_before u ++ body u) rest).
    + unfold object_text. cbn [o_lead o_trail]. rewrite (cons_middle (pad_after (m_after u) p) ms1 ms2), (assoc_L (++) ms1), inside_members.
      unfold pre, rest. destruct ms2 as [|n ms2].
      * rewrite app_nil_r, text_pad_after. simpl. by rewrite <- !(assoc_L (++)).
      * rewrite (members_text_app (ms1 ++ [_]) (n :: ms2)), text_pad_after by (done || by destruct ms1). simpl. by rewrite <- !(assoc_L (++)).
    + by rewrite <- !(assoc_L (++)).
    + done.
    + rewrite !length_app. simpl. lia.
Qed.

Lemma filter_all_but ms : filter (fun m => is_usage m = true) ms = [] -> filter (fun m => is_usage m <> true) ms = ms.
Proof.
  induction ms as [|m ms IH]; [done|]. rewrite !filter_cons. intros E. repeat case_decide; try done. by rewrite IH.
Qed.

(** C13. A client that asked for no usage is sent the chunk it would have got from the backend without it:
    on any text of a JSON object - white space anywhere, nested values, strings with escapes, brackets and
    the word usage inside values - the scanner finds the top-level usage member when there is exactly one
    and cuts it out with one comma; what is left is again an object's text, whose members are the others,
    each with its bytes, in order. With no such member, or with two, it declines. *)
Theorem the_usage_member_is_cut_out o :
  object_ok o ->
  match filter (fun m => is_usage m = true) (o_members o) with
  | [_] => exists o', object_ok o' /\ strip_top_level_usage_member (object_text o) = Some (object_text o')
                      /\ content <$> o_members o' = content <$> filter (fun m => is_usage m <> true) (o_members o)
                      /\ o_lead o' = o_lead o /\ o_trail o' = o_trail o
  | _ => strip_top_level_usage_member (object_text o) = None
  end.
Proof.
  intros Hok. rewrite (strip_reaches_the_cut o Hok).
  pose proof (usage_spans_length (S (length (o_lead o))) (o_members o)) as Hlen.
  destruct (filter (fun m => is_usage m = true) (o_members o)) as [|u [|u' us]] eqn:E.
  - by destruct (usage_spans _ _).
  - destruct (one_usage _ _ E) as (ms1 & ms2 & Ems & Hu & F1 & F2).
    rewrite Ems, usage_spans_app, (usage_spans_none _ _ F1). cbn [app usage_spans]. rewrite Hu, (usage_spans_none _ _ F2).
    cbn [app verdict]. destruct (cut_one o ms1 u ms2 Hok Ems) as (o' & Hok' & Hc & Hl & Ht & Hcut).
    exists o'. cbv zeta in Hcut. unfold span. cbn [fst snd].
    destruct (cut_range _ _ _ _) as [cut_start cut_end]. rewrite Hcut.
    split_and!; try done. rewrite Hc, filter_app, filter_cons_False by (intros Hn; by apply Hn).
    by rewrite !filter_all_but.
  - destruct (usage_spans _ _) as [|s1 [|s2 ss]]; simplify_eq/=; done.
Qed.

(** [{ "id":"x{" , "usage": {"p":1},"b":2}] *)
Definition quoted (s : string) : bytes := [QUOTE] ++ str s ++ [QUOTE].

Definition demo_object : ObjectText :=
  mkObject [] []
    [mkMember [32] (quoted "id") [] [] (quoted "x{") [32];
     mkMember [32] (quoted "usage") [] [32] (OPEN :: (quoted "p" ++ [COLON; 49]) ++ [CLOSE]) [];
     mkMember [] (quoted "b") [] [] [50] []] [].

Lemma quoted_text s : forallb (fun b => negb (b =? QUOTE) && negb (b =? BACKSLASH)) (str s) = true -> string_text (quoted s).
Proof.
  intros H. exists (str s). split; [|done]. revert H. generalize (str s). intros l. induction l as [|b l IH]; intros H; [constructor|].
  simpl in H. apply andb_true_iff in H as [[Hq Hb]%andb_true_iff Hl]. apply negb_true_iff, Z.eqb_neq in Hq, Hb.
  constructor; [done..|by apply IH].
Qed.

Lemma demo_object_ok : object_ok demo_object.
Proof.
  assert (Hone : forall b, is_ascii_whitespace b = true -> spaces [b]) by (intros b Hb; by repeat constructor).
  split; [constructor|constructor|]. repeat apply Forall_cons_2; [..|constructor]; split; cbn [m_before m_key m_mid m_gap m_value m_after];
    try (by apply quoted_text); try (by apply Hone); try (by constructor).
  - apply value_string. by apply quoted_text.
  - apply value_bracket; [done..|]. apply balanced_string; [by apply quoted_text|]. by repeat (apply balanced_byte; [done..|]); constructor.
  - apply value_scalar; [done..|]. by repeat constructor.
Qed.

Lemma the_usage_member_is_cut_out_witness :
  object_ok demo_object
  /\ (exists o', strip_top_level_usage_member (object_text demo_object) = Some (object_text o')
                 /\ length (o_members o') = 2%nat)
  /\ strip_top_level_usage_member (object_text demo_object)
     = Some ([OPEN; 32] ++ quoted "id" ++ [COLON] ++ quoted "x{" ++ [32; COMMA] ++ quoted "b" ++ [COLON; 50; CLOSE]).
Proof.
  split; [exact demo_object_ok|]. split; [|vm_compute; reflexivity].
  destruct (the_usage_member_is_cut_out demo_object demo_object_ok) as (o' & _ & Hs & Hc & _).
  exists o'. split; [exact Hs|]. apply (f_equal length) in Hc. rewrite !length_fmap in Hc. exact Hc.
Defined.
