(* ===== verification/RequestBody.v ===== *)
(** * RequestBody: what of a request's body goes upstream
      (json.rs, proxy/lazy_body.rs, proxy/wire.rs, proxy/engine/mod.rs)

    The guard on nesting, the body parsed only as far as its top-level keys, the one seam that shapes a
    request for a lane, and the usage option forced on a stream.  The JSON library, the operation's
    codecs and the preparation of the intermediate form are parameters. *)

From stdpp Require Import sorting.
From S2P Require Import Prelude Json HookProjection Ir EgressPrep Bytes UsageStrip.

#[local] Open Scope Z_scope.

(** ** Nesting (json.rs) *)

Definition MAX_JSON_DEPTH : nat := 128.

Fixpoint depth_scan (depth : nat) (in_string escaped : bool) (l : bytes) (max : nat) : bool :=
  match l with
  | [] => false
  | b :: l =>
      if in_string then
        if escaped then depth_scan depth true false l max
        else if b =? BACKSLASH then depth_scan depth true true l max
        else depth_scan depth (negb (b =? QUOTE)) false l max
      else if b =? QUOTE then depth_scan depth true escaped l max
      else if opens b then if (max <? S depth)%nat then true else depth_scan (S depth) false escaped l max
      else if closes b then depth_scan (pred depth) false escaped l max
      else depth_scan depth false escaped l max
  end.

Definition exceeds_max_depth (l : bytes) (max : nat) : bool := depth_scan 0 false false l max.

(** A parsed text: an object's members as they stand, repeats included, or another value. *)
Inductive Parsed := PMembers (ms : list (string * Value)) | POther (v : Value).

(** The parser and the printer. *)
Class JsonLib := {
  from_slice : bytes -> option Parsed;
  to_vec : Value -> option bytes;
}.

Section body.
Context `{JsonLib}.

Definition json_parse (l : bytes) : option Parsed :=
  if exceeds_max_depth l MAX_JSON_DEPTH then None else from_slice l.

(** [map.insert] of each member in turn: the last of a key stays. *)
Definition collect_members (keep : string -> bool) (ms : list (string * Value)) : list (string * Value) :=
  foldl (fun acc p => if keep p.1 then set_field p.1 p.2 acc else acc) [] ms.

Definition dom (p : Parsed) : Value :=
  match p with PMembers ms => Object (collect_members (fun _ => true) ms) | POther v => v end.

(** ** Writers (proto/mod.rs, proto/gemini/writer.rs, proto/bedrock/writer.rs) *)

Record Writer := mkWriter {
  has_model_in_url : bool;
  writes_model : bool;
  array_stream_shim_key : option string;
  requires_max_tokens : bool;
  cache_markers_model_gated : bool;
  max_cache_control_breakpoints : option nat;
}.

Definition GEMINI_JSON_ARRAY_SHIM_KEY : string := "__busbar_gemini_json_array".
Definition KNOWN_PROTOCOLS : list string :=
  ["anthropic"; PROTO_OPENAI; PROTO_GEMINI; PROTO_BEDROCK; PROTO_RESPONSES; PROTO_COHERE].

Definition plain_writer : Writer := mkWriter false true None false false None.

Definition writer_for (name : string) : option Writer :=
  if String.eqb name PROTO_GEMINI then Some (mkWriter true true (Some GEMINI_JSON_ARRAY_SHIM_KEY) false false None)
  else if String.eqb name PROTO_BEDROCK then Some (mkWriter true false None false true None)
  else if String.eqb name PROTO_ANTHROPIC then Some (mkWriter false true None true false (Some 4%nat))
  else if bool_decide (name ∈ [PROTO_OPENAI; PROTO_RESPONSES; PROTO_COHERE]) then Some plain_writer
  else None.

(** [v.sort_unstable(); v.dedup();] *)
Definition string_le (a b : string) : Prop := String.leb a b = true.

#[export] Instance string_le_dec : RelDecision string_le.
Proof. intros a b. unfold string_le. apply _. Defined.

Fixpoint dedup_sorted (l : list string) : list string :=
  match l with
  | a :: ((b :: _) as l') => if String.eqb a b then dedup_sorted l' else a :: dedup_sorted l'
  | _ => l
  end.

Definition sort_dedup (l : list string) : list string := dedup_sorted (merge_sort string_le l).

Definition array_stream_shim_keys : list string :=
  sort_dedup (omap (fun n => writer_for n ≫= array_stream_shim_key) KNOWN_PROTOCOLS).

(** ** The head of a body (proxy/lazy_body.rs) *)

Definition captured_head_keys : list string :=
  sort_dedup (["model"; "stream"; "stream_options"; "system"] ++ array_stream_shim_keys).

Definition captured (k : string) : bool := bool_decide (k ∈ captured_head_keys).

Definition head_of (p : Parsed) : Value :=
  match p with PMembers ms => Object (collect_members captured ms) | POther _ => Null end.

Inductive LazyBody := Head (bs : bytes) (head : Value) | Dom (v : Value).

Definition LazyBody_parse (bs : bytes) : option LazyBody := Head bs ∘ head_of <$> json_parse bs.

Definition probe (l : LazyBody) : Value := match l with Head _ head => head | Dom v => v end.

(** The value and the body it leaves behind. *)
Definition ensure_dom (l : LazyBody) : option Value * LazyBody :=
  match l with
  | Dom v => (Some v, l)
  | Head bs _ => match json_parse bs with Some p => (Some (dom p), Dom (dom p)) | None => (None, l) end
  end.

Definition into_value (l : LazyBody) : option Value :=
  match l with Dom v => Some v | Head bs _ => dom <$> json_parse bs end.

(** ** Shaping (proxy/wire.rs) *)

(** Each reports whether the value changed. *)
Definition remove_key (k : string) (v : Value) : bool * Value :=
  match v with Object fs => (has_field k fs, Object (remove_field k fs)) | _ => (false, v) end.

Definition remove_keys (ks : list string) (v : Value) : bool * Value :=
  foldl (fun '(changed, v) k => let '(c, v) := remove_key k v in (changed || c, v)) (false, v) ks.

Definition model_in_url (name : string) : bool := default false (has_model_in_url <$> writer_for name).

Definition strip_router_shim_keys (v : Value) (egress_protocol : string) : bool * Value :=
  let '(changed, v) := remove_keys array_stream_shim_keys v in
  if model_in_url egress_protocol then let '(c, v) := remove_key "stream" v in (changed || c, v) else (changed, v).

Definition rewrite_model_if_needed (w : Writer) (v : Value) (model : string) : bool * Value :=
  match writes_model w, v with
  | true, Object fs =>
      if bool_decide (field_str "model" fs = Some model) then (false, v)
      else (true, Object (set_field "model" (Str model) fs))
  | _, _ => (false, v)
  end.

Definition strip_same_protocol_model_shim (v : Value) (ingress_protocol : string) : bool * Value :=
  if model_in_url ingress_protocol then remove_key "model" v else (false, v).

(** What shaping reads of a lane, [l_writer] being its protocol's. *)
Record BodyLane := mkBodyLane {
  l_protocol : string;
  l_writer : Writer;
  l_model : string;
  l_upstream_model : option string;
  l_path_base : option string;
  l_prompt_caching : bool;
  l_default_max_tokens : option Z;
}.

Definition wire_model (l : BodyLane) : string := default (l_model l) (l_upstream_model l).

(** Claude on Vertex: the model rides the URL, the version the body. *)
Definition vertex_anthropic (l : BodyLane) : bool :=
  bool_decide (is_Some (l_path_base l)) && String.eqb (l_protocol l) PROTO_ANTHROPIC.

Definition vertex_body (l : BodyLane) (v : Value) : bool * Value :=
  match vertex_anthropic l, v with
  | true, Object fs => (true, Object (set_field "anthropic_version" (Str "vertex-2023-10-16") (remove_field "model" fs)))
  | _, _ => (false, v)
  end.

(** The steps every body goes through, and whether any changed it. *)
Definition finish_shape (l : BodyLane) (ingress_protocol : string) (v : Value) : bool * Value :=
  let '(c1, v) := strip_router_shim_keys v (l_protocol l) in
  let '(c2, v) := rewrite_model_if_needed (l_writer l) v (wire_model l) in
  let '(c3, v) := vertex_body l v in
  let '(c4, v) := if String.eqb ingress_protocol (l_protocol l) then strip_same_protocol_model_shim v ingress_protocol
                  else (false, v) in
  (c1 || c2 || c3 || c4, v).

(** An operation's handler for one protocol. *)
Record OperationHandler (IR Reject : Type) := mkHandler {
  read_request : bytes -> string -> IR + Reject;
  read_request_value : Value -> IR + Reject;
  write_request_value : IR -> option Value;
  write_request : IR -> bytes;
}.
Arguments read_request {_ _}.
Arguments read_request_value {_ _}.
Arguments write_request_value {_ _}.
Arguments write_request {_ _}.

Inductive ShapeError (Reject : Type) :=
  | NotFoundEndpoint
  | NotFoundModel
  | UnknownIngress
  | Rejected (r : Reject)
  | NotSerialized.
Arguments NotFoundEndpoint {_}.
Arguments NotFoundModel {_}.
Arguments UnknownIngress {_}.
Arguments Rejected {_}.
Arguments NotSerialized {_}.

Section shaping.
Context {IR Reject : Type}.
Context (operation_handler : string -> option (OperationHandler IR Reject)).
Context (prepare_for_egress : EgressPrep -> IR -> IR) (set_model : string -> IR -> IR).
Context (global_default_max_tokens : Z) (reasoning_effort_budgets : Budgets).

Definition egress_prep (l : BodyLane) (ingress_protocol : string) (reasoning_allowed : bool) : EgressPrep :=
  mkPrep ingress_protocol (requires_max_tokens (l_writer l)) (l_default_max_tokens l) global_default_max_tokens
    reasoning_allowed reasoning_effort_budgets (l_prompt_caching l || negb (cache_markers_model_gated (l_writer l)))
    (max_cache_control_breakpoints (l_writer l))
    (String.eqb (l_protocol l) PROTO_GEMINI && bool_decide (l_path_base l = None)).

(** A body that is not JSON. *)
Definition translate_opaque (l : BodyLane) (ingress_protocol content_type : string) (reasoning_allowed : bool)
    (hop_bytes : bytes) : bytes + ShapeError Reject :=
  if negb (String.eqb ingress_protocol (l_protocol l)) then
    match operation_handler ingress_protocol, operation_handler (l_protocol l) with
    | Some ih, Some eh =>
        match read_request ih hop_bytes content_type with
        | inl ir =>
            inl (write_request eh
              (set_model (wire_model l) (prepare_for_egress (egress_prep l ingress_protocol reasoning_allowed) ir)))
        | inr r => inr (Rejected r)
        end
    | _, _ => inr NotFoundModel
    end
  else inl hop_bytes.

(** Another protocol's body: rebuilt, or, when the egress wire is not JSON, already in bytes. *)
Definition rebuild (l : BodyLane) (ingress_protocol : string) (reasoning_allowed : bool) (v : Value)
    : (Value + bytes) + ShapeError Reject :=
  match writer_for ingress_protocol with
  | None => inr UnknownIngress
  | Some _ =>
      match operation_handler ingress_protocol with
      | None => inr NotFoundEndpoint
      | Some ih =>
          match read_request_value ih v with
          | inr r => inr (Rejected r)
          | inl ir =>
              let ir := prepare_for_egress (egress_prep l ingress_protocol reasoning_allowed) ir in
              match operation_handler (l_protocol l) with
              | None => inr NotFoundModel
              | Some eh =>
                  match write_request_value eh ir with
                  | Some written => inl (inl written)
                  | None => inl (inr (write_request eh (set_model (wire_model l) ir)))
                  end
              end
          end
      end
  end.

Definition serialize (v : Value) : bytes + ShapeError Reject :=
  match to_vec v with Some b => inl b | None => inr NotSerialized end.

Definition translate_request_cross_protocol (l : BodyLane) (ingress_protocol : string) (body : option Value)
    (content_type : string) (reasoning_allowed : bool) (hop_bytes : bytes) : bytes + ShapeError Reject :=
  match body with
  | None => translate_opaque l ingress_protocol content_type reasoning_allowed hop_bytes
  | Some v =>
      if String.eqb ingress_protocol (l_protocol l) then
        let '(changed, v) := finish_shape l ingress_protocol v in
        if changed then serialize v else inl hop_bytes
      else
        match rebuild l ingress_protocol reasoning_allowed v with
        | inr e => inr e
        | inl (inr b) => inl b
        | inl (inl v) => serialize (finish_shape l ingress_protocol v).2
        end
  end.

(** The same conclusion from the head alone (proxy/lazy_body.rs). *)
Definition head_provably_pristine (l : BodyLane) (probe : Value) : bool :=
  match probe with
  | Object obj =>
      negb (existsb (fun k => has_field k obj) array_stream_shim_keys)
      && negb (has_model_in_url (l_writer l) && has_field "stream" obj)
      && bool_decide (field_str "model" obj = Some (wire_model l))
      && negb (vertex_anthropic l)
      && negb (has_model_in_url (l_writer l) && has_field "model" obj)
  | _ => true
  end.

(** ** A hop's payload (proxy/engine/mod.rs) *)

(** [None] is a body that no longer parses.  [carried] is the first hop's body; later hops parse again. *)
Definition hop_payload (l : BodyLane) (ingress_protocol : string) (body_is_json : bool) (carried : option LazyBody)
    (content_type : string) (reasoning_allowed : bool) (body : bytes) : option (bytes + ShapeError Reject) :=
  if String.eqb ingress_protocol (l_protocol l)
     && match carried with Some lz => head_provably_pristine l (probe lz) | None => false end
  then Some (inl body)
  else if negb body_is_json
  then Some (translate_request_cross_protocol l ingress_protocol None content_type reasoning_allowed body)
  else match match carried with Some lz => into_value lz | None => dom <$> json_parse body end with
       | Some v => Some (translate_request_cross_protocol l ingress_protocol (Some v) content_type reasoning_allowed body)
       | None => None
       end.
End shaping.

(** ** The usage option of a stream (proxy/engine/mod.rs) *)

Definition usage_options : Value := Object [("include_usage", Bool true)].

Definition inject_openai_stream_include_usage (payload : bytes) : bytes :=
  match dom <$> json_parse payload with
  | Some (Object obj) =>
      match default (Object []) (field "stream_options" obj) with
      | Object so =>
          default payload (to_vec (Object (set_field "stream_options" (Object (set_field "include_usage" (Bool true) so)) obj)))
      | _ => payload
      end
  | _ => payload
  end.

Fixpoint contains_subslice (haystack needle : bytes) : bool :=
  starts_with needle haystack || match haystack with [] => false | _ :: l => contains_subslice l needle end.

Definition quoted (k : string) : bytes := QUOTE :: str k ++ [QUOTE].

Definition INSERT : bytes :=
  quoted "stream_options" ++ COLON :: 123 :: quoted "include_usage" ++ COLON :: str "true" ++ [125; COMMA].

Definition inject_openai_stream_include_usage_pristine (payload : bytes) : bytes :=
  if contains_subslice payload (quoted "stream_options") then inject_openai_stream_include_usage payload
  else
    let i := skip_ws payload 0 in
    if bool_decide (payload !! i = Some 123) && bool_decide (payload !! skip_ws payload (S i) = Some QUOTE)
    then take (S i) payload ++ INSERT ++ drop (S i) payload
    else inject_openai_stream_include_usage payload.

(** What the client said about usage is read before any hook rewrites the body. *)
Definition wants_stream (v : Value) : bool := default false (get "stream" v ≫= as_bool).
Definition body_affinity_key (v : Value) : option string := nonempty (get "system" v ≫= as_str).
Definition client_include_usage (stream : bool) (probe : Value) : bool :=
  stream && default false (pointer ["stream_options"; "include_usage"] probe ≫= as_bool).
Definition client_has_stream_options (stream : bool) (probe : Value) : bool :=
  stream && bool_decide (is_Some (get "stream_options" probe)).

Definition with_usage_option (l : BodyLane) (stream body_is_json include_usage has_stream_options : bool) (payload : bytes)
    : bytes :=
  if stream && body_is_json && String.eqb (l_protocol l) PROTO_OPENAI && negb include_usage then
    if has_stream_options then inject_openai_stream_include_usage payload
    else inject_openai_stream_include_usage_pristine payload
  else payload.
End body.

(** * the body a backend gets

    The unparsed path sends the bytes the parsed one would; a request in its own protocol keeps every
    member the router does not own; the nesting guard is exact; the usage option is spliced in. *)


(** ** Nesting *)

(** Text in which every bracket and string is closed, and how deep it nests. *)
Inductive nested : nat -> bytes -> Prop :=
  | nested_nil : nested 0 []
  | nested_byte d b l : b <> QUOTE -> opens b = false -> closes b = false -> nested d l -> nested d (b :: l)
  | nested_string d s l : string_text s -> nested d l -> nested d (s ++ l)
  | nested_bracket d1 d2 o m c l :
      opens o = true -> closes c = true -> nested d1 m -> nested d2 l -> nested (S d1 `max` d2) (o :: m ++ c :: l).

Lemma scan_chars cs : chars cs -> forall depth l max,
  depth_scan depth true false (cs ++ QUOTE :: l) max = depth_scan depth false false l max.
Proof.
  induction 1 as [|b cs Hq Hb _ IH|b cs _ IH]; intros depth l max; [done| |]; cbn [app depth_scan].
  - apply Z.eqb_neq in Hq as ->, Hb as ->. apply IH.
  - apply IH.
Qed.

Lemma scan_quoted s : string_text s -> forall depth l max,
  depth_scan depth false false (s ++ l) max = depth_scan depth false false l max.
Proof.
  intros (cs & Hcs & ->) depth l max. cbn [app]. rewrite <- (assoc_L (++)). cbn [app depth_scan].
  change (QUOTE =? QUOTE) with true. cbn iota. by apply scan_chars.
Qed.

Lemma scan_nested d t : nested d t -> forall depth l max,
  depth_scan depth false false (t ++ l) max
  = ((max <? depth + d)%nat && negb (d =? 0)%nat) || depth_scan depth false false l max.
Proof.
  induction 1 as [|d b t Hq Ho Hc _ IH|d s t Hs _ IH|d1 d2 o m c t Ho Hc _ IH1 _ IH2]; intros depth l max.
  - by rewrite andb_false_r.
  - cbn [app depth_scan]. apply Z.eqb_neq in Hq as ->. rewrite Ho, Hc. apply IH.
  - rewrite <- (assoc_L (++)), scan_quoted by done. apply IH.
  - cbn [app depth_scan]. destruct (opens_other o Ho) as (-> & _). rewrite Ho. rewrite <- (assoc_L (++)), IH1.
    destruct (closes_other c Hc) as (Cq & Co & _). cbn [app depth_scan]. rewrite Cq, Co, Hc. cbn [pred]. rewrite IH2.
    destruct (Nat.ltb_spec max (S depth)) as [H1|H1].
    + cbn [orb]. symmetry. rewrite (proj2 (Nat.ltb_lt max _)) by lia. by destruct d1, d2.
    + destruct (Nat.ltb_spec max (S depth + d1)), (Nat.ltb_spec max (depth + d2)), (Nat.ltb_spec max (depth + (S d1 `max` d2)));
        destruct d1, d2; cbn [Nat.eqb negb andb orb]; try done; try lia; by rewrite ?orb_true_r.
Qed.

(** C33. The nesting guard is exact.  On text whose brackets and strings are closed, whatever its strings
    hold, the scan rejects exactly what nests deeper than the limit: nothing deeper reaches the parser,
    and nothing within the limit is turned away. *)
Theorem the_depth_guard_is_exact (d max : nat) (t : bytes) :
  nested d t -> exceeds_max_depth t max = (max <? d)%nat.
Proof.
  intros Hn. unfold exceeds_max_depth. rewrite <- (app_nil_r t), (scan_nested d t Hn). cbn [depth_scan Nat.add]. rewrite orb_false_r.
  destruct (Nat.ltb_spec max d); [|done]. by destruct d; [lia|].
Qed.

(** ** The head and the whole *)

Lemma field_collect keep k ms acc :
  keep k = true -> field k (foldl (fun acc p => if keep p.1 then set_field p.1 p.2 acc else acc) acc ms)
                   = field k (foldl (fun acc p => set_field p.1 p.2 acc) acc ms).
Proof.
  intros Hk. revert acc. assert (Hgen : forall acc acc', field k acc = field k acc' ->
    field k (foldl (fun acc p => if keep p.1 then set_field p.1 p.2 acc else acc) acc ms)
    = field k (foldl (fun acc p => set_field p.1 p.2 acc) acc' ms)).
  { induction ms as [|[k' v] ms IH]; intros acc acc' He; [exact He|]. apply IH. cbn [fst snd].
    destruct (decide (k' = k)) as [->|Hne]; [by rewrite Hk, !field_set_eq|].
    destruct (keep k'); by rewrite ?(field_set_ne k' k) by done. }
  intros acc. by apply Hgen.
Qed.

Lemma head_agrees p k : captured k = true -> (forall v, p = POther v -> as_object v = None) -> get k (head_of p) = get k (dom p).
Proof.
  intros Hk Hp. destruct p as [ms|v]; [by apply field_collect|]. specialize (Hp v eq_refl). by destruct v.
Qed.

Lemma shim_keys : array_stream_shim_keys = [GEMINI_JSON_ARRAY_SHIM_KEY].
Proof. vm_compute. reflexivity. Qed.

(** A lane has the writer its protocol is registered with. *)
Definition lane_ok (l : BodyLane) : Prop := writer_for (l_protocol l) = Some (l_writer l).

Lemma remove_absent k fs : has_field k fs = false -> remove_field k fs = fs.
Proof.
  unfold has_field. induction fs as [|[k' v] fs IH]; intros Hk; [done|]. unfold remove_field in *. cbn [List.filter field fst] in *.
  destruct (String.eqb k' k); [done|]. cbn [negb fst]. f_equal. by apply IH.
Qed.

(** What the backend reads under a key. *)
Definition sent_field (l : BodyLane) (fs : list (string * Value)) (k : string) : option Value :=
  if bool_decide (k ∈ array_stream_shim_keys) then None
  else if has_model_in_url (l_writer l) && (String.eqb k "stream" || String.eqb k "model") then None
  else if vertex_anthropic l && String.eqb k "model" then None
  else if vertex_anthropic l && String.eqb k "anthropic_version" then Some (Str "vertex-2023-10-16")
  else if writes_model (l_writer l) && String.eqb k "model" then Some (Str (wire_model l))
  else field k fs.

(** A step on an object's members: what is read after it, and that it says when nothing changed. *)
Definition edits (f : string -> option Value -> option Value) (step : Value -> bool * Value) : Prop :=
  forall fs, exists c fs', step (Object fs) = (c, Object fs') /\ (forall k, field k fs' = f k (field k fs)) /\ (c = false -> fs' = fs).

Definition without (k : string) : string -> option Value -> option Value :=
  fun k' o => if String.eqb k k' then None else o.
Definition setting (k : string) (v : Value) : string -> option Value -> option Value :=
  fun k' o => if String.eqb k k' then Some v else o.

Lemma keeps : edits (fun _ o => o) (fun v => (false, v)).
Proof. intros fs. by exists false, fs. Qed.

Lemma remove_key_edits k : edits (without k) (remove_key k).
Proof.
  intros fs. exists (has_field k fs), (remove_field k fs). split; [done|]. split; [|apply remove_absent].
  intros k'. apply field_remove.
Qed.

Lemma then_edits f g s t :
  edits f s -> edits g t -> edits (fun k o => g k (f k o)) (fun v => let '(c, v) := s v in let '(c', v) := t v in (c || c', v)).
Proof.
  intros Hs Ht fs. destruct (Hs fs) as (c & fs1 & E1 & L1 & N1). destruct (Ht fs1) as (c' & fs2 & E2 & L2 & N2).
  exists (c || c'), fs2. rewrite E1, E2. split; [done|]. split; [intros k; by rewrite L2, L1|].
  intros [-> ->]%orb_false_iff. by rewrite N2, N1.
Qed.

Lemma if_edits (b : bool) f g s t : edits f s -> edits g t -> edits (if b then f else g) (if b then s else t).
Proof. by destruct b. Qed.

Lemma strip_shims_edits p :
  edits (fun k o => if model_in_url p then without "stream" k (without GEMINI_JSON_ARRAY_SHIM_KEY k o)
                    else without GEMINI_JSON_ARRAY_SHIM_KEY k o) (fun v => strip_router_shim_keys v p).
Proof.
  intros fs. unfold strip_router_shim_keys. rewrite shim_keys. cbn [remove_keys foldl].
  destruct (remove_key_edits GEMINI_JSON_ARRAY_SHIM_KEY fs) as (c & fs1 & E1 & L1 & N1). rewrite E1. cbn [orb].
  destruct (model_in_url p); [|by exists c, fs1].
  destruct (remove_key_edits "stream" fs1) as (c' & fs2 & E2 & L2 & N2). rewrite E2.
  exists (c || c'), fs2. split; [done|]. split; [intros k; by rewrite L2, L1|].
  intros [-> ->]%orb_false_iff. by rewrite N2, N1.
Qed.

Lemma rewrite_model_edits w m :
  edits (if writes_model w then setting "model" (Str m) else fun _ o => o) (fun v => rewrite_model_if_needed w v m).
Proof.
  intros fs. unfold rewrite_model_if_needed. destruct (writes_model w); [|by exists false, fs].
  case_bool_decide as Hm; [|exists true, (set_field "model" (Str m) fs); split; [done|]; split; [intros k; apply field_set|done]].
  exists false, fs. split; [done|]. split; [|done]. intros k. unfold setting. destruct (String.eqb_spec "model" k) as [<-|]; [|done].
  unfold field_str in Hm. destruct (field "model" fs) as [v|]; [|done]. destruct v; try done. cbn in Hm. by simplify_eq.
Qed.

Lemma vertex_edits l :
  edits (if vertex_anthropic l then fun k o => setting "anthropic_version" (Str "vertex-2023-10-16") k (without "model" k o) else fun _ o => o)
    (vertex_body l).
Proof.
  intros fs. unfold vertex_body. destruct (vertex_anthropic l); [|by exists false, fs].
  eexists true, _. split; [done|]. split; [|done]. intros k. rewrite field_set, field_remove. done.
Qed.

Lemma model_shim_edits p :
  edits (if model_in_url p then without "model" else fun _ o => o) (fun v => strip_same_protocol_model_shim v p).
Proof. intros fs. unfold strip_same_protocol_model_shim. destruct (model_in_url p); [apply remove_key_edits|by exists false, fs]. Qed.

Lemma finish_shape_sends l fs :
  lane_ok l -> exists c fs', finish_shape l (l_protocol l) (Object fs) = (c, Object fs')
    /\ (forall k, field k fs' = sent_field l fs k) /\ (c = false -> fs' = fs).
Proof.
  intros Hok. assert (Hm : model_in_url (l_protocol l) = has_model_in_url (l_writer l)) by (unfold model_in_url; by rewrite Hok).
  unfold finish_shape. rewrite String.eqb_refl.
  destruct (strip_shims_edits (l_protocol l) fs) as (c1 & fs1 & -> & L1 & N1).
  destruct (rewrite_model_edits (l_writer l) (wire_model l) fs1) as (c2 & fs2 & -> & L2 & N2).
  destruct (vertex_edits l fs2) as (c3 & fs3 & -> & L3 & N3).
  destruct (model_shim_edits (l_protocol l) fs3) as (c4 & fs4 & -> & L4 & N4).
  eexists _, fs4. split; [done|]. split.
  - intros k. rewrite L4, L3, L2, L1, Hm. unfold sent_field, setting, without. rewrite shim_keys.
    destruct (String.eqb_spec GEMINI_JSON_ARRAY_SHIM_KEY k) as [<-|Hk].
    + rewrite bool_decide_true by (by apply list_elem_of_singleton).
      destruct (has_model_in_url (l_writer l)), (vertex_anthropic l), (writes_model (l_writer l)); done.
    + rewrite bool_decide_false by (rewrite list_elem_of_singleton; congruence).
      rewrite !(String.eqb_sym k).
      destruct (String.eqb_spec "stream" k) as [<-|Hs]; [|destruct (String.eqb_spec "model" k) as [<-|Hmo]];
      destruct (has_model_in_url (l_writer l)), (vertex_anthropic l), (writes_model (l_writer l)); try done;
        apply String.eqb_neq in Hmo; rewrite ?Hmo; by destruct (String.eqb "anthropic_version" k).
  - intros [[[E1 E2]%orb_false_iff E3]%orb_false_iff E4]%orb_false_iff. by rewrite N4, N3, N2, N1.
Qed.

(** A request in the lane's own protocol.  The backend gets either the client's bytes as they came
    or the printed value of an object, and what it reads under each key is then this: nothing under the
    router's own keys, nothing under model and stream where the protocol carries them in the URL, the
    lane's model under model where it does not (on Vertex none, and the API version), and under every
    other key what the client wrote. *)
Theorem a_request_in_its_own_protocol_is_kept `{JsonLib} {IR Reject} (ops : string -> option (OperationHandler IR Reject))
    prep set_model gmax budgets (l : BodyLane) (fs : list (string * Value)) ct reasoning hop_bytes :
  lane_ok l ->
  exists fs', (forall k, field k fs' = sent_field l fs k)
    /\ let out := translate_request_cross_protocol ops prep set_model gmax budgets l (l_protocol l) (Some (Object fs)) ct reasoning hop_bytes in
       (fs' = fs /\ out = inl hop_bytes) \/ out = serialize (Object fs').
Proof.
  intros Hok. destruct (finish_shape_sends l fs Hok) as (c & fs' & E & L & N). exists fs'. split; [exact L|].
  unfold translate_request_cross_protocol. rewrite String.eqb_refl, E. destruct c; [by right|]. left. by rewrite N.
Qed.

(** ** The unparsed path *)

Lemma captured_keys k :
  k ∈ ["model"; "stream"; "stream_options"; "system"; GEMINI_JSON_ARRAY_SHIM_KEY] -> captured k = true.
Proof.
  rewrite !elem_of_cons. intros Hk. repeat destruct Hk as [->|Hk]; [vm_compute; reflexivity..|by apply not_elem_of_nil in Hk].
Qed.

Lemma pristine_reads l fs1 fs2 :
  (forall k, captured k = true -> field k fs1 = field k fs2) ->
  head_provably_pristine l (Object fs1) = head_provably_pristine l (Object fs2).
Proof.
  intros Hf. assert (Hh : forall k, captured k = true -> has_field k fs1 = has_field k fs2) by (intros k Hk; unfold has_field; by rewrite Hf).
  unfold head_provably_pristine. rewrite shim_keys. cbn [existsb]. unfold field_str.
  assert (Hin : forall k, In k ["model"; "stream"; "stream_options"; "system"; GEMINI_JSON_ARRAY_SHIM_KEY] -> captured k = true)
    by (intros k Hk; by apply captured_keys, list_elem_of_In).
  rewrite (Hh GEMINI_JSON_ARRAY_SHIM_KEY), (Hh "stream"), (Hh "model"), (Hf "model") by (apply Hin; simpl; tauto). done.
Qed.

Lemma pristine_head l p :
  (forall v, p = POther v -> as_object v = None) ->
  head_provably_pristine l (head_of p) = head_provably_pristine l (dom p).
Proof.
  intros Hp. destruct p as [ms|v]; [by apply pristine_reads; intros k; apply field_collect|].
  specialize (Hp v eq_refl). by destruct v.
Qed.

Lemma pristine_unchanged l v :
  lane_ok l -> head_provably_pristine l v = true -> finish_shape l (l_protocol l) v = (false, v).
Proof.
  intros Hok Hp. assert (Hm : model_in_url (l_protocol l) = has_model_in_url (l_writer l)) by (unfold model_in_url; by rewrite Hok).
  unfold finish_shape, strip_router_shim_keys, rewrite_model_if_needed, vertex_body, strip_same_protocol_model_shim.
  rewrite String.eqb_refl, Hm, shim_keys. cbn [remove_keys foldl].
  destruct v as [| | | | |fs]; [by destruct (has_model_in_url _), (writes_model _), (vertex_anthropic _)..|].
  unfold head_provably_pristine in Hp. rewrite shim_keys in Hp. cbn [existsb] in Hp. rewrite orb_false_r in Hp.
  apply andb_true_iff in Hp as [[[[H1 H2]%andb_true_iff H3]%andb_true_iff H4]%andb_true_iff H5].
  apply negb_true_iff in H1, H2, H4, H5. apply bool_decide_eq_true in H3. cbn [remove_key]. rewrite H1, H4.
  assert (Hmod : has_field "model" fs = true) by (unfold has_field, field_str in *; by destruct (field "model" fs)).
  rewrite Hmod, andb_true_r in H5. rewrite H5 in *. rewrite (remove_absent _ _ H1). cbn [orb].
  rewrite bool_decide_true by exact H3. by destruct (writes_model (l_writer l)).
Qed.

(** C15. The body that is never parsed.  When the head scan of a body says that nothing in it needs
    changing for a lane, the bytes sent without building its value are those the parsed path would send,
    so the first hop and a later hop to the same lane agree; and every key the router reads early (model,
    stream, its options, the system prompt, the array shim) reads the same in the head as in the value. *)
Theorem the_unparsed_path_sends_the_same `{JsonLib} {IR Reject} (ops : string -> option (OperationHandler IR Reject))
    prep set_model gmax budgets (l : BodyLane) ingress (body : bytes) (lz : LazyBody) ct reasoning :
  (forall b v, from_slice b = Some (POther v) -> as_object v = None) ->
  lane_ok l -> LazyBody_parse body = Some lz ->
  hop_payload ops prep set_model gmax budgets l ingress true (Some lz) ct reasoning body
  = hop_payload ops prep set_model gmax budgets l ingress true None ct reasoning body
  /\ exists v, into_value lz = Some v /\ forall k, captured k = true -> get k (probe lz) = get k v.
Proof.
  intros Hlib Hok Hlz. unfold LazyBody_parse in Hlz. destruct (json_parse body) as [p|] eqn:Ep; [|done]. injection Hlz as <-.
  assert (Hp : forall v, p = POther v -> as_object v = None).
  { intros v ->. unfold json_parse in Ep. destruct (exceeds_max_depth _ _); [done|]. by eapply Hlib. }
  split; [|exists (dom p); cbn [into_value probe]; rewrite Ep; split; [done|intros k Hk; by apply head_agrees]].
  unfold hop_payload. cbn [probe into_value]. rewrite (pristine_head l p Hp), Ep, andb_false_r. cbn [negb fmap option_fmap option_map].
  destruct (String.eqb_spec ingress (l_protocol l)) as [->|]; [|done]. cbn [andb].
  destruct (head_provably_pristine l (dom p)) eqn:Eh; [|done].
  unfold translate_request_cross_protocol. by rewrite String.eqb_refl, pristine_unchanged.
Qed.

(** ** The usage option *)

Definition option_member : Member :=
  mkMember [] (quoted "stream_options") [] [] (OPEN :: quoted "include_usage" ++ COLON :: str "true" ++ [CLOSE]) [].

Definition with_option (o : ObjectText) : ObjectText := mkObject (o_lead o) (o_pad o) (option_member :: o_members o) (o_trail o).

Lemma chars_of_plain l : forallb (fun b => negb (b =? QUOTE) && negb (b =? BACKSLASH)) l = true -> chars l.
Proof.
  induction l as [|b l IH]; [constructor|]. cbn [forallb]. intros [[Hq Hb]%andb_true_iff Hl]%andb_true_iff.
  constructor; [by intros ->|by intros ->|by apply IH].
Qed.

Lemma quoted_key_text k : forallb (fun b => negb (b =? QUOTE) && negb (b =? BACKSLASH)) (str k) = true -> string_text (quoted k).
Proof. intros Hk. exists (str k). split; [by apply chars_of_plain|done]. Qed.

Lemma option_member_ok : member_ok option_member.
Proof.
  split; [constructor|by apply quoted_key_text|constructor|constructor| |constructor].
  apply (value_bracket OPEN (quoted "include_usage" ++ COLON :: str "true") CLOSE); [done..|].
  apply balanced_string; [by apply quoted_key_text|]. cbn. repeat (apply balanced_byte; [done..|]). constructor.
Qed.

Lemma object_text_with_option o m ms :
  o_members o = m :: ms ->
  object_text (with_option o) = o_lead o ++ OPEN :: INSERT ++ inside o ++ CLOSE :: o_trail o.
Proof.
  intros Hm. unfold object_text, inside, with_option. cbn [o_lead o_members o_trail members_text]. rewrite Hm.
  cbn [members_text]. by f_equal.
Qed.

(** The option that makes a stream billable.  A stream sent to a Chat Completions backend for a
    client that did not ask for usage, its body an object text with some member that does not hold the
    quoted name of the option: what is sent is that object with one member more, first, which asks for
    usage; every other byte stands as it was. *)
Theorem the_usage_option_is_spliced_in `{JsonLib} (l : BodyLane) (o : ObjectText) :
  l_protocol l = PROTO_OPENAI -> object_ok o -> o_members o <> [] ->
  contains_subslice (object_text o) (quoted "stream_options") = false ->
  with_usage_option l true true false false (object_text o) = object_text (with_option o) /\ object_ok (with_option o).
Proof.
  intros Hl Ho Hne Hc. destruct (o_members o) as [|m ms] eqn:Em; [done|]. split.
  2:{ destruct Ho as [Hlead Hpad Hms]. split; [done|done|]. cbn [o_members with_option]. constructor; [apply option_member_ok|done]. }
  unfold with_usage_option. rewrite Hl. cbn [andb negb String.eqb]. rewrite String.eqb_refl. cbn [andb].
  unfold inject_openai_stream_include_usage_pristine. rewrite Hc.
  assert (Hat : at_ (object_text o) 0 (o_lead o ++ OPEN :: inside o ++ CLOSE :: o_trail o)) by done.
  rewrite (skip_ws_at _ _ _ _ _ Hat (oo_lead _ Ho) eq_refl). set (i := (0 + length (o_lead o))%nat).
  apply at_skip in Hat. fold i in Hat. rewrite (at_lookup _ _ _ _ Hat), bool_decide_true by done. apply at_next in Hat as Hin.
  assert (Hm : member_ok m) by (pose proof (oo_members _ Ho) as Hall; rewrite Em in Hall; by apply Forall_cons in Hall as [? _]).
  destruct (string_text_head _ (mo_key _ Hm)) as [cs Hk].
  assert (Hhead : exists rest, inside o ++ CLOSE :: o_trail o = m_before m ++ QUOTE :: rest).
  { unfold inside. rewrite Em. destruct ms as [|m' ms]; cbn [members_text]; unfold member_text, body; rewrite Hk;
      eexists; repeat (rewrite <- ?(assoc_L (++)); cbn [app]); reflexivity. }
  destruct Hhead as [rest Hhead]. pose proof Hin as Hin'. rewrite Hhead in Hin'.
  rewrite (skip_ws_at _ _ _ _ _ Hin' (mo_before _ Hm) eq_refl). apply at_skip in Hin'.
  rewrite (at_lookup _ _ _ _ Hin'), bool_decide_true by done. cbn [andb].
  rewrite (object_text_with_option o m ms Em). unfold at_ in Hin. rewrite Hin.
  unfold object_text. replace (S i) with (length (o_lead o ++ [OPEN])) by (rewrite length_app; unfold i; simpl; lia).
  rewrite (cons_middle OPEN (o_lead o) (_ ++ _)), (assoc_L (++) (o_lead o) [OPEN]).
  rewrite (take_app_length (o_lead o ++ [OPEN])). by rewrite <- (assoc_L (++)).
Qed.

(** A null option is left as it is: the stream will not report its usage. *)
Lemma null_options_are_left `{JsonLib} (payload : bytes) (obj : list (string * Value)) :
  dom <$> json_parse payload = Some (Object obj) -> field "stream_options" obj = Some Null ->
  inject_openai_stream_include_usage payload = payload.
Proof. intros Hp Hf. unfold inject_openai_stream_include_usage. by rewrite Hp, Hf. Qed.

(** ** Witnesses *)

Definition deep_text : bytes := str "{" ++ quoted "a" ++ str ":[[1]," ++ quoted "]]]{{{" ++ str "]}".

Lemma quoted_brackets : string_text (quoted "]]]{{{").
Proof. by apply quoted_key_text. Qed.

Lemma deep_text_nested : nested 3 deep_text.
Proof.
  apply (nested_bracket 2 0 123 (quoted "a" ++ str ":[[1]," ++ quoted "]]]{{{" ++ str "]") 125 []); [done..| |constructor].
  apply nested_string; [by apply quoted_key_text|]. apply nested_byte; [done..|].
  apply (nested_bracket 1 0 91 (str "[1]," ++ quoted "]]]{{{") 93 []); [done..| |constructor].
  apply (nested_bracket 0 0 91 (str "1") 93 (str "," ++ quoted "]]]{{{")); [done..| |].
  - apply nested_byte; [done..|constructor].
  - apply nested_byte; [done..|]. rewrite <- (app_nil_r (quoted _)). apply nested_string; [exact quoted_brackets|constructor].
Qed.

Lemma the_depth_guard_is_exact_witness : exceeds_max_depth deep_text 2 = true /\ exceeds_max_depth deep_text 3 = false.
Proof.
  split; [exact (the_depth_guard_is_exact 3 2 deep_text deep_text_nested)|exact (the_depth_guard_is_exact 3 3 deep_text deep_text_nested)].
Defined.

(** A library that reads one text. *)
Definition toy_text : bytes := str "{}".
Definition toy_members : list (string * Value) :=
  [("model", Str "old"); ("model", Str "m1"); ("messages", Array []); ("stream", Bool true)].

Definition toy_json : JsonLib := {|
  from_slice b := if bool_decide (b = toy_text) then Some (PMembers toy_members) else None;
  to_vec v := Some (str "printed");
|}.

Definition toy_lane (proto : string) (w : Writer) : BodyLane := mkBodyLane proto w "pool-name" (Some "m1") None false None.

Definition no_ops (name : string) : option (OperationHandler unit unit) := None.

Lemma the_unparsed_path_sends_the_same_witness :
  exists lz, @LazyBody_parse toy_json toy_text = Some lz
    /\ @hop_payload toy_json _ _ no_ops (fun _ i => i) (fun _ i => i) 0 (mkBudgets 1 2 3 4) (toy_lane PROTO_OPENAI plain_writer)
         PROTO_OPENAI true (Some lz) "" false toy_text = Some (inl toy_text)
    /\ @hop_payload toy_json _ _ no_ops (fun _ i => i) (fun _ i => i) 0 (mkBudgets 1 2 3 4) (toy_lane PROTO_OPENAI plain_writer)
         PROTO_OPENAI true (Some lz) "" false toy_text
       = @hop_payload toy_json _ _ no_ops (fun _ i => i) (fun _ i => i) 0 (mkBudgets 1 2 3 4) (toy_lane PROTO_OPENAI plain_writer)
         PROTO_OPENAI true None "" false toy_text.
Proof.
  eexists. split; [vm_compute; reflexivity|]. split; [vm_compute; reflexivity|].
  apply (@the_unparsed_path_sends_the_same toy_json _ _ no_ops (fun _ i => i) (fun _ i => i) 0 (mkBudgets 1 2 3 4)
    (toy_lane PROTO_OPENAI plain_writer) PROTO_OPENAI toy_text).
  - intros b v. simpl. case_bool_decide; done.
  - reflexivity.
  - vm_compute. reflexivity.
Defined.

Lemma a_request_in_its_own_protocol_is_kept_witness :
  exists fs', field "model" fs' = None /\ field "contents" fs' = Some (Array []) /\ field "stream" fs' = None.
Proof.
  destruct (@a_request_in_its_own_protocol_is_kept toy_json _ _ no_ops (fun _ i => i) (fun _ i => i) 0 (mkBudgets 1 2 3 4)
    (toy_lane PROTO_GEMINI (mkWriter true true (Some GEMINI_JSON_ARRAY_SHIM_KEY) false false None))
    [("contents", Array []); ("stream", Bool true); ("model", Str "x")] "" false [] eq_refl) as (fs' & Hf & _).
  exists fs'. rewrite !Hf. by split_and!; vm_compute.
Defined.

Definition small_object : ObjectText :=
  mkObject [32] [] [mkMember [] (quoted "stream") [] [32] (str "true") []] [].

Lemma small_object_ok : object_ok small_object.
Proof.
  split; [by repeat constructor|constructor|]. constructor; [|constructor]. split; [constructor|by apply quoted_key_text|constructor|by repeat constructor| |constructor].
  apply value_scalar; [done..|]. by repeat constructor.
Qed.

Lemma the_usage_option_is_spliced_in_witness :
  @with_usage_option toy_json (toy_lane PROTO_OPENAI plain_writer) true true false false (object_text small_object)
  = object_text (with_option small_object).
Proof.
  apply (@the_usage_option_is_spliced_in toy_json (toy_lane PROTO_OPENAI plain_writer) small_object).
  - reflexivity.
  - exact small_object_ok.
  - done.
  - vm_compute. reflexivity.
Defined.
