(* ===== verification/StreamFraming.v ===== *)
(** * StreamFraming: what a client's protocol does to its own stream (proto/mod.rs, bedrock/mod.rs)

    The trait [StreamFraming] as an interface, with its three implementors: the inert one of the plain
    protocols, Chat Completions' (the functions of [OpenAiChat]) and Bedrock's, whose terminal
    information goes out as a stop frame and exactly one metadata frame. *)

From S2P Require Import Prelude Breaker Json Classifier Ir OpenAiChat.

#[local] Open Scope Z_scope.

(** An operation returns the framing it leaves; [elapsed] is the clock's reading where one is taken. *)
Class StreamFraming (F : Type) := {
  new_framing : F;
  on_chunk : Value -> F -> Value * option Value * F;
  on_combined_stop_delta : IrStopReason -> option string -> IrUsage -> F -> option (list IrStreamEvent * F);
  on_usage_only_delta : F -> option (bool * F);
  on_finish : F -> option IrStreamEvent * F;
  inject_streaming_metrics : F -> string -> Value -> option Z -> Value;
  abort_exception_type : F -> option string;
  folds_terminal_usage : F -> bool;
  set_client_include_usage : bool -> F -> F;
  suppress_frame : F -> Value -> bool;
  strip_usage : F -> Value -> bool;
}.

(** [PassthroughFraming]: every default of the trait. *)
#[export] Instance PassthroughFraming : StreamFraming unit := {
  new_framing := tt;
  on_chunk chunk f := (chunk, None, f);
  on_combined_stop_delta _ _ _ _ := None;
  on_usage_only_delta _ := None;
  on_finish f := (None, f);
  inject_streaming_metrics _ _ data _ := data;
  abort_exception_type _ := None;
  folds_terminal_usage _ := true;
  set_client_include_usage _ f := f;
  suppress_frame _ _ := false;
  strip_usage _ _ := false;
}.

#[export] Instance OpenAi_StreamFraming : StreamFraming OpenAiStreamFraming := {
  new_framing := default_framing;
  on_chunk chunk f := let '(f, chunk, trailing) := on_egress_chunk f chunk in (chunk, trailing, f);
  on_combined_stop_delta _ _ _ _ := None;
  on_usage_only_delta _ := None;
  on_finish f := (None, f);
  inject_streaming_metrics _ _ data _ := data;
  abort_exception_type _ := None;
  folds_terminal_usage _ := false;
  set_client_include_usage include f := mkFraming (chunk_identity f) (tool_call_index f) include;
  suppress_frame := suppress_same_proto_frame;
  strip_usage := strip_same_proto_usage;
}.

(** ** Bedrock *)

Record BedrockStreamFraming := mkBedrockFraming { emitted : bool; pending : bool }.

Definition EXC_INTERNAL_SERVER : string := "InternalServerException".
Definition ET_METADATA : string := "metadata".
Definition FIELD_METRICS : string := "metrics".
Definition FIELD_LATENCY_MS : string := "latencyMs".

Definition bedrock_stop_delta (stop_reason : IrStopReason) (stop_sequence : option string) (usage : IrUsage)
    (f : BedrockStreamFraming) : list IrStreamEvent * BedrockStreamFraming :=
  let stop := MessageDelta (Some stop_reason) stop_sequence no_usage in
  let has_usage := negb (input_tokens usage =? 0) || negb (output_tokens usage =? 0)
                   || negb (default 0 (cache_read_input_tokens usage) =? 0)
                   || negb (default 0 (cache_creation_input_tokens usage) =? 0) in
  if emitted f then ([stop], f)
  else if has_usage then ([stop; MessageDelta None stop_sequence usage], mkBedrockFraming true false)
  else ([stop], mkBedrockFraming (emitted f) true).

Definition bedrock_usage_delta (f : BedrockStreamFraming) : bool * BedrockStreamFraming :=
  if emitted f then (false, f) else (true, mkBedrockFraming true false).

Definition bedrock_finish (f : BedrockStreamFraming) : option IrStreamEvent * BedrockStreamFraming :=
  if negb (pending f) || emitted f then (None, f)
  else (Some (MessageDelta None None no_usage), mkBedrockFraming true false).

Definition bedrock_metrics (event_type : string) (data : Value) (elapsed_ms : option Z) : Value :=
  if String.eqb event_type ET_METADATA then
    match elapsed_ms, data with
    | Some ms, Object obj =>
        Object (set_field FIELD_METRICS (Object [(FIELD_LATENCY_MS, num_u (Z.min ms U64_MAX))]) obj)
    | _, data => data
    end
  else data.

#[export] Instance Bedrock_StreamFraming : StreamFraming BedrockStreamFraming := {
  new_framing := mkBedrockFraming false false;
  on_chunk chunk f := (chunk, None, f);
  on_combined_stop_delta stop_reason stop_sequence usage f :=
    Some (bedrock_stop_delta stop_reason stop_sequence usage f);
  on_usage_only_delta f := Some (bedrock_usage_delta f);
  on_finish := bedrock_finish;
  inject_streaming_metrics _ event_type data elapsed_ms := bedrock_metrics event_type data elapsed_ms;
  abort_exception_type _ := Some EXC_INTERNAL_SERVER;
  folds_terminal_usage _ := false;
  set_client_include_usage _ f := f;
  suppress_frame _ _ := false;
  strip_usage _ _ := false;
}.
