(* ===== verification/StreamTranslate.v ===== *)
(** * StreamTranslate: a response stream from one protocol to another (proto/stream.rs)

    Bytes of the backend's stream in, bytes of the client's out: frames are reassembled from chunks,
    read into events, adapted - tool identifiers, stream identity, usage carried from the start to the
    end - and written in the client's protocol.  On the same-protocol path the frames go out as they
    came and the reading serves the bill alone.  The protocols enter through the classes below; what is
    emitted keeps, next to its frames, the event it stands for. *)

From S2P Require Import Prelude Breaker Json HookProjection Classifier Ir ToolIds OpenAiChat Bytes EventStream Sse UsageStrip StreamFraming.

#[local] Open Scope Z_scope.

(** ** The protocols *)

(** The backend's: its reader, and whether its stream is AWS event-stream frames. *)
Class StreamReader := {
  egress_name : string;
  read_events : string -> Value -> StreamDecodeState -> list IrStreamEvent * StreamDecodeState;
  egress_eventstream : bool;
}.

(** The client's: its writer, with what the writer keeps between the events of a stream. *)
Class StreamWriter (W : Type) := {
  new_writer : W;
  ingress_name : string;
  write_event : IrStreamEvent -> W -> option (string * Value) * W;
  write_exception : CanonicalSignal -> option (string * string);
  max_citations_per_delta : option nat;
  emits_sse_done_terminator : bool;
  ingress_eventstream : bool;
}.

Definition PROTO_ANTHROPIC_PING : bytes :=
  str "event: ping" ++ [LF] ++ str "data: {" ++ [QUOTE] ++ str "type" ++ [QUOTE] ++ str ":" ++ [QUOTE]
  ++ str "ping" ++ [QUOTE] ++ str "}" ++ [LF; LF].

Definition STREAM_ABORT_DETAIL : string := "The response stream was interrupted.".

Definition MAX_BUF : Z := MAX_FRAME_BYTES.

(** ** What goes out *)

Inductive Frame :=
  | SseFrame (event_type : string) (data : Value)
  | EventFrame (event_type : string) (data : Value)
  | ExceptionFrame (name message : string)
  | Verbatim (l : bytes).

(** An event written, or bytes of the framing's own. *)
Record Item := mkItem { it_event : option IrStreamEvent; it_frames : list Frame }.

Definition emitted_events (items : list Item) : list IrStreamEvent := omap it_event items.
Definition frames_out (items : list Item) : list Frame := items ≫= it_frames.

(** ** State *)

(** What the stream says for the bill and the breaker. *)
Record Tap := mkTap {
  start_usage : option IrUsage;
  last_usage : option IrUsage;
  tap_error : option string;
}.

Definition no_tap : Tap := mkTap None None None.

(** [merge_trailing_usage], and the same rule for [last_usage]. *)
Definition merge_trailing_usage (acc trailing : IrUsage) : IrUsage := {|
  input_tokens := if 0 <? input_tokens trailing then input_tokens trailing else input_tokens acc;
  output_tokens := if 0 <? output_tokens trailing then output_tokens trailing else output_tokens acc;
  cache_creation_input_tokens := or_else (cache_creation_input_tokens trailing) (cache_creation_input_tokens acc);
  cache_read_input_tokens := or_else (cache_read_input_tokens trailing) (cache_read_input_tokens acc);
|}.

(** The counters the stream reported at its start only. *)
Definition backfill (start : option IrUsage) (usage : IrUsage) : IrUsage :=
  match start with
  | None => usage
  | Some start => {|
      input_tokens := if input_tokens usage =? 0 then input_tokens start else input_tokens usage;
      output_tokens := output_tokens usage;
      cache_creation_input_tokens := or_else (cache_creation_input_tokens usage) (cache_creation_input_tokens start);
      cache_read_input_tokens := or_else (cache_read_input_tokens usage) (cache_read_input_tokens start);
    |}
  end.

Definition accumulate (last : option IrUsage) (usage : IrUsage) : IrUsage :=
  let acc := default no_usage last in {|
    input_tokens := if negb (input_tokens usage =? 0) then input_tokens usage else input_tokens acc;
    output_tokens := if negb (output_tokens usage =? 0) then output_tokens usage else output_tokens acc;
    cache_creation_input_tokens := or_else (cache_creation_input_tokens usage) (cache_creation_input_tokens acc);
    cache_read_input_tokens := or_else (cache_read_input_tokens usage) (cache_read_input_tokens acc);
  |}.

Definition error_message (err : CanonicalSignal) : string :=
  default "upstream stream error"%string (provider_signal err).

(** An event passing the taps: a start loses its foreign identity, a delta gets its usage completed. *)
Definition tap_event (ev : IrStreamEvent) (tap : Tap) : IrStreamEvent * Tap :=
  match ev with
  | MessageStart role usage id created model =>
      (MessageStart role usage None None model,
       mkTap (or_else usage (start_usage tap)) (last_usage tap) (tap_error tap))
  | MessageDelta stop_reason stop_sequence usage =>
      let usage := backfill (start_usage tap) usage in
      (MessageDelta stop_reason stop_sequence usage,
       mkTap (start_usage tap) (Some (accumulate (last_usage tap) usage)) (tap_error tap))
  | Error err => (ev, mkTap (start_usage tap) (last_usage tap) (Some (error_message err)))
  | ev => (ev, tap)
  end.

(** [extract_usage_only]: the taps of the same-protocol path, for one event. *)
Definition usage_only (ev : IrStreamEvent) (tap : Tap) : Tap :=
  match ev with
  | MessageStart _ (Some u) _ _ _ => mkTap (Some u) (last_usage tap) (tap_error tap)
  | Error err => mkTap (start_usage tap) (last_usage tap) (Some (error_message err))
  | MessageDelta _ _ usage =>
      let input := match start_usage tap with
                   | Some start => if input_tokens usage =? 0 then input_tokens start else input_tokens usage
                   | None => input_tokens usage
                   end in
      let cache_creation := or_else (cache_creation_input_tokens usage)
                              (start_usage tap ≫= cache_creation_input_tokens) in
      let cache_read := or_else (cache_read_input_tokens usage) (start_usage tap ≫= cache_read_input_tokens) in
      let acc := default no_usage (last_usage tap) in
      let acc := mkUsage (if negb (input =? 0) then input else input_tokens acc)
                   (if negb (output_tokens usage =? 0) then output_tokens usage else output_tokens acc)
                   (or_else cache_creation (cache_creation_input_tokens acc))
                   (or_else cache_read (cache_read_input_tokens acc)) in
      mkTap (start_usage tap) (Some acc) (tap_error tap)
  | _ => tap
  end.

Section translate.
Context `{Hex} `{StreamReader} {W F : Type} `{StreamWriter W} `{StreamFraming F}.

(** The clock when a frame is written, in milliseconds since the first byte. *)
Context (elapsed_ms : Value -> Z).

(** The client's end: the writer, the framing, and the blocks opened and not closed. *)
Record Sink := mkSink { sk_writer : W; sk_framing : F; open_blocks : gset Z }.

(** The event pipeline's state; the bytes come before it. *)
Record Pipeline := mkPipeline {
  decode : StreamDecodeState;
  tap : Tap;
  tool_id_remap : ToolIdRemap;
  sink : Sink;
  message_stopped : bool;
  pending_terminal : option (IrStopReason * option string * IrUsage);
  pending_stop : bool;
}.

Record Translator := mkTranslator {
  same_proto : bool;
  pipe : Pipeline;
  buf : bytes;
  scanned : nat;
  aborted : bool;
}.

Definition new_pipeline : Pipeline :=
  mkPipeline default_decode no_tap ∅ (mkSink new_writer new_framing ∅) false None false.

(** [build] *)
Definition build (same_proto : bool) : Translator := mkTranslator same_proto new_pipeline [] 0 false.

Definition new : option Translator := if String.eqb ingress_name egress_name then None else Some (build false).
Definition new_same_proto : Translator := build true.

Definition set_decode d (t : Pipeline) := mkPipeline d (tap t) (tool_id_remap t) (sink t) (message_stopped t)
  (pending_terminal t) (pending_stop t).
Definition set_tap x (t : Pipeline) := mkPipeline (decode t) x (tool_id_remap t) (sink t) (message_stopped t)
  (pending_terminal t) (pending_stop t).
Definition set_remap r (t : Pipeline) := mkPipeline (decode t) (tap t) r (sink t) (message_stopped t)
  (pending_terminal t) (pending_stop t).
Definition set_sink s (t : Pipeline) := mkPipeline (decode t) (tap t) (tool_id_remap t) s (message_stopped t)
  (pending_terminal t) (pending_stop t).
Definition set_stopped b (t : Pipeline) := mkPipeline (decode t) (tap t) (tool_id_remap t) (sink t) b
  (pending_terminal t) (pending_stop t).
Definition set_pending p (t : Pipeline) := mkPipeline (decode t) (tap t) (tool_id_remap t) (sink t)
  (message_stopped t) p (pending_stop t).
Definition set_pending_stop b (t : Pipeline) := mkPipeline (decode t) (tap t) (tool_id_remap t) (sink t)
  (message_stopped t) (pending_terminal t) b.
Definition set_framing f (t : Pipeline) :=
  set_sink (mkSink (sk_writer (sink t)) f (open_blocks (sink t))) t.

Definition set_pipe p (t : Translator) := mkTranslator (same_proto t) p (buf t) (scanned t) (aborted t).
Definition set_buffer l n (t : Translator) := mkTranslator (same_proto t) (pipe t) l n (aborted t).
Definition set_scanned n (t : Translator) := set_buffer (buf t) n t.

Definition set_include_usage (include : bool) (t : Translator) : Translator :=
  set_pipe (set_framing (set_client_include_usage include (sk_framing (sink (pipe t)))) (pipe t)) t.

(** [abort] *)
Definition abort (t : Translator) : Translator := mkTranslator (same_proto t) (pipe t) [] 0 true.

(** ** Writing an event *)

Definition track (ev : IrStreamEvent) (open : gset Z) : gset Z :=
  match ev with BlockStart i _ => {[i]} ∪ open | BlockStop i => open ∖ {[i]} | _ => open end.

Definition emit_ir_event (ev : IrStreamEvent) (s : Sink) : Item * Sink :=
  let open := track ev (open_blocks s) in
  let '(written, w) := write_event ev (sk_writer s) in
  match written with
  | None => (mkItem (Some ev) [], mkSink w (sk_framing s) open)
  | Some (event_type, data) =>
      if ingress_eventstream then
        let data := inject_streaming_metrics (sk_framing s) event_type data (Some (elapsed_ms data)) in
        (mkItem (Some ev) [EventFrame event_type data], mkSink w (sk_framing s) open)
      else
        let '(chunk, trailing, f) := on_chunk data (sk_framing s) in
        (mkItem (Some ev) (SseFrame event_type chunk
                           :: match trailing with Some tr => [SseFrame event_type tr] | None => [] end),
         mkSink w f open)
  end.

Definition emit_all (evs : list IrStreamEvent) (s : Sink) : list Item * Sink := visit emit_ir_event evs s.

Definition close_open_blocks (s : Sink) : list Item * Sink :=
  emit_all (BlockStop <$> ascending (open_blocks s)) (mkSink (sk_writer s) (sk_framing s) ∅).

Definition sending (f : Sink -> list Item * Sink) (t : Pipeline) : list Item * Pipeline :=
  let '(items, s) := f (sink t) in (items, set_sink s t).

Definition send (evs : list IrStreamEvent) : Pipeline -> list Item * Pipeline := sending (emit_all evs).

(** ** One event of the backend's *)

(** A modelled exception for an event-stream client. *)
Definition as_exception (ev : IrStreamEvent) : option Item :=
  match ev with
  | Error err =>
      if ingress_eventstream
      then (fun '(name, message) => mkItem (Some ev) [ExceptionFrame name message]) <$> write_exception err
      else None
  | _ => None
  end.

Definition is_terminal (ev : IrStreamEvent) : bool :=
  match ev with MessageDelta (Some _) _ _ | MessageStop => true | _ => false end.

(** The two-frame end of a Bedrock stream. *)
Definition combined_stop (ev : IrStreamEvent) (t : Pipeline) : option (list Item * Pipeline) :=
  match ev with
  | MessageDelta (Some reason) stop_sequence usage =>
      match on_combined_stop_delta reason stop_sequence usage (sk_framing (sink t)) with
      | Some (events, f) => Some (send events (set_framing f t))
      | None => None
      end
  | _ => None
  end.

(** The terminal delta and its stop wait for usage that may still come. *)
Definition fold_terminal (ev : IrStreamEvent) (t : Pipeline) : option Pipeline :=
  if folds_terminal_usage (sk_framing (sink t)) then
    match ev, pending_terminal t with
    | MessageDelta (Some reason) stop_sequence usage, None =>
        Some (set_pending (Some (reason, stop_sequence, usage)) t)
    | MessageDelta _ _ usage, Some (reason, stop_sequence, acc) =>
        Some (set_pending (Some (reason, stop_sequence, merge_trailing_usage acc usage)) t)
    | MessageStop, Some _ => Some (set_pending_stop true t)
    | _, _ => None
    end
  else None.

Definition usage_delta (ev : IrStreamEvent) (t : Pipeline) : option (list Item * Pipeline) :=
  match ev with
  | MessageDelta None _ _ =>
      match on_usage_only_delta (sk_framing (sink t)) with
      | Some (should_emit, f) =>
          let t := set_framing f t in
          Some (if should_emit : bool then send [ev] t else ([], t))
      | None => None
      end
  | _ => None
  end.

Definition is_delta (ev : IrStreamEvent) : bool := match ev with MessageDelta _ _ _ => true | _ => false end.
Definition is_stop (ev : IrStreamEvent) : bool := match ev with MessageStop => true | _ => false end.
Definition is_start (ev : IrStreamEvent) : bool := match ev with MessageStart _ _ _ _ _ => true | _ => false end.

(** [l.chunks(n)]; the code has no [n] of zero, which panics. *)
Fixpoint chunks {A} (fuel n : nat) (l : list A) : list (list A) :=
  match fuel, l with
  | S fuel, _ :: _ => take n l :: chunks fuel n (drop n l)
  | _, _ => []
  end.

(** One event per batch of citations the client's protocol takes. *)
Definition fan_out (ev : IrStreamEvent) : list IrStreamEvent :=
  match ev, max_citations_per_delta with
  | BlockDelta index (CitationsDelta citations), Some max_per_event =>
      if (max_per_event <? length citations)%nat
      then (fun c => BlockDelta index (CitationsDelta c)) <$> chunks (length citations) max_per_event citations
      else [ev]
  | _, _ => [ev]
  end.

Definition ping (ev : IrStreamEvent) : list Item :=
  if is_start ev && String.eqb ingress_name PROTO_ANTHROPIC then [mkItem None [Verbatim PROTO_ANTHROPIC_PING]] else [].

(** What is left of the event, once nothing above took it. *)
Definition write_through (ev : IrStreamEvent) (t : Pipeline) : list Item * Pipeline :=
  if message_stopped t && is_delta ev then ([], t)
  else
    let t := if is_stop ev then set_stopped true t else t in
    let '(items, t) := send (fan_out ev) t in
    (items ++ ping ev, t).

Definition route (ev : IrStreamEvent) (t : Pipeline) : list Item * Pipeline :=
  match combined_stop ev t with
  | Some r => r
  | None =>
      match fold_terminal ev t with
      | Some t => ([], t)
      | None => match usage_delta ev t with Some r => r | None => write_through ev t end
      end
  end.

Definition deliver (ev : IrStreamEvent) (t : Pipeline) : list Item * Pipeline :=
  match as_exception ev with
  | Some item => ([item], t)
  | None =>
      let '(closed, t) := if is_terminal ev then sending close_open_blocks t else ([], t) in
      let '(items, t) := route ev t in
      (closed ++ items, t)
  end.

Definition translate_one (ev : IrStreamEvent) (t : Pipeline) : list Item * Pipeline :=
  let '(ev, remap) := remap_event (tool_id_remap t) ingress_name ev in
  let t := set_remap remap t in
  let '(ev, tp) := tap_event ev (tap t) in
  deliver ev (set_tap tp t).

(** ** Frames of the backend's *)

Definition translate_event (event_type : string) (data : Value) (t : Pipeline) : list Item * Pipeline :=
  let '(evs, d) := read_events event_type data (decode t) in
  let '(items, t) := visit translate_one evs (set_decode d t) in
  (concat items, t).

Definition extract_usage_only (event_type : string) (data : Value) (t : Pipeline) : Pipeline :=
  let '(evs, d) := read_events event_type data (decode t) in
  set_tap (foldl (flip usage_only) (tap t) evs) (set_decode d t).

(** ** Feeding bytes *)

(** The JSON parser and printer, and the checksum of the event-stream frames. *)
Context (parse_str : string -> option Value) (from_slice : bytes -> option Value).

Definition verbatim (l : bytes) : list Item := match l with [] => [] | _ => [mkItem None [Verbatim l]] end.

(** One frame of an event-stream backend, its event's name folded into the payload. *)
Definition feed_payload (same : bool) (frame : bytes * bytes) (t : Pipeline) : list Item * Pipeline :=
  match from_slice frame.2 with
  | None => ([], t)
  | Some data =>
      let event_type := text_of frame.1 in
      let data := match data with Object obj => Object (set_field "type" (Str event_type) obj) | data => data end in
      if same then ([], extract_usage_only event_type data t) else translate_event event_type data t
  end.

(** [None] would be a panic of the frame decoder. *)
Definition feed_eventstream (t : Translator) : option (list Item * Translator) :=
  drained ← drain_frames_checked (buf t) (if same_proto t then Some [] else None);
  let '(items, p) := visit (feed_payload (same_proto t)) (frames drained) (pipe t) in
  let t := set_buffer (buffer drained) (scanned t) (set_pipe p t) in
  let items := verbatim (default [] (consumed_sink drained)) ++ concat items in
  let malformed := match status drained with MalformedPrelude => true | DrainOk => false end in
  Some (items, if malformed || (MAX_BUF <? zlen (buf t)) then abort t else t).

(** Frames the same-protocol reader of Messages has nothing to learn from. *)
Definition elided (same : bool) (event_type : string) : bool :=
  same && String.eqb egress_name PROTO_ANTHROPIC
  && negb (existsb (String.eqb event_type) ["message_start"; "message_delta"; "error"]%string).

(** What a frame contributes: the items of its translation, or the bytes to put in its place. *)
Inductive FrameOutcome := Translated (items : list Item) | Kept | Dropped | Rewritten (l : bytes).

Definition feed_frame (same : bool) (frame : bytes) (t : Pipeline) : FrameOutcome * Pipeline :=
  match parse_sse_frame frame with
  | None => (Kept, t)
  | Some (event_type, data_str) =>
      if is_empty data_str || String.eqb data_str SSE_DONE || elided same event_type then (Kept, t)
      else match parse_str data_str with
           | None => (Kept, t)
           | Some data =>
               if same then
                 let t := extract_usage_only event_type data t in
                 let f := sk_framing (sink t) in
                 (if suppress_frame f data then Dropped
                  else if strip_usage f data then Rewritten (rewrite_frame_strip_usage frame (str data_str))
                  else Kept, t)
               else let '(items, t) := translate_event event_type data t in (Translated items, t)
           end
  end.

(** The loop over the complete frames of the buffer.  [consumed] is where the next frame begins,
    [emit_from] where the bytes not yet passed on begin. *)
Fixpoint feed_loop (fuel consumed emit_from : nat) (out : list Item) (t : Translator)
    : nat * nat * list Item * Translator :=
  match fuel with
  | O => (consumed, emit_from, out, t)
  | S fuel =>
      let search_from := Nat.min (Nat.max (scanned t - 3) consumed) (length (buf t)) in
      match find_frame_terminator (drop search_from (buf t)) with
      | None => (consumed, emit_from, out, set_scanned (length (buf t)) t)
      | Some (rel, term_len) =>
          let end_ := (search_from + rel + term_len)%nat in
          let frame_start := consumed in
          let frame := take (end_ - frame_start) (drop frame_start (buf t)) in
          let '(outcome, p) := feed_frame (same_proto t) frame (pipe t) in
          let t := set_scanned end_ (set_pipe p t) in
          let run := take (frame_start - emit_from) (drop emit_from (buf t)) in
          match outcome with
          | Translated items => feed_loop fuel end_ emit_from (out ++ items) t
          | Kept => feed_loop fuel end_ emit_from out t
          | Dropped => feed_loop fuel end_ end_ (out ++ verbatim run) t
          | Rewritten l => feed_loop fuel end_ end_ (out ++ verbatim run ++ verbatim l) t
          end
      end
  end.

Definition feed_sse (t : Translator) : list Item * Translator :=
  let '(consumed, emit_from, out, t) := feed_loop (S (length (buf t))) 0 0 [] t in
  let out := if same_proto t then out ++ verbatim (take (consumed - emit_from) (drop emit_from (buf t))) else out in
  let t := if (0 <? consumed)%nat
           then let rest := drop consumed (buf t) in set_buffer rest (length rest) t else t in
  (out, if MAX_BUF <? zlen (buf t) then abort t else t).

Definition feed (chunk : bytes) (t : Translator) : list Item * Translator :=
  if aborted t then ([], t)
  else
    let t := set_buffer (buf t ++ chunk) (scanned t) t in
    if egress_eventstream then default ([], t) (feed_eventstream t) else feed_sse t.

(** ** The end of the stream *)

Definition done_frame : list Item := if emits_sse_done_terminator then [mkItem None [Verbatim SSE_DONE_FRAME]] else [].

Definition abort_error : IrStreamEvent := Error (mkSignal ServerError (Some STREAM_ABORT_DETAIL) None).

Definition finish_aborted (t : Pipeline) : list Item * Pipeline :=
  match abort_exception_type (sk_framing (sink t)) with
  | Some exc_type => ([mkItem None [ExceptionFrame exc_type STREAM_ABORT_DETAIL]], t)
  | None => let '(items, t) := send [abort_error] t in (items ++ done_frame, t)
  end.

(** The terminal delta that waited, with its stop. *)
Definition flush_terminal (t : Pipeline) : list Item * Pipeline :=
  match pending_terminal t with
  | None => ([], t)
  | Some (reason, stop_sequence, usage) =>
      send (MessageDelta (Some reason) stop_sequence usage :: if pending_stop t then [MessageStop] else [])
        (set_pending None t)
  end.

Definition flush_framing (t : Pipeline) : list Item * Pipeline :=
  let '(trailing, f) := on_finish (sk_framing (sink t)) in
  let t := set_framing f t in
  match trailing with Some ev => send [ev] t | None => ([], t) end.

Definition finish_open (t : Pipeline) : list Item * Pipeline :=
  let '(closed, t) := sending close_open_blocks t in
  let '(trailing, t) := flush_framing t in
  let '(terminal, t) := flush_terminal t in
  (closed ++ trailing ++ terminal ++ done_frame, t).

Definition finish (t : Translator) : list Item * Translator :=
  if negb (aborted t) && same_proto t then ([], t)
  else let '(items, p) := (if aborted t then finish_aborted else finish_open) (pipe t) in (items, set_pipe p t).
End translate.

(** ** Bytes *)

Section bytes_out.
Context (to_vec : Value -> bytes) (crc32 : bytes -> Z) (json_message : bytes -> option bytes).

(** A frame too large for the event-stream encoding is dropped by the encoder. *)
Definition frame_bytes (f : Frame) : bytes :=
  match f with
  | SseFrame event_type data => write_sse_frame to_vec event_type data
  | EventFrame event_type data => default [] (encode_frame crc32 (str event_type) (to_vec data))
  | ExceptionFrame name message => default [] (encode_exception_frame crc32 json_message (str name) (str message))
  | Verbatim l => l
  end.

Definition bytes_out (items : list Item) : bytes := frames_out items ≫= frame_bytes.
End bytes_out.
