(* ===== verification/StreamReassembly.v ===== *)
(** * StreamReassembly: frames from chunks, whatever the cuts

    The loop of [feed] looks for the end of a frame only in what it has not searched, moves a cursor over
    the buffer and passes unchanged bytes on in runs.  What it computes is proved to be what one would
    write down: split the bytes so far into frames, treat the frames in order, keep the rest. *)

From S2P Require Import Prelude Breaker Json HookProjection Classifier Ir ToolIds OpenAiChat Bytes EventStream Sse UsageStrip StreamFraming StreamTranslate.

#[local] Open Scope Z_scope.

Section reassembly.
Context `{Hex} `{StreamReader} {W F : Type} `{StreamWriter W} `{StreamFraming F}.
Context (elapsed_ms : Value -> Z) (parse_str : string -> option Value) (from_slice : bytes -> option Value).
Context (to_vec : Value -> bytes) (crc32 : bytes -> Z) (json_message : bytes -> option bytes).

Notation Translator := (Translator (W := W) (F := F)).
Notation Pipeline := (Pipeline (W := W) (F := F)).
Notation feed := (feed elapsed_ms parse_str from_slice).
Notation feed_frame := (feed_frame elapsed_ms parse_str).
Notation feed_loop := (feed_loop elapsed_ms parse_str).
Notation bytes_out := (bytes_out to_vec crc32 json_message).

(** ** What the frames amount to *)

Definition outcome_events (o : FrameOutcome) : list IrStreamEvent :=
  match o with Translated items => emitted_events items | _ => [] end.

Definition outcome_bytes (same : bool) (frame : bytes) (o : FrameOutcome) : bytes :=
  match o with
  | Translated items => bytes_out items
  | Kept => if same then frame else []
  | Dropped => []
  | Rewritten l => l
  end.

(** Between feeds: nothing complete is left in the buffer, all of it has been searched, and it is within
    bounds. *)
Record ready (t : Translator) : Prop := {
  rd_residue : find_frame_terminator (buf t) = None;
  rd_scanned : scanned t = length (buf t);
  rd_bound : zlen (buf t) <= MAX_BUF;
}.

(** ** Items *)

Lemma events_app l k : emitted_events (l ++ k) = emitted_events l ++ emitted_events k.
Proof. apply omap_app. Qed.

Lemma bytes_app l k : bytes_out (l ++ k) = bytes_out l ++ bytes_out k.
Proof. unfold bytes_out, frames_out. by rewrite !bind_app. Qed.

Lemma events_verbatim l : emitted_events (verbatim l) = [].
Proof. by destruct l. Qed.

Lemma bytes_verbatim l : bytes_out (verbatim l) = l.
Proof. destruct l; [done|]. unfold bytes_out, frames_out. simpl. by rewrite !app_nil_r. Qed.

(** Which outcomes each path has. *)
Lemma feed_frame_outcome same frame p :
  match (feed_frame same frame p).1 with
  | Translated _ => same = false
  | Dropped | Rewritten _ => same = true
  | Kept => True
  end.
Proof.
  unfold feed_frame. destruct (parse_sse_frame frame) as [[et data_str]|]; [|done].
  destruct (_ || elided same et); [done|]. destruct (parse_str data_str) as [data|]; [|done].
  destruct same; [by repeat case_match|]. by destruct (translate_event _ _ _ _).
Qed.

(** ** The loop *)

(** Nothing ends before what has been searched. *)
Definition searched (consumed : nat) (t : Translator) : Prop :=
  (scanned t <= length (buf t))%nat
  /\ (consumed <= scanned t -> find_frame_terminator (take (scanned t - consumed) (drop consumed (buf t))) = None)%nat.

(** The search from three bytes before the searched part. *)
Lemma search_finds consumed t :
  (consumed <= length (buf t))%nat -> searched consumed t ->
  let search_from := Nat.min (Nat.max (scanned t - 3) consumed) (length (buf t)) in
  match find_frame_terminator (drop search_from (buf t)) with
  | None => find_frame_terminator (drop consumed (buf t)) = None
  | Some (rel, term_len) =>
      exists off, find_frame_terminator (drop consumed (buf t)) = Some (off, term_len)
                  /\ (search_from + rel = consumed + off)%nat
  end.
Proof.
  intros Hc [Hs Hnone]. simpl. rewrite Nat.min_l by lia.
  destruct (decide (consumed + 3 <= scanned t)%nat) as [Hle|Hlt].
  - set (k := (scanned t - 3 - consumed)%nat). replace (Nat.max (scanned t - 3) consumed) with (consumed + k)%nat by lia.
    pose proof (take_drop (scanned t - consumed) (drop consumed (buf t))) as Hsplit.
    pose proof (find_from_tail k (take (scanned t - consumed) (drop consumed (buf t)))
                  (drop (scanned t - consumed) (drop consumed (buf t)))) as Hfind.
    rewrite Hsplit, length_take, length_drop, drop_drop in Hfind.
    rewrite Hfind by (apply Hnone || lia; lia).
    destruct (find_frame_terminator (drop (consumed + k) (buf t))) as [[rel len]|]; [|done].
    eexists. split; [reflexivity|]. simpl. lia.
  - replace (Nat.max (scanned t - 3) consumed) with consumed by lia.
    destruct (find_frame_terminator (drop consumed (buf t))) as [[rel len]|]; [|done]. by eexists.
Qed.

Lemma visit_cons {A B S} (f : A -> S -> B * S) a l st :
  visit f (a :: l) st = ((f a st).1 :: (visit f l (f a st).2).1, (visit f l (f a st).2).2).
Proof. simpl. destruct (f a st) as [b st']. simpl. by destruct (visit f l st'). Qed.

(** The bytes passed on by the cursor. *)
Definition run (t : Translator) (from to : nat) : bytes :=
  if same_proto t then take (to - from) (drop from (buf t)) else [].

Lemma run_split t a b c : (a <= b <= c)%nat -> run t a c = run t a b ++ run t b c.
Proof.
  intros Hle. unfold run. destruct (same_proto t); [|done].
  rewrite <- (take_drop (b - a) (take (c - a) (drop a (buf t)))), take_take, Nat.min_l, skipn_firstn_comm, drop_drop by lia.
  do 2 f_equal; [lia|]. f_equal. lia.
Qed.

Definition outcomes_bytes (same : bool) (frames : list bytes) (os : list FrameOutcome) : bytes :=
  concat (zip_with (outcome_bytes same) frames os).

Lemma feed_loop_spec fuel consumed emit_from out t :
  (emit_from <= consumed <= length (buf t))%nat -> (length (buf t) - consumed < fuel)%nat -> searched consumed t ->
  let split := frames_of (drop consumed (buf t)) in
  let done := visit (feed_frame (same_proto t)) split.1 (pipe t) in
  let consumed' := (length (buf t) - length split.2)%nat in
  exists emit_from' out',
    feed_loop fuel consumed emit_from out t
      = (consumed', emit_from', out', set_scanned (length (buf t)) (set_pipe done.2 t))
    /\ (emit_from' <= consumed')%nat
    /\ bytes_out out' ++ run t emit_from' consumed'
       = bytes_out out ++ run t emit_from consumed ++ outcomes_bytes (same_proto t) split.1 done.1
    /\ emitted_events out' = emitted_events out ++ (done.1 ≫= outcome_events).
Proof.
  revert consumed emit_from out t. induction fuel as [|fuel IH]; intros consumed emit_from out t Hc Hfuel Hs; [lia|].
  cbn [StreamTranslate.feed_loop]. pose proof (search_finds consumed t (proj2 Hc) Hs) as Hfind. cbv zeta in *.
  set (search_from := Nat.min _ _) in *. rewrite frames_of_step.
  destruct (find_frame_terminator (drop search_from (buf t))) as [[rel term_len]|] eqn:E.
  - destruct Hfind as (off & Hfind & Hoff). rewrite Hfind. apply find_bounds in Hfind as Hb.
    rewrite length_drop in Hb. cbn [fst snd]. rewrite drop_drop, visit_cons. cbn [fst snd].
    replace (search_from + rel + term_len)%nat with (consumed + (off + term_len))%nat by lia.
    set (end_ := (consumed + (off + term_len))%nat). replace (end_ - consumed)%nat with (off + term_len)%nat by lia.
    set (frame := take (off + term_len) (drop consumed (buf t))).
    pose proof (feed_frame_outcome (same_proto t) frame (pipe t)) as Hk.
    destruct (feed_frame (same_proto t) frame (pipe t)) as [outcome p]. cbn [fst snd] in *.
    set (t1 := set_scanned end_ (set_pipe p t)).
    assert (Hs1 : searched end_ t1).
    { split; [simpl; lia|]. intros _. simpl. by rewrite Nat.sub_diag, take_0. }
    assert (Hframe : same_proto t = true -> frame = run t consumed end_).
    { intros Hsame. unfold run. rewrite Hsame. unfold frame. f_equal. lia. }
    assert (Hnext : forall emit_from1 out1,
      (emit_from1 <= end_)%nat ->
      bytes_out out1 ++ run t emit_from1 end_
        = bytes_out out ++ run t emit_from consumed ++ outcome_bytes (same_proto t) frame outcome ->
      emitted_events out1 = emitted_events out ++ outcome_events outcome ->
      exists emit_from' out',
        feed_loop fuel end_ emit_from1 out1 t1
          = ((length (buf t) - length (frames_of (drop end_ (buf t))).2)%nat, emit_from', out',
             set_scanned (length (buf t))
               (set_pipe (visit (feed_frame (same_proto t)) (frames_of (drop end_ (buf t))).1 p).2 t))
        /\ (emit_from' <= length (buf t) - length (frames_of (drop end_ (buf t))).2)%nat
        /\ bytes_out out' ++ run t emit_from' (length (buf t) - length (frames_of (drop end_ (buf t))).2)
           = bytes_out out ++ run t emit_from consumed
             ++ outcomes_bytes (same_proto t) (frame :: (frames_of (drop end_ (buf t))).1)
                  (outcome :: (visit (feed_frame (same_proto t)) (frames_of (drop end_ (buf t))).1 p).1)
        /\ emitted_events out' = emitted_events out
             ++ ((outcome :: (visit (feed_frame (same_proto t)) (frames_of (drop end_ (buf t))).1 p).1) ≫= outcome_events)).
    { intros emit_from1 out1 Hle1 Hbytes Hevents.
      destruct (IH end_ emit_from1 out1 t1) as (e & o & R1 & R2 & R3 & R4); [simpl; lia|simpl; lia|done|].
      exists e, o. split; [exact R1|]. split; [exact R2|]. split.
      - etrans; [exact R3|]. change (run t1) with (run t). rewrite (assoc_L (++)), Hbytes.
        unfold outcomes_bytes. simpl. by rewrite <- !(assoc_L (++)).
      - etrans; [exact R4|]. simpl. by rewrite Hevents, <- (assoc_L (++)). }
    destruct outcome as [items| | |l]; apply Hnext; clear Hnext; try lia.
    + unfold run in *. rewrite Hk. simpl. by rewrite !app_nil_r, bytes_app.
    + by rewrite events_app.
    + rewrite (run_split t emit_from consumed end_) by lia. simpl. destruct (same_proto t) eqn:Hsame.
      * by rewrite Hframe.
      * unfold run. by rewrite Hsame.
    + by rewrite app_nil_r.
    + rewrite bytes_app, bytes_verbatim. unfold run. rewrite Hk, Nat.sub_diag. simpl. by rewrite !app_nil_r.
    + by rewrite events_app, events_verbatim.
    + rewrite !bytes_app, !bytes_verbatim. unfold run. rewrite Hk, Nat.sub_diag. simpl. by rewrite app_nil_r.
    + by rewrite !events_app, !events_verbatim.
  - rewrite Hfind. cbn [fst snd]. rewrite length_drop. simpl visit. cbn [fst snd].
    replace (length (buf t) - (length (buf t) - consumed))%nat with consumed by lia.
    exists emit_from, out. split; [by destruct t|]. split; [lia|]. simpl. by rewrite !app_nil_r.
Qed.
(** ** Feeding *)

(** [feed] as one would write it down. *)
Definition fed (t : Translator) (chunk : bytes) : list bytes * bytes := frames_of (buf t ++ chunk).

Definition treated (t : Translator) (chunk : bytes) : list FrameOutcome * Pipeline :=
  visit (feed_frame (same_proto t)) (fed t chunk).1 (pipe t).

Definition fed_state (t : Translator) (chunk : bytes) : Translator :=
  let rest := (fed t chunk).2 in
  let t' := mkTranslator (same_proto t) (treated t chunk).2 rest (length rest) false in
  if MAX_BUF <? zlen rest then abort t' else t'.

Lemma feed_spec chunk t :
  egress_eventstream = false -> aborted t = false -> ready t ->
  bytes_out (feed chunk t).1 = outcomes_bytes (same_proto t) (fed t chunk).1 (treated t chunk).1
  /\ emitted_events (feed chunk t).1 = ((treated t chunk).1 ≫= outcome_events)
  /\ (feed chunk t).2 = fed_state t chunk.
Proof.
  intros Heg Hab [Hres Hsc _]. unfold StreamTranslate.feed. rewrite Hab, Heg.
  set (t1 := set_buffer (buf t ++ chunk) (scanned t) t). unfold feed_sse.
  destruct (feed_loop_spec (S (length (buf t1))) 0 0 [] t1) as (e & o & -> & R2 & R3 & R4).
  - lia.
  - lia.
  - split; simpl; [rewrite length_app; lia|]. intros _. by rewrite Nat.sub_0_r, Hsc, drop_0, take_app_length.
  - rewrite drop_0 in *. cbn [fst snd] in *. change (buf t1) with (buf t ++ chunk) in *.
    change (frames_of (buf t ++ chunk)) with (fed t chunk) in *.
    change (visit (feed_frame (same_proto t1)) (fed t chunk).1 (pipe t1)) with (treated t chunk) in *.
    pose proof (frames_of_concat (buf t ++ chunk)) as Hcat. change (frames_of (buf t ++ chunk)) with (fed t chunk) in Hcat.
    set (rest := (fed t chunk).2) in *. remember (length (buf t ++ chunk) - length rest)%nat as n eqn:En0.
    assert (Hrest : drop n (buf t ++ chunk) = rest).
    { assert (Hlen : length (buf t ++ chunk) = (length (concat (fed t chunk).1) + length rest)%nat)
        by (rewrite <- length_app; by rewrite Hcat).
      rewrite <- Hcat. apply drop_app_length'. lia. }
    assert (Hn : n = 0%nat -> buf t ++ chunk = rest) by (intros E; by rewrite E, drop_0 in Hrest).
    cbn [same_proto set_scanned set_buffer set_pipe buf pipe].
    split; [|split].
    + cbn [fst]. unfold run in R3. change (same_proto t1) with (same_proto t) in *. destruct (same_proto t).
      * rewrite bytes_app, bytes_verbatim. exact R3.
      * by rewrite app_nil_r in R3.
    + cbn [fst]. change (same_proto t1) with (same_proto t). destruct (same_proto t); [|exact R4].
      by rewrite events_app, events_verbatim, app_nil_r.
    + cbn [snd]. unfold fed_state. fold rest.
      assert (Hend : (if (0 <? n)%nat
        then set_buffer (drop n (buf t ++ chunk)) (length (drop n (buf t ++ chunk)))
               (set_scanned (length (buf t ++ chunk)) (set_pipe (treated t chunk).2 t1))
        else set_scanned (length (buf t ++ chunk)) (set_pipe (treated t chunk).2 t1))
        = mkTranslator (same_proto t) (treated t chunk).2 rest (length rest) false).
      { destruct (0 <? n)%nat eqn:En.
        - rewrite Hrest. unfold set_buffer. simpl. by rewrite Hab.
        - apply Nat.ltb_ge in En. unfold set_scanned, set_buffer. simpl. rewrite (Hn ltac:(lia)), Hab. done. }
      change (buf t1) with (buf t ++ chunk). by rewrite Hend.
Qed.

Lemma fed_state_ready chunk t : ready (fed_state t chunk).
Proof.
  unfold fed_state. pose proof (frames_of_residue (buf t ++ chunk)) as Hres.
  destruct (MAX_BUF <? zlen (fed t chunk).2) eqn:E.
  - split; simpl; [done|done|]. unfold MAX_BUF, MAX_FRAME_BYTES. unfold zlen. simpl. lia.
  - split; simpl; [done|done|]. by apply Z.ltb_ge in E.
Qed.

Lemma fed_state_aborted chunk t : aborted (fed_state t chunk) = (MAX_BUF <? zlen (fed t chunk).2).
Proof. unfold fed_state. by destruct (MAX_BUF <? _). Qed.

Lemma visit_app {A B S} (f : A -> S -> B * S) l k st :
  visit f (l ++ k) st = ((visit f l st).1 ++ (visit f k (visit f l st).2).1, (visit f k (visit f l st).2).2).
Proof.
  revert st. induction l as [|a l IH]; intros st; [simpl; by destruct (visit f k st)|]. cbn [app]. by rewrite !visit_cons, IH.
Qed.

Lemma visit_length {A B S} (f : A -> S -> B * S) l st : length (visit f l st).1 = length l.
Proof. revert st. induction l as [|a l IH]; intros st; [done|]. rewrite visit_cons. simpl. by rewrite IH. Qed.

Lemma feed_twice a b t :
  egress_eventstream = false -> aborted t = false -> ready t ->
  let first := feed a t in
  let second := feed b first.2 in
  let whole := feed (a ++ b) t in
  ready first.2 /\ ready whole.2
  /\ (aborted first.2 = false ->
      bytes_out whole.1 = bytes_out first.1 ++ bytes_out second.1
      /\ emitted_events whole.1 = emitted_events first.1 ++ emitted_events second.1
      /\ whole.2 = second.2).
Proof.
  intros Heg Hab Hr. cbv zeta.
  destruct (feed_spec a t Heg Hab Hr) as (Fb & Fe & ->).
  destruct (feed_spec (a ++ b) t Heg Hab Hr) as (Wb & We & ->).
  split_and!; [apply fed_state_ready..|]. intros Hna.
  destruct (feed_spec b (fed_state t a) Heg Hna (fed_state_ready a t)) as (Sb & Se & ->).
  rewrite fed_state_aborted in Hna.
  assert (Hst : fed_state t a = mkTranslator (same_proto t) (treated t a).2 (fed t a).2 (length (fed t a).2) false)
    by (unfold fed_state; by rewrite Hna).
  assert (Hfed : fed t (a ++ b) = ((fed t a).1 ++ (fed (fed_state t a) b).1, (fed (fed_state t a) b).2)).
  { rewrite Hst. unfold fed. cbn [buf]. by rewrite (assoc_L (++)), frames_of_app. }
  assert (Htr : treated t (a ++ b) = ((treated t a).1 ++ (treated (fed_state t a) b).1, (treated (fed_state t a) b).2)).
  { rewrite Hst in Hfed |- *. unfold treated. rewrite Hfed. cbn [fst pipe same_proto]. by rewrite visit_app. }
  assert (Hsame : same_proto (fed_state t a) = same_proto t) by by rewrite Hst.
  rewrite Wb, We, Fb, Fe, Sb, Se, Htr, Hfed, Hsame. cbn [fst]. split; [|split].
  - unfold outcomes_bytes. rewrite zip_with_app, concat_app; [done|]. unfold treated. by rewrite visit_length.
  - by rewrite bind_app.
  - unfold fed_state at 1 2. rewrite Hfed, Htr, Hsame. done.
Qed.

(** C9. Where the backend's bytes are cut into chunks does not matter: feeding two chunks emits the bytes
    and the events that feeding them at once emits, and leaves the same state - the search resumed three
    bytes before the end of what was searched misses no terminator and finds none twice - unless the first
    chunk ends in a frame past the buffer's cap. And the buffer never holds more than the cap. *)
Theorem cuts_do_not_matter a b t :
  egress_eventstream = false -> aborted t = false -> ready t ->
  let first := feed a t in
  let second := feed b first.2 in
  let whole := feed (a ++ b) t in
  ready first.2 /\ ready whole.2
  /\ (aborted first.2 = false ->
      bytes_out whole.1 = bytes_out first.1 ++ bytes_out second.1
      /\ emitted_events whole.1 = emitted_events first.1 ++ emitted_events second.1
      /\ whole.2 = second.2).
Proof. apply feed_twice. Qed.

(** ** Many chunks *)

Definition feed_all (chunks : list bytes) (t : Translator) : list Item * Translator :=
  let '(items, t) := visit feed chunks t in (concat items, t).

Lemma feed_all_cons c chunks t :
  feed_all (c :: chunks) t = ((feed c t).1 ++ (feed_all chunks (feed c t).2).1, (feed_all chunks (feed c t).2).2).
Proof. unfold feed_all. rewrite visit_cons. by destruct (visit feed chunks (feed c t).2). Qed.

Lemma feed_aborted chunks t : aborted t = true -> feed_all chunks t = ([], t).
Proof.
  intros Hab. induction chunks as [|c chunks IH]; [done|]. rewrite feed_all_cons.
  assert (feed c t = ([], t)) as -> by (unfold StreamTranslate.feed; by rewrite Hab). cbn [fst snd]. by rewrite IH.
Qed.

(** A stream that was not abandoned, as one feed of all its bytes. *)
Lemma feed_all_whole chunks t :
  egress_eventstream = false -> aborted t = false -> ready t -> aborted (feed_all chunks t).2 = false ->
  emitted_events (feed_all chunks t).1 = emitted_events (feed (concat chunks) t).1
  /\ bytes_out (feed_all chunks t).1 = bytes_out (feed (concat chunks) t).1
  /\ (feed_all chunks t).2 = (feed (concat chunks) t).2.
Proof.
  intros Heg. revert t. induction chunks as [|c chunks IH]; intros t Hab Hr Hna.
  - destruct (feed_spec [] t Heg Hab Hr) as (Fb & Fe & Fs). simpl concat. rewrite Fb, Fe, Fs.
    unfold fed_state, treated, fed. rewrite app_nil_r, frames_of_step, (rd_residue _ Hr). cbn [fst snd].
    pose proof (rd_bound _ Hr) as Hb. apply Z.ltb_ge in Hb. rewrite Hb. simpl. split_and!; try done.
    rewrite <- (rd_scanned _ Hr). destruct t. simpl in *. by rewrite Hab.
  - rewrite feed_all_cons in Hna |- *. cbn [fst snd] in *. destruct (aborted (feed c t).2) eqn:Hc.
    { rewrite feed_aborted in Hna by done. simpl in Hna. congruence. }
    destruct (feed_twice c (concat chunks) t Heg Hab Hr) as (R1 & _ & R2). destruct (R2 Hc) as (B & E & S).
    destruct (IH _ Hc R1 Hna) as (E' & B' & S'). simpl concat.
    by rewrite B, E, S, events_app, bytes_app, E', B', S'.
Qed.

Lemma build_ready same : ready (build same).
Proof. split; [done|done|]. vm_compute. discriminate. Qed.

End reassembly.
