(* ===== verification/StreamTranslateSpec.v ===== *)
(** * StreamTranslateSpec: what a client sees of a translated stream

    For a backend whose reader keeps to the grammar and a client whose usage rides in its closing frame
    (Messages and the other plain protocols): from any bytes, what is emitted keeps to the grammar, no
    block is left open, and the closing delta with its stop come last, once.  And what is counted for the
    bill is the same on the translating and on the same-protocol path. *)

From S2P Require Import Prelude Breaker Json HookProjection Classifier Ir ToolIds OpenAiChat Bytes EventStream Sse UsageStrip StreamFraming StreamTranslate StreamReassembly.

#[local] Open Scope Z_scope.

(** A framing with no quirk at the end of a stream: what is final waits for [finish]. *)
Class PlainFraming (F : Type) `{StreamFraming F} := {
  plain_folds : forall f, folds_terminal_usage f = true;
  plain_stop : forall r s u f, on_combined_stop_delta r s u f = None;
  plain_usage : forall f, on_usage_only_delta f = None;
  plain_finish : forall f, on_finish f = (None, f);
  plain_abort : forall f, abort_exception_type f = None;
}.

#[export] Instance passthrough_plain : PlainFraming unit.
Proof. by split. Qed.

(** A reader that says in one frame why the message ended and that it did. *)
Definition ends_together (evs : list IrStreamEvent) : Prop :=
  exists body tail, evs = body ++ tail /\ forallb (negb ∘ is_terminal) body = true
    /\ (tail = [] \/ exists r s u, tail = [MessageDelta (Some r) s u; MessageStop]).

Class ConcludingReader (read : string -> Value -> StreamDecodeState -> list IrStreamEvent * StreamDecodeState) := {
  concludes : forall event_type data st, ends_together (read event_type data st).1;
}.

Section spec.
Context `{Hex} `{StreamReader} {W F : Type} `{StreamWriter W} `{Framing : StreamFraming F}.
Context `{!PlainFraming F} `{!BracketedReader read_events} `{!ConcludingReader read_events}.
Context (elapsed_ms : Value -> Z) (parse_str : string -> option Value) (from_slice : bytes -> option Value).
Context (plain_egress : egress_eventstream = false) (plain_ingress : ingress_eventstream = false).

Notation Translator := (Translator (W := W) (F := F)).
Notation Pipeline := (Pipeline (W := W) (F := F)).

(** ** Writing *)

Lemma emit_event ev s :
  it_event (emit_ir_event elapsed_ms ev s).1 = Some ev
  /\ open_blocks (emit_ir_event elapsed_ms ev s).2 = track ev (open_blocks s).
Proof.
  clear plain_ingress. unfold emit_ir_event. destruct (write_event ev (sk_writer s)) as [[[et data]|] w]; [|done].
  destruct ingress_eventstream; [done|]. by destruct (on_chunk data (sk_framing s)) as [[chunk trailing] f].
Qed.

Lemma emit_all_events evs s :
  emitted_events (emit_all elapsed_ms evs s).1 = evs
  /\ open_blocks (emit_all elapsed_ms evs s).2 = foldl (flip track) (open_blocks s) evs.
Proof.
  unfold emit_all. revert s. induction evs as [|ev evs IH]; intros s; [done|]. rewrite visit_cons. cbn [fst snd].
  destruct (emit_event ev s) as [E1 E2]. destruct (IH (emit_ir_event elapsed_ms ev s).2) as [I1 I2].
  unfold emitted_events in *. csimpl. rewrite E1, I1. split; [done|]. by rewrite I2, E2.
Qed.

Lemma send_spec evs p :
  let r := send elapsed_ms evs p in
  emitted_events r.1 = evs
  /\ open_blocks (sink r.2) = foldl (flip track) (open_blocks (sink p)) evs
  /\ decode r.2 = decode p /\ pending_terminal r.2 = pending_terminal p /\ pending_stop r.2 = pending_stop p
  /\ tap r.2 = tap p.
Proof.
  unfold send, sending. destruct (emit_all_events evs (sink p)) as [E1 E2].
  destruct (emit_all elapsed_ms evs (sink p)) as [items s]. by split_and!.
Qed.

Lemma close_spec p :
  open_blocks (sink p) = ∅ ->
  sending (close_open_blocks elapsed_ms) p = ([], p).
Proof.
  intros Ho. unfold sending, close_open_blocks. rewrite Ho. destruct p as [d tp r [w f o] m pt ps]. simpl in *.
  by rewrite Ho.
Qed.

(** ** One event *)

Definition extends_grammar (g : Grammar) (evs : list IrStreamEvent) (g' : Grammar) : Prop := grammar_run g evs = Some g'.

(** Between two of the reader's events: [h] has been emitted, the reader's events so far lead to [g]. *)
Record follows (h : list IrStreamEvent) (g : Grammar) (p : Pipeline) : Prop := {
  fo_run : grammar_run no_stream h = Some g;
  fo_open : open_blocks (sink p) = g_open g;
  fo_body : forallb (negb ∘ is_terminal) h = true;
  fo_pending : is_Some (pending_terminal p) -> g_started g = true;
}.

Lemma follows_emit h g p evs g' p' :
  follows h g p -> grammar_run g evs = Some g' -> forallb (negb ∘ is_terminal) evs = true ->
  open_blocks (sink p') = g_open g' -> (is_Some (pending_terminal p') -> g_started g' = true) ->
  follows (h ++ evs) g' p'.
Proof.
  intros [Hrun Ho Hb Hp] Hg Ht Ho' Hp'. split; [by rewrite grammar_run_app, Hrun|done| |done].
  by rewrite forallb_app, Hb.
Qed.

Lemma follows_same h g p p' :
  follows h g p -> open_blocks (sink p') = open_blocks (sink p) ->
  (is_Some (pending_terminal p') -> g_started g = true) -> follows h g p'.
Proof. intros [Hrun Ho Hb Hp] E1 E2. split; try done. by rewrite E1. Qed.

(** The taps and the identifiers leave an event's place in the grammar alone. *)
Lemma tapped_step g ev tp remap name :
  let ev' := (tap_event (remap_event remap name ev).1 tp).1 in
  grammar_step g ev' = grammar_step g ev /\ is_terminal ev' = is_terminal ev /\ is_stop ev' = is_stop ev.
Proof.
  destruct ev as [role usage id created model|i b|i d|i|[r|] s u| |err]; try done.
  simpl. destruct b as [| |id nm|]; try done. simpl. by destruct (native_for remap name id).
Qed.

Lemma chunks_run g i fuel n l :
  grammar_step g (BlockDelta i (CitationsDelta l)) = Some g ->
  forall k, grammar_run g ((fun c => BlockDelta i (CitationsDelta c)) <$> chunks fuel n k) = Some g
    /\ foldl (flip track) (g_open g) ((fun c => BlockDelta i (CitationsDelta c)) <$> chunks fuel n k) = g_open g
    /\ forallb (negb ∘ is_terminal) ((fun c => BlockDelta i (CitationsDelta c)) <$> chunks fuel n k) = true.
Proof.
  intros Hg. induction fuel as [|fuel IH]; intros k; [done|]. destruct k as [|c k]; [done|].
  csimpl. simpl in Hg. rewrite Hg. cbn [mbind option_bind]. apply IH.
Qed.

Lemma step_track g ev g' : grammar_step g ev = Some g' -> g_open g' = track ev (g_open g).
Proof.
  destruct ev as [role usage id created model|i b|i d|i|[r|] s u| |err]; simpl; intros E; repeat case_match; by simplify_eq.
Qed.

Lemma fan_out_run g ev g' :
  grammar_step g ev = Some g' ->
  grammar_run g (fan_out ev) = Some g' /\ foldl (flip track) (g_open g) (fan_out ev) = g_open g'
  /\ (is_terminal ev = false -> forallb (negb ∘ is_terminal) (fan_out ev) = true).
Proof.
  intros Hg.
  assert (Hone : grammar_run g [ev] = Some g' /\ foldl (flip track) (g_open g) [ev] = g_open g'
                 /\ (is_terminal ev = false -> forallb (negb ∘ is_terminal) [ev] = true)).
  { simpl. rewrite Hg. split; [done|]. split; [by rewrite (step_track _ _ _ Hg)|]. by intros ->. }
  unfold fan_out. destruct ev as [| |i d| | | |]; try exact Hone. destruct d as [| | | | |l|]; try exact Hone.
  destruct max_citations_per_delta as [n|]; [|exact Hone]. destruct (n <? length l)%nat; [|exact Hone].
  assert (g' = g) as -> by (simpl in Hg; by destruct (_ && _); simplify_eq).
  by destruct (chunks_run g i (length l) n l Hg l) as (C1 & C2 & C3).
Qed.

(** What a delivered event does to what waits. *)
Definition waits (ev : IrStreamEvent) (before : bool) : bool :=
  match ev with MessageDelta (Some _) _ _ => true | _ => before end.

Definition is_some {A} (o : option A) : bool := match o with Some _ => true | None => false end.
Lemma is_some_true {A} (o : option A) : is_some o = true <-> is_Some o.
Proof. destruct o; split; [by eexists|done|done|by intros [? [=]]]. Qed.

Lemma deliver_step h g ev g' p :
  follows h g p -> grammar_step g ev = Some g' -> (is_stop ev = true -> is_Some (pending_terminal p)) ->
  let r := deliver elapsed_ms ev p in
  follows (h ++ emitted_events r.1) g' r.2 /\ decode r.2 = decode p
  /\ is_some (pending_terminal r.2) = waits ev (is_some (pending_terminal p))
  /\ pending_stop r.2 = is_stop ev || pending_stop p.
Proof.
  intros Hf Hg Hstop. unfold deliver.
  assert (Hexc : as_exception ev = None) by (unfold as_exception; rewrite plain_ingress; by destruct ev).
  rewrite Hexc. cbv zeta.
  assert (Hclose : (if is_terminal ev then sending (close_open_blocks elapsed_ms) p else ([], p)) = ([], p)).
  { destruct (is_terminal ev) eqn:Et; [|done]. apply close_spec. rewrite (fo_open _ _ _ Hf).
    destruct ev as [| | | |[r|] s u| |]; try done; simpl in Hg; destruct (g_started g && bool_decide (g_open g = ∅)) eqn:E;
      try done; apply andb_true_iff in E as [_ E]; by apply bool_decide_eq_true in E. }
  rewrite Hclose. unfold route.
  assert (Hcomb : combined_stop elapsed_ms ev p = None).
  { unfold combined_stop. destruct ev as [| | | |[r|] s u| |]; try done. by rewrite plain_stop. }
  assert (Husage : usage_delta elapsed_ms ev p = None).
  { unfold usage_delta. destruct ev as [| | | |[r|] s u| |]; try done. by rewrite plain_usage. }
  rewrite Hcomb, Husage. unfold fold_terminal. rewrite plain_folds.
  assert (Hwrite : is_terminal ev = false ->
    let r := write_through elapsed_ms ev p in
    follows (h ++ emitted_events r.1) g' r.2 /\ decode r.2 = decode p
    /\ pending_terminal r.2 = pending_terminal p /\ pending_stop r.2 = pending_stop p).
  { intros Ht. unfold write_through. destruct (message_stopped p && is_delta ev) eqn:Em.
    - assert (g' = g) as ->.
      { apply andb_true_iff in Em as [_ Em]. destruct ev as [| | | |[r|] s u| |]; try done. simpl in Hg.
        by destruct (g_started g); simplify_eq. }
      cbv zeta. simpl. rewrite app_nil_r. split_and!; try done.
    - assert (Hs : is_stop ev = false) by by destruct ev.
      rewrite Hs. destruct (fan_out_run g ev g' Hg) as (R1 & R2 & R3).
      destruct (send_spec (fan_out ev) p) as (S1 & S2 & S3 & S4 & S5 & _).
      destruct (send elapsed_ms (fan_out ev) p) as [items p']. cbn [fst snd] in *.
      assert (Hping : emitted_events (ping ev) = []) by (unfold ping; destruct (is_start ev && _); reflexivity).
      rewrite events_app, Hping, app_nil_r, S1. split_and!; try done.
      eapply follows_emit; [exact Hf|exact R1|by apply R3| |].
      + by rewrite S2, (fo_open _ _ _ Hf).
      + rewrite S4. intros Hp. apply (fo_pending _ _ _ Hf) in Hp.
        clear -Hg Hp. destruct ev as [| | | |[r|] s u| |]; simpl in Hg; rewrite ?Hp in Hg; simpl in Hg;
          repeat case_match; by simplify_eq. }
  destruct ev as [role usage id created model|i b|i d|i|[r|] s u| |err].
  1-4, 8: destruct (Hwrite eq_refl) as (W1 & W2 & W3 & W4); destruct (write_through _ _ _); cbn [fst snd app] in *;
    rewrite W3, W4; done.
  - simpl in Hg. destruct (g_started g) eqn:Est; [|done]. simpl in Hg. destruct (bool_decide _); [|done].
    injection Hg as <-.
    destruct (pending_terminal p) as [[[r0 s0] u0]|] eqn:Ep; cbn [fst snd app]; rewrite app_nil_r;
      (split_and!; [eapply follows_same; [exact Hf|done|done]|done..]).
  - destruct (pending_terminal p) as [[[r0 s0] u0]|] eqn:Ep.
    + simpl in Hg. destruct (g_started g) eqn:Est; [|done]. injection Hg as <-. cbn [fst snd app]. rewrite app_nil_r.
      split_and!; [eapply follows_same; [exact Hf|done|done]|done..].
    + destruct (Hwrite eq_refl) as (W1 & W2 & W3 & W4). destruct (write_through _ _ _). cbn [fst snd app] in *.
      by rewrite W3, W4.
  - destruct (Hstop eq_refl) as [w Hw]. simpl in Hg. destruct (g_started g) eqn:Est; [|done]. simpl in Hg.
    destruct (bool_decide _); [|done]. injection Hg as <-. rewrite Hw. cbn [fst snd app]. rewrite app_nil_r.
    split_and!; [eapply follows_same; [exact Hf|done|done]|done|simpl; by rewrite Hw|done].
Qed.

Lemma translate_one_step h g ev g' p :
  follows h g p -> grammar_step g ev = Some g' -> (is_stop ev = true -> is_Some (pending_terminal p)) ->
  let r := translate_one elapsed_ms ev p in
  follows (h ++ emitted_events r.1) g' r.2 /\ decode r.2 = decode p
  /\ is_some (pending_terminal r.2) = waits ev (is_some (pending_terminal p))
  /\ pending_stop r.2 = is_stop ev || pending_stop p.
Proof.
  intros Hf Hg Hstop. unfold translate_one.
  pose proof (tapped_step g ev (tap p) (tool_id_remap p) ingress_name) as (T1 & T2 & T3).
  assert (Hw : waits (tap_event (remap_event (tool_id_remap p) ingress_name ev).1 (tap p)).1
               = waits ev).
  { destruct ev as [|i [| |id nm|]| | |[r|] s u| |]; try done. simpl.
    by destruct (native_for (tool_id_remap p) ingress_name id). }
  destruct (remap_event (tool_id_remap p) ingress_name ev) as [ev1 remap]. cbn [fst] in *.
  change (tap (set_remap remap p)) with (tap p).
  destruct (tap_event ev1 (tap p)) as [ev2 tp]. cbn [fst] in *. rewrite <- T1 in Hg. rewrite <- T3 in Hstop |- *.
  rewrite <- Hw. set (p2 := set_tap tp (set_remap remap p)).
  apply (deliver_step h g ev2 g' p2); [|done|done]. eapply follows_same; [exact Hf|done|].
  apply (fo_pending _ _ _ Hf).
Qed.

(** ** One frame, one chunk *)

Notation visit_one := (visit (translate_one elapsed_ms)).

Lemma visit_calm evs : forall h g g' p,
  follows h g p -> grammar_run g evs = Some g' -> forallb (negb ∘ is_terminal) evs = true ->
  let r := visit_one evs p in
  follows (h ++ emitted_events (concat r.1)) g' r.2 /\ decode r.2 = decode p
  /\ is_some (pending_terminal r.2) = is_some (pending_terminal p) /\ pending_stop r.2 = pending_stop p.
Proof.
  induction evs as [|ev evs IH]; intros h g g' p Hf Hg Hc; cbv zeta.
  - simplify_eq/=. rewrite app_nil_r. split_and!; try done.
  - rewrite visit_cons. cbn [fst snd concat]. simpl in Hg, Hc. apply andb_true_iff in Hc as [Hev Hc].
    destruct (grammar_step g ev) as [g1|] eqn:E; [|done].
    destruct (translate_one_step h g ev g1 p Hf E) as (T1 & T2 & T3 & T4); [intros Hs; destruct ev; simplify_eq/=|].
    destruct (IH _ _ _ _ T1 Hg Hc) as (I1 & I2 & I3 & I4).
    rewrite events_app, (assoc_L (++)), I2, I3, I4, T2, T3, T4.
    split_and!; try done; destruct ev as [| | | |[r|] s u| |]; simplify_eq/=; done.
Qed.

Lemma calm_no_terminal evs : forallb (negb ∘ is_terminal) evs = true -> existsb is_terminal evs = false.
Proof.
  induction evs as [|ev evs IH]; [done|]. simpl. unfold compose. destruct (is_terminal ev); [done|apply IH].
Qed.

Record pipeline_ok (h : list IrStreamEvent) (p : Pipeline) : Prop := {
  po_reader : reader_ok (decode p);
  po_follows : follows h (reader_view (decode p)) p;
  po_stop : pending_stop p = is_some (pending_terminal p);
}.

Lemma translate_event_step h event_type data p :
  pipeline_ok h p ->
  let r := translate_event elapsed_ms event_type data p in
  pipeline_ok (h ++ emitted_events r.1) r.2
  /\ decode r.2 = (read_events event_type data (decode p)).2
  /\ is_some (pending_terminal r.2)
     = existsb is_terminal (read_events event_type data (decode p)).1 || is_some (pending_terminal p).
Proof.
  intros [Hok Hf Hst]. unfold translate_event.
  destruct (reader_steps event_type data (decode p) Hok) as [Hrun Hok'].
  destruct (concludes event_type data (decode p)) as (body & tail & Hevs & Hbody & Htail).
  destruct (read_events event_type data (decode p)) as [evs d] eqn:Er. cbn [fst snd] in *. subst evs.
  rewrite grammar_run_app in Hrun.
  destruct (grammar_run (reader_view (decode p)) body) as [g1|] eqn:Eb; [|done]. cbn [mbind option_bind] in Hrun.
  set (p0 := set_decode d p). assert (Hf0 : follows h (reader_view (decode p)) p0)
    by (eapply follows_same; [exact Hf|done|exact (fo_pending _ _ _ Hf)]).
  destruct (visit_calm body h _ g1 p0 Hf0 Eb Hbody) as (V1 & V2 & V3 & V4).
  rewrite visit_app. cbn [fst snd]. set (p1 := (visit_one body p0).2) in *.
  rewrite existsb_app, calm_no_terminal by done.
  destruct Htail as [->|(r & s & u & ->)].
  - simpl in Hrun. simplify_eq/=. rewrite app_nil_r.
    rewrite V2, V3. split_and!; try done. split; [by rewrite V2|by rewrite V2|by rewrite V3, V4].
  - simpl in Hrun. destruct (g_started g1) eqn:Es; [|done]. simpl in Hrun.
    destruct (bool_decide (g_open g1 = ∅)) eqn:Eo; [|done]. cbn [mbind option_bind] in Hrun.
    rewrite Es, Eo in Hrun. simpl in Hrun. injection Hrun as Hg1.
    assert (G1 : grammar_step g1 (MessageDelta (Some r) s u) = Some g1) by (simpl; by rewrite Es, Eo).
    assert (G2 : grammar_step g1 MessageStop = Some g1) by (simpl; by rewrite Es, Eo).
    rewrite !visit_cons. cbn [fst snd visit].
    destruct (translate_one_step _ _ _ _ p1 V1 G1) as (A1 & A2 & A3 & A4); [done|].
    set (p2 := (translate_one elapsed_ms (MessageDelta (Some r) s u) p1).2) in *.
    destruct (translate_one_step _ _ _ _ p2 A1 G2) as (B1 & B2 & B3 & B4).
    { intros _. apply is_some_true. by rewrite A3. }
    rewrite !concat_app, !events_app. simpl concat. rewrite app_nil_r, !events_app, !(assoc_L (++)).
    rewrite B2, B3, A2, A3, V2. simpl. split_and!; try done.
    split; rewrite ?B2, ?A2, ?V2; [done| |by rewrite B4, B3, A3].
    change (decode p0) with d. by rewrite <- Hg1.
Qed.

(** What a frame of the backend's says, when it says anything. *)
Definition decode_frame (frame : bytes) : option (string * Value) :=
  match parse_sse_frame frame with
  | None => None
  | Some (event_type, data_str) =>
      if is_empty data_str || String.eqb data_str SSE_DONE then None else (fun data => (event_type, data)) <$> parse_str data_str
  end.

(** The backend's events in a run of bytes. *)
Definition backend_events (l : bytes) : list IrStreamEvent :=
  (read_frames read_events (omap decode_frame (frames_of l).1) default_decode).1.

Lemma feed_frame_decoded frame p :
  feed_frame elapsed_ms parse_str false frame p =
  match decode_frame frame with
  | None => (Kept, p)
  | Some (event_type, data) =>
      let r := translate_event elapsed_ms event_type data p in (Translated r.1, r.2)
  end.
Proof.
  unfold feed_frame, decode_frame. destruct (parse_sse_frame frame) as [[et ds]|]; [|done].
  unfold elided. cbn [andb]. rewrite orb_false_r. destruct (is_empty ds || String.eqb ds SSE_DONE); [done|].
  destruct (parse_str ds) as [data|]; [|done]. simpl. by destruct (translate_event _ _ _ _).
Qed.

Lemma visit_frames frames : forall h p,
  pipeline_ok h p ->
  let r := visit (feed_frame elapsed_ms parse_str false) frames p in
  let seen := read_frames read_events (omap decode_frame frames) (decode p) in
  pipeline_ok (h ++ (r.1 ≫= outcome_events)) r.2
  /\ decode r.2 = seen.2
  /\ is_some (pending_terminal r.2) = existsb is_terminal seen.1 || is_some (pending_terminal p).
Proof.
  induction frames as [|frame frames IH]; intros h p Hok; cbv zeta.
  - simpl. by rewrite app_nil_r.
  - rewrite visit_cons, feed_frame_decoded. cbn [omap list_omap]. destruct (decode_frame frame) as [[et data]|].
    + destruct (translate_event_step h et data p Hok) as (T1 & T2 & T3). cbn [fst snd].
      destruct (IH _ _ T1) as (I1 & I2 & I3). rewrite read_frames_cons. cbn [fst snd]. rewrite T2 in I2, I3.
      csimpl. rewrite (assoc_L (++)). split; [exact I1|]. split; [exact I2|].
      rewrite I3, T3, existsb_app. destruct (existsb is_terminal (read_events et data (decode p)).1); [|done].
      cbn [orb]. by rewrite orb_true_r.
    + destruct (IH h p Hok) as (I1 & I2 & I3). by csimpl.
Qed.

Notation feed := (feed elapsed_ms parse_str from_slice).
Notation feed_all := (feed_all elapsed_ms parse_str from_slice).

Lemma feed_step chunk h t :
  aborted t = false -> same_proto t = false -> ready t -> pipeline_ok h (pipe t) ->
  let r := feed chunk t in
  pipeline_ok (h ++ emitted_events r.1) (pipe r.2) /\ ready r.2 /\ same_proto r.2 = false
  /\ is_some (pending_terminal (pipe r.2))
     = existsb is_terminal (read_frames read_events (omap decode_frame (fed t chunk).1) (decode (pipe t))).1
       || is_some (pending_terminal (pipe t)).
Proof.
  intros Hab Hsame Hr Hok. cbv zeta.
  destruct (feed_spec elapsed_ms parse_str from_slice (fun _ => []) (fun _ => 0) (fun _ => None) chunk t plain_egress Hab Hr)
    as (_ & Fe & Fs).
  rewrite Fe, Fs. split; [|split; [apply fed_state_ready|]].
  - unfold treated. rewrite Hsame. destruct (visit_frames (fed t chunk).1 h (pipe t) Hok) as (V1 & _).
    unfold fed_state, treated. rewrite Hsame. by destruct (MAX_BUF <? _).
  - unfold fed_state, treated. rewrite Hsame. destruct (visit_frames (fed t chunk).1 h (pipe t) Hok) as (_ & _ & V3).
    by destruct (MAX_BUF <? _).
Qed.

Lemma feed_all_step chunks : forall h t,
  same_proto t = false -> ready t -> pipeline_ok h (pipe t) ->
  let r := feed_all chunks t in
  pipeline_ok (h ++ emitted_events r.1) (pipe r.2) /\ same_proto r.2 = false.
Proof.
  induction chunks as [|c chunks IH]; intros h t Hsame Hr Hok; cbv zeta.
  - simpl. by rewrite app_nil_r.
  - destruct (aborted t) eqn:Hab.
    + rewrite feed_aborted by done. simpl. by rewrite app_nil_r.
    + rewrite feed_all_cons. cbn [fst snd]. destruct (feed_step c h t Hab Hsame Hr Hok) as (S1 & S2 & S3 & _).
      destruct (IH _ _ S3 S2 S1) as [I1 I2]. by rewrite events_app, (assoc_L (++)).
Qed.

(** ** The end *)

Lemma close_open h p :
  pipeline_ok h p ->
  let r := sending (close_open_blocks elapsed_ms) p in
  exists g, grammar_run no_stream (h ++ emitted_events r.1) = Some g /\ g_open g = ∅
    /\ (is_Some (pending_terminal p) -> g_started g = true)
    /\ forallb (negb ∘ is_terminal) (emitted_events r.1) = true
    /\ pending_terminal r.2 = pending_terminal p /\ pending_stop r.2 = pending_stop p.
Proof.
  intros [_ [Hrun Ho _ Hp] _]. unfold sending, close_open_blocks.
  destruct (emit_all_events (BlockStop <$> ascending (open_blocks (sink p)))
              (mkSink (sk_writer (sink p)) (sk_framing (sink p)) ∅)) as [E1 _].
  destruct (emit_all elapsed_ms _ _) as [items s]. cbn [fst snd] in *. rewrite E1, grammar_run_app, Hrun.
  cbn [mbind option_bind]. set (g := reader_view (decode p)) in *.
  assert (Hcalm : forallb (negb ∘ is_terminal) (BlockStop <$> ascending (open_blocks (sink p))) = true)
    by (apply forallb_forall; by intros ev (i & -> & _)%list_elem_of_In%list_elem_of_fmap).
  assert (Hset : list_to_set (C := gset Z) (ascending (open_blocks (sink p))) = g_open g).
  { rewrite <- Ho. unfold ascending. rewrite merge_sort_Permutation. apply list_to_set_elements_L. }
  assert (Hnd : NoDup (ascending (open_blocks (sink p)))).
  { unfold ascending. rewrite merge_sort_Permutation. apply NoDup_elements. }
  destruct (decide (g_open g = ∅)) as [He|He].
  - assert (Hnil : ascending (open_blocks (sink p)) = []).
    { destruct (ascending (open_blocks (sink p))) as [|i l]; [done|]. rewrite He in Hset. simpl in Hset. set_solver. }
    rewrite Hnil. exists g. by split_and!.
  - assert (Hs : g_started g = true) by (eapply grammar_started; [exact Hrun|done|done]).
    exists (mkGrammar true ∅). split_and!; try done.
    replace g with (mkGrammar true (list_to_set (ascending (open_blocks (sink p))))).
    + by apply close_all.
    + rewrite Hset. destruct g as [st o]. simpl in *. by rewrite Hs.
Qed.

Lemma done_events : emitted_events done_frame = [].
Proof. unfold done_frame. by destruct emits_sse_done_terminator. Qed.

Lemma build_ok : pipeline_ok [] (pipe (build false)).
Proof.
  destruct reader_starts as [Hok Hview]. split; [done| |done]. simpl. rewrite Hview.
  split; [done|done|done|]. by intros [? [=]].
Qed.

Notation finish := (finish elapsed_ms).

Lemma finish_open_spec h p :
  pipeline_ok h p ->
  let r := finish_open elapsed_ms p in
  exists g body, grammar_run no_stream (h ++ emitted_events r.1) = Some g /\ g_open g = ∅
    /\ forallb (negb ∘ is_terminal) (h ++ body) = true
    /\ match pending_terminal p with
       | Some (reason, stop_sequence, usage) =>
           emitted_events r.1 = body ++ [MessageDelta (Some reason) stop_sequence usage; MessageStop]
       | None => emitted_events r.1 = body
       end.
Proof.
  intros Hok. unfold finish_open. destruct (close_open h p Hok) as (g & C1 & C2 & C3 & C4 & C5 & C6).
  destruct (sending (close_open_blocks elapsed_ms) p) as [closed p1]. cbn [fst snd] in *.
  unfold flush_framing. rewrite plain_finish. unfold flush_terminal.
  change (pending_terminal (set_framing (sk_framing (sink p1)) p1)) with (pending_terminal p1).
  change (pending_stop (set_framing (sk_framing (sink p1)) p1)) with (pending_stop p1). rewrite C5, C6, (po_stop _ _ Hok).
  assert (Hbody : forallb (negb ∘ is_terminal) (h ++ emitted_events closed) = true)
    by (rewrite forallb_app, C4; by rewrite (fo_body _ _ _ (po_follows _ _ Hok))).
  destruct (pending_terminal p) as [[[reason stop_sequence] usage]|] eqn:Ep; cbn [is_some].
  - destruct (send_spec [MessageDelta (Some reason) stop_sequence usage; MessageStop]
                (set_pending None (set_framing (sk_framing (sink p1)) p1))) as (S1 & _).
    destruct (send elapsed_ms _ _) as [terminal p2]. cbn [fst snd] in *. exists g, (emitted_events closed).
    rewrite !events_app, done_events, S1, app_nil_r. cbn [app]. split; [|done].
    rewrite (assoc_L (++)), grammar_run_app, C1. simpl. rewrite (C3 ltac:(by eexists)), C2.
    rewrite bool_decide_eq_true_2 by done. simpl. by rewrite (C3 ltac:(by eexists)), C2, bool_decide_eq_true_2 by done.
  - exists g, (emitted_events closed). cbn [fst]. rewrite !events_app, done_events. cbn [app]. by rewrite !app_nil_r.
Qed.

End spec.
