(* ===== verification/StreamBill.v ===== *)
(** * StreamBill: what a stream is billed for

    Usage and the error that ended a stream are learnt from the backend's events on two paths: on the
    translating one as they pass, on the same-protocol one beside the bytes.  Both are proved to learn
    what a reference meter learns, which knows neither the client's protocol nor its framing. *)

From S2P Require Import Prelude Breaker Json HookProjection Classifier Ir ToolIds OpenAiChat Bytes EventStream EventStreamSpec Sse UsageStrip StreamFraming StreamTranslate StreamReassembly StreamTranslateSpec.

#[local] Open Scope Z_scope.

(** ** The taps *)

Lemma tap_is_usage_only ev tp : (tap_event ev tp).2 = usage_only ev tp.
Proof.
  destruct tp as [start last err].
  destruct ev as [role [u|] id created model|i b|i d|i|r s u| |e]; try done; destruct start as [start|]; try done;
    simpl; unfold accumulate, backfill; simpl; destruct (input_tokens u =? 0); simpl; try done;
    by destruct (cache_creation_input_tokens u), (cache_read_input_tokens u).
Qed.

Lemma usage_only_remap `{Hex} ev remap name tp : usage_only (remap_event remap name ev).1 tp = usage_only ev tp.
Proof. destruct ev as [| i [| |id nm|] | | | | |]; try done. simpl. by destruct (native_for remap name id). Qed.

(** The drain reads the same frames whether or not it copies their bytes out. *)
Lemma drain_loop_sink fuel buf o p s :
  match drain_loop fuel buf (mkDrain o p None), drain_loop fuel buf (mkDrain o p (Some s)) with
  | Some (st, d), Some (st', d') => st = st' /\ out d = out d' /\ pos d = pos d'
  | None, None => True
  | _, _ => False
  end.
Proof.
  revert o p s. induction fuel as [|fuel IH]; intros o p s; [done|]. cbn [drain_loop]. unfold drain_round. simpl pos.
  destruct (slice_from buf p) as [rem|]; [|done]. cbn [mbind option_bind].
  destruct (read_frame rem) as [[st|[frame total]]|] eqn:E; cbn [mbind option_bind]; [done| |done].
  cbn [EventStream.sink]. pose proof (read_frame_bounds _ _ E) as [Hlo Hhi].
  rewrite (push_verbatim_Some (Some s) rem total), (push_verbatim_Some None rem total)
    by (unfold MIN_FRAME_BYTES, PRELUDE_LEN, CRC_BYTES in *; lia).
  cbn [mbind option_bind]. apply IH.
Qed.

Lemma drain_sink buf s :
  match drain_frames_checked buf None, drain_frames_checked buf (Some s) with
  | Some d, Some d' => frames d = frames d' /\ status d = status d' /\ buffer d = buffer d'
  | None, None => True
  | _, _ => False
  end.
Proof.
  unfold drain_frames_checked. pose proof (drain_loop_sink (S (length buf)) buf [] 0 s) as Hl.
  destruct (drain_loop _ _ (mkDrain [] 0 None)) as [[st d]|], (drain_loop _ _ (mkDrain [] 0 (Some s))) as [[st' d']|];
    try done. destruct Hl as (-> & Ho & Hp). cbn [mbind option_bind]. rewrite Hp.
  destruct st'; [destruct (slice_from buf (pos d'))|]; cbn [mbind option_bind]; done.
Qed.

(** ** The meter *)

(** The Messages reader learns nothing from the frames the same-protocol path elides. *)
Class ElidableReader `{StreamReader} := {
  elided_learns : forall event_type data d, elided true event_type = true ->
    (read_events event_type data d).2 = d
    /\ forall tp, foldl (flip usage_only) tp (read_events event_type data d).1 = tp;
}.

Section meter.
Context `{StreamReader} (parse_str : string -> option Value) (from_slice : bytes -> option Value).

Definition Knowledge : Type := StreamDecodeState * Tap.

Record Meter := mkMeter { m_known : Knowledge; m_buf : bytes; m_lost : bool }.

Definition new_meter : Meter := mkMeter (default_decode, no_tap) [] false.

Definition learn_event (k : Knowledge) (ev : string * Value) : Knowledge :=
  let '(evs, d) := read_events ev.1 ev.2 k.1 in (d, foldl (flip usage_only) k.2 evs).

Definition learn_frame (k : Knowledge) (frame : bytes) : Knowledge :=
  match decode_frame parse_str frame with Some ev => learn_event k ev | None => k end.

Definition learn_payload (k : Knowledge) (frame : bytes * bytes) : Knowledge :=
  match from_slice frame.2 with
  | None => k
  | Some data =>
      let event_type := text_of frame.1 in
      learn_event k (event_type, match data with
                                 | Object obj => Object (set_field "type" (Str event_type) obj)
                                 | data => data
                                 end)
  end.

Definition keep (k : Knowledge) (rest : bytes) (malformed : bool) : Meter :=
  if malformed || (MAX_BUF <? zlen rest) then mkMeter k [] true else mkMeter k rest false.

Definition meter_feed (chunk : bytes) (m : Meter) : Meter :=
  if m_lost m then m
  else if egress_eventstream then
    match drain_frames_checked (m_buf m ++ chunk) None with
    | None => mkMeter (m_known m) (m_buf m ++ chunk) false
    | Some drained =>
        keep (foldl learn_payload (m_known m) (frames drained)) (buffer drained)
          (match status drained with MalformedPrelude => true | DrainOk => false end)
    end
  else
    let '(frames, rest) := frames_of (m_buf m ++ chunk) in
    keep (foldl learn_frame (m_known m) frames) rest false.

(** ** A translator is a meter *)

Context `{!ElidableReader} `{Hex} {W F : Type} `{StreamWriter W} `{Framing : StreamFraming F}.
Context (elapsed_ms : Value -> Z).

Notation Translator := (Translator (W := W) (F := F)).
Notation Pipeline := (Pipeline (W := W) (F := F)).
Notation feed := (feed elapsed_ms parse_str from_slice).
Notation feed_all := (feed_all elapsed_ms parse_str from_slice).

Definition known (p : Pipeline) : Knowledge := (decode p, tap p).
Definition meter_of (t : Translator) : Meter := mkMeter (known (pipe t)) (buf t) (aborted t).

Lemma send_known evs p : known (send elapsed_ms evs p).2 = known p.
Proof. destruct (send_spec elapsed_ms evs p) as (_ & _ & E1 & _ & _ & E2). unfold known. by rewrite E1, E2. Qed.

Lemma sending_known f (p : Pipeline) : known (sending f p).2 = known p.
Proof. unfold sending. by destruct (f (sink p)). Qed.

Lemma route_known ev p : known (route elapsed_ms ev p).2 = known p.
Proof.
  unfold route.
  destruct (combined_stop elapsed_ms ev p) as [r|] eqn:E1.
  { unfold combined_stop in E1. destruct ev as [| | | |[reason|] s u| |]; try done.
    destruct (on_combined_stop_delta _ _ _ _) as [[evs f]|]; simplify_eq. by rewrite send_known. }
  destruct (fold_terminal ev p) as [p'|] eqn:E2.
  { unfold fold_terminal in E2. destruct (folds_terminal_usage _); [|done].
    destruct ev as [| | | |[reason|] s u| |], (pending_terminal p) as [[[r0 s0] u0]|]; by simplify_eq. }
  destruct (usage_delta elapsed_ms ev p) as [r|] eqn:E3.
  { unfold usage_delta in E3. destruct ev as [| | | |[reason|] s u| |]; try done.
    destruct (on_usage_only_delta _) as [[[] f]|]; simplify_eq; [by rewrite send_known|done]. }
  unfold write_through. destruct (message_stopped p && is_delta ev); [done|].
  pose proof (send_known (fan_out ev) (if is_stop ev then set_stopped true p else p)) as Hs.
  destruct (send elapsed_ms (fan_out ev) _) as [items p']. cbn [snd] in *. rewrite Hs. by destruct (is_stop ev).
Qed.

Lemma deliver_known ev p : known (deliver elapsed_ms ev p).2 = known p.
Proof.
  unfold deliver. destruct (as_exception ev) as [item|]; [done|].
  assert (Hc : known (if is_terminal ev then sending (close_open_blocks elapsed_ms) p else ([], p)).2 = known p)
    by (destruct (is_terminal ev); [apply sending_known|done]).
  destruct (if is_terminal ev then _ else _) as [closed p']. cbn [snd] in Hc. rewrite <- Hc.
  pose proof (route_known ev p') as Hr. by destruct (route elapsed_ms ev p').
Qed.

Lemma translate_one_known ev p :
  known (translate_one elapsed_ms ev p).2 = (decode p, usage_only ev (tap p)).
Proof.
  unfold translate_one. set (r := remap_event _ _ _).
  assert (Hu : usage_only r.1 (tap p) = usage_only ev (tap p)) by apply usage_only_remap.
  destruct r as [ev' remap]. cbn [fst] in Hu. pose proof (tap_is_usage_only ev' (tap p)) as Ht.
  change (tap (set_remap remap p)) with (tap p). destruct (tap_event ev' (tap p)) as [ev2 tp]. cbn [snd] in Ht.
  rewrite deliver_known. unfold known. simpl. by rewrite Ht, Hu.
Qed.

Lemma translate_event_known event_type data p :
  known (translate_event elapsed_ms event_type data p).2 = learn_event (known p) (event_type, data).
Proof.
  unfold translate_event, learn_event. cbn [fst snd]. change (known p).1 with (decode p). change (known p).2 with (tap p).
  destruct (read_events event_type data (decode p)) as [evs d].
  assert (Hv : forall q, known (visit (translate_one elapsed_ms) evs q).2
                         = (decode q, foldl (flip usage_only) (tap q) evs)).
  { induction evs as [|ev evs IH]; intros q; [done|]. rewrite visit_cons. cbn [snd foldl].
    rewrite IH. pose proof (translate_one_known ev q) as Hk. unfold known in Hk. injection Hk as -> ->. done. }
  specialize (Hv (set_decode d p)). by destruct (visit (translate_one elapsed_ms) evs (set_decode d p)).
Qed.

Lemma extract_known event_type data p :
  known (extract_usage_only event_type data p) = learn_event (known p) (event_type, data).
Proof.
  unfold extract_usage_only, learn_event. cbn [fst snd]. change (known p).1 with (decode p).
  by destruct (read_events event_type data (decode p)).
Qed.

Lemma feed_frame_known same frame p :
  known (feed_frame elapsed_ms parse_str same frame p).2 = learn_frame (known p) frame.
Proof.
  unfold feed_frame, learn_frame, decode_frame. destruct (parse_sse_frame frame) as [[et ds]|]; [|done].
  destruct (is_empty ds || String.eqb ds SSE_DONE); [done|]. simpl orb.
  destruct (elided same et) eqn:Ee.
  - destruct (parse_str ds) as [data|]; [|done]. cbn [fmap option_fmap option_map snd].
    assert (Ht : elided true et = true) by by (unfold elided in *; destruct same).
    destruct (elided_learns et data (decode p) Ht) as [L1 L2]. unfold learn_event. cbn [fst snd].
    change (known p).1 with (decode p). destruct (read_events et data (decode p)) as [evs d]. cbn [fst snd] in *.
    by rewrite L2, L1.
  - destruct (parse_str ds) as [data|]; [|done]. cbn [fmap option_fmap option_map].
    destruct same.
    + cbn [snd]. apply extract_known.
    + rewrite <- translate_event_known. by destruct (translate_event elapsed_ms et data p).
Qed.

Lemma feed_payload_known same frame p :
  known (feed_payload elapsed_ms from_slice same frame p).2 = learn_payload (known p) frame.
Proof.
  unfold feed_payload, learn_payload. destruct (from_slice frame.2) as [data|]; [|done]. destruct same.
  - apply extract_known.
  - apply translate_event_known.
Qed.

Lemma visit_known {B A} (f : A -> Pipeline -> B * Pipeline) (g : Knowledge -> A -> Knowledge) l :
  (forall a p, known (f a p).2 = g (known p) a) ->
  forall p, known (visit f l p).2 = foldl g (known p) l.
Proof.
  intros Hf. induction l as [|a l IH]; intros p; [done|]. rewrite visit_cons. cbn [snd foldl]. by rewrite IH, Hf.
Qed.

Lemma abort_meter (t : Translator) : meter_of (abort t) = mkMeter (known (pipe t)) [] true.
Proof. done. Qed.

(** Between feeds, on either framing. *)
Definition metered (t : Translator) : Prop := egress_eventstream = false -> aborted t = false -> ready t.

Lemma feed_metered chunk t :
  metered t ->
  meter_of (feed chunk t).2 = meter_feed chunk (meter_of t) /\ metered (feed chunk t).2.
Proof.
  intros Hm. unfold meter_feed. change (m_lost (meter_of t)) with (aborted t).
  destruct (aborted t) eqn:Hab.
  { assert (feed chunk t = ([], t)) as -> by (unfold StreamTranslate.feed; by rewrite Hab). done. }
  destruct egress_eventstream eqn:Heg.
  - split; [|by intros E; rewrite Heg in E]. unfold StreamTranslate.feed. rewrite Hab, Heg. unfold feed_eventstream.
    set (t1 := set_buffer (buf t ++ chunk) (scanned t) t). change (buf t1) with (buf t ++ chunk).
    change (m_buf (meter_of t)) with (buf t). change (same_proto t1) with (same_proto t).
    pose proof (drain_sink (buf t ++ chunk) []) as Hd.
    assert (Hsink : match drain_frames_checked (buf t ++ chunk) None,
                          drain_frames_checked (buf t ++ chunk) (if same_proto t then Some [] else None) with
                    | Some d, Some d' => frames d = frames d' /\ status d = status d' /\ buffer d = buffer d'
                    | None, None => True
                    | _, _ => False
                    end).
    { destruct (same_proto t); [exact Hd|]. by destruct (drain_frames_checked (buf t ++ chunk) None). }
    clear Hd. destruct (drain_frames_checked (buf t ++ chunk) None) as [d|],
      (drain_frames_checked (buf t ++ chunk) (if same_proto t then Some [] else None)) as [d'|]; try done.
    + destruct Hsink as (-> & -> & ->). cbn [mbind option_bind].
      pose proof (visit_known (feed_payload elapsed_ms from_slice (same_proto t)) learn_payload (frames d')
                    (feed_payload_known (same_proto t)) (pipe t1)) as Hv.
      destruct (visit _ (frames d') (pipe t1)) as [items p]. cbn [snd] in Hv. cbn [default].
      unfold keep. change (m_known (meter_of t)) with (known (pipe t1)). rewrite <- Hv. simpl buf.
      destruct (status d'); simpl orb; [|done]. destruct (MAX_BUF <? zlen (buffer d')); [done|].
      unfold meter_of. simpl. by rewrite Hab.
    + cbn [mbind option_bind default snd]. unfold meter_of. cbn [pipe buf aborted set_buffer t1]. by rewrite Hab.
  - destruct (feed_spec elapsed_ms parse_str from_slice (fun _ => []) (fun _ => 0) (fun _ => None) chunk t Heg Hab
                (Hm Heg Hab)) as (_ & _ & ->).
    split; [|intros _ _; apply fed_state_ready].
    change (m_buf (meter_of t)) with (buf t). unfold fed_state, treated.
    pose proof (visit_known (feed_frame elapsed_ms parse_str (same_proto t)) learn_frame (fed t chunk).1
                  (feed_frame_known (same_proto t)) (pipe t)) as Hv.
    unfold fed in *. destruct (frames_of (buf t ++ chunk)) as [frames rest]. cbn [fst snd] in *.
    unfold keep. change (m_known (meter_of t)) with (known (pipe t)). rewrite <- Hv. simpl orb.
    by destruct (MAX_BUF <? zlen rest).
Qed.

Lemma build_metered same : metered (build same).
Proof. intros _ _. apply build_ready. Qed.

Lemma feed_all_metered chunks t :
  metered t -> meter_of (feed_all chunks t).2 = foldl (flip meter_feed) (meter_of t) chunks.
Proof.
  revert t. induction chunks as [|c chunks IH]; intros t Hm; [done|]. rewrite feed_all_cons. cbn [snd foldl].
  destruct (feed_metered c t Hm) as [E Hm']. rewrite (IH _ Hm'), E. done.
Qed.

Lemma finish_known t : known (pipe (finish elapsed_ms t).2) = known (pipe t).
Proof.
  unfold finish. destruct (negb (aborted t) && same_proto t); [done|].
  assert (Hk : known ((if aborted t then finish_aborted elapsed_ms else finish_open elapsed_ms) (pipe t)).2
               = known (pipe t)).
  { destruct (aborted t).
    - unfold finish_aborted. destruct (abort_exception_type _); [done|].
      pose proof (send_known [abort_error] (pipe t)) as Hs. by destruct (send elapsed_ms [abort_error] (pipe t)).
    - unfold finish_open. pose proof (sending_known (close_open_blocks elapsed_ms) (pipe t)) as Hc.
      destruct (sending (close_open_blocks elapsed_ms) (pipe t)) as [closed p1]. cbn [snd] in Hc. rewrite <- Hc. clear Hc.
      assert (Hf : known (flush_framing elapsed_ms p1).2 = known p1).
      { unfold flush_framing. destruct (on_finish (sk_framing (sink p1))) as [[ev|] f]; [|done]. by rewrite send_known. }
      destruct (flush_framing elapsed_ms p1) as [trailing p2]. cbn [snd] in Hf. rewrite <- Hf. clear Hf.
      assert (Ht : known (flush_terminal elapsed_ms p2).2 = known p2).
      { unfold flush_terminal. destruct (pending_terminal p2) as [[[r s] u]|]; [|done]. by rewrite send_known. }
      by destruct (flush_terminal elapsed_ms p2) as [terminal p3]. }
  by destruct ((if aborted t then finish_aborted elapsed_ms else finish_open elapsed_ms) (pipe t)).
Qed.

(** What is known at the end of a stream, and whether it was abandoned. *)
Definition settled (chunks : list bytes) (same : bool) : Knowledge * bool :=
  let t := (finish elapsed_ms (feed_all chunks (build same)).2).2 in (known (pipe t), aborted t).

Lemma settled_is_metered chunks same :
  settled chunks same
  = let m := foldl (flip meter_feed) new_meter chunks in (m_known m, m_lost m).
Proof.
  pose proof (feed_all_metered chunks (build same) (build_metered same)) as Hm. unfold settled. cbv zeta.
  rewrite finish_known. change new_meter with (meter_of (build same)). rewrite <- Hm. f_equal.
  unfold finish. destruct (negb _ && _); [done|]. by destruct ((if aborted _ then _ else _) _).
Qed.
End meter.

Section two_clients.
Context `{Hex} `{StreamReader} `{!ElidableReader}.
Context {W1 F1 : Type} `{StreamWriter W1} `{StreamFraming F1} {W2 F2 : Type} `{StreamWriter W2} `{StreamFraming F2}.
Context (parse_str : string -> option Value) (from_slice : bytes -> option Value).

(** C11. A request is billed, and the breaker told, by what the backend sent and by nothing else: for any
    bytes in any chunks, SSE or event-stream, two clients - of whatever protocols, framings and clocks, on
    the translating path or on the same-protocol path, which decodes no frame it can do without - are left
    with the same usage, the same terminal error and the same verdict whether the stream was abandoned;
    all of it is what a meter learns that reads the backend's frames in order. *)
Theorem the_client_does_not_change_the_bill chunks same1 same2 clock1 clock2 :
  settled parse_str from_slice (W := W1) (F := F1) clock1 chunks same1
  = settled parse_str from_slice (W := W2) (F := F2) clock2 chunks same2
  /\ settled parse_str from_slice (W := W1) (F := F1) clock1 chunks same1
     = let m := foldl (flip (meter_feed parse_str from_slice)) new_meter chunks in (m_known m, m_lost m).
Proof. by rewrite !settled_is_metered. Qed.
End two_clients.
