(* ===== verification/StreamClients.v ===== *)
(** * StreamClients: what particular clients are promised of a stream

    A client that speaks the backend's protocol receives the backend's bytes; an AWS client receives
    exactly one metadata frame. *)

From S2P Require Import Prelude Breaker Json HookProjection Classifier Ir ToolIds OpenAiChat Bytes EventStream EventStreamSpec Sse UsageStrip StreamFraming StreamTranslate StreamReassembly StreamTranslateSpec StreamBill.

#[local] Open Scope Z_scope.

(** ** The same protocol *)

Section verbatim.
Context `{Hex} `{StreamReader} {W F : Type} `{StreamWriter W} `{Framing : StreamFraming F}.
Context (elapsed_ms : Value -> Z) (parse_str : string -> option Value) (from_slice : bytes -> option Value).
Context (to_vec : Value -> bytes) (crc32 : bytes -> Z) (json_message : bytes -> option bytes).

Notation Translator := (Translator (W := W) (F := F)).
Notation Pipeline := (Pipeline (W := W) (F := F)).
Notation feed := (feed elapsed_ms parse_str from_slice).
Notation feed_all := (feed_all elapsed_ms parse_str from_slice).
Notation bytes_out := (bytes_out to_vec crc32 json_message).

(** A framing that neither drops nor rewrites a frame: every protocol's but Chat Completions', and that
    one's for a client that asked for usage. *)
Definition inert (f : F) : Prop := forall data, suppress_frame f data = false /\ strip_usage f data = false.

Lemma extract_sink event_type data (p : Pipeline) : sink (extract_usage_only event_type data p) = sink p.
Proof. unfold extract_usage_only. by destruct (read_events event_type data (decode p)). Qed.

Lemma feed_frame_kept frame (p : Pipeline) :
  inert (sk_framing (sink p)) ->
  (feed_frame elapsed_ms parse_str true frame p).1 = Kept
  /\ sink (feed_frame elapsed_ms parse_str true frame p).2 = sink p.
Proof.
  intros Hi. unfold feed_frame. destruct (parse_sse_frame frame) as [[et ds]|]; [|done].
  destruct (_ || elided true et); [done|]. destruct (parse_str ds) as [data|]; [|done].
  cbv zeta. rewrite extract_sink. destruct (Hi data) as [-> ->]. split; [done|]. apply extract_sink.
Qed.

Lemma frames_kept frames : forall p : Pipeline,
  inert (sk_framing (sink p)) ->
  outcomes_bytes to_vec crc32 json_message true frames (visit (feed_frame elapsed_ms parse_str true) frames p).1
  = concat frames
  /\ sink (visit (feed_frame elapsed_ms parse_str true) frames p).2 = sink p.
Proof.
  induction frames as [|frame frames IH]; intros p Hi; [done|]. rewrite visit_cons. cbn [fst snd].
  destruct (feed_frame_kept frame p Hi) as [K1 K2]. rewrite K1.
  destruct (IH (feed_frame elapsed_ms parse_str true frame p).2) as [I1 I2]; [by rewrite K2|].
  rewrite I2, K2. split; [|done]. unfold outcomes_bytes in *. simpl. by rewrite I1.
Qed.

Lemma payloads_silent frames : forall p : Pipeline,
  concat (visit (feed_payload elapsed_ms from_slice true) frames p).1 = []
  /\ sink (visit (feed_payload elapsed_ms from_slice true) frames p).2 = sink p.
Proof.
  induction frames as [|frame frames IH]; intros p; [done|]. rewrite visit_cons. cbn [fst snd concat].
  destruct (IH (feed_payload elapsed_ms from_slice true frame p).2) as [I1 I2]. rewrite I1, I2, app_nil_r.
  unfold feed_payload. destruct (from_slice frame.2) as [data|]; [|done]. cbn [fst snd]. by rewrite extract_sink.
Qed.

(** A same-protocol translator between feeds. *)
Record passing (t : Translator) : Prop := {
  pa_same : same_proto t = true;
  pa_inert : inert (sk_framing (sink (pipe t)));
  pa_bytes : Forall is_byte (buf t);
  pa_ready : egress_eventstream = false -> aborted t = false -> ready t;
}.

(** The bytes passed on and the bytes kept are the bytes received, of which an abandoned stream has
    thrown the rest away. *)
Lemma feed_passes chunk t :
  passing t -> Forall is_byte chunk -> aborted t = false ->
  let r := feed chunk t in
  passing r.2
  /\ exists rest, bytes_out r.1 ++ rest = buf t ++ chunk /\ if aborted r.2 then buf r.2 = [] else rest = buf r.2.
Proof.
  intros [Hs Hi Hb Hr] Hc Hab. cbv zeta. assert (Hall : Forall is_byte (buf t ++ chunk)) by by apply Forall_app.
  destruct egress_eventstream eqn:Heg.
  - unfold StreamTranslate.feed. rewrite Hab, Heg. unfold feed_eventstream.
    set (t1 := set_buffer (buf t ++ chunk) (scanned t) t). change (buf t1) with (buf t ++ chunk).
    change (same_proto t1) with (same_proto t). rewrite Hs.
    destruct (reads_total _ Hall) as (fs & st & c & Hreads). rewrite (drain_of_reads _ _ _ _ _ Hreads).
    cbn [mbind option_bind frames status buffer EventStream.consumed_sink].
    destruct (payloads_silent fs (pipe t1)) as [P1 P2].
    destruct (visit (feed_payload elapsed_ms from_slice true) fs (pipe t1)) as [items p]. cbn [fst snd] in *.
    cbn [default sink_app app]. unfold id. cbn [fst snd].
    rewrite P1, app_nil_r, bytes_verbatim. set (left := match st with DrainOk => drop (Z.to_nat c) (buf t ++ chunk) | MalformedPrelude => [] end).
    set (t2 := set_buffer left (scanned t1) (set_pipe p t1)).
    assert (Hleft : Forall is_byte left) by (unfold left; destruct st; [by apply Forall_drop|constructor]).
    assert (Ht2 : passing t2).
    { split; [exact Hs| |exact Hleft|intros E; by rewrite Heg in E]. simpl. by rewrite P2. }
    assert (Ha2 : passing (abort t2)).
    { split; [exact Hs|apply (pa_inert _ Ht2)|constructor|intros E; by rewrite Heg in E]. }
    split; [by destruct (_ || _)|]. exists (drop (Z.to_nat c) (buf t ++ chunk)). split; [apply take_drop|].
    destruct st; cbn [orb]; [|done]. destruct (MAX_BUF <? _); [done|]. simpl. by rewrite Hab.
  - destruct (feed_spec elapsed_ms parse_str from_slice to_vec crc32 json_message chunk t Heg Hab (Hr eq_refl Hab))
      as (Fb & _ & ->).
    rewrite Hs in Fb. unfold treated in Fb. rewrite Hs in Fb.
    destruct (frames_kept (fed t chunk).1 (pipe t) Hi) as [K1 K2]. rewrite K1 in Fb. rewrite Fb.
    pose proof (frames_of_concat (buf t ++ chunk)) as Hcat. fold (fed t chunk) in Hcat.
    assert (Hsink : sink (pipe (fed_state elapsed_ms parse_str t chunk)) = sink (pipe t)).
    { unfold fed_state, treated. rewrite Hs. by destruct (MAX_BUF <? _). }
    assert (Hrest : Forall is_byte (fed t chunk).2) by (rewrite <- Hcat in Hall; by apply Forall_app in Hall as [_ ?]).
    split.
    + split; [by unfold fed_state; destruct (MAX_BUF <? _)|by rewrite Hsink| |intros _ _; apply fed_state_ready].
      unfold fed_state. destruct (MAX_BUF <? _); [constructor|exact Hrest].
    + exists (fed t chunk).2. split; [exact Hcat|]. unfold fed_state. by destruct (MAX_BUF <? _).
Qed.

Lemma feed_all_passes chunks : forall t,
  passing t -> Forall (Forall is_byte) chunks -> aborted t = false ->
  let r := feed_all chunks t in
  same_proto r.2 = true
  /\ exists rest, bytes_out r.1 ++ rest = buf t ++ concat chunks /\ (aborted r.2 = false -> rest = buf r.2).
Proof.
  induction chunks as [|c chunks IH]; intros t Hp Hc Hab; cbv zeta.
  { split; [apply (pa_same _ Hp)|]. exists (buf t). simpl. by rewrite app_nil_r. }
  apply Forall_cons in Hc as [Hc Hcs]. destruct (feed_passes c t Hp Hc Hab) as (Hp' & rest & F1 & F2).
  rewrite feed_all_cons. cbn [fst snd concat]. destruct (aborted (feed c t).2) eqn:E.
  - rewrite feed_aborted by done. cbn [fst snd]. rewrite app_nil_r. split; [apply (pa_same _ Hp')|].
    exists (rest ++ concat chunks). split; [by rewrite (assoc_L (++)), F1, (assoc_L (++))|]. by rewrite E.
  - destruct (IH _ Hp' Hcs E) as (I1 & rest' & I2 & I3). split; [exact I1|]. exists rest'. split; [|exact I3].
    rewrite bytes_app, <- (assoc_L (++)), I2, <- F2, (assoc_L (++)), F1. by rewrite (assoc_L (++)).
Qed.

End verbatim.

(** ** Facts that every translated event keeps *)

Section kept.
Context `{Hex} `{StreamReader} {W F : Type} `{StreamWriter W} `{Framing : StreamFraming F}.
Context (elapsed_ms : Value -> Z) (parse_str : string -> option Value) (from_slice : bytes -> option Value).

Notation Translator := (Translator (W := W) (F := F)).
Notation Pipeline := (Pipeline (W := W) (F := F)).
Notation feed := (feed elapsed_ms parse_str from_slice).
Notation feed_all := (feed_all elapsed_ms parse_str from_slice).

(** Of the events emitted so far and the pipeline they leave. *)
Context (Inv : list IrStreamEvent -> Pipeline -> Prop).
Context (one_keeps : forall h ev p, Inv h p ->
  Inv (h ++ emitted_events (translate_one elapsed_ms ev p).1) (translate_one elapsed_ms ev p).2).
Context (decode_free : forall h p d, Inv h p -> Inv h (set_decode d p)).

Lemma event_keeps event_type data h p :
  Inv h p ->
  Inv (h ++ emitted_events (translate_event elapsed_ms event_type data p).1)
    (translate_event elapsed_ms event_type data p).2.
Proof.
  unfold translate_event. destruct (read_events event_type data (decode p)) as [evs d]. intros Hi.
  apply (decode_free _ _ d) in Hi. revert h Hi. generalize (set_decode d p). clear p.
  induction evs as [|ev evs IH]; intros p h Hi; [simpl; by rewrite app_nil_r|].
  rewrite visit_cons. specialize (IH _ _ (one_keeps h ev p Hi)).
  destruct (visit (translate_one elapsed_ms) evs (translate_one elapsed_ms ev p).2) as [items p']. cbn [fst snd concat] in *.
  by rewrite events_app, (assoc_L (++)).
Qed.

Lemma frame_keeps frame h p :
  Inv h p ->
  Inv (h ++ outcome_events (feed_frame elapsed_ms parse_str false frame p).1)
    (feed_frame elapsed_ms parse_str false frame p).2.
Proof.
  intros Hi. rewrite feed_frame_decoded. destruct (decode_frame parse_str frame) as [[et data]|].
  - by apply event_keeps.
  - simpl. by rewrite app_nil_r.
Qed.

Lemma sse_frames_keep frames : forall h p,
  Inv h p ->
  let r := visit (feed_frame elapsed_ms parse_str false) frames p in Inv (h ++ (r.1 ≫= outcome_events)) r.2.
Proof.
  induction frames as [|frame frames IH]; intros h p Hi; cbv zeta; [simpl; by rewrite app_nil_r|].
  rewrite visit_cons. cbn [fst snd]. csimpl. rewrite (assoc_L (++)). apply IH, frame_keeps, Hi.
Qed.

Lemma payloads_keep frames : forall h p,
  Inv h p ->
  let r := visit (feed_payload elapsed_ms from_slice false) frames p in Inv (h ++ emitted_events (concat r.1)) r.2.
Proof.
  induction frames as [|frame frames IH]; intros h p Hi; cbv zeta; [simpl; by rewrite app_nil_r|].
  rewrite visit_cons. cbn [fst snd concat]. rewrite events_app, (assoc_L (++)). apply IH.
  unfold feed_payload. destruct (from_slice frame.2) as [data|]; [by apply event_keeps|]. simpl. by rewrite app_nil_r.
Qed.

(** A translating translator between feeds. *)
Record translating (h : list IrStreamEvent) (t : Translator) : Prop := {
  tr_same : same_proto t = false;
  tr_inv : Inv h (pipe t);
  tr_ready : egress_eventstream = false -> aborted t = false -> ready t;
}.

Lemma feed_keeps chunk h t :
  translating h t -> translating (h ++ emitted_events (feed chunk t).1) (feed chunk t).2.
Proof.
  intros [Hs Hi Hr]. destruct (aborted t) eqn:Hab.
  { assert (feed chunk t = ([], t)) as -> by (unfold StreamTranslate.feed; by rewrite Hab). simpl. rewrite app_nil_r.
    split; [done..|]. intros _. by rewrite Hab. }
  destruct egress_eventstream eqn:Heg.
  - assert (Hgo : same_proto (feed chunk t).2 = false
                  /\ Inv (h ++ emitted_events (feed chunk t).1) (pipe (feed chunk t).2)).
    { unfold StreamTranslate.feed. rewrite Hab, Heg. unfold feed_eventstream.
      set (t1 := set_buffer (buf t ++ chunk) (scanned t) t). change (same_proto t1) with (same_proto t). rewrite Hs.
      destruct (drain_frames_checked (buf t1) None) as [d|]; [|simpl; by rewrite app_nil_r].
      cbn [mbind option_bind]. pose proof (payloads_keep (EventStream.frames d) h (pipe t1) Hi) as Hk.
      destruct (visit (feed_payload elapsed_ms from_slice false) (EventStream.frames d) (pipe t1)) as [items p].
      cbn [fst snd] in Hk. unfold default, id. cbn [fst snd]. rewrite events_app, events_verbatim.
      destruct (match status d with MalformedPrelude => true | DrainOk => false end || _); by split. }
    destruct Hgo. split; [done..|]. intros E. by rewrite Heg in E.
  - destruct (feed_spec elapsed_ms parse_str from_slice (fun _ => []) (fun _ => 0) (fun _ => None) chunk t Heg Hab
                (Hr eq_refl eq_refl)) as (_ & -> & ->).
    pose proof (sse_frames_keep (fed t chunk).1 h (pipe t) Hi) as Hk. unfold treated. rewrite Hs.
    split; [by unfold fed_state; destruct (MAX_BUF <? _)| |intros _ _; apply fed_state_ready].
    unfold fed_state, treated. rewrite Hs. by destruct (MAX_BUF <? _).
Qed.

Lemma feed_all_keeps chunks : forall h t,
  translating h t -> translating (h ++ emitted_events (feed_all chunks t).1) (feed_all chunks t).2.
Proof.
  induction chunks as [|c chunks IH]; intros h t Ht; [simpl; by rewrite app_nil_r|].
  rewrite feed_all_cons. cbn [fst snd]. rewrite events_app, (assoc_L (++)). by apply IH, feed_keeps.
Qed.
End kept.

(** ** An AWS client *)

Section bedrock.
Context `{Hex} `{StreamReader} {W : Type} `{StreamWriter W}.
Context (elapsed_ms : Value -> Z) (parse_str : string -> option Value) (from_slice : bytes -> option Value).

Notation Pipeline := (Pipeline (W := W) (F := BedrockStreamFraming)).

(** The events the writer of this protocol makes metadata frames of. *)
Definition is_metadata (ev : IrStreamEvent) : bool := match ev with MessageDelta None _ _ => true | _ => false end.
Definition metadata (evs : list IrStreamEvent) : nat := length (filter (fun ev => is_metadata ev = true) evs).

Lemma metadata_app l k : metadata (l ++ k) = (metadata l + metadata k)%nat.
Proof. unfold metadata. by rewrite filter_app, length_app. Qed.

Definition framing_of (p : Pipeline) : BedrockStreamFraming := sk_framing (sink p).
Definition sent (p : Pipeline) : nat := if emitted (framing_of p) then 1 else 0.

(** One metadata frame has gone out or none; it has, or is owed, once the backend sent a delta of the
    message's end or usage, and only then. *)
Record accounted (h : list IrStreamEvent) (p : Pipeline) : Prop := {
  ac_sent : metadata h = sent p;
  ac_owed : is_some (last_usage (tap p)) = emitted (framing_of p) || pending (framing_of p);
}.

Lemma emit_all_framing evs (s : Sink) : sk_framing (emit_all elapsed_ms evs s).2 = sk_framing s.
Proof.
  unfold emit_all. revert s. induction evs as [|ev evs IH]; intros s; [done|]. rewrite visit_cons. cbn [snd].
  rewrite IH. unfold emit_ir_event. destruct (write_event ev (sk_writer s)) as [[[et data]|] w]; [|done].
  by destruct ingress_eventstream.
Qed.

Lemma send_framing evs p : framing_of (send elapsed_ms evs p).2 = framing_of p.
Proof.
  unfold framing_of, send, sending. pose proof (emit_all_framing evs (sink p)) as E. by destruct (emit_all _ _ _).
Qed.

Lemma close_framing p : framing_of (sending (close_open_blocks elapsed_ms) p).2 = framing_of p.
Proof.
  unfold framing_of, sending, close_open_blocks.
  pose proof (emit_all_framing (BlockStop <$> ascending (open_blocks (sink p)))
                (mkSink (sk_writer (sink p)) (sk_framing (sink p)) ∅)) as E.
  by destruct (emit_all _ _ _).
Qed.

Lemma close_metadata p : metadata (emitted_events (sending (close_open_blocks elapsed_ms) p).1) = 0%nat.
Proof.
  unfold sending, close_open_blocks.
  destruct (emit_all_events elapsed_ms (BlockStop <$> ascending (open_blocks (sink p)))
              (mkSink (sk_writer (sink p)) (sk_framing (sink p)) ∅)) as [E _].
  destruct (emit_all _ _ _) as [items s]. cbn [fst] in *. rewrite E. clear E.
  induction (ascending (open_blocks (sink p))) as [|i l IH]; [done|]. csimpl. exact IH.
Qed.

Lemma fan_out_metadata ev : is_delta ev = false -> metadata (fan_out ev) = 0%nat.
Proof.
  intros Hd. assert (Hone : metadata [ev] = 0%nat) by by destruct ev.
  unfold fan_out. destruct ev as [| |i d| | | |]; try exact Hone. destruct d as [| | | | |l|]; try exact Hone.
  destruct max_citations_per_delta as [n|]; [|exact Hone]. destruct (n <? length l)%nat; [|exact Hone].
  clear Hd Hone. generalize (length l) as fuel. intros fuel. revert l. induction fuel as [|fuel IH]; intros k; [reflexivity|]. destruct k; [reflexivity|]. csimpl. apply IH.
Qed.

Lemma route_accounts ev p :
  let r := route elapsed_ms ev p in
  (sent p + metadata (emitted_events r.1) = sent r.2)%nat
  /\ emitted (framing_of r.2) || pending (framing_of r.2) = emitted (framing_of p) || pending (framing_of p) || is_delta ev.
Proof.
  cbv zeta. destruct (is_delta ev) eqn:Hd.
  - destruct ev as [| | | |[reason|] s u| |]; try done; unfold route, combined_stop, fold_terminal, usage_delta.
    + cbn [on_combined_stop_delta Bedrock_StreamFraming]. fold (framing_of p). unfold bedrock_stop_delta.
      destruct (framing_of p) as [em pe] eqn:Ef. cbn [emitted pending]. unfold sent. rewrite Ef. cbn [emitted pending].
      destruct em; [|destruct (_ || _)];
        match goal with |- context [send elapsed_ms ?evs ?q] =>
          destruct (send_spec elapsed_ms evs q) as (-> & _); rewrite !(send_framing evs q) end; by destruct pe.
    + cbn [on_combined_stop_delta on_usage_only_delta folds_terminal_usage Bedrock_StreamFraming].
      fold (framing_of p). unfold bedrock_usage_delta. destruct (framing_of p) as [em pe] eqn:Ef. unfold sent. rewrite Ef.
      cbn [emitted pending]. destruct em; [by destruct pe|].
      match goal with |- context [send elapsed_ms ?evs ?q] =>
        destruct (send_spec elapsed_ms evs q) as (-> & _); rewrite !(send_framing evs q) end. by destruct pe.
  - assert (Hr : route elapsed_ms ev p = write_through elapsed_ms ev p).
    { unfold route, combined_stop, fold_terminal, usage_delta. by destruct ev. }
    rewrite Hr. unfold write_through. rewrite Hd, andb_false_r, orb_false_r. unfold sent.
    set (q := if is_stop ev then set_stopped true p else p).
    assert (Hq : framing_of q = framing_of p) by (unfold q; by destruct (is_stop ev)).
    destruct (send_spec elapsed_ms (fan_out ev) q) as (S1 & _). pose proof (send_framing (fan_out ev) q) as S2.
    destruct (send elapsed_ms (fan_out ev) q) as [items p']. cbn [fst snd] in *.
    assert (Hping : emitted_events (ping ev) = []) by (unfold ping; by destruct (_ && _)).
    rewrite events_app, Hping, app_nil_r, S1, S2, Hq, fan_out_metadata by done. split; [lia|done].
Qed.

Lemma deliver_accounts ev p :
  let r := deliver elapsed_ms ev p in
  (sent p + metadata (emitted_events r.1) = sent r.2)%nat
  /\ emitted (framing_of r.2) || pending (framing_of r.2) = emitted (framing_of p) || pending (framing_of p) || is_delta ev.
Proof.
  cbv zeta. unfold deliver. destruct (as_exception ev) as [item|] eqn:Ex.
  { unfold as_exception in Ex. destruct ev as [| | | | | |err]; try done. destruct ingress_eventstream; [|done].
    destruct (write_exception err) as [[name msg]|]; simplify_eq/=. rewrite orb_false_r. split; [|done].
    unfold metadata. simpl. lia. }
  assert (Hc : metadata (emitted_events (if is_terminal ev then sending (close_open_blocks elapsed_ms) p else ([], p)).1) = 0%nat
               /\ framing_of (if is_terminal ev then sending (close_open_blocks elapsed_ms) p else ([], p)).2 = framing_of p).
  { destruct (is_terminal ev); [|done]. split; [apply close_metadata|apply close_framing]. }
  destruct (if is_terminal ev then _ else _) as [closed p1]. cbn [fst snd] in Hc. destruct Hc as [C1 C2].
  pose proof (route_accounts ev p1) as [R1 R2]. unfold sent in R1 |- *. rewrite C2 in R1, R2.
  destruct (route elapsed_ms ev p1) as [items p2]. cbn [fst snd] in *.
  rewrite events_app, metadata_app, C1. split; [exact R1|exact R2].
Qed.

Lemma usage_learnt ev tp : is_some (last_usage (usage_only ev tp)) = is_some (last_usage tp) || is_delta ev.
Proof. destruct ev as [role [u|] id created model|i b|i d|i|r s u| |err]; simpl; by rewrite ?orb_false_r, ?orb_true_r. Qed.

Lemma translate_one_accounts h ev p :
  accounted h p ->
  accounted (h ++ emitted_events (translate_one elapsed_ms ev p).1) (translate_one elapsed_ms ev p).2.
Proof.
  intros [Hs Ho]. pose proof (translate_one_known elapsed_ms ev p) as Hk. unfold known in Hk. injection Hk as _ Ht.
  assert (Hd : exists q ev', translate_one elapsed_ms ev p = deliver elapsed_ms ev' q
                             /\ framing_of q = framing_of p /\ is_delta ev' = is_delta ev).
  { unfold translate_one. set (r := remap_event _ _ _).
    assert (Hr : is_delta r.1 = is_delta ev).
    { unfold r. destruct ev as [|i [| |id nm|]| | | | |]; try done. simpl. by destruct (native_for _ _ id). }
    destruct r as [ev1 remap]. cbn [fst] in Hr. rewrite <- Hr.
    destruct (tap_event ev1 (tap (set_remap remap p))) as [ev2 tp] eqn:E. do 2 eexists. split_and!; [done..|].
    destruct ev1; simplify_eq/=; done. }
  destruct Hd as (q & ev' & Hd & Hf & He). rewrite Hd in Ht |- *.
  destruct (deliver_accounts ev' q) as [D1 D2]. rewrite Hf, He in D2. unfold sent in D1 at 1. rewrite Hf in D1.
  split.
  - rewrite metadata_app, Hs. exact D1.
  - rewrite Ht, usage_learnt, Ho. by rewrite D2.
Qed.

Lemma terminal_metadata p : metadata (emitted_events (flush_terminal elapsed_ms p).1) = 0%nat.
Proof.
  unfold flush_terminal. destruct (pending_terminal p) as [[[r s] u]|]; [|done].
  match goal with |- context [send elapsed_ms ?evs ?q] => destruct (send_spec elapsed_ms evs q) as (-> & _) end.
  by destruct (pending_stop p).
Qed.

Lemma done_metadata : metadata (emitted_events done_frame) = 0%nat.
Proof. unfold done_frame. by destruct emits_sse_done_terminator. Qed.

Lemma finish_accounts h p :
  accounted h p ->
  metadata (h ++ emitted_events (finish_open elapsed_ms p).1) = if is_some (last_usage (tap p)) then 1%nat else 0%nat.
Proof.
  intros [Hs Ho]. rewrite Ho. unfold finish_open. pose proof (close_metadata p) as C1. pose proof (close_framing p) as C2.
  destruct (sending (close_open_blocks elapsed_ms) p) as [closed p1]. cbn [fst snd] in *.
  unfold flush_framing. cbn [on_finish Bedrock_StreamFraming]. fold (framing_of p1). rewrite C2.
  unfold sent in Hs. destruct (framing_of p) as [em pe]. unfold bedrock_finish. cbn [emitted pending] in *.
  destruct (negb pe || em) eqn:E.
  - match goal with |- context [flush_terminal elapsed_ms ?q] =>
      pose proof (terminal_metadata q) as T1; destruct (flush_terminal elapsed_ms q) as [terminal p2] end.
    cbn [fst snd] in *. rewrite !events_app, !metadata_app, C1, T1, done_metadata, Hs. by destruct em, pe.
  - match goal with |- context [send elapsed_ms ?evs ?q] =>
      destruct (send_spec elapsed_ms evs q) as (S1 & _); destruct (send elapsed_ms evs q) as [trailing p2] end.
    pose proof (terminal_metadata p2) as T1. destruct (flush_terminal elapsed_ms p2) as [terminal p3].
    cbn [fst snd] in *. rewrite !events_app, !metadata_app, C1, T1, done_metadata, S1, Hs. by destruct em, pe.
Qed.

Lemma abort_accounts p : metadata (emitted_events (finish_aborted elapsed_ms p).1) = 0%nat.
Proof. done. Qed.

(** A client of the AWS protocol gets the metadata frame of a native stream once. Whatever the backend
    sends, in whatever order its stop and its usage come: no stream carries two, an abandoned one gets none
    from [finish], and a stream that was not abandoned carries exactly one when the backend sent any stop
    reason or usage, none otherwise. *)
Theorem aws_clients_get_metadata_once chunks :
  let fed := feed_all elapsed_ms parse_str from_slice chunks (build (W := W) (F := BedrockStreamFraming) false) in
  let frames := metadata (emitted_events (fed.1 ++ (finish elapsed_ms fed.2).1)) in
  if aborted fed.2 then (frames <= 1)%nat
  else frames = if is_some (last_usage (tap (pipe fed.2))) then 1%nat else 0%nat.
Proof.
  cbv zeta. assert (Ht : translating accounted [] (build false))
    by (split; [done|by split|intros _ _; apply build_ready]).
  apply (feed_all_keeps elapsed_ms parse_str from_slice accounted translate_one_accounts) with (chunks := chunks) in Ht;
    [|intros h p d [A1 A2]; by split].
  destruct Ht as [Hsame Hacc _]. simpl app in Hacc. rewrite events_app. unfold finish. rewrite Hsame, andb_false_r.
  destruct (aborted _) eqn:Hab.
  - pose proof (abort_accounts (pipe (feed_all elapsed_ms parse_str from_slice chunks (build false)).2)) as A.
    destruct (finish_aborted elapsed_ms _) as [items p]. cbn [fst] in *.
    rewrite metadata_app, A, (ac_sent _ _ Hacc). unfold sent. destruct (emitted _); lia.
  - pose proof (finish_accounts _ _ Hacc) as F. destruct (finish_open elapsed_ms _) as [items p]. exact F.
Qed.
End bedrock.
