(* ===== verification/StreamPair.v ===== *)
(** * StreamPair: two protocols wired through the translator

    The Chat Completions and Messages readers and writers as instances of the translator's interfaces,
    the laws the theorems ask of them, and runs of the translator on concrete bytes. *)

From S2P Require Import Prelude Float64 Breaker Json HookProjection Classifier Ir ToolIds Anthropic OpenAiChat OpenAiStream Bytes EventStream Sse UsageStrip StreamFraming StreamTranslate StreamReassembly StreamTranslateSpec StreamBill StreamClients.

#[local] Open Scope Z_scope.

(** ** Instances *)

Definition openai_reader : StreamReader := {|
  egress_name := PROTO_OPENAI;
  read_events := OpenAiChat.read_response_events;
  egress_eventstream := false;
|}.

Definition anthropic_reader : StreamReader := {|
  egress_name := PROTO_ANTHROPIC;
  read_events := Anthropic.read_response_events;
  egress_eventstream := false;
|}.

(** The writers keep nothing between events; an identifier they mint is given. *)
Definition anthropic_writer (synth_message_id : string) : StreamWriter unit := {|
  new_writer := tt;
  ingress_name := PROTO_ANTHROPIC;
  write_event ev w := (Anthropic.write_response_event synth_message_id ev, w);
  write_exception _ := None;
  max_citations_per_delta := Some 1%nat;
  emits_sse_done_terminator := false;
  ingress_eventstream := false;
|}.

Definition openai_writer (synth_completion_id : string) (now : Z) : StreamWriter unit := {|
  new_writer := tt;
  ingress_name := PROTO_OPENAI;
  write_event ev w := (OpenAiChat.write_response_event synth_completion_id now ev, w);
  write_exception _ := None;
  max_citations_per_delta := None;
  emits_sse_done_terminator := true;
  ingress_eventstream := false;
|}.

(** ** Laws *)

(** A step that says nothing of the message's end. *)
Definition calm (f : Step) : Prop := forall st, forallb (negb ∘ is_terminal) (f st).1 = true.

Lemma calm_then f g : calm f -> calm g -> calm (then_ f g).
Proof.
  intros Hf Hg st. unfold then_. pose proof (Hf st). destruct (f st) as [a st']. pose proof (Hg st').
  destruct (g st') as [b st'']. simpl in *. rewrite forallb_app. by apply andb_true_iff.
Qed.

Lemma calm_steps l : Forall calm l -> calm (steps l).
Proof. intros H. induction H as [|f l Hf _ IH]; [done|]. by apply calm_then. Qed.

Ltac calm_tac := intros st; repeat (case_match; simplify_eq/=); done.

Lemma calm_open_message data : calm (open_message data).
Proof. intros st. unfold open_message. by destruct (started st). Qed.

Lemma calm_close_thinking : calm close_thinking.
Proof. intros st. unfold close_thinking. by destruct (thinking_block_open st). Qed.

Lemma calm_open_text : calm open_text.
Proof. intros st. unfold open_text. destruct (text_index st); cbn [claim_ir_index]; by destruct (text_block_open _). Qed.

Lemma calm_text_delta d : calm (text_delta d).
Proof. intros st. unfold text_delta. by destruct (text_index st). Qed.

Lemma calm_stops {A} (f : A -> option Z) l : forallb (negb ∘ is_terminal) (omap (fun a => BlockStop <$> f a) l) = true.
Proof. induction l as [|a l IH]; [done|]. csimpl. by destruct (f a). Qed.

Lemma calm_reasoning delta : calm (step_reasoning delta).
Proof. intros st. unfold step_reasoning. destruct (nonempty _); [|done]. by destruct (thinking_block_open st). Qed.

Lemma calm_text delta : calm (step_text delta).
Proof.
  intros st. unfold step_text. destruct (or_else _ _); [|done]. apply calm_steps.
  repeat constructor; [apply calm_close_thinking|apply calm_open_text|apply calm_text_delta].
Qed.

Lemma calm_logprobs choice0 : calm (step_logprobs choice0).
Proof.
  intros st. unfold step_logprobs. destruct (read_openai_logprobs _); [done|].
  destruct (text_block_open st); [apply calm_text_delta|]. apply calm_steps.
  repeat constructor; [apply calm_close_thinking|apply calm_open_text|apply calm_text_delta].
Qed.

Lemma calm_tool tc : calm (step_tool tc).
Proof.
  apply calm_then; intros st.
  - unfold open_tool. destruct (get "function" tc ≫= get_str "name"); [|done].
    by destruct (_ && (size (open_tools st) <? MAX_OPEN_TOOLS)%nat).
  - unfold tool_arguments. destruct (get "function" tc ≫= get_str "arguments"); [|done].
    by destruct (tool_ir_index st !! tool_key tc).
Qed.

Lemma calm_tools delta : calm (step_tools delta).
Proof.
  intros st. unfold step_tools. destruct (delta ≫= get_array "tool_calls") as [tcs|]; [|done].
  apply calm_then; [apply calm_close_thinking|]. apply calm_steps, Forall_fmap, Forall_true. intros tc. apply calm_tool.
Qed.

Lemma calm_close_text : calm close_text.
Proof. intros st. unfold close_text. destruct (text_block_open st); [|done]. by destruct (text_index st). Qed.

Lemma calm_close_tools : calm close_tools.
Proof. intros st. apply calm_stops. Qed.

(** A step after calm ones ends as it ends. *)
Lemma ends_after f g st : calm f -> (forall st, ends_together (g st).1) -> ends_together (then_ f g st).1.
Proof.
  intros Hf Hg. unfold then_. pose proof (Hf st) as H1. destruct (f st) as [a st1]. pose proof (Hg st1) as H2.
  destruct (g st1) as [b st2]. destruct H2 as (body & tail & E & Hb & Ht). cbn [fst] in *. subst b.
  exists (a ++ body), tail. rewrite (assoc_L (++)), forallb_app. simpl in H1. by rewrite H1, Hb.
Qed.

Lemma ends_calm evs : forallb (negb ∘ is_terminal) evs = true -> ends_together evs.
Proof. intros H. exists evs, []. rewrite app_nil_r. by split_and!; [done|done|left]. Qed.

Lemma step_finish_ends data choice0 st : ends_together (step_finish data choice0 st).1.
Proof.
  unfold step_finish. destruct (choice0 ≫= get_str "finish_reason") as [fr|].
  - cbn [steps]. apply ends_after; [apply calm_close_thinking|]. intros st1.
    apply ends_after; [apply calm_close_text|]. intros st2. apply ends_after; [apply calm_close_tools|]. intros st3.
    unfold then_, nothing. simpl. eexists [], _. split; [reflexivity|]. split; [done|]. right. by do 3 eexists.
  - destruct (match get "usage" data with Some (Object u) => _ | _ => _ end) as [u|]; [|by apply ends_calm].
    destruct choice0; by apply ends_calm.
Qed.

#[export] Instance openai_concludes : ConcludingReader OpenAiChat.read_response_events.
Proof.
  split. intros event_type data st. unfold OpenAiChat.read_response_events. destruct (bool_decide _); [by apply ends_calm|].
  cbn [steps]. set (choice0 := get_array "choices" data ≫= head).
  apply ends_after; [apply calm_open_message|]. intros st1. apply ends_after; [apply calm_reasoning|]. intros st2.
  apply ends_after; [apply calm_text|]. intros st3. apply ends_after; [apply calm_logprobs|]. intros st4.
  apply ends_after; [apply calm_tools|]. intros st5. unfold then_ at 1, nothing.
  pose proof (step_finish_ends data choice0 st5) as H. destruct (step_finish data choice0 st5) as [evs st6].
  cbn [fst] in *. by rewrite app_nil_r.
Qed.

(** No other protocol than Messages has frames elided. *)
#[export] Instance openai_elidable : @ElidableReader openai_reader.
Proof. split. intros event_type data d. unfold elided. by rewrite andb_false_r. Qed.

Lemma anthropic_reads_event event_type data ev tp :
  negb (existsb (String.eqb event_type) ["message_start"; "message_delta"; "error"]%string) = true ->
  Anthropic.read_response_event event_type data = Some ev -> usage_only ev tp = tp.
Proof.
  intros Hn. unfold Anthropic.read_response_event. simpl in Hn. rewrite orb_false_r in Hn.
  apply negb_true_iff, orb_false_iff in Hn as [N1 [N2 N3]%orb_false_iff].
  unfold EVT_MESSAGE_START, EVT_MESSAGE_DELTA. rewrite N1, N2, N3.
  destruct (String.eqb event_type EVT_CONTENT_BLOCK_START).
  { unfold read_block_start. intros E. repeat (apply bind_Some in E as (? & _ & E)). by simplify_eq. }
  destruct (String.eqb event_type EVT_CONTENT_BLOCK_DELTA).
  { unfold read_block_delta. intros E. repeat (apply bind_Some in E as (? & _ & E)). by simplify_eq. }
  destruct (String.eqb event_type EVT_CONTENT_BLOCK_STOP).
  { intros (? & _ & ->)%fmap_Some. done. }
  destruct (String.eqb event_type EVT_MESSAGE_STOP); intros E; by simplify_eq.
Qed.

#[export] Instance anthropic_elidable : @ElidableReader anthropic_reader.
Proof.
  split. intros event_type data d He. split; [done|]. intros tp. cbn [read_events anthropic_reader].
  unfold Anthropic.read_response_events. cbn [fst].
  destruct (read_redacted_start event_type data) as [evs|] eqn:E.
  - unfold read_redacted_start in E. destruct (negb _); [done|].
    apply bind_Some in E as (block & _ & E). destruct (bool_decide _); [|done].
    apply bind_Some in E as (index & _ & E). by simplify_eq.
  - unfold elided in He. apply andb_true_iff in He as [_ He].
    destruct (Anthropic.read_response_event event_type data) as [ev|] eqn:Er; [|done]. simpl.
    by apply (anthropic_reads_event event_type data).
Qed.

(** ** Runs *)

(** A parser for the texts used here, and bytes cut inside a frame and inside its end. *)
Definition demo_parse (s : string) : option Value :=
  if String.eqb s "think" then Some (reasoning_chunk "let me see")
  else if String.eqb s "tool" then Some (tool_chunk 1 "f")
  else if String.eqb s "text" then Some (content_chunk "and")
  else if String.eqb s "stop" then Some (finish_chunk "tool_calls")
  else if String.eqb s "usage" then
    Some (Object [("choices", Array []); ("usage", Object [("prompt_tokens", num_u 7); ("completion_tokens", num_u 5)])]%string)
  else None.

Definition demo_sse (s : string) : bytes := str "data: " ++ str s ++ [CR; LF; CR; LF].

Definition demo_stream : list bytes :=
  [demo_sse "think" ++ take 9 (demo_sse "tool"); drop 9 (demo_sse "tool") ++ demo_sse "text";
   take 12 (demo_sse "stop"); drop 12 (demo_sse "stop") ++ demo_sse "usage"; demo_sse "[DONE]"].

Section runs.
#[local] Existing Instance plain_hex.
#[local] Existing Instance openai_reader.
#[local] Instance demo_writer : StreamWriter unit := anthropic_writer "msg_demo".

Notation demo_feed := (feed (W := unit) (F := unit) (fun _ => 0) demo_parse (fun _ => None)).
Notation demo_all := (feed_all (W := unit) (F := unit) (fun _ => 0) demo_parse (fun _ => None)).

Lemma cuts_do_not_matter_witness :
  let t := build (W := unit) (F := unit) false in
  ready t
  /\ emitted_events (demo_feed (demo_sse "text" ++ demo_sse "stop") t).1
     = emitted_events (demo_feed (take 26 (demo_sse "text" ++ demo_sse "stop")) t).1
       ++ emitted_events (demo_feed (drop 26 (demo_sse "text" ++ demo_sse "stop"))
                            (demo_feed (take 26 (demo_sse "text" ++ demo_sse "stop")) t).2).1
  /\ emitted_events (demo_feed (take 26 (demo_sse "text" ++ demo_sse "stop")) t).1 <> [].
Proof.
  split; [apply build_ready|]. split.
  - destruct (cuts_do_not_matter (W := unit) (F := unit) (fun _ => 0) demo_parse (fun _ => None)
                (fun _ => []) (fun _ => 0) (fun _ => None)
                (take 26 (demo_sse "text" ++ demo_sse "stop")) (drop 26 (demo_sse "text" ++ demo_sse "stop"))
                (build false)) as (_ & _ & H); [reflexivity|reflexivity|apply build_ready|].
    destruct H as (_ & H & _); [vm_compute; reflexivity|]. rewrite take_drop in H. exact H.
  - vm_compute. discriminate.
Defined.


(** A Messages client of the same-protocol path, and a Chat Completions client of the translating one. *)
Lemma the_client_does_not_change_the_bill_witness :
  let chunks := [str "event: message_start" ++ [LF] ++ str "data: s" ++ [LF; LF]
                 ++ str "event: content_block_delta" ++ [LF] ++ str "data: d" ++ [LF; LF];
                 str "event: message_delta" ++ [LF] ++ str "data: e" ++ [LF; LF]] in
  let parse s := if String.eqb s "s" then Some (Object [("message", Object [("role", Str "assistant");
                     ("usage", Object [("input_tokens", num_u 11); ("output_tokens", num_u 1)])])])%string
                 else if String.eqb s "e" then Some (Object [("delta", Object [("stop_reason", Str "end_turn")]);
                     ("usage", Object [("output_tokens", num_u 9)])])%string
                 else None in
  settled (H := anthropic_reader) (W := unit) (F := unit) parse (fun _ => None) (H2 := anthropic_writer "m") (fun _ => 0)
    chunks true
  = settled (H := anthropic_reader) (W := unit) (F := OpenAiStreamFraming) parse (fun _ => None)
      (H2 := openai_writer "c" 0) (fun _ => 0) chunks false
  /\ last_usage (settled (H := anthropic_reader) (W := unit) (F := unit) parse (fun _ => None)
                   (H2 := anthropic_writer "m") (fun _ => 0) chunks true).1.2
     = Some (mkUsage 11 9 None None).
Proof.
  split; [|vm_compute; reflexivity].
  exact (proj1 (the_client_does_not_change_the_bill (H0 := anthropic_reader) (H1 := anthropic_elidable)
                  (H2 := anthropic_writer "m") (H4 := openai_writer "c" 0) _ _ _ _ _ _ _)).
Defined.

End runs.
