(* ===== verification/Selection.v ===== *)
(** * Selection: one request's choice of a lane (proxy/select.rs)

    The request context - deadline, exclusions, visited pools, compliance restricts - and
    [pick_among]: session affinity, the policy's ranked walk or the weighted round robin, and the one
    admission, looped over the lanes that lose it. Other threads run between any two of its store
    accesses and the clock is read where the code reads it: both are inputs ([RoundEnv]). *)

From S2P Require Import Prelude Float64 Breaker BreakerFsm HealthState HealthLemmas HealthSpec HealthAdmit SwrrCore Swrr.

(** ** Pool members (state.rs) and restricts *)

Record WeightedLane := mkWL {
  idx : nat;
  weight : Z;
  reasoning : option bool;
  attempt_timeout_ms : option Z
}.

Record MemberMeta := mkMeta {
  tier : option string;
  cost_per_mtok : option f64;
  tags : list string
}.

Inductive PolicyOnError := Weighted | Reject | First.

Record RestrictConstraint := mkRestrict {
  tags_any : list string;
  on_empty : PolicyOnError;
  restrict_name : string
}.

(** ** The request context *)

(** [deadline] in epoch seconds, [deadline_wall] a monotonic instant in nanoseconds. *)
Record RequestCtx := mkCtx {
  deadline : Z;
  deadline_wall : Z;
  excluded : gset nat;
  visited_pools : gset string;
  active_restricts : list RestrictConstraint;
  excluded_reasons : list (nat * Unavailable);
  request_id : Z
}.

Definition set_excluded x c := mkCtx (deadline c) (deadline_wall c) x (visited_pools c)
  (active_restricts c) (excluded_reasons c) (request_id c).
Definition set_visited x c := mkCtx (deadline c) (deadline_wall c) (excluded c) x
  (active_restricts c) (excluded_reasons c) (request_id c).
Definition set_reasons x c := mkCtx (deadline c) (deadline_wall c) (excluded c) (visited_pools c)
  (active_restricts c) x (request_id c).

Definition MAX_FAILOVER_DEADLINE_SECS : Z := 86400.
Definition NANOS : Z := 1000000000.

(** [start] is [now()], [wall] and [wall_fallback] two readings of [Instant::now()], and [instant_max]
    the last instant the platform represents, past which [checked_add] is [None] and [+] panics. *)
Definition checked_add (instant_max wall d : Z) : option Z :=
  if wall + d <=? instant_max then Some (wall + d) else None.

Definition RequestCtx_new (start wall wall_fallback instant_max deadline_secs request_id : Z)
    : option RequestCtx :=
  wall_deadline ← match checked_add instant_max wall (deadline_secs * NANOS) with
                  | Some i => Some i
                  | None => checked_add instant_max wall_fallback (MAX_FAILOVER_DEADLINE_SECS * NANOS)
                  end;
  Some (mkCtx (start +sat deadline_secs) wall_deadline ∅ ∅ [] [] request_id).

Definition expired (ctx : RequestCtx) (now : Z) : bool := deadline ctx <=? now.

Definition remaining (ctx : RequestCtx) (now : Z) : Z := deadline ctx -sat now.

Definition remaining_ms (ctx : RequestCtx) (wall : Z) : Z :=
  wrap 64 (Z.max (deadline_wall ctx - wall) 0 / 1000000).

Definition BUDGET_ASSERT_EPSILON : Z := 5 * NANOS.

(** The condition a debug build asserts. *)
Definition debug_assert_within_budget (ctx : RequestCtx) (wall : Z) : bool :=
  wall <=? deadline_wall ctx + BUDGET_ASSERT_EPSILON.

Definition exclude (i : nat) (ctx : RequestCtx) : RequestCtx :=
  set_excluded ({[i]} ∪ excluded ctx) ctx.

Definition fill_candidates (ctx : RequestCtx) (cands : list WeightedLane) : list WeightedLane :=
  filter (fun wl => idx wl ∉ excluded ctx) cands.

Definition mark_pool_visited (pool : string) (ctx : RequestCtx) : RequestCtx :=
  set_visited ({[pool]} ∪ visited_pools ctx) ctx.

Definition is_pool_visited (pool : string) (ctx : RequestCtx) : bool :=
  bool_decide (pool ∈ visited_pools ctx).

(** *** Compliance restricts across a pool boundary *)

(** [meta.tags.iter().any(|t| r.tags_any.iter().any(|w| w == t))] *)
Definition carries_tag (tags_any : list string) (meta : MemberMeta) : bool :=
  existsb (fun t => existsb (fun w => String.eqb w t) tags_any) (tags meta).

Definition restrict_filter (members : option (gmap nat MemberMeta)) (r : RestrictConstraint)
    (cands : list WeightedLane) : list WeightedLane :=
  filter (fun wl => Is_true match members with
                            | Some m => match m !! idx wl with
                                        | Some meta => carries_tag (tags_any r) meta
                                        | None => false
                                        end
                            | None => false
                            end) cands.

Fixpoint apply_restricts (members : option (gmap nat MemberMeta)) (rs : list RestrictConstraint)
    (cands : list WeightedLane) : Result (list WeightedLane) string :=
  match rs with
  | [] => Ok cands
  | r :: rs =>
      match restrict_filter members r cands with
      | [] => match on_empty r with
              | Weighted => apply_restricts members rs cands
              | Reject | First => Err (restrict_name r)
              end
      | restricted => apply_restricts members rs restricted
      end
  end.

(** [pool_runtime] is the members of each pool's runtime configuration. *)
Definition enforce_restricts (ctx : RequestCtx) (pool_runtime : gmap string (gmap nat MemberMeta))
    (pool_name : string) (cands : list WeightedLane) : Result (list WeightedLane) string :=
  apply_restricts (pool_runtime !! pool_name) (active_restricts ctx) cands.

Section store.
Context {SemT : Type} `{Semaphore SemT}.
Implicit Types (h : HealthState SemT).

(** ** The probe guard *)

Record ProbeGuard := mkGuard {
  guard_pool : string;
  guard_lane : nat;
  armed : bool;
  guard_epoch : Z
}.

Definition drop_probe_guard (g : ProbeGuard) h : option (HealthState SemT) :=
  if armed g then release_probe_owned_in (guard_pool g) (guard_lane g) (guard_epoch g) h
  else Some h.

(** ** The pick *)

(** One pass of the loop: the clock readings and what other threads do between the accesses. *)
Record RoundEnv := mkRound {
  t_guard : Z;
  t_select : Z;
  t_admit : Z;
  before_select : HealthState SemT -> HealthState SemT;
  before_admit : HealthState SemT -> HealthState SemT;
  during_admit : HealthState SemT -> HealthState SemT
}.

(** [candidates.iter().position(|c| c == idx).is_some_and(|pos| weights[pos] != 0)] *)
Fixpoint weighted_member (members : list (nat * Z)) (i : nat) : bool :=
  match members with
  | [] => false
  | (c, w) :: members => if Nat.eqb c i then negb (w =? 0) else weighted_member members i
  end.

(** [order.iter().copied().find(...)]: [ready_in] is only asked about weighted members. *)
Fixpoint find_preferred (pool : string) (now : Z) (members : list (nat * Z)) (order : list nat) h
    : option (option nat * HealthState SemT) :=
  match order with
  | [] => Some (None, h)
  | i :: order =>
      if weighted_member members i then
        '(ready, h) ← ready_in pool i now h;
        if (ready : bool) then Some (Some i, h) else find_preferred pool now members order h
      else find_preferred pool now members order h
  end.

Definition choose (pool : string) (now : Z) (policy_order : option (list nat))
    (filtered : list WeightedLane) h : option (option nat * HealthState SemT) :=
  let candidates := idx <$> filtered in
  let weights := weight <$> filtered in
  match policy_order with
  | Some order =>
      '(preferred, h) ← find_preferred pool now (zip candidates weights) order h;
      match preferred with
      | Some i => Some (Some i, h)
      | None => select_weighted_in pool candidates weights now h
      end
  | None => select_weighted_in pool candidates weights now h
  end.

Definition Picked : Type := nat * Permit * Z.

(** One pass: [inl] returns from [pick_among], [inr] goes round with the new local exclusions. *)
Definition pick_round (env : RoundEnv) (pool : string) (cands : list WeightedLane)
    (policy_order : option (list nat)) (ctx : RequestCtx) (local_excluded : gset nat) h
    : option ((option Picked + gset nat) * RequestCtx * HealthState SemT) :=
  if expired ctx (t_guard env) then Some (inl None, ctx, h) else
  let filtered := filter (fun wl => idx wl ∉ local_excluded) (fill_candidates ctx cands) in
  match filtered with
  | [] => Some (inl None, ctx, h)
  | _ =>
      '(chosen, h) ← choose pool (t_select env) policy_order filtered (before_select env h);
      match chosen with
      | None => Some (inl None, ctx, h)
      | Some lane =>
          '(res, h) ← try_admit (during_admit env) pool lane (t_admit env) (before_admit env h);
          match res with
          | Ok adm => Some (inl (Some (lane, permit adm, admit_probe_epoch adm)), ctx, h)
          | Err reason =>
              Some (inr ({[lane]} ∪ local_excluded),
                    set_reasons (excluded_reasons ctx ++ [(lane, reason)]) ctx, h)
          end
      end
  end.

Fixpoint pick_loop (fuel : nat) (env : nat -> RoundEnv) (pool : string) (cands : list WeightedLane)
    (policy_order : option (list nat)) (ctx : RequestCtx) (local_excluded : gset nat) h
    : option (option Picked * RequestCtx * HealthState SemT) :=
  match fuel with
  | O => None
  | S fuel =>
      '(r, ctx, h) ← pick_round (env O) pool cands policy_order ctx local_excluded h;
      match r with
      | inl picked => Some (picked, ctx, h)
      | inr local_excluded =>
          pick_loop fuel (fun k => env (S k)) pool cands policy_order ctx local_excluded h
      end
  end.

(** The sticky fast path: [inl] returns the admission, [inr] goes on to the loop. *)
Definition pick_sticky (t : Z) (peer : HealthState SemT -> HealthState SemT) (pool : string)
    (cands : list WeightedLane) (affinity_key_hash : option Z) (ctx : RequestCtx) h
    : option (option Picked * RequestCtx * HealthState SemT) :=
  match affinity_key_hash, cands with
  | Some hash, _ :: _ =>
      wl ← cands !! Z.to_nat (hash mod Z.of_nat (length cands));
      if negb (weight wl =? 0) && bool_decide (idx wl ∉ excluded ctx) then
        '(res, h) ← try_admit peer pool (idx wl) t h;
        match res with
        | Ok adm => Some (Some (idx wl, permit adm, admit_probe_epoch adm), ctx, h)
        | Err reason => Some (None, set_reasons (excluded_reasons ctx ++ [(idx wl, reason)]) ctx, h)
        end
      else Some (None, ctx, h)
  | _, _ => Some (None, ctx, h)
  end.

(** [t] is the reading at entry; every pass of the loop excludes one more lane, so one pass more
    than there are candidates is fuel enough. *)
Definition pick_among (t : Z) (peer : HealthState SemT -> HealthState SemT) (env : nat -> RoundEnv)
    (cands : list WeightedLane) (ctx : RequestCtx) (affinity_key_hash : option Z) (pool_name : string)
    (policy_order : option (list nat)) h
    : option (option Picked * RequestCtx * HealthState SemT) :=
  let ctx := set_reasons [] ctx in
  '(sticky, ctx, h) ← pick_sticky t peer pool_name cands affinity_key_hash ctx h;
  match sticky with
  | Some picked => Some (Some picked, ctx, h)
  | None => pick_loop (S (length cands)) env pool_name cands policy_order ctx ∅ h
  end.
End store.
