(* ===== verification/SelectionSpec.v ===== *)
(** * SelectionSpec: what [pick_among] relies on

    The weighted selection, the ranked walk and the admission as one step on the store, first under
    arbitrary interference (the result is well formed and sound), then on a store nobody else is
    changing (every view is preserved up to the round-robin accumulators). *)

From S2P Require Import Prelude Float64 Breaker BreakerFsm HealthState HealthLemmas HealthSpec HealthAdmit SwrrCore Swrr Selection.

Section store.
Context {SemT : Type} `{Semaphore SemT}.
Implicit Types (h : HealthState SemT) (ls : LaneState SemT).
#[local] Arguments read_cell : simpl never.
#[local] Arguments write_cell : simpl never.

(** ** Equal up to the accumulators *)

(** The same lanes and, for every pool and lane, the same cell but for its accumulator. *)
Record weight_view h h' : Prop := {
  wv_lane : forall lane ls, get_lane h lane = Some ls ->
    exists c, get_lane h' lane = Some (set_ls_cell c ls);
  wv_cell : forall pool lane c, view_cell pool lane h = Some c ->
    exists w, view_cell pool lane h' = Some (set_weight w c);
}.

#[global] Instance weight_view_preorder : PreOrder weight_view.
Proof.
  split.
  - intros h. split.
    + intros lane ls Hl. exists (ls_cell ls). by rewrite set_cell_id.
    + intros pool lane c Hv. exists (current_weight c). by rewrite set_weight_id.
  - intros h1 h2 h3 [Hl1 Hc1] [Hl2 Hc2]. split.
    + intros lane ls Hl. destruct (Hl1 lane ls Hl) as [c Hl'].
      destruct (Hl2 _ _ Hl') as [c' ->]. by exists c'.
    + intros pool lane c Hv. destruct (Hc1 _ _ _ Hv) as [w Hv']. destruct (Hc2 _ _ _ Hv') as [w' ->].
      by exists w'.
Qed.

Lemma same_view_weight h h' : same_view h h' -> weight_view h h'.
Proof.
  intros Hs. split.
  - intros lane ls Hl. exists (ls_cell ls). by rewrite (same_view_get_lane _ _ _ Hs), set_cell_id.
  - intros pool lane c Hv. exists (current_weight c). by rewrite (sv_view _ _ Hs), set_weight_id.
Qed.

Lemma weights_only_weight rs h h' : weights_only rs h h' -> weight_view h h'.
Proof.
  intros Hw. split; [apply Hw|]. intros pool lane c Hv.
  destruct (weights_only_view _ _ _ _ _ _ Hw Hv) as (w & ? & _). eauto.
Qed.

(** ** The weighted selection under any accumulators *)

Definition lanes_exist h (cands : list nat) : Prop := Forall (fun l => is_Some (get_lane h l)) cands.

Lemma members_exist h candidates weights :
  lanes_exist h candidates -> Forall (fun m : nat * Z => is_Some (get_lane h m.1)) (zip candidates weights).
Proof.
  unfold lanes_exist. rewrite !Forall_forall. intros Hl [c w] Hin. apply Hl. by eapply elem_of_zip_l.
Qed.

Lemma lanes_exist_hstep h h' cands : hstep h h' -> lanes_exist h cands -> lanes_exist h' cands.
Proof.
  intros Hs HF. eapply Forall_impl; [exact HF|]. intros l [ls Hl].
  destruct (hstep_lane _ _ _ _ Hs Hl) as (ls' & ? & _). by exists ls'.
Qed.

Lemma lane_permits_upto h h' lane n :
  weight_view h h' -> lane_permits h lane = Some n -> lane_permits h' lane = Some n.
Proof.
  intros Hw. unfold lane_permits. intros (ls & Hl & ->)%fmap_Some.
  destruct (wv_lane _ _ Hw _ _ Hl) as [c ->]. done.
Qed.

Lemma select_general pool candidates weights now h :
  health_wf h -> NoDup candidates -> lanes_exist h candidates ->
  exists pick h', select_weighted_for pool candidates weights now h = Some (pick, h')
    /\ hstep h h' /\ weight_view h h'
    /\ forall lane, pick = Some lane -> exists w, (lane, w) ∈ zip candidates weights
         /\ member_healthy pool now h (lane, w) = true.
Proof.
  intros Hw Hnd Hl. apply (members_exist _ _ weights) in Hl.
  destruct (collect_healthy_spec pool now _ h Hw Hl) as (h1 & Hc & Hst & Hsv & Hrd).
  pose proof (elem_healthy_members pool now h (zip candidates weights)) as Hmem.
  set (healthy := healthy_members pool now h (zip candidates weights)) in *.
  pose proof (refs_nodup pool now h candidates weights Hnd) as Hndr. fold healthy in Hndr.
  unfold select_weighted_for. rewrite Hc. simpl.
  assert (Hv1 : weight_view h h1) by by apply same_view_weight.
  destruct healthy as [|x rest] eqn:Eh; [by do 2 eexists|]. rewrite <- Eh in *. clear Eh x rest.
  destruct (swrr_shard_spec pool h1 (st_wf _ _ Hst)) as (_ & Hsst & Hsrd & Hsl & Hsp).
  destruct (swrr_shard pool h1) as [sh h2]. simpl in *.
  assert (Hv2 : weight_view h1 h2).
  { apply (weights_only_weight []). split.
    - intros r0 c0 Hr0. exists (current_weight c0). rewrite Hsrd, set_weight_id. by split.
    - intros r0 Hr0. by rewrite Hsrd.
    - intros lane0 ls0 Hl0. exists (ls_cell ls0). unfold get_lane in *. by rewrite Hsl, set_cell_id. }
  destruct (accumulators_total (refs healthy) h2) as [cs Hcs].
  { intros r Hr. rewrite Hsrd. by apply Hrd. }
  destruct (add_weights_spec healthy h2 cs Hndr (st_wf _ _ Hsst) Hcs) as (h3 & -> & Hst3 & Hwo & Ha3).
  simpl. rewrite (find_best_spec _ _ _ None I64_MIN 0 Ha3). simpl.
  assert (Hs3 : hstep h h3) by (eapply hstep_trans; [done|]; by eapply hstep_trans).
  assert (Hv3 : weight_view h h3).
  { etransitivity; [done|]. etransitivity; [done|]. by eapply weights_only_weight. }
  destruct (scan_max 0 None I64_MIN _) as [i|]; [|by do 2 eexists].
  destruct (healthy !! (i - 0)%nat) as [[[lane r] w]|] eqn:Hi; simpl; [|by do 2 eexists].
  assert (Hri : refs healthy !! (i - 0)%nat = Some r) by (unfold refs; by rewrite list_lookup_fmap, Hi).
  destruct (accumulators_lookup _ h3 _ _ r Ha3 Hri) as (c & Hr & _).
  rewrite Hr. simpl. do 2 eexists. split; [done|]. split_and!.
  - eapply hstep_trans; [done|]. eapply write_cell_hstep; [apply Hst3|done|]. apply weight_steps.
  - etransitivity; [done|]. eapply (weights_only_weight [r]). apply weights_only_write; [by left|done].
  - intros ? [= <-]. apply list_elem_of_lookup_2 in Hi. apply Hmem in Hi as (_ & Hin & Hm). eauto.
Qed.

(** ** The choice of a lane *)

(** Gates passed and breaker ready: what both paths of the choice ask. *)
Definition lane_ready (pool : string) (now : Z) h (i : nat) : bool := member_healthy pool now h (i, 1).

Lemma member_healthy_ready pool now h i w :
  member_healthy pool now h (i, w) = negb (w =? 0) && lane_ready pool now h i.
Proof. done. Qed.

Lemma lane_ready_same_view pool now h h' i :
  same_view h h' -> lane_ready pool now h' i = lane_ready pool now h i.
Proof.
  intros Hs. unfold lane_ready, member_healthy.
  by rewrite (same_view_get_lane _ _ _ Hs), (sv_view _ _ Hs).
Qed.

Lemma weighted_member_in members i :
  weighted_member members i = true -> exists w, (i, w) ∈ members /\ w <> 0.
Proof.
  induction members as [|[c w] members IH]; simpl; [done|].
  destruct (Nat.eqb_spec c i) as [->|].
  - intros Hw. zbool. exists w. split; [by left|done].
  - intros (w' & ? & ?)%IH. exists w'. split; [by right|done].
Qed.

Lemma weighted_member_elem members i w :
  NoDup members.*1 -> (i, w) ∈ members -> w <> 0 -> weighted_member members i = true.
Proof.
  intros Hnd Hin Hw. induction members as [|[c w'] members IH]; [by apply elem_of_nil in Hin|].
  csimpl in *. apply NoDup_cons in Hnd as [Hc Hnd]. apply elem_of_cons in Hin as [Heq|Hin].
  - injection Heq as <- <-. rewrite Nat.eqb_refl. by apply negb_true_iff, Z.eqb_neq.
  - destruct (Nat.eqb_spec c i) as [->|]; [|by apply IH].
    exfalso. apply Hc. apply list_elem_of_fmap. by exists (i, w).
Qed.

(** The side-effect-free peek answers what the store says. *)
Lemma ready_in_spec pool now i h :
  health_wf h -> is_Some (get_lane h i) ->
  exists h1, ready_in pool i now h = Some (lane_ready pool now h i, h1)
    /\ hstep h h1 /\ same_view h h1.
Proof.
  intros Hw [ls Hls]. destruct (view_some pool i h ls Hls) as [c Hv]. unfold ready_in, ready_for.
  unfold lane_ready, member_healthy. simpl. rewrite Hls, Hv, (lane_admissible_gate _ _ _ Hls). simpl.
  destruct (lane_gate ls); simpl.
  - exists h. split_and!; [done|by apply hstep_refl|reflexivity].
  - destruct (load_cell_hstep pool i h ls Hw Hls) as (c' & h1 & -> & Hv' & _ & _ & Hsv & Hst).
    rewrite Hv in Hv'. injection Hv' as <-. simpl. eauto.
Qed.

Lemma find_preferred_spec pool now members order h :
  health_wf h -> Forall (fun m : nat * Z => is_Some (get_lane h m.1)) members ->
  exists h', find_preferred pool now members order h
    = Some (List.find (fun i => weighted_member members i && lane_ready pool now h i) order, h')
    /\ hstep h h' /\ same_view h h'.
Proof.
  revert h. induction order as [|i order IH]; intros h Hw Hl; simpl.
  { exists h. split_and!; [done|by apply hstep_refl|reflexivity]. }
  destruct (weighted_member members i) eqn:Ew; simpl; [|by apply IH].
  destruct (weighted_member_in _ _ Ew) as (w & Hin & _).
  rewrite Forall_forall in Hl. pose proof (Hl _ Hin) as Hls. simpl in Hls.
  destruct (ready_in_spec pool now i h Hw Hls) as (h1 & -> & Hst & Hsv).
  simpl. destruct (lane_ready pool now h i) eqn:Er; [by eauto|].
  destruct (IH h1) as (h' & He & Hst' & Hsv').
  { apply Hst. }
  { apply Forall_forall. intros m Hm. rewrite (same_view_get_lane _ _ _ Hsv). by apply Hl. }
  rewrite He. exists h'. split_and!; [|by eapply hstep_trans|by etransitivity].
  do 2 f_equal. clear -Hsv. induction order as [|j order IH]; [done|]. simpl.
  by rewrite (lane_ready_same_view _ _ _ _ _ Hsv), IH.
Qed.

Definition member_of (filtered : list WeightedLane) : list (nat * Z) :=
  zip (idx <$> filtered) (weight <$> filtered).

Lemma member_of_fmap filtered : member_of filtered = (fun wl => (idx wl, weight wl)) <$> filtered.
Proof. induction filtered as [|wl l IH]; [done|]. unfold member_of in *. csimpl. by rewrite IH. Qed.

Lemma member_of_elem filtered i w :
  (i, w) ∈ member_of filtered -> exists wl, wl ∈ filtered /\ idx wl = i /\ weight wl = w.
Proof.
  rewrite member_of_fmap. intros Hin.
  apply list_elem_of_fmap in Hin as (wl & Heq & Hin). injection Heq as -> ->. eauto.
Qed.

Lemma member_of_in filtered wl : wl ∈ filtered -> (idx wl, weight wl) ∈ member_of filtered.
Proof.
  intros Hin. rewrite member_of_fmap. apply list_elem_of_fmap. by exists wl.
Qed.

Lemma member_of_fst filtered : (member_of filtered).*1 = idx <$> filtered.
Proof. rewrite member_of_fmap, <- list_fmap_compose. done. Qed.

(** The chosen lane is a weighted, ready member of what is left, and the choice moves nothing but
    accumulators. *)
Lemma choose_spec pool now order filtered h :
  health_wf h -> NoDup (idx <$> filtered) -> lanes_exist h (idx <$> filtered) ->
  exists chosen h', choose pool now order filtered h = Some (chosen, h')
    /\ hstep h h' /\ weight_view h h'
    /\ forall lane, chosen = Some lane -> exists wl, wl ∈ filtered /\ idx wl = lane
         /\ weight wl <> 0 /\ lane_ready pool now h lane = true.
Proof.
  intros Hw Hnd Hl.
  assert (Hsel : forall h0, hstep h h0 -> same_view h h0 ->
    exists chosen h', select_weighted_in pool (idx <$> filtered) (weight <$> filtered) now h0
        = Some (chosen, h')
      /\ hstep h h' /\ weight_view h h'
      /\ forall lane, chosen = Some lane -> exists wl, wl ∈ filtered /\ idx wl = lane
           /\ weight wl <> 0 /\ lane_ready pool now h lane = true).
  { intros h0 Hs0 Hv0.
    destruct (select_general pool (idx <$> filtered) (weight <$> filtered) now h0)
      as (pick & h' & He & Hst & Hwv & Hp); [apply Hs0|done|by eapply lanes_exist_hstep|].
    exists pick, h'. split_and!; [exact He|by eapply hstep_trans| |].
    - etransitivity; [by apply same_view_weight|done].
    - intros lane ->. destruct (Hp lane eq_refl) as (w & Hin & Hm).
      destruct (member_of_elem _ _ _ Hin) as (wl & ? & <- & <-).
      rewrite member_healthy_ready in Hm. zbool. exists wl. split_and!; try done.
      by rewrite <- (lane_ready_same_view _ _ _ _ _ Hv0). }
  unfold choose. destruct order as [order|]; [|apply Hsel; [by apply hstep_refl|reflexivity]].
  destruct (find_preferred_spec pool now (member_of filtered) order h Hw) as (h1 & He & Hst & Hsv).
  { by apply members_exist. }
  unfold member_of in He. rewrite He. simpl.
  destruct (List.find _ order) as [i|] eqn:Ef; [|by apply Hsel].
  apply List.find_some in Ef as [_ Hi]. zbool. exists (Some i), h1. split_and!; [done|done| |].
  - by apply same_view_weight.
  - intros ? [= <-]. destruct (weighted_member_in _ _ ltac:(done)) as (w & Hin & Hw0).
    destruct (member_of_elem _ _ _ Hin) as (wl & ? & <- & <-). by exists wl.
Qed.

(** ** One pass, under interference *)

Definition env_ok (e : RoundEnv) : Prop :=
  is_u64 (t_guard e) /\ is_u64 (t_select e) /\ is_u64 (t_admit e)
  /\ peer_ok (before_select e) /\ peer_ok (before_admit e) /\ peer_ok (during_admit e).

(** What a returned pick holds: an existing lane's permit, of the kind the lane gives, and the
    admitted cell's current owner token. *)
Definition pick_holds (pool : string) (p : Picked) h : Prop :=
  exists ls c, get_lane h p.1.1 = Some ls
    /\ p.1.2 = (if MAX_PERMITS <=? ls_max ls then Unbounded else Bounded)
    /\ view_cell pool p.1.1 h = Some c /\ p.2 = probe_epoch c.

Lemma try_admit_holds peer pool lane now h ls :
  health_wf h -> get_lane h lane = Some ls -> is_u64 now -> peer_ok peer ->
  exists res h', try_admit peer pool lane now h = Some (res, h') /\ hstep h h'
    /\ forall a, res = Ok a -> pick_holds pool (lane, permit a, admit_probe_epoch a) h'.
Proof.
  intros Hw Hl Hn Hp.
  destruct (try_admit_spec peer pool lane now h ls Hw Hl Hn Hp) as (res & h' & He & Hst & Hpost).
  exists res, h'. split_and!; [done..|]. intros a ->.
  destruct Hpost as (_ & h1 & c1 & _ & _ & _ & Hpk & _ & _ & _ & Hr & Hep).
  destruct (hstep_lane _ _ _ _ Hst Hl) as (ls' & Hl' & Hb). injection Hb as _ _ Hmax _.
  eexists ls', _. split_and!; [done|by rewrite Hpk, Hmax|by apply view_ref|done].
Qed.

Definition remaining_cands (ctx : RequestCtx) (local : gset nat) (cands : list WeightedLane) :=
  filter (fun wl => idx wl ∉ local) (fill_candidates ctx cands).

Lemma remaining_elem ctx local cands wl :
  wl ∈ remaining_cands ctx local cands <->
  wl ∈ cands /\ idx wl ∉ excluded ctx /\ idx wl ∉ local.
Proof. unfold remaining_cands, fill_candidates. rewrite !list_elem_of_filter. tauto. Qed.

Lemma remaining_sublist ctx local cands : remaining_cands ctx local cands `sublist_of` cands.
Proof. unfold remaining_cands, fill_candidates. etransitivity; apply sublist_filter. Qed.

Lemma sublist_fmap {A B} (f : A -> B) (l k : list A) :
  l `sublist_of` k -> f <$> l `sublist_of` f <$> k.
Proof. induction 1; csimpl; by constructor. Qed.

Lemma remaining_nodup ctx local cands :
  NoDup (idx <$> cands) -> NoDup (idx <$> remaining_cands ctx local cands).
Proof.
  intros Hnd. eapply sublist_NoDup; [exact Hnd|]. apply sublist_fmap, remaining_sublist.
Qed.

Lemma remaining_exist h ctx local cands :
  lanes_exist h (idx <$> cands) -> lanes_exist h (idx <$> remaining_cands ctx local cands).
Proof.
  unfold lanes_exist. rewrite !Forall_forall. intros Hl i Hin. apply Hl.
  apply list_elem_of_fmap in Hin as (wl & -> & Hin). apply remaining_elem in Hin as (Hin & _).
  apply list_elem_of_fmap. eauto.
Qed.

(** ** Permits of every lane across an admission *)

(** The peer leaves the free permits of [l] alone. *)
Definition keeps_permits (l : nat) (peer : HealthState SemT -> HealthState SemT) : Prop :=
  forall h1 n, lane_permits h1 l = Some n -> lane_permits (peer h1) l = Some n.

Definition held (l : nat) (p : option Picked) : Z :=
  match p with
  | Some (lane, p, _) => if Nat.eqb lane l then permit_cost p else 0
  | None => 0
  end.

Lemma try_acquire_other lane l h got h' :
  try_acquire lane h = Some (got, h') -> l <> lane -> get_lane h' l = get_lane h l.
Proof.
  unfold try_acquire. intros He Hne. apply bind_Some_inv in He as (ls & Hl & He).
  destruct (MAX_PERMITS <=? ls_max ls); [by mbind_inv|].
  destruct (try_acquire_owned (ls_sem ls)) as [s|]; injection He as <- <-; [|done].
  by apply get_upd_lane_ne.
Qed.

Lemma try_admit_other peer pool lane now h res h' l :
  try_admit peer pool lane now h = Some (res, h') -> health_wf h -> keeps_permits l peer -> l <> lane ->
  forall n, lane_permits h l = Some n -> lane_permits h' l = Some n.
Proof.
  unfold try_admit. intros He Hw Hp Hne n Hn. apply bind_Some_inv in He as (ls & Hl & He).
  destruct (lane_gate ls); [by mbind_inv|].
  destruct (load_cell_hstep pool lane h ls Hw Hl) as (c & h1 & Hld & _ & _ & _ & Hsv & _).
  rewrite Hld in He. simpl in He. rewrite <- (same_view_permits _ _ l Hsv) in Hn.
  assert (forall h2 p, try_acquire lane h1 = Some (p, h2) -> lane_permits h2 l = Some n) as Hacq.
  { intros h2 p Ht. unfold lane_permits. by rewrite (try_acquire_other _ _ _ _ _ Ht Hne). }
  destruct (breaker_verdict c now); try (by mbind_inv).
  all: destruct (try_acquire lane h1) as [[[p|] h2]|] eqn:Ht; [|by mbind_inv; eapply Hacq|done];
    simpl in He; specialize (Hacq _ _ eq_refl); apply Hp in Hacq;
    apply bind_Some_inv in He as (c1 & _ & He); destruct (cell_acquire_breaker c1 now) as [c' won];
    destruct won; simpl in He; injection He as <- <-.
  all: try (by rewrite lane_permits_write).
  all: destruct p; simpl; [|by rewrite lane_permits_write].
  all: unfold lane_permits; rewrite get_upd_lane_ne by done;
    fold (lane_permits (write_cell (cell_ref pool lane) c' (peer h2)) l); by rewrite lane_permits_write.
Qed.

Lemma try_admit_permits peer pool lane now h ls res h' l n :
  health_wf h -> get_lane h lane = Some ls -> is_u64 now -> peer_ok peer -> keeps_permits l peer ->
  try_admit peer pool lane now h = Some (res, h') -> lane_permits h l = Some n ->
  lane_permits h' l = Some (n - held l (match res with
                                        | Ok a => Some (lane, permit a, admit_probe_epoch a)
                                        | Err _ => None end)).
Proof.
  intros Hw Hl Hn Hp Hk He Hpn. destruct (decide (l = lane)) as [->|Hne].
  - destruct (try_admit_spec peer pool lane now h ls Hw Hl Hn Hp) as (res' & h2 & He' & _ & Hpost).
    rewrite He in He'. injection He' as <- <-. rewrite (get_lane_permits _ _ _ Hl) in Hpn.
    injection Hpn as <-. destruct res as [a|u]; simpl in *.
    + destruct Hpost as (_ & h1 & c1 & _ & _ & Hp1 & _ & Hp2 & _). rewrite Nat.eqb_refl, Hp2. by apply Hk.
    + rewrite Z.sub_0_r. destruct Hpost as [[_ Hs]|(_ & _ & h1 & c1 & _ & _ & _ & _ & Hp1 & Hp2 & _)].
      * rewrite (same_view_permits _ _ _ Hs). by apply get_lane_permits.
      * rewrite Hp2, (Hk _ _ Hp1). simpl. f_equal. lia.
  - rewrite (try_admit_other _ _ _ _ _ _ _ _ He Hw Hk Hne _ Hpn). f_equal.
    destruct res as [a|u]; simpl; [|lia]. destruct (Nat.eqb_spec lane l); [congruence|lia].
Qed.

(** ** The loop under interference *)

Definition env_keeps (l : nat) (e : RoundEnv) : Prop :=
  keeps_permits l (before_select e) /\ keeps_permits l (before_admit e)
  /\ keeps_permits l (during_admit e).

(** The context is only written in its exclusion reasons, each about a lane of [cands]. *)
Definition reasons_grow (cands : list WeightedLane) (ctx ctx' : RequestCtx) : Prop :=
  exists rs, ctx' = set_reasons (excluded_reasons ctx ++ rs) ctx
    /\ Forall (fun r => exists wl, wl ∈ cands /\ idx wl = r.1 /\ r.1 ∉ excluded ctx) rs.

Lemma reasons_grow_refl cands ctx : reasons_grow cands ctx ctx.
Proof. exists []. rewrite app_nil_r. by destruct ctx. Qed.

Lemma reasons_grow_trans cands c1 c2 c3 :
  reasons_grow cands c1 c2 -> reasons_grow cands c2 c3 -> reasons_grow cands c1 c3.
Proof.
  intros (r1 & -> & H1) (r2 & -> & H2). exists (r1 ++ r2). simpl. rewrite app_assoc.
  split; [done|]. apply Forall_app_2; [done|exact H2].
Qed.

Lemma reasons_grow_one cands ctx wl u :
  wl ∈ cands -> idx wl ∉ excluded ctx ->
  reasons_grow cands ctx (set_reasons (excluded_reasons ctx ++ [(idx wl, u)]) ctx).
Proof. intros ? ?. eexists. split; [done|]. apply Forall_singleton. by exists wl. Qed.

(** The picked lane: a weighted candidate the request has not excluded, whose resources are held. *)
Definition pick_sound (pool : string) (cands : list WeightedLane) (ctx : RequestCtx)
    (p : option Picked) h : Prop :=
  match p with
  | Some p => pick_holds pool p h
      /\ exists wl, wl ∈ cands /\ idx wl = p.1.1 /\ weight wl <> 0 /\ p.1.1 ∉ excluded ctx
  | None => True
  end.

Definition round_pick (r : option Picked + gset nat) : option Picked :=
  match r with inl p => p | inr _ => None end.

Lemma pick_round_spec e pool cands order ctx local h :
  health_wf h -> NoDup (idx <$> cands) -> lanes_exist h (idx <$> cands) -> env_ok e ->
  exists r ctx' h', pick_round e pool cands order ctx local h = Some (r, ctx', h')
    /\ hstep h h' /\ reasons_grow cands ctx ctx'
    /\ pick_sound pool cands ctx (round_pick r) h'
    /\ (forall l n, env_keeps l e -> lane_permits h l = Some n ->
          lane_permits h' l = Some (n - held l (round_pick r)))
    /\ forall local', r = inr local' -> exists wl, wl ∈ remaining_cands ctx local cands
         /\ local' = {[idx wl]} ∪ local.
Proof.
  intros Hw Hnd Hl (Hg & Hts & Hta & Hp1 & Hp2 & Hp3). unfold pick_round.
  assert (Hstop : exists r ctx' h', Some (inl None, ctx, h) = Some (r, ctx', h')
    /\ hstep h h' /\ reasons_grow cands ctx ctx' /\ pick_sound pool cands ctx (round_pick r) h'
    /\ (forall l n, env_keeps l e -> lane_permits h l = Some n ->
          lane_permits h' l = Some (n - held l (round_pick r)))
    /\ forall local', r = inr local' -> exists wl, wl ∈ remaining_cands ctx local cands
         /\ local' = {[idx wl]} ∪ local).
  { exists (inl None), ctx, h. split_and!; [done|by apply hstep_refl|apply reasons_grow_refl|done| |done].
    intros l n _ Hn. simpl. by rewrite Z.sub_0_r. }
  destruct (expired ctx (t_guard e)); [done|]. fold (remaining_cands ctx local cands).
  destruct (remaining_cands ctx local cands) as [|wl0 rest] eqn:Er; [done|]. rewrite <- Er.
  clear Hstop Er wl0 rest. pose proof (Hp1 _ Hw) as Hs1. pose proof (remaining_nodup ctx local cands Hnd).
  destruct (choose_spec pool (t_select e) order (remaining_cands ctx local cands) (before_select e h))
    as (chosen & h1 & -> & Hst1 & Hwv1 & Hch); [apply Hs1|done| |].
  { eapply lanes_exist_hstep; [exact Hs1|]. by apply remaining_exist. }
  pose proof (hstep_trans _ _ _ Hs1 Hst1) as Hs. cbn [mbind option_bind].
  destruct chosen as [lane|].
  2: { exists (inl None), ctx, h1. split_and!; [done|done|apply reasons_grow_refl|done| |done].
       intros l n (Hk & _) Hn. simpl. rewrite Z.sub_0_r. eapply lane_permits_upto; [done|]. by apply Hk. }
  destruct (Hch lane eq_refl) as (wl & Hin & <- & Hwt & _).
  pose proof (proj1 (remaining_elem _ _ _ _) Hin) as (Hc & Hex & _).
  pose proof (hstep_trans _ _ _ Hs (Hp2 _ (st_wf _ _ Hs))) as Hs2.
  destruct (Forall_forall (fun l => is_Some (get_lane (before_admit e h1) l)) (idx <$> cands)) as [Hall _].
  destruct (Hall (lanes_exist_hstep _ _ _ Hs2 Hl) (idx wl)) as [ls Hls].
  { apply list_elem_of_fmap. eauto. }
  destruct (try_admit_holds (during_admit e) pool (idx wl) (t_admit e) (before_admit e h1) ls)
    as (res & h2 & He & Hst2 & Hh); [apply Hs2|done..|].
  rewrite He. cbn [mbind option_bind].
  assert (Hperm : forall l n, env_keeps l e -> lane_permits h l = Some n ->
    lane_permits h2 l = Some (n - held l (match res with
      | Ok a => Some (idx wl, permit a, admit_probe_epoch a) | Err _ => None end))).
  { intros l n (Hk1 & Hk2 & Hk3) Hn.
    eapply (try_admit_permits (during_admit e) pool (idx wl) (t_admit e) (before_admit e h1) ls);
      try done; [apply Hs2|]. apply Hk2. eapply lane_permits_upto; [done|]. by apply Hk1. }
  pose proof (hstep_trans _ _ _ Hs2 Hst2) as Hs3. destruct res as [a|u].
  - do 3 eexists. split_and!; [done|done|apply reasons_grow_refl| |exact Hperm|done].
    split; [by apply Hh|]. by exists wl.
  - do 3 eexists. split_and!; [done|done|by apply reasons_grow_one|done|exact Hperm|].
    intros ? [= <-]. by exists wl.
Qed.

(** One more excluded lane, one candidate less. *)
Lemma remaining_shrinks ctx local cands wl :
  wl ∈ remaining_cands ctx local cands ->
  (length (remaining_cands ctx ({[idx wl]} ∪ local) cands)
   < length (remaining_cands ctx local cands))%nat.
Proof.
  intros Hin. unfold remaining_cands in *. set (l := fill_candidates ctx cands) in *.
  assert (Hle : forall l0, (length (filter (fun w => idx w ∉ {[idx wl]} ∪ local) l0)
                            <= length (filter (fun w => idx w ∉ local) l0))%nat).
  { induction l0 as [|w l0 IH]; [done|]. rewrite !filter_cons.
    repeat case_decide; simpl; try lia; set_solver. }
  induction l as [|w l IH]; [by apply elem_of_nil in Hin|]. rewrite !filter_cons in *.
  specialize (Hle l). destruct (decide (idx w ∉ local)) as [Hd|Hd].
  - destruct (decide (idx w ∉ {[idx wl]} ∪ local)) as [Hd'|Hd']; simpl; [|lia].
    apply elem_of_cons in Hin as [->|Hin]; [set_solver|]. specialize (IH Hin). lia.
  - rewrite decide_False by set_solver. by apply IH.
Qed.

Lemma remaining_reasons ctx ctx' local cands :
  reasons_grow cands ctx ctx' -> remaining_cands ctx' local cands = remaining_cands ctx local cands.
Proof. by intros (rs & -> & _). Qed.

Lemma pick_loop_spec fuel env pool cands order ctx local h :
  health_wf h -> NoDup (idx <$> cands) -> lanes_exist h (idx <$> cands) -> (forall k, env_ok (env k)) ->
  (length (remaining_cands ctx local cands) < fuel)%nat ->
  exists p ctx' h', pick_loop fuel env pool cands order ctx local h = Some (p, ctx', h')
    /\ hstep h h' /\ reasons_grow cands ctx ctx' /\ pick_sound pool cands ctx p h'
    /\ forall l n, (forall k, env_keeps l (env k)) -> lane_permits h l = Some n ->
         lane_permits h' l = Some (n - held l p).
Proof.
  revert env ctx local h. induction fuel as [|fuel IH]; intros env ctx local h Hw Hnd Hl He Hf; [lia|].
  cbn [pick_loop].
  destruct (pick_round_spec (env O) pool cands order ctx local h Hw Hnd Hl (He O))
    as (r & ctx1 & h1 & -> & Hst & Hgrow & Hsound & Hperm & Hagain). cbn [mbind option_bind].
  destruct r as [p|local'].
  { do 3 eexists. split_and!; [done..|]. intros l n Hk. apply Hperm, Hk. }
  destruct (Hagain local' eq_refl) as (wl & Hin & ->).
  destruct (IH (fun k => env (S k)) ctx1 ({[idx wl]} ∪ local) h1)
    as (p & ctx2 & h2 & -> & Hst2 & Hgrow2 & Hsound2 & Hperm2).
  { apply Hst. }
  { done. }
  { by eapply lanes_exist_hstep. }
  { intros k. apply He. }
  { rewrite (remaining_reasons _ _ _ _ Hgrow). pose proof (remaining_shrinks _ _ _ _ Hin). lia. }
  do 3 eexists. split_and!; [done|by eapply hstep_trans|by eapply reasons_grow_trans| |].
  - destruct p; [|done]. destruct Hgrow as (rs & -> & _). exact Hsound2.
  - intros l n Hk Hn. apply Hperm2; [intros k; apply Hk|]. simpl in Hperm.
    rewrite (Hperm l n (Hk O) Hn). f_equal. lia.
Qed.

(** The sticky fast path alone. *)
Lemma pick_sticky_spec t peer pool cands hash ctx h :
  health_wf h -> lanes_exist h (idx <$> cands) -> is_u64 t -> peer_ok peer ->
  exists p ctx' h', pick_sticky t peer pool cands hash ctx h = Some (p, ctx', h')
    /\ hstep h h' /\ reasons_grow cands ctx ctx' /\ pick_sound pool cands ctx p h'
    /\ forall l n, keeps_permits l peer -> lane_permits h l = Some n ->
         lane_permits h' l = Some (n - held l p).
Proof.
  intros Hw Hl Ht Hp. unfold pick_sticky.
  assert (Hskip : exists p ctx' h', Some (None, ctx, h) = Some (p, ctx', h')
    /\ hstep h h' /\ reasons_grow cands ctx ctx' /\ pick_sound pool cands ctx p h'
    /\ forall l n, keeps_permits l peer -> lane_permits h l = Some n ->
         lane_permits h' l = Some (n - held l p)).
  { exists None, ctx, h. split_and!; [done|by apply hstep_refl|apply reasons_grow_refl|done|].
    intros l n _ Hn. simpl. by rewrite Z.sub_0_r. }
  destruct hash as [hash|]; [|done]. destruct cands as [|wl0 rest]; [done|].
  set (cands := wl0 :: rest) in *.
  destruct (lookup_lt_is_Some_2 cands (Z.to_nat (hash mod Z.of_nat (length cands)))) as [wl Hwl].
  { pose proof (Z.mod_pos_bound hash (Z.of_nat (length cands))). simpl in *. lia. }
  rewrite Hwl. cbn [mbind option_bind]. apply list_elem_of_lookup_2 in Hwl.
  destruct (negb (weight wl =? 0)) eqn:Ew; [|done].
  destruct (bool_decide (idx wl ∉ excluded ctx)) eqn:Ee; [|done]. cbn [andb]. zbool.
  apply bool_decide_eq_true in Ee. clear Hskip.
  unfold lanes_exist in Hl. rewrite Forall_forall in Hl.
  destruct (Hl (idx wl)) as [ls Hls]; [apply list_elem_of_fmap; eauto|].
  destruct (try_admit_holds peer pool (idx wl) t h ls) as (res & h2 & He & Hst & Hh); [done..|].
  pose proof (fun l n Hk Hn => try_admit_permits peer pool (idx wl) t h ls res h2 l n Hw Hls Ht Hp Hk He Hn)
    as Hperm.
  rewrite He. cbn [mbind option_bind]. destruct res as [a|u].
  - do 3 eexists. split_and!; [done|done|apply reasons_grow_refl| |exact Hperm].
    split; [by apply Hh|]. by exists wl.
  - do 3 eexists. split_and!; [done|done|by apply reasons_grow_one|done|exact Hperm].
Qed.
(** The whole pick: the sticky lane, else the passes. *)
Lemma pick_among_spec t peer env cands ctx hash pool order h :
  health_wf h -> NoDup (idx <$> cands) -> lanes_exist h (idx <$> cands) ->
  is_u64 t -> peer_ok peer -> (forall k, env_ok (env k)) ->
  exists p ctx' h', pick_among t peer env cands ctx hash pool order h = Some (p, ctx', h')
    /\ hstep h h' /\ reasons_grow cands (set_reasons [] ctx) ctx' /\ pick_sound pool cands ctx p h'
    /\ forall l n, keeps_permits l peer -> (forall k, env_keeps l (env k)) ->
         lane_permits h l = Some n -> lane_permits h' l = Some (n - held l p).
Proof.
  intros Hw Hnd Hl Ht Hp He. unfold pick_among.
  destruct (pick_sticky_spec t peer pool cands hash (set_reasons [] ctx) h Hw Hl Ht Hp)
    as (p & ctx1 & h1 & -> & Hst & Hg & Hs & Hk). cbn [mbind option_bind]. destruct p as [p|].
  { do 3 eexists. split_and!; [done|exact Hst|done|exact Hs|]. intros l n Hkp _. by apply Hk. }
  destruct (pick_loop_spec (S (length cands)) env pool cands order ctx1 ∅ h1)
    as (p & ctx2 & h2 & -> & Hst2 & Hg2 & Hs2 & Hk2).
  - apply Hst.
  - done.
  - by eapply lanes_exist_hstep.
  - done.
  - pose proof (sublist_length _ _ (remaining_sublist ctx1 ∅ cands)). lia.
  - do 3 eexists. split_and!; [done|by eapply hstep_trans|by eapply reasons_grow_trans| |].
    + destruct p; [|done]. destruct Hg as (rs & -> & _). exact Hs2.
    + intros l n Hkp Hke Hn. apply Hk2; [done|]. rewrite (Hk l n Hkp Hn). f_equal. simpl. lia.
Qed.
End store.
