(* ===== verification/SelectionPick.v ===== *)
(** * SelectionPick: the theorems of [pick_among]

    Soundness and resource accounting under interference; on a quiet store, completeness (a lane is
    found exactly when one is admissible) and the preferences (session affinity, then the policy's
    ranking); and the compliance restricts across pools. *)

From S2P Require Import Prelude Float64 Breaker BreakerFsm HealthState HealthLemmas HealthSpec HealthAdmit SwrrCore Swrr Selection SelectionSpec.

(** ** Lists *)

Lemma Zsum_filter_le {A} (P : A -> Prop) `{forall x, Decision (P x)} (f : A -> Z) (l : list A) :
  Forall (fun x => 0 <= f x) l -> 0 <= Zsum (f <$> filter P l) <= Zsum (f <$> l).
Proof.
  induction 1 as [|x l Hx _ IH]; [done|]. rewrite filter_cons. destruct (decide (P x)); csimpl; lia.
Qed.

Lemma find_subset {A} (p q : A -> bool) l x :
  (forall y, q y = true -> p y = true) -> List.find p l = Some x -> q x = true ->
  List.find q l = Some x.
Proof.
  intros Hsub. induction l as [|y l IH]; simpl; [done|]. destruct (p y) eqn:Ep.
  - intros [= ->] ->. done.
  - intros Hf Hq. destruct (q y) eqn:Eq; [|by apply IH]. apply Hsub in Eq. congruence.
Qed.

Lemma find_subset_none {A} (p q : A -> bool) l :
  (forall y, q y = true -> p y = true) -> List.find p l = None -> List.find q l = None.
Proof.
  intros Hsub. induction l as [|y l IH]; simpl; [done|]. destruct (p y) eqn:Ep; [done|].
  destruct (q y) eqn:Eq; [|done]. apply Hsub in Eq. congruence.
Qed.

Section store.
Context {SemT : Type} `{Semaphore SemT}.
Implicit Types (h : HealthState SemT) (ls : LaneState SemT).
#[local] Arguments read_cell : simpl never.
#[local] Arguments write_cell : simpl never.

(** ** Admissibility on a quiet store *)

(** The lane can take the request now: what [classify] calls [Ok]. *)
Definition eligible (pool : string) (now : Z) h (i : nat) : bool :=
  match get_lane h i, view_cell pool i h with
  | Some ls, Some c => match admission ls c now with Ok _ => true | Err _ => false end
  | _, _ => false
  end.

Lemma eligible_ready pool now h i : eligible pool now h i = true -> lane_ready pool now h i = true.
Proof.
  unfold eligible, lane_ready, member_healthy, admission, cell_ready_breaker. simpl.
  destruct (get_lane h i) as [ls|]; [|done]. destruct (view_cell pool i h) as [c|]; [|done].
  destruct (lane_gate ls); [done|]. by destruct (breaker_verdict c now).
Qed.

Lemma views_upto pool now h h' i :
  weight_view h h' -> is_Some (get_lane h i) ->
  eligible pool now h' i = eligible pool now h i /\ lane_ready pool now h' i = lane_ready pool now h i.
Proof.
  intros Hw [ls Hl]. destruct (view_some pool i h ls Hl) as [c Hc].
  destruct (wv_lane _ _ Hw _ _ Hl) as [c1 Hl']. destruct (wv_cell _ _ Hw _ _ _ Hc) as [w Hc'].
  unfold eligible, lane_ready, member_healthy. simpl. by rewrite Hl, Hl', Hc, Hc'.
Qed.

Lemma quiet_admit pool lane now h :
  health_wf h -> is_Some (get_lane h lane) -> is_u64 now ->
  exists res h2, try_admit id pool lane now h = Some (res, h2) /\ hstep h h2
    /\ match res with
       | Ok _ => eligible pool now h lane = true
       | Err _ => eligible pool now h lane = false /\ same_view h h2
       end.
Proof.
  intros Hw [ls Hl] Hn. destruct (view_some pool lane h ls Hl) as [c Hv].
  destruct (try_admit_spec id pool lane now h ls Hw Hl Hn) as (res & h2 & Ht & Hst & Hpost).
  { intros h0 Hw0. by apply hstep_refl. }
  exists res, h2. split_and!; [done..|]. unfold eligible. rewrite Hl, Hv.
  unfold admit_post in Hpost. rewrite Hv in Hpost. simpl in Hpost. destruct res as [a|u].
  - by destruct Hpost as [-> _].
  - destruct Hpost as [[-> Hs]|(_ & Hadm & h3 & c1 & _ & Hvw & Hr & Hnr & _)]; [done|]. exfalso.
    apply view_ref in Hr. unfold id in Hr. rewrite Hvw, Hv in Hr. injection Hr as <-.
    unfold admission in Hadm. destruct (lane_gate ls); [done|].
    unfold cell_ready_breaker in Hnr. by destruct (breaker_verdict c now).
Qed.

(** ** The accumulators stay in range *)

Definition in_range (B : Z) (pool : string) (lanes : list nat) h : Prop :=
  forall i c, i ∈ lanes -> view_cell pool i h = Some c -> - B <= current_weight c <= B.

Lemma in_range_same_view B pool lanes h h' :
  same_view h h' -> in_range B pool lanes h -> in_range B pool lanes h'.
Proof. intros Hs Hr i c Hi. rewrite (sv_view _ _ Hs). by apply Hr. Qed.

Lemma swrr_round_range ws cs i cs' B :
  swrr_round ws cs = Some (i, cs') -> Forall (fun w => 0 <= w) ws ->
  Forall (fun c => - B <= c <= B) cs -> B + Zsum ws <= 2 ^ 62 ->
  Forall (fun c => - (B + Zsum ws) <= c <= B + Zsum ws) cs'.
Proof.
  unfold swrr_round. intros Hr Hws Hcs HB. apply bind_Some_inv in Hr as (i' & _ & Hr).
  injection Hr as -> <-. pose proof (Zsum_nonneg ws Hws).
  assert (Hadd : forall j c, swrr_add cs ws !! j = Some c -> - B <= c <= B + Zsum ws).
  { intros j c. unfold swrr_add. rewrite lookup_zip_with. intros Hj.
    apply bind_Some_inv in Hj as (c0 & Hc0 & Hj). apply bind_Some_inv in Hj as (w & Hw & Hj).
    injection Hj as <-. rewrite Forall_lookup in Hcs. specialize (Hcs _ _ Hc0). simpl in Hcs.
    pose proof (Zsum_ge_elem _ _ _ Hws Hw). rewrite Forall_lookup in Hws.
    specialize (Hws _ _ Hw). simpl in Hws. rewrite wrap_i64_small; lia. }
  apply Forall_lookup. intros j c Hj. destruct (decide (i = j)) as [<-|Hne].
  - rewrite list_lookup_alter_eq in Hj. apply fmap_Some in Hj as (c0 & Hc0 & ->).
    specialize (Hadd _ _ Hc0). rewrite wrap_i64_small; lia.
  - rewrite list_lookup_alter_ne in Hj by done. specialize (Hadd _ _ Hj). lia.
Qed.

Lemma healthy_weights_le pool now h candidates weights :
  Forall is_u32 weights ->
  0 <= Zsum (healthy_members pool now h (zip candidates weights)).*2 <= Zsum weights.
Proof.
  intros Hws. unfold healthy_members. rewrite <- list_fmap_compose.
  change (snd ∘ _) with (fun m : nat * Z => m.2).
  assert (Hz : forall cs, 0 <= Zsum (snd <$> zip cs weights) <= Zsum weights
    /\ Forall (fun m : nat * Z => 0 <= m.2) (zip cs weights)).
  { induction Hws as [|w ws Hw _ IH]; intros cs; [by destruct cs|].
    pose proof (Zsum_nonneg ws) as Hp. destruct cs as [|c cs]; csimpl.
    - destruct (IH []) as [Hi _]. unfold is_u32 in Hw. simpl in *. split; [lia|done].
    - destruct (IH cs) as [Hi Hf]. unfold is_u32 in Hw. split; [lia|].
      constructor; [simpl; lia|done]. }
  destruct (Hz candidates) as [Hs Hf].
  pose proof (Zsum_filter_le (fun m => Is_true (member_healthy pool now h m)) snd _ Hf) as Hle.
  change (fun m : nat * Z => m.2) with (@snd nat Z). lia.
Qed.

(** The accumulators after one round: those of the healthy members moved by at most the total, the
    others not at all. *)
Lemma range_after healthy h h' cs cs' k pool all B S :
  in_range B pool all h -> accumulators (refs healthy) h = Some cs ->
  swrr_round healthy.*2 cs = Some (k, cs') -> weights_only (refs healthy) h h' ->
  accumulators (refs healthy) h' = Some cs' ->
  (forall lane r w, (lane, r, w) ∈ healthy -> r = cell_ref pool lane /\ is_u32 w
     /\ forall c, read_cell r h = Some c -> - B <= current_weight c <= B) ->
  Zsum healthy.*2 <= S -> B + S <= 2 ^ 62 -> (forall i, i ∈ all -> is_Some (view_cell pool i h)) ->
  in_range (B + S) pool all h'.
Proof.
  intros Hrange Hacc Hround Hwo Hacc' Hin HS HB Hall i c' Hi Hv'.
  assert (Hws : Forall (fun w => 0 <= w) healthy.*2).
  { apply Forall_forall. intros w Hw. apply list_elem_of_fmap in Hw as ([[l r] w'] & -> & Hm).
    destruct (Hin _ _ _ Hm) as (_ & [? _] & _). done. }
  assert (Hcs : Forall (fun c => - B <= c <= B) cs).
  { apply Forall_lookup. intros j cw Hj. destruct (refs healthy !! j) as [r|] eqn:Er.
    - destruct (accumulators_lookup _ _ _ _ _ Hacc Er) as (c & Hr & Hc).
      rewrite Hj in Hc. injection Hc as ->. unfold refs in Er. rewrite list_lookup_fmap in Er.
      apply fmap_Some in Er as ([[l r'] w'] & Hh & ->). apply list_elem_of_lookup_2 in Hh.
      destruct (Hin _ _ _ Hh) as (_ & _ & Hr'). by apply Hr'.
    - unfold accumulators in Hacc. apply mapM_Some_1, Forall2_length in Hacc.
      apply lookup_ge_None in Er. apply lookup_lt_Some in Hj. lia. }
  pose proof (Zsum_nonneg _ Hws).
  pose proof (swrr_round_range _ _ _ _ B Hround Hws Hcs ltac:(lia)) as Hcs'.
  destruct (Hall i Hi) as [c Hv].
  destruct (weights_only_view _ _ _ _ _ _ Hwo Hv) as (w & Hw & Hsame).
  destruct (decide (cell_ref pool i ∈ refs healthy)) as [Href|Href].
  - apply list_elem_of_lookup_1 in Href as [j Hj].
    destruct (accumulators_lookup _ _ _ _ _ Hacc' Hj) as (c'' & Hr & Hc).
    apply view_ref in Hr. rewrite Hv' in Hr. injection Hr as <-.
    rewrite Forall_lookup in Hcs'. specialize (Hcs' _ _ Hc). simpl in Hcs'. lia.
  - rewrite Hv' in Hw. injection Hw as ->. rewrite (Hsame Href). simpl.
    specialize (Hrange _ _ Hi Hv). lia.
Qed.

Lemma select_quiet pool candidates weights now h B all :
  health_wf h -> NoDup candidates -> lanes_exist h candidates -> Forall is_u32 weights ->
  candidates ⊆ all -> lanes_exist h all -> in_range B pool all h -> B + Zsum weights <= 2 ^ 62 ->
  exists pick h', select_weighted_for pool candidates weights now h = Some (pick, h')
    /\ hstep h h' /\ weight_view h h' /\ in_range (B + Zsum weights) pool all h'
    /\ match pick with
       | None => forall i w, (i, w) ∈ zip candidates weights -> member_healthy pool now h (i, w) = false
       | Some i => exists w, (i, w) ∈ zip candidates weights /\ member_healthy pool now h (i, w) = true
       end.
Proof.
  intros Hw Hnd Hl Hws Hsub Hall Hrange HB.
  destruct (select_spec pool candidates weights now h Hw Hnd (members_exist _ _ _ Hl)) as [Hnone Hsome].
  pose proof (elem_healthy_members pool now h (zip candidates weights)) as Hmem.
  pose proof (healthy_weights_le pool now h candidates weights Hws) as Hle.
  set (healthy := healthy_members pool now h (zip candidates weights)) in *.
  destruct (decide (healthy = [])) as [He|He].
  - destruct (Hnone He) as (h' & Hsel & Hst & Hsv). exists None, h'.
    split_and!; [done|done|by apply same_view_weight| |].
    + intros i c Hi Hv. rewrite (sv_view _ _ Hsv) in Hv. specialize (Hrange _ _ Hi Hv). lia.
    + intros i w Hin. destruct (member_healthy pool now h (i, w)) eqn:E; [|done].
      assert ((i, cell_ref pool i, w) ∈ healthy) as Hh by (by apply Hmem).
      rewrite He in Hh. by apply elem_of_nil in Hh.
  - destruct (Hsome He) as (h1 & cs & Hsv & Hst1 & Hacc & Hsel).
    assert (Hin : forall lane r w, (lane, r, w) ∈ healthy -> r = cell_ref pool lane /\ is_u32 w
      /\ forall c, read_cell r h1 = Some c -> - B <= current_weight c <= B).
    { intros lane r w Hin. apply Hmem in Hin as (-> & Hin & _). apply elem_of_zip_l in Hin as Hcand.
      apply elem_of_zip_r in Hin. rewrite Forall_forall in Hws. split_and!; [done|by apply Hws..|].
      intros c Hr. apply view_ref in Hr. rewrite (sv_view _ _ Hsv) in Hr.
      eapply Hrange; [by apply Hsub|done]. }
    destruct (round_defined healthy h1 cs He Hacc) as (k & cs' & Hround).
    { intros lane r w Hi. destruct (Hin _ _ _ Hi) as (_ & Hu & Hr). split; [done|].
      intros c Hc. specialize (Hr c Hc). lia. }
    destruct (Hsel k cs' Hround) as (lane & r & w & h' & Hi & He' & Hst' & Hwo & Hacc').
    exists (Some lane), h'. apply list_elem_of_lookup_2 in Hi. apply Hmem in Hi as (-> & Hzip & Hm).
    split_and!; [done|done| | |by exists w].
    + etransitivity; [by apply same_view_weight|]. by eapply weights_only_weight.
    + eapply (range_after healthy h1 h' cs cs' k); try done.
      * by eapply in_range_same_view.
      * lia.
      * intros i Hi. rewrite (sv_view _ _ Hsv). unfold lanes_exist in Hall.
        rewrite Forall_forall in Hall. destruct (Hall i Hi) as [ls Hls].
        destruct (view_some pool i h ls Hls) as [c ->]. done.
Qed.

(** ** The loop on a quiet store *)

(** One instant, nobody else on the store. *)
Definition quiet (now : Z) : RoundEnv (SemT := SemT) := mkRound now now now id id id.

Definition weighted (wl : WeightedLane) : bool := negb (weight wl =? 0).

(** A weighted candidate the request has not excluded. *)
Definition usable (ctx : RequestCtx) (cands : list WeightedLane) (i : nat) : bool :=
  existsb (fun wl => Nat.eqb (idx wl) i && weighted wl && bool_decide (i ∉ excluded ctx)) cands.

Lemma usable_elem ctx cands i :
  usable ctx cands i = true <->
  exists wl, wl ∈ cands /\ idx wl = i /\ weight wl <> 0 /\ i ∉ excluded ctx.
Proof.
  unfold usable, weighted. rewrite existsb_exists. split.
  - intros (wl & Hin & Hb). zbool. exists wl. rewrite list_elem_of_In. apply Nat.eqb_eq in H0.
    apply bool_decide_eq_true in H1. done.
  - intros (wl & Hin & <- & Hw & Hx). exists wl. rewrite <- list_elem_of_In. split; [done|].
    rewrite Nat.eqb_refl, bool_decide_true by done. apply Z.eqb_neq in Hw. by rewrite Hw.
Qed.

Lemma choose_quiet pool now order filtered h B all S :
  health_wf h -> NoDup (idx <$> filtered) -> lanes_exist h (idx <$> filtered) ->
  Forall (fun wl => is_u32 (weight wl)) filtered -> idx <$> filtered ⊆ all -> lanes_exist h all ->
  in_range B pool all h -> Zsum (weight <$> filtered) <= S -> B + S <= 2 ^ 62 ->
  exists chosen h', choose pool now order filtered h = Some (chosen, h')
    /\ hstep h h' /\ weight_view h h' /\ in_range (B + S) pool all h'
    /\ match chosen with
       | None => forall wl, wl ∈ filtered -> weight wl <> 0 -> lane_ready pool now h (idx wl) = false
       | Some i => exists wl, wl ∈ filtered /\ idx wl = i /\ weight wl <> 0
       end
    /\ forall o i, order = Some o ->
         List.find (fun i => weighted_member (member_of filtered) i && lane_ready pool now h i) o = Some i ->
         chosen = Some i.
Proof.
  intros Hw Hnd Hl Hws Hsub Hall Hrange HS HB.
  assert (Hweights : Forall is_u32 (weight <$> filtered)) by by apply Forall_fmap.
  assert (Hpos : 0 <= Zsum (weight <$> filtered)).
  { apply Zsum_nonneg. eapply Forall_impl; [exact Hweights|]. by intros w [? _]. }
  assert (Hsel : forall h0, hstep h h0 -> same_view h h0 ->
    exists chosen h', select_weighted_in pool (idx <$> filtered) (weight <$> filtered) now h0
        = Some (chosen, h')
      /\ hstep h h' /\ weight_view h h' /\ in_range (B + S) pool all h'
      /\ match chosen with
         | None => forall wl, wl ∈ filtered -> weight wl <> 0 -> lane_ready pool now h (idx wl) = false
         | Some i => exists wl, wl ∈ filtered /\ idx wl = i /\ weight wl <> 0
         end).
  { intros h0 Hs0 Hv0.
    destruct (select_quiet pool (idx <$> filtered) (weight <$> filtered) now h0 B all)
      as (pick & h' & He & Hst & Hwv & Hr & Hp); try done; [apply Hs0|by eapply lanes_exist_hstep..| |lia|].
    { by eapply in_range_same_view. }
    exists pick, h'. split_and!; [exact He|by eapply hstep_trans| | |].
    - etransitivity; [by apply same_view_weight|done].
    - intros i c Hi Hv. specialize (Hr i c Hi Hv). lia.
    - destruct pick as [i|].
      + destruct Hp as (w & Hin & Hm). destruct (member_of_elem _ _ _ Hin) as (wl & ? & <- & <-).
        rewrite member_healthy_ready in Hm. zbool. eauto.
      + intros wl Hin Hwt. specialize (Hp _ _ (member_of_in _ _ Hin)).
        rewrite member_healthy_ready in Hp. apply Z.eqb_neq in Hwt. rewrite Hwt in Hp.
        by rewrite <- (lane_ready_same_view _ _ _ _ _ Hv0). }
  unfold choose. destruct order as [order|].
  2: { destruct (Hsel h) as (ch & h' & ? & ? & ? & ? & ?); [by apply hstep_refl|reflexivity|].
       exists ch, h'. by split_and!. }
  destruct (find_preferred_spec pool now (member_of filtered) order h Hw) as (h1 & He & Hst & Hsv).
  { by apply members_exist. }
  unfold member_of in He. rewrite He. cbn [mbind option_bind]. fold (member_of filtered).
  destruct (List.find _ order) as [i|] eqn:Ef; fold (member_of filtered) in Ef.
  - exists (Some i), h1. split_and!; [done|done|by apply same_view_weight| | |].
    + intros j c Hj Hv. rewrite (sv_view _ _ Hsv) in Hv. specialize (Hrange j c Hj Hv). lia.
    + apply List.find_some in Ef as [_ Hi]. zbool.
      destruct (weighted_member_in _ _ ltac:(done)) as (w & Hin & Hw0).
      destruct (member_of_elem _ _ _ Hin) as (wl & ? & <- & <-). eauto.
    + intros o j [= <-]. congruence.
  - destruct (Hsel h1 Hst Hsv) as (ch & h' & ? & ? & ? & ? & ?). exists ch, h'. split_and!; try done.
    intros o j [= <-]. congruence.
Qed.

(** What a quiet pick promises about the store [h0] it started on. *)
Definition quiet_result (pool : string) (now : Z) (cands : list WeightedLane) (order : option (list nat))
    (ctx : RequestCtx) h0 (p : option Picked) : Prop :=
  match p with
  | None => forall i, usable ctx cands i = true -> eligible pool now h0 i = false
  | Some p => usable ctx cands p.1.1 = true /\ eligible pool now h0 p.1.1 = true
      /\ forall o i, order = Some o ->
           List.find (fun i => usable ctx cands i && eligible pool now h0 i) o = Some i -> p.1.1 = i
  end.

Lemma usable_cand ctx cands i : usable ctx cands i = true -> i ∈ idx <$> cands.
Proof. intros (wl & ? & <- & _)%usable_elem. apply list_elem_of_fmap. eauto. Qed.

Lemma remaining_weights ctx local cands :
  Forall (fun wl => is_u32 (weight wl)) cands ->
  Forall (fun wl => is_u32 (weight wl)) (remaining_cands ctx local cands)
  /\ Zsum (weight <$> remaining_cands ctx local cands) <= Zsum (weight <$> cands).
Proof.
  intros Hws.
  assert (Hp : forall l, Forall (fun wl => is_u32 (weight wl)) l -> Forall (fun wl => 0 <= weight wl) l).
  { intros l Hl. eapply Forall_impl; [exact Hl|]. by intros wl [? _]. }
  assert (Hf : forall (P : WeightedLane -> Prop) `{forall x, Decision (P x)} l,
    Forall (fun wl => is_u32 (weight wl)) l -> Forall (fun wl => is_u32 (weight wl)) (filter P l)).
  { intros P ? l Hl. rewrite Forall_forall in *. intros x [_ Hx]%list_elem_of_filter. by apply Hl. }
  unfold remaining_cands, fill_candidates. split; [by apply Hf, Hf|].
  pose proof (Zsum_filter_le (fun wl => idx wl ∉ excluded ctx) weight cands (Hp _ Hws)).
  pose proof (Zsum_filter_le (fun wl => idx wl ∉ local) weight
    (filter (fun wl => idx wl ∉ excluded ctx) cands) (Hp _ (Hf _ _ _ Hws))). lia.
Qed.

(** The ranked walk stops at the first ready lane; when that one is eligible it is the first
    eligible lane of the ranking. *)
Lemma ordered_choice pool now ctx local cands h0 h o i lane :
  NoDup (idx <$> remaining_cands ctx local cands) ->
  (forall i, usable ctx cands i = true -> eligible pool now h0 i = true ->
     exists wl, wl ∈ remaining_cands ctx local cands /\ idx wl = i /\ weight wl <> 0) ->
  (forall i, i ∈ idx <$> cands -> lane_ready pool now h i = lane_ready pool now h0 i) ->
  (forall o' i', Some o = Some o' ->
     List.find (fun i => weighted_member (member_of (remaining_cands ctx local cands)) i
                         && lane_ready pool now h i) o' = Some i' -> Some lane = Some i') ->
  usable ctx cands lane = true -> eligible pool now h0 lane = true ->
  List.find (fun i => usable ctx cands i && eligible pool now h0 i) o = Some i -> lane = i.
Proof.
  intros Hnd Hrem Hsame Hord Hu He Hfind.
  set (P := fun i => weighted_member (member_of (remaining_cands ctx local cands)) i
                     && lane_ready pool now h i) in *.
  set (Q := fun i => usable ctx cands i && eligible pool now h0 i) in *.
  assert (Hsub : forall j, Q j = true -> P j = true).
  { intros j Hq. unfold Q, P in *. zbool. rewrite Hsame by (by eapply usable_cand).
    rewrite (eligible_ready _ _ _ j) by done. destruct (Hrem j) as (wl & Hin & <- & Hwt); [done..|].
    rewrite (weighted_member_elem _ _ (weight wl)); [done| |by apply member_of_in|done].
    by rewrite member_of_fst. }
  destruct (List.find P o) as [x|] eqn:Ep.
  - pose proof (Hord o x eq_refl Ep) as Hx. injection Hx as <-.
    assert (Hq : Q lane = true) by (unfold Q; by rewrite Hu, He).
    pose proof (find_subset P Q o lane Hsub Ep Hq). congruence.
  - rewrite (find_subset_none P Q o Hsub Ep) in Hfind. done.
Qed.

(** Only lanes that cannot take the request have been set aside. *)
Lemma quiet_loop pool now cands order h0 fuel :
  let S := Zsum (weight <$> cands) in
  health_wf h0 -> lanes_exist h0 (idx <$> cands) -> NoDup (idx <$> cands) ->
  Forall (fun wl => is_u32 (weight wl)) cands -> is_u64 now ->
  forall ctx local h B, hstep h0 h -> weight_view h0 h -> expired ctx now = false ->
  in_range B pool (idx <$> cands) h -> B + Z.of_nat fuel * S <= 2 ^ 62 ->
  (forall i, i ∈ local -> eligible pool now h0 i = false) ->
  (length (remaining_cands ctx local cands) < fuel)%nat ->
  exists p ctx' h', pick_loop fuel (fun _ => quiet now) pool cands order ctx local h = Some (p, ctx', h')
    /\ quiet_result pool now cands order ctx h0 p.
Proof.
  intros S Hw0 Hl0 Hnd Hws Hn.
  assert (HS0 : 0 <= S).
  { apply Zsum_nonneg, Forall_fmap. eapply Forall_impl; [exact Hws|]. by intros wl [? _]. }
  induction fuel as [|fuel IH]; intros ctx local h B Hst Hv Hexp Hrange HB Hloc Hf; [lia|].
  assert (Hrem : forall i, usable ctx cands i = true -> eligible pool now h0 i = true ->
    exists wl, wl ∈ remaining_cands ctx local cands /\ idx wl = i /\ weight wl <> 0).
  { intros i Hu He. apply usable_elem in Hu as (wl & Hin & <- & Hwt & Hx). exists wl.
    split_and!; try done. apply remaining_elem. split_and!; try done. intros Hc.
    rewrite (Hloc _ Hc) in He. done. }
  assert (Hsame : forall i h1, weight_view h0 h1 -> i ∈ idx <$> cands ->
    eligible pool now h1 i = eligible pool now h0 i /\ lane_ready pool now h1 i = lane_ready pool now h0 i).
  { intros i h1 Hv1 Hi. apply views_upto; [done|]. unfold lanes_exist in Hl0.
    rewrite Forall_forall in Hl0. auto. }
  cbn [pick_loop]. unfold pick_round. cbn [t_guard t_select t_admit before_select before_admit
    during_admit quiet]. rewrite Hexp. fold (remaining_cands ctx local cands). unfold id.
  destruct (remaining_cands ctx local cands) as [|wl0 rest] eqn:Er.
  { do 3 eexists. split; [done|]. intros i Hu. destruct (eligible pool now h0 i) eqn:Ee; [|done].
    destruct (Hrem i Hu Ee) as (wl & Hin & _). by apply elem_of_nil in Hin. }
  rewrite <- Er in *. clear Er wl0 rest.
  destruct (remaining_weights ctx local cands Hws) as [Hws' HSr]. fold S in HSr.
  pose proof (remaining_nodup ctx local cands Hnd) as Hndr.
  destruct (choose_quiet pool now order (remaining_cands ctx local cands) h B (idx <$> cands) S)
    as (chosen & h1 & -> & Hst1 & Hv1 & Hr1 & Hch & Hord); try done; [apply Hst|..].
  { eapply lanes_exist_hstep; [done|]. by apply remaining_exist. }
  { intros i Hi. apply list_elem_of_fmap in Hi as (wl & -> & Hin). apply remaining_elem in Hin as (Hin & _).
    apply list_elem_of_fmap. eauto. }
  { by eapply lanes_exist_hstep. }
  { lia. }
  cbn [mbind option_bind]. destruct chosen as [lane|].
  2: { do 3 eexists. split; [done|]. intros i Hu. destruct (eligible pool now h0 i) eqn:Ee; [|done].
       destruct (Hrem i Hu Ee) as (wl & Hin & <- & Hwt). specialize (Hch wl Hin Hwt).
       destruct (Hsame (idx wl) h Hv (usable_cand _ _ _ Hu)) as [_ Hrd].
       rewrite Hrd, (eligible_ready _ _ _ _ Ee) in Hch. done. }
  destruct Hch as (wl & Hin & <- & Hwt).
  pose proof (proj1 (remaining_elem _ _ _ _) Hin) as (Hc & Hx & _).
  assert (Hu : usable ctx cands (idx wl) = true) by (apply usable_elem; eauto).
  pose proof (hstep_trans _ _ _ Hst Hst1) as Hst01.
  assert (Hv01 : weight_view h0 h1) by by etransitivity.
  destruct (quiet_admit pool (idx wl) now h1) as (res & h2 & He & Hst2 & Hres); [apply Hst01| |done|].
  { pose proof (lanes_exist_hstep _ _ _ Hst01 Hl0) as Hl1. unfold lanes_exist in Hl1.
    rewrite Forall_forall in Hl1. apply Hl1. by eapply usable_cand. }
  unfold id in He. rewrite He. cbn [mbind option_bind]. cbv beta.
  destruct (Hsame (idx wl) h1 Hv01 (usable_cand _ _ _ Hu)) as [Helig _].
  destruct res as [a|u].
  - do 3 eexists. split; [done|]. simpl. split_and!; [done|congruence|].
    intros o i -> Hfind. apply (ordered_choice pool now ctx local cands h0 h o i); try done; [|congruence].
    intros j Hj. by apply (Hsame j h Hv).
  - destruct Hres as [Hne Hsv]. cbn [mbind option_bind].
    destruct (IH (set_reasons (excluded_reasons ctx ++ [(idx wl, u)]) ctx) ({[idx wl]} ∪ local) h2 (B + S))
      as (p & ctx' & h' & -> & Hp).
    + by eapply hstep_trans.
    + etransitivity; [done|]. by apply same_view_weight.
    + done.
    + by eapply in_range_same_view.
    + lia.
    + intros i [->%elem_of_singleton|Hi]%elem_of_union; [congruence|by apply Hloc].
    + pose proof (remaining_shrinks _ _ _ _ Hin). unfold remaining_cands, fill_candidates in *. simpl. lia.
    + do 3 eexists. split; [done|exact Hp].
Qed.

(** The candidate the session's hash designates. *)
Definition sticky_lane (cands : list WeightedLane) (hash : option Z) : option nat :=
  match hash with
  | Some hash => idx <$> cands !! Z.to_nat (hash mod Z.of_nat (length cands))
  | None => None
  end.

Definition sticky_ok (pool : string) (now : Z) (cands : list WeightedLane) (hash : option Z)
    (ctx : RequestCtx) h (i : nat) : Prop :=
  sticky_lane cands hash = Some i /\ usable ctx cands i = true /\ eligible pool now h i = true.

Lemma usable_reasons rs ctx cands i : usable (set_reasons rs ctx) cands i = usable ctx cands i.
Proof. done. Qed.

(** The fast path on a quiet store: it takes the sticky lane when that can be taken. *)
Lemma sticky_quiet pool now cands hash ctx h :
  health_wf h -> lanes_exist h (idx <$> cands) -> NoDup (idx <$> cands) -> is_u64 now ->
  exists (p : option Picked) rs h', pick_sticky now id pool cands hash ctx h
      = Some (p, set_reasons (excluded_reasons ctx ++ rs) ctx, h') /\ hstep h h'
    /\ match p with
       | Some p => sticky_ok pool now cands hash ctx h p.1.1
       | None => same_view h h' /\ forall i, ~ sticky_ok pool now cands hash ctx h i
       end.
Proof.
  intros Hw Hl Hnd Hn. unfold pick_sticky.
  assert (Hno : (forall i, ~ sticky_ok pool now cands hash ctx h i) ->
    exists (p : option Picked) rs h', Some (None, ctx, h) = Some (p, set_reasons (excluded_reasons ctx ++ rs) ctx, h')
      /\ hstep h h' /\ match p with
       | Some p => sticky_ok pool now cands hash ctx h p.1.1
       | None => same_view h h' /\ forall i, ~ sticky_ok pool now cands hash ctx h i end).
  { intros Hn'. exists None, [], h. rewrite app_nil_r. split; [by destruct ctx|].
    split; [by apply hstep_refl|]. by split. }
  destruct hash as [hash|]; [|apply Hno; by intros i (? & _)].
  destruct cands as [|wl0 rest]; [apply Hno; by intros i (? & _)|].
  set (cands := wl0 :: rest) in *.
  destruct (lookup_lt_is_Some_2 cands (Z.to_nat (hash mod Z.of_nat (length cands)))) as [wl Hwl].
  { pose proof (Z.mod_pos_bound hash (Z.of_nat (length cands))). simpl in *. lia. }
  assert (Hst : sticky_lane cands (Some hash) = Some (idx wl)) by (unfold sticky_lane; by rewrite Hwl).
  rewrite Hwl. cbn [mbind option_bind]. pose proof (list_elem_of_lookup_2 _ _ _ Hwl) as Hin.
  destruct (negb (weight wl =? 0) && bool_decide (idx wl ∉ excluded ctx)) eqn:Eu.
  2: { apply Hno. intros i (Hi & Hu & _). rewrite Hst in Hi. injection Hi as <-.
       apply usable_elem in Hu as (wl' & Hin' & Heq & Hwt & Hx).
       assert (wl' = wl) as ->.
       { apply list_elem_of_lookup_1 in Hin' as [j Hj].
         assert ((idx <$> cands) !! j = Some (idx wl)) as H1 by (rewrite list_lookup_fmap, Hj; simpl; congruence).
         assert ((idx <$> cands) !! Z.to_nat (hash mod Z.of_nat (length cands)) = Some (idx wl)) as H2
           by (by rewrite list_lookup_fmap, Hwl).
         rewrite (NoDup_lookup _ _ _ _ Hnd H1 H2) in Hj. congruence. }
       apply Z.eqb_neq in Hwt. rewrite Hwt, bool_decide_true in Eu by done. done. }
  zbool. apply bool_decide_eq_true in H1.
  assert (Hu : usable ctx cands (idx wl) = true) by (apply usable_elem; eauto).
  destruct (quiet_admit pool (idx wl) now h) as (res & h2 & He & Hs & Hres); [done| |done|].
  { unfold lanes_exist in Hl. rewrite Forall_forall in Hl. apply Hl. by eapply usable_cand. }
  rewrite He. cbn [mbind option_bind]. destruct res as [a|u].
  - exists (Some (idx wl, permit a, admit_probe_epoch a)), [], h2. rewrite app_nil_r.
    split; [by destruct ctx|]. split; [done|]. by split_and!.
  - destruct Hres as [Hne Hsv]. do 3 eexists. split; [done|]. split; [done|]. split; [done|].
    intros i (Hi & _ & Hei). rewrite Hst in Hi. injection Hi as <-. congruence.
Qed.

(** The whole pick on a quiet store. *)
Lemma pick_among_quiet pool now cands order hash ctx h B :
  health_wf h -> lanes_exist h (idx <$> cands) -> NoDup (idx <$> cands) ->
  Forall (fun wl => is_u32 (weight wl)) cands -> is_u64 now -> expired ctx now = false ->
  in_range B pool (idx <$> cands) h ->
  B + Z.of_nat (S (length cands)) * Zsum (weight <$> cands) <= 2 ^ 62 ->
  exists p ctx' h', pick_among now id (fun _ => quiet now) cands ctx hash pool order h
      = Some (p, ctx', h')
    /\ ((exists i q, sticky_ok pool now cands hash ctx h i /\ p = Some q /\ q.1.1 = i)
        \/ (forall i, ~ sticky_ok pool now cands hash ctx h i)
           /\ quiet_result pool now cands order ctx h p).
Proof.
  intros Hw Hl Hnd Hws Hn Hexp Hr HB. unfold pick_among.
  destruct (sticky_quiet pool now cands hash (set_reasons [] ctx) h Hw Hl Hnd Hn)
    as (p & rs & h1 & -> & Hst & Hp). cbn [mbind option_bind]. destruct p as [p|].
  { do 3 eexists. split; [done|]. left. exists p.1.1, p. done. }
  destruct Hp as [Hsv Hno].
  destruct (quiet_loop pool now cands order h (S (length cands)) Hw Hl Hnd Hws Hn
    (set_reasons (excluded_reasons (set_reasons [] ctx) ++ rs) (set_reasons [] ctx)) ∅ h1 B)
    as (p & ctx' & h' & -> & Hq); try done.
  - by apply same_view_weight.
  - by eapply in_range_same_view.
  - match goal with |- (length (remaining_cands ?c ?l ?k) < _)%nat =>
      pose proof (sublist_length _ _ (remaining_sublist c l k)) end. lia.
  - do 3 eexists. split; [done|]. by right.
Qed.
End store.

(** ** Restricts *)

(** The restrict must hold: an empty result may not be ignored. *)
Definition required (r : RestrictConstraint) : bool :=
  match on_empty r with Weighted => false | Reject | First => true end.

(** The lane carries one of the restrict's tags in this pool. *)
Definition satisfies (members : option (gmap nat MemberMeta)) (r : RestrictConstraint)
    (wl : WeightedLane) : bool :=
  match members with
  | Some m => match m !! idx wl with Some meta => carries_tag (tags_any r) meta | None => false end
  | None => false
  end.

Lemma restrict_filter_elem members r cands wl :
  wl ∈ restrict_filter members r cands <-> satisfies members r wl = true /\ wl ∈ cands.
Proof.
  unfold restrict_filter. rewrite list_elem_of_filter. fold (satisfies members r wl).
  by rewrite Is_true_true.
Qed.

Lemma apply_restricts_spec members rs cands :
  match apply_restricts members rs cands with
  | Ok out => (forall wl, wl ∈ out -> wl ∈ cands
        /\ forall r, r ∈ rs -> required r = true -> satisfies members r wl = true)
      /\ (forall wl, wl ∈ cands -> (forall r, r ∈ rs -> satisfies members r wl = true) -> wl ∈ out)
      /\ (cands <> [] -> out <> [])
  | Err name => exists r, r ∈ rs /\ required r = true /\ name = restrict_name r
      /\ forall wl, wl ∈ cands -> exists r', r' ∈ rs /\ satisfies members r' wl = false
  end.
Proof.
  revert cands. induction rs as [|r rs IH]; intros cands; simpl.
  { split_and!; [|done|done]. intros wl Hin. split; [done|]. intros r Hr. by apply elem_of_nil in Hr. }
  assert (Hskip : restrict_filter members r cands = [] -> forall wl, wl ∈ cands -> satisfies members r wl = false).
  { intros He wl Hin. destruct (satisfies members r wl) eqn:E; [|done].
    assert (wl ∈ restrict_filter members r cands) as Hf by (by apply restrict_filter_elem).
    rewrite He in Hf. by apply elem_of_nil in Hf. }
  destruct (restrict_filter members r cands) as [|wl0 rest] eqn:Er.
  - specialize (Hskip eq_refl). destruct (on_empty r) eqn:Eo.
    2, 3: exists r; split_and!; [by left|unfold required; by rewrite Eo|done|];
      intros wl Hin; exists r; split; [by left|by apply Hskip].
    specialize (IH cands). destruct (apply_restricts members rs cands) as [out|name].
    + destruct IH as (H1 & H2 & H3). split_and!; [| |done].
      * intros wl Hin. destruct (H1 wl Hin) as [Hc Hr]. split; [done|].
        intros r' [->|Hr']%elem_of_cons Hq; [unfold required in Hq; by rewrite Eo in Hq|by apply Hr].
      * intros wl Hin Hall. apply H2; [done|]. intros r' Hr'. apply Hall. by right.
    + destruct IH as (r' & Hr & Hq & -> & Hno). exists r'. split_and!; [by right|done..|].
      intros wl Hin. destruct (Hno wl Hin) as (r2 & ? & ?). exists r2. split; [by right|done].
  - rewrite <- Er in *. specialize (IH (restrict_filter members r cands)).
    assert (Hne : restrict_filter members r cands <> []) by congruence. clear Er wl0 rest.
    destruct (apply_restricts members rs (restrict_filter members r cands)) as [out|name].
    + destruct IH as (H1 & H2 & H3). split_and!; [| |intros _; by apply H3].
      * intros wl Hin. destruct (H1 wl Hin) as [Hc Hr]. apply restrict_filter_elem in Hc as [Hs Hc].
        split; [done|]. intros r' [->|Hr']%elem_of_cons Hq; [done|by apply Hr].
      * intros wl Hin Hall. apply H2.
        { apply restrict_filter_elem. split; [|done]. apply Hall. by left. }
        intros r' Hr'. apply Hall. by right.
    + destruct IH as (r' & Hr & Hq & -> & Hno). exists r'. split_and!; [by right|done..|].
      intros wl Hin. destruct (satisfies members r wl) eqn:E; [|exists r; split; [by left|done]].
      destruct (Hno wl) as (r2 & ? & ?); [by apply restrict_filter_elem|]. exists r2.
      split; [by right|done].
Qed.

(** ** Properties *)

Section properties.
Context {SemT : Type} `{Semaphore SemT}.
Implicit Types (h : HealthState SemT).

(** The pick is total, sound and leaks nothing, whatever other requests do to the store between
    any two of its accesses and whatever the clock reads: it ends within one pass more than there are
    candidates; a picked lane is a weighted candidate the request has not excluded, and the pick
    holds exactly one permit of the kind that lane gives and the cell's current owner token; no
    other lane's permits are touched and a pick that fails holds none; the context's only change is
    the list of reasons, each about a candidate that was tried. *)
Theorem pick_is_total_and_sound t peer env cands ctx hash pool order h :
  health_wf h -> NoDup (idx <$> cands) -> lanes_exist h (idx <$> cands) ->
  is_u64 t -> peer_ok peer -> (forall k, env_ok (env k)) ->
  exists p ctx' h', pick_among t peer env cands ctx hash pool order h = Some (p, ctx', h')
    /\ health_wf h' /\ reasons_grow cands (set_reasons [] ctx) ctx'
    /\ pick_sound pool cands ctx p h'
    /\ forall l n, keeps_permits l peer -> (forall k, env_keeps l (env k)) ->
         lane_permits h l = Some n -> lane_permits h' l = Some (n - held l p).
Proof.
  intros Hw Hnd Hl Ht Hp He.
  destruct (pick_among_spec t peer env cands ctx hash pool order h Hw Hnd Hl Ht Hp He)
    as (p & ctx' & h' & Hpk & Hst & Hrest). do 3 eexists. split; [exact Hpk|]. split; [apply Hst|done].
Qed.


(** Preferences are honoured in order on a store nobody else is changing: a session whose hashed
    candidate can take the request is pinned to it; otherwise, when the policy ranked the lanes, the pick
    is the first of its ranking that can take the request - a preferred lane that is drained, excluded,
    tripped, dead or at capacity is passed over for the next one. *)
Theorem preferences_are_honoured pool now cands order hash ctx h B i :
  health_wf h -> lanes_exist h (idx <$> cands) -> NoDup (idx <$> cands) ->
  Forall (fun wl => is_u32 (weight wl)) cands -> is_u64 now -> expired ctx now = false ->
  in_range B pool (idx <$> cands) h ->
  B + Z.of_nat (S (length cands)) * Zsum (weight <$> cands) <= 2 ^ 62 ->
  sticky_ok pool now cands hash ctx h i
  \/ (forall j, ~ sticky_ok pool now cands hash ctx h j)
     /\ (exists ranking, order = Some ranking
         /\ List.find (fun i => usable ctx cands i && eligible pool now h i) ranking = Some i) ->
  exists p e ctx' h', pick_among now id (fun _ => quiet now) cands ctx hash pool order h
    = Some (Some (i, p, e), ctx', h').
Proof.
  intros Hw Hl Hnd Hws Hn Hexp Hr HB Hpref.
  destruct (pick_among_quiet pool now cands order hash ctx h B Hw Hl Hnd Hws Hn Hexp Hr HB)
    as (p & ctx' & h' & -> & Hp).
  enough (exists q, p = Some q /\ q.1.1 = i) as ([[l pm] e] & -> & Hq) by (simpl in Hq; subst l; eauto 10).
  destruct Hpref as [Hi|(Hno & ranking & -> & Hf)].
  - destruct Hp as [(j & q & (Hj & _) & -> & Hq)|[Hno _]]; [|by destruct (Hno i)].
    destruct Hi as [Hi _]. exists q. split; [done|]. congruence.
  - destruct Hp as [(j & q & Hj & _)|[_ Hp]]; [by destruct (Hno j)|]. destruct p as [q|]; simpl in Hp.
    + destruct Hp as (_ & _ & Hord). exists q. split; [done|]. by eapply Hord.
    + apply List.find_some in Hf as [_ Hi]. zbool. rewrite Hp in *; done.
Qed.
End properties.

(** A compliance restrict survives a spill to another pool: every lane that
    [enforce_restricts] lets through is one of the candidates and carries, in that pool, a tag of each
    restrict whose empty result is not advisory; the request is refused only under the name of such
    a restrict, and only if no candidate satisfies them all; a candidate that satisfies every restrict is
    never dropped, and a non-empty candidate set never becomes an empty success. *)
Theorem restricts_survive_a_spill ctx pool_runtime pool cands :
  let members := pool_runtime !! pool in
  match enforce_restricts ctx pool_runtime pool cands with
  | Ok out => (forall wl, wl ∈ out -> wl ∈ cands
        /\ forall r, r ∈ active_restricts ctx -> required r = true -> satisfies members r wl = true)
      /\ (forall wl, wl ∈ cands ->
            (forall r, r ∈ active_restricts ctx -> satisfies members r wl = true) -> wl ∈ out)
      /\ (cands <> [] -> out <> [])
  | Err name => exists r, r ∈ active_restricts ctx /\ required r = true /\ name = restrict_name r
      /\ forall wl, wl ∈ cands ->
           exists r', r' ∈ active_restricts ctx /\ satisfies members r' wl = false
  end.
Proof. intros members. apply apply_restricts_spec. Qed.

(** ** Witnesses *)

Definition demo_cands : list WeightedLane := [mkWL 0 3 None None; mkWL 1 1 None None].

Definition demo_ctx : RequestCtx := mkCtx 2000 0 ∅ ∅ [] [] 7.

Lemma demo_exist : lanes_exist demo_store (idx <$> demo_cands).
Proof. repeat constructor; eexists; reflexivity. Qed.

Lemma demo_nodup : NoDup (idx <$> demo_cands).
Proof. apply NoDup_cons. split; [set_solver|apply NoDup_singleton]. Qed.

Lemma demo_weights : Forall (fun wl => is_u32 (weight wl)) demo_cands.
Proof. repeat (apply Forall_cons; split; [by vm_compute|]). by apply Forall_nil. Qed.

Lemma demo_range : in_range 0 "team" (idx <$> demo_cands) demo_store.
Proof.
  intros i c Hi Hv.
  assert (i = 0%nat \/ i = 1%nat) as [-> | ->] by (simpl in Hi; set_solver);
    vm_compute in Hv; injection Hv as <-; by vm_compute.
Qed.

Lemma quiet_ok now : is_u64 now -> env_ok (SemT := Z) (quiet now).
Proof. intros Hn. split_and!; try done; intros h Hh; by apply hstep_refl. Qed.

Lemma pick_is_total_and_sound_witness :
  exists p ctx' h', pick_among 1000 id (fun _ => quiet 1000) demo_cands demo_ctx None "team"
      (Some [1%nat; 0%nat]) demo_store = Some (p, ctx', h')
    /\ lane_permits h' 0 = Some (2 - held 0 p).
Proof.
  destruct (pick_is_total_and_sound 1000 id (fun _ => quiet 1000) demo_cands demo_ctx None "team"
    (Some [1%nat; 0%nat]) demo_store) as (p & ctx' & h' & He & _ & _ & _ & Hk).
  - apply demo_store_wf.
  - apply demo_nodup.
  - apply demo_exist.
  - by vm_compute.
  - intros h Hh. by apply hstep_refl.
  - intros _. by apply quiet_ok.
  - do 3 eexists. split; [exact He|]. apply Hk;
      [by intros ???|intros k; split_and!; by intros ???|reflexivity].
Defined.


Lemma preferences_are_honoured_witness :
  exists p e ctx' h', pick_among 1000 id (fun _ => quiet 1000) demo_cands demo_ctx None "team"
      (Some [5%nat; 1%nat; 0%nat]) demo_store = Some (Some (1%nat, p, e), ctx', h').
Proof.
  apply (preferences_are_honoured "team" 1000 demo_cands (Some [5%nat; 1%nat; 0%nat]) None demo_ctx
    demo_store 0 1).
  - apply demo_store_wf.
  - apply demo_exist.
  - apply demo_nodup.
  - apply demo_weights.
  - by vm_compute.
  - reflexivity.
  - apply demo_range.
  - by vm_compute.
  - right. split; [by intros j (Hj & _)|]. eexists. split; [done|reflexivity].
Defined.
