(* ===== verification/Windows.v ===== *)
(** * Windows: the UTC windows of the limits (governance/mod.rs)

    A limit's window word is resolved to the epoch its window starts at and the epoch it rolls at,
    by the public-domain civil-date algorithms. Divisions of signed integers truncate; sums and
    products of [u64] wrap, as in the release profile. *)

From S2P Require Import Prelude.

Definition SECS_PER_DAY : Z := 86400.

Definition WINDOW_TOTAL : string := "total".
Definition WINDOW_DAY : string := "day".
Definition WINDOW_MONTH : string := "month".
Definition WINDOW_MINUTE : string := "minute".
Definition WINDOW_HOUR : string := "hour".

Definition civil_from_days (z : Z) : Z * Z * Z :=
  let z := z + 719468 in
  let era := Z.quot (if 0 <=? z then z else z - 146096) 146097 in
  let doe := z - era * 146097 in
  let yoe := Z.quot (doe - Z.quot doe 1460 + Z.quot doe 36524 - Z.quot doe 146096) 365 in
  let y := yoe + era * 400 in
  let doy := doe - (365 * yoe + Z.quot yoe 4 - Z.quot yoe 100) in
  let mp := Z.quot (5 * doy + 2) 153 in
  let d := doy - Z.quot (153 * mp + 2) 5 + 1 in
  let m := if mp <? 10 then mp + 3 else mp - 9 in
  (if m <=? 2 then y + 1 else y, m, d).

Definition days_from_civil (y m d : Z) : Z :=
  let y := if m <=? 2 then y - 1 else y in
  let era := Z.quot (if 0 <=? y then y else y - 399) 400 in
  let yoe := y - era * 400 in
  let doy := Z.quot (153 * (if 2 <? m then m - 3 else m + 9) + 2) 5 + d - 1 in
  let doe := yoe * 365 + Z.quot yoe 4 - Z.quot yoe 100 + doy in
  era * 146097 + doe - 719468.

(** [days as u64 * SECS_PER_DAY] *)
Definition day_epoch (days : Z) : Z := wrap 64 (wrap 64 days * SECS_PER_DAY).

Definition budget_window (period : string) (now : Z) : Z :=
  if String.eqb period WINDOW_MINUTE then now / 60 * 60
  else if String.eqb period WINDOW_HOUR then now / 3600 * 3600
  else if String.eqb period WINDOW_DAY then now / SECS_PER_DAY * SECS_PER_DAY
  else if String.eqb period WINDOW_MONTH then
    let days := now / SECS_PER_DAY in
    let '(y, m, _) := civil_from_days days in
    day_epoch (days_from_civil y m 1)
  else if String.eqb period WINDOW_TOTAL then 0
  else 0.

Definition window_end (period : string) (now : Z) : option Z :=
  if String.eqb period WINDOW_MINUTE then Some (wrap 64 (now / 60 * 60 + 60))
  else if String.eqb period WINDOW_HOUR then Some (wrap 64 (now / 3600 * 3600 + 3600))
  else if String.eqb period WINDOW_DAY then Some (wrap 64 (now / SECS_PER_DAY * SECS_PER_DAY + SECS_PER_DAY))
  else if String.eqb period WINDOW_MONTH then
    let days := now / SECS_PER_DAY in
    let '(y, m, _) := civil_from_days days in
    let '(ny, nm) := if m =? 12 then (y + 1, 1) else (y, m + 1) in
    Some (day_epoch (days_from_civil ny nm 1))
  else None.

(** ** The Gregorian calendar, as a specification *)

Definition leap (y : Z) : bool := (y mod 4 =? 0) && (negb (y mod 100 =? 0) || (y mod 400 =? 0)).

Definition days_in_month (y m : Z) : Z :=
  if m =? 2 then (if leap y then 29 else 28)
  else if (m =? 4) || (m =? 6) || (m =? 9) || (m =? 11) then 30
  else 31.

Definition next_month (y m : Z) : Z * Z := if m =? 12 then (y + 1, 1) else (y, m + 1).

Definition valid_date (y m d : Z) : Prop := 1 <= m <= 12 /\ 1 <= d <= days_in_month y m.

(** The days before year [y] of the era, March first. *)
Definition year_days (yoe : Z) : Z := 365 * yoe + yoe / 4 - yoe / 100.

Lemma floor_era z k : 0 < k -> Z.quot (if 0 <=? z then z else z - (k - 1)) k = z / k.
Proof.
  intros Hk. destruct (0 <=? z) eqn:E; zbool; [apply Z.quot_div_nonneg; lia|].
  replace (z - (k - 1)) with (- (k - 1 - z)) by lia. rewrite Z.quot_opp_l by lia.
  rewrite Z.quot_div_nonneg by lia.
  apply (Z.div_unique_pos _ _ _ (z + k * ((k - 1 - z) / k))); [|lia].
  pose proof (Z.div_mod (k - 1 - z) k ltac:(lia)). pose proof (Z.mod_pos_bound (k - 1 - z) k ltac:(lia)). lia.
Qed.

(** The first day of year [100 c + 4 k + j] of the era, years starting in March; its length is 366 when
    the February at its end is in a leap year. *)
Definition year_length (c k j : Z) : Z :=
  if (j =? 3) && ((k <? 24) || (c =? 3)) then 366 else 365.

Lemma split_era doe :
  0 <= doe < 146097 ->
  exists c k j t, doe = 36524 * c + 1461 * k + 365 * j + t
    /\ 0 <= c <= 3 /\ 0 <= k <= 24 /\ 0 <= j <= 3 /\ 0 <= t < year_length c k j.
Proof.
  intros Hd. unfold year_length.
  set (c := Z.min (doe / 36524) 3). set (r := doe - 36524 * c).
  assert (0 <= c <= 3 /\ 0 <= r <= 36524 /\ (r = 36524 -> c = 3)) as (Hc & Hr & Hr3).
  { unfold r, c. pose proof (Z.div_mod doe 36524 ltac:(lia)).
    pose proof (Z.mod_pos_bound doe 36524 ltac:(lia)). lia. }
  set (k := r / 1461). set (r' := r mod 1461). set (j := Z.min (r' / 365) 3).
  pose proof (Z.div_mod r 1461 ltac:(lia)). pose proof (Z.mod_pos_bound r 1461 ltac:(lia)).
  pose proof (Z.div_mod r' 365 ltac:(lia)). pose proof (Z.mod_pos_bound r' 365 ltac:(lia)).
  fold k in H. fold r' in H, H0.
  exists c, k, j, (r' - 365 * j). split_and!; try lia.
  destruct (j =? 3) eqn:Ej; zbool; simpl; [|lia].
  destruct (k <? 24) eqn:Ek, (c =? 3) eqn:Ec; zbool; simpl; lia.
Qed.

Lemma year_of_era c k j t :
  0 <= c <= 3 -> 0 <= k <= 24 -> 0 <= j <= 3 -> 0 <= t < year_length c k j ->
  let doe := 36524 * c + 1461 * k + 365 * j + t in
  (doe - doe / 1460 + doe / 36524 - doe / 146096) / 365 = 100 * c + 4 * k + j.
Proof.
  intros Hc Hk Hj Ht doe. unfold year_length in Ht.
  assert (Hs : doe < 146097 /\ (doe = 146096 -> c = 3 /\ k = 24 /\ j = 3 /\ t = 365)).
  { unfold doe. destruct (j =? 3) eqn:Ej; zbool; simpl in Ht; [|lia].
    destruct (k <? 24) eqn:Ek, (c =? 3) eqn:Ec; zbool; simpl in Ht; lia. }
  assert (H1 : doe / 36524 - doe / 146096 = c).
  { destruct (Z.eq_dec doe 146096) as [E|E].
    - rewrite E. destruct Hs as [_ Hs]. destruct (Hs E) as (-> & _). done.
    - rewrite (Z.div_small doe 146096) by lia. rewrite (Z.div_unique_pos doe 36524 c (doe - 36524 * c)); [lia| |lia].
      unfold doe in *. destruct (j =? 3) eqn:Ej; zbool; simpl in Ht; [|lia].
      destruct (k <? 24) eqn:Ek, (c =? 3) eqn:Ec; zbool; simpl in Ht; lia. }
  pose proof (Z.div_mod doe 1460 ltac:(lia)). pose proof (Z.mod_pos_bound doe 1460 ltac:(lia)).
  set (q := doe / 1460) in *.
  symmetry. apply (Z.div_unique_pos _ _ _ (doe - q + c - 365 * (100 * c + 4 * k + j))); [|lia].
  unfold doe in *. destruct (j =? 3) eqn:Ej; zbool; simpl in Ht; [|lia].
  destruct (k <? 24) eqn:Ek, (c =? 3) eqn:Ec; zbool; simpl in Ht; lia.
Qed.

(** The day number of the first of March that starts year [Y]. *)
Definition march (Y : Z) : Z :=
  let yoe := Y mod 400 in Y / 400 * 146097 + (365 * yoe + yoe / 4 - yoe / 100) - 719468.

Lemma march_split e c k j :
  0 <= c <= 3 -> 0 <= k <= 24 -> 0 <= j <= 3 ->
  march (400 * e + (100 * c + 4 * k + j)) = e * 146097 + (36524 * c + 1461 * k + 365 * j) - 719468.
Proof.
  intros. unfold march. set (yoe := 100 * c + 4 * k + j).
  replace (400 * e + yoe) with (yoe + e * 400) by lia. rewrite Z.div_add, Z.mod_add by lia.
  rewrite (Z.div_small yoe 400), (Z.mod_small yoe 400) by (unfold yoe; lia).
  rewrite <- (Z.div_unique_pos yoe 4 (25 * c + k) j), <- (Z.div_unique_pos yoe 100 c (4 * k + j)); unfold yoe; lia.
Qed.

Lemma leap_split e c k j :
  0 <= c <= 3 -> 0 <= k <= 24 -> 0 <= j <= 3 ->
  year_length c k j = if leap (400 * e + (100 * c + 4 * k + j) + 1) then 366 else 365.
Proof.
  intros. unfold year_length, leap. set (y := 400 * e + (100 * c + 4 * k + j) + 1).
  assert ((y mod 4 =? 0) = (j =? 3)) as ->.
  { rewrite <- (Z.mod_unique_pos y 4 (100 * e + 25 * c + k + (if j =? 3 then 1 else 0)) (if j =? 3 then 0 else j + 1));
      unfold y; destruct (j =? 3) eqn:Ej; zbool; try lia; apply Z.eqb_neq; lia. }
  destruct (j =? 3) eqn:Ej; [|done]. zbool. simpl.
  destruct (k <? 24) eqn:Ek; zbool; simpl.
  - rewrite (proj2 (Z.eqb_neq (y mod 100) 0)); [done|].
    rewrite <- (Z.mod_unique_pos y 100 (4 * e + c) (4 * k + j + 1)); unfold y; lia.
  - destruct (c =? 3) eqn:Ec; zbool.
    + rewrite (proj2 (Z.eqb_eq (y mod 400) 0)); [by rewrite orb_true_r|].
      rewrite <- (Z.mod_unique_pos y 400 (e + 1) 0); unfold y; lia.
    + rewrite (proj2 (Z.eqb_eq (y mod 100) 0)), (proj2 (Z.eqb_neq (y mod 400) 0)); [done| |].
      * rewrite <- (Z.mod_unique_pos y 400 e (100 * (c + 1))); unfold y; lia.
      * rewrite <- (Z.mod_unique_pos y 100 (4 * e + c + 1) 0); unfold y; lia.
Qed.

Lemma split_year Y : exists e c k j,
  Y = 400 * e + (100 * c + 4 * k + j) /\ 0 <= c <= 3 /\ 0 <= k <= 24 /\ 0 <= j <= 3.
Proof.
  pose proof (Z.div_mod Y 400 ltac:(lia)). pose proof (Z.mod_pos_bound Y 400 ltac:(lia)).
  set (n := Y mod 400) in *. pose proof (Z.div_mod n 100 ltac:(lia)).
  pose proof (Z.mod_pos_bound n 100 ltac:(lia)). set (r := n mod 100) in *.
  pose proof (Z.div_mod r 4 ltac:(lia)). pose proof (Z.mod_pos_bound r 4 ltac:(lia)).
  exists (Y / 400), (n / 100), (r / 4), (r mod 4). lia.
Qed.

Lemma march_step Y : march (Y + 1) = march Y + (if leap (Y + 1) then 366 else 365).
Proof.
  destruct (split_year Y) as (e & c & k & j & -> & Hc & Hk & Hj).
  rewrite <- (leap_split e c k j) by lia. rewrite (march_split e c k j) by lia. unfold year_length.
  destruct (j =? 3) eqn:Ej; zbool; simpl.
  - destruct (k <? 24) eqn:Ek; zbool; simpl.
    + replace (_ + 1) with (400 * e + (100 * c + 4 * (k + 1) + 0)) by lia. rewrite march_split; lia.
    + destruct (c =? 3) eqn:Ec; zbool; simpl.
      * replace (_ + 1) with (400 * (e + 1) + (100 * 0 + 4 * 0 + 0)) by lia. rewrite march_split; lia.
      * replace (_ + 1) with (400 * e + (100 * (c + 1) + 4 * 0 + 0)) by lia. rewrite march_split; lia.
  - replace (_ + 1) with (400 * e + (100 * c + 4 * k + (j + 1))) by lia. rewrite march_split; lia.
Qed.

(** ** The two algorithms *)

Lemma days_from_civil_march y m d :
  days_from_civil y m d
  = march (if m <=? 2 then y - 1 else y) + (153 * (if 2 <? m then m - 3 else m + 9) + 2) ÷ 5 + d - 1.
Proof.
  unfold days_from_civil, march. set (Y := if m <=? 2 then y - 1 else y).
  pose proof (floor_era Y 400 ltac:(lia)) as Hf. change (400 - 1) with 399 in Hf. rewrite Hf. pose proof (Z.mod_pos_bound Y 400 ltac:(lia)).
  replace (Y - Y / 400 * 400) with (Y mod 400) by (pose proof (Z.div_mod Y 400 ltac:(lia)); lia).
  rewrite !(Z.quot_div_nonneg (Y mod 400)) by lia. lia.
Qed.

Lemma days_from_civil_day y m d : days_from_civil y m d = days_from_civil y m 1 + d - 1.
Proof. rewrite !days_from_civil_march. lia. Qed.

Ltac eval_quot :=
  repeat match goal with |- context [?a ÷ 5] => let v := eval vm_compute in (a ÷ 5) in change (a ÷ 5) with v end;
  repeat match goal with |- context [?a / 5] => let v := eval vm_compute in (a / 5) in change (a / 5) with v end.

Lemma days_from_civil_step y m :
  1 <= m <= 12 ->
  days_from_civil (next_month y m).1 (next_month y m).2 1 = days_from_civil y m 1 + days_in_month y m.
Proof.
  intros Hm. rewrite !days_from_civil_march.
  assert (Hcase : m = 1 \/ m = 2 \/ m = 3 \/ m = 4 \/ m = 5 \/ m = 6 \/ m = 7 \/ m = 8 \/ m = 9
    \/ m = 10 \/ m = 11 \/ m = 12) by lia.
  destruct Hcase as [->|[->|[->|[->|[->|[->|[->|[->|[->|[->|[->| ->]]]]]]]]]]];
    unfold next_month, days_in_month; simpl; eval_quot; try lia.
  - pose proof (march_step (y - 1)) as Hs. rewrite Z.sub_add in Hs. rewrite Hs. destruct (leap y); lia.
  - replace (y + 1 - 1) with y by lia. lia.
Qed.

(** [civil_from_days] finds a valid date, and the one [days_from_civil] takes back. *)
Lemma civil_from_days_spec z y m d :
  civil_from_days z = (y, m, d) -> valid_date y m d /\ days_from_civil y m d = z.
Proof.
  unfold civil_from_days. pose proof (floor_era (z + 719468) 146097 ltac:(lia)) as Hf.
  change (146097 - 1) with 146096 in Hf. rewrite Hf. clear Hf.
  set (era := (z + 719468) / 146097). set (doe := z + 719468 - era * 146097).
  assert (Hd : 0 <= doe < 146097).
  { unfold doe, era. pose proof (Z.div_mod (z + 719468) 146097 ltac:(lia)).
    pose proof (Z.mod_pos_bound (z + 719468) 146097 ltac:(lia)). lia. }
  destruct (split_era doe Hd) as (c & k & j & t & Hdoe & Hc & Hk & Hj & Ht).
  pose proof (leap_split era c k j Hc Hk Hj) as Hleap.
  pose proof (march_split era c k j Hc Hk Hj) as Hmarch.
  pose proof (year_of_era c k j t Hc Hk Hj Ht) as Hyoe. cbv zeta in Hyoe. rewrite <- Hdoe in Hyoe.
  assert (Ht' : 0 <= t <= 365) by (unfold year_length in Ht; destruct (_ && _); lia).
  rewrite !(Z.quot_div_nonneg doe) by lia.
  rewrite (Z.quot_div_nonneg (doe - _ + _ - _) 365).
  2: { assert (doe / 1460 <= doe) by (apply Z.div_le_upper_bound; lia).
       assert (doe / 146096 <= doe / 36524) by (apply Z.div_le_compat_l; lia). lia. }
  2: lia.
  rewrite Hyoe. set (yoe := 100 * c + 4 * k + j) in *.
  rewrite (Z.quot_div_nonneg yoe 4), (Z.quot_div_nonneg yoe 100) by (unfold yoe; lia).
  rewrite <- (Z.div_unique_pos yoe 4 (25 * c + k) j), <- (Z.div_unique_pos yoe 100 c (4 * k + j))
    by (unfold yoe; lia).
  replace (doe - (365 * yoe + (25 * c + k) - c)) with t by (unfold yoe; lia).
  rewrite (Z.quot_div_nonneg (5 * t + 2) 153) by lia. set (mp := (5 * t + 2) / 153).
  assert (Hmp : 153 * mp <= 5 * t + 2 < 153 * mp + 153).
  { unfold mp. pose proof (Z.div_mod (5 * t + 2) 153 ltac:(lia)).
    pose proof (Z.mod_pos_bound (5 * t + 2) 153 ltac:(lia)). lia. }
  rewrite (Z.quot_div_nonneg (153 * mp + 2) 5) by lia.
  intros Heq. injection Heq as <- <- <-.
  rewrite days_from_civil_march. unfold valid_date, days_in_month.
  assert (Hcase : mp = 0 \/ mp = 1 \/ mp = 2 \/ mp = 3 \/ mp = 4 \/ mp = 5 \/ mp = 6 \/ mp = 7 \/ mp = 8
    \/ mp = 9 \/ mp = 10 \/ mp = 11) by lia.
  replace (yoe + era * 400) with (400 * era + yoe) by lia.
  clearbody mp. rewrite Hleap in Ht. unfold doe in Hdoe. clear Hyoe Hleap Hd.
  destruct Hcase as [->|[->|[->|[->|[->|[->|[->|[->|[->|[->|[->| ->]]]]]]]]]]]; simpl in *;
    eval_quot; rewrite ?Z.add_simpl_r, Hmarch; destruct (leap _); lia.
Qed.

(** ** Months since the epoch *)

(** The epoch day the [n]th month after January 1970 starts, by the Gregorian rule alone. *)
Fixpoint month_day (n : nat) : Z :=
  match n with
  | O => 0
  | S n => month_day n + days_in_month (1970 + Z.of_nat n / 12) (Z.of_nat n mod 12 + 1)
  end.

Definition month_epoch (n : nat) : Z := month_day n * SECS_PER_DAY.

(** Months numbered from year 0, any sign. *)
Definition month_start (L : Z) : Z := days_from_civil (L / 12) (L mod 12 + 1) 1.

Lemma month_index y m : 1 <= m <= 12 -> (12 * y + (m - 1)) / 12 = y /\ (12 * y + (m - 1)) mod 12 + 1 = m.
Proof.
  intros Hm. rewrite <- (Z.div_unique_pos (12 * y + (m - 1)) 12 y (m - 1)) by lia.
  rewrite <- (Z.mod_unique_pos (12 * y + (m - 1)) 12 y (m - 1)) by lia. lia.
Qed.

Lemma month_start_step L :
  month_start (L + 1) = month_start L + days_in_month (L / 12) (L mod 12 + 1).
Proof.
  pose proof (Z.div_mod L 12 ltac:(lia)) as Hd. pose proof (Z.mod_pos_bound L 12 ltac:(lia)) as Hm.
  unfold month_start at 2. rewrite <- days_from_civil_step by lia.
  unfold month_start, next_month. destruct (L mod 12 + 1 =? 12) eqn:E; zbool; simpl.
  - destruct (month_index (L / 12 + 1) 1 ltac:(lia)) as [H1 H2].
    replace (L + 1) with (12 * (L / 12 + 1) + (1 - 1)) by lia. by rewrite H1, H2.
  - destruct (month_index (L / 12) (L mod 12 + 1 + 1) ltac:(lia)) as [H1 H2].
    replace (L + 1) with (12 * (L / 12) + (L mod 12 + 1 + 1 - 1)) at 1 2 by lia. by rewrite H1, H2.
Qed.

Lemma days_in_month_range y m : 28 <= days_in_month y m <= 31.
Proof. unfold days_in_month. repeat case_match; lia. Qed.

Lemma month_start_mono L k : month_start L + 28 * Z.of_nat k <= month_start (L + Z.of_nat k).
Proof.
  induction k as [|k IH]; [change (Z.of_nat 0) with 0; rewrite !Z.add_0_r; lia|].
  replace (L + Z.of_nat (S k)) with (L + Z.of_nat k + 1) by lia. rewrite month_start_step.
  pose proof (days_in_month_range ((L + Z.of_nat k) / 12) ((L + Z.of_nat k) mod 12 + 1)). lia.
Qed.

Lemma month_start_lt L L' : L < L' -> month_start (L + 1) <= month_start L'.
Proof.
  intros Hlt. pose proof (month_start_mono (L + 1) (Z.to_nat (L' - (L + 1)))) as H.
  rewrite Z2Nat.id in H by lia. replace (L + 1 + (L' - (L + 1))) with L' in H by lia. lia.
Qed.

Lemma month_day_start n : month_day n = month_start (12 * 1970 + Z.of_nat n).
Proof.
  induction n as [|n IH]; [by vm_compute|]. simpl month_day. rewrite IH.
  replace (12 * 1970 + Z.of_nat (S n)) with (12 * 1970 + Z.of_nat n + 1) by lia.
  rewrite month_start_step. do 2 f_equal.
  - by rewrite <- (Z.div_add_l 1970 12 (Z.of_nat n)) by lia.
  - f_equal. replace (12 * 1970 + Z.of_nat n) with (Z.of_nat n + 1970 * 12) by lia. by rewrite Z.mod_add.
Qed.

(** The date of a day is in the month whose days it is among. *)
Lemma civil_from_days_month z L :
  month_start L <= z < month_start (L + 1) ->
  exists d, civil_from_days z = (L / 12, L mod 12 + 1, d).
Proof.
  intros Hz. destruct (civil_from_days z) as [[y m] d] eqn:E.
  apply civil_from_days_spec in E as [[Hm Hd] Hs]. rewrite days_from_civil_day in Hs.
  set (L' := 12 * y + (m - 1)). destruct (month_index y m Hm) as [Hy Hm'].
  assert (Hz' : month_start L' <= z < month_start (L' + 1)).
  { rewrite month_start_step. unfold month_start, L'. rewrite Hy, Hm'. lia. }
  assert (L' = L) as <-.
  { destruct (Z.lt_total L L') as [Hlt|[->|Hlt]]; [|done|];
      apply month_start_lt in Hlt; lia. }
  exists d. unfold L'. by rewrite Hy, Hm'.
Qed.

(** Every day since the epoch is in one of the months. *)
Lemma month_of_day z : 0 <= z -> exists n, month_day n <= z < month_day (S n).
Proof.
  intros Hz. destruct (civil_from_days z) as [[y m] d] eqn:E.
  apply civil_from_days_spec in E as [[Hm Hd] Hs]. rewrite days_from_civil_day in Hs.
  set (L := 12 * y + (m - 1)). destruct (month_index y m Hm) as [Hy Hm'].
  assert (Hz' : month_start L <= z < month_start (L + 1)).
  { rewrite month_start_step. unfold month_start, L. rewrite Hy, Hm'. lia. }
  assert (HL : 12 * 1970 <= L).
  { destruct (Z_lt_le_dec L (12 * 1970)) as [Hlt|]; [|done]. apply month_start_lt in Hlt.
    assert (month_start (12 * 1970) = 0) by by vm_compute. lia. }
  exists (Z.to_nat (L - 12 * 1970)). rewrite !month_day_start, Nat2Z.inj_succ, Z2Nat.id by lia.
  replace (12 * 1970 + (L - 12 * 1970)) with L by lia.
  by replace (12 * 1970 + Z.succ (L - 12 * 1970)) with (L + 1) by lia.
Qed.

Lemma month_epoch_window n now :
  0 <= now <= 2 ^ 63 -> month_epoch n <= now < month_epoch (S n) ->
  budget_window WINDOW_MONTH now = month_epoch n /\ window_end WINDOW_MONTH now = Some (month_epoch (S n)).
Proof.
  intros Hnow Hn. unfold month_epoch, SECS_PER_DAY in *.
  assert (Hz : month_start (12 * 1970 + Z.of_nat n) <= now / 86400 < month_start (12 * 1970 + Z.of_nat n + 1)).
  { pose proof (month_day_start (S n)) as Hs. rewrite Nat2Z.inj_succ in Hs.
    replace (12 * 1970 + Z.succ (Z.of_nat n)) with (12 * 1970 + Z.of_nat n + 1) in Hs by lia.
    rewrite <- Hs, <- month_day_start. split; [apply Z.div_le_lower_bound; lia|apply Z.div_lt_upper_bound; lia]. }
  set (L := 12 * 1970 + Z.of_nat n) in *. destruct (civil_from_days_month _ _ Hz) as [d Hc].
  assert (Hday : 0 <= month_day n /\ month_day (S n) <= 2 ^ 63 / 86400 + 32).
  { pose proof (month_start_mono (12 * 1970) n) as Hm. rewrite <- month_day_start in Hm.
    assert (month_start (12 * 1970) = 0) by by vm_compute.
    pose proof (days_in_month_range (1970 + Z.of_nat n / 12) (Z.of_nat n mod 12 + 1)).
    assert (now / 86400 <= 2 ^ 63 / 86400) by (apply Z.div_le_mono; lia).
    split; [lia|]. simpl month_day. assert (month_day n <= now / 86400) by (apply Z.div_le_lower_bound; lia). lia. }
  change (2 ^ 63 / 86400) with 106751991167300 in Hday.
  assert (Hmd : forall k, 0 <= month_day k <= 106751991167332 -> day_epoch (month_day k) = month_day k * 86400).
  { intros k Hk. unfold day_epoch, SECS_PER_DAY. rewrite (wrap_small 64 (month_day k)) by lia. rewrite wrap_small; lia. }
  unfold budget_window, window_end.
  change (String.eqb WINDOW_MONTH WINDOW_MINUTE) with false. change (String.eqb WINDOW_MONTH WINDOW_HOUR) with false.
  change (String.eqb WINDOW_MONTH WINDOW_DAY) with false. change (String.eqb WINDOW_MONTH WINDOW_MONTH) with true.
  cbv beta iota. unfold SECS_PER_DAY. rewrite Hc. cbv beta iota.
  assert (month_day n <= month_day (S n)).
  { simpl. pose proof (days_in_month_range (1970 + Z.of_nat n / 12) (Z.of_nat n mod 12 + 1)). lia. }
  split.
  - fold (month_start L). unfold L. rewrite <- month_day_start. apply Hmd. lia.
  - pose proof (Z.mod_pos_bound L 12 ltac:(lia)).
    pose proof (days_from_civil_step (L / 12) (L mod 12 + 1) ltac:(lia)) as Hstep.
    unfold next_month in Hstep. fold (month_start L) in Hstep. rewrite <- month_start_step in Hstep.
    assert (HS : month_start (L + 1) = month_day (S n)).
    { rewrite month_day_start. unfold L. f_equal. lia. }
    destruct (L mod 12 + 1 =? 12); simpl in Hstep; rewrite Hstep, HS, Hmd by lia; done.
Qed.

Lemma fixed_window k now :
  0 < k -> 0 <= now ->
  let s := now / k * k in
  s <= now < s + k /\ (s + k) / k * k = s + k /\ forall t, s <= t < s + k -> t / k * k = s.
Proof.
  intros Hk Hn s. unfold s. pose proof (Z.div_mod now k ltac:(lia)).
  pose proof (Z.mod_pos_bound now k ltac:(lia)). split; [lia|]. split.
  - rewrite Z.div_add_l, Z.div_same by lia. lia.
  - intros t Ht. f_equal. symmetry. apply (Z.div_unique_pos _ _ _ (t - now / k * k)); lia.
Qed.

(** A window word whose window rolls. *)
Definition rolls (p : string) : bool := bool_decide (p ∈ [WINDOW_MINUTE; WINDOW_HOUR; WINDOW_DAY; WINDOW_MONTH]).

(** The window of an instant contains it, is shared by its instants, and the next one starts at its end. *)
Definition tiles (p : string) (now : Z) : Prop :=
  let s := budget_window p now in
  exists e, window_end p now = Some e /\ 0 <= s <= now /\ now < e
    /\ budget_window p e = e
    /\ forall t, 0 <= t <= 2 ^ 62 -> s <= t < e -> budget_window p t = s /\ window_end p t = Some e.

Lemma fixed_tiles p k :
  0 < k <= 2 ^ 62 -> (forall t, budget_window p t = t / k * k) ->
  (forall t, window_end p t = Some (wrap 64 (t / k * k + k))) ->
  forall now, 0 <= now <= 2 ^ 62 -> tiles p now.
Proof.
  intros Hk Hw He now Hnow. unfold tiles. rewrite Hw, He.
  destruct (fixed_window k now ltac:(lia) ltac:(lia)) as (Hin & Hend & Hall).
  assert (Hp : 0 <= now / k * k) by (apply Z.mul_nonneg_nonneg; [apply Z.div_pos|]; lia).
  exists (now / k * k + k). rewrite wrap_small by lia. split_and!; try lia; try done.
  - by rewrite Hw.
  - intros t Ht Hin'. rewrite Hw, He. rewrite (Hall t Hin'). by rewrite wrap_small by lia.
Qed.

Lemma month_tiles now : 0 <= now <= 2 ^ 62 -> tiles WINDOW_MONTH now
  /\ exists n, budget_window WINDOW_MONTH now = month_epoch n
       /\ window_end WINDOW_MONTH now = Some (month_epoch (S n)).
Proof.
  intros Hnow. destruct (month_of_day (now / SECS_PER_DAY)) as [n Hn]; [by apply Z.div_pos; unfold SECS_PER_DAY; lia|].
  assert (Hin : month_epoch n <= now < month_epoch (S n)).
  { unfold month_epoch, SECS_PER_DAY in *. pose proof (Z.div_mod now 86400 ltac:(lia)).
    pose proof (Z.mod_pos_bound now 86400 ltac:(lia)). lia. }
  destruct (month_epoch_window n now ltac:(lia) Hin) as [Hs He].
  assert (Hpos : 0 <= month_epoch n).
  { pose proof (month_start_mono (12 * 1970) n) as Hm. rewrite <- month_day_start in Hm.
    assert (month_start (12 * 1970) = 0) by by vm_compute. unfold month_epoch, SECS_PER_DAY. lia. }
  split; [|by exists n]. unfold tiles. rewrite Hs. exists (month_epoch (S n)). split_and!; try lia; try done.
  - pose proof (days_in_month_range (1970 + Z.of_nat n / 12) (Z.of_nat n mod 12 + 1)).
    pose proof (days_in_month_range (1970 + Z.of_nat (S n) / 12) (Z.of_nat (S n) mod 12 + 1)).
    apply (month_epoch_window (S n)); unfold month_epoch, SECS_PER_DAY in *; simpl month_day in *; lia.
  - intros t Ht Ht'. apply month_epoch_window; lia.
Qed.

Lemma rolling_tiles p now : 0 <= now <= 2 ^ 62 -> rolls p = true -> tiles p now.
Proof.
  intros Hnow Hp. apply bool_decide_eq_true in Hp.
  apply elem_of_cons in Hp as [->|Hp]; [|apply elem_of_cons in Hp as [->|Hp];
    [|apply elem_of_cons in Hp as [->|Hp%list_elem_of_singleton]]].
  - by apply (fixed_tiles _ 60).
  - by apply (fixed_tiles _ 3600).
  - by apply (fixed_tiles _ 86400).
  - subst p. by apply month_tiles.
Qed.

Lemma all_time_window p now : rolls p = false -> budget_window p now = 0 /\ window_end p now = None.
Proof.
  intros Hp. apply bool_decide_eq_false in Hp. unfold budget_window, window_end.
  destruct (String.eqb_spec p WINDOW_MINUTE) as [->|]; [set_solver|].
  destruct (String.eqb_spec p WINDOW_HOUR) as [->|]; [set_solver|].
  destruct (String.eqb_spec p WINDOW_DAY) as [->|]; [set_solver|].
  destruct (String.eqb_spec p WINDOW_MONTH) as [->|]; [set_solver|].
  by destruct (String.eqb p WINDOW_TOTAL).
Qed.

(** A window starts at or before its instants. *)
Lemma windows_lower p now : 0 <= now <= 2 ^ 62 -> 0 <= budget_window p now <= now.
Proof.
  intros Hnow. destruct (rolls p) eqn:Hp.
  - destruct (rolling_tiles p now Hnow Hp) as (e & _ & Hin & _). done.
  - destruct (all_time_window p now Hp) as [-> _]. lia.
Qed.

(** ** Property *)

(** Budget windows follow the UTC clock and the Gregorian calendar: for every rolling window word,
    the window of an instant contains it, is the same for all its instants, and ends exactly where
    the next one starts; a month window is a calendar month - the [n]th after January 1970 by the
    leap-year rule, the first of the month to the next; [total] and any unknown word are the one
    window from 0 that never rolls. *)
Theorem windows_follow_the_calendar p now :
  0 <= now <= 2 ^ 62 ->
  if rolls p then
    tiles p now
    /\ (p = WINDOW_MONTH -> exists n, budget_window p now = month_epoch n
          /\ window_end p now = Some (month_epoch (S n)))
  else budget_window p now = 0 /\ window_end p now = None.
Proof.
  intros Hnow. destruct (rolls p) eqn:Hp; [|by apply all_time_window].
  split; [by apply rolling_tiles|]. intros ->. by destruct (month_tiles now Hnow).
Qed.

(** 2024-02-29 12:00 UTC is in the window 2024-02-01 .. 2024-03-01. *)
Lemma windows_follow_the_calendar_witness :
  tiles WINDOW_MONTH 1709208000
  /\ (budget_window WINDOW_MONTH 1709208000, window_end WINDOW_MONTH 1709208000)
     = (1706745600, Some 1709251200).
Proof.
  split; [|by vm_compute]. apply (windows_follow_the_calendar WINDOW_MONTH 1709208000). lia.
Defined.
