(* ===== verification/Ledger.v ===== *)
(** * Ledger: the token ledger of the durable store (api/store.rs)

    Raw token counts by model and pricing tier, the signed deltas a write-behind flush adds, the
    metering records, and the usage half of the [Store] contract as an interface. *)

From S2P Require Import Prelude Breaker.

(** Token counts by tier. *)
Record TierTokens := mkTokens { t_input : Z; t_output : Z; t_cache_read : Z; t_cache_write : Z }.

Definition is_zero (t : TierTokens) : bool :=
  (t_input t =? 0) && (t_output t =? 0) && (t_cache_read t =? 0) && (t_cache_write t =? 0).

Definition total (t : TierTokens) : Z :=
  t_input t +sat t_output t +sat t_cache_read t +sat t_cache_write t.

(** ** The ledger *)

Record ModelTokens := mkModelTokens { mt_model : string; mt_tokens : TierTokens }.

(** The ledger of one (bucket, window). *)
Record UsageLedger := mkLedger {
  ul_requests : Z;
  ul_billable_requests : Z;
  ul_models : list ModelTokens
}.

Definition TierTokens_default : TierTokens := mkTokens 0 0 0 0.
Definition UsageLedger_default : UsageLedger := mkLedger 0 0 [].

Definition tokens_for (u : UsageLedger) (model : string) : option TierTokens :=
  mt_tokens <$> List.find (fun m => String.eqb (mt_model m) model) (ul_models u).

Definition ledger_total_tokens (u : UsageLedger) : Z :=
  foldl (fun acc m => acc +sat total (mt_tokens m)) 0 (ul_models u).

Record TierTokensDelta := mkTierDelta { td_input : Z; td_output : Z; td_cache_read : Z; td_cache_write : Z }.

Definition tier_delta_is_zero (d : TierTokensDelta) : bool :=
  (td_input d =? 0) && (td_output d =? 0) && (td_cache_read d =? 0) && (td_cache_write d =? 0).

Record ModelTokensDelta := mkModelDelta { md_model : string; md_tokens : TierTokensDelta }.

Record UsageDelta := mkUsageDelta {
  ud_requests : Z;
  ud_billable_requests : Z;
  ud_models : list ModelTokensDelta
}.

Definition usage_delta_is_zero (d : UsageDelta) : bool :=
  (ud_requests d =? 0) && (ud_billable_requests d =? 0)
  && forallb (fun m => tier_delta_is_zero (md_tokens m)) (ud_models d).

(** [u64::saturating_add_signed] *)
Definition saturating_add_signed (a d : Z) : Z := Z.max 0 (Z.min (a + d) U64_MAX).

(** The four tier updates on one entry. *)
Definition add_tier_delta (t : TierTokens) (d : TierTokensDelta) : TierTokens :=
  mkTokens (saturating_add_signed (t_input t) (td_input d))
    (saturating_add_signed (t_output t) (td_output d))
    (saturating_add_signed (t_cache_read t) (td_cache_read d))
    (saturating_add_signed (t_cache_write t) (td_cache_write d)).

(** The first entry of that model is updated; a new one is pushed at the end. *)
Fixpoint upsert_model (model : string) (f : TierTokens -> TierTokens) (ms : list ModelTokens)
    : list ModelTokens :=
  match ms with
  | [] => [mkModelTokens model (f TierTokens_default)]
  | m :: ms =>
      if String.eqb (mt_model m) model then mkModelTokens (mt_model m) (f (mt_tokens m)) :: ms
      else m :: upsert_model model f ms
  end.

Definition apply_model_delta (u : UsageLedger) (delta : ModelTokensDelta) : UsageLedger :=
  mkLedger (ul_requests u) (ul_billable_requests u)
    (upsert_model (md_model delta) (fun t => add_tier_delta t (md_tokens delta)) (ul_models u)).

Definition apply_delta (u : UsageLedger) (delta : UsageDelta) : UsageLedger :=
  let u := mkLedger (saturating_add_signed (ul_requests u) (ud_requests delta))
             (saturating_add_signed (ul_billable_requests u) (ud_billable_requests delta)) (ul_models u) in
  foldl apply_model_delta u (ud_models delta).

(** ** Metering *)

Record MeteringDelta := mkMeteringDelta {
  me_key_id : string;
  me_bucket : Z;
  me_model : string;
  me_provider : string;
  me_tokens_input : Z;
  me_tokens_output : Z;
  me_tokens_cache_read : Z;
  me_tokens_cache_write : Z;
  me_requests : Z;
  me_billable_requests : Z;
  me_key_group_at_use : string;
  me_pricing_version : string
}.

Record MeteringRow := mkMeteringRow {
  mr_key_id : string;
  mr_model : string;
  mr_provider : string;
  mr_tokens_input : Z;
  mr_tokens_output : Z;
  mr_tokens_cache_read : Z;
  mr_tokens_cache_write : Z;
  mr_requests : Z;
  mr_billable_requests : Z;
  mr_key_group_at_use : string;
  mr_pricing_version : string
}.
