(* ===== verification/Groups.v ===== *)
(** * Groups: the limit topology (config/groups.rs, cost.rs)

    The configured [groups:] tree projected into per-window enforcement buckets, the bucket ids of the
    ledger, and the chain of buckets a key's requests are checked and charged against. A [BTreeMap] is
    its association list in key order (so sorting its keys changes nothing); indexing a vector out of
    range is a panic, hence [None]. *)

From Stdlib Require Import Ascii.
From S2P Require Import Prelude Breaker Windows.

(** ** Configuration *)

Inductive LimitMetric := Requests | Tokens | Budget | Concurrent.

#[global] Instance LimitMetric_eq : EqDecision LimitMetric.
Proof. solve_decision. Defined.

Inductive LimitWindow := Minute | Hour | Day | Month | Total.

#[global] Instance LimitWindow_eq : EqDecision LimitWindow.
Proof. solve_decision. Defined.

Definition LimitWindow_ALL : list LimitWindow := [Minute; Hour; Day; Month; Total].

Definition window_str (w : LimitWindow) : string :=
  match w with
  | Minute => "minute"
  | Hour => "hour"
  | Day => "day"
  | Month => "month"
  | Total => "total"
  end.

Record ScopeRef := mkScope { kind : string; value : string }.

#[global] Instance ScopeRef_eq : EqDecision ScopeRef.
Proof. solve_decision. Defined.

Definition scope_pool (v : string) : ScopeRef := mkScope "pool" v.

Inductive OnExhaust := Block | Downgrade.

Record LimitCfg := mkLimit {
  metric : LimitMetric;
  amount : Z;
  per : option LimitWindow;
  l_scope : option ScopeRef;
  on_exhaust : option OnExhaust;
  l_downgrade_to : option ScopeRef
}.

Record ChildDefault := mkChildDefault { cd_limits : list LimitCfg }.

Record GroupCfg := mkGroupCfg {
  cfg_parent : option string;
  cfg_enabled : bool;
  limits : list LimitCfg;
  child_default : option ChildDefault
}.

(** ** Bucket ids *)

Definition GROUP_BUCKET_PREFIX : string := "group:".

Definition bucket_id_of (name w : string) (scope : option ScopeRef) : string :=
  match scope with
  | Some s => GROUP_BUCKET_PREFIX +:+ name +:+ "@" +:+ w +:+ "#" +:+ kind s +:+ ":" +:+ value s
  | None => GROUP_BUCKET_PREFIX +:+ name +:+ "@" +:+ w
  end.

(** [s.split(c).next()], which always exists. *)
Fixpoint split_first (c : Ascii.ascii) (s : string) : string :=
  match s with
  | EmptyString => EmptyString
  | String a s => if Ascii.eqb a c then EmptyString else String a (split_first c s)
  end.

Definition is_bucket_of_group (bucket_id group : string) : bool :=
  match (rest ← strip_prefix GROUP_BUCKET_PREFIX bucket_id;
         t ← strip_prefix group rest;
         strip_prefix "@" t) with
  | None => false
  | Some tail =>
      let window := split_first "#"%char tail in
      existsb (fun w => String.eqb (window_str w) window) LimitWindow_ALL
  end.

(** ** The runtime form *)

Record GroupBucket := mkBucket {
  bucket_id : string;
  window : string;
  requests_cap : option Z;
  tokens_cap : option Z;
  budget_cap : option Z;
  scope : option ScopeRef;
  downgrade_to : option ScopeRef
}.

Record GroupRuntime := mkGroup {
  name : string;
  enabled : bool;
  concurrent_cap : option Z;
  buckets : list GroupBucket;
  parent : option nat
}.

(** [cur.map_or(x, |c| c.min(x))] *)
Definition min_cap (cur : option Z) (x : Z) : option Z :=
  Some match cur with None => x | Some c => Z.min c x end.

(** The [match metric] on the bucket of the limit's window and scope. *)
Definition apply_limit (l : LimitCfg) (b : GroupBucket) : GroupBucket :=
  match metric l with
  | Requests => mkBucket (bucket_id b) (window b) (min_cap (requests_cap b) (amount l)) (tokens_cap b)
                  (budget_cap b) (scope b) (downgrade_to b)
  | Tokens => mkBucket (bucket_id b) (window b) (requests_cap b) (min_cap (tokens_cap b) (amount l))
                (budget_cap b) (scope b) (downgrade_to b)
  | Budget =>
      let amount := i64_or_max (amount l) in
      let governs := match budget_cap b with None => true | Some c => amount <? c end in
      mkBucket (bucket_id b) (window b) (requests_cap b) (tokens_cap b)
        (min_cap (budget_cap b) amount) (scope b)
        (if governs then l_downgrade_to l else downgrade_to b)
  | Concurrent => b
  end.

(** The first bucket of that window and scope is updated; a new one is pushed at the end. *)
Fixpoint upsert_bucket (group w : string) (l : LimitCfg) (bs : list GroupBucket) : list GroupBucket :=
  match bs with
  | [] => [apply_limit l (mkBucket (bucket_id_of group w (l_scope l)) w None None None (l_scope l) None)]
  | b :: bs =>
      if String.eqb (window b) w && bool_decide (scope b = l_scope l)
      then apply_limit l b :: bs
      else b :: upsert_bucket group w l bs
  end.

Definition project_limit (group : string) (st : list GroupBucket * option Z) (l : LimitCfg)
    : list GroupBucket * option Z :=
  let '(bs, conc) := st in
  match metric l, per l with
  | Concurrent, _ => (bs, min_cap conc (amount l))
  | _, Some w => (upsert_bucket group (window_str w) l bs, conc)
  | _, None => (bs, conc)
  end.

Definition project_limits (group : string) (ls : list LimitCfg) : list GroupBucket * option Z :=
  foldl (project_limit group) ([], None) ls.

Definition project_group (group_idx : gmap string nat) (nc : string * GroupCfg) : GroupRuntime :=
  let '(n, g) := nc in
  let '(bs, conc) := project_limits n (limits g) in
  mkGroup n (cfg_enabled g) conc bs (cfg_parent g ≫= fun p => group_idx !! p).

Definition index_names (names : list string) : gmap string nat :=
  list_to_map (imap (fun i n => (n, i)) names).

Definition project_groups (groups_cfg : list (string * GroupCfg))
    : list GroupRuntime * gmap string nat :=
  let group_idx := index_names groups_cfg.*1 in
  (project_group group_idx <$> groups_cfg, group_idx).

Definition bucket_capped (b : GroupBucket) : bool :=
  bool_decide (is_Some (requests_cap b)) || bool_decide (is_Some (tokens_cap b))
  || bool_decide (is_Some (budget_cap b)).

Definition capped_bucket_ids (groups : list GroupRuntime) : gset string :=
  list_to_set (bucket_id <$> filter (fun b => Is_true (bucket_capped b)) (groups ≫= buckets)).

(** ** The chain *)

(** A virtual key (api/store.rs). *)
Record VirtualKey := mkKey {
  key_id : string;
  generation_hash : string;
  key_name : string;
  allowed_scopes : option (list ScopeRef);
  key_enabled : bool;
  created_at : Z;
  key_group : option string;
  labels : list (string * string);
  expires_at : option Z;
  deleted_at : option Z;
  revision : Z
}.

Definition scope_allowed (key : VirtualKey) (k v : string) : bool :=
  match allowed_scopes key with
  | None => true
  | Some list => existsb (fun s => String.eqb (kind s) k && String.eqb (value s) v) list
  end.

Definition pool_allowed (key : VirtualKey) (pool : string) : bool := scope_allowed key "pool" pool.

Record ChainBucket := mkChainBucket {
  cb_id : string;
  cb_group : option string;
  cb_window : string;
  cb_requests_cap : option Z;
  cb_tokens_cap : option Z;
  cb_budget_cap : option Z;
  cb_scope : option ScopeRef;
  cb_downgrade_to : option ScopeRef
}.

Definition applies_to_pool (b : ChainBucket) (pool : string) : bool :=
  match cb_scope b with
  | None => true
  | Some s => String.eqb (kind s) "pool" && String.eqb (value s) pool
  end.

Record Chain := mkChain { chain_buckets : list ChainBucket; chain_groups : list nat }.

Definition chain_bucket (g : GroupRuntime) (b : GroupBucket) : ChainBucket :=
  mkChainBucket (bucket_id b) (Some (name g)) (window b) (requests_cap b) (tokens_cap b)
    (budget_cap b) (scope b) (downgrade_to b).

Definition key_bucket (key : VirtualKey) : ChainBucket :=
  mkChainBucket (key_id key) None WINDOW_TOTAL None None None None None.

(** The [while let] walk up the parents. *)
Fixpoint walk_chain (fuel : nat) (groups : list GroupRuntime) (next : option nat)
    (bs : list ChainBucket) (walked : list nat) : option Chain :=
  match fuel, next with
  | _, None => Some (mkChain bs walked)
  | O, Some _ => None
  | S fuel, Some i =>
      if (length groups <=? length walked)%nat then Some (mkChain bs walked) else
      g ← groups !! i;
      walk_chain fuel groups (parent g) (bs ++ (chain_bucket g <$> buckets g)) (walked ++ [i])
  end.

(** No walk takes more steps than there are groups, plus the one that ends it. *)
Definition chain_of (groups : list GroupRuntime) (group_idx : gmap string nat) (key : VirtualKey)
    : option (Result Chain string) :=
  let start := match key_group key with
               | None => Ok None
               | Some n => match group_idx !! n with Some i => Ok (Some i) | None => Err n end
               end in
  match start with
  | Err missing => Some (Err missing)
  | Ok next =>
      chain ← walk_chain (S (length groups)) groups next [key_bucket key] [];
      Some (Ok chain)
  end.
