(* ===== verification/MemoryStore.v ===== *)
(** * MemoryStore: the in-memory durable store (store-memory/src/lib.rs, api/store.rs)

    Keys with permanent tombstones, row-looked-up credentials in slots, token ledgers and metering
    rows with their amortised retention sweeps. A [HashMap] is a finite map, so the order of its
    values is unspecified; every operation holds the guards of the maps it uses to its end and is one
    function of the store. The clock is an input. *)

From stdpp Require Import sorting pretty.
From S2P Require Import Prelude Breaker Ledger Groups.

Definition MAX_RETENTION_SECS : Z := 31 * 86400.
Definition SWEEP_INTERVAL : Z := 256.

Definition key_live (k : VirtualKey) : bool := bool_decide (deleted_at k = None).

Inductive SecretForm := SF_None | SF_Recoverable | SF_Digest.

Record CredentialMeta := mkMeta {
  cm_id : string;
  cm_key_id : string;
  cm_kind : string;
  cm_slot : Z;
  cm_public_id : string;
  cm_secret_form : SecretForm;
  cm_created_at : Z;
  cm_updated_at : Z;
  cm_expires_at : option Z;
  cm_revoked_at : option Z;
  cm_revoke_reason : option string;
  cm_revision : Z
}.

Definition cred_live (c : CredentialMeta) (now : Z) : bool :=
  bool_decide (cm_revoked_at c = None)
  && match cm_expires_at c with None => true | Some exp => now <? exp end.

Record CredentialSecret := mkSecret { cs_meta : CredentialMeta; cs_secret : string }.

Definition plaintext (c : CredentialSecret) : option string := strip_prefix "v1:plain:" (cs_secret c).

Abbreviation MeterKey := (string * Z * string * string)%type.

Record MemoryStore := mkStore {
  keys : gmap string VirtualKey;
  creds : gmap string CredentialSecret;
  usage : gmap (string * Z) UsageLedger;
  metering : gmap MeterKey MeteringRow;
  denylist : gset string;
  usage_sweep_ticker : Z;
  metering_sweep_ticker : Z;
  keys_sweep_ticker : Z;
  creds_sweep_ticker : Z;
  revision_counter : Z
}.

Definition MemoryStore_new : MemoryStore := mkStore ∅ ∅ ∅ ∅ ∅ 0 0 0 0 0.

Definition set_keys v s := mkStore v (creds s) (usage s) (metering s) (denylist s) (usage_sweep_ticker s)
  (metering_sweep_ticker s) (keys_sweep_ticker s) (creds_sweep_ticker s) (revision_counter s).
Definition set_creds v s := mkStore (keys s) v (usage s) (metering s) (denylist s) (usage_sweep_ticker s)
  (metering_sweep_ticker s) (keys_sweep_ticker s) (creds_sweep_ticker s) (revision_counter s).
Definition set_usage v s := mkStore (keys s) (creds s) v (metering s) (denylist s) (usage_sweep_ticker s)
  (metering_sweep_ticker s) (keys_sweep_ticker s) (creds_sweep_ticker s) (revision_counter s).
Definition set_metering v s := mkStore (keys s) (creds s) (usage s) v (denylist s) (usage_sweep_ticker s)
  (metering_sweep_ticker s) (keys_sweep_ticker s) (creds_sweep_ticker s) (revision_counter s).
Definition set_denylist v s := mkStore (keys s) (creds s) (usage s) (metering s) v (usage_sweep_ticker s)
  (metering_sweep_ticker s) (keys_sweep_ticker s) (creds_sweep_ticker s) (revision_counter s).
Definition set_usage_ticker v s := mkStore (keys s) (creds s) (usage s) (metering s) (denylist s) v
  (metering_sweep_ticker s) (keys_sweep_ticker s) (creds_sweep_ticker s) (revision_counter s).
Definition set_metering_ticker v s := mkStore (keys s) (creds s) (usage s) (metering s) (denylist s)
  (usage_sweep_ticker s) v (keys_sweep_ticker s) (creds_sweep_ticker s) (revision_counter s).
Definition set_keys_ticker v s := mkStore (keys s) (creds s) (usage s) (metering s) (denylist s)
  (usage_sweep_ticker s) (metering_sweep_ticker s) v (creds_sweep_ticker s) (revision_counter s).
Definition set_creds_ticker v s := mkStore (keys s) (creds s) (usage s) (metering s) (denylist s)
  (usage_sweep_ticker s) (metering_sweep_ticker s) (keys_sweep_ticker s) v (revision_counter s).
Definition set_revision_counter v s := mkStore (keys s) (creds s) (usage s) (metering s) (denylist s)
  (usage_sweep_ticker s) (metering_sweep_ticker s) (keys_sweep_ticker s) (creds_sweep_ticker s) v.

Definition key_with_revision (r : Z) (k : VirtualKey) : VirtualKey :=
  mkKey (key_id k) (generation_hash k) (key_name k) (allowed_scopes k) (key_enabled k) (created_at k)
    (key_group k) (labels k) (expires_at k) (deleted_at k) r.

Definition cred_with_revision (r : Z) (c : CredentialSecret) : CredentialSecret :=
  let m := cs_meta c in
  mkSecret (mkMeta (cm_id m) (cm_key_id m) (cm_kind m) (cm_slot m) (cm_public_id m) (cm_secret_form m)
    (cm_created_at m) (cm_updated_at m) (cm_expires_at m) (cm_revoked_at m) (cm_revoke_reason m) r)
    (cs_secret c).

(** [fetch_add(1) + 1]; the sum is plain, and like the counter's it wraps. *)
Definition next_revision (s : MemoryStore) : Z * MemoryStore :=
  let r := wrap 64 (revision_counter s + 1) in (r, set_revision_counter r s).

(** [fetch_add(1).wrapping_add(1).is_multiple_of(SWEEP_INTERVAL)], and the new ticker. *)
Definition tick (ticker : Z) : Z * bool :=
  let t := wrap 64 (ticker + 1) in (t, t mod SWEEP_INTERVAL =? 0).

(** A row stamped [at] is still within the retention ceiling. *)
Definition retained (at_ now : Z) : bool := now <? at_ +sat MAX_RETENTION_SECS.

(** ** Keys *)

Definition key_kept (now : Z) (k : VirtualKey) : bool :=
  match deleted_at k with None => true | Some d => retained d now end.

(** A live-shaped write over a tombstoned row. *)
Definition clears_tombstone (key : VirtualKey) (s : MemoryStore) : bool :=
  match deleted_at key with
  | None => match keys s !! key_id key with
            | Some existing => bool_decide (is_Some (deleted_at existing))
            | None => false
            end
  | Some _ => false
  end.

Definition put_key (now : Z) (key : VirtualKey) (s : MemoryStore) : Result unit string * MemoryStore :=
  if clears_tombstone key s
  then (Err ("put_key: '" +:+ key_id key
             +:+ "' is tombstoned and its id is never reissued; refusing to clear the tombstone"), s)
  else
    let (r, s) := next_revision s in
    let s := set_keys (<[key_id key := key_with_revision r key]> (keys s)) s in
    let (t, sweep_needed) := tick (keys_sweep_ticker s) in
    let s := set_keys_ticker t s in
    (Ok tt, if sweep_needed then set_keys (filter (fun kv => Is_true (key_kept now kv.2)) (keys s)) s else s).

Definition get_key (id : string) (s : MemoryStore) : option VirtualKey := keys s !! id.

Definition created_before (a b : VirtualKey) : Prop := created_at a <= created_at b.

#[export] Instance created_before_dec a b : Decision (created_before a b).
Proof. unfold created_before. apply _. Defined.

(** Sorted by [created_at]; equals in any order. *)
Definition list_keys (s : MemoryStore) : list VirtualKey :=
  merge_sort created_before (map_to_list (keys s)).*2.

(** The row a deletion leaves: disabled, stamped, every other field kept. *)
Definition tombstone (now r : Z) (k : VirtualKey) : VirtualKey :=
  mkKey (key_id k) (generation_hash k) (key_name k) (allowed_scopes k) false (created_at k)
    (key_group k) (labels k) (expires_at k) (Some now) r.

Definition delete_key (now : Z) (id : string) (s : MemoryStore) : Result unit string * MemoryStore :=
  match keys s !! id with
  | None => (Err ("delete_key: unknown id '" +:+ id +:+ "'"), s)
  | Some key =>
      if bool_decide (is_Some (deleted_at key)) then (Ok tt, s)
      else
        let (rev, s) := next_revision s in
        let s := set_keys (<[id := tombstone now rev key]> (keys s)) s in
        let s := set_usage (filter (fun ul => ul.1.1 <> id) (usage s)) s in
        let s := set_creds (filter (fun ic => cm_key_id (cs_meta ic.2) <> id) (creds s)) s in
        (Ok tt, s)
  end.

Definition scrub_key (id : string) (s : MemoryStore) : Result unit string * MemoryStore :=
  match keys s !! id with
  | None => (Err ("scrub_key: unknown key '" +:+ id +:+ "'"), s)
  | Some key =>
      if bool_decide (deleted_at key = None)
      then (Err ("scrub_key: '" +:+ id +:+ "' is not tombstoned — delete it first"), s)
      else
        let (r, s) := next_revision s in
        let key := mkKey (key_id key) (generation_hash key) "" (allowed_scopes key) (key_enabled key)
                     (created_at key) (key_group key) [] (expires_at key) (deleted_at key) r in
        (Ok tt, set_keys (<[id := key]> (keys s)) s)
  end.

Definition list_keys_since (since : Z) (s : MemoryStore) : list VirtualKey :=
  filter (fun k => since < revision k) (map_to_list (keys s)).*2.

(** ** Usage and metering *)

Definition get_usage (bucket_id : string) (window_start : Z) (s : MemoryStore) : UsageLedger :=
  default UsageLedger_default (usage s !! (bucket_id, window_start)).

Definition put_usage (bucket_id : string) (window_start : Z) (ledger : UsageLedger) (s : MemoryStore)
    : MemoryStore :=
  set_usage (<[(bucket_id, window_start) := ledger]> (usage s)) s.

Definition add_usage (now : Z) (bucket_id : string) (window_start : Z) (delta : UsageDelta)
    (s : MemoryStore) : MemoryStore :=
  let u := default UsageLedger_default (usage s !! (bucket_id, window_start)) in
  let s := set_usage (<[(bucket_id, window_start) := apply_delta u delta]> (usage s)) s in
  let (t, sweep_needed) := tick (usage_sweep_ticker s) in
  let s := set_usage_ticker t s in
  if sweep_needed then set_usage (filter (fun ul => Is_true (retained ul.1.2 now)) (usage s)) s else s.

Definition new_row (d : MeteringDelta) : MeteringRow :=
  mkMeteringRow (me_key_id d) (me_model d) (me_provider d) 0 0 0 0 0 0
    (me_key_group_at_use d) (me_pricing_version d).

Definition add_row (d : MeteringDelta) (e : MeteringRow) : MeteringRow :=
  mkMeteringRow (mr_key_id e) (mr_model e) (mr_provider e)
    (mr_tokens_input e +sat me_tokens_input d) (mr_tokens_output e +sat me_tokens_output d)
    (mr_tokens_cache_read e +sat me_tokens_cache_read d) (mr_tokens_cache_write e +sat me_tokens_cache_write d)
    (mr_requests e +sat me_requests d) (mr_billable_requests e +sat me_billable_requests d)
    (mr_key_group_at_use e) (mr_pricing_version e).

Definition meter_key (d : MeteringDelta) : MeterKey := (me_key_id d, me_bucket d, me_model d, me_provider d).

Definition add_metering (now : Z) (d : MeteringDelta) (s : MemoryStore) : MemoryStore :=
  let e := default (new_row d) (metering s !! meter_key d) in
  let s := set_metering (<[meter_key d := add_row d e]> (metering s)) s in
  let (t, sweep_needed) := tick (metering_sweep_ticker s) in
  let s := set_metering_ticker t s in
  if sweep_needed
  then set_metering (filter (fun kr => Is_true (retained kr.1.1.1.2 now)) (metering s)) s else s.

Definition list_metering (bucket : Z) (s : MemoryStore) : list MeteringRow :=
  (filter (fun kr : MeterKey * MeteringRow => kr.1.1.1.2 = bucket) (map_to_list (metering s))).*2.

(** ** Credentials and the denylist *)

(** Another row is live in the slot. *)
Definition occupies (m : CredentialMeta) (c : CredentialSecret) : bool :=
  negb (String.eqb (cm_id (cs_meta c)) (cm_id m)) && String.eqb (cm_key_id (cs_meta c)) (cm_key_id m)
  && String.eqb (cm_kind (cs_meta c)) (cm_kind m) && (cm_slot (cs_meta c) =? cm_slot m)
  && bool_decide (cm_revoked_at (cs_meta c) = None).

(** Another row has the public id. *)
Definition takes_public_id (m : CredentialMeta) (c : CredentialSecret) : bool :=
  negb (String.eqb (cm_id (cs_meta c)) (cm_id m)) && String.eqb (cm_kind (cs_meta c)) (cm_kind m)
  && String.eqb (cm_public_id (cs_meta c)) (cm_public_id m).

Definition cred_kept (now : Z) (c : CredentialSecret) : bool :=
  match cm_revoked_at (cs_meta c) with None => true | Some t => retained t now end.

Definition put_credential (now : Z) (secret : CredentialSecret) (s : MemoryStore)
    : Result unit string * MemoryStore :=
  let m := cs_meta secret in
  if existsb (occupies m) (map_to_list (creds s)).*2
  then (Err ("put_credential: slot " +:+ pretty (cm_slot m) +:+ " for key '" +:+ cm_key_id m +:+ "' kind '" +:+ cm_kind m
             +:+ "' holds a live credential; revoke it first"), s)
  else if existsb (takes_public_id m) (map_to_list (creds s)).*2
  then (Err ("put_credential: public_id '" +:+ cm_public_id m +:+ "' is already in use for kind '"
             +:+ cm_kind m +:+ "'"), s)
  else
    let (r, s) := next_revision s in
    let s := set_creds (<[cm_id m := cred_with_revision r secret]> (creds s)) s in
    let (t, sweep_needed) := tick (creds_sweep_ticker s) in
    let s := set_creds_ticker t s in
    (Ok tt, if sweep_needed then set_creds (filter (fun ic => Is_true (cred_kept now ic.2)) (creds s)) s else s).

(** The trait's default: two sequential writes, the first kept when the second fails. *)
Definition put_key_with_credential (now : Z) (key : VirtualKey) (secret : CredentialSecret) (s : MemoryStore)
    : Result unit string * MemoryStore :=
  match put_key now key s with
  | (Err e, s) => (Err e, s)
  | (Ok _, s) => put_credential now secret s
  end.

Definition list_credentials (key_id : string) (s : MemoryStore) : list CredentialMeta :=
  cs_meta <$> filter (fun c => cm_key_id (cs_meta c) = key_id) (map_to_list (creds s)).*2.

Definition lookup_credential_secret (kind public_id : string) (s : MemoryStore) : option CredentialSecret :=
  List.find (fun c => String.eqb (cm_kind (cs_meta c)) kind && String.eqb (cm_public_id (cs_meta c)) public_id)
    (map_to_list (creds s)).*2.

Definition revoke (now r : Z) (reason : string) (c : CredentialSecret) : CredentialSecret :=
  let m := cs_meta c in
  mkSecret (mkMeta (cm_id m) (cm_key_id m) (cm_kind m) (cm_slot m) (cm_public_id m) (cm_secret_form m)
    (cm_created_at m) (cm_updated_at m) (cm_expires_at m) (Some now) (Some reason) r) (cs_secret c).

Definition revoke_credential (now : Z) (id reason : string) (s : MemoryStore)
    : Result unit string * MemoryStore :=
  match creds s !! id with
  | None => (Err ("revoke_credential: unknown id '" +:+ id +:+ "'"), s)
  | Some c =>
      if bool_decide (cm_revoked_at (cs_meta c) = None) then
        let (r, s) := next_revision s in
        (Ok tt, set_creds (<[id := revoke now r reason c]> (creds s)) s)
      else (Ok tt, s)
  end.

Definition list_credentials_since (since : Z) (s : MemoryStore) : list CredentialSecret :=
  filter (fun c => since < cm_revision (cs_meta c)) (map_to_list (creds s)).*2.

Definition add_denylist (sub : string) (s : MemoryStore) : MemoryStore := set_denylist ({[sub]} ∪ denylist s) s.

Definition list_denylist (s : MemoryStore) : list string := elements (denylist s).

(** * what the in-memory store promises

    The uniqueness the credential lookups rely on, the finality of a key's deletion, and the additive
    ledger under its retention sweep, over every sequence of writes. *)


#[local] Open Scope Z_scope.

(** ** Runs *)

Inductive StoreOp :=
  | OPutKey (now : Z) (key : VirtualKey)
  | ODeleteKey (now : Z) (id : string)
  | OScrubKey (id : string)
  | OPutUsage (bucket_id : string) (window_start : Z) (ledger : UsageLedger)
  | OAddUsage (now : Z) (bucket_id : string) (window_start : Z) (delta : UsageDelta)
  | OAddMetering (now : Z) (delta : MeteringDelta)
  | OPutCredential (now : Z) (secret : CredentialSecret)
  | OPutKeyWithCredential (now : Z) (key : VirtualKey) (secret : CredentialSecret)
  | ORevoke (now : Z) (id reason : string)
  | ODeny (sub : string).

Definition apply (op : StoreOp) (s : MemoryStore) : MemoryStore :=
  match op with
  | OPutKey now key => (put_key now key s).2
  | ODeleteKey now id => (delete_key now id s).2
  | OScrubKey id => (scrub_key id s).2
  | OPutUsage b w l => put_usage b w l s
  | OAddUsage now b w d => add_usage now b w d s
  | OAddMetering now d => add_metering now d s
  | OPutCredential now c => (put_credential now c s).2
  | OPutKeyWithCredential now k c => (put_key_with_credential now k c s).2
  | ORevoke now id reason => (revoke_credential now id reason s).2
  | ODeny sub => add_denylist sub s
  end.

Definition run (ops : list StoreOp) (s : MemoryStore) : MemoryStore := foldl (fun s op => apply op s) s ops.

(** ** What each write does to the keys and the credentials *)

Lemma put_key_creds now key s : creds (put_key now key s).2 = creds s.
Proof. unfold put_key. destruct (clears_tombstone key s); [done|]. simpl. by destruct (_ =? 0). Qed.

(** A row of the key map after a put: the new one, or an old one. *)
Lemma put_key_lookup now key s id k :
  keys (put_key now key s).2 !! id = Some k ->
  keys s !! id = Some k \/ (id = key_id key /\ k = key_with_revision (next_revision s).1 key).
Proof.
  unfold put_key. destruct (clears_tombstone key s); [by left|]. simpl.
  destruct (_ =? 0); simpl; intros Hk; [apply map_lookup_filter_Some in Hk as [Hk _]|];
    apply lookup_insert_Some in Hk as [[<- <-]|[_ Hk]]; auto.
Qed.

Lemma put_credential_keys now c s : keys (put_credential now c s).2 = keys s.
Proof. unfold put_credential. destruct (existsb _ _); [done|]. destruct (existsb _ _); [done|]. simpl. by destruct (_ =? 0). Qed.

(** A row of the credential map after a put; a new one had no rival. *)
Lemma put_credential_lookup now c s id c' :
  creds (put_credential now c s).2 !! id = Some c' ->
  creds s !! id = Some c'
  \/ (id = cm_id (cs_meta c) /\ c' = cred_with_revision (next_revision s).1 c
      /\ forall j d, creds s !! j = Some d -> occupies (cs_meta c) d = false /\ takes_public_id (cs_meta c) d = false).
Proof.
  unfold put_credential. destruct (existsb (occupies _) _) eqn:E1; [by left|].
  destruct (existsb (takes_public_id _) _) eqn:E2; [by left|]. simpl. intros Hc.
  assert (Hc' : (<[cm_id (cs_meta c) := cred_with_revision (next_revision s).1 c]> (creds s)) !! id = Some c').
  { destruct (_ =? 0); simpl in Hc; [by apply map_lookup_filter_Some in Hc as [Hc _]|done]. }
  apply lookup_insert_Some in Hc' as [[<- <-]|[_ Hc']]; [|by left]. right. split_and!; [done..|].
  assert (Hno : forall f, existsb f (map_to_list (creds s)).*2 = false ->
    forall j d, creds s !! j = Some d -> f d = false).
  { intros f Hf j d Hd. destruct (f d) eqn:E; [|done]. rewrite <- Hf. symmetry. apply existsb_exists.
    exists d. split; [|done]. apply list_elem_of_In, list_elem_of_fmap. exists (j, d). split; [done|].
    by apply elem_of_map_to_list. }
  intros j d Hd. split; eapply Hno; done.
Qed.

Lemma revoke_lookup now id reason s j c :
  creds (revoke_credential now id reason s).2 !! j = Some c ->
  creds s !! j = Some c
  \/ (j = id /\ exists c0, creds s !! id = Some c0 /\ cm_revoked_at (cs_meta c0) = None
      /\ c = revoke now (next_revision s).1 reason c0).
Proof.
  unfold revoke_credential. destruct (creds s !! id) as [c0|] eqn:E; [|by left].
  case_bool_decide as Hr; [|by left]. simpl. intros Hj.
  apply lookup_insert_Some in Hj as [[<- <-]|[_ Hj]]; [|by left]. right. eauto.
Qed.

(** ** The invariant *)

Definition same_slot (a b : CredentialSecret) : Prop :=
  cm_key_id (cs_meta a) = cm_key_id (cs_meta b) /\ cm_kind (cs_meta a) = cm_kind (cs_meta b)
  /\ cm_slot (cs_meta a) = cm_slot (cs_meta b).

Definition same_public_id (a b : CredentialSecret) : Prop :=
  cm_kind (cs_meta a) = cm_kind (cs_meta b) /\ cm_public_id (cs_meta a) = cm_public_id (cs_meta b).

Definition unrevoked (c : CredentialSecret) : Prop := cm_revoked_at (cs_meta c) = None.

Record store_wf (s : MemoryStore) : Prop := {
  wf_keys : forall id k, keys s !! id = Some k -> key_id k = id;
  wf_creds : forall id c, creds s !! id = Some c -> cm_id (cs_meta c) = id;
  wf_public : forall i j a b, creds s !! i = Some a -> creds s !! j = Some b -> same_public_id a b -> i = j;
  wf_slot : forall i j a b, creds s !! i = Some a -> creds s !! j = Some b -> unrevoked a -> unrevoked b ->
    same_slot a b -> i = j
}.

(** It is kept when the credentials are a subset of what they were, and the keys are well named. *)
Lemma store_wf_sub s s' :
  store_wf s -> (forall id k, keys s' !! id = Some k -> key_id k = id) -> creds s' ⊆ creds s -> store_wf s'.
Proof.
  intros [Hk Hc Hp Hs] Hk' Hsub.
  assert (Hl : forall i a, creds s' !! i = Some a -> creds s !! i = Some a)
    by (intros i a Ha; by eapply lookup_weaken).
  split; [done|..]; eauto.
Qed.

Lemma rival_false m d : occupies m d = false -> takes_public_id m d = false ->
  cm_id (cs_meta d) <> cm_id m ->
  ~ (cm_key_id (cs_meta d) = cm_key_id m /\ cm_kind (cs_meta d) = cm_kind m
     /\ cm_slot (cs_meta d) = cm_slot m /\ unrevoked d)
  /\ ~ (cm_kind (cs_meta d) = cm_kind m /\ cm_public_id (cs_meta d) = cm_public_id m).
Proof.
  intros Ho Ht Hid. apply String.eqb_neq in Hid. split.
  - intros (E1 & E2 & E3 & E4). unfold occupies in Ho.
    rewrite Hid, E1, E2, E3, !String.eqb_refl, Z.eqb_refl, (bool_decide_true _ E4) in Ho. done.
  - intros (E1 & E2). unfold takes_public_id in Ht. by rewrite Hid, E1, E2, !String.eqb_refl in Ht.
Qed.

Lemma put_credential_wf now c s : store_wf s -> store_wf (put_credential now c s).2.
Proof.
  intros [Hk Hc Hp Hs]. split.
  - by rewrite put_credential_keys.
  - intros id d [Hd|(-> & -> & _)]%put_credential_lookup; [by apply Hc|done].
  - intros i j a b Ha Hb Hab.
    apply put_credential_lookup in Ha as [Ha|(-> & -> & Hra)];
      apply put_credential_lookup in Hb as [Hb|(-> & -> & Hrb)]; [by eapply Hp| | |done].
    + destruct (decide (i = cm_id (cs_meta c))) as [|Hne]; [done|exfalso].
      destruct (Hrb _ _ Ha) as [Ho Ht]. rewrite <- (Hc _ _ Ha) in Hne.
      destruct (rival_false _ _ Ho Ht Hne) as [_ Hno]. by apply Hno.
    + destruct (decide (j = cm_id (cs_meta c))) as [|Hne]; [done|exfalso].
      destruct (Hra _ _ Hb) as [Ho Ht]. rewrite <- (Hc _ _ Hb) in Hne.
      destruct (rival_false _ _ Ho Ht Hne) as [_ Hno]. apply Hno. by destruct Hab.
  - intros i j a b Ha Hb Hua Hub Hab.
    apply put_credential_lookup in Ha as [Ha|(-> & -> & Hra)];
      apply put_credential_lookup in Hb as [Hb|(-> & -> & Hrb)]; [by eapply Hs| | |done].
    + destruct (decide (i = cm_id (cs_meta c))) as [|Hne]; [done|exfalso].
      destruct (Hrb _ _ Ha) as [Ho Ht]. rewrite <- (Hc _ _ Ha) in Hne.
      destruct (rival_false _ _ Ho Ht Hne) as [Hno _]. apply Hno. by destruct Hab as (? & ? & ?).
    + destruct (decide (j = cm_id (cs_meta c))) as [|Hne]; [done|exfalso].
      destruct (Hra _ _ Hb) as [Ho Ht]. rewrite <- (Hc _ _ Hb) in Hne.
      destruct (rival_false _ _ Ho Ht Hne) as [Hno _]. apply Hno. by destruct Hab as (? & ? & ?).
Qed.

Lemma revoke_credential_wf now id reason s : store_wf s -> store_wf (revoke_credential now id reason s).2.
Proof.
  intros [Hk Hc Hp Hs].
  assert (Hrow : forall j a, creds (revoke_credential now id reason s).2 !! j = Some a ->
    exists a0, creds s !! j = Some a0 /\ cm_id (cs_meta a) = cm_id (cs_meta a0)
      /\ same_slot a a0 /\ same_public_id a a0 /\ (unrevoked a -> unrevoked a0)).
  { intros j a [Ha|(-> & a0 & Ha & Hr & ->)]%revoke_lookup; [by exists a|by exists a0]. }
  assert (Hkeys : keys (revoke_credential now id reason s).2 = keys s).
  { unfold revoke_credential. destruct (creds s !! id); [|done]. by case_bool_decide. }
  split.
  - by rewrite Hkeys.
  - intros j a Ha. apply Hrow in Ha as (a0 & Ha & -> & _). by apply Hc.
  - intros i j a b Ha Hb Hab. apply Hrow in Ha as (a0 & Ha & _ & _ & [E1 E2] & _).
    apply Hrow in Hb as (b0 & Hb & _ & _ & [E3 E4] & _). eapply (Hp i j a0 b0); [done..|].
    destruct Hab. split; congruence.
  - intros i j a b Ha Hb Hua Hub Hab. apply Hrow in Ha as (a0 & Ha & _ & (E1 & E2 & E3) & _ & Ha').
    apply Hrow in Hb as (b0 & Hb & _ & (E4 & E5 & E6) & _ & Hb'). eapply (Hs i j a0 b0); [done..|by apply Ha'|by apply Hb'|].
    destruct Hab as (? & ? & ?). split_and!; congruence.
Qed.

Lemma put_key_wf now key s : store_wf s -> store_wf (put_key now key s).2.
Proof.
  intros Hwf. apply (store_wf_sub s); [done| |by rewrite put_key_creds].
  intros id k [Hk|[-> ->]]%put_key_lookup; [by apply (wf_keys s Hwf)|done].
Qed.

Lemma apply_wf op s : store_wf s -> store_wf (apply op s).
Proof.
  intros Hwf. destruct op; simpl.
  - by apply put_key_wf.
  - unfold delete_key. destruct (keys s !! id) as [k|] eqn:E; [|done]. case_bool_decide; [done|].
    apply (store_wf_sub s); [done| |simpl; apply map_filter_subseteq].
    simpl. intros j k' [[<- <-]|[_ Hj]]%lookup_insert_Some; [|by apply (wf_keys s Hwf)].
    exact (wf_keys s Hwf _ _ E).
  - unfold scrub_key. destruct (keys s !! id) as [k|] eqn:E; [|done]. case_bool_decide; [done|].
    apply (store_wf_sub s); [done| |done].
    simpl. intros j k' [[<- <-]|[_ Hj]]%lookup_insert_Some; [|by apply (wf_keys s Hwf)].
    exact (wf_keys s Hwf _ _ E).
  - apply (store_wf_sub s); [done|apply (wf_keys s Hwf)|done].
  - unfold add_usage. simpl. destruct (_ =? 0); (apply (store_wf_sub s); [done|apply (wf_keys s Hwf)|done]).
  - unfold add_metering. simpl. destruct (_ =? 0); (apply (store_wf_sub s); [done|apply (wf_keys s Hwf)|done]).
  - by apply put_credential_wf.
  - unfold put_key_with_credential. pose proof (put_key_wf now key s Hwf) as Hk.
    destruct (put_key now key s) as [[u|e] s']; simpl in *; [by apply put_credential_wf|done].
  - by apply revoke_credential_wf.
  - apply (store_wf_sub s); [done|apply (wf_keys s Hwf)|done].
Qed.

Lemma run_wf ops s : store_wf s -> store_wf (run ops s).
Proof. revert s. induction ops as [|op ops IH]; intros s Hs; [done|]. simpl. by apply IH, apply_wf. Qed.

Lemma store_wf_new : store_wf MemoryStore_new.
Proof. split; simpl; intros *; rewrite ?lookup_empty; done. Qed.

(** ** Deletion *)

(** The row is a tombstone no older than [t]. *)
Definition tombstoned_since (t : Z) (id : string) (s : MemoryStore) : Prop :=
  exists k d, keys s !! id = Some k /\ deleted_at k = Some d /\ t <= d.

(** A later write: its clock is within the retention of [t], and a write that carries a tombstone for
    the same id carries a later one. *)
Definition op_within (t : Z) (id : string) (op : StoreOp) : Prop :=
  match op with
  | OPutKey now key | OPutKeyWithCredential now key _ =>
      now < t +sat MAX_RETENTION_SECS
      /\ (key_id key = id -> match deleted_at key with Some d => t <= d | None => True end)
  | ODeleteKey now _ => t <= now
  | _ => True
  end.

Lemma put_key_tombstoned t id now key s :
  tombstoned_since t id s -> now < t +sat MAX_RETENTION_SECS ->
  (key_id key = id -> match deleted_at key with Some d => t <= d | None => True end) ->
  tombstoned_since t id (put_key now key s).2.
Proof.
  intros (k & d & Hk & Hd & Ht) Hnow Hkey. unfold put_key.
  destruct (clears_tombstone key s) eqn:Ec; [by exists k, d|]. simpl.
  assert (Hput : exists k' d', (<[key_id key := key_with_revision (wrap 64 (revision_counter s + 1)) key]> (keys s)) !! id
            = Some k' /\ deleted_at k' = Some d' /\ t <= d').
  { destruct (decide (key_id key = id)) as [E|E].
    - specialize (Hkey E). unfold clears_tombstone in Ec. rewrite E, lookup_insert_eq.
      destruct (deleted_at key) as [d'|] eqn:Ed; [by eexists _, d'|].
      rewrite E, Hk, Hd in Ec. by rewrite bool_decide_true in Ec by by eexists.
    - rewrite lookup_insert_ne by done. by exists k, d. }
  destruct Hput as (k' & d' & Hk' & Hd' & Ht'). exists k', d'.
  split; [|done]. destruct (_ =? 0); simpl; [|done].
  apply map_lookup_filter_Some. split; [done|]. simpl. unfold key_kept, retained. rewrite Hd'.
  apply Is_true_eq_left, Z.ltb_lt. unfold sat_add in *. lia.
Qed.

Lemma apply_tombstoned t id op s :
  tombstoned_since t id s -> op_within t id op -> tombstoned_since t id (apply op s).
Proof.
  intros Hs Hop. destruct op; simpl in *.
  - destruct Hop. by apply put_key_tombstoned.
  - destruct Hs as (k & d & Hk & Hd & Ht). unfold delete_key.
    destruct (keys s !! id0) as [k0|] eqn:E; [|by exists k, d]. case_bool_decide as Hl; [by exists k, d|].
    simpl. destruct (decide (id0 = id)) as [->|Hne].
    + rewrite E in Hk. injection Hk as ->. rewrite Hd in Hl. destruct Hl. by eexists.
    + exists k, d. simpl. by rewrite lookup_insert_ne.
  - destruct Hs as (k & d & Hk & Hd & Ht). unfold scrub_key.
    destruct (keys s !! id0) as [k0|] eqn:E; [|by exists k, d]. case_bool_decide as Hl; [by exists k, d|].
    simpl. destruct (decide (id0 = id)) as [->|Hne].
    + rewrite E in Hk. injection Hk as ->. eexists _, d. simpl. by rewrite lookup_insert_eq.
    + exists k, d. simpl. by rewrite lookup_insert_ne.
  - done.
  - unfold add_usage. simpl. by destruct (_ =? 0).
  - unfold add_metering. simpl. by destruct (_ =? 0).
  - unfold tombstoned_since. by rewrite put_credential_keys.
  - destruct Hop as [Hnow Hkey]. pose proof (put_key_tombstoned t id now key s Hs Hnow Hkey) as Hk.
    unfold put_key_with_credential. destruct (put_key now key s) as [[u|e] s']; simpl in *; [|done].
    unfold tombstoned_since. by rewrite put_credential_keys.
  - unfold revoke_credential. destruct (creds s !! id0); [|done]. by case_bool_decide.
  - done.
Qed.

(** ** Properties *)

(** Lookups by public id are unambiguous: after any sequence of writes, rows are stored under their
    own ids, no two credentials of one kind share a public id, no two unrevoked ones share a slot of
    a key, and a lookup returns a credential exactly if it is the stored one of that kind and public
    id, whatever order the rows are scanned in. *)
Theorem credential_lookup_is_unambiguous ops kind public_id c :
  let s := run ops MemoryStore_new in
  store_wf s
  /\ (lookup_credential_secret kind public_id s = Some c <->
      creds s !! cm_id (cs_meta c) = Some c /\ cm_kind (cs_meta c) = kind /\ cm_public_id (cs_meta c) = public_id).
Proof.
  intros s. assert (Hwf : store_wf s) by apply run_wf, store_wf_new. split; [done|].
  assert (Hin : forall d, d ∈ (map_to_list (creds s)).*2 <-> creds s !! cm_id (cs_meta d) = Some d).
  { intros d. rewrite list_elem_of_fmap. split.
    - intros ([i d'] & -> & Hd). apply elem_of_map_to_list in Hd. simpl. by rewrite (wf_creds s Hwf _ _ Hd).
    - intros Hd. exists (cm_id (cs_meta d), d). split; [done|]. by apply elem_of_map_to_list. }
  unfold lookup_credential_secret.
  set (f := fun c => String.eqb (cm_kind (cs_meta c)) kind && String.eqb (cm_public_id (cs_meta c)) public_id).
  assert (Hf : forall d, f d = true <-> cm_kind (cs_meta d) = kind /\ cm_public_id (cs_meta d) = public_id).
  { intros d. unfold f. by rewrite andb_true_iff, !String.eqb_eq. }
  split.
  - intros Hfind. apply List.find_some in Hfind as [Hc Hfc]. apply list_elem_of_In, Hin in Hc. by apply Hf in Hfc.
  - intros (Hc & Hk). destruct (List.find f (map_to_list (creds s)).*2) as [d|] eqn:E.
    + apply List.find_some in E as [Hd Hfd]. apply list_elem_of_In, Hin in Hd. apply Hf in Hfd.
      assert (cm_id (cs_meta d) = cm_id (cs_meta c)) as Hid.
      { eapply (wf_public s Hwf); [exact Hd|exact Hc|]. destruct Hk, Hfd. split; congruence. }
      rewrite Hid, Hc in Hd. congruence.
    + apply (List.find_none _ _) with (x := c) in E; [|by apply list_elem_of_In, Hin].
      by rewrite (proj2 (Hf c) Hk) in E.
Qed.

(** Deleting a key is final, for as long as its tombstone is retained: the deletion drops its
    credentials and its ledgers at once, and for the next 31 days no sequence of writes brings the
    row back to life - a live-shaped write to that id is refused and changes nothing. It is not
    permanent: the first sweep after that drops the tombstone, and the id can be issued again. *)
Theorem deletion_is_final_until_retention t id s k ops :
  keys s !! id = Some k -> deleted_at k = None -> Forall (op_within t id) ops ->
  let s1 := (delete_key t id s).2 in
  let s2 := run ops s1 in
  (delete_key t id s).1 = Ok tt
  /\ (forall i c, creds s1 !! i = Some c -> cm_key_id (cs_meta c) <> id)
  /\ (forall w, get_usage id w s1 = UsageLedger_default)
  /\ tombstoned_since t id s2
  /\ (forall now key, key_id key = id -> deleted_at key = None ->
        (exists e, put_key now key s2 = (Err e, s2)))
  /\ forall k2 d now other key,
       keys s2 !! id = Some k2 -> deleted_at k2 = Some d -> d +sat MAX_RETENTION_SECS <= now ->
       (tick (keys_sweep_ticker s2)).2 = true -> key_id other <> id -> clears_tombstone other s2 = false ->
       key_id key = id -> (put_key now key (put_key now other s2).2).1 = Ok tt.
Proof.
  intros Hk Hd Hops s1 s2.
  assert (Hdel : delete_key t id s = (Ok tt, s1)).
  { unfold s1, delete_key. rewrite Hk, bool_decide_false; [done|]. rewrite Hd. by intros [? [= ]]. }
  assert (Hs1 : keys s1 = <[id := tombstone t (wrap 64 (revision_counter s + 1)) k]> (keys s)
    /\ creds s1 = filter (fun ic => cm_key_id (cs_meta ic.2) <> id) (creds s)
    /\ usage s1 = filter (fun ul => ul.1.1 <> id) (usage s)).
  { unfold s1, delete_key. rewrite Hk, bool_decide_false; [done|]. rewrite Hd. by intros [? [= ]]. }
  destruct Hs1 as (Hk1 & Hc1 & Hu1).
  assert (Ht1 : tombstoned_since t id s1).
  { eexists _, t. rewrite Hk1, lookup_insert_eq. split; [done|]. simpl. split; [done|lia]. }
  assert (Ht2 : tombstoned_since t id s2).
  { unfold s2. clear -Ht1 Hops. revert Ht1. generalize s1. induction Hops as [|op ops Hop _ IH]; intros s' Hs'; [done|].
    simpl. by apply IH, apply_tombstoned. }
  split_and!; [by rewrite Hdel| | |done| |].
  - intros i c Hc. rewrite Hc1 in Hc. by apply map_lookup_filter_Some in Hc as [_ Hc].
  - intros w. unfold get_usage. rewrite Hu1. destruct (filter _ (usage s) !! (id, w)) eqn:E; [|done].
    apply map_lookup_filter_Some in E as [_ E]. by destruct E.
  - intros now key Hid Hlive. destruct Ht2 as (k2 & d2 & Hk2 & Hd2 & _). unfold put_key, clears_tombstone.
    rewrite Hlive, Hid, Hk2, Hd2, bool_decide_true by by eexists. by eexists.
  - intros k2 d now other key Hk2 Hd2 Hold Htick Hne Hc Hid.
    assert (Hgone : keys (put_key now other s2).2 !! id = None).
    { unfold put_key. rewrite Hc. simpl in *. rewrite Htick. simpl. apply map_lookup_filter_None_2. right.
      rewrite lookup_insert_ne by done. rewrite Hk2. intros x [= <-]. simpl.
      unfold key_kept, retained. rewrite Hd2. intros Hr. apply Is_true_eq_true, Z.ltb_lt in Hr. lia. }
    unfold put_key at 1, clears_tombstone. rewrite Hid, Hgone. by destruct (deleted_at key).
Qed.

Definition demo_live_key : VirtualKey := mkKey "vk_1" "" "ci" None true 0 None [] None None 0.

Definition demo_key_store : MemoryStore := run [OPutKey 10 demo_live_key] MemoryStore_new.

Lemma deletion_is_final_until_retention_witness :
  (delete_key 20 "vk_1" demo_key_store).1 = Ok tt
  /\ exists e, (put_key 40 demo_live_key (run [OPutKey 30 demo_live_key; OScrubKey "vk_1"]
       (delete_key 20 "vk_1" demo_key_store).2)).1 = Err e.
Proof.
  destruct (deletion_is_final_until_retention 20 "vk_1" demo_key_store (key_with_revision 1 demo_live_key)
    [OPutKey 30 demo_live_key; OScrubKey "vk_1"]) as (H1 & _ & _ & _ & H5 & _).
  - by vm_compute.
  - done.
  - repeat constructor; vm_compute; intros; congruence || done.
  - split; [exact H1|]. destruct (H5 40 demo_live_key eq_refl eq_refl) as [e He]. exists e. by rewrite He.
Defined.

(** The usage ledger is additive between sweeps, and a sweep drops more than it should: adding a
    delta changes that ledger alone, and exactly by the delta, floored at zero; on every 256th add
    every ledger whose window started more than 31 days ago is dropped, and the ledgers of the
    all-time window - which starts at 0 and never ends - are always among them. *)
Theorem usage_is_additive_until_a_sweep_drops_all_time now b w d s b' w' :
  let added := if bool_decide ((b', w') = (b, w)) then apply_delta (get_usage b w s) d else get_usage b' w' s in
  get_usage b' w' (add_usage now b w d s)
  = (if (tick (usage_sweep_ticker s)).2 && negb (retained w' now) then UsageLedger_default else added)
  /\ (MAX_RETENTION_SECS <= now -> retained 0 now = false).
Proof.
  intros added. split.
  - assert (Hadd : default UsageLedger_default
              (<[(b, w) := apply_delta (default UsageLedger_default (usage s !! (b, w))) d]> (usage s) !! (b', w'))
            = added).
    { unfold added, get_usage. case_bool_decide as E; [by rewrite E, lookup_insert_eq|].
      by rewrite lookup_insert_ne by congruence. }
    unfold add_usage, get_usage at 1. destruct (tick (usage_sweep_ticker s)) as [t' sweep] eqn:Et.
    assert (Ht : tick (usage_sweep_ticker (set_usage (<[(b, w) := apply_delta (default UsageLedger_default
      (usage s !! (b, w))) d]> (usage s)) s)) = (t', sweep)) by done.
    rewrite Ht. simpl. destruct sweep; simpl; [|done].
    destruct (retained w' now) eqn:Er; simpl.
    + rewrite <- Hadd. destruct (<[_ := _]> (usage s) !! (b', w')) as [u|] eqn:E.
      * rewrite (map_lookup_filter_Some_2 _ _ _ u); [done|done|]. simpl. by rewrite Er.
      * by rewrite map_lookup_filter_None_2 by by left.
    + rewrite map_lookup_filter_None_2; [done|]. right. simpl. intros u _ Hr. by rewrite Er in Hr.
  - intros Hn. unfold retained, sat_add, U64_MAX, MAX_RETENTION_SECS in *. apply Z.ltb_ge. lia.
Qed.

(** The 256th add on a store, in 2025, loses the key's all-time ledger it has just written. *)
Lemma usage_is_additive_until_a_sweep_drops_all_time_witness :
  let s := set_usage_ticker 255 MemoryStore_new in
  get_usage "vk_1" 0 (add_usage 1750000000 "vk_1" 0 (mkUsageDelta 1 1 []) s) = UsageLedger_default.
Proof.
  intros s. destruct (usage_is_additive_until_a_sweep_drops_all_time 1750000000 "vk_1" 0 (mkUsageDelta 1 1 []) s "vk_1" 0)
    as [-> H2].
  rewrite H2 by by vm_compute. done.
Defined.
