(* ===== verification/GroupsSpec.v ===== *)
(** * GroupsSpec: what the limit topology promises

    The projection keeps exactly the tightest limit of each metric, window and scope; the walk of the
    chain is the whole ancestor path of an acyclic tree; and which bucket ids belong to a group. *)

From Stdlib Require Import Ascii.
From S2P Require Import Prelude Breaker Windows Groups.

#[local] Open Scope Z_scope.

(** ** The tightest limit, as a specification *)

(** The limits of one metric, window and scope, by their effective amounts. *)
Definition effective (l : LimitCfg) : Z :=
  match metric l with Budget => i64_or_max (amount l) | _ => amount l end.

Definition governs (m : LimitMetric) (w : LimitWindow) (s : option ScopeRef) (l : LimitCfg) : bool :=
  bool_decide (metric l = m) && bool_decide (per l = Some w) && bool_decide (l_scope l = s).

Fixpoint minimum (xs : list Z) : option Z :=
  match xs with
  | [] => None
  | x :: xs => Some match minimum xs with None => x | Some c => Z.min x c end
  end.

Definition tightest (m : LimitMetric) (w : LimitWindow) (s : option ScopeRef) (ls : list LimitCfg)
    : option Z :=
  minimum (effective <$> filter (fun l => Is_true (governs m w s l)) ls).

(** The cap of a metric in the bucket of a window and scope. *)
Definition cap_of (m : LimitMetric) (b : GroupBucket) : option Z :=
  match m with
  | Requests => requests_cap b
  | Tokens => tokens_cap b
  | Budget => budget_cap b
  | Concurrent => None
  end.

Definition is_bucket (w : LimitWindow) (s : option ScopeRef) (b : GroupBucket) : bool :=
  String.eqb (window b) (window_str w) && bool_decide (scope b = s).

Definition bucket_cap (m : LimitMetric) (w : LimitWindow) (s : option ScopeRef) (bs : list GroupBucket)
    : option Z :=
  List.find (is_bucket w s) bs ≫= cap_of m.

Lemma window_str_inj w w' : window_str w = window_str w' -> w = w'.
Proof. by destruct w, w'. Qed.

Lemma minimum_snoc xs x : minimum (xs ++ [x]) = min_cap (minimum xs) x.
Proof.
  induction xs as [|y xs IH]; simpl; [done|]. rewrite IH. unfold min_cap.
  destruct (minimum xs); f_equal; lia.
Qed.

Lemma minimum_elem xs x : minimum xs = Some x -> x ∈ xs /\ Forall (fun y => x <= y) xs.
Proof.
  revert x. induction xs as [|y xs IH]; simpl; intros x Hm; [done|]. injection Hm as <-.
  destruct (minimum xs) as [c|] eqn:E.
  - destruct (IH c eq_refl) as [Hin Hall]. split.
    + destruct (Z.min_spec y c) as [[_ ->]|[_ ->]]; [by left|by right].
    + constructor; [lia|]. eapply Forall_impl; [exact Hall|]. simpl. lia.
  - destruct xs as [|z xs]; [|simpl in E; done]. split; [by left|]. by constructor; [lia|].
Qed.

(** ** One limit applied *)

Lemma apply_limit_key l b : window (apply_limit l b) = window b /\ scope (apply_limit l b) = scope b
  /\ bucket_id (apply_limit l b) = bucket_id b.
Proof. unfold apply_limit. by destruct (metric l). Qed.

Lemma apply_limit_is_bucket l b w s : is_bucket w s (apply_limit l b) = is_bucket w s b.
Proof. unfold is_bucket. by destruct (apply_limit_key l b) as (-> & -> & _). Qed.

Lemma apply_limit_cap l b m :
  cap_of m (apply_limit l b)
  = if bool_decide (metric l = m /\ m <> Concurrent) then min_cap (cap_of m b) (effective l) else cap_of m b.
Proof.
  unfold apply_limit, effective.
  case_bool_decide as Hb; destruct (metric l), m; simpl; try done; by destruct Hb.
Qed.

Definition fresh_bucket (group : string) (l : LimitCfg) (w : LimitWindow) : GroupBucket :=
  mkBucket (bucket_id_of group (window_str w) (l_scope l)) (window_str w) None None None (l_scope l) None.

Lemma find_upsert group w0 l w s bs :
  List.find (is_bucket w s) (upsert_bucket group (window_str w0) l bs)
  = if bool_decide (w0 = w /\ l_scope l = s)
    then Some (apply_limit l (default (fresh_bucket group l w0) (List.find (is_bucket w s) bs)))
    else List.find (is_bucket w s) bs.
Proof.
  assert (Hnew : forall b, window b = window_str w0 -> scope b = l_scope l ->
    is_bucket w s b = bool_decide (w0 = w /\ l_scope l = s)).
  { intros b Hw Hs. unfold is_bucket. rewrite Hw, Hs.
    destruct (String.eqb_spec (window_str w0) (window_str w)) as [He|Hne].
    - apply window_str_inj in He as ->. simpl. apply bool_decide_ext. naive_solver.
    - rewrite (bool_decide_false (w0 = w /\ _)); [done|]. intros [-> _]. by apply Hne. }
  assert (Hother : forall b, (window b = window_str w0 -> scope b <> l_scope l) ->
    bool_decide (w0 = w /\ l_scope l = s) = true -> is_bucket w s b = false).
  { intros b Hb E. apply bool_decide_eq_true in E as [-> <-]. unfold is_bucket.
    destruct (String.eqb_spec (window b) (window_str w)); [|done]. simpl.
    apply bool_decide_false. auto. }
  induction bs as [|b bs IH]; simpl.
  - rewrite apply_limit_is_bucket, Hnew by done. by destruct (bool_decide _).
  - destruct (String.eqb (window b) (window_str w0) && bool_decide (scope b = l_scope l)) eqn:Eb; simpl.
    + zbool. apply String.eqb_eq in H as Hw. apply bool_decide_eq_true in H0 as Hs.
      rewrite apply_limit_is_bucket, Hnew by done. by destruct (bool_decide _).
    + rewrite IH. destruct (bool_decide (w0 = w /\ l_scope l = s)) eqn:E; [|done].
      rewrite Hother; [done| |done]. intros Hw Hs. rewrite Hw, String.eqb_refl in Eb.
      by rewrite bool_decide_true in Eb.
Qed.

(** ** The whole fold *)

Lemma filter_snoc {A} (P : A -> Prop) `{forall x, Decision (P x)} (l : list A) x :
  filter P (l ++ [x]) = filter P l ++ (if decide (P x) then [x] else []).
Proof. rewrite filter_app, filter_cons, filter_nil. done. Qed.

Lemma tightest_snoc m w s ls l :
  tightest m w s (ls ++ [l])
  = if governs m w s l then min_cap (tightest m w s ls) (effective l) else tightest m w s ls.
Proof.
  unfold tightest. rewrite filter_snoc. destruct (governs m w s l).
  - rewrite decide_True, fmap_app by done. csimpl. by rewrite minimum_snoc.
  - by rewrite decide_False, app_nil_r by auto.
Qed.

Definition concurrent_amounts (ls : list LimitCfg) : list Z :=
  amount <$> filter (fun l => metric l = Concurrent) ls.

(** The budget cap is that of a limit whose downgrade the bucket has. *)
Definition governed (ls : list LimitCfg) (b : GroupBucket) : Prop :=
  forall c, budget_cap b = Some c -> exists w l, l ∈ ls
    /\ window b = window_str w /\ governs Budget w (scope b) l = true
    /\ effective l = c /\ downgrade_to b = l_downgrade_to l.

(** What is true of the buckets after the limits [ls]. *)
Record projected (group : string) (ls : list LimitCfg) (st : list GroupBucket * option Z) : Prop := {
  pr_caps : forall m w s, m <> Concurrent -> bucket_cap m w s st.1 = tightest m w s ls;
  pr_conc : st.2 = minimum (concurrent_amounts ls);
  pr_from : Forall (fun b => exists w s, window b = window_str w /\ scope b = s
              /\ bucket_id b = bucket_id_of group (window_str w) s
              /\ exists m l, l ∈ ls /\ governs m w s l = true) st.1;
  pr_nodup : NoDup ((fun b => (window b, scope b)) <$> st.1);
  pr_downgrade : Forall (governed ls) st.1;
}.

Lemma upsert_Forall (P : GroupBucket -> Prop) group w l bs :
  Forall P bs ->
  (forall b, P b -> window b = w -> scope b = l_scope l -> P (apply_limit l b)) ->
  P (apply_limit l (mkBucket (bucket_id_of group w (l_scope l)) w None None None (l_scope l) None)) ->
  Forall P (upsert_bucket group w l bs).
Proof.
  intros HF Happ Hnew. induction HF as [|b bs Hb HF IH]; simpl; [by constructor|].
  destruct (_ && _) eqn:E; [|by constructor].
  zbool. apply String.eqb_eq in H. apply bool_decide_eq_true in H0. constructor; auto.
Qed.

Lemma upsert_keys group w l bs :
  (fun b => (window b, scope b)) <$> upsert_bucket group w l bs
  = if bool_decide ((w, l_scope l) ∈ ((fun b => (window b, scope b)) <$> bs))
    then (fun b => (window b, scope b)) <$> bs
    else ((fun b => (window b, scope b)) <$> bs) ++ [(w, l_scope l)].
Proof.
  induction bs as [|b bs IH]; csimpl.
  - by destruct (apply_limit_key l (mkBucket (bucket_id_of group w (l_scope l)) w None None None
      (l_scope l) None)) as (-> & -> & _).
  - destruct (String.eqb (window b) w && bool_decide (scope b = l_scope l)) eqn:E.
    + zbool. apply String.eqb_eq in H as <-. apply bool_decide_eq_true in H0 as <-.
      rewrite bool_decide_true by left. csimpl.
      by destruct (apply_limit_key l b) as (-> & -> & _).
    + csimpl. rewrite IH.
      assert (Hne : (w, l_scope l) <> (window b, scope b)).
      { intros Heq. injection Heq as Hw Hs. by rewrite Hw, Hs, String.eqb_refl, bool_decide_true in E. }
      destruct (bool_decide ((w, l_scope l) ∈ _)) eqn:E1 at 1.
      * apply bool_decide_eq_true in E1. by rewrite bool_decide_true by (by right).
      * apply bool_decide_eq_false in E1. rewrite bool_decide_false; [done|].
        by intros [?|?]%elem_of_cons.
Qed.

Lemma min_cap_is x c y : min_cap x c = Some y -> y = c \/ x = Some y.
Proof. unfold min_cap. intros [= <-]. destruct x as [z|]; [|by left]. destruct (Z.min_spec z c) as [[_ ->]|[_ ->]]; auto. Qed.

Lemma governs_intro l w : per l = Some w -> governs (metric l) w (l_scope l) l = true.
Proof. intros Hp. unfold governs. by rewrite Hp, !bool_decide_true. Qed.

(** The bucket's exhaustion behaviour stays that of a limit attaining its budget. *)
Lemma downgrade_step w l ls b :
  governed (ls ++ [l]) b -> per l = Some w -> window b = window_str w -> scope b = l_scope l ->
  governed (ls ++ [l]) (apply_limit l b).
Proof.
  intros Hb Hw Hbw Hbs c. destruct (apply_limit_key l b) as (Hk1 & Hk2 & _).
  rewrite Hk1, Hk2. destruct (decide (metric l = Budget)) as [Hm|Hm].
  2: { intros Hc. assert (budget_cap (apply_limit l b) = budget_cap b /\
         downgrade_to (apply_limit l b) = downgrade_to b) as [H1 H2]
         by (unfold apply_limit; by destruct (metric l)).
       rewrite H1 in Hc. rewrite H2. by apply Hb. }
  assert (He : effective l = i64_or_max (amount l)) by (unfold effective; by rewrite Hm).
  assert (Hnew : forall w', w' = w -> governs Budget w' (scope b) l = true).
  { intros ? ->. rewrite Hbs, <- Hm. by apply governs_intro. }
  unfold apply_limit. rewrite Hm. simpl. rewrite <- He. intros Hc.
  destruct (budget_cap b) as [c0|] eqn:Ec.
  - unfold min_cap in Hc. injection Hc as <-. destruct (effective l <? c0) eqn:El; zbool.
    + exists w, l. rewrite Z.min_r by lia. split_and!; try done; [set_solver|by apply Hnew].
    + rewrite Z.min_l by lia. by apply Hb.
  - injection Hc as <-. exists w, l. split_and!; try done; [set_solver|by apply Hnew].
Qed.

(** A windowed limit joins the bucket of its window and scope. *)
Lemma projected_windowed group ls l bs conc w :
  projected group ls (bs, conc) -> metric l <> Concurrent -> per l = Some w ->
  projected group (ls ++ [l]) (upsert_bucket group (window_str w) l bs, conc).
Proof.
  intros [Hcaps Hconc Hfrom Hnd Hdown] Hm Hw. simpl in *. split; simpl.
  - intros m w' s Hmc. unfold bucket_cap in *. rewrite find_upsert, tightest_snoc, <- Hcaps by done.
    unfold governs. rewrite Hw.
    destruct (decide (w = w' /\ l_scope l = s)) as [[-> <-]|Hn].
    + rewrite bool_decide_true by done. cbn [mbind option_bind]. rewrite apply_limit_cap.
      rewrite (bool_decide_true (Some w' = Some w')), (bool_decide_true (l_scope l = l_scope l)),
        !andb_true_r by done.
      assert (bool_decide (metric l = m /\ m <> Concurrent) = bool_decide (metric l = m)) as ->
        by (apply bool_decide_ext; naive_solver).
      assert (cap_of m (default (fresh_bucket group l w') (List.find (is_bucket w' (l_scope l)) bs))
        = List.find (is_bucket w' (l_scope l)) bs ≫= cap_of m) as ->; [|done].
      destruct (List.find _ bs); [done|]. by destruct m.
    + rewrite bool_decide_false by done.
      assert (bool_decide (metric l = m) && bool_decide (Some w = Some w') && bool_decide (l_scope l = s)
              = false) as ->; [|done].
      destruct (decide (Some w = Some w')) as [[= ->]|]; [|by rewrite (bool_decide_false (Some w = _)), andb_false_r].
      rewrite (bool_decide_false (l_scope l = s)), andb_false_r; naive_solver.
  - rewrite Hconc. unfold concurrent_amounts. rewrite filter_snoc, decide_False by done. by rewrite app_nil_r.
  - apply upsert_Forall.
    + eapply Forall_impl; [exact Hfrom|]. intros b (w' & s & ? & ? & ? & m & l' & ? & ?).
      exists w', s. split_and!; try done. exists m, l'. split; [set_solver|done].
    + intros b (w' & s & Hbw & Hbs & Hid & m & l' & Hl & Hg) _ _.
      destruct (apply_limit_key l b) as (Hk1 & Hk2 & Hk3). exists w', s. rewrite Hk1, Hk2, Hk3.
      split_and!; try done. exists m, l'. split; [set_solver|done].
    + fold (fresh_bucket group l w).
      destruct (apply_limit_key l (fresh_bucket group l w)) as (Hk1 & Hk2 & Hk3).
      exists w, (l_scope l). rewrite Hk1, Hk2, Hk3. split_and!; try done. exists (metric l), l.
      split; [set_solver|by apply governs_intro].
  - rewrite upsert_keys. case_bool_decide as Hin; [done|]. apply NoDup_app. split_and!; [done| |].
    + intros x Hx ->%list_elem_of_singleton. done.
    + apply NoDup_singleton.
  - apply upsert_Forall.
    + eapply Forall_impl; [exact Hdown|]. intros b Hb c Hc.
      destruct (Hb c Hc) as (w' & l' & Hl & ?). exists w', l'. split; [set_solver|done].
    + intros b Hb Hbw Hbs. by apply (downgrade_step w l ls b Hb).
    + apply (downgrade_step w l ls (fresh_bucket group l w)); try done.
Qed.

Lemma projected_step group ls l st :
  projected group ls st -> projected group (ls ++ [l]) (project_limit group st l).
Proof.
  destruct st as [bs conc]. intros Hp. unfold project_limit.
  assert (Hmono : forall b, governed ls b -> governed (ls ++ [l]) b).
  { intros b Hb c Hc. destruct (Hb c Hc) as (w & l' & Hl & ?). exists w, l'. split; [set_solver|done]. }
  destruct (decide (metric l = Concurrent)) as [Hm|Hm].
  - rewrite Hm. destruct Hp as [Hcaps Hconc Hfrom Hnd Hdown]. simpl in *. split; simpl; try done.
    + intros m w s Hmc. rewrite tightest_snoc, Hcaps by done. unfold governs.
      by rewrite (bool_decide_false (metric l = m)) by congruence.
    + rewrite Hconc. unfold concurrent_amounts. rewrite filter_snoc, decide_True, fmap_app by done.
      csimpl. by rewrite minimum_snoc.
    + eapply Forall_impl; [exact Hfrom|]. intros b (w' & s & ? & ? & ? & m & l' & ? & ?).
      exists w', s. split_and!; try done. exists m, l'. split; [set_solver|done].
    + eapply Forall_impl; [exact Hdown|exact Hmono].
  - destruct (per l) as [w|] eqn:Hw.
    + assert (match metric l with Concurrent => (bs, min_cap conc (amount l))
              | _ => (upsert_bucket group (window_str w) l bs, conc) end
              = (upsert_bucket group (window_str w) l bs, conc)) as -> by (by destruct (metric l)).
      by apply projected_windowed.
    + assert (match metric l with Concurrent => (bs, min_cap conc (amount l)) | _ => (bs, conc) end
              = (bs, conc)) as -> by (by destruct (metric l)).
      destruct Hp as [Hcaps Hconc Hfrom Hnd Hdown]. simpl in *. split; simpl; try done.
      * intros m w s Hmc. rewrite tightest_snoc, Hcaps by done. unfold governs.
        rewrite Hw, (bool_decide_false (None = Some w)) by done. by rewrite andb_false_r.
      * rewrite Hconc. unfold concurrent_amounts. rewrite filter_snoc, decide_False by done.
        by rewrite app_nil_r.
      * eapply Forall_impl; [exact Hfrom|]. intros b (w' & s & ? & ? & ? & m & l' & ? & ?).
        exists w', s. split_and!; try done. exists m, l'. split; [set_solver|done].
      * eapply Forall_impl; [exact Hdown|exact Hmono].
Qed.

Lemma project_limits_spec group ls : projected group ls (project_limits group ls).
Proof.
  induction ls as [|l ls IH] using rev_ind.
  - split; simpl; try done. constructor.
  - unfold project_limits. rewrite foldl_app. by apply projected_step.
Qed.

(** ** Bucket ids *)

Fixpoint no_char (c : Ascii.ascii) (s : string) : bool :=
  match s with
  | EmptyString => true
  | String a s => negb (Ascii.eqb a c) && no_char c s
  end.

Lemma split_first_app c s t : no_char c s = true -> split_first c (s +:+ t) = s +:+ split_first c t.
Proof.
  induction s as [|a s IH]; simpl; [done|]. intros Hn. zbool.
  rewrite H. by rewrite IH.
Qed.

Lemma split_first_no c s : no_char c s = true -> split_first c s = s.
Proof.
  induction s as [|a s IH]; simpl; [done|]. intros Hn. zbool.
  rewrite H. by rewrite IH.
Qed.

Lemma no_char_app c s t : no_char c (s +:+ t) = no_char c s && no_char c t.
Proof. induction s as [|a s IH]; simpl; [done|]. by rewrite IH, andb_assoc. Qed.

Lemma window_no_char c w : c = "#"%char \/ c = "@"%char -> no_char c (window_str w) = true.
Proof. intros [-> | ->]; by destruct w. Qed.

(** A last [@] splits a string in one way only. *)
Lemma last_at_unique g g' w w' :
  no_char "@"%char w = true -> no_char "@"%char w' = true ->
  g +:+ "@" +:+ w = g' +:+ "@" +:+ w' -> g = g'.
Proof.
  intros Hw Hw'. revert g'. induction g as [|a g IH]; intros [|b g'] He; simpl in He.
  - done.
  - injection He as _ Hx. change ("" +:+ w) with w in Hx. rewrite Hx, no_char_app in Hw. simpl in Hw.
    by rewrite andb_false_r in Hw.
  - injection He as _ Hx. change ("" +:+ w') with w' in Hx. rewrite <- Hx, no_char_app in Hw'.
    simpl in Hw'. by rewrite andb_false_r in Hw'.
  - injection He as -> He. by rewrite (IH _ He).
Qed.

(** What follows the window word in a bucket id. *)
Definition scope_suffix (s : option ScopeRef) : string :=
  match s with Some s => "#" +:+ kind s +:+ ":" +:+ value s | None => "" end.

Lemma string_app_nil_r s : s +:+ "" = s.
Proof.
  induction s as [|a s IH]; [done|]. change (String a (s +:+ "") = String a s). by rewrite IH.
Qed.

Lemma string_app_assoc s t u : s +:+ t +:+ u = (s +:+ t) +:+ u.
Proof.
  induction s as [|a s IH]; [done|].
  change (String a (s +:+ t +:+ u) = String a ((s +:+ t) +:+ u)). by rewrite IH.
Qed.

Lemma bucket_id_shape g w s :
  bucket_id_of g w s = GROUP_BUCKET_PREFIX +:+ g +:+ "@" +:+ w +:+ scope_suffix s.
Proof. destruct s; unfold bucket_id_of, scope_suffix; simpl; [done|]. by rewrite string_app_nil_r. Qed.

Lemma is_bucket_of_group_spec id g :
  is_bucket_of_group id g = true <->
  exists tail w, id = GROUP_BUCKET_PREFIX +:+ g +:+ "@" +:+ tail
    /\ split_first "#"%char tail = window_str w.
Proof.
  unfold is_bucket_of_group. split.
  - destruct (strip_prefix GROUP_BUCKET_PREFIX id) as [rest|] eqn:E1; cbn [mbind option_bind]; [|done].
    destruct (strip_prefix g rest) as [t|] eqn:E2; cbn [mbind option_bind]; [|done].
    destruct (strip_prefix "@" t) as [tail|] eqn:E3; [|done].
    intros (w & _ & Hw)%existsb_exists. apply String.eqb_eq in Hw. exists tail, w.
    apply strip_prefix_Some in E1 as ->. apply strip_prefix_Some in E2 as ->.
    apply strip_prefix_Some in E3 as ->. done.
  - intros (tail & w & -> & Hw). rewrite strip_prefix_app. cbn [mbind option_bind].
    rewrite strip_prefix_app. cbn [mbind option_bind]. rewrite strip_prefix_app, Hw. by destruct w.
Qed.

(** ** The ancestor path *)

(** The entries from a group up to its root. *)
Inductive lineage (cfg : list (string * GroupCfg)) : string -> list (string * GroupCfg) -> Prop :=
| lineage_root n g :
    (n, g) ∈ cfg -> (forall p, cfg_parent g = Some p -> p ∉ cfg.*1) -> lineage cfg n [(n, g)]
| lineage_step n g p path :
    (n, g) ∈ cfg -> cfg_parent g = Some p -> lineage cfg p path -> lineage cfg n ((n, g) :: path).

(** Parents strictly descend: the configured tree has no cycle. *)
Definition acyclic (cfg : list (string * GroupCfg)) (rank : string -> nat) : Prop :=
  forall n g p, (n, g) ∈ cfg -> cfg_parent g = Some p -> p ∈ cfg.*1 -> (rank p < rank n)%nat.

Lemma lineage_exists cfg rank n :
  acyclic cfg rank -> n ∈ cfg.*1 -> exists path, lineage cfg n path.
Proof.
  intros Hac. remember (rank n) as k eqn:Hk. revert n Hk.
  induction k as [k IH] using lt_wf_ind. intros n -> Hn.
  apply list_elem_of_fmap in Hn as ([n' g] & -> & Hin). simpl in *.
  destruct (cfg_parent g) as [p|] eqn:Hp.
  - destruct (decide (p ∈ cfg.*1)) as [Hpin|Hpin].
    + destruct (IH (rank p) (Hac _ _ _ Hin Hp Hpin) p eq_refl Hpin) as [path Hpath].
      exists ((n', g) :: path). by eapply lineage_step.
    + exists [(n', g)]. apply lineage_root; [done|]. intros p' Hp'. congruence.
  - exists [(n', g)]. apply lineage_root; [done|]. intros p' Hp'. congruence.
Qed.

Lemma lineage_sub cfg n path : lineage cfg n path -> path ⊆ cfg /\ n ∈ cfg.*1.
Proof.
  assert (Hfst : forall n g, (n, g) ∈ cfg -> n ∈ cfg.*1)
    by (intros n0 g Hg; apply list_elem_of_fmap; by exists (n0, g)).
  induction 1 as [n g Hin _|n g p path Hin _ _ [IH _]]; (split; [|by eapply Hfst]).
  - intros x ->%list_elem_of_singleton. done.
  - intros x [->|Hx]%elem_of_cons; [done|by apply IH].
Qed.

Lemma lineage_rank cfg rank n path :
  acyclic cfg rank -> lineage cfg n path ->
  Forall (fun e => (rank e.1 <= rank n)%nat) path /\ NoDup path.*1.
Proof.
  intros Hac. induction 1 as [n g Hin _|n g p path Hin Hp Hpath [IH Hnd]].
  - split; [by constructor|]. apply NoDup_singleton.
  - pose proof (Hac _ _ _ Hin Hp (proj2 (lineage_sub _ _ _ Hpath))) as Hlt. split.
    + constructor; [done|]. eapply Forall_impl; [exact IH|]. intros e He. simpl in *. lia.
    + csimpl. apply NoDup_cons. split; [|done]. intros Hn.
      apply list_elem_of_fmap in Hn as ([n' g'] & -> & He). rewrite Forall_forall in IH.
      specialize (IH _ He). simpl in *. lia.
Qed.

Lemma index_names_spec names n i :
  NoDup names -> index_names names !! n = Some i <-> names !! i = Some n.
Proof.
  intros Hnd. unfold index_names.
  assert (Hfst : (imap (fun i n => (n, i)) names).*1 = names).
  { clear. apply list_eq. intros j. rewrite list_lookup_fmap, list_lookup_imap. by destruct (names !! j). }
  rewrite <- elem_of_list_to_map by (by rewrite Hfst). rewrite elem_of_lookup_imap. split.
  - intros (j & x & Heq & Hx). by injection Heq as -> ->.
  - intros Hi. by exists i, n.
Qed.

(** * the theorems of the limit topology

    Projection, bucket ids and the enforcement chain. *)


(** ** The walk *)

Definition entry_buckets (gidx : gmap string nat) (e : string * GroupCfg) : list ChainBucket :=
  chain_bucket (project_group gidx e) <$> buckets (project_group gidx e).

Section walk.
Context (cfg : list (string * GroupCfg)) (Hnd : NoDup cfg.*1).
Local Notation gidx := (index_names cfg.*1).
Local Notation groups := (project_group gidx <$> cfg).

Lemma gidx_in n : n ∈ cfg.*1 <-> is_Some (gidx !! n).
Proof.
  split.
  - intros [i Hi]%list_elem_of_lookup_1. exists i. by apply index_names_spec.
  - intros [i Hi]. apply index_names_spec in Hi; [|done]. by eapply list_elem_of_lookup_2.
Qed.

Lemma gidx_entry n g i : (n, g) ∈ cfg -> gidx !! n = Some i -> cfg !! i = Some (n, g).
Proof.
  intros Hin Hi. apply index_names_spec in Hi; [|done]. apply list_elem_of_lookup_1 in Hin as [j Hj].
  assert (Hj1 : cfg.*1 !! j = Some n) by (by rewrite list_lookup_fmap, Hj).
  by rewrite (NoDup_lookup _ _ _ _ Hnd Hi Hj1).
Qed.

Lemma gidx_range n i : gidx !! n = Some i -> (i < length cfg)%nat.
Proof.
  intros Hi. apply index_names_spec in Hi; [|done]. apply lookup_lt_Some in Hi.
  by rewrite length_fmap in Hi.
Qed.

Lemma project_parent e : parent (project_group gidx e) = cfg_parent e.2 ≫= fun p => gidx !! p.
Proof. destruct e as [n g]. unfold project_group. by destruct (project_limits n (limits g)). Qed.

(** The walk ends, whatever the parents, after no more steps than there are groups. *)
Lemma walk_total fuel next bs walked :
  (forall i, next = Some i -> (i < length cfg)%nat) -> (length walked <= length cfg)%nat ->
  (length cfg < fuel + length walked)%nat ->
  exists c, walk_chain fuel groups next bs walked = Some c
    /\ (length (chain_groups c) <= length cfg)%nat.
Proof.
  revert next bs walked. induction fuel as [|fuel IH]; intros next bs walked Hn Hw Hf; [lia|].
  destruct next as [i|]; [|by eexists]. cbn [walk_chain]. rewrite length_fmap.
  destruct (length cfg <=? length walked)%nat eqn:E; [by eexists|]. apply Nat.leb_gt in E.
  destruct (lookup_lt_is_Some_2 cfg i (Hn i eq_refl)) as [e He].
  rewrite list_lookup_fmap, He. cbn [fmap option_fmap option_map mbind option_bind]. apply IH.
  - intros j Hj. rewrite project_parent in Hj. apply bind_Some_inv in Hj as (p & _ & Hj).
    by eapply gidx_range.
  - rewrite length_app. simpl. lia.
  - rewrite length_app. simpl. lia.
Qed.

(** On an acyclic tree it is the lineage, to its root. *)
Lemma walk_lineage n path :
  lineage cfg n path -> forall i fuel bs walked,
  gidx !! n = Some i -> (length walked + length path <= length cfg)%nat -> (length path < fuel)%nat ->
  exists ixs, walk_chain fuel groups (Some i) bs walked
      = Some (mkChain (bs ++ concat (entry_buckets gidx <$> path)) (walked ++ ixs))
    /\ (fun j => cfg !! j) <$> ixs = Some <$> path.
Proof.
  induction 1 as [n g Hin Hroot|n g p path Hin Hp Hpath IH]; intros i fuel bs walked Hi Hlen Hf;
    (destruct fuel as [|fuel]; [simpl in Hf; lia|]); cbn [walk_chain]; rewrite length_fmap;
    pose proof (gidx_entry _ _ _ Hin Hi) as He;
    (rewrite (proj2 (Nat.leb_gt _ _)) by (simpl in Hlen; lia));
    rewrite list_lookup_fmap, He; cbn [fmap option_fmap option_map mbind option_bind];
    rewrite project_parent; cbn [snd].
  - assert (cfg_parent g ≫= (fun p => gidx !! p) = None) as ->.
    { destruct (cfg_parent g) as [p|] eqn:Ep; [|done]. cbn. destruct (gidx !! p) eqn:Eg; [|done].
      exfalso. apply (Hroot p eq_refl), gidx_in. eauto. }
    exists [i]. split; [|csimpl; by rewrite He]. destruct fuel; csimpl; by rewrite app_nil_r.
  - rewrite Hp. cbn [mbind option_bind].
    destruct (proj1 (gidx_in p) (proj2 (lineage_sub _ _ _ Hpath))) as [j Hj]. rewrite Hj.
    destruct (IH j fuel (bs ++ entry_buckets gidx (n, g)) (walked ++ [i]) Hj) as (ixs & Hw & His).
    { rewrite length_app. simpl in *. lia. }
    { simpl in Hf. lia. }
    exists (i :: ixs). unfold entry_buckets in Hw at 1. rewrite Hw. csimpl. rewrite His, He.
    split; [|done]. by rewrite <- !app_assoc.
Qed.

Lemma lineage_length rank n path :
  acyclic cfg rank -> lineage cfg n path -> (length path <= length cfg)%nat.
Proof.
  intros Hac Hp. destruct (lineage_rank _ _ _ _ Hac Hp) as [_ Hndp].
  destruct (lineage_sub _ _ _ Hp) as [Hsub _].
  assert (path.*1 ⊆+ cfg.*1) as Hs.
  { apply NoDup_submseteq; [done|]. intros x Hx. apply list_elem_of_fmap in Hx as (e & -> & He).
    apply list_elem_of_fmap. exists e. split; [done|by apply Hsub]. }
  apply submseteq_length in Hs. by rewrite !length_fmap in Hs.
Qed.
End walk.

(** ** Properties *)

(** The projection enforces exactly the tightest configured limit: for every metric, window and
    scope, the bucket's cap is the minimum over the group's limits of that metric, window and scope
    (and there is none if there is no such limit); likewise the in-flight cap; there is one bucket
    per window and scope, under its own ledger id, each holding at least one limit; and a bucket's
    exhaustion behaviour is the one declared by a limit that attains its budget. *)
Theorem projection_keeps_the_tightest gidx n g :
  let r := project_group gidx (n, g) in
  (forall m w s, m <> Concurrent -> bucket_cap m w s (buckets r) = tightest m w s (limits g))
  /\ concurrent_cap r = minimum (concurrent_amounts (limits g))
  /\ NoDup ((fun b => (window b, scope b)) <$> buckets r)
  /\ Forall (fun b => exists w s, window b = window_str w /\ scope b = s
       /\ bucket_id b = bucket_id_of n (window_str w) s
       /\ exists m l, l ∈ limits g /\ governs m w s l = true) (buckets r)
  /\ Forall (governed (limits g)) (buckets r)
  /\ name r = n /\ enabled r = cfg_enabled g.
Proof.
  intros r. destruct (project_limits_spec n (limits g)) as [Hcaps Hconc Hfrom Hnd Hdown].
  unfold r, project_group. destruct (project_limits n (limits g)) as [bs conc]. by split_and!.
Qed.

(** The chain is the whole ancestry, and fails closed: resolving a key never panics and never
    loops, cyclic parents included (at most every group is walked); a key without a group is charged
    to its own bucket alone; a key naming an unknown group is refused under that name; and when the
    parents have no cycle the chain is the key's bucket and then the buckets of every group from
    its own up to the root, in that order, none missing. *)
Theorem chain_is_the_whole_ancestry cfg key :
  NoDup cfg.*1 ->
  let '(groups, gidx) := project_groups cfg in
  (exists r, chain_of groups gidx key = Some r
    /\ forall c, r = Ok c -> (length (chain_groups c) <= length cfg)%nat)
  /\ forall rank, acyclic cfg rank ->
     match key_group key with
     | None => chain_of groups gidx key = Some (Ok (mkChain [key_bucket key] []))
     | Some n =>
         if bool_decide (n ∈ cfg.*1) then
           exists path ixs, lineage cfg n path
             /\ chain_of groups gidx key
                = Some (Ok (mkChain (key_bucket key :: concat (entry_buckets gidx <$> path)) ixs))
             /\ (fun j => cfg !! j) <$> ixs = Some <$> path
         else chain_of groups gidx key = Some (Err n)
     end.
Proof.
  intros Hnd. unfold project_groups, chain_of. rewrite length_fmap.
  destruct (key_group key) as [n|] eqn:Eg.
  2: { split; [|done]. eexists. split; [done|]. intros c [= <-]. simpl. lia. }
  destruct (index_names cfg.*1 !! n) as [i|] eqn:Ei.
  - split.
    + destruct (walk_total cfg Hnd (S (length cfg)) (Some i) [key_bucket key] []) as (c & -> & Hc).
      * intros ? [= <-]. by eapply gidx_range.
      * simpl. lia.
      * simpl. lia.
      * eexists. split; [done|]. by intros ? [= <-].
    + intros rank Hac. assert (Hin : n ∈ cfg.*1) by (apply gidx_in; [done|by eexists]).
      rewrite bool_decide_true by done. destruct (lineage_exists cfg rank n Hac Hin) as [path Hp].
      pose proof (lineage_length cfg rank n path Hac Hp) as Hlen.
      destruct (walk_lineage cfg Hnd n path Hp i (S (length cfg)) [key_bucket key] [] Ei)
        as (ixs & Hw & His); [simpl; lia|lia|].
      exists path, ixs. rewrite Hw. by split_and!.
  - split.
    + eexists. split; [done|]. by intros c [= ].
    + intros rank _. rewrite bool_decide_false; [done|]. intros Hin. apply gidx_in in Hin; [|done].
      rewrite Ei in Hin. by destruct Hin.
Qed.

Definition demo_groups : list (string * GroupCfg) :=
  [("org"%string, mkGroupCfg None true [mkLimit Budget 500 (Some Month) None None None] None);
   ("team"%string, mkGroupCfg (Some "org"%string) true
      [mkLimit Requests 10 (Some Minute) None None None; mkLimit Requests 5 (Some Minute) None None None]
      None)].

Definition demo_key : VirtualKey :=
  mkKey "vk_1" "binding:vk_1:0" "ci" None true 0 (Some "team"%string) [] None None 0.

Lemma demo_acyclic : acyclic demo_groups (fun n => if String.eqb n "team" then 1%nat else 0%nat).
Proof.
  intros n g p Hin Hp _. unfold demo_groups in Hin.
  apply elem_of_cons in Hin as [Hin|[Hin|[]%elem_of_nil]%elem_of_cons]; injection Hin as -> ->;
    simpl in Hp; [done|]. injection Hp as <-. simpl. lia.
Qed.

Lemma chain_is_the_whole_ancestry_witness :
  exists path ixs, lineage demo_groups "team" path
    /\ chain_of (project_groups demo_groups).1 (project_groups demo_groups).2 demo_key
       = Some (Ok (mkChain (key_bucket demo_key
                   :: concat (entry_buckets (project_groups demo_groups).2 <$> path)) ixs)).
Proof.
  destruct (chain_is_the_whole_ancestry demo_groups demo_key) as [_ Hc].
  - apply NoDup_cons. split; [set_solver|apply NoDup_singleton].
  - destruct (Hc _ demo_acyclic) as (path & ixs & Hp & He & _). exists path, ixs. split; [done|exact He].
Defined.

(** A bucket id names its group exactly, as long as group names hold no [#]: an id the projection
    writes for a group is claimed by that group and by no other, in particular when one name
    extends another with an [@] as an e-mail subject does. *)
Theorem bucket_belongs_to_its_group g g' w s :
  no_char "#"%char g = true -> no_char "#"%char g' = true ->
  is_bucket_of_group (bucket_id_of g' (window_str w) s) g = true <-> g = g'.
Proof.
  intros Hg Hg'. rewrite is_bucket_of_group_spec, bucket_id_shape.
  assert (Hsuf : split_first "#"%char (scope_suffix s) = "") by by destruct s.
  split.
  - intros (tail & w' & He & Ht). apply (f_equal (strip_prefix GROUP_BUCKET_PREFIX)) in He.
    rewrite !strip_prefix_app in He. injection He as He.
    apply (f_equal (split_first "#"%char)) in He.
    rewrite (split_first_app _ g') in He by done. rewrite (split_first_app _ g) in He by done.
    rewrite (split_first_app _ "@") in He by done. rewrite (split_first_app _ "@") in He by done.
    rewrite (split_first_app _ (window_str w)) in He by (apply window_no_char; by left).
    rewrite Hsuf, string_app_nil_r, Ht in He. symmetry in He.
    eapply last_at_unique; [| |exact He]; apply window_no_char; by right.
  - intros ->. exists (window_str w +:+ scope_suffix s), w. split; [done|].
    rewrite split_first_app by (apply window_no_char; by left). by rewrite Hsuf, string_app_nil_r.
Qed.

Lemma bucket_belongs_to_its_group_witness :
  is_bucket_of_group (bucket_id_of "user:alice@corp.com" (window_str Total) None) "user:alice" <> true.
Proof.
  intros H. by apply (bucket_belongs_to_its_group "user:alice" "user:alice@corp.com" Total None) in H.
Defined.

(** The match is ambiguous once a name holds a [#]: whatever the group, the group whose name adds
    [@], a window word and [#] to it has its own, different ledger buckets claimed by the first -
    so reclaiming the cells of the first one, when it is deleted, drops the spend of the second. *)
Theorem hash_names_are_confused g w w' rest s :
  let g' := g +:+ "@" +:+ window_str w +:+ "#" +:+ rest in
  g' <> g /\ is_bucket_of_group (bucket_id_of g' (window_str w') s) g = true
  /\ is_bucket_of_group (bucket_id_of g' (window_str w') s) g' = true.
Proof.
  intros g'. assert (Hsuf : split_first "#"%char (scope_suffix s) = "") by by destruct s. split_and!.
  - unfold g'. intros He. induction g as [|a g IH]; [done|]. injection He as He. by apply IH.
  - apply is_bucket_of_group_spec. rewrite bucket_id_shape.
    exists (window_str w +:+ "#" +:+ rest +:+ "@" +:+ window_str w' +:+ scope_suffix s), w. split.
    + unfold g'. by rewrite <- !string_app_assoc.
    + rewrite split_first_app by (apply window_no_char; by left). simpl. by rewrite string_app_nil_r.
  - apply is_bucket_of_group_spec. rewrite bucket_id_shape.
    exists (window_str w' +:+ scope_suffix s), w'. split; [done|].
    rewrite split_first_app by (apply window_no_char; by left). by rewrite Hsuf, string_app_nil_r.
Qed.
