(* ===== verification/CostModel.v ===== *)
(** * CostModel: rates, spend and the resolved model (cost.rs)

    Per-token rates in integer nano-units, the spend derived from a token ledger, and the resolved
    model that holds the rate table and the limit topology. A [u128] sum wraps, as in the release
    profile, which leaves overflow checks off. *)

From S2P Require Import Prelude Float64 Breaker Windows Ledger Groups.

Definition NANOS_PER_CENT : Z := 10000000.
Definition NANOS_PER_MICRO : Z := 1000.
Definition U128_MAX : Z := 2 ^ 128 - 1.

(** A [rate_card:] entry, in micro-units per token. *)
Record RateEntryCfg := mkRateCfg {
  input_utok : f64;
  output_utok : f64;
  cache_read_utok : f64;
  cache_write_utok : f64
}.

Record RateNanos := mkRate { r_input : Z; r_output : Z; r_cache_read : Z; r_cache_write : Z }.

Definition nanos (utok : f64) : Z :=
  let v := f64_round (f64_mul utok (f64_of_Z 1000)) in
  if f64_is_finite v && f64_lt f64_zero v then f64_to_u64 v else 0.

Definition from_cfg (r : RateEntryCfg) : RateNanos :=
  mkRate (nanos (input_utok r)) (nanos (output_utok r)) (nanos (cache_read_utok r))
    (nanos (cache_write_utok r)).

Definition cost_nanos (rate : RateNanos) (t : TierTokens) : Z :=
  let a := wrap 128 (t_input t * r_input rate) in
  let a := wrap 128 (a + wrap 128 (t_output t * r_output rate)) in
  let a := wrap 128 (a + wrap 128 (t_cache_read t * r_cache_read rate)) in
  wrap 128 (a + wrap 128 (t_cache_write t * r_cache_write rate)).

Record CostModel := mkModel {
  rates : option (gmap string RateNanos);
  cm_groups : list GroupRuntime;
  cm_group_idx : gmap string nat;
  cm_capped : gset string;
  price_per_request_cents : Z
}.

(** The rate card is a [BTreeMap]: an association list with distinct keys. *)
Definition resolve_parts (rate_card : option (list (string * RateEntryCfg))) (per_request_fee : Z)
    (groups_cfg : list (string * GroupCfg)) : CostModel :=
  let rates := (fun card => list_to_map ((fun mr => (mr.1, from_cfg mr.2)) <$> card)) <$> rate_card in
  let '(groups, group_idx) := project_groups groups_cfg in
  mkModel rates groups group_idx (capped_bucket_ids groups) (Z.max per_request_fee 0).

Definition with_groups (m : CostModel) (groups_cfg : list (string * GroupCfg)) : CostModel :=
  let '(groups, group_idx) := project_groups groups_cfg in
  mkModel (rates m) groups group_idx (capped_bucket_ids groups) (price_per_request_cents m).

Definition bucket_enforces_a_cap (m : CostModel) (id : string) : bool := bool_decide (id ∈ cm_capped m).

Definition resolve_model_alias (m : CostModel) (model : string) : string := model.

Definition pricing_enabled (m : CostModel) : bool := bool_decide (is_Some (rates m)).

(** The outer [None] is the panic of an index out of range. *)
Definition group_named (m : CostModel) (name : string) : option (option GroupRuntime) :=
  match cm_group_idx m !! name with
  | None => Some None
  | Some i => g ← cm_groups m !! i; Some (Some g)
  end.

Definition rate_zero : RateNanos := mkRate 0 0 0 0.

Definition rate_for (m : CostModel) (model : string) : option RateNanos :=
  match rates m with
  | None => Some rate_zero
  | Some table => table !! model
  end.

Definition model_unpriced (m : CostModel) (model : string) : bool :=
  match rates m with
  | None => false
  | Some table => negb (bool_decide (is_Some (table !! model)))
  end.

(** The [u128] accumulation, saturating. *)
Definition ledger_nanos (m : CostModel) (models : list (string * TierTokens)) : Z :=
  foldl (fun acc mt => match rate_for m mt.1 with
                       | Some rate => Z.min (acc + cost_nanos rate mt.2) U128_MAX
                       | None => acc
                       end) 0 models.

Definition derive_spend_cents (m : CostModel) (models : list (string * TierTokens)) (fee_requests : Z)
    (include_request_fee : bool) : Z :=
  let cents := i64_or_max (ledger_nanos m models / NANOS_PER_CENT) in
  let cents :=
    if include_request_fee then
      let fee := clamp_i64 (price_per_request_cents m * i64_or_max fee_requests) in
      clamp_i64 (cents + fee)
    else cents in
  Z.max cents 0.

Definition derive_spend_micros (m : CostModel) (models : list (string * TierTokens)) (fee_requests : Z)
    (include_request_fee : bool) : Z :=
  let micros := i64_or_max (ledger_nanos m models / NANOS_PER_MICRO) in
  if include_request_fee then
    let fee_micros := clamp_i64 (clamp_i64 (price_per_request_cents m * 10000) * i64_or_max fee_requests) in
    clamp_i64 (micros + fee_micros)
  else micros.

Definition chain_for (m : CostModel) (key : VirtualKey) : option (Result Chain string) :=
  chain_of (cm_groups m) (cm_group_idx m) key.

(** ** Lemmas *)

Definition rate_ok (r : RateNanos) : Prop :=
  is_u64 (r_input r) /\ is_u64 (r_output r) /\ is_u64 (r_cache_read r) /\ is_u64 (r_cache_write r).

Definition tokens_ok (t : TierTokens) : Prop :=
  is_u64 (t_input t) /\ is_u64 (t_output t) /\ is_u64 (t_cache_read t) /\ is_u64 (t_cache_write t).

(** The cost without the machine width. *)
Definition exact_cost (rate : RateNanos) (t : TierTokens) : Z :=
  t_input t * r_input rate + t_output t * r_output rate + t_cache_read t * r_cache_read rate
  + t_cache_write t * r_cache_write rate.

Lemma cost_nanos_wraps rate t : cost_nanos rate t = wrap 128 (exact_cost rate t).
Proof.
  unfold cost_nanos, exact_cost, wrap.
  repeat (rewrite Zplus_mod_idemp_r || rewrite Zplus_mod_idemp_l).
  rewrite <- (Z.add_assoc (_ mod _)), Zplus_mod_idemp_l. f_equal. lia.
Qed.

Lemma exact_cost_nonneg rate t : rate_ok rate -> tokens_ok t -> 0 <= exact_cost rate t.
Proof. unfold rate_ok, tokens_ok, exact_cost, is_u64. intros. nia. Qed.

Lemma f64_to_u64_range a : is_u64 (f64_to_u64 a).
Proof.
  unfold is_u64, f64_to_u64, U64_MAX. destruct a as [| [] | |[] m e]; try lia.
  split; [|lia]. apply Z.min_glb; [lia|]. destruct (0 <=? e) eqn:E; zbool.
  - apply Z.mul_nonneg_nonneg; [lia|]. apply Z.pow_nonneg. lia.
  - apply Z.div_pos; [lia|]. apply Z.pow_pos_nonneg; lia.
Qed.

Lemma from_cfg_ok r : rate_ok (from_cfg r).
Proof.
  assert (Hn : forall u, is_u64 (nanos u)).
  { intros u. unfold nanos. destruct (_ && _); [apply f64_to_u64_range|]. unfold is_u64, U64_MAX. lia. }
  unfold rate_ok, from_cfg. simpl. split_and!; apply Hn.
Qed.

(** The exact cost of a ledger: an unpriced model costs nothing. *)
Definition exact_ledger (m : CostModel) (models : list (string * TierTokens)) : Z :=
  Zsum ((fun mt => match rate_for m mt.1 with Some r => exact_cost r mt.2 | None => 0 end) <$> models).

Definition model_ok (m : CostModel) : Prop :=
  (forall model r, rate_for m model = Some r -> rate_ok r) /\ 0 <= price_per_request_cents m <= I64_MAX.

(** Each model's cost fits 128 bits. *)
Definition costs_fit (m : CostModel) (models : list (string * TierTokens)) : Prop :=
  Forall (fun mt => tokens_ok mt.2 /\ forall r, rate_for m mt.1 = Some r -> exact_cost r mt.2 <= U128_MAX)
    models.

Lemma ledger_nanos_exact m models acc :
  model_ok m -> costs_fit m models -> 0 <= acc ->
  foldl (fun acc mt => match rate_for m mt.1 with
                       | Some rate => Z.min (acc + cost_nanos rate mt.2) U128_MAX
                       | None => acc
                       end) (Z.min acc U128_MAX) models
  = Z.min (acc + exact_ledger m models) U128_MAX.
Proof.
  intros Hm Hf. revert acc. induction Hf as [|[mo t] models [Ht Hc] _ IH]; intros acc Hacc.
  { simpl. f_equal. unfold exact_ledger. simpl. lia. }
  unfold exact_ledger in *. csimpl. destruct (rate_for m mo) as [r|] eqn:Er.
  - pose proof (exact_cost_nonneg r t (proj1 Hm _ _ Er) Ht) as Hpos. specialize (Hc r Er).
    simpl in Hc. rewrite cost_nanos_wraps, wrap_small by (unfold U128_MAX in *; lia).
    assert (Z.min (Z.min acc U128_MAX + exact_cost r t) U128_MAX = Z.min (acc + exact_cost r t) U128_MAX)
      as -> by (unfold U128_MAX; lia).
    rewrite IH by lia. lia.
  - rewrite IH by lia. lia.
Qed.

Lemma saturating_fee price reqs c :
  0 <= price <= I64_MAX -> 0 <= reqs -> 0 <= c ->
  clamp_i64 (i64_or_max c + clamp_i64 (price * i64_or_max reqs)) = Z.min (c + price * reqs) I64_MAX.
Proof.
  intros Hp Hr Hc. unfold clamp_i64, i64_or_max, I64_MAX, I64_MIN in *.
  destruct (c <=? _) eqn:E1; destruct (reqs <=? _) eqn:E2; zbool; try nia.
  all: destruct (Z.eq_dec price 0) as [->|]; [lia|nia].
Qed.

(** ** Properties *)

(** Spend is the exact arithmetic, saturated: as long as each model's own cost fits 128 bits, the
    derived spend of a ledger is the sum over its models of tokens times rate over every tier, in whole
    cents, plus the flat fee for each billable request, capped at the largest [i64] - so it is never
    negative, never decreases as the ledger grows, and an over-the-top ledger blocks instead of wrapping to free. *)
Theorem spend_is_exact m models fee_requests :
  model_ok m -> costs_fit m models -> is_u64 fee_requests ->
  derive_spend_cents m models fee_requests true
    = Z.min (exact_ledger m models / NANOS_PER_CENT + price_per_request_cents m * fee_requests) I64_MAX
  /\ derive_spend_cents m models fee_requests false
    = Z.min (exact_ledger m models / NANOS_PER_CENT) I64_MAX.
Proof.
  intros Hm Hf [Hr _]. pose proof (ledger_nanos_exact m models 0 Hm Hf ltac:(lia)) as Hn.
  change (Z.min 0 U128_MAX) with 0 in Hn. fold (ledger_nanos m models) in Hn. rewrite Z.add_0_l in Hn.
  assert (Hpos : 0 <= exact_ledger m models).
  { apply Zsum_nonneg. apply Forall_fmap. eapply Forall_impl; [exact Hf|]. intros [mo t] [Ht Hc]. simpl.
    destruct (rate_for m mo) eqn:Er; [|lia]. apply exact_cost_nonneg; [by eapply Hm|done]. }
  assert (Hdiv : Z.min (ledger_nanos m models / NANOS_PER_CENT) I64_MAX
                 = Z.min (exact_ledger m models / NANOS_PER_CENT) I64_MAX
                 /\ 0 <= ledger_nanos m models / NANOS_PER_CENT
                 /\ 0 <= exact_ledger m models / NANOS_PER_CENT).
  { rewrite Hn. unfold NANOS_PER_CENT. split; [|split; apply Z.div_pos; unfold U128_MAX; lia].
    destruct (Z.min_spec (exact_ledger m models) U128_MAX) as [[_ ->]|[Hle ->]]; [done|].
    assert (I64_MAX <= U128_MAX / 10000000) as Hu by (apply Z.div_le_lower_bound; unfold I64_MAX, U128_MAX; lia).
    pose proof (Z.div_le_mono _ _ 10000000 ltac:(lia) Hle). lia. }
  destruct Hdiv as (Hdiv & Hq & Hq'). unfold derive_spend_cents. destruct Hm as [_ Hp].
  split.
  - rewrite saturating_fee by lia. assert (0 <= price_per_request_cents m * fee_requests) by nia.
    unfold I64_MAX in *. lia.
  - unfold i64_or_max. destruct (_ <=? I64_MAX) eqn:E; zbool; unfold I64_MAX in *; lia.
Qed.

Definition demo_rate (n : Z) : RateEntryCfg := mkRateCfg (f64_of_Z n) (f64_of_Z n) (f64_of_Z n) (f64_of_Z n).

Definition demo_model : CostModel := resolve_parts (Some [("gpt-4o"%string, demo_rate 3)]) 2 [].

Lemma spend_is_exact_witness :
  derive_spend_cents demo_model [("gpt-4o"%string, mkTokens 1000000 500000 0 0)] 7 true
  = 450 + 2 * 7.
Proof.
  destruct (spend_is_exact demo_model [("gpt-4o"%string, mkTokens 1000000 500000 0 0)] 7) as [-> _].
  - split; [|by vm_compute]. intros model r Hr. unfold rate_for in Hr. simpl in Hr.
    apply lookup_singleton_Some in Hr as [_ <-]. apply from_cfg_ok.
  - apply Forall_singleton. split; [by vm_compute|]. intros r Hr. vm_compute in Hr. injection Hr as <-.
    by vm_compute.
  - by vm_compute.
  - by vm_compute.
Defined.

(** The sum of the four tier costs is not protected: with rates a valid card can state and counts
    the ledger can hold, a model whose exact cost exceeds every budget derives a spend of zero. *)
Theorem tier_sum_can_wrap_to_free :
  exists r t, f64_is_finite (input_utok r) = true /\ f64_le f64_zero (input_utok r) = true
    /\ tokens_ok t
    /\ let m := resolve_parts (Some [("big"%string, r)]) 0 [] in
       model_ok m /\ I64_MAX < exact_ledger m [("big"%string, t)] / NANOS_PER_CENT
       /\ derive_spend_cents m [("big"%string, t)] 0 true = 0.
Proof.
  exists (demo_rate 9223372036854776), (mkTokens (2 ^ 63) (2 ^ 63) (2 ^ 63) (2 ^ 63)).
  split; [by vm_compute|]. split; [by vm_compute|]. split; [by split_and!|]. intros m.
  split; [|split; by vm_compute]. split; [|done]. intros model r Hr. unfold rate_for in Hr. simpl in Hr.
  apply lookup_singleton_Some in Hr as [_ <-]. apply from_cfg_ok.
Qed.
