(* ===== verification/Governance.v ===== *)
(** * Governance: the in-memory limit ledger and its admission (governance/mod.rs, governance/state.rs)

    The sharded budget cells, the in-flight gauges, the atomic chain admission with its refund and
    accrual, the write-behind flush to the durable store and the boot hydration, metering and the
    derived reads. A [HashMap] is a finite map; [None] is a panic. Each function is one run of the
    code on the state; [GovRuns] runs its operations as the atomic steps of concurrent requests. *)

From stdpp Require Import sorting.
From S2P Require Import Prelude Breaker Windows Ledger Groups CostModel.

(** ** The durable store, as the engine sees it

    The parts of the [Store] trait the ledger calls. The laws are its documentation: [add_usage]
    adds its delta to that one ledger and to no other, and a call that fails has no effect. *)

Class DurableStore (St : Type) := {
  store_ledger : St -> string -> Z -> UsageLedger;
  store_get_usage : string -> Z -> St -> Result UsageLedger string * St;
  store_add_usage : string -> Z -> UsageDelta -> St -> Result unit string * St;
  store_add_metering : MeteringDelta -> St -> Result unit string * St;
  store_list_keys : St -> Result (list VirtualKey) string * St;
  store_get_key : string -> St -> Result (option VirtualKey) string * St;
  get_usage_reads : forall b w s, (store_get_usage b w s).1 = Ok (store_ledger s b w)
    \/ exists e, (store_get_usage b w s).1 = Err e;
  get_usage_keeps : forall b w s b' w', store_ledger (store_get_usage b w s).2 b' w' = store_ledger s b' w';
  list_keys_keeps : forall s b w, store_ledger (store_list_keys s).2 b w = store_ledger s b w;
  get_key_keeps : forall id s b w, store_ledger (store_get_key id s).2 b w = store_ledger s b w;
  add_metering_keeps : forall d s b w, store_ledger (store_add_metering d s).2 b w = store_ledger s b w;
  add_usage_adds : forall b w d s b' w',
    store_ledger (store_add_usage b w d s).2 b' w' =
    match (store_add_usage b w d s).1 with
    | Ok _ => if bool_decide ((b', w') = (b, w)) then apply_delta (store_ledger s b w) d
              else store_ledger s b' w'
    | Err _ => store_ledger s b' w'
    end
}.

(** ** Budget cells *)

Record ModelCell := mkModelCell { mc_model : string; mc_cur : TierTokens; mc_flushed : TierTokens }.

Record BudgetCell := mkCell {
  window_start : Z;
  bc_requests : Z;
  bc_billable : Z;
  flushed_requests : Z;
  flushed_billable : Z;
  bc_models : list ModelCell;
  dirty : bool;
  last_touch : Z
}.

Definition cell_fresh (window : Z) : BudgetCell := mkCell window 0 0 0 0 [] false 0.

Definition add_tokens (t u : TierTokens) : TierTokens :=
  mkTokens (t_input t +sat t_input u) (t_output t +sat t_output u)
    (t_cache_read t +sat t_cache_read u) (t_cache_write t +sat t_cache_write u).

(** The first cell of that model is updated; a new one is pushed at the end. *)
Fixpoint accrue_models (model : string) (t : TierTokens) (ms : list ModelCell) : list ModelCell :=
  match ms with
  | [] => [mkModelCell model (add_tokens TierTokens_default t) TierTokens_default]
  | m :: ms =>
      if String.eqb (mc_model m) model
      then mkModelCell (mc_model m) (add_tokens (mc_cur m) t) (mc_flushed m) :: ms
      else m :: accrue_models model t ms
  end.

Definition set_models (ms : list ModelCell) (c : BudgetCell) : BudgetCell :=
  mkCell (window_start c) (bc_requests c) (bc_billable c) (flushed_requests c) (flushed_billable c) ms
    (dirty c) (last_touch c).

Definition cell_accrue (model : string) (t : TierTokens) (c : BudgetCell) : BudgetCell :=
  set_models (accrue_models model t (bc_models c)) c.

Definition model_views (c : BudgetCell) : list (string * TierTokens) :=
  (fun m => (mc_model m, mc_cur m)) <$> bc_models c.

Definition model_alive (m : ModelCell) : bool :=
  negb (total (mc_cur m) =? 0) || negb (total (mc_flushed m) =? 0).

Definition prune_dead_models (c : BudgetCell) : BudgetCell :=
  set_models (filter (fun m => Is_true (model_alive m)) (bc_models c)) c.

Definition cell_total_tokens (c : BudgetCell) : Z :=
  foldl (fun acc m => acc +sat total (mc_cur m)) 0 (bc_models c).

(** Dirty, and stamped as touched. *)
Definition touch (now : Z) (c : BudgetCell) : BudgetCell :=
  mkCell (window_start c) (bc_requests c) (bc_billable c) (flushed_requests c) (flushed_billable c)
    (bc_models c) true now.

Definition charge (c : BudgetCell) : BudgetCell :=
  mkCell (window_start c) (bc_requests c +sat 1) (bc_billable c +sat 1) (flushed_requests c)
    (flushed_billable c) (bc_models c) (dirty c) (last_touch c).

Definition uncharge (c : BudgetCell) : BudgetCell :=
  mkCell (window_start c) (bc_requests c) (bc_billable c -sat 1) (flushed_requests c)
    (flushed_billable c) (bc_models c) true (last_touch c).

(** The cell a charge or an accrual lands on: reset when stale, the live one otherwise. *)
Definition resolve_cell (window : Z) (c : option BudgetCell) : BudgetCell :=
  match c with
  | Some c => if window_start c <? window then cell_fresh window else c
  | None => cell_fresh window
  end.

(** ** Shards *)

Definition GOV_SHARDS : Z := 64.

Record MapShard := mkShard { shard_map : gmap string BudgetCell; sweep_ticker : Z }.

Definition shard_index (key_id : string) : nat := Z.to_nat (Z.land (fnv1a_u64 key_id) (GOV_SHARDS - 1)).

Record MeterCounts := mkCounts {
  mn_requests : Z; mn_input : Z; mn_output : Z; mn_cache_read : Z; mn_cache_write : Z
}.

Definition MeterCounts_default : MeterCounts := mkCounts 0 0 0 0 0.

Abbreviation PendingKey := (string * Z * string * string)%type.

Section gov.
Context {St : Type} `{DurableStore St}.

Record GovState := mkGov {
  g_store : St;
  concurrent : gmap string Z;
  budget : list MapShard;
  pending_metering : gmap PendingKey MeterCounts
}.

Definition GovState_new (st : St) : GovState :=
  mkGov st ∅ (replicate (Z.to_nat GOV_SHARDS) (mkShard ∅ 0)) ∅.

Definition set_store (st : St) (g : GovState) := mkGov st (concurrent g) (budget g) (pending_metering g).
Definition set_concurrent m (g : GovState) := mkGov (g_store g) m (budget g) (pending_metering g).
Definition set_budget b (g : GovState) := mkGov (g_store g) (concurrent g) b (pending_metering g).
Definition set_pending m (g : GovState) := mkGov (g_store g) (concurrent g) (budget g) m.

Definition read_cell (id : string) (g : GovState) : option (option BudgetCell) :=
  s ← budget g !! shard_index id; Some (shard_map s !! id).

(** Under the write guard of the id's shard. *)
Definition write_cell (id : string) (f : gmap string BudgetCell -> gmap string BudgetCell) (g : GovState)
    : option GovState :=
  s ← budget g !! shard_index id;
  Some (set_budget (<[shard_index id := mkShard (f (shard_map s)) (sweep_ticker s)]> (budget g)) g).

(** ** Admission *)

Inductive LimitBlocked :=
  | LB_Limit (group metric : string) (window pool downgrade : option string) (retry_after : option Z)
  | LB_Disabled (group : string)
  | LB_MissingGroup (group : string).

(** The gauges held, by the group they count for. *)
Record AdmitGrant := mkGrant { gauges : list string }.

Definition gauge (group : string) (g : GovState) : Z := default 0 (concurrent g !! group).

(** Dropping a grant releases each gauge it holds. *)
Definition drop_grant (grant : AdmitGrant) (g : GovState) : GovState :=
  foldl (fun g name => set_concurrent (<[name := wrap_i64 (gauge name g - 1)]> (concurrent g)) g) g
    (gauges grant).

(** The compare-and-increment of one gauge, materialised on first sight. *)
Definition try_hold (group : string) (cap : Z) (g : GovState) : bool * GovState :=
  let v := gauge group g in
  let g := set_concurrent (<[group := v]> (concurrent g)) g in
  if v <? i64_or_max cap then (true, set_concurrent (<[group := v + 1]> (concurrent g)) g) else (false, g).

(** The freeze check: the first disabled group of the chain. *)
Fixpoint first_disabled (groups : list GroupRuntime) (ixs : list nat) : option (option string) :=
  match ixs with
  | [] => Some None
  | gi :: ixs =>
      gr ← groups !! gi;
      if negb (enabled gr) then Some (Some (name gr)) else first_disabled groups ixs
  end.

(** The holds, innermost first: the grant, or the group whose gauge is full. *)
Fixpoint hold_all (groups : list GroupRuntime) (ixs : list nat) (grant : AdmitGrant) (g : GovState)
    : option (Result AdmitGrant string * GovState) :=
  match ixs with
  | [] => Some (Ok grant, g)
  | gi :: ixs =>
      gr ← groups !! gi;
      match concurrent_cap gr with
      | None => hold_all groups ixs grant g
      | Some cap =>
          let (got, g) := try_hold (name gr) cap g in
          if (got : bool) then hold_all groups ixs (mkGrant (gauges grant ++ [name gr])) g
          else Some (Err (name gr), drop_grant grant g)
      end
  end.

Definition still_enforces_a_cap (cost : CostModel) (bucket_id : string) : bool :=
  bucket_enforces_a_cap cost bucket_id.

Definition cell_kept (cost : CostModel) (now : Z) (id : string) (c : BudgetCell) : bool :=
  let max_window := 31 * SECS_PER_DAY in
  if negb (window_start c =? 0) then now <? window_start c +sat max_window
  else still_enforces_a_cap cost id || dirty c || (now <? last_touch c +sat max_window).

Definition sweep_map (cost : CostModel) (now : Z) (m : gmap string BudgetCell) : gmap string BudgetCell :=
  prune_dead_models <$> filter (fun ic => Is_true (cell_kept cost now ic.1 ic.2)) m.

(** [u32::is_multiple_of] *)
Definition is_multiple_of (a b : Z) : bool := if b =? 0 then a =? 0 else a mod b =? 0.

(** The guard of a shard, with its amortised sweep. *)
Definition acquire_shard (cost : CostModel) (now interval : Z) (sh : nat) (g : GovState) : option GovState :=
  s ← budget g !! sh;
  let t := wrap 32 (sweep_ticker s + 1) in
  let m := if is_multiple_of t interval then sweep_map cost now (shard_map s) else shard_map s in
  Some (set_budget (<[sh := mkShard m t]> (budget g)) g).

(** Equal neighbours of a sorted list merged. *)
Fixpoint dedup (prev : option nat) (l : list nat) : list nat :=
  match l with
  | [] => []
  | x :: l => if bool_decide (prev = Some x) then dedup prev l else x :: dedup (Some x) l
  end.

(** The order the guards are taken in. *)
Definition lock_order (ids : list string) : list nat :=
  dedup None (merge_sort Nat.le (shard_index <$> ids)).

Fixpoint acquire_all (cost : CostModel) (now interval : Z) (order : list nat) (g : GovState)
    : option GovState :=
  match order with
  | [] => Some g
  | sh :: order => g ← acquire_shard cost now interval sh g; acquire_all cost now interval order g
  end.

(** The guard that holds a bucket's shard. *)
Definition guard_for (shards : list nat) (target : nat) : option nat :=
  fst <$> list_find (fun sh => sh = target) shards.

Definition over (cap : option Z) (f : Z -> bool) : bool :=
  match cap with Some cap => f cap | None => false end.

(** The metric that blocks a bucket, given its live counters. *)
Definition blocked_metric (fee : Z) (b : ChainBucket) (requests tokens derived : Z) : option string :=
  if over (cb_requests_cap b) (fun cap => cap <? requests +sat 1) then Some "requests"
  else if over (cb_tokens_cap b) (fun cap => cap <=? tokens) then Some "tokens"
  else if over (cb_budget_cap b) (fun cap => (cap <=? derived) || (cap <? clamp_i64 (derived + fee)))
  then Some "budget"
  else None.

(** The counters the check reads: those of the live cell, none of a stale or absent one. *)
Definition live_counters (cost : CostModel) (b : ChainBucket) (window : Z) (c : option BudgetCell)
    : Z * Z * Z :=
  match c with
  | Some c =>
      if window <=? window_start c then
        (bc_requests c,
         (if bool_decide (is_Some (cb_tokens_cap b)) then cell_total_tokens c else 0),
         (if bool_decide (is_Some (cb_budget_cap b))
          then derive_spend_cents cost (model_views c) (bc_billable c) true else 0))
      else (0, 0, 0)
  | None => (0, 0, 0)
  end.

Definition chain_bucket_capped (b : ChainBucket) : bool :=
  bool_decide (is_Some (cb_requests_cap b)) || bool_decide (is_Some (cb_tokens_cap b))
  || bool_decide (is_Some (cb_budget_cap b)).

(** One bucket of the check pass; the rejection it builds. *)
Definition check_bucket (cost : CostModel) (now : Z) (order : list nat) (b : ChainBucket) (g : GovState)
    : option (option LimitBlocked) :=
  if negb (chain_bucket_capped b) then Some None else
  gi ← guard_for order (shard_index (cb_id b));
  sh ← order !! gi;
  s ← budget g !! sh;
  let window := budget_window (cb_window b) now in
  let '(requests, tokens, derived) := live_counters cost b window (shard_map s !! cb_id b) in
  match blocked_metric (price_per_request_cents cost) b requests tokens derived with
  | None => Some None
  | Some metric =>
      group ← cb_group b;
      Some (Some (LB_Limit group metric (Some (cb_window b)) (value <$> cb_scope b)
        (if String.eqb metric "budget" then value <$> cb_downgrade_to b else None)
        ((fun e => Z.max (e -sat now) 1) <$> window_end (cb_window b) now)))
  end.

Fixpoint check_all (cost : CostModel) (now : Z) (order : list nat) (bs : list ChainBucket) (g : GovState)
    : option (option LimitBlocked) :=
  match bs with
  | [] => Some None
  | b :: bs =>
      r ← check_bucket cost now order b g;
      match r with Some blocked => Some (Some blocked) | None => check_all cost now order bs g end
  end.

(** One bucket of the charge pass. *)
Definition charge_bucket (now : Z) (order : list nat) (b : ChainBucket) (g : GovState) : option GovState :=
  gi ← guard_for order (shard_index (cb_id b));
  sh ← order !! gi;
  s ← budget g !! sh;
  let window := budget_window (cb_window b) now in
  let c := touch now (charge (resolve_cell window (shard_map s !! cb_id b))) in
  Some (set_budget (<[sh := mkShard (<[cb_id b := c]> (shard_map s)) (sweep_ticker s)]> (budget g)) g).

Fixpoint charge_all (now : Z) (order : list nat) (bs : list ChainBucket) (g : GovState) : option GovState :=
  match bs with
  | [] => Some g
  | b :: bs => g ← charge_bucket now order b g; charge_all now order bs g
  end.

(** The windowed limits: one critical section under every involved guard. *)
Definition admit_windowed (cost : CostModel) (now interval : Z) (bs : list ChainBucket) (g : GovState)
    : option (option LimitBlocked * GovState) :=
  let order := lock_order (cb_id <$> bs) in
  g ← acquire_all cost now interval order g;
  r ← check_all cost now order bs g;
  match r with
  | Some blocked => Some (Some blocked, g)
  | None => g ← charge_all now order bs g; Some (None, g)
  end.

Definition buckets_for (chain : Chain) (pool : string) : list ChainBucket :=
  filter (fun b => Is_true (applies_to_pool b pool)) (chain_buckets chain).

Definition try_admit (cost : CostModel) (key : VirtualKey) (pool : string) (now interval : Z) (g : GovState)
    : option (Result AdmitGrant LimitBlocked * GovState) :=
  r ← chain_for cost key;
  match r with
  | Err missing => Some (Err (LB_MissingGroup missing), g)
  | Ok chain =>
      let bs := buckets_for chain pool in
      d ← first_disabled (cm_groups cost) (chain_groups chain);
      match d with
      | Some group => Some (Err (LB_Disabled group), g)
      | None =>
          '(held, g) ← hold_all (cm_groups cost) (chain_groups chain) (mkGrant []) g;
          match held with
          | Err group => Some (Err (LB_Limit group "concurrent" None None None None), g)
          | Ok grant =>
              '(blocked, g) ← admit_windowed cost now interval bs g;
              match blocked with
              | Some blocked => Some (Err blocked, drop_grant grant g)
              | None => Some (Ok grant, g)
              end
          end
      end
  end.

(** ** Refund and accrual *)

Definition refund_bucket (bucket_id budget_period : string) (now : Z) (g : GovState) : option GovState :=
  let window := budget_window budget_period now in
  write_cell bucket_id
    (fun m => match m !! bucket_id with
              | Some c => if window_start c =? window then <[bucket_id := uncharge c]> m else m
              | None => m
              end) g.

(** Run over the buckets, in chain order. *)
Fixpoint for_buckets (f : ChainBucket -> GovState -> option GovState) (bs : list ChainBucket) (g : GovState)
    : option GovState :=
  match bs with
  | [] => Some g
  | b :: bs => g ← f b g; for_buckets f bs g
  end.

Definition refund_request (cost : CostModel) (key : VirtualKey) (pool : string) (now : Z) (g : GovState)
    : option GovState :=
  r ← chain_for cost key;
  match r with
  | Err _ => refund_bucket (key_id key) WINDOW_TOTAL now g
  | Ok chain => for_buckets (fun b => refund_bucket (cb_id b) (cb_window b) now) (buckets_for chain pool) g
  end.

Definition accrue_bucket (bucket_id budget_period model : string) (tokens : TierTokens) (now : Z)
    (g : GovState) : option GovState :=
  let window := budget_window budget_period now in
  write_cell bucket_id
    (fun m => <[bucket_id := touch now (cell_accrue model tokens (resolve_cell window (m !! bucket_id)))]> m) g.

Definition record_usage (cost : CostModel) (key : VirtualKey) (pool model : string) (tokens : TierTokens)
    (now : Z) (g : GovState) : option GovState :=
  if is_zero tokens then Some g else
  r ← chain_for cost key;
  match r with
  | Err _ => accrue_bucket (key_id key) WINDOW_TOTAL model tokens now g
  | Ok chain =>
      for_buckets (fun b => accrue_bucket (cb_id b) (cb_window b) model tokens now) (buckets_for chain pool) g
  end.

(** Every shard loses the cells of the group. *)
Definition reclaim_group_cells (group : string) (g : GovState) : Z * GovState :=
  let keep := fun ic : string * BudgetCell => Is_true (negb (is_bucket_of_group ic.1 group)) in
  let shards := (fun s => mkShard (filter keep (shard_map s)) (sweep_ticker s)) <$> budget g in
  (Zsum (zip_with (fun s s' => Z.of_nat (size (shard_map s)) - Z.of_nat (size (shard_map s'))) (budget g) shards),
   set_budget shards g).
End gov.
Arguments GovState : clear implicits.
