(* ===== verification/GovStore.v ===== *)
(** * GovStore: the ledger and the durable store (governance/state.rs)

    The write-behind flush, the boot hydration, the metering accumulator and the derived reads of
    [Governance]'s state. The flush runs while requests do: other threads act before every shard's
    snapshot, every store call and every acknowledgement, as an environment. *)

From S2P Require Import Prelude Breaker Windows Ledger Groups CostModel Governance.

Definition METERING_BUCKET_SECS : Z := 86400.

Definition metering_bucket (now : Z) : Z := now - now mod METERING_BUCKET_SECS.

(** A derived usage view. *)
Record DerivedUsage := mkDerived { spend_cents : Z; du_tokens : Z; du_requests : Z }.

(** The hook-seam view of one bucket (api/hooks.rs). *)
Record BudgetBucketState := mkBucketState {
  bs_bucket_id : string;
  budget_group : option string;
  bs_pool : option string;
  spend_micros_at_current_rate : Z;
  remaining_micros : option Z;
  bs_window_start : Z;
  budget_period : string
}.

Record DirtySnap := mkSnap {
  snap_bucket_id : string;
  snap_window : Z;
  snap_delta : UsageDelta;
  cur_requests : Z;
  cur_billable : Z;
  cur_models : list (string * TierTokens)
}.

Definition tier_delta (cur flushed : TierTokens) : TierTokensDelta :=
  mkTierDelta (i64_or_max (t_input cur) - i64_or_max (t_input flushed))
    (i64_or_max (t_output cur) - i64_or_max (t_output flushed))
    (i64_or_max (t_cache_read cur) - i64_or_max (t_cache_read flushed))
    (i64_or_max (t_cache_write cur) - i64_or_max (t_cache_write flushed)).

Definition model_delta (m : ModelCell) : option ModelTokensDelta :=
  let d := tier_delta (mc_cur m) (mc_flushed m) in
  if tier_delta_is_zero d then None else Some (mkModelDelta (mc_model m) d).

Definition cell_delta (c : BudgetCell) : UsageDelta :=
  mkUsageDelta (i64_or_max (bc_requests c) - i64_or_max (flushed_requests c))
    (i64_or_max (bc_billable c) - i64_or_max (flushed_billable c)) (omap model_delta (bc_models c)).

Definition snapshot_cell (id : string) (c : BudgetCell) : DirtySnap :=
  mkSnap id (window_start c) (cell_delta c) (bc_requests c) (bc_billable c) (model_views c).

Definition set_dirty (d : bool) (c : BudgetCell) : BudgetCell :=
  mkCell (window_start c) (bc_requests c) (bc_billable c) (flushed_requests c) (flushed_billable c)
    (bc_models c) d (last_touch c).

(** The first cell of that model is acknowledged at [cur]. *)
Fixpoint ack_model (model : string) (cur : TierTokens) (ms : list ModelCell) : list ModelCell :=
  match ms with
  | [] => []
  | m :: ms =>
      if String.eqb (mc_model m) model then mkModelCell (mc_model m) (mc_cur m) cur :: ms
      else m :: ack_model model cur ms
  end.

Definition ack_cell (snap : DirtySnap) (c : BudgetCell) : BudgetCell :=
  mkCell (window_start c) (bc_requests c) (bc_billable c) (cur_requests snap) (cur_billable snap)
    (foldl (fun ms mt => ack_model mt.1 mt.2 ms) (bc_models c) (cur_models snap)) (dirty c) (last_touch c).

Definition add_counts (e n : MeterCounts) : MeterCounts :=
  mkCounts (mn_requests e +sat mn_requests n) (mn_input e +sat mn_input n) (mn_output e +sat mn_output n)
    (mn_cache_read e +sat mn_cache_read n) (mn_cache_write e +sat mn_cache_write n).

Definition usage_counts (u : option IrUsage) : MeterCounts :=
  match u with
  | Some u => mkCounts 1 (input_tokens u) (output_tokens u) (default 0 (cache_read_input_tokens u))
                (default 0 (cache_creation_input_tokens u))
  | None => mkCounts 1 0 0 0 0
  end.

Definition counts_zero (n : MeterCounts) : bool :=
  (mn_requests n =? 0) && (mn_input n =? 0) && (mn_output n =? 0) && (mn_cache_read n =? 0)
  && (mn_cache_write n =? 0).

Definition metering_delta (k : PendingKey) (n : MeterCounts) : MeteringDelta :=
  let '(key_id, bucket, model, provider) := k in
  mkMeteringDelta key_id bucket model provider (mn_input n) (mn_output n) (mn_cache_read n)
    (mn_cache_write n) (mn_requests n) (mn_requests n) "" "".

Definition hydrated_cell (window now : Z) (l : UsageLedger) : BudgetCell :=
  mkCell window (ul_requests l) (ul_billable_requests l) (ul_requests l) (ul_billable_requests l)
    ((fun m => mkModelCell (mt_model m) (mt_tokens m) (mt_tokens m)) <$> ul_models l) false now.

Section store.
Context {St : Type} `{DurableStore St}.
Implicit Types g : GovState St.

(** ** Flush *)

(** One shard's dirty cells, and the shard with their flags cleared. *)
Definition snapshot_shard (s : MapShard) : list DirtySnap * MapShard :=
  ((fun ic => snapshot_cell ic.1 ic.2) <$> filter (fun ic => Is_true (dirty ic.2)) (map_to_list (shard_map s)),
   mkShard ((fun c => if dirty c then set_dirty false c else c) <$> shard_map s) (sweep_ticker s)).

(** The snapshot, one shard after the other; each is locked alone. *)
Fixpoint snapshot_shards (env : nat -> GovState St -> GovState St) (shs : list nat) (acc : list DirtySnap) g
    : option (list DirtySnap * GovState St) :=
  match shs with
  | [] => Some (acc, g)
  | sh :: shs =>
      let g := env 0%nat g in
      s ← budget g !! sh;
      let (snaps, s) := snapshot_shard s in
      snapshot_shards (fun k => env (S k)) shs (acc ++ snaps) (set_budget (<[sh := s]> (budget g)) g)
  end.

(** Under the guard, if the cell still has the snapshot's window. *)
Definition settle (snap : DirtySnap) (f : BudgetCell -> BudgetCell) g : option (GovState St) :=
  write_cell (snap_bucket_id snap)
    (fun m => match m !! snap_bucket_id snap with
              | Some c => if window_start c =? snap_window snap then <[snap_bucket_id snap := f c]> m else m
              | None => m
              end) g.

(** The store call of one snapshot. *)
Definition push_snap (snap : DirtySnap) g : Result unit string * GovState St :=
  if usage_delta_is_zero (snap_delta snap) then (Ok tt, g)
  else let (r, st) := store_add_usage (snap_bucket_id snap) (snap_window snap) (snap_delta snap) (g_store g) in
       (r, set_store st g).

Fixpoint flush_snaps (env : nat -> GovState St -> GovState St) (snaps : list DirtySnap) (flushed : Z) g
    : option (Z * GovState St) :=
  match snaps with
  | [] => Some (flushed, g)
  | snap :: snaps =>
      let (r, g) := push_snap snap (env 0%nat g) in
      let g := env 1%nat g in
      let flushed := match r with Ok _ => flushed + 1 | Err _ => flushed end in
      g ← settle snap (match r with Ok _ => ack_cell snap | Err _ => set_dirty true end) g;
      flush_snaps (fun k => env (S (S k))) snaps flushed g
  end.

Definition flush_budgets (env : nat -> GovState St -> GovState St) g : option (Z * GovState St) :=
  let n := length (budget g) in
  '(snaps, g) ← snapshot_shards env (seq 0 n) [] g;
  flush_snaps (fun k => env (n + k)%nat) snaps 0 g.

(** ** Hydration *)

(** The buckets to restore, with their window words. *)
Definition hydrate_list (cost : CostModel) (keys : list VirtualKey) : list (string * string) :=
  ((fun k => (key_id k, WINDOW_TOTAL)) <$> keys)
  ++ ((fun b => (bucket_id b, window b)) <$> (cm_groups cost ≫= buckets)).

Fixpoint hydrate_loop (bs : list (string * string)) (now : Z) g : option (Result unit string * GovState St) :=
  match bs with
  | [] => Some (Ok tt, g)
  | (id, period) :: bs =>
      let w := budget_window period now in
      let (r, st) := store_get_usage id w (g_store g) in
      let g := set_store st g in
      match r with
      | Err e => Some (Err e, g)
      | Ok l =>
          if (ul_requests l =? 0) && bool_decide (ul_models l = []) then hydrate_loop bs now g
          else g ← write_cell id (fun m => <[id := hydrated_cell w now l]> m) g; hydrate_loop bs now g
      end
  end.

Definition hydrate_budgets (cost : CostModel) (now : Z) g : option (Result unit string * GovState St) :=
  let (r, st) := store_list_keys (g_store g) in
  let g := set_store st g in
  match r with
  | Err e => Some (Err e, g)
  | Ok keys => hydrate_loop (hydrate_list cost keys) now g
  end.

(** ** Derived reads *)

Definition derived_bucket_usage (cost : CostModel) (id period : string) (include_request_fee : bool)
    (now : Z) g : option (Result DerivedUsage string * GovState St) :=
  let w := budget_window period now in
  c ← read_cell id g;
  match (c ← c; if window_start c =? w then Some c else None) with
  | Some c =>
      Some (Ok (mkDerived (derive_spend_cents cost (model_views c) (bc_billable c) include_request_fee)
                  (cell_total_tokens c) (bc_requests c)), g)
  | None =>
      let (r, st) := store_get_usage id w (g_store g) in
      let g := set_store st g in
      Some (match r with
            | Err e => Err e
            | Ok l => Ok (mkDerived
                (derive_spend_cents cost ((fun m => (mt_model m, mt_tokens m)) <$> ul_models l)
                   (ul_billable_requests l) include_request_fee)
                (ledger_total_tokens l) (ul_requests l))
            end, g)
  end.

Definition usage_for (cost : CostModel) (id : string) (now : Z) g
    : option (Result (option DerivedUsage) string * GovState St) :=
  let (r, st) := store_get_key id (g_store g) in
  let g := set_store st g in
  match r with
  | Err e => Some (Err e, g)
  | Ok None => Some (Ok None, g)
  | Ok (Some _) =>
      '(u, g) ← derived_bucket_usage cost id WINDOW_TOTAL true now g;
      Some (match u with Ok u => Ok (Some u) | Err e => Err e end, g)
  end.

Definition bucket_model_tokens (id period : string) (now : Z) g
    : option (list (string * TierTokens) * GovState St) :=
  let w := budget_window period now in
  c ← read_cell id g;
  match (c ← c; if window_start c =? w then Some c else None) with
  | Some c => Some (model_views c, g)
  | None =>
      let (r, st) := store_get_usage id w (g_store g) in
      Some (match r with Ok l => (fun m => (mt_model m, mt_tokens m)) <$> ul_models l | Err _ => [] end,
            set_store st g)
  end.

Definition bucket_state (cost : CostModel) (now : Z) (b : ChainBucket) g : option BudgetBucketState :=
  let w := budget_window (cb_window b) now in
  c ← read_cell (cb_id b) g;
  let spend_micros :=
    match c with
    | Some c => if window_start c =? w then derive_spend_micros cost (model_views c) (bc_billable c) true else 0
    | None => 0
    end in
  let remaining :=
    (fun cap => Z.max (clamp_i64 (clamp_i64 (cap * 10000) - spend_micros)) 0) <$> cb_budget_cap b in
  Some (mkBucketState (cb_id b) (cb_group b) (value <$> cb_scope b) spend_micros remaining w (cb_window b)).

Definition budget_state (cost : CostModel) (key : VirtualKey) (now : Z) g : option (list BudgetBucketState) :=
  r ← chain_for cost key;
  match r with
  | Err _ => Some []
  | Ok chain => mapM (fun b => bucket_state cost now b g) (chain_buckets chain)
  end.

(** ** Metering *)

Definition record_metering (key_id model provider : string) (u : option IrUsage) (now : Z) g : GovState St :=
  let k := (key_id, metering_bucket now, model, provider) in
  let e := default MeterCounts_default (pending_metering g !! k) in
  set_pending (<[k := add_counts e (usage_counts u)]> (pending_metering g)) g.

(** The entries taken, one store call each; a failed one is merged back. *)
Fixpoint flush_taken (taken : list (PendingKey * MeterCounts)) (flushed : Z) g : Z * GovState St :=
  match taken with
  | [] => (flushed, g)
  | (k, n) :: taken =>
      if counts_zero n then flush_taken taken flushed g
      else
        let (r, st) := store_add_metering (metering_delta k n) (g_store g) in
        let g := set_store st g in
        match r with
        | Ok _ => flush_taken taken (flushed + 1) g
        | Err _ =>
            let e := default MeterCounts_default (pending_metering g !! k) in
            flush_taken taken flushed (set_pending (<[k := add_counts e n]> (pending_metering g)) g)
        end
  end.

Definition flush_metering g : Z * GovState St :=
  flush_taken (map_to_list (pending_metering g)) 0 (set_pending ∅ g).
End store.
