(* ===== verification/HookPolicy.v ===== *)
(** * HookPolicy: which hooks a pool runs, and what their decisions come to (hooks/mod.rs, proxy/hooks.rs)

    The registry's hooks resolved, once per configuration, into transports with their deadlines, grants
    and fallback chains; and the pure half of the decision seam: a decision, or a failure, coerced to what
    the engine does with it. *)

From S2P Require Import Prelude Float64 Breaker Json HookWire HookProjection Ranking BreakerFsm HealthState HealthLemmas HealthSpec HealthAdmit SwrrCore Swrr Selection Windows Ledger Groups CostModel Governance GovStore.

#[local] Open Scope Z_scope.

(** ** Configuration (config/mod.rs, plugin-sign/src/lib.rs) *)

Inductive HookKind := Tap | Gate.
Inductive PromptAccess := PA_No | PA_Ro | PA_Rw.
Inductive UserAccess := UA_No | UA_Ro.
Inductive NeedLevel := Need_No | Need_Ro | Need_Rw.

#[export] Instance HookKind_eq_dec : EqDecision HookKind.
Proof. solve_decision. Defined.

Definition sends_prompt (a : PromptAccess) : bool := match a with PA_No => false | _ => true end.
Definition can_rewrite (a : PromptAccess) : bool := match a with PA_Rw => true | _ => false end.
Definition sends_user (a : UserAccess) : bool := match a with UA_Ro => true | UA_No => false end.

Record HookCfg := mkHook {
  hk_kind : HookKind;
  hk_plugin : string;
  hk_timeout_ms : Z;
  hk_on_error : string;
  hk_prompt : PromptAccess;
  hk_user : UserAccess;
  hk_priority : Z;
  hk_on_empty : option PolicyOnError;
  hk_default : bool
}.

Inductive PoolPolicy := PP_Weighted | PP_Cheapest | PP_Fastest | PP_LeastBusy | PP_Usage.

(** A pool's hooks: its gates by name, its base strategy, and whether it named one. *)
Record PoolHooks := mkPoolHooks { pool_gate_names : list string; pool_policy_cfg : PoolPolicy; base_named : bool }.

Definition pool_strategy (p : PoolPolicy) : option NativePolicy :=
  match p with
  | PP_Weighted => None
  | PP_Cheapest => native_policy POLICY_NAME_CHEAPEST
  | PP_Fastest => native_policy POLICY_NAME_FASTEST
  | PP_LeastBusy => native_policy POLICY_NAME_LEAST_BUSY
  | PP_Usage => native_policy POLICY_NAME_USAGE
  end.

Definition DEFAULT_POLICY_TIMEOUT_MS : Z := 1.

Definition ON_ERROR_NOTHING : string := "nothing".
Definition ON_ERROR_WEIGHTED : string := "weighted".
Definition ON_ERROR_REJECT : string := "reject".
Definition ON_ERROR_FIRST : string := "first".

Definition on_error_terminal (name : string) : option PolicyOnError :=
  if String.eqb name ON_ERROR_WEIGHTED || String.eqb name ON_ERROR_NOTHING then Some Weighted
  else if String.eqb name ON_ERROR_REJECT then Some Reject
  else if String.eqb name ON_ERROR_FIRST then Some First
  else None.

(** ** Transports *)

(** A [dyn RoutingPolicy]: a built-in ranking, or the plugin of a hook. *)
Inductive Policy := Native (p : NativePolicy) | Plugin (hook : string).

Definition policy_name (p : Policy) : string := match p with Native n => native_name n | Plugin name => name end.

Record FallbackHook := mkFallback {
  fb_policy : Policy;
  fb_timeout : Z;
  fb_send_prompt : bool;
  fb_send_user : bool;
  fb_on_empty : PolicyOnError
}.

Record ResolvedPolicy := mkResolved {
  rp_policy : Policy;
  rp_on_error : PolicyOnError;
  rp_on_error_chain : list FallbackHook;
  rp_timeout : Z;
  rp_send_prompt : bool;
  rp_send_user : bool;
  rp_on_empty : PolicyOnError
}.

(** ** Resolution *)

Section resolve.
(** The plugin registry: the needs a plugin's signed manifest declares, and whether it opens as a hook's
    transport. *)
Context (manifest_needs : string -> option (NeedLevel * NeedLevel)).
Context (opens : string -> string -> bool).
Context (default_policy_timeout_ms : Z).
(** The hook registry. *)
Context (hooks : gmap string HookCfg).

Definition policy_timeout (timeout_ms : Z) : Z :=
  if timeout_ms =? 0 then default_policy_timeout_ms else timeout_ms.

(** The operator's grant met with the manifest's declared need. *)
Definition effective_access (hook : HookCfg) : PromptAccess * UserAccess :=
  match manifest_needs (hk_plugin hook) with
  | None => (hk_prompt hook, hk_user hook)
  | Some (prompt, user) =>
      (match hk_prompt hook, prompt with
       | PA_No, _ | _, Need_No => PA_No
       | PA_Rw, Need_Rw => PA_Rw
       | _, _ => PA_Ro
       end,
       match hk_user hook, user with
       | UA_No, _ | _, Need_No => UA_No
       | _, _ => UA_Ro
       end)
  end.

Definition projection_grants (hook : HookCfg) : bool * bool :=
  let '(prompt, user) := effective_access hook in (sends_prompt prompt, sends_user user).

Definition admits_rewrite (hook : HookCfg) : bool := can_rewrite (effective_access hook).1.

Definition gate_transport_named (name : string) (hook : HookCfg) : option Policy :=
  if opens (hk_plugin hook) name then Some (Plugin name) else None.

Definition gate_on_empty (hook : HookCfg) : PolicyOnError := default Reject (hk_on_empty hook).

(** The loop follows [on_error] names; [visited] bounds it by the hooks there are. *)
Fixpoint on_error_links (fuel : nat) (visited : list string) (current : string)
    : option (list FallbackHook * PolicyOnError) :=
  match fuel with
  | O => None
  | S fuel =>
      match on_error_terminal current with
      | Some terminal => Some ([], terminal)
      | None =>
          match native_policy current with
          | Some p => Some ([mkFallback (Native p) (policy_timeout DEFAULT_POLICY_TIMEOUT_MS) false false Reject], Weighted)
          | None =>
              if bool_decide (current ∈ visited) then Some ([], Weighted) else
              match hooks !! current with
              | None => Some ([], Weighted)
              | Some h =>
                  match hk_kind h with
                  | Tap => Some ([], Weighted)
                  | Gate =>
                      '(chain, terminal) ← on_error_links fuel (visited ++ [current]) (hk_on_error h);
                      Some (match gate_transport_named current h with
                            | Some policy =>
                                let '(send_prompt, send_user) := projection_grants h in
                                mkFallback policy (policy_timeout (hk_timeout_ms h)) send_prompt send_user
                                  (gate_on_empty h) :: chain
                            | None => chain
                            end, terminal)
                  end
              end
          end
      end
  end.

Definition resolve_on_error_chain (hook : HookCfg) : option (list FallbackHook * PolicyOnError) :=
  on_error_links (S (S (size hooks))) [] (hk_on_error hook).

(** [None] inside: the gate is absent. The outer [None] would be a loop that does not end. *)
Definition resolve_gate_transport (name : string) (hook : HookCfg) : option (option ResolvedPolicy) :=
  match gate_transport_named name hook with
  | None => Some None
  | Some policy =>
      '(chain, terminal) ← resolve_on_error_chain hook;
      let '(send_prompt, send_user) := projection_grants hook in
      Some (Some (mkResolved policy terminal chain (policy_timeout (hk_timeout_ms hook)) send_prompt send_user
                    (gate_on_empty hook)))
  end.

Definition resolve_policy (cfg : PoolHooks) : option ResolvedPolicy :=
  p ← pool_strategy (pool_policy_cfg cfg);
  Some (mkResolved (Native p) Weighted [] (policy_timeout DEFAULT_POLICY_TIMEOUT_MS) false false Reject).

(** A gate that decides: it does not rewrite. *)
Definition decision_gate (hook : HookCfg) : bool :=
  bool_decide (hk_kind hook = Gate) && negb (can_rewrite (hk_prompt hook)).

Definition resolve_pool_ordering (cfg : PoolHooks) (default_hook : option string) : option (option ResolvedPolicy) :=
  match (if base_named cfg then None else n ← default_hook; h ← hooks !! n; Some (n, h)) with
  | Some (name, hook) =>
      if decision_gate hook then resolve_gate_transport name hook else Some (resolve_policy cfg)
  | None => Some (resolve_policy cfg)
  end.

(** The names of a list that are decision gates, resolved, by ascending priority; both
    [resolve_pool_gates] and [resolve_gate_hooks]. *)
Fixpoint resolve_gates (names : list string) : option (list (Z * ResolvedPolicy)) :=
  match names with
  | [] => Some []
  | name :: names =>
      rest ← resolve_gates names;
      match hooks !! name with
      | None => Some rest
      | Some hook =>
          if decision_gate hook then
            rp ← resolve_gate_transport name hook;
            Some (match rp with Some rp => (hk_priority hook, rp) :: rest | None => rest end)
          else Some rest
      end
  end.

Definition by_priority {A} (l : list (Z * A)) : list (Z * A) := sort_by (by_key fst) l.

Definition resolve_gate_hooks (names : list string) : option (list (Z * ResolvedPolicy)) :=
  by_priority <$> resolve_gates names.

(** The rewrite gates of a list: by the effective grant. *)
Fixpoint resolve_rewriters (names : list string) : list (Z * (Z * Policy)) :=
  match names with
  | [] => []
  | name :: names =>
      let rest := resolve_rewriters names in
      match hooks !! name with
      | None => rest
      | Some hook =>
          if bool_decide (hk_kind hook = Gate) && admits_rewrite hook then
            match gate_transport_named name hook with
            | Some policy => (hk_priority hook, (policy_timeout (hk_timeout_ms hook), policy)) :: rest
            | None => rest
            end
          else rest
      end
  end.

Definition resolve_rewrite_hooks (names : list string) : list (Z * Policy) :=
  (by_priority (resolve_rewriters names)).*2.
End resolve.

(** ** One decision *)

Record RoutingContext := mkContext {
  rc_pool : string;
  rc_budget_remaining : option Z;
  rc_budget : list BudgetBucketState
}.

(** A call of a hook plugin: its reply, that it could not answer, another reply variant, a failed or
    timed-out call. *)
Inductive HookCall := Replied (v : Value) | Said_failed | Other_reply | Call_failed.

Definition candidate_set (candidates : list Candidate) : gset nat := list_to_set (cand_idx <$> candidates).

(** [policy.decide] under its deadline; [None]: it errored or ran out of time. [answer] is what the
    plugins say. *)
Definition policy_decide (answer : string -> RoutingRequest -> list Candidate -> RoutingContext -> HookCall)
    (p : Policy) (req : RoutingRequest) (candidates : list Candidate) (ctx : RoutingContext)
    : option RoutingDecision :=
  match p with
  | Native n => Some (native_decide n candidates)
  | Plugin name =>
      match answer name req candidates ctx with
      | Replied v => Some (normalize_reply v (candidate_set candidates))
      | _ => None
      end
  end.

Definition policy_transform (answer : string -> RoutingRequest -> HookCall) (p : Policy) (req : RoutingRequest)
    : TransformOutcome :=
  match p with
  | Native _ => TO_Abstain
  | Plugin name => match answer name req with Replied v => transform_reply v | _ => TO_Abstain end
  end.

Inductive PolicyOutcome :=
  | PO_Order (order : list nat) (name : string)
  | PO_Weighted
  | PO_Reject
  | PO_RejectRequest (status : Z) (message : string) (name : string)
  | PO_Restrict (tags_any : list string) (name : string) (on_empty : PolicyOnError).

Definition map_decision (decision : RoutingDecision) (name : string) (candidates : list Candidate)
    (on_empty : PolicyOnError) : PolicyOutcome :=
  match decision with
  | RD_Prefer order =>
      match from_ranked order (candidate_set candidates) with
      | RD_Prefer o => PO_Order o name
      | _ => PO_Weighted
      end
  | RD_Abstain => PO_Weighted
  | RD_Reject status message =>
      PO_RejectRequest (clamp_reject_status status) (sanitize_reject_message message) name
  | RD_Restrict tags => PO_Restrict tags name on_empty
  end.

Definition coerce_on_error (on_error : PolicyOnError) (candidates : list Candidate) (name : string)
    : PolicyOutcome :=
  match on_error with
  | Weighted => PO_Weighted
  | Reject => PO_Reject
  | First => PO_Order (cand_idx <$> candidates) name
  end.

(** What a fallback is shown: the primary's projection, as far as its own grants go. *)
Definition fallback_request (fb : FallbackHook) (req : RoutingRequest) : RoutingRequest :=
  mkRouting (rr_request_id req) (rr_pool req) (rr_ingress_protocol req) (rr_requested_model req)
    (rr_message_count req) (rr_tool_count req) (rr_has_tools req) (rr_total_chars req) (rr_system_chars req)
    (rr_max_tokens req) (rr_stream req)
    (if fb_send_prompt fb then rr_prompt req else None)
    (if fb_send_user fb then rr_identity req else None) (rr_signals req).

(** * resolution ends, and grants no more than both sides declared

    Following [on_error] names terminates whatever the registry says, cycles included; and every transport
    that comes out of the resolution carries a prompt or identity grant only where the operator granted it
    and the plugin's signed manifest asked for it. *)


Section resolve.
Context (manifest_needs : string -> option (NeedLevel * NeedLevel)).
Context (opens : string -> string -> bool).
Context (default_policy_timeout_ms : Z).
Context (hooks : gmap string HookCfg).

#[local] Notation on_error_links := (on_error_links manifest_needs opens default_policy_timeout_ms hooks).
#[local] Notation resolve_on_error_chain := (resolve_on_error_chain manifest_needs opens default_policy_timeout_ms hooks).
#[local] Notation resolve_gate_transport := (resolve_gate_transport manifest_needs opens default_policy_timeout_ms hooks).
#[local] Notation resolve_gates := (resolve_gates manifest_needs opens default_policy_timeout_ms hooks).
#[local] Notation resolve_rewriters := (resolve_rewriters manifest_needs opens default_policy_timeout_ms hooks).
#[local] Notation resolve_pool_ordering := (resolve_pool_ordering manifest_needs opens default_policy_timeout_ms hooks).

(** The hook of that name may be shown the prompt, may rewrite it, may be told the caller. *)
Definition may_read (name : string) : Prop := exists h, hooks !! name = Some h
  /\ sends_prompt (hk_prompt h) = true /\ forall n, manifest_needs (hk_plugin h) = Some n -> n.1 <> Need_No.
Definition may_rewrite (name : string) : Prop := exists h, hooks !! name = Some h
  /\ hk_prompt h = PA_Rw /\ forall n, manifest_needs (hk_plugin h) = Some n -> n.1 = Need_Rw.
Definition may_identify (name : string) : Prop := exists h, hooks !! name = Some h
  /\ hk_user h = UA_Ro /\ forall n, manifest_needs (hk_plugin h) = Some n -> n.2 <> Need_No.

(** A transport's grants are covered. *)
Definition covered (p : Policy) (send_prompt send_user : bool) : Prop :=
  match p with
  | Native _ => send_prompt = false /\ send_user = false
  | Plugin name => (send_prompt = true -> may_read name) /\ (send_user = true -> may_identify name)
  end.

Definition link_covered (fb : FallbackHook) : Prop :=
  covered (fb_policy fb) (fb_send_prompt fb) (fb_send_user fb).

Definition policy_covered (rp : ResolvedPolicy) : Prop :=
  covered (rp_policy rp) (rp_send_prompt rp) (rp_send_user rp) /\ Forall link_covered (rp_on_error_chain rp).

Lemma grants_covered name h :
  hooks !! name = Some h ->
  covered (Plugin name) (projection_grants manifest_needs h).1 (projection_grants manifest_needs h).2.
Proof.
  intros Hh. unfold projection_grants, effective_access. simpl.
  destruct (manifest_needs (hk_plugin h)) as [[np nu]|] eqn:En; simpl; split; intros Hs; exists h; split; try done;
    destruct (hk_prompt h) eqn:Ep, (hk_user h) eqn:Eu; try done;
    try destruct np; try destruct nu; simpl in *; try done; (split; [done|]); intros n Hn; rewrite En in Hn; by simplify_eq.
Qed.

Lemma rewrite_covered name h :
  hooks !! name = Some h -> admits_rewrite manifest_needs h = true -> may_rewrite name.
Proof.
  intros Hh. unfold admits_rewrite, effective_access. intros Ha. exists h. split; [done|].
  destruct (manifest_needs (hk_plugin h)) as [[np nu]|] eqn:En; simpl in *.
  - destruct (hk_prompt h), np; try done. split; [done|]. intros n Hn. by simplify_eq.
  - destruct (hk_prompt h); try done.
Qed.

(** ** The chain *)

(** The plugins of a chain, in order. *)
Definition chain_plugins (chain : list FallbackHook) : list string :=
  omap (fun fb => match fb_policy fb with Plugin n => Some n | Native _ => None end) chain.

Lemma links_end fuel : forall visited current,
  NoDup visited -> Forall (fun n => n ∈ dom hooks) visited -> (size hooks < fuel + length visited)%nat ->
  exists chain terminal, on_error_links fuel visited current = Some (chain, terminal)
    /\ Forall link_covered chain
    /\ NoDup (visited ++ chain_plugins chain) /\ Forall (fun n => n ∈ dom hooks) (chain_plugins chain)
    /\ (length chain <= S (length (chain_plugins chain)))%nat.
Proof.
  induction fuel as [|fuel IH]; intros visited current Hnd Hin Hf.
  { exfalso. assert (Hs : (length visited <= size hooks)%nat); [|lia].
    rewrite <- size_dom, <- (size_list_to_set (C := gset string) visited Hnd). apply subseteq_size.
    intros x Hx%elem_of_list_to_set. rewrite Forall_forall in Hin. by apply Hin. }
  assert (Hdone : forall t : PolicyOnError, exists (chain : list FallbackHook) (terminal : PolicyOnError), Some ([], t) = Some (chain, terminal)
    /\ Forall link_covered chain /\ NoDup (visited ++ chain_plugins chain)
    /\ Forall (fun n => n ∈ dom hooks) (chain_plugins chain) /\ (length chain <= S (length (chain_plugins chain)))%nat).
  { intros t. do 2 eexists. split; [done|]. split; [constructor|]. rewrite app_nil_r. split; [done|].
    split; [constructor|simpl; lia]. }
  simpl. destruct (on_error_terminal current); [apply Hdone|].
  destruct (native_policy current) as [p|].
  { do 2 eexists. split; [done|]. split; [by repeat constructor|]. simpl. rewrite app_nil_r.
    split; [done|]. split; [constructor|lia]. }
  case_bool_decide as Hv; [apply Hdone|]. destruct (hooks !! current) as [h|] eqn:Eh; [|apply Hdone].
  destruct (hk_kind h); [apply Hdone|].
  destruct (IH (visited ++ [current]) (hk_on_error h)) as (chain & terminal & -> & Hc & Hnd' & Hin' & Hl).
  { apply NoDup_app. split; [done|]. split; [|apply NoDup_singleton]. intros x Hx ->%list_elem_of_singleton. done. }
  { apply Forall_app. split; [done|]. constructor; [|constructor]. apply elem_of_dom. by exists h. }
  { rewrite length_app. simpl. lia. }
  simpl. do 2 eexists. split; [done|]. unfold gate_transport_named. destruct (opens (hk_plugin h) current).
  - pose proof (grants_covered current h Eh) as Hg.
    destruct (projection_grants manifest_needs h) as [sp su]. split; [by constructor|].
    change (chain_plugins (mkFallback (Plugin current) (policy_timeout default_policy_timeout_ms (hk_timeout_ms h)) sp su
      (gate_on_empty h) :: chain)) with (current :: chain_plugins chain).
    rewrite <- app_assoc in Hnd'. split; [exact Hnd'|]. split; [constructor; [apply elem_of_dom; by exists h|done]|].
    simpl. lia.
  - split; [done|]. split; [|by split]. rewrite <- app_assoc in Hnd'. simpl in Hnd'.
    apply NoDup_app in Hnd' as (H1 & H2 & H3). apply NoDup_cons in H3 as [_ H3].
    apply NoDup_app. split; [done|]. split; [|done]. intros x Hx Hx'. apply (H2 x Hx). by right.
Qed.


(** ** What resolution hands out *)

Lemma transport_covered name h rp :
  hooks !! name = Some h -> resolve_gate_transport name h = Some (Some rp) -> policy_covered rp.
Proof.
  intros Hh. unfold resolve_gate_transport, gate_transport_named.
  destruct (opens (hk_plugin h) name); [|by intros [=]].
  destruct (links_end (S (S (size hooks))) [] (hk_on_error h)) as (chain & terminal & He & Hc & _).
  { constructor. }
  { constructor. }
  { simpl. lia. }
  unfold resolve_on_error_chain. rewrite He. simpl. pose proof (grants_covered name h Hh) as Hg.
  destruct (projection_grants manifest_needs h) as [sp su]. intros [= <-]. by split.
Qed.

Lemma gates_covered names : forall gs, resolve_gates names = Some gs -> Forall (fun g => policy_covered g.2) gs.
Proof.
  induction names as [|name names IH]; intros gs; simpl; [intros [= <-]; constructor|].
  intros (rest & Hr & He)%bind_Some_inv. destruct (hooks !! name) as [h|] eqn:Eh; [|simplify_eq; by apply IH].
  destruct (decision_gate h); [|simplify_eq; by apply IH].
  apply bind_Some_inv in He as (rp & Hrp & [= <-]). destruct rp as [rp|]; [|by apply IH].
  constructor; [by eapply transport_covered|by apply IH].
Qed.

Lemma base_covered cfg dh rp : resolve_pool_ordering cfg dh = Some (Some rp) -> policy_covered rp.
Proof.
  assert (Hn : resolve_policy default_policy_timeout_ms cfg = Some rp -> policy_covered rp).
  { unfold resolve_policy. intros (p & _ & [= <-])%bind_Some_inv. by split. }
  unfold resolve_pool_ordering. destruct (if base_named cfg then None else _) as [[name h]|] eqn:E; [|by intros [= ?]; apply Hn].
  destruct (decision_gate h); [|by intros [= ?]; apply Hn]. apply transport_covered.
  destruct (base_named cfg); [done|]. apply bind_Some_inv in E as (n & _ & E).
  apply bind_Some_inv in E as (h' & Hh & [= -> ->]). done.
Qed.

Lemma rewriters_covered names :
  Forall (fun x => match x.2.2 with Plugin n => may_rewrite n | Native _ => True end) (resolve_rewriters names).
Proof.
  induction names as [|name names IH]; simpl; [constructor|]. destruct (hooks !! name) as [h|] eqn:Eh; [|done].
  destruct (bool_decide (hk_kind h = Gate) && admits_rewrite manifest_needs h) eqn:E; [|done].
  unfold gate_transport_named. destruct (opens (hk_plugin h) name); [|done]. constructor; [|done].
  apply andb_true_iff in E as [_ Ha]. simpl. by eapply rewrite_covered.
Qed.
End resolve.
