(* ===== verification/GovSpec.v ===== *)
(** * GovSpec: lemmas of the limit ledger

    The state as a map of cells and gauges, what each operation does to it, and the facts about
    sweeps, lock orders and the check that the theorems of admission and flush share. *)

From stdpp Require Import sorting.
From S2P Require Import Prelude Breaker Windows Ledger Groups CostModel Governance.

#[local] Open Scope Z_scope.

(** ** Sweeps *)

Definition sweep_opt (cost : CostModel) (now : Z) (id : string) (c : option BudgetCell) : option BudgetCell :=
  match c with
  | Some c => if cell_kept cost now id c then Some (prune_dead_models c) else None
  | None => None
  end.

(** What a cell becomes when its shard may have been swept. *)
Definition swept (cost : CostModel) (now : Z) (id : string) (c c' : option BudgetCell) : Prop :=
  c' = c \/ c' = sweep_opt cost now id c.

Lemma prune_idem c : prune_dead_models (prune_dead_models c) = prune_dead_models c.
Proof.
  unfold prune_dead_models, set_models. simpl. f_equal.
  rewrite list_filter_filter. apply list_filter_iff. intros m. tauto.
Qed.

Lemma cell_kept_prune cost now id c : cell_kept cost now id (prune_dead_models c) = cell_kept cost now id c.
Proof. done. Qed.

Lemma swept_refl cost now id c : swept cost now id c c.
Proof. by left. Qed.

Lemma swept_trans cost now id a b c : swept cost now id a b -> swept cost now id b c -> swept cost now id a c.
Proof.
  intros [-> | ->] [-> | ->]; [by left|by right|by right|]. right.
  destruct a as [a|]; [|done]. simpl. destruct (cell_kept cost now id a) eqn:E; [|done]. simpl.
  by rewrite cell_kept_prune, E, prune_idem.
Qed.

Lemma sweep_map_lookup cost now m id : sweep_map cost now m !! id = sweep_opt cost now id (m !! id).
Proof.
  unfold sweep_map, sweep_opt. rewrite lookup_fmap. destruct (m !! id) as [c|] eqn:E.
  - destruct (cell_kept cost now id c) eqn:Ek.
    + rewrite (map_lookup_filter_Some_2 _ _ _ c); [done|done|]. simpl. by rewrite Ek.
    + rewrite map_lookup_filter_None_2; [done|]. right. simpl. intros x Hx Hk. simplify_eq. by rewrite Ek in Hk.
  - by rewrite map_lookup_filter_None_2 by by left.
Qed.

(** ** The state as a map of cells *)

Lemma shard_index_lt id : (shard_index id < 64)%nat.
Proof.
  unfold shard_index, GOV_SHARDS. change (64 - 1) with (Z.ones 6). rewrite Z.land_ones by lia.
  pose proof (Z.mod_pos_bound (fnv1a_u64 id) (2 ^ 6) ltac:(lia)). lia.
Qed.

Section gov.
Context {St : Type} `{DurableStore St}.
Implicit Types g : GovState St.

Definition cell (id : string) g : option BudgetCell := read_cell id g ≫= fun c => c.

Record gov_wf g : Prop := {
  wf_shards : length (budget g) = 64%nat;
  wf_gauges : forall n, 0 <= gauge n g <= I64_MAX;
  wf_placed : forall sh s id, budget g !! sh = Some s -> is_Some (shard_map s !! id) -> shard_index id = sh
}.

Lemma shard_exists g id : gov_wf g -> exists s, budget g !! shard_index id = Some s.
Proof. intros Hwf. apply lookup_lt_is_Some_2. rewrite (wf_shards g Hwf). apply shard_index_lt. Qed.

Lemma read_cell_total g id : gov_wf g -> read_cell id g = Some (cell id g).
Proof. intros Hwf. destruct (shard_exists g id Hwf) as [s Hs]. unfold cell, read_cell. by rewrite Hs. Qed.

(** A shard replaced changes the cells of that shard only. *)
Lemma cell_set_shard g sh s id :
  (sh < length (budget g))%nat ->
  cell id (set_budget (<[sh := s]> (budget g)) g)
  = if bool_decide (shard_index id = sh) then shard_map s !! id else cell id g.
Proof.
  intros Hsh. unfold cell, read_cell. simpl. case_bool_decide as E.
  - by rewrite E, list_lookup_insert_eq.
  - by rewrite list_lookup_insert_ne.
Qed.

Lemma gov_wf_set_shard g sh s :
  gov_wf g -> (forall id, is_Some (shard_map s !! id) -> shard_index id = sh) ->
  gov_wf (set_budget (<[sh := s]> (budget g)) g).
Proof.
  intros [H1 H2 H3] Hs. split; [simpl; by rewrite length_insert|done|].
  intros sh' s' id Hl Hid. simpl in Hl. apply list_lookup_insert_Some in Hl as [(-> & <- & _)|[_ Hl]]; [by apply Hs|].
  by eapply H3.
Qed.

(** A function on a shard map that only changes one id. *)
Definition local_at (id : string) (h : option BudgetCell -> option BudgetCell)
    (f : gmap string BudgetCell -> gmap string BudgetCell) : Prop :=
  forall m id', f m !! id' = if bool_decide (id' = id) then h (m !! id) else m !! id'.

Lemma write_cell_spec g id h f :
  gov_wf g -> local_at id h f ->
  exists g', write_cell id f g = Some g' /\ gov_wf g' /\ concurrent g' = concurrent g
    /\ g_store g' = g_store g /\ pending_metering g' = pending_metering g
    /\ forall id', cell id' g' = if bool_decide (id' = id) then h (cell id g) else cell id' g.
Proof.
  intros Hwf Hf. destruct (shard_exists g id Hwf) as [s Hs]. unfold write_cell. rewrite Hs. cbn.
  eexists. split; [done|]. split.
  { apply gov_wf_set_shard; [done|]. intros i Hi. simpl in Hi. rewrite Hf in Hi. case_bool_decide as E; [by rewrite E|].
    by eapply wf_placed. }
  split_and!; try done. intros id'.
  rewrite cell_set_shard by by eapply lookup_lt_Some. simpl. rewrite Hf.
  assert (Hc : forall i, shard_index i = shard_index id -> cell i g = shard_map s !! i).
  { intros i Hi. unfold cell, read_cell. by rewrite Hi, Hs. }
  destruct (decide (id' = id)) as [->|Hne].
  - rewrite !bool_decide_true by done. by rewrite Hc.
  - rewrite (bool_decide_false (id' = id)) by done. case_bool_decide as E; [by rewrite Hc|done].
Qed.

(** ** Guards *)

Lemma dedup_elem prev l x : x ∈ dedup prev l \/ prev = Some x <-> x ∈ l \/ prev = Some x.
Proof.
  revert prev. induction l as [|y l IH]; intros prev; simpl; [done|].
  case_bool_decide as E.
  - rewrite elem_of_cons, IH. subst prev. split; [tauto|]. intros [[->|?]|?]; [by right|by left|by right].
  - rewrite !elem_of_cons. specialize (IH (Some y)). assert (Some y = Some x <-> x = y) by (split; congruence).
    tauto.
Qed.

Lemma lock_order_elem ids x : x ∈ lock_order ids <-> x ∈ shard_index <$> ids.
Proof.
  unfold lock_order. rewrite <- (merge_sort_Permutation Nat.le (shard_index <$> ids)) at 2.
  destruct (dedup_elem None (merge_sort Nat.le (shard_index <$> ids)) x) as [H1 H2].
  split; intros Hx; [destruct (H1 (or_introl Hx))|destruct (H2 (or_introl Hx))]; done.
Qed.

Lemma dedup_sorted prev l :
  StronglySorted Nat.le l -> (forall x p, prev = Some p -> x ∈ l -> (p <= x)%nat) ->
  StronglySorted lt (dedup prev l) /\ forall x p, prev = Some p -> x ∈ dedup prev l -> (p < x)%nat.
Proof.
  revert prev. induction l as [|y l IH]; intros prev Hs Hp; simpl.
  { split; [constructor|]. intros x p _ Hx. by apply elem_of_nil in Hx. }
  apply StronglySorted_inv in Hs as [Hs Hy]. rewrite Forall_forall in Hy. case_bool_decide as E.
  - apply IH; [done|]. intros x p -> Hx. apply (Hp x p); [done|by right].
  - destruct (IH (Some y) Hs) as [Hs' Hlt].
    { intros x p [= <-] Hx. by apply Hy. }
    split.
    + constructor; [done|]. apply Forall_forall. intros x Hx. by apply (Hlt x y).
    + intros x p -> [->|Hx]%elem_of_cons.
      * assert (p <= y)%nat by (apply (Hp y p); [done|by left]).
        destruct (decide (p = y)) as [->|]; [done|lia].
      * assert (p <= y)%nat by (apply (Hp y p); [done|by left]). pose proof (Hlt x y eq_refl Hx). lia.
Qed.

(** The guards are taken in strictly ascending order of shard. *)
Lemma lock_order_sorted ids : StronglySorted lt (lock_order ids).
Proof.
  unfold lock_order. apply dedup_sorted; [|done]. apply (StronglySorted_merge_sort Nat.le).
Qed.

Lemma guard_for_spec order t :
  t ∈ order -> exists gi, guard_for order t = Some gi /\ order !! gi = Some t.
Proof.
  intros Ht. unfold guard_for. destruct (list_find_elem_of (fun sh => sh = t) order t Ht eq_refl) as [[gi x] Hf].
  exists gi. rewrite Hf. split; [done|]. apply list_find_Some in Hf as (Hl & -> & _). done.
Qed.

Lemma acquire_shard_spec cost now interval sh g :
  gov_wf g -> (sh < 64)%nat ->
  exists g', acquire_shard cost now interval sh g = Some g' /\ gov_wf g' /\ concurrent g' = concurrent g
    /\ g_store g' = g_store g /\ pending_metering g' = pending_metering g
    /\ forall id, swept cost now id (cell id g) (cell id g').
Proof.
  intros Hwf Hsh. unfold acquire_shard. rewrite <- (wf_shards g Hwf) in Hsh.
  destruct (lookup_lt_is_Some_2 _ _ Hsh) as [s Hs]. rewrite Hs. cbn.
  eexists. split; [done|]. split.
  { apply gov_wf_set_shard; [done|]. intros i Hi. simpl in Hi.
    destruct (is_multiple_of _ interval); [|by eapply wf_placed]. rewrite sweep_map_lookup in Hi.
    destruct (shard_map s !! i) eqn:E; [by eapply wf_placed|by destruct Hi]. }
  split_and!; try done. intros id.
  rewrite cell_set_shard by done. simpl. case_bool_decide as E; [|by left].
  assert (Hc : cell id g = shard_map s !! id) by (unfold cell, read_cell; by rewrite E, Hs).
  rewrite Hc. destruct (is_multiple_of _ interval); [|by left]. right. by rewrite sweep_map_lookup.
Qed.

Lemma acquire_all_spec cost now interval order g :
  gov_wf g -> Forall (fun sh => sh < 64)%nat order ->
  exists g', acquire_all cost now interval order g = Some g' /\ gov_wf g' /\ concurrent g' = concurrent g
    /\ g_store g' = g_store g /\ pending_metering g' = pending_metering g
    /\ forall id, swept cost now id (cell id g) (cell id g').
Proof.
  intros Hwf Ho. revert g Hwf. induction Ho as [|sh order Hsh _ IH]; intros g Hwf; simpl.
  { exists g. split_and!; try done. intros id. apply swept_refl. }
  destruct (acquire_shard_spec cost now interval sh g Hwf Hsh) as (g1 & -> & Hwf1 & Hc1 & Hst1 & Hp1 & Hs1). cbn.
  destruct (IH g1 Hwf1) as (g2 & -> & Hwf2 & Hc2 & Hst2 & Hp2 & Hs2). exists g2.
  split_and!; [done|done|congruence..|]. intros id. eapply swept_trans; [apply Hs1|apply Hs2].
Qed.

Lemma lock_order_lt ids : Forall (fun sh => sh < 64)%nat (lock_order ids).
Proof.
  apply Forall_forall. intros sh Hsh. apply lock_order_elem, list_elem_of_fmap in Hsh as (id & -> & _).
  apply shard_index_lt.
Qed.

(** ** Gauges *)

(** How often a name occurs. *)
Fixpoint occ (n : string) (names : list string) : Z :=
  match names with
  | [] => 0
  | m :: names => (if String.eqb m n then 1 else 0) + occ n names
  end.

Lemma occ_app n a b : occ n (a ++ b) = occ n a + occ n b.
Proof. induction a as [|m a IH]; simpl; lia. Qed.

Lemma occ_nonneg n names : 0 <= occ n names.
Proof. induction names as [|m names IH]; simpl; [lia|]. destruct (String.eqb m n); lia. Qed.

Lemma occ_notin n names : n ∉ names -> occ n names = 0.
Proof.
  induction names as [|m names IH]; simpl; [done|]. intros Hn. rewrite not_elem_of_cons in Hn.
  destruct Hn as [Hne Hn]. destruct (String.eqb_spec m n) as [->|]; [done|]. by rewrite IH.
Qed.

Lemma gauge_insert m v g n : gauge n (set_concurrent (<[m := v]> (concurrent g)) g) = if String.eqb m n then v else gauge n g.
Proof.
  unfold gauge. simpl. destruct (String.eqb_spec m n) as [->|]; [by rewrite lookup_insert_eq|].
  by rewrite lookup_insert_ne.
Qed.

(** Only gauges differ. *)
Definition same_cells g g' : Prop :=
  budget g' = budget g /\ g_store g' = g_store g /\ pending_metering g' = pending_metering g.

Lemma same_cells_cell g g' id : same_cells g g' -> cell id g' = cell id g.
Proof. intros (Hb & _). unfold cell, read_cell. by rewrite Hb. Qed.

Lemma same_cells_trans g1 g2 g3 : same_cells g1 g2 -> same_cells g2 g3 -> same_cells g1 g3.
Proof. unfold same_cells. intros (?&?&?) (?&?&?). split_and!; congruence. Qed.

Lemma drop_grant_spec grant g :
  gov_wf g -> (forall n, occ n (gauges grant) <= gauge n g) ->
  gov_wf (drop_grant grant g) /\ same_cells g (drop_grant grant g)
  /\ forall n, gauge n (drop_grant grant g) = gauge n g - occ n (gauges grant).
Proof.
  unfold drop_grant. destruct grant as [names]. simpl. revert g.
  induction names as [|m names IH]; intros g Hwf Hocc; simpl.
  { split_and!; try done. intros n. lia. }
  set (g1 := set_concurrent _ g).
  assert (Hg1 : forall n, gauge n g1 = gauge n g - (if String.eqb m n then 1 else 0)).
  { intros n. unfold g1. rewrite gauge_insert. destruct (String.eqb_spec m n) as [->|]; [|lia].
    specialize (Hocc n). simpl in Hocc. rewrite String.eqb_refl in Hocc. pose proof (occ_nonneg n names).
    pose proof (wf_gauges g Hwf n). unfold I64_MAX in *. apply wrap_i64_small. lia. }
  assert (Hwf1 : gov_wf g1).
  { split; [apply Hwf| |apply Hwf]. intros n. rewrite Hg1. specialize (Hocc n). simpl in Hocc.
    pose proof (occ_nonneg n names). pose proof (wf_gauges g Hwf n). destruct (String.eqb m n); lia. }
  destruct (IH g1 Hwf1) as (H1 & H2 & H3).
  { intros n. rewrite Hg1. specialize (Hocc n). simpl in Hocc. lia. }
  split; [done|]. split; [exact (same_cells_trans g g1 _ ltac:(done) H2)|].
  intros n. rewrite H3, Hg1. lia.
Qed.

Lemma try_hold_spec n cap g got g' :
  try_hold n cap g = (got, g') -> gov_wf g -> 0 <= cap ->
  gov_wf g' /\ same_cells g g' /\ got = (gauge n g <? i64_or_max cap)
  /\ forall m, gauge m g' = gauge m g + (if got && String.eqb n m then 1 else 0).
Proof.
  intros Ht Hwf Hcap. unfold try_hold in Ht. pose proof (wf_gauges g Hwf n) as Hn.
  set (g0 := set_concurrent (<[n := gauge n g]> (concurrent g)) g) in *.
  assert (Hg0 : forall m, gauge m g0 = gauge m g).
  { intros m. unfold g0. rewrite gauge_insert. by destruct (String.eqb_spec n m) as [->|]. }
  destruct (gauge n g <? i64_or_max cap) eqn:E; simplify_eq.
  - assert (Hg' : forall m, gauge m (set_concurrent (<[n := gauge n g + 1]> (concurrent g0)) g0)
              = gauge m g + (if true && String.eqb n m then 1 else 0)).
    { intros m. rewrite gauge_insert. simpl. destruct (String.eqb_spec n m) as [->|]; [done|]. rewrite Hg0. lia. }
    split; [|by split_and!]. split; [apply Hwf| |apply Hwf]. intros m. rewrite Hg'. simpl.
    pose proof (wf_gauges g Hwf m). unfold i64_or_max in E.
    destruct (String.eqb_spec n m) as [->|]; [|lia]. destruct (cap <=? I64_MAX) eqn:Ec; zbool; lia.
  - split; [split; [apply Hwf|intros m; rewrite Hg0; apply (wf_gauges g Hwf)|apply Hwf]|]. split_and!; try done.
    intros m. simpl. rewrite Hg0. lia.
Qed.

(** The names of the capped groups of a chain. *)
Definition held_names (groups : list GroupRuntime) (ixs : list nat) : list string :=
  omap (fun gi => gr ← groups !! gi; if concurrent_cap gr then Some (name gr) else None) ixs.

Lemma held_names_cap groups gi gr ixs cap :
  groups !! gi = Some gr -> concurrent_cap gr = Some cap ->
  held_names groups (gi :: ixs) = name gr :: held_names groups ixs.
Proof. intros Hg Hc. unfold held_names. simpl. rewrite Hg. cbn. by rewrite Hc. Qed.

Lemma held_names_nocap groups gi gr ixs :
  groups !! gi = Some gr -> concurrent_cap gr = None ->
  held_names groups (gi :: ixs) = held_names groups ixs.
Proof. intros Hg Hc. unfold held_names. simpl. rewrite Hg. cbn. by rewrite Hc. Qed.

(** Every gauge of the chain has room. *)
Definition gauges_have_room (groups : list GroupRuntime) (ixs : list nat) g : Prop :=
  Forall (fun gi => forall gr cap, groups !! gi = Some gr -> concurrent_cap gr = Some cap ->
    gauge (name gr) g < i64_or_max cap) ixs.

Definition chain_valid (groups : list GroupRuntime) (ixs : list nat) : Prop :=
  Forall (fun gi => is_Some (groups !! gi)) ixs.

Definition caps_nonneg (groups : list GroupRuntime) : Prop :=
  Forall (fun gr => forall cap, concurrent_cap gr = Some cap -> 0 <= cap) groups.

Lemma hold_all_spec groups ixs grant g :
  gov_wf g -> chain_valid groups ixs -> caps_nonneg groups ->
  (forall n, occ n (gauges grant) <= gauge n g) -> NoDup (held_names groups ixs) ->
  exists r g', hold_all groups ixs grant g = Some (r, g') /\ gov_wf g' /\ same_cells g g'
    /\ match r with
       | Ok grant' => gauges grant' = gauges grant ++ held_names groups ixs
           /\ gauges_have_room groups ixs g
           /\ forall n, gauge n g' = gauge n g + occ n (held_names groups ixs)
       | Err full => ~ gauges_have_room groups ixs g
           /\ (exists gi gr cap, gi ∈ ixs /\ groups !! gi = Some gr /\ concurrent_cap gr = Some cap
                 /\ name gr = full /\ i64_or_max cap <= gauge full g)
           /\ forall n, gauge n g' = gauge n g - occ n (gauges grant)
       end.
Proof.
  intros Hwf Hv Hcaps. revert grant g Hwf.
  induction Hv as [|gi ixs [gr Hgr] Hv IH]; intros grant g Hwf Hocc Hnd; simpl.
  { exists (Ok grant), g. split_and!; try done; [by rewrite app_nil_r|by constructor|]. intros n. simpl. lia. }
  rewrite Hgr. cbn [mbind option_bind].
  assert (Hcap0 : forall cap, concurrent_cap gr = Some cap -> 0 <= cap).
  { intros cap. unfold caps_nonneg in Hcaps. rewrite Forall_forall in Hcaps. apply Hcaps.
    by eapply list_elem_of_lookup_2. }
  destruct (concurrent_cap gr) as [cap|] eqn:Ecap.
  2: { rewrite (held_names_nocap _ _ _ _ Hgr Ecap) in *.
       destruct (IH grant g Hwf Hocc Hnd) as (r & g' & -> & Hwf' & Hsc & Hr). exists r, g'.
       split_and!; try done. destruct r as [grant'|full].
       - destruct Hr as (H1 & H2 & H3). split_and!; [done| |done].
         constructor; [|done]. intros gr' cap Hgr' Hc. congruence.
       - destruct Hr as (H1 & (gi' & gr' & cap & Hin & Hrest) & H3). split_and!; [|by exists gi', gr', cap; split; [right|]|done].
         intros Hroom. apply H1. by apply Forall_cons in Hroom as [_ Hroom]. }
  rewrite (held_names_cap _ _ _ _ _ Hgr Ecap) in *. apply NoDup_cons in Hnd as [Hnotin Hnd].
  destruct (try_hold (name gr) cap g) as [got g1] eqn:Et.
  destruct (try_hold_spec _ _ _ _ _ Et Hwf (Hcap0 cap eq_refl)) as (Hwf1 & Hsc1 & Hgot & Hg1).
  destruct got; simpl in Hg1; symmetry in Hgot; zbool.
  - destruct (IH (mkGrant (gauges grant ++ [name gr])) g1 Hwf1) as (r & g' & -> & Hwf' & Hsc & Hr).
    { intros n. simpl. rewrite occ_app, Hg1. simpl. specialize (Hocc n). lia. }
    { done. }
    exists r, g'. split; [done|]. split; [done|]. split; [by eapply same_cells_trans|].
    destruct r as [grant'|full].
    + destruct Hr as (H1 & H2 & H3). split_and!.
      * simpl in H1. by rewrite H1, <- app_assoc.
      * constructor.
        { intros gr' cap' Hgr' Hc. assert (gr' = gr) as -> by congruence. by assert (cap' = cap) as -> by congruence. }
        unfold gauges_have_room in *. eapply Forall_impl; [exact H2|]. simpl. intros gi' Hgi' gr' cap' Hgr' Hc.
        specialize (Hgi' gr' cap' Hgr' Hc). rewrite Hg1 in Hgi'. destruct (String.eqb (name gr) (name gr')); lia.
      * intros n. rewrite H3, Hg1. simpl. lia.
    + destruct Hr as (H1 & (gi' & gr' & cap' & Hin & Hgr' & Hcap' & Hname & Hfull) & H3).
      assert (Hne : name gr <> full).
      { intros Heq. apply Hnotin. apply list_elem_of_omap. exists gi'. split; [done|].
        rewrite Hgr'. cbn. rewrite Hcap'. congruence. }
      rewrite Hg1 in Hfull. apply String.eqb_neq in Hne. rewrite Hne in Hfull. split_and!.
      * intros Hroom. unfold gauges_have_room in Hroom. apply Forall_cons in Hroom as [_ Hroom].
        rewrite Forall_forall in Hroom. specialize (Hroom _ Hin gr' cap' Hgr' Hcap'). rewrite Hname in Hroom. lia.
      * exists gi', gr', cap'. split_and!; [by right|done..|lia].
      * intros n. rewrite H3, Hg1. simpl. rewrite occ_app. simpl. lia.
  - assert (Hocc1 : forall n, occ n (gauges grant) <= gauge n g1).
    { intros n. rewrite Hg1. specialize (Hocc n). lia. }
    destruct (drop_grant_spec grant g1 Hwf1 Hocc1) as (H1 & H2 & H3).
    eexists _, _. split; [done|]. split; [done|]. split; [by eapply same_cells_trans|]. split_and!.
    + intros Hroom. unfold gauges_have_room in Hroom. apply Forall_cons in Hroom as [Hroom _].
      specialize (Hroom gr cap Hgr Ecap). lia.
    + exists gi, gr, cap. split_and!; [by left|done..].
    + intros n. rewrite H3, Hg1. lia.
Qed.
End gov.
