(* ===== verification/GovCheck.v ===== *)
(** * GovCheck: the check and the charge of an admission

    Which buckets a chain has, why sweeping a shard never changes what a capped bucket's check reads,
    and what the two passes of the critical section do to the cells. *)

From stdpp Require Import sorting.
From S2P Require Import Prelude Float64 Breaker Windows Ledger Groups CostModel Governance GovSpec.

#[local] Open Scope Z_scope.

(** ** The buckets of a model and of a chain *)

Definition all_buckets (cost : CostModel) : list GroupBucket := cm_groups cost ≫= buckets.

Record cost_wf (cost : CostModel) : Prop := {
  wf_capped : cm_capped cost = capped_bucket_ids (cm_groups cost);
  wf_ids : NoDup (bucket_id <$> all_buckets cost);
  wf_words : Forall (fun b => exists w, window b = window_str w) (all_buckets cost);
  wf_caps : caps_nonneg (cm_groups cost)
}.

Lemma capped_enforces cost b :
  cost_wf cost -> b ∈ all_buckets cost -> bucket_capped b = true ->
  still_enforces_a_cap cost (bucket_id b) = true.
Proof.
  intros Hwf Hb Hc. unfold still_enforces_a_cap, bucket_enforces_a_cap. rewrite (wf_capped cost Hwf).
  apply bool_decide_true. unfold capped_bucket_ids. apply elem_of_list_to_set, list_elem_of_fmap.
  exists b. split; [done|]. apply list_elem_of_filter. by rewrite Hc.
Qed.

(** Where a bucket of a chain comes from. *)
Definition from_model (cost : CostModel) (key : VirtualKey) (b : ChainBucket) : Prop :=
  b = key_bucket key \/ exists gr gb, gb ∈ all_buckets cost /\ b = chain_bucket gr gb.

Lemma walk_chain_buckets fuel cost key next bs walked chain :
  walk_chain fuel (cm_groups cost) next bs walked = Some chain ->
  Forall (from_model cost key) bs -> chain_valid (cm_groups cost) walked ->
  Forall (from_model cost key) (chain_buckets chain) /\ chain_valid (cm_groups cost) (chain_groups chain).
Proof.
  revert next bs walked. induction fuel as [|fuel IH]; intros next bs walked Hw Hbs Hv; simpl in Hw.
  { destruct next; [done|]. by injection Hw as <-. }
  destruct next as [i|]; [|by injection Hw as <-].
  destruct (_ <=? _)%nat; [by injection Hw as <-|].
  apply bind_Some_inv in Hw as (gr & Hgr & Hw). apply IH in Hw; [done| |].
  - apply Forall_app. split; [done|]. apply Forall_fmap, Forall_forall. intros gb Hgb. right.
    exists gr, gb. split; [|done]. unfold all_buckets. apply list_elem_of_bind.
    exists gr. split; [done|]. by eapply list_elem_of_lookup_2.
  - unfold chain_valid. apply Forall_app. split; [done|]. apply Forall_singleton. by eexists.
Qed.

Lemma chain_for_buckets cost key chain :
  chain_for cost key = Some (Ok chain) ->
  Forall (from_model cost key) (chain_buckets chain) /\ chain_valid (cm_groups cost) (chain_groups chain).
Proof.
  unfold chain_for, chain_of.
  destruct (match key_group key with None => _ | Some n => _ end) as [next|missing]; [|done].
  intros Hc. apply bind_Some_inv in Hc as (c & Hw & Hc). injection Hc as ->.
  eapply walk_chain_buckets; [exact Hw| |constructor]. apply Forall_singleton. by left.
Qed.

Lemma capped_from_group cost key b :
  from_model cost key b -> chain_bucket_capped b = true ->
  exists gr gb, gb ∈ all_buckets cost /\ b = chain_bucket gr gb /\ bucket_capped gb = true.
Proof.
  intros [->|(gr & gb & Hgb & ->)] Hc; [done|]. by exists gr, gb.
Qed.

(** ** Well-formed cells *)

Definition tiers_ok (t : TierTokens) : Prop :=
  is_u64 (t_input t) /\ is_u64 (t_output t) /\ is_u64 (t_cache_read t) /\ is_u64 (t_cache_write t).

Definition cell_ok (c : BudgetCell) : Prop :=
  is_u64 (bc_requests c) /\ is_u64 (bc_billable c) /\ is_u64 (window_start c)
  /\ Forall (fun m => tiers_ok (mc_cur m)) (bc_models c).

(** A cell's window is one of its bucket's. *)
Definition aligned (p : string) (w : Z) : Prop := exists t, 0 <= t <= 2 ^ 62 /\ w = budget_window p t.

Lemma total_zero t : tiers_ok t -> total t = 0 -> t = TierTokens_default.
Proof.
  destruct t as [a b c d]. unfold tiers_ok, is_u64, total, sat_add, U64_MAX, TierTokens_default. simpl.
  intros. f_equal; lia.
Qed.

Lemma sat_fold_skip (f : ModelCell -> Z) ms acc :
  acc <= U64_MAX -> Forall (fun m => model_alive m = false -> f m = 0) ms ->
  foldl (fun acc m => acc +sat f m) acc (filter (fun m => Is_true (model_alive m)) ms)
  = foldl (fun acc m => acc +sat f m) acc ms.
Proof.
  intros Ha Hf. revert acc Ha. induction Hf as [|m ms Hm _ IH]; intros acc Ha; [done|]. rewrite filter_cons.
  destruct (model_alive m) eqn:E.
  - rewrite decide_True by done. simpl. apply IH. unfold sat_add. lia.
  - rewrite decide_False by (by intros []). simpl. rewrite (Hm eq_refl).
    assert (acc +sat 0 = acc) as -> by (unfold sat_add; lia). by apply IH.
Qed.

Lemma dead_zero m : model_alive m = false -> total (mc_cur m) = 0.
Proof. unfold model_alive. intros Hd. by zbool. Qed.

Lemma prune_total_tokens c : cell_total_tokens (prune_dead_models c) = cell_total_tokens c.
Proof.
  unfold cell_total_tokens. simpl. apply sat_fold_skip; [unfold U64_MAX; lia|].
  apply Forall_true. intros m. apply dead_zero.
Qed.

Lemma cost_nanos_zero r : cost_nanos r TierTokens_default = 0.
Proof. unfold cost_nanos, TierTokens_default, wrap. simpl. done. Qed.

Lemma prune_ledger cost c :
  cell_ok c -> ledger_nanos cost (model_views (prune_dead_models c)) = ledger_nanos cost (model_views c).
Proof.
  intros (_ & _ & _ & Hf). unfold ledger_nanos, model_views, prune_dead_models, set_models. simpl.
  assert (Hacc : 0 <= U128_MAX) by (unfold U128_MAX; lia). revert Hacc. generalize 0 as acc.
  induction Hf as [|m ms Hm _ IH]; intros acc Hacc; [done|]. rewrite filter_cons.
  destruct (model_alive m) eqn:E.
  - rewrite decide_True by done. simpl. apply IH. destruct (rate_for cost (mc_model m)); lia.
  - rewrite decide_False by (by intros []). simpl.
    rewrite (total_zero _ Hm (dead_zero _ E)).
    destruct (rate_for cost (mc_model m)) as [r|]; [|by apply IH].
    rewrite cost_nanos_zero, Z.add_0_r, Z.min_l by done. by apply IH.
Qed.

Lemma prune_derive cost c fr fee :
  cell_ok c ->
  derive_spend_cents cost (model_views (prune_dead_models c)) fr fee
  = derive_spend_cents cost (model_views c) fr fee.
Proof. intros Hc. unfold derive_spend_cents. by rewrite prune_ledger. Qed.

Lemma prune_ok c : cell_ok c -> cell_ok (prune_dead_models c).
Proof.
  intros (H1 & H2 & H3 & H4). split_and!; try done. simpl. apply Forall_forall. intros m Hm.
  apply list_elem_of_filter in Hm as [_ Hm]. rewrite Forall_forall in H4. by apply H4.
Qed.

(** ** Sweeping never changes what a capped bucket's check reads *)

Lemma rolling_word w : rolls (window_str w) = bool_decide (w <> Total).
Proof. by destruct w. Qed.

Lemma month_window_len now :
  0 <= now <= 2 ^ 62 -> now < budget_window WINDOW_MONTH now + 31 * SECS_PER_DAY.
Proof.
  intros Hnow. destruct (month_tiles now Hnow) as [(e & He & Hin & Hlt & _) (n & Hs & He')].
  rewrite He in He'. injection He' as ->. rewrite Hs in *.
  pose proof (days_in_month_range (1970 + Z.of_nat n / 12) (Z.of_nat n mod 12 + 1)).
  unfold month_epoch, SECS_PER_DAY in *. simpl month_day in *. lia.
Qed.

(** A window is never older than the retention of the cells. *)
Lemma window_young w now :
  0 <= now <= 2 ^ 62 -> w <> Total ->
  now < budget_window (window_str w) now + 31 * SECS_PER_DAY.
Proof.
  intros Hnow Hw. destruct w; try done.
  4: { by apply month_window_len. }
  all: change (budget_window (window_str _) now) with (now / 60 * 60) || change (budget_window (window_str _) now) with (now / 3600 * 3600)
    || change (budget_window (window_str _) now) with (now / SECS_PER_DAY * SECS_PER_DAY); unfold SECS_PER_DAY.
  - destruct (fixed_window 60 now ltac:(lia) ltac:(lia)) as [? _]. lia.
  - destruct (fixed_window 3600 now ltac:(lia) ltac:(lia)) as [? _]. lia.
  - destruct (fixed_window 86400 now ltac:(lia) ltac:(lia)) as [? _]. lia.
Qed.

Lemma live_kept cost now b c :
  cost_wf cost -> b ∈ all_buckets cost -> bucket_capped b = true ->
  0 <= now <= 2 ^ 62 -> cell_ok c -> aligned (window b) (window_start c) ->
  budget_window (window b) now <= window_start c ->
  cell_kept cost now (bucket_id b) c = true.
Proof.
  intros Hwf Hb Hc Hnow Hok (t & Ht & Hal) Hlive. unfold cell_kept.
  destruct (window_start c =? 0) eqn:Ez; simpl.
  { by rewrite (capped_enforces cost b Hwf Hb Hc). }
  zbool. pose proof (wf_words cost Hwf) as Hw. rewrite Forall_forall in Hw. destruct (Hw b Hb) as [w Ew].
  rewrite Ew in *. apply Z.ltb_lt. destruct (decide (w = Total)) as [->|Hne].
  - exfalso. apply Ez. rewrite Hal. by vm_compute.
  - pose proof (window_young w now Hnow Hne). destruct Hok as (_ & _ & Hu & _).
    unfold sat_add, is_u64, U64_MAX, SECS_PER_DAY in *. lia.
Qed.

(** The counters of a bucket are those of its cell, before and after any sweep. *)
Lemma live_counters_swept cost key b now c c' :
  cost_wf cost -> from_model cost key b -> chain_bucket_capped b = true -> 0 <= now <= 2 ^ 62 ->
  (forall x, c = Some x -> cell_ok x /\
    forall gb, gb ∈ all_buckets cost -> bucket_id gb = cb_id b -> aligned (window gb) (window_start x)) ->
  swept cost now (cb_id b) c c' ->
  live_counters cost b (budget_window (cb_window b) now) c'
  = live_counters cost b (budget_window (cb_window b) now) c.
Proof.
  intros Hwf Hfrom Hcap Hnow Hok [->|Hsw]; [done|].
  destruct (capped_from_group _ _ _ Hfrom Hcap) as (gr & gb & Hgb & -> & Hgc). simpl in *.
  destruct c as [x|]; [|by rewrite Hsw]. destruct (Hok x eq_refl) as [Hx Hal].
  subst c'. cbn [sweep_opt chain_bucket cb_window cb_id]. change (cb_window (chain_bucket gr gb)) with (window gb).
  destruct (budget_window (window gb) now <=? window_start x) eqn:El; zbool.
  - rewrite (live_kept cost now gb x) by auto. unfold live_counters.
    simpl window_start. rewrite (proj2 (Z.leb_le _ _)) by done.
    by rewrite prune_total_tokens, prune_derive.
  - assert (Hstale : forall y, y = None \/ (exists z, y = Some z /\ window_start z = window_start x) ->
      live_counters cost (chain_bucket gr gb) (budget_window (window gb) now) y = (0, 0, 0)).
    { intros y [->|(z & -> & Hz)]; [done|]. unfold live_counters. rewrite Hz.
      by rewrite (proj2 (Z.leb_gt _ _)) by lia. }
    rewrite (Hstale (Some x)) by (right; by exists x). apply Hstale.
    destruct (cell_kept cost now (bucket_id gb) x); [|by left]. right. by eexists.
Qed.

(** ** The two passes *)

Section passes.
Context {St : Type} `{DurableStore St}.
Implicit Types g : GovState St.

(** The metric that blocks a bucket in a state, if any. *)
Definition blocks (cost : CostModel) (now : Z) g (b : ChainBucket) : option string :=
  if chain_bucket_capped b then
    let '(requests, tokens, derived) :=
      live_counters cost b (budget_window (cb_window b) now) (cell (cb_id b) g) in
    blocked_metric (price_per_request_cents cost) b requests tokens derived
  else None.

Definition admits (cost : CostModel) (now : Z) g (b : ChainBucket) : Prop := blocks cost now g b = None.

(** What a rejection by a bucket says. *)
Definition rejection (now : Z) (b : ChainBucket) (metric group : string) : LimitBlocked :=
  LB_Limit group metric (Some (cb_window b)) (value <$> cb_scope b)
    (if String.eqb metric "budget" then value <$> cb_downgrade_to b else None)
    ((fun e => Z.max (e -sat now) 1) <$> window_end (cb_window b) now).

(** The cell a charge leaves. *)
Definition charged (now : Z) (b : ChainBucket) (c : option BudgetCell) : BudgetCell :=
  touch now (charge (resolve_cell (budget_window (cb_window b) now) c)).

Lemma guarded_shard order b g :
  gov_wf g -> shard_index (cb_id b) ∈ order ->
  exists gi s, guard_for order (shard_index (cb_id b)) = Some gi
    /\ order !! gi = Some (shard_index (cb_id b)) /\ budget g !! shard_index (cb_id b) = Some s
    /\ cell (cb_id b) g = shard_map s !! cb_id b.
Proof.
  intros Hwf Hin. destruct (guard_for_spec order _ Hin) as (gi & Hgi & Ho).
  destruct (shard_exists g (cb_id b) Hwf) as [s Hs]. exists gi, s. split_and!; try done.
  unfold cell, read_cell. by rewrite Hs.
Qed.

Lemma check_bucket_spec cost now order b g :
  gov_wf g -> shard_index (cb_id b) ∈ order -> (chain_bucket_capped b = true -> is_Some (cb_group b)) ->
  exists r, check_bucket cost now order b g = Some r
    /\ match r with
       | None => admits cost now g b
       | Some lb => exists m gr, blocks cost now g b = Some m /\ cb_group b = Some gr /\ lb = rejection now b m gr
       end.
Proof.
  intros Hwf Hin Hgr. unfold check_bucket, admits, blocks.
  destruct (chain_bucket_capped b) eqn:Ec; simpl; [|by exists None].
  destruct (guarded_shard order b g Hwf Hin) as (gi & s & -> & Ho & Hs & Hc). cbn [mbind option_bind].
  rewrite Ho. cbn [mbind option_bind]. rewrite Hs. cbn [mbind option_bind]. rewrite Hc.
  destruct (live_counters _ _ _ _) as [[rq tk] d].
  destruct (blocked_metric _ _ _ _ _) as [m|] eqn:Em; [|by exists None].
  destruct (Hgr eq_refl) as [gr Egr]. rewrite Egr. cbn. eexists. split; [done|]. by exists m, gr.
Qed.

Lemma check_all_spec cost now order bs g :
  gov_wf g -> Forall (fun b => shard_index (cb_id b) ∈ order /\ (chain_bucket_capped b = true -> is_Some (cb_group b))) bs ->
  exists r, check_all cost now order bs g = Some r
    /\ match r with
       | None => Forall (admits cost now g) bs
       | Some lb => exists pre b post m gr, bs = pre ++ b :: post /\ Forall (admits cost now g) pre
           /\ blocks cost now g b = Some m /\ cb_group b = Some gr /\ lb = rejection now b m gr
       end.
Proof.
  intros Hwf. induction 1 as [|b bs [Hin Hgr] _ IH]; simpl; [by exists None|].
  destruct (check_bucket_spec cost now order b g Hwf Hin Hgr) as (r & -> & Hr). cbn.
  destruct r as [lb|].
  - destruct Hr as (m & gr & Hb & Hg & ->). eexists. split; [done|]. by exists [], b, bs, m, gr.
  - destruct IH as (r & -> & Hr'). eexists. split; [done|]. destruct r as [lb|]; [|by constructor].
    destruct Hr' as (pre & b' & post & m & gr & -> & Hpre & Hrest). exists (b :: pre), b', post, m, gr.
    split_and!; try done; [by constructor|..]; by apply Hrest.
Qed.

Lemma charge_bucket_spec now order b g :
  gov_wf g -> shard_index (cb_id b) ∈ order ->
  exists g', charge_bucket now order b g = Some g' /\ gov_wf g' /\ concurrent g' = concurrent g
    /\ g_store g' = g_store g /\ pending_metering g' = pending_metering g
    /\ forall id, cell id g' = if bool_decide (id = cb_id b) then Some (charged now b (cell id g)) else cell id g.
Proof.
  intros Hwf Hin. unfold charge_bucket.
  destruct (guarded_shard order b g Hwf Hin) as (gi & s & -> & Ho & Hs & Hc). cbn [mbind option_bind].
  rewrite Ho. cbn [mbind option_bind]. rewrite Hs. cbn [mbind option_bind].
  eexists. split; [done|]. split.
  { apply gov_wf_set_shard; [done|]. intros i Hi. simpl in Hi. destruct (decide (i = cb_id b)) as [->|Hne]; [done|].
    rewrite lookup_insert_ne in Hi by done. by eapply wf_placed. }
  split_and!; try done. intros id.
  rewrite cell_set_shard by by eapply lookup_lt_Some. simpl. destruct (decide (id = cb_id b)) as [->|Hne].
  - rewrite !bool_decide_true by done. rewrite lookup_insert_eq. unfold charged. by rewrite Hc.
  - rewrite (bool_decide_false (id = cb_id b)) by done. case_bool_decide as E; [|done].
    rewrite lookup_insert_ne by done. unfold cell, read_cell. by rewrite E, Hs.
Qed.

Lemma charge_all_spec now order bs g :
  gov_wf g -> Forall (fun b => shard_index (cb_id b) ∈ order) bs -> NoDup (cb_id <$> bs) ->
  exists g', charge_all now order bs g = Some g' /\ gov_wf g' /\ concurrent g' = concurrent g
    /\ g_store g' = g_store g /\ pending_metering g' = pending_metering g
    /\ (forall b, b ∈ bs -> cell (cb_id b) g' = Some (charged now b (cell (cb_id b) g)))
    /\ forall id, id ∉ cb_id <$> bs -> cell id g' = cell id g.
Proof.
  intros Hwf Hin. revert g Hwf. induction Hin as [|b bs Hb _ IH]; intros g Hwf Hnd; simpl.
  { exists g. split_and!; try done. by intros b ?%elem_of_nil. }
  csimpl in Hnd. apply NoDup_cons in Hnd as [Hni Hnd].
  destruct (charge_bucket_spec now order b g Hwf Hb) as (g1 & -> & Hwf1 & Hc1 & Hs1 & Hp1 & Hcell1). cbn.
  destruct (IH g1 Hwf1 Hnd) as (g2 & -> & Hwf2 & Hc2 & Hs2 & Hp2 & Hin2 & Hout2). exists g2.
  split_and!; try done; try congruence.
  - intros b' [->|Hb']%elem_of_cons.
    + rewrite Hout2, Hcell1 by done. by rewrite bool_decide_true.
    + rewrite Hin2, Hcell1 by done. rewrite bool_decide_false; [done|]. intros Heq. apply Hni. rewrite <- Heq.
      apply list_elem_of_fmap. by exists b'.
  - intros id Hid. csimpl in Hid. apply not_elem_of_cons in Hid as [Hne Hid].
    rewrite Hout2, Hcell1 by done. by rewrite bool_decide_false.
Qed.
End passes.

(** * a concrete store and a concrete model

    A map of ledgers whose calls fail on demand satisfies the store's contract; a small group tree with
    its model and state is what the witnesses run on. *)


(** Ledgers, keys, and what each coming call does: [true] fails. *)
Record MapStore := mkMapStore { ms_ledgers : gmap (string * Z) UsageLedger; ms_keys : list VirtualKey; ms_fails : list bool }.

Definition ms_ledger (s : MapStore) (b : string) (w : Z) : UsageLedger :=
  default UsageLedger_default (ms_ledgers s !! (b, w)).

(** One call: its fate, and the rest of the schedule. *)
Definition ms_call (s : MapStore) : bool * MapStore :=
  match ms_fails s with
  | [] => (false, s)
  | f :: fs => (f, mkMapStore (ms_ledgers s) (ms_keys s) fs)
  end.

Definition ms_result {A} (a : A) (s : MapStore) : Result A string * MapStore :=
  let (f, s) := ms_call s in ((if (f : bool) then Err "down"%string else Ok a), s).

Definition ms_add_usage (b : string) (w : Z) (d : UsageDelta) (s : MapStore) : Result unit string * MapStore :=
  let (f, s) := ms_call s in
  if (f : bool) then (Err "down"%string, s)
  else (Ok tt, mkMapStore (<[(b, w) := apply_delta (ms_ledger s b w) d]> (ms_ledgers s)) (ms_keys s) (ms_fails s)).

Lemma ms_call_keeps s : ms_ledgers (ms_call s).2 = ms_ledgers s.
Proof. unfold ms_call. by destruct (ms_fails s). Qed.

Lemma ms_result_keeps {A} (a : A) s b w : ms_ledger (ms_result a s).2 b w = ms_ledger s b w.
Proof.
  unfold ms_result, ms_ledger. pose proof (ms_call_keeps s) as Hk. destruct (ms_call s) as [f s']. simpl in *.
  by rewrite Hk.
Qed.

#[export] Instance map_store : DurableStore MapStore.
Proof.
  refine {| store_ledger := ms_ledger;
            store_get_usage := fun b w s => ms_result (ms_ledger s b w) s;
            store_add_usage := ms_add_usage;
            store_add_metering := fun _ s => ms_result tt s;
            store_list_keys := fun s => ms_result (ms_keys s) s;
            store_get_key := fun id s => ms_result (List.find (fun k => String.eqb (key_id k) id) (ms_keys s)) s |}.
  - intros b w s. unfold ms_result. destruct (ms_call s) as [[] ?]; simpl; [right; by eexists|by left].
  - intros b w s b' w'. apply ms_result_keeps.
  - intros s b w. apply ms_result_keeps.
  - intros id s b w. apply ms_result_keeps.
  - intros d s b w. apply ms_result_keeps.
  - intros b w d s b' w'. unfold ms_add_usage. pose proof (ms_call_keeps s) as Hk.
    destruct (ms_call s) as [[] s1]; simpl in *; unfold ms_ledger at 1; simpl; [by rewrite Hk|].
    case_bool_decide as E; [rewrite E, lookup_insert_eq|rewrite lookup_insert_ne by congruence];
      unfold ms_ledger; by rewrite Hk.
Defined.

(** ** The model *)

Definition gov_groups : list (string * GroupCfg) :=
  [("org"%string, mkGroupCfg None true
      [mkLimit Budget 500 (Some Month) None None None; mkLimit Concurrent 8 None None None None] None);
   ("team"%string, mkGroupCfg (Some "org"%string) true
      [mkLimit Requests 2 (Some Minute) None None None;
       mkLimit Tokens 1000 (Some Total) (Some (scope_pool "fast")) None None] None)].

Definition gov_cost : CostModel := resolve_parts (Some [("gpt-4o"%string, demo_rate 3)]) 2 gov_groups.

Definition gov_key : VirtualKey :=
  mkKey "vk_1" "binding:vk_1:0" "ci" None true 0 (Some "team"%string) [] None None 0.

Definition gov_chain : Chain :=
  match chain_for gov_cost gov_key with Some (Ok chain) => chain | _ => mkChain [] [] end.

Lemma gov_chain_for : chain_for gov_cost gov_key = Some (Ok gov_chain).
Proof. by vm_compute. Qed.

Lemma gov_cost_wf : cost_wf gov_cost.
Proof.
  split; [done|apply (bool_decide_unpack _); by vm_compute|..].
  - repeat (apply Forall_cons; split); [by exists Month|by exists Minute|by exists Total|constructor].
  - repeat (apply Forall_cons; split); [..|constructor]; intros cap Hc; vm_compute in Hc; congruence || (injection Hc as <-; lia).
Qed.

Definition gov_start : GovState MapStore := GovState_new (mkMapStore ∅ [gov_key] []).

(** * the theorems of admission

    An admission is one atomic decision over the whole chain: it charges every bucket and takes every
    in-flight slot, or it leaves no trace at all. [GovRuns] and [GovSettle] build on it. *)


Lemma aligned_now p now : 0 <= now <= 2 ^ 62 -> aligned p (budget_window p now).
Proof. intros. by exists now. Qed.

Lemma aligned_zero w : aligned (window_str w) 0.
Proof. exists 0. split; [lia|]. by destruct w; vm_compute. Qed.

Lemma budget_window_u64 p now : 0 <= now <= 2 ^ 62 -> is_u64 (budget_window p now) /\ budget_window p now <= now.
Proof.
  intros Hnow. pose proof (windows_lower p now Hnow) as Hw. unfold is_u64, U64_MAX. lia.
Qed.

(** ** The invariant *)

Section admission.
Context {St : Type} `{DurableStore St}.
Implicit Types g : GovState St.

(** A cell is well formed, and in a window of the bucket it belongs to. *)
Definition good_cell (cost : CostModel) (id : string) (c : BudgetCell) : Prop :=
  cell_ok c /\ forall gb, gb ∈ all_buckets cost -> bucket_id gb = id -> aligned (window gb) (window_start c).

Definition gov_inv (cost : CostModel) g : Prop :=
  gov_wf g /\ forall id c, cell id g = Some c -> good_cell cost id c.

Lemma cell_new (st : St) id : cell id (GovState_new st) = None.
Proof.
  unfold cell, read_cell. change (budget (GovState_new st)) with (replicate (Z.to_nat GOV_SHARDS) (mkShard ∅ 0)).
  destruct (_ !! shard_index id) as [s|] eqn:E; [|done].
  apply lookup_replicate in E as [-> _]. simpl. apply lookup_empty.
Qed.

Lemma gov_inv_new cost (st : St) : gov_inv cost (GovState_new st).
Proof.
  split; [split|].
  - apply length_replicate.
  - intros n. unfold gauge. simpl. rewrite lookup_empty. simpl. unfold I64_MAX. lia.
  - intros sh s id Hs [c Hc]. change (budget (GovState_new st)) with (replicate (Z.to_nat GOV_SHARDS) (mkShard ∅ 0)) in Hs.
    apply lookup_replicate in Hs as [-> _]. simpl in Hc. by rewrite lookup_empty in Hc.
  - intros id c Hc. by rewrite cell_new in Hc.
Qed.

Lemma good_swept cost now id c c' :
  swept cost now id c c' -> (forall x, c = Some x -> good_cell cost id x) ->
  forall x, c' = Some x -> good_cell cost id x.
Proof.
  intros [->|Hs] Hg x Hx; [by apply Hg|]. rewrite Hx in Hs. destruct c as [y|]; [|done]. simpl in Hs.
  destruct (cell_kept cost now id y); [|done]. injection Hs as ->. destruct (Hg y eq_refl) as [Hok Hal].
  split; [by apply prune_ok|done].
Qed.

(** The window a bucket of the chain is in is one of its own. *)
Lemma chain_aligned cost key b gb now :
  cost_wf cost -> from_model cost key b -> 0 <= now <= 2 ^ 62 -> gb ∈ all_buckets cost -> bucket_id gb = cb_id b ->
  aligned (window gb) (budget_window (cb_window b) now).
Proof.
  intros Hwf Hfrom Hnow Hgb Hid. destruct Hfrom as [->|(gr & gb' & Hgb' & ->)]; simpl in *.
  - change (budget_window WINDOW_TOTAL now) with 0. pose proof (wf_words cost Hwf) as Hw.
    rewrite Forall_forall in Hw. destruct (Hw gb Hgb) as [w ->]. apply aligned_zero.
  - assert (gb = gb') as ->; [|by apply aligned_now].
    apply list_elem_of_lookup in Hgb as [i Hi], Hgb' as [j Hj]. pose proof (wf_ids cost Hwf) as Hnd.
    assert (i = j) as ->; [|congruence]. eapply (NoDup_lookup _ _ _ (bucket_id gb) Hnd).
    + by rewrite list_lookup_fmap, Hi.
    + rewrite list_lookup_fmap, Hj. simpl. by rewrite Hid.
Qed.

Lemma good_resolve cost key b now c :
  cost_wf cost -> from_model cost key b -> 0 <= now <= 2 ^ 62 ->
  (forall x, c = Some x -> good_cell cost (cb_id b) x) ->
  good_cell cost (cb_id b) (resolve_cell (budget_window (cb_window b) now) c).
Proof.
  intros Hwf Hfrom Hnow Hg.
  assert (Hfresh : good_cell cost (cb_id b) (cell_fresh (budget_window (cb_window b) now))).
  { split; [|intros gb Hgb Hid; by eapply chain_aligned].
    split_and!; try (simpl; unfold is_u64, U64_MAX; lia); [by apply budget_window_u64|constructor]. }
  unfold resolve_cell. destruct c as [x|]; [|done]. destruct (window_start x <? _); [done|by apply Hg].
Qed.

Lemma good_charged cost key b now c :
  cost_wf cost -> from_model cost key b -> 0 <= now <= 2 ^ 62 ->
  (forall x, c = Some x -> good_cell cost (cb_id b) x) -> good_cell cost (cb_id b) (charged now b c).
Proof.
  intros Hwf Hfrom Hnow Hg. destruct (good_resolve cost key b now c Hwf Hfrom Hnow Hg) as [(H1 & H2 & H3 & H4) Hal].
  split; [|done]. split_and!; try done; apply sat_add_u64; (done || lia).
Qed.

(** ** The critical section *)

Lemma admit_windowed_spec cost key now interval bs g :
  cost_wf cost -> gov_inv cost g -> 0 <= now <= 2 ^ 62 -> Forall (from_model cost key) bs ->
  NoDup (cb_id <$> bs) ->
  exists r g', admit_windowed cost now interval bs g = Some (r, g') /\ gov_inv cost g'
    /\ concurrent g' = concurrent g /\ g_store g' = g_store g /\ pending_metering g' = pending_metering g
    /\ match r with
       | None => Forall (admits cost now g) bs
           /\ (forall b, b ∈ bs -> exists c0, swept cost now (cb_id b) (cell (cb_id b) g) c0
                 /\ cell (cb_id b) g' = Some (charged now b c0))
           /\ forall id, id ∉ cb_id <$> bs -> swept cost now id (cell id g) (cell id g')
       | Some lb => (exists pre b post m gr, bs = pre ++ b :: post /\ Forall (admits cost now g) pre
               /\ blocks cost now g b = Some m /\ cb_group b = Some gr /\ lb = rejection now b m gr)
           /\ forall id, swept cost now id (cell id g) (cell id g')
       end.
Proof.
  intros Hwf [Hg Hgood] Hnow Hfrom Hnd. unfold admit_windowed. set (order := lock_order (cb_id <$> bs)).
  destruct (acquire_all_spec cost now interval order g Hg (lock_order_lt _)) as (g1 & -> & Hg1 & Hc1 & Hs1 & Hp1 & Hsw).
  cbn [mbind option_bind].
  assert (Hgood1 : forall id c, cell id g1 = Some c -> good_cell cost id c).
  { intros id. eapply good_swept; [apply Hsw|apply Hgood]. }
  assert (Hin : Forall (fun b => shard_index (cb_id b) ∈ order) bs).
  { apply Forall_forall. intros b Hb. unfold order. apply lock_order_elem.
    apply list_elem_of_fmap. exists (cb_id b). split; [done|]. apply list_elem_of_fmap. by exists b. }
  assert (Hblk : forall b, b ∈ bs -> blocks cost now g1 b = blocks cost now g b).
  { intros b Hb. unfold blocks. destruct (chain_bucket_capped b) eqn:Ecap; [|done].
    rewrite Forall_forall in Hfrom. erewrite live_counters_swept; [done|done|by apply Hfrom|done|done| |apply Hsw].
    intros x Hx. apply (Hgood _ _ Hx). }
  destruct (check_all_spec cost now order bs g1 Hg1) as (r & -> & Hr).
  { apply Forall_forall. intros b Hb. rewrite Forall_forall in Hin, Hfrom. split; [by apply Hin|]. intros Hcap.
    destruct (capped_from_group _ _ _ (Hfrom b Hb) Hcap) as (gr & gb & _ & -> & _). by eexists. }
  cbn [mbind option_bind]. destruct r as [lb|].
  - exists (Some lb), g1. split_and!; try done.
    + destruct Hr as (pre & b & post & m & gr & Hbs & Hpre & Hb & Hgr & ->). exists pre, b, post, m, gr.
      split_and!; try done; [|by rewrite <- Hblk by (rewrite Hbs; apply elem_of_app; right; left)].
      rewrite Forall_forall in Hpre |- *. intros b' Hb'. unfold admits. rewrite <- Hblk; [by apply Hpre|].
      rewrite Hbs. apply elem_of_app. by left.
  - destruct (charge_all_spec now order bs g1 Hg1 Hin Hnd) as (g2 & -> & Hg2 & Hc2 & Hs2 & Hp2 & Hin2 & Hout2).
    exists None, g2. cbn. split; [done|].
    assert (Hinv2 : gov_inv cost g2).
    { split; [done|]. intros id c Hc. destruct (decide (id ∈ cb_id <$> bs)) as [Hid|Hid].
      - apply list_elem_of_fmap in Hid as (b & -> & Hb). rewrite (Hin2 b Hb) in Hc. injection Hc as <-.
        rewrite Forall_forall in Hfrom. eapply good_charged; [done|by apply Hfrom|done|by apply Hgood1].
      - rewrite Hout2 in Hc by done. by apply Hgood1. }
    split; [done|]. split_and!; try congruence.
    + rewrite Forall_forall in Hr |- *. intros b Hb. unfold admits. rewrite <- Hblk by done. by apply Hr.
    + intros b Hb. eexists. split; [apply Hsw|]. by rewrite Hin2.
    + intros id Hid. rewrite Hout2 by done. apply Hsw.
Qed.

Lemma buckets_for_from cost key chain pool :
  chain_for cost key = Some (Ok chain) -> Forall (from_model cost key) (buckets_for chain pool).
Proof.
  intros Hc. apply chain_for_buckets in Hc as [Hf _]. rewrite Forall_forall in Hf |- *.
  intros b Hb. apply list_elem_of_filter in Hb as [_ Hb]. by apply Hf.
Qed.

Lemma buckets_for_NoDup chain pool :
  NoDup (cb_id <$> chain_buckets chain) -> NoDup (cb_id <$> buckets_for chain pool).
Proof.
  intros Hnd. unfold buckets_for. eapply sublist_NoDup; [exact Hnd|].
  apply (fmap_sublist cb_id), sublist_filter.
Qed.

Definition all_enabled (groups : list GroupRuntime) (ixs : list nat) : Prop :=
  Forall (fun gi => forall gr, groups !! gi = Some gr -> enabled gr = true) ixs.

Lemma first_disabled_spec groups ixs :
  chain_valid groups ixs ->
  exists r, first_disabled groups ixs = Some r
    /\ match r with
       | None => all_enabled groups ixs
       | Some n => ~ all_enabled groups ixs
           /\ exists gi gr, gi ∈ ixs /\ groups !! gi = Some gr /\ name gr = n /\ enabled gr = false
       end.
Proof.
  induction 1 as [|gi ixs [gr Hgr] _ IH]; simpl; [by exists None; split; [|constructor]|].
  rewrite Hgr. cbn [mbind option_bind]. destruct (enabled gr) eqn:Ee; simpl.
  - destruct IH as (r & -> & Hr). exists r. split; [done|]. destruct r as [n|].
    + destruct Hr as (Hno & gi' & gr' & Hin & Hrest). split; [|by exists gi', gr'; split; [right|]].
      intros Hall. apply Hno. by apply Forall_cons in Hall as [_ Hall].
    + constructor; [|done]. intros gr' Hgr'. congruence.
  - eexists. split; [done|]. split.
    + intros Hall. apply Forall_cons in Hall as [Hall _]. specialize (Hall gr Hgr). congruence.
    + exists gi, gr. split_and!; [by left|done..].
Qed.

(** What the chain of a key may not have twice. *)
Definition chain_distinct (cost : CostModel) (chain : Chain) : Prop :=
  NoDup (cb_id <$> chain_buckets chain) /\ NoDup (held_names (cm_groups cost) (chain_groups chain)).

(** Every limit of every group of the chain admits one more request. *)
Definition everything_admits (cost : CostModel) (chain : Chain) (pool : string) (now : Z) g : Prop :=
  all_enabled (cm_groups cost) (chain_groups chain)
  /\ gauges_have_room (cm_groups cost) (chain_groups chain) g
  /\ Forall (admits cost now g) (buckets_for chain pool).

(** The reason of a refusal is there to see in the state. *)
Definition refusal_true (cost : CostModel) (chain : Chain) (pool : string) (now : Z) g (lb : LimitBlocked) : Prop :=
  match lb with
  | LB_MissingGroup _ => False
  | LB_Disabled n => exists gi gr, gi ∈ chain_groups chain /\ cm_groups cost !! gi = Some gr /\ name gr = n
      /\ enabled gr = false
  | LB_Limit n metric window pool' down retry =>
      (metric = "concurrent"%string /\ window = None /\ retry = None
       /\ exists gi gr cap, gi ∈ chain_groups chain /\ cm_groups cost !! gi = Some gr /\ name gr = n
           /\ concurrent_cap gr = Some cap /\ i64_or_max cap <= gauge n g)
      \/ exists b, b ∈ buckets_for chain pool /\ blocks cost now g b = Some metric /\ cb_group b = Some n
           /\ LB_Limit n metric window pool' down retry = rejection now b metric n
  end.

(** Nothing was charged: gauges as they were, cells at most swept. *)
Definition nothing_charged (cost : CostModel) (now : Z) g g' : Prop :=
  (forall n, gauge n g' = gauge n g) /\ forall id, swept cost now id (cell id g) (cell id g').

(** The whole chain was charged, once. *)
Definition chain_charged (cost : CostModel) (chain : Chain) (pool : string) (now : Z) (grant : AdmitGrant) g g' : Prop :=
  gauges grant = held_names (cm_groups cost) (chain_groups chain)
  /\ (forall n, gauge n g' = gauge n g + occ n (gauges grant))
  /\ (forall b, b ∈ buckets_for chain pool -> exists c0, swept cost now (cb_id b) (cell (cb_id b) g) c0
        /\ cell (cb_id b) g' = Some (charged now b c0))
  /\ forall id, id ∉ cb_id <$> buckets_for chain pool -> swept cost now id (cell id g) (cell id g').

Lemma gov_inv_same_cells cost g g' : gov_inv cost g -> gov_wf g' -> same_cells g g' -> gov_inv cost g'.
Proof.
  intros [_ Hg] Hwf Hsc. split; [done|]. intros id c. rewrite (same_cells_cell g g') by done. apply Hg.
Qed.

Lemma admits_same_cells cost now g g' bs :
  same_cells g g' -> Forall (admits cost now g) bs <-> Forall (admits cost now g') bs.
Proof.
  intros Hsc. assert (He : forall b, blocks cost now g' b = blocks cost now g b).
  { intros b. unfold blocks. by rewrite (same_cells_cell g g'). }
  rewrite !Forall_forall. unfold admits. split; intros Hf b Hb; [rewrite He|rewrite <- He]; by apply Hf.
Qed.

Lemma gauge_same_concurrent g g' n : concurrent g' = concurrent g -> gauge n g' = gauge n g.
Proof. intros E. unfold gauge. by rewrite E. Qed.

Lemma chain_admit_spec cost key pool now interval chain g :
  cost_wf cost -> gov_inv cost g -> 0 <= now <= 2 ^ 62 ->
  chain_for cost key = Some (Ok chain) -> chain_distinct cost chain ->
  exists r g', try_admit cost key pool now interval g = Some (r, g') /\ gov_inv cost g'
    /\ g_store g' = g_store g /\ pending_metering g' = pending_metering g
    /\ match r with
       | Ok grant => everything_admits cost chain pool now g /\ chain_charged cost chain pool now grant g g'
       | Err lb => ~ everything_admits cost chain pool now g /\ refusal_true cost chain pool now g lb
           /\ nothing_charged cost now g g'
       end.
Proof.
  intros Hwf Hinv Hnow Hchain [Hnd Hnames]. unfold try_admit. rewrite Hchain. cbn [mbind option_bind].
  pose proof (chain_for_buckets _ _ _ Hchain) as [_ Hvalid].
  destruct (first_disabled_spec _ _ Hvalid) as (d & -> & Hd). cbn [mbind option_bind]. destruct d as [n|].
  { destruct Hd as [Hno Hex]. eexists _, g. split_and!; try done. cbn beta iota.
    split_and!; [by intros [? _]|done|]. split; [done|]. intros id. apply swept_refl. }
  destruct (hold_all_spec (cm_groups cost) (chain_groups chain) (mkGrant []) g) as (held & g1 & -> & Hwf1 & Hsc1 & Hheld);
    [apply Hinv|done|apply Hwf|intros n; apply (wf_gauges g (proj1 Hinv))|done|].
  cbn [mbind option_bind]. pose proof (gov_inv_same_cells _ _ _ Hinv Hwf1 Hsc1) as Hinv1.
  destruct held as [grant|full].
  2: { destruct Hheld as (Hno & (gi & gr & cap & Hin & Hgr & Hcap & Hname & Hfull) & Hg1). eexists _, g1.
       split; [done|]. split; [done|]. destruct Hsc1 as (Hb & Hst & Hp). split_and!; try done.
       - by intros (_ & ? & _).
       - left. split_and!; try done. by exists gi, gr, cap.
       - split; [intros n; rewrite Hg1; simpl; lia|]. intros id. unfold cell, read_cell. rewrite Hb. apply swept_refl. }
  destruct Hheld as (Hgr & Hroom & Hg1). simpl in Hgr.
  pose proof (buckets_for_from _ _ _ pool Hchain) as Hfrom.
  destruct (admit_windowed_spec cost key now interval (buckets_for chain pool) g1 Hwf Hinv1 Hnow Hfrom
    (buckets_for_NoDup _ pool Hnd)) as (r & g2 & -> & Hinv2 & Hc2 & Hst2 & Hp2 & Hr). cbn [mbind option_bind].
  destruct Hsc1 as (Hb1 & Hst1 & Hp1). assert (Hsc1 : same_cells g g1) by done.
  destruct r as [lb|].
  - destruct Hr as [(pre & b & post & m & gr & Hbs & Hpre & Hblk & Hgrp & ->) Hsw].
    assert (Hblk0 : blocks cost now g b = Some m).
    { rewrite <- Hblk. unfold blocks. by rewrite (same_cells_cell g g1). }
    assert (Hbin : b ∈ buckets_for chain pool) by (rewrite Hbs; apply elem_of_app; right; by left).
    assert (Hocc2 : forall n, occ n (gauges grant) <= gauge n g2).
    { intros n. rewrite (gauge_same_concurrent g1 g2), Hg1, <- Hgr by done.
      pose proof (wf_gauges g (proj1 Hinv) n). lia. }
    destruct (drop_grant_spec grant g2 (proj1 Hinv2) Hocc2) as (Hwf3 & Hsc3 & Hg3).
    eexists _, _. split; [done|]. split; [by eapply gov_inv_same_cells|].
    destruct Hsc3 as (Hb3 & Hst3 & Hp3). split_and!; try congruence.
    + intros (_ & _ & Hall). rewrite Forall_forall in Hall. specialize (Hall b Hbin). unfold admits in Hall. congruence.
    + simpl. right. by exists b.
    + split; [intros n; rewrite Hg3, (gauge_same_concurrent g1 g2), Hg1, <- Hgr by done; lia|].
      intros id. assert (Hc3 : cell id (drop_grant grant g2) = cell id g2) by (unfold cell, read_cell; by rewrite Hb3).
      rewrite Hc3, <- (same_cells_cell g g1) by done. apply Hsw.
  - destruct Hr as (Hall & Hin & Hout). eexists _, _. split; [done|]. split; [done|].
    split_and!; try congruence; [by split_and!; [..|apply (admits_same_cells cost now g g1)]|].
    split_and!; [done|..].
    + intros n. by rewrite (gauge_same_concurrent g1 g2), Hg1, <- Hgr by done.
    + intros b Hb. destruct (Hin b Hb) as (c0 & Hsw & Hc). exists c0. split; [|done].
      by rewrite (same_cells_cell g g1) in Hsw.
    + intros id Hid. rewrite <- (same_cells_cell g g1) by done. by apply Hout.
Qed.
End admission.

(** ** Property *)

(** C25. An admission is one decision over the whole chain. It never panics; it succeeds exactly when
    no group of the chain is frozen, every in-flight gauge has room and every windowed limit of every
    bucket the request's pool takes part in admits one more request, and then it holds each capped
    gauge once and charges each of those buckets once, stale windows reset first; otherwise nothing
    is charged, no gauge stays held, and the reason names a group, metric and window that really
    block. Eviction sweeps on the way never change the decision. The shard locks are taken in
    strictly ascending order, so no two admissions can deadlock. *)
Theorem admission_is_atomic {St} `{DurableStore St} cost key pool now interval chain (g : GovState St) :
  cost_wf cost -> gov_inv cost g -> 0 <= now <= 2 ^ 62 ->
  chain_for cost key = Some (Ok chain) -> chain_distinct cost chain ->
  (exists r g', try_admit cost key pool now interval g = Some (r, g') /\ gov_inv cost g'
    /\ g_store g' = g_store g /\ pending_metering g' = pending_metering g
    /\ match r with
       | Ok grant => everything_admits cost chain pool now g /\ chain_charged cost chain pool now grant g g'
       | Err lb => ~ everything_admits cost chain pool now g /\ refusal_true cost chain pool now g lb
           /\ nothing_charged cost now g g'
       end)
  /\ StronglySorted lt (lock_order (cb_id <$> buckets_for chain pool)).
Proof. intros. split; [by apply chain_admit_spec|apply lock_order_sorted]. Qed.

Lemma gov_chain_distinct : chain_distinct gov_cost gov_chain.
Proof. split; apply (bool_decide_unpack _); by vm_compute. Qed.

Lemma admission_is_atomic_witness :
  exists r g', try_admit gov_cost gov_key "fast" 1750000000 256 gov_start = Some (r, g')
    /\ gov_inv gov_cost g' /\ StronglySorted lt (lock_order (cb_id <$> buckets_for gov_chain "fast")).
Proof.
  destruct (admission_is_atomic gov_cost gov_key "fast" 1750000000 256 gov_chain gov_start) as [(r & g' & H1 & H2 & _) H3].
  - exact gov_cost_wf.
  - apply gov_inv_new.
  - lia.
  - exact gov_chain_for.
  - exact gov_chain_distinct.
  - exists r, g'. exact (conj H1 (conj H2 H3)).
Defined.

(** Three admissions one second apart. *)
Definition three_admits (pool : string) : option (list (Result AdmitGrant LimitBlocked) * Z) :=
  '(r1, g1) ← try_admit gov_cost gov_key pool 1750000000 256 gov_start;
  '(r2, g2) ← try_admit gov_cost gov_key pool 1750000001 256 g1;
  '(r3, g3) ← try_admit gov_cost gov_key pool 1750000002 256 g2;
  Some ([r1; r2; r3], gauge "org" g3).

(** Run on the model: two requests a minute are admitted, the third is refused by the team's limit. *)
Example admit_run :
  three_admits "fast"
  = Some ([Ok (mkGrant ["org"%string]); Ok (mkGrant ["org"%string]);
           Err (LB_Limit "team" "requests" (Some "minute"%string) None None (Some 18))], 2).
Proof. vm_compute. reflexivity. Qed.
