(* ===== verification/GovRuns.v ===== *)
(** * GovRuns: the limits under every interleaving of requests

    The ledger as a transition system: the atomic steps of concurrent requests, of the flusher and of a
    group deletion, in any order. What the steps keep makes the caps hard: no schedule lets a group
    hold more requests in flight than its cap, or admit more requests in a window than its limit. *)

From S2P Require Import Prelude Breaker Windows Ledger Groups CostModel Governance GovStore GovSpec GovCheck.

#[local] Open Scope Z_scope.

(** ** Windows do not run backwards *)

Lemma budget_window_mono p t t' : 0 <= t <= t' -> t' <= 2 ^ 62 -> budget_window p t <= budget_window p t'.
Proof.
  intros Ht Ht'. destruct (rolls p) eqn:Hp.
  2: { destruct (all_time_window p t Hp) as [-> _], (all_time_window p t' Hp) as [-> _]. lia. }
  destruct (rolling_tiles p t ltac:(lia) Hp) as (e & _ & Hs & _).
  destruct (rolling_tiles p t' ltac:(lia) Hp) as (e' & _ & Hs' & He' & _ & Hsame).
  destruct (Z_le_gt_dec (budget_window p t') t) as [Hle|]; [|lia].
  destruct (Hsame t ltac:(lia) ltac:(lia)) as [-> _]. lia.
Qed.

(** ** What a step may do to a cell *)

Definition counter (c : option BudgetCell) : option (Z * Z) := (fun c => (window_start c, bc_requests c)) <$> c.

(** The requests a cell has counted in a window. *)
Definition seen (w : Z) (c : option BudgetCell) : Z :=
  match c with Some c => if window_start c =? w then bc_requests c else 0 | None => 0 end.

(** How often a bucket was charged in a window. *)
Definition count (id : string) (w : Z) (log : list (string * Z)) : Z :=
  Z.of_nat (length (filter (fun e => e = (id, w)) log)).

(** One limit's books: its cell is in no future window, has seen every charge of the windows to come,
    and no window was charged beyond the limit. *)
Record bucket_ok (p id : string) (cap T : Z) (log : list (string * Z)) (c : option BudgetCell) : Prop := {
  bo_past : forall x, c = Some x -> window_start x <= budget_window p T;
  bo_seen : forall w, budget_window p T <= w -> count id w log <= seen w c;
  bo_cap : forall w, count id w log <= cap
}.

Lemma bucket_ok_counter p id cap T log c c' :
  bucket_ok p id cap T log c -> counter c' = counter c -> bucket_ok p id cap T log c'.
Proof.
  intros [H1 H2 H3] Hc. destruct c as [x|], c' as [y|]; try done.
  injection Hc as Hw Hr. split; [|simpl; by rewrite Hw, Hr|done]. intros z [= <-]. rewrite Hw. by apply H1.
Qed.

Lemma seen_live p T w x :
  window_start x <= budget_window p T -> budget_window p T <= w -> window_start x < budget_window p T ->
  seen w (Some x) = 0.
Proof. intros. simpl. destruct (window_start x =? w) eqn:E; [zbool; lia|done]. Qed.

(** An accrual counts no request; at worst it opens the window of an instant already reached. *)
Lemma bucket_ok_accrue p id cap T log c t model tokens now :
  bucket_ok p id cap T log c -> 0 <= t <= T -> T <= 2 ^ 62 ->
  bucket_ok p id cap T log (Some (touch now (cell_accrue model tokens (resolve_cell (budget_window p t) c)))).
Proof.
  intros [H1 H2 H3] Ht HT. pose proof (budget_window_mono p t T Ht HT) as Hm.
  assert (Hfresh : forall w, budget_window p T <= w -> seen w c = 0 ->
    count id w log <= seen w (Some (touch now (cell_accrue model tokens (cell_fresh (budget_window p t)))))).
  { intros w Hw Hs. specialize (H2 w Hw). rewrite Hs in H2. simpl. destruct (_ =? w); lia. }
  unfold resolve_cell. destruct c as [x|].
  2: { split; [|intros w Hw; by apply Hfresh|done]. intros y [= <-]. simpl. lia. }
  specialize (H1 x eq_refl). destruct (window_start x <? budget_window p t) eqn:E; zbool.
  - split; [|intros w Hw; apply Hfresh, (seen_live p T w); [done..|lia]|done]. intros y [= <-]. simpl. lia.
  - split; [|done|done]. by intros y [= <-].
Qed.

Lemma bucket_ok_later p id cap T T' log c :
  0 <= T <= T' -> T' <= 2 ^ 62 -> bucket_ok p id cap T log c -> bucket_ok p id cap T' log c.
Proof.
  intros HT HT' [H1 H2 H3]. pose proof (budget_window_mono p T T' HT HT') as Hm.
  split; [|intros w Hw; apply H2; lia|done]. intros x Hx. specialize (H1 x Hx). lia.
Qed.

(** A sweep drops no cell that still counts. *)
Lemma bucket_ok_swept cost gb cap T log c c' :
  cost_wf cost -> gb ∈ all_buckets cost -> requests_cap gb = Some cap -> 0 <= T <= 2 ^ 62 ->
  (forall x, c = Some x -> good_cell cost (bucket_id gb) x) ->
  bucket_ok (window gb) (bucket_id gb) cap T log c -> swept cost T (bucket_id gb) c c' ->
  bucket_ok (window gb) (bucket_id gb) cap T log c'.
Proof.
  intros Hwf Hgb Hcap HT Hgood Hok [->|Hs]; [done|]. destruct c as [x|]; [|by subst].
  destruct (Hgood x eq_refl) as [Hx Hal]. simpl in Hs.
  destruct (cell_kept cost T (bucket_id gb) x) eqn:Ek; subst c'; [by eapply bucket_ok_counter|].
  destruct Hok as [H1 H2 H3]. specialize (H1 x eq_refl).
  destruct (Z_le_gt_dec (budget_window (window gb) T) (window_start x)) as [Hle|Hgt].
  - rewrite (live_kept cost T gb x) in Ek; [done|done|done| |done|done|by apply Hal|done].
    unfold bucket_capped. by rewrite Hcap.
  - split; [done| |done]. intros w Hw. specialize (H2 w Hw).
    rewrite (seen_live (window gb) T w x) in H2; [done|lia..].
Qed.

Lemma count_app id w l k : count id w (l ++ k) = count id w l + count id w k.
Proof. unfold count. rewrite filter_app, length_app. lia. Qed.

Lemma count_cons id w e l : count id w (e :: l) = (if bool_decide (e = (id, w)) then 1 else 0) + count id w l.
Proof. unfold count. rewrite filter_cons. case_bool_decide; case_decide; try done; simpl; lia. Qed.

Lemma count_notin id w (bs : list ChainBucket) now :
  id ∉ cb_id <$> bs -> count id w ((fun b => (cb_id b, budget_window (cb_window b) now)) <$> bs) = 0.
Proof.
  induction bs as [|b bs IH]; intros Hn; [done|]. csimpl in *. apply not_elem_of_cons in Hn as [Hne Hn].
  rewrite count_cons, IH by done. rewrite bool_decide_false; [done|congruence].
Qed.

Lemma count_in w (bs : list ChainBucket) now b :
  NoDup (cb_id <$> bs) -> b ∈ bs ->
  count (cb_id b) w ((fun b => (cb_id b, budget_window (cb_window b) now)) <$> bs)
  = if budget_window (cb_window b) now =? w then 1 else 0.
Proof.
  intros Hnd Hb. induction bs as [|x bs IH]; [by apply elem_of_nil in Hb|]. csimpl in *.
  apply NoDup_cons in Hnd as [Hx Hnd]. rewrite count_cons. apply elem_of_cons in Hb as [->|Hb].
  - rewrite count_notin by done. case_bool_decide as E; destruct (_ =? w) eqn:Ew; zbool; try done; congruence.
  - rewrite IH by done. rewrite bool_decide_false; [done|]. intros [= He _]. apply Hx. rewrite He.
    apply list_elem_of_fmap. by exists b.
Qed.

Lemma count_nonneg id w log : 0 <= count id w log.
Proof. unfold count. lia. Qed.

(** The requests a check reads. *)
Definition checked_requests (cost : CostModel) (b : ChainBucket) (T : Z) (c : option BudgetCell) : Z :=
  (live_counters cost b (budget_window (cb_window b) T) c).1.1.

Lemma checked_seen cost b T c :
  (forall x, c = Some x -> window_start x <= budget_window (cb_window b) T) ->
  checked_requests cost b T c = seen (budget_window (cb_window b) T) c.
Proof.
  intros Hc. unfold checked_requests, live_counters. destruct c as [x|]; [|done]. specialize (Hc x eq_refl). simpl.
  destruct (_ <=? _) eqn:E, (_ =? _) eqn:E'; zbool; (done || lia).
Qed.

Lemma not_blocked_requests fee b r t d cap :
  blocked_metric fee b r t d = None -> cb_requests_cap b = Some cap -> r +sat 1 <= cap.
Proof.
  unfold blocked_metric. intros Hb Hc. rewrite Hc in Hb. simpl in Hb. destruct (cap <? r +sat 1) eqn:E; [done|].
  by zbool.
Qed.

(** A charge that the limit admitted. *)
Lemma bucket_ok_charged cost gr gb cap T log log' c :
  requests_cap gb = Some cap -> cap < U64_MAX -> (forall x, c = Some x -> cell_ok x) ->
  bucket_ok (window gb) (bucket_id gb) cap T log c ->
  checked_requests cost (chain_bucket gr gb) T c +sat 1 <= cap ->
  (forall w, count (bucket_id gb) w log' = (if budget_window (window gb) T =? w then 1 else 0) + count (bucket_id gb) w log) ->
  bucket_ok (window gb) (bucket_id gb) cap T log' (Some (charged T (chain_bucket gr gb) c)).
Proof.
  intros Hcap Hmax Hok [H1 H2 H3] Hadm Hlog. rewrite checked_seen in Hadm by done.
  set (w0 := budget_window (window gb) T) in *. change (cb_window (chain_bucket gr gb)) with (window gb) in Hadm.
  fold w0 in Hadm. assert (Hc : window_start (charged T (chain_bucket gr gb) c) = w0
    /\ bc_requests (charged T (chain_bucket gr gb) c) = seen w0 c +sat 1).
  { unfold charged, resolve_cell. change (cb_window (chain_bucket gr gb)) with (window gb). fold w0.
    destruct c as [x|]; [|done]. specialize (H1 x eq_refl). simpl seen.
    destruct (window_start x <? w0) eqn:E, (window_start x =? w0) eqn:E'; zbool; simpl; split; (done || lia). }
  assert (Hseen : 0 <= seen w0 c).
  { destruct c as [x|]; simpl; [|done]. destruct (Hok x eq_refl) as (Hr & _). unfold is_u64 in Hr.
    destruct (_ =? _); lia. }
  destruct Hc as [Hw Hr]. unfold sat_add in *. pose proof (H2 w0 ltac:(lia)). split.
  - intros x [= <-]. by rewrite Hw.
  - intros w Hle. rewrite Hlog. unfold seen at 1. rewrite Hw, Hr. destruct (w0 =? w) eqn:E; zbool; [subst w; lia|].
    specialize (H2 w Hle). unfold seen in H2. destruct c as [x|]; [|lia]. specialize (H1 x eq_refl).
    destruct (window_start x =? w) eqn:E'; zbool; lia.
  - intros w. rewrite Hlog. destruct (w0 =? w) eqn:E; zbool; [subst w; lia|]. by rewrite Z.add_0_l.
Qed.

(** ** The transition system *)

Section runs.
Context {St : Type} `{DurableStore St}.
Implicit Types g : GovState St.

(** The state, the gauges held, the charges made (bucket and window), and the latest clock an
    admission read. *)
Record Run := mkRun {
  rg : GovState St;
  r_held : list string;
  r_log : list (string * Z);
  r_now : Z
}.

Definition charges (bs : list ChainBucket) (now : Z) : list (string * Z) :=
  (fun b => (cb_id b, budget_window (cb_window b) now)) <$> bs.

(** A period is the one its bucket has; an id that is no bucket of a group is a key's. *)
Definition period_of (cost : CostModel) (id p : string) : Prop :=
  forall gb, gb ∈ all_buckets cost -> bucket_id gb = id -> window gb = p.

Definition is_key_id (cost : CostModel) (id : string) : Prop :=
  forall gb, gb ∈ all_buckets cost -> bucket_id gb <> id.

(** One atomic step: a gauge taken or given back, the critical section of an admission, the refund or
    the accrual of one bucket, the flusher's snapshot of a shard, its store call and its settlement,
    and the deletion of a group that is no longer configured. *)
Inductive gov_step (cost : CostModel) : Run -> Run -> Prop :=
  | S_hold gi gr cap g got g' held log T :
      cm_groups cost !! gi = Some gr -> concurrent_cap gr = Some cap -> try_hold (name gr) cap g = (got, g') ->
      gov_step cost (mkRun g held log T) (mkRun g' (if got then name gr :: held else held) log T)
  | S_release n g held held' log T :
      held ≡ₚ n :: held' ->
      gov_step cost (mkRun g held log T) (mkRun (drop_grant (mkGrant [n]) g) held' log T)
  | S_admit key chain pool now interval g blocked g' held log T :
      chain_for cost key = Some (Ok chain) -> chain_distinct cost chain -> is_key_id cost (key_id key) ->
      T <= now <= 2 ^ 62 ->
      admit_windowed cost now interval (buckets_for chain pool) g = Some (blocked, g') ->
      gov_step cost (mkRun g held log T)
        (mkRun g' held (match blocked with None => charges (buckets_for chain pool) now | Some _ => [] end ++ log) now)
  | S_refund id p now g g' held log T :
      refund_bucket id p now g = Some g' ->
      gov_step cost (mkRun g held log T) (mkRun g' held log T)
  | S_accrue id p model tokens now g g' held log T :
      period_of cost id p -> 0 <= now <= T -> tiers_ok tokens ->
      accrue_bucket id p model tokens now g = Some g' ->
      gov_step cost (mkRun g held log T) (mkRun g' held log T)
  | S_snapshot sh s g held log T :
      budget g !! sh = Some s ->
      gov_step cost (mkRun g held log T)
        (mkRun (set_budget (<[sh := (snapshot_shard s).2]> (budget g)) g) held log T)
  | S_push snap g held log T :
      gov_step cost (mkRun g held log T) (mkRun (push_snap snap g).2 held log T)
  | S_settle snap (ok : bool) g g' held log T :
      settle snap (if ok then ack_cell snap else set_dirty true) g = Some g' ->
      gov_step cost (mkRun g held log T) (mkRun g' held log T)
  | S_reclaim group g held log T :
      (forall gb, gb ∈ all_buckets cost -> is_bucket_of_group (bucket_id gb) group = false) ->
      gov_step cost (mkRun g held log T) (mkRun (reclaim_group_cells group g).2 held log T).

Definition run_start (st : St) (T : Z) : Run := mkRun (GovState_new st) [] [] T.

(** ** The invariant *)

Record run_inv (cost : CostModel) (r : Run) : Prop := {
  ri_inv : gov_inv cost (rg r);
  ri_now : 0 <= r_now r <= 2 ^ 62;
  ri_gauge : forall n, gauge n (rg r) = occ n (r_held r);
  ri_caps : forall gr cap, gr ∈ cm_groups cost -> concurrent_cap gr = Some cap -> gauge (name gr) (rg r) <= i64_or_max cap;
  ri_limits : forall gb cap, gb ∈ all_buckets cost -> requests_cap gb = Some cap -> 0 <= cap < U64_MAX ->
    bucket_ok (window gb) (bucket_id gb) cap (r_now r) (r_log r) (cell (bucket_id gb) (rg r))
}.

(** A step that only rewrites cells, well, and counts no request. *)
Lemma run_inv_cells cost g g' held log T :
  run_inv cost (mkRun g held log T) -> gov_wf g' -> concurrent g' = concurrent g ->
  (forall id c, cell id g' = Some c -> good_cell cost id c) ->
  (forall gb cap, gb ∈ all_buckets cost -> requests_cap gb = Some cap -> 0 <= cap < U64_MAX ->
     bucket_ok (window gb) (bucket_id gb) cap T log (cell (bucket_id gb) g) ->
     bucket_ok (window gb) (bucket_id gb) cap T log (cell (bucket_id gb) g')) ->
  run_inv cost (mkRun g' held log T).
Proof.
  intros [H1 H2 H3 H4 H6] Hwf Hc Hgood Hb. split; simpl in *; try done.
  - intros n. by rewrite (gauge_same_concurrent g g').
  - intros gr cap Hgr Hcap. rewrite (gauge_same_concurrent g g') by done. by apply H4.
  - intros gb cap Hgb Hcap Hr. apply (Hb gb cap); [done..|]. by apply H6.
Qed.

(** Where every cell changes by a function that counts no request. *)
Lemma run_inv_counter cost g g' held log T :
  run_inv cost (mkRun g held log T) -> gov_wf g' -> concurrent g' = concurrent g ->
  (forall id c, cell id g' = Some c -> good_cell cost id c) ->
  (forall gb, gb ∈ all_buckets cost -> counter (cell (bucket_id gb) g') = counter (cell (bucket_id gb) g)) ->
  run_inv cost (mkRun g' held log T).
Proof.
  intros Hi Hwf Hc Hgood Hcnt. eapply run_inv_cells; [exact Hi|done..|].
  intros gb cap Hgb _ _ Hok. eapply bucket_ok_counter; [done|by apply Hcnt].
Qed.

Lemma run_inv_start cost st T : cost_wf cost -> 0 <= T <= 2 ^ 62 ->
  run_inv cost (run_start st T).
Proof.
  intros Hwf HT. split; simpl; try done.
  - apply gov_inv_new.
  - intros gr cap Hgr Hcap. unfold gauge. simpl. rewrite lookup_empty. simpl.
    pose proof (wf_caps cost Hwf) as Hc. unfold caps_nonneg in Hc. rewrite Forall_forall in Hc.
    specialize (Hc gr Hgr cap Hcap). unfold i64_or_max, I64_MAX. destruct (cap <=? _); lia.
  - intros gb cap _ _ Hcap. rewrite cell_new. split; [done|..]; intros; unfold count; simpl; lia.
Qed.

Lemma local_at_update id (h : option BudgetCell -> option BudgetCell) f :
  (forall m, f m = match h (m !! id) with Some c => <[id := c]> m | None => m end) ->
  (forall c, h c = None -> c = None) -> local_at id h f.
Proof.
  intros Hf Hh m id'. rewrite Hf. case_bool_decide as E; [subst id'|].
  - destruct (h (m !! id)) as [c|] eqn:Eh; [by rewrite lookup_insert_eq|]. by apply Hh.
  - destruct (h (m !! id)) as [c|]; [|done]. by rewrite lookup_insert_ne.
Qed.

(** A cell replaced when it is of the given window. *)
Definition at_window (w : Z) (f : BudgetCell -> BudgetCell) (c : option BudgetCell) : option BudgetCell :=
  (fun c => if window_start c =? w then f c else c) <$> c.

Lemma at_window_Some w f c : at_window w f (Some c) = Some (if window_start c =? w then f c else c).
Proof. done. Qed.

Lemma at_window_local id w f :
  local_at id (at_window w f)
    (fun m => match m !! id with Some c => if window_start c =? w then <[id := f c]> m else m | None => m end).
Proof.
  intros m id'. unfold at_window. destruct (m !! id) as [c|] eqn:E; simpl.
  - destruct (window_start c =? w); case_bool_decide as Ei; subst; simpl; try done;
      [by rewrite lookup_insert_eq|by rewrite lookup_insert_ne].
  - by case_bool_decide as Ei; subst.
Qed.

Lemma refund_bucket_spec id p now g :
  gov_wf g -> exists g', refund_bucket id p now g = Some g' /\ gov_wf g' /\ concurrent g' = concurrent g
    /\ g_store g' = g_store g /\ pending_metering g' = pending_metering g
    /\ forall id', cell id' g' = if bool_decide (id' = id) then at_window (budget_window p now) uncharge (cell id g) else cell id' g.
Proof. intros Hwf. apply (write_cell_spec g id _ _ Hwf (at_window_local id _ _)). Qed.

Lemma settle_spec snap f g :
  gov_wf g -> exists g', settle snap f g = Some g' /\ gov_wf g' /\ concurrent g' = concurrent g
    /\ g_store g' = g_store g /\ pending_metering g' = pending_metering g
    /\ forall id', cell id' g' = if bool_decide (id' = snap_bucket_id snap)
         then at_window (snap_window snap) f (cell (snap_bucket_id snap) g) else cell id' g.
Proof. intros Hwf. apply (write_cell_spec g _ _ _ Hwf (at_window_local _ _ _)). Qed.

Lemma accrue_bucket_spec id p model tokens now g :
  gov_wf g -> exists g', accrue_bucket id p model tokens now g = Some g' /\ gov_wf g' /\ concurrent g' = concurrent g
    /\ g_store g' = g_store g /\ pending_metering g' = pending_metering g
    /\ forall id', cell id' g' = if bool_decide (id' = id)
         then Some (touch now (cell_accrue model tokens (resolve_cell (budget_window p now) (cell id g)))) else cell id' g.
Proof.
  intros Hwf. apply (write_cell_spec g id (fun c => Some (touch now (cell_accrue model tokens (resolve_cell (budget_window p now) c)))) _ Hwf).
  by apply local_at_update.
Qed.

(** ** The steps keep well-formed cells *)

(** Same window, counters in range, models in range. *)
Lemma good_cell_as cost id c c' :
  good_cell cost id c -> window_start c' = window_start c -> is_u64 (bc_requests c') -> is_u64 (bc_billable c') ->
  Forall (fun m => tiers_ok (mc_cur m)) (bc_models c') -> good_cell cost id c'.
Proof.
  intros [(_ & _ & Hw & _) Hal] Hw' H1 H2 H3. split; [split_and!; try done; by rewrite Hw'|].
  intros gb Hgb Hid. rewrite Hw'. by apply Hal.
Qed.

Lemma good_uncharge cost id c : good_cell cost id c -> good_cell cost id (uncharge c).
Proof.
  intros Hc. pose proof Hc as [(H1 & H2 & _ & H4) _]. eapply good_cell_as; [exact Hc|done|done| |done].
  simpl. apply sat_sub_u64; [done|lia].
Qed.

Lemma good_set_dirty cost id d c : good_cell cost id c -> good_cell cost id (set_dirty d c).
Proof. intros Hc. pose proof Hc as [(H1 & H2 & _ & H4) _]. by eapply good_cell_as. Qed.

Lemma ack_models_ok cur ms :
  Forall (fun m => tiers_ok (mc_cur m)) ms ->
  Forall (fun m => tiers_ok (mc_cur m)) (foldl (fun ms mt => ack_model mt.1 mt.2 ms) ms cur).
Proof.
  revert ms. induction cur as [|[n t] cur IH]; intros ms Hms; [done|]. apply IH. simpl.
  induction Hms as [|m ms Hm Hms IHm]; simpl; [constructor|].
  destruct (String.eqb (mc_model m) n); constructor; done.
Qed.

Lemma good_ack cost id snap c : good_cell cost id c -> good_cell cost id (ack_cell snap c).
Proof.
  intros Hc. pose proof Hc as [(H1 & H2 & _ & H4) _]. eapply good_cell_as; [exact Hc|done..|]. by apply ack_models_ok.
Qed.

Lemma add_tokens_ok t u : tiers_ok t -> tiers_ok u -> tiers_ok (add_tokens t u).
Proof.
  intros (?&?&?&?) (Hu1&Hu2&Hu3&Hu4). unfold is_u64 in Hu1, Hu2, Hu3, Hu4.
  split_and!; simpl; apply sat_add_u64; (done || lia).
Qed.

Lemma accrue_models_ok n t ms :
  tiers_ok t -> Forall (fun m => tiers_ok (mc_cur m)) ms ->
  Forall (fun m => tiers_ok (mc_cur m)) (accrue_models n t ms).
Proof.
  assert (Hd : tiers_ok TierTokens_default) by (unfold tiers_ok, is_u64, U64_MAX; simpl; lia).
  intros Ht. induction 1 as [|m ms Hm Hms IH]; simpl.
  - constructor; [|constructor]. by apply add_tokens_ok.
  - destruct (String.eqb _ _); constructor; try done. by apply add_tokens_ok.
Qed.

Lemma good_accrue cost id p c t now model tokens :
  cost_wf cost -> period_of cost id p -> 0 <= t <= 2 ^ 62 -> tiers_ok tokens ->
  (forall x, c = Some x -> good_cell cost id x) ->
  good_cell cost id (touch now (cell_accrue model tokens (resolve_cell (budget_window p t) c))).
Proof.
  intros Hwf Hp Ht Htok Hc. assert (Hr : good_cell cost id (resolve_cell (budget_window p t) c)).
  { assert (Hfresh : good_cell cost id (cell_fresh (budget_window p t))).
    { split; [|intros gb Hgb Hid; rewrite (Hp gb Hgb Hid); simpl; by apply aligned_now].
      split_and!; try (simpl; unfold is_u64, U64_MAX; lia); [by apply budget_window_u64|constructor]. }
    unfold resolve_cell. destruct c as [x|]; [|done]. destruct (_ <? _); [done|by apply Hc]. }
  pose proof Hr as [(H1 & H2 & _ & H4) _]. eapply good_cell_as; [exact Hr|done|done|done|].
  simpl. by apply accrue_models_ok.
Qed.

Lemma gov_wf_snapshot g sh s :
  gov_wf g -> budget g !! sh = Some s -> gov_wf (set_budget (<[sh := (snapshot_shard s).2]> (budget g)) g).
Proof.
  intros Hwf Hs. apply gov_wf_set_shard; [done|]. intros id Hid. simpl in Hid. rewrite lookup_fmap in Hid.
  eapply wf_placed; [done..|]. destruct (shard_map s !! id); [by eexists|by destruct Hid].
Qed.

Lemma cell_snapshot sh s g id :
  gov_wf g -> budget g !! sh = Some s ->
  let g' := set_budget (<[sh := (snapshot_shard s).2]> (budget g)) g in
  gov_wf g' /\ cell id g' = cell id g
  \/ gov_wf g' /\ cell id g' = (fun c => if dirty c then set_dirty false c else c) <$> cell id g.
Proof.
  intros Hwf Hs g'. assert (Hwf' : gov_wf g') by by apply gov_wf_snapshot.
  unfold g'. rewrite cell_set_shard by by eapply lookup_lt_Some. case_bool_decide as E; [right|by left].
  split; [done|]. simpl. rewrite lookup_fmap. unfold cell, read_cell. by rewrite E, Hs.
Qed.

Lemma cell_reclaim group g id :
  cell id (reclaim_group_cells group g).2 = if is_bucket_of_group id group then None else cell id g.
Proof.
  unfold cell, read_cell, reclaim_group_cells. simpl. rewrite list_lookup_fmap.
  destruct (budget g !! shard_index id) as [s|]; [|by destruct (is_bucket_of_group _ _)]. simpl.
  destruct (is_bucket_of_group id group) eqn:E.
  - apply map_lookup_filter_None_2. right. intros x _ Hx. simpl in Hx. by rewrite E in Hx.
  - destruct (shard_map s !! id) as [c|] eqn:Ec.
    + apply map_lookup_filter_Some_2; [done|]. simpl. by rewrite E.
    + apply map_lookup_filter_None_2. by left.
Qed.

Lemma cell_push snap g id : cell id (push_snap snap g).2 = cell id g.
Proof.
  unfold push_snap. destruct (usage_delta_is_zero _); [done|].
  by destruct (store_add_usage _ _ _ _) as [r st].
Qed.

Lemma push_keeps snap g :
  concurrent (push_snap snap g).2 = concurrent g /\ budget (push_snap snap g).2 = budget g
  /\ pending_metering (push_snap snap g).2 = pending_metering g.
Proof.
  unfold push_snap. destruct (usage_delta_is_zero _); [done|].
  by destruct (store_add_usage _ _ _ _) as [r st].
Qed.

Lemma gov_wf_as g g' :
  gov_wf g -> length (budget g') = length (budget g) -> concurrent g' = concurrent g ->
  (forall sh s', budget g' !! sh = Some s' -> exists s, budget g !! sh = Some s
     /\ forall id, is_Some (shard_map s' !! id) -> is_Some (shard_map s !! id)) -> gov_wf g'.
Proof.
  intros [H1 H2 H3] Hl Hc Hs. split; [by rewrite Hl| |].
  - intros n. rewrite (gauge_same_concurrent g g') by done. apply H2.
  - intros sh s' id Hs' Hid. destruct (Hs sh s' Hs') as (s & Hb & Hsub). by eapply H3; [|apply Hsub].
Qed.

Lemma counter_at_window w f c :
  (forall x, window_start (f x) = window_start x /\ bc_requests (f x) = bc_requests x) ->
  counter (at_window w f c) = counter c.
Proof.
  intros Hf. destruct c as [x|]; [|done]. unfold counter, at_window. simpl. destruct (_ =? w); [|done].
  destruct (Hf x) as [-> ->]. done.
Qed.

(** ** One step at a time *)

(** A cell rewritten at its window by a function that counts no request. *)
Lemma run_inv_at_window cost g g' id w f held log T :
  run_inv cost (mkRun g held log T) -> gov_wf g' -> concurrent g' = concurrent g ->
  (forall id', cell id' g' = if bool_decide (id' = id) then at_window w f (cell id g) else cell id' g) ->
  (forall x, window_start (f x) = window_start x /\ bc_requests (f x) = bc_requests x) ->
  (forall x, good_cell cost id x -> good_cell cost id (f x)) ->
  run_inv cost (mkRun g' held log T).
Proof.
  intros Hi Hwf Hc Hcell Hf Hgood. pose proof (proj2 (ri_inv _ _ Hi)) as Hg. simpl in Hg.
  eapply run_inv_counter; [exact Hi|done..| |].
  - intros id' c. rewrite Hcell. case_bool_decide as E; [subst id'|by apply Hg].
    destruct (cell id g) as [x|] eqn:Ex; [|done]. simpl. intros [= <-].
    destruct (_ =? w); [apply Hgood|]; by apply Hg.
  - intros gb _. rewrite Hcell. case_bool_decide as E; [|done]. rewrite E. by apply counter_at_window.
Qed.

Lemma run_inv_accrue cost id p model tokens now g g' held log T :
  cost_wf cost -> run_inv cost (mkRun g held log T) -> period_of cost id p -> 0 <= now <= T -> tiers_ok tokens ->
  accrue_bucket id p model tokens now g = Some g' -> run_inv cost (mkRun g' held log T).
Proof.
  intros Hwf Hi Hp Hnow Htok Ha. pose proof (ri_inv _ _ Hi) as [Hgw Hg]. pose proof (ri_now _ _ Hi) as HT. simpl in *.
  destruct (accrue_bucket_spec id p model tokens now g Hgw) as (g1 & Ha' & Hwf1 & Hc1 & _ & _ & Hcell).
  rewrite Ha in Ha'. injection Ha' as <-. eapply run_inv_cells; [exact Hi|done..| |].
  - intros id' c. rewrite Hcell. case_bool_decide as E; [subst id'|by apply Hg]. intros [= <-].
    eapply good_accrue; [done|done|lia|done|by apply Hg].
  - intros gb cap Hgb _ _ Hok. rewrite Hcell. case_bool_decide as E; [|done].
    rewrite <- (Hp gb Hgb E), <- E. apply bucket_ok_accrue; [done|lia..].
Qed.

Lemma run_inv_admit cost key chain pool now interval g blocked g' held log T :
  cost_wf cost -> run_inv cost (mkRun g held log T) ->
  chain_for cost key = Some (Ok chain) -> chain_distinct cost chain -> is_key_id cost (key_id key) ->
  T <= now <= 2 ^ 62 -> admit_windowed cost now interval (buckets_for chain pool) g = Some (blocked, g') ->
  run_inv cost (mkRun g' held (match blocked with None => charges (buckets_for chain pool) now | Some _ => [] end ++ log) now).
Proof.
  intros Hwf Hi Hchain [Hnd _] Hkey Hnow Ha. destruct Hi as [H1 H2 H3 H4 H5]. simpl in *.
  pose proof (buckets_for_from _ _ _ pool Hchain) as Hfrom. pose proof (buckets_for_NoDup chain pool Hnd) as Hnd'.
  destruct (admit_windowed_spec cost key now interval _ g Hwf H1 ltac:(lia) Hfrom Hnd')
    as (r & g1 & Ha' & Hinv & Hc & _ & _ & Hr).
  rewrite Ha in Ha'. injection Ha' as <- <-.
  assert (Hlater : forall gb cap, gb ∈ all_buckets cost -> requests_cap gb = Some cap -> 0 <= cap < U64_MAX ->
    bucket_ok (window gb) (bucket_id gb) cap now log (cell (bucket_id gb) g)).
  { intros. apply (bucket_ok_later _ _ _ T); [lia..|]. by apply H5. }
  assert (Hswept : forall gb cap c, gb ∈ all_buckets cost -> requests_cap gb = Some cap -> 0 <= cap < U64_MAX ->
    swept cost now (bucket_id gb) (cell (bucket_id gb) g) c -> bucket_ok (window gb) (bucket_id gb) cap now log c).
  { intros gb cap c Hgb Hcap Hr0 Hsw. eapply (bucket_ok_swept cost gb); [done..|lia| |by apply Hlater|exact Hsw].
    intros x Hx. by apply H1. }
  split; simpl; try done; [lia| | |].
  - intros n. by rewrite (gauge_same_concurrent g g').
  - intros gr cap Hgr Hcap. rewrite (gauge_same_concurrent g g') by done. by apply H4.
  - intros gb cap Hgb Hcap Hr0. destruct blocked as [lb|].
    { simpl. destruct Hr as [_ Hsw]. by eapply Hswept. }
    destruct Hr as (Hadm & Hin & Hout). destruct (decide (bucket_id gb ∈ cb_id <$> buckets_for chain pool)) as [Hid|Hid].
    2: { destruct (Hswept gb cap _ Hgb Hcap Hr0 (Hout _ Hid)) as [Ho1 Ho2 Ho3].
         split; [done|..]; intros; rewrite count_app; unfold charges; rewrite count_notin, Z.add_0_l by done; auto. }
    apply list_elem_of_fmap in Hid as (b & Hb & Hbin). rewrite Forall_forall in Hfrom, Hadm.
    destruct (Hfrom b Hbin) as [->|(gr & gb' & Hgb' & ->)]; [by destruct (Hkey gb Hgb)|]. simpl in Hb.
    assert (gb = gb') as <-.
    { apply list_elem_of_lookup in Hgb as [i Hi], Hgb' as [j Hj]. pose proof (wf_ids cost Hwf) as Hnd2.
      assert (i = j) as ->; [|congruence]. eapply (NoDup_lookup _ _ _ (bucket_id gb) Hnd2).
      - by rewrite list_lookup_fmap, Hi.
      - rewrite list_lookup_fmap, Hj. simpl. by rewrite Hb. }
    destruct (Hin _ Hbin) as (c0 & Hsw & Hcell). cbn [chain_bucket cb_id] in Hsw, Hcell. rewrite Hcell.
    assert (Hcapped : chain_bucket_capped (chain_bucket gr gb) = true).
    { unfold chain_bucket_capped. simpl. by rewrite Hcap. }
    assert (Hok : forall x, cell (bucket_id gb) g = Some x -> good_cell cost (bucket_id gb) x).
    { intros x Hx. by apply H1. }
    apply (bucket_ok_charged cost gr gb cap now log); [done|lia| |by eapply Hswept| |].
    + intros x Hx. by destruct (good_swept _ _ _ _ _ Hsw Hok x Hx).
    + specialize (Hadm _ Hbin). unfold admits, blocks in Hadm. rewrite Hcapped in Hadm. unfold checked_requests.
      erewrite (live_counters_swept cost key _ now _ c0); [|done|right; by exists gr, gb|done|lia|exact Hok|exact Hsw].
      destruct (live_counters _ _ _ _) as [[r t] d]. simpl. by eapply not_blocked_requests.
    + intros w. rewrite count_app. f_equal. apply (count_in w _ now _ Hnd' Hbin).
Qed.

Lemma run_inv_release cost n g held held' log T :
  run_inv cost (mkRun g held log T) -> held ≡ₚ n :: held' ->
  run_inv cost (mkRun (drop_grant (mkGrant [n]) g) held' log T).
Proof.
  intros [H1 H2 H3 H4 H5] Hp. simpl in *.
  assert (Hocc : forall m, occ m held = (if String.eqb n m then 1 else 0) + occ m held').
  { intros m. change (occ m held = occ m (n :: held')). clear -Hp.
    induction Hp; simpl; lia. }
  destruct (drop_grant_spec (mkGrant [n]) g (proj1 H1)) as (Hwf & Hsc & Hg).
  { intros m. simpl. rewrite H3, Hocc. pose proof (occ_nonneg m held'). lia. }
  split; simpl; try done; [by eapply gov_inv_same_cells| |].
  - intros m. rewrite Hg, H3, Hocc. simpl. lia.
  - intros gr cap Hgr Hcap. rewrite Hg. specialize (H4 gr cap Hgr Hcap). pose proof (occ_nonneg (name gr) [n]). simpl in *. lia.
Qed.

Lemma run_inv_hold cost gi gr cap g got g' held log T :
  cost_wf cost -> NoDup (name <$> cm_groups cost) -> run_inv cost (mkRun g held log T) ->
  cm_groups cost !! gi = Some gr -> concurrent_cap gr = Some cap -> try_hold (name gr) cap g = (got, g') ->
  run_inv cost (mkRun g' (if got then name gr :: held else held) log T).
Proof.
  intros Hwf Hnd [H1 H2 H3 H4 H5] Hgi Hcap Ht. simpl in *.
  assert (Hcap0 : 0 <= cap).
  { pose proof (wf_caps cost Hwf) as Hc. unfold caps_nonneg in Hc. rewrite Forall_forall in Hc.
    apply (Hc gr); [by eapply list_elem_of_lookup_2|done]. }
  destruct (try_hold_spec _ _ _ _ _ Ht (proj1 H1) Hcap0) as (Hwf' & Hsc & Hgot & Hg).
  split; simpl; try done; [by eapply gov_inv_same_cells| | |].
  - intros m. rewrite Hg, H3. destruct got; simpl; lia.
  - intros gr' cap' Hgr' Hcap'. rewrite Hg. specialize (H4 gr' cap' Hgr' Hcap').
    destruct got; simpl; [|lia]. destruct (String.eqb_spec (name gr) (name gr')) as [E|]; [|lia].
    assert (gr' = gr) as ->.
    { apply list_elem_of_lookup in Hgr' as [j Hj]. assert (gi = j) as <-; [|congruence].
      eapply (NoDup_lookup _ _ _ (name gr) Hnd); [by rewrite list_lookup_fmap, Hgi|].
      rewrite list_lookup_fmap, Hj. simpl. by rewrite E. }
    symmetry in Hgot. zbool. assert (cap' = cap) as -> by congruence. lia.
  - intros gb cap' Hgb Hcap' Hr0. rewrite (same_cells_cell g _ _ Hsc). by apply H5.
Qed.

Lemma run_inv_snapshot cost sh s g held log T :
  run_inv cost (mkRun g held log T) -> budget g !! sh = Some s ->
  run_inv cost (mkRun (set_budget (<[sh := (snapshot_shard s).2]> (budget g)) g) held log T).
Proof.
  intros Hi Hs. pose proof (ri_inv _ _ Hi) as [Hgw Hg]. simpl in *.
  pose proof (fun id => cell_snapshot sh s g id Hgw Hs) as Hcell. cbv zeta in Hcell.
  eapply run_inv_counter; [exact Hi|by apply gov_wf_snapshot|done|..].
  - intros id c Hc. destruct (Hcell id) as [[_ E]|[_ E]]; pose proof (eq_trans (eq_sym E) Hc) as Hc'; [by apply Hg|].
    clear Hc. rename Hc' into Hc. destruct (cell id g) as [x|] eqn:Ex; [|done]. simpl in Hc. injection Hc as <-.
    destruct (dirty x); [apply good_set_dirty|]; by apply Hg.
  - intros gb _. destruct (Hcell (bucket_id gb)) as [[_ E]|[_ E]]; (etrans; [exact (f_equal counter E)|]); [done|].
    destruct (cell (bucket_id gb) g) as [x|]; [|done]. simpl. by destruct (dirty x).
Qed.

Lemma run_inv_step cost r r' :
  cost_wf cost -> NoDup (name <$> cm_groups cost) -> run_inv cost r -> gov_step cost r r' -> run_inv cost r'.
Proof.
  intros Hwf Hnd Hi Hs. destruct Hs; pose proof (ri_inv _ _ Hi) as [Hgw Hg]; simpl in Hgw, Hg.
  - by eapply run_inv_hold.
  - by eapply run_inv_release.
  - by eapply run_inv_admit.
  - destruct (refund_bucket_spec id p now g Hgw) as (g1 & Hr & Hwf1 & Hc1 & _ & _ & Hcell).
    assert (g1 = g') as -> by congruence.
    eapply run_inv_at_window; [exact Hi|done..|by intros x; split|]. intros x. apply good_uncharge.
  - by eapply run_inv_accrue.
  - by apply run_inv_snapshot.
  - destruct (push_keeps snap g) as (Hc & Hb & _).
    assert (Hwf' : gov_wf (push_snap snap g).2) by (eapply gov_wf_as; [exact Hgw|by rewrite Hb|done|]; intros sh s Hs; rewrite Hb in Hs; by exists s).
    eapply run_inv_counter; [exact Hi|done|done|..].
    + intros id c. rewrite cell_push. apply Hg.
    + intros gb _. by rewrite cell_push.
  - destruct (settle_spec snap (if ok then ack_cell snap else set_dirty true) g Hgw) as (g1 & Hr & Hwf1 & Hc1 & _ & _ & Hcell).
    assert (g1 = g') as -> by congruence.
    eapply run_inv_at_window; [exact Hi|done..|by intros x; destruct ok|]. intros x. destruct ok; [apply good_ack|apply good_set_dirty].
  - assert (Hwf' : gov_wf (reclaim_group_cells group g).2).
    { eapply gov_wf_as; [exact Hgw|simpl; by rewrite length_fmap|done|].
      intros sh s Hs. simpl in Hs. rewrite list_lookup_fmap in Hs. destruct (budget g !! sh) as [s0|]; [|done].
      injection Hs as <-. exists s0. split; [done|]. intros id [c Hc]. simpl in Hc.
      apply map_lookup_filter_Some in Hc as [Hc _]. by eexists. }
    eapply run_inv_counter; [exact Hi|done|done|..].
    + intros id c. rewrite cell_reclaim. destruct (is_bucket_of_group id group); [done|apply Hg].
    + intros gb Hgb. rewrite cell_reclaim. by rewrite (H0 gb Hgb).
Qed.

Lemma run_inv_steps cost r r' :
  cost_wf cost -> NoDup (name <$> cm_groups cost) -> rtc (gov_step cost) r r' -> run_inv cost r -> run_inv cost r'.
Proof.
  intros Hwf Hnd Hr. induction Hr as [|r1 r2 r3 Hs Hr IH]; [done|]. intros Hi. apply IH. by eapply run_inv_step.
Qed.

(** ** A request is a sequence of steps *)

(** Gauges given back one at a time, in any order. *)
Lemma give_back_steps cost names g held base log T :
  held ≡ₚ names ++ base ->
  exists held', held' ≡ₚ base /\ rtc (gov_step cost) (mkRun g held log T) (mkRun (drop_grant (mkGrant names) g) held' log T).
Proof.
  revert g held. induction names as [|n names IH]; intros g held Hp; simpl in *.
  { exists held. split; [done|]. apply rtc_refl. }
  destruct (IH (drop_grant (mkGrant [n]) g) (names ++ base)) as (held' & Hp' & Hr); [done|].
  exists held'. split; [done|]. eapply rtc_l; [by apply S_release|]. exact Hr.
Qed.

Lemma hold_steps cost ixs grant g r g' held base log T :
  hold_all (cm_groups cost) ixs grant g = Some (r, g') -> held ≡ₚ gauges grant ++ base ->
  exists held', rtc (gov_step cost) (mkRun g held log T) (mkRun g' held' log T)
    /\ held' ≡ₚ match r with Ok grant' => gauges grant' ++ base | Err _ => base end.
Proof.
  revert grant g held. induction ixs as [|gi ixs IH]; intros grant g held Hh Hp; simpl in Hh.
  { simplify_eq. exists held. split; [apply rtc_refl|done]. }
  apply bind_Some_inv in Hh as (gr & Hgr & Hh). destruct (concurrent_cap gr) as [cap|] eqn:Ecap; [|by eapply IH].
  destruct (try_hold (name gr) cap g) as [got g1] eqn:Et. pose proof (S_hold cost gi gr cap g got g1 held log T Hgr Ecap Et) as Hs.
  destruct got.
  - destruct (IH _ _ (name gr :: held) Hh) as (held' & Hr & Hp').
    { simpl. rewrite Hp, <- app_assoc. simpl. apply Permutation_middle. }
    exists held'. split; [|done]. by eapply rtc_l.
  - simplify_eq. destruct (give_back_steps cost (gauges grant) g1 held base log T Hp) as (held' & Hp' & Hr).
    exists held'. split; [|done]. eapply rtc_l; [exact Hs|]. by destruct grant.
Qed.

(** The whole of [try_admit] is a sequence of atomic steps of one thread. *)
Lemma try_admit_steps cost key pool now interval chain g r g' held log T :
  chain_for cost key = Some (Ok chain) -> chain_distinct cost chain -> is_key_id cost (key_id key) ->
  T <= now <= 2 ^ 62 -> try_admit cost key pool now interval g = Some (r, g') ->
  exists held' log' T', rtc (gov_step cost) (mkRun g held log T) (mkRun g' held' log' T')
    /\ held' ≡ₚ match r with Ok grant => gauges grant ++ held | Err _ => held end.
Proof.
  intros Hchain Hd Hkey Hnow Ht. unfold try_admit in Ht. rewrite Hchain in Ht. cbn [mbind option_bind] in Ht.
  apply bind_Some_inv in Ht as (d & _ & Ht). destruct d as [n|].
  { simplify_eq. exists held, log, T. split; [apply rtc_refl|done]. }
  apply bind_Some_inv in Ht as ([h g1] & Hh & Ht).
  destruct (hold_steps cost _ _ _ _ _ held held log T Hh ltac:(done)) as (held1 & Hr1 & Hp1).
  destruct h as [grant|full]; [|simplify_eq; by exists held1, log, T].
  apply bind_Some_inv in Ht as ([b g2] & Ha & Ht).
  pose proof (S_admit cost key chain pool now interval g1 b g2 held1 log T Hchain Hd Hkey Hnow Ha) as Hs.
  destruct b as [lb|]; simplify_eq.
  - destruct (give_back_steps cost (gauges grant) g2 held1 held log now Hp1) as (held2 & Hp2 & Hr2).
    exists held2, log, now. split; [|done]. etrans; [exact Hr1|]. eapply rtc_l; [exact Hs|].
    by destruct grant.
  - eexists held1, _, now. split; [|done]. etrans; [exact Hr1|]. by apply rtc_once.
Qed.
End runs.

(** ** Property *)

(** C26. The caps are hard under every interleaving. Whatever the order of the atomic steps of any
    number of concurrent requests (each gauge taken or given back, each admission's critical section,
    each bucket's refund and accrual), of the flusher and of group deletions, with admission clocks
    that do not run backwards: a group's in-flight gauge counts exactly the holds outstanding and
    never exceeds its concurrency cap, and no bucket is ever charged more requests in one window than
    its requests limit, evictions and stale resets included. *)
Theorem caps_are_hard {St} `{DurableStore St} cost (st : St) T r :
  cost_wf cost -> NoDup (name <$> cm_groups cost) -> 0 <= T <= 2 ^ 62 ->
  rtc (gov_step cost) (run_start st T) r ->
  (forall gr cap, gr ∈ cm_groups cost -> concurrent_cap gr = Some cap ->
     gauge (name gr) (rg r) = occ (name gr) (r_held r) /\ occ (name gr) (r_held r) <= i64_or_max cap)
  /\ (forall gb cap w, gb ∈ all_buckets cost -> requests_cap gb = Some cap -> 0 <= cap < U64_MAX ->
        count (bucket_id gb) w (r_log r) <= cap)
  /\ gov_inv cost (rg r).
Proof.
  intros Hwf Hnd HT Hr. destruct (run_inv_steps cost _ _ Hwf Hnd Hr (run_inv_start cost st T Hwf HT)) as [H1 _ H3 H4 H5].
  split_and!; [|intros; by eapply H5|done].
  intros gr cap Hgr Hcap. rewrite <- H3. split; [done|by apply H4].
Qed.

Definition gov_admitted : option (Result AdmitGrant LimitBlocked * GovState MapStore) :=
  try_admit gov_cost gov_key "fast" 1750000000 256 gov_start.

Definition gov_after : GovState MapStore := match gov_admitted with Some (_, g) => g | None => gov_start end.

Lemma gov_admitted_ok : gov_admitted = Some (Ok (mkGrant ["org"%string]), gov_after).
Proof. vm_compute. reflexivity. Qed.

Lemma gov_key_plain : is_key_id gov_cost (key_id gov_key).
Proof.
  assert (Hf : Forall (fun gb => bucket_id gb <> key_id gov_key) (all_buckets gov_cost)) by (apply (bool_decide_unpack _); by vm_compute).
  intros gb Hgb. rewrite Forall_forall in Hf. by apply Hf.
Qed.

Lemma caps_are_hard_witness :
  exists r, rtc (gov_step gov_cost) (run_start (mkMapStore ∅ [gov_key] []) 1750000000) r
    /\ rg r = gov_after /\ r_held r ≡ₚ ["org"%string] /\ gov_inv gov_cost (rg r)
    /\ forall gb cap w, gb ∈ all_buckets gov_cost -> requests_cap gb = Some cap -> 0 <= cap < U64_MAX ->
         count (bucket_id gb) w (r_log r) <= cap.
Proof.
  destruct (try_admit_steps gov_cost gov_key "fast" 1750000000 256 gov_chain gov_start _ _ [] [] 1750000000
    gov_chain_for gov_chain_distinct gov_key_plain ltac:(lia) gov_admitted_ok) as (held & log & T & Hr & Hp).
  exists (mkRun gov_after held log T). split; [exact Hr|]. split; [reflexivity|]. split; [exact Hp|].
  destruct (caps_are_hard gov_cost (mkMapStore ∅ [gov_key] []) 1750000000 _ gov_cost_wf
    ltac:(apply (bool_decide_unpack _); by vm_compute) ltac:(lia) Hr) as (_ & H2 & H3).
  exact (conj H3 H2).
Defined.

(** * what a refund and an accrual do to what an admission charged

    The admission of a request, the refund of its fee when it failed and the accrual of its tokens go
    over the same buckets; the refund finds the charge unless the charge landed in a later window than
    the one the request's clock is in. *)


Section settle.
Context {St : Type} `{DurableStore St}.
Implicit Types g : GovState St.

(** Only the cells of the buckets change, each by its own function. *)
Lemma for_buckets_spec (f : ChainBucket -> GovState St -> option (GovState St))
    (h : ChainBucket -> option BudgetCell -> option BudgetCell) bs g :
  (forall b g, gov_wf g -> exists g', f b g = Some g' /\ gov_wf g' /\ concurrent g' = concurrent g
     /\ g_store g' = g_store g /\ pending_metering g' = pending_metering g
     /\ forall id, cell id g' = if bool_decide (id = cb_id b) then h b (cell (cb_id b) g) else cell id g) ->
  gov_wf g -> NoDup (cb_id <$> bs) ->
  exists g', for_buckets f bs g = Some g' /\ gov_wf g' /\ concurrent g' = concurrent g
    /\ g_store g' = g_store g /\ pending_metering g' = pending_metering g
    /\ (forall b, b ∈ bs -> cell (cb_id b) g' = h b (cell (cb_id b) g))
    /\ forall id, id ∉ cb_id <$> bs -> cell id g' = cell id g.
Proof.
  intros Hf. revert g. induction bs as [|b bs IH]; intros g Hwf Hnd; simpl.
  { exists g. split_and!; try done. by intros b ?%elem_of_nil. }
  csimpl in Hnd. apply NoDup_cons in Hnd as [Hni Hnd].
  destruct (Hf b g Hwf) as (g1 & -> & Hwf1 & Hc1 & Hs1 & Hp1 & Hcell1). cbn.
  destruct (IH g1 Hwf1 Hnd) as (g2 & -> & Hwf2 & Hc2 & Hs2 & Hp2 & Hin2 & Hout2). exists g2.
  split_and!; try done; try congruence.
  - intros b' [->|Hb']%elem_of_cons.
    + rewrite Hout2, Hcell1 by done. by rewrite bool_decide_true.
    + rewrite Hin2, Hcell1 by done. rewrite bool_decide_false; [done|]. intros Heq. apply Hni. rewrite <- Heq.
      apply list_elem_of_fmap. by exists b'.
  - intros id Hid. csimpl in Hid. apply not_elem_of_cons in Hid as [Hne Hid].
    rewrite Hout2, Hcell1 by done. by rewrite bool_decide_false.
Qed.

Lemma refund_request_spec cost key pool chain now g :
  gov_wf g -> chain_for cost key = Some (Ok chain) -> NoDup (cb_id <$> chain_buckets chain) ->
  exists g', refund_request cost key pool now g = Some g' /\ gov_wf g' /\ concurrent g' = concurrent g
    /\ (forall b, b ∈ buckets_for chain pool ->
          cell (cb_id b) g' = at_window (budget_window (cb_window b) now) uncharge (cell (cb_id b) g))
    /\ forall id, id ∉ cb_id <$> buckets_for chain pool -> cell id g' = cell id g.
Proof.
  intros Hwf Hchain Hnd. unfold refund_request. rewrite Hchain. cbn [mbind option_bind].
  destruct (for_buckets_spec (fun b => refund_bucket (cb_id b) (cb_window b) now)
    (fun b => at_window (budget_window (cb_window b) now) uncharge) (buckets_for chain pool) g)
    as (g' & H1 & H2 & H3 & _ & _ & H4 & H5); [|done|by apply buckets_for_NoDup|by exists g'].
  intros b g0 Hg0. apply (refund_bucket_spec _ _ _ _ Hg0).
Qed.

Lemma record_usage_spec cost key pool model tokens chain now g :
  gov_wf g -> chain_for cost key = Some (Ok chain) -> NoDup (cb_id <$> chain_buckets chain) -> is_zero tokens = false ->
  exists g', record_usage cost key pool model tokens now g = Some g' /\ gov_wf g' /\ concurrent g' = concurrent g
    /\ (forall b, b ∈ buckets_for chain pool ->
          cell (cb_id b) g' = Some (touch now (cell_accrue model tokens (resolve_cell (budget_window (cb_window b) now) (cell (cb_id b) g)))))
    /\ forall id, id ∉ cb_id <$> buckets_for chain pool -> cell id g' = cell id g.
Proof.
  intros Hwf Hchain Hnd Hz. unfold record_usage. rewrite Hz, Hchain. cbn [mbind option_bind].
  destruct (for_buckets_spec (fun b => accrue_bucket (cb_id b) (cb_window b) model tokens now)
    (fun b c => Some (touch now (cell_accrue model tokens (resolve_cell (budget_window (cb_window b) now) c))))
    (buckets_for chain pool) g)
    as (g' & H1 & H2 & H3 & _ & _ & H4 & H5); [|done|by apply buckets_for_NoDup|by exists g'].
  intros b g0 Hg0. apply (accrue_bucket_spec _ _ _ _ _ _ Hg0).
Qed.

(** The window a charge landed in is the request's own, or a later one that was already open. *)
Lemma charged_window now b c :
  window_start (charged now b c) = budget_window (cb_window b) now
  \/ exists x, c = Some x /\ budget_window (cb_window b) now < window_start x
       /\ window_start (charged now b c) = window_start x.
Proof.
  unfold charged, resolve_cell. destruct c as [x|]; [|by left].
  destruct (window_start x <? _) eqn:E; [by left|]. zbool. simpl.
  destruct (Z.eq_dec (window_start x) (budget_window (cb_window b) now)) as [->|]; [by left|].
  right. exists x. split_and!; [done|lia|done].
Qed.

(** The billable count a refund leaves: the one before the charge. *)
Definition billable_before (now : Z) (b : ChainBucket) (c : option BudgetCell) : Z :=
  bc_billable (resolve_cell (budget_window (cb_window b) now) c).
End settle.

(** Settlement goes where the charge went. After an admission at [now], a refund with the same clock
    reaches exactly the buckets charged: each gets back the one billable request, and none of them the
    request count (a failed request still used its slot), and every other bucket is left alone; the one
    exception is a bucket whose cell was already in a later window than the request's clock, where the
    charge landed in that later window and the refund is lost. An accrual adds the tokens of the
    response to exactly the buckets charged, once each, and never resets the cell the charge is in. *)
Theorem settlement_mirrors_admission {St} `{DurableStore St} cost key pool model tokens now interval chain
    (g g1 : GovState St) grant :
  cost_wf cost -> gov_inv cost g -> 0 <= now <= 2 ^ 62 ->
  chain_for cost key = Some (Ok chain) -> chain_distinct cost chain -> is_zero tokens = false ->
  try_admit cost key pool now interval g = Some (Ok grant, g1) ->
  exists g2 g3, refund_request cost key pool now g1 = Some g2
    /\ record_usage cost key pool model tokens now g1 = Some g3
    /\ (forall b, b ∈ buckets_for chain pool -> exists c c0,
          swept cost now (cb_id b) (cell (cb_id b) g) c0
          /\ cell (cb_id b) g1 = Some c /\ bc_requests c = bc_requests (resolve_cell (budget_window (cb_window b) now) c0) +sat 1
          /\ cell (cb_id b) g3 = Some (touch now (cell_accrue model tokens c))
          /\ ((cell (cb_id b) g2 = Some (uncharge c)
               /\ (billable_before now b c0 < U64_MAX -> bc_billable (uncharge c) = billable_before now b c0))
              \/ (cell (cb_id b) g2 = Some c
                  /\ exists x, c0 = Some x /\ budget_window (cb_window b) now < window_start x)))
    /\ forall id, id ∉ cb_id <$> buckets_for chain pool -> cell id g2 = cell id g1 /\ cell id g3 = cell id g1.
Proof.
  intros Hwf Hinv Hnow Hchain Hd Hz Ht.
  destruct (chain_admit_spec cost key pool now interval chain g Hwf Hinv Hnow Hchain Hd)
    as (r & g1' & Ht' & Hinv1 & _ & _ & Hr).
  rewrite Ht in Ht'. injection Ht' as <- <-. destruct Hr as (_ & _ & _ & Hin & _).
  destruct (refund_request_spec cost key pool chain now g1 (proj1 Hinv1) Hchain (proj1 Hd)) as (g2 & -> & _ & _ & Hr2 & Ho2).
  destruct (record_usage_spec cost key pool model tokens chain now g1 (proj1 Hinv1) Hchain (proj1 Hd) Hz)
    as (g3 & -> & _ & _ & Hr3 & Ho3).
  exists g2, g3. split_and!; [done|done| |by intros id Hid; rewrite Ho2, Ho3].
  intros b Hb. destruct (Hin b Hb) as (c0 & Hsw & Hc). exists (charged now b c0), c0.
  rewrite (Hr2 b Hb), (Hr3 b Hb), Hc. pose proof (charged_window now b c0) as Hw.
  split_and!; [done|done|done| |].
  - assert (Hlt : window_start (charged now b c0) <? budget_window (cb_window b) now = false).
    { apply Z.ltb_ge. destruct Hw as [->|(x & _ & Hx & ->)]; lia. }
    cbn [resolve_cell]. by rewrite Hlt.
  - rewrite at_window_Some. destruct Hw as [Hw|(x & -> & Hx & Hw)].
    + left. rewrite Hw, Z.eqb_refl. split; [done|]. unfold billable_before, sat_sub, sat_add. simpl. unfold sat_add, sat_sub.
      assert (Hu : 0 <= bc_billable (resolve_cell (budget_window (cb_window b) now) c0)).
      { assert (Hg0 : forall x, c0 = Some x -> good_cell cost (cb_id b) x).
        { eapply good_swept; [exact Hsw|]. intros x Hx. by apply Hinv. }
        unfold resolve_cell. destruct c0 as [x|]; [|done]. destruct (Hg0 x eq_refl) as [(_ & [Hu _] & _) _].
        by destruct (_ <? _). }
      lia.
    + right. split; [|by exists x]. rewrite Hw. by rewrite (proj2 (Z.eqb_neq _ _)) by lia.
Qed.

Lemma settlement_mirrors_admission_witness :
  exists g2 g3, refund_request gov_cost gov_key "fast" 1750000000 gov_after = Some g2
    /\ record_usage gov_cost gov_key "fast" "gpt-4o" (mkTokens 7 1 0 0) 1750000000 gov_after = Some g3
    /\ forall id, id ∉ cb_id <$> buckets_for gov_chain "fast" -> cell id g2 = cell id gov_after /\ cell id g3 = cell id gov_after.
Proof.
  destruct (settlement_mirrors_admission gov_cost gov_key "fast" "gpt-4o" (mkTokens 7 1 0 0) 1750000000 256 gov_chain
    gov_start gov_after (mkGrant ["org"%string])) as (g2 & g3 & H1 & H2 & _ & H4).
  - exact gov_cost_wf.
  - apply gov_inv_new.
  - lia.
  - exact gov_chain_for.
  - exact gov_chain_distinct.
  - reflexivity.
  - exact gov_admitted_ok.
  - exists g2, g3. exact (conj H1 (conj H2 H4)).
Defined.

(** A request whose clock is a minute behind the team's cell: charged in the later window, not refunded. *)
Definition late_refund : option (option Z * option Z) :=
  '(_, g1) ← try_admit gov_cost gov_key "slow" 1750000040 256 gov_start;
  '(_, g2) ← try_admit gov_cost gov_key "slow" 1750000000 256 g1;
  g3 ← refund_request gov_cost gov_key "slow" 1750000000 g2;
  Some (bc_billable <$> cell "group:team@minute" g2, bc_billable <$> cell "group:team@minute" g3).

Example late_refund_lost : late_refund = Some (Some 2, Some 2).
Proof. vm_compute. reflexivity. Qed.
