(* ===== verification/GovCounters.v ===== *)
(** * GovCounters: the counters of a cell, of its flushed baseline and of the durable ledger

    One view of the three: a counter is the requests, the billable requests, or one tier of one model's
    tokens. What a flush sends, what an acknowledgement records and what the ledger then holds are
    stated counter by counter. *)

From S2P Require Import Prelude Breaker Windows Ledger Groups CostModel Governance GovStore GovSpec.

#[local] Open Scope Z_scope.

Inductive Tier := TIn | TOut | TRead | TWrite.
Inductive Counter := CReq | CBill | CTok (model : string) (k : Tier).

Definition tier (k : Tier) (t : TierTokens) : Z :=
  match k with TIn => t_input t | TOut => t_output t | TRead => t_cache_read t | TWrite => t_cache_write t end.

Definition tier_d (k : Tier) (t : TierTokensDelta) : Z :=
  match k with TIn => td_input t | TOut => td_output t | TRead => td_cache_read t | TWrite => td_cache_write t end.

Definition model_cell (n : string) (ms : list ModelCell) : option ModelCell :=
  List.find (fun m => String.eqb (mc_model m) n) ms.

Definition model_tier (f : ModelCell -> TierTokens) (n : string) (k : Tier) (ms : list ModelCell) : Z :=
  match model_cell n ms with Some m => tier k (f m) | None => 0 end.

(** What the node has counted, and what it has had acknowledged. *)
Definition cur_of (ctr : Counter) (c : BudgetCell) : Z :=
  match ctr with CReq => bc_requests c | CBill => bc_billable c | CTok n k => model_tier mc_cur n k (bc_models c) end.

Definition flushed_of (ctr : Counter) (c : BudgetCell) : Z :=
  match ctr with
  | CReq => flushed_requests c | CBill => flushed_billable c
  | CTok n k => model_tier mc_flushed n k (bc_models c)
  end.

(** What the durable ledger holds. *)
Definition led_of (ctr : Counter) (l : UsageLedger) : Z :=
  match ctr with
  | CReq => ul_requests l | CBill => ul_billable_requests l
  | CTok n k => match tokens_for l n with Some t => tier k t | None => 0 end
  end.

(** The counters of a cell fit a signed 64-bit integer, and its models are distinct. *)
Record in_range (c : BudgetCell) : Prop := {
  ir_cur : forall ctr, 0 <= cur_of ctr c <= I64_MAX;
  ir_flushed : forall ctr, 0 <= flushed_of ctr c <= I64_MAX;
  ir_models : NoDup (mc_model <$> bc_models c)
}.

Lemma model_cell_notin n ms : n ∉ mc_model <$> ms -> model_cell n ms = None.
Proof.
  induction ms as [|m ms IH]; [done|]. csimpl. intros Hn. apply not_elem_of_cons in Hn as [Hne Hn].
  unfold model_cell. simpl. destruct (String.eqb_spec (mc_model m) n) as [E|]; [by destruct Hne|]. by apply IH.
Qed.

Lemma model_cell_cons n m ms :
  model_cell n (m :: ms) = if String.eqb (mc_model m) n then Some m else model_cell n ms.
Proof. done. Qed.

Lemma tokens_upsert u n d :
  tokens_for (apply_model_delta u d) n
  = if String.eqb (md_model d) n then Some (add_tier_delta (default TierTokens_default (tokens_for u n)) (md_tokens d))
    else tokens_for u n.
Proof.
  unfold tokens_for, apply_model_delta. simpl. induction (ul_models u) as [|m ms IH]; simpl.
  - destruct (String.eqb_spec (md_model d) n) as [->|]; simpl; [by rewrite ?String.eqb_refl|].
    by destruct (String.eqb_spec (md_model d) n).
  - destruct (String.eqb_spec (mt_model m) (md_model d)) as [Hm|Hm]; simpl.
    + rewrite <- Hm. by destruct (String.eqb (mt_model m) n).
    + destruct (String.eqb_spec (mt_model m) n) as [Hn|Hn]; simpl; [|exact IH].
      destruct (String.eqb_spec (md_model d) n); [congruence|done].
Qed.

Lemma tier_add k t d : tier k (add_tier_delta t d) = saturating_add_signed (tier k t) (tier_d k d).
Proof. by destruct k. Qed.

Lemma tier_default k : tier k TierTokens_default = 0.
Proof. by destruct k. Qed.

Lemma led_of_model_delta u n k d :
  led_of (CTok n k) (apply_model_delta u d)
  = if String.eqb (md_model d) n then saturating_add_signed (led_of (CTok n k) u) (tier_d k (md_tokens d))
    else led_of (CTok n k) u.
Proof.
  simpl. rewrite tokens_upsert. destruct (String.eqb (md_model d) n); [|done]. rewrite tier_add. simpl.
  destruct (tokens_for u n); simpl; [done|by rewrite tier_default].
Qed.

Lemma i64_small x : x <= I64_MAX -> i64_or_max x = x.
Proof. unfold i64_or_max. intros Hx. by rewrite (proj2 (Z.leb_le _ _)). Qed.

Definition models_fit (ms : list ModelCell) : Prop :=
  Forall (fun m => forall k, tier k (mc_cur m) <= I64_MAX /\ tier k (mc_flushed m) <= I64_MAX) ms.

Lemma tier_delta_at k cur flushed :
  tier k cur <= I64_MAX -> tier k flushed <= I64_MAX -> tier_d k (tier_delta cur flushed) = tier k cur - tier k flushed.
Proof. intros. destruct k; simpl in *; by rewrite !i64_small. Qed.

Lemma tier_delta_zero k d : tier_delta_is_zero d = true -> tier_d k d = 0.
Proof. unfold tier_delta_is_zero. intros. zbool. by destruct k. Qed.

Lemma sat_signed_0 x : is_u64 x -> saturating_add_signed x 0 = x.
Proof. unfold is_u64, saturating_add_signed. lia. Qed.

Lemma led_of_models n k ms u :
  NoDup (mc_model <$> ms) -> models_fit ms -> is_u64 (led_of (CTok n k) u) ->
  led_of (CTok n k) (foldl apply_model_delta u (omap model_delta ms))
  = saturating_add_signed (led_of (CTok n k) u) (model_tier mc_cur n k ms - model_tier mc_flushed n k ms).
Proof.
  intros Hnd Hfit. revert u. induction Hfit as [|m ms Hm Hms IH]; intros u Hu.
  { change (led_of (CTok n k) u = saturating_add_signed (led_of (CTok n k) u) (0 - 0)). by rewrite sat_signed_0. }
  csimpl in Hnd. apply NoDup_cons in Hnd as [Hni Hnd]. specialize (IH Hnd).
  assert (Hstep : forall u', is_u64 (led_of (CTok n k) u') ->
    led_of (CTok n k) (foldl apply_model_delta u' (omap model_delta (m :: ms)))
    = led_of (CTok n k) (foldl apply_model_delta
        (match model_delta m with Some d => apply_model_delta u' d | None => u' end) (omap model_delta ms))).
  { intros u' _. simpl. by destruct (model_delta m). }
  rewrite Hstep by done. destruct (Hm k) as [Hc Hf]. unfold model_tier. rewrite !model_cell_cons.
  destruct (String.eqb_spec (mc_model m) n) as [En|En].
  - assert (Hnone : forall f, model_tier f n k ms = 0).
    { intros f. unfold model_tier. rewrite model_cell_notin; [done|by rewrite <- En]. }
    unfold model_delta. destruct (tier_delta_is_zero _) eqn:Ez.
    + rewrite IH, !Hnone, sat_signed_0 by done. rewrite <- tier_delta_at, (tier_delta_zero k _ Ez) by done.
      by rewrite sat_signed_0.
    + assert (Hl : led_of (CTok n k) (apply_model_delta u (mkModelDelta (mc_model m) (tier_delta (mc_cur m) (mc_flushed m))))
          = saturating_add_signed (led_of (CTok n k) u) (tier k (mc_cur m) - tier k (mc_flushed m))).
      { rewrite led_of_model_delta. simpl. apply String.eqb_eq in En. rewrite En. by rewrite tier_delta_at. }
      rewrite IH, Hl, !Hnone; [|rewrite Hl; unfold is_u64, saturating_add_signed, U64_MAX; lia].
      rewrite sat_signed_0; [done|]. unfold is_u64, saturating_add_signed, U64_MAX. lia.
  - unfold model_tier in IH. destruct (model_delta m) as [d|] eqn:Ed; [|by apply IH].
    assert (Hl : led_of (CTok n k) (apply_model_delta u d) = led_of (CTok n k) u).
    { rewrite led_of_model_delta. unfold model_delta in Ed. destruct (tier_delta_is_zero _); [done|].
      injection Ed as <-. simpl. apply String.eqb_neq in En. by rewrite En. }
    rewrite IH by by rewrite Hl. by rewrite Hl.
Qed.

Lemma led_of_requests u ds :
  ul_requests (foldl apply_model_delta u ds) = ul_requests u
  /\ ul_billable_requests (foldl apply_model_delta u ds) = ul_billable_requests u.
Proof. revert u. induction ds as [|d ds IH]; intros u; [done|]. simpl. destruct (IH (apply_model_delta u d)) as [-> ->]. done. Qed.

Lemma in_range_fit c : in_range c -> models_fit (bc_models c).
Proof.
  intros [Hc Hf Hnd]. apply Forall_forall. intros m Hm k.
  assert (Hcell : model_cell (mc_model m) (bc_models c) = Some m).
  { clear Hc Hf. induction (bc_models c) as [|m' ms IH]; [by apply elem_of_nil in Hm|]. csimpl in Hnd.
    apply NoDup_cons in Hnd as [Hni Hnd]. rewrite model_cell_cons. apply elem_of_cons in Hm as [<-|Hm];
      [by rewrite String.eqb_refl|]. destruct (String.eqb_spec (mc_model m') (mc_model m)) as [E|]; [|by apply IH].
    exfalso. apply Hni. rewrite E. apply list_elem_of_fmap. by exists m. }
  specialize (Hc (CTok (mc_model m) k)). specialize (Hf (CTok (mc_model m) k)). simpl in Hc, Hf.
  unfold model_tier in Hc, Hf. rewrite Hcell in Hc, Hf. lia.
Qed.

(** What a flush of a cell adds to its ledger: each counter's growth since the acknowledged baseline. *)
Lemma led_of_cell_delta ctr c l :
  in_range c -> is_u64 (led_of ctr l) ->
  led_of ctr (apply_delta l (cell_delta c)) = saturating_add_signed (led_of ctr l) (cur_of ctr c - flushed_of ctr c).
Proof.
  intros Hr Hl. pose proof (ir_cur c Hr ctr) as Hc. pose proof (ir_flushed c Hr ctr) as Hf. unfold apply_delta.
  set (u := mkLedger _ _ _).
  destruct (led_of_requests u (ud_models (cell_delta c))) as [Hq Hb]. destruct ctr as [| |n k]; simpl in Hc, Hf.
  - unfold led_of. rewrite Hq. simpl. by rewrite !i64_small by lia.
  - unfold led_of. rewrite Hb. simpl. by rewrite !i64_small by lia.
  - change (ud_models (cell_delta c)) with (omap model_delta (bc_models c)).
    rewrite led_of_models; [done|apply Hr|by apply in_range_fit|done].
Qed.

Lemma no_model_delta n k ms :
  models_fit ms -> forallb (fun d => tier_delta_is_zero (md_tokens d)) (omap model_delta ms) = true ->
  model_tier mc_cur n k ms = model_tier mc_flushed n k ms.
Proof.
  intros Hfit. induction Hfit as [|m ms Hm _ IH]; [done|]. simpl. destruct (Hm k) as [Hc Hf].
  unfold model_delta at 1. destruct (tier_delta_is_zero _) eqn:Ez; simpl; [|by rewrite Ez]. intros Hz.
  unfold model_tier. rewrite !model_cell_cons. destruct (String.eqb _ n); [|by apply IH].
  pose proof (tier_delta_zero k _ Ez) as H0. rewrite tier_delta_at in H0 by done. lia.
Qed.

(** A delta skipped as zero is one where nothing has grown. *)
Lemma zero_delta_flushed ctr c : in_range c -> usage_delta_is_zero (cell_delta c) = true -> cur_of ctr c = flushed_of ctr c.
Proof.
  intros Hr Hz. pose proof (ir_cur c Hr ctr) as Hc. pose proof (ir_flushed c Hr ctr) as Hf.
  unfold usage_delta_is_zero in Hz. apply andb_true_iff in Hz as [Hz Hzm]. apply andb_true_iff in Hz as [Hzr Hzb].
  apply Z.eqb_eq in Hzr, Hzb. destruct ctr as [| |n k]; cbn [cur_of flushed_of] in *.
  - unfold cell_delta in Hzr. cbn [ud_requests] in Hzr. rewrite !i64_small in Hzr by lia. lia.
  - unfold cell_delta in Hzb. cbn [ud_billable_requests] in Hzb. rewrite !i64_small in Hzb by lia. lia.
  - apply no_model_delta; [by apply in_range_fit|exact Hzm].
Qed.

(** ** Acknowledgement *)

Definition ack_models (ms0 ms : list ModelCell) : list ModelCell :=
  foldl (fun ms mt => ack_model mt.1 mt.2 ms) ms ((fun m => (mc_model m, mc_cur m)) <$> ms0).

Lemma ack_model_names n t ms : mc_model <$> ack_model n t ms = mc_model <$> ms.
Proof. induction ms as [|m ms IH]; [done|]. simpl. destruct (String.eqb _ n); csimpl; [done|by rewrite IH]. Qed.

Lemma ack_model_cell n n' t ms :
  model_cell n (ack_model n' t ms)
  = if String.eqb n' n then (fun m => mkModelCell (mc_model m) (mc_cur m) t) <$> model_cell n ms else model_cell n ms.
Proof.
  induction ms as [|m ms IH]; [by destruct (String.eqb n' n)|]. simpl ack_model.
  destruct (String.eqb_spec (mc_model m) n') as [E|E]; rewrite !model_cell_cons; simpl.
  - subst n'. by destruct (String.eqb (mc_model m) n).
  - rewrite IH. destruct (String.eqb_spec (mc_model m) n) as [E'|E']; [|done].
    destruct (String.eqb_spec n' n); [congruence|done].
Qed.

Lemma ack_models_step m0 ms0 ms : ack_models (m0 :: ms0) ms = ack_models ms0 (ack_model (mc_model m0) (mc_cur m0) ms).
Proof. done. Qed.

Lemma ack_models_names ms0 ms : mc_model <$> ack_models ms0 ms = mc_model <$> ms.
Proof.
  revert ms. induction ms0 as [|m0 ms0 IH]; intros ms; [done|]. by rewrite ack_models_step, IH, ack_model_names.
Qed.

(** A model of the snapshot still in the cell is acknowledged at the snapshot's count. *)
Lemma ack_models_cell n ms0 ms :
  NoDup (mc_model <$> ms0) ->
  model_cell n (ack_models ms0 ms)
  = match model_cell n ms0 with
    | Some m0 => (fun m => mkModelCell (mc_model m) (mc_cur m) (mc_cur m0)) <$> model_cell n ms
    | None => model_cell n ms
    end.
Proof.
  intros Hnd. revert ms. induction ms0 as [|m0 ms0 IH]; intros ms; [done|]. csimpl in Hnd.
  apply NoDup_cons in Hnd as [Hni Hnd]. rewrite ack_models_step, (IH Hnd), ack_model_cell, model_cell_cons.
  destruct (String.eqb_spec (mc_model m0) n) as [E|E]; [|done]. by rewrite (model_cell_notin n ms0) by (by rewrite <- E).
Qed.

(** The same cell, later in the same window, with nothing acknowledged in between. *)
Record grown (c0 c : BudgetCell) : Prop := {
  gr_window : window_start c = window_start c0;
  gr_flushed : forall ctr, flushed_of ctr c = flushed_of ctr c0;
  gr_cur : forall n k, cur_of (CTok n k) c0 <= cur_of (CTok n k) c;
  gr_range : in_range c
}.

Lemma grown_refl c : in_range c -> grown c c.
Proof. intros Hr. split; [done|done|intros; lia|done]. Qed.

Lemma grown_trans c1 c2 c3 : grown c1 c2 -> grown c2 c3 -> grown c1 c3.
Proof.
  intros [A1 A2 A3 A4] [B1 B2 B3 B4]. split; [congruence| | |done].
  - intros ctr. by rewrite B2.
  - intros n k. specialize (A3 n k). specialize (B3 n k). lia.
Qed.

Lemma ack_snapshot_models id c0 c : bc_models (ack_cell (snapshot_cell id c0) c) = ack_models (bc_models c0) (bc_models c).
Proof. done. Qed.

Lemma ack_cur id c0 c ctr : in_range c0 -> cur_of ctr (ack_cell (snapshot_cell id c0) c) = cur_of ctr c.
Proof.
  intros Hr. destruct ctr as [| |n k]; [done|done|]. unfold cur_of, model_tier.
  rewrite ack_snapshot_models, ack_models_cell by apply Hr.
  destruct (model_cell n (bc_models c0)), (model_cell n (bc_models c)); done.
Qed.

(** An acknowledgement moves the baseline to what the snapshot counted. *)
Lemma ack_flushed id c0 c ctr :
  in_range c0 -> grown c0 c -> flushed_of ctr (ack_cell (snapshot_cell id c0) c) = cur_of ctr c0.
Proof.
  intros Hr [_ Hf Hc Hrc]. destruct ctr as [| |n k]; [done|done|]. specialize (Hf (CTok n k)). specialize (Hc n k).
  pose proof (ir_cur c0 Hr (CTok n k)) as H0. unfold cur_of, flushed_of, model_tier in *.
  rewrite ack_snapshot_models, ack_models_cell by apply Hr.
  destruct (model_cell n (bc_models c0)) as [m0|]; destruct (model_cell n (bc_models c)) as [m|]; simpl in *; lia.
Qed.

Lemma ack_in_range id c0 c : in_range c0 -> grown c0 c -> in_range (ack_cell (snapshot_cell id c0) c).
Proof.
  intros Hr Hg. split.
  - intros ctr. rewrite ack_cur by done. apply (gr_range _ _ Hg).
  - intros ctr. rewrite (ack_flushed id c0 c) by done. apply Hr.
  - rewrite ack_snapshot_models, ack_models_names. apply (gr_range _ _ Hg).
Qed.

Lemma dirty_in_range d c : in_range c -> in_range (set_dirty d c).
Proof. intros [H1 H2 H3]. split; done. Qed.
