(* ===== verification/GovFlush.v ===== *)
(** * GovFlush: every charge reaches the durable store exactly once

    The write-behind flush against any schedule of the requests that run meanwhile, and any pattern of
    store failures. What the ledger holds is at all times what the node has had acknowledged, on top of
    what was there before; nothing is sent twice, and a cell left clean has been sent in full. *)

From S2P Require Import Prelude Float64 Breaker Windows Ledger Groups CostModel Governance GovStore GovSpec GovCheck GovRuns GovCounters.

#[local] Open Scope Z_scope.

Section flush.
Context {St : Type} `{DurableStore St}.
Implicit Types g : GovState St.

(** What the ledgers held before anything of this node's counters. *)
Variable base : string -> Z -> Counter -> Z.

Definition base_ok : Prop := forall id w ctr, 0 <= base id w ctr /\ base id w ctr + I64_MAX <= U64_MAX.

Definition led g (id : string) (w : Z) (ctr : Counter) : Z := led_of ctr (store_ledger (g_store g) id w).

(** ** What other threads do meanwhile *)

(** A window just opened: nothing acknowledged in it, and the ledger has nothing of this node. *)
Definition opened g (id : string) (c : BudgetCell) : Prop :=
  in_range c /\ (forall ctr, flushed_of ctr c = 0)
  /\ (forall ctr, led g id (window_start c) ctr = base id (window_start c) ctr)
  /\ (dirty c = true \/ forall ctr, cur_of ctr c = 0).

(** Charged, refunded or accrued in its window: dirty, or not changed at all. *)
Definition touched (c c' : BudgetCell) : Prop :=
  grown c c' /\ (dirty c' = true \/ (dirty c' = dirty c /\ forall ctr, cur_of ctr c' = cur_of ctr c)).

(** Requests run, windows roll; no other flush runs, and no cell is dropped. *)
Record others g g' : Prop := {
  ot_wf : gov_wf g';
  ot_ledger : forall id w, store_ledger (g_store g') id w = store_ledger (g_store g) id w;
  ot_cells : forall id c, cell id g = Some c -> exists c', cell id g' = Some c'
    /\ (touched c c' \/ (window_start c < window_start c' /\ opened g' id c'));
  ot_new : forall id c', cell id g = None -> cell id g' = Some c' -> opened g' id c'
}.

Definition env_ok (env : nat -> GovState St -> GovState St) : Prop :=
  forall k g, gov_wf g -> (forall id c, cell id g = Some c -> in_range c) -> others g (env k g).

(** ** The invariant

    [fl] is the snapshot whose store call succeeded and is not acknowledged yet, [P] the snapshots
    still to settle, each with the cell it was taken from. *)

Definition sent (fl : option (string * BudgetCell)) (id : string) (c : BudgetCell) (ctr : Counter) : Z :=
  match fl with
  | Some (id0, c0) => if bool_decide (id = id0 /\ window_start c = window_start c0) then cur_of ctr c0 else flushed_of ctr c
  | None => flushed_of ctr c
  end.

Record mid (fl : option (string * BudgetCell)) (P : list (string * BudgetCell)) g : Prop := {
  mid_wf : gov_wf g;
  mid_range : forall id c, cell id g = Some c -> in_range c;
  mid_booked : forall id c ctr, cell id g = Some c -> led g id (window_start c) ctr = base id (window_start c) ctr + sent fl id c ctr;
  mid_nodup : NoDup P.*1;
  mid_pending : forall id c0, (id, c0) ∈ P -> in_range c0
    /\ exists c, cell id g = Some c /\ (window_start c0 < window_start c \/ grown c0 c);
  mid_clean : forall id c, cell id g = Some c -> dirty c = true
    \/ (exists c0, (id, c0) ∈ P /\ window_start c = window_start c0 /\ forall ctr, cur_of ctr c = cur_of ctr c0)
    \/ ((forall c0, (id, c0) ∈ P -> window_start c0 < window_start c) /\ forall ctr, cur_of ctr c = flushed_of ctr c)
}.

(** Nothing pending: what a flush starts from and what it leaves. *)
Definition settled g : Prop := mid None [] g.

Lemma mid_others fl P g g' :
  mid fl P g -> others g g' -> (forall id0 c0, fl = Some (id0, c0) -> (id0, c0) ∈ P) -> mid fl P g'.
Proof.
  intros [H1 H2 H3 H4 H5 H6] [O1 O2 O3 O4] Hfl.
  assert (Hled : forall id w ctr, led g' id w ctr = led g id w ctr) by (intros; unfold led; by rewrite O2).
  assert (Hcases : forall id c', cell id g' = Some c' ->
    (exists c, cell id g = Some c /\ touched c c')
    \/ (opened g' id c' /\ forall c0, (id, c0) ∈ P -> window_start c0 < window_start c')).
  { intros id c' Hc'. destruct (cell id g) as [c|] eqn:Ec.
    - destruct (O3 id c Ec) as (c1 & Hc1 & Hcase). assert (c1 = c') as -> by congruence.
      destruct Hcase as [Ht|[Hlt Ho]]; [left; by exists c|right]. split; [done|]. intros c0 Hc0.
      destruct (H5 id c0 Hc0) as (_ & c2 & Hc2 & Hw). assert (c2 = c) as -> by congruence.
      destruct Hw as [|Hg]; [lia|]. rewrite <- (gr_window _ _ Hg). lia.
    - right. split; [by eapply O4|]. intros c0 Hc0. destruct (H5 id c0 Hc0) as (_ & c2 & Hc2 & _). congruence. }
  split; [done| | |done| |].
  - intros id c' Hc'. destruct (Hcases id c' Hc') as [(c & Hc & [Hg _])|[[Hr _] _]]; [apply Hg|done].
  - intros id c' ctr Hc'. rewrite Hled. destruct (Hcases id c' Hc') as [(c & Hc & [Hg _])|[(_ & Hz & Hb & _) Hnew]].
    + rewrite (gr_window _ _ Hg), (H3 id c ctr Hc). f_equal. unfold sent. destruct fl as [[id0 c0]|].
      * rewrite (gr_window _ _ Hg). case_bool_decide; [done|]. by rewrite (gr_flushed _ _ Hg).
      * by rewrite (gr_flushed _ _ Hg).
    + rewrite <- Hled, Hb. unfold sent. destruct fl as [[id0 c0]|]; [|rewrite Hz; lia].
      rewrite bool_decide_false; [rewrite Hz; lia|]. intros [-> Hw].
      specialize (Hnew c0 (Hfl id0 c0 eq_refl)). lia.
  - intros id c0 Hc0. destruct (H5 id c0 Hc0) as (Hr & c & Hc & Hw). split; [done|].
    destruct (O3 id c Hc) as (c' & Hc' & Hcase). exists c'. split; [done|].
    destruct Hcase as [[Hg _]|[Hlt _]].
    + destruct Hw as [|Hw]; [left; by rewrite (gr_window _ _ Hg)|right; by eapply grown_trans].
    + left. destruct Hw as [|Hw]; [lia|]. rewrite <- (gr_window _ _ Hw). lia.
  - intros id c' Hc'. destruct (Hcases id c' Hc') as [(c & Hc & [Hg Hd])|[(_ & Hz & _ & Hd) Hnew]].
    + destruct Hd as [|[Hd Hcur]]; [by left|]. rewrite Hd.
      destruct (H6 id c Hc) as [|[(c0 & Hp & Hw & Hc0)|[Hp Hf]]]; [by left|right; left|right; right].
      * exists c0. split_and!; [done|by rewrite (gr_window _ _ Hg)|]. intros ctr. by rewrite Hcur.
      * split; [by rewrite (gr_window _ _ Hg)|]. intros ctr. by rewrite Hcur, (gr_flushed _ _ Hg).
    + destruct Hd as [|Hd]; [by left|]. right; right. split; [done|]. intros ctr. by rewrite Hd, Hz.
Qed.

(** ** The store call *)

Lemma mid_push id c0 P g r g' :
  base_ok -> mid None ((id, c0) :: P) g -> push_snap (snapshot_cell id c0) g = (r, g') ->
  mid (match r with Ok _ => Some (id, c0) | Err _ => None end) ((id, c0) :: P) g'.
Proof.
  intros Hbase Hm Hp. pose proof Hm as [H1 H2 H3 H4 H5 H6].
  destruct (push_keeps (snapshot_cell id c0) g) as (Hc & Hb & _). rewrite Hp in Hc, Hb. simpl in Hc, Hb.
  assert (Hcell : forall i, cell i g' = cell i g) by (intros i; unfold cell, read_cell; by rewrite Hb).
  assert (Hwf : gov_wf g').
  { eapply gov_wf_as; [exact H1|by rewrite Hb|done|]. intros sh s Hs. rewrite Hb in Hs. by exists s. }
  destruct (H5 id c0 ltac:(by left)) as (Hr0 & c1 & Hc1 & Hw1).
  assert (Hled : forall i c ctr, cell i g = Some c ->
    led g' i (window_start c) ctr = base i (window_start c) ctr
      + sent (match r with Ok _ => Some (id, c0) | Err _ => None end) i c ctr).
  { intros i c ctr Hi. pose proof (H3 i c ctr Hi) as Hbk. simpl in Hbk.
    unfold push_snap in Hp. destruct (usage_delta_is_zero _) eqn:Ez.
    { injection Hp as <- <-. rewrite Hbk. f_equal. simpl. case_bool_decide as E; [|done]. destruct E as [-> Hw].
      assert (c1 = c) as -> by congruence. destruct Hw1 as [|Hg]; [lia|]. rewrite (gr_flushed _ _ Hg).
      symmetry. by apply zero_delta_flushed. }
    destruct (store_add_usage _ _ _ _) as [r1 st] eqn:Ea. injection Hp as <- <-.
    pose proof (add_usage_adds id (window_start c0) (cell_delta c0) (g_store g) i (window_start c)) as Hadd.
    simpl in Ea. rewrite Ea in Hadd. simpl in Hadd. unfold led in *. simpl. destruct r1 as [u|e]; [|by rewrite Hadd].
    case_bool_decide as E.
    - injection E as -> Hw. simpl. rewrite bool_decide_true by done. assert (c1 = c) as -> by congruence.
      destruct Hw1 as [|Hg]; [lia|]. rewrite Hadd, <- Hw, (gr_flushed _ _ Hg) in *. clear Hadd.
      pose proof (Hbase id (window_start c) ctr). pose proof (ir_cur c0 Hr0 ctr). pose proof (ir_flushed c0 Hr0 ctr).
      rewrite led_of_cell_delta, Hbk; [|done|rewrite Hbk; unfold is_u64; lia].
      unfold saturating_add_signed. lia.
    - rewrite Hadd, Hbk. simpl. rewrite bool_decide_false; [done|]. intros [-> Hw]. apply E. by rewrite Hw. }
  split; [done| | |done| |]; try (intros i c; rewrite Hcell; first [exact (H2 i c)|exact (H6 i c)]).
  - intros i c ctr Hi. rewrite Hcell in Hi. by apply Hled.
  - intros i c Hi. destruct (H5 i c Hi) as (Hr & c2 & Hc2 & Hw2). split; [done|]. exists c2. by rewrite Hcell.
Qed.

(** ** Settlement *)

Lemma settle_cells snap f g g' :
  gov_wf g -> settle snap f g = Some g' ->
  gov_wf g' /\ g_store g' = g_store g
  /\ forall id, cell id g' = if bool_decide (id = snap_bucket_id snap) then at_window (snap_window snap) f (cell id g) else cell id g.
Proof.
  intros Hwf Hs. destruct (settle_spec snap f g Hwf) as (g1 & Hs1 & Hwf1 & _ & Hst & _ & Hc).
  assert (g1 = g') as -> by congruence. split_and!; [done|done|]. intros id. rewrite Hc. by case_bool_decide as E; [rewrite E|].
Qed.

(** The cell a settlement leaves, when it is of the snapshot's window. *)
Lemma mid_settle fl id c0 P g g' f :
  mid fl ((id, c0) :: P) g -> settle (snapshot_cell id c0) f g = Some g' ->
  (forall i c, fl = Some (i, c) -> (i, c) = (id, c0)) ->
  (forall c ctr, grown c0 c -> window_start (f c) = window_start c /\ in_range (f c)
     /\ flushed_of ctr (f c) = sent fl id c ctr /\ cur_of ctr (f c) = cur_of ctr c) ->
  (forall c, dirty (f c) = true \/ (dirty (f c) = dirty c /\ fl = Some (id, c0))) ->
  mid None P g'.
Proof.
  intros [H1 H2 H3 H4 H5 H6] Hs Hfl Hf Hdf. destruct (settle_cells _ _ _ _ H1 Hs) as (Hwf & Hst & Hcell).
  csimpl in H4. apply NoDup_cons in H4 as [Hni H4].
  assert (Hled : forall i w ctr, led g' i w ctr = led g i w ctr) by (intros; unfold led; by rewrite Hst).
  assert (Hnot : forall i c, (i, c) ∈ P -> i <> id).
  { intros i c Hi ->. apply Hni. apply list_elem_of_fmap. by exists (id, c). }
  destruct (H5 id c0 ltac:(by left)) as (Hr0 & c1 & Hc1 & Hw1).
  assert (Hcases : forall i c', cell i g' = Some c' ->
    (cell i g = Some c' /\ (i <> id \/ window_start c0 < window_start c'))
    \/ (i = id /\ cell id g = Some c1 /\ window_start c1 = window_start c0 /\ grown c0 c1 /\ c' = f c1)).
  { intros i c' Hc'. rewrite Hcell in Hc'. case_bool_decide as E; [|by left; split; [|left]]. simpl in E. subst i.
    rewrite Hc1 in *. rewrite at_window_Some in Hc'. injection Hc' as <-. simpl snap_window.
    destruct (window_start c1 =? window_start c0) eqn:Ew; zbool.
    - right. destruct Hw1 as [|Hg]; [lia|done].
    - left. split; [done|]. right. destruct Hw1 as [|Hg]; [done|]. by destruct Ew, Hg. }
  assert (Hsent : forall i c ctr, cell i g = Some c -> i <> id \/ window_start c0 < window_start c -> sent fl i c ctr = flushed_of ctr c).
  { intros i c ctr _ Hi. unfold sent. destruct fl as [[i0 d0]|]; [|done]. pose proof (Hfl i0 d0 eq_refl) as Hid. injection Hid as -> ->.
    rewrite bool_decide_false; [done|]. intros [-> Hw]. destruct Hi; [done|lia]. }
  split; [done| | |done| |].
  - intros i c' Hc'. destruct (Hcases i c' Hc') as [[Hc _]|(_ & _ & _ & Hg & ->)]; [by eapply H2|]. by destruct (Hf c1 CReq Hg) as (_ & ? & _).
  - intros i c' ctr Hc'. rewrite Hled. simpl. destruct (Hcases i c' Hc') as [[Hc Hi]|(-> & Hc & _ & Hg & ->)].
    + by rewrite (H3 i c' ctr Hc), Hsent.
    + destruct (Hf c1 ctr Hg) as (-> & _ & -> & _). by apply H3.
  - intros i d Hd. destruct (H5 i d ltac:(by right)) as (Hr & c & Hc & Hw). split; [done|]. exists c. split; [|done].
    rewrite Hcell. simpl. rewrite bool_decide_false; [done|by eapply Hnot].
  - intros i c' Hc'. destruct (Hcases i c' Hc') as [[Hc Hi]|(-> & Hc & Hw & Hg & ->)].
    + destruct (H6 i c' Hc) as [|[(d & Hp & Hwd & Hcd)|[Hp Hcd]]]; [by left|right; left|right; right].
      * exists d. split_and!; try done. apply elem_of_cons in Hp as [[= -> ->]|Hp]; [|done]. destruct Hi; [done|lia].
      * split; [|done]. intros d Hd. apply Hp. by right.
    + destruct (Hdf c1) as [|[Hd Hfl']]; [by left|]. rewrite Hd.
      destruct (H6 id c1 Hc) as [|[(d & Hp & Hwd & Hcd)|[Hp _]]]; [by left| |specialize (Hp c0 ltac:(by left)); lia].
      right; right. split; [intros d' Hd'; by destruct (Hnot _ _ Hd')|]. intros ctr. destruct (Hf c1 ctr Hg) as (_ & _ & -> & ->).
      apply elem_of_cons in Hp as [[= ->]|Hp]; [|by destruct (Hnot _ _ Hp)]. rewrite Hfl'. simpl. by rewrite bool_decide_true.
Qed.

Lemma mid_ack id c0 P g g' :
  mid (Some (id, c0)) ((id, c0) :: P) g -> settle (snapshot_cell id c0) (ack_cell (snapshot_cell id c0)) g = Some g' ->
  mid None P g'.
Proof.
  intros Hm Hs. pose proof (proj1 (mid_pending _ _ _ Hm id c0 ltac:(by left))) as Hr0.
  eapply mid_settle; [exact Hm|exact Hs|by intros i c [= -> ->]| |by intros c; right].
  intros c ctr Hg. split_and!; [done|by apply ack_in_range| |by apply ack_cur].
  rewrite (ack_flushed id c0 c) by done. simpl. rewrite bool_decide_true; [done|]. split; [done|apply Hg].
Qed.

Lemma mid_retry id c0 P g g' :
  mid None ((id, c0) :: P) g -> settle (snapshot_cell id c0) (set_dirty true) g = Some g' -> mid None P g'.
Proof.
  intros Hm Hs. eapply mid_settle; [exact Hm|exact Hs|done| |by intros c; left].
  intros c ctr Hg. split_and!; [done|apply dirty_in_range, Hg|by destruct ctr|by destruct ctr].
Qed.

Definition snaps_of (P : list (string * BudgetCell)) : list DirtySnap := (fun ic => snapshot_cell ic.1 ic.2) <$> P.

Lemma flush_snaps_mid env P n g :
  base_ok -> env_ok env -> mid None P g ->
  exists n' g', flush_snaps env (snaps_of P) n g = Some (n', g') /\ settled g'.
Proof.
  intros Hbase. revert env n g. induction P as [|[id c0] P IH]; intros env n g Henv Hm; [by exists n, g|].
  simpl. assert (Henv' : forall k g0 fl, mid fl ((id, c0) :: P) g0 -> (forall i c, fl = Some (i, c) -> (i, c) = (id, c0)) ->
    mid fl ((id, c0) :: P) (env k g0)).
  { intros k g0 fl Hm0 Hfl. eapply mid_others; [exact Hm0|by apply Henv; [apply (mid_wf _ _ _ Hm0)|apply Hm0]|].
    intros i c Hic. rewrite (Hfl i c Hic). by left. }
  pose proof (Henv' 0%nat g None Hm ltac:(done)) as Hm0.
  destruct (push_snap (snapshot_cell id c0) (env 0%nat g)) as [r g1] eqn:Ep.
  pose proof (mid_push id c0 P _ r g1 Hbase Hm0 Ep) as Hm1.
  assert (Hm2 : mid (match r with Ok _ => Some (id, c0) | Err _ => None end) ((id, c0) :: P) (env 1%nat g1)).
  { apply Henv'; [done|]. by destruct r; intros i c [= <- <-]. }
  assert (Hs : exists g2, settle (snapshot_cell id c0) (match r with Ok _ => ack_cell (snapshot_cell id c0) | Err _ => set_dirty true end) (env 1%nat g1) = Some g2).
  { destruct (settle_spec (snapshot_cell id c0) (match r with Ok _ => ack_cell (snapshot_cell id c0) | Err _ => set_dirty true end) (env 1%nat g1) (mid_wf _ _ _ Hm2)) as (g2 & Hg2 & _). by exists g2. }
  destruct Hs as [g2 Hs]. rewrite Hs. cbn [mbind option_bind].
  apply (IH (fun k => env (S (S k)))); [intros k; apply Henv|]. destruct r; [by eapply mid_ack|by eapply mid_retry].
Qed.

(** ** The snapshot *)

Definition dirty_of (s : MapShard) : list (string * BudgetCell) :=
  filter (fun ic => Is_true (dirty ic.2)) (map_to_list (shard_map s)).

Lemma dirty_of_elem s id c : (id, c) ∈ dirty_of s <-> shard_map s !! id = Some c /\ dirty c = true.
Proof.
  unfold dirty_of. rewrite list_elem_of_filter, elem_of_map_to_list. simpl. rewrite Is_true_true. tauto.
Qed.

Lemma dirty_of_NoDup s : NoDup (dirty_of s).*1.
Proof.
  eapply sublist_NoDup; [apply (NoDup_fst_map_to_list (shard_map s))|]. apply (fmap_sublist fst), sublist_filter.
Qed.

Lemma cell_in_shard g id s : gov_wf g -> budget g !! shard_index id = Some s -> cell id g = shard_map s !! id.
Proof. intros _ Hs. unfold cell, read_cell. by rewrite Hs. Qed.

Lemma mid_snapshot P g sh s :
  mid None P g -> budget g !! sh = Some s -> (forall id, id ∈ P.*1 -> shard_index id <> sh) ->
  mid None (P ++ dirty_of s) (set_budget (<[sh := (snapshot_shard s).2]> (budget g)) g).
Proof.
  intros Hm Hs Hnew. pose proof Hm as [H1 H2 H3 H4 H5 H6].
  set (g' := set_budget _ g).
  assert (Hcell : forall id, cell id g' = if bool_decide (shard_index id = sh)
    then (fun c => if dirty c then set_dirty false c else c) <$> cell id g else cell id g).
  { intros id. unfold g'. rewrite cell_set_shard by by eapply lookup_lt_Some. case_bool_decide as E; [|done].
    simpl. rewrite lookup_fmap. rewrite (cell_in_shard g id s); [done|done|by rewrite E]. }
  assert (Hsame : forall id c', cell id g' = Some c' -> exists c, cell id g = Some c
    /\ window_start c' = window_start c /\ (forall ctr, flushed_of ctr c' = flushed_of ctr c)
    /\ (forall ctr, cur_of ctr c' = cur_of ctr c) /\ in_range c'
    /\ (c' = c \/ (dirty c = true /\ (id, c) ∈ dirty_of s))
    /\ (shard_index id = sh -> dirty c' = false)).
  { intros id c' Hc'. rewrite Hcell in Hc'. case_bool_decide as E.
    - destruct (cell id g) as [c|] eqn:Ec; [|done]. exists c. simpl in Hc'. destruct (dirty c) eqn:Ed; injection Hc' as <-.
      + split_and!; try done; try (by intros []); [apply dirty_in_range; by eapply H2|right; split; [done|]].
        apply dirty_of_elem. split; [|done]. rewrite <- Ec. symmetry. apply cell_in_shard; [done|by rewrite E].
      + split_and!; try done; [by eapply H2|by left].
    - exists c'. split_and!; try done; [by eapply H2|by left]. }
  assert (Hdirty : forall id c, (id, c) ∈ dirty_of s -> shard_index id = sh /\ cell id g = Some c).
  { intros id c [Hc _]%dirty_of_elem. assert (Hsh : shard_index id = sh) by (eapply wf_placed; [done..|by eexists]).
    split; [done|]. by rewrite (cell_in_shard g id s); [|done|rewrite Hsh]. }
  split; [by apply gov_wf_snapshot| | | | |].
  - intros id c' Hc'. by destruct (Hsame id c' Hc') as (c & _ & _ & _ & _ & ? & _).
  - intros id c' ctr Hc'. destruct (Hsame id c' Hc') as (c & Hc & Hw & Hf & _). rewrite Hw. simpl. rewrite Hf.
    exact (H3 id c ctr Hc).
  - rewrite fmap_app. apply NoDup_app. split_and!; [done| |apply dirty_of_NoDup].
    intros id Hid Hid'. apply list_elem_of_fmap in Hid' as ([i c] & -> & Hc). by apply (Hnew i Hid), (Hdirty i c).
  - intros id c0 Hc0. apply elem_of_app in Hc0 as [Hc0|Hc0].
    + destruct (H5 id c0 Hc0) as (Hr & c & Hc & Hw). split; [done|]. exists c. split; [|done]. rewrite Hcell.
      rewrite bool_decide_false; [done|]. apply Hnew, list_elem_of_fmap. by exists (id, c0).
    + destruct (Hdirty id c0 Hc0) as [Hsh Hc]. split; [by eapply H2|].
      destruct (cell id g') as [c'|] eqn:Ec'; [|by rewrite Hcell, Hc, bool_decide_true in Ec'].
      destruct (Hsame id c' Ec') as (c & Hc2 & Hw & Hf & Hcur & Hr & _). assert (c = c0) as -> by congruence.
      exists c'. split; [done|]. right. split; [done|done| |done]. intros n k. rewrite Hcur. lia.
  - intros id c' Hc'. destruct (Hsame id c' Hc') as (c & Hc & Hw & Hf & Hcur & _ & Hcase & _).
    destruct Hcase as [->|[Hd Hin]].
    2: { right; left. exists c. split_and!; [by apply elem_of_app; right|done|done]. }
    destruct (dirty c) eqn:Ed; [by left|]. right.
    destruct (H6 id c Hc) as [|[(d & Hp & Hwd & Hcd)|[Hp Hcd]]]; [congruence|left|right].
    + exists d. split_and!; try done. by apply elem_of_app; left.
    + split; [|done]. intros d Hd. apply elem_of_app in Hd as [Hd|Hd]; [by apply Hp|].
      apply dirty_of_elem in Hd as Hd2. destruct (Hdirty id d Hd) as [_ Hcd']. assert (d = c) as -> by congruence.
      by destruct Hd2 as [_ ?]; congruence.
Qed.

Lemma mid_env fl P g env k :
  env_ok env -> mid fl P g -> (forall id0 c0, fl = Some (id0, c0) -> (id0, c0) ∈ P) -> mid fl P (env k g).
Proof. intros Henv Hm Hfl. eapply mid_others; [exact Hm| |done]. apply Henv; apply Hm. Qed.

Lemma snaps_of_app P Q : snaps_of (P ++ Q) = snaps_of P ++ snaps_of Q.
Proof. apply fmap_app. Qed.

Lemma snapshot_shards_mid env shs P g :
  env_ok env -> mid None P g -> NoDup shs -> Forall (fun sh => sh < 64)%nat shs ->
  (forall id, id ∈ P.*1 -> shard_index id ∉ shs) ->
  exists P' g', snapshot_shards env shs (snaps_of P) g = Some (snaps_of P', g') /\ mid None P' g'.
Proof.
  revert env P g. induction shs as [|sh shs IH]; intros env P g Henv Hm Hnd Hlt Hnew; [by exists P, g|].
  apply NoDup_cons in Hnd as [Hni Hnd]. apply Forall_cons in Hlt as [Hsh Hlt]. simpl.
  pose proof (mid_env None P g env 0 Henv Hm ltac:(done)) as Hm0.
  destruct (budget (env 0%nat g) !! sh) as [s|] eqn:Es.
  2: { apply lookup_ge_None_1 in Es. rewrite (wf_shards _ (mid_wf _ _ _ Hm0)) in Es. lia. }
  cbn [mbind option_bind]. change ((fun ic => snapshot_cell ic.1 ic.2) <$> dirty_of s) with (snaps_of (dirty_of s)).
  rewrite <- snaps_of_app.
  apply (IH (fun k => env (S k)) (P ++ dirty_of s)); [intros k; apply Henv| |done|done|].
  - apply (mid_snapshot P _ sh s Hm0 Es). intros id Hid Heq. apply (Hnew id Hid). rewrite Heq. by left.
  - intros id Hid Hin. rewrite fmap_app in Hid. apply elem_of_app in Hid as [Hid|Hid].
    + apply (Hnew id Hid). by right.
    + apply list_elem_of_fmap in Hid as ([i c] & -> & [Hc _]%dirty_of_elem). simpl in Hin. apply Hni.
      by rewrite <- (wf_placed _ (mid_wf _ _ _ Hm0) sh s i Es ltac:(by eexists)).
Qed.

Lemma flush_mid env g :
  base_ok -> env_ok env -> settled g -> exists n g', flush_budgets env g = Some (n, g') /\ settled g'.
Proof.
  intros Hbase Henv Hm. unfold flush_budgets. pose proof (wf_shards _ (mid_wf _ _ _ Hm)) as Hlen. rewrite Hlen.
  destruct (snapshot_shards_mid env (seq 0 64) [] g Henv Hm) as (P & g1 & Hs & Hm1).
  - apply NoDup_seq.
  - apply Forall_seq. lia.
  - by intros id Hid%elem_of_nil.
  - change (snaps_of []) with (@nil DirtySnap) in Hs. rewrite Hs. cbn [mbind option_bind].
    apply (flush_snaps_mid (fun k => env (64 + k)%nat)); [done|intros k; apply Henv|done].
Qed.

(** ** With the store up and nobody else running *)

Definition quiet (env : nat -> GovState St -> GovState St) : Prop := forall k g, env k g = g.

Definition clean_on (shs : list nat) g : Prop := forall id c, shard_index id ∈ shs -> cell id g = Some c -> dirty c = false.

Lemma quiet_snapshots env shs done_ acc g snaps g' :
  quiet env -> gov_wf g -> Forall (fun sh => sh < 64)%nat shs -> clean_on done_ g ->
  snapshot_shards env shs acc g = Some (snaps, g') ->
  clean_on (done_ ++ shs) g' /\ g_store g' = g_store g /\ gov_wf g'.
Proof.
  revert env done_ acc g. induction shs as [|sh shs IH]; intros env done_ acc g Hq Hwf Hlt Hcl Hs.
  { simpl in Hs. simplify_eq. by rewrite app_nil_r. }
  apply Forall_cons in Hlt as [Hsh Hlt]. simpl in Hs. rewrite Hq in Hs.
  apply bind_Some_inv in Hs as (s & Es & Hs).
  apply (IH _ (done_ ++ [sh])) in Hs; [|intros k; apply Hq|by apply gov_wf_snapshot|done|].
  - destruct Hs as (H1 & H2 & H3). rewrite <- app_assoc in H1. by split_and!.
  - intros id c Hid Hc.
    change (set_budget _ g) with (set_budget (<[sh := (snapshot_shard s).2]> (budget g)) g) in Hc.
    rewrite cell_set_shard in Hc by by eapply lookup_lt_Some. case_bool_decide as E.
    + simpl in Hc. rewrite lookup_fmap in Hc. destruct (shard_map s !! id) as [c0|]; [|done]. simpl in Hc.
      destruct (dirty c0) eqn:Ed; by injection Hc as <-.
    + eapply Hcl; [|exact Hc]. apply elem_of_app in Hid as [|Hid]; [done|]. by apply list_elem_of_singleton in Hid.
Qed.

Lemma quiet_snaps env up snaps n g n' g' :
  quiet env ->
  (forall b w d st, up st -> (store_add_usage b w d st).1 = Ok tt /\ up (store_add_usage b w d st).2) ->
  gov_wf g -> up (g_store g) -> flush_snaps env snaps n g = Some (n', g') ->
  (forall id c, cell id g = Some c -> dirty c = false) -> forall id c, cell id g' = Some c -> dirty c = false.
Proof.
  intros Hq0 Hup. revert env Hq0 n g. induction snaps as [|snap snaps IH]; intros env Hq n g Hwf Hst Hf Hcl; simpl in Hf; [by simplify_eq|].
  rewrite Hq in Hf. destruct (push_snap snap g) as [r g1] eqn:Ep.
  destruct (push_keeps snap g) as (Hc & Hb & _). rewrite Ep in Hc, Hb. simpl in Hc, Hb.
  assert (Hr : r = Ok tt /\ up (g_store g1)).
  { unfold push_snap in Ep. destruct (usage_delta_is_zero _); [by simplify_eq|].
    pose proof (Hup (snap_bucket_id snap) (snap_window snap) (snap_delta snap) (g_store g) Hst) as [Hr Hu].
    destruct (store_add_usage _ _ _ _) as [r1 st]. simpl in *. by simplify_eq. }
  destruct Hr as [-> Hst1]. rewrite Hq in Hf. apply bind_Some_inv in Hf as (g2 & Hs & Hf).
  assert (Hwf1 : gov_wf g1).
  { eapply gov_wf_as; [exact Hwf|by rewrite Hb|done|]. intros sh s Hs'. rewrite Hb in Hs'. by exists s. }
  destruct (settle_cells snap (ack_cell snap) g1 g2 Hwf1 Hs) as (Hwf2 & Hst2 & Hcell).
  eapply (IH (fun k => env (S (S k)))); [intros k; apply Hq|exact Hwf2|by rewrite Hst2|exact Hf|].
  intros id c Hc'. rewrite Hcell in Hc'. assert (Hc1 : cell id g1 = cell id g) by (unfold cell, read_cell; by rewrite Hb).
  rewrite Hc1 in Hc'. case_bool_decide; [|by eapply Hcl]. destruct (cell id g) as [x|] eqn:Ex; [|done].
  rewrite at_window_Some in Hc'. injection Hc' as <-. destruct (_ =? _); [|by eapply Hcl].
  change (dirty (ack_cell snap x)) with (dirty x). by eapply Hcl.
Qed.

Lemma quiet_flush env up g n g' :
  quiet env ->
  (forall b w d st, up st -> (store_add_usage b w d st).1 = Ok tt /\ up (store_add_usage b w d st).2) ->
  gov_wf g -> up (g_store g) -> flush_budgets env g = Some (n, g') ->
  forall id c, cell id g' = Some c -> dirty c = false.
Proof.
  intros Hq Hup Hwf Hst Hf. unfold flush_budgets in Hf. rewrite (wf_shards _ Hwf) in Hf.
  apply bind_Some_inv in Hf as ([snaps g1] & Hs & Hf).
  assert (Hlt : Forall (fun sh => sh < 64)%nat (seq 0 64)) by (apply Forall_seq; lia).
  destruct (quiet_snapshots env (seq 0 64) [] [] g snaps g1 Hq Hwf Hlt) as (Hcl & Hst1 & Hwf1); [|done|].
  { by intros id c Hid%elem_of_nil. }
  eapply (quiet_snaps (fun k => env (64 + k)%nat) up snaps 0 g1 n g'); [intros k; apply Hq|done|done|by rewrite Hst1|exact Hf|].
  intros id c Hc. eapply Hcl; [|exact Hc]. rewrite app_nil_l. apply elem_of_seq. pose proof (shard_index_lt id). lia.
Qed.
End flush.

(** ** Properties *)


Lemma others_refl {St} `{DurableStore St} base (g : GovState St) :
  gov_wf g -> (forall id c, cell id g = Some c -> in_range c) -> others base g g.
Proof.
  intros Hwf Hr. split; [done|done| |congruence]. intros id c Hc. exists c. split; [done|]. left.
  split; [apply grown_refl; by eapply Hr|by right].
Qed.

Lemma gov_after_charged :
  gov_wf gov_after /\ chain_charged gov_cost gov_chain "fast" 1750000000 (mkGrant ["org"%string]) gov_start gov_after.
Proof.
  destruct (chain_admit_spec gov_cost gov_key "fast" 1750000000 256 gov_chain gov_start gov_cost_wf
    (gov_inv_new _ _) ltac:(lia) gov_chain_for gov_chain_distinct) as (r & g' & Hr & [Hwf _] & _ & _ & Hcase).
  pose proof (eq_trans (eq_sym Hr) gov_admitted_ok) as Heq. apply (inj Some) in Heq.
  apply pair_equal_spec in Heq as [Er Eg]. rewrite Er, Eg in *. exact (conj Hwf (proj2 Hcase)).
Qed.

(** The cells of the state after one admission: one charge each, nothing flushed. *)
Lemma gov_after_cells id c :
  cell id gov_after = Some c -> exists b, b ∈ buckets_for gov_chain "fast" /\ id = cb_id b /\ c = charged 1750000000 b None.
Proof.
  intros Hc. destruct gov_after_charged as (_ & _ & _ & Hin & Hout).
  assert (Hnone : forall i x, swept gov_cost 1750000000 i (cell i gov_start) x -> x = None).
  { intros i x Hx. unfold gov_start in Hx. rewrite cell_new in Hx. by destruct Hx. }
  destruct (decide (id ∈ cb_id <$> buckets_for gov_chain "fast")) as [Hid|Hid].
  - apply list_elem_of_fmap in Hid as (b & -> & Hb). destruct (Hin b Hb) as (c0 & Hsw & Hc').
    rewrite (Hnone _ _ Hsw) in Hc'. exists b. split; [exact Hb|]. split; [reflexivity|]. congruence.
  - pose proof (Hnone _ _ (Hout id Hid)) as Hn. congruence.
Qed.

Lemma charged_in_range now b : in_range (charged now b None).
Proof.
  split; [| |apply NoDup_nil_2]; intros [| |n k];
    cbn [cur_of flushed_of charged touch charge resolve_cell cell_fresh bc_requests bc_billable bc_models
      flushed_requests flushed_billable]; unfold model_tier; simpl; unfold sat_add, I64_MAX, U64_MAX; lia.
Qed.

Lemma charged_settled {St} `{DurableStore St} (g : GovState St) :
  gov_wf g -> (forall id w, store_ledger (g_store g) id w = UsageLedger_default) ->
  (forall id c, cell id g = Some c -> exists now b, c = charged now b None) -> settled (fun _ _ _ => 0) g.
Proof.
  intros Hwf Hst Hcells. split; [done| | |constructor|by intros id c0 Hp%elem_of_nil|].
  - intros id c Hc. apply Hcells in Hc as (now & b & ->). apply charged_in_range.
  - intros id c ctr Hc. apply Hcells in Hc as (now & b & ->). unfold led. rewrite Hst. by destruct ctr.
  - intros id c Hc. apply Hcells in Hc as (now & b & ->). by left.
Qed.

Lemma gov_after_store : g_store gov_after = g_store gov_start.
Proof. vm_compute. reflexivity. Qed.

Lemma gov_after_settled : settled (fun _ _ _ => 0) gov_after.
Proof.
  apply charged_settled.
  - exact (proj1 gov_after_charged).
  - intros id w. rewrite gov_after_store. reflexivity.
  - intros id c Hc. apply gov_after_cells in Hc as (b & _ & _ & Hb). exists 1750000000, b. exact Hb.
Qed.


(** Between the first store call of a flush and its acknowledgement, another request is admitted and a
    whole second flush runs. *)
Definition overlap (k : nat) (g : GovState MapStore) : GovState MapStore :=
  if (k =? 65)%nat then
    default g ('(_, g1) ← try_admit gov_cost gov_key "fast" 1750000001 256 g;
               '(_, g2) ← flush_budgets (fun _ g => g) g1; Some g2)
  else g.

(** The requests the node admitted in the team's bucket, and those its ledger holds afterwards. *)
Definition flushed_twice (env : nat -> GovState MapStore -> GovState MapStore) : option (Z * Z) :=
  '(_, g) ← flush_budgets env gov_after;
  c ← cell "group:team@minute" g;
  Some (bc_requests c, ul_requests (store_ledger (g_store g) "group:team@minute" (window_start c))).

(** Two flushes that overlap count a request twice. The flush itself takes no lock against another
    one: when a second flush runs between the first one's store call and its acknowledgement, the
    growth the first has already sent is sent again, and the ledger of a team that was admitted two
    requests holds three. The background flusher guards against it with its own gate; the final flush
    on shutdown (main.rs) does not take that gate. *)
Theorem overlapping_flushes_double_count :
  flushed_twice overlap = Some (2, 3) /\ flushed_twice (fun _ g => g) = Some (1, 1).
Proof. split; vm_compute; reflexivity. Qed.

(** * the boot hydration restores what the flush made durable

    A fresh state hydrated from the store reads, bucket by bucket, what the ledger holds, and is settled:
    the next flush sends nothing that is already there. *)


(** A ledger a node can hold: counters in the signed range, models distinct. *)
Definition ledger_ok (l : UsageLedger) : Prop :=
  (forall ctr, 0 <= led_of ctr l <= I64_MAX) /\ NoDup (mt_model <$> ul_models l).

Lemma hydrated_models n k l :
  let ms := (fun m => mkModelCell (mt_model m) (mt_tokens m) (mt_tokens m)) <$> ul_models l in
  model_tier mc_cur n k ms = led_of (CTok n k) l /\ model_tier mc_flushed n k ms = led_of (CTok n k) l.
Proof.
  simpl. unfold tokens_for, model_tier. induction (ul_models l) as [|m ms IH]; [done|].
  rewrite fmap_cons, !model_cell_cons. simpl. destruct (String.eqb (mt_model m) n); [done|exact IH].
Qed.

Lemma hydrated_cur ctr w now l : cur_of ctr (hydrated_cell w now l) = led_of ctr l.
Proof. destruct ctr as [| |n k]; [done|done|]. apply hydrated_models. Qed.

Lemma hydrated_flushed ctr w now l : flushed_of ctr (hydrated_cell w now l) = led_of ctr l.
Proof. destruct ctr as [| |n k]; [done|done|]. apply hydrated_models. Qed.

Lemma hydrated_in_range w now l : ledger_ok l -> in_range (hydrated_cell w now l).
Proof.
  intros [Hc Hnd]. split; [intros; by rewrite hydrated_cur|intros; by rewrite hydrated_flushed|].
  simpl. rewrite <- list_fmap_compose. exact Hnd.
Qed.

Section restart.
Context {St : Type} `{DurableStore St}.
Implicit Types g : GovState St.

Definition no_base (_ : string) (_ : Z) (_ : Counter) : Z := 0.

Lemma settled_set_store g st :
  settled no_base g -> (forall id w, store_ledger st id w = store_ledger (g_store g) id w) -> settled no_base (set_store st g).
Proof.
  intros [H1 H2 H3 H4 H5 H6] Hst. split; [by destruct H1|exact H2| |done|exact H5|exact H6].
  intros id c ctr Hc. unfold led. simpl. rewrite Hst. by apply (H3 id c ctr).
Qed.

Lemma settled_hydrate_cell g g' id w now :
  settled no_base g -> ledger_ok (store_ledger (g_store g) id w) ->
  write_cell id (fun m => <[id := hydrated_cell w now (store_ledger (g_store g) id w)]> m) g = Some g' ->
  settled no_base g' /\ g_store g' = g_store g
  /\ forall i, cell i g' = if bool_decide (i = id) then Some (hydrated_cell w now (store_ledger (g_store g) id w)) else cell i g.
Proof.
  intros Hm Hl Hw. pose proof Hm as [H1 H2 H3 H4 H5 H6].
  destruct (write_cell_spec g id (fun _ => Some (hydrated_cell w now (store_ledger (g_store g) id w)))
    (fun m => <[id := hydrated_cell w now (store_ledger (g_store g) id w)]> m) H1) as (g1 & Hw1 & Hwf1 & _ & Hst & _ & Hc).
  { intros m i. case_bool_decide as E; [subst i; by rewrite lookup_insert_eq|by rewrite lookup_insert_ne]. }
  assert (g1 = g') as -> by congruence. split; [|by split].
  split; [done| | |done|by intros i c0 Hp%elem_of_nil|].
  - intros i c Hi. rewrite Hc in Hi. case_bool_decide; [injection Hi as <-; by apply hydrated_in_range|by eapply H2].
  - intros i c ctr Hi. unfold led. rewrite Hst, Hc in *. case_bool_decide as E; [|by apply (H3 i c ctr)].
    subst i. injection Hi as <-. simpl sent. by rewrite hydrated_flushed.
  - intros i c Hi. rewrite Hc in Hi. case_bool_decide as E; [|by apply (H6 i c)].
    injection Hi as <-. right; right. split; [by intros d Hd%elem_of_nil|].
    intros ctr. by rewrite hydrated_cur, hydrated_flushed.
Qed.

(** Nothing to restore. *)
Definition ledger_empty (l : UsageLedger) : bool := (ul_requests l =? 0) && bool_decide (ul_models l = []).

Lemma hydrate_loop_spec bs now g :
  settled no_base g -> (forall id w, ledger_ok (store_ledger (g_store g) id w)) -> NoDup bs.*1 ->
  (forall id, id ∈ bs.*1 -> cell id g = None) ->
  exists r g', hydrate_loop bs now g = Some (r, g') /\ settled no_base g'
    /\ (forall id w, store_ledger (g_store g') id w = store_ledger (g_store g) id w)
    /\ (forall id, id ∉ bs.*1 -> cell id g' = cell id g)
    /\ (r = Ok tt -> forall id p, (id, p) ∈ bs ->
          let l := store_ledger (g_store g) id (budget_window p now) in
          cell id g' = if ledger_empty l then None else Some (hydrated_cell (budget_window p now) now l)).
Proof.
  revert g. induction bs as [|[id p] bs IH]; intros g Hm Hl Hnd Hnone; simpl.
  { exists (Ok tt), g. split_and!; try done. by intros _ id p Hin%elem_of_nil. }
  csimpl in Hnd. apply NoDup_cons in Hnd as [Hni Hnd]. set (w := budget_window p now).
  pose proof (get_usage_keeps id w (g_store g)) as Hkeep.
  destruct (store_get_usage id w (g_store g)) as [r st] eqn:Eg. simpl in Hkeep.
  pose proof (settled_set_store g st Hm Hkeep) as Hm1.
  destruct (get_usage_reads id w (g_store g)) as [Hr|[e Hr]]; rewrite Eg in Hr; simpl in Hr; subst r.
  2: { exists (Err e), (set_store st g). split_and!; try done. }
  assert (Hl1 : forall i w', ledger_ok (store_ledger (g_store (set_store st g)) i w')) by (intros; simpl; rewrite Hkeep; apply Hl).
  change ((ul_requests _ =? 0) && _) with (ledger_empty (store_ledger (g_store g) id w)).
  destruct (ledger_empty (store_ledger (g_store g) id w)) eqn:Ez.
  - destruct (IH (set_store st g)) as (r & g' & -> & Hm2 & Hst2 & Hout & Hin); [done|done|done| |].
    { intros i Hi. apply (Hnone i). by right. }
    exists r, g'. split_and!; [done|done|by intros; rewrite Hst2; simpl| |].
    + intros i Hi. csimpl in Hi. apply not_elem_of_cons in Hi as [_ Hi]. exact (Hout i Hi).
    + intros Hr i q Hiq. simpl. apply elem_of_cons in Hiq as [[= -> ->]|Hiq].
      * fold w. rewrite Ez, Hout by done. apply (Hnone id). by left.
      * specialize (Hin Hr i q Hiq). simpl in Hin. by rewrite !Hkeep in Hin.
  - assert (Hw : exists g1, write_cell id (fun m => <[id := hydrated_cell w now (store_ledger (g_store (set_store st g)) id w)]> m) (set_store st g) = Some g1).
    { destruct (shard_exists (set_store st g) id (mid_wf _ _ _ _ Hm1)) as [s Hs]. unfold write_cell. rewrite Hs. by eexists. }
    destruct Hw as [g1 Hw]. destruct (settled_hydrate_cell _ g1 id w now Hm1 (Hl1 id w) Hw) as (Hm2 & Hst2 & Hc2).
    assert (Hled : store_ledger (g_store (set_store st g)) id w = store_ledger (g_store g) id w) by (simpl; by rewrite Hkeep).
    rewrite Hled in Hw, Hc2. rewrite Hw. cbn [mbind option_bind].
    destruct (IH g1) as (r & g' & -> & Hm3 & Hst3 & Hout & Hin); [done|by intros; rewrite Hst2|done| |].
    { intros i Hi. rewrite Hc2, bool_decide_false; [apply (Hnone i); by right|]. intros ->. done. }
    exists r, g'. split_and!; [done|done|by intros; rewrite Hst3, Hst2; simpl| |].
    + intros i Hi. csimpl in Hi. apply not_elem_of_cons in Hi as [Hne Hi].
      rewrite Hout by done. by rewrite Hc2, bool_decide_false.
    + intros Hr i q Hiq. simpl. apply elem_of_cons in Hiq as [[= -> ->]|Hiq].
      * fold w. rewrite Ez, Hout by done. by rewrite Hc2, bool_decide_true.
      * specialize (Hin Hr i q Hiq). simpl in Hin. by rewrite !Hst2, !Hkeep in Hin.
Qed.

(** What a bucket's usage is, read off a ledger. *)
Definition ledger_usage (cost : CostModel) (fee : bool) (l : UsageLedger) : DerivedUsage :=
  mkDerived (derive_spend_cents cost ((fun m => (mt_model m, mt_tokens m)) <$> ul_models l) (ul_billable_requests l) fee)
    (ledger_total_tokens l) (ul_requests l).

Lemma hydrated_views w now l : model_views (hydrated_cell w now l) = (fun m => (mt_model m, mt_tokens m)) <$> ul_models l.
Proof. unfold model_views. simpl. rewrite <- list_fmap_compose. done. Qed.

Lemma hydrated_total w now l : cell_total_tokens (hydrated_cell w now l) = ledger_total_tokens l.
Proof.
  unfold cell_total_tokens, ledger_total_tokens. simpl. generalize 0 as acc.
  induction (ul_models l) as [|m ms IH]; intros acc; [done|]. csimpl. apply IH.
Qed.

Lemma derived_hydrated cost id p fee now g l :
  cell id g = Some (hydrated_cell (budget_window p now) now l) -> gov_wf g ->
  derived_bucket_usage cost id p fee now g = Some (Ok (ledger_usage cost fee l), g).
Proof.
  intros Hc Hwf. unfold derived_bucket_usage. rewrite read_cell_total, Hc by done. cbn [mbind option_bind].
  simpl window_start. rewrite Z.eqb_refl. unfold ledger_usage. rewrite hydrated_views, hydrated_total. done.
Qed.
End restart.


Lemma ledger_ok_one a b m t :
  0 <= a <= I64_MAX -> 0 <= b <= I64_MAX -> (forall k, 0 <= tier k t <= I64_MAX) ->
  ledger_ok (mkLedger a b [mkModelTokens m t]).
Proof.
  intros Ha Hb Ht. split; [|apply NoDup_singleton]. intros [| |n k]; [done|done|].
  change (0 <= match mt_tokens <$> (if String.eqb m n then Some (mkModelTokens m t) else None) with Some t => tier k t | None => 0 end <= I64_MAX).
  destruct (String.eqb m n); simpl; [apply Ht|unfold I64_MAX; lia].
Qed.

Lemma ledger_ok_default : ledger_ok UsageLedger_default.
Proof. split; [|constructor]. intros [| |n k]; unfold I64_MAX; simpl; lia. Qed.

Definition saved_store : MapStore :=
  mkMapStore {[("group:team@total?fast"%string, 0) := mkLedger 5 4 [mkModelTokens "gpt-4o" (mkTokens 7 1 0 0)]]} [gov_key] [].

