(* ===== verification/AuditLog.v ===== *)
(** * AuditLog: the admin audit log (admin/audit.rs)

    A bounded ring of hash-chained entries with a durable tail behind it: every mutation is pushed, the
    write-through copies to the store what the store does not hold yet, a restart restores the ring from
    the store.  The store and SHA-256 are parameters.  Sequence numbers are not wrapped: 2^64 mutations
    are out of reach. *)

From stdpp Require Import pretty.
From S2P Require Import Prelude.

#[local] Open Scope Z_scope.

(** ** Entries *)

(** The store's record; an entry of the ring is a record and where it came from. *)
Record AuditRecord := mkRecord {
  seq : Z;
  ts : Z;
  action : string;
  resource : string;
  outcome : string;
  principal : string;
  prev_hash : string;
  hash : string;
}.

#[export] Instance AuditRecord_eq_dec : EqDecision AuditRecord.
Proof. solve_decision. Defined.

Record AuditEntry := mkEntry { to_record : AuditRecord; recorded_here : bool }.

Definition from_record (r : AuditRecord) : AuditEntry := mkEntry r false.

Definition OUTCOME_APPLIED : string := "applied".
Definition OUTCOME_REJECTED : string := "rejected".
Definition MAX_AUDIT_ENTRIES : nat := Z.to_nat 1000.
Definition WRITE_THROUGH_HEADROOM : Z := Z.of_nat MAX_AUDIT_ENTRIES - Z.of_nat MAX_AUDIT_ENTRIES / 4.

Definition bar : string := "|".

(** The text a digest is taken of. *)
Definition canonical (r : AuditRecord) : string :=
  prev_hash r +:+ bar +:+ pretty (seq r) +:+ bar +:+ pretty (ts r) +:+ bar +:+ action r +:+ bar +:+ resource r
  +:+ bar +:+ outcome r +:+ bar +:+ principal r.

Definition set_link (s : Z) (prev : string) (r : AuditRecord) : AuditRecord :=
  mkRecord s (ts r) (action r) (resource r) (outcome r) (principal r) prev (hash r).

Section audit.
Context (sha256_hex : string -> string).

Definition compute_hash (r : AuditRecord) : string := sha256_hex (canonical r).

Definition sealed (r : AuditRecord) : AuditRecord :=
  mkRecord (seq r) (ts r) (action r) (resource r) (outcome r) (principal r) (prev_hash r) (compute_hash r).

(** The tamper check of a chain, oldest first: what breaks, if anything. *)
Inductive ChainBreak := BadDigest (seq : Z) | BadLink (seq : Z).

Fixpoint verify_chain (prev : option string) (l : list AuditRecord) : option ChainBreak :=
  match l with
  | [] => None
  | r :: l =>
      if negb (String.eqb (hash r) (compute_hash r)) then Some (BadDigest (seq r))
      else if match prev with Some p => negb (String.eqb (prev_hash r) p) | None => false end then Some (BadLink (seq r))
      else verify_chain (Some (hash r)) l
  end.

(** ** The log *)

(** [entries] is oldest first; the store handle itself is the caller's. *)
Record AuditLog := mkLog {
  entries : list AuditEntry;
  next_seq : Z;
  sink : bool;
  durable_high : Z;
  durable_unreconciled : bool;
  last_warned_gap_seq : Z;
}.

Definition new_log : AuditLog := mkLog [] 1 false 0 false 0.

Definition set_entries l n g := mkLog l n (sink g) (durable_high g) (durable_unreconciled g) (last_warned_gap_seq g).
Definition set_next n g := set_entries (entries g) n g.
Definition set_sink b g := mkLog (entries g) (next_seq g) b (durable_high g) (durable_unreconciled g) (last_warned_gap_seq g).
Definition set_high h g := mkLog (entries g) (next_seq g) (sink g) h (durable_unreconciled g) (last_warned_gap_seq g).
Definition set_unreconciled b g := mkLog (entries g) (next_seq g) (sink g) (durable_high g) b (last_warned_gap_seq g).
Definition set_warned w g := mkLog (entries g) (next_seq g) (sink g) (durable_high g) (durable_unreconciled g) w.

(** [fetch_max] on the counters. *)
Definition raise_next n g := set_next (Z.max (next_seq g) n) g.
Definition raise_high h g := set_high (Z.max (durable_high g) h) g.

(** A mutation to be recorded, and when. *)
Record Mutation := mkMutation { m_ts : Z; m_action : string; m_resource : string; m_outcome : string; m_principal : string }.

Definition back_hash (l : list AuditEntry) : string := default ""%string ((fun e => hash (to_record e)) <$> last l).

(** [while q.len() >= MAX_AUDIT_ENTRIES { q.pop_front(); }] *)
Definition prune (l : list AuditEntry) : list AuditEntry := drop (length l - (MAX_AUDIT_ENTRIES - 1)) l.

(** The part of [record_by] under the entries lock. *)
Definition push (m : Mutation) (g : AuditLog) : AuditRecord * AuditLog :=
  let r := sealed (mkRecord (next_seq g) (m_ts m) (m_action m) (m_resource m) (m_outcome m) (m_principal m)
                     (back_hash (entries g)) "") in
  (r, set_entries (prune (entries g) ++ [mkEntry r true]) (next_seq g + 1) g).

(** Whether [record_by] writes to the store itself: no flusher runs, or too much is pending. *)
Definition writes_inline (has_runtime : bool) (s : Z) (g : AuditLog) : bool :=
  negb has_runtime || (WRITE_THROUGH_HEADROOM <=? Z.max 0 (s - durable_high g)).

(** The entries from the first one recorded here on, renumbered and chained anew. *)
Fixpoint rechain (s : Z) (prev : string) (l : list AuditEntry) : list AuditEntry :=
  match l with
  | [] => []
  | e :: l =>
      let r := sealed (set_link s prev (to_record e)) in
      mkEntry r (recorded_here e) :: rechain (s + 1) (hash r) l
  end.

Fixpoint seeded (l : list AuditEntry) : list AuditEntry * list AuditEntry :=
  match l with
  | [] => ([], [])
  | e :: l' => if recorded_here e then ([], l) else let '(a, b) := seeded l' in (e :: a, b)
  end.

Definition rebase_nondurable_suffix (durable_max : Z) (anchor_hash : string) (g : AuditLog) : option Z * AuditLog :=
  match seeded (entries g) with
  | (_, []) => (None, g)
  | (kept, (first :: _) as suffix) =>
      let start := Z.max (durable_max + 1) (seq (to_record first)) in
      let prev := if start =? durable_max + 1 then anchor_hash else prev_hash (to_record first) in
      let top := start + Z.of_nat (length suffix) in
      (Some (top - 1), raise_next top (set_entries (kept ++ rechain start prev suffix) (next_seq g) g))
  end.
End audit.

(** ** The store *)

(** [true] is Ok; the tail is oldest first. *)
Class AuditStore (S : Type) := {
  append_audit : AuditRecord -> S -> bool * S;
  list_audit_tail : nat -> S -> option (list AuditRecord) * S;
}.

Section durable.
Context (sha256_hex : string -> string) {S : Type} `{AuditStore S}.

Definition max_seq (l : list AuditRecord) : Z := foldr Z.max 0 (seq <$> l).

(** [tail.iter().max_by_key(|r| r.seq)]: the last of the greatest. *)
Definition anchor (l : list AuditRecord) : option AuditRecord :=
  foldl (fun best r => match best with
                       | Some b => if seq b <=? seq r then Some r else best
                       | None => Some r
                       end) None l.

Inductive RestoreError := ReadFailed | Unverified (b : ChainBreak).

Definition restore_from_store (g : AuditLog) (s : S) : (nat + RestoreError) * AuditLog * S :=
  let '(r, s) := list_audit_tail MAX_AUDIT_ENTRIES s in
  match r with
  | None => (inr ReadFailed, set_unreconciled true g, s)
  | Some records =>
      let g := set_unreconciled false g in
      match records with
      | [] => (inl 0%nat, g, s)
      | _ =>
          let durable_max := max_seq records in
          let g := raise_high durable_max (raise_next (durable_max + 1) g) in
          match verify_chain sha256_hex None records with
          | Some b => (inr (Unverified b), set_unreconciled true g, s)
          | None =>
              (inl (length records),
               set_entries (drop (length records - MAX_AUDIT_ENTRIES) (from_record <$> records)) (next_seq g) g, s)
          end
      end
  end.

(** Boot: the sink is attached, then the ring restored. *)
Definition boot (s : S) : (nat + RestoreError) * AuditLog * S := restore_from_store (set_sink true new_log) s.

(** The first part of [durable_write_through]: an unreconciled ring is moved above the store's tail.
    [None] when the tail cannot be read. *)
Definition reconcile (new_seq : Z) (g : AuditLog) (s : S) : option Z * AuditLog * S :=
  if durable_unreconciled g then
    let '(r, s) := list_audit_tail 1 s in
    match r with
    | None => (None, g, s)
    | Some tail =>
        let durable_max := default 0 (seq <$> anchor tail) in
        let anchor_hash := default ""%string (hash <$> anchor tail) in
        let g := raise_high durable_max g in
        let '(top, g) := rebase_nondurable_suffix sha256_hex durable_max anchor_hash g in
        (Some (default new_seq top), set_unreconciled false (raise_next (durable_max + 1) g), s)
    end
  else (Some new_seq, g, s).

(** The single-writer check: a tail ahead of what this node persisted detaches the sink. *)
Definition single_writer (g : AuditLog) (s : S) : bool * AuditLog * S :=
  let '(r, s) := list_audit_tail 1 s in
  match r with
  | Some tail => if durable_high g <? max_seq tail then (false, set_sink false g, s) else (true, g, s)
  | None => (true, g, s)
  end.

Definition ring_record (q : Z) (g : AuditLog) : option AuditRecord :=
  to_record <$> List.find (fun e => seq (to_record e) =? q) (entries g).

(** One turn of the backfill: whether it goes on. *)
Definition backfill_one (q : Z) (g : AuditLog) (s : S) : bool * AuditLog * S :=
  match ring_record q g with
  | None => (false, set_warned q g, s)
  | Some r =>
      let '(ok, s) := append_audit r s in
      if ok then (true, raise_high q g, s) else (false, g, s)
  end.

Fixpoint backfill (n : nat) (q : Z) (g : AuditLog) (s : S) : AuditLog * S :=
  match n with
  | O => (g, s)
  | Datatypes.S n =>
      let '(go, g, s) := backfill_one q g s in
      if go then backfill n (q + 1) g s else (g, s)
  end.

Definition durable_write_through (new_seq : Z) (g : AuditLog) (s : S) : AuditLog * S :=
  let '(target, g, s) := reconcile new_seq g s in
  match target with
  | None => (g, s)
  | Some new_seq =>
      let '(alone, g, s) := single_writer g s in
      if alone then
        let start := durable_high g + 1 in
        backfill (Z.to_nat (new_seq + 1 - start)) start g s
      else (g, s)
  end.

Definition record_by (has_runtime : bool) (m : Mutation) (g : AuditLog) (s : S) : AuditLog * S :=
  let '(r, g) := push sha256_hex m g in
  if sink g && writes_inline has_runtime (seq r) g then durable_write_through (seq r) g s else (g, s).

Definition flush_durable (g : AuditLog) (s : S) : AuditLog * S :=
  if sink g then
    match last (entries g) with
    | Some e => durable_write_through (seq (to_record e)) g s
    | None => (g, s)
    end
  else (g, s).
End durable.

(** [list_filtered] *)
Definition list_filtered (offset limit : nat) (by_action by_resource : option string) (g : AuditLog) : list AuditEntry :=
  let matches o (f : AuditRecord -> string) e :=
    match o with Some a => String.eqb (f (to_record e)) a | None => true end in
  take limit (drop offset
    (List.filter (matches by_resource resource) (List.filter (matches by_action action) (rev (entries g))))).
