(* ===== verification/AuditSpec.v ===== *)
(** * AuditSpec: what the durable audit log keeps, whatever the store and the other threads do

    The write-through holds one lock of its own and takes the ring's lock only for moments: other threads
    push between its steps, and every call to the store may fail, with or without effect.  The steps are a
    relation; an invariant of what can be reached shows that the log only grows, in order and linked. *)

From S2P Require Import Prelude AuditLog.

#[local] Open Scope Z_scope.

(** ** Durable stores *)

Definition keyed (D : gmap Z AuditRecord) : Prop := forall q r, D !! q = Some r -> seq r = q.

Definition ascending_seqs (l : list AuditRecord) : Prop := StronglySorted (fun a b => seq a < seq b) l.

(** All of the log, in order. *)
Definition records_of (D : gmap Z AuditRecord) (l : list AuditRecord) : Prop :=
  ascending_seqs l /\ forall q r, D !! q = Some r <-> r ∈ l /\ seq r = q.

Definition is_tail (n : nat) (D : gmap Z AuditRecord) (l : list AuditRecord) : Prop :=
  exists older, records_of D (older ++ l) /\ length l = Nat.min n (length (older ++ l)).

(** An append that fails may have been written; one that does not has been. *)
Class DurableAudit (S : Type) `{AuditStore S} := {
  persisted : S -> gmap Z AuditRecord;
  append_view : forall r s, persisted (append_audit r s).2 = persisted s
                            \/ persisted (append_audit r s).2 = <[seq r := r]> (persisted s);
  append_ok : forall r s, (append_audit r s).1 = true -> persisted (append_audit r s).2 !! seq r = Some r;
  tail_view : forall n s, persisted (list_audit_tail n s).2 = persisted s;
  tail_ok : forall n s l, keyed (persisted s) -> (list_audit_tail n s).1 = Some l -> is_tail n (persisted s) l;
}.

(** The log holds exactly the sequence numbers from [lo] to [m]; empty, it is [1] to [0]. *)
Record spans (D : gmap Z AuditRecord) (lo m : Z) : Prop := {
  sp_lo : 1 <= lo <= m + 1;
  sp_empty : lo = m + 1 -> m = 0;
  sp_dom : forall q, is_Some (D !! q) <-> lo <= q <= m;
}.

Section steps.
Context (sha256_hex : string -> string) {S : Type} `{AuditStore S} `{!DurableAudit S}.

Notation compute_hash := (compute_hash sha256_hex).
Notation push := (push sha256_hex).
Notation reconcile := (reconcile sha256_hex).

(** ** Steps *)

(** Where the one write-through that runs is. *)
Inductive Phase :=
  | PIdle
  | PReconcile (new_seq : Z)
  | PCheck (new_seq : Z)
  | PCopy (n : nat) (q : Z).

Record Sys := mkSys { s_log : AuditLog; s_store : S; s_phase : Phase }.

Inductive audit_step : Sys -> Sys -> Prop :=
  | step_push m g s ph : audit_step (mkSys g s ph) (mkSys (push m g).2 s ph)
  | step_start q g s : entries g <> [] -> audit_step (mkSys g s PIdle) (mkSys g s (PReconcile q))
  | step_reconcile q g s target g' s' :
      reconcile q g s = (target, g', s') ->
      audit_step (mkSys g s (PReconcile q)) (mkSys g' s' (match target with Some q => PCheck q | None => PIdle end))
  | step_check q g s (alone : bool) g' s' :
      single_writer g s = (alone, g', s') ->
      audit_step (mkSys g s (PCheck q))
        (mkSys g' s' (if alone then PCopy (Z.to_nat (q + 1 - (durable_high g' + 1))) (durable_high g' + 1) else PIdle))
  | step_copy n q g s (go : bool) g' s' :
      backfill_one q g s = (go, g', s') ->
      audit_step (mkSys g s (PCopy (Datatypes.S n) q)) (mkSys g' s' (if go then PCopy n (q + 1) else PIdle))
  | step_done q g s : audit_step (mkSys g s (PCopy 0 q)) (mkSys g s PIdle).

(** ** Chains *)

Definition valid (r : AuditRecord) : Prop := hash r = compute_hash r.

Fixpoint linked (l : list AuditRecord) : Prop :=
  match l with
  | r1 :: ((r2 :: _) as l') => seq r2 = seq r1 + 1 /\ prev_hash r2 = hash r1 /\ linked l'
  | _ => True
  end.

Definition ring (g : AuditLog) : list AuditRecord := to_record <$> entries g.

Lemma linked_tail r l : linked (r :: l) -> linked l.
Proof. destruct l; [done|]. by intros (_ & _ & ?). Qed.

Lemma linked_drop k l : linked l -> linked (drop k l).
Proof.
  revert l. induction k as [|k IH]; intros l Hl; [done|]. destruct l as [|r l]; [done|]. apply IH. by eapply linked_tail.
Qed.

Lemma linked_snoc l b r :
  linked (l ++ [b]) -> seq r = seq b + 1 -> prev_hash r = hash b -> linked (l ++ [b; r]).
Proof.
  induction l as [|a l IH]; [done|]. intros Hl Hs Hp. destruct l as [|a' l].
  - destruct Hl as (? & ? & _). done.
  - destruct Hl as (? & ? & Hl). by split_and!; [..|apply IH].
Qed.

Lemma linked_nth l : linked l -> forall i r, l !! i = Some r -> forall f, head l = Some f -> seq r = seq f + Z.of_nat i.
Proof.
  induction l as [|a l IH]; intros Hl i r Hi f Hf; [done|]. simplify_eq/=. destruct i as [|i]; simplify_eq/=; [lia|].
  destruct l as [|b l]; [done|]. destruct Hl as (Hs & _ & Hl). rewrite (IH Hl i r Hi b eq_refl), Hs. lia.
Qed.

Lemma linked_seq_inj l r1 r2 : linked l -> r1 ∈ l -> r2 ∈ l -> seq r1 = seq r2 -> r1 = r2.
Proof.
  intros Hl [i Hi]%list_elem_of_lookup [j Hj]%list_elem_of_lookup Hs. destruct l as [|f l]; [done|].
  pose proof (linked_nth _ Hl i r1 Hi f eq_refl). pose proof (linked_nth _ Hl j r2 Hj f eq_refl).
  assert (i = j) as -> by lia. congruence.
Qed.

Lemma linked_head_least l f r : linked l -> head l = Some f -> r ∈ l -> seq f <= seq r.
Proof. intros Hl Hf [i Hi]%list_elem_of_lookup. rewrite (linked_nth _ Hl i r Hi f Hf). lia. Qed.

Lemma linked_last_greatest l b r : linked l -> last l = Some b -> r ∈ l -> seq r <= seq b.
Proof.
  intros Hl Hb [i Hi]%list_elem_of_lookup. destruct l as [|f l]; [done|]. rewrite last_lookup in Hb.
  rewrite (linked_nth _ Hl i r Hi f eq_refl), (linked_nth _ Hl _ b Hb f eq_refl).
  apply lookup_lt_Some in Hi. simpl in *. lia.
Qed.

(** The entry before one that is not the first. *)
Lemma linked_before l r : linked l -> r ∈ l -> head l <> Some r -> exists p, p ∈ l /\ seq r = seq p + 1 /\ prev_hash r = hash p.
Proof.
  induction l as [|a l IH]; intros Hl Hr Hh; [by apply not_elem_of_nil in Hr|].
  apply elem_of_cons in Hr as [->|Hr]; [done|]. destruct l as [|b l]; [by apply not_elem_of_nil in Hr|].
  destruct (decide (r = b)) as [->|Hne].
  - destruct Hl as (? & ? & _). exists a. split; [by apply list_elem_of_here|done].
  - destruct (IH (linked_tail _ _ Hl) Hr) as (p & Hp & ? & ?); [simpl; congruence|]. exists p. split; [by apply list_elem_of_further|done].
Qed.

(** ** The invariant *)

Context (D0 : gmap Z AuditRecord) (lo m0 : Z).

(** Of what was not there at boot: every record verifies and links to the one before it. *)
Definition continues (D : gmap Z AuditRecord) : Prop :=
  forall q r, D !! q = Some r -> D0 !! q = None ->
    valid r /\ seq r = q /\ forall p, D !! (q - 1) = Some p -> prev_hash r = hash p.

(** The ring, wherever it stands. *)
Record ring_ok (g : AuditLog) : Prop := {
  ro_linked : linked (ring g);
  ro_valid : Forall valid (ring g);
  ro_pos : Forall (fun r => 1 <= seq r) (ring g);
  ro_next : match last (ring g) with Some b => next_seq g = seq b + 1 | None => 1 <= next_seq g end;
}.

(** Not reconciled with the store's tail: nothing is written. *)
Record sealed_ok (g : AuditLog) (D : gmap Z AuditRecord) (ph : Phase) : Prop := {
  se_same : D = D0;
  se_here : Forall (fun e => recorded_here e = true) (entries g);
  se_high : 0 <= durable_high g <= m0;
  se_phase : ph = PIdle \/ exists q, ph = PReconcile q;
}.

(** Reconciled: the log reaches to [m], one past the watermark when an append failed and was written. *)
Record open_ok (g : AuditLog) (D : gmap Z AuditRecord) (ph : Phase) (m : Z) : Prop := {
  op_spans : spans D lo m;
  op_grown : m0 <= m /\ D0 ⊆ D;
  op_continues : continues D;
  op_high : 0 <= durable_high g /\ durable_high g <= m <= durable_high g + 1;
  op_agrees : forall r, r ∈ ring g -> seq r <= m -> D !! seq r = Some r;
  op_junction : forall f p, head (ring g) = Some f -> seq f = m + 1 -> D !! m = Some p -> prev_hash f = hash p;
  op_reach : match last (ring g) with Some b => m <= seq b | None => m = 0 /\ next_seq g = 1 end;
  op_phase : forall n q, ph = PCopy n q -> q = durable_high g + 1;
}.

Record inv (y : Sys) : Prop := {
  in_ring : ring_ok (s_log y);
  in_ready : s_phase y <> PIdle -> entries (s_log y) <> [];
  in_state : if durable_unreconciled (s_log y) then sealed_ok (s_log y) (persisted (s_store y)) (s_phase y)
             else exists m, open_ok (s_log y) (persisted (s_store y)) (s_phase y) m;
}.

(** ** Pushing *)

Lemma ring_push m g :
  ring (push m g).2 = drop (length (ring g) - (MAX_AUDIT_ENTRIES - 1)) (ring g) ++ [(push m g).1].
Proof. unfold ring, push, prune. cbn [snd fst entries set_entries]. by rewrite fmap_app, fmap_drop, length_fmap. Qed.

Lemma kept_last (l : list AuditRecord) :
  last (drop (length l - (MAX_AUDIT_ENTRIES - 1)) l) = last l.
Proof.
  destruct l as [|b l _] using rev_ind; [by rewrite drop_nil|].
  rewrite drop_app_le; [by rewrite !last_snoc|]. rewrite length_app. unfold MAX_AUDIT_ENTRIES. simpl. lia.
Qed.

Lemma back_hash_ring g : back_hash (entries g) = default ""%string (hash <$> last (ring g)).
Proof. unfold back_hash, ring. rewrite fmap_last. by destruct (last (entries g)). Qed.

Lemma push_record m g :
  seq (push m g).1 = next_seq g /\ valid (push m g).1
  /\ prev_hash (push m g).1 = default ""%string (hash <$> last (ring g)).
Proof. unfold push. cbn [fst]. by rewrite back_hash_ring. Qed.

Lemma push_ring_ok m g : ring_ok g -> ring_ok (push m g).2.
Proof.
  intros [Hl Hv Hp Hn]. destruct (push_record m g) as (Ps & Pv & Pp).
  pose proof (kept_last (ring g)) as Hk. set (k := (length (ring g) - (MAX_AUDIT_ENTRIES - 1))%nat) in *.
  assert (Hpos : 1 <= next_seq g).
  { destruct (last (ring g)) as [b|] eqn:Eb; [|exact Hn]. rewrite Hn. apply last_Some in Eb as [l' Eb].
    rewrite Eb in Hp. apply Forall_app in Hp as [_ Hb]. apply Forall_cons in Hb as [Hb _]. lia. }
  split; rewrite ?ring_push; fold k.
  - pose proof (linked_drop k _ Hl) as Hd. destruct (last (drop k (ring g))) as [b|] eqn:Eb.
    + rewrite <- Hk in Hn, Pp. apply last_Some in Eb as Hb. destruct Hb as [l' Hb]. rewrite Hb in Hd |- *.
      rewrite <- (assoc_L (++)). cbn [app]. apply linked_snoc; [exact Hd|by rewrite Ps, Hn|]. rewrite Pp, Hk in *. by rewrite <- Hk.
    + apply last_None in Eb. by rewrite Eb.
  - apply Forall_app. split; [by apply Forall_drop|]. by constructor.
  - apply Forall_app. split; [by apply Forall_drop|]. apply Forall_singleton. by rewrite Ps.
  - rewrite last_snoc. by rewrite Ps.
Qed.

Lemma push_reach m g b : last (ring g) = Some b -> ring_ok g -> seq (push m g).1 = seq b + 1.
Proof. intros Hb [_ _ _ Hn]. destruct (push_record m g) as (-> & _). by rewrite Hb in Hn. Qed.

Lemma push_open m g D ph q :
  ring_ok g -> open_ok g D ph q -> open_ok (push m g).2 D ph q.
Proof.
  intros Hro [Hsp Hgr Hc Hh Ha Hj Hr Hph]. destruct (push_record m g) as (Ps & _ & _).
  pose proof (kept_last (ring g)) as Hk. split; try done.
  - intros r. rewrite ring_push, elem_of_app, list_elem_of_singleton. intros [Hin | ->] Hle.
    + apply Ha; [|done]. by apply subseteq_drop in Hin.
    + exfalso. rewrite Ps in Hle. pose proof (ro_next _ Hro) as Hn.
      destruct (last (ring g)) as [b|]; [lia|]. destruct Hr. lia.
  - intros f p. rewrite ring_push. intros Hf Hs Hp. set (k := (length (ring g) - (MAX_AUDIT_ENTRIES - 1))%nat) in *.
    destruct (drop k (ring g)) as [|f' l'] eqn:Ed.
    + exfalso. rewrite <- Hk in Hr. simpl in Hr. destruct Hr as [-> _].
      destruct (sp_dom _ _ _ Hsp 0) as [H0 _]. pose proof (sp_lo _ _ _ Hsp). specialize (H0 ltac:(by eexists)). lia.
    + simpl in Hf. injection Hf as <-. assert (Hin : f' ∈ ring g) by (apply (subseteq_drop k); rewrite Ed; by apply list_elem_of_here).
      destruct (decide (head (ring g) = Some f')) as [Hh'|Hh']; [by apply (Hj f' p)|].
      destruct (linked_before _ _ (ro_linked _ Hro) Hin Hh') as (b & Hb & Hsb & Hpb).
      assert (Hbm : seq b = q) by lia. rewrite <- Hbm in Hp. rewrite (Ha b Hb) in Hp by lia. by simplify_eq.
  - rewrite ring_push, last_snoc, Ps. pose proof (ro_next _ Hro) as Hn. destruct (last (ring g)) as [b|]; [lia|]. destruct Hr. lia.
Qed.

Lemma push_inv m g s ph : inv (mkSys g s ph) -> inv (mkSys (push m g).2 s ph).
Proof.
  intros [Hro Hre Hst]. cbn [s_log s_store s_phase] in *. split; cbn [s_log s_store s_phase].
  - by apply push_ring_ok.
  - intros _. unfold push. simpl. by destruct (prune (entries g)).
  - change (durable_unreconciled (push m g).2) with (durable_unreconciled g). destruct (durable_unreconciled g).
    + destruct Hst as [H1 H2 H3 H4]. split; try done. unfold push. cbn [snd entries set_entries].
      apply Forall_app. split; [by apply Forall_drop|]. by constructor.
    + destruct Hst as [q Hq]. exists q. by apply push_open.
Qed.

(** ** Reading the tail *)

Lemma sorted_lookup l i j a b : ascending_seqs l -> l !! i = Some a -> l !! j = Some b -> (i < j)%nat -> seq a < seq b.
Proof.
  intros Hl. revert i j. induction Hl as [|c l Hl IH Hc]; intros i j Hi Hj Hlt; [done|]. rewrite Forall_forall in Hc.
  destruct j as [|j]; [lia|]. destruct i as [|i]; simplify_eq/=; [|apply (IH i j); [done..|lia]].
  apply Hc. by eapply list_elem_of_lookup_2.
Qed.

Lemma sorted_rank l i j a b : ascending_seqs l -> l !! i = Some a -> l !! j = Some b -> seq a < seq b -> (i < j)%nat.
Proof.
  intros Hl Hi Hj Hlt. destruct (decide (i < j)%nat); [done|]. destruct (decide (i = j)) as [->|]; [simplify_eq; lia|].
  pose proof (sorted_lookup l j i b a Hl Hj Hi ltac:(lia)). lia.
Qed.

Section tails.
Context (D : gmap Z AuditRecord) (l1 m : Z) (Hsp : spans D l1 m).

Lemma records_consecutive l i a b : records_of D l -> l !! i = Some a -> l !! Datatypes.S i = Some b -> seq b = seq a + 1.
Proof.
  intros [Hs Hr] Ha Hb. pose proof (sorted_lookup l _ _ _ _ Hs Ha Hb ltac:(lia)).
  assert (HDa : D !! seq a = Some a) by (apply Hr; split; [by eapply list_elem_of_lookup_2|done]).
  assert (HDb : D !! seq b = Some b) by (apply Hr; split; [by eapply list_elem_of_lookup_2|done]).
  destruct (sp_dom _ _ _ Hsp (seq a)) as [Ra _]. destruct (sp_dom _ _ _ Hsp (seq b)) as [Rb _].
  specialize (Ra ltac:(by eexists)). specialize (Rb ltac:(by eexists)).
  destruct (sp_dom _ _ _ Hsp (seq a + 1)) as [_ [c Hc]]; [lia|]. apply Hr in Hc as [Hc Hsc].
  apply list_elem_of_lookup in Hc as [j Hj]. pose proof (sorted_rank _ _ _ _ _ Hs Ha Hj ltac:(lia)).
  destruct (decide (j = Datatypes.S i)) as [->|]; [simplify_eq; lia|].
  pose proof (sorted_lookup _ _ _ _ _ Hs Hb Hj ltac:(lia)). lia.
Qed.

Lemma records_last l b : records_of D l -> last l = Some b -> seq b = m.
Proof.
  intros [Hs Hr] Hb. rewrite last_lookup in Hb.
  assert (HDb : D !! seq b = Some b) by (apply Hr; split; [by eapply list_elem_of_lookup_2|done]).
  destruct (sp_dom _ _ _ Hsp (seq b)) as [Rb _]. specialize (Rb ltac:(by eexists)).
  destruct (sp_dom _ _ _ Hsp m) as [_ [c Hc]]; [lia|]. apply Hr in Hc as [Hc Hsc].
  apply list_elem_of_lookup in Hc as [j Hj]. apply lookup_lt_Some in Hj as Hlt.
  destruct (decide (j = pred (length l))) as [->|]; [simplify_eq; done|].
  pose proof (sorted_lookup _ _ _ _ _ Hs Hj Hb ltac:(lia)). lia.
Qed.

(** A tail of at least one record holds the newest, and stands for its entries of the log. *)
Lemma tail_facts n l : (0 < n)%nat -> is_tail n D l ->
  (forall r, r ∈ l -> D !! seq r = Some r)
  /\ (forall i a b, l !! i = Some a -> l !! Datatypes.S i = Some b -> seq b = seq a + 1)
  /\ match last l with Some b => seq b = m | None => m = 0 end.
Proof.
  intros Hn (older & Hr & Hlen). split_and!.
  - intros r Hin. apply Hr. split; [apply elem_of_app; by right|done].
  - intros i a b Ha Hb. apply (records_consecutive (older ++ l) (length older + i) a b Hr).
    + rewrite lookup_app_r by lia. by replace (length older + i - length older)%nat with i by lia.
    + rewrite lookup_app_r by lia. by replace (Datatypes.S (length older + i) - length older)%nat with (Datatypes.S i) by lia.
  - destruct (last l) as [b|] eqn:Eb.
    + apply (records_last (older ++ l) b Hr). by rewrite last_app, Eb.
    + apply last_None in Eb as ->. rewrite app_nil_r in *. simpl in Hlen.
      assert (older = []) as -> by (destruct older; [done|simpl in Hlen; lia]).
      pose proof (sp_lo _ _ _ Hsp). destruct (decide (l1 = m + 1)) as [He|Hne]; [by apply (sp_empty _ _ _ Hsp)|].
      destruct (sp_dom _ _ _ Hsp m) as [_ [c Hc]]; [lia|]. apply Hr in Hc as [Hc _]. by apply not_elem_of_nil in Hc.
Qed.

Lemma tail_one l : is_tail 1 D l -> default 0 (seq <$> anchor l) = m /\ (forall p, D !! m = Some p -> anchor l = Some p).
Proof.
  intros Ht. destruct (tail_facts 1 l ltac:(lia) Ht) as (Hin & _ & Hl). destruct Ht as (older & _ & Hlen).
  destruct l as [|r [|r' l]]; [| |exfalso; cbn [length] in Hlen; rewrite length_app in Hlen; lia].
  - simpl in Hl. subst m. split; [done|]. intros p Hp. exfalso.
    destruct (sp_dom _ _ _ Hsp 0) as [H0 _]. pose proof (sp_lo _ _ _ Hsp). specialize (H0 ltac:(by eexists)). lia.
  - simpl in *. split; [done|]. intros p Hp. rewrite <- Hl, (Hin r) in Hp by (by apply list_elem_of_here). by simplify_eq.
Qed.
End tails.

Lemma max_seq_bounds l b : (forall r, r ∈ l -> seq r <= seq b) -> b ∈ l -> 0 <= seq b -> max_seq l = seq b.
Proof.
  intros Hle Hin Hp. assert (Hc : forall a k, max_seq (a :: k) = Z.max (seq a) (max_seq k)) by done.
  assert (Hup : forall k, (forall r, r ∈ k -> seq r <= seq b) -> max_seq k <= seq b).
  { intros k. induction k as [|a k IH]; intros Hk; [done|]. rewrite Hc.
    pose proof (Hk a ltac:(by apply list_elem_of_here)). pose proof (IH ltac:(intros; apply Hk; by apply list_elem_of_further)). lia. }
  assert (Hdn : forall k, b ∈ k -> seq b <= max_seq k).
  { intros k. induction k as [|a k IH]; intros Hk; [by apply not_elem_of_nil in Hk|]. rewrite Hc.
    apply elem_of_cons in Hk as [<-|Hk]; [lia|]. pose proof (IH Hk). lia. }
  pose proof (Hup l Hle). pose proof (Hdn l Hin). lia.
Qed.

Lemma max_seq_last l b : linked l -> last l = Some b -> 0 <= seq b -> max_seq l = seq b.
Proof.
  intros Hl Hb Hp. apply max_seq_bounds; [intros r; by apply linked_last_greatest| |done].
  apply last_Some in Hb as [l' ->]. set_solver.
Qed.

Lemma verified_linked prev l :
  verify_chain sha256_hex prev l = None ->
  (forall i a b, l !! i = Some a -> l !! Datatypes.S i = Some b -> seq b = seq a + 1) ->
  linked l /\ Forall valid l /\ match prev, l with Some p, r :: _ => prev_hash r = p | _, _ => True end.
Proof.
  revert prev. induction l as [|r l IH]; intros prev Hv Hs; [by destruct prev|]. simpl in Hv.
  destruct (String.eqb_spec (hash r) (compute_hash r)) as [Hd|]; [|done]. simpl in Hv.
  assert (Hp : match prev with Some p => prev_hash r = p | None => True end).
  { destruct prev as [p|]; [|done]. by destruct (String.eqb_spec (prev_hash r) p). }
  assert (Hv' : verify_chain sha256_hex (Some (hash r)) l = None).
  { destruct prev as [p|]; [|done]. by destruct (String.eqb_spec (prev_hash r) p). }
  destruct (IH _ Hv') as (Hl & Hval & Hh); [intros i a b Ha Hb; by apply (Hs (Datatypes.S i))|].
  split_and!; [|by constructor|done]. destruct l as [|r' l]; [done|]. split_and!; [by apply (Hs 0%nat)|done|done].
Qed.

(** ** Renumbering *)

Lemma rechain_facts s prev l :
  let l' := to_record <$> rechain sha256_hex s prev l in
  linked l' /\ Forall valid l' /\ Forall (fun r => s <= seq r) l'
  /\ (forall f, head l' = Some f -> seq f = s /\ prev_hash f = prev)
  /\ match last l' with Some b => seq b = s + Z.of_nat (length l) - 1 | None => l = [] end.
Proof.
  revert s prev. induction l as [|e l IH]; intros s prev; [done|]. cbn [rechain]. cbv zeta. rewrite fmap_cons.
  set (r := sealed sha256_hex (set_link s prev (to_record e))). destruct (IH (s + 1) (hash r)) as (Hl & Hv & Hs & Hh & Hb).
  set (l' := to_record <$> rechain sha256_hex (s + 1) (hash r) l) in *. cbn [to_record]. split_and!.
  - destruct l' as [|r' l'']; [done|]. destruct (Hh r' eq_refl) as [? ?]. by split_and!.
  - by constructor.
  - constructor; [done|]. eapply Forall_impl; [exact Hs|]. simpl. intros. lia.
  - intros f [= <-]. done.
  - rewrite last_cons. destruct (last l') as [b|]; [rewrite Hb; cbn [length]; lia|]. rewrite Hb. simpl. lia.
Qed.

Lemma seeded_here l : Forall (fun e => recorded_here e = true) l -> seeded l = ([], l).
Proof. destruct l as [|e l]; [done|]. intros [He _]%Forall_cons. simpl. by rewrite He. Qed.

(** ** Every step *)

Context (Hspan0 : spans D0 lo m0) (Hkey0 : keyed D0).

Lemma last_head {A} (l : list A) : l <> [] -> exists f b, head l = Some f /\ last l = Some b.
Proof.
  destruct l as [|a l]; [done|]. intros _. destruct (last_is_Some (a :: l)) as [_ [b Hb]]; [done|]. by exists a, b.
Qed.

Lemma ring_span g f b :
  ring_ok g -> head (ring g) = Some f -> last (ring g) = Some b -> next_seq g = seq f + Z.of_nat (length (entries g)).
Proof.
  intros [Hl _ _ Hn] Hf Hb. rewrite Hb in Hn. rewrite last_lookup in Hb.
  pose proof (linked_nth _ Hl _ b Hb f Hf) as Hs. apply lookup_lt_Some in Hb. unfold ring in *. rewrite length_fmap in *. lia.
Qed.

(** A ring all of whose entries are past the tail, and whose first links to it when it is the next. *)
Lemma opened g D target start prev b :
  linked (ring g) -> Forall valid (ring g) -> Forall (fun r => start <= seq r) (ring g) ->
  (forall f, head (ring g) = Some f -> seq f = start /\ prev_hash f = prev) ->
  last (ring g) = Some b -> next_seq g = seq b + 1 -> m0 + 1 <= start -> durable_high g = m0 -> D = D0 ->
  (start = m0 + 1 -> forall p, D0 !! m0 = Some p -> prev = hash p) ->
  ring_ok g /\ open_ok g D (PCheck target) m0.
Proof.
  intros Hl Hv Hs Hh Hb Hn Hst Hd -> Hj. pose proof (sp_lo _ _ _ Hspan0). rewrite Forall_forall in Hs.
  assert (Hin : b ∈ ring g) by (apply last_Some in Hb as [l' ->]; set_solver). pose proof (Hs b Hin). split; split; try done.
  - apply Forall_forall. intros r Hr. pose proof (Hs r Hr). lia.
  - by rewrite Hb.
  - intros q r Hr Hno. congruence.
  - lia.
  - intros r Hr Hle. pose proof (Hs r Hr). lia.
  - intros f p Hf Hsf Hp. destruct (Hh f Hf) as [Hsf' ->]. apply Hj; [lia|done].
  - rewrite Hb. lia.
Qed.

Lemma reconcile_open q g s target g' s' :
  ring_ok g -> entries g <> [] -> durable_unreconciled g = true -> sealed_ok g (persisted s) (PReconcile q) ->
  reconcile q g s = (Some target, g', s') ->
  entries g' <> [] /\ durable_unreconciled g' = false /\ ring_ok g' /\ open_ok g' (persisted s') (PCheck target) m0.
Proof.
  intros Hro Hne Hu [HD Hhere Hhigh _]. unfold reconcile. rewrite Hu.
  pose proof (tail_view 1 s) as Hview. pose proof (fun l => tail_ok 1 s l) as Htail. rewrite HD in *.
  destruct (list_audit_tail 1 s) as [[tail|] s1]; [|done]. cbn [fst snd] in *.
  destruct (tail_one _ _ _ Hspan0 tail (Htail tail Hkey0 eq_refl)) as [Hmax Hanchor]. rewrite Hmax.
  unfold rebase_nondurable_suffix. cbn [entries raise_high set_high].
  rewrite (seeded_here _ Hhere). destruct (entries g) as [|e l] eqn:Ee; [done|].
  assert (Hf : head (ring g) = Some (to_record e)) by (unfold ring; by rewrite Ee).
  destruct (last_head (ring g)) as (f' & b & Hf' & Hb); [unfold ring; by rewrite Ee|].
  pose proof (ring_span _ _ _ Hro Hf Hb) as Hnext. rewrite Ee in Hnext.
  set (start := Z.max (m0 + 1) (seq (to_record e))) in *.
  set (prev := if start =? m0 + 1 then default ""%string (hash <$> anchor tail) else prev_hash (to_record e)).
  destruct (rechain_facts start prev (e :: l)) as (Hl & Hv & Hs & Hh & Hlast).
  destruct (last (to_record <$> rechain sha256_hex start prev (e :: l))) as [b'|] eqn:Hb'; [|done].
  generalize dependent (rechain sha256_hex start prev (e :: l)). intros l' Hl Hv Hs Hh Hb'. intros [= <- <- <-].
  split; [by destruct l'|]. split; [done|]. eapply (opened _ _ _ start prev b'); try done.
  - cbn [next_seq set_unreconciled raise_next set_next set_entries entries] in *. simpl length in *. lia.
  - lia.
  - simpl. lia.
  - intros Hst p Hp. unfold prev. rewrite (proj2 (Z.eqb_eq _ _) Hst). by rewrite (Hanchor p Hp).
Qed.

Lemma reconcile_inv q g s target g' s' :
  inv (mkSys g s (PReconcile q)) -> reconcile q g s = (target, g', s') ->
  inv (mkSys g' s' (match target with Some q => PCheck q | None => PIdle end)).
Proof.
  intros [Hro Hre Hst] Hrun. cbn [s_log s_store s_phase] in *. specialize (Hre ltac:(done)).
  destruct (durable_unreconciled g) eqn:Hu.
  - destruct target as [t|].
    + destruct (reconcile_open _ _ _ _ _ _ Hro Hre Hu Hst Hrun) as (? & Hu' & ? & ?). split; cbn [s_log s_store s_phase]; [done..|].
      rewrite Hu'. by exists m0.
    + unfold AuditLog.reconcile in Hrun. rewrite Hu in Hrun. pose proof (tail_view 1 s) as Hview.
      destruct (list_audit_tail 1 s) as [[tail|] s1]; [by destruct (rebase_nondurable_suffix _ _ _ _)|].
      injection Hrun as <- <-. simpl in Hview. split; cbn [s_log s_store s_phase]; [done..|]. rewrite Hu, Hview.
      destruct Hst. split; try done. by left.
  - unfold AuditLog.reconcile in Hrun. rewrite Hu in Hrun. injection Hrun as <- <- <-. split; cbn [s_log s_store s_phase]; [done..|].
    rewrite Hu. destruct Hst as [m []]. exists m. by split.
Qed.

Lemma check_inv q g s (alone : bool) g' s' :
  inv (mkSys g s (PCheck q)) -> single_writer g s = (alone, g', s') ->
  inv (mkSys g' s' (if alone then PCopy (Z.to_nat (q + 1 - (durable_high g' + 1))) (durable_high g' + 1) else PIdle)).
Proof.
  intros [Hro Hre Hst] Hrun. cbn [s_log s_store s_phase] in *. specialize (Hre ltac:(done)).
  destruct (durable_unreconciled g) eqn:Hu; [by destruct Hst as [_ _ _ [?|[? ?]]]|]. destruct Hst as [m Hm].
  pose proof (tail_view 1 s) as Hview. unfold single_writer in Hrun. destruct (list_audit_tail 1 s) as [r s1]. simpl in Hview.
  assert (Hg : s' = s1 /\ (g' = g \/ g' = AuditLog.set_sink false g)).
  { destruct r as [tail|]; [destruct (durable_high g <? max_seq tail)|]; injection Hrun as <- <- <-; auto. }
  clear Hrun. destruct Hg as [-> Hg]. rewrite <- Hview in Hm.
  assert (Hopen : open_ok g (persisted s1)
    (if alone then PCopy (Z.to_nat (q + 1 - (durable_high g + 1))) (durable_high g + 1) else PIdle) m).
  { destruct Hm. split; try done. intros n q'. destruct alone; [|done]. by intros [= _ <-]. }
  destruct Hg as [-> | ->]; split; cbn [s_log s_store s_phase]; try done.
  - rewrite Hu. by exists m.
  - destruct Hro. by split.
  - change (durable_unreconciled (AuditLog.set_sink false g)) with (durable_unreconciled g). rewrite Hu. exists m.
    destruct Hopen. by split.
Qed.

Lemma ring_record_some q g r : ring_record q g = Some r -> r ∈ ring g /\ seq r = q.
Proof.
  unfold ring_record. destruct (List.find _ _) as [e|] eqn:Ef; [|done]. intros [= <-].
  apply List.find_some in Ef as [Hin Hq]. apply Z.eqb_eq in Hq. split; [|done].
  unfold ring. apply list_elem_of_fmap. exists e. by rewrite list_elem_of_In.
Qed.

(** The next record of the ring, written: the log spans one more. *)
Lemma extend g D ph r m :
  ring_ok g -> open_ok g D ph m -> r ∈ ring g -> seq r = m + 1 ->
  (0 <= durable_high g /\ durable_high g <= m + 1 <= durable_high g + 1) ->
  (forall n q, ph = PCopy n q -> q = durable_high g + 1) ->
  open_ok g (<[m + 1 := r]> D) ph (m + 1).
Proof.
  intros Hro [Hsp Hgr Hc Hh Ha Hj Hr Hph] Hin Hs Hh' Hph'.
  assert (Hnone : D !! (m + 1) = None).
  { apply eq_None_not_Some. intros Hsome%(sp_dom _ _ _ Hsp). lia. }
  assert (Hnone' : D0 !! (m + 1) = None) by (eapply lookup_weaken_None; [exact Hnone|apply Hgr]).
  pose proof (sp_lo _ _ _ Hsp) as Hlo. split; try done.
  - split; [lia|lia|]. intros q. destruct (decide (q = m + 1)) as [->|Hq].
    + rewrite lookup_insert_eq. split; [lia|by eexists].
    + rewrite lookup_insert_ne, (sp_dom _ _ _ Hsp) by done. destruct (decide (lo = m + 1)); [|lia].
      pose proof (sp_empty _ _ _ Hsp ltac:(done)). lia.
  - split; [lia|]. transitivity D; [apply Hgr|]. by apply insert_subseteq.
  - intros q r' Hq Hno. destruct (decide (q = m + 1)) as [->|Hne].
    + rewrite lookup_insert_eq in Hq. injection Hq as <-. split; [|split; [done|]].
      * pose proof (ro_valid _ Hro) as Hv. rewrite Forall_forall in Hv. by apply Hv.
      * intros p. rewrite lookup_insert_ne by lia. replace (m + 1 - 1) with m by lia. intros Hp.
        destruct (decide (head (ring g) = Some r)) as [Hhd|Hhd]; [by apply (Hj r p)|].
        destruct (linked_before _ _ (ro_linked _ Hro) Hin Hhd) as (b & Hb & Hsb & Hpb).
        assert (Hbm : seq b = m) by lia. rewrite <- Hbm, (Ha b Hb) in Hp by lia. by simplify_eq.
    + rewrite lookup_insert_ne in Hq by done. destruct (Hc q r' Hq Hno) as (? & ? & Hl). split_and!; [done..|].
      intros p. destruct (decide (q - 1 = m + 1)) as [He|He]; [|rewrite lookup_insert_ne by done; apply Hl].
      exfalso. pose proof (proj1 (sp_dom _ _ _ Hsp q) ltac:(by eexists)). lia.
  - intros r' Hr' Hle. destruct (decide (seq r' = m + 1)) as [He|He].
    + rewrite He, lookup_insert_eq. f_equal. apply (linked_seq_inj (ring g)); [apply Hro|done|done|lia].
    + rewrite lookup_insert_ne by done. apply Ha; [done|lia].
  - intros f p Hf Hsf. pose proof (linked_head_least _ _ _ (ro_linked _ Hro) Hf Hin). lia.
  - destruct (last (ring g)) as [b|] eqn:Eb.
    + pose proof (linked_last_greatest _ _ _ (ro_linked _ Hro) Eb Hin). lia.
    + apply last_None in Eb. rewrite Eb in Hin. by apply not_elem_of_nil in Hin.
Qed.

Lemma open_phase g D ph ph' m :
  open_ok g D ph m -> (forall n q, ph' = PCopy n q -> q = durable_high g + 1) -> open_ok g D ph' m.
Proof. intros [] ?. by split. Qed.

(** The watermark follows the log. *)
Lemma open_high g D ph m n : open_ok g D ph m -> open_ok (raise_high m g) D (PCopy n (m + 1)) m.
Proof.
  intros [Hsp Hgr Hc Hh Ha Hj Hr Hph]. split; try done; cbn [durable_high raise_high set_high]; [lia|]. intros ? ? [= _ <-]. lia.
Qed.

Lemma copied q g D D' ph m r (ok : bool) :
  ring_ok g -> open_ok g D ph m -> q = durable_high g + 1 -> r ∈ ring g -> seq r = q ->
  D' = D \/ D' = <[q := r]> D -> (ok = true -> D' !! q = Some r) ->
  exists m', open_ok g D' PIdle m' /\ (ok = true -> m' = q).
Proof.
  intros Hro Hop Hq Hin Hs HD Hok. pose proof (op_high _ _ _ _ Hop) as Hh. pose proof (op_spans _ _ _ _ Hop) as Hsp.
  assert (Hidle : open_ok g D PIdle m) by (by eapply open_phase).
  destruct (decide (m = q)) as [->|Hne].
  - exists q. split; [|done]. pose proof (op_agrees _ _ _ _ Hop r Hin ltac:(lia)) as Hsame. rewrite Hs in Hsame.
    destruct HD as [-> | ->]; [done|]. by rewrite insert_id.
  - assert (m = durable_high g) by lia. destruct HD as [-> | ->].
    + exists m. split; [done|]. intros Ho. specialize (Hok Ho).
      pose proof (proj1 (sp_dom _ _ _ Hsp q) ltac:(by eexists)). lia.
    + exists q. split; [|done]. replace q with (m + 1) by lia. apply extend; try done; lia.
Qed.

Lemma copy_inv n q g s (go : bool) g' s' :
  inv (mkSys g s (PCopy (Datatypes.S n) q)) -> backfill_one q g s = (go, g', s') ->
  inv (mkSys g' s' (if go then PCopy n (q + 1) else PIdle)).
Proof.
  intros [Hro Hre Hst] Hrun. cbn [s_log s_store s_phase] in *. specialize (Hre ltac:(done)).
  destruct (durable_unreconciled g) eqn:Hu; [by destruct Hst as [_ _ _ [?|[? ?]]]|]. destruct Hst as [m Hm].
  pose proof (op_phase _ _ _ _ Hm _ _ eq_refl) as Hq.
  unfold backfill_one in Hrun. destruct (ring_record q g) as [r|] eqn:Er.
  - apply ring_record_some in Er as [Hin Hs]. pose proof (append_view r s) as Hv. pose proof (append_ok r s) as Ho.
    destruct (append_audit r s) as [ok s1]. rewrite Hs in Hv, Ho. cbn [fst snd] in *.
    destruct (copied q g _ _ _ m r ok Hro Hm Hq Hin Hs Hv Ho) as (m' & Hm' & Hmq).
    destruct ok; injection Hrun as <- <- <-; split; cbn [s_log s_store s_phase]; try done.
    + destruct Hro. by split.
    + change (durable_unreconciled (raise_high q g)) with (durable_unreconciled g). rewrite Hu.
      exists m'. rewrite <- (Hmq eq_refl). by eapply open_high.
    + rewrite Hu. by exists m'.
  - injection Hrun as <- <- <-. split; cbn [s_log s_store s_phase]; [by destruct Hro|done|].
    change (durable_unreconciled (set_warned q g)) with (durable_unreconciled g). rewrite Hu. exists m. destruct Hm. by split.
Qed.

Lemma step_inv y y' : audit_step y y' -> inv y -> inv y'.
Proof.
  intros [m g s ph|q g s Hne|q g s target g' s' Hr|q g s alone g' s' Hr|n q g s go g' s' Hr|q g s] Hi.
  - by apply push_inv.
  - destruct Hi as [Hro Hre Hst]. split; cbn [s_log s_store s_phase] in *; [done..|].
    destruct (durable_unreconciled g); [destruct Hst; split; [done..|by right; exists q]|].
    destruct Hst as [m Hm]. exists m. by eapply open_phase.
  - by eapply reconcile_inv.
  - by eapply check_inv.
  - by eapply copy_inv.
  - destruct Hi as [Hro Hre Hst]. split; cbn [s_log s_store s_phase] in *; [done..|].
    destruct (durable_unreconciled g); [destruct Hst as [_ _ _ [?|[? ?]]]; done|].
    destruct Hst as [m Hm]. exists m. by eapply open_phase.
Qed.

(** Nothing written is ever written over. *)
Lemma step_grows y y' : audit_step y y' -> inv y -> persisted (s_store y) ⊆ persisted (s_store y').
Proof.
  intros Hstep Hi. destruct Hstep as [m g s ph|q g s Hne|q g s target g' s' Hr|q g s alone g' s' Hr|n q g s go g' s' Hr|q g s];
    cbn [s_store]; try done.
  - unfold AuditLog.reconcile in Hr. destruct (durable_unreconciled g); [|by injection Hr as _ _ <-].
    pose proof (tail_view 1 s) as Hv. destruct (list_audit_tail 1 s) as [[tail|] s1]; cbn [snd] in Hv.
    + destruct (rebase_nondurable_suffix _ _ _ _). injection Hr as _ _ <-. by rewrite Hv.
    + injection Hr as _ _ <-. by rewrite Hv.
  - unfold single_writer in Hr. pose proof (tail_view 1 s) as Hv. destruct (list_audit_tail 1 s) as [[tail|] s1]; cbn [snd] in Hv.
    + destruct (_ <? _); injection Hr as _ _ <-; by rewrite Hv.
    + injection Hr as _ _ <-. by rewrite Hv.
  - destruct Hi as [Hro _ Hst]. cbn [s_log s_store s_phase] in *.
    destruct (durable_unreconciled g); [by destruct Hst as [_ _ _ [?|[? ?]]]|]. destruct Hst as [m Hm].
    pose proof (op_phase _ _ _ _ Hm _ _ eq_refl) as Hq. unfold backfill_one in Hr.
    destruct (ring_record q g) as [r|] eqn:Er; [|by injection Hr as _ _ <-]. apply ring_record_some in Er as [Hin Hs].
    pose proof (append_view r s) as Hv. destruct (append_audit r s) as [ok s1]. rewrite Hs in Hv. cbn [fst snd] in *.
    assert (Hg : persisted s ⊆ persisted s1).
    { destruct Hv as [-> | ->]; [done|]. destruct (persisted s !! q) as [r'|] eqn:Eq; [|by apply insert_subseteq].
      pose proof (proj1 (sp_dom _ _ _ (op_spans _ _ _ _ Hm) q) ltac:(by eexists)).
      pose proof (op_agrees _ _ _ _ Hm r Hin ltac:(lia)) as Hsame. rewrite Hs in Hsame. by rewrite insert_id. }
    destruct ok; by injection Hr as _ _ <-.
Qed.

Lemma steps_inv y z : rtc audit_step y z -> inv y -> inv z /\ persisted (s_store y) ⊆ persisted (s_store z).
Proof.
  induction 1 as [y|y y' z Hs _ IH]; [done|]. intros Hi. destruct IH as [Hz Hg]; [by eapply step_inv|].
  split; [done|]. transitivity (persisted (s_store y')); [by eapply step_grows|done].
Qed.

Lemma inv_log y :
  inv y -> exists m, m0 <= m /\ spans (persisted (s_store y)) lo m /\ continues (persisted (s_store y)).
Proof.
  intros [_ _ Hst]. destruct (durable_unreconciled _).
  - destruct Hst as [-> _ _ _]. exists m0. split_and!; [done..|]. intros q r Hq Hno. congruence.
  - destruct Hst as [m []]. exists m. naive_solver.
Qed.

(** ** Boot *)

Lemma sealed_inv g s :
  entries g = [] -> 1 <= next_seq g -> durable_unreconciled g = true -> persisted s = D0 -> 0 <= durable_high g <= m0 ->
  inv (mkSys g s PIdle).
Proof.
  intros He Hn Hu HD Hh. assert (Hr : ring g = []) by (unfold ring; by rewrite He).
  split; cbn [s_log s_store s_phase]; [by split; rewrite Hr|done|]. rewrite Hu. split; [done|by rewrite He|done|by left].
Qed.

Lemma restored g l b :
  (forall r, r ∈ l -> D0 !! seq r = Some r) -> linked l -> Forall valid l -> last l = Some b -> seq b = m0 ->
  ring g = l -> next_seq g = m0 + 1 -> durable_high g = m0 ->
  ring_ok g /\ open_ok g D0 PIdle m0.
Proof.
  intros Hin Hl Hv Hb Hsb Hr Hn Hh. pose proof (sp_lo _ _ _ Hspan0) as Hlo.
  assert (Hpos : forall r, r ∈ l -> 1 <= seq r).
  { intros r Hr'. pose proof (proj1 (sp_dom _ _ _ Hspan0 (seq r)) ltac:(eexists; by apply Hin)). lia. }
  split; split; rewrite ?Hr; try done.
  - by apply Forall_forall.
  - rewrite Hb. lia.
  - intros q r Hq Hno. congruence.
  - rewrite Hh. pose proof (Hpos b ltac:(apply last_Some in Hb as [? ->]; set_solver)). lia.
  - intros r Hr' _. by apply Hin.
  - intros f p Hf Hsf _. exfalso. assert (Hfl : f ∈ l) by (destruct l; simplify_eq/=; by apply list_elem_of_here).
    pose proof (linked_last_greatest _ _ _ Hl Hb Hfl). lia.
  - rewrite Hb. lia.
Qed.

Lemma boot_inv s res g s' : persisted s = D0 -> boot sha256_hex s = (res, g, s') -> inv (mkSys g s' PIdle).
Proof.
  intros HD. unfold boot, restore_from_store. pose proof (tail_view MAX_AUDIT_ENTRIES s) as Hview.
  pose proof (fun l => tail_ok MAX_AUDIT_ENTRIES s l) as Htail. rewrite HD in *.
  destruct (list_audit_tail MAX_AUDIT_ENTRIES s) as [[l|] s1]; cbn [fst snd] in *; pose proof (sp_lo _ _ _ Hspan0) as Hlo.
  - specialize (Htail l Hkey0 eq_refl).
    assert (Hlen : (length l <= MAX_AUDIT_ENTRIES)%nat) by (destruct Htail as (? & _ & ->); lia).
    destruct (tail_facts _ _ _ Hspan0 MAX_AUDIT_ENTRIES l ltac:(unfold MAX_AUDIT_ENTRIES; lia) Htail) as (Hin & Hseq & Hlast).
    destruct l as [|a l'] eqn:El.
    { intros [= _ <- <-]. split; cbn [s_log s_store s_phase]; [by split|done|]. cbn in Hlast. exists m0. rewrite Hview.
      split; try done; [intros q r Hq Hno; congruence|cbn; lia|].
      intros r Hr. by apply not_elem_of_nil in Hr. }
    rewrite <- El in *. destruct (last l) as [b|] eqn:Eb; [|by apply last_None in Eb; simplify_eq].
    assert (Hbin : b ∈ l) by (apply last_Some in Eb as [? ->]; set_solver).
    pose proof (proj1 (sp_dom _ _ _ Hspan0 (seq b)) ltac:(eexists; by apply Hin)) as Hb.
    assert (Hmax : max_seq l = m0).
    { rewrite <- Hlast. apply max_seq_bounds; [|done|lia]. intros r Hr.
      pose proof (proj1 (sp_dom _ _ _ Hspan0 (seq r)) ltac:(eexists; by apply Hin)). lia. }
    rewrite Hmax. destruct (verify_chain sha256_hex None l) as [br|] eqn:Ev; intros [= _ <- <-].
    + apply sealed_inv; try done; cbn; lia.
    + destruct (verified_linked None l Ev Hseq) as (Hl & Hv & _).
      edestruct (restored (set_entries (drop (length l - MAX_AUDIT_ENTRIES) (from_record <$> l)) (Z.max 1 (m0 + 1))
        (raise_high m0 (raise_next (m0 + 1) (set_unreconciled false (AuditLog.set_sink true new_log))))) l b) as [Hro Hop];
        try done; [..|split; cbn [s_log s_store s_phase]; [exact Hro|done|rewrite Hview; by exists m0]].
      * unfold ring. cbn [entries set_entries]. rewrite (proj2 (Nat.sub_0_le _ _) Hlen), drop_0, <- list_fmap_compose.
        apply list_fmap_id.
      * cbn. lia.
      * cbn. lia.
  - intros [= _ <- <-]. apply sealed_inv; try done; cbn; lia.
Qed.
End steps.
