(* ===== verification/AuditRuns.v ===== *)
(** * AuditRuns: whole runs of the audit log

    [record_by] and [flush_durable] are runs of the steps of AuditSpec; on a store that works, every
    mutation gets to it, in order, without an entry leaving the ring first. *)

From S2P Require Import Prelude AuditLog AuditSpec.

#[local] Open Scope Z_scope.

Section runs.
Context (sha256_hex : string -> string) {S : Type} `{AuditStore S} `{!DurableAudit S}.

Notation audit_step := (audit_step sha256_hex).
Notation push := (push sha256_hex).

(** ** The operations are steps *)

Lemma backfill_steps n q g s g' s' :
  backfill n q g s = (g', s') -> rtc audit_step (mkSys g s (PCopy n q)) (mkSys g' s' PIdle).
Proof.
  revert q g s. induction n as [|n IH]; intros q g s Hr; simpl in Hr.
  - injection Hr as <- <-. apply rtc_once, step_done.
  - destruct (backfill_one q g s) as [[go g1] s1] eqn:E1. eapply rtc_l; [by eapply step_copy|].
    destruct go; [by apply IH|]. by injection Hr as <- <-.
Qed.

Lemma write_through_steps q g s g' s' :
  entries g <> [] -> durable_write_through sha256_hex q g s = (g', s') ->
  rtc audit_step (mkSys g s PIdle) (mkSys g' s' PIdle).
Proof.
  intros Hne Hr. unfold durable_write_through in Hr. destruct (reconcile _ q g s) as [[t g1] s1] eqn:E1.
  eapply rtc_l; [by apply (step_start _ q)|]. eapply rtc_l; [by eapply step_reconcile|].
  destruct t as [t|]; [|by injection Hr as <- <-]. destruct (single_writer g1 s1) as [[alone g2] s2] eqn:E2.
  eapply rtc_l; [by eapply step_check|]. destruct alone; [by apply backfill_steps|by injection Hr as <- <-].
Qed.

Lemma record_by_steps rt m g s g' s' :
  record_by sha256_hex rt m g s = (g', s') -> rtc audit_step (mkSys g s PIdle) (mkSys g' s' PIdle).
Proof.
  intros Hr. unfold record_by in Hr. eapply rtc_l; [apply (step_push _ m)|].
  rewrite (surjective_pairing (push m g)) in Hr. destruct (_ && _); [|by injection Hr as <- <-].
  eapply write_through_steps; [|exact Hr]. unfold AuditLog.push. cbn [snd entries set_entries]. by destruct (prune _).
Qed.

Lemma flush_durable_steps g s g' s' :
  flush_durable sha256_hex g s = (g', s') -> rtc audit_step (mkSys g s PIdle) (mkSys g' s' PIdle).
Proof.
  unfold flush_durable. destruct (AuditLog.sink g); [|by intros [= <- <-]].
  destruct (last (entries g)) as [e|] eqn:Ee; [|by intros [= <- <-]]. intros Hr. eapply write_through_steps; [|exact Hr].
  intros Hn. by rewrite Hn in Ee.
Qed.

(** ** Histories *)

Inductive AuditOp := Record_by (has_runtime : bool) (m : Mutation) | Flush.

Definition audit_op (o : AuditOp) (y : AuditLog * S) : AuditLog * S :=
  match o with
  | Record_by rt m => record_by sha256_hex rt m y.1 y.2
  | Flush => flush_durable sha256_hex y.1 y.2
  end.

Definition audit_ops (l : list AuditOp) (y : AuditLog * S) : AuditLog * S := foldl (fun y o => audit_op o y) y l.

Definition mutations (l : list AuditOp) : list Mutation :=
  omap (fun o => match o with Record_by _ m => Some m | Flush => None end) l.

Lemma audit_ops_steps l g s g' s' :
  audit_ops l (g, s) = (g', s') -> rtc audit_step (mkSys g s PIdle) (mkSys g' s' PIdle).
Proof.
  revert g s. induction l as [|o l IH]; intros g s Hr; [by injection Hr as <- <-|].
  change (audit_ops l (audit_op o (g, s)) = (g', s')) in Hr. destruct (audit_op o (g, s)) as [g1 s1] eqn:E1.
  transitivity (mkSys g1 s1 PIdle); [|by apply IH].
  destruct o as [rt m|]; [by eapply record_by_steps|by eapply flush_durable_steps].
Qed.

Lemma audit_ops_run l y :
  rtc audit_step (mkSys y.1 y.2 PIdle) (mkSys (audit_ops l y).1 (audit_ops l y).2 PIdle).
Proof. apply (audit_ops_steps l). rewrite <- surjective_pairing. apply surjective_pairing. Qed.

(** C5. An append-only audit log.  Let a store hold the records [lo] to [m0] when the proxy boots,
    whether the restore reads them, finds them tampered with, or cannot read them at all.  Then
    whatever mutations are recorded, at whatever points of a running write-through, and whatever calls
    to the store fail, written or not: a record once in the store stays as it is, the log has no gaps,
    and every record added verifies, sits at its own sequence number and names the hash of the one
    before it. *)
Theorem audit_log_is_append_only (s : S) (lo m0 : Z) res g s1 y z :
  keyed (persisted s) -> spans (persisted s) lo m0 -> boot sha256_hex s = (res, g, s1) ->
  rtc audit_step (mkSys g s1 PIdle) y -> rtc audit_step y z ->
  persisted (s_store y) ⊆ persisted (s_store z)
  /\ exists m, m0 <= m /\ spans (persisted (s_store z)) lo m
               /\ continues sha256_hex (persisted s) (persisted (s_store z)).
Proof.
  intros Hk Hs Hb Hy Hz. pose proof (boot_inv _ _ _ _ Hs Hk _ _ _ _ eq_refl Hb) as Hi.
  destruct (steps_inv _ _ _ _ Hs Hk _ _ Hy Hi) as [Hiy _]. destruct (steps_inv _ _ _ _ Hs Hk _ _ Hz Hiy) as [Hiz Hg].
  split; [exact Hg|]. by eapply inv_log.
Qed.
End runs.

(** ** A store that works *)

(** The record of a mutation. *)
Definition carries (m : Mutation) (r : AuditRecord) : Prop :=
  ts r = m_ts m /\ action r = m_action m /\ resource r = m_resource m /\ outcome r = m_outcome m
  /\ principal r = m_principal m.

Section working.
Context (sha256_hex : string -> string) {S : Type} `{AuditStore S} `{!DurableAudit S}.
Context (read_works : forall n s, is_Some (list_audit_tail n s).1).
Context (append_works : forall r s, (append_audit r s).1 = true).
Context (D0 : gmap Z AuditRecord) (lo m0 : Z).

Notation push := (push sha256_hex).

(** Every mutation is in the log, or in the ring still; [k] bounds how many wait there. *)
Record caught (k : Z) (ms : list Mutation) (g : AuditLog) (D : gmap Z AuditRecord) : Prop := {
  ca_sink : sink g = true;
  ca_next : next_seq g = m0 + 1 + Z.of_nat (length ms);
  ca_high : m0 <= durable_high g < next_seq g;
  ca_keyed : keyed D;
  ca_spans : spans D lo (durable_high g);
  ca_done : forall i m, ms !! i = Some m -> m0 + 1 + Z.of_nat i <= durable_high g ->
              exists r, D !! (m0 + 1 + Z.of_nat i) = Some r /\ carries m r;
  ca_pending : forall i m, ms !! i = Some m -> durable_high g < m0 + 1 + Z.of_nat i ->
              exists r, r ∈ ring g /\ seq r = m0 + 1 + Z.of_nat i /\ carries m r;
  ca_sealed : durable_unreconciled g = true -> Forall (fun r => m0 + 1 <= seq r) (ring g) /\ durable_high g = m0;
  ca_few : next_seq g - 1 - durable_high g <= k;
}.

Lemma headroom : WRITE_THROUGH_HEADROOM = 750.
Proof. reflexivity. Qed.

Lemma max_entries : Z.of_nat MAX_AUDIT_ENTRIES = 1000.
Proof. reflexivity. Qed.

Lemma caught_more k k' ms g D : k <= k' -> caught k ms g D -> caught k' ms g D.
Proof. intros ? []. split; try done. lia. Qed.

Lemma ring_keeps m g r :
  ring_ok sha256_hex g -> r ∈ ring g -> next_seq g - seq r < Z.of_nat MAX_AUDIT_ENTRIES -> r ∈ ring (push m g).2.
Proof.
  intros Hro Hr Hlt. rewrite ring_push. apply elem_of_app. left.
  destruct (last_head (ring g)) as (f & b & Hf & Hb); [by intros He; rewrite He in Hr; apply not_elem_of_nil in Hr|].
  pose proof (ring_span _ _ _ _ Hro Hf Hb) as Hn. apply list_elem_of_lookup in Hr as [i Hi].
  pose proof (linked_nth _ (ro_linked _ _ Hro) _ _ Hi _ Hf) as Hs. apply lookup_lt_Some in Hi as Hlti.
  assert (Hlen : length (ring g) = length (entries g)) by (unfold ring; apply length_fmap).
  set (k := (length (ring g) - (MAX_AUDIT_ENTRIES - 1))%nat).
  apply (list_elem_of_lookup_2 _ (i - k)). rewrite lookup_drop. replace (k + (i - k))%nat with i by lia. exact Hi.
Qed.

Lemma push_caught k m ms g D :
  k <= WRITE_THROUGH_HEADROOM - 1 -> ring_ok sha256_hex g -> caught k ms g D ->
  caught (k + 1) (ms ++ [m]) (push m g).2 D.
Proof.
  intros Hk Hro [Hsk Hn Hh Hky Hsp Hd Hp Hse Hf]. destruct (push_record sha256_hex m g) as (Ps & _ & _).
  assert (Hn' : next_seq (push m g).2 = next_seq g + 1) by done. assert (Hh' : durable_high (push m g).2 = durable_high g) by done.
  split; rewrite ?Hn', ?Hh'; try done; [rewrite length_app; simpl; lia|lia|..|lia].
  - intros i mi Hi Hle. apply Hd; [|done]. rewrite lookup_app_l in Hi; [done|]. lia.
  - intros i mi Hi Hlt. apply lookup_app_Some in Hi as [Hi|[Hle Hi]].
    + destruct (Hp i mi Hi Hlt) as (r & Hr & Hs & Hc). exists r. split; [|done]. apply ring_keeps; [done..|].
      pose proof headroom. pose proof max_entries. lia.
    + apply list_lookup_singleton_Some in Hi as [Hi <-]. exists (push m g).1. split_and!.
      * rewrite ring_push. apply elem_of_app. right. by apply list_elem_of_singleton.
      * rewrite Ps. lia.
      * done.
  - intros Hu. change (durable_unreconciled (push m g).2) with (durable_unreconciled g) in Hu. destruct (Hse Hu) as [Hall He]. split; [|done].
    rewrite ring_push. apply Forall_app. split; [by apply Forall_drop|]. apply Forall_singleton. lia.
Qed.

Lemma find_ring q g r : ring_ok sha256_hex g -> r ∈ ring g -> seq r = q -> ring_record q g = Some r.
Proof.
  intros Hro Hr Hs. destruct (ring_record q g) as [r'|] eqn:E.
  - apply ring_record_some in E as [Hr' Hs']. f_equal. apply (linked_seq_inj (ring g)); [apply Hro|done..|lia].
  - exfalso. unfold ring_record in E. destruct (List.find _ _) eqn:Ef; [done|].
    unfold ring in Hr. apply list_elem_of_fmap in Hr as (e & -> & He). apply list_elem_of_In in He.
    pose proof (List.find_none _ _ Ef e He) as Hne. simpl in Hne. lia.
Qed.

Lemma copy_caught k q ms g s :
  ring_ok sha256_hex g -> durable_unreconciled g = false -> caught k ms g (persisted s) ->
  q = durable_high g + 1 -> q < next_seq g ->
  exists s', backfill_one q g s = (true, raise_high q g, s') /\ caught (k - 1) ms (raise_high q g) (persisted s').
Proof.
  intros Hro Hu [Hsk Hn Hh Hky Hsp Hd Hp Hse Hf] Hq Hlt.
  destruct (lookup_lt_is_Some_2 ms (Z.to_nat (q - m0 - 1))) as [mq Hmq]; [lia|].
  destruct (Hp _ _ Hmq ltac:(lia)) as (r & Hr & Hs & Hc). replace (m0 + 1 + Z.of_nat (Z.to_nat (q - m0 - 1))) with q in Hs by lia.
  unfold backfill_one. rewrite (find_ring q g r Hro Hr Hs). pose proof (append_works r s) as Hok.
  pose proof (append_view r s) as Hv. pose proof (append_ok r s Hok) as Hw. destruct (append_audit r s) as [ok s1]. cbn [fst snd] in *.
  rewrite Hok. exists s1. split; [done|]. rewrite Hs in Hv, Hw.
  assert (Hnone : persisted s !! q = None) by (apply eq_None_not_Some; intros Hx%(sp_dom _ _ _ Hsp); lia).
  destruct Hv as [Hv|Hv]; [congruence|]. assert (Hh' : durable_high (raise_high q g) = q) by (cbn; lia).
  assert (Hn' : next_seq (raise_high q g) = next_seq g) by done. pose proof (sp_lo _ _ _ Hsp) as Hlo.
  split; rewrite ?Hh', ?Hn', ?Hv; try done; try lia.
  - intros q' r'. destruct (decide (q' = q)) as [->|]; [rewrite lookup_insert_eq; congruence|rewrite lookup_insert_ne by done; apply Hky].
  - split; [lia|lia|]. intros q'. destruct (decide (q' = q)) as [->|Hne].
    + rewrite lookup_insert_eq. split; [|by eexists]. intros _. split; [|lia]. destruct (decide (lo = q)); [lia|]. lia.
    + rewrite lookup_insert_ne, (sp_dom _ _ _ Hsp) by done. lia.
  - intros i m Hi Hle. destruct (decide (m0 + 1 + Z.of_nat i = q)) as [He|He].
    + rewrite He, lookup_insert_eq. exists r. split; [done|]. assert (i = Z.to_nat (q - m0 - 1)) as -> by lia. by simplify_eq.
    + rewrite lookup_insert_ne by done. apply Hd; [done|lia].
  - intros i m Hi Hl. apply Hp; [done|lia].
  - intros Hu'. change (durable_unreconciled g = true) in Hu'. congruence.
Qed.

Lemma backfill_caught n q k ms g s :
  ring_ok sha256_hex g -> durable_unreconciled g = false -> caught k ms g (persisted s) ->
  q = durable_high g + 1 -> Z.of_nat n = next_seq g - q ->
  exists g' s', backfill n q g s = (g', s') /\ caught 0 ms g' (persisted s').
Proof.
  revert q k g s. induction n as [|n IH]; intros q k g s Hro Hu Hc Hq Hn.
  - exists g, s. split; [done|]. destruct Hc. split; try done. lia.
  - destruct (copy_caught k q ms g s Hro Hu Hc Hq ltac:(lia)) as (s1 & Hrun & Hc1). cbn [backfill]. rewrite Hrun.
    destruct (IH (q + 1) (k - 1) (raise_high q g) s1) as (g' & s' & -> & Hc').
    + destruct Hro. by split.
    + done.
    + exact Hc1.
    + cbn. lia.
    + cbn. lia.
    + by exists g', s'.
Qed.

Lemma max_seq_le l k : 0 <= k -> (forall r, r ∈ l -> seq r <= k) -> max_seq l <= k.
Proof.
  intros Hk. induction l as [|a l IH]; intros Hl; [done|]. change (Z.max (seq a) (max_seq l) <= k).
  pose proof (Hl a ltac:(by apply list_elem_of_here)). pose proof (IH ltac:(intros; apply Hl; by apply list_elem_of_further)). lia.
Qed.

Lemma check_caught k ms g s :
  caught k ms g (persisted s) -> exists s', single_writer g s = (true, g, s') /\ persisted s' = persisted s.
Proof.
  intros [Hsk Hn Hh Hky Hsp Hd Hp Hse Hf]. unfold single_writer. pose proof (tail_view 1 s) as Hv.
  pose proof (fun l => tail_ok 1 s l Hky) as Ht. destruct (list_audit_tail 1 s) as [[tail|] s1]; cbn [fst snd] in *; [|by exists s1].
  destruct (tail_facts _ _ _ Hsp 1 tail ltac:(lia) (Ht tail eq_refl)) as (Hin & _ & _). pose proof (sp_lo _ _ _ Hsp).
  assert (Hle : max_seq tail <= durable_high g).
  { apply max_seq_le; [lia|]. intros r Hr. pose proof (proj1 (sp_dom _ _ _ Hsp (seq r)) ltac:(eexists; by apply Hin)). lia. }
  exists s1. by rewrite (proj2 (Z.ltb_ge _ _) Hle).
Qed.

(** Renumbering a ring that starts right after the tail changes the links alone. *)
Lemma rechain_lookup s prev l i e :
  l !! i = Some e ->
  exists e', rechain sha256_hex s prev l !! i = Some e' /\ seq (to_record e') = s + Z.of_nat i
             /\ forall m, carries m (to_record e) -> carries m (to_record e').
Proof.
  revert s prev i. induction l as [|a l IH]; intros s prev i Hi; [done|]. destruct i as [|i]; simplify_eq/=.
  - eexists. split; [done|]. split; [cbn; lia|done].
  - edestruct (IH (s + 1)) as (e' & He & Hs & Hc); [exact Hi|]. exists e'. split; [exact He|]. split; [lia|exact Hc].
Qed.

Context (Hspan0 : spans D0 lo m0) (Hkey0 : keyed D0).

Notation inv := (inv sha256_hex D0 lo m0).

Lemma sealed_start ms k g f :
  ring_ok sha256_hex g -> caught k ms g D0 -> durable_unreconciled g = true -> head (ring g) = Some f -> seq f = m0 + 1.
Proof.
  intros Hro [Hsk Hn Hh Hky Hsp Hd Hp Hse Hf'] Hu Hf. destruct (Hse Hu) as [Hall Hm]. rewrite Forall_forall in Hall.
  assert (Hin : f ∈ ring g) by (destruct (ring g); simplify_eq/=; by apply list_elem_of_here).
  destruct (last_head (ring g)) as (f' & b & Hf1 & Hb); [by intros He; rewrite He in Hf|].
  pose proof (ring_span _ _ _ _ Hro Hf Hb) as Hs. pose proof (Hall f Hin).
  destruct (lookup_lt_is_Some_2 ms 0) as [m Hm0]; [destruct (entries g) eqn:Ee; [unfold ring in Hf; by rewrite Ee in Hf|simpl in Hs; lia]|].
  destruct (Hp 0%nat m Hm0 ltac:(lia)) as (r & Hr & Hsr & _). pose proof (linked_head_least _ _ _ (ro_linked _ _ Hro) Hf Hr). lia.
Qed.

Lemma reconcile_caught k ms g s :
  inv (mkSys g s (PReconcile (next_seq g - 1))) -> caught k ms g (persisted s) ->
  exists g' s', reconcile sha256_hex (next_seq g - 1) g s = (Some (next_seq g' - 1), g', s')
    /\ durable_unreconciled g' = false /\ ring_ok sha256_hex g' /\ caught k ms g' (persisted s').
Proof.
  intros [Hro Hre Hst] Hc. cbn [s_log s_store s_phase] in *. specialize (Hre ltac:(done)).
  destruct (durable_unreconciled g) eqn:Hu; [|exists g, s; unfold reconcile; by rewrite Hu].
  destruct (reconcile sha256_hex (next_seq g - 1) g s) as [[t g'] s'] eqn:Hrun. pose proof Hrun as Hrun'.
  pose proof (fun t => reconcile_open sha256_hex D0 lo m0 Hspan0 Hkey0 _ g s t g' s' Hro Hre Hu Hst) as Hopen.
  destruct Hst as [HD Hhere _ _]. unfold reconcile in Hrun. rewrite Hu in Hrun. destruct (read_works 1 s) as [tail Htl].
  pose proof (tail_view 1 s) as Hview. pose proof (fun l => tail_ok 1 s l) as Htail. rewrite HD in *.
  destruct (list_audit_tail 1 s) as [o s1]. cbn [fst snd] in *. subst o.
  destruct (tail_one _ _ _ Hspan0 tail (Htail tail Hkey0 eq_refl)) as [Hmax _]. rewrite Hmax in Hrun.
  unfold rebase_nondurable_suffix in Hrun. cbn [entries raise_high set_high] in Hrun. rewrite (seeded_here _ Hhere) in Hrun.
  destruct (entries g) as [|e l] eqn:Ee; [done|].
  assert (Hf : head (ring g) = Some (to_record e)) by (unfold ring; by rewrite Ee).
  pose proof (sealed_start ms k g _ Hro Hc Hu Hf) as Hs0. rewrite Hs0, Z.max_id, Z.eqb_refl in Hrun.
  set (ah := default ""%string (hash <$> anchor tail)) in Hrun.
  pose proof (rechain_lookup (m0 + 1) ah (e :: l)) as Hlook.
  generalize dependent (rechain sha256_hex (m0 + 1) ah (e :: l)). intros l' Hrun Hlook.
  injection Hrun as Ht Hg Hs. subst t g' s1.
  assert (Hne : entries g <> []) by (by rewrite Ee).
  destruct (Hopen _ Hrun') as (_ & Hu' & Hro' & _). clear Hopen Hrun'.
  assert (Hnext : next_seq g = m0 + 1 + Z.of_nat (length (e :: l))).
  { destruct (last_head (ring g)) as (f & b & Hf1 & Hb); [by intros He; rewrite He in Hf|].
    rewrite (ring_span _ _ _ _ Hro Hf Hb), Hs0. by rewrite Ee. }
  set (g' := set_unreconciled _ _) in *.
  assert (Hn' : next_seq g' = next_seq g) by (unfold g'; simpl length in *; cbn; lia).
  assert (Hh' : durable_high g' = m0) by (destruct Hc as [_ _ _ _ _ _ _ Hse _]; destruct (Hse Hu) as [_ He]; unfold g'; cbn; lia).
  exists g', s'. split; [simpl length in *; do 3 f_equal; lia|]. split; [done|]. split; [done|].
  destruct Hc as [Hsk Hn Hh Hky Hsp Hd Hp Hse Hf']. destruct (Hse Hu) as [_ Hhm].
  rewrite Hview. split; rewrite ?Hn', ?Hh'; try done; [lia|intros i m Hi Hle; apply Hd; [done|lia]| |lia].
  intros i m Hi Hlt. destruct (Hp i m Hi ltac:(lia)) as (r & Hr & Hs & Hcr).
  unfold ring in Hr. rewrite Ee in Hr. apply list_elem_of_fmap in Hr as (e0 & -> & Hin). apply list_elem_of_lookup in Hin as [j Hj].
  destruct (Hlook j e0 Hj) as (e' & He' & Hse' & Hce'). exists (to_record e'). split_and!.
  - unfold ring, g'. cbn [entries set_unreconciled raise_next set_next set_entries].
    apply list_elem_of_fmap. exists e'. split; [done|by eapply list_elem_of_lookup_2].
  - assert (Hjr : ring g !! j = Some (to_record e0)) by (unfold ring; by rewrite Ee, list_lookup_fmap, Hj).
    pose proof (linked_nth _ (ro_linked _ _ Hro) j _ Hjr _ Hf). lia.
  - by apply Hce'.
Qed.

Lemma write_through_caught k ms g s :
  inv (mkSys g s PIdle) -> entries g <> [] -> caught k ms g (persisted s) ->
  exists g' s', durable_write_through sha256_hex (next_seq g - 1) g s = (g', s') /\ caught 0 ms g' (persisted s').
Proof.
  intros Hi Hne Hc. pose proof (step_inv _ _ _ _ Hspan0 Hkey0 _ _ (step_start _ (next_seq g - 1) g s Hne) Hi) as Hi'.
  destruct (reconcile_caught k ms g s Hi' Hc) as (g1 & s1 & Hr & Hu & Hro & Hc1). unfold durable_write_through. rewrite Hr.
  destruct (check_caught _ _ _ _ Hc1) as (s2 & -> & Hv). rewrite <- Hv in Hc1. pose proof (ca_high _ _ _ _ Hc1).
  eapply (backfill_caught _ _ k); [exact Hro|exact Hu|exact Hc1|done|lia].
Qed.

(** ** Each operation *)

Lemma record_by_caught rt m ms g s :
  inv (mkSys g s PIdle) -> caught (WRITE_THROUGH_HEADROOM - 1) ms g (persisted s) ->
  exists g' s', record_by sha256_hex rt m g s = (g', s')
    /\ caught (WRITE_THROUGH_HEADROOM - 1) (ms ++ [m]) g' (persisted s').
Proof.
  intros Hi Hc. pose proof (step_inv _ _ _ _ Hspan0 Hkey0 _ _ (step_push _ m g s PIdle) Hi) as Hi'.
  pose proof (push_caught _ m _ _ _ ltac:(done) (in_ring _ _ _ _ _ Hi) Hc) as Hc'. replace (_ - 1 + 1) with WRITE_THROUGH_HEADROOM in Hc' by lia.
  destruct (push_record sha256_hex m g) as (Ps & _ & _). assert (Hn : next_seq (push m g).2 = next_seq g + 1) by done.
  assert (Hne : entries (push m g).2 <> []) by (unfold AuditLog.push; cbn [snd entries set_entries]; by destruct (prune _)).
  unfold record_by. rewrite (surjective_pairing (push m g)), Ps. cbn [s_log] in Hc'. generalize dependent (push m g).2. intros g1 Hi1 Hc1 Hn1 Hne1. clear Hi Hc.
  rewrite (ca_sink _ _ _ _ Hc1). cbn [andb]. pose proof (ca_high _ _ _ _ Hc1) as Hh. pose proof headroom. unfold writes_inline.
  destruct (Z.leb_spec WRITE_THROUGH_HEADROOM (Z.max 0 (next_seq g - durable_high g1))) as [Hle|Hlt]; rewrite ?orb_true_r, ?orb_false_r.
  - destruct (write_through_caught _ _ _ _ Hi1 Hne1 Hc1) as (g' & s' & Hr & Hc'). replace (next_seq g1 - 1) with (next_seq g) in Hr by lia.
    exists g', s'. split; [exact Hr|]. eapply caught_more; [|exact Hc']. lia.
  - destruct (negb rt).
    + destruct (write_through_caught _ _ _ _ Hi1 Hne1 Hc1) as (g' & s' & Hr & Hc'). replace (next_seq g1 - 1) with (next_seq g) in Hr by lia.
      exists g', s'. split; [exact Hr|]. eapply caught_more; [|exact Hc']. lia.
    + exists g1, s. split; [done|]. destruct Hc1. split; try done. lia.
Qed.

Lemma flush_caught ms g s :
  inv (mkSys g s PIdle) -> caught (WRITE_THROUGH_HEADROOM - 1) ms g (persisted s) -> (entries g = [] -> ms = []) ->
  exists g' s', flush_durable sha256_hex g s = (g', s') /\ caught 0 ms g' (persisted s').
Proof.
  intros Hi Hc He. unfold flush_durable. rewrite (ca_sink _ _ _ _ Hc). destruct (last (entries g)) as [e|] eqn:El.
  - assert (Hne : entries g <> []) by (intros Hn; by rewrite Hn in El).
    pose proof (ro_next _ _ (in_ring _ _ _ _ _ Hi)) as Hn. cbn [s_log] in Hn. unfold ring in Hn. rewrite fmap_last, El in Hn. cbn in Hn.
    replace (seq (to_record e)) with (next_seq g - 1) by lia. by eapply write_through_caught.
  - apply last_None in El. specialize (He El). subst ms. exists g, s. split; [done|]. destruct Hc as [Hsk Hn Hh Hky Hsp Hd Hp Hse Hf].
    simpl length in Hn. split; try done. lia.
Qed.

Lemma empty_ring k ms g s :
  inv (mkSys g s PIdle) -> caught k ms g (persisted s) -> entries g = [] -> ms = [].
Proof.
  intros [_ _ Hst] Hc He. cbn [s_log s_store s_phase] in *. assert (Hr : ring g = []) by (unfold ring; by rewrite He).
  pose proof (sp_lo _ _ _ Hspan0). pose proof (ca_next _ _ _ _ Hc) as Hn. destruct ms as [|m ms]; [done|]. exfalso.
  destruct (durable_unreconciled g) eqn:Hu.
  - destruct (ca_sealed _ _ _ _ Hc Hu) as [_ Hh]. destruct (ca_pending _ _ _ _ Hc 0%nat m eq_refl ltac:(lia)) as (r & Hin & _).
    rewrite Hr in Hin. by apply not_elem_of_nil in Hin.
  - destruct Hst as [m' Hm]. pose proof (op_reach _ _ _ _ _ _ _ _ Hm) as Hre. rewrite Hr in Hre. simpl in *. lia.
Qed.

Lemma ops_caught l ms g s :
  inv (mkSys g s PIdle) -> caught (WRITE_THROUGH_HEADROOM - 1) ms g (persisted s) ->
  exists g' s', audit_ops sha256_hex l (g, s) = (g', s')
    /\ inv (mkSys g' s' PIdle) /\ caught (WRITE_THROUGH_HEADROOM - 1) (ms ++ mutations l) g' (persisted s').
Proof.
  revert ms g s. induction l as [|o l IH]; intros ms g s Hi Hc; [exists g, s; by rewrite app_nil_r|].
  assert (Hstep : exists g1 s1, audit_op sha256_hex o (g, s) = (g1, s1) /\ inv (mkSys g1 s1 PIdle)
    /\ caught (WRITE_THROUGH_HEADROOM - 1) (ms ++ mutations [o]) g1 (persisted s1)).
  { destruct o as [rt m|]; cbn [audit_op fst snd].
    - destruct (record_by_caught rt m ms g s Hi Hc) as (g1 & s1 & Hr & Hc1). exists g1, s1. split; [done|]. split; [|done].
      by eapply steps_inv; [| |eapply record_by_steps|].
    - destruct (flush_caught ms g s Hi Hc (empty_ring _ _ _ _ Hi Hc)) as (g1 & s1 & Hr & Hc1). exists g1, s1. split; [done|]. split.
      + by eapply steps_inv; [| |eapply flush_durable_steps|].
      + rewrite app_nil_r. eapply caught_more; [|exact Hc1]. done. }
  destruct Hstep as (g1 & s1 & He & Hi1 & Hc1). destruct (IH _ _ _ Hi1 Hc1) as (g' & s' & Hr & Hi' & Hc').
  exists g', s'. split; [change (audit_ops sha256_hex l (audit_op sha256_hex o (g, s)) = (g', s')); by rewrite He|].
  split; [done|]. rewrite <- (assoc_L (++)) in Hc'. by destruct o.
Qed.

Lemma boot_caught s res g s' :
  persisted s = D0 -> boot sha256_hex s = (res, g, s') -> caught 0 [] g (persisted s').
Proof.
  intros HD. unfold boot, restore_from_store. pose proof (tail_view MAX_AUDIT_ENTRIES s) as Hview.
  pose proof (fun l => tail_ok MAX_AUDIT_ENTRIES s l) as Htail. rewrite HD in *. destruct (read_works MAX_AUDIT_ENTRIES s) as [l Hl].
  destruct (list_audit_tail MAX_AUDIT_ENTRIES s) as [o s1]; cbn [fst snd] in *. subst o. pose proof (sp_lo _ _ _ Hspan0) as Hlo.
  destruct (tail_facts _ _ _ Hspan0 MAX_AUDIT_ENTRIES l ltac:(unfold MAX_AUDIT_ENTRIES; lia) (Htail l Hkey0 eq_refl)) as (Hin & _ & Hlast).
  rewrite <- Hview in *. assert (Hbase : forall g, sink g = true -> next_seq g = m0 + 1 -> durable_high g = m0 ->
    (durable_unreconciled g = true -> entries g = []) -> caught 0 [] g (persisted s1)).
  { intros g' Hs Hn Hh Hu. split; rewrite ?Hn, ?Hh; try done; [simpl; lia|lia| |lia].
    intros He%Hu. split; [|done]. unfold ring. by rewrite He. }
  destruct l as [|a l'] eqn:El; [intros [= _ <- <-]; cbn in Hlast; apply Hbase; try done; cbn; lia|]. rewrite <- El in *.
  destruct (last l) as [b|] eqn:Eb; [|by apply last_None in Eb; simplify_eq].
  assert (Hmax : max_seq l = m0).
  { rewrite <- Hlast. assert (Hb : b ∈ l) by (apply last_Some in Eb as [? ->]; set_solver).
    pose proof (proj1 (sp_dom _ _ _ Hspan0 (seq b)) ltac:(eexists; by apply Hin)).
    apply max_seq_bounds; [|done|lia]. intros r Hr.
    pose proof (proj1 (sp_dom _ _ _ Hspan0 (seq r)) ltac:(eexists; by apply Hin)). lia. }
  rewrite Hmax. destruct (verify_chain sha256_hex None l); intros [= _ <- <-]; apply Hbase; try done; cbn; lia.
Qed.
End working.

