(* ===== verification/AuditCheck.v ===== *)
(** * AuditCheck: tamper evidence of the audit log, a lost acknowledgement, and runs on concrete stores *)

From Stdlib Require Import Ascii.
From stdpp Require Import pretty sorting.
From S2P Require Import Prelude AuditLog AuditSpec AuditRuns.

#[local] Open Scope Z_scope.

(** ** What a verified chain commits to *)

Fixpoint bar_free (s : string) : bool :=
  match s with
  | EmptyString => true
  | String c s => negb (Ascii.eqb c "|"%char) && bar_free s
  end.

Lemma bar_split a1 a2 b1 b2 :
  bar_free a1 = true -> bar_free a2 = true -> a1 +:+ bar +:+ b1 = a2 +:+ bar +:+ b2 -> a1 = a2 /\ b1 = b2.
Proof.
  revert a2. induction a1 as [|c a1 IH]; intros [|c' a2] H1 H2 He; cbn in *.
  - by injection He.
  - injection He as <- _. done.
  - injection He as -> _. done.
  - injection He as -> He. apply andb_true_iff in H1 as [_ H1], H2 as [_ H2]. by destruct (IH a2 H1 H2 He) as [-> ->].
Qed.

Lemma bar_free_app a b : bar_free (a +:+ b) = bar_free a && bar_free b.
Proof. induction a as [|c a IH]; simpl; [done|]. by rewrite IH, andb_assoc. Qed.

Lemma pretty_N_go_bar_free x s : bar_free s = true -> bar_free (pretty_N_go x s) = true.
Proof.
  revert s. induction (N.lt_wf_0 x) as [x _ IH]; intros s Hs. destruct (decide (x = 0%N)) as [->|Hx].
  - by rewrite pretty_N_go_0.
  - rewrite pretty_N_go_step by lia. apply IH; [apply N.div_lt; lia|]. simpl. rewrite Hs, andb_true_r.
    unfold pretty_N_char. by repeat case_match.
Qed.

Lemma pretty_bar_free (z : Z) : bar_free (pretty z) = true.
Proof.
  assert (Hp : forall n : N, bar_free (pretty n) = true).
  { intros n. unfold pretty, pretty_N. case_decide; [done|]. by apply pretty_N_go_bar_free. }
  destruct z as [|p|p]; [done|exact (Hp (N.pos p))|]. change (pretty (Z.neg p)) with ("-" +:+ pretty (N.pos p)).
  by rewrite bar_free_app, Hp.
Qed.

(** The text that a record of the mutation has after the time stamp. *)
Definition told (r : AuditRecord) : string :=
  action r +:+ bar +:+ resource r +:+ bar +:+ outcome r +:+ bar +:+ principal r.

(** The same record, but for where the text's fields end. *)
Definition same_entry (a b : AuditRecord) : Prop :=
  seq a = seq b /\ ts a = ts b /\ prev_hash a = prev_hash b /\ hash a = hash b /\ told a = told b.

Lemma canonical_told a b :
  bar_free (prev_hash a) = true -> bar_free (prev_hash b) = true -> canonical a = canonical b ->
  prev_hash a = prev_hash b /\ seq a = seq b /\ ts a = ts b /\ told a = told b.
Proof.
  unfold canonical, told. intros Ha Hb He. apply bar_split in He as [Hp He]; [|done..].
  apply bar_split in He as [Hs He]; [|apply pretty_bar_free..].
  apply bar_split in He as [Ht He]; [|apply pretty_bar_free..]. by split_and!; [|apply (inj pretty)..|].
Qed.

Lemma same_fields a b :
  bar_free (action a) && bar_free (resource a) && bar_free (outcome a) = true ->
  bar_free (action b) && bar_free (resource b) && bar_free (outcome b) = true ->
  same_entry a b -> a = b.
Proof.
  rewrite !andb_true_iff. intros [[A1 A2] A3] [[B1 B2] B3] (Hs & Ht & Hp & Hh & He). unfold told in He.
  apply bar_split in He as [Ha He]; [|done..]. apply bar_split in He as [Hr He]; [|done..].
  apply bar_split in He as [Ho He]; [|done..]. destruct a, b; simpl in *; congruence.
Qed.

Lemma verify_snoc sha256_hex prev l r :
  verify_chain sha256_hex prev (l ++ [r]) = None ->
  verify_chain sha256_hex prev l = None /\ hash r = compute_hash sha256_hex r
  /\ match last l with Some p => prev_hash r = hash p | None => match prev with Some p => prev_hash r = p | None => True end end.
Proof.
  revert prev. induction l as [|a l IH]; intros prev; simpl.
  - destruct (String.eqb_spec (hash r) (compute_hash sha256_hex r)); [|done]. simpl.
    destruct prev as [p|]; [destruct (String.eqb_spec (prev_hash r) p)|]; done.
  - destruct (negb (String.eqb (hash a) _)); [done|]. destruct (match prev with Some _ => _ | None => _ end); [done|].
    intros Hv. destruct (IH _ Hv) as (? & ? & Hl). split_and!; [done..|].
    rewrite last_cons. by destruct (last l).
Qed.
Lemma verified_last sha256_hex prev l p :
  verify_chain sha256_hex prev l = None -> last l = Some p -> hash p = compute_hash sha256_hex p.
Proof. intros Hv [l' ->]%last_Some. by apply verify_snoc in Hv as (_ & ? & _). Qed.


(** ** Concrete stores *)

#[export] Instance by_seq : SqSubsetEq AuditRecord := fun a b => seq a <= seq b.

#[export] Instance by_seq_dec : RelDecision (⊑@{AuditRecord}).
Proof. intros a b. unfold sqsubseteq, by_seq. apply _. Defined.

#[export] Instance by_seq_total : Total (⊑@{AuditRecord}).
Proof. intros a b. unfold sqsubseteq, by_seq. lia. Qed.

#[export] Instance by_seq_trans : Transitive (⊑@{AuditRecord}).
Proof. intros a b c. unfold sqsubseteq, by_seq. lia. Qed.

Definition sorted_rows (D : gmap Z AuditRecord) : list AuditRecord := merge_sort (⊑) (map_to_list D).*2.

Definition rows_tail (n : nat) (D : gmap Z AuditRecord) : list AuditRecord :=
  drop (length (sorted_rows D) - n) (sorted_rows D).

Lemma strictly l : StronglySorted (⊑) l -> NoDup (seq <$> l) -> ascending_seqs l.
Proof.
  induction 1 as [|a l Hl IH Ha]; intros Hn; [constructor|]. rewrite fmap_cons in Hn. apply NoDup_cons in Hn as [Hni Hn].
  constructor; [by apply IH|]. rewrite Forall_forall in Ha |- *. intros b Hb. specialize (Ha b Hb). unfold sqsubseteq, by_seq in Ha.
  assert (seq a <> seq b) by (intros He; apply Hni; rewrite He; by apply list_elem_of_fmap_2). lia.
Qed.

Lemma sorted_rows_records D : keyed D -> records_of D (sorted_rows D).
Proof.
  intros Hk. assert (Hp : sorted_rows D ≡ₚ (map_to_list D).*2) by apply merge_sort_Permutation. split.
  - apply strictly; [apply Sorted_StronglySorted; [apply _|apply Sorted_merge_sort; apply _]|].
    rewrite Hp, <- list_fmap_compose. rewrite (list_fmap_ext _ fst).
    + apply NoDup_fst_map_to_list.
    + intros i [q r] Hi. apply list_elem_of_lookup_2, elem_of_map_to_list in Hi. simpl. by apply Hk.
  - intros q r. rewrite Hp. rewrite list_elem_of_fmap. split.
    + intros Hq. split; [exists (q, r); split; [done|by apply elem_of_map_to_list]|by apply Hk].
    + intros [[[q' r'] [-> Hin]] Hs]. apply elem_of_map_to_list in Hin. simpl in *. pose proof (Hk _ _ Hin). by subst.
Qed.

Lemma rows_tail_is_tail n D : keyed D -> is_tail n D (rows_tail n D).
Proof.
  intros Hk. exists (take (length (sorted_rows D) - n) (sorted_rows D)). unfold rows_tail. rewrite take_drop.
  split; [by apply sorted_rows_records|]. rewrite length_drop. lia.
Qed.

(** A store that always works. *)
#[local] Instance rows_store : AuditStore (gmap Z AuditRecord) := {
  append_audit r D := (true, <[seq r := r]> D);
  list_audit_tail n D := (Some (rows_tail n D), D);
}.

#[local] Program Instance rows_durable : DurableAudit (gmap Z AuditRecord) := { persisted := id }.
Next Obligation. intros r s. by right. Qed.
Next Obligation. intros r s _. apply lookup_insert_eq. Qed.
Next Obligation. done. Qed.
Next Obligation. intros n s l Hk [= <-]. by apply rows_tail_is_tail. Qed.

(** A store whose calls fail as scripted: not done, or done and the answer lost. *)
Inductive Fault := Fine | Lost | Down.

Record Scripted := mkScripted { rows : gmap Z AuditRecord; script : list Fault }.

Definition fault (s : Scripted) : Fault := default Fine (head (script s)).

#[local] Instance scripted_store : AuditStore Scripted := {
  append_audit r s :=
    (match fault s with Fine => true | _ => false end,
     mkScripted (match fault s with Down => rows s | _ => <[seq r := r]> (rows s) end) (tail (script s)));
  list_audit_tail n s :=
    (match fault s with Fine => Some (rows_tail n (rows s)) | _ => None end, mkScripted (rows s) (tail (script s)));
}.

#[local] Program Instance scripted_durable : DurableAudit Scripted := { persisted := rows }.
Next Obligation. intros r s. simpl. destruct (fault s); auto. Qed.
Next Obligation. intros r s. simpl. destruct (fault s); [|done..]. intros _. apply lookup_insert_eq. Qed.
Next Obligation. done. Qed.
Next Obligation. intros n s l Hk. simpl. destruct (fault s); [|done..]. intros [= <-]. by apply rows_tail_is_tail. Qed.

(** ** Runs *)

Notation id_hash := (fun x : string => x).

Definition first_record : AuditRecord := sealed id_hash (mkRecord 1 5 "pool.create" "p" OUTCOME_APPLIED "root" "" "").

Definition one_row : gmap Z AuditRecord := {[ 1 := first_record ]}.

Lemma one_row_keyed : keyed one_row.
Proof. intros q r. unfold one_row. rewrite lookup_singleton_Some. by intros [<- <-]. Qed.

Lemma one_row_spans : spans one_row 1 1.
Proof.
  split; [lia|done|]. intros q. unfold one_row. destruct (decide (q = 1)) as [->|Hne].
  - rewrite lookup_singleton_eq. split; [lia|by eexists].
  - rewrite lookup_singleton_ne by done. split; [by intros [? ?]|lia].
Qed.

Definition edit (t : Z) (what : string) : Mutation := mkMutation t "key.mint" what OUTCOME_APPLIED "ops".

(** The boot read fails; so does a later append, whose effect is kept. *)
Definition faulty : Scripted := mkScripted one_row [Down; Fine; Fine; Fine; Fine; Lost].

Definition faulty_boot := boot id_hash faulty.
Definition faulty_mid := audit_ops id_hash [Record_by false (edit 10 "a")] (faulty_boot.1.2, faulty_boot.2).
Definition faulty_end := audit_ops id_hash [Record_by true (edit 20 "b"); Record_by false (edit 30 "c")] faulty_mid.

Definition settled (y : AuditLog * Scripted) : Sys := mkSys y.1 y.2 PIdle.

Lemma faulty_boot_run : boot id_hash faulty = (faulty_boot.1.1, faulty_boot.1.2, faulty_boot.2).
Proof. unfold faulty_boot. rewrite <- (surjective_pairing (boot id_hash faulty).1). apply surjective_pairing. Qed.

Lemma faulty_mid_run : rtc (audit_step id_hash) (mkSys faulty_boot.1.2 faulty_boot.2 PIdle) (settled faulty_mid).
Proof. unfold settled, faulty_mid. exact (audit_ops_run id_hash _ (faulty_boot.1.2, faulty_boot.2)). Qed.

Lemma faulty_end_run : rtc (audit_step id_hash) (settled faulty_mid) (settled faulty_end).
Proof. unfold settled, faulty_end. exact (audit_ops_run id_hash _ faulty_mid). Qed.

Example faulty_rows : bool_decide (size (rows faulty_end.2) = 3%nat) = true.
Proof. vm_compute. reflexivity. Qed.

Lemma audit_log_is_append_only_witness :
  persisted (s_store (settled faulty_mid)) ⊆ persisted (s_store (settled faulty_end))
  /\ exists m, 1 <= m /\ spans (persisted (s_store (settled faulty_end))) 1 m
               /\ continues id_hash (persisted faulty) (persisted (s_store (settled faulty_end))).
Proof.
  exact (audit_log_is_append_only id_hash faulty 1 1 faulty_boot.1.1 faulty_boot.1.2 faulty_boot.2
    (settled faulty_mid) (settled faulty_end) one_row_keyed one_row_spans faulty_boot_run faulty_mid_run faulty_end_run).
Defined.

Definition plain_boot := boot id_hash one_row.
Definition plain_ops := [Record_by true (edit 10 "a"); Record_by true (edit 20 "b")].
Definition plain_end := audit_ops id_hash (plain_ops ++ [Flush]) (plain_boot.1.2, plain_boot.2).

Lemma plain_boot_run : boot id_hash one_row = (plain_boot.1.1, plain_boot.1.2, plain_boot.2).
Proof. unfold plain_boot. rewrite <- (surjective_pairing (boot id_hash one_row).1). apply surjective_pairing. Qed.

Lemma plain_end_run :
  audit_ops id_hash (plain_ops ++ [Flush]) (plain_boot.1.2, plain_boot.2) = (plain_end.1, plain_end.2).
Proof. unfold plain_end. apply surjective_pairing. Qed.

Lemma rows_read n (D : gmap Z AuditRecord) : is_Some (list_audit_tail n D).1.
Proof. by eexists. Qed.

Lemma rows_append r (D : gmap Z AuditRecord) : (append_audit r D).1 = true.
Proof. done. Qed.


(** A digest that hides the bar and can be undone. *)
Fixpoint barless (s : string) : string :=
  match s with
  | EmptyString => EmptyString
  | String c s => if Ascii.eqb c "|"%char then String "b"%char (String "1"%char (barless s)) else String c (String "0"%char (barless s))
  end.

Lemma barless_inj x y : barless x = barless y -> x = y.
Proof.
  revert y. induction x as [|c x IH]; intros [|d y] He; cbn in He; try done.
  - by destruct (Ascii.eqb d "|"%char).
  - by destruct (Ascii.eqb c "|"%char).
  - destruct (Ascii.eqb_spec c "|"%char) as [->|], (Ascii.eqb_spec d "|"%char) as [->|]; try done.
    + injection He as He. by rewrite (IH _ He).
    + injection He as -> He. by rewrite (IH _ He).
Qed.

Lemma barless_bar_free x : bar_free (barless x) = true.
Proof.
  induction x as [|c x IH]; [done|]. cbn. destruct (Ascii.eqb c "|"%char) eqn:E; [exact IH|]. cbn. by rewrite E, IH.
Qed.

(** Two chains that differ in where a field ends. *)
Definition told_as (res out : string) : list AuditRecord :=
  [sealed barless (mkRecord 1 5 "key.mint" res out "root" "" "")].


(** ** A lost acknowledgement *)

Lemma detached_is_quiet (sha256_hex : string -> string) {S : Type} `{AuditStore S} l g (s : S) :
  sink g = false -> (audit_ops sha256_hex l (g, s)).2 = s.
Proof.
  revert g s. induction l as [|o l IH]; intros g s Hg; [done|].
  change ((audit_ops sha256_hex l (audit_op sha256_hex o (g, s))).2 = s).
  destruct o as [rt m|]; cbn [audit_op fst snd].
  - unfold record_by. rewrite (surjective_pairing (push sha256_hex m g)).
    change (sink (push sha256_hex m g).2) with (sink g). rewrite Hg. by apply IH.
  - unfold flush_durable. rewrite Hg. by apply IH.
Qed.

(** C14. A lost acknowledgement ends the durable log.  When an append was written but reported as failed,
    the store is one record ahead of the watermark; if its tail can be read, the next write-through takes
    its own record for another writer's and detaches the store: it writes nothing, and nothing that is
    recorded or flushed afterwards calls the store again. *)
Theorem a_lost_acknowledgement_detaches_the_store (sha256_hex : string -> string) {S : Type} `{AuditStore S} `{!DurableAudit S}
    (q lo : Z) (g : AuditLog) (s : S) :
  durable_unreconciled g = false -> keyed (persisted s) -> spans (persisted s) lo (durable_high g + 1) ->
  0 <= durable_high g -> is_Some (list_audit_tail 1 s).1 ->
  exists g' s', durable_write_through sha256_hex q g s = (g', s') /\ sink g' = false /\ persisted s' = persisted s
    /\ forall l, (audit_ops sha256_hex l (g', s')).2 = s'.
Proof.
  intros Hu Hk Hs Hh [l Hl]. unfold durable_write_through, reconcile. rewrite Hu. unfold single_writer.
  pose proof (tail_view 1 s) as Hv. pose proof (fun l => tail_ok 1 s l Hk) as Ht.
  destruct (list_audit_tail 1 s) as [o s1]. cbn [fst snd] in *. subst o.
  destruct (tail_facts _ _ _ Hs 1 l ltac:(lia) (Ht l eq_refl)) as (Hin & _ & Hlast).
  destruct (last l) as [b|] eqn:Eb; [|lia].
  assert (Hb : b ∈ l) by (apply last_Some in Eb as [? ->]; set_solver).
  assert (Hmax : max_seq l = durable_high g + 1).
  { rewrite <- Hlast. apply max_seq_bounds; [|done|lia]. intros r Hr.
    pose proof (proj1 (sp_dom _ _ _ Hs (seq r)) ltac:(eexists; by apply Hin)). lia. }
  rewrite Hmax. rewrite (proj2 (Z.ltb_lt _ _)) by lia. eexists _, s1. split; [done|]. split; [done|]. split; [done|].
  intros ops. by apply detached_is_quiet.
Qed.

(** A fresh store whose first append is written, its answer lost. *)
Definition lossy_end := audit_ops id_hash [Record_by false (edit 10 "a")] (set_sink true new_log, mkScripted ∅ [Fine; Lost]).

Definition lossy_record : AuditRecord :=
  sealed id_hash (mkRecord 1 10 "key.mint" "a" OUTCOME_APPLIED "ops" "" "").

Lemma lossy_state :
  durable_unreconciled lossy_end.1 = false /\ durable_high lossy_end.1 = 0 /\ sink lossy_end.1 = true
  /\ persisted lossy_end.2 = {[ 1 := lossy_record ]} /\ script lossy_end.2 = [].
Proof. split_and!; vm_compute; reflexivity. Qed.

Lemma lossy_log : keyed (persisted lossy_end.2) /\ spans (persisted lossy_end.2) 1 (durable_high lossy_end.1 + 1).
Proof.
  destruct lossy_state as (_ & -> & _ & -> & _). split.
  - intros q r. rewrite lookup_singleton_Some. by intros [<- <-].
  - split; [lia|done|]. intros q. destruct (decide (q = 1)) as [->|Hne].
    + rewrite lookup_singleton_eq. split; [lia|by eexists].
    + rewrite lookup_singleton_ne by done. split; [by intros [? ?]|lia].
Qed.

Lemma lossy_reads : is_Some (list_audit_tail 1 lossy_end.2).1.
Proof. cbn [list_audit_tail scripted_store fst]. unfold fault. destruct lossy_state as (_ & _ & _ & _ & ->). by eexists. Qed.

Lemma lossy_high : 0 <= durable_high lossy_end.1.
Proof. by destruct lossy_state as (_ & -> & _). Qed.

Lemma a_lost_acknowledgement_detaches_the_store_witness :
  sink lossy_end.1 = true
  /\ exists g' s', durable_write_through id_hash 1 lossy_end.1 lossy_end.2 = (g', s') /\ sink g' = false
       /\ persisted s' = persisted lossy_end.2 /\ forall l, (audit_ops id_hash l (g', s')).2 = s'.
Proof.
  split; [exact (proj1 (proj2 (proj2 lossy_state)))|].
  exact (a_lost_acknowledgement_detaches_the_store id_hash 1 1 lossy_end.1 lossy_end.2 (proj1 lossy_state)
    (proj1 lossy_log) (proj2 lossy_log) lossy_high lossy_reads).
Defined.
