(* ===== verification/Revocation.v ===== *)
(** * Revocation: the denylist and its refresh (governance/revocation.rs, governance/state.rs)

    The set a token's subject is checked against is a cache of the store's denylist.  Requests never read
    the store: a stale set has a refresh scheduled, by at most one of them.  Every access to an atomic is
    a step, so any number of requests and refreshes interleave. *)

From S2P Require Import Prelude.

#[local] Open Scope Z_scope.

Definition REVOCATION_SYNC_TTL_SECS : Z := 5.

Record RevocationSync := mkSync {
  set : gset string;
  synced_at : Z;
  attempted_at : Z;
  inflight : bool;
}.

Definition RevocationSync_new (initial : gset string) (now : Z) : RevocationSync := mkSync initial now now false.

Definition is_denied (sub : string) (n : RevocationSync) : bool := bool_decide (sub ∈ set n).
Definition insert_sub (sub : string) (n : RevocationSync) : RevocationSync :=
  mkSync ({[sub]} ∪ set n) (synced_at n) (attempted_at n) (inflight n).

Definition set_attempted now n := mkSync (set n) (synced_at n) now (inflight n).
Definition set_inflight b n := mkSync (set n) (synced_at n) (attempted_at n) b.
Definition extend_set subs n := mkSync (subs ∪ set n) (synced_at n) (attempted_at n) (inflight n).
Definition raise_synced now n := mkSync (set n) (Z.max (synced_at n) now) (attempted_at n) (inflight n).

(** What [list_denylist] may do: answer, fail, panic. *)
Inductive StoreAnswer := Listed (subs : gset string) | Failed | Panicked.

(** [now.saturating_sub(t) < TTL] *)
Definition fresh (now t : Z) : bool := Z.max 0 (now - t) <? REVOCATION_SYNC_TTL_SECS.

(** Where a call of [refresh_if_stale], and the refresh it schedules, stands. *)
Inductive Task :=
  | TStart (now : Z)
  | TAttempt (now : Z)
  | TClaim (now attempted : Z)
  | TBound (now : Z)
  | TRead (now : Z)
  | TRelease (now : Z) (r : option (gset string))
  | TMerge (now : Z) (subs : gset string)
  | TStamp (now : Z)
  | TDone.

(** The next access of a task; [answer] is what the store does if the task calls it. *)
Definition advance (t : Task) (answer : StoreAnswer) (n : RevocationSync) : Task * RevocationSync :=
  match t with
  | TStart now => (if fresh now (synced_at n) then TDone else TAttempt now, n)
  | TAttempt now => (if fresh now (attempted_at n) then TDone else TClaim now (attempted_at n), n)
  | TClaim now attempted =>
      if attempted_at n =? attempted then (TBound now, set_attempted now n) else (TDone, n)
  | TBound now => if inflight n then (TDone, n) else (TRead now, set_inflight true n)
  | TRead now =>
      match answer with
      | Listed subs => (TRelease now (Some subs), n)
      | Failed => (TRelease now None, n)
      | Panicked => (TDone, n)
      end
  | TRelease now r =>
      (match r with Some subs => TMerge now subs | None => TDone end, set_inflight false n)
  | TMerge now subs => (TStamp now, extend_set subs n)
  | TStamp now => (TDone, raise_synced now n)
  | TDone => (TDone, n)
  end.

(** A task alone, to its end: without a runtime the refresh runs inline. *)
Definition run_task (t : Task) (answer : StoreAnswer) (n : RevocationSync) : Task * RevocationSync :=
  Nat.iter 8 (fun '(t, n) => advance t answer n) (t, n).

Definition refresh_if_stale (now : Z) (answer : StoreAnswer) (n : RevocationSync) : RevocationSync :=
  (run_task (TStart now) answer n).2.

Definition refresh_blocking (now : Z) (answer : StoreAnswer) (n : RevocationSync) : RevocationSync :=
  (run_task (TRead now) answer n).2.

Definition is_revoked_at (sub : string) (now : Z) (answer : StoreAnswer) (n : RevocationSync) : bool * RevocationSync :=
  let n := refresh_if_stale now answer n in (is_denied sub n, n).

(** ** Many of them *)

(** [denied] is the store's denylist, each subject with when it was first written; [reads] are the reads
    begun, each by the time its request came with. *)
Record Fleet := mkFleet {
  node : RevocationSync;
  tasks : list Task;
  denied : gmap string Z;
  clock : Z;
  reads : list Z;
}.

Inductive fleet_step : Fleet -> Fleet -> Prop :=
  | step_request now y : now <= clock y ->
      fleet_step y (mkFleet (node y) (TStart now :: tasks y) (denied y) (clock y) (reads y))
  | step_task i t answer t' n' y :
      tasks y !! i = Some t -> advance t answer (node y) = (t', n') ->
      (forall subs, answer = Listed subs -> subs = dom (denied y)) ->
      fleet_step y (mkFleet n' (<[i := t']> (tasks y)) (denied y) (clock y)
                      (match t' with TRead now => match t with TBound _ => now :: reads y | _ => reads y end | _ => reads y end))
  | step_deny sub y : denied y !! sub = None ->
      fleet_step y (mkFleet (node y) (tasks y) (<[sub := clock y]> (denied y)) (clock y) (reads y))
  | step_insert sub y : is_Some (denied y !! sub) ->
      fleet_step y (mkFleet (insert_sub sub (node y)) (tasks y) (denied y) (clock y) (reads y))
  | step_tick y : fleet_step y (mkFleet (node y) (tasks y) (denied y) (clock y + 1) (reads y)).

(** ** One slot of the task list *)

Lemma slot {A} (l : list A) i x y : l !! i = Some x -> exists l1 l2, l = l1 ++ x :: l2 /\ <[i := y]> l = l1 ++ y :: l2.
Proof.
  intros Hi. exists (take i l), (drop (S i) l). split; [by rewrite take_drop_middle|].
  rewrite insert_take_drop; [done|]. by eapply lookup_lt_Some.
Qed.

(** ** At most one read, and not too often *)

Definition reading (t : Task) : nat := match t with TRead _ | TRelease _ _ => 1 | _ => 0 end.
Definition readers (l : list Task) : nat := sum_list_with reading l.

Definition bound_now (t : Task) : option Z := match t with TBound now => Some now | _ => None end.

(** The reads begun and the ones about to be. *)
Definition starts (y : Fleet) : list Z := omap bound_now (tasks y) ++ reads y.

Record bounded (y : Fleet) : Prop := {
  bo_readers : (readers (tasks y) <= if inflight (node y) then 1 else 0)%nat;
  bo_claims : forall now a, TClaim now a ∈ tasks y -> a + REVOCATION_SYNC_TTL_SECS <= now;
  bo_nodup : NoDup (starts y);
  bo_apart : forall a b, a ∈ starts y -> b ∈ starts y -> a <> b -> REVOCATION_SYNC_TTL_SECS <= Z.abs (a - b);
  bo_last : forall a, a ∈ starts y -> a <= attempted_at (node y);
}.

Lemma readers_slot l1 t l2 : readers (l1 ++ t :: l2) = (readers l1 + reading t + readers l2)%nat.
Proof. unfold readers. rewrite sum_list_with_app. simpl. lia. Qed.

Lemma starts_slot l1 t l2 rs : omap bound_now (l1 ++ t :: l2) ++ rs ≡ₚ option_list (bound_now t) ++ omap bound_now (l1 ++ l2) ++ rs.
Proof.
  rewrite !omap_app. simpl. destruct (bound_now t); simpl; [|done]. rewrite <- !(assoc_L (++)). simpl. by rewrite <- Permutation_middle.
Qed.

Lemma bounded_like y y' :
  (readers (tasks y') <= if inflight (node y') then 1 else 0)%nat ->
  (forall now a, TClaim now a ∈ tasks y' -> a + REVOCATION_SYNC_TTL_SECS <= now) ->
  starts y' ⊆+ starts y -> attempted_at (node y) <= attempted_at (node y') -> bounded y -> bounded y'.
Proof.
  intros Hr Hc Hp Ha [_ _ Hn Hap Hl]. assert (Hin : forall a, a ∈ starts y' -> a ∈ starts y) by (intros a Hx; by eapply elem_of_submseteq).
  assert (Hn' : NoDup (starts y')) by (apply submseteq_Permutation in Hp as [k Hk]; rewrite Hk in Hn; by apply NoDup_app in Hn as [? _]).
  split; [done|done|done|intros a b Hx Hy; apply Hap; by apply Hin|].
  intros a Hx. specialize (Hl a (Hin a Hx)). lia.
Qed.

Lemma not_fresh now t : fresh now t = false -> t + REVOCATION_SYNC_TTL_SECS <= now.
Proof. unfold fresh, REVOCATION_SYNC_TTL_SECS. intros H%Z.ltb_ge. lia. Qed.

Lemma slot_bounded i t t' n' rs' y d c :
  tasks y !! i = Some t -> bounded y ->
  (forall r, r + reading t <= (if inflight (node y) then 1 else 0) -> r + reading t' <= if inflight n' then 1 else 0)%nat ->
  (forall now a, t' = TClaim now a -> a + REVOCATION_SYNC_TTL_SECS <= now) ->
  option_list (bound_now t') ++ rs' ⊆+ option_list (bound_now t) ++ reads y ->
  attempted_at (node y) <= attempted_at n' ->
  bounded (mkFleet n' (<[i := t']> (tasks y)) d c rs').
Proof.
  intros Hi Hb Hr' Hc' Hp Ha. destruct (slot (tasks y) i t t' Hi) as (l1 & l2 & E1 & E2).
  pose proof (bo_readers _ Hb) as Hr. rewrite E1, readers_slot in Hr.
  apply (bounded_like y); cbn [node tasks]; [| | |exact Ha|exact Hb].
  - rewrite E2, readers_slot. specialize (Hr' (readers l1 + readers l2)%nat). lia.
  - intros now a. rewrite E2, elem_of_app, elem_of_cons. intros [Hin|[<-|Hin]]; [|by apply Hc'|];
      apply (bo_claims _ Hb); rewrite E1; set_solver.
  - unfold starts. cbn [tasks reads]. rewrite E2, E1. rewrite (starts_slot l1 t'), (starts_slot l1 t).
    rewrite !(assoc_L (++)), (comm (++) (option_list (bound_now t')) (omap bound_now (l1 ++ l2))),
      (comm (++) (option_list (bound_now t)) (omap bound_now (l1 ++ l2))), <- !(assoc_L (++)). by apply submseteq_skips_l.
Qed.

(** A claim that wins is later than every read before it by a window. *)
Lemma claim_bounded i now y d c :
  tasks y !! i = Some (TClaim now (attempted_at (node y))) -> bounded y ->
  bounded (mkFleet (set_attempted now (node y)) (<[i := TBound now]> (tasks y)) d c (reads y)).
Proof.
  intros Hi Hb. destruct (slot (tasks y) i _ (TBound now) Hi) as (l1 & l2 & E1 & E2).
  assert (Hlate : attempted_at (node y) + REVOCATION_SYNC_TTL_SECS <= now).
  { apply (bo_claims _ Hb). by eapply list_elem_of_lookup_2. }
  destruct Hb as [Hr Hc Hn Hap Hl]. unfold REVOCATION_SYNC_TTL_SECS in *.
  assert (Hp : starts (mkFleet (set_attempted now (node y)) (<[i := TBound now]> (tasks y)) d c (reads y)) ≡ₚ now :: starts y).
  { unfold starts. cbn [tasks reads]. rewrite E2, E1, (starts_slot l1 (TBound now)), (starts_slot l1 (TClaim _ _)). done. }
  split; cbn [node tasks set_attempted attempted_at inflight].
  - rewrite E1, readers_slot in Hr. rewrite E2, readers_slot. exact Hr.
  - intros n a. rewrite E2, elem_of_app, elem_of_cons. intros [Hin|[?|Hin]]; [|done|]; apply Hc; rewrite E1; set_solver.
  - rewrite Hp. constructor; [|exact Hn]. intros Hin. specialize (Hl now Hin). lia.
  - intros a b. rewrite !Hp, !elem_of_cons. intros [->|Ha] [->|Hb'] Hne; [done| | |by apply Hap].
    + specialize (Hl b Hb'). unfold REVOCATION_SYNC_TTL_SECS. lia.
    + specialize (Hl a Ha). unfold REVOCATION_SYNC_TTL_SECS. lia.
  - intros a. rewrite Hp, elem_of_cons. intros [->|Ha]; [lia|]. specialize (Hl a Ha). lia.
Qed.

Lemma step_bounded y y' : fleet_step y y' -> bounded y -> bounded y'.
Proof.
  intros Hs Hb. destruct Hs as [now y Hnow|i t answer t' n' y Hi Had Hans|sub y Hsub|sub y Hsub|y]; cbn [node tasks];
    try (apply (bounded_like y); [apply (bo_readers _ Hb)| |done|done|done]; cbn [tasks]; by apply (bo_claims _ Hb)).
  - apply (bounded_like y); [apply (bo_readers _ Hb)| |done|done|done]. cbn [tasks].
    intros n a [?|Hin]%elem_of_cons; [done|by apply (bo_claims _ Hb)].
  - destruct t as [now|now|now a|now|now|now r|now subs|now|]; cbn [advance] in Had.
    + destruct (fresh _ _); simplify_eq; by eapply slot_bounded.
    + destruct (fresh _ _) eqn:Ef; simplify_eq; eapply slot_bounded; try done. intros n a [= <- <-]. by apply not_fresh.
    + destruct (Z.eqb_spec (attempted_at (node y)) a) as [<-|]; simplify_eq; [by apply claim_bounded|by eapply slot_bounded].
    + destruct (inflight (node y)) eqn:Ef; simplify_eq; eapply slot_bounded; try done; rewrite ?Ef; simpl; [by apply (submseteq_inserts_l [_])|intros; lia].
    + destruct answer; simplify_eq; eapply slot_bounded; try done; simpl; intros; lia.
    + destruct r; simplify_eq; eapply slot_bounded; try done; simpl; intros r; destruct (inflight (node y)); lia.
    + simplify_eq. by eapply slot_bounded.
    + simplify_eq. by eapply slot_bounded.
    + simplify_eq. by eapply slot_bounded.
Qed.

(** ** Freshness *)

Definition known (d : gmap string Z) (time : Z) (s : gset string) : Prop :=
  forall x t, d !! x = Some t -> t < time -> x ∈ s.

Definition task_now (t : Task) : option Z :=
  match t with
  | TStart now | TAttempt now | TClaim now _ | TBound now | TRead now | TRelease now _ | TMerge now _ | TStamp now => Some now
  | TDone => None
  end.

(** What a task carries, or has already merged. *)
Definition task_knows (d : gmap string Z) (s : gset string) (t : Task) : Prop :=
  match t with
  | TRelease now (Some subs) | TMerge now subs => known d now subs
  | TStamp now => known d now s
  | _ => True
  end.

Record current (y : Fleet) : Prop := {
  cu_denied : forall x t, denied y !! x = Some t -> t <= clock y;
  cu_now : forall t now, t ∈ tasks y -> task_now t = Some now -> now <= clock y;
  cu_stamp : synced_at (node y) <= clock y;
  cu_synced : known (denied y) (synced_at (node y)) (set (node y));
  cu_tasks : forall t, t ∈ tasks y -> task_knows (denied y) (set (node y)) t;
}.

Lemma known_more d time s s' : s ⊆ s' -> known d time s -> known d time s'.
Proof. intros Hs Hk x t Hx Ht. apply Hs. by eapply Hk. Qed.

Lemma task_knows_more d s s' t : s ⊆ s' -> task_knows d s t -> task_knows d s' t.
Proof. intros Hs. destruct t as [| | | | |? [?|]| | |]; simpl; try done. by apply known_more. Qed.

Lemma known_deny d time s sub now : time <= now -> known d time s -> known (<[sub := now]> d) time s.
Proof. intros Hn Hk x t. rewrite lookup_insert_Some. intros [[<- <-]|[_ Hx]] Ht; [lia|by eapply Hk]. Qed.

Lemma advance_current i t answer t' n' y :
  tasks y !! i = Some t -> advance t answer (node y) = (t', n') ->
  (forall subs, answer = Listed subs -> subs = dom (denied y)) -> current y ->
  set (node y) ⊆ set n' /\ synced_at n' <= clock y /\ known (denied y) (synced_at n') (set n')
  /\ task_knows (denied y) (set n') t' /\ (forall now, task_now t' = Some now -> now <= clock y).
Proof.
  intros Hi Had Hans [Hd Hn Hst Hsy Hts]. apply list_elem_of_lookup_2 in Hi. specialize (Hts t Hi).
  assert (Hnow : forall now, task_now t = Some now -> now <= clock y) by (intros; by eapply Hn).
  destruct t as [now|now|now a|now|now|now r|now subs|now|]; cbn [advance] in Had.
  - destruct (fresh _ _); simplify_eq; naive_solver.
  - destruct (fresh _ _); simplify_eq; naive_solver.
  - destruct (_ =? _); simplify_eq; naive_solver.
  - destruct (inflight _); simplify_eq; naive_solver.
  - destruct answer as [subs| |]; simplify_eq; [|naive_solver..]. rewrite (Hans _ eq_refl). split_and!; try done.
    intros x t Hx _. apply elem_of_dom. by eexists.
  - destruct r; simplify_eq; naive_solver.
  - simplify_eq. cbn [task_knows] in Hts. cbn [extend_set set synced_at]. split_and!; [set_solver|done| | |naive_solver].
    + eapply known_more; [|exact Hsy]. set_solver.
    + simpl. eapply known_more; [|exact Hts]. set_solver.
  - simplify_eq. cbn [task_knows] in Hts. cbn [raise_synced set synced_at]. specialize (Hnow now eq_refl).
    split_and!; [done|lia| |done|done]. intros x t Hx Ht. destruct (decide (t < now)); [by eapply Hts|eapply Hsy; [exact Hx|lia]].
  - simplify_eq. naive_solver.
Qed.

Lemma step_current y y' : fleet_step y y' -> current y -> current y' /\ set (node y) ⊆ set (node y').
Proof.
  intros Hs Hc. pose proof Hc as [Hd Hn Hst Hsy Hts].
  destruct Hs as [now y Hnow|i t answer t' n' y Hi Had Hans|sub y Hsub|sub y Hsub|y].
  - split; [|done]. split; cbn [node tasks denied clock]; try done.
    + intros t n [->|Ht]%elem_of_cons Hx; [by simplify_eq/=|by eapply Hn].
    + intros t [->|Ht]%elem_of_cons; [done|by apply Hts].
  - destruct (advance_current _ _ _ _ _ _ Hi Had Hans Hc) as (Hg & Hst' & Hsy' & Hk & Hn').
    destruct (slot (tasks y) i t t' Hi) as (l1 & l2 & E1 & E2).
    assert (Hin : forall x, x ∈ <[i := t']> (tasks y) -> x = t' \/ x ∈ tasks y) by (intros x; rewrite E2, E1; set_solver).
    split; [|exact Hg]. split; cbn [node tasks denied clock]; try done.
    + intros x now [->|Hx]%Hin; [by apply Hn'|by apply Hn].
    + intros x [->|Hx]%Hin; [done|]. eapply task_knows_more; [exact Hg|by apply Hts].
  - split; [|done]. split; cbn [node tasks denied clock]; try done.
    + intros x t. rewrite lookup_insert_Some. intros [[_ <-]|[_ Hx]]; [lia|by eapply Hd].
    + by apply known_deny.
    + intros t Ht. specialize (Hts t Ht). assert (Htn : forall now, task_now t = Some now -> now <= clock y) by (intros; by eapply Hn).
      destruct t as [| | | | |now [subs|]|now subs|now|]; simpl in *; try done; apply known_deny; auto.
  - split; [|cbn; set_solver]. split; cbn [node tasks denied clock insert_sub set synced_at]; try done.
    + eapply known_more; [|exact Hsy]. set_solver.
    + intros t Ht. eapply task_knows_more; [|by apply Hts]. cbn. set_solver.
  - split; [|done]. split; cbn [node tasks denied clock]; try done; try lia.
    + intros x t Hx. specialize (Hd x t Hx). lia.
    + intros t n Ht Hx. specialize (Hn t n Ht Hx). lia.
Qed.

(** A node that has just read the store's denylist. *)
Definition booted (initial : gset string) (d : gmap string Z) (now : Z) : Fleet :=
  mkFleet (RevocationSync_new initial now) [] d now [].

Lemma booted_ok initial d now :
  (forall x t, d !! x = Some t -> t <= now) -> known d now initial -> current (booted initial d now) /\ bounded (booted initial d now).
Proof.
  intros Hd Hk. split; split; cbn; try done; try (by intros ? ? ?%not_elem_of_nil); try (by intros ? ?%not_elem_of_nil). constructor.
Qed.

Lemma fleet_steps_ok y z : rtc fleet_step y z -> current y -> bounded y -> current z /\ bounded z /\ set (node y) ⊆ set (node z).
Proof.
  induction 1 as [y|y y' z Hs _ IH]; intros Hc Hb; [done|].
  destruct (step_current _ _ Hs Hc) as [Hc' Hg]. destruct (IH Hc' (step_bounded _ _ Hs Hb)) as (? & ? & ?).
  split_and!; [done..|]. by transitivity (set (node y')).
Qed.

(** C37. What the sync stamp promises.  However requests, refreshes, local revocations, other nodes'
    revocations and store failures interleave: a subject that anyone denied in the store before the
    time of the node's last successful sync is refused by this node, and a subject once refused is
    refused for good. *)
Theorem a_synced_denial_is_refused initial d now y z :
  (forall x t, d !! x = Some t -> t <= now) -> known d now initial ->
  rtc fleet_step (booted initial d now) y -> rtc fleet_step y z ->
  (forall sub t, denied y !! sub = Some t -> t < synced_at (node y) -> is_denied sub (node y) = true)
  /\ forall sub, is_denied sub (node y) = true -> is_denied sub (node z) = true.
Proof.
  intros Hd Hk Hy Hz. destruct (booted_ok initial d now Hd Hk) as [Hc Hb]. destruct (fleet_steps_ok _ _ Hy Hc Hb) as (Hcy & Hby & _).
  destruct (fleet_steps_ok _ _ Hz Hcy Hby) as (_ & _ & Hg). unfold is_denied. split.
  - intros sub t Hs Ht. apply bool_decide_true. by eapply (cu_synced _ Hcy).
  - intros sub Hs%bool_decide_eq_true. apply bool_decide_true. by apply Hg.
Qed.

(** One read at a time.  Whatever interleaves and however long a read takes, at most one task is in
    the store, and the reads that were begun came with times a staleness window or more apart. *)
Theorem one_denylist_read_per_window initial d now y :
  (forall x t, d !! x = Some t -> t <= now) -> known d now initial ->
  rtc fleet_step (booted initial d now) y ->
  (readers (tasks y) <= 1)%nat /\ NoDup (reads y)
  /\ forall a b, a ∈ reads y -> b ∈ reads y -> a <> b -> REVOCATION_SYNC_TTL_SECS <= Z.abs (a - b).
Proof.
  intros Hd Hk Hy. destruct (booted_ok initial d now Hd Hk) as [Hc Hb]. destruct (fleet_steps_ok _ _ Hy Hc Hb) as (_ & [Hr _ Hn Hap _] & _).
  split; [destruct (inflight (node y)); lia|]. unfold starts in *. apply NoDup_app in Hn as (_ & _ & Hn). split; [done|].
  intros a b Ha Hb'. apply Hap; apply elem_of_app; by right.
Qed.

(** ** What goes wrong *)

Lemma stuck_step y y' :
  fleet_step y y' -> inflight (node y) = true -> readers (tasks y) = 0%nat ->
  inflight (node y') = true /\ readers (tasks y') = 0%nat /\ reads y' = reads y.
Proof.
  intros Hs Hf Hr. destruct Hs as [now y Hnow|i t answer t' n' y Hi Had Hans|sub y Hsub|sub y Hsub|y]; try done.
  destruct (slot (tasks y) i t t' Hi) as (l1 & l2 & E1 & E2). rewrite E1, readers_slot in Hr. cbn [node tasks reads].
  rewrite E2, readers_slot. destruct t as [now|now|now a|now|now|now r|now subs|now|]; cbn [advance reading] in *; try lia;
    [destruct (fresh _ _)|destruct (fresh _ _)|destruct (_ =? _)|rewrite Hf in Had| | |]; simplify_eq; simpl; split_and!; try done; lia.
Qed.

(** A panicking store ends the refreshes.  When a read of the denylist panics instead of failing, the
    flag that bounds the reads stays set with nobody left to clear it: no read is ever begun again, and
    no other node's later revocation is ever seen here. *)
Theorem a_panicking_read_is_the_last initial d now y i t z :
  (forall x t, d !! x = Some t -> t <= now) -> known d now initial ->
  rtc fleet_step (booted initial d now) y -> tasks y !! i = Some (TRead t) ->
  rtc fleet_step (mkFleet (advance (TRead t) Panicked (node y)).2 (<[i := TDone]> (tasks y)) (denied y) (clock y) (reads y)) z ->
  inflight (node z) = true /\ readers (tasks z) = 0%nat /\ reads z = reads y.
Proof.
  intros Hd Hk Hy Hi Hz. destruct (booted_ok initial d now Hd Hk) as [Hc Hb]. destruct (fleet_steps_ok _ _ Hy Hc Hb) as (_ & [Hr _ _ _ _] & _).
  destruct (slot (tasks y) i _ TDone Hi) as (l1 & l2 & E1 & E2). rewrite E1, readers_slot in Hr. cbn [reading] in Hr.
  assert (Hf : inflight (node y) = true) by (destruct (inflight (node y)); [done|lia]). rewrite Hf in Hr.
  assert (Hgen : forall a b, rtc fleet_step a b -> inflight (node a) = true -> readers (tasks a) = 0%nat ->
    inflight (node b) = true /\ readers (tasks b) = 0%nat /\ reads b = reads a).
  { induction 1 as [a|a a' b Hs _ IH]; [done|]. intros H1 H2. destruct (stuck_step _ _ Hs H1 H2) as (H3 & H4 & H5).
    destruct (IH H3 H4) as (? & ? & ->). done. }
  apply (Hgen _ _ Hz); cbn [node tasks advance snd]; [done|]. rewrite E2, readers_slot. cbn [reading]. lia.
Qed.

Lemma ticks y k : rtc fleet_step y (mkFleet (node y) (tasks y) (denied y) (clock y + Z.of_nat k) (reads y)).
Proof.
  induction k as [|k IH]; [rewrite Z.add_0_r; by destruct y|]. eapply rtc_r; [exact IH|].
  replace (clock y + Z.of_nat (S k)) with (clock y + Z.of_nat k + 1) by lia.
  exact (step_tick (mkFleet (node y) (tasks y) (denied y) (clock y + Z.of_nat k) (reads y))).
Qed.

(** The request path's own accesses, up to the read it leaves to others. *)
Lemma request_leaves_a_read y :
  tasks y = [] -> fresh (clock y) (synced_at (node y)) = false -> fresh (clock y) (attempted_at (node y)) = false ->
  inflight (node y) = false ->
  rtc fleet_step y (mkFleet (set_inflight true (set_attempted (clock y) (node y))) [TRead (clock y)] (denied y) (clock y) (clock y :: reads y)).
Proof.
  intros Ht Hs Ha Hf. destruct y as [n ts d c rs]. cbn [tasks node clock] in *. subst ts. set (a := attempted_at n) in *.
  eapply rtc_l; [apply (step_request c); cbn; lia|]. cbn [node tasks denied clock reads].
  eapply rtc_l; [apply (step_task 0 (TStart c) Failed (TAttempt c) n); [done|by cbn; rewrite Hs|done]|].
  eapply rtc_l; [apply (step_task 0 (TAttempt c) Failed (TClaim c a) n); [done|by cbn; fold a; rewrite Ha|done]|].
  eapply rtc_l; [apply (step_task 0 (TClaim c a) Failed (TBound c) (set_attempted c n)); [done|by cbn; fold a; rewrite Z.eqb_refl|done]|].
  eapply rtc_l; [apply (step_task 0 (TBound c) Failed (TRead c) (set_inflight true (set_attempted c n))); [done|by cbn; rewrite Hf|done]|].
  apply rtc_refl.
Qed.

(** How old a set may be.  A token revoked by another node is accepted by an idle node however long
    ago that was: a request that comes any time after, past the staleness window, does schedule a read,
    and is itself answered from the set the node had at boot. *)
Theorem an_idle_node_accepts_a_dead_token (sub : string) (gap : nat) :
  REVOCATION_SYNC_TTL_SECS <= Z.of_nat gap ->
  exists y, rtc fleet_step (booted ∅ ∅ 0) y /\ clock y = Z.of_nat gap /\ denied y !! sub = Some 0
            /\ tasks y = [TRead (Z.of_nat gap)] /\ is_denied sub (node y) = false.
Proof.
  intros Hgap. set (y0 := booted ∅ ∅ 0). assert (Hdeny : fleet_step y0 (mkFleet (node y0) [] {[sub := 0]} 0 [])).
  { exact (step_deny sub y0 (lookup_empty _)). }
  assert (Hf : fresh (Z.of_nat gap) 0 = false) by (apply Z.ltb_ge; lia).
  eexists. split; [eapply rtc_l; [exact Hdeny|]; etrans; [apply (ticks _ gap)|]; by apply request_leaves_a_read|].
  cbn [clock denied tasks node]. rewrite Z.add_0_l. split_and!; [done|apply lookup_singleton_eq|done|].
  unfold is_denied. by apply bool_decide_false.
Qed.

(** ** One request alone *)

(** A stale node with a store that answers: the set takes the denylist in, and the stamp moves. *)
Lemma inline_refresh now subs n :
  fresh now (synced_at n) = false -> fresh now (attempted_at n) = false -> inflight n = false ->
  refresh_if_stale now (Listed subs) n = mkSync (subs ∪ set n) (Z.max (synced_at n) now) now false.
Proof.
  intros Hs Ha Hf. destruct n as [s sy at_ inf]. cbn [synced_at attempted_at inflight] in *. subst inf.
  unfold refresh_if_stale, run_task. cbn. rewrite Hs. cbn. rewrite Ha. cbn. by rewrite Z.eqb_refl.
Qed.

(** ** Witnesses *)

Definition demo_denied : gmap string Z := {[ "vk_a" := 3 ]}.

Lemma demo_times : forall x t, demo_denied !! x = Some t -> t <= 10.
Proof. intros x t. unfold demo_denied. rewrite lookup_singleton_Some. intros [_ <-]. lia. Qed.

Lemma demo_known : known demo_denied 10 {["vk_a"]}.
Proof. intros x t. unfold demo_denied. rewrite lookup_singleton_Some. intros [<- _] _. set_solver. Qed.

(** A peer denies another subject, a request comes a window later, its refresh goes through. *)
Definition demo_stale : Fleet :=
  mkFleet (RevocationSync_new {["vk_a"]} 10) [] (<["vk_b" := 10]> demo_denied) (10 + Z.of_nat 6) [].
Definition demo_reading : Fleet :=
  mkFleet (set_inflight true (set_attempted 16 (node demo_stale))) [TRead 16] (denied demo_stale) 16 [16].
Definition demo_synced : Fleet :=
  mkFleet (mkSync (dom (denied demo_stale) ∪ {["vk_a"]}) 16 16 false) [TDone] (denied demo_stale) 16 [16].

Lemma demo_run1 : rtc fleet_step (booted {["vk_a"]} demo_denied 10) demo_reading.
Proof.
  eapply rtc_l; [exact (step_deny "vk_b" (booted {["vk_a"]} demo_denied 10) eq_refl)|].
  etrans; [apply (ticks _ 6)|]. exact (request_leaves_a_read demo_stale eq_refl eq_refl eq_refl eq_refl).
Qed.

Lemma demo_run2 : rtc fleet_step demo_reading demo_synced.
Proof.
  set (subs := dom (denied demo_stale)).
  eapply rtc_l; [apply (step_task 0 (TRead 16) (Listed subs) (TRelease 16 (Some subs)) (node demo_reading)); [done|done|by intros ? [= <-]]|].
  eapply rtc_l; [eapply (step_task 0 (TRelease 16 (Some subs)) Failed (TMerge 16 subs)); [done|reflexivity|done]|].
  eapply rtc_l; [eapply (step_task 0 (TMerge 16 subs) Failed (TStamp 16)); [done|reflexivity|done]|].
  eapply rtc_l; [eapply (step_task 0 (TStamp 16) Failed TDone); [done|reflexivity|done]|]. apply rtc_refl.
Qed.

Lemma demo_run : rtc fleet_step (booted {["vk_a"]} demo_denied 10) demo_synced.
Proof. etrans; [exact demo_run1|exact demo_run2]. Qed.

Lemma a_synced_denial_is_refused_witness : is_denied "vk_b" (node demo_synced) = true.
Proof.
  apply (proj1 (a_synced_denial_is_refused {["vk_a"]} demo_denied 10 demo_synced demo_synced demo_times demo_known
    demo_run (rtc_refl _ _)) "vk_b" 10); [vm_compute; reflexivity|vm_compute; reflexivity].
Defined.

Lemma one_denylist_read_per_window_witness : reads demo_reading = [16] /\ (readers (tasks demo_reading) <= 1)%nat.
Proof.
  split; [reflexivity|]. exact (proj1 (one_denylist_read_per_window {["vk_a"]} demo_denied 10 demo_reading demo_times demo_known demo_run1)).
Defined.

Lemma a_panicking_read_is_the_last_witness :
  reads (mkFleet (node demo_reading) [TDone] (denied demo_reading) 16 [16]) = [16].
Proof.
  exact (proj2 (proj2 (a_panicking_read_is_the_last {["vk_a"]} demo_denied 10 demo_reading 0 16 _ demo_times demo_known demo_run1
    eq_refl (rtc_refl _ _)))).
Defined.

Lemma an_idle_node_accepts_a_dead_token_witness :
  exists y, rtc fleet_step (booted ∅ ∅ 0) y /\ clock y = 3600 /\ denied y !! "vk_a" = Some 0
            /\ tasks y = [TRead 3600] /\ is_denied "vk_a" (node y) = false.
Proof. apply (an_idle_node_accepts_a_dead_token "vk_a" (Z.to_nat 3600)). vm_compute. discriminate. Defined.
