(* ===== verification/AdminRate.v ===== *)
(** * AdminRate: the budget of admin mutations (admin/rate.rs, auth/mod.rs)

    Fixed one-minute windows per principal and class, spent before any handler runs.  The map is swept of
    past windows on every check; the theorem says that it counts exactly all the same. *)

From S2P Require Import Prelude.

#[local] Open Scope Z_scope.

Definition MUTATION_RATE_WINDOW_SECS : Z := 60.

Inductive MutationClass := Config | Crud | PluginInspect | Forbidden.

#[export] Instance MutationClass_eq_dec : EqDecision MutationClass.
Proof. solve_decision. Defined.

#[export] Instance MutationClass_countable : Countable MutationClass.
Proof.
  refine (inj_countable' (fun c => match c with Config => 0 | Crud => 1 | PluginInspect => 2 | Forbidden => 3 end)%nat
    (fun n => match n with 0 => Config | 1 => Crud | 2 => PluginInspect | _ => Forbidden end)%nat _).
  by intros [].
Defined.

Definition limit (c : MutationClass) : Z := match c with Config => 10 | Crud => 60 | PluginInspect => 30 | Forbidden => 0 end.

Definition label (c : MutationClass) : string :=
  match c with Config => "config" | Crud => "crud" | PluginInspect => "plugin-inspect" | Forbidden => "forbidden" end.

(** ** Classes *)

Inductive PathRule := Exact (p : string) | Prefix (p : string).

Definition PATH_ADMIN_AUTH : string := "/admin-auth".
Definition PATH_CONFIG_VALIDATE : string := "/config/validate".
Definition PATH_PLUGINS_INSPECT : string := "/plugins/inspect".

Definition CONFIG_CLASS_RULES : list PathRule :=
  [Prefix "/config/"; Exact PATH_ADMIN_AUTH; Prefix "/overlay/"; Exact "/plugins/reload"; Exact "/plugins/rollback"; Exact "/restart"].

(** The roots of the named maps (config/named_map.rs). *)
Definition named_map_roots : list string := ["/identity-providers"; "/export"].

Definition rule_matches (rel : string) (r : PathRule) : bool :=
  match r with Exact p => String.eqb rel p | Prefix p => String.prefix p rel end.

Definition classify_mutation (rel : string) : MutationClass :=
  if String.eqb rel PATH_CONFIG_VALIDATE then Crud
  else if String.eqb rel PATH_PLUGINS_INSPECT then PluginInspect
  else if existsb (fun root => String.prefix root rel) named_map_roots then Config
  else if existsb (rule_matches rel) CONFIG_CLASS_RULES then Config
  else Crud.

(** ** The limiter *)

(** Window start, attempts spent, denials audited; the counters are 32 bits wide. *)
Notation Window := (Z * Z * Z)%type.
Notation Windows := (gmap (string * MutationClass) (Z * Z * Z)).

Inductive RateCheck := Allowed | Denied (first_in_window : bool).

Definition MutationLimiter_new : Windows := ∅.

Definition window_of (now : Z) : Z := now - now mod MUTATION_RATE_WINDOW_SECS.

Definition check (principal : string) (class : MutationClass) (now : Z) (ws : Windows) : RateCheck * Windows :=
  let window := window_of now in
  let ws := filter (fun p => p.2.1.1 = window) ws in
  let '(w, spent, denied) := default (window, 0, 0) (ws !! (principal, class)) in
  if limit class <=? spent then
    let denied := (denied + 1) mod 2 ^ 32 in
    (Denied (denied =? 1), <[(principal, class) := (w, spent, denied)]> ws)
  else (Allowed, <[(principal, class) := (w, (spent + 1) mod 2 ^ 32, denied)]> ws).

(** ** The gate of the admin plane (auth/mod.rs) *)

Inductive Method := GET | HEAD | POST | PUT | PATCH | DELETE | OTHER.

Definition is_mutation (m : Method) : bool := match m with POST | PUT | PATCH | DELETE => true | _ => false end.

Inductive Gate := Pass | Forbid (audited : bool) | Limit (audited : bool).

(** After the principal is known: whether its scope allows the endpoint, then its budget. *)
Definition admin_gate (actor : string) (allowed : bool) (m : Method) (rel : string) (now : Z) (ws : Windows) : Gate * Windows :=
  if negb allowed then
    let '(r, ws) := check actor Forbidden now ws in
    (Forbid (match r with Denied true => true | _ => false end), ws)
  else if is_mutation m then
    let '(r, ws) := check actor (classify_mutation rel) now ws in
    (match r with Allowed => Pass | Denied first => Limit first end, ws)
  else (Pass, ws).

(** ** Histories *)

Record Attempt := mkAttempt { a_principal : string; a_class : MutationClass; a_now : Z }.

Fixpoint checks (l : list Attempt) (ws : Windows) : list RateCheck * Windows :=
  match l with
  | [] => ([], ws)
  | a :: l =>
      let '(r, ws) := check (a_principal a) (a_class a) (a_now a) ws in
      let '(rs, ws) := checks l ws in (r :: rs, ws)
  end.

Definition same (p : string) (c : MutationClass) (w : Z) (a : Attempt) : bool :=
  String.eqb (a_principal a) p && bool_decide (a_class a = c) && (window_of (a_now a) =? w).

(** How many attempts of a principal in a class fell in a window. *)
Definition spent_in (l : list Attempt) (p : string) (c : MutationClass) (w : Z) : Z :=
  Z.of_nat (length (List.filter (same p c w) l)).

(** What an attempt gets, from the attempts before it. *)
Definition verdict (before : list Attempt) (a : Attempt) : RateCheck :=
  let k := spent_in before (a_principal a) (a_class a) (window_of (a_now a)) in
  if k <? limit (a_class a) then Allowed else Denied (k =? limit (a_class a)).

Fixpoint verdicts (before l : list Attempt) : list RateCheck :=
  match l with [] => [] | a :: l => verdict before a :: verdicts (before ++ [a]) l end.

(** Time does not go back a window. *)
Definition in_order (l : list Attempt) : Prop := StronglySorted (fun a b => window_of (a_now a) <= window_of (a_now b)) l.

(** The counters a check in the window [w] would find. *)
Definition found (w : Z) (ws : Windows) (p : string) (c : MutationClass) : Z * Z :=
  match ws !! (p, c) with Some (w', s, d) => if w' =? w then (s, d) else (0, 0) | None => (0, 0) end.

Definition counts (before : list Attempt) (ws : Windows) : Prop :=
  forall p c w, Forall (fun a => window_of (a_now a) <= w) before ->
    found w ws p c = (Z.min (spent_in before p c w) (limit c), Z.max 0 (spent_in before p c w - limit c)).

Lemma spent_snoc l a p c w : spent_in (l ++ [a]) p c w = spent_in l p c w + if same p c w a then 1 else 0.
Proof. unfold spent_in. rewrite List.filter_app, length_app. simpl. destruct (same p c w a); simpl; lia. Qed.

Lemma spent_later l p c w w' : Forall (fun a => window_of (a_now a) <= w) l -> w < w' -> spent_in l p c w' = 0.
Proof.
  intros Hl Hw. unfold spent_in. induction Hl as [|a l Ha Hl IH]; [done|]. simpl. unfold same at 1.
  rewrite (proj2 (Z.eqb_neq (window_of (a_now a)) w')) by lia. by rewrite andb_false_r.
Qed.

Lemma spent_bound l p c w : 0 <= spent_in l p c w <= Z.of_nat (length l).
Proof. unfold spent_in. pose proof (List.filter_length_le (same p c w) l). lia. Qed.

Lemma limit_small c : 0 <= limit c < 2 ^ 32.
Proof. by destruct c. Qed.

(** The sweep leaves what the current window needs. *)
Lemma found_swept w ws p c :
  default (w, 0, 0) (filter (fun q => q.2.1.1 = w) ws !! (p, c)) = (w, (found w ws p c).1, (found w ws p c).2).
Proof.
  unfold found. rewrite map_lookup_filter. destruct (ws !! (p, c)) as [[[w' s] d]|]; [|done]. simpl.
  destruct (decide (w' = w)) as [->|Hne].
  - by rewrite option_guard_True, Z.eqb_refl.
  - by rewrite option_guard_False, (proj2 (Z.eqb_neq _ _)) by done.
Qed.

Lemma found_after w w' ws p c p' c' e :
  e.1.1 = w ->
  found w' (<[(p, c) := e]> (filter (fun q => q.2.1.1 = w) ws)) p' c'
  = if decide (w' = w) then if decide ((p', c') = (p, c)) then (e.1.2, e.2) else found w ws p' c' else (0, 0).
Proof.
  intros He. unfold found. destruct e as [[w0 s] d]. simpl in He. subst w0. destruct (decide ((p', c') = (p, c))) as [Heq|Hne].
  - simplify_eq. rewrite lookup_insert_eq. destruct (decide (w' = w)) as [->|]; [by rewrite Z.eqb_refl|].
    by rewrite (proj2 (Z.eqb_neq w w')) by done.
  - rewrite lookup_insert_ne by done. rewrite map_lookup_filter. destruct (ws !! (p', c')) as [[[w1 s1] d1]|]; simpl; [|by destruct (decide _)].
    destruct (decide (w1 = w)) as [->|Hw]; [rewrite option_guard_True by done|rewrite option_guard_False by done]; simpl.
    + destruct (decide (w' = w)) as [->|]; [by rewrite Z.eqb_refl|]. by rewrite (proj2 (Z.eqb_neq w w')) by done.
    + rewrite (proj2 (Z.eqb_neq w1 w)) by done. by destruct (decide (w' = w)).
Qed.

Lemma check_counts before a ws :
  Z.of_nat (length before) < 2 ^ 32 - 1 -> counts before ws -> Forall (fun b => window_of (a_now b) <= window_of (a_now a)) before ->
  exists ws', check (a_principal a) (a_class a) (a_now a) ws = (verdict before a, ws') /\ counts (before ++ [a]) ws'.
Proof.
  intros Hlen Hc Hb. destruct a as [p c now]. cbn [a_principal a_class a_now] in *. set (w := window_of now) in *.
  pose proof (Hc p c w Hb) as Hf. pose proof (spent_bound before p c w) as Hk. pose proof (limit_small c) as Hl.
  unfold check. fold w. rewrite found_swept, Hf. cbn [fst snd]. unfold verdict. cbn [a_principal a_class a_now]. fold w.
  set (k := spent_in before p c w) in *.
  assert (Hnext : forall e, e = (w, Z.min (k + 1) (limit c), Z.max 0 (k + 1 - limit c)) ->
    counts (before ++ [mkAttempt p c now]) (<[(p, c) := e]> (filter (fun q => q.2.1.1 = w) ws))).
  { intros e -> p' c' w' Hall. apply Forall_app in Hall as [Hall Hw']. apply Forall_cons in Hw' as [Hw' _]. cbn [a_now] in Hw'. fold w in Hw'.
    rewrite (found_after w) by done. rewrite spent_snoc. unfold same. cbn [a_principal a_class a_now]. fold w.
    destruct (decide (w' = w)) as [->|Hne].
    - rewrite Z.eqb_refl, andb_true_r. destruct (decide ((p', c') = (p, c))) as [Heq|Hneq].
      + simplify_eq. rewrite String.eqb_refl, bool_decide_true by done. done.
      + rewrite (Hc p' c' w Hb). destruct (String.eqb_spec p p') as [->|]; [|cbn; by rewrite Z.add_0_r].
        rewrite bool_decide_false by congruence. cbn. by rewrite Z.add_0_r.
    - rewrite (proj2 (Z.eqb_neq w w')) by done. rewrite andb_false_r, (spent_later before p' c' w w' Hb) by lia.
      pose proof (limit_small c'). f_equal; lia. }
  destruct (Z.ltb_spec k (limit c)) as [Hlt|Hge].
  - rewrite (proj2 (Z.leb_gt _ _)) by lia. eexists. split; [done|]. apply Hnext. rewrite Z.mod_small by lia. f_equal; [f_equal|]; lia.
  - rewrite (proj2 (Z.leb_le _ _)) by lia. rewrite Z.mod_small by lia. eexists. split.
    + f_equal. f_equal. destruct (Z.eqb_spec k (limit c)); [apply Z.eqb_eq|apply Z.eqb_neq]; lia.
    + apply Hnext. f_equal; [f_equal|]; lia.
Qed.

Lemma checks_verdicts l before ws :
  Z.of_nat (length (before ++ l)) < 2 ^ 32 -> counts before ws -> in_order (before ++ l) ->
  (checks l ws).1 = verdicts before l.
Proof.
  revert before ws. induction l as [|a l IH]; intros before ws Hlen Hc Ho; [done|]. cbn [checks verdicts].
  pose proof Ho as Hs. unfold in_order in Hs. apply StronglySorted_app in Hs as (Hba & _ & _).
  destruct (check_counts before a ws) as (ws' & -> & Hc').
  - rewrite length_app in Hlen. simpl in Hlen. lia.
  - exact Hc.
  - apply Forall_forall. intros b Hb. apply Hba; [done|by apply list_elem_of_here].
  - specialize (IH (before ++ [a]) ws'). rewrite <- (assoc_L (++)) in IH. specialize (IH Hlen Hc' Ho).
    destruct (checks l ws') as [rs ws'']. simpl in *. by rewrite IH.
Qed.

(** The budgets are exact.  Over any history in which the clock never goes back a minute, every
    attempt is judged by the number of attempts of the same principal in the same class earlier in the
    same minute, whatever else the sweeps dropped: allowed below the class's limit, refused from there
    on, and the refusal marked for the audit log exactly once, when the limit is first met. *)
Theorem mutation_budgets_are_exact (l : list Attempt) :
  in_order l -> Z.of_nat (length l) < 2 ^ 32 -> (checks l MutationLimiter_new).1 = verdicts [] l.
Proof. intros Ho Hlen. apply checks_verdicts; [done| |done]. intros p c w _. pose proof (limit_small c). unfold found. simpl. f_equal; unfold spent_in; simpl; lia. Qed.

(** ** Witness *)

Definition burst : list Attempt :=
  repeat (mkAttempt "ops" Config 61) 11 ++ [mkAttempt "ops" Config 100; mkAttempt "ci" Config 119; mkAttempt "ops" Config 120].

Lemma mutation_budgets_are_exact_witness :
  (checks burst MutationLimiter_new).1 = repeat Allowed 10 ++ [Denied true; Denied false; Allowed; Allowed].
Proof.
  transitivity (verdicts [] burst); [|vm_compute; reflexivity]. apply (mutation_budgets_are_exact burst).
  - unfold burst, in_order. cbn [repeat app]. repeat (constructor; [|repeat (constructor; [vm_compute; discriminate|]); constructor]). constructor.
  - vm_compute. reflexivity.
Defined.

(** The sweep of the class table on the paths the code names. *)
Example classes :
  classify_mutation <$> ["/config/validate"; "/config/settings"; "/plugins/inspect"; "/plugins"; "/export/otlp"; "/keys"]
  = [Crud; Config; PluginInspect; Crud; Config; Crud].
Proof. vm_compute. reflexivity. Qed.

(** A clock that steps back over a minute forgets what was spent in the minute it came from. *)
Example clock_going_back :
  (checks (repeat (mkAttempt "ops" Config 120) 10 ++ [mkAttempt "ops" Config 119; mkAttempt "ops" Config 121]) MutationLimiter_new).1
  = repeat Allowed 12.
Proof. vm_compute. reflexivity. Qed.
