(* ===== verification/AuthKeys.v ===== *)
(** * AuthKeys: signed keys and their lifecycle (governance/state.rs, governance/mod.rs, governance/signing.rs)

    A key is a row in the durable store and a token signed for its id.  A node answers from caches of the
    store that its own key operations reload; what each operation does when the store fails, with or
    without effect, is written out.  The encoders, ed25519, HMAC and the operating system's random bytes
    are parameters.  Operations are taken one at a time: the admin ones are serialized by the existence
    gate, the cache swaps by the refresh lock. *)

From Stdlib Require Import Ascii.
From stdpp Require Import pretty.
From S2P Require Import Prelude Breaker Groups MemoryStore Governance Revocation.

#[local] Open Scope Z_scope.

(** ** Strings *)

(** [s.split_once(c)] *)
Fixpoint split_once (c : Ascii.ascii) (s : string) : option (string * string) :=
  match s with
  | EmptyString => None
  | String a s => if Ascii.eqb a c then Some (EmptyString, s) else p ← split_once c s; Some (String a p.1, p.2)
  end.

Fixpoint has_char (c : Ascii.ascii) (s : string) : bool :=
  match s with EmptyString => false | String a s => Ascii.eqb a c || has_char c s end.

Lemma split_once_app c a b : has_char c a = false -> split_once c (a +:+ String c b) = Some (a, b).
Proof.
  induction a as [|x a IH].
  - intros _. change (EmptyString +:+ String c b) with (String c b). cbn [split_once]. by rewrite Ascii.eqb_refl.
  - cbn [has_char]. intros [Hx Ha]%orb_false_iff. change (String x a +:+ String c b) with (String x (a +:+ String c b)).
    cbn [split_once]. by rewrite Hx, IH.
Qed.

Lemma split_once_Some c s a b : split_once c s = Some (a, b) -> s = a +:+ String c b /\ has_char c a = false.
Proof.
  revert a. induction s as [|x s IH]; cbn [split_once]; [done|]. intros a. destruct (Ascii.eqb_spec x c) as [->|Hne]; [by intros [= <- <-]|].
  destruct (split_once c s) as [[p q]|] eqn:E; [|done]. intros [= <- <-]. cbn [fst snd String.append has_char]. destruct (IH p eq_refl) as [-> ->]. split; [done|].
  rewrite orb_false_r. by apply Ascii.eqb_neq.
Qed.

(** ** Binding markers (governance/mod.rs) *)

Definition VK_ID_PREFIX : string := "vk_".
Definition BINDING_MARKER_PREFIX : string := "binding:".
Definition SELF_KEY_GROUP_PREFIX : string := "user:".
Definition REVOCATION_DURABLE_MARKER : string := "REVOCATION APPLIED (cache reconcile degraded)".
Definition ROTATION_DURABLE_MARKER : string := "ROTATION APPLIED (new secret not returned)".

Definition binding_marker (id generation : string) : string := BINDING_MARKER_PREFIX +:+ id +:+ ":" +:+ generation.

Definition binding_generation (marker : string) : option string :=
  rest ← strip_prefix BINDING_MARKER_PREFIX marker; p ← split_once ":"%char rest; Some p.2.

Definition generation_matches (marker : string) (presented : option string) : bool :=
  bool_decide (binding_generation marker = presented).

Lemma binding_generation_marker id g : has_char ":"%char id = false -> binding_generation (binding_marker id g) = Some g.
Proof. intros Hid. unfold binding_generation, binding_marker. rewrite strip_prefix_app. cbn [mbind option_bind].
  change (":" +:+ g) with (String ":"%char g). by rewrite split_once_app. Qed.

(** ** Tokens (governance/signing.rs) *)

Definition TOKEN_PREFIX : string := "bbk_".
Definition DEFAULT_KID : string := "k1".

Record TokenClaims := mkClaims { sub : string; exp : Z; kid : string; generation : option string }.

Inductive TokenError := Malformed | UnknownKid | BadSignature | Expired.

(** Code the program only calls: base64url, serde's form of the claims, ed25519 on a 32-byte secret, the
    first half of an HMAC-SHA256 in hexadecimal, hexadecimal. *)
Class Crypto := {
  b64_encode : string -> string;
  b64_decode : string -> option string;
  claims_to_json : TokenClaims -> string;
  claims_of_json : string -> option TokenClaims;
  verifying_key : string -> string;
  sign : string -> string -> string;
  signature_ok : string -> string -> string -> bool;
  hmac_half : string -> string -> string;
  hex_encode : list Z -> string;
}.

Class CryptoLaws (C : Crypto) := {
  b64_decode_encode s : b64_decode (b64_encode s) = Some s;
  b64_no_dot s : has_char "."%char (b64_encode s) = false;
  claims_read_back c : claims_of_json (claims_to_json c) = Some c;
  sign_length k p : String.length (sign k p) = 64%nat;
  sign_verifies k p : signature_ok (verifying_key k) p (sign k p) = true;
  hmac_no_colon k m : has_char ":"%char (hmac_half k m) = false;
  hex_no_colon l : has_char ":"%char (hex_encode l) = false;
}.

Section keys.
Context {C : Crypto}.

Record TokenSigner := mkSigner { secret_bytes : string; signer_kid : string }.

Definition mint_token (s : TokenSigner) (subject : string) (expiry : Z) (gen : option string) : string :=
  let payload := claims_to_json (mkClaims subject expiry (signer_kid s) gen) in
  TOKEN_PREFIX +:+ b64_encode payload +:+ "." +:+ b64_encode (sign (secret_bytes s) payload).

Definition TokenVerifier_single (s : TokenSigner) : gmap string string := {[signer_kid s := verifying_key (secret_bytes s)]}.

(** The payload and the signature of a token's text. *)
Definition token_parts (token : string) : option (string * string) :=
  body ← strip_prefix TOKEN_PREFIX token;
  p ← split_once "."%char body;
  payload ← b64_decode p.1;
  signature ← b64_decode p.2;
  if (String.length signature =? 64)%nat then Some (payload, signature) else None.

Definition verify (vks : gmap string string) (token : string) (now : Z) : Result TokenClaims TokenError :=
  match token_parts token with
  | None => Err Malformed
  | Some (payload, signature) =>
      match claims_of_json payload with
      | None => Err Malformed
      | Some claims =>
          match vks !! kid claims with
          | None => Err UnknownKid
          | Some vk =>
              if negb (signature_ok vk payload signature) then Err BadSignature
              else if exp claims <=? now then Err Expired
              else Ok claims
          end
      end
  end.

(** ** One node (governance/mod.rs) *)

Record Node := mkNode {
  by_id : gmap string VirtualKey;
  by_credential : gmap (string * string) (VirtualKey * CredentialSecret);
  revocations : RevocationSync;
  signing : option TokenSigner;
  cells : list MapShard;
}.

Definition set_caches a b (n : Node) := mkNode a b (revocations n) (signing n) (cells n).
Definition set_revocations r (n : Node) := mkNode (by_id n) (by_credential n) r (signing n) (cells n).
Definition set_signing_key s (n : Node) := mkNode (by_id n) (by_credential n) (revocations n) s (cells n).
Definition set_cells l (n : Node) := mkNode (by_id n) (by_credential n) (revocations n) (signing n) l.

(** What the request path reads of it. *)
Definition lookup_by_sub (s : string) (n : Node) : option VirtualKey := by_id n !! s.
Definition lookup_credential (k public_id : string) (n : Node) : option (VirtualKey * CredentialSecret) := by_credential n !! (k, public_id).

Definition current_self_binding (user_sub : string) (n : Node) : option VirtualKey :=
  List.find (fun k => key_enabled k && key_live k && bool_decide (key_group k = Some (SELF_KEY_GROUP_PREFIX +:+ user_sub)))
    (map_to_list (by_id n)).*2.

(** The staleness guard of the request path: with a runtime it schedules the re-read, whose steps are those of
    Revocation, and the request goes on with the set as it is; without one the re-read runs here. *)
Definition sync_revocations_if_stale (now : Z) (inline : option StoreAnswer) (n : Node) : Node :=
  match inline with Some answer => set_revocations (refresh_if_stale now answer (revocations n)) n | None => n end.

Definition is_revoked_at (s : string) (now : Z) (inline : option StoreAnswer) (n : Node) : bool * Node :=
  let n := sync_revocations_if_stale now inline n in (is_denied s (revocations n), n).

Definition verify_token (token : string) (now : Z) (inline : option StoreAnswer) (n : Node) : option VirtualKey * Node :=
  match signing n with
  | None => (None, n)
  | Some s =>
      match verify (TokenVerifier_single s) token now with
      | Err _ => (None, n)
      | Ok claims =>
          let n := sync_revocations_if_stale now inline n in
          (if is_denied (sub claims) (revocations n) then None
           else match lookup_by_sub (sub claims) n with
                | Some key => if key_enabled key && generation_matches (generation_hash key) (generation claims) then Some key else None
                | None => None
                end, n)
      end
  end.

(** ** The node and the store *)

(** A call of the store works, is refused, or takes effect and fails. *)
Inductive Fault := Works | Refused (e : string) | Lost (e : string).

(** [entropy] is what the operating system returns to each request for random bytes. *)
Record World := mkWorld {
  store : MemoryStore;
  node : Node;
  faults : list Fault;
  entropy : list (option (list Z));
  clock : Z;
}.

Definition set_store s (w : World) := mkWorld s (node w) (faults w) (entropy w) (clock w).
Definition set_node n (w : World) := mkWorld (store w) n (faults w) (entropy w) (clock w).
Definition set_faults l (w : World) := mkWorld (store w) (node w) l (entropy w) (clock w).
Definition set_entropy l (w : World) := mkWorld (store w) (node w) (faults w) l (clock w).

(** Programs over a world that may fail; [?] is the bind. *)
Definition M (A : Type) : Type := World -> Result A string * World.

#[global] Instance M_ret : MRet M := fun A x w => (Ok x, w).
#[global] Instance M_bind : MBind M := fun A B k m w => match m w with (Ok x, w) => k x w | (Err e, w) => (Err e, w) end.

Definition fail {A} (e : string) : M A := fun w => (Err e, w).
Definition catching {A} (m : M A) : M (Result A string) := fun w => let '(r, w) := m w in (Ok r, w).
Definition asks {A} (f : World -> A) : M A := fun w => (Ok (f w), w).
Definition modify (f : Node -> Node) : M unit := fun w => (Ok tt, set_node (f (node w)) w).

Definition call {A} (op : Z -> MemoryStore -> Result A string * MemoryStore) : M A := fun w =>
  let w' := set_faults (tail (faults w)) w in
  match default Works (head (faults w)) with
  | Works => let '(r, s) := op (clock w) (store w) in (r, set_store s w')
  | Refused e => (Err e, w')
  | Lost e => let '(_, s) := op (clock w) (store w) in (Err e, set_store s w')
  end.

Definition read {A} (f : MemoryStore -> A) : M A := call (fun _ s => (Ok (f s), s)).
Definition write (f : MemoryStore -> MemoryStore) : M unit := call (fun _ s => (Ok tt, f s)).

(** [getrandom::fill] of [len] bytes; with no entropy left the call fails. *)
Definition CSPRNG_UNAVAILABLE : string := "CSPRNG unavailable".

Definition getrandom (len : nat) : M (list Z) := fun w =>
  let w' := set_entropy (tail (entropy w)) w in
  match head (entropy w) with Some (Some l) => (Ok (take len l), w') | _ => (Err CSPRNG_UNAVAILABLE, w') end.

Definition generate_binding_generation : M string := raw ← getrandom 16; mret (hex_encode raw).

(** ** AWS credentials *)

Definition AWS_ACCESS_KEY_PREFIX : string := "AKIA".
Definition AKID_ALPHABET : string := "ABCDEFGHIJKLMNOPQRSTUVWXYZ0123456789".
Definition SECRET_ALPHABET : string := "ABCDEFGHIJKLMNOPQRSTUVWXYZabcdefghijklmnopqrstuvwxyz0123456789+/".

Definition symbol (alphabet : string) (i : Z) : string :=
  match String.get (Z.to_nat i) alphabet with Some c => String c EmptyString | None => EmptyString end.

Definition aws_access_key_id (buf : list Z) : string :=
  AWS_ACCESS_KEY_PREFIX +:+ String.concat EmptyString ((fun b => symbol AKID_ALPHABET (b mod 36)) <$> buf).

(** The six-bit groups of a 32-bit accumulator; [while bits >= 6] runs at most twice for a byte. *)
Fixpoint emit_groups (fuel : nat) (acc bits : Z) (out : string) : Z * string :=
  match fuel with
  | O => (bits, out)
  | S fuel =>
      if 6 <=? bits then emit_groups fuel acc (bits - 6) (out +:+ symbol SECRET_ALPHABET (Z.land (Z.shiftr acc (bits - 6)) 63))
      else (bits, out)
  end.

Definition secret_step (st : Z * Z * string) (b : Z) : Z * Z * string :=
  let '(acc, bits, out) := st in
  let acc := Z.lor (wrap 32 (Z.shiftl acc 8)) b in
  let '(bits, out) := emit_groups 3 acc (bits + 8) out in (acc, bits, out).

Definition aws_secret_access_key (buf : list Z) : string := (foldl secret_step (0, 0, EmptyString) buf).2.

Definition generate_aws_access_key_id : M string := buf ← getrandom 16; mret (aws_access_key_id buf).
Definition generate_aws_secret_access_key : M string := buf ← getrandom 30; mret (aws_secret_access_key buf).

(** ** The caches *)

Definition load (rows : list VirtualKey) : gmap string VirtualKey :=
  foldl (fun m k => if key_live k then <[key_id k := k]> m else m) ∅ rows.

Definition load_by_credential (creds : list CredentialSecret) (by_id : gmap string VirtualKey) (now : Z)
    : gmap (string * string) (VirtualKey * CredentialSecret) :=
  foldl (fun m c =>
    let meta := cs_meta c in
    if cred_live meta now then
      match by_id !! cm_key_id meta with Some key => <[(cm_kind meta, cm_public_id meta) := (key, c)]> m | None => m end
    else m) ∅ creds.

Definition refresh : M unit :=
  rows ← read list_keys;
  creds ← read (list_credentials_since 0);
  now ← asks clock;
  let fresh := load rows in
  modify (set_caches fresh (load_by_credential creds fresh now)).

Definition evict_key_from_caches (id : string) : M unit :=
  modify (fun n => set_caches (delete id (by_id n)) (filter (fun e => key_id e.2.1 <> id) (by_credential n)) n).

(** [self.budget.write(id).remove(id)] *)
Definition remove_cell (id : string) (l : list MapShard) : list MapShard :=
  alter (fun sh => mkShard (delete id (shard_map sh)) (sweep_ticker sh)) (shard_index id) l.

(** ** Operations

    The texts of errors are shortened; what they report is kept. *)

Record NewKeySpec := mkSpec { sp_name : string; sp_allowed_pools : option (list string); sp_group : option string; sp_labels : list (string * string) }.

Definition pool_scopes (pools : option (list string)) : option (list ScopeRef) := match pools with Some l => Some (List.map scope_pool l) | None => None end.

Definition with_binding (generation_hash : string) (enabled : bool) (k : VirtualKey) : VirtualKey :=
  mkKey (key_id k) generation_hash (key_name k) (allowed_scopes k) enabled (created_at k) (key_group k) (labels k) (expires_at k) (deleted_at k) (revision k).
Definition with_group (g : option string) (k : VirtualKey) : VirtualKey :=
  mkKey (key_id k) (generation_hash k) (key_name k) (allowed_scopes k) (key_enabled k) (created_at k) g (labels k) (expires_at k) (deleted_at k) (revision k).
Definition with_scopes (l : option (list ScopeRef)) (k : VirtualKey) : VirtualKey :=
  mkKey (key_id k) (generation_hash k) (key_name k) l (key_enabled k) (created_at k) (key_group k) (labels k) (expires_at k) (deleted_at k) (revision k).

(** The live credentials of the subject, revoked one by one: what the caches must forget. *)
Fixpoint revoke_credentials (reason : string) (l : list CredentialMeta) : M (list (string * string)) :=
  match l with
  | [] => mret []
  | c :: l =>
      if bool_decide (cm_revoked_at c = None) then
        _ ← call (fun now => MemoryStore.revoke_credential now (cm_id c) reason);
        rest ← revoke_credentials reason l; mret ((cm_kind c, cm_public_id c) :: rest)
      else revoke_credentials reason l
  end.

Definition revoke (sub reason : string) : M unit :=
  creds ← read (list_credentials sub);
  revoked_creds ← revoke_credentials reason creds;
  _ ← write (add_denylist sub);
  row ← read (get_key sub);
  new_key ← match row with
            | Some key =>
                if key_live key then
                  generation ← generate_binding_generation;
                  let key := with_binding (binding_marker (key_id key) generation) false key in
                  _ ← call (fun now => put_key now key); mret (Some key)
                else mret None
            | None => mret None
            end;
  modify (fun n =>
    let n := set_revocations (insert_sub sub (revocations n)) n in
    set_caches (match new_key with Some key => <[sub := key]> (by_id n) | None => by_id n end)
      (foldl (fun m kp => delete kp m) (by_credential n) revoked_creds) n).

Definition NO_SIGNING_KEY : string := "signed-token minting is unavailable: no signing key is configured".
Definition NO_SIGNING_KEY_ROTATE : string := "cannot rotate a signed-token key: no signing key is configured (rotation re-mints the token)".

Definition signing_material (unavailable : string) : M TokenSigner := fun w =>
  match signing (node w) with Some s => (Ok s, w) | None => (Err unavailable, w) end.

Definition fresh_id : M string := raw ← getrandom 16; mret (VK_ID_PREFIX +:+ hex_encode raw).

Definition new_binding (id generation : string) (spec : NewKeySpec) (now : Z) : VirtualKey :=
  mkKey id (binding_marker id generation) (sp_name spec) (pool_scopes (sp_allowed_pools spec)) true now (sp_group spec) (sp_labels spec) None None 0.

Definition mint_signed (spec : NewKeySpec) (exp now : Z) : M (VirtualKey * string) :=
  material ← signing_material NO_SIGNING_KEY;
  id ← fresh_id;
  generation ← generate_binding_generation;
  let binding := new_binding id generation spec now in
  _ ← call (fun t => put_key t binding);
  _ ← refresh;
  mret (binding, mint_token material id exp (Some generation)).

Definition sigv4_credential (cred_id id access_key_id secret_access_key : string) (now : Z) : CredentialSecret :=
  mkSecret (mkMeta cred_id id "sigv4" 0 access_key_id SF_Recoverable now now None None None 0) ("v1:plain:" +:+ secret_access_key).

Definition mint_signed_with_aws (spec : NewKeySpec) (exp now : Z) : M (VirtualKey * string * string * string) :=
  material ← signing_material NO_SIGNING_KEY;
  id ← fresh_id;
  generation ← generate_binding_generation;
  access_key_id ← generate_aws_access_key_id;
  secret_access_key ← generate_aws_secret_access_key;
  cred_raw ← getrandom 16;
  let binding := new_binding id generation spec now in
  _ ← call (fun t => put_key_with_credential t binding
              (sigv4_credential ("cred_" +:+ hex_encode cred_raw) id access_key_id secret_access_key now));
  _ ← refresh;
  mret (binding, mint_token material id exp (Some generation), access_key_id, secret_access_key).

Definition delete_key (id : string) : M unit :=
  _ ← call (fun now => MemoryStore.delete_key now id);
  _ ← evict_key_from_caches id;
  refreshed ← catching refresh;
  _ ← modify (fun n => set_cells (remove_cell id (cells n)) n);
  match refreshed with
  | Ok _ => mret tt
  | Err e => fail (REVOCATION_DURABLE_MARKER +:+ ": key '" +:+ id +:+ "' IS revoked (" +:+ e +:+ ")")
  end.

Definition rotate_key (id : string) (exp : Z) : M (option (VirtualKey * string * Z)) :=
  row ← read (get_key id);
  match row with
  | None => mret None
  | Some key =>
      if key_live key then
        material ← signing_material NO_SIGNING_KEY_ROTATE;
        generation ← generate_binding_generation;
        let key := with_binding (binding_marker (key_id key) generation) (key_enabled key) key in
        _ ← call (fun now => put_key now key);
        refreshed ← catching refresh;
        match refreshed with
        | Ok _ => mret (Some (key, mint_token material (key_id key) exp (Some generation), exp))
        | Err e =>
            _ ← evict_key_from_caches id;
            fail (ROTATION_DURABLE_MARKER +:+ ": key '" +:+ id +:+ "' WAS rotated (" +:+ e +:+ ")")
        end
      else mret None
  end.

Definition update_key (id : string) (enabled : option bool) (group : option (option string)) : M (option VirtualKey) :=
  row ← read (get_key id);
  match row with
  | None => mret None
  | Some key =>
      if key_live key then
        let key := match enabled with Some e => with_binding (generation_hash key) e key | None => key end in
        let key := match group with Some g => with_group g key | None => key end in
        _ ← call (fun now => put_key now key);
        _ ← refresh;
        mret (Some key)
      else mret None
  end.

(** ** Self-serve keys *)

Definition derive_self_subject (seed user_sub : string) (epoch : Z) : string :=
  VK_ID_PREFIX +:+ hmac_half seed (SELF_KEY_GROUP_PREFIX +:+ user_sub +:+ "#" +:+ pretty epoch).

Definition next_stride (stride : Z) : Z := if stride =? 0 then 1 else sat_mul stride 2.

Definition MAX_PROBES : nat := 64.

Definition NO_FREE_EPOCH : string := "self-serve binding: 64 probes all landed on tombstoned rows; refusing to reissue a deleted key id".

Fixpoint first_free_self_epoch (probes : nat) (seed user_sub : string) (from stride : Z) : M (string * Z) :=
  match probes with
  | O => fail NO_FREE_EPOCH
  | S probes =>
      let epoch := from +sat stride in
      let id := derive_self_subject seed user_sub epoch in
      row ← read (get_key id);
      if match row with Some k => negb (key_live k) | None => false end
      then first_free_self_epoch probes seed user_sub from (next_stride stride)
      else mret (id, epoch)
  end.

Definition write_self_binding (material : TokenSigner) (user_sub : string) (allowed_pools : option (list string)) (epoch exp now : Z)
    : M (VirtualKey * string) :=
  found ← first_free_self_epoch MAX_PROBES (secret_bytes material) user_sub epoch 0;
  let '(id, epoch) := (found : string * Z) in
  let generation := pretty epoch in
  let binding := mkKey id (binding_marker id generation) ("self-serve key (" +:+ user_sub +:+ ")") (pool_scopes allowed_pools)
                   true now (Some (SELF_KEY_GROUP_PREFIX +:+ user_sub)) [] None None 0 in
  _ ← call (fun t => put_key t binding);
  _ ← refresh;
  mret (binding, mint_token material id exp (Some generation)).

Definition issue_self (user_sub : string) (allowed_pools : option (list string)) (exp now : Z) : M (VirtualKey * string) :=
  material ← signing_material NO_SIGNING_KEY;
  current ← asks (fun w => current_self_binding user_sub (node w));
  match current with
  | Some existing =>
      let new_scopes := pool_scopes allowed_pools in
      if bool_decide (new_scopes = allowed_scopes existing) then
        mret (existing, mint_token material (key_id existing) exp (binding_generation (generation_hash existing)))
      else
        let updated := with_scopes new_scopes existing in
        _ ← call (fun t => put_key t updated);
        _ ← refresh;
        mret (updated, mint_token material (key_id updated) exp (binding_generation (generation_hash updated)))
  | None => write_self_binding material user_sub allowed_pools 0 exp now
  end.

(** [g.parse::<u64>().ok()]: digits, with a plus sign before them or not, within 64 bits. *)
Fixpoint digits_value (acc : Z) (l : list ascii) : option Z :=
  match l with
  | [] => Some acc
  | c :: l =>
      let d := Z.of_N (Ascii.N_of_ascii c) - 48 in
      if (0 <=? d) && (d <=? 9) then
        let acc := 10 * acc + d in if acc <=? U64_MAX then digits_value acc l else None
      else None
  end.

Definition parse_u64 (s : string) : option Z :=
  match String.list_ascii_of_string s with
  | [] => None
  | "+"%char :: [] => None
  | "+"%char :: l => digits_value 0 l
  | l => digits_value 0 l
  end.

Definition current_epoch (k : VirtualKey) : Z := default 0 (binding_generation (generation_hash k) ≫= parse_u64).

Definition refresh_self (user_sub : string) (allowed_pools : option (list string)) (exp now : Z) : M (VirtualKey * string) :=
  material ← signing_material NO_SIGNING_KEY;
  current ← asks (fun w => current_self_binding user_sub (node w));
  let '(new_epoch, old_id) :=
    match current with Some existing => (current_epoch existing +sat 1, Some (key_id existing)) | None => (0, None) end in
  out ← write_self_binding material user_sub allowed_pools new_epoch exp now;
  match old_id with
  | Some old =>
      if String.eqb old (key_id out.1) then mret out
      else
        deleted ← catching (call (fun t => MemoryStore.delete_key t old));
        match deleted with
        | Err e =>
            rolled_back ← catching (delete_key (key_id out.1));
            fail match rolled_back with
                 | Ok _ => "self-serve refresh failed to tombstone the prior binding; rolled back: " +:+ e
                 | Err r => "self-serve refresh left an INCONSISTENT store state: " +:+ e +:+ "; " +:+ r
                 end
        | Ok _ =>
            refreshed ← catching refresh;
            match refreshed with
            | Ok _ => mret out
            | Err e => _ ← evict_key_from_caches old; fail ("self-serve refresh rotated the store, but the cache reconcile failed: " +:+ e)
            end
        end
  | None => mret out
  end.

End keys.
