(* ===== verification/AuthSigV4.v ===== *)
(** * AuthSigV4: AWS signatures, made and checked (sigv4.rs, auth/mod.rs, proto/bedrock/writer.rs)

    One canonicalization serves the requests the proxy signs for an upstream and the ones a client signs
    for the proxy.  SHA-256, HMAC and hexadecimal are parameters; a byte string is a string. *)

From Stdlib Require Import Ascii.
From stdpp Require Import pretty.
From S2P Require Import Prelude Breaker Float64 Json Windows Groups MemoryStore Revocation AuthKeys.

#[local] Open Scope Z_scope.

Definition SECS_PER_DAY : Z := 86400.
Definition SECS_PER_HOUR : Z := 3600.
Definition SIGV4_ALGORITHM : string := "AWS4-HMAC-SHA256".
Definition SIGV4_TERMINATION : string := "aws4_request".
Definition SIGV4_KEY_PREFIX : string := "AWS4".
Definition X_AMZ_DATE : string := "x-amz-date".
Definition X_AMZ_CONTENT_SHA256 : string := "x-amz-content-sha256".
Definition X_AMZ_SECURITY_TOKEN : string := "x-amz-security-token".
Definition CLOCK_SKEW_SECS : Z := 300.

Definition newline : string := String (ascii_of_nat 10) EmptyString.

(** ** Text *)

(** [s.split(c)] *)
Fixpoint split (c : ascii) (s : string) : list string :=
  match s with
  | EmptyString => [EmptyString]
  | String a s =>
      if Ascii.eqb a c then EmptyString :: split c s
      else match split c s with w :: ws => String a w :: ws | [] => [String a EmptyString] end
  end.

Fixpoint map_chars (f : ascii -> ascii) (s : string) : string :=
  match s with EmptyString => EmptyString | String a s => String (f a) (map_chars f s) end.

Fixpoint all_chars (f : ascii -> bool) (s : string) : bool :=
  match s with EmptyString => true | String a s => f a && all_chars f s end.

Definition lower (a : ascii) : ascii := if between 65 90 (byte_of a) then ascii_of_N (N_of_ascii a + 32) else a.

(** [str_to_ascii_lowercase]; header names and hexadecimal are ASCII, where [to_lowercase] is the same. *)
Definition str_to_ascii_lowercase (s : string) : string := map_chars lower s.
Definition eq_ignore_ascii_case (a b : string) : bool := String.eqb (str_to_ascii_lowercase a) (str_to_ascii_lowercase b).

(** [HeaderValue::to_str]: visible ASCII and tabs. *)
Definition to_str (v : string) : option string :=
  if all_chars (fun a => between 32 126 (byte_of a) || (byte_of a =? 9)) v then Some v else None.

Definition upper_hex_digit (n : Z) : ascii := ascii_of_N (Z.to_N (if n <? 10 then 48 + n else 55 + n)).

Definition unreserved (a : ascii) : bool :=
  let b := byte_of a in
  between 65 90 b || between 97 122 b || between 48 57 b || (b =? 45) || (b =? 95) || (b =? 46) || (b =? 126) || (b =? 47).

Fixpoint uri_encode_path (path : string) : string :=
  match path with
  | EmptyString => EmptyString
  | String a s =>
      if unreserved a then String a (uri_encode_path s)
      else String "%"%char (String (upper_hex_digit (byte_of a / 16)) (String (upper_hex_digit (byte_of a mod 16)) (uri_encode_path s)))
  end.

(** Runs of spaces become one, leading and trailing ones go: whether a space is pending, whether anything
    was put out. *)
Fixpoint canonicalize (prev_space started : bool) (v : string) : string :=
  match v with
  | EmptyString => EmptyString
  | String a v =>
      if Ascii.eqb a " "%char then canonicalize true started v
      else let rest := String a (canonicalize false true v) in
           if prev_space && started then String " "%char rest else rest
  end.

Definition canonicalize_header_value (v : string) : string := canonicalize false false v.

(** ** Time *)

(** [{n:0w}] *)
Definition pad (w : nat) (n : Z) : string :=
  let s := pretty n in String.concat EmptyString (repeat "0" (w - String.length s)) +:+ s.

Definition format_amz_time (epoch_secs : Z) : string * string :=
  let days := epoch_secs / SECS_PER_DAY in
  let sod := epoch_secs mod SECS_PER_DAY in
  let '(h, mi, s) := (sod / SECS_PER_HOUR, sod mod SECS_PER_HOUR / 60, sod mod 60) in
  let '(year, month, day) := civil_from_days days in
  let date := pad 4 year +:+ pad 2 month +:+ pad 2 day in
  (date +:+ "T" +:+ pad 2 h +:+ pad 2 mi +:+ pad 2 s +:+ "Z", date).

Definition is_digit (a : ascii) : bool := between 48 57 (byte_of a).

(** All digits, as a number: at most four of them here. *)
Definition digits (s : string) : option Z :=
  if all_chars is_digit s then parse_u64 s else None.

Definition parse_amz_date (amzdate : string) : option Z :=
  if negb (String.length amzdate =? 16)%nat || negb (bool_decide (String.get 8 amzdate = Some "T"%char))
     || negb (bool_decide (String.get 15 amzdate = Some "Z"%char)) then None
  else if negb (all_chars (fun a => byte_of a <? 128) amzdate) then None
  else
    year ← digits (String.substring 0 4 amzdate);
    month ← digits (String.substring 4 2 amzdate);
    day ← digits (String.substring 6 2 amzdate);
    hour ← digits (String.substring 9 2 amzdate);
    min ← digits (String.substring 11 2 amzdate);
    sec ← digits (String.substring 13 2 amzdate);
    if negb (between 1 12 month) || negb (between 1 31 day) || (23 <? hour) || (59 <? min) || (60 <? sec) then None
    else
      let epoch := days_from_civil year month day * SECS_PER_DAY + hour * SECS_PER_HOUR + min * 60 + sec in
      if epoch <? 0 then None else Some epoch.

(** ** Signing *)

Class Digests := {
  sha256_hex : string -> string;
  hmac : string -> string -> string;
  hex : string -> string;
}.

Section sigv4.
Context {D : Digests}.

Definition signing_key (secret datestamp region service : string) : string :=
  hmac (hmac (hmac (hmac (SIGV4_KEY_PREFIX +:+ secret) datestamp) region) service) SIGV4_TERMINATION.

(** [sort_by] of the names: stable. *)
Fixpoint insert_header (h : string * string) (l : list (string * string)) : list (string * string) :=
  match l with
  | [] => [h]
  | g :: l => if String.leb h.1 g.1 then h :: g :: l else g :: insert_header h l
  end.

Definition sort_headers (l : list (string * string)) : list (string * string) := foldr insert_header [] l.

Definition canonical_request (method uri querystring : string) (h : list (string * string)) (signed_headers payload_hash : string) : string :=
  method +:+ newline +:+ uri +:+ newline +:+ querystring +:+ newline
  +:+ String.concat EmptyString ((fun kv => kv.1 +:+ ":" +:+ kv.2 +:+ newline) <$> h) +:+ newline
  +:+ signed_headers +:+ newline +:+ payload_hash.

Definition sign_v4 (secret region service method canonical_uri canonical_querystring : string) (headers : list (string * string))
    (payload_hash amzdate datestamp : string) : string * string :=
  let h := sort_headers ((fun kv => (str_to_ascii_lowercase kv.1, canonicalize_header_value kv.2)) <$> headers) in
  let signed_headers := String.concat ";" h.*1 in
  let request := canonical_request method canonical_uri canonical_querystring h signed_headers payload_hash in
  let scope := datestamp +:+ "/" +:+ region +:+ "/" +:+ service +:+ "/" +:+ SIGV4_TERMINATION in
  let string_to_sign := SIGV4_ALGORITHM +:+ newline +:+ amzdate +:+ newline +:+ scope +:+ newline +:+ sha256_hex request in
  (hex (hmac (signing_key secret datestamp region service) string_to_sign), signed_headers).

(** ** Checking *)

Inductive SigError :=
  | MissingAuthorization | MalformedAuthorization | MissingDate | StaleDate | SignedHeadersMismatch | SignatureMismatch.

Record ParsedAuthHeader := mkParsed {
  access_key_id : string;
  datestamp : string;
  region : string;
  service : string;
  signed_headers : string;
  signature : string;
}.

(** The last of each of the three sections; an unknown one is skipped, one without an equals sign is not. *)
Fixpoint sections (l : list string) (found : option string * option string * option string)
    : option (option string * option string * option string) :=
  match l with
  | [] => Some found
  | section :: l =>
      let '(credential, headers, sig) := found in
      match split_once "="%char (trim_str section) with
      | None => None
      | Some (k, v) =>
          let k := trim_str k in
          let v := trim_str v in
          sections l (if String.eqb k "Credential" then (Some v, headers, sig)
                      else if String.eqb k "SignedHeaders" then (credential, Some v, sig)
                      else if String.eqb k "Signature" then (credential, headers, Some v)
                      else found)
      end
  end.

Definition parse_authorization_header (value : string) : Result ParsedAuthHeader SigError :=
  match split_once " "%char (trim_str value) with
  | None => Err MissingAuthorization
  | Some (algo, rest) =>
      if negb (String.eqb algo SIGV4_ALGORITHM) then Err MissingAuthorization
      else
        match sections (split ","%char rest) (None, None, None) with
        | Some (Some credential, Some headers, Some sig) =>
            if is_empty sig || is_empty headers then Err MalformedAuthorization
            else
              match split "/"%char credential with
              | [akid; date; reg; svc; last] =>
                  if negb (String.eqb last SIGV4_TERMINATION) then Err MalformedAuthorization
                  else if is_empty akid || is_empty date || is_empty reg || is_empty svc then Err MalformedAuthorization
                  else Ok (mkParsed akid date reg svc headers sig)
              | _ => Err MalformedAuthorization
              end
        | _ => Err MalformedAuthorization
        end
  end.

Record InboundRequest := mkInbound {
  method : string;
  canonical_uri : string;
  canonical_querystring : string;
  headers : list (string * string);
  payload_hash : string;
  amzdate : string;
}.

(** Exactly the headers named, in the order named; the first of each name. *)
Fixpoint select_headers (names : list string) (hs : list (string * string)) : option (list (string * string)) :=
  match names with
  | [] => Some []
  | name :: names =>
      let lname := str_to_ascii_lowercase name in
      kv ← List.find (fun kv => eq_ignore_ascii_case kv.1 lname) hs;
      rest ← select_headers names hs;
      Some ((lname, kv.2) :: rest)
  end.

Definition verify_inbound_sigv4 (parsed : ParsedAuthHeader) (req : InboundRequest) (secret : string) (now : Z) : Result unit SigError :=
  match parse_amz_date (amzdate req) with
  | None => Err MissingDate
  | Some req_epoch =>
      if CLOCK_SKEW_SECS <? Z.abs (req_epoch - now) then Err StaleDate
      else if (String.length (amzdate req) <? 8)%nat || negb (String.eqb (datestamp parsed) (String.substring 0 8 (amzdate req)))
      then Err MalformedAuthorization
      else
        let signed := split ";"%char (signed_headers parsed) in
        if negb (existsb (fun h => eq_ignore_ascii_case h "host") signed) then Err SignedHeadersMismatch
        else
          match select_headers signed (headers req) with
          | None => Err SignedHeadersMismatch
          | Some selected =>
              let '(computed_sig, computed_signed_headers) :=
                sign_v4 secret (region parsed) (service parsed) (method req) (canonical_uri req) (canonical_querystring req)
                  selected (payload_hash req) (amzdate req) (datestamp parsed) in
              if String.eqb computed_signed_headers (signed_headers parsed) && String.eqb computed_sig (signature parsed)
              then Ok tt else Err SignatureMismatch
          end
  end.

(** ** The Bedrock ingress (auth/mod.rs) *)

Definition DUMMY_SECRET : string := "AWS4-DUMMY-SECRET-FOR-CONSTANT-TIME-REJECT-PATH".

Definition trim_start (s : string) : string := of_chars (skip_whitespace (utf8_chars s)).

Record Request := mkRequest {
  r_method : string;
  r_path : string;
  r_query : option string;
  r_headers : list (string * string);
  r_body : string;
}.

(** [headers().get(name).and_then(to_str)] *)
Definition header (name : string) (l : list (string * string)) : option string :=
  kv ← List.find (fun kv => String.eqb kv.1 name) l; to_str kv.2.

Definition AUTHORIZATION : string := "authorization".

Definition has_sigv4_authorization (r : Request) : bool :=
  match header AUTHORIZATION (r_headers r) with
  | Some v => String.prefix SIGV4_ALGORITHM (trim_start v)
  | None => false
  end.

Definition pair_leb (a b : string * string) : bool :=
  if String.eqb a.1 b.1 then String.leb a.2 b.2 else String.leb a.1 b.1.

Fixpoint insert_pair (p : string * string) (l : list (string * string)) : list (string * string) :=
  match l with [] => [p] | q :: l => if pair_leb p q then p :: q :: l else q :: insert_pair p l end.

Definition canonical_query_string (query : option string) : string :=
  match query with
  | None => EmptyString
  | Some q =>
      if is_empty q then EmptyString
      else
        let pairs := (fun p => default (p, EmptyString) (split_once "="%char p)) <$> List.filter (fun p => negb (is_empty p)) (split "&"%char q) in
        String.concat "&" ((fun kv => kv.1 +:+ "=" +:+ kv.2) <$> foldr insert_pair [] pairs)
  end.

Definition UNSIGNED_PAYLOAD : string := "UNSIGNED-PAYLOAD".

Definition signed_names (parsed : ParsedAuthHeader) : list string :=
  List.filter (fun h => negb (is_empty h)) ((fun h => str_to_ascii_lowercase (trim_str h)) <$> split ";"%char (signed_headers parsed)).

(** The values of the signed headers, names in lower case. *)
Definition signed_values (names : list string) (l : list (string * string)) : list (string * string) :=
  omap (fun kv => let lname := str_to_ascii_lowercase kv.1 in
    if existsb (String.eqb lname) names then v ← to_str kv.2; Some (lname, v) else None) l.

(** The structural gate before a byte of the body is read. *)
Definition structurally_valid (r : Request) : bool :=
  match parse_authorization_header (default EmptyString (header AUTHORIZATION (r_headers r))) with Ok _ => true | Err _ => false end
  && existsb (fun kv => String.eqb kv.1 X_AMZ_CONTENT_SHA256) (r_headers r)
  && existsb (fun kv => String.eqb kv.1 X_AMZ_DATE) (r_headers r).

(** [Err(())] in the code is [None].  [now2] is the clock of the second read, [inline] as in AuthKeys. *)
Definition verify_bedrock_sigv4 (n : Node) (r : Request) (now now2 : Z) (inline : option StoreAnswer) : option VirtualKey * Node :=
  match parse_authorization_header (default EmptyString (header AUTHORIZATION (r_headers r))) with
  | Err _ => (None, n)
  | Ok parsed =>
      let hs := signed_values (signed_names parsed) (r_headers r) in
      match List.find (fun kv => String.eqb kv.1 X_AMZ_CONTENT_SHA256) hs with
      | None => (None, n)
      | Some (_, hash) =>
          if eq_ignore_ascii_case hash UNSIGNED_PAYLOAD then (None, n)
          else if negb (String.eqb (sha256_hex (r_body r)) (str_to_ascii_lowercase hash)) then (None, n)
          else
            match List.find (fun kv => String.eqb kv.1 X_AMZ_DATE) hs with
            | None => (None, n)
            | Some (_, date) =>
                let inbound := mkInbound (r_method r) (uri_encode_path (r_path r)) (canonical_query_string (r_query r)) hs hash date in
                let resolved := lookup_credential "sigv4" (access_key_id parsed) n in
                let secret := match resolved with
                              | Some (_, cred) => default DUMMY_SECRET (plaintext cred)
                              | None => DUMMY_SECRET
                              end in
                match verify_inbound_sigv4 parsed inbound secret now, resolved with
                | Ok _, Some (key, cred) =>
                    if cred_live (cs_meta cred) now && key_enabled key then
                      let '(revoked, n) := is_revoked_at (key_id key) now2 inline n in
                      (if revoked then None else Some key, n)
                    else (None, n)
                | _, _ => (None, n)
                end
            end
      end
  end.

(** ** Signing for an upstream (proto/bedrock) *)

Definition is_alphabetic (a : ascii) : bool := between 65 90 (byte_of a) || between 97 122 (byte_of a).

Definition looks_like_region (label : string) : bool :=
  let parts := split "-"%char label in
  if (length parts <? 3)%nat || existsb is_empty parts then false
  else match rev parts with
       | [] => false
       | last :: leading => all_chars is_digit last && forallb (all_chars is_alphabetic) leading
       end.

Definition bedrock_labels : list string := ["bedrock-runtime"; "bedrock-runtime-fips"; "bedrock"; "bedrock-fips"].

Fixpoint region_after (labels : list string) : option string :=
  match labels with
  | [] => None
  | label :: rest =>
      match (if existsb (String.eqb label) bedrock_labels then head rest else None) with
      | Some next => if looks_like_region next then Some next else region_after rest
      | None => region_after rest
      end
  end.

Definition derive_sigv4_region (host : string) : option string := region_after (split "."%char host).

(** [HeaderValue::from_str] *)
Definition header_value_ok (v : string) : bool :=
  all_chars (fun a => ((32 <=? byte_of a) && negb (byte_of a =? 127)) || (byte_of a =? 9)) v.

(** [key.splitn(3, ':')] *)
Definition key_parts (key : string) : option (string * string * option string) :=
  p ← split_once ":"%char key;
  let '(secret, token) := match split_once ":"%char p.2 with Some (s, t) => (s, Some t) | None => (p.2, None) end in
  if is_empty p.1 || is_empty secret then None else Some (p.1, secret, token).

Definition BEDROCK_SERVICE : string := "bedrock".
Definition CONTENT_JSON : string := "application/json".

Definition authorization_text (access datestamp region service signed_headers signature : string) : string :=
  SIGV4_ALGORITHM +:+ " Credential=" +:+ access +:+ "/" +:+ datestamp +:+ "/" +:+ region +:+ "/" +:+ service +:+ "/" +:+ SIGV4_TERMINATION
  +:+ ", SignedHeaders=" +:+ signed_headers +:+ ", Signature=" +:+ signature.

Definition headers_to_sign (host payload_hash amzdate : string) (token : option string) : list (string * string) :=
  [("content-type", CONTENT_JSON); ("host", host); (X_AMZ_CONTENT_SHA256, payload_hash); (X_AMZ_DATE, amzdate)]
  ++ match token with Some t => [(X_AMZ_SECURITY_TOKEN, t)] | None => [] end.

Definition sigv4_sign_headers (key host canonical_uri body : string) (timestamp_epoch : Z) : list (string * string) :=
  match key_parts key with
  | None => []
  | Some (access, secret, token) =>
      let region := default "us-east-1" (derive_sigv4_region host) in
      let '(amzdate, datestamp) := format_amz_time timestamp_epoch in
      let payload_hash := sha256_hex body in
      if negb (match token with Some t => header_value_ok t | None => true end) then []
      else
        let '(signature, signed_headers) :=
          sign_v4 secret region BEDROCK_SERVICE "POST" canonical_uri EmptyString (headers_to_sign host payload_hash amzdate token)
            payload_hash amzdate datestamp in
        let authorization := authorization_text access datestamp region BEDROCK_SERVICE signed_headers signature in
        if header_value_ok authorization && header_value_ok amzdate && header_value_ok payload_hash then
          [(AUTHORIZATION, authorization); (X_AMZ_DATE, amzdate); (X_AMZ_CONTENT_SHA256, payload_hash)]
          ++ match token with Some t => [(X_AMZ_SECURITY_TOKEN, t)] | None => [] end
        else []
  end.

End sigv4.

(** ** Characters and their strings *)

Lemma append_cons a s t : String a s +:+ t = String a (s +:+ t).
Proof. done. Qed.

Lemma all_chars_app f s t : all_chars f (s +:+ t) = all_chars f s && all_chars f t.
Proof. induction s as [|a s IH]; [done|]. rewrite append_cons. cbn [all_chars]. by rewrite IH, andb_assoc. Qed.

Lemma all_chars_impl f g s : (forall a, f a = true -> g a = true) -> all_chars f s = true -> all_chars g s = true.
Proof. intros Hfg. induction s as [|a s IH]; [done|]. cbn [all_chars]. intros [Ha Hs]%andb_true_iff. by rewrite Hfg, IH. Qed.

Lemma has_char_app c s t : has_char c (s +:+ t) = has_char c s || has_char c t.
Proof. induction s as [|a s IH]; [done|]. rewrite append_cons. cbn [has_char]. by rewrite IH, orb_assoc. Qed.

Lemma no_char f c s : f c = false -> all_chars f s = true -> has_char c s = false.
Proof.
  intros Hc. induction s as [|a s IH]; [done|]. cbn [all_chars has_char]. intros [Ha Hs]%andb_true_iff. rewrite IH by done.
  rewrite orb_false_r. apply Ascii.eqb_neq. intros ->. by rewrite Hc in Ha.
Qed.

Lemma split_none c s : has_char c s = false -> split c s = [s].
Proof.
  induction s as [|a s IH]; [done|]. cbn [has_char split]. intros [Ha Hs]%orb_false_iff. by rewrite Ha, IH.
Qed.

Lemma split_char_app c s t : has_char c s = false -> split c (s +:+ String c t) = s :: split c t.
Proof.
  induction s as [|a s IH].
  - intros _. change (EmptyString +:+ String c t) with (String c t). cbn [split]. by rewrite Ascii.eqb_refl.
  - rewrite append_cons. cbn [has_char split]. intros [Ha Hs]%orb_false_iff. by rewrite Ha, IH.
Qed.

(** Visible ASCII without spaces, and the narrower alphabet of identifiers. *)
Definition graphic (a : ascii) : bool := between 33 126 (byte_of a).
Definition plain (a : ascii) : bool := between 48 57 (byte_of a) || between 65 90 (byte_of a) || between 97 122 (byte_of a)
  || (byte_of a =? 45) || (byte_of a =? 46) || (byte_of a =? 95).
Definition lower_hex (a : ascii) : bool := between 48 57 (byte_of a) || between 97 102 (byte_of a).

Ltac chars := unfold lower_hex, plain, graphic, is_digit, between in *; rewrite ?orb_true_iff, ?andb_true_iff, ?Z.leb_le, ?Z.eqb_eq in *; lia.

Lemma plain_graphic a : plain a = true -> graphic a = true.
Proof. intros H. chars. Qed.
Lemma lower_hex_plain a : lower_hex a = true -> plain a = true.
Proof. intros H. chars. Qed.
Lemma digit_plain a : is_digit a = true -> plain a = true.
Proof. intros H. chars. Qed.

Definition singles (s : string) : list string := (fun a => String a EmptyString) <$> String.list_ascii_of_string s.

Lemma singles_app s t : singles (s +:+ t) = singles s ++ singles t.
Proof. induction s as [|a s IH]; [done|]. rewrite append_cons. unfold singles in *. cbn. by rewrite IH. Qed.

Lemma utf8_ascii s : all_chars (fun a => byte_of a <? 128) s = true -> utf8_chars s = singles s.
Proof.
  induction s as [|a s IH]; [done|]. cbn [all_chars utf8_chars]. intros [Ha Hs]%andb_true_iff. rewrite IH by done.
  destruct s as [|b s]; [done|]. cbn. cbn [all_chars] in Hs. apply andb_true_iff in Hs as [Hb%Z.ltb_lt _].
  unfold is_continuation. rewrite (proj2 (Z.leb_gt 128 (byte_of b))) by lia. done.
Qed.

Lemma of_singles s : of_chars (singles s) = s.
Proof. induction s as [|a s IH]; [done|]. cbn. by rewrite <- IH at 2. Qed.

Lemma graphic_not_space a : graphic a = true -> is_whitespace (String a EmptyString) = false.
Proof.
  unfold graphic, is_whitespace, scalar, between. cbn. intros [H1%Z.leb_le H2%Z.leb_le]%andb_true_iff.
  repeat match goal with |- context [(?x <=? ?y)] => destruct (Z.leb_spec x y); try lia | |- context [(?x =? ?y)] => destruct (Z.eqb_spec x y); try lia end;
  done.
Qed.

Lemma trim_spaces_ends a s z :
  all_chars (fun a => byte_of a <? 128) s = true -> graphic a = true -> graphic z = true ->
  trim_str (String a (s +:+ String z EmptyString)) = String a (s +:+ String z EmptyString).
Proof.
  intros Hs Ha Hz. unfold trim_str. set (t := String a _).
  assert (Ht : all_chars (fun a => byte_of a <? 128) t = true).
  { unfold t. cbn [all_chars]. rewrite all_chars_app, Hs. cbn [all_chars]. unfold graphic, between in *.
    rewrite andb_true_iff, Z.leb_le, Z.leb_le in Ha, Hz. rewrite !andb_true_iff, !Z.ltb_lt. lia. }
  rewrite utf8_ascii by done.
  assert (E : singles t = String a EmptyString :: singles s ++ [String z EmptyString]).
  { unfold t. change (String a (s +:+ String z EmptyString)) with (String a EmptyString +:+ (s +:+ String z EmptyString)). by rewrite !singles_app. }
  rewrite E. cbn [skip_whitespace]. rewrite graphic_not_space by done.
  change (String a EmptyString :: singles s ++ [String z EmptyString]) with ((String a EmptyString :: singles s) ++ [String z EmptyString]).
  rewrite rev_app_distr. cbn [rev app skip_whitespace]. rewrite graphic_not_space by done.
  change (String z EmptyString :: rev (singles s) ++ [String a EmptyString]) with (rev [String z EmptyString] ++ rev (singles s) ++ rev [String a EmptyString]).
  rewrite <- !rev_app_distr, rev_involutive. cbn [app]. rewrite <- (of_singles t), E. done.
Qed.

Lemma sapp_assoc a b c : (a +:+ b) +:+ c = a +:+ (b +:+ c).
Proof. induction a as [|x a IH]; [done|]. by rewrite !append_cons, IH. Qed.

Lemma sapp_empty s : EmptyString +:+ s = s.
Proof. done. Qed.

Lemma last_char s : s <> EmptyString -> exists u z, s = u +:+ String z EmptyString.
Proof.
  induction s as [|a s IH]; [done|]. intros _. destruct s as [|b s]; [by exists EmptyString, a|].
  destruct (IH ltac:(done)) as (u & z & E). exists (String a u), z. by rewrite E.
Qed.

Lemma graphic_ascii a : graphic a = true -> (byte_of a <? 128) = true.
Proof. unfold graphic, between. rewrite andb_true_iff, !Z.leb_le, Z.ltb_lt. lia. Qed.

Lemma trim_graphic s : all_chars graphic s = true -> trim_str s = s.
Proof.
  destruct s as [|a s]; [done|]. cbn [all_chars]. intros [Ha Hs]%andb_true_iff. destruct (decide (s = EmptyString)) as [->|Hne].
  - unfold trim_str. cbn [utf8_chars skip_whitespace]. rewrite graphic_not_space by done. cbn [rev app skip_whitespace].
    by rewrite graphic_not_space.
  - destruct (last_char s Hne) as (u & z & ->). rewrite all_chars_app in Hs. cbn [all_chars] in Hs. rewrite andb_true_r in Hs.
    apply andb_true_iff in Hs as [Hu Hz]. apply trim_spaces_ends; [|done..]. eapply all_chars_impl; [apply graphic_ascii|done].
Qed.

Lemma trim_space s : all_chars graphic s = true -> trim_str (String " "%char s) = s.
Proof.
  intros Hs. rewrite <- (trim_graphic s Hs) at 2. unfold trim_str.
  rewrite !utf8_ascii by (cbn [all_chars]; try (apply andb_true_iff; split; [done|]); eapply all_chars_impl; [apply graphic_ascii|done]).
  change (singles (String " "%char s)) with (String " "%char EmptyString :: singles s). by cbn [skip_whitespace].
Qed.

Lemma trim_between a s u :
  all_chars (fun a => byte_of a <? 128) s = true -> graphic a = true -> all_chars graphic u = true -> u <> EmptyString ->
  trim_str (String a (s +:+ u)) = String a (s +:+ u).
Proof.
  intros Hs Ha Hu Hne. destruct (last_char u Hne) as (v & z & ->). rewrite all_chars_app in Hu. cbn [all_chars] in Hu.
  rewrite andb_true_r in Hu. apply andb_true_iff in Hu as [Hv Hz]. rewrite <- sapp_assoc. apply trim_spaces_ends; [|done..].
  rewrite all_chars_app, Hs. eapply all_chars_impl; [apply graphic_ascii|done].
Qed.

(** ** The header's text *)

Definition header_list_char (a : ascii) : bool := plain a || Ascii.eqb a ";"%char.

Lemma header_list_graphic a : header_list_char a = true -> graphic a = true.
Proof. unfold header_list_char. destruct (Ascii.eqb_spec a ";"%char) as [->|]; [done|]. rewrite orb_false_r. apply plain_graphic. Qed.

Definition word (s : string) : Prop := all_chars plain s = true /\ s <> EmptyString.

Lemma word_nonempty s : word s -> is_empty s = false.
Proof. intros [_ Hne]. by destruct s. Qed.

Definition credential_text (access date reg svc : string) : string :=
  access +:+ "/" +:+ date +:+ "/" +:+ reg +:+ "/" +:+ svc +:+ "/" +:+ SIGV4_TERMINATION.

Lemma authorization_text_sections access date reg svc sh sig :
  authorization_text access date reg svc sh sig
  = SIGV4_ALGORITHM +:+ String " "%char (("Credential=" +:+ credential_text access date reg svc)
      +:+ String ","%char ((" SignedHeaders=" +:+ sh) +:+ String ","%char (" Signature=" +:+ sig))).
Proof. unfold authorization_text, credential_text. rewrite !sapp_assoc. done. Qed.

Lemma split_credential access date reg svc :
  word access -> word date -> word reg -> word svc ->
  split "/"%char (credential_text access date reg svc) = [access; date; reg; svc; SIGV4_TERMINATION].
Proof.
  intros [Ha _] [Hd _] [Hr _] [Hs _]. unfold credential_text.
  assert (Hn : forall s, all_chars plain s = true -> has_char "/"%char s = false) by (intros s; by apply (no_char plain)).
  do 4 (change ("/" +:+ ?x) with (String "/"%char x); rewrite split_char_app by auto). done.
Qed.

Lemma section_text k v l cr hs sg :
  all_chars graphic k = true -> has_char "="%char k = false -> all_chars graphic v = true ->
  sections ((k +:+ String "="%char v) :: l) (cr, hs, sg)
  = sections l (if String.eqb k "Credential" then (Some v, hs, sg) else if String.eqb k "SignedHeaders" then (cr, Some v, sg)
                else if String.eqb k "Signature" then (cr, hs, Some v) else (cr, hs, sg)).
Proof.
  intros Hk He Hv. cbn [sections]. rewrite trim_graphic.
  - rewrite split_once_app by done. by rewrite !trim_graphic.
  - rewrite all_chars_app. cbn [all_chars]. by rewrite Hk, Hv.
Qed.

Lemma credential_text_graphic access date reg svc :
  word access -> word date -> word reg -> word svc -> all_chars graphic (credential_text access date reg svc) = true.
Proof.
  intros [Ha _] [Hd _] [Hr _] [Hs _]. unfold credential_text. rewrite !all_chars_app.
  rewrite (all_chars_impl _ _ access plain_graphic Ha), (all_chars_impl _ _ date plain_graphic Hd),
    (all_chars_impl _ _ reg plain_graphic Hr), (all_chars_impl _ _ svc plain_graphic Hs). done.
Qed.

Lemma parse_authorization_text access date reg svc sh sig :
  word access -> word date -> word reg -> word svc -> word sig -> all_chars header_list_char sh = true -> sh <> EmptyString ->
  parse_authorization_header (authorization_text access date reg svc sh sig) = Ok (mkParsed access date reg svc sh sig).
Proof.
  intros Ha Hd Hr Hs Hg Hsh Hne. pose proof Hg as [Hgp Hgn].
  assert (Hcr := credential_text_graphic access date reg svc Ha Hd Hr Hs).
  assert (Hshg : all_chars graphic sh = true) by (eapply all_chars_impl; [apply header_list_graphic|done]).
  assert (Hsg : all_chars graphic sig = true) by (eapply all_chars_impl; [apply plain_graphic|done]).
  assert (Hcomma : forall s, all_chars header_list_char s = true -> has_char ","%char s = false) by (intros s; by apply (no_char header_list_char)).
  assert (Hcc : has_char ","%char (credential_text access date reg svc) = false).
  { unfold credential_text. rewrite !has_char_app.
    destruct Ha, Hd, Hr, Hs. rewrite (no_char plain _ access), (no_char plain _ date), (no_char plain _ reg), (no_char plain _ svc) by done. done. }
  assert (Hgc : has_char ","%char sig = false) by by apply (no_char plain).
  rewrite authorization_text_sections. unfold parse_authorization_header.
  assert (Htrim : trim_str (SIGV4_ALGORITHM +:+ String " "%char (("Credential=" +:+ credential_text access date reg svc)
      +:+ String ","%char ((" SignedHeaders=" +:+ sh) +:+ String ","%char (" Signature=" +:+ sig))))
    = SIGV4_ALGORITHM +:+ String " "%char (("Credential=" +:+ credential_text access date reg svc)
      +:+ String ","%char ((" SignedHeaders=" +:+ sh) +:+ String ","%char (" Signature=" +:+ sig)))).
  { assert (E : SIGV4_ALGORITHM +:+ String " "%char (("Credential=" +:+ credential_text access date reg svc)
      +:+ String ","%char ((" SignedHeaders=" +:+ sh) +:+ String ","%char (" Signature=" +:+ sig)))
      = String "A"%char (("WS4-HMAC-SHA256 Credential=" +:+ credential_text access date reg svc +:+ ", SignedHeaders=" +:+ sh +:+ ", Signature=") +:+ sig))
      by (rewrite !sapp_assoc; done).
    rewrite E. apply trim_between; [|done|done|done]. rewrite !all_chars_app.
    rewrite (all_chars_impl graphic _ _ graphic_ascii Hcr), (all_chars_impl graphic _ _ graphic_ascii Hshg). done. }
  rewrite Htrim, split_once_app by done. cbn [negb String.eqb].
  rewrite (proj2 (String.eqb_eq SIGV4_ALGORITHM SIGV4_ALGORITHM)) by done. cbn [negb].
  rewrite split_char_app by (rewrite has_char_app, Hcc; done).
  rewrite split_char_app by (rewrite has_char_app, (Hcomma sh Hsh); done).
  rewrite split_none by (rewrite has_char_app, Hgc; done).
  change ("Credential=" +:+ credential_text access date reg svc) with ("Credential" +:+ String "="%char (credential_text access date reg svc)).
  rewrite section_text by done.
  assert (Hstep : forall k v l f, all_chars graphic k = true -> has_char "="%char k = false -> all_chars graphic v = true ->
    sections (String " "%char (k +:+ String "="%char v) :: l) f = sections ((k +:+ String "="%char v) :: l) f).
  { intros k v l [[? ?] ?] Hk He Hv. cbn [sections].
    assert (Hkv : all_chars graphic (k +:+ String "="%char v) = true) by (rewrite all_chars_app; cbn [all_chars]; by rewrite Hk, Hv).
    by rewrite trim_space, trim_graphic by done. }
  change (" SignedHeaders=" +:+ sh) with (String " "%char ("SignedHeaders" +:+ String "="%char sh)).
  change (" Signature=" +:+ sig) with (String " "%char ("Signature" +:+ String "="%char sig)).
  do 2 (rewrite Hstep by done; cbn [String.eqb Ascii.eqb Bool.eqb]; rewrite section_text by done).
  cbn [sections String.eqb Ascii.eqb Bool.eqb].
  rewrite (word_nonempty sig) by done. assert (is_empty sh = false) as -> by by destruct sh. cbn [orb].
  rewrite split_credential by done. rewrite (proj2 (String.eqb_eq _ _)) by done. cbn [negb].
  by rewrite !word_nonempty.
Qed.

(** ** The time's text *)

Definition pad_ok (w : nat) (n : Z) : bool :=
  (String.length (pad w n) =? w)%nat && bool_decide (digits (pad w n) = Some n) && all_chars is_digit (pad w n).

Lemma pad_all w k : forallb (pad_ok w) (seqZ 0 k) = true -> forall n, 0 <= n < k ->
  String.length (pad w n) = w /\ digits (pad w n) = Some n /\ all_chars is_digit (pad w n) = true.
Proof.
  intros Hall n Hn. rewrite List.forallb_forall in Hall. specialize (Hall n). unfold pad_ok in Hall.
  rewrite !andb_true_iff, Nat.eqb_eq, bool_decide_eq_true in Hall. destruct Hall as [[? ?] ?]; [|done].
  apply list_elem_of_In, elem_of_seqZ. lia.
Qed.

Lemma pad_2 n : 0 <= n < 100 -> String.length (pad 2 n) = 2%nat /\ digits (pad 2 n) = Some n /\ all_chars is_digit (pad 2 n) = true.
Proof. apply pad_all. vm_compute. reflexivity. Qed.

Lemma pad_4 n : 0 <= n < 10000 -> String.length (pad 4 n) = 4%nat /\ digits (pad 4 n) = Some n /\ all_chars is_digit (pad 4 n) = true.
Proof. apply pad_all. vm_compute. reflexivity. Qed.

Lemma two_chars s : String.length s = 2%nat -> exists a b, s = String a (String b EmptyString).
Proof. destruct s as [|a [|b [|]]]; try done. by exists a, b. Qed.

Lemma four_chars s : String.length s = 4%nat -> exists a b c d, s = String a (String b (String c (String d EmptyString))).
Proof. destruct s as [|a [|b [|c [|d [|]]]]]; try done. by exists a, b, c, d. Qed.

Lemma digit_ascii a : is_digit a = true -> (byte_of a <? 128) = true.
Proof. unfold is_digit, between. rewrite andb_true_iff, !Z.leb_le, Z.ltb_lt. lia. Qed.

(** The last second of the year 9999. *)
Definition LAST_SECOND : Z := 253402300799.

Lemma civil_year_bound t y m d : 0 <= t <= LAST_SECOND -> civil_from_days (t / SECS_PER_DAY) = (y, m, d) -> 0 <= y < 10000.
Proof.
  unfold LAST_SECOND, SECS_PER_DAY. intros Ht E. apply civil_from_days_spec in E as [[Hm Hd] Hs].
  assert (Hd' : 0 <= t / 86400 <= 2932896) by (Z.to_euclidean_division_equations; lia).
  rewrite days_from_civil_day, days_from_civil_march in Hs. unfold march in Hs.
  assert (Hc : 1 <= d <= 31) by (unfold days_in_month in Hd; repeat case_match; lia).
  assert (0 <= Z.quot (153 * (if 2 <? m then m - 3 else m + 9) + 2) 5 <= 337) by (destruct (Z.ltb_spec 2 m); Z.to_euclidean_division_equations; lia).
  destruct (Z.leb_spec m 2); destruct (Z.ltb_spec 2 m); try lia; Z.to_euclidean_division_equations; lia.
Qed.

Lemma amz_time_shape t :
  0 <= t <= LAST_SECOND ->
  parse_amz_date (format_amz_time t).1 = Some t
  /\ String.length (format_amz_time t).1 = 16%nat
  /\ String.substring 0 8 (format_amz_time t).1 = (format_amz_time t).2
  /\ all_chars plain (format_amz_time t).1 = true
  /\ word (format_amz_time t).2.
Proof.
  intros Ht. unfold format_amz_time. destruct (civil_from_days (t / SECS_PER_DAY)) as [[y m] d] eqn:E.
  pose proof (civil_year_bound _ _ _ _ Ht E) as Hy. apply civil_from_days_spec in E as [[Hm Hd] Hs].
  assert (Hd' : 1 <= d <= 31) by (unfold days_in_month in Hd; repeat case_match; lia).
  set (sod := t mod SECS_PER_DAY). assert (Hsod : 0 <= sod < 86400) by (apply Z.mod_pos_bound; unfold SECS_PER_DAY; lia).
  unfold SECS_PER_HOUR. cbn [fst snd].
  destruct (pad_4 y Hy) as (Ly & Dy & Ay). destruct (pad_2 m ltac:(lia)) as (Lm & Dm & Am). destruct (pad_2 d ltac:(lia)) as (Ld & Dd & Ad).
  destruct (pad_2 (sod / 3600) ltac:(Z.to_euclidean_division_equations; lia)) as (Lh & Dh & Ah).
  destruct (pad_2 (sod mod 3600 / 60) ltac:(Z.to_euclidean_division_equations; lia)) as (Li & Di & Ai).
  destruct (pad_2 (sod mod 60) ltac:(Z.to_euclidean_division_equations; lia)) as (Ls & Ds & As).
  destruct (four_chars _ Ly) as (y1 & y2 & y3 & y4 & Ey). destruct (two_chars _ Lm) as (m1 & m2 & Em). destruct (two_chars _ Ld) as (d1 & d2 & Ed).
  destruct (two_chars _ Lh) as (h1 & h2 & Eh). destruct (two_chars _ Li) as (i1 & i2 & Ei). destruct (two_chars _ Ls) as (s1 & s2 & Es).
  rewrite Ey, Em, Ed, Eh, Ei, Es in *.
  cbn [all_chars] in Ay, Am, Ad, Ah, Ai, As. rewrite !andb_true_iff in Ay. rewrite !andb_true_iff in Am, Ad, Ah, Ai, As.
  destruct Ay as (Y1 & Y2 & Y3 & Y4 & _), Am as (M1 & M2 & _), Ad as (E1 & E2 & _), Ah as (H1 & H2 & _), Ai as (I1 & I2 & _), As as (S1 & S2 & _).
  rewrite !sapp_assoc. change ("T" +:+ ?x) with (String "T"%char x). rewrite !append_cons, !sapp_empty.
  split_and!; [|done|done| |split; [|done]].
  - unfold parse_amz_date. cbn [String.length Nat.eqb negb String.get orb]. rewrite !bool_decide_eq_true_2 by done. cbn [negb orb].
    cbn [all_chars]. change (byte_of "T"%char <? 128) with true. change (byte_of "Z"%char <? 128) with true.
    rewrite !digit_ascii by done. cbn [andb negb String.substring].
    rewrite Dy, Dm, Dd, Dh, Di, Ds. cbn [mbind option_bind].
    unfold between. rewrite !(proj2 (Z.leb_le _ _)) by lia. cbn [andb negb orb].
    assert (sod / 3600 <= 23 /\ sod mod 3600 / 60 <= 59 /\ sod mod 60 <= 60) as (? & ? & ?) by (Z.to_euclidean_division_equations; lia).
    rewrite !(proj2 (Z.ltb_ge _ _)) by done. cbn [orb]. rewrite Hs. unfold SECS_PER_DAY, SECS_PER_HOUR in *.
    assert (Et : t / 86400 * 86400 + sod / 3600 * 3600 + sod mod 3600 / 60 * 60 + sod mod 60 = t).
    { unfold sod. Z.to_euclidean_division_equations; lia. }
    rewrite Et. by rewrite (proj2 (Z.ltb_ge _ _)) by lia.
  - cbn [all_chars]. change (plain "T"%char) with true. change (plain "Z"%char) with true. by rewrite !digit_plain by done.
  - cbn [all_chars]. by rewrite !digit_plain by done.
Qed.

(** ** Regions and header values *)

Lemma split_all f c s : Forall (fun w => all_chars f w = true) (split c s) -> all_chars (fun a => f a || Ascii.eqb a c) s = true.
Proof.
  induction s as [|a s IH]; [done|]. cbn [split all_chars]. destruct (Ascii.eqb_spec a c) as [->|Hne].
  - intros [_ H]%Forall_cons. rewrite orb_true_r. by apply IH.
  - destruct (split c s) as [|w ws] eqn:E; intros [Hw Hws]%Forall_cons; cbn [all_chars] in Hw; apply andb_true_iff in Hw as [Ha Hw]; rewrite Ha;
      apply IH; by constructor.
Qed.

Lemma region_word s : looks_like_region s = true -> word s.
Proof.
  unfold looks_like_region. destruct (Nat.ltb_spec (length (split "-"%char s)) 3) as [|Hlen]; [done|]. cbn [orb].
  destruct (existsb is_empty _); [done|]. destruct (rev (split "-"%char s)) as [|last leading] eqn:E; [done|].
  intros [Hl Hf]%andb_true_iff. split.
  - apply (all_chars_impl (fun a => (is_digit a || is_alphabetic a) || Ascii.eqb a "-"%char)).
    + intros a. destruct (Ascii.eqb_spec a "-"%char) as [->|]; [done|]. unfold is_alphabetic. rewrite orb_false_r. intros H. chars.
    + apply split_all. rewrite <- (rev_involutive (split "-"%char s)), E. apply Forall_rev. constructor.
      * eapply all_chars_impl; [|exact Hl]. intros a ->. done.
      * apply Forall_forall. intros w Hw. rewrite forallb_forall in Hf. eapply all_chars_impl; [|apply Hf; by apply list_elem_of_In].
        intros a ->. by rewrite orb_true_r.
  - intros ->. cbn in Hlen. lia.
Qed.

Lemma region_after_word l r : region_after l = Some r -> word r.
Proof.
  induction l as [|x l IH]; [done|]. cbn [region_after]. destruct (existsb _ _); [|done].
  destruct (head l) as [nx|]; [|done]. destruct (looks_like_region nx) eqn:E; [|done]. intros [= <-]. by apply region_word.
Qed.

Definition printable (a : ascii) : bool := between 32 126 (byte_of a).

Lemma printable_ok a : printable a = true -> (((32 <=? byte_of a) && negb (byte_of a =? 127)) || (byte_of a =? 9)) = true.
Proof. unfold printable, between. intros [H1 H2]%andb_true_iff. apply Z.leb_le in H2. rewrite H1. by rewrite (proj2 (Z.eqb_neq _ _)) by lia. Qed.

Lemma plain_printable a : plain a = true -> printable a = true.
Proof. unfold printable. intros H. chars. Qed.

Lemma header_list_printable a : header_list_char a = true -> printable a = true.
Proof. unfold header_list_char. destruct (Ascii.eqb_spec a ";"%char) as [->|]; [done|]. rewrite orb_false_r. apply plain_printable. Qed.

Lemma printable_value v : all_chars printable v = true -> header_value_ok v = true /\ to_str v = Some v.
Proof.
  intros H. split; [eapply all_chars_impl; [apply printable_ok|done]|]. unfold to_str.
  rewrite (all_chars_impl printable _ v); [done| |done]. intros a Ha. unfold printable in Ha. by rewrite Ha.
Qed.

Lemma authorization_printable access date reg svc sh sig :
  word access -> word date -> word reg -> word svc -> word sig -> all_chars header_list_char sh = true ->
  all_chars printable (authorization_text access date reg svc sh sig) = true.
Proof.
  intros [Ha _] [Hd _] [Hr _] [Hs _] [Hg _] Hsh. unfold authorization_text. rewrite !all_chars_app.
  rewrite (all_chars_impl _ _ access plain_printable Ha), (all_chars_impl _ _ date plain_printable Hd), (all_chars_impl _ _ reg plain_printable Hr),
    (all_chars_impl _ _ svc plain_printable Hs), (all_chars_impl _ _ sig plain_printable Hg), (all_chars_impl _ _ sh header_list_printable Hsh). done.
Qed.

(** ** A signed request, checked *)

(** Documented of the digests: hexadecimal in lower case, 64 digits of SHA-256. *)
Class DigestLaws (D : Digests) := {
  sha256_hex_shape s : String.length (sha256_hex s) = 64%nat /\ all_chars lower_hex (sha256_hex s) = true;
  hex_hmac_shape k m : all_chars lower_hex (hex (hmac k m)) = true /\ hex (hmac k m) <> EmptyString;
}.

Definition list_text (token : option string) : string :=
  "content-type;host;x-amz-content-sha256;x-amz-date" +:+ match token with Some _ => ";x-amz-security-token" | None => EmptyString end.

Lemma lower_hex_lower a : lower_hex a = true -> lower a = a.
Proof. unfold lower. intros H. destruct (between 65 90 (byte_of a)) eqn:E; [|done]. chars. Qed.

Lemma lowercase_hex s : all_chars lower_hex s = true -> str_to_ascii_lowercase s = s.
Proof.
  unfold str_to_ascii_lowercase. induction s as [|a s IH]; [done|]. cbn [all_chars map_chars]. intros [Ha Hs]%andb_true_iff.
  by rewrite lower_hex_lower, IH.
Qed.

Lemma signed_values_cons names k v l :
  existsb (String.eqb (str_to_ascii_lowercase k)) names = true -> to_str v = Some v ->
  signed_values names ((k, v) :: l) = (str_to_ascii_lowercase k, v) :: signed_values names l.
Proof. intros Hk Hv. unfold signed_values. cbn [omap list_omap fst snd]. by rewrite Hk, Hv. Qed.

Lemma signed_values_skip names k v l :
  existsb (String.eqb (str_to_ascii_lowercase k)) names = false -> signed_values names ((k, v) :: l) = signed_values names l.
Proof. intros Hk. unfold signed_values. cbn [omap list_omap fst snd]. by rewrite Hk. Qed.

Section signed.
Context {D : Digests} {L : DigestLaws D}.

Lemma sign_v4_list secret region service method uri qs host hash amz token date :
  (sign_v4 secret region service method uri qs (headers_to_sign host hash amz token) hash amz date).2 = list_text token.
Proof. by destruct token. Qed.

Lemma signed_text key host uri body t access secret token :
  key_parts key = Some (access, secret, token) -> word access -> (match token with Some tk => all_chars printable tk = true | None => True end) ->
  0 <= t <= LAST_SECOND ->
  let region := default "us-east-1" (derive_sigv4_region host) in
  let '(amz, date) := format_amz_time t in
  let hash := sha256_hex body in
  let sig := (sign_v4 secret region BEDROCK_SERVICE "POST" uri EmptyString (headers_to_sign host hash amz token) hash amz date).1 in
  sigv4_sign_headers key host uri body t
  = [(AUTHORIZATION, authorization_text access date region BEDROCK_SERVICE (list_text token) sig); (X_AMZ_DATE, amz); (X_AMZ_CONTENT_SHA256, hash)]
    ++ match token with Some t => [(X_AMZ_SECURITY_TOKEN, t)] | None => [] end
  /\ word region /\ word sig.
Proof.
  intros Hk Ha Ht Hts region. destruct (amz_time_shape t Hts) as (_ & _ & _ & Hamz & Hdate).
  destruct (format_amz_time t) as [amz date] eqn:Ef. cbn [fst snd] in Hamz, Hdate. intros hash sig.
  assert (Hr : word region).
  { unfold region, derive_sigv4_region. destruct (region_after _) as [r|] eqn:E; [by apply region_after_word in E|]. by split. }
  assert (Hsig : word sig).
  { unfold sig, sign_v4. cbn [fst]. destruct (hex_hmac_shape (signing_key secret date region BEDROCK_SERVICE)
      (SIGV4_ALGORITHM +:+ newline +:+ amz +:+ newline +:+ (date +:+ "/" +:+ region +:+ "/" +:+ BEDROCK_SERVICE +:+ "/" +:+ SIGV4_TERMINATION)
       +:+ newline +:+ sha256_hex (canonical_request "POST" uri EmptyString
          (sort_headers ((fun kv => (str_to_ascii_lowercase kv.1, canonicalize_header_value kv.2)) <$> headers_to_sign host hash amz token))
          (String.concat ";" (sort_headers ((fun kv => (str_to_ascii_lowercase kv.1, canonicalize_header_value kv.2)) <$> headers_to_sign host hash amz token)).*1) hash))) as [H1 H2].
    split; [|exact H2]. eapply all_chars_impl; [apply lower_hex_plain|exact H1]. }
  split; [|done]. unfold sigv4_sign_headers. rewrite Hk. fold region. rewrite Ef. fold hash.
  assert (Htok : negb match token with Some t => header_value_ok t | None => true end = false).
  { destruct token as [tk|]; [|done]. by destruct (printable_value tk Ht) as [-> _]. }
  rewrite Htok. pose proof (sign_v4_list secret region BEDROCK_SERVICE "POST" uri EmptyString host hash amz token date) as Hl. unfold sig.
  destruct (sign_v4 _ _ _ _ _ _ _ _ _ _) as [sg sh] eqn:Es. cbn [fst snd] in *. subst sh.
  destruct (printable_value (authorization_text access date region BEDROCK_SERVICE (list_text token) sg)) as [-> _].
  { apply authorization_printable; try done. by destruct token. }
  destruct (printable_value amz) as [-> _]; [eapply all_chars_impl; [apply plain_printable|done]|].
  destruct (printable_value hash) as [-> _]; [eapply all_chars_impl; [intros a Hx; apply plain_printable, lower_hex_plain, Hx|apply sha256_hex_shape]|].
  done.
Qed.

(** The headers a signed request carries, as the checker collects them. *)
Definition carried (host hash amz : string) (token : option string) : list (string * string) :=
  [("content-type", CONTENT_JSON); ("host", host); (X_AMZ_DATE, amz); (X_AMZ_CONTENT_SHA256, hash)]
  ++ match token with Some t => [(X_AMZ_SECURITY_TOKEN, t)] | None => [] end.

Lemma signed_values_carried access date reg svc sig host hash amz token v :
  to_str host = Some host -> to_str hash = Some hash -> to_str amz = Some amz ->
  match token with Some tk => to_str tk = Some tk | None => True end ->
  signed_values (signed_names (mkParsed access date reg svc (list_text token) sig))
    ([("content-type", CONTENT_JSON); ("host", host); (AUTHORIZATION, v); (X_AMZ_DATE, amz); (X_AMZ_CONTENT_SHA256, hash)]
     ++ match token with Some t => [(X_AMZ_SECURITY_TOKEN, t)] | None => [] end)
  = carried host hash amz token.
Proof.
  intros Hhost Hhash Hamz Htok. unfold signed_names. cbn [signed_headers].
  destruct token as [tk|]; unfold carried;
    match goal with |- signed_values ?n _ = _ => let n' := eval vm_compute in n in change n with n' end; cbn [app];
    do 2 (rewrite signed_values_cons by done); rewrite signed_values_skip by done; do 2 (rewrite signed_values_cons by done);
    [by rewrite signed_values_cons|done].
Qed.

Lemma default_some {A} (d x : A) : default d (Some x) = x.
Proof. done. Qed.

Lemma trim_start_authorization access date reg svc sh sig :
  all_chars printable (authorization_text access date reg svc sh sig) = true ->
  trim_start (authorization_text access date reg svc sh sig) = authorization_text access date reg svc sh sig.
Proof.
  intros H. unfold trim_start. rewrite utf8_ascii.
  - rewrite <- (of_singles (authorization_text _ _ _ _ _ _)) at 2. reflexivity.
  - eapply all_chars_impl; [|exact H]. intros a Ha. unfold printable, between in Ha. rewrite andb_true_iff, !Z.leb_le in Ha. apply Z.ltb_lt. lia.
Qed.

Lemma select_carried host hash amz token :
  select_headers (split ";"%char (list_text token)) (carried host hash amz token) = Some (headers_to_sign host hash amz token).
Proof. by destruct token. Qed.

Lemma clock_skew t now : Z.abs (t - now) <= CLOCK_SKEW_SECS -> (CLOCK_SKEW_SECS <? Z.abs (t - now)) = false.
Proof. intros H. by apply Z.ltb_ge. Qed.

(** The checker, on a request whose signature is the one the signer makes. *)
Lemma verify_signed access reg svc secret host hash amz date token meth uri qs t now sig :
  parse_amz_date amz = Some t -> String.length amz = 16%nat -> String.substring 0 8 amz = date ->
  Z.abs (t - now) <= CLOCK_SKEW_SECS ->
  sig = (sign_v4 secret reg svc meth uri qs (headers_to_sign host hash amz token) hash amz date).1 ->
  verify_inbound_sigv4 (mkParsed access date reg svc (list_text token) sig)
    (mkInbound meth uri qs (carried host hash amz token) hash amz) secret now = Ok tt.
Proof.
  intros Hp Hl Hd Hnow ->. unfold verify_inbound_sigv4. cbn [amzdate datestamp signed_headers headers]. rewrite Hp.
  rewrite clock_skew by done. rewrite Hl, Hd, String.eqb_refl. cbn [Nat.ltb Nat.leb negb orb].
  assert (existsb (fun h => eq_ignore_ascii_case h "host") (split ";"%char (list_text token)) = true) as -> by by destruct token.
  cbn [negb]. rewrite select_carried.
  cbn [region service method canonical_uri canonical_querystring payload_hash amzdate signature].
  pose proof (sign_v4_list secret reg svc meth uri qs host hash amz token date) as Hlist.
  destruct (sign_v4 _ _ _ _ _ _ _ _ _ _) as [sg sh]. cbn [fst snd] in *. subst sh. by rewrite !String.eqb_refl.
Qed.

(** ** The round trip *)

(** C7. What busbar signs, busbar admits.  A request the Bedrock writer signs with a credential the node
    holds (an AWS-style id and secret of a live, enabled, undenied key, a session token or none, any path,
    host and body) passes the whole Bedrock ingress as that credential's key, as long as the two clocks
    are within five minutes: the header that is written parses back to its parts, the signed headers are
    found again on the request, and the signature recomputed over them is the one that was sent. *)
Theorem a_signed_request_is_admitted (n : Node) (key host path body access secret : string) (token : option string)
    (vk : VirtualKey) (cred : CredentialSecret) (t now now2 : Z) (inline : option StoreAnswer) :
  key_parts key = Some (access, secret, token) -> word access -> all_chars printable host = true ->
  match token with Some tk => all_chars printable tk = true | None => True end ->
  0 <= t <= LAST_SECOND -> Z.abs (t - now) <= CLOCK_SKEW_SECS ->
  lookup_credential "sigv4" access n = Some (vk, cred) -> plaintext cred = Some secret ->
  cred_live (cs_meta cred) now = true -> key_enabled vk = true -> (is_revoked_at (key_id vk) now2 inline n).1 = false ->
  let signed := sigv4_sign_headers key host (uri_encode_path path) body t in
  let r := mkRequest "POST" path None ([("content-type", CONTENT_JSON); ("host", host)] ++ signed) body in
  has_sigv4_authorization r = true /\ structurally_valid r = true /\ (verify_bedrock_sigv4 n r now now2 inline).1 = Some vk.
Proof.
  intros Hk Ha Hh Htk Ht Hskew Hl Hp Hlive Hen Hrev signed r.
  pose proof (signed_text key host (uri_encode_path path) body t access secret token Hk Ha Htk Ht) as Hs.
  destruct (amz_time_shape t Ht) as (Hparse & Hlen & Hdate & Hamz & Hw).
  destruct (format_amz_time t) as [amz date] eqn:Ef. cbn [fst snd] in *. destruct Hs as (Hs & Hreg & Hsig).
  set (reg := default "us-east-1" (derive_sigv4_region host)) in *. set (hash := sha256_hex body) in *.
  set (sig := (sign_v4 secret reg _ _ _ _ _ _ _ _).1) in *.
  assert (Hlist : all_chars header_list_char (list_text token) = true) by by destruct token.
  assert (Hauth := parse_authorization_text access date reg BEDROCK_SERVICE (list_text token) sig Ha Hw Hreg ltac:(done) Hsig Hlist
                     ltac:(by destruct token)).
  destruct (printable_value _ (authorization_printable access date reg BEDROCK_SERVICE (list_text token) sig Ha Hw Hreg ltac:(done) Hsig Hlist))
    as [_ Hv].
  assert (Hr : header AUTHORIZATION (r_headers r) = Some (authorization_text access date reg BEDROCK_SERVICE (list_text token) sig))
    by (unfold r, signed; rewrite Hs; done).
  assert (Hbody : String.eqb (sha256_hex body) (str_to_ascii_lowercase hash) = true).
  { rewrite lowercase_hex by apply sha256_hex_shape. apply String.eqb_refl. }
  assert (Hun : eq_ignore_ascii_case hash UNSIGNED_PAYLOAD = false).
  { unfold eq_ignore_ascii_case. rewrite lowercase_hex by apply sha256_hex_shape. apply String.eqb_neq. intros E.
    pose proof (proj1 (sha256_hex_shape body)) as Hx. fold hash in Hx. by rewrite E in Hx. }
  split; [|split].
  - unfold has_sigv4_authorization. rewrite Hr, trim_start_authorization; [done|].
    by apply authorization_printable.
  - unfold structurally_valid. rewrite Hr, default_some, Hauth. unfold r, signed. by rewrite Hs.
  - unfold verify_bedrock_sigv4. rewrite Hr, default_some, Hauth.
    assert (Hvals : signed_values (signed_names (mkParsed access date reg BEDROCK_SERVICE (list_text token) sig)) (r_headers r)
      = carried host hash amz token).
    { unfold r, signed. rewrite Hs. etransitivity; [|eapply (signed_values_carried access date reg BEDROCK_SERVICE sig host hash amz token)];
        [reflexivity|..].
      - by apply printable_value.
      - apply printable_value. eapply all_chars_impl; [intros a Hx; apply plain_printable, lower_hex_plain, Hx|apply sha256_hex_shape].
      - apply printable_value. eapply all_chars_impl; [apply plain_printable|done].
      - destruct token; [by apply printable_value|done]. }
    rewrite Hvals. unfold carried at 1 2. cbn [app List.find fst]. cbn [String.eqb Ascii.eqb Bool.eqb X_AMZ_CONTENT_SHA256 X_AMZ_DATE].
    rewrite Hun. cbn [r_body r]. rewrite Hbody. cbn [negb].
    cbn [access_key_id]. rewrite Hl, Hp, default_some. cbn [r r_method r_path r_query canonical_query_string].
    rewrite (verify_signed access reg BEDROCK_SERVICE secret host hash amz date token "POST" (uri_encode_path path) EmptyString t now sig) by done.
    rewrite Hlive, Hen. cbn [andb]. unfold is_revoked_at in *. cbn [fst] in *. by rewrite Hrev.
Qed.

End signed.

(** ** A concrete digest *)

Definition demo_bit (a : ascii) : ascii := if Z.even (byte_of a) then "0"%char else "1"%char.

#[local] Instance demo_digests : Digests := {
  sha256_hex s := String (if Nat.even (String.length s) then "e"%char else "d"%char) (String.concat EmptyString (repeat "0" 63));
  hmac k m := k +:+ m;
  hex s := String "f"%char (map_chars demo_bit s);
}.

Lemma map_bits_hex s : all_chars lower_hex (map_chars demo_bit s) = true.
Proof. induction s as [|a s IH]; [done|]. cbn [map_chars all_chars]. rewrite IH, andb_true_r. unfold demo_bit. by destruct (Z.even _). Qed.

#[local] Instance demo_digest_laws : DigestLaws demo_digests.
Proof.
  split.
  - intros s. cbn [sha256_hex demo_digests]. by destruct (Nat.even _).
  - intros k m. split; [|done]. cbn [hex demo_digests all_chars]. by rewrite map_bits_hex.
Qed.

Definition demo_sig_key : VirtualKey := mkKey "vk_7" "binding:vk_7:a1" "ci" None true 0 None [] None None 1.
Definition demo_sig_cred : CredentialSecret := sigv4_credential "cred_1" "vk_7" "AKIAEXAMPLE" "wJalr/K7MDENG" 5.
Definition demo_sig_node : Node :=
  mkNode {["vk_7" := demo_sig_key]} {[("sigv4", "AKIAEXAMPLE") := (demo_sig_key, demo_sig_cred)]} (RevocationSync_new ∅ 0) None [].
Definition demo_sig_host : string := "bedrock-runtime.eu-west-1.amazonaws.com".
Definition demo_sig_signed : list (string * string) :=
  sigv4_sign_headers "AKIAEXAMPLE:wJalr/K7MDENG:session token" demo_sig_host (uri_encode_path "/model/a.b:1/converse") "{}" 1790000000.

Lemma a_signed_request_is_admitted_witness :
  (verify_bedrock_sigv4 demo_sig_node
     (mkRequest "POST" "/model/a.b:1/converse" None
        ([("content-type", CONTENT_JSON); ("host", demo_sig_host)] ++ demo_sig_signed) "{}") 1790000299 1790000299 None).1
  = Some demo_sig_key.
Proof.
  apply (a_signed_request_is_admitted demo_sig_node "AKIAEXAMPLE:wJalr/K7MDENG:session token" demo_sig_host "/model/a.b:1/converse" "{}"
    "AKIAEXAMPLE" "wJalr/K7MDENG" (Some "session token") demo_sig_key demo_sig_cred 1790000000 1790000299 1790000299 None); try done.
Defined.
