(* ===== verification/AuthKeysSpec.v ===== *)
(** * AuthKeysSpec: what retiring a key promises

    A fleet of nodes over one store, each with its caches; operations one at a time, each under store
    failures of its own.  Programs of AuthKeys are specified by triples over the world; an invariant of
    the rows of one key, of the store and of the caches, is kept by every operation. *)

From Stdlib Require Import Ascii.
From stdpp Require Import pretty sorting.
From S2P Require Import Prelude Breaker Groups MemoryStore Governance Revocation AuthKeys AuthSigV4.

#[local] Open Scope Z_scope.

(** ** Triples *)

Definition triple {A} (P : World -> Prop) (m : M A) (Q : A -> World -> Prop) (E : string -> World -> Prop) : Prop :=
  forall w, P w -> match m w with (Ok a, w') => Q a w' | (Err e, w') => E e w' end.

Lemma triple_ret {A} (a : A) (P : World -> Prop) Q E : (forall w, P w -> Q a w) -> triple P (mret a) Q E.
Proof. intros H w Hw. by apply H. Qed.

Lemma triple_fail {A} e (P : World -> Prop) (Q : A -> World -> Prop) (E : string -> World -> Prop) :
  (forall w, P w -> E e w) -> triple P (fail e) Q E.
Proof. intros H w Hw. by apply H. Qed.

Lemma triple_bind {A B} (m : M A) (k : A -> M B) P Q R E :
  triple P m Q E -> (forall a, triple (Q a) (k a) R E) -> triple P (m ≫= k) R E.
Proof.
  intros Hm Hk w Hw. specialize (Hm w Hw). unfold mbind, M_bind.
  destruct (m w) as [[a|e] w'] eqn:Em; [by apply Hk|done].
Qed.

Lemma triple_weaken {A} (m : M A) P P' Q Q' (E E' : string -> World -> Prop) :
  triple P m Q E -> (forall w, P' w -> P w) -> (forall a w, Q a w -> Q' a w) -> (forall e w, E e w -> E' e w) -> triple P' m Q' E'.
Proof. intros H HP HQ HE w Hw. specialize (H w (HP w Hw)). destruct (m w) as [[a|e] w']; auto. Qed.

Lemma triple_catching {A} (m : M A) P Q E E' :
  triple P m Q E -> triple P (catching m) (fun r w => match r with Ok a => Q a w | Err e => E e w end) E'.
Proof. intros H w Hw. specialize (H w Hw). unfold catching. by destruct (m w) as [[a|e] w']. Qed.

Lemma triple_modify f (P : World -> Prop) (Q : unit -> World -> Prop) E :
  (forall w, P w -> Q tt (set_node (f (node w)) w)) -> triple P (modify f) Q E.
Proof. intros H w Hw. by apply H. Qed.

Lemma triple_asks {A} (f : World -> A) (P : World -> Prop) (Q : A -> World -> Prop) E :
  (forall w, P w -> Q (f w) w) -> triple P (asks f) Q E.
Proof. intros H w Hw. by apply H. Qed.

(** ** The rows of one key *)

Definition rows_ok (id : string) (R : VirtualKey -> Prop) (m : gmap string VirtualKey) : Prop :=
  forall i k, m !! i = Some k -> key_id k = i /\ (i = id -> R k).

Definition node_ok (id : string) (S : gset string) (Q : VirtualKey -> Prop) (n : Node) : Prop :=
  rows_ok id Q (by_id n) /\ (forall p k c, by_credential n !! p = Some (k, c) -> key_id k = id -> Q k) /\ S ⊆ set (revocations n).

Definition self_serve_group (g : option string) : Prop := exists u, g = Some (SELF_KEY_GROUP_PREFIX +:+ u).

Definition with_enabled (e : bool) (k : VirtualKey) : VirtualKey := with_binding (generation_hash k) e k.

(** ** Operations of a node *)

Section operations.
Context {C : Crypto}.

Inductive KeyOp :=
  | OMint (spec : NewKeySpec) (exp now : Z)
  | OMintWithAws (spec : NewKeySpec) (exp now : Z)
  | ODelete (i : string)
  | ORotate (i : string) (exp : Z)
  | ORevoke (i reason : string)
  | OUpdate (i : string) (enabled : option bool) (group : option (option string))
  | OIssueSelf (user : string) (pools : option (list string)) (exp now : Z)
  | ORefreshSelf (user : string) (pools : option (list string)) (exp now : Z)
  | ORefresh
  | OSync (now : Z) (inline : option StoreAnswer)
  | OSign (signer : option TokenSigner).

(** An operation, and whether it found what it is about. *)
Definition perform (op : KeyOp) : M bool :=
  match op with
  | OMint spec exp now => _ ← mint_signed spec exp now; mret true
  | OMintWithAws spec exp now => _ ← mint_signed_with_aws spec exp now; mret true
  | ODelete i => _ ← AuthKeys.delete_key i; mret true
  | ORotate i exp => r ← rotate_key i exp; mret (bool_decide (is_Some r))
  | ORevoke i reason => _ ← AuthKeys.revoke i reason; mret true
  | OUpdate i enabled group => r ← update_key i enabled group; mret (bool_decide (is_Some r))
  | OIssueSelf user pools exp now => _ ← issue_self user pools exp now; mret true
  | ORefreshSelf user pools exp now => _ ← refresh_self user pools exp now; mret true
  | ORefresh => _ ← refresh; mret true
  | OSync now inline => _ ← modify (sync_revocations_if_stale now inline); mret true
  | OSign signer => _ ← modify (set_signing_key signer); mret true
  end.

End operations.

Lemma union_l (a b : gset string) : b ⊆ a ∪ b.
Proof. set_solver. Qed.

Lemma advance_monotone t answer n : set n ⊆ set (advance t answer n).2.
Proof. destruct t; cbn [advance]; repeat case_match; cbn; try done; apply union_l. Qed.

Lemma sync_monotone now inline n : set (revocations n) ⊆ set (revocations (sync_revocations_if_stale now inline n)).
Proof.
  destruct inline as [answer|]; [|done]. cbn. unfold refresh_if_stale, run_task. generalize 8%nat. intros k. generalize (TStart now). intros t.
  induction k as [|k IH]; [done|]. rewrite Nat.iter_succ. destruct (Nat.iter k _ _) as [t' n'] eqn:E. cbn [snd] in IH.
  etransitivity; [exact IH|]. apply advance_monotone.
Qed.

Section invariant.
Context {C : Crypto} (id : string) (G : option string -> Prop).

(** A draw that is neither the key's id again nor one of the generations. *)
Definition fresh_draw (d : option (list Z)) : Prop :=
  match d with
  | Some l => VK_ID_PREFIX +:+ hex_encode (take 16 l) <> id /\ ~ G (Some (hex_encode (take 16 l)))
  | None => True
  end.

Definition durable (e : string) : bool := String.prefix REVOCATION_DURABLE_MARKER e || String.prefix ROTATION_DURABLE_MARKER e.

(** The store's own error texts are not the two markers. *)
Definition plain_fault (f : Fault) : Prop := match f with Works => True | Refused e | Lost e => durable e = false end.

Definition J (S : gset string) (R Q : VirtualKey -> Prop) (w : World) : Prop :=
  rows_ok id R (keys (store w)) /\ node_ok id S Q (node w) /\ Forall fresh_draw (entropy w) /\ Forall plain_fault (faults w).

(** What a predicate on the rows must survive; [re]: whether the key may be enabled again. *)
Record stable (re : bool) (R Q : VirtualKey -> Prop) : Prop := {
  st_load k : R k -> key_live k = true -> Q k;
  st_group k : Q k -> ~ self_serve_group (key_group k);
  st_revision r k : R k -> R (key_with_revision r k);
  st_tombstone now r k : R k -> R (tombstone now r k);
  st_binding g e k : R k -> key_live k = true -> ~ G (Some g) -> (e = true -> key_enabled k = true) ->
    R (with_binding (binding_marker (key_id k) g) e k);
  st_enabled e k : R k -> key_live k = true -> (e = true -> re = true) -> R (with_enabled e k);
  st_regroup g k : R k -> key_live k = true -> ~ self_serve_group g -> R (with_group g k);
}.

Lemma rows_ok_sub R m m' : m' ⊆ m -> rows_ok id R m -> rows_ok id R m'.
Proof. intros Hs H i k Hk. apply H. by eapply lookup_weaken. Qed.

Lemma rows_ok_impl R R' m : (forall k, R k -> R' k) -> rows_ok id R m -> rows_ok id R' m.
Proof. intros HR H i k Hk. destruct (H i k Hk). auto. Qed.

Lemma node_ok_impl S Q Q' n : (forall k, Q k -> Q' k) -> node_ok id S Q n -> node_ok id S Q' n.
Proof. intros HQ (H1 & H2 & H3). split_and!; [by eapply rows_ok_impl| |done]. intros p k c Hp Hk. by eapply HQ, H2. Qed.

Lemma put_key_rows R now key s :
  (forall r k, R k -> R (key_with_revision r k)) -> rows_ok id R (keys s) -> (key_id key = id -> R key) ->
  rows_ok id R (keys (put_key now key s).2).
Proof.
  intros Hr H Hkey i k Hk. apply put_key_lookup in Hk as [Hk|[-> ->]]; [by apply H|]. split; [done|]. intros E. by apply Hr, Hkey.
Qed.

Lemma delete_key_rows R now i s :
  (forall now r k, R k -> R (tombstone now r k)) -> rows_ok id R (keys s) -> rows_ok id R (keys (MemoryStore.delete_key now i s).2).
Proof.
  intros Ht H. unfold MemoryStore.delete_key. destruct (keys s !! i) as [key|] eqn:E; [|done]. case_bool_decide; [done|].
  intros j k Hk. cbn in Hk. apply lookup_insert_Some in Hk as [[<- <-]|[_ Hk]]; [|by apply H].
  destruct (H i key E) as [Hi HR]. split; [done|]. intros Hid. by apply Ht, HR.
Qed.

Lemma put_key_with_credential_rows R now key c s :
  (forall r k, R k -> R (key_with_revision r k)) -> rows_ok id R (keys s) -> (key_id key = id -> R key) ->
  rows_ok id R (keys (put_key_with_credential now key c s).2).
Proof.
  intros Hr H Hkey. pose proof (put_key_rows R now key s Hr H Hkey) as Hp. unfold put_key_with_credential.
  destruct (put_key now key s) as [[u|e] s']; cbn [snd] in *; [by rewrite put_credential_keys|done].
Qed.

Lemma revoke_credential_keys now i reason s : keys (MemoryStore.revoke_credential now i reason s).2 = keys s.
Proof. unfold MemoryStore.revoke_credential. destruct (creds s !! i); [|done]. by case_bool_decide. Qed.

Lemma list_keys_elem k s : k ∈ list_keys s -> exists i, keys s !! i = Some k.
Proof.
  unfold list_keys. rewrite merge_sort_Permutation. intros Hk. apply list_elem_of_fmap in Hk as ([i k'] & -> & Hik).
  exists i. by apply elem_of_map_to_list in Hik.
Qed.

Lemma load_Some rows i k : load rows !! i = Some k -> k ∈ rows /\ key_live k = true /\ key_id k = i.
Proof.
  unfold load. induction rows as [|x rows IH] using rev_ind; [by cbn [foldl]; rewrite lookup_empty|]. rewrite foldl_app. cbn [foldl].
  destruct (key_live x) eqn:E.
  - rewrite lookup_insert_Some. intros [[<- <-]|[_ H]]; [split_and!; [apply elem_of_app; right; by left|done..]|]. destruct (IH H) as (? & ? & ?). split_and!; [apply elem_of_app; by left|done..].
  - intros H. destruct (IH H) as (? & ? & ?). split_and!; [apply elem_of_app; by left|done..].
Qed.

Lemma load_by_credential_Some creds m now p k c : load_by_credential creds m now !! p = Some (k, c) -> exists i, m !! i = Some k.
Proof.
  unfold load_by_credential. induction creds as [|x creds IH] using rev_ind; [by cbn [foldl]; rewrite lookup_empty|]. rewrite foldl_app. cbn [foldl].
  destruct (cred_live _ _); [|done]. destruct (m !! cm_key_id (cs_meta x)) as [key|] eqn:E; [|done].
  rewrite lookup_insert_Some. intros [[_ [= <- _]]|[_ H]]; [by eexists|auto].
Qed.

(** ** Calls and reads *)

Lemma J_store S R R' Q s w : J S R Q w -> rows_ok id R' (keys s) -> J S R' Q (set_store s w).
Proof. intros (H1 & H2 & H3 & H4) H. by split_and!. Qed.

Lemma J_node S S' R Q Q' n w : J S R Q w -> node_ok id S' Q' n -> J S' R Q' (set_node n w).
Proof. intros (H1 & H2 & H3 & H4) H. by split_and!. Qed.

Lemma J_pop S R Q w : J S R Q w -> J S R Q (set_faults (tail (faults w)) w).
Proof. intros (H1 & H2 & H3 & H4). split_and!; try done. cbn [faults set_faults]. by destruct (faults w) as [|? ?]; [|inversion H4]. Qed.

Lemma J_impl S R R' Q Q' w : (forall k, R k -> R' k) -> (forall k, Q k -> Q' k) -> J S R Q w -> J S R' Q' w.
Proof. intros HR HQ (H1 & H2 & H3 & H4). split_and!; [by eapply rows_ok_impl|by eapply node_ok_impl|done..]. Qed.

(** A call that keeps the rows, whatever the store answers. *)
Lemma call_keeps {A} (op : Z -> MemoryStore -> Result A string * MemoryStore) S R Q :
  (forall now s, rows_ok id R (keys s) -> rows_ok id R (keys (op now s).2)) ->
  triple (J S R Q) (call op) (fun _ => J S R Q) (fun _ => J S R Q).
Proof.
  intros Hop w Hw. pose proof (J_pop _ _ _ _ Hw) as Hp. pose proof (Hop (clock w) (store w) (proj1 Hw)) as Hk. unfold call.
  destruct (default Works (head (faults w))); [|done|]; destruct (op (clock w) (store w)) as [[a|e'] s]; cbn [snd] in Hk;
    by eapply J_store.
Qed.

(** A call whose success establishes [R'] of the rows. *)
Lemma call_establishes {A} (op : Z -> MemoryStore -> Result A string * MemoryStore) S R R' Q :
  (forall now s, rows_ok id R (keys s) ->
     match op now s with (Ok _, s') => rows_ok id R' (keys s') | (Err e, _) => durable e = false end) ->
  triple (J S R Q) (call op) (fun _ => J S R' Q) (fun e _ => durable e = false).
Proof.
  intros Hop w Hw. pose proof (J_pop _ _ _ _ Hw) as Hp. pose proof (Hop (clock w) (store w) (proj1 Hw)) as Hk. unfold call.
  destruct Hw as (_ & _ & _ & Hf).
  destruct (faults w) as [|f l]; cbn [head default from_option tail] in *.
  - destruct (op _ _) as [[a|e] s]; [by eapply J_store|done].
  - apply Forall_cons in Hf as [Hf _]. destruct f; cbn in *; [|done|]; destruct (op _ _) as [[a|e'] s]; try done. by eapply J_store.
Qed.

Lemma read_knows {A} (f : MemoryStore -> A) S R Q (Phi : A -> Prop) :
  (forall s, rows_ok id R (keys s) -> Phi (f s)) ->
  triple (J S R Q) (read f) (fun a w => J S R Q w /\ Phi a) (fun e w => J S R Q w /\ durable e = false).
Proof.
  intros Hf w Hw. pose proof (J_pop _ _ _ _ Hw) as Hp. unfold read, call.
  destruct Hw as (Hr & _ & _ & Hfl).
  destruct (faults w) as [|x l]; cbn [head default from_option tail] in *; [by split; [eapply J_store|auto]|].
  apply Forall_cons in Hfl as [Hx _]. destruct x; cbn in *; [by split; [eapply J_store|auto]| |]; split; try done.
Qed.

(** The hypotheses of a triple that do not read the world. *)
Lemma triple_pure {A} (P : World -> Prop) (phi : Prop) (m : M A) Q E : (phi -> triple P m Q E) -> triple (fun w => P w /\ phi) m Q E.
Proof. intros H w [Hw Hphi]. by apply H. Qed.

Lemma getrandom_fresh S R Q len :
  triple (J S R Q) (getrandom len)
    (fun l w => J S R Q w /\ (len = 16%nat -> VK_ID_PREFIX +:+ hex_encode l <> id /\ ~ G (Some (hex_encode l))))
    (fun e w => J S R Q w /\ durable e = false).
Proof.
  intros w (H1 & H2 & H3 & H4). unfold getrandom.
  assert (Hj : J S R Q (set_entropy (tail (entropy w)) w)).
  { split_and!; try done. cbn [entropy set_entropy]. by destruct (entropy w) as [|? ?]; [|inversion H3]. }
  destruct (entropy w) as [|[l|] ds]; cbn [head] in *; [done| |done].
  split; [done|]. intros ->. by apply Forall_cons in H3 as [[? ?] _].
Qed.

Lemma refresh_establishes S R Q Q' :
  (forall k, R k -> key_live k = true -> Q' k) ->
  triple (J S R Q) refresh (fun _ => J S R Q') (fun e w => J S R Q w /\ durable e = false).
Proof.
  intros HQ. unfold refresh. eapply triple_bind.
  { apply (read_knows list_keys _ _ _ (fun rows => forall k, k ∈ rows -> key_id k = id -> R k)).
    intros s Hs k Hk E. apply list_keys_elem in Hk as [i Hi]. destruct (Hs i k Hi) as [<- HR]. auto. }
  intros rows. apply triple_pure. intros Hrows. eapply triple_bind; [apply (read_knows _ _ _ _ (fun _ => True)); done|].
  intros cs. apply triple_pure. intros _. eapply triple_bind; [by apply triple_asks with (Q := fun _ => J S R Q)|].
  intros now. apply triple_modify. intros w Hw. eapply J_node; [exact Hw|].
  assert (Hload : forall i k, load rows !! i = Some k -> key_id k = i /\ (i = id -> Q' k)).
  { intros i k Hk. apply load_Some in Hk as (Hin & Hl & E). split; [done|]. intros ->. apply HQ; [by apply Hrows|done]. }
  destruct Hw as (_ & (_ & _ & HS) & _). split_and!; [exact Hload| |done]. intros p k c Hp E.
  apply load_by_credential_Some in Hp as [i Hi]. destruct (Hload i k Hi) as [<- H]. by apply H.
Qed.

Lemma evict_establishes S R Q : triple (J S R Q) (evict_key_from_caches id) (fun _ => J S R (fun _ => False)) (fun _ _ => False).
Proof.
  apply triple_modify. intros w Hw. eapply J_node; [exact Hw|]. destruct Hw as (_ & (H1 & H2 & HS) & _).
  split_and!; [| |done].
  - intros i k. cbn. rewrite lookup_delete_Some. intros [Hne Hk]. split; [by apply (H1 i)|]. congruence.
  - intros p k c. cbn. rewrite map_lookup_filter_Some. cbn. by intros [_ Hne].
Qed.

Lemma evict_keeps i S R Q : triple (J S R Q) (evict_key_from_caches i) (fun _ => J S R Q) (fun _ _ => False).
Proof.
  apply triple_modify. intros w Hw. eapply J_node; [exact Hw|]. destruct Hw as (_ & (H1 & H2 & HS) & _).
  split_and!; [| |done].
  - eapply rows_ok_sub; [|exact H1]. apply delete_subseteq.
  - intros p k c. cbn. rewrite map_lookup_filter_Some. intros [Hp _]. by eapply H2.
Qed.

(** ** Every operation keeps the rows *)

Context (re : bool) (S : gset string) (R Q : VirtualKey -> Prop) (St : stable re R Q).

Let K {A} (m : M A) : Prop := triple (J S R Q) m (fun _ => J S R Q) (fun _ => J S R Q).

Lemma K_bind {A B} (m : M A) (k : A -> M B) : K m -> (forall a, K (k a)) -> K (m ≫= k).
Proof. intros Hm Hk. by eapply triple_bind. Qed.

Lemma K_ret {A} (a : A) : K (mret a).
Proof. by apply triple_ret. Qed.

Lemma K_fail {A} e : K (fail e : M A).
Proof. by apply triple_fail. Qed.

Lemma K_catching {A} (m : M A) : K m -> K (catching m).
Proof. intros H. eapply triple_weaken; [by eapply (triple_catching m) with (E' := fun _ => J S R Q)|done| |done]. by intros [a|e] w. Qed.

Lemma K_asks {A} (f : World -> A) : K (asks f).
Proof. by apply triple_asks. Qed.

Lemma K_read {A} (f : MemoryStore -> A) : K (read f).
Proof. apply call_keeps. done. Qed.

Lemma K_signing e : K (signing_material e).
Proof. intros w Hw. unfold signing_material. by destruct (signing (node w)). Qed.

Lemma K_evict i : K (evict_key_from_caches i).
Proof. eapply triple_weaken; [apply evict_keeps|done..]. Qed.

Lemma K_refresh : K refresh.
Proof. eapply triple_weaken; [by apply (refresh_establishes S R Q Q), St|done|done|by intros e w []]. Qed.

Lemma K_put key : (key_id key = id -> R key) -> K (call (fun now => put_key now key)).
Proof. intros H. apply call_keeps. intros now s Hs. apply put_key_rows; [apply St|done..]. Qed.

Lemma K_put_with_credential key c : (key_id key = id -> R key) -> K (call (fun now => put_key_with_credential now key c)).
Proof. intros H. apply call_keeps. intros now s Hs. apply put_key_with_credential_rows; [apply St|done..]. Qed.

Lemma K_tombstone i : K (call (fun now => MemoryStore.delete_key now i)).
Proof. apply call_keeps. intros now s Hs. apply delete_key_rows; [apply St|done]. Qed.

Lemma K_cells i : K (modify (fun n => set_cells (remove_cell i (cells n)) n)).
Proof. apply triple_modify. intros w Hw. eapply J_node; [done|apply Hw]. Qed.

(** A fresh draw, then a program that may count on it. *)
Lemma K_draw {B} (k : list Z -> M B) len :
  (forall l, (len = 16%nat -> VK_ID_PREFIX +:+ hex_encode l <> id /\ ~ G (Some (hex_encode l))) -> K (k l)) -> K (getrandom len ≫= k).
Proof.
  intros H. eapply triple_bind; [eapply triple_weaken; [apply getrandom_fresh|done|done|by intros e w []]|].
  intros l. apply triple_pure, H.
Qed.

Lemma K_generation {B} (k : string -> M B) : (forall g, ~ G (Some g) -> K (k g)) -> K (generate_binding_generation ≫= k).
Proof.
  intros H. unfold generate_binding_generation. intros w Hw.
  pose proof (K_draw (fun raw => k (hex_encode raw)) 16) as Hd. specialize (Hd ltac:(intros l Hl; apply H, Hl; done) w Hw).
  unfold mbind, M_bind in *. destruct (getrandom 16 w) as [[l|e] w']; exact Hd.
Qed.

(** A row read from the store, then a program that may count on what is known of it. *)
Lemma triple_row {B} (i : string) (k : option VirtualKey -> M B) T :
  (forall row, match row with Some key => key_id key = i /\ (i = id -> R key) | None => True end -> triple (J S R Q) (k row) T (fun _ => J S R Q)) ->
  triple (J S R Q) (read (get_key i) ≫= k) T (fun _ => J S R Q).
Proof.
  intros H. eapply triple_bind.
  - eapply triple_weaken; [apply (read_knows (get_key i) S R Q (fun row => match row with Some key => key_id key = i /\ (i = id -> R key) | None => True end))
      |done|done|by intros e w []].
    intros s Hs. unfold get_key. destruct (keys s !! i) as [key|] eqn:E; [|done]. by apply Hs.
  - intros row. apply triple_pure, H.
Qed.

Lemma K_row {B} (i : string) (k : option VirtualKey -> M B) :
  (forall row, match row with Some key => key_id key = i /\ (i = id -> R key) | None => True end -> K (k row)) ->
  K (read (get_key i) ≫= k).
Proof. apply triple_row. Qed.

(** What the caches say of a row. *)
Lemma K_current {B} user (k : option VirtualKey -> M B) :
  (forall row, match row with Some key => key_id key <> id | None => True end -> K (k row)) ->
  K (asks (fun w => current_self_binding user (node w)) ≫= k).
Proof.
  intros H w Hw. unfold mbind, M_bind, asks. apply H; [|done]. unfold current_self_binding.
  destruct (List.find _ _) as [key|] eqn:E; [|done]. apply List.find_some in E as [Hin Hp].
  rewrite !andb_true_iff, bool_decide_eq_true in Hp. destruct Hp as [_ Hg]. intros Hid.
  apply list_elem_of_In, list_elem_of_fmap in Hin as ([i k'] & -> & Hik). apply elem_of_map_to_list in Hik.
  destruct Hw as (_ & (Hn & _) & _). destruct (Hn i k' Hik) as [E HQ]. cbn [snd] in *.
  apply (st_group _ _ _ St k'); [apply HQ; congruence|by eexists].
Qed.

Ltac keeps :=
  repeat first
    [ apply K_ret | apply K_fail | apply K_asks | apply K_signing | apply K_refresh | apply K_evict | apply K_cells | apply K_tombstone
    | apply K_read | apply K_catching | (apply K_generation; intros ? ?) | (apply K_bind; [|intros ?]) ].

Context (not_self : forall seed user epoch, derive_self_subject seed user epoch <> id).

Lemma K_delete_key i : K (delete_key i).
Proof. unfold delete_key. keeps. case_match; keeps. Qed.

Lemma K_rotate_key i exp : K (rotate_key i exp).
Proof.
  unfold rotate_key. apply K_row. intros [key|] Hrow; [|keeps]. destruct (key_live key) eqn:El; [|keeps]. keeps; [|case_match; keeps].
  apply K_put. cbn. intros E. destruct Hrow as [Hk HR]. apply (st_binding _ _ _ St); [apply HR; congruence|done..].
Qed.

Lemma K_revoke_credentials reason l : K (revoke_credentials reason l).
Proof.
  induction l as [|c l IH]; cbn [revoke_credentials]; [keeps|]. case_bool_decide; [|done]. keeps; [|done].
  apply call_keeps. intros now s. by rewrite revoke_credential_keys.
Qed.

Lemma K_update_key i en g :
  (i = id -> (en = Some true -> re = true) /\ (forall g', g = Some g' -> ~ self_serve_group g')) -> K (update_key i en g).
Proof.
  intros Hi. unfold update_key. apply K_row. intros [key|] Hrow; [|keeps]. destruct (key_live key) eqn:El; [|keeps]. keeps.
  apply K_put. intros E. destruct Hrow as [Hk HR].
  assert (Ei : i = id) by (by destruct en, g; cbn in E; congruence). destruct (Hi Ei) as [Hen Hg].
  assert (HRk : R match en with Some e => with_binding (generation_hash key) e key | None => key end).
  { destruct en as [e|]; [|auto]. apply (st_enabled _ _ _ St); [auto|done|]. intros ->. auto. }
  destruct g as [g|]; [|done]. apply St; [done|by destruct en|auto].
Qed.

Lemma K_write_self_binding material user pools epoch exp now : K (write_self_binding material user pools epoch exp now).
Proof.
  unfold write_self_binding. eapply triple_bind with (Q := fun found w => J S R Q w /\ found.1 <> id).
  - set (from := epoch). generalize 0. generalize MAX_PROBES. intros probes. induction probes as [|probes IH]; intros stride; cbn [first_free_self_epoch]; [by apply triple_fail|].
    eapply triple_bind; [apply K_read|]. intros row. destruct (match row with Some _ => _ | None => _ end); [apply IH|].
    apply triple_ret. intros w Hw. split; [done|]. apply not_self.
  - intros [i e]. apply triple_pure. cbn. intros Hi. keeps. by apply K_put.
Qed.

Lemma K_issue_self user pools exp now : K (issue_self user pools exp now).
Proof.
  unfold issue_self. apply K_bind; [keeps|]. intros material. apply K_current. intros [row|] Hrow; [|apply K_write_self_binding].
  case_bool_decide; keeps. by apply K_put.
Qed.

Lemma K_refresh_self user pools exp now : K (refresh_self user pools exp now).
Proof.
  unfold refresh_self. apply K_bind; [keeps|]. intros material. apply K_bind; [keeps|]. intros current.
  destruct (match current with Some _ => _ | None => _ end) as [e old]. apply K_bind; [apply K_write_self_binding|]. intros out.
  destruct old as [old|]; [|keeps]. case_match; [keeps|]. apply K_bind; [keeps|]. intros deleted. case_match.
  - keeps. case_match; keeps.
  - apply K_bind; [apply K_catching, K_delete_key|]. intros rolled_back. keeps.
Qed.

Lemma K_getrandom len : K (getrandom len).
Proof. eapply triple_weaken; [apply getrandom_fresh|done|by intros l w []|by intros e w []]. Qed.

Lemma K_fresh_id {B} (k : string -> M B) : (forall i, i <> id -> K (k i)) -> K (fresh_id ≫= k).
Proof.
  intros H w Hw. pose proof (K_draw (fun raw => k (VK_ID_PREFIX +:+ hex_encode raw)) 16) as Hd.
  specialize (Hd ltac:(intros l Hl; apply H, Hl; done) w Hw). unfold fresh_id, mbind, M_bind in *.
  destruct (getrandom 16 w) as [[l|e] w']; exact Hd.
Qed.

Lemma K_mint_signed spec exp now : K (mint_signed spec exp now).
Proof. unfold mint_signed. apply K_bind; [keeps|]. intros m. apply K_fresh_id. intros i Hi. keeps. by apply K_put. Qed.

Lemma K_mint_signed_with_aws spec exp now : K (mint_signed_with_aws spec exp now).
Proof.
  unfold mint_signed_with_aws. apply K_bind; [keeps|]. intros m. apply K_fresh_id. intros i Hi.
  apply K_generation. intros g Hg. do 3 (apply K_bind; [try (apply K_bind; [|intros l; apply K_ret]); apply K_getrandom|intros ?]).
  apply K_bind; [by apply K_put_with_credential|]. intros u. keeps.
Qed.

Lemma revoke_new_key sub row :
  match row with Some key => key_id key = sub /\ (sub = id -> R key) | None => True end ->
  triple (J S R Q)
    match row with
    | Some key =>
        if key_live key then
          generation ← generate_binding_generation;
          let key := with_binding (binding_marker (key_id key) generation) false key in
          _ ← call (fun now => put_key now key); mret (Some key)
        else mret None
    | None => mret None
    end
    (fun new_key w => J S R Q w /\ match new_key with Some key => key_id key = sub /\ (sub = id -> Q key) | None => True end)
    (fun _ => J S R Q).
Proof.
  intros Hrow. destruct row as [key|]; [|by apply triple_ret]. destruct (key_live key) eqn:El; [|by apply triple_ret].
  destruct Hrow as [Hk HR]. eapply triple_bind with (Q := fun g w => J S R Q w /\ ~ G (Some g)).
  - intros w Hw. pose proof (getrandom_fresh S R Q 16 w Hw) as Hd. unfold generate_binding_generation, mbind, M_bind, mret, M_ret.
    destruct (getrandom 16 w) as [[l|e] w']; [|apply Hd]. destruct Hd as [Hj Hf]. by destruct (Hf eq_refl).
  - intros g. apply triple_pure. intros Hg.
    assert (HR' : sub = id -> R (with_binding (binding_marker (key_id key) g) false key)).
    { intros E. by apply (st_binding _ _ _ St); auto. }
    cbn zeta. eapply triple_bind; [apply K_put; cbn; intros E; apply HR'; congruence|]. intros u. apply triple_ret.
    intros w Hw. split_and!; [done|done|]. intros E. apply (st_load _ _ _ St); auto.
Qed.

Lemma node_revoked sub new_key (creds : list (string * string)) n :
  match new_key with Some key => key_id key = sub /\ (sub = id -> Q key) | None => True end -> node_ok id S Q n ->
  node_ok id ({[sub]} ∪ S) Q
    (let n := set_revocations (insert_sub sub (revocations n)) n in
     set_caches (match new_key with Some key => <[sub := key]> (by_id n) | None => by_id n end)
      (foldl (fun m kp => delete kp m) (by_credential n) creds) n).
Proof.
  intros Hkey (H1 & H2 & HS). split_and!; cbn.
  - destruct new_key as [key|]; [|done]. intros i k. rewrite lookup_insert_Some. intros [[<- <-]|[_ Hk]]; [done|by apply H1].
  - intros p k c Hp. apply (H2 p k c). revert Hp. clear. induction creds as [|x creds IH] using rev_ind; [done|].
    rewrite foldl_app. cbn. rewrite lookup_delete_Some. intros [_ H]. by apply IH.
  - set_solver.
Qed.

Lemma revoke_denies sub reason :
  triple (J S R Q) (AuthKeys.revoke sub reason) (fun _ => J ({[sub]} ∪ S) R Q) (fun _ => J S R Q).
Proof.
  unfold AuthKeys.revoke. eapply triple_bind; [apply K_read|]. intros cs. eapply triple_bind; [apply K_revoke_credentials|]. intros revoked.
  eapply triple_bind; [apply (call_keeps (fun _ s => (Ok tt, add_denylist sub s))); done|]. intros u.
  apply triple_row. intros row Hrow. eapply triple_bind; [by apply revoke_new_key|]. intros new_key. apply triple_pure. intros Hnew.
  apply triple_modify. intros w Hw. eapply J_node; [done|]. apply node_revoked; [done|]. apply Hw.
Qed.

Lemma K_revoke sub reason : K (AuthKeys.revoke sub reason).
Proof.
  eapply triple_weaken; [apply revoke_denies|done| |done]. intros u w (H1 & (H2 & H3 & HS) & H4). split; [done|]. split; [|done]. split_and!; [done..|set_solver].
Qed.

(** ** All of them *)

(** What an administrator may not do to the key: give it to a self-serve user, or enable it again when [re] is false. *)
Definition allowed (op : KeyOp) : Prop :=
  match op with
  | OUpdate i en g => i = id -> (en = Some true -> re = true) /\ (forall g', g = Some g' -> ~ self_serve_group g')
  | _ => True
  end.

Lemma K_perform op : allowed op -> K (perform op).
Proof.
  intros Ho. destruct op; cbn [perform]; (apply K_bind; [|intros; apply K_ret]).
  - apply K_mint_signed.
  - apply K_mint_signed_with_aws.
  - apply K_delete_key.
  - apply K_rotate_key.
  - apply K_revoke.
  - by apply K_update_key.
  - apply K_issue_self.
  - apply K_refresh_self.
  - apply K_refresh.
  - apply triple_modify. intros w Hw. eapply J_node; [done|]. destruct Hw as (_ & (H1 & H2 & HS) & _).
    pose proof (sync_monotone now inline (node w)). destruct inline; split_and!; try done; set_solver.
  - apply triple_modify. intros w Hw. eapply J_node; [done|apply Hw].
Qed.

End invariant.

(** ** What retires a key *)

Section retirement.
Context {C : Crypto} (id : string) (G : option string -> Prop) (re : bool).
Context (plain_id : has_char ":"%char id = false) (not_self : forall seed user epoch, derive_self_subject seed user epoch <> id).

Definition nonself (k : VirtualKey) : Prop := ~ self_serve_group (key_group k).
Definition off (k : VirtualKey) : Prop := nonself k /\ key_enabled k = false.
Definition rotated (k : VirtualKey) : Prop := nonself k /\ key_id k = id /\ ~ G (binding_generation (generation_hash k)).
Definition dead (k : VirtualKey) : Prop := key_live k = false.
Definition gone (k : VirtualKey) : Prop := False.

Lemma stable_nonself : stable G re nonself nonself.
Proof. split; try done. Qed.

Lemma stable_off : re = false -> stable G re off off.
Proof.
  intros Hre. split; try done.
  - by intros k [].
  - intros now r k [? ?]. done.
  - intros g e k [? Hk] _ _ He. split; [done|]. cbn. destruct e; [|done]. by rewrite He in Hk.
  - intros e k [? Hk] _ He. split; [done|]. cbn. destruct e; [|done]. rewrite Hre in He. by specialize (He eq_refl).
  - intros g k [? Hk] _ Hg. done.
Qed.

Lemma stable_rotated : stable G re rotated rotated.
Proof.
  split; try done.
  - by intros k (? & ? & ?).
  - intros g e k (? & Hid & ?) _ Hg _. split_and!; [done|done|].
    change (~ G (binding_generation (binding_marker (key_id k) g))). by rewrite binding_generation_marker by (by rewrite Hid).
  - intros g k (? & Hid & ?) _ Hg. done.
Qed.

Lemma stable_dead : stable G re dead gone.
Proof. split; unfold dead; try done; intros; congruence.
Qed.

Lemma put_key_sets now key s k u s' :
  put_key now key s = (Ok u, s') -> keys s' !! key_id key = Some k -> exists r, k = key_with_revision r key.
Proof.
  unfold put_key. destruct (clears_tombstone key s); [done|]. cbn. intros [= _ <-]. destruct (_ =? 0); cbn.
  - rewrite map_lookup_filter_Some, lookup_insert_eq. intros [[= <-] _]. by eexists.
  - rewrite lookup_insert_eq. intros [= <-]. by eexists.
Qed.

(** A put of the key's own row establishes whatever holds of it. *)
Lemma put_establishes (R' : VirtualKey -> Prop) key S Q :
  key_id key = id -> (forall r, R' (key_with_revision r key)) ->
  triple (J id G S nonself Q) (call (fun now => put_key now key)) (fun _ => J id G S R' Q) (fun e _ => durable e = false).
Proof.
  intros Hk HR. apply call_establishes. intros now s Hs. destruct (put_key now key s) as [[u|e] s'] eqn:E.
  - intros i k Hi. pose proof (put_key_lookup now key s i k) as Hl. rewrite E in Hl. destruct (Hl Hi) as [Ho|[-> ->]].
    + split; [by apply (Hs i k)|]. intros ->. rewrite <- Hk in Hi. by destruct (put_key_sets _ _ _ _ _ _ E Hi) as [r ->].
    + by split.
  - unfold put_key in E. destruct (clears_tombstone key s); [|done]. by injection E as <- _.
Qed.

Lemma delete_establishes S Q :
  triple (J id G S nonself Q) (call (fun now => MemoryStore.delete_key now id)) (fun _ => J id G S dead Q) (fun e _ => durable e = false).
Proof.
  apply call_establishes. intros now s Hs. unfold MemoryStore.delete_key. destruct (keys s !! id) as [key|] eqn:E; [|done].
  case_bool_decide as Hd.
  - intros i k Hk. split; [by apply (Hs i k)|]. intros ->. rewrite E in Hk. injection Hk as <-. unfold dead, key_live.
    apply bool_decide_eq_false. intros Hn. rewrite Hn in Hd. by destruct Hd.
  - intros i k Hk. cbn in Hk. apply lookup_insert_Some in Hk as [[<- <-]|[Hne Hk]].
    + split; [by apply (Hs id key)|]. done.
    + split; [by apply (Hs i k)|]. congruence.
Qed.

Lemma delete_retires :
  triple (J id G ∅ nonself nonself) (AuthKeys.delete_key id) (fun _ => J id G ∅ dead gone) (fun e w => durable e = true -> J id G ∅ dead gone w).
Proof.
  unfold AuthKeys.delete_key. eapply triple_bind.
  { eapply triple_weaken; [apply delete_establishes|done|done|]. intros e w He Hd. congruence. }
  intros u. eapply triple_bind; [eapply triple_weaken; [apply evict_establishes|done|done|done]|]. intros v.
  eapply triple_bind; [eapply (triple_weaken _ _ _ _ (fun _ => J id G ∅ dead gone)); [apply triple_catching with (E' := fun _ _ => False);
    by apply (refresh_establishes id G ∅ dead gone gone), stable_dead|done| |done]|].
  { intros [r|r] w; [done|by intros []]. }
  intros refreshed. eapply triple_bind with (Q := fun _ => J id G ∅ dead gone).
  { apply triple_modify. intros w Hw. eapply J_node; [done|apply Hw]. }
  intros x. destruct refreshed; [by apply triple_ret|]. by apply triple_fail.
Qed.

Lemma freeze_retires group :
  (forall g', group = Some g' -> ~ self_serve_group g') ->
  triple (J id G ∅ nonself nonself) (update_key id (Some false) group)
    (fun r w => is_Some r -> J id G ∅ off off w) (fun _ _ => True).
Proof.
  intros Hg. unfold update_key. eapply triple_bind.
  { eapply triple_weaken; [apply (read_knows id G (get_key id) ∅ nonself nonself
      (fun row => match row with Some key => key_id key = id /\ nonself key | None => True end))|done|done|done].
    intros s Hs. unfold get_key. destruct (keys s !! id) as [key|] eqn:E; [|done]. destruct (Hs id key E). auto. }
  intros row. apply triple_pure. intros Hrow. destruct row as [key|]; [|apply triple_ret; by intros w _ []].
  destruct (key_live key); [|apply triple_ret; by intros w _ []]. destruct Hrow as [Hk Hn].
  set (key' := match group with Some g => with_group g _ | None => _ end).
  assert (Hoff : off key') by (destruct group as [g|]; [|done]; split; [by apply (Hg g)|done]).
  eapply triple_bind with (Q := fun _ => J id G ∅ off nonself).
  { eapply triple_weaken; [apply (put_establishes off key')|done|done|done]; [by destruct group|]. intros r. exact Hoff. }
  intros u. eapply triple_bind with (Q := fun _ => J id G ∅ off off).
  { eapply triple_weaken; [by apply (refresh_establishes id G ∅ off nonself off)|done|done|done]. }
  intros v. by apply triple_ret.
Qed.

Lemma rotate_retires exp :
  triple (J id G ∅ nonself nonself) (rotate_key id exp)
    (fun r w => is_Some r -> J id G ∅ rotated rotated w) (fun e w => durable e = true -> J id G ∅ rotated rotated w).
Proof.
  unfold rotate_key. eapply triple_bind.
  { eapply triple_weaken; [apply (read_knows id G (get_key id) ∅ nonself nonself
      (fun row => match row with Some key => key_id key = id /\ nonself key | None => True end))|done|done|intros e w [] ?; congruence].
    intros s Hs. unfold get_key. destruct (keys s !! id) as [key|] eqn:E; [|done]. destruct (Hs id key E). auto. }
  intros row. apply triple_pure. intros Hrow. destruct row as [key|]; [|apply triple_ret; by intros w _ []].
  destruct (key_live key); [|apply triple_ret; by intros w _ []]. destruct Hrow as [Hk Hn].
  eapply triple_bind with (Q := fun _ => J id G ∅ nonself nonself).
  { intros w Hw. unfold signing_material. by destruct (signing (node w)). }
  intros m. eapply triple_bind with (Q := fun g w => J id G ∅ nonself nonself w /\ ~ G (Some g)).
  { intros w Hw. pose proof (getrandom_fresh id G ∅ nonself nonself 16 w Hw) as Hd. unfold generate_binding_generation, mbind, M_bind, mret, M_ret.
    destruct (getrandom 16 w) as [[l|e] w']; [destruct Hd as [Hj Hf]; by destruct (Hf eq_refl)|destruct Hd; congruence]. }
  intros g. apply triple_pure. intros Hg. cbn zeta. set (key' := with_binding _ _ key).
  assert (Hr : rotated key').
  { split_and!; [done|done|]. change (~ G (binding_generation (binding_marker (key_id key) g))). by rewrite binding_generation_marker by (by rewrite Hk). }
  eapply triple_bind with (Q := fun _ => J id G ∅ rotated nonself).
  { eapply triple_weaken; [by apply (put_establishes rotated key')|done|done|intros e w He Hd; congruence]. }
  intros u. eapply triple_bind; [apply triple_catching; by apply (refresh_establishes id G ∅ rotated nonself rotated)|].
  intros [v|e]; [by apply triple_ret|].
  eapply triple_bind; [eapply triple_weaken; [apply evict_establishes|by intros w []|done|done]|]. intros x.
  apply triple_fail. intros w Hw _. by eapply J_impl; [| |exact Hw].
Qed.

(** ** What a node then refuses *)

Lemma by_sub_id S Q n i k : node_ok id S Q n -> lookup_by_sub i n = Some k -> key_id k = i /\ (i = id -> Q k).
Proof. intros (H & _ & _) Hk. by apply H. Qed.

Lemma sync_ok S Q now inline n : node_ok id S Q n -> node_ok id S Q (sync_revocations_if_stale now inline n).
Proof.
  intros (H1 & H2 & HS). pose proof (sync_monotone now inline n). destruct inline; split_and!; try done.
  etransitivity; [exact HS|done].
Qed.

Lemma denied_in S s n : s ∈ S -> S ⊆ set (revocations n) -> is_denied s (revocations n) = true.
Proof. intros Hs HS. unfold is_denied. apply bool_decide_eq_true. by apply HS. Qed.

Lemma tokens_refused S Q n token now inline vk :
  node_ok id S Q n -> (verify_token token now inline n).1 = Some vk -> key_id vk = id ->
  id ∉ S /\ Q vk /\ key_enabled vk = true
  /\ exists s claims, signing n = Some s /\ verify (TokenVerifier_single s) token now = Ok claims
       /\ binding_generation (generation_hash vk) = generation claims.
Proof.
  intros Hn Hv Hid. unfold verify_token in Hv. destruct (signing n) as [s|] eqn:Es; [|done].
  destruct (verify _ token now) as [claims|] eqn:Ev; [|done].
  pose proof (sync_ok S Q now inline n Hn) as Hn'. set (n' := sync_revocations_if_stale now inline n) in *. cbn [fst] in Hv.
  destruct (is_denied (sub claims) (revocations n')) eqn:Ed; [done|].
  destruct (lookup_by_sub (sub claims) n') as [key|] eqn:El; [|done].
  destruct (key_enabled key) eqn:Een; [|done]. destruct (generation_matches _ _) eqn:Eg; [|done]. injection Hv as <-.
  destruct (by_sub_id S Q n' _ _ Hn' El) as [Hk HQ]. assert (Hsub : sub claims = id) by congruence. rewrite Hsub in *.
  split_and!; [|by apply HQ|done|].
  - intros Hin. by rewrite (denied_in S id n' Hin) in Ed by apply Hn'.
  - exists s, claims. split_and!; try done. by apply bool_decide_eq_true in Eg.
Qed.

Lemma signatures_refused {D : Digests} S Q n r now now2 inline vk :
  node_ok id S Q n -> (verify_bedrock_sigv4 n r now now2 inline).1 = Some vk -> key_id vk = id ->
  id ∉ S /\ Q vk /\ key_enabled vk = true.
Proof.
  intros Hn Hv Hid. unfold verify_bedrock_sigv4 in Hv. destruct (parse_authorization_header _) as [parsed|]; [|done].
  destruct (List.find _ _) as [[? hash]|]; [|done]. destruct (eq_ignore_ascii_case _ _); [done|]. destruct (negb _); [done|].
  destruct (List.find _ _) as [[? date]|]; [|done]. destruct (lookup_credential _ _ n) as [[key cred]|] eqn:El.
  2: { by destruct (verify_inbound_sigv4 _ _ _ _). }
  destruct (verify_inbound_sigv4 _ _ _ _); [|done]. destruct (cred_live (cs_meta cred) now); [|done].
  destruct (key_enabled key) eqn:Een; [|done]. cbn [andb] in Hv. unfold is_revoked_at in Hv. cbn [fst] in Hv.
  pose proof (sync_ok S Q now2 inline n Hn) as Hn'. set (n' := sync_revocations_if_stale now2 inline n) in *.
  destruct (is_denied (key_id key) (revocations n')) eqn:Ed; [done|]. injection Hv as <-. split_and!.
  - intros Hin. rewrite Hid in Ed. by rewrite (denied_in S id n' Hin) in Ed by apply Hn'.
  - destruct Hn as (_ & H & _). by eapply H.
  - done.
Qed.

End retirement.

(** ** A fleet *)

Record KFleet := mkKFleet { shared : MemoryStore; nodes : list Node }.

Section fleet.
Context {C : Crypto} (id : string) (G : option string -> Prop) (re : bool).

(** Node [i] performs an allowed operation, under any faults of the store and with fresh draws. *)
Inductive happens (i : nat) (op : KeyOp) : Result bool string -> KFleet -> KFleet -> Prop :=
  | happens_intro f n a faults entropy clock w :
      nodes f !! i = Some n -> allowed id re op -> Forall (fresh_draw id G) entropy -> Forall plain_fault faults ->
      perform op (mkWorld (shared f) n faults entropy clock) = (a, w) ->
      happens i op a f (mkKFleet (store w) (<[i := node w]> (nodes f))).

Definition fleet_step (f f' : KFleet) : Prop := exists i op a, happens i op a f f'.

(** Rows are under their own ids, and those of the key belong to no self-serve user. *)
Definition fleet_ok (f : KFleet) : Prop :=
  rows_ok id nonself (keys (shared f)) /\ Forall (node_ok id ∅ nonself) (nodes f).

(** The answers after which no credential of the key is to be accepted, and no token of its old generations. *)
Definition retires (op : KeyOp) (a : Result bool string) : Prop :=
  match op, a with
  | ODelete i, Ok _ => i = id
  | ODelete i, Err e => i = id /\ durable e = true
  | ORevoke i _, Ok _ => i = id
  | OUpdate i (Some false) _, Ok found => i = id /\ found = true /\ re = false
  | _, _ => False
  end.

Definition rotates (op : KeyOp) (a : Result bool string) : Prop :=
  match op, a with
  | ORotate i _, Ok found => i = id /\ found = true
  | ORotate i _, Err e => i = id /\ durable e = true
  | _, _ => False
  end.

Definition fleet_inv (j : nat) (S : gset string) (R Q : VirtualKey -> Prop) (f : KFleet) : Prop :=
  rows_ok id R (keys (shared f))
  /\ forall i n, nodes f !! i = Some n -> if decide (i = j) then node_ok id S Q n else node_ok id ∅ nonself n.

Lemma peer_stable R Q : stable G re R Q -> (forall k, Q k -> nonself k) -> stable G re R nonself.
Proof. intros St HQ. split; try apply St; [|done]. intros k Hk Hl. by eapply HQ, St. Qed.

Lemma fleet_step_keeps j S R Q f f' :
  (forall seed user epoch, derive_self_subject seed user epoch <> id) ->
  stable G re R Q -> (forall k, Q k -> nonself k) -> fleet_step f f' -> fleet_inv j S R Q f -> fleet_inv j S R Q f'.
Proof.
  intros Hself St HQ (i & op & a & Hh) [Hr Hn]. destruct Hh as [f n a faults entropy clock w Hi Ho He Hf Hp].
  assert (Hw : rows_ok id R (keys (store w)) /\ (if decide (i = j) then node_ok id S Q (node w) else node_ok id ∅ nonself (node w))).
  { specialize (Hn i n Hi). destruct (decide (i = j)).
    - pose proof (K_perform id G re S R Q St Hself op Ho (mkWorld (shared f) n faults entropy clock)) as H. rewrite Hp in H.
      destruct a; by destruct H as (? & ? & _).
    - pose proof (K_perform id G re ∅ R nonself (peer_stable R Q St HQ) Hself op Ho (mkWorld (shared f) n faults entropy clock)) as H.
      rewrite Hp in H. destruct a; by destruct H as (? & ? & _). }
  destruct Hw as [Hw1 Hw2]. split; [done|]. intros i' n'. cbn [nodes]. rewrite list_lookup_insert_Some.
  intros [(<- & <- & _)|[_ Hi']]; [done|by apply Hn].
Qed.

Lemma fleet_steps_keep j S R Q f f' :
  (forall seed user epoch, derive_self_subject seed user epoch <> id) ->
  stable G re R Q -> (forall k, Q k -> nonself k) -> rtc fleet_step f f' -> fleet_inv j S R Q f -> fleet_inv j S R Q f'.
Proof. intros Hself St HQ Hs. induction Hs; [done|]. intros H0. by eapply IHHs, fleet_step_keeps. Qed.

(** The first step: an operation of node [j] whose answer establishes the invariant there. *)
Lemma happens_establishes j op a f f' (S : gset string) R Q (Phi : Result bool string -> Prop) :
  (forall w, J id G ∅ nonself nonself w -> let '(a, w') := perform op w in Phi a -> rows_ok id R (keys (store w')) /\ node_ok id S Q (node w')) ->
  happens j op a f f' -> Phi a -> fleet_ok f -> fleet_inv j S R Q f'.
Proof.
  intros Hop Hh Ha [Hr Hn]. destruct Hh as [f n a faults entropy clock w Hi Ho He Hf Hp].
  rewrite Forall_lookup in Hn. specialize (Hop (mkWorld (shared f) n faults entropy clock)). rewrite Hp in Hop.
  destruct Hop as [H1 H2]; [|done|]. { split_and!; try done; by apply (Hn j n). }
  split; [done|]. intros i' n'. cbn [nodes]. rewrite list_lookup_insert_Some.
  intros [(<- & <- & _)|[Hne Hi']]; [by destruct (decide (j = j))|]. destruct (decide (i' = j)); [congruence|by apply (Hn i')].
Qed.

Lemma retirement_establishes j op a f f' :
  has_char ":"%char id = false -> (forall seed user epoch, derive_self_subject seed user epoch <> id) ->
  happens j op a f f' -> fleet_ok f ->
  (retires op a -> exists S R Q, fleet_inv j S R Q f' /\ stable G re R Q /\ (forall k, Q k -> nonself k) /\ (id ∈ S \/ forall k, Q k -> key_enabled k = false))
  /\ (rotates op a -> fleet_inv j ∅ (rotated id G) (rotated id G) f').
Proof.
  intros Hcolon Hself Hh Hok. pose proof Hh as Hh'. destruct Hh' as [f n a faults entropy clock w Hi Ho He Hf Hp]. split.
  - intros Hret. destruct op as [| |i| |i reason|i [[|]|] group| | | | |]; try (by destruct a).
    + exists ∅, dead, gone. split_and!; [|apply stable_dead|done|by right]. assert (i = id) as -> by (destruct a; naive_solver).
      eapply (happens_establishes j (ODelete id) a _ _ ∅ dead gone (retires (ODelete id))); [|done..].
      intros w0 Hw. pose proof (delete_retires id G re w0 Hw) as Hd. cbn [perform]. unfold mbind, M_bind, mret, M_ret.
      destruct (AuthKeys.delete_key id w0) as [[u|e] w1]; cbn [retires]; [intros _|intros [_ Hd']; specialize (Hd Hd')]; split; apply Hd.
    + exists ({[id]} ∪ ∅), nonself, nonself. split_and!; [|apply stable_nonself|done|left; set_solver].
      assert (i = id) as -> by (destruct a; naive_solver).
      eapply (happens_establishes j (ORevoke id reason) a _ _ _ nonself nonself (retires (ORevoke id reason))); [|done..].
      intros w0 Hw. pose proof (revoke_denies id G re ∅ nonself nonself (stable_nonself G re) Hself id reason w0 Hw) as Hd.
      cbn [perform]. unfold mbind, M_bind, mret, M_ret. destruct (AuthKeys.revoke id reason w0) as [[u|e] w1]; cbn [retires]; [|done].
      intros _. split; apply Hd.
    + destruct a as [found|e]; [|done]. destruct Hret as (-> & -> & Hre). exists ∅, off, off.
      split_and!; [|by apply stable_off|by intros k []|right; by intros k []].
      eapply (happens_establishes j (OUpdate id (Some false) group) (Ok true) _ _ ∅ off off (fun a => a = Ok true)); [|done..].
      intros w0 Hw. destruct (Ho eq_refl) as [_ Hg]. pose proof (freeze_retires id G group Hg w0 Hw) as Hd.
      cbn [perform]. unfold mbind, M_bind, mret, M_ret. destruct (update_key id (Some false) group w0) as [[r|e] w1]; [|done].
      intros [= Hr]. apply bool_decide_eq_true in Hr. specialize (Hd Hr). split; apply Hd.
  - intros Hrot. destruct op as [| | |i exp| | | | | | |]; try (by destruct a).
    assert (i = id) as -> by (destruct a; naive_solver).
    eapply (happens_establishes j (ORotate id exp) a _ _ ∅ _ _ (rotates (ORotate id exp))); [|done..].
    intros w0 Hw. pose proof (rotate_retires id G Hcolon exp w0 Hw) as Hd. cbn [perform]. unfold mbind, M_bind, mret, M_ret.
    destruct (rotate_key id exp w0) as [[r|e] w1]; cbn [rotates].
    + intros [_ Hr]. apply bool_decide_eq_true in Hr. specialize (Hd Hr). split; apply Hd.
    + intros [_ He']. specialize (Hd He'). split; apply Hd.
Qed.

End fleet.


(** ** Self-serve keys *)

Section selfserve.
Context {C : Crypto}.

Definition own_ids (s : MemoryStore) : Prop := forall i k, keys s !! i = Some k -> key_id k = i.

Lemma load_complete rows i k :
  k ∈ rows -> key_live k = true -> key_id k = i -> (forall k', k' ∈ rows -> key_id k' = i -> k' = k) -> load rows !! i = Some k.
Proof.
  intros Hin Hl Hi Huniq. induction rows as [|x rows IH] using rev_ind; [by apply not_elem_of_nil in Hin|].
  unfold load. rewrite foldl_app. cbn [foldl]. fold (load rows). destruct (decide (key_id x = i)) as [E|E].
  - assert (x = k) as -> by (apply Huniq; [apply elem_of_app; right; by left|done]). rewrite Hl, Hi. apply lookup_insert_eq.
  - assert (Hrec : load rows !! i = Some k).
    { apply IH.
      - apply elem_of_app in Hin as [|Hin]; [done|]. apply list_elem_of_singleton in Hin as ->. done.
      - intros k' Hk'. apply Huniq. apply elem_of_app. by left. }
    destruct (key_live x); [by rewrite lookup_insert_ne|done].
Qed.

Lemma put_key_live now key s :
  deleted_at key = None -> clears_tombstone key s = false ->
  exists s', put_key now key s = (Ok tt, s') /\ exists r, keys s' !! key_id key = Some (key_with_revision r key).
Proof.
  intros Hd Hc. unfold put_key. rewrite Hc. cbn. eexists. split; [done|]. eexists. destruct (_ =? 0); cbn; [|apply lookup_insert_eq].
  apply map_lookup_filter_Some. split; [apply lookup_insert_eq|]. cbn. unfold key_kept. cbn. by rewrite Hd.
Qed.

Lemma refresh_works w :
  faults w = [] -> refresh w = (Ok tt, set_node (set_caches (load (list_keys (store w)))
     (load_by_credential (list_credentials_since 0 (store w)) (load (list_keys (store w))) (clock w)) (node w)) w).
Proof. intros Hf. destruct w as [s n f e c]. cbn in Hf. subst f. reflexivity. Qed.

(** Where no tombstone stands, a self-serve binding is written, enabled, with its epoch as generation. *)
Lemma write_self_binding_ok w material user pools epoch exp now :
  faults w = [] -> own_ids (store w) -> epoch +sat 0 = epoch ->
  let id := derive_self_subject (secret_bytes material) user epoch in
  has_char ":"%char id = false -> (forall k, keys (store w) !! id = Some k -> key_live k = true) ->
  exists binding token w', write_self_binding material user pools epoch exp now w = (Ok (binding, token), w')
    /\ key_id binding = id /\ signing (node w') = signing (node w) /\ revocations (node w') = revocations (node w)
    /\ exists k, by_id (node w') !! id = Some k /\ key_id k = id /\ key_enabled k = true
         /\ binding_generation (generation_hash k) = Some (pretty epoch).
Proof.
  intros Hf Hown He id Hcolon Hrow. destruct w as [s n f e c]. cbn in Hf, Hown, Hrow. subst f.
  set (binding := mkKey id (binding_marker id (pretty epoch)) ("self-serve key (" +:+ user +:+ ")") (pool_scopes pools)
                   true now (Some (SELF_KEY_GROUP_PREFIX +:+ user)) [] None None 0).
  assert (Hfree : first_free_self_epoch MAX_PROBES (secret_bytes material) user epoch 0 (mkWorld s n [] e c) = (Ok (id, epoch), mkWorld s n [] e c)).
  { change MAX_PROBES with (S 63). cbn [first_free_self_epoch]. rewrite He. unfold mbind, M_bind, read, call. cbn.
    fold id. unfold get_key. destruct (keys s !! id) as [k|] eqn:E; [|done]. by rewrite (Hrow k eq_refl). }
  assert (Hclear : clears_tombstone binding s = false).
  { unfold clears_tombstone. cbn. destruct (keys s !! id) as [k|] eqn:E; [|done]. specialize (Hrow k eq_refl). unfold key_live in Hrow.
    apply bool_decide_eq_true in Hrow. by rewrite Hrow. }
  destruct (put_key_live c binding s ltac:(done) Hclear) as (s' & Hput & r & Hk).
  exists binding, (mint_token material id exp (Some (pretty epoch))). eexists. split.
  { unfold write_self_binding. unfold mbind at 1, M_bind at 1. rewrite Hfree. fold binding. unfold mbind at 1, M_bind at 1, call. cbn [head faults default from_option clock store].
    rewrite Hput. unfold mbind at 1, M_bind at 1. rewrite refresh_works by done. reflexivity. }
  split_and!; [done..|]. exists (key_with_revision r binding). split_and!; [|done|done|by apply binding_generation_marker].
  cbn [by_id node set_node set_caches store set_store]. apply load_complete; [|done|done|].
  - unfold list_keys. rewrite merge_sort_Permutation. apply list_elem_of_fmap. exists (id, key_with_revision r binding). split; [done|].
    by apply elem_of_map_to_list.
  - intros k' Hk' Hid. apply list_keys_elem in Hk' as [i Hi].
    pose proof (put_key_lookup c binding s i k') as Hl. rewrite Hput in Hl. destruct (Hl Hi) as [Hold|[-> ->]].
    + assert (i = id) as -> by (rewrite <- Hid; symmetry; by apply Hown). cbn [key_id binding] in Hk. congruence.
    + cbn [key_id binding] in *. congruence.
Qed.

Lemma accepted n s token now claims k :
  signing n = Some s -> verify (TokenVerifier_single s) token now = Ok claims -> is_denied (sub claims) (revocations n) = false ->
  by_id n !! sub claims = Some k -> key_enabled k = true -> binding_generation (generation_hash k) = generation claims ->
  (verify_token token now None n).1 = Some k.
Proof.
  intros Hs Hv Hd Hk He Hg. unfold verify_token. rewrite Hs, Hv. cbn. rewrite Hd. unfold lookup_by_sub. rewrite Hk, He.
  unfold generation_matches. by rewrite bool_decide_eq_true_2.
Qed.

End selfserve.

(** C23. What an administrator takes from a self-serve user, the user's next click gives back.  A login after
    the user's epoch-0 key was disabled writes the row again, enabled and with the same generation: the
    tokens that stopped verifying verify again.  A self-serve refresh after an administrator rotated the
    user's epoch-1 key cannot read an epoch in the rotation's random generation, takes it for zero, and
    writes epoch 1 over the very same row: the tokens of before the rotation verify again. *)
Theorem self_serve_keys_come_back {C : Crypto} (w : World) (m : TokenSigner) (user : string) (pools : option (list string))
    (exp now : Z) (token : string) (t : Z) (claims : TokenClaims) (k : VirtualKey) :
  signing (node w) = Some m -> faults w = [] -> own_ids (store w) ->
  verify (TokenVerifier_single m) token t = Ok claims -> is_denied (sub claims) (revocations (node w)) = false ->
  has_char ":"%char (sub claims) = false ->
  by_id (node w) !! sub claims = Some k -> keys (store w) !! sub claims = Some k -> key_live k = true ->
  (key_enabled k = false -> current_self_binding user (node w) = None ->
   sub claims = derive_self_subject (secret_bytes m) user 0 -> generation claims = Some "0" ->
     (verify_token token t None (node w)).1 = None
     /\ let '(r, w') := issue_self user pools exp now w in
        match r with Ok _ => True | Err _ => False end /\ is_Some (verify_token token t None (node w')).1)
  /\ (forall g, binding_generation (generation_hash k) = Some g -> parse_u64 g = None -> current_self_binding user (node w) = Some k ->
   key_id k = derive_self_subject (secret_bytes m) user 1 -> sub claims = key_id k -> generation claims = Some "1" ->
     (verify_token token t None (node w)).1 = None
     /\ let '(r, w') := refresh_self user pools exp now w in
        match r with Ok _ => True | Err _ => False end /\ is_Some (verify_token token t None (node w')).1).
Proof.
  intros Hs Hf Hown Hv Hd Hcolon Hn Hst Hl.
  assert (Hbefore : key_enabled k && generation_matches (generation_hash k) (generation claims) = false -> (verify_token token t None (node w)).1 = None).
  { intros Hno. unfold verify_token. rewrite Hs, Hv. cbn. rewrite Hd. unfold lookup_by_sub. by rewrite Hn, Hno. }
  split.
  - intros Hen Hcur Hsub Hg. split; [by apply Hbefore; rewrite Hen|].
    destruct (write_self_binding_ok w m user pools 0 exp now) as (b & tok & w' & Hw & _ & Hs' & Hr & k' & Hk' & _ & Hen' & Hg'); rewrite <- ?Hsub; try done.
    { intros k' Hk'. rewrite Hsub in Hst. congruence. }
    unfold issue_self, mbind, M_bind, signing_material, asks. rewrite Hs, Hcur, Hw. split; [done|].
    rewrite (accepted (node w') m token t claims k'); [by eexists|congruence|done|congruence|congruence|done|].
    rewrite Hg', Hg. done.
  - intros g Hgen Hparse Hcur Hid Hsub Hg. split.
    { apply Hbefore. unfold generation_matches. rewrite Hgen, Hg, bool_decide_eq_false_2; [apply andb_false_r|]. by intros [= ->]. }
    destruct (write_self_binding_ok w m user pools 1 exp now) as (b & tok & w' & Hw & Hb & Hs' & Hr & k' & Hk' & _ & Hen' & Hg'); rewrite <- ?Hid, <- ?Hsub; try done.
    { intros k' Hk'. congruence. }
    unfold refresh_self, mbind, M_bind, signing_material, asks. rewrite Hs, Hcur. unfold current_epoch. rewrite Hgen. cbn [mbind option_bind].
    rewrite Hparse. change (default 0 None +sat 1) with 1. rewrite Hw. cbn [fst]. rewrite Hb, Hid, String.eqb_refl. split; [done|].
    rewrite (accepted (node w') m token t claims k'); [by eexists|congruence|done|congruence|congruence|done|].
    rewrite Hg', Hg. done.
Qed.

(** A minted token verifies under its signer until it expires, and reads back as it was minted. *)
Lemma minted_token_verifies {C : Crypto} {L : CryptoLaws C} (s : TokenSigner) (subject : string) (expiry : Z) (gen : option string) (now : Z) :
  verify (TokenVerifier_single s) (mint_token s subject expiry gen) now
  = if expiry <=? now then Err Expired else Ok (mkClaims subject expiry (signer_kid s) gen).
Proof.
  unfold verify, token_parts, mint_token. rewrite strip_prefix_app. cbn [mbind option_bind].
  change ("." +:+ ?x) with (String "."%char x). rewrite split_once_app by apply b64_no_dot. cbn [mbind option_bind fst snd].
  rewrite !b64_decode_encode. cbn [mbind option_bind]. rewrite sign_length. cbn [Nat.eqb]. rewrite claims_read_back.
  cbn [kid exp]. unfold TokenVerifier_single. rewrite lookup_singleton_eq, sign_verifies. done.
Qed.

(** ** A concrete encoding: strings of zeros and ones *)

Fixpoint bits (p : positive) : string :=
  match p with xH => EmptyString | xO p => String "0"%char (bits p) | xI p => String "1"%char (bits p) end.
Fixpoint unbits (s : string) : positive :=
  match s with EmptyString => xH | String a s => if Ascii.eqb a "1"%char then xI (unbits s) else xO (unbits s) end.

Lemma unbits_bits p : unbits (bits p) = p.
Proof. induction p; cbn; congruence. Qed.

Lemma bits_no c p : c <> "0"%char -> c <> "1"%char -> has_char c (bits p) = false.
Proof.
  intros H0 H1. induction p; cbn [bits has_char]; [| |done]; rewrite IHp, orb_false_r; apply Ascii.eqb_neq; congruence.
Qed.

Definition claims_tuple (c : TokenClaims) : string * Z * string * option string := (sub c, exp c, kid c, generation c).

Definition demo_sign (k p : string) : string := String.concat EmptyString (repeat "s" 63) +:+ (if String.leb k p then "a" else "b").

#[local] Instance demo_crypto : Crypto := {
  b64_encode s := bits (encode s);
  b64_decode s := decode (unbits s);
  claims_to_json c := bits (encode (claims_tuple c));
  claims_of_json s := t ← decode (unbits s); let '(a, b, c, d) := (t : string * Z * string * option string) in Some (mkClaims a b c d);
  verifying_key k := k;
  sign := demo_sign;
  signature_ok k p s := String.eqb s (demo_sign k p);
  hmac_half k m := bits (encode (k, m));
  hex_encode l := bits (encode l);
}.

#[local] Instance demo_crypto_laws : CryptoLaws demo_crypto.
Proof.
  split; cbn.
  - intros s. by rewrite unbits_bits, decode_encode.
  - intros s. by apply bits_no.
  - intros []. by rewrite unbits_bits, decode_encode.
  - intros k p. unfold demo_sign. by destruct (String.leb k p).
  - intros k p. apply String.eqb_refl.
  - intros k m. by apply bits_no.
  - intros l. by apply bits_no.
Qed.

(** ** Witnesses *)

Definition demo_signer : TokenSigner := mkSigner "seed" "k1".
Definition demo_row : VirtualKey := mkKey "vk_7" (binding_marker "vk_7" "old") "ci" None true 0 (Some "team") [] None None 0.
Definition demo_store : MemoryStore := (put_key 5 demo_row MemoryStore_new).2.
Definition demo_node : Node := mkNode {["vk_7" := key_with_revision 1 demo_row]} ∅ (RevocationSync_new ∅ 0) (Some demo_signer) [].
Definition demo_fleet : KFleet := mkKFleet demo_store [demo_node; demo_node].
Definition demo_G (g : option string) : Prop := g = Some "old".

(** The rotation's world, and a peer's mint after it. *)
Definition demo_rotation : Result bool string * World := perform (ORotate "vk_7" 900) (mkWorld demo_store demo_node [] [Some [3]] 10).
Definition demo_peer : Result bool string * World :=
  perform (OMint (mkSpec "n" None None []) 900 11) (mkWorld (store demo_rotation.2) demo_node [Lost "timeout"] [Some [4]; Some [5]] 11).

Lemma demo_fleet_ok : fleet_ok "vk_7" demo_fleet.
Proof.
  assert (Hr : rows_ok "vk_7" nonself {["vk_7" := key_with_revision 1 demo_row]}).
  { intros i k [<- <-]%lookup_singleton_Some. split; [done|]. intros _ [u [=]]. }
  assert (Hn : node_ok "vk_7" ∅ nonself demo_node) by (split_and!; [exact Hr|done|set_solver]).
  split; [|by apply Forall_cons_2, Forall_cons_2, Forall_nil_2]. unfold shared, demo_fleet.
  by replace (keys demo_store) with ({["vk_7" := key_with_revision 1 demo_row]} : gmap string VirtualKey) by (vm_compute; reflexivity).
Qed.

Lemma demo_not_self seed user epoch : derive_self_subject seed user epoch <> "vk_7".
Proof.
  unfold derive_self_subject. cbn. intros [= E]. set (p := encode _) in E. change (bits p = "7") in E. pose proof (bits_no "7"%char p ltac:(done) ltac:(done)) as H.
  by rewrite E in H.
Qed.

(** The token the rotation hands out. *)
Definition demo_new_token : string := mint_token demo_signer "vk_7" 900 (Some (hex_encode [3])).


Definition demo_self_id (epoch : Z) : string := derive_self_subject "seed" "al" epoch.
Definition demo_self_row (epoch : Z) (gen : string) (enabled : bool) : VirtualKey :=
  mkKey (demo_self_id epoch) (binding_marker (demo_self_id epoch) gen) "self-serve key (al)" None enabled 0 (Some "user:al") [] None None 1.
Definition demo_self_world (k : VirtualKey) : World :=
  mkWorld (set_keys {[key_id k := k]} MemoryStore_new) (mkNode {[key_id k := k]} ∅ (RevocationSync_new ∅ 0) (Some demo_signer) []) [] [] 20.
Definition demo_self_token (epoch : Z) : string := mint_token demo_signer (demo_self_id epoch) 900 (Some (pretty epoch)).

Lemma demo_own_ids k : own_ids (store (demo_self_world k)).
Proof. intros i k' H. cbn in H. by apply lookup_singleton_Some in H as [<- <-]. Qed.

Lemma self_serve_keys_come_back_witness :
  is_Some (verify_token (demo_self_token 0) 30 None (node (issue_self "al" None 900 20 (demo_self_world (demo_self_row 0 "0" false))).2)).1
  /\ is_Some (verify_token (demo_self_token 1) 30 None (node (refresh_self "al" None 900 20 (demo_self_world (demo_self_row 1 "a9c3" true))).2)).1.
Proof.
  split.
  - destruct (self_serve_keys_come_back (demo_self_world (demo_self_row 0 "0" false)) demo_signer "al" None 900 20 (demo_self_token 0) 30
      (mkClaims (demo_self_id 0) 900 "k1" (Some "0")) (demo_self_row 0 "0" false)) as [H _]; [..|apply demo_own_ids| | | | | | |];
      try (vm_compute; reflexivity).
    destruct H as [_ H]; [vm_compute; reflexivity..|]. destruct (issue_self _ _ _ _ _) as [r w']. apply H.
  - destruct (self_serve_keys_come_back (demo_self_world (demo_self_row 1 "a9c3" true)) demo_signer "al" None 900 20 (demo_self_token 1) 30
      (mkClaims (demo_self_id 1) 900 "k1" (Some "1")) (demo_self_row 1 "a9c3" true)) as [_ H]; [..|apply demo_own_ids| | | | | | |];
      try (vm_compute; reflexivity).
    destruct (H "a9c3") as [_ H']; [vm_compute; reflexivity..|]. destruct (refresh_self _ _ _ _ _) as [r w']. apply H'.
Defined.
