(* ===== verification/AuthGate.v ===== *)
(** * AuthGate: who is let in, and as what (auth_cache.rs, auth/mod.rs, admin/v1/contract/mod.rs)

    The credential cache, the two authentication chains that use it, the admin scopes, the key made of a
    principal's roles, and the middleware every request crosses.  A loaded module's answer is a parameter
    of each run; the chains' time limits and worker pools (which only turn an answer into a refusal) are
    not modelled, nor is the wire form of a refusal. *)

From Stdlib Require Import Ascii.
From S2P Require Import Prelude Breaker Float64 Json Groups MemoryStore Revocation AdminRate AuthKeys AuthSigV4.

#[local] Open Scope Z_scope.

(** ** Verdicts (api/src/auth.rs) *)

Record Principal := mkPrincipal {
  p_id : string;
  p_name : option string;
  p_roles : list string;
  ttl_secs : option Z;
}.

Definition from_id (i : string) : Principal := mkPrincipal i None [] None.

Inductive AuthOutcome := Identify (p : Principal) | Reject | Pass.

Inductive ChainVerdict :=
  | Open
  | Identified (module : string) (principal : Principal) (resolved : option VirtualKey)
  | Denied.

(** ** The credential cache *)

Definition DEFAULT_IDENTIFY_TTL_SECS : Z := 300.
Definition MAX_IDENTIFY_TTL_SECS : Z := 3600.
Definition PASS_TTL_SECS : Z := 5.
Definition MAX_ENTRIES : nat := Z.to_nat 4096.

Inductive CachedVerdict := VIdentify (p : Principal) | VPass.

Record Entry := mkEntry { expires_at : Z; inserted_seq : Z; cached : CachedVerdict }.

Record CacheState := mkCache {
  entries : gmap (string * string) Entry;
  seq : Z;
  flush_gen : Z;
}.

Definition CredentialCache_new : CacheState := mkCache ∅ 0 0.

Definition generation (c : CacheState) : Z := flush_gen c.

Definition outcome_of (v : CachedVerdict) : AuthOutcome := match v with VIdentify p => Identify p | VPass => Pass end.

Section gate.
Context {D : Digests}.

Definition cache_key (module credential : string) : string * string := (module, sha256_hex credential).

Definition get (module credential : string) (now : Z) (c : CacheState) : option AuthOutcome * CacheState :=
  let key := cache_key module credential in
  match entries c !! key with
  | Some e =>
      if now <? expires_at e then (Some (outcome_of (cached e)), c)
      else (None, mkCache (delete key (entries c)) (seq c) (flush_gen c))
  | None => (None, c)
  end.

Definition first_byte (s : string) : Z := match s with String a _ => byte_of a | EmptyString => 0 end.

(** What is stored of an outcome, and for how long; a rejection is not. *)
Definition cacheable_as (credential : string) (outcome : AuthOutcome) : option (CachedVerdict * Z) :=
  match outcome with
  | Identify p => Some (VIdentify p, Z.min (default DEFAULT_IDENTIFY_TTL_SECS (ttl_secs p)) MAX_IDENTIFY_TTL_SECS)
  | Pass => Some (VPass, PASS_TTL_SECS + first_byte (sha256_hex credential) mod 3)
  | Reject => None
  end.

(** The key of least insertion number. *)
Definition oldest (m : gmap (string * string) Entry) : option (string * string) :=
  fst <$> foldl (fun best ke => match best with
                       | Some (k, e) => if inserted_seq ke.2 <? inserted_seq e then Some ke else Some (k, e)
                       | None => Some ke
                       end) None (map_to_list m).

Definition make_room (now : Z) (m : gmap (string * string) Entry) : gmap (string * string) Entry :=
  if (MAX_ENTRIES <=? size m)%nat then
    let m := filter (fun ke => now < expires_at ke.2) m in
    if (MAX_ENTRIES <=? size m)%nat then match oldest m with Some k => delete k m | None => m end else m
  else m.

Definition put (module credential : string) (outcome : AuthOutcome) (now : Z) (gen : Z) (c : CacheState) : CacheState :=
  match cacheable_as credential outcome with
  | None => c
  | Some (verdict, ttl) =>
      if flush_gen c =? gen then
        let m := make_room now (entries c) in
        mkCache (<[cache_key module credential := mkEntry (now + ttl) (seq c + 1) verdict]> m) (seq c + 1) (flush_gen c)
      else c
  end.

Definition flush_module (module : string) (c : CacheState) : nat * CacheState :=
  let m := filter (fun ke => ke.1.1 <> module) (entries c) in
  ((size (entries c) - size m)%nat, mkCache m (seq c) (flush_gen c + 1)).

Definition flush_all (c : CacheState) : nat * CacheState := (size (entries c), mkCache ∅ (seq c) (flush_gen c + 1)).

(** ** The data-plane chain *)

Record Provider := mkProvider { provider : string; cacheable : bool }.

Definition KEYS_MODULE : string := "keys".

Definition principal_from_vkey (k : VirtualKey) : Principal := mkPrincipal (key_id k) (Some (key_name k)) [] None.

Definition keys_arm_verdict {C : Crypto} (gov : option Node) (candidate : option string) (now : Z) (inline : option StoreAnswer)
    : ChainVerdict * option Node :=
  match candidate with
  | None => (Denied, gov)
  | Some token =>
      if is_empty token then (Denied, gov)
      else match gov with
           | None => (Denied, gov)
           | Some n =>
               match verify_token token now inline n with
               | (Some key, n) => (Identified KEYS_MODULE (principal_from_vkey key) (Some key), Some n)
               | (None, n) => (Denied, Some n)
               end
           end
  end.

(** What the modules of this run answer. *)
Definition Answers : Type := string -> option string -> AuthOutcome.

(** The puts of the deferrals, once somebody has identified. *)
Definition put_passes (names : list string) (cred : string) (now gen : Z) (c : CacheState) : CacheState :=
  foldl (fun c name => put name cred Pass now gen c) c names.

(** The modules in order: [None] when all of them deferred. *)
Fixpoint run_modules (ask : Answers) (l : list Provider) (candidate : option string) (now gen : Z) (pending : list string) (c : CacheState)
    : option ChainVerdict * CacheState :=
  match l with
  | [] => (None, c)
  | p :: l =>
      let cache_here := match candidate with Some cred => if cacheable p then Some cred else None | None => None end in
      let '(hit, c) := match cache_here with Some cred => get (provider p) cred now c | None => (None, c) end in
      let outcome := match hit with Some o => o | None => ask (provider p) candidate end in
      let pending := match hit, cache_here, outcome with None, Some _, Pass => pending ++ [provider p] | _, _, _ => pending end in
      match outcome with
      | Identify principal =>
          let c := match candidate with
                   | Some cred =>
                       let c := put_passes pending cred now gen c in
                       match cache_here with Some _ => put (provider p) cred (Identify principal) now gen c | None => c end
                   | None => c
                   end in
          (Some (Identified (provider p) principal None), c)
      | Reject => (Some Denied, c)
      | Pass => run_modules ask l candidate now gen pending c
      end
  end.

Record AuthMiddleware := mkAuth { chain : list Provider; keys_in_chain : bool }.

Definition run_chain_cached {C : Crypto} (ask : Answers) (a : AuthMiddleware) (candidate : option string) (now : Z)
    (inline : option StoreAnswer) (gov : option Node) (c : CacheState) : ChainVerdict * option Node * CacheState :=
  match chain a, keys_in_chain a with
  | [], false => (Open, gov, c)
  | _, _ =>
      match run_modules ask (chain a) candidate now (generation c) [] c with
      | (Some v, c) => (v, gov, c)
      | (None, c) =>
          if keys_in_chain a then let '(v, gov) := keys_arm_verdict gov candidate now inline in (v, gov, c)
          else (Denied, gov, c)
      end
  end.

(** ** Carriers *)

Definition AUTH_SCHEME_BEARER : string := "bearer".
Definition X_API_KEY : string := "x-api-key".
Definition X_GOOG_API_KEY : string := "x-goog-api-key".
Definition X_ADMIN_TOKEN : string := "x-admin-token".

Definition nonempty (s : string) : option string := if is_empty s then None else Some s.

Definition extract_bearer_token (auth_header : string) : option string :=
  p ← split_once " "%char auth_header;
  if eq_ignore_ascii_case p.1 AUTH_SCHEME_BEARER && negb (is_empty p.2) then Some p.2 else None.

Definition bearer_of (r : Request) : option string := header AUTHORIZATION (r_headers r) ≫= extract_bearer_token.

Definition extract_client_token (r : Request) : option string :=
  match bearer_of r with
  | Some t => Some t
  | None =>
      match header X_API_KEY (r_headers r) ≫= nonempty with
      | Some t => Some t
      | None => header X_GOOG_API_KEY (r_headers r) ≫= nonempty
      end
  end.

Definition extract_admin_header_token (r : Request) : option string := header X_ADMIN_TOKEN (r_headers r) ≫= nonempty.

(** ** Scopes (admin/v1/contract/mod.rs) *)

Inductive Scope := ReadOnly | Full.

#[global] Instance Scope_eq_dec : EqDecision Scope.
Proof. solve_decision. Defined.

Definition scope_parse (token : string) : option Scope :=
  if String.eqb token "read-only" then Some ReadOnly else if String.eqb token "full" then Some Full else None.

Definition scope_allows (s needed : Scope) : bool := match needed with ReadOnly => true | Full => bool_decide (s = Full) end.

Definition ALL : list Scope := [ReadOnly; Full].

Definition bit (s : Scope) : Z := match s with ReadOnly => Z.shiftl 1 0 | Full => Z.shiftl 1 1 end.

Definition dominates (s other : Scope) : bool := forallb (fun n => negb (scope_allows other n) || scope_allows s n) ALL.

Definition meet (a b : Scope) : Scope := if dominates a b then b else if dominates b a then a else ReadOnly.

(** A bit set. *)
Definition Grants : Type := Z.

Definition no_grants : Grants := 0.
Definition grants_of (s : Scope) : Grants := bit s.
Definition grants_with (g : Grants) (s : Scope) : Grants := Z.lor g (bit s).
Definition grants_contain (g : Grants) (s : Scope) : bool := negb (Z.land g (bit s) =? 0).
Definition capped_by (g : Grants) (cap : Scope) : Grants :=
  foldl (fun acc s => grants_with acc (meet s cap)) no_grants (List.filter (grants_contain g) ALL).
Definition grants_allow (g : Grants) (needed : Scope) : bool := existsb (fun s => grants_contain g s && scope_allows s needed) ALL.

Definition ADMIN_PREFIX : string := "/api/v1/admin".

Definition relative (path : string) : string := default path (strip_prefix ADMIN_PREFIX path).

Definition required_scope (m : Method) (path : string) : Scope :=
  match m with
  | GET | HEAD => ReadOnly
  | _ => let rel := relative path in
         if String.eqb rel PATH_CONFIG_VALIDATE || String.eqb rel PATH_PLUGINS_INSPECT then ReadOnly else Full
  end.

(** ** The admin chain *)

Record RoleBindingCfg := mkBinding {
  rb_group : option string;
  rb_allowed_pools : option (list string);
  admin_scope : option string;
}.

Abbreviation RoleBindings := (gmap string (gmap string RoleBindingCfg)).

Definition ADMIN_TOKENS_MODULE : string := "admin-tokens".
Definition ADMIN_TOKENS_PRINCIPAL_ID : string := "admin".

Definition authenticate_admin_tokens (configured_hash bearer header : option string) : AuthOutcome :=
  match configured_hash with
  | None => Pass
  | Some h =>
      match bearer, header with
      | None, None => Pass
      | _, _ =>
          let matches := fun o => match o with Some t => String.eqb (sha256_hex t) h | None => false end in
          if matches bearer || matches header then Identify (from_id ADMIN_TOKENS_PRINCIPAL_ID) else Reject
      end
  end.

Record AuthApp := mkAuthApp {
  auth : AuthMiddleware;
  admin_chain : list string;
  admin_modules : gset string;
  admin_token_hash : option string;
  auth_scope_caps : gmap string string;
  role_bindings : RoleBindings;
}.

Definition module_admin_scope_cap (app : AuthApp) (module : string) : option Scope :=
  if String.eqb module ADMIN_TOKENS_MODULE then None
  else Some (default ReadOnly (auth_scope_caps app !! module ≫= scope_parse)).

Definition composite (bearer header : option string) : option string :=
  match bearer, header with
  | None, None => None
  | b, h => Some ("b:" +:+ default EmptyString b +:+ newline +:+ "h:" +:+ default EmptyString h)
  end.

(** A module by its name in the admin chain; one that boot did not resolve defers. *)
Definition ask_admin (ask : Answers) (app : AuthApp) (name : string) (bearer header : option string) : AuthOutcome :=
  if String.eqb name ADMIN_TOKENS_MODULE then authenticate_admin_tokens (admin_token_hash app) bearer header
  else if bool_decide (name ∈ admin_modules app) then ask name (match bearer with Some b => Some b | None => header end)
  else Pass.

Fixpoint run_admin_modules (ask : Answers) (app : AuthApp) (l : list string) (bearer header : option string) (now gen : Z) (c : CacheState)
    : ChainVerdict * option Scope * CacheState :=
  match l with
  | [] => (Denied, None, c)
  | name :: l =>
      let cred := if String.eqb name ADMIN_TOKENS_MODULE then None else composite bearer header in
      let '(hit, c) := match cred with Some cr => get name cr now c | None => (None, c) end in
      let '(outcome, c) :=
        match hit with
        | Some o => (o, c)
        | None => let o := ask_admin ask app name bearer header in
                  (o, match cred with Some cr => put name cr o now gen c | None => c end)
        end in
      match outcome with
      | Identify principal => (Identified name principal None, module_admin_scope_cap app name, c)
      | Reject => (Denied, None, c)
      | Pass => run_admin_modules ask app l bearer header now gen c
      end
  end.

Definition run_admin_chain (ask : Answers) (app : AuthApp) (bearer header : option string) (now : Z) (c : CacheState)
    : ChainVerdict * option Scope * CacheState :=
  match admin_chain app with
  | [] => (Open, None, c)
  | l => run_admin_modules ask app l bearer header now (generation c) c
  end.

Definition admin_scope_for (module : option string) (principal : option Principal) (bindings : RoleBindings) : Grants :=
  match principal with
  | None => grants_of Full
  | Some p =>
      match p_roles p with
      | [] =>
          if bool_decide (module = Some ADMIN_TOKENS_MODULE) && String.eqb (p_id p) ADMIN_TOKENS_PRINCIPAL_ID then grants_of Full
          else no_grants
      | roles =>
          match match module with Some m => bindings !! m | None => None end with
          | None => no_grants
          | Some table => foldl grants_with no_grants (omap (fun role => b ← table !! role; t ← admin_scope b; scope_parse t) roles)
          end
      end
  end.

(** The authority an answer of the admin chain earns; a refusal earns none. *)
Definition effective_grants (app : AuthApp) (verdict : ChainVerdict) (cap : option Scope) : option (option Principal * Grants) :=
  match verdict with
  | Identified module p _ =>
      let g := admin_scope_for (Some module) (Some p) (role_bindings app) in
      Some (Some p, match cap with Some c => capped_by g c | None => g end)
  | Open =>
      let g := admin_scope_for None None (role_bindings app) in
      Some (None, match cap with Some c => capped_by g c | None => g end)
  | Denied => None
  end.

Definition dry_run_admin_scope (ask : Answers) (app : AuthApp) (bearer header : option string) (now : Z) (c : CacheState) : Grants * CacheState :=
  let '(verdict, cap, c) := run_admin_chain ask app bearer header now c in
  (match effective_grants app verdict cap with Some (_, g) => g | None => no_grants end, c).

(** ** A principal's key (governance/mod.rs) *)

Definition granting (roles : list string) (table : gmap string RoleBindingCfg) : list RoleBindingCfg := omap (fun r => table !! r) roles.

(** The union: an omitted list is every pool; lists in order, each pool once. *)
Definition add_pools (st : bool * list string) (b : RoleBindingCfg) : bool * list string :=
  match rb_allowed_pools b with
  | None => (true, st.2)
  | Some l => (st.1, foldl (fun acc p => if bool_decide (p ∈ acc) then acc else acc ++ [p]) st.2 l)
  end.

Definition pool_union (l : list RoleBindingCfg) : option (list string) :=
  let '(all, pools) := foldl add_pools (false, []) l in if all : bool then None else Some pools.

Definition first_group (l : list RoleBindingCfg) : option string := head (omap rb_group l).

Definition reserved (i : string) : bool := String.prefix "group:" i || String.prefix VK_ID_PREFIX i.

Definition synthesize_principal_key (p : Principal) (bindings : option (gmap string RoleBindingCfg)) : option VirtualKey :=
  if reserved (p_id p) then None
  else match bindings with
       | None => None
       | Some table =>
           match granting (p_roles p) table with
           | [] => None
           | bs =>
               let key := fun pools =>
                 mkKey (p_id p) ("principal:" +:+ p_id p) (default (p_id p) (p_name p)) pools true 0 (first_group bs) [] None None 0 in
               match pool_union bs with
               | None => Some (key None)
               | Some [] => None
               | Some l => Some (key (Some (List.map scope_pool l)))
               end
           end
       end.

(** ** The token exchange (auth/self_keys.rs) *)

Inductive ExchangeError := StaticKeyPresented | ExchangeUnauthorized | Unbound | BadSubject.

Fixpoint any_char (f : ascii -> bool) (s : string) : bool := match s with EmptyString => false | String a s => f a || any_char f s end.

(** [is_control] on ASCII; the C1 controls of other encodings are two bytes, the first 194. *)
Definition is_control (a : ascii) : bool := (byte_of a <? 32) || (byte_of a =? 127).
Fixpoint has_c1 (s : string) : bool :=
  match s with
  | String a ((String b _) as t) => ((byte_of a =? 194) && between 128 159 (byte_of b)) || has_c1 t
  | _ => false
  end.

Definition sanitize_self_sub (s : string) : bool :=
  negb (is_empty s || has_char "/"%char s || any_char is_control s || has_c1 s
        || String.prefix "vk_" s || String.prefix "user:" s || String.prefix "group:" s).

Definition resolve_exchange (verdict : ChainVerdict) (bindings : RoleBindings) : Result (Principal * string * option (list string)) ExchangeError :=
  match verdict with
  | Identified module p resolved =>
      match resolved with
      | Some _ => Err StaticKeyPresented
      | None =>
          match bindings !! module with
          | None => Err Unbound
          | Some table =>
              match granting (p_roles p) table with
              | [] => Err Unbound
              | bs =>
                  match first_group bs with
                  | None => Err Unbound
                  | Some team => if sanitize_self_sub (p_id p) then Ok (p, team, pool_union bs) else Err BadSubject
                  end
              end
          end
      end
  | Open | Denied => Err ExchangeUnauthorized
  end.

(** ** The middleware *)

Definition HEALTHZ_PATH : string := "/healthz".
Definition AUTH_TOKEN_PATH : string := "/auth/token".
Definition ADMIN_PATH : string := "/api".
Definition ADMIN_PATH_PREFIX : string := "/api/".

Inductive RouteAuth := RouteNone | RouteKey | RouteAdmin.

(** What becomes of a request: let through without a principal, refused, or handed on with what the
    handlers are given. *)
Inductive Admission :=
  | Bypassed
  | Unauthorized
  | AdminUnauthorized
  | Forbid (needed : Scope)
  | RateLimited
  | LetIn (principal : option Principal) (key : option VirtualKey).

(** The part of the process a request's admission reads and writes. *)
Record GateState := mkGate { cache : CacheState; limiter : Windows; governance : option Node }.

Definition set_cache c (s : GateState) := mkGate c (limiter s) (governance s).
Definition set_limiter w (s : GateState) := mkGate (cache s) w (governance s).
Definition set_governance n (s : GateState) := mkGate (cache s) (limiter s) n.

Definition is_admin_path (path : string) (declared : option RouteAuth) : bool :=
  String.eqb path ADMIN_PATH || String.prefix ADMIN_PATH_PREFIX path || match declared with Some RouteAdmin => true | _ => false end.

Definition admin_arm (ask : Answers) (app : AuthApp) (m : Method) (r : Request) (now : Z) (s : GateState) : Admission * GateState :=
  let '(verdict, cap, c) := run_admin_chain ask app (bearer_of r) (extract_admin_header_token r) now (cache s) in
  let s := set_cache c s in
  match effective_grants app verdict cap with
  | None => (AdminUnauthorized, s)
  | Some (principal, g) =>
      let actor := match principal with Some p => p_id p | None => "anonymous" end in
      let needed := required_scope m (r_path r) in
      let '(answer, w) := admin_gate actor (grants_allow g needed) m (relative (r_path r)) now (limiter s) in
      let s := set_limiter w s in
      match answer with
      | AdminRate.Pass => (LetIn principal None, s)
      | AdminRate.Forbid _ => (Forbid needed, s)
      | AdminRate.Limit _ => (RateLimited, s)
      end
  end.

(** The one gate of the data plane. *)
Definition data_gate (app : AuthApp) (verdict : ChainVerdict) : Admission :=
  match verdict with
  | Open => LetIn None None
  | Denied => Unauthorized
  | Identified module principal resolved =>
      let bindings := role_bindings app !! module in
      let gov_key := match resolved with Some k => Some k | None => synthesize_principal_key principal bindings end in
      if match gov_key with None => true | _ => false end && negb (bool_decide (p_roles principal = [])) && bool_decide (is_Some bindings)
      then Unauthorized else LetIn (Some principal) gov_key
  end.

(** The verdict on a data-plane request: a signed one goes to the signature's check, any other to the chain. *)
Definition data_verdict {C : Crypto} (ask : Answers) (app : AuthApp) (uses_sigv4 : bool) (r : Request) (now now2 : Z)
    (inline : option StoreAnswer) (s : GateState) : option ChainVerdict * GateState :=
  if keys_in_chain (auth app) && uses_sigv4 && has_sigv4_authorization r then
    if negb (structurally_valid r) then (None, s)
    else match governance s with
         | None => (None, s)
         | Some n =>
             match verify_bedrock_sigv4 n r now now2 inline with
             | (Some key, n) => (Some (Identified KEYS_MODULE (principal_from_vkey key) (Some key)), set_governance (Some n) s)
             | (None, n) => (None, set_governance (Some n) s)
             end
         end
  else
    let '(v, gov, c) := run_chain_cached ask (auth app) (extract_client_token r) now inline (governance s) (cache s) in
    (Some v, set_cache c (set_governance gov s)).

Definition auth_middleware {C : Crypto} (ask : Answers) (app : AuthApp) (declared : option RouteAuth) (uses_sigv4 : bool)
    (m : Method) (r : Request) (now now2 : Z) (inline : option StoreAnswer) (s : GateState) : Admission * GateState :=
  let path := r_path r in
  if String.eqb path HEALTHZ_PATH || String.eqb path AUTH_TOKEN_PATH || match declared with Some RouteNone => true | _ => false end
  then (Bypassed, s)
  else if is_admin_path path declared then admin_arm ask app m r now s
  else
    let '(v, s) := data_verdict ask app uses_sigv4 r now now2 inline s in
    (match v with Some v => data_gate app v | None => Unauthorized end, s).

End gate.
