(* ===== verification/AuthGateSpec.v ===== *)
(** * AuthGateSpec: what the gate promises

    The cache over any interleaving of its operations, the authority of an administrator, the key made of
    a principal's roles, and the signed keys behind the data plane. *)

From Stdlib Require Import Ascii.
From S2P Require Import Prelude Breaker Float64 Json Groups MemoryStore Revocation AdminRate AuthKeys AuthSigV4 AuthGate.

#[local] Open Scope Z_scope.

(** ** Histories of the cache

    Authentications overlap: what reaches the cache is some interleaving of their lookups and puts, and of
    the flushes. *)

Inductive CacheOp :=
  | CGet (module credential : string) (now : Z)
  | CPut (module credential : string) (outcome : AuthOutcome) (now gen : Z)
  | CFlush (module : string)
  | CFlushAll.

Section cache.
Context {D : Digests}.

Definition cache_op (c : CacheState) (op : CacheOp) : CacheState :=
  match op with
  | CGet m cr now => (get m cr now c).2
  | CPut m cr o now gen => put m cr o now gen c
  | CFlush m => (flush_module m c).2
  | CFlushAll => (flush_all c).2
  end.

Definition cache_run (ops : list CacheOp) (c : CacheState) : CacheState := foldl cache_op c ops.

Lemma cache_run_app l1 l2 c : cache_run (l1 ++ l2) c = cache_run l2 (cache_run l1 c).
Proof. apply foldl_app. Qed.

Lemma make_room_sub now m : make_room now m ⊆ m.
Proof.
  unfold make_room. destruct (_ <=? _)%nat; [|done]. destruct (_ <=? _)%nat; [|apply map_filter_subseteq].
  destruct (oldest _); [|apply map_filter_subseteq]. etransitivity; [apply delete_subseteq|apply map_filter_subseteq].
Qed.

Lemma cache_op_generation op c : flush_gen c <= flush_gen (cache_op c op).
Proof.
  destruct op; cbn [cache_op].
  - unfold get. destruct (entries c !! _); [|done]. by destruct (_ <? _).
  - unfold put. destruct (cacheable_as _ _) as [[v ttl]|]; [|done]. by destruct (_ =? _).
  - cbn. lia.
  - cbn. lia.
Qed.

Lemma cache_run_generation ops c : flush_gen c <= flush_gen (cache_run ops c).
Proof.
  revert c. induction ops as [|op ops IH]; intros c; [done|]. cbn [cache_run foldl]. etransitivity; [apply cache_op_generation|]. apply IH.
Qed.

(** An entry after an operation is an old one, or the one just put. *)
Lemma cache_op_entries op c k e :
  entries (cache_op c op) !! k = Some e ->
  (entries c !! k = Some e /\ match op with CFlush m => k.1 <> m | CFlushAll => False | _ => True end)
  \/ exists m cr o now v ttl, op = CPut m cr o now (flush_gen c) /\ k = cache_key m cr /\ cacheable_as cr o = Some (v, ttl)
       /\ expires_at e = now + ttl /\ cached e = v.
Proof.
  destruct op; cbn [cache_op].
  - unfold get. destruct (entries c !! cache_key _ _); [|by left]. destruct (_ <? _); [by left|]. cbn.
    rewrite lookup_delete_Some. intros [_ H]. by left.
  - unfold put. destruct (cacheable_as _ _) as [[v ttl]|] eqn:Ec; [|by left]. destruct (Z.eqb_spec (flush_gen c) gen) as [<-|]; [|by left].
    cbn. rewrite lookup_insert_Some. intros [[<- <-]|[_ H]].
    + right. by exists module, credential, outcome, now, v, ttl.
    + left. split; [|done]. eapply lookup_weaken; [exact H|apply make_room_sub].
  - cbn. rewrite map_lookup_filter_Some. intros [H Hk]. left. by split.
  - cbn. by rewrite lookup_empty.
Qed.

Lemma ttl_bounds cr o v ttl : cacheable_as cr o = Some (v, ttl) -> outcome_of v = o /\ ttl <= MAX_IDENTIFY_TTL_SECS.
Proof.
  unfold cacheable_as, MAX_IDENTIFY_TTL_SECS, PASS_TTL_SECS. destruct o; intros [= <- <-]; (split; [done|]); [lia|].
  pose proof (Z.mod_pos_bound (first_byte (sha256_hex cr)) 3). lia.
Qed.

(** Where an entry of a flushed module comes from. *)
Definition put_since (module : string) (c1 : CacheState) (ops : list CacheOp) (k : string * string) (e : Entry) : Prop :=
  exists pre post cr o now v ttl, ops = pre ++ CPut module cr o now (flush_gen (cache_run pre c1)) :: post
    /\ k = cache_key module cr /\ cacheable_as cr o = Some (v, ttl) /\ expires_at e = now + ttl /\ cached e = v.

Lemma entries_since module c1 ops k e :
  (forall k e, entries c1 !! k = Some e -> k.1 <> module) -> k.1 = module ->
  entries (cache_run ops c1) !! k = Some e -> put_since module c1 ops k e.
Proof.
  intros H1 Hk. revert e. induction ops as [|op ops IH] using rev_ind; intros e He; [by apply H1 in He|].
  rewrite cache_run_app in He. cbn [cache_run foldl] in He. apply cache_op_entries in He as [[He _]|(m & cr & o & now & v & ttl & -> & -> & Hc & Hx & Hv)].
  - destruct (IH e He) as (pre & post & cr & o & now & v & ttl & -> & H). exists pre, (post ++ [op]), cr, o, now, v, ttl. by rewrite <- app_assoc.
  - cbn in Hk. subst m. exists ops, [], cr, o, now, v, ttl. done.
Qed.

(** ** The chains and the cache *)

(** An operation a run that took its generation at the start may do. *)
Definition run_op (gen : Z) (op : CacheOp) : Prop :=
  match op with CGet _ _ _ => True | CPut _ _ _ _ g => g = gen | _ => False end.

Definition by_ops (gen : Z) (c c' : CacheState) : Prop := exists ops, Forall (run_op gen) ops /\ c' = cache_run ops c.

Lemma by_ops_refl gen c : by_ops gen c c.
Proof. by exists []. Qed.

Lemma by_ops_trans gen c1 c2 c3 : by_ops gen c1 c2 -> by_ops gen c2 c3 -> by_ops gen c1 c3.
Proof. intros (l1 & H1 & ->) (l2 & H2 & ->). exists (l1 ++ l2). split; [by apply Forall_app|]. by rewrite cache_run_app. Qed.

Lemma by_ops_get gen m cr now c : by_ops gen c (get m cr now c).2.
Proof. exists [CGet m cr now]. split; [by repeat constructor|done]. Qed.

Lemma by_ops_put gen m cr o now c : by_ops gen c (put m cr o now gen c).
Proof. exists [CPut m cr o now gen]. split; [by repeat constructor|done]. Qed.

Lemma by_ops_passes gen names cr now c : by_ops gen c (put_passes names cr now gen c).
Proof.
  unfold put_passes. revert c. induction names as [|n names IH]; intros c; [apply by_ops_refl|]. cbn [foldl].
  eapply by_ops_trans; [apply by_ops_put|apply IH].
Qed.

Lemma run_modules_ops ask l cand now gen pending c : by_ops gen c (run_modules ask l cand now gen pending c).2.
Proof.
  revert pending c. induction l as [|p l IH]; intros pending c; cbn [run_modules]; [apply by_ops_refl|].
  set (here := match cand with Some cred => if cacheable p then Some cred else None | None => None end).
  assert (Hg : by_ops gen c (match here with Some cred => get (provider p) cred now c | None => (None, c) end).2)
    by (destruct here; [apply by_ops_get|apply by_ops_refl]).
  destruct (match here with Some cred => get (provider p) cred now c | None => (None, c) end) as [hit c1]. cbn [snd] in Hg.
  eapply by_ops_trans; [exact Hg|]. destruct (match hit with Some o => o | None => _ end) as [pr| |]; [|apply by_ops_refl|apply IH].
  destruct cand as [cred|]; [|apply by_ops_refl]. cbn [snd]. eapply by_ops_trans; [apply by_ops_passes|].
  destruct here; [apply by_ops_put|apply by_ops_refl].
Qed.

Lemma run_admin_modules_ops ask app l b h now gen c : by_ops gen c (run_admin_modules ask app l b h now gen c).2.
Proof.
  revert c. induction l as [|name l IH]; intros c; cbn [run_admin_modules]; [apply by_ops_refl|].
  set (cred := if String.eqb name ADMIN_TOKENS_MODULE then None else composite b h).
  assert (Hg : by_ops gen c (match cred with Some cr => get name cr now c | None => (None, c) end).2)
    by (destruct cred; [apply by_ops_get|apply by_ops_refl]).
  destruct (match cred with Some cr => get name cr now c | None => (None, c) end) as [hit c1]. cbn [snd] in Hg.
  eapply by_ops_trans; [exact Hg|]. destruct hit as [o|].
  - destruct o; [apply by_ops_refl|apply by_ops_refl|apply IH].
  - assert (Hp : by_ops gen c1 (match cred with Some cr => put name cr (ask_admin ask app name b h) now gen c1 | None => c1 end))
      by (destruct cred; [apply by_ops_put|apply by_ops_refl]).
    destruct (ask_admin ask app name b h); (eapply by_ops_trans; [exact Hp|]); [apply by_ops_refl|apply by_ops_refl|apply IH].
Qed.

End cache.


(** ** A cached identity in use *)

Section sliding.
Context {D : Digests} {C : Crypto}.

Definition identify_ttl (p : Principal) : Z := Z.min (default DEFAULT_IDENTIFY_TTL_SECS (ttl_secs p)) MAX_IDENTIFY_TTL_SECS.

(** A client's requests one after the other, each with its own answers of the modules. *)
Fixpoint serve (a : AuthMiddleware) (cred : string) (l : list (Z * Answers)) (c : CacheState) : list ChainVerdict :=
  match l with
  | [] => []
  | (now, ask) :: l => let '(v, _, c) := run_chain_cached ask a (Some cred) now None None c in v :: serve a cred l c
  end.

(** Each request before the identity would have expired, counted from the request before. *)
Fixpoint in_use (ttl expiry : Z) (l : list (Z * Answers)) : Prop :=
  match l with [] => True | (now, _) :: l => now < expiry /\ in_use ttl (now + ttl) l end.

Lemma run_hit ask p l cred now c e pr :
  cacheable p = true -> entries c !! cache_key (provider p) cred = Some e -> cached e = VIdentify pr -> now < expires_at e ->
  run_modules ask (p :: l) (Some cred) now (generation c) [] c
  = (Some (Identified (provider p) pr None), put (provider p) cred (Identify pr) now (generation c) c).
Proof.
  intros Hp He Hv Hx. cbn [run_modules]. rewrite Hp. unfold get. rewrite He. rewrite (proj2 (Z.ltb_lt _ _) Hx), Hv. done.
Qed.

Lemma put_entry module cred pr now c :
  exists e, entries (put module cred (Identify pr) now (generation c) c) !! cache_key module cred = Some e
    /\ cached e = VIdentify pr /\ expires_at e = now + identify_ttl pr.
Proof.
  unfold put. cbn [cacheable_as]. unfold generation. rewrite Z.eqb_refl. eexists. cbn. by rewrite lookup_insert_eq.
Qed.

End sliding.

(** C24. On the data plane the hour is no bound.  A hit stores the identity again with a fresh expiry: as long
    as the client comes back before the last expiry, every request is admitted as the cached principal and
    no module is ever asked, whatever it would answer, its user long gone.  The admin chain, on the same
    entry, answers from the cache and leaves it as it is. *)
Theorem a_cached_identity_lives_while_used {D : Digests} {C : Crypto} (a : AuthMiddleware) (p : Provider) (rest : list Provider)
    (cred : string) (pr : Principal) (e : Entry) (c : CacheState) (l : list (Z * Answers)) :
  chain a = p :: rest -> cacheable p = true -> entries c !! cache_key (provider p) cred = Some e -> cached e = VIdentify pr ->
  in_use (identify_ttl pr) (expires_at e) l ->
  serve a cred l c = repeat (Identified (provider p) pr None) (length l)
  /\ forall ask app b h now, admin_chain app = [provider p] -> provider p <> ADMIN_TOKENS_MODULE -> composite b h = Some cred -> now < expires_at e ->
       run_admin_chain ask app b h now c = (Identified (provider p) pr None, module_admin_scope_cap app (provider p), c).
Proof.
  intros Hch Hp He Hv Hl. split.
  - revert c e He Hv Hl. induction l as [|[now ask] l IH]; intros c e He Hv Hl; [done|]. destruct Hl as [Hx Hl].
    cbn [serve length repeat]. unfold run_chain_cached. rewrite Hch, (run_hit ask p rest cred now c e pr) by done. f_equal.
    destruct (put_entry (provider p) cred pr now c) as (e' & He' & Hv' & Hx'). eapply IH; [exact He'|done|]. by rewrite Hx'.
  - intros ask app b h now Hadm Hne Hcomp Hx. unfold run_admin_chain. rewrite Hadm. cbn [run_admin_modules].
    apply String.eqb_neq in Hne. rewrite Hne, Hcomp. unfold get. by rewrite He, (proj2 (Z.ltb_lt _ _) Hx), Hv.
Qed.

(** ** Authority over the administration *)

(** The operator's token itself. *)
Definition is_operator (module : string) (p : Principal) : Prop :=
  module = ADMIN_TOKENS_MODULE /\ p_roles p = [] /\ p_id p = ADMIN_TOKENS_PRINCIPAL_ID.

(** A role of the principal, bound under its module, says so, and the module's ceiling lets it. *)
Definition role_grants_scope (app : AuthApp) (module : string) (p : Principal) (needed : Scope) : Prop :=
  exists role table b token, role ∈ p_roles p /\ role_bindings app !! module = Some table /\ table !! role = Some b
    /\ admin_scope b = Some token
    /\ match needed with
       | ReadOnly => token = "read-only" \/ token = "full"
       | Full => token = "full" /\ (module = ADMIN_TOKENS_MODULE \/ auth_scope_caps app !! module = Some "full")
       end.

Definition has_authority (app : AuthApp) (v : ChainVerdict) (needed : Scope) : Prop :=
  match v with
  | Open => True
  | Denied => False
  | Identified module p _ => is_operator module p \/ role_grants_scope app module p needed
  end.

Lemma scope_parse_Some t s : scope_parse t = Some s <-> t = match s with ReadOnly => "read-only" | Full => "full" end.
Proof.
  unfold scope_parse. destruct (String.eqb_spec t "read-only") as [->|H1].
  - split; [by intros [= <-]|by destruct s].
  - destruct (String.eqb_spec t "full") as [->|H2]; (split; [|by destruct s]); [by intros [= <-]|done].
Qed.

Lemma grants_contain_with g s s' : grants_contain (grants_with g s) s' = grants_contain g s' || bool_decide (s = s').
Proof.
  unfold grants_contain, grants_with. rewrite Z.land_lor_distr_l.
  destruct s, s'; cbn [bit]; rewrite ?(bool_decide_eq_true_2 (_ = _)) by done; rewrite ?(bool_decide_eq_false_2 (_ = _)) by done;
    change (Z.shiftl 1 0) with 1; change (Z.shiftl 1 1) with 2; change (Z.land 1 1) with 1; change (Z.land 2 2) with 2;
    change (Z.land 1 2) with 0; change (Z.land 2 1) with 0; rewrite ?Z.lor_0_r, ?orb_false_r, ?orb_true_r; try done;
    apply negb_true_iff, Z.eqb_neq; intros H; apply Z.lor_eq_0_iff in H; lia.
Qed.

Lemma grants_contain_fold l g s : grants_contain (foldl grants_with g l) s = grants_contain g s || bool_decide (s ∈ l).
Proof.
  revert g. induction l as [|x l IH]; intros g; cbn [foldl]; [by rewrite bool_decide_eq_false_2, orb_false_r by apply not_elem_of_nil|].
  rewrite IH, grants_contain_with, <- orb_assoc. f_equal. apply eq_bool_prop_intro. rewrite orb_True, !bool_decide_spec, elem_of_cons. intuition congruence.
Qed.

Lemma grants_contain_none s : grants_contain no_grants s = false.
Proof. by destruct s. Qed.

Lemma capped_allow g cap needed :
  grants_allow (capped_by g cap) needed = grants_allow g needed && match needed with ReadOnly => true | Full => bool_decide (cap = Full) end.
Proof.
  unfold grants_allow, capped_by, ALL. cbn [List.filter existsb]. destruct (grants_contain g ReadOnly) eqn:E1, (grants_contain g Full) eqn:E2, cap, needed; reflexivity.
Qed.

Lemma grants_of_full needed : grants_allow (grants_of Full) needed = true.
Proof. by destruct needed. Qed.

Lemma grants_fold_allow l needed :
  grants_allow (foldl grants_with no_grants l) needed = true <-> Full ∈ l \/ needed = ReadOnly /\ ReadOnly ∈ l.
Proof.
  unfold grants_allow, ALL. cbn [existsb]. rewrite !grants_contain_fold, !grants_contain_none, !orb_false_l, orb_false_r, orb_true_iff, !andb_true_iff, !bool_decide_eq_true.
  destruct needed; cbn [scope_allows]; rewrite ?bool_decide_eq_true; naive_solver.
Qed.

Lemma run_admin_modules_cap {D : Digests} ask app l b h now gen c :
  match run_admin_modules ask app l b h now gen c with
  | (Identified module p _, cap, _) => cap = module_admin_scope_cap app module
  | (Open, _, _) => False
  | (Denied, _, _) => True
  end.
Proof.
  revert c. induction l as [|name l IH]; intros c; cbn [run_admin_modules]; [done|].
  destruct (match (if String.eqb name ADMIN_TOKENS_MODULE then None else composite b h) with Some cr => get name cr now c | None => (None, c) end) as [[o|] c1].
  - destruct o; [done|done|apply IH].
  - destruct (ask_admin ask app name b h); [done|done|apply IH].
Qed.

Lemma run_admin_chain_cap {D : Digests} ask app b h now c :
  match run_admin_chain ask app b h now c with
  | (Identified module p _, cap, _) => cap = module_admin_scope_cap app module
  | (Open, cap, _) => cap = None
  | (Denied, _, _) => True
  end.
Proof.
  unfold run_admin_chain. destruct (admin_chain app) as [|name l]; [done|].
  pose proof (run_admin_modules_cap ask app (name :: l) b h now (generation c) c) as H.
  destruct (run_admin_modules _ _ _ _ _ _ _ _) as [[[] cap] c']; done.
Qed.

Lemma full_cap app module :
  match module_admin_scope_cap app module with None => true | Some c => bool_decide (c = Full) end = true
  <-> module = ADMIN_TOKENS_MODULE \/ auth_scope_caps app !! module = Some "full".
Proof.
  unfold module_admin_scope_cap. destruct (String.eqb_spec module ADMIN_TOKENS_MODULE) as [->|Hne]; [split; [by left|done]|].
  rewrite bool_decide_eq_true. destruct (auth_scope_caps app !! module) as [t|]; cbn [mbind option_bind default from_option].
  - split.
    + intros H. right. destruct (scope_parse t) as [[]|] eqn:Et; try done. apply scope_parse_Some in Et as ->. done.
    + intros [?|[= ->]]; done.
  - split; [done|]. by intros [?|?].
Qed.

Lemma scopes_elem app module p (s : Scope) table :
  role_bindings app !! module = Some table ->
  s ∈ omap (fun role => b ← table !! role; t ← admin_scope b; scope_parse t) (p_roles p)
  <-> exists role b, role ∈ p_roles p /\ table !! role = Some b /\ admin_scope b = Some (match s with ReadOnly => "read-only" | Full => "full" end).
Proof.
  intros Ht. rewrite list_elem_of_omap. split.
  - intros (role & Hr & H). destruct (table !! role) as [b|] eqn:Eb; [|done]. cbn in H. destruct (admin_scope b) as [t|] eqn:Es; [|done].
    cbn in H. apply scope_parse_Some in H as ->. by exists role, b.
  - intros (role & b & Hr & Hb & Hs). exists role. split; [done|]. rewrite Hb. cbn. rewrite Hs. cbn. by apply scope_parse_Some.
Qed.

(** The grants of an identified principal, against what the bindings say. *)
Lemma grants_exact app module p needed :
  grants_allow (match module_admin_scope_cap app module with
                | Some c => capped_by (admin_scope_for (Some module) (Some p) (role_bindings app)) c
                | None => admin_scope_for (Some module) (Some p) (role_bindings app)
                end) needed = true
  <-> is_operator module p \/ role_grants_scope app module p needed.
Proof.
  assert (Hcap : forall g, grants_allow (match module_admin_scope_cap app module with Some c => capped_by g c | None => g end) needed = true
    <-> grants_allow g needed = true /\ (needed = Full -> module = ADMIN_TOKENS_MODULE \/ auth_scope_caps app !! module = Some "full")).
  { intros g. rewrite <- full_cap. destruct (module_admin_scope_cap app module) as [cap|]; [|split; [done|by intros [? _]]].
    rewrite capped_allow, andb_true_iff. destruct needed; (split; [by intros [? ?]|intros [H1 H2]; split; [done|]]); [done|by apply H2]. }
  rewrite Hcap. unfold admin_scope_for, is_operator, role_grants_scope. destruct (p_roles p) as [|x l] eqn:Er.
  - destruct (bool_decide_reflect (Some module = Some ADMIN_TOKENS_MODULE)) as [[= ->]|Hm]; cbn [andb].
    + destruct (String.eqb_spec (p_id p) ADMIN_TOKENS_PRINCIPAL_ID) as [->|Hid].
      * rewrite grants_of_full. split; [by left|]. intros _. split; [done|by left].
      * split; [by intros [H _]; destruct needed|]. intros [(_ & _ & ?)|(role & ? & ? & ? & H & _)]; [done|by apply not_elem_of_nil in H].
    + split; [by intros [H _]; destruct needed|]. intros [(-> & _)|(role & ? & ? & ? & H & _)]; [done|by apply not_elem_of_nil in H].
  - rewrite <- Er. destruct (role_bindings app !! module) as [table|] eqn:Et.
    2: { split; [by intros [H _]; destruct needed|]. intros [(_ & H & _)|(role & ? & ? & ? & _ & H & _)]; [by rewrite H in Er|done]. }
    rewrite grants_fold_allow, !(scopes_elem app module p _ table Et). split.
    + intros [H Hfull]. right. destruct needed.
      * destruct H as [(role & b & ? & ? & ?)|(_ & role & b & ? & ? & ?)]; exists role, table, b; eexists; (split_and!; [done..|]); [by right|by left].
      * destruct H as [(role & b & ? & ? & ?)|[? _]]; [|done]. exists role, table, b, "full". split_and!; try done. by apply Hfull.
    + intros [(_ & H & _)|(role & t & b & token & Hr & Ht & Hb & Hs & Hn)]; [by rewrite H in Er|]. injection Ht as <-.
      destruct needed.
      * split; [|done]. destruct Hn as [->| ->]; [right; split; [done|]|left]; by exists role, b.
      * destruct Hn as [-> Hm]. split; [left; by exists role, b|done].
Qed.

(** C6. Administrative authority, exactly.  A request to an admin endpoint gets past authorization (to its
    handler, or to the budget that may turn it away) if and only if the admin chain is the open one, or it
    identified the operator's own token, or it identified a principal one of whose roles is bound, under
    the very module that identified it, to a scope that covers the endpoint, and, where the endpoint needs
    full authority, that module's ceiling is full.  Every endpoint needs full authority except reads and
    the two dry runs. *)
Theorem admin_authority_is_exact {D : Digests} (ask : Answers) (app : AuthApp) (m : Method) (r : Request) (now : Z) (s : GateState) :
  let '(v, _, _) := run_admin_chain ask app (bearer_of r) (extract_admin_header_token r) now (cache s) in
  let answer := (admin_arm ask app m r now s).1 in
  let needed := required_scope m (r_path r) in
  ((exists p k, answer = LetIn p k) \/ answer = RateLimited <-> has_authority app v needed)
  /\ (answer = AdminUnauthorized <-> v = Denied)
  /\ (needed = Full <-> m <> GET /\ m <> HEAD /\ relative (r_path r) <> PATH_CONFIG_VALIDATE /\ relative (r_path r) <> PATH_PLUGINS_INSPECT).
Proof.
  pose proof (run_admin_chain_cap ask app (bearer_of r) (extract_admin_header_token r) now (cache s)) as Hcap.
  unfold admin_arm. destruct (run_admin_chain _ _ _ _ _ _) as [[v cap] c]. cbn zeta.
  assert (Hneed : required_scope m (r_path r) = Full
    <-> m <> GET /\ m <> HEAD /\ relative (r_path r) <> PATH_CONFIG_VALIDATE /\ relative (r_path r) <> PATH_PLUGINS_INSPECT).
  { unfold required_scope. cbn zeta. destruct (String.eqb_spec (relative (r_path r)) PATH_CONFIG_VALIDATE);
      destruct (String.eqb_spec (relative (r_path r)) PATH_PLUGINS_INSPECT); destruct m; cbn [orb]; naive_solver. }
  assert (Hgate : forall actor b w, let '(answer, w') := admin_gate actor b m (relative (r_path r)) now w in
    match answer with AdminRate.Forbid _ => b = false | _ => b = true end).
  { intros actor b w. unfold admin_gate. destruct b; cbn [negb]; [|by destruct (check _ _ _ _)].
    destruct (is_mutation m); [|done]. destruct (check _ _ _ _) as [[] ?]; done. }
  destruct v as [|module p rk|]; cbn [effective_grants has_authority].
  - subst cap. cbn [admin_scope_for]. rewrite grants_of_full.
    specialize (Hgate "anonymous" true (limiter (set_cache c s))). destruct (admin_gate _ _ _ _ _ _) as [[] w]; cbn [fst];
      split_and!; try done; split; try done; intros _; eauto.
  - subst cap. pose proof (grants_exact app module p (required_scope m (r_path r))) as Hg.
    set (b := grants_allow _ _) in *. specialize (Hgate (p_id p) b (limiter (set_cache c s))).
    destruct (admin_gate _ _ _ _ _ _) as [[] w]; cbn [fst]; rewrite <- Hg, Hgate; split_and!; try done; split; try done; eauto.
    by intros [(? & ? & ?)|?].
  - split_and!; try done. split; [by intros [(? & ? & ?)|?]|done].
Qed.

(** ** A principal's pools *)

(** Some bound role of the principal grants the pool: by name, or by naming none. *)
Definition grants_pool (table : gmap string RoleBindingCfg) (roles : list string) (pool : string) : Prop :=
  exists role b, role ∈ roles /\ table !! role = Some b /\ match rb_allowed_pools b with None => True | Some l => pool ∈ l end.

Lemma granting_elem roles table b : b ∈ granting roles table <-> exists role, role ∈ roles /\ table !! role = Some b.
Proof. apply list_elem_of_omap. Qed.

Lemma fold_dedup (acc l : list string) (p : string) : p ∈ foldl (fun acc p => if bool_decide (p ∈ acc) then acc else acc ++ [p]) acc l <-> p ∈ acc \/ p ∈ l.
Proof.
  revert acc. induction l as [|x l IH]; intros acc; cbn [foldl]; [by rewrite elem_of_nil; intuition|].
  rewrite IH, elem_of_cons. case_bool_decide as Hx; [|rewrite elem_of_app, list_elem_of_singleton; intuition].
  split; [intuition|]. intros [?|[->|?]]; auto.
Qed.

Lemma fold_pools l st p :
  ((foldl add_pools st l).1 = true <-> st.1 = true \/ exists b, b ∈ l /\ rb_allowed_pools b = None)
  /\ (p ∈ (foldl add_pools st l).2 <-> p ∈ st.2 \/ exists b q, b ∈ l /\ rb_allowed_pools b = Some q /\ p ∈ q).
Proof.
  revert st. induction l as [|b l IH]; intros st; cbn [foldl].
  - split; (split; [by left|]); intros [?|H]; try done; [destruct H as (? & H & _)|destruct H as (? & ? & H & _)]; by apply not_elem_of_nil in H.
  - destruct (IH (add_pools st b)) as [-> ->]. unfold add_pools. destruct (rb_allowed_pools b) as [q|] eqn:E; cbn [fst snd].
    + split.
      * split; (intros [?|(b' & Hb & Hn)]; [by left|right]); [|apply elem_of_cons in Hb as [->|Hb]; [congruence|]]; exists b'; (split; [|done]); [by right|done].
      * rewrite fold_dedup. split.
        -- intros [[?|?]|(b' & q' & Hb & H)]; [by left| |]; right; [exists b, q|exists b', q']; (split_and!; try apply H; try done); [by left|by right].
        -- intros [?|(b' & q' & Hb & Hq & Hp)]; [by left; left|]. apply elem_of_cons in Hb as [->|Hb]; [|right; by exists b', q'].
           left; right. congruence.
    + split.
      * split; [|by left]. intros _. right. exists b. split; [by left|done].
      * split; (intros [?|(b' & q' & Hb & Hq & Hp)]; [by left|right]); [|apply elem_of_cons in Hb as [->|Hb]; [congruence|]];
          exists b', q'; (split_and!; try done). by right.
Qed.

Lemma pool_union_grants roles table pool :
  match pool_union (granting roles table) with None => True | Some l => pool ∈ l end <-> grants_pool table roles pool.
Proof.
  unfold pool_union. destruct (fold_pools (granting roles table) (false, []) pool) as [H1 H2]. destruct (foldl add_pools _ _) as [all pools]. cbn [fst snd] in *.
  assert (Hg : grants_pool table roles pool <-> exists b, b ∈ granting roles table /\ match rb_allowed_pools b with None => True | Some l => pool ∈ l end).
  { unfold grants_pool. split.
    - intros (role & b & Hr & Hb & H). exists b. split; [|done]. apply granting_elem. by exists role.
    - intros (b & Hb & H). apply granting_elem in Hb as (role & Hr & Hb). by exists role, b. }
  rewrite Hg. destruct all.
  - split; [|done]. intros _. destruct (proj1 H1 eq_refl) as [?|(b & Hb & Hn)]; [done|]. exists b. by rewrite Hn.
  - rewrite H2. split.
    + intros [H|(b & q & Hb & Hq & Hp)]; [by apply not_elem_of_nil in H|]. exists b. by rewrite Hq.
    + intros (b & Hb & H). right. destruct (rb_allowed_pools b) as [q|] eqn:E; [by exists b, q|].
      assert (false = true) by (apply H1; right; by exists b). done.
Qed.

Lemma pool_allowed_list k l pool :
  allowed_scopes k = Some (List.map scope_pool l) -> pool_allowed k pool = true <-> pool ∈ l.
Proof.
  intros Hk. unfold pool_allowed, scope_allowed. rewrite Hk. rewrite existsb_exists. split.
  - intros (s & Hs & Hp). apply in_map_iff in Hs as (q & <- & Hq). cbn in Hp. apply String.eqb_eq in Hp as ->. by apply list_elem_of_In.
  - intros Hp. exists (scope_pool pool). split; [by apply in_map, list_elem_of_In|]. cbn. apply String.eqb_refl.
Qed.

(** Where no key is made, the roles decide. *)
Lemma no_key (p : Principal) (P : Prop) (T : VirtualKey -> Prop) (E : Prop) :
  (p_roles p <> [] -> P) -> E ->
  let answer := if negb (bool_decide (p_roles p = [])) then Unauthorized else LetIn (Some p) None in
  (answer = LetIn (Some p) None <-> p_roles p = []) /\ (answer = Unauthorized <-> p_roles p <> [] /\ P)
  /\ (forall k, answer = LetIn (Some p) (Some k) -> T k) /\ E.
Proof. intros HP HE. cbn zeta. case_bool_decide as H; cbn [negb]; split_and!; try done; split; try done; [by intros [? _]|auto]. Qed.

(** C22. A principal's roles are the union of what they grant, on both roads.  An identity provider's principal
    under a module with bindings is refused exactly if it asserts roles and either its id lies in a reserved
    namespace or no bound role grants any pool; the key made for it opens exactly the pools some bound role
    grants, and charges the first group in role order; and the key the token exchange mints for it opens the
    same pools.  Without roles, or under a module without bindings, it is let in with no key at all, which
    nothing restricts. *)
Theorem role_grants_are_the_union {D : Digests} (app : AuthApp) (module : string) (p : Principal) :
  let answer := data_gate app (Identified module p None) in
  match role_bindings app !! module with
  | None => answer = LetIn (Some p) None
  | Some table =>
      (answer = LetIn (Some p) None <-> p_roles p = [])
      /\ (answer = Unauthorized <-> p_roles p <> [] /\ (reserved (p_id p) = true \/ forall pool, ~ grants_pool table (p_roles p) pool))
      /\ (forall k, answer = LetIn (Some p) (Some k) ->
            key_id k = p_id p /\ key_group k = first_group (granting (p_roles p) table)
            /\ forall pool, pool_allowed k pool = true <-> grants_pool table (p_roles p) pool)
      /\ (forall q team pools, resolve_exchange (Identified module p None) (role_bindings app) = Ok (q, team, pools) ->
            q = p /\ forall pool, match pools with None => True | Some l => pool ∈ l end <-> grants_pool table (p_roles p) pool)
  end.
Proof.
  cbn zeta. unfold data_gate. destruct (role_bindings app !! module) as [table|] eqn:Et.
  2: { unfold synthesize_principal_key. rewrite (bool_decide_eq_false_2 (is_Some _)) by apply is_Some_None. rewrite !andb_false_r. by destruct (reserved _). }
  rewrite (bool_decide_eq_true_2 (is_Some _)) by by eexists. rewrite andb_true_r.
  pose proof (pool_union_grants (p_roles p) table) as Hu.
  assert (Hex : forall q team pools, resolve_exchange (Identified module p None) (role_bindings app) = Ok (q, team, pools) ->
            q = p /\ forall pool, match pools with None => True | Some l => pool ∈ l end <-> grants_pool table (p_roles p) pool).
  { intros q team pools. unfold resolve_exchange. rewrite Et. destruct (granting _ _) as [|b bs]; [done|].
    destruct (first_group _); [|done]. destruct (sanitize_self_sub _); [|done]. intros [= <- _ <-]. split; [done|]. exact Hu. }
  assert (Hnone : granting (p_roles p) table = [] -> forall pool, ~ grants_pool table (p_roles p) pool).
  { intros Hg pool (role & b & Hr & Hb & _). apply (not_elem_of_nil b). rewrite <- Hg. apply granting_elem. by exists role. }
  unfold synthesize_principal_key. destruct (reserved (p_id p)) eqn:Er.
  - apply no_key; [|exact Hex]. intros _. by left.
  - destruct (granting (p_roles p) table) as [|b bs] eqn:Eg.
    + apply no_key; [|exact Hex]. intros _. right. by apply Hnone.
    + assert (Hp : p_roles p <> []) by (intros Hp; by rewrite Hp in Eg).
      rewrite <- Eg in *. destruct (pool_union (granting (p_roles p) table)) as [[|x l]|].
      * rewrite bool_decide_eq_false_2 by done. cbn [andb negb]. split_and!; try done. split; [|done]. intros _. split; [done|]. right. intros pool Hpool.
        apply Hu in Hpool. by apply not_elem_of_nil in Hpool.
      * cbn [andb]. split_and!; try done.
        -- split; [done|]. intros [_ [?|H]]; [done|]. destruct (H x). apply Hu. by left.
        -- intros k [= <-]. split_and!; [done..|]. intros pool. rewrite <- Hu. by apply pool_allowed_list.
      * cbn [andb]. split_and!; try done.
        -- split; [done|]. intros [_ [?|H]]; [done|]. destruct (H EmptyString). by apply Hu.
        -- intros k [= <-]. split_and!; [done..|]. intros pool. rewrite <- Hu. done.
Qed.

(** ** The built-in keys *)

Lemma verified_enabled {C : Crypto} token now inline n k : (verify_token token now inline n).1 = Some k -> key_enabled k = true.
Proof.
  unfold verify_token. destruct (signing n); [|done]. destruct (verify _ _ _) as [claims|]; [|done]. cbn [fst].
  destruct (is_denied _ _); [done|]. destruct (lookup_by_sub _ _) as [key|]; [|done].
  destruct (key_enabled key) eqn:E; [|done]. destruct (generation_matches _ _); [|done]. by intros [= <-].
Qed.

Lemma signed_enabled {D : Digests} n r now now2 inline k : (verify_bedrock_sigv4 n r now now2 inline).1 = Some k -> key_enabled k = true.
Proof.
  unfold verify_bedrock_sigv4. destruct (parse_authorization_header _) as [parsed|]; [|done].
  destruct (List.find _ _) as [[? hash]|]; [|done]. destruct (eq_ignore_ascii_case _ _); [done|]. destruct (negb _); [done|].
  destruct (List.find _ _) as [[? date]|]; [|done]. destruct (verify_inbound_sigv4 _ _ _ _); [|done].
  destruct (lookup_credential _ _ n) as [[key cred]|]; [|done]. destruct (cred_live _ _); [|done].
  destruct (key_enabled key) eqn:E; [|done]. cbn [andb]. unfold AuthKeys.is_revoked_at. destruct (is_denied _ _); [done|]. by intros [= <-].
Qed.

(** Where the chain is the built-in keys alone, nothing reaches a handler of the data plane but with a key,
    enabled, that a signed token on one of the token carriers or an AWS signature of this very request just
    verified against the node's own state; the principal is that key, and whatever the key's pools forbid
    stays forbidden to it, no role binding widening it. *)
Theorem a_keys_chain_admits_only_verified_keys {D : Digests} {C : Crypto} (ask : Answers) (app : AuthApp) (declared : option RouteAuth)
    (uses_sigv4 : bool) (m : Method) (r : Request) (now now2 : Z) (inline : option StoreAnswer) (s : GateState)
    (principal : option Principal) (key : option VirtualKey) :
  auth app = mkAuth [] true -> is_admin_path (r_path r) declared = false ->
  (auth_middleware ask app declared uses_sigv4 m r now now2 inline s).1 = LetIn principal key ->
  exists n k, governance s = Some n /\ key = Some k /\ principal = Some (principal_from_vkey k) /\ key_enabled k = true
    /\ ((exists token, extract_client_token r = Some token /\ (verify_token token now inline n).1 = Some k)
        \/ has_sigv4_authorization r = true /\ (verify_bedrock_sigv4 n r now now2 inline).1 = Some k).
Proof.
  intros Ha Hadm. unfold auth_middleware. rewrite Hadm. destruct (_ || _ || _); [done|]. unfold data_verdict. rewrite Ha. cbn [keys_in_chain andb].
  destruct (uses_sigv4 && has_sigv4_authorization r) eqn:Esig.
  - apply andb_true_iff in Esig as [_ Hsig]. destruct (structurally_valid r); [|done]. cbn [negb].
    destruct (governance s) as [n|]; [|done]. pose proof (signed_enabled n r now now2 inline) as Hen.
    destruct (verify_bedrock_sigv4 n r now now2 inline) as [[k|] n'] eqn:Ev; [|done]. cbn [fst] in *. unfold data_gate. cbn [andb].
    intros [= <- <-]. exists n, k. split_and!; [done..|by apply Hen|]. right. by rewrite Ev.
  - unfold run_chain_cached. cbn [chain keys_in_chain run_modules]. unfold keys_arm_verdict.
    destruct (extract_client_token r) as [token|] eqn:Et; [|done]. destruct (is_empty token); [done|].
    destruct (governance s) as [n|]; [|done]. pose proof (verified_enabled token now inline n) as Hen.
    destruct (verify_token token now inline n) as [[k|] n'] eqn:Ev; [|done]. cbn [fst] in *. unfold data_gate. cbn [andb].
    intros [= <- <-]. exists n, k. split_and!; [done..|by apply Hen|]. left. exists token. by rewrite Ev.
Qed.

(** ** Witnesses *)

#[local] Instance demo_gate_digests : Digests := {
  sha256_hex s := String "d"%char s;
  hmac k m := k +:+ m;
  hex s := s;
}.

#[local] Instance demo_gate_crypto : Crypto := {
  b64_encode s := s;
  b64_decode s := Some s;
  claims_to_json c := sub c;
  claims_of_json s := Some (mkClaims s 100 "k1" (Some "g"));
  verifying_key k := k;
  sign k p := String.concat EmptyString (repeat "s" 64);
  signature_ok k p s := String.eqb s (String.concat EmptyString (repeat "s" 64));
  hmac_half k m := k;
  hex_encode l := EmptyString;
}.

Definition demo_person : Principal := mkPrincipal "oidc:ada" (Some "ada") ["dev"; "ops"] (Some 600).
Definition demo_yes : Answers := fun _ _ => Identify demo_person.
Definition demo_no : Answers := fun _ _ => Reject.

Definition demo_cache : CacheState := put "sso" "tok" (Identify demo_person) 10 1 (flush_module "sso" CredentialCache_new).2.


(** Found in the cache at 600 and at 1190, though the provider has rejected the user since 11. *)
Lemma a_cached_identity_lives_while_used_witness :
  serve (mkAuth [mkProvider "sso" true] false) "tok" [(600, demo_no); (1190, demo_no); (1780, demo_no)] demo_cache
  = repeat (Identified "sso" demo_person None) 3.
Proof.
  apply (a_cached_identity_lives_while_used (mkAuth [mkProvider "sso" true] false) (mkProvider "sso" true) [] "tok" demo_person
    (mkEntry 610 1 (VIdentify demo_person)) demo_cache); [done|done|vm_compute; reflexivity|done|]. by vm_compute.
Defined.

Definition demo_binding (pools : option (list string)) (scope : option string) : RoleBindingCfg := mkBinding (Some "team") pools scope.
Definition demo_app : AuthApp := mkAuthApp (mkAuth [] true) ["sso"] {["sso"]} None {["sso" := "full"]}
  {["sso" := {["dev" := demo_binding (Some ["fast"]) (Some "full")]}]}.

Definition demo_gate_row : VirtualKey := mkKey "vk_7" (binding_marker "vk_7" "g") "ci" None true 0 None [] None None 1.
Definition demo_gate_node : Node := mkNode {["vk_7" := demo_gate_row]} ∅ (RevocationSync_new ∅ 0) (Some (mkSigner "s" "k1")) [].
Definition demo_token : string := "bbk_vk_7." +:+ String.concat EmptyString (repeat "s" 64).
Definition demo_gate_request : Request := mkRequest "POST" "/v1/messages" None [("x-api-key", demo_token)] "{}".

Lemma a_keys_chain_admits_only_verified_keys_witness :
  exists n k, Some demo_gate_node = Some n /\ Some demo_gate_row = Some k
    /\ Some (principal_from_vkey demo_gate_row) = Some (principal_from_vkey k) /\ key_enabled k = true
    /\ ((exists token, extract_client_token demo_gate_request = Some token /\ (verify_token token 50 None n).1 = Some k)
        \/ has_sigv4_authorization demo_gate_request = true /\ (verify_bedrock_sigv4 n demo_gate_request 50 50 None).1 = Some k).
Proof.
  apply (a_keys_chain_admits_only_verified_keys demo_no demo_app None false POST demo_gate_request 50 50 None
    (mkGate CredentialCache_new MutationLimiter_new (Some demo_gate_node))); [done|done|vm_compute; reflexivity].
Defined.

Lemma admin_authority_is_exact_witness :
  has_authority demo_app (Identified "sso" demo_person None) Full.
Proof.
  pose proof (admin_authority_is_exact demo_yes demo_app POST (mkRequest "POST" "/api/v1/admin/keys" None [("x-admin-token", "t")] "{}") 50
    (mkGate CredentialCache_new MutationLimiter_new None)) as H.
  destruct (run_admin_chain _ _ _ _ _ _) as [[v cap] c] eqn:E. vm_compute in E. injection E as <- _ _. apply H. left. eexists _, _. vm_compute. reflexivity.
Defined.

Definition demo_person_key : VirtualKey :=
  mkKey "oidc:ada" "principal:oidc:ada" "ada" (Some [scope_pool "fast"]) true 0 (Some "team") [] None None 0.

Lemma role_grants_are_the_union_witness :
  data_gate demo_app (Identified "sso" demo_person None) = LetIn (Some demo_person) (Some demo_person_key)
  /\ pool_allowed demo_person_key "fast" = true.
Proof.
  assert (Hk : data_gate demo_app (Identified "sso" demo_person None) = LetIn (Some demo_person) (Some demo_person_key)) by (vm_compute; reflexivity).
  split; [exact Hk|]. pose proof (role_grants_are_the_union demo_app "sso" demo_person) as H. cbn zeta in H.
  destruct (role_bindings demo_app !! "sso") as [table|] eqn:E; [|done]. destruct H as (_ & _ & H & _).
  destruct (H demo_person_key Hk) as (_ & _ & Hp). apply Hp.
  vm_compute in E. injection E as <-. exists "dev", (demo_binding (Some ["fast"]) (Some "full")). split_and!; [by left|by vm_compute|by left].
Defined.
