(* ===== verification/LaneFrame.v ===== *)
(** * LaneFrame: what the store's operations leave alone

    Every operation of the lane store changes the cells and counters it is about and no other field of
    any lane. Stated once for an arbitrary view of a lane, and instantiated with the permits, the
    lifetime budget and the dead flag, on any store, well formed or not. *)

From S2P Require Import Prelude Float64 Breaker BreakerFsm HealthState HealthLemmas HealthSpec HealthAdmit SwrrCore Swrr StoreRuns Selection SelectionSpec.

#[local] Open Scope Z_scope.

Section frame.
Context {SemT : Type} `{Semaphore SemT} {X : Type}.
Implicit Types (h : HealthState SemT) (ls : LaneState SemT) (r : CellRef).
#[local] Arguments read_cell : simpl never.
#[local] Arguments write_cell : simpl never.

(** A view of a lane that neither its cell nor its counters are part of. *)
Context (view : LaneState SemT -> X).
Context (view_cell_irrel : forall c ls, view (set_ls_cell c ls) = view ls).

(** The lanes looked at. *)
Context (at_lane : nat -> Prop).

Definition lane_view l h : option X := view <$> get_lane h l.

Definition same_lanes h h' : Prop := forall l, at_lane l -> lane_view l h' = lane_view l h.

#[local] Instance same_lanes_preorder : PreOrder same_lanes.
Proof. split; [by intros h l|]. intros h1 h2 h3 H12 H23 l Hl. by rewrite H23, H12. Qed.

Lemma upd_lane_same lane f h : (forall ls, view (f ls) = view ls) -> same_lanes h (upd_lane lane f h).
Proof.
  intros Hf l _. unfold lane_view. destruct (decide (lane = l)) as [<-|].
  - destruct (get_lane h lane) as [ls|] eqn:E; [|by unfold get_lane in *; simpl; rewrite list_lookup_alter_eq, E].
    rewrite (get_upd_lane_eq _ _ _ _ E). simpl. by rewrite Hf.
  - by rewrite get_upd_lane_ne.
Qed.

Lemma upd_lane_only lane f h l : l <> lane -> lane_view l (upd_lane lane f h) = lane_view l h.
Proof. intros. unfold lane_view. by rewrite get_upd_lane_ne. Qed.

Lemma write_cell_same r c h : same_lanes h (write_cell r c h).
Proof. destruct r; [|by intros ?]. unfold write_cell. by apply upd_lane_same. Qed.

Lemma cell_same pool lane h r h' : cell pool lane h = Some (r, h') -> same_lanes h h'.
Proof.
  unfold cell. destruct (String.eqb pool ""); intros He; [by mbind_inv|].
  case_match; mbind_inv; by intros ?.
Qed.

Lemma load_cell_same pool lane h r c h' : load_cell pool lane h = Some (r, c, h') -> same_lanes h h'.
Proof.
  unfold load_cell. intros ((r' & h1) & Hc & He)%bind_Some_inv. mbind_inv. by eapply cell_same.
Qed.

Lemma shard_same pool h k h' : swrr_shard pool h = (k, h') -> same_lanes h h'.
Proof. unfold swrr_shard. intros He. case_match; simplify_eq; by intros ?. Qed.

Lemma reset_same pool r h h' : reset_swrr_for pool r h = Some h' -> same_lanes h h'.
Proof.
  unfold reset_swrr_for. destruct (swrr_shard pool h) as [k h1] eqn:Es. intros (c & _ & [= <-])%bind_Some_inv.
  etransitivity; [by eapply shard_same|apply write_cell_same].
Qed.

(** ** Outcomes *)

Context (view_trips_irrel : forall a b ls, view (set_ls_trips a b ls) = view ls).
Context (view_ok_irrel : forall v ls, view (set_ls_ok v ls) = view ls).
Context (view_fault_irrel : forall v ls, view (set_ls_client_fault v ls) = view ls).
Context (view_reason_irrel : forall v ls, view (set_ls_dead_reason v ls) = view ls).
Context (view_latency_irrel : forall v ls, view (set_ls_latency v ls) = view ls).

Lemma record_failure_same pool lane now cfg ra e h b h' :
  record_failure_for pool lane now cfg ra e h = Some (b, h') -> same_lanes h h'.
Proof.
  unfold record_failure_for. intros (ls & Hl & He)%bind_Some_inv.
  destruct (ls_dead ls); [by mbind_inv|].
  apply bind_Some_inv in He as ([[r c] h1] & Hc & He). apply bind_Some_inv in He as ([c' t] & _ & He).
  injection He as <- <-. apply load_cell_same in Hc.
  assert (H1 : same_lanes h (write_cell r c' h1)) by (etransitivity; [exact Hc|apply write_cell_same]).
  assert (H2 : same_lanes (write_cell r c' h1)
    (if String.eqb pool "" then write_cell r c' h1 else upd_lane lane bump_err (write_cell r c' h1))).
  { destruct (String.eqb pool ""); [done|]. apply upd_lane_same. intros ls'. apply view_cell_irrel. }
  etransitivity; [exact H1|]. etransitivity; [exact H2|]. destruct t; [|done].
  apply upd_lane_same. intros ls'. apply view_trips_irrel.
Qed.

Lemma record_success_same pool lane now h h' :
  record_success_for pool lane now h = Some h' -> same_lanes h h'.
Proof.
  unfold record_success_for. intros (ls & Hl & He)%bind_Some_inv.
  assert (Hok : forall h0, same_lanes h0 (upd_lane lane bump_ok h0)).
  { intros h0. apply upd_lane_same. intros ls'. apply view_ok_irrel. }
  destruct (ls_dead ls); [mbind_inv; apply Hok|].
  apply bind_Some_inv in He as ([[r c] h1] & Hc & He). apply load_cell_same in Hc.
  destruct (cell_record_success c now) as [c' rec].
  apply bind_Some_inv in He as (h2 & Hr & [= <-]).
  etransitivity; [exact Hc|]. etransitivity; [apply (write_cell_same r c')|].
  etransitivity; [|apply Hok]. destruct rec; [by eapply reset_same|by injection Hr as <-].
Qed.

Lemma hard_down_all_same lane reason now h b h' :
  record_hard_down_all_cells lane reason now h = Some (b, h') -> same_lanes h h'.
Proof.
  unfold record_hard_down_all_cells. intros (ls & Hl & [= <- <-])%bind_Some_inv.
  assert (H1 : forall hd, same_lanes h (upd_lane lane (fun ls =>
    cell_put (cell_hard_down (cell_get ls) now hd) (set_ls_dead_reason reason ls)) h)).
  { intros hd. apply upd_lane_same. intros ls'. cbn [cell_put LaneState_access].
    by rewrite view_cell_irrel, view_reason_irrel. }
  etransitivity; [apply H1|]. case_match; [|by intros ?].
  etransitivity; [|apply upd_lane_same; intros ls'; apply view_trips_irrel]. by intros ?.
Qed.

Lemma client_fault_same lane h h' : record_client_fault lane h = Some h' -> same_lanes h h'.
Proof.
  unfold record_client_fault. intros (ls & Hl & [= <-])%bind_Some_inv.
  apply upd_lane_same. intros ls'. apply view_fault_irrel.
Qed.

Lemma latency_same lane ms h h' : record_latency_in lane ms h = Some h' -> same_lanes h h'.
Proof.
  unfold record_latency_in. intros He. case_match; [by simplify_eq|]. mbind_inv.
  case_match; [|done]. apply upd_lane_same. intros ls'. apply view_latency_irrel.
Qed.

Lemma release_same pool lane h h' : release_probe_in pool lane h = Some h' -> same_lanes h h'.
Proof.
  unfold release_probe_in. intros ([[r c] h1] & Hc & [= <-])%bind_Some_inv.
  etransitivity; [by eapply load_cell_same|apply write_cell_same].
Qed.

Lemma release_owned_same pool lane e h h' :
  release_probe_owned_in pool lane e h = Some h' -> same_lanes h h'.
Proof.
  unfold release_probe_owned_in. intros ([[r c] h1] & Hc & [= <-])%bind_Some_inv.
  etransitivity; [by eapply load_cell_same|apply write_cell_same].
Qed.

Lemma cooldown_same pool lane now h z h' :
  cooldown_remaining_for pool lane now h = Some (z, h') -> same_lanes h h'.
Proof.
  unfold cooldown_remaining_for. intros ([[r c] h1] & Hc & [= <- <-])%bind_Some_inv. by eapply load_cell_same.
Qed.

Lemma try_admit_breaker_same peer pool lane now h res h' :
  (forall h, same_lanes h (peer h)) ->
  try_admit_breaker peer pool lane now h = Some (res, h') -> same_lanes h h'.
Proof.
  unfold try_admit_breaker. intros Hp (ls & Hl & He)%bind_Some_inv.
  destruct (lane_gate ls); [by mbind_inv|].
  apply bind_Some_inv in He as ([[r c] h1] & Hc & He). apply load_cell_same in Hc.
  destruct (breaker_verdict c now); try by (simplify_eq; exact Hc).
  all: apply bind_Some_inv in He as (c1 & _ & He); destruct (cell_acquire_breaker c1 now) as [c' won];
    injection He as <- <-; etransitivity; [exact Hc|]; etransitivity; [apply Hp|]; apply write_cell_same.
Qed.

(** ** The weighted selection and the admission *)

Lemma collect_same pool now members : forall h healthy h',
  collect_healthy pool now members h = Some (healthy, h') -> same_lanes h h'.
Proof.
  induction members as [|[c w] members IH]; intros h healthy h' He; simpl in He; [by simplify_eq|].
  destruct (w =? 0); [by eapply IH|]. apply bind_Some_inv in He as (adm & _ & He).
  destruct (negb adm); [by eapply IH|].
  apply bind_Some_inv in He as ([[r c1] h1] & Hc & He).
  apply bind_Some_inv in He as ([hs h2] & Hr & [= <- <-]).
  etransitivity; [by eapply load_cell_same|by eapply IH].
Qed.

Lemma add_weights_same healthy : forall h h', add_weights healthy h = Some h' -> same_lanes h h'.
Proof.
  induction healthy as [|[[l r] w] healthy IH]; intros h h' He; simpl in He; [by simplify_eq|].
  apply bind_Some_inv in He as (c & _ & He). etransitivity; [apply write_cell_same|by eapply IH].
Qed.

Lemma select_same pool candidates weights now h res h' :
  select_weighted_for pool candidates weights now h = Some (res, h') -> same_lanes h h'.
Proof.
  unfold select_weighted_for. intros ([healthy h1] & Hc & He)%bind_Some_inv.
  apply collect_same in Hc. destruct healthy as [|x healthy]; [by simplify_eq|].
  destruct (swrr_shard pool h1) as [k h2] eqn:Es.
  apply shard_same in Es as H2.
  apply bind_Some_inv in He as (h3 & Ha & He). apply add_weights_same in Ha.
  apply bind_Some_inv in He as (best & _ & He).
  etransitivity; [exact Hc|]. etransitivity; [exact H2|]. etransitivity; [exact Ha|].
  destruct best as [[i r]|]; mbind_inv; [apply write_cell_same|done].
Qed.

Lemma find_preferred_same pool now members order : forall h p h',
  find_preferred pool now members order h = Some (p, h') -> same_lanes h h'.
Proof.
  induction order as [|i order IH]; intros h p h' He; simpl in He; [by simplify_eq|].
  destruct (weighted_member members i); [|by eapply IH].
  apply bind_Some_inv in He as ([ready h1] & Hr & He).
  assert (H1 : same_lanes h h1).
  { unfold ready_in, ready_for in Hr. apply bind_Some_inv in Hr as (adm & _ & Hr).
    destruct (negb adm); [by simplify_eq|].
    apply bind_Some_inv in Hr as ([[r c] h2] & Hc & [= <- <-]). by eapply load_cell_same. }
  destruct ready; [by simplify_eq|]. etransitivity; [exact H1|by eapply IH].
Qed.

Lemma choose_same pool now order filtered h p h' :
  choose pool now order filtered h = Some (p, h') -> same_lanes h h'.
Proof.
  unfold choose. destruct order as [order|]; [|by apply select_same].
  intros ([q h1] & Hf & He)%bind_Some_inv. apply find_preferred_same in Hf.
  destruct q; [by simplify_eq|]. etransitivity; [exact Hf|by eapply select_same].
Qed.

Context (view_sem_irrel : forall s ls, view (set_ls_sem s ls) = view ls).

Lemma try_acquire_same lane h p h' : try_acquire lane h = Some (p, h') -> same_lanes h h'.
Proof.
  unfold try_acquire. intros (ls & Hl & He)%bind_Some_inv. case_match; [by simplify_eq|].
  case_match; injection He as <- <-; [|done]. apply upd_lane_same. intros ls'. apply view_sem_irrel.
Qed.

Lemma drop_permit_same lane p h : same_lanes h (drop_permit lane p h).
Proof. destruct p; [|by intros ?]. apply upd_lane_same. intros ls'. apply view_sem_irrel. Qed.

Lemma try_admit_same peer pool lane now h res h' :
  (forall h, same_lanes h (peer h)) ->
  try_admit peer pool lane now h = Some (res, h') -> same_lanes h h'.
Proof.
  unfold try_admit. intros Hp (ls & Hl & He)%bind_Some_inv.
  destruct (lane_gate ls); [by mbind_inv|].
  apply bind_Some_inv in He as ([[r c] h1] & Hc & He). apply load_cell_same in Hc.
  destruct (breaker_verdict c now); try by (simplify_eq; exact Hc).
  all: apply bind_Some_inv in He as ([got h2] & Ht & He); apply try_acquire_same in Ht;
    pose proof (transitivity Hc Ht) as Hct;
    destruct got as [p|]; [|by simplify_eq; exact Hct].
  all: apply bind_Some_inv in He as (c1 & _ & He); destruct (cell_acquire_breaker c1 now) as [c' won];
    pose proof (transitivity (transitivity Hct (Hp h2)) (write_cell_same r c' (peer h2))) as Hall;
    destruct won; simpl in He; injection He as <- <-; [exact Hall|];
    etransitivity; [exact Hall|apply drop_permit_same].
Qed.

Definition env_same (e : RoundEnv (SemT := SemT)) : Prop :=
  (forall h, same_lanes h (before_select e h)) /\ (forall h, same_lanes h (before_admit e h))
  /\ forall h, same_lanes h (during_admit e h).

Lemma pick_round_same e pool cands order ctx local h out ctx' h' :
  env_same e -> pick_round e pool cands order ctx local h = Some (out, ctx', h') -> same_lanes h h'.
Proof.
  unfold pick_round. intros (H1 & H2 & H3) He. destruct (expired _ _); [by simplify_eq|].
  destruct (filter _ _) as [|x rest]; [by simplify_eq|].
  apply bind_Some_inv in He as ([chosen h1] & Hc & He). apply choose_same in Hc.
  pose proof (transitivity (H1 h) Hc) as Hs. destruct chosen as [lane|]; [|by simplify_eq; exact Hs].
  apply bind_Some_inv in He as ([res h2] & Ht & He).
  apply try_admit_same in Ht; [|done].
  pose proof (transitivity (transitivity Hs (H2 h1)) Ht) as Hall.
  destruct res; simplify_eq; exact Hall.
Qed.

Lemma pick_among_same t peer env cands ctx hash pool order h p ctx' h' :
  (forall h, same_lanes h (peer h)) -> (forall k, env_same (env k)) ->
  pick_among t peer env cands ctx hash pool order h = Some (p, ctx', h') -> same_lanes h h'.
Proof.
  intros Hp He. unfold pick_among.
  intros ([[sticky ctx1] h1] & Hs & Hr)%bind_Some_inv.
  assert (H1 : same_lanes h h1).
  { unfold pick_sticky in Hs. destruct hash; [|by simplify_eq]. destruct cands; [by simplify_eq|].
    apply bind_Some_inv in Hs as (wl & _ & Hs). destruct (_ && _); [|by simplify_eq].
    apply bind_Some_inv in Hs as ([res h2] & Ht & Hs). apply try_admit_same in Ht; [|done].
    destruct res; by simplify_eq. }
  destruct sticky; [by simplify_eq|]. etransitivity; [exact H1|]. clear H1 Hs.
  revert Hr He. generalize (S (length cands)) (∅ : gset nat). intros fuel.
  revert env ctx1 h1. induction fuel as [|fuel IH]; intros env ctx1 h1 local Hr He; [done|].
  cbn [pick_loop] in Hr. apply bind_Some_inv in Hr as ([[r ctx2] h2] & Hround & Hr).
  apply pick_round_same in Hround; [|apply He]. destruct r as [q|local']; [by simplify_eq|].
  etransitivity; [exact Hround|]. eapply IH; [exact Hr|]. intros k. apply He.
Qed.
End frame.

(** ** The views *)

Section views.
Context {SemT : Type} `{Semaphore SemT}.

(** The lifetime budget of a limited lane, and the dead flag. *)
Definition account (ls : LaneState SemT) : bool * Z * bool := (ls_limited ls, ls_budget ls, ls_dead ls).

(** Everything an admission may take. *)
Definition resources (ls : LaneState SemT) : SemT * (bool * Z * bool) := (ls_sem ls, account ls).

Definition lane_budget (h : HealthState SemT) (l : nat) : option Z :=
  ls ← get_lane h l; if ls_limited ls then Some (ls_budget ls) else None.

Lemma lane_budget_get h l ls :
  get_lane h l = Some ls -> lane_budget h l = if ls_limited ls then Some (ls_budget ls) else None.
Proof. unfold lane_budget. by intros ->. Qed.

(** The budgets after one lane's is set. *)
Lemma lane_budget_set h lane v l ls :
  get_lane h lane = Some ls -> ls_limited ls = true ->
  lane_budget (upd_lane lane (set_ls_budget v) h) l = if Nat.eqb lane l then Some v else lane_budget h l.
Proof.
  intros Hl Hlim. destruct (Nat.eqb_spec lane l) as [<-|Hne].
  - erewrite lane_budget_get by (by apply get_upd_lane_eq). simpl. by rewrite Hlim.
  - unfold lane_budget. by rewrite get_upd_lane_ne.
Qed.

Lemma lane_permits_budget h lane v l :
  lane_permits (upd_lane lane (set_ls_budget v) h) l = lane_permits h l.
Proof. by apply (upd_lane_same lane_available_permits (fun _ => True)). Qed.

Lemma lane_budget_account h h' l :
  lane_view account l h' = lane_view account l h -> lane_budget h' l = lane_budget h l.
Proof.
  unfold lane_view, lane_budget. destruct (get_lane h' l), (get_lane h l); simpl; try done.
  unfold account. intros [= E1 E2 _]. by rewrite E1, E2.
Qed.

Lemma resources_account L h h' : same_lanes resources L h h' -> same_lanes account L h h'.
Proof.
  intros Hs l Hl. specialize (Hs l Hl). unfold lane_view in *.
  destruct (get_lane h' l), (get_lane h l); simpl in *; try done.
  unfold resources in Hs. injection Hs as _ E1 E2 E3. unfold account. by rewrite E1, E2, E3.
Qed.

Lemma resources_permits (L : nat -> Prop) h h' l :
  same_lanes resources L h h' -> L l -> lane_permits h' l = lane_permits h l.
Proof.
  intros Hs Hl. specialize (Hs l Hl). unfold lane_view, lane_permits in *.
  destruct (get_lane h' l), (get_lane h l); simpl in *; try done.
  unfold lane_available_permits. unfold resources in Hs. injection Hs as E _. by rewrite E.
Qed.
End views.

(** ** Probes in flight

    Except for an admission, no operation starts a probe or changes the token of one. *)

Section probes.
Context {SemT : Type} `{Semaphore SemT}.
Implicit Types (h : HealthState SemT) (ls : LaneState SemT) (r : CellRef).
#[local] Arguments read_cell : simpl never.
#[local] Arguments write_cell : simpl never.

Definition keeps_probe (c c' : BreakerCell) : Prop :=
  probe_in_flight c' = true -> probe_in_flight c = true /\ probe_epoch c' = probe_epoch c.

Definition no_new_probe h h' : Prop :=
  forall r c', read_cell r h' = Some c' -> probe_in_flight c' = true ->
    exists c, read_cell r h = Some c /\ probe_in_flight c = true /\ probe_epoch c' = probe_epoch c.

#[export] Instance no_new_probe_preorder : PreOrder no_new_probe.
Proof.
  split.
  - intros h r c' Hr Hp. by exists c'.
  - intros h1 h2 h3 H12 H23 r c3 Hr Hp. destruct (H23 r c3 Hr Hp) as (c2 & Hr2 & Hp2 & He2).
    destruct (H12 r c2 Hr2 Hp2) as (c1 & Hr1 & Hp1 & He1). exists c1. by rewrite He2.
Qed.

(** The probe with this owner token is not in flight on the cell. *)
Definition settled (pool : string) (lane : nat) (epoch : Z) h : Prop :=
  forall c, read_cell (cell_ref pool lane) h = Some c -> probe_in_flight c = true -> probe_epoch c <> epoch.

Lemma settled_stable pool lane epoch h h' :
  no_new_probe h h' -> settled pool lane epoch h -> settled pool lane epoch h'.
Proof. intros Hn Hs c' Hr Hp. destruct (Hn _ _ Hr Hp) as (c & Hr0 & Hp0 & ->). by apply Hs. Qed.

Lemma write_cell_probe r c c' h :
  read_cell r h = Some c -> keeps_probe c c' -> no_new_probe h (write_cell r c' h).
Proof.
  intros Hr Hk r' c2 Hr2 Hp2. destruct (decide (r = r')) as [<-|Hne].
  - rewrite read_write_eq in Hr2 by eauto. injection Hr2 as <-. exists c. by destruct (Hk Hp2).
  - rewrite read_write_ne in Hr2 by done. by exists c2.
Qed.

Lemma upd_lane_probe lane f h :
  (forall ls, ls_cell (f ls) = ls_cell ls) -> no_new_probe h (upd_lane lane f h).
Proof.
  intros Hf [l|p l] c' Hr Hp; [|by exists c'].
  assert (Hr0 : read_cell (LaneCell l) h = Some c'); [|by exists c'].
  unfold read_cell in *. destruct (decide (lane = l)) as [<-|]; [|by rewrite get_upd_lane_ne in Hr].
  destruct (get_lane h lane) as [ls|] eqn:E.
  - erewrite get_upd_lane_eq in Hr by done. simpl in *. by rewrite Hf in Hr.
  - unfold get_lane in *. simpl in Hr. by rewrite list_lookup_alter_eq, E in Hr.
Qed.

Lemma load_cell_probe pool lane h r c h' :
  load_cell pool lane h = Some (r, c, h') -> r = cell_ref pool lane /\ read_cell r h' = Some c /\ no_new_probe h h'.
Proof.
  unfold load_cell, cell, cell_ref. intros ([r0 h0] & Hc & He)%bind_Some_inv.
  apply bind_Some_inv in He as (c0 & Hr & [= <- <- <-]). destruct (String.eqb pool "").
  { apply bind_Some_inv in Hc as (ls & _ & [= <- <-]). done. }
  destruct (assoc_find pool (lane_pool_cells h lane)) eqn:Ef; [by injection Hc as <- <-|].
  apply bind_Some_inv in Hc as (ls & Hl & [= <- <-]). split_and!; [done|done|].
  intros [l|p l] c' Hr' Hp; [by exists c'|]. unfold read_cell in Hr'.
  rewrite lane_pool_cells_insert in Hr'. case_decide; [subst l|by exists c'].
  rewrite assoc_find_app in Hr'. unfold read_cell. destruct (assoc_find p (lane_pool_cells h lane)) as [c1|].
  - exists c1. by simplify_eq.
  - simpl in Hr'. destruct (String.eqb pool p); [|done]. by simplify_eq.
Qed.

Lemma shard_probe pool h k h' : swrr_shard pool h = (k, h') -> no_new_probe h h'.
Proof. unfold swrr_shard. intros He. case_match; simplify_eq; intros r c' Hr Hp; by exists c'. Qed.

Lemma reset_probe pool r h h' : reset_swrr_for pool r h = Some h' -> no_new_probe h h'.
Proof.
  unfold reset_swrr_for. destruct (swrr_shard pool h) as [k h1] eqn:Es. intros (c & Hr & [= <-])%bind_Some_inv.
  etransitivity; [by eapply shard_probe|]. eapply write_cell_probe; [done|]. by intros ?.
Qed.

(** *** Outcomes settle the cell they are recorded on *)

Lemma failure_unprobes c now cfg ra maxh e c' t :
  cell_wf c -> cell_record_failure c now cfg ra maxh e = Some (c', t) -> probe_in_flight c' = false.
Proof.
  intros Hw. unfold cell_record_failure. pose proof (failure_pre_wf c now Hw) as Hw0.
  set (c0 := record_failure_pre c now) in *. unfold record_failure_locked.
  assert (Hpf : breaker_state c0 <> ST_HALF_OPEN -> probe_in_flight c0 = false).
  { intros Hne. destruct (probe_in_flight c0) eqn:E; [|done]. by apply (wf_probe _ Hw0) in E. }
  intros He. case_match eqn:E1; zbool.
  - case_match.
    + apply bind_Some_inv in He as (c1 & Ho & [= <- <-]). unfold cell_open_locked in Ho. by mbind_inv.
    + apply bind_Some_inv in He as (d & _ & [= <- <-]). simpl. apply Hpf. by rewrite E1.
  - case_match eqn:E2; zbool.
    + apply bind_Some_inv in He as (c1 & Ho & [= <- <-]). unfold cell_open_locked in Ho. by mbind_inv.
    + case_match; simplify_eq; by apply Hpf.
Qed.

Lemma success_unprobes c now : cell_wf c -> probe_in_flight (cell_record_success c now).1 = false.
Proof.
  intros Hw. assert (Hpf : breaker_state c <> ST_HALF_OPEN -> probe_in_flight c = false).
  { intros Hne. destruct (probe_in_flight c) eqn:E; [|done]. by apply (wf_probe _ Hw) in E. }
  unfold cell_record_success, cas_state.
  destruct (breaker_state c =? ST_OPEN) eqn:Eo, (breaker_state c =? ST_HALF_OPEN) eqn:Eh; simpl; rewrite Eh;
    zbool; simpl; try done; apply Hpf; by rewrite ?Eo.
Qed.

Lemma unprobed_keeps c c' : probe_in_flight c' = false -> keeps_probe c c'.
Proof. unfold keeps_probe. by intros ->. Qed.

Lemma unprobed_settled pool lane epoch c h :
  is_Some (read_cell (cell_ref pool lane) h) -> probe_in_flight c = false ->
  settled pool lane epoch (write_cell (cell_ref pool lane) c h).
Proof. intros Hs Hp c' Hr Hp'. rewrite read_write_eq in Hr by done. simplify_eq. congruence. Qed.

(** The lane is not dead. *)
Definition alive lane h : Prop := ls_dead <$> get_lane h lane = Some false.

Lemma record_failure_probe pool lane now cfg ra e h b h' :
  health_wf h -> record_failure_for pool lane now cfg ra e h = Some (b, h') ->
  no_new_probe h h' /\ (alive lane h -> forall epoch, settled pool lane epoch h').
Proof.
  intros Hw. unfold record_failure_for, alive. intros (ls & Hl & He)%bind_Some_inv.
  destruct (ls_dead ls) eqn:Ed; [mbind_inv; rewrite Hl; simpl; rewrite Ed; split; [done|by intros]|].
  destruct (load_cell_hstep pool lane h ls Hw Hl) as (c & h1 & Hld & _ & Hrd & Hok & _ & _).
  rewrite Hld in He. apply load_cell_probe in Hld as (_ & _ & Hn1). cbn [mbind option_bind] in He.
  apply bind_Some_inv in He as ([c' t] & Hf & [= <- <-]).
  apply failure_unprobes in Hf; [|apply Hok].
  set (h2 := write_cell (cell_ref pool lane) c' h1) in *.
  assert (Hn2 : no_new_probe h h2).
  { etransitivity; [exact Hn1|]. eapply write_cell_probe; [done|by apply unprobed_keeps]. }
  assert (Hs2 : forall epoch, settled pool lane epoch h2) by (intros; apply unprobed_settled; eauto).
  set (h3 := if String.eqb pool "" then h2 else upd_lane lane bump_err h2).
  assert (Hn3 : no_new_probe h2 h3 /\ forall epoch, settled pool lane epoch h3).
  { unfold h3. destruct (String.eqb_spec pool "") as [->|Hne]; [done|].
    (* a named pool: the err count of the lane's own cell is bumped *)
    assert (Hn : no_new_probe h2 (upd_lane lane bump_err h2)).
    { intros [l|p l] c2 Hr Hp; [|by exists c2]. unfold read_cell in Hr |- *.
      destruct (decide (lane = l)) as [<-|]; [|rewrite get_upd_lane_ne in Hr by done; by exists c2].
      destruct (get_lane h2 lane) as [ls2|] eqn:E2.
      - erewrite get_upd_lane_eq in Hr by done. simpl in *. simplify_eq. by exists (ls_cell ls2).
      - unfold get_lane in *. simpl in Hr. by rewrite list_lookup_alter_eq, E2 in Hr. }
    split; [done|]. intros epoch. by eapply settled_stable. }
  destruct Hn3 as [Hn3 Hs3].
  assert (Hn4 : no_new_probe h3 (if t then upd_lane lane (bump_trips now) h3 else h3)).
  { destruct t; [|done]. by apply upd_lane_probe. }
  split; [by etransitivity; [exact Hn2|]; etransitivity|].
  intros _ epoch. by eapply settled_stable.
Qed.

Lemma record_success_probe pool lane now h h' :
  health_wf h -> record_success_for pool lane now h = Some h' ->
  no_new_probe h h' /\ (alive lane h -> forall epoch, settled pool lane epoch h').
Proof.
  intros Hw. unfold record_success_for, alive. intros (ls & Hl & He)%bind_Some_inv.
  assert (Hbump : forall h0, no_new_probe h0 (upd_lane lane bump_ok h0)) by (intros; by apply upd_lane_probe).
  destruct (ls_dead ls) eqn:Ed; [mbind_inv; rewrite Hl; simpl; rewrite Ed; split; [done|by intros]|].
  destruct (load_cell_hstep pool lane h ls Hw Hl) as (c & h1 & Hld & _ & Hrd & Hok & _ & _).
  rewrite Hld in He. apply load_cell_probe in Hld as (_ & _ & Hn1). cbn [mbind option_bind] in He.
  pose proof (success_unprobes c now (proj1 Hok)) as Hu. destruct (cell_record_success c now) as [c' rec].
  apply bind_Some_inv in He as (h2 & Hr & [= <-]).
  assert (Hn2 : no_new_probe h1 (write_cell (cell_ref pool lane) c' h1)).
  { eapply write_cell_probe; [done|by apply unprobed_keeps]. }
  assert (Hn3 : no_new_probe (write_cell (cell_ref pool lane) c' h1) h2).
  { destruct rec; [by eapply reset_probe|by injection Hr as <-]. }
  split.
  - etransitivity; [exact Hn1|]. etransitivity; [exact Hn2|]. etransitivity; [exact Hn3|apply Hbump].
  - intros _ epoch. eapply settled_stable; [apply Hbump|]. eapply settled_stable; [exact Hn3|].
    apply unprobed_settled; eauto.
Qed.

Lemma hard_down_all_probe lane reason now h b h' :
  record_hard_down_all_cells lane reason now h = Some (b, h') ->
  no_new_probe h h' /\ forall pool epoch, settled pool lane epoch h'.
Proof.
  unfold record_hard_down_all_cells. intros (ls & Hl & He)%bind_Some_inv. injection He as <- <-.
  set (hd := hard_down_cooldown_secs h).
  set (h1 := upd_lane lane _ h). set (h2 := set_pool_cells _ h1).
  assert (Hcells : forall l, lane_pool_cells h2 l = if decide (lane = l)
    then (fun pc => (pc.1, cell_hard_down pc.2 now hd)) <$> lane_pool_cells h l else lane_pool_cells h l).
  { intros l. unfold lane_pool_cells, h2. simpl. case_decide; [subst l|by rewrite lookup_alter_ne].
    rewrite lookup_alter_eq. by destruct (pool_cells h !! lane). }
  assert (Hdown : forall p c', read_cell (cell_ref p lane) h2 = Some c' -> probe_in_flight c' = false).
  { intros p c'. unfold cell_ref. destruct (String.eqb p ""); unfold read_cell.
    - change (get_lane h2 lane) with (get_lane h1 lane). unfold h1. erewrite get_upd_lane_eq by done.
      simpl. by intros [= <-].
    - rewrite Hcells, decide_True by done. induction (lane_pool_cells h lane) as [|[p' c0] cs IH]; [done|].
      csimpl. destruct (String.eqb p' p); [by intros [= <-]|done]. }
  assert (Hn : no_new_probe h h2).
  { intros [l|p l] c' Hr Hp; unfold read_cell in Hr |- *.
    - change (get_lane h2 l) with (get_lane h1 l) in Hr. unfold h1 in Hr.
      destruct (decide (lane = l)) as [<-|]; [|rewrite get_upd_lane_ne in Hr by done; by exists c'].
      erewrite get_upd_lane_eq in Hr by done. simpl in Hr. by simplify_eq.
    - rewrite Hcells in Hr. case_decide; [subst l|by exists c'].
      destruct (String.eqb_spec p "") as [->|Hne].
      + exfalso. clear Hdown. induction (lane_pool_cells h lane) as [|[p' c0] cs IH]; [done|].
        csimpl in Hr. destruct (String.eqb p' ""); [by simplify_eq|done].
      + specialize (Hdown p c'). unfold cell_ref in Hdown. apply String.eqb_neq in Hne. rewrite Hne in Hdown.
        unfold read_cell in Hdown. rewrite Hcells, decide_True in Hdown by done. by rewrite Hdown in Hp. }
  assert (Hs : forall p e, settled p lane e h2).
  { intros p e c' Hr Hp. by rewrite (Hdown p c' Hr) in Hp. }
  case_match.
  - assert (Hb : no_new_probe h2 (upd_lane lane (bump_trips now) h2)) by by apply upd_lane_probe.
    split; [by etransitivity|]. intros. by eapply settled_stable.
  - done.
Qed.

Lemma release_probe_probe pool lane h h' :
  health_wf h -> release_probe_in pool lane h = Some h' ->
  no_new_probe h h' /\ forall epoch, settled pool lane epoch h'.
Proof.
  intros Hw. unfold release_probe_in. intros ([[r c] h1] & Hld & [= <-])%bind_Some_inv.
  apply load_cell_probe in Hld as (-> & Hr & Hn). split.
  - etransitivity; [exact Hn|]. eapply write_cell_probe; [done|by intros ?].
  - intros epoch. apply unprobed_settled; eauto.
Qed.

Lemma release_owned_probe pool lane epoch h h' :
  release_probe_owned_in pool lane epoch h = Some h' ->
  no_new_probe h h' /\ settled pool lane epoch h'.
Proof.
  unfold release_probe_owned_in. intros ([[r c] h1] & Hld & [= <-])%bind_Some_inv.
  apply load_cell_probe in Hld as (-> & Hr & Hn). unfold cell_release_probe_owned.
  destruct (probe_epoch c =? epoch) eqn:E; zbool; simpl.
  - split; [etransitivity; [exact Hn|]; eapply write_cell_probe; [done|by intros ?]|].
    apply unprobed_settled; eauto.
  - split; [etransitivity; [exact Hn|]; eapply write_cell_probe; [done|by intros ?]|].
    intros c' Hr' Hp. rewrite read_write_eq in Hr' by eauto. by simplify_eq.
Qed.

Lemma client_fault_probe lane h h' : record_client_fault lane h = Some h' -> no_new_probe h h'.
Proof. unfold record_client_fault. intros (ls & Hl & [= <-])%bind_Some_inv. by apply upd_lane_probe. Qed.

Lemma latency_probe lane ms h h' : record_latency_in lane ms h = Some h' -> no_new_probe h h'.
Proof.
  unfold record_latency_in. intros He. case_match; [by simplify_eq|]. mbind_inv. case_match; [|done].
  by apply upd_lane_probe.
Qed.

Lemma cooldown_probe pool lane now h z h' :
  cooldown_remaining_for pool lane now h = Some (z, h') -> no_new_probe h h'.
Proof.
  unfold cooldown_remaining_for. intros ([[r c] h1] & Hc & [= <- <-])%bind_Some_inv.
  by apply load_cell_probe in Hc as (_ & _ & ?).
Qed.

Lemma spend_probe lane h b h' : spend_budget lane h = Some (b, h') -> no_new_probe h h'.
Proof.
  unfold spend_budget. intros (ls & Hl & He)%bind_Some_inv. case_match; [by simplify_eq|].
  case_match; simplify_eq; [by apply upd_lane_probe|done].
Qed.

Lemma refund_probe lane h h' : refund_budget lane h = Some h' -> no_new_probe h h'.
Proof.
  unfold refund_budget. intros (ls & Hl & He)%bind_Some_inv. case_match; simplify_eq; [done|].
  by apply upd_lane_probe.
Qed.

Lemma try_acquire_probe lane h p h' : try_acquire lane h = Some (p, h') -> no_new_probe h h'.
Proof.
  unfold try_acquire. intros (ls & Hl & He)%bind_Some_inv. case_match; [by simplify_eq|].
  case_match; injection He as <- <-; [by apply upd_lane_probe|done].
Qed.

Lemma drop_permit_probe lane p h : no_new_probe h (drop_permit lane p h).
Proof. destruct p; [|done]. by apply upd_lane_probe. Qed.
End probes.
