(* ===== verification/Request.v ===== *)
(** * Request: one request's run against the shared store

    A request is an [async] function: it reads clocks, awaits the network and reads and writes the lane
    store, while every other request does the same. [Engine] is the small monad such a run is written
    in. The outside is an oracle: the [n]-th interaction of the run with it is described by the
    [n]-th [Moment] - what other threads have done to the store before that access, what the clocks
    read, how the network answered. The run keeps a log of what it took, gave back, sent and spent. *)

From S2P Require Import Prelude Float64 Breaker BreakerFsm HealthState HealthLemmas HealthSpec HealthAdmit SwrrCore Swrr StoreRuns Classifier Bytes Selection SelectionSpec Ledger.

#[local] Open Scope Z_scope.

(** ** What the outside answers *)

(** What preparing the egress request comes to: the translation to the lane's protocol, its path. *)
Inductive Prepared := Ready_to_send | Unparsed | Untranslatable (status : Z) (kind : string) | No_path.

(** The response headers of an upstream, with the reader's view of a non-2xx body. *)
Record Answer := mkAnswer {
  status : Z;
  streaming_type : bool;
  retry_header : option (list Ascii.ascii);
  raw_error : RawUpstreamError
}.

Inductive SendResult := Send_failed (is_timeout : bool) | Answered (a : Answer).

Inductive ReadEnd := Complete | Truncated | TransportError.

(** A buffered 2xx body: how reading it ended, whether it is JSON, what the egress codec decodes it
    to (its token usage) and whether the ingress dialect can carry it as a stream. *)
Record BufferedBody := mkBuffered {
  read_end : ReadEnd;
  is_json : bool;
  decoded : option (option IrUsage);
  wraps_as_stream : bool
}.

(** One poll of an upstream body stream. *)
Inductive InnerPoll := Chunk (b : bytes) | Broken | Ended.

(** What a queued wait hears from the semaphores: a lane's is granted, or they are closed. *)
Inductive QueueEvent := Granted (lane : nat) | Shut.

Record Moment {SemT : Type} := mkMoment {
  tk_peer : HealthState SemT -> HealthState SemT;
  tk_during : HealthState SemT -> HealthState SemT;
  tk_rounds : nat -> RoundEnv (SemT := SemT);
  tk_now : Z;
  tk_now_ns : Z;
  tk_wall : Z;
  tk_entropy : Entropy;
  tk_gone : bool;
  tk_prepared : Prepared;
  tk_send : SendResult * Z;
  tk_body : BufferedBody;
  tk_latency : f64;
  tk_cap : Z;
  tk_queue : option (QueueEvent * Z)
}.
Arguments Moment : clear implicits.

(** ** The log *)

Inductive Event :=
  | Admission (pool : string) (p : option Picked)
  | Readmission (pool : string) (lane : nat) (probe_epoch : option Z)
  | Took (lane : nat) (p : Permit)
  | Gave (lane : nat) (p : Permit)
  | Sent (last_resort : bool) (pool : string) (lane : nat)
  | Failed (pool : string) (lane : nat)
  | Spent (lane : nat)
  | Refunded (lane : nat)
  | Billed (lane : nat) (usage : option IrUsage).

(** What the log says of one lane: permits held and budget units spent. *)
Definition permit_event (l : nat) (e : Event) : Z :=
  match e with
  | Admission _ p => held l p
  | Took i p => if Nat.eqb i l then permit_cost p else 0
  | Gave i p => if Nat.eqb i l then - permit_cost p else 0
  | _ => 0
  end.

Definition budget_event (l : nat) (e : Event) : Z :=
  match e with
  | Spent i => if Nat.eqb i l then 1 else 0
  | Refunded i => if Nat.eqb i l then -1 else 0
  | _ => 0
  end.

Definition permit_balance (l : nat) (evs : list Event) : Z := Zsum (permit_event l <$> evs).
Definition budget_balance (l : nat) (evs : list Event) : Z := Zsum (budget_event l <$> evs).

Section engine.
Context {SemT : Type} `{Semaphore SemT}.
Implicit Types (h : HealthState SemT).

(** ** The monad *)

Record World := mkWorld { w_store : HealthState SemT; w_moment : nat; w_log : list Event }.

Context (oracle : nat -> Moment SemT).

(** [None] is a panic. *)
Definition Engine (A : Type) : Type := World -> option (A * World).

Definition ret {A} (a : A) : Engine A := fun w => Some (a, w).

Definition bind {A B} (m : Engine A) (f : A -> Engine B) : Engine B :=
  fun w => match m w with Some (a, w) => f a w | None => None end.

Definition panic {A} : Engine A := fun _ => None.

Definition of_option {A} (x : option A) : Engine A :=
  fun w => match x with Some a => Some (a, w) | None => None end.

(** One interaction that leaves the store alone. *)
Definition ask {A} (f : Moment SemT -> A) : Engine A :=
  fun w => Some (f (oracle (w_moment w)), mkWorld (w_store w) (S (w_moment w)) (w_log w)).

(** One access to the store, after whatever other threads did to it meanwhile. *)
Definition access {A} (f : Moment SemT -> HealthState SemT -> option (A * HealthState SemT)) : Engine A :=
  fun w =>
    let e := oracle (w_moment w) in
    match f e (tk_peer e (w_store w)) with
    | Some (a, h) => Some (a, mkWorld h (S (w_moment w)) (w_log w))
    | None => None
    end.

Definition note (e : Event) : Engine unit :=
  fun w => Some (tt, mkWorld (w_store w) (w_moment w) (w_log w ++ [e])).

Definition note_opt (e : option Event) : Engine unit :=
  match e with Some e => note e | None => ret tt end.

(** An access and what it leaves in the log. *)
Definition logged {A} (m : Engine A) (ev : A -> option Event) : Engine A :=
  bind m (fun a => bind (note_opt (ev a)) (fun _ => ret a)).

(** ** The store operations of [LaneRuntime], as the engine calls them *)

Definition unit_result (x : option (HealthState SemT)) : option (unit * HealthState SemT) :=
  h ← x; Some (tt, h).

Definition do_record_failure (pool : string) (lane : nat) (cfg : BreakerCfg) (retry_after : option Z)
    : Engine bool :=
  logged (access (fun e => record_failure_for pool lane (tk_now e) cfg retry_after (tk_entropy e)))
    (fun _ => Some (Failed pool lane)).

Definition do_record_success (pool : string) (lane : nat) : Engine unit :=
  access (fun e h => unit_result (record_success_for pool lane (tk_now e) h)).

Definition do_record_latency (lane : nat) : Engine unit :=
  access (fun e h => unit_result (record_latency_in lane (tk_latency e) h)).

Definition do_record_hard_down (pool : string) (lane : nat) (reason : string) : Engine bool :=
  logged (access (fun e => record_hard_down_all_cells lane reason (tk_now e)))
    (fun _ => Some (Failed pool lane)).

Definition do_record_client_fault (lane : nat) : Engine unit :=
  access (fun _ h => unit_result (record_client_fault lane h)).

Definition do_release_probe (pool : string) (lane : nat) : Engine unit :=
  access (fun _ h => unit_result (release_probe_in pool lane h)).

Definition do_release_probe_owned (pool : string) (lane : nat) (epoch : Z) : Engine unit :=
  access (fun _ h => unit_result (release_probe_owned_in pool lane epoch h)).

Definition do_spend_budget (lane : nat) : Engine bool :=
  logged (access (fun _ => spend_budget lane)) (fun spent => if (spent : bool) then Some (Spent lane) else None).

Definition do_refund_budget (lane : nat) : Engine unit :=
  logged (access (fun _ h => unit_result (refund_budget lane h))) (fun _ => Some (Refunded lane)).

Definition do_drop_permit (lane : nat) (p : Permit) : Engine unit :=
  logged (access (fun _ h => Some (tt, drop_permit lane p h))) (fun _ => Some (Gave lane p)).

Definition do_try_acquire (lane : nat) : Engine (option Permit) :=
  logged (access (fun _ => try_acquire lane)) (option_map (Took lane)).

Definition do_try_admit_breaker (pool : string) (lane : nat) : Engine (Result Z Unavailable) :=
  logged (access (fun e => try_admit_breaker (tk_during e) pool lane (tk_now e)))
    (fun res => Some (Readmission pool lane (match res with Ok e => Some e | Err _ => None end))).

Definition do_lane_admissible (lane : nat) : Engine bool :=
  access (fun _ h => b ← lane_admissible h lane; Some (b, h)).

Definition do_cooldown_remaining (pool : string) (lane : nat) (now : Z) : Engine Z :=
  access (fun _ => cooldown_remaining_for pool lane now).

Definition do_lane_semaphore (lane : nat) : Engine (option SemT) :=
  access (fun _ h => s ← lane_semaphore h lane; Some (s, h)).

(** [pick_among]: a lane, the permit and the owner token it came with. *)
Definition do_pick_among (cands : list WeightedLane) (ctx : RequestCtx) (affinity_key_hash : option Z)
    (pool : string) (policy_order : option (list nat)) : Engine (option Picked * RequestCtx) :=
  logged (access (fun e => pick_among (tk_now e) (tk_during e) (tk_rounds e) cands ctx affinity_key_hash
                             pool policy_order))
    (fun picked => Some (Admission pool picked.1)).

Definition now : Engine Z := ask tk_now.

(** An [.await]: [true] when the future is dropped there, because the client went away. *)
Definition await : Engine bool := ask tk_gone.
End engine.

Arguments World : clear implicits.
Arguments Engine : clear implicits.

Notation "'let!' x ':=' m 'in' k" := (bind m (fun x => k))
  (at level 200, x name, m at level 100, k at level 200, right associativity) : busbar_scope.
Notation "'let!' ' p ':=' m 'in' k" := (bind m (fun p => k))
  (at level 200, p strict pattern, m at level 100, k at level 200, right associativity) : busbar_scope.
Notation "m ';;;' k" := (bind m (fun _ => k)) (at level 199, right associativity) : busbar_scope.
