(* ===== verification/ResponseBody.v ===== *)
(** * ResponseBody: the body of a relayed response (proxy/response_body.rs)

    [FirstByteBody] wraps the upstream's body stream of a 2xx response. It relays or translates chunks,
    holds the lane's concurrency permit, tells the breaker when the stream breaks, refunds the lane's
    budget when nothing usable was delivered and bills the tokens once. The stream translator
    (proto/stream.rs) and the JSON-array framer are components of their own: here they are the
    interface this file uses, with the laws it relies on. *)

From S2P Require Import Prelude Breaker HealthState Bytes Selection Ledger Request.

#[local] Open Scope Z_scope.

(** ** What the body asks of the protocol layer *)

Class StreamTranslate (T : Type) := {
  feed : bytes -> T -> bytes * T;
  finish : T -> bytes * T;
  aborted : T -> bool;
  terminal_error : T -> bool;
  usage : T -> option IrUsage;
  finish_aborted : forall t, aborted (finish t).2 = aborted t;
  finish_terminal : forall t, terminal_error t = true -> terminal_error (finish t).2 = true;
}.

Class JsonArrayFramer (J : Type) := {
  feed_array : bytes -> J -> bytes * J;
  finish_for_translate : bool -> J -> bytes * J;
  finish_with_server_error : J -> bytes * J;
}.

(** proxy/usage.rs *)
Definition tier_tokens (u : IrUsage) : TierTokens :=
  mkTokens (input_tokens u) (output_tokens u) (default 0 (cache_read_input_tokens u))
    (default 0 (cache_creation_input_tokens u)).

Section body.
Context {SemT T J : Type} `{Semaphore SemT} `{StreamTranslate T} `{JsonArrayFramer J}.

(** [extract] is what the operation reads usage from a whole non-stream body with, [taps] whether it
    does; [sink] says a usage sink is attached, [error_frame] is the client's native mid-stream error. *)
Record FirstByteBody := mkBody {
  first_byte_sent : bool;
  is_sse : bool;
  body_permit : option Permit;
  body_lane : nat;
  body_cfg : BreakerCfg;
  body_pool : string;
  translate : option T;
  json_array : option J;
  usage_sink : bool;
  budget_spent : bool;
  ended : bool;
  stream_failed : bool;
  nonstream_buf : bytes;
  taps : bool;
  extract : bytes -> option IrUsage;
  error_frame : bytes
}.

Definition FirstByteBody_new (is_sse : bool) (permit : Permit) (lane : nat) (cfg : BreakerCfg)
    (pool : string) (translate : option T) (json_array : option J) (usage_sink budget_spent taps : bool)
    (extract : bytes -> option IrUsage) (error_frame : bytes) : FirstByteBody :=
  mkBody false is_sse (Some permit) lane cfg pool translate json_array usage_sink budget_spent false false
    [] taps extract error_frame.

Definition set_first (b : FirstByteBody) := mkBody true (is_sse b) (body_permit b) (body_lane b)
  (body_cfg b) (body_pool b) (translate b) (json_array b) (usage_sink b) (budget_spent b) (ended b)
  (stream_failed b) (nonstream_buf b) (taps b) (extract b) (error_frame b).
Definition set_permit p (b : FirstByteBody) := mkBody (first_byte_sent b) (is_sse b) p (body_lane b)
  (body_cfg b) (body_pool b) (translate b) (json_array b) (usage_sink b) (budget_spent b) (ended b)
  (stream_failed b) (nonstream_buf b) (taps b) (extract b) (error_frame b).
Definition set_translate t (b : FirstByteBody) := mkBody (first_byte_sent b) (is_sse b) (body_permit b)
  (body_lane b) (body_cfg b) (body_pool b) t (json_array b) (usage_sink b) (budget_spent b) (ended b)
  (stream_failed b) (nonstream_buf b) (taps b) (extract b) (error_frame b).
Definition set_array j (b : FirstByteBody) := mkBody (first_byte_sent b) (is_sse b) (body_permit b)
  (body_lane b) (body_cfg b) (body_pool b) (translate b) j (usage_sink b) (budget_spent b) (ended b)
  (stream_failed b) (nonstream_buf b) (taps b) (extract b) (error_frame b).
Definition set_sink s (b : FirstByteBody) := mkBody (first_byte_sent b) (is_sse b) (body_permit b)
  (body_lane b) (body_cfg b) (body_pool b) (translate b) (json_array b) s (budget_spent b) (ended b)
  (stream_failed b) (nonstream_buf b) (taps b) (extract b) (error_frame b).
Definition set_spent s (b : FirstByteBody) := mkBody (first_byte_sent b) (is_sse b) (body_permit b)
  (body_lane b) (body_cfg b) (body_pool b) (translate b) (json_array b) (usage_sink b) s (ended b)
  (stream_failed b) (nonstream_buf b) (taps b) (extract b) (error_frame b).
Definition set_ended (b : FirstByteBody) := mkBody (first_byte_sent b) (is_sse b) (body_permit b)
  (body_lane b) (body_cfg b) (body_pool b) (translate b) (json_array b) (usage_sink b) (budget_spent b)
  true (stream_failed b) (nonstream_buf b) (taps b) (extract b) (error_frame b).
Definition set_failed (b : FirstByteBody) := mkBody (first_byte_sent b) (is_sse b) (body_permit b)
  (body_lane b) (body_cfg b) (body_pool b) (translate b) (json_array b) (usage_sink b) (budget_spent b)
  (ended b) true (nonstream_buf b) (taps b) (extract b) (error_frame b).
Definition set_buf v (b : FirstByteBody) := mkBody (first_byte_sent b) (is_sse b) (body_permit b)
  (body_lane b) (body_cfg b) (body_pool b) (translate b) (json_array b) (usage_sink b) (budget_spent b)
  (ended b) (stream_failed b) v (taps b) (extract b) (error_frame b).

Context (oracle : nat -> Moment SemT).

(** [drop(this.permit.take())] *)
Definition take_permit (b : FirstByteBody) : Engine SemT FirstByteBody :=
  match body_permit b with
  | Some p => do_drop_permit oracle (body_lane b) p ;;; ret (set_permit None b)
  | None => ret b
  end.

(** What one poll gives the client. *)
Inductive Poll := Item (b : bytes) | Item_error | Finished | Pending.

(** [framer.feed]: [None] when no complete object is there yet. *)
Definition framed (chunk : bytes) (b : FirstByteBody) (j : J) : option bytes * FirstByteBody :=
  let (out, j) := feed_array chunk j in
  (match out with [] => None | _ => Some out end, set_array (Some j) b).

(** The chunk kept for billing: a bounded prefix of the body, under the cap in force at this chunk. *)
Definition retain (cap : Z) (chunk buf : bytes) : bytes :=
  if Z.of_nat (length buf) <? cap
  then buf ++ take (Z.to_nat (cap - Z.of_nat (length buf))) chunk
  else buf.

(** A chunk: what to hand out, [None] to poll the upstream again. *)
Definition on_chunk (chunk : bytes) (b : FirstByteBody) : Engine SemT (option bytes * FirstByteBody) :=
  let b := set_first b in
  match translate b with
  | Some t =>
      let (out, t) := feed chunk t in
      let b := set_translate (Some t) b in
      ret (match json_array b with
           | Some j => framed out b j
           | None => (match out with [] => None | _ => Some out end, b)
           end)
  | None =>
      let! b := (if negb (is_sse b) && taps b && usage_sink b
                 then let! cap := ask oracle tk_cap in ret (set_buf (retain cap chunk (nonstream_buf b)) b)
                 else ret b) in
      ret (match json_array b with
           | Some j => framed chunk b j
           | None => (Some chunk, b)
           end)
  end.

(** The upstream's transport broke. *)
Definition on_broken (b : FirstByteBody) : Engine SemT (Poll * FirstByteBody) :=
  let b := set_failed b in
  if first_byte_sent b && is_sse b then
    let! _ := do_record_failure oracle (body_pool b) (body_lane b) (body_cfg b) None in
    let! b := take_permit b in
    let b := set_ended b in
    ret match json_array b with
        | Some j => let (out, j) := finish_with_server_error j in (Item out, set_array (Some j) b)
        | None => (Item (error_frame b), b)
        end
  else
    let! _ := do_record_failure oracle (body_pool b) (body_lane b) (body_cfg b) None in
    let! b := (if budget_spent b
               then do_refund_budget oracle (body_lane b) ;;; ret (set_spent false b)
               else ret b) in
    let! b := take_permit b in
    ret (Item_error, set_ended b).

Definition translate_aborted (b : FirstByteBody) : bool :=
  match translate b with Some t => aborted t | None => false end.
Definition stream_terminal_error (b : FirstByteBody) : bool :=
  match translate b with Some t => terminal_error t | None => false end.

(** [translate.finish()], drained once. *)
Definition drain_finish (b : FirstByteBody) : bytes * FirstByteBody :=
  match translate b with
  | Some t => let (tail, t) := finish t in (tail, set_translate (Some t) b)
  | None => ([], b)
  end.

Definition close_array (was_aborted : bool) (tail : bytes) (b : FirstByteBody) : bytes * FirstByteBody :=
  match json_array b with
  | Some j =>
      let (wrapped, j) := if was_aborted then ([], j) else feed_array tail j in
      let (fin, j) := finish_for_translate was_aborted j in
      (wrapped ++ fin, set_array (Some j) b)
  | None => (tail, b)
  end.

(** The usage of a stream that ended. *)
Definition final_usage (b : FirstByteBody) : option IrUsage :=
  match translate b with
  | Some t => usage t
  | None =>
      if negb (is_sse b) && negb (bool_decide (nonstream_buf b = []))
      then extract b (nonstream_buf b) else None
  end.

(** The upstream's body ended. *)
Definition on_end (b : FirstByteBody) : Engine SemT (Poll * FirstByteBody) :=
  let was_aborted := translate_aborted b in
  let breaker_failed := stream_terminal_error b || was_aborted in
  (if is_sse b && first_byte_sent b && breaker_failed
   then let! _ := do_record_failure oracle (body_pool b) (body_lane b) (body_cfg b) None in ret tt
   else ret tt) ;;;
  let (tail, b) := drain_finish b in
  let (done, b) := close_array was_aborted tail b in
  let! b := take_permit b in
  let b := set_ended b in
  let! b := (if usage_sink b then
               let billing_failed := stream_terminal_error b || was_aborted in
               (if billing_failed then ret tt else note (Billed (body_lane b) (final_usage b))) ;;;
               ret (set_sink false b)
             else ret b) in
  ret (match done with [] => Finished | _ => Item done end, b).

(** The loop of [poll_next] over what the upstream stream yields; running out is [Pending]. *)
Fixpoint poll_loop (inner : list InnerPoll) (b : FirstByteBody)
    : Engine SemT (Poll * list InnerPoll * FirstByteBody) :=
  match inner with
  | [] => ret (Pending, [], b)
  | Chunk chunk :: inner =>
      let! '(out, b) := on_chunk chunk b in
      match out with
      | Some out => ret (Item out, inner, b)
      | None => poll_loop inner b
      end
  | Broken :: inner => let! '(p, b) := on_broken b in ret (p, inner, b)
  | Ended :: inner => let! '(p, b) := on_end b in ret (p, inner, b)
  end.

Definition poll_next (inner : list InnerPoll) (b : FirstByteBody)
    : Engine SemT (Poll * list InnerPoll * FirstByteBody) :=
  if ended b then ret (Finished, inner, b) else poll_loop inner b.

(** [Drop], then the drop of the fields: the permit is the last to go. *)
Definition drop_body (b : FirstByteBody) : Engine SemT unit :=
  let! b := (if negb (ended b) && budget_spent b
             then do_refund_budget oracle (body_lane b) ;;; ret (set_spent false b)
             else ret b) in
  (if usage_sink b then
     if stream_failed b || stream_terminal_error b || translate_aborted b then ret tt
     else
       let u := match translate b with Some t => usage t | None => None end in
       if is_zero (match u with Some u => tier_tokens u | None => TierTokens_default end) then ret tt
       else note (Billed (body_lane b) u)
   else ret tt) ;;;
  let! _ := take_permit b in
  ret tt.

(** A client that polls [n] times and then lets go of the body. *)
Fixpoint consume (n : nat) (inner : list InnerPoll) (b : FirstByteBody) : Engine SemT (list Poll) :=
  match n with
  | O => drop_body b ;;; ret []
  | S n =>
      let! '(p, inner, b) := poll_next inner b in
      let! rest := consume n inner b in
      ret (p :: rest)
  end.
End body.

Arguments FirstByteBody : clear implicits.
