(* ===== verification/Forward.v ===== *)
(** * Forward: the failover engine (proxy/engine/mod.rs, proxy/engine/walk.rs)

    One admitted request on its way to an upstream: the attempt loop over a pool's lanes with the
    disposition of every answer, the translation of a buffered response, the degraded single forward,
    and what happens when a pool is exhausted - shed, spill to a fallback pool, queue, or the least bad
    lane. Metrics, logs and taps are left out; a response keeps what clients and callers key on. *)

From stdpp Require Import pretty.
From S2P Require Import Prelude Float64 Breaker Json HookWire HookProjection Ranking HealthState Classifier Bytes Selection Ledger HookPolicy Request ResponseBody.

#[local] Open Scope Z_scope.

(** ** Configuration (config/mod.rs, state.rs) *)

Record FailoverCfg := mkFailover {
  timeout_secs : Z;
  exclusions : option (list string);
  max_hops : nat
}.

Definition DEFAULT_FAILOVER_DEADLINE_SECS : Z := 120.
Definition DEFAULT_FAILOVER_CAP : nat := 3.

Inductive OnExhausted := Status503 | FallbackPool (pool : string) | LeastBad | Queue (max_ms : Z).

Inductive UpstreamCreds := Passthrough | Own.

#[export] Instance UpstreamCreds_eq_dec : EqDecision UpstreamCreds.
Proof. solve_decision. Defined.

Record PoolRuntime := mkPool {
  members : gmap nat MemberMeta;
  failover : option FailoverCfg;
  pool_breaker : option BreakerCfg;
  pool_upstream_credentials : option UpstreamCreds;
  base_policy : option ResolvedPolicy;
  pool_gates : list (Z * ResolvedPolicy);
  pool_rewrite_hooks : list (Z * Policy)
}.

(** A lane as the engine reads it. *)
Record Lane := mkLaneCfg {
  model : string;
  lane_provider : string;
  protocol : string;
  error_map : gmap string string;
  context_max : option Z;
  lane_attempt_timeout_ms : option Z
}.

Record App := mkApp {
  app_lanes : list Lane;
  pool_runtime : gmap string PoolRuntime;
  failover_cfg : option FailoverCfg;
  upstream_credentials : UpstreamCreds;
  on_exhausted_cfgs : gmap string OnExhausted;
  fallback_pools : gmap string (list WeightedLane);
  global_gates : list (Z * ResolvedPolicy);
  rewrite_hooks : list (Z * Policy);
  requested_signals : list Signal
}.

Definition pool_upstream_creds (app : App) (pool : string) : UpstreamCreds :=
  default (upstream_credentials app) (pool_runtime app !! pool ≫= pool_upstream_credentials).

Definition resolve_breaker_cfg (app : App) (pool : string) : BreakerCfg :=
  default BreakerCfg_default (pool_runtime app !! pool ≫= pool_breaker).

(** The pool's own settings, else the global ones. *)
Definition pool_failover (app : App) (pool : string) : option FailoverCfg :=
  match pool_runtime app !! pool ≫= failover with
  | Some f => Some f
  | None => failover_cfg app
  end.

Definition effective_attempt_timeout_ms (cands : list WeightedLane) (i : nat) (lane_default : option Z)
    : option Z :=
  match List.find (fun w => Nat.eqb (idx w) i) cands ≫= attempt_timeout_ms with
  | Some ms => Some ms
  | None => lane_default
  end.

(** In milliseconds. *)
Definition attempt_cap (ms remaining_secs : Z) : Z := Z.min ms (Z.max (sat_mul remaining_secs 1000) 1).

(** ** Error shapes (proxy/mod.rs, proxy/wire.rs) *)

Definition KIND_AUTHENTICATION : string := "authentication_error".
Definition KIND_PERMISSION : string := "permission_error".
Definition KIND_RATE_LIMIT : string := "rate_limit_error".
Definition KIND_INVALID_REQUEST : string := "invalid_request_error".
Definition KIND_NOT_FOUND : string := "not_found_error".
Definition KIND_API_ERROR : string := "api_error".
Definition KIND_OVERLOADED : string := "overloaded".
Definition KIND_TIMEOUT : string := "timeout".

Definition is_success (status : Z) : bool := (200 <=? status) && (status <? 300).

Definition cross_protocol_error_kind (status : Z) : string :=
  if status =? 401 then KIND_AUTHENTICATION
  else if status =? 403 then KIND_PERMISSION
  else if status =? 429 then KIND_RATE_LIMIT
  else if status =? 503 then KIND_OVERLOADED
  else if status =? 504 then KIND_TIMEOUT
  else if is_5xx status then KIND_API_ERROR
  else KIND_INVALID_REQUEST.

Definition client_fault_kind (class : StatusClass) : string :=
  match class with
  | ContextLength => PROVIDER_CODE_CONTEXT_LENGTH
  | _ => KIND_INVALID_REQUEST
  end.

Definition set_retry_after (ra : option Z) (raw : RawUpstreamError) : RawUpstreamError :=
  mkRaw (http_status raw) (provider_code raw) (structured_type raw) ra.

(** ** What the engine asks of the protocol layer *)

Class ProtocolTable (T J : Type) := {
  protocol_known : string -> bool;
  has_handler : string -> bool;
  auth_failure_status_and_kind : string -> Z * string;
  new_same_proto : string -> option T;
  new_translate : string -> string -> option T;
  set_client_include_usage : bool -> T -> T;
  make_array_stream_framer : string -> option J;
  mid_stream_error_bytes : string -> bytes;
  extract_usage : string -> bytes -> option IrUsage;
}.

(** The request as the loop carries it. *)
Record Req := mkReq {
  ingress_protocol : string;
  wants_stream : bool;
  gemini_json_array : bool;
  client_include_usage : bool;
  has_sink : bool;
  taps_nonstream_usage : bool
}.

Section engine.
Context {SemT T J : Type} `{Semaphore SemT} `{StreamTranslate T} `{JsonArrayFramer J} `{ProtocolTable T J}.

(** [httpdate]'s parser, and the wall clock in nanoseconds it is compared with. *)
Context (parse_http_date : list Ascii.ascii -> option Z).
Context (oracle : nat -> Moment SemT).

(** [Gone]: the future was dropped, nobody reads a response. *)
Inductive Response :=
  | Error_response (gate_rejected : bool) (status : Z) (kind : string) (retry_after : option Z)
  | Relayed (status : Z)
  | Buffered (status : Z)
  | Streaming (status : Z) (body : FirstByteBody T J)
  | Gone.

Definition ingress_error (status : Z) (kind : string) : Response := Error_response false status kind None.
Definition gate_rejected (status : Z) (kind : string) : Response := Error_response true status kind None.
Definition shape_cross_protocol_error (status : Z) : Response :=
  ingress_error status (cross_protocol_error_kind status).

(** ** The guards *)

(** [BudgetSpendGuard::drop] *)
Definition drop_budget_guard (guard_armed : bool) (lane : nat) : Engine SemT unit :=
  if guard_armed then do_refund_budget oracle lane else ret tt.

(** Dropping [forward_once]'s armed [ProbeGuard]; [None]: no guard was built. *)
Definition drop_guard (probe_epoch : option Z) (pool : string) (lane : nat) : Engine SemT unit :=
  match probe_epoch with
  | Some epoch => do_release_probe_owned oracle pool lane epoch
  | None => ret tt
  end.

(** ** A buffered 2xx across protocols *)

(** The response and whether the budget guard is still armed. *)
Definition translate_response_cross_protocol (rq : Req) (i : nat) (pool : string) (cfg : BreakerCfg)
    (st : Z) (permit : Permit) (guard_armed : bool) : Engine SemT (Response * bool) :=
  let! gone := await oracle in
  if gone then do_drop_permit oracle i permit ;;; ret (Gone, guard_armed) else
  let! body := ask oracle tk_body in
  do_drop_permit oracle i permit ;;;
  match read_end body with
  | TransportError =>
      let! _ := do_record_failure oracle pool i cfg None in
      ret (ingress_error 502 KIND_API_ERROR, guard_armed)
  | Truncated => ret (ingress_error 500 KIND_API_ERROR, false)
  | Complete =>
      let bill u := if has_sink rq then note (Billed i u) else ret tt in
      let untranslatable guard_armed :=
        let! _ := do_record_failure oracle pool i cfg None in
        ret (ingress_error 500 KIND_API_ERROR, guard_armed) in
      match is_json body, decoded body with
      | false, Some u =>
          bill u ;;;
          if has_handler (ingress_protocol rq) then ret (Buffered st, false) else untranslatable false
      | true, Some u =>
          if protocol_known (ingress_protocol rq) then
            bill u ;;;
            ret (if wants_stream rq && wraps_as_stream body then Buffered st
                 else if has_handler (ingress_protocol rq) then Buffered st
                 else ingress_error 404 KIND_NOT_FOUND, false)
          else untranslatable guard_armed
      | _, None => untranslatable guard_armed
      end
  end.

(** What both paths do with a 2xx once its headers are booked as a success. *)
Definition deliver (rq : Req) (lane : Lane) (i : nat) (pool : string) (cfg : BreakerCfg) (a : Answer)
    (permit : Permit) (with_usage_flag : bool) : Engine SemT Response :=
  let! spent := do_spend_budget oracle i in
  let cross := negb (String.eqb (ingress_protocol rq) (protocol lane)) in
  if cross && negb (streaming_type a) then
    let! '(resp, guard_armed) :=
      translate_response_cross_protocol rq i pool cfg (status a) permit spent in
    drop_budget_guard guard_armed i ;;; ret resp
  else
    let t := if streaming_type a then
               if cross then new_translate (ingress_protocol rq) (protocol lane)
               else new_same_proto (ingress_protocol rq)
             else None in
    let t := if with_usage_flag then set_client_include_usage (client_include_usage rq) <$> t else t in
    let j := if gemini_json_array rq && streaming_type a
             then if protocol_known (ingress_protocol rq)
                  then make_array_stream_framer (ingress_protocol rq) else None
             else None in
    ret (Streaming (status a)
           (FirstByteBody_new (streaming_type a) permit i cfg pool t j (has_sink rq) spent
              (taps_nonstream_usage rq) (extract_usage (ingress_protocol rq))
              (mid_stream_error_bytes (ingress_protocol rq)))).

(** ** The upstream call *)

(** [tokio::time::timeout(cap, req.send())]: the cap fires on a call that takes longer. *)
Inductive Sending := Dropped | Attempt_timeout | Sent_result (r : SendResult).

Definition send (ms : option Z) (remaining_secs : Engine SemT Z) : Engine SemT Sending :=
  let! cap := (match ms with
               | Some ms => let! r := remaining_secs in ret (Some (attempt_cap ms r))
               | None => ret None
               end) in
  let! gone := await oracle in
  if gone then ret Dropped else
  let! '(r, took) := ask oracle tk_send in
  ret match cap with
      | Some cap => if cap <? took then Attempt_timeout else Sent_result r
      | None => Sent_result r
      end.

(** ** One attempt of the main loop *)

(** [Again]: fail over, with the label of the failure. *)
Inductive Step := Again (previous_failure : string) | Done (r : Response).

Definition signal (lane : Lane) (a : Answer) (now_ns : Z) : CanonicalSignal :=
  (normalize_raw_error
     (set_retry_after (parse_retry_after parse_http_date (retry_header a) now_ns) (raw_error a))
     (error_map lane) ∅).1.

(** The other candidates whose context window is no larger than the one that overflowed. *)
Definition too_small (app : App) (failed : Lane) (cand : WeightedLane) : option bool :=
  l ← app_lanes app !! idx cand;
  Some match context_max l, context_max failed with
       | Some c, Some limit => c <=? limit
       | _, _ => false
       end.

Fixpoint exclude_too_small (app : App) (failed : Lane) (cands : list WeightedLane) (ctx : RequestCtx)
    : option RequestCtx :=
  match cands with
  | [] => Some ctx
  | cand :: cands =>
      b ← too_small app failed cand;
      exclude_too_small app failed cands (if (b : bool) then exclude (idx cand) ctx else ctx)
  end.

Definition hard_down_reason (class : StatusClass) (status : Z) : string :=
  match class with
  | Billing => "billing / insufficient balance"
  | Auth => "auth rejected (HTTP " +:+ pretty status +:+ ")"
  | _ => "request rejected (HTTP " +:+ pretty status +:+ ")"
  end.

(** A non-2xx answer: caller faults are relayed, upstream faults booked and failed over. *)
Definition on_error_answer (app : App) (rq : Req) (cands : list WeightedLane) (pool : string) (i : nat)
    (lane : Lane) (permit : Permit) (probe_epoch : Z) (a : Answer) (ctx : RequestCtx)
    : Engine SemT (Step * RequestCtx) :=
  let cfg := resolve_breaker_cfg app pool in
  let same := String.eqb (ingress_protocol rq) (protocol lane) in
  let leave r := do_drop_permit oracle i permit ;;; ret (Done r, ctx) in
  let! now_ns := ask oracle tk_now_ns in
  let! gone := await oracle in
  if gone then leave Gone
  else if bool_decide (pool_upstream_creds app pool = Passthrough)
          && ((status a =? 401) || (status a =? 403)) then
    do_release_probe_owned oracle pool i probe_epoch ;;;
    leave (if same then Relayed (status a) else shape_cross_protocol_error (status a))
  else
    let sig := signal lane a now_ns in
    match classify_signal sig with
    | D_ClientFault =>
        do_record_client_fault oracle i ;;;
        do_release_probe_owned oracle pool i probe_epoch ;;;
        leave (if same then Relayed (status a) else ingress_error (status a) (client_fault_kind (class sig)))
    | D_TransientUpstream =>
        let! _ := do_record_failure oracle pool i cfg (retry_after sig) in
        do_drop_permit oracle i permit ;;;
        ret (Again "transient_upstream", ctx)
    | D_HardDown =>
        let! _ := do_record_hard_down oracle pool i (hard_down_reason (class sig) (status a)) in
        do_drop_permit oracle i permit ;;;
        match class sig with
        | Auth => let (st, kind) := auth_failure_status_and_kind (ingress_protocol rq) in
                  ret (Done (ingress_error st kind), ctx)
        | _ => ret (Again "hard_down", ctx)
        end
    | D_ContextLength =>
        let! ctx := of_option (exclude_too_small app lane cands ctx) in
        do_release_probe_owned oracle pool i probe_epoch ;;;
        do_drop_permit oracle i permit ;;;
        ret (Again "context_length", ctx)
    end.

Definition transport_failure (app : App) (pool : string) (i : nat) (permit : Permit) (why : string)
    (ctx : RequestCtx) : Engine SemT (Step * RequestCtx) :=
  let! _ := do_record_failure oracle pool i (resolve_breaker_cfg app pool) None in
  do_drop_permit oracle i permit ;;;
  ret (Again why, ctx).

Definition attempt (app : App) (rq : Req) (cands : list WeightedLane) (pool : string) (i : nat)
    (permit : Permit) (probe_epoch : Z) (ctx : RequestCtx) : Engine SemT (Step * RequestCtx) :=
  let! lane := of_option (app_lanes app !! i) in
  let bail r :=
    do_release_probe oracle pool i ;;; do_drop_permit oracle i permit ;;; ret (Done r, ctx) in
  let! prepared := ask oracle tk_prepared in
  match prepared with
  | Unparsed | No_path => bail (ingress_error 500 KIND_API_ERROR)
  | Untranslatable st kind => bail (ingress_error st kind)
  | Ready_to_send =>
      note (Sent false pool i) ;;;
      let! r := send (effective_attempt_timeout_ms cands i (lane_attempt_timeout_ms lane))
                  (let! t := now oracle in ret (remaining ctx t)) in
      match r with
      | Dropped => do_drop_permit oracle i permit ;;; ret (Done Gone, ctx)
      | Attempt_timeout => transport_failure app pool i permit "attempt_timeout" ctx
      | Sent_result (Send_failed is_timeout) =>
          transport_failure app pool i permit (if is_timeout then "timeout" else "connect") ctx
      | Sent_result (Answered a) =>
          if negb (is_success (status a)) then
            on_error_answer app rq cands pool i lane permit probe_epoch a ctx
          else
            do_record_success oracle pool i ;;;
            do_record_latency oracle i ;;;
            let! resp := deliver rq lane i pool (resolve_breaker_cfg app pool) a permit true in
            ret (Done resp, ctx)
      end
  end.

(** ** One degraded forward *)

(** [None]: a transport failure, the caller may try another lane. *)
Definition forward_once (app : App) (rq : Req) (last_resort : bool) (i : nat) (permit : Permit)
    (timeout_secs : Z) (pool : string) (probe_epoch : option Z) : Engine SemT (option Response) :=
  let! lane := of_option (app_lanes app !! i) in
  let cfg := resolve_breaker_cfg app pool in
  let leave r := drop_guard probe_epoch pool i ;;; do_drop_permit oracle i permit ;;; ret r in
  let! prepared := ask oracle tk_prepared in
  match prepared with
  | Unparsed => leave (Some (ingress_error 400 KIND_INVALID_REQUEST))
  | Untranslatable st kind => leave (Some (ingress_error st kind))
  | No_path => leave (Some (ingress_error 500 KIND_API_ERROR))
  | Ready_to_send =>
      note (Sent last_resort pool i) ;;;
      let! r := send (lane_attempt_timeout_ms lane) (ret timeout_secs) in
      match r with
      | Dropped => leave (Some Gone)
      | Attempt_timeout => let! _ := do_record_failure oracle pool i cfg None in leave None
      | Sent_result (Send_failed _) =>
          let! _ := do_record_failure oracle pool i cfg None in
          do_drop_permit oracle i permit ;;; drop_guard probe_epoch pool i ;;; ret None
      | Sent_result (Answered a) =>
          if negb (is_success (status a)) then
            let! gone := await oracle in
            if gone then leave (Some Gone) else
            let! _ := do_record_failure oracle pool i cfg None in
            leave (Some (if String.eqb (ingress_protocol rq) (protocol lane) then Relayed (status a)
                         else shape_cross_protocol_error (status a)))
          else
            do_record_success oracle pool i ;;;
            do_record_latency oracle i ;;;
            let! resp := deliver rq lane i pool cfg a permit false in
            ret (Some resp)
      end
  end.
End engine.

Arguments Response : clear implicits.
