(* ===== verification/Walk.v ===== *)
(** * Walk: what happens when a pool is exhausted, and the request's whole walk (proxy/engine)

    [handle_exhaustion_for_pool] and its four modes, the failover loop of
    [forward_with_pool_parsed_inner] and the candidates it starts from. A fallback pool has an
    exhaustion mode of its own, so the handlers call each other; the set of visited pools bounds that
    recursion and is the fuel. *)

From S2P Require Import Prelude Float64 Breaker HealthState Classifier Bytes Selection Ledger Request ResponseBody Forward.

#[local] Open Scope Z_scope.

Definition AT_CAPACITY_RETRY_AFTER_SECS : Z := AT_CAPACITY_RECOVERY_FLOOR_MS / 1000.

(** The [AtCapacity] lanes of the last pick, each once, in order. *)
Definition at_cap_lanes (reasons : list (nat * Unavailable)) : list nat :=
  foldl (fun lanes '(lane, reason) =>
           match reason with
           | AtCapacity _ => if bool_decide (lane ∈ lanes) then lanes else lanes ++ [lane]
           | _ => lanes
           end) [] reasons.

(** [Vec::sort_by_key] is stable. *)
Fixpoint insert_by_key (x : Z * nat) (l : list (Z * nat)) : list (Z * nat) :=
  match l with
  | [] => [x]
  | y :: l => if x.1 <=? y.1 then x :: y :: l else y :: insert_by_key x l
  end.

Definition sort_by_key (l : list (Z * nat)) : list (Z * nat) := foldr insert_by_key [] l.

Section walk.
Context {SemT T J : Type} `{Semaphore SemT} `{StreamTranslate T} `{JsonArrayFramer J} `{ProtocolTable T J}.
Context (parse_http_date : list Ascii.ascii -> option Z).
Context (oracle : nat -> Moment SemT).
Context (app : App) (rq : Req).

#[local] Notation Run := (Engine SemT).
#[local] Notation Resp := (Response T J).

(** ** Status503 *)

(** The admissible members' positive cooldowns. *)
Fixpoint genuine_cooldowns (cands : list WeightedLane) (now : Z) (pool : string) : Run (list Z) :=
  match cands with
  | [] => ret []
  | wl :: cands =>
      let! admissible := do_lane_admissible oracle (idx wl) in
      let! here := (if (admissible : bool) then
                      let! r := do_cooldown_remaining oracle pool (idx wl) now in
                      ret (if 0 <? r then [r] else [])
                    else ret []) in
      let! rest := genuine_cooldowns cands now pool in
      ret (here ++ rest)
  end.

Definition retry_after_secs (cands : list WeightedLane) (now : Z) (pool : string) : Run Z :=
  let! cooldowns := genuine_cooldowns cands now pool in
  ret (Z.max (match cooldowns with
              | [] => AT_CAPACITY_RETRY_AFTER_SECS
              | r :: rs => foldl Z.min r rs
              end) 1).

Definition handle_status_503 (cands : list WeightedLane) (now : Z) (pool : string) : Run Resp :=
  let! retry_after := retry_after_secs cands now pool in
  ret (Error_response false 503 KIND_OVERLOADED (Some retry_after)).

(** With [now()] read at the call. *)
Definition shed (cands : list WeightedLane) (pool : string) : Run Resp :=
  let! t := now oracle in handle_status_503 cands t pool.

(** ** LeastBad *)

(** The admissible candidates with their cooldowns. The sort reads each key as often as it compares
    it; here each is read once. *)
Fixpoint rank (cands : list nat) (now : Z) (pool : string) : Run (list (Z * nat)) :=
  match cands with
  | [] => ret []
  | i :: cands =>
      let! k := do_cooldown_remaining oracle pool i now in
      let! rest := rank cands now pool in
      ret ((k, i) :: rest)
  end.

Fixpoint admissible_members (cands : list WeightedLane) : Run (list nat) :=
  match cands with
  | [] => ret []
  | wl :: cands =>
      let! admissible := do_lane_admissible oracle (idx wl) in
      let! rest := admissible_members cands in
      ret (if (admissible : bool) then idx wl :: rest else rest)
  end.

(** The first lane of the order with a free permit. *)
Fixpoint first_free (ranked : list (Z * nat)) : Run (option (nat * Permit)) :=
  match ranked with
  | [] => ret None
  | (_, i) :: ranked =>
      let! got := do_try_acquire oracle i in
      match got with
      | Some p => ret (Some (i, p))
      | None => first_free ranked
      end
  end.

Definition handle_least_bad (cands : list WeightedLane) (now : Z) (ctx : RequestCtx) (pool : string)
    : Run Resp :=
  let! lanes := admissible_members cands in
  let! ranked := rank lanes now pool in
  let! dispatch := first_free (sort_by_key ranked) in
  match dispatch with
  | None => handle_status_503 cands now pool
  | Some (i, permit) =>
      let! res := forward_once oracle app rq true i permit (remaining ctx now) pool None in
      match res with
      | Some resp => ret resp
      | None => handle_status_503 cands now pool
      end
  end.

(** ** Queue *)

(** The lanes of the wait set that have a semaphore. *)
Fixpoint with_semaphores (lanes : list nat) : Run (list nat) :=
  match lanes with
  | [] => ret []
  | i :: lanes =>
      let! s := do_lane_semaphore oracle i in
      let! rest := with_semaphores lanes in
      ret (match s with Some _ => i :: rest | None => rest end)
  end.

Inductive Waited := Deadline | Closed | Won (lane : nat) (p : Permit).

(** The biased [select!] between the deadline and the acquisitions. The oracle says what the semaphores
    tell and how long after the wait began; a grant is one of a free permit of a lane waited for, and
    where there is none to grant the deadline comes first. *)
Definition wait_for_permit (wait_ms : Z) (sems : list nat) : Run Waited :=
  let! e := ask oracle tk_queue in
  match e with
  | Some (Granted lane, after) =>
      if (after <? wait_ms) && bool_decide (lane ∈ sems) then
        let! got := do_try_acquire oracle lane in
        ret (match got with Some p => Won lane p | None => Deadline end)
      else ret Deadline
  | Some (Shut, after) => ret (if after <? wait_ms then Closed else Deadline)
  | None => ret Deadline
  end.

Fixpoint queue_loop (fuel : nat) (wait_ms : Z) (lanes : list nat) (cands : list WeightedLane)
    (ctx : RequestCtx) (pool : string) : Run Resp :=
  match fuel with
  | O => panic
  | S fuel =>
      let! sems := with_semaphores lanes in
      match sems with
      | [] => shed cands pool
      | _ =>
          let! gone := await oracle in
          if gone then ret Gone else
          let! waited := wait_for_permit wait_ms sems in
          match waited with
          | Deadline | Closed => shed cands pool
          | Won lane permit =>
              let! admitted := do_try_admit_breaker oracle pool lane in
              match admitted with
              | Ok probe_epoch =>
                  let! t := now oracle in
                  let! res := forward_once oracle app rq true lane permit (remaining ctx t) pool
                                (Some probe_epoch) in
                  match res with
                  | Some resp => ret resp
                  | None => shed cands pool
                  end
              | Err _ =>
                  do_drop_permit oracle lane permit ;;;
                  let lanes := filter (fun l => l <> lane) lanes in
                  match lanes with
                  | [] => shed cands pool
                  | _ => queue_loop fuel wait_ms lanes cands ctx pool
                  end
              end
          end
      end
  end.

(** The wait is bounded by [max_ms] and by what is left of the request's budget. *)
Definition handle_queue (cands : list WeightedLane) (max_ms : Z) (ctx : RequestCtx) (pool : string)
    : Run Resp :=
  match at_cap_lanes (excluded_reasons ctx) with
  | [] => shed cands pool
  | lanes =>
      let! wall := ask oracle tk_wall in
      queue_loop (S (length lanes)) (Z.min max_ms (remaining_ms ctx wall)) lanes cands ctx pool
  end.

(** ** FallbackPool, and the dispatch on the mode *)

Definition not_excluded (excl : option (list string)) (cands : list WeightedLane)
    : option (list WeightedLane) :=
  match excl with
  | None => Some cands
  | Some names =>
      foldr (fun wl acc =>
               rest ← acc;
               l ← app_lanes app !! idx wl;
               Some (if existsb (fun m => String.eqb m (model l)) names then rest else wl :: rest))
        (Some []) cands
  end.

Definition timed_out : Resp := ingress_error 503 KIND_OVERLOADED.

(** The loop over a fallback pool's members. *)
Fixpoint fallback_loop (fuel : nat)
    (exhausted : list WeightedLane -> Z -> string -> RequestCtx -> Run Resp)
    (cands : list WeightedLane) (pool : string) (ctx : RequestCtx) : Run Resp :=
  match fuel with
  | O => panic
  | S fuel =>
      let! t := now oracle in
      if expired ctx t then ret timed_out else
      let! '(picked, ctx) := do_pick_among oracle cands ctx None pool None in
      match picked with
      | None => let! t := now oracle in exhausted cands t pool ctx
      | Some (i, permit, probe_epoch) =>
          let ctx := exclude i ctx in
          let! t := now oracle in
          let! res := forward_once oracle app rq false i permit (remaining ctx t) pool (Some probe_epoch) in
          match res with
          | Some resp => ret resp
          | None => fallback_loop fuel exhausted cands pool ctx
          end
      end
  end.

Definition handle_fallback_pool (exhausted : list WeightedLane -> Z -> string -> RequestCtx -> Run Resp)
    (pool : string) (ctx : RequestCtx) : Run Resp :=
  let! t := now oracle in
  if expired ctx t then ret timed_out else
  if is_pool_visited pool ctx then shed [] pool else
  match fallback_pools app !! pool with
  | None => shed [] pool
  | Some cands =>
      match enforce_restricts ctx (members <$> pool_runtime app) pool cands with
      | Err _ => ret (gate_rejected 503 KIND_OVERLOADED)
      | Ok cands =>
          let! cands := of_option (not_excluded (pool_failover app pool ≫= exclusions) cands) in
          fallback_loop (S (length cands)) exhausted cands pool (mark_pool_visited pool ctx)
      end
  end.

Fixpoint handle_exhaustion_for_pool (fuel : nat) (cands : list WeightedLane) (now : Z) (pool : string)
    (ctx : RequestCtx) : Run Resp :=
  match fuel with
  | O => panic
  | S fuel =>
      let ctx := mark_pool_visited pool ctx in
      match default Status503 (on_exhausted_cfgs app !! pool) with
      | Status503 => handle_status_503 cands now pool
      | FallbackPool fallback => handle_fallback_pool (handle_exhaustion_for_pool fuel) fallback ctx
      | LeastBad => handle_least_bad cands now ctx pool
      | Queue max_ms => handle_queue cands max_ms ctx pool
      end
  end.

(** Every fallback visits one more of the configured pools. *)
Definition exhaustion_fuel : nat := S (size (dom (fallback_pools app))).

(** ** The failover loop *)

Fixpoint attempt_loop (attempts : nat) (cands : list WeightedLane) (affinity_key_hash : option Z)
    (policy_order : option (list nat)) (pool : string) (ctx : RequestCtx) : Run Resp :=
  match attempts with
  | O => let! t := now oracle in handle_exhaustion_for_pool exhaustion_fuel cands t pool ctx
  | S attempts =>
      let! t := now oracle in
      if expired ctx t then ret timed_out else
      let! '(picked, ctx) := do_pick_among oracle cands ctx affinity_key_hash pool policy_order in
      match picked with
      | None =>
          match cands with
          | [] => ret (ingress_error 503 KIND_OVERLOADED)
          | _ => let! t := now oracle in handle_exhaustion_for_pool exhaustion_fuel cands t pool ctx
          end
      | Some (i, permit, probe_epoch) =>
          let! '(step, ctx) := attempt parse_http_date oracle app rq cands pool i permit probe_epoch
                                 (exclude i ctx) in
          match step with
          | Done resp => ret resp
          | Again _ => attempt_loop attempts cands affinity_key_hash policy_order pool ctx
          end
      end
  end.

(** [0..=max_cap] *)
Definition dispatch (max_cap : nat) (cands : list WeightedLane) (affinity_key_hash : option Z)
    (policy_order : option (list nat)) (pool : string) (ctx : RequestCtx) : Run Resp :=
  attempt_loop (S max_cap) cands affinity_key_hash policy_order pool ctx.

(** ** The preparation *)

(** The candidates whose protocol serves the operation; [Err]: there were some and none does. *)
Definition supported_cands (cands : list WeightedLane) : option (Result (list WeightedLane) unit) :=
  kept ← foldr (fun wl acc =>
                  rest ← acc;
                  l ← app_lanes app !! idx wl;
                  Some (if has_handler (protocol l) then wl :: rest else rest)) (Some []) cands;
  Some (if bool_decide (length kept = length cands) then Ok cands
        else match kept with [] => Err tt | _ => Ok kept end).

End walk.
