(* ===== verification/ForwardLogic.v ===== *)
(** * ForwardLogic: reasoning about a request's run

    A triple for [Engine] programs. From a well-formed store, whatever the outside answers: the program
    returns, the store has taken atomic steps only, and the log it wrote accounts for every permit and
    every budget unit it moved - so what a run does to the lanes is read off its log. One rule per
    primitive, one for sequencing. *)

From S2P Require Import Prelude Float64 Breaker BreakerFsm HealthState HealthLemmas HealthSpec HealthAdmit SwrrCore Swrr StoreRuns Classifier Bytes Selection SelectionSpec SelectionPick Ledger LaneFrame Request ResponseBody Forward Walk.

#[local] Open Scope Z_scope.

(** ** Balances *)

Lemma permit_balance_app l e1 e2 : permit_balance l (e1 ++ e2) = permit_balance l e1 + permit_balance l e2.
Proof. unfold permit_balance. by rewrite fmap_app, Zsum_app. Qed.

Lemma budget_balance_app l e1 e2 : budget_balance l (e1 ++ e2) = budget_balance l e1 + budget_balance l e2.
Proof. unfold budget_balance. by rewrite fmap_app, Zsum_app. Qed.

(** The order of the events does not matter. *)
#[export] Instance permit_balance_proper l : Proper (Permutation ==> eq) (permit_balance l).
Proof. intros e1 e2 He. unfold permit_balance. induction He; csimpl; lia. Qed.

#[export] Instance budget_balance_proper l : Proper (Permutation ==> eq) (budget_balance l).
Proof. intros e1 e2 He. unfold budget_balance. induction He; csimpl; lia. Qed.

#[export] Hint Rewrite permit_balance_app budget_balance_app : balance.

Definition is_i64 (z : Z) : Prop := I64_MIN <= z <= I64_MAX.

Lemma wrap_plus_l a b : wrap 64 (wrap 64 a + b) = wrap 64 (a + b).
Proof. unfold wrap. by rewrite Zplus_mod_idemp_l. Qed.

Lemma wrap_i64_congr a : is_i64 (wrap_i64 a) /\ wrap 64 (wrap_i64 a) = wrap 64 a.
Proof.
  unfold wrap_i64, is_i64, wrap, I64_MIN, I64_MAX. change (2 ^ 64) with 18446744073709551616.
  change (2 ^ 63) with 9223372036854775808.
  pose proof (Z.mod_pos_bound (a + 9223372036854775808) 18446744073709551616). split; [lia|].
  rewrite Zminus_mod_idemp_l. f_equal. lia.
Qed.

Lemma i64_wrap_eq a b : is_i64 a -> is_i64 b -> wrap 64 a = wrap 64 b -> a = b.
Proof.
  unfold is_i64, wrap, I64_MIN, I64_MAX. change (2 ^ 64) with 18446744073709551616. intros Ha Hb He.
  pose proof (Z.div_mod a 18446744073709551616). pose proof (Z.div_mod b 18446744073709551616). lia.
Qed.

Section logic.
Context {SemT : Type} `{Semaphore SemT}.
Implicit Types (h : HealthState SemT).
Context (oracle : nat -> Moment SemT).

#[local] Notation World := (World SemT).

(** ** What the outside may do *)

Definition moment_ok (m : Moment SemT) : Prop :=
  is_u64 (tk_now m) /\ peer_ok (tk_peer m) /\ peer_ok (tk_during m) /\ forall k, env_ok (tk_rounds m k).

(** It moves none of lane [l]'s permits. *)
Definition moment_keeps (l : nat) (m : Moment SemT) : Prop :=
  keeps_permits l (tk_peer m) /\ keeps_permits l (tk_during m) /\ forall k, env_keeps l (tk_rounds m k).

(** It leaves lane [l]'s lifetime budget, and whether it is dead, alone. *)
Definition account_kept (l : nat) (peer : HealthState SemT -> HealthState SemT) : Prop :=
  forall h, same_lanes account (eq l) h (peer h).
Definition moment_keeps_account (l : nat) (m : Moment SemT) : Prop :=
  account_kept l (tk_peer m) /\ account_kept l (tk_during m)
  /\ forall k, env_same account (eq l) (tk_rounds m k).

Context (oracle_ok : forall k, moment_ok (oracle k)).
(** The store has this many lanes. *)
Context (lane_count : nat).

Record world_ok (w : World) : Prop := {
  wk_wf : health_wf (w_store w);
  wk_lanes : length (lanes (w_store w)) = lane_count;
}.

Lemma world_lane w i : world_ok w -> (i < lane_count)%nat -> exists ls, get_lane (w_store w) i = Some ls.
Proof. intros [Hw Hl] Hi. apply lane_exists. by rewrite Hl. Qed.

Definition lane_dead h l : option bool := ls_dead <$> get_lane h l.

(** Other threads do not win a probe under the same token (that takes 2^64 of them). *)
Definition moment_respects (pool : string) (lane : nat) (epoch : Z) (m : Moment SemT) : Prop :=
  (forall h, settled pool lane epoch h -> settled pool lane epoch (tk_peer m h)).

(** No admission is among the events. *)
Definition no_admission (evs : list Event) : Prop :=
  Forall (fun e => match e with Admission _ _ | Readmission _ _ _ => False | _ => True end) evs.

Record evolves (w : World) (evs : list Event) (w' : World) : Prop := {
  ev_step : hstep (w_store w) (w_store w');
  ev_log : w_log w' = w_log w ++ evs;
  ev_permits : forall l, (forall k, moment_keeps l (oracle k)) -> forall n,
    lane_permits (w_store w) l = Some n ->
    lane_permits (w_store w') l = Some (n - permit_balance l evs);
  ev_budget : forall l, (forall k, moment_keeps_account l (oracle k)) -> forall b,
    lane_budget (w_store w) l = Some b -> is_i64 b -> exists b',
    lane_budget (w_store w') l = Some b' /\ is_i64 b'
    /\ wrap 64 b' = wrap 64 (b - budget_balance l evs);
  ev_dead : forall l, (forall k, moment_keeps_account l (oracle k)) ->
    lane_dead (w_store w') l = lane_dead (w_store w) l;
  ev_settled : forall pool lane epoch, (forall k, moment_respects pool lane epoch (oracle k)) ->
    no_admission evs -> settled pool lane epoch (w_store w) -> settled pool lane epoch (w_store w');
}.

Lemma evolves_ok w evs w' : world_ok w -> evolves w evs w' -> world_ok w'.
Proof.
  intros [Hw Hl] He. pose proof (ev_step _ _ _ He) as Hs. split; [apply Hs|].
  by rewrite (hstep_length _ _ Hs).
Qed.

Lemma evolves_refl w : world_ok w -> evolves w [] w.
Proof.
  intros [Hw _]. split; try done; [by apply hstep_refl|by rewrite app_nil_r| |].
  - intros l _ n Hn. rewrite Hn. f_equal. unfold permit_balance. simpl. lia.
  - intros l _ b Hb Hi. exists b. split; [done|]. split; [done|].
    unfold budget_balance. simpl. by rewrite Z.sub_0_r.
Qed.

Lemma evolves_trans w1 e1 w2 e2 w3 :
  evolves w1 e1 w2 -> evolves w2 e2 w3 -> evolves w1 (e1 ++ e2) w3.
Proof.
  intros [Hs1 Hl1 Hp1 Hb1 Hd1 Ht1] [Hs2 Hl2 Hp2 Hb2 Hd2 Ht2]. split.
  - by eapply hstep_trans.
  - by rewrite Hl2, Hl1, app_assoc.
  - intros l Hk n Hn. rewrite (Hp2 l Hk _ (Hp1 l Hk n Hn)). f_equal. autorewrite with balance. lia.
  - intros l Hk b Hb Hi. destruct (Hb1 l Hk b Hb Hi) as (b1 & Hb' & Hi1 & He1).
    destruct (Hb2 l Hk b1 Hb' Hi1) as (b2 & Hb2' & Hi2 & He2). exists b2. split; [done|]. split; [done|].
    rewrite He2. autorewrite with balance.
    replace (b - (budget_balance l e1 + budget_balance l e2))
      with ((b - budget_balance l e1) + - budget_balance l e2) by lia.
    rewrite <- wrap_plus_l, <- He1, wrap_plus_l. done.
  - intros l Hk. by rewrite Hd2, Hd1.
  - intros pool lane epoch Hr Hn Hs. apply Forall_app in Hn as [Hn1 Hn2]. auto.
Qed.

(** *** One access *)

(** What an operation does to the store, as its events account for it. *)
Record effect (evs : list Event) h h' : Prop := {
  ef_step : hstep h h';
  ef_permits : forall l, (forall k, moment_keeps l (oracle k)) -> forall n,
    lane_permits h l = Some n -> lane_permits h' l = Some (n - permit_balance l evs);
  ef_budget : forall l, (forall k, moment_keeps_account l (oracle k)) -> forall b,
    lane_budget h l = Some b -> is_i64 b -> exists b',
    lane_budget h' l = Some b' /\ is_i64 b' /\ wrap 64 b' = wrap 64 (b - budget_balance l evs);
  ef_dead : forall l, (forall k, moment_keeps_account l (oracle k)) -> lane_dead h' l = lane_dead h l;
  ef_probe : no_admission evs -> no_new_probe h h';
}.

Lemma account_dead L h h' l : same_lanes account L h h' -> L l -> lane_dead h' l = lane_dead h l.
Proof.
  intros Hs Hl. specialize (Hs l Hl). unfold lane_view, lane_dead in *.
  destruct (get_lane h' l), (get_lane h l); simpl in *; try done.
  unfold account in Hs. injection Hs as _ _ E. by rewrite E.
Qed.

(** Events that account for nothing. *)
Definition free (evs : list Event) : Prop :=
  Forall (fun e => match e with Sent _ _ _ | Failed _ _ | Billed _ _ => True | _ => False end) evs.

Lemma free_permits l evs : free evs -> permit_balance l evs = 0.
Proof. unfold permit_balance. induction 1 as [|e evs He _ IH]; [done|]. csimpl. rewrite IH. by destruct e. Qed.
Lemma free_budget l evs : free evs -> budget_balance l evs = 0.
Proof. unfold budget_balance. induction 1 as [|e evs He _ IH]; [done|]. csimpl. rewrite IH. by destruct e. Qed.
Lemma free_no_admission evs : free evs -> no_admission evs.
Proof. intros Hf. eapply Forall_impl; [exact Hf|]. by intros []. Qed.

Lemma effect_frame evs h h' :
  free evs -> hstep h h' -> same_lanes resources (fun _ => True) h h' -> no_new_probe h h' -> effect evs h h'.
Proof.
  intros Hf Hs Hr Hp. pose proof (resources_account _ _ _ Hr) as Ha. split; try done.
  - intros l _ n Hn. rewrite (resources_permits _ _ _ l Hr), free_permits by done. by rewrite Z.sub_0_r.
  - intros l _ b Hb Hi. exists b. rewrite (free_budget l evs Hf), Z.sub_0_r. split; [|done].
    rewrite <- Hb. by apply lane_budget_account, Ha.
  - intros l _. by eapply account_dead.
Qed.

Lemma access_evolves {A} w (f : Moment SemT -> HealthState SemT -> option (A * HealthState SemT)) a h' evs :
  world_ok w ->
  let e := oracle (w_moment w) in
  f e (tk_peer e (w_store w)) = Some (a, h') -> effect evs (tk_peer e (w_store w)) h' ->
  access oracle f w = Some (a, mkWorld h' (S (w_moment w)) (w_log w))
  /\ evolves w evs (mkWorld h' (S (w_moment w)) (w_log w ++ evs)).
Proof.
  intros Hw e He [Hst Hp Hb Hd Ht]. destruct (oracle_ok (w_moment w)) as (_ & Hpeer & _).
  unfold e in *. clear e. split; [unfold access; cbv zeta; by rewrite He|]. split; simpl.
  - eapply hstep_trans; [apply Hpeer, Hw|exact Hst].
  - done.
  - intros l Hk n Hn. apply Hp; [done|]. by apply (proj1 (Hk (w_moment w))).
  - intros l Hk b Hb' Hi. apply Hb; [done| |done]. rewrite <- Hb'. apply lane_budget_account.
    by apply (proj1 (Hk (w_moment w))).
  - intros l Hk. rewrite Hd by done. eapply account_dead; [apply (proj1 (Hk (w_moment w)))|done].
  - intros pool lane epoch Hr Hn Hs. eapply settled_stable; [by apply Ht|]. by apply Hr.
Qed.

(** ** The triple *)

Definition does {A} (w : World) (m : Engine SemT A) (Q : A -> list Event -> World -> Prop) : Prop :=
  exists a w' evs, m w = Some (a, w') /\ evolves w evs w' /\ Q a evs w'.

Lemma does_weaken {A} w (m : Engine SemT A) (Q Q' : A -> list Event -> World -> Prop) :
  does w m Q -> (forall a evs w', Q a evs w' -> Q' a evs w') -> does w m Q'.
Proof. intros (a & w' & evs & ? & ? & ?) Hi. exists a, w', evs. eauto. Qed.

Lemma does_ret {A} w (a : A) (Q : A -> list Event -> World -> Prop) :
  world_ok w -> Q a [] w -> does w (ret a) Q.
Proof. intros Hw HQ. exists a, w, []. split_and!; [done|by apply evolves_refl|done]. Qed.

Lemma does_bind {A B} w (m : Engine SemT A) (f : A -> Engine SemT B)
    (P : A -> list Event -> World -> Prop) (Q : B -> list Event -> World -> Prop) :
  world_ok w -> does w m P ->
  (forall a evs w', P a evs w' -> world_ok w' -> evolves w evs w' ->
     does w' (f a) (fun b evs' w'' => Q b (evs ++ evs') w'')) ->
  does w (bind m f) Q.
Proof.
  intros Hw (a & w1 & e1 & Hm & He & HP) Hf.
  destruct (Hf a e1 w1 HP (evolves_ok _ _ _ Hw He) He) as (b & w2 & e2 & Hfa & He2 & HQ).
  exists b, w2, (e1 ++ e2). split_and!; [|by eapply evolves_trans|done]. unfold bind. by rewrite Hm.
Qed.

Lemma does_of_option {A} w (x : option A) (a : A) :
  world_ok w -> x = Some a -> does w (of_option x) (fun b evs _ => evs = [] /\ b = a).
Proof. intros Hw ->. exists a, w, []. split_and!; [done|by apply evolves_refl|done|done]. Qed.

Lemma does_ask {A} w (f : Moment SemT -> A) :
  world_ok w -> does w (ask oracle f) (fun a evs _ => evs = [] /\ exists k, a = f (oracle k)).
Proof.
  intros Hw. do 3 eexists. split; [reflexivity|]; split; [|by eauto].
  destruct (evolves_refl w Hw) as [Hs Hl Hp Hb]. by split.
Qed.

(** ** Accesses *)

(** The store an operation finds. *)
Definition found (h : HealthState SemT) : Prop := health_wf h /\ length (lanes h) = lane_count.

Lemma peer_found w : world_ok w -> found (tk_peer (oracle (w_moment w)) (w_store w)).
Proof.
  intros Hw. destruct (oracle_ok (w_moment w)) as (_ & Hpeer & _). pose proof (Hpeer _ (wk_wf _ Hw)) as Hs.
  split; [apply Hs|]. rewrite (hstep_length _ _ Hs). apply Hw.
Qed.

Lemma found_lane h i : found h -> (i < lane_count)%nat -> exists ls, get_lane h i = Some ls.
Proof. intros [_ Hl] Hi. apply lane_exists. by rewrite Hl. Qed.

(** Dead lanes stay dead through an access, live ones alive. *)
Definition stays_alive (w : World) (lane : nat) : Prop :=
  (forall k, moment_keeps_account lane (oracle k)) /\ lane_dead (w_store w) lane = Some false.

Lemma stays_alive_evolves w evs w' lane : evolves w evs w' -> stays_alive w lane -> stays_alive w' lane.
Proof. intros He [Hk Hd]. split; [done|]. by rewrite (ev_dead _ _ _ He). Qed.

Lemma stays_alive_peer w lane :
  stays_alive w lane -> alive lane (tk_peer (oracle (w_moment w)) (w_store w)).
Proof.
  intros [Hk Hd]. unfold alive. fold (lane_dead (tk_peer (oracle (w_moment w)) (w_store w)) lane).
  rewrite <- Hd. eapply account_dead; [apply (proj1 (Hk (w_moment w)))|done].
Qed.

(** An access, with what is known of the store it leaves. *)
Lemma does_access {A} w (f : Moment SemT -> HealthState SemT -> option (A * HealthState SemT))
    (Q : A -> list Event -> World -> Prop) :
  world_ok w ->
  (forall h, found h -> exists a h', f (oracle (w_moment w)) h = Some (a, h') /\ effect [] h h'
     /\ (h = tk_peer (oracle (w_moment w)) (w_store w) ->
         Q a [] (mkWorld h' (S (w_moment w)) (w_log w)))) ->
  does w (access oracle f) Q.
Proof.
  intros Hw Hf. destruct (Hf _ (peer_found w Hw)) as (a & h' & He & Hef & HQ).
  destruct (access_evolves w f a h' [] Hw He Hef) as [Ha Hev]. rewrite app_nil_r in Hev.
  do 3 eexists. split_and!; [exact Ha|exact Hev|by apply HQ].
Qed.

(** An access and the event that accounts for it. *)
Lemma does_access_note {A} w (f : Moment SemT -> HealthState SemT -> option (A * HealthState SemT))
    (ev : A -> option Event) (Q : A -> list Event -> World -> Prop) :
  world_ok w ->
  (forall h, found h -> exists a h', f (oracle (w_moment w)) h = Some (a, h')
     /\ effect (option_list (ev a)) h h'
     /\ (h = tk_peer (oracle (w_moment w)) (w_store w) ->
         Q a (option_list (ev a)) (mkWorld h' (S (w_moment w)) (w_log w ++ option_list (ev a))))) ->
  does w (logged (access oracle f) ev) Q.
Proof.
  intros Hw Hf. destruct (Hf _ (peer_found w Hw)) as (a & h' & He & Hef & HQ).
  destruct (access_evolves w f a h' _ Hw He Hef) as [Ha Hev].
  do 3 eexists. split_and!; [|exact Hev|by apply HQ].
  unfold logged, bind. rewrite Ha. destruct (ev a); simpl; [done|]. unfold ret. by rewrite app_nil_r.
Qed.

Lemma does_note w e : world_ok w -> free [e] -> does w (note e) (fun _ evs _ => evs = [e]).
Proof.
  intros Hw Hf. do 3 eexists. split_and!; [reflexivity| |done].
  split; simpl; try done; [apply hstep_refl, Hw| |].
  - intros l _ n Hn. rewrite Hn, free_permits by done. by rewrite Z.sub_0_r.
  - intros l _ b Hb' Hi. exists b. split; [done|]. split; [done|]. by rewrite free_budget, Z.sub_0_r.
Qed.

(** ** The rules of the store operations *)

Lemma ran {A} (x : option (A * HealthState SemT)) h' :
  snd <$> x = Some h' -> exists a, x = Some (a, h').
Proof. intros ([a h1] & -> & ->)%fmap_Some. by exists a. Qed.

Lemma moment_now k : is_u64 (tk_now (oracle k)).
Proof. by destruct (oracle_ok k). Qed.

Lemma found_op h op : found h -> store_op_ok lane_count op -> exists h', run_store op h = Some h' /\ hstep h h'.
Proof. intros [Hw Hl] Ho. apply run_store_hstep; [done|by rewrite Hl]. Qed.

Lemma does_record_failure w pool lane cfg ra :
  world_ok w -> (lane < lane_count)%nat -> cfg_valid cfg ->
  does w (do_record_failure oracle pool lane cfg ra) (fun _ evs w' =>
    evs = [Failed pool lane] /\ (stays_alive w lane -> forall epoch, settled pool lane epoch (w_store w'))).
Proof.
  intros Hw Hl Hcfg. apply does_access_note; [done|].
  intros h Hf. pose proof (moment_now (w_moment w)).
  destruct (found_op h (SFailure pool lane (tk_now (oracle (w_moment w))) cfg ra
    (tk_entropy (oracle (w_moment w))))) as (h' & He & Hs); [done|done|].
  apply ran in He as [b He]. exists b, h'. split; [exact He|].
  destruct (record_failure_probe _ _ _ _ _ _ _ _ _ (proj1 Hf) He) as [Hn Hset]. split.
  - apply effect_frame; [by repeat constructor|done| |done].
    eapply record_failure_same; [..|exact He]; done.
  - intros ->. split; [done|]. intros Ha. by apply Hset, stays_alive_peer.
Qed.

Lemma does_record_success w pool lane :
  world_ok w -> (lane < lane_count)%nat ->
  does w (do_record_success oracle pool lane) (fun _ evs w' =>
    evs = [] /\ (stays_alive w lane -> forall epoch, settled pool lane epoch (w_store w'))).
Proof.
  intros Hw Hl. apply does_access; [done|]. intros h Hf. pose proof (moment_now (w_moment w)).
  destruct (found_op h (SSuccess pool lane (tk_now (oracle (w_moment w))))) as (h' & He & Hs); [done|done|].
  simpl in He. exists tt, h'. unfold unit_result. rewrite He. split; [done|].
  destruct (record_success_probe _ _ _ _ _ (proj1 Hf) He) as [Hn Hset]. split.
  - apply effect_frame; [by constructor|done| |done]. eapply record_success_same; [..|exact He]; done.
  - intros ->. split; [done|]. intros Ha. by apply Hset, stays_alive_peer.
Qed.

Lemma does_record_latency w lane :
  world_ok w -> (lane < lane_count)%nat -> does w (do_record_latency oracle lane) (fun _ evs _ => evs = []).
Proof.
  intros Hw Hl. apply does_access; [done|]. intros h Hf.
  destruct (found_op h (SLatency lane (tk_latency (oracle (w_moment w))))) as (h' & He & Hs); [done|done|].
  simpl in He. exists tt, h'. unfold unit_result. rewrite He. split; [done|]. split; [|auto].
  apply effect_frame; [by constructor|done| |by eapply latency_probe].
  eapply latency_same; [..|exact He]; done.
Qed.

Lemma does_hard_down w pool lane reason :
  world_ok w -> (lane < lane_count)%nat ->
  does w (do_record_hard_down oracle pool lane reason) (fun _ evs w' =>
    evs = [Failed pool lane] /\ forall pool epoch, settled pool lane epoch (w_store w')).
Proof.
  intros Hw Hl. apply does_access_note; [done|].
  intros h Hf. pose proof (moment_now (w_moment w)).
  destruct (found_op h (SHardDownAll lane reason (tk_now (oracle (w_moment w))))) as (h' & He & Hs); [done|done|].
  apply ran in He as [b He]. exists b, h'. split; [exact He|].
  destruct (hard_down_all_probe _ _ _ _ _ _ He) as [Hn Hset]. split; [|auto].
  apply effect_frame; [by repeat constructor|done| |done].
  eapply hard_down_all_same; [..|exact He]; done.
Qed.

Lemma does_client_fault w lane :
  world_ok w -> (lane < lane_count)%nat -> does w (do_record_client_fault oracle lane) (fun _ evs _ => evs = []).
Proof.
  intros Hw Hl. apply does_access; [done|]. intros h Hf.
  destruct (found_op h (SClientFault lane)) as (h' & He & Hs); [done|done|].
  simpl in He. exists tt, h'. unfold unit_result. rewrite He. split; [done|]. split; [|auto].
  apply effect_frame; [by constructor|done| |by eapply client_fault_probe].
  eapply client_fault_same; [..|exact He]; done.
Qed.

Lemma does_release w pool lane :
  world_ok w -> (lane < lane_count)%nat ->
  does w (do_release_probe oracle pool lane) (fun _ evs w' =>
    evs = [] /\ forall epoch, settled pool lane epoch (w_store w')).
Proof.
  intros Hw Hl. apply does_access; [done|]. intros h Hf.
  destruct (found_op h (SReleaseProbe pool lane)) as (h' & He & Hs); [done|done|].
  simpl in He. exists tt, h'. unfold unit_result. rewrite He. split; [done|].
  destruct (release_probe_probe _ _ _ _ (proj1 Hf) He) as [Hn Hset]. split; [|auto].
  apply effect_frame; [by constructor|done| |done]. eapply release_same; [..|exact He]; done.
Qed.

Lemma does_release_owned w pool lane epoch :
  world_ok w -> (lane < lane_count)%nat ->
  does w (do_release_probe_owned oracle pool lane epoch) (fun _ evs w' =>
    evs = [] /\ settled pool lane epoch (w_store w')).
Proof.
  intros Hw Hl. apply does_access; [done|]. intros h Hf.
  destruct (found_op h (SReleaseOwned pool lane epoch)) as (h' & He & Hs); [done|done|].
  simpl in He. exists tt, h'. unfold unit_result. rewrite He. split; [done|].
  destruct (release_owned_probe _ _ _ _ _ He) as [Hn Hset]. split; [|auto].
  apply effect_frame; [by constructor|done| |done]. eapply release_owned_same; [..|exact He]; done.
Qed.

(** Setting one lane's budget, under the events that account for the difference. *)
Lemma effect_budget evs h lane v ls :
  health_wf h -> get_lane h lane = Some ls -> ls_limited ls = true -> no_admission evs ->
  (forall l, permit_balance l evs = 0) ->
  (forall l, l <> lane -> budget_balance l evs = 0) ->
  wrap 64 v = wrap 64 (ls_budget ls - budget_balance lane evs) -> (is_i64 (ls_budget ls) -> is_i64 v) ->
  effect evs h (upd_lane lane (set_ls_budget v) h).
Proof.
  intros Hw Hl Hlim Hna Hp Hb Hwr Hv. split.
  - by apply budget_hstep.
  - intros l _ n Hn. by rewrite Hp, lane_permits_budget, Z.sub_0_r.
  - intros l _ b Hlb Hi. rewrite (lane_budget_set _ _ _ _ _ Hl Hlim).
    destruct (Nat.eqb_spec lane l) as [<-|].
    + rewrite (lane_budget_get _ _ _ Hl), Hlim in Hlb. injection Hlb as <-.
      exists v. split; [done|]. split; [by apply Hv|done].
    + exists b. by rewrite Hb, Z.sub_0_r.
  - intros l _. by apply (upd_lane_same ls_dead (fun _ => True)).
  - intros _. by apply upd_lane_probe.
Qed.

(** No lane's budget moves where the events move none of a limited lane. *)
Lemma effect_unlimited evs h lane ls :
  health_wf h -> get_lane h lane = Some ls -> ls_limited ls = false -> no_admission evs ->
  (forall l, permit_balance l evs = 0) -> (forall l, l <> lane -> budget_balance l evs = 0) ->
  effect evs h h.
Proof.
  intros Hw Hl Hlim Hna Hp Hb. split; try done.
  - by apply hstep_refl.
  - intros l _ n Hn. by rewrite Hp, Z.sub_0_r.
  - intros l _ b Hlb Hi. destruct (decide (l = lane)) as [->|].
    + by rewrite (lane_budget_get _ _ _ Hl), Hlim in Hlb.
    + exists b. by rewrite Hb, Z.sub_0_r.
Qed.

Lemma effect_nil h : health_wf h -> effect [] h h.
Proof. intros Hw. apply effect_frame; [by constructor|by apply hstep_refl|done|done]. Qed.

Lemma budget_one l lane : budget_balance l [Spent lane] = if Nat.eqb lane l then 1 else 0.
Proof. unfold budget_balance. simpl. destruct (Nat.eqb lane l); lia. Qed.
Lemma budget_back l lane : budget_balance l [Refunded lane] = if Nat.eqb lane l then -1 else 0.
Proof. unfold budget_balance. simpl. destruct (Nat.eqb lane l); lia. Qed.
Lemma eqb_ne (l lane : nat) (a b : Z) : l <> lane -> (if Nat.eqb lane l then a else b) = b.
Proof. intros. by destruct (Nat.eqb_spec lane l). Qed.

Lemma does_spend w lane :
  world_ok w -> (lane < lane_count)%nat ->
  does w (do_spend_budget oracle lane) (fun spent evs _ => evs = if (spent : bool) then [Spent lane] else []).
Proof.
  intros Hw Hl. apply does_access_note; [done|]. intros h Hf.
  destruct (found_lane h lane Hf Hl) as [ls Hls]. unfold spend_budget. rewrite Hls. cbn [mbind option_bind].
  destruct (ls_limited ls) eqn:Elim; simpl.
  2: { do 2 eexists. split; [done|]. split; [|by intros _].
       eapply effect_unlimited; [apply Hf|done|done|by repeat constructor| |].
       - intros l. by unfold permit_balance.
       - intros l Hne. simpl. by rewrite budget_one, eqb_ne. }
  unfold spend_attempt. destruct (ls_budget ls <=? 0) eqn:E; zbool.
  - do 2 eexists. split; [done|]. split; [apply effect_nil, Hf|by intros _].
  - do 2 eexists. split; [done|]. split; [|by intros _].
    eapply effect_budget; [apply Hf|done|done|by repeat constructor| | | |].
    + intros l. by unfold permit_balance.
    + intros l Hne. simpl. by rewrite budget_one, eqb_ne.
    + simpl. by rewrite budget_one, Nat.eqb_refl.
    + unfold is_i64, I64_MIN, I64_MAX. lia.
Qed.

Lemma does_refund w lane :
  world_ok w -> (lane < lane_count)%nat ->
  does w (do_refund_budget oracle lane) (fun _ evs _ => evs = [Refunded lane]).
Proof.
  intros Hw Hl. apply does_access_note; [done|]. intros h Hf.
  destruct (found_lane h lane Hf Hl) as [ls Hls]. unfold refund_budget, unit_result. rewrite Hls.
  cbn [mbind option_bind].
  destruct (ls_limited ls) eqn:Elim; simpl; (do 2 eexists; split; [done|]; split; [|by intros _]).
  - destruct (wrap_i64_congr (ls_budget ls + 1)) as [Hi He].
    eapply effect_budget; [apply Hf|done|done|by repeat constructor| | | |by intros _].
    + intros l. by unfold permit_balance.
    + intros l Hne. by rewrite budget_back, eqb_ne.
    + rewrite budget_back, Nat.eqb_refl, He. by f_equal.
  - eapply effect_unlimited; [apply Hf|done|done|by repeat constructor| |].
    + intros l. by unfold permit_balance.
    + intros l Hne. by rewrite budget_back, eqb_ne.
Qed.

(** Moving one lane's permits. *)
Lemma effect_permits evs h h' lane k :
  hstep h h' -> no_admission evs -> (forall l, budget_balance l evs = 0) ->
  (forall l, permit_balance l evs = if Nat.eqb lane l then k else 0) ->
  (forall n, lane_permits h lane = Some n -> lane_permits h' lane = Some (n - k)) ->
  (forall l, l <> lane -> get_lane h' l = get_lane h l) ->
  same_lanes account (fun _ => True) h h' -> no_new_probe h h' -> effect evs h h'.
Proof.
  intros Hs Hna Hb Hp Hlane Hother Ha Hn. split; try done.
  - intros l _ n Hln. rewrite Hp. destruct (Nat.eqb_spec lane l) as [<-|Hne]; [by apply Hlane|].
    unfold lane_permits in *. by rewrite Hother, Hln, Z.sub_0_r by done.
  - intros l _ b Hlb Hi. exists b. rewrite Hb, Z.sub_0_r. split; [|done]. rewrite <- Hlb.
    by apply lane_budget_account, Ha.
  - intros l _. by eapply account_dead.
Qed.

Lemma permit_one l e : permit_balance l [e] = permit_event l e.
Proof. unfold permit_balance. simpl. lia. Qed.

Lemma permit_logged l e : permit_balance l (option_list (Some e)) = permit_event l e.
Proof. exact (permit_one l e). Qed.

Lemma does_drop_permit w lane p :
  world_ok w -> does w (do_drop_permit oracle lane p) (fun _ evs _ => evs = [Gave lane p]).
Proof.
  intros Hw. apply does_access_note; [done|]. intros h Hf. do 2 eexists. split; [done|].
  split; [|by intros _]. apply effect_permits with (lane := lane) (k := - permit_cost p).
  - apply drop_permit_hstep, Hf.
  - by repeat constructor.
  - done.
  - intros l. exact (permit_logged l _).
  - intros n Hn. rewrite (drop_permit_permits _ _ _ _ Hn). f_equal. lia.
  - intros l Hne. destruct p; [|done]. by apply get_upd_lane_ne.
  - by apply drop_permit_same.
  - apply drop_permit_probe.
Qed.

Lemma does_try_acquire w lane :
  world_ok w -> (lane < lane_count)%nat ->
  does w (do_try_acquire oracle lane) (fun p evs _ => evs = option_list (Took lane <$> p)).
Proof.
  intros Hw Hl. apply does_access_note; [done|]. intros h Hf.
  destruct (found_lane h lane Hf Hl) as [ls Hls].
  destruct (try_acquire_spec lane h ls (proj1 Hf) Hls) as (got & h' & He & Hs & _ & _ & Hgot).
  exists got, h'. split; [done|]. split; [|by intros _].
  destruct got as [p|]; simpl; [|destruct Hgot as [-> _]; apply effect_nil, Hf].
  destruct Hgot as (Hp & _).
  apply effect_permits with (lane := lane) (k := permit_cost p); try done.
  - by repeat constructor.
  - intros l. exact (permit_logged l _).
  - intros n Hn. rewrite (get_lane_permits _ _ _ Hls) in Hn. by simplify_eq.
  - intros l Hne. by eapply try_acquire_other.
  - by eapply try_acquire_same.
  - by eapply try_acquire_probe.
Qed.

(** *** Reads *)

Lemma does_lane_admissible w lane :
  world_ok w -> (lane < lane_count)%nat -> does w (do_lane_admissible oracle lane) (fun _ evs _ => evs = []).
Proof.
  intros Hw Hl. apply does_access; [done|]. intros h Hf.
  destruct (found_lane h lane Hf Hl) as [ls Hls]. rewrite (lane_admissible_gate _ _ _ Hls).
  do 2 eexists. split; [done|]. split; [apply effect_nil, Hf|auto].
Qed.

Lemma does_lane_semaphore w lane :
  world_ok w -> (lane < lane_count)%nat -> does w (do_lane_semaphore oracle lane) (fun _ evs _ => evs = []).
Proof.
  intros Hw Hl. apply does_access; [done|]. intros h Hf.
  destruct (found_lane h lane Hf Hl) as [ls Hls]. unfold lane_semaphore. rewrite Hls.
  do 2 eexists. split; [done|]. split; [apply effect_nil, Hf|auto].
Qed.

Lemma does_cooldown_remaining w pool lane t :
  world_ok w -> (lane < lane_count)%nat -> does w (do_cooldown_remaining oracle pool lane t) (fun _ evs _ => evs = []).
Proof.
  intros Hw Hl. apply does_access; [done|]. intros h Hf.
  destruct (found_lane h lane Hf Hl) as [ls Hls].
  destruct (load_cell_hstep pool lane h ls (proj1 Hf) Hls) as (c & h0 & He & _ & _ & _ & _ & Hst).
  assert (Hc : cooldown_remaining_for pool lane t h = Some (cooldown_until c -sat t, h0)).
  { unfold cooldown_remaining_for. by rewrite He. }
  do 2 eexists. split; [exact Hc|]. split; [|auto].
  apply effect_frame; [by constructor|done| |by eapply cooldown_probe].
  eapply cooldown_same; [..|exact Hc]; done.
Qed.

(** *** Admissions *)

Lemma keeps_same peer l :
  peer_ok peer -> keeps_permits l peer -> forall h, health_wf h ->
  same_lanes lane_available_permits (eq l) h (peer h).
Proof.
  intros Hp Hk h Hw ? <-. unfold lane_view. fold (lane_permits (peer h) l) (lane_permits h l).
  destruct (lane_permits h l) as [n|] eqn:E; [by apply Hk|].
  pose proof (hstep_length _ _ (Hp h Hw)) as Hlen. unfold lane_permits, get_lane in *.
  destruct (lanes h !! l) eqn:El; [done|]. apply lookup_ge_None in El.
  rewrite (proj2 (lookup_ge_None _ _)); [done|]. by rewrite Hlen.
Qed.

Lemma admit_breaker_effect peer pool lane t h :
  found h -> (lane < lane_count)%nat -> is_u64 t -> peer_ok peer ->
  exists res h', try_admit_breaker peer pool lane t h = Some (res, h') /\ hstep h h'
    /\ forall l, keeps_permits l peer -> lane_permits h' l = lane_permits h l.
Proof.
  intros Hf Hl Ht Hp. destruct (found_lane h lane Hf Hl) as [ls Hls]. unfold try_admit_breaker.
  rewrite Hls. cbn [mbind option_bind]. destruct (lane_gate ls).
  { do 2 eexists. split; [done|]. split; [by apply hstep_refl, Hf|done]. }
  destruct (load_cell_hstep pool lane h ls (proj1 Hf) Hls) as (c & h0 & He & _ & Hr & _ & _ & Hst).
  rewrite He. cbn [mbind option_bind]. apply load_cell_same with (view := lane_available_permits) (at_lane := fun _ => True) in He.
  destruct (breaker_verdict c t).
  2, 3: by do 2 eexists; split; [done|]; split; [done|]; intros l _;
    unfold same_lanes, lane_view in He; unfold lane_permits; apply He.
  all: pose proof (Hp h0 (st_wf _ _ Hst)) as Hps; destruct (st_cells _ _ Hps _ _ Hr) as (c1 & Hr1 & _);
    rewrite Hr1; cbn [mbind option_bind];
    pose proof (acquire_steps (hard_down_cooldown_secs (peer h0)) (max_honored_retry_after_secs (peer h0)) c1 t Ht)
      as Hsteps; destruct (cell_acquire_breaker c1 t) as [c' won];
    do 2 eexists; (split; [done|]); split;
    [eapply hstep_trans; [exact Hst|]; eapply hstep_trans; [exact Hps|];
     eapply write_cell_hstep; [apply Hps|exact Hr1|exact Hsteps]|];
    intros l Hk; rewrite lane_permits_write;
    transitivity (lane_permits h0 l); [by apply (keeps_same peer l Hp Hk h0 (st_wf _ _ Hst))|by apply He].
Qed.

Lemma admission_effect evs h h' :
  hstep h h' ->
  (forall l, (forall k, moment_keeps l (oracle k)) -> forall n,
     lane_permits h l = Some n -> lane_permits h' l = Some (n - permit_balance l evs)) ->
  (forall l, budget_balance l evs = 0) -> ~ no_admission evs ->
  (forall l, (forall k, moment_keeps_account l (oracle k)) -> same_lanes account (eq l) h h') ->
  effect evs h h'.
Proof.
  intros Hs Hp Hb Hna Ha. split; try done.
  - intros l Hk b Hlb Hi. exists b. rewrite Hb, Z.sub_0_r. split; [|done]. rewrite <- Hlb.
    apply lane_budget_account. by apply (Ha l Hk).
  - intros l Hk. eapply account_dead; [by apply Ha|done].
Qed.

Lemma does_try_admit_breaker w pool lane :
  world_ok w -> (lane < lane_count)%nat ->
  does w (do_try_admit_breaker oracle pool lane) (fun res evs _ =>
    evs = [Readmission pool lane (match res with Ok e => Some e | Err _ => None end)]).
Proof.
  intros Hw Hl. apply does_access_note; [done|]. intros h Hf.
  destruct (oracle_ok (w_moment w)) as (Hn & _ & Hd & _).
  destruct (admit_breaker_effect _ pool lane _ h Hf Hl Hn Hd) as (res & h' & He & Hs & Hp).
  exists res, h'. split; [exact He|]. split; [|by intros _].
  apply admission_effect; [done| |done| |].
  - intros l Hk n Hln. rewrite permit_logged. simpl. rewrite Z.sub_0_r, Hp; [done|].
    apply (Hk (w_moment w)).
  - intros Hna. by inversion Hna.
  - intros l Hk. eapply try_admit_breaker_same; [..|exact He]; [done|]. apply (Hk (w_moment w)).
Qed.

(** The candidates of a pool: existing lanes, each once. *)
Definition cands_ok (cands : list WeightedLane) : Prop :=
  NoDup (idx <$> cands) /\ Forall (fun wl => idx wl < lane_count)%nat cands.

Lemma cands_exist cands h : found h -> cands_ok cands -> lanes_exist h (idx <$> cands).
Proof.
  intros Hf [_ Hc]. unfold lanes_exist. apply Forall_fmap. eapply Forall_impl; [exact Hc|].
  intros wl Hl. simpl. destruct (found_lane h _ Hf Hl) as [ls ->]. by eexists.
Qed.

Lemma does_pick_among w cands ctx hash pool order :
  world_ok w -> cands_ok cands ->
  does w (do_pick_among oracle cands ctx hash pool order) (fun '(p, ctx') evs w' =>
    evs = [Admission pool p] /\ reasons_grow cands (set_reasons [] ctx) ctx'
    /\ pick_sound pool cands ctx p (w_store w')).
Proof.
  intros Hw Hc. apply does_access_note; [done|]. intros h Hf.
  destruct (oracle_ok (w_moment w)) as (Hn & _ & Hd & Hr).
  destruct (pick_among_spec (tk_now (oracle (w_moment w))) (tk_during (oracle (w_moment w)))
    (tk_rounds (oracle (w_moment w))) cands ctx hash pool order h (proj1 Hf) (proj1 Hc)
    (cands_exist _ _ Hf Hc) Hn Hd Hr) as (p & ctx' & h' & He & Hs & Hg & Hsd & Hp).
  exists (p, ctx'), h'. split; [rewrite He; done|]. split; [|by intros _].
  apply admission_effect; [done| |done| |].
  - intros l Hk n Hln. rewrite permit_logged. apply Hp; [apply (Hk (w_moment w))| |done].
    intros k. apply (Hk (w_moment w)).
  - intros Hna. by inversion Hna.
  - intros l Hk. eapply pick_among_same; [..|exact He]; try done; [apply (Hk (w_moment w))|].
    intros k. apply (Hk (w_moment w)).
Qed.

(** *** Clocks and awaits *)

Lemma does_now w : world_ok w -> does w (now oracle) (fun t evs _ => evs = [] /\ is_u64 t).
Proof.
  intros Hw. eapply does_weaken; [by apply does_ask|]. intros t evs w' [-> [k ->]].
  split; [done|apply moment_now].
Qed.

Lemma does_await w : world_ok w -> does w (await oracle) (fun _ evs _ => evs = []).
Proof. intros Hw. eapply does_weaken; [by apply does_ask|]. by intros ??? []. Qed.

(** *** Sequencing *)

Lemma does_ret_bind {A B} w (a : A) (f : A -> Engine SemT B) (Q : B -> list Event -> World -> Prop) :
  does w (f a) Q -> does w (bind (ret a) f) Q.
Proof. done. Qed.

Lemma does_assoc {A B C} w (m : Engine SemT A) (f : A -> Engine SemT B) (g : B -> Engine SemT C)
    (Q : C -> list Event -> World -> Prop) :
  does w (bind m (fun a => bind (f a) g)) Q -> does w (bind (bind m f) g) Q.
Proof.
  intros (c & w' & evs & Hm & He). exists c, w', evs. split; [|done]. rewrite <- Hm.
  unfold bind. by destruct (m w) as [[a w1]|].
Qed.
End logic.

(** [seq L as pat]: run one operation by its rule; [stop]: the program returns. *)
Ltac flatten := repeat lazymatch goal with
  | |- does _ _ (bind (bind _ _) _) _ => eapply does_assoc
  | |- does _ _ (bind (ret _) _) _ => eapply does_ret_bind
  end.
Tactic Notation "seq" uconstr(rule) "as" simple_intropattern(a) simple_intropattern(evs)
    simple_intropattern(w) simple_intropattern(post) simple_intropattern(ok) simple_intropattern(ev) :=
  flatten; eapply does_bind; [eassumption|eapply rule; eauto|intros a evs w post ok ev].
Ltac stop := flatten; eapply does_ret; [eassumption|].

(** * concrete runs of the failover engine

    A protocol layer that passes everything through, and outsides on which the engine's programs
    evaluate. *)


(** The usage seen, and whether the stream ended in an error. *)
#[export] Instance plain_translate : StreamTranslate (option IrUsage * bool) := {
  feed c t := (c, t);
  finish t := ([], t);
  aborted _ := false;
  terminal_error := snd;
  usage := fst;
  finish_aborted t := eq_refl;
  finish_terminal t Ht := Ht;
}.

#[export] Instance plain_framer : JsonArrayFramer unit := {
  feed_array c j := (c, j);
  finish_for_translate _ j := ([], j);
  finish_with_server_error j := ([], j);
}.

#[export] Instance plain_protocols : ProtocolTable (option IrUsage * bool) unit := {
  protocol_known p := negb (String.eqb p "");
  has_handler p := negb (String.eqb p "");
  auth_failure_status_and_kind _ := (503, KIND_OVERLOADED);
  new_same_proto _ := Some (None, false);
  new_translate _ _ := Some (None, false);
  set_client_include_usage _ t := t;
  make_array_stream_framer _ := None;
  mid_stream_error_bytes _ := [];
  extract_usage _ _ := None;
}.

Definition demo_answer (st : Z) : Answer := mkAnswer st true None (mkRaw st None None None).

(** Nobody else touches the store; every upstream call is answered with [r]. *)
Definition demo_moment (r : SendResult) : Moment Z :=
  mkMoment Z id id (fun _ => quiet 1000) 1000 1000000000000 1000000 demo_entropy false Ready_to_send (r, 0)
    (mkBuffered Complete true (Some None) false) (f64_of_Z 12) 65536 None.

Lemma demo_moment_ok r : moment_ok (demo_moment r).
Proof.
  split_and!; [by vm_compute|intros h Hh; by apply hstep_refl|intros h Hh; by apply hstep_refl|].
  intros k. by apply quiet_ok.
Qed.

Definition demo_world : World Z := mkWorld demo_store 0 [].

Lemma demo_world_ok : world_ok 2 demo_world.
Proof. split; [apply demo_store_wf|done]. Qed.

Definition demo_body : FirstByteBody (option IrUsage * bool) unit :=
  FirstByteBody_new true Bounded 0 BreakerCfg_default "team" None None true true false (fun _ => None) [].

(** Two lanes: the pool [team] on the first, falling back to [spare] on the second. *)
Definition demo_lanes : list Lane :=
  [mkLaneCfg "gpt-4o" "acme" "openai" ∅ None None; mkLaneCfg "claude" "acme" "anthropic" ∅ None (Some 3)].

Definition team_cands : list WeightedLane := [mkWL 0 3 None None].
Definition spare_cands : list WeightedLane := [mkWL 1 1 None None].

Definition demo_app : App :=
  mkApp demo_lanes (<["team" := mkPool ∅ None None None None [] []]> ∅) None Own
    (<["team" := FallbackPool "spare"]> (<["spare" := FallbackPool "team"]> ∅))
    (<["spare" := spare_cands]> (<["team" := team_cands]> ∅)) [] [] [].

Definition demo_req : Req := mkReq "openai" true false false true false.

Definition no_date : list Ascii.ascii -> option Z := fun _ => None.

Lemma team_cands_ok : cands_ok 2 team_cands.
Proof. split; [apply NoDup_singleton|]. repeat constructor. Qed.
Lemma spare_cands_ok : cands_ok 2 spare_cands.
Proof. split; [apply NoDup_singleton|]. repeat constructor. Qed.

Lemma demo_breakers pool : resolve_breaker_cfg demo_app pool = BreakerCfg_default.
Proof.
  unfold resolve_breaker_cfg, demo_app, pool_runtime.
  destruct (decide (pool = "team")) as [->|Hne]; [done|]. by rewrite lookup_insert_ne, lookup_empty.
Qed.

Lemma demo_pools pool cands :
  fallback_pools demo_app !! pool = Some cands -> cands = spare_cands \/ cands = team_cands.
Proof.
  unfold demo_app, fallback_pools. intros [[_ <-]|[_ Hc]]%lookup_insert_Some; [by left|].
  apply lookup_insert_Some in Hc as [[_ <-]|[_ Hc]]; [by right|]. by rewrite lookup_empty in Hc.
Qed.
