(* ===== verification/Routing.v ===== *)
(** * Routing: the decision seam in front of the failover loop (proxy/hooks.rs, proxy/engine/mod.rs)

    Before a request is dispatched its body may be rewritten, every decision gate is asked - reject,
    restrict, order - and the pool's base policy ranks what is left. What comes out is a response, or the
    candidates, the preferred order and the restricts the failover loop then runs under. *)

From S2P Require Import Prelude Float64 Breaker Json HookWire HookProjection Ranking BreakerFsm HealthState Classifier Bytes Selection Ledger CostModel Governance GovStore HookPolicy Request ResponseBody Forward Walk.

#[local] Open Scope Z_scope.

(** What the hook plugins and the governance readings answer at one moment. *)
Record HookMoment := mkHookMoment {
  hm_answer : string -> RoutingRequest -> list Candidate -> RoutingContext -> HookCall;
  hm_transform : string -> RoutingRequest -> HookCall;
  hm_headroom : option f64;
  hm_budget : list BudgetBucketState
}.

Definition push_restrict (rc : RestrictConstraint) (c : RequestCtx) : RequestCtx :=
  mkCtx (deadline c) (deadline_wall c) (excluded c) (visited_pools c) (active_restricts c ++ [rc])
    (excluded_reasons c) (request_id c).

#[export] Instance Signal_eq_dec : EqDecision Signal.
Proof. solve_decision. Defined.

Definition state_label (s : BreakerState) : string :=
  match s with BS_Closed => "closed" | BS_Open _ => "open" | BS_HalfOpen => "half_open" end.

(** ** Reconciling the gates *)

Definition reject_kind_for_status (status : Z) : string :=
  if status =? 401 then KIND_AUTHENTICATION
  else if status =? 403 then KIND_PERMISSION
  else if status =? 404 then KIND_NOT_FOUND
  else if status =? 408 then KIND_TIMEOUT
  else if status =? 429 then KIND_RATE_LIMIT
  else KIND_INVALID_REQUEST.

(** [StatusCode::from_u16(status).unwrap_or(FORBIDDEN)] *)
Definition status_code (status : Z) : Z := if between 100 999 status then status else 403.

(** The status and kind of the first rejecting outcome. *)
Fixpoint first_reject (outcomes : list PolicyOutcome) : option (Z * string) :=
  match outcomes with
  | [] => None
  | PO_RejectRequest status _ _ :: _ => Some (status_code status, reject_kind_for_status status)
  | PO_Reject :: _ => Some (503, KIND_OVERLOADED)
  | _ :: outcomes => first_reject outcomes
  end.

(** Every restrict is recorded, and narrows the candidates; [Err]: one left none and does not escape. *)
Fixpoint reconcile_restricts (members : option (gmap nat MemberMeta)) (outcomes : list PolicyOutcome)
    (cands : list WeightedLane) (ctx : RequestCtx) : Result (list WeightedLane * RequestCtx) unit :=
  match outcomes with
  | [] => Ok (cands, ctx)
  | PO_Restrict tags name on_empty :: outcomes =>
      let rc := mkRestrict tags on_empty name in
      let ctx := push_restrict rc ctx in
      match restrict_filter members rc cands with
      | [] => match on_empty with
              | Weighted => reconcile_restricts members outcomes cands ctx
              | Reject | First => Err tt
              end
      | restricted => reconcile_restricts members outcomes restricted ctx
      end
  | _ :: outcomes => reconcile_restricts members outcomes cands ctx
  end.

(** The last order wins, less the lanes a restrict excluded; an order with none left abstains. *)
Definition reconcile_order (surviving : list nat) (outcomes : list PolicyOutcome)
    : option (list nat * string) :=
  foldl (fun acc outcome =>
           match outcome with
           | PO_Order order name =>
               match filter (fun i => i ∈ surviving) order with
               | [] => None
               | filtered => Some (filtered, name)
               end
           | _ => acc
           end) None outcomes.

Section seam.
Context {SemT T J : Type} `{Semaphore SemT} `{StreamTranslate T} `{JsonArrayFramer J} `{ProtocolTable T J}.
Context (parse_http_date : list Ascii.ascii -> option Z).
Context (oracle : nat -> Moment SemT) (hooks : nat -> HookMoment).
Context (app : App) (rq : Req).

#[local] Notation Run := (Engine SemT).
#[local] Notation Resp := (Response T J).

Definition consult {A} (f : HookMoment -> A) : Run A :=
  fun w => Some (f (hooks (w_moment w)), mkWorld (w_store w) (S (w_moment w)) (w_log w)).

(** ** The projection of the candidates *)

Definition do_lane_latency_ms (lane : nat) : Run (option f64) :=
  access oracle (fun _ h => x ← lane_latency_ms h lane; Some (x, h)).
Definition do_available_permits (lane : nat) : Run Z :=
  access oracle (fun _ h => ls ← get_lane h lane; Some (lane_available_permits ls, h)).
Definition do_lane_budget_remaining (lane : nat) : Run (option Z) :=
  access oracle (fun _ h => x ← lane_budget_remaining h lane; Some (x, h)).
Definition do_breaker_state (pool : string) (lane : nat) : Run BreakerState :=
  access oracle (fun _ => breaker_state_for pool lane).
Definition do_error_rate (pool : string) (lane : nat) (now : Z) : Run (option f64) :=
  access oracle (fun _ => error_rate_in pool lane now).

Definition wants (s : Signal) : bool := bool_decide (s ∈ requested_signals app).

Definition candidate_signals (pool : string) (i : nat) (now_ts : Z) : Run (list (Signal * SignalValue)) :=
  let! state := (if wants CandidateBreakerState then
                   let! s := do_breaker_state pool i in
                   ret [(CandidateBreakerState, SV_Str (state_label s))]
                 else ret []) in
  let! rate := (if wants CandidateErrorRate then
                  let! r := do_error_rate pool i now_ts in
                  ret (match r with Some x => [(CandidateErrorRate, SV_F64 x)] | None => [] end)
                else ret []) in
  ret (state ++ rate).

Definition project_candidate (pool : string) (headroom : option f64) (now_ts : Z) (wl : WeightedLane)
    : Run Candidate :=
  let i := idx wl in
  let! lane := of_option (app_lanes app !! i) in
  let meta := (members <$> pool_runtime app !! pool) ≫= (fun m => m !! i) in
  let! signals := candidate_signals pool i now_ts in
  let! latency := do_lane_latency_ms i in
  let! free := do_available_permits i in
  let! budget := do_lane_budget_remaining i in
  ret (mkCandidate i (model lane) (lane_provider lane) (weight wl) (context_max lane) (meta ≫= tier)
         (meta ≫= cost_per_mtok) (match meta with Some m => tags m | None => [] end) latency free budget
         headroom signals).

Fixpoint project_candidates (pool : string) (headroom : option f64) (now_ts : Z) (live : list WeightedLane)
    : Run (list Candidate) :=
  match live with
  | [] => ret []
  | wl :: live =>
      let! c := project_candidate pool headroom now_ts wl in
      let! cs := project_candidates pool headroom now_ts live in
      ret (c :: cs)
  end.

(** ** Asking one policy *)

(** [None]: the request was dropped while the plugin was asked. A built-in answers at once. *)
Definition ask_policy (p : Policy) (req : RoutingRequest) (candidates : list Candidate) (cx : RoutingContext)
    : Run (option (option RoutingDecision)) :=
  match p with
  | Native n => ret (Some (Some (native_decide n candidates)))
  | Plugin _ =>
      let! gone := await oracle in
      if gone then ret None else
      let! d := consult (fun m => policy_decide (hm_answer m) p req candidates cx) in
      ret (Some d)
  end.

Fixpoint run_on_error_chain (chain : list FallbackHook) (terminal : PolicyOnError) (req : RoutingRequest)
    (candidates : list Candidate) (cx : RoutingContext) (failed : string) : Run (option PolicyOutcome) :=
  match chain with
  | [] => ret (Some (coerce_on_error terminal candidates failed))
  | fb :: chain =>
      let! d := ask_policy (fb_policy fb) (fallback_request fb req) candidates cx in
      match d with
      | None => ret None
      | Some (Some decision) =>
          ret (Some (map_decision decision (policy_name (fb_policy fb)) candidates (fb_on_empty fb)))
      | Some None => run_on_error_chain chain terminal req candidates cx failed
      end
  end.

(** The projection of the request. [gov_key]: the id and name of the caller's key. *)
Definition routing_request (rp : ResolvedPolicy) (ctx : RequestCtx) (v : Value) (pool : string)
    (gov_key : option (string * string)) : RoutingRequest :=
  let protocol := ingress_protocol rq in
  let tools := default [] (array_field "tools" v) in
  let system_chars := system_text_chars v protocol in
  mkRouting (request_id ctx) pool protocol (str_field "model" v) (turn_count v protocol) (length tools)
    (negb (bool_decide (length tools = 0%nat))) (total_text_chars v protocol system_chars) system_chars
    (max_tokens_for v protocol) (wants_stream rq)
    (if rp_send_prompt rp then Some (build_prompt_projection v protocol) else None)
    (if rp_send_user rp then Some (mkIdentity (fst <$> gov_key) (snd <$> gov_key) (body_end_user v)) else None)
    [].

Definition decide_policy_order (rp : ResolvedPolicy) (cands : list WeightedLane) (ctx : RequestCtx) (v : Value)
    (pool : string) (gov_key : option (string * string)) : Run (option PolicyOutcome) :=
  match fill_candidates ctx cands with
  | [] => ret (Some PO_Weighted)
  | live =>
      let! headroom := consult hm_headroom in
      let req := routing_request rp ctx v pool gov_key in
      let! now_ts := now oracle in
      let! candidates := project_candidates pool headroom now_ts live in
      let! budget := consult hm_budget in
      let cx := mkContext pool None budget in
      let! d := ask_policy (rp_policy rp) req candidates cx in
      match d with
      | None => ret None
      | Some (Some decision) =>
          ret (Some (map_decision decision (policy_name (rp_policy rp)) candidates (rp_on_empty rp)))
      | Some None =>
          run_on_error_chain (rp_on_error_chain rp) (rp_on_error rp) req candidates cx
            (policy_name (rp_policy rp))
      end
  end.

(** ** The gates and the base policy *)

(** [join_all]: every gate is asked about the candidates there were at the start. The order in which the
    answers come in changes none of them. *)
Fixpoint ask_gates (chain : list (Z * ResolvedPolicy)) (cands : list WeightedLane) (ctx : RequestCtx) (v : Value)
    (pool : string) (gov_key : option (string * string)) : Run (option (list PolicyOutcome)) :=
  match chain with
  | [] => ret (Some [])
  | (_, gate) :: chain =>
      let! o := decide_policy_order gate cands ctx v pool gov_key in
      match o with
      | None => ret None
      | Some o =>
          let! os := ask_gates chain cands ctx v pool gov_key in
          ret (match os with Some os => Some (o :: os) | None => None end)
      end
  end.

Inductive Routed :=
  | Stopped (r : Resp)
  | Routed_to (cands : list WeightedLane) (order : option (list nat)) (chosen : option string) (ctx : RequestCtx).

Definition pool_members (pool : string) : option (gmap nat MemberMeta) := members <$> pool_runtime app !! pool.

Definition gate_chain (pool : string) : list (Z * ResolvedPolicy) :=
  by_priority (global_gates app ++ match pool_runtime app !! pool with Some r => pool_gates r | None => [] end).

(** Phase 2, reconciled: the candidates and restricts it leaves, and the order it imposes. *)
Definition reconcile (pool : string) (outcomes : list PolicyOutcome) (cands : list WeightedLane)
    (ctx : RequestCtx) : Result (list WeightedLane * RequestCtx * option (list nat * string)) (Z * string) :=
  match first_reject outcomes with
  | Some e => Err e
  | None =>
      match reconcile_restricts (pool_members pool) outcomes cands ctx with
      | Err _ => Err (503, KIND_OVERLOADED)
      | Ok (cands, ctx) => Ok (cands, ctx, reconcile_order (idx <$> cands) outcomes)
      end
  end.

(** The base policy's outcome; its restrict narrows the candidates as a gate's does. *)
Definition apply_base (pool : string) (outcome : PolicyOutcome) (cands : list WeightedLane) (ctx : RequestCtx)
    : Routed :=
  match outcome with
  | PO_Order order name => Routed_to cands (Some order) (Some name) ctx
  | PO_Weighted => Routed_to cands None None ctx
  | PO_Reject => Stopped (gate_rejected 503 KIND_OVERLOADED)
  | PO_RejectRequest status _ _ =>
      Stopped (gate_rejected (status_code status) (reject_kind_for_status status))
  | PO_Restrict tags name on_empty =>
      let rc := mkRestrict tags on_empty name in
      let ctx := push_restrict rc ctx in
      match restrict_filter (pool_members pool) rc cands with
      | [] => match on_empty with
              | Weighted => Routed_to cands None None ctx
              | Reject | First => Stopped (gate_rejected 503 KIND_OVERLOADED)
              end
      | restricted => Routed_to restricted None (Some name) ctx
      end
  end.

(** The seam. *)
Definition route (cands : list WeightedLane) (ctx : RequestCtx) (body : option Value) (pool : string)
    (gov_key : option (string * string)) : Run Routed :=
  let v := default Null body in
  let! outcomes := ask_gates (gate_chain pool) cands ctx v pool gov_key in
  match outcomes with
  | None => ret (Stopped Gone)
  | Some outcomes =>
      match reconcile pool outcomes cands ctx with
      | Err (status, kind) => ret (Stopped (gate_rejected status kind))
      | Ok (cands, ctx, Some (order, name)) => ret (Routed_to cands (Some order) (Some name) ctx)
      | Ok (cands, ctx, None) =>
          match pool_runtime app !! pool ≫= base_policy with
          | None => ret (Routed_to cands None None ctx)
          | Some rp =>
              let! outcome := decide_policy_order rp cands ctx v pool gov_key in
              match outcome with
              | None => ret (Stopped Gone)
              | Some outcome => ret (apply_base pool outcome cands ctx)
              end
          end
      end
  end.

(** ** The rewrite pass *)

Inductive Rewritten := Rw_gone | Rw_rejected (status : Z) | Rw_body (applied : bool) (v : Value).

(** Each hook sees the body the one before it left. *)
Fixpoint apply_global_rewrites (hs : list (Z * Policy)) (v : Value) (pool : string) (id : Z) (applied : bool)
    : Run Rewritten :=
  match hs with
  | [] => ret (Rw_body applied v)
  | (_, p) :: hs =>
      let req := build_rewrite_request v pool (ingress_protocol rq) (wants_stream rq) true id in
      let! gone := (match p with Native _ => ret false | Plugin _ => await oracle end) in
      if (gone : bool) then ret Rw_gone else
      let! outcome := consult (fun m => policy_transform (hm_transform m) p req) in
      match outcome with
      | TO_Rewrite rw =>
          let '(done, v) := apply_rewrite_to_body v rw (ingress_protocol rq) in
          apply_global_rewrites hs v pool id (applied || done)
      | TO_Reject status _ => ret (Rw_rejected status)
      | TO_Abstain => apply_global_rewrites hs v pool id applied
      end
  end.

(** The global chain, then the pool's. An opaque body is left alone. *)
Definition rewrite_body (body : option Value) (pool : string) (id : Z) : Run Rewritten :=
  match body with
  | None => ret (Rw_body false Null)
  | Some v =>
      let! r := apply_global_rewrites (rewrite_hooks app) v pool id false in
      match r with
      | Rw_body applied v =>
          apply_global_rewrites
            (match pool_runtime app !! pool with Some r => pool_rewrite_hooks r | None => [] end) v pool id applied
      | r => ret r
      end
  end.

(** ** The request *)

(** [forward_with_pool_parsed_inner]. *)
Definition forward_with_pool (instant_max : Z) (cands : list WeightedLane) (body : option Value)
    (gov_key : option (string * string)) (affinity_key_hash : option Z) (pool : string) (id : Z) : Run Resp :=
  let! supported := of_option (supported_cands (T := T) (J := J) app cands) in
  match supported with
  | Err _ => ret (ingress_error 404 KIND_NOT_FOUND)
  | Ok cands =>
      let! rewritten := rewrite_body body pool id in
      match rewritten with
      | Rw_gone => ret Gone
      | Rw_rejected status => ret (gate_rejected (status_code status) (reject_kind_for_status status))
      | Rw_body _ v =>
          let body := match body with Some _ => Some v | None => None end in
          let f := pool_failover app pool in
          let deadline_secs := match f with Some f => timeout_secs f | None => DEFAULT_FAILOVER_DEADLINE_SECS end in
          let max_cap := match f with Some f => max_hops f | None => DEFAULT_FAILOVER_CAP end in
          let! start := now oracle in
          let! wall := ask oracle tk_wall in
          let! wall_fallback := ask oracle tk_wall in
          let! ctx := of_option (RequestCtx_new start wall wall_fallback instant_max deadline_secs id) in
          let! cands := of_option (not_excluded app (f ≫= exclusions) cands) in
          let! routed := route cands ctx body pool gov_key in
          match routed with
          | Stopped r => ret r
          | Routed_to cands order _ ctx =>
              dispatch parse_http_date oracle app rq max_cap cands affinity_key_hash order pool ctx
          end
      end
  end.
End seam.

Arguments Routed T J : clear implicits.
