(* ===== verification/ResponseSpec.v ===== *)
(** * ResponseSpec: a relayed body settles once

    What a [FirstByteBody] does to the lane over its whole life, however the upstream stream goes and
    however soon the client lets go: the permit goes back exactly once, and the breaker, the budget and
    the bill are each touched at most once and consistently. *)

From S2P Require Import Prelude Breaker HealthState HealthLemmas HealthSpec HealthAdmit Bytes Selection SelectionSpec Ledger Request ResponseBody ForwardLogic.

#[local] Open Scope Z_scope.

Section body.
Context {SemT T J : Type} `{Semaphore SemT} `{StreamTranslate T} `{JsonArrayFramer J}.
Context (oracle : nat -> Moment SemT) (oracle_ok : forall k, moment_ok (oracle k)) (lane_count : nat).

#[local] Notation World := (World SemT).
#[local] Notation Body := (FirstByteBody T J).
#[local] Notation does := (does oracle).
#[local] Notation world_ok := (world_ok lane_count).
Implicit Types (b : Body) (w : World).

(** What the body was made with and never changes. *)
Definition fixed b := (body_lane b, body_cfg b, body_pool b, is_sse b, taps b, error_frame b).

(** Still relaying, with its permit. *)
Record live (p : Permit) b0 b : Prop := {
  lv_fixed : fixed b = fixed b0;
  lv_permit : body_permit b = Some p;
  lv_sink : usage_sink b = usage_sink b0;
  lv_spent : budget_spent b = budget_spent b0;
  lv_ended : ended b = false;
  lv_failed : stream_failed b = false;
}.

(** Settled: dropping it does nothing more. *)
Record closed b : Prop := {
  cl_permit : body_permit b = None;
  cl_ended : ended b = true;
  cl_bill : usage_sink b = true -> stream_failed b = true;
}.

(** What a body that held [p] does in its whole life: the events of one settlement, in some order. *)
Definition settlement (b0 : Body) (p : Permit) (failed refunded : bool) (billed : option (option IrUsage))
    (evs : list Event) : Prop :=
  evs ≡ₚ Gave (body_lane b0) p
         :: (if failed then [Failed (body_pool b0) (body_lane b0)] else [])
         ++ (if refunded then [Refunded (body_lane b0)] else [])
         ++ option_list (Billed (body_lane b0) <$> billed)
  /\ (refunded = true -> budget_spent b0 = true)
  /\ (billed <> None -> usage_sink b0 = true /\ failed = false).

Definition settles (b0 : Body) (p : Permit) (evs : list Event) : Prop :=
  exists failed refunded billed, settlement b0 p failed refunded billed evs.

Lemma does_take_permit w b p :
  world_ok w -> body_permit b = Some p ->
  does w (take_permit oracle b) (fun b' evs _ => evs = [Gave (body_lane b) p] /\ b' = set_permit None b).
Proof.
  intros Hw Hp. unfold take_permit. rewrite Hp.
  seq does_drop_permit as ? evs w' -> Hw' _. by stop.
Qed.

Lemma does_chunk w b0 p chunk b :
  world_ok w -> live p b0 b ->
  does w (on_chunk oracle chunk b) (fun '(_, b') evs _ => evs = [] /\ live p b0 b').
Proof.
  intros Hw [Hf Hp Hs Hsp He Hfl]. unfold on_chunk.
  assert (Hframed : forall out b1 j, live p b0 b1 -> live p b0 (framed out b1 j).2).
  { intros out b1 j []. unfold framed. destruct (feed_array out j). by split. }
  simpl. destruct (translate b) as [t|].
  - destruct (feed chunk t) as [out t']. stop. simpl.
    destruct (json_array b) as [j|]; [|by split; [|by split]].
    destruct (framed _ _ _) eqn:E. split; [done|].
    specialize (Hframed out (set_translate (Some t') (set_first b)) j). rewrite E in Hframed. by apply Hframed.
  - destruct (_ && _ && _).
    + seq does_ask as cap evs w1 [-> _] Hw1 _. stop. simpl.
      destruct (json_array b) as [j|]; [|by split; [|by split]].
      destruct (framed _ _ _) eqn:E. split; [done|].
      specialize (Hframed chunk (set_buf (retain cap chunk (nonstream_buf b)) (set_first b)) j).
      rewrite E in Hframed. by apply Hframed.
    + stop. simpl.
      destruct (json_array b) as [j|]; [|by split; [|by split]].
      destruct (framed _ _ _) eqn:E. split; [done|].
      specialize (Hframed chunk (set_first b) j). rewrite E in Hframed. by apply Hframed.
Qed.

Context (b0 : Body) (p : Permit).
Context (lane_ok : (body_lane b0 < lane_count)%nat) (cfg_ok : cfg_valid (body_cfg b0)).

Lemma live_lane b : live p b0 b -> body_lane b = body_lane b0.
Proof. intros Hl. by injection (lv_fixed _ _ _ Hl). Qed.
Lemma live_cfg b : live p b0 b -> body_cfg b = body_cfg b0.
Proof. intros Hl. by injection (lv_fixed _ _ _ Hl). Qed.
Lemma live_pool b : live p b0 b -> body_pool b = body_pool b0.
Proof. intros Hl. by injection (lv_fixed _ _ _ Hl). Qed.

Definition closes b (evs : list Event) : Prop := closed b /\ settles b0 p evs.

Lemma does_broken w b :
  world_ok w -> live p b0 b -> does w (on_broken oracle b) (fun '(_, b') evs _ => closes b' evs).
Proof.
  intros Hw Hl. pose proof (live_lane b Hl) as Elane. pose proof (live_pool b Hl) as Epool.
  pose proof (live_cfg b Hl) as Ecfg. destruct Hl as [_ Hp Hs Hsp He Hfl]. unfold on_broken. simpl.
  rewrite Elane, Epool, Ecfg. case_match.
  - seq does_record_failure as ? evs w1 [-> _] Hw1 _.
    seq does_take_permit as b' evs w2 [-> ->] Hw2 _. stop. simpl. rewrite Elane.
    assert (Hset : settles b0 p [Failed (body_pool b0) (body_lane b0); Gave (body_lane b0) p]).
    { exists true, false, None. split; [|done]. by apply perm_swap. }
    destruct (json_array b) as [j|]; [destruct (finish_with_server_error j)|]; by split.
  - seq does_record_failure as ? evs w1 [-> _] Hw1 _. destruct (budget_spent b) eqn:Esp.
    + seq does_refund as ? evs w2 -> Hw2 _.
      seq does_take_permit as b' evs w3 [-> ->] Hw3 _. stop. simpl. rewrite Elane. split; [done|].
      exists true, true, None. split; [|by rewrite <- Hsp].
      solve_Permutation.
    + seq does_take_permit as b' evs w3 [-> ->] Hw3 _. stop. simpl. rewrite Elane. split; [done|].
      exists true, false, None. split; [|done]. by apply perm_swap.
Qed.

Lemma drain_live b :
  live p b0 b -> live p b0 (drain_finish b).2 /\ is_sse (drain_finish b).2 = is_sse b
    /\ first_byte_sent (drain_finish b).2 = first_byte_sent b
    /\ (stream_terminal_error b || translate_aborted b = true ->
        stream_terminal_error (drain_finish b).2 || translate_aborted b = true).
Proof.
  intros []. unfold drain_finish, stream_terminal_error, translate_aborted.
  destruct (translate b) as [t|] eqn:Et; simpl; [|rewrite ?Et; split; [by split|done]].
  pose proof (finish_terminal t). destruct (finish t) as [tail t']. simpl in *. split; [by split|].
  split; [done|]. split; [done|]. destruct (terminal_error t), (aborted t); auto with bool.
Qed.

Lemma close_live b a tail :
  live p b0 b -> live p b0 (close_array a tail b).2
    /\ stream_terminal_error (close_array a tail b).2 = stream_terminal_error b.
Proof.
  intros []. unfold close_array. destruct (json_array b) as [j|]; [|by split].
  destruct (if a then _ else _) as [wr j1]. destruct (finish_for_translate a j1). simpl. by split; [split|].
Qed.

Lemma does_end w b :
  world_ok w -> live p b0 b -> does w (on_end oracle b) (fun '(_, b') evs _ => closes b' evs).
Proof.
  intros Hw Hl. unfold on_end.
  assert (Hpre : exists failed : bool,
    does w (if is_sse b && first_byte_sent b && (stream_terminal_error b || translate_aborted b)
       then bind (do_record_failure oracle (body_pool b) (body_lane b) (body_cfg b) None) (fun _ => ret tt)
       else ret tt) (fun _ evs _ => evs = if failed then [Failed (body_pool b0) (body_lane b0)] else [])
    /\ (failed = true -> stream_terminal_error b || translate_aborted b = true)).
  { rewrite (live_lane b Hl), (live_pool b Hl), (live_cfg b Hl).
    destruct (is_sse b && first_byte_sent b); [|exists false; split; [by stop|done]]. simpl.
    destruct (stream_terminal_error b || translate_aborted b); [exists true|exists false]; (split; [|done]).
    - seq does_record_failure as ? evs w1 [-> _] Hw1 _. by stop.
    - by stop. }
  destruct Hpre as (failed & Hpre & Hfailed).
  eapply does_bind; [done|exact Hpre|]. intros _ ev0 w1 -> Hw1 _.
  destruct (drain_live b Hl) as (Hl1 & _ & _ & Hterm). destruct (drain_finish b) as [tail b1]. simpl in *.
  destruct (close_live b1 (translate_aborted b) tail Hl1) as [Hl2 Hst].
  destruct (close_array _ _ _) as [don b2]. simpl in *.
  pose proof (live_lane b2 Hl2) as Elane. destruct Hl2 as [_ Hp Hs _ He Hfl].
  seq does_take_permit as b' evs w2 [-> ->] Hw2 _. simpl. rewrite Elane.
  destruct (usage_sink b2) eqn:Es.
  - unfold stream_terminal_error in Hst |- *. simpl in *. rewrite Hst.
    fold (stream_terminal_error b1). destruct (stream_terminal_error b1 || translate_aborted b) eqn:Ebill.
    + stop. split; [by split|].
      exists failed, false, None. split; [|done]. destruct failed; simpl; solve_Permutation.
    + seq does_note as ? evs w3 -> Hw3 _; [by repeat constructor|]. stop. split; [by split|].
      exists failed, false, (Some (final_usage (set_ended (set_permit None b2)))). split; [|].
      * simpl. destruct failed; simpl; solve_Permutation.
      * split; [done|]. intros _. split; [congruence|].
        destruct failed; [|done]. specialize (Hterm (Hfailed eq_refl)). congruence.
  - stop. split; [split; [done|done|by simpl; rewrite Es]|].
    exists failed, false, None. split; [|done]. destruct failed; simpl; solve_Permutation.
Qed.

(** What a poll leaves: a live body that did nothing, or a settled one. *)
Definition polled b (evs : list Event) : Prop := (evs = [] /\ live p b0 b) \/ closes b evs.

Lemma does_poll_loop inner : forall w b,
  world_ok w -> live p b0 b ->
  does w (poll_loop oracle inner b) (fun '(_, _, b') evs _ => polled b' evs).
Proof.
  induction inner as [|[chunk| |] inner IH]; intros w b Hw Hl; simpl.
  - stop. by left.
  - seq does_chunk as [out b1] evs w1 [-> Hl1] Hw1 _. destruct out; [stop; by left|]. by apply IH.
  - seq does_broken as [q b1] evs w1 Hc Hw1 _. stop. rewrite app_nil_r. by right.
  - seq does_end as [q b1] evs w1 Hc Hw1 _. stop. rewrite app_nil_r. by right.
Qed.

Lemma does_drop_closed w b : world_ok w -> closed b -> does w (drop_body oracle b) (fun _ evs _ => evs = []).
Proof.
  intros Hw [Hp He Hb]. unfold drop_body, take_permit. rewrite He. simpl. flatten. rewrite Hp.
  destruct (usage_sink b); [rewrite Hb by done; simpl|]; by stop.
Qed.

Lemma does_drop_live w b :
  world_ok w -> live p b0 b -> does w (drop_body oracle b) (fun _ evs _ => settles b0 p evs).
Proof.
  intros Hw Hl. pose proof (live_lane b Hl) as Elane. destruct Hl as [_ Hp Hs Hsp He Hfl].
  unfold drop_body. rewrite He, Elane. simpl.
  assert (Hrest : forall w1 b1 (refunded : bool), world_ok w1 -> body_permit b1 = Some p ->
    body_lane b1 = body_lane b0 -> usage_sink b1 = usage_sink b0 -> (refunded = true -> budget_spent b0 = true) ->
    does w1 (bind (if usage_sink b1 then
       if stream_failed b1 || stream_terminal_error b1 || translate_aborted b1 then ret tt
       else let u := match translate b1 with Some t => usage t | None => None end in
         if is_zero (match u with Some u => tier_tokens u | None => TierTokens_default end) then ret tt
         else note (Billed (body_lane b1) u)
      else ret tt) (fun _ => bind (take_permit oracle b1) (fun _ => ret tt)))
      (fun _ evs _ => settles b0 p ((if refunded then [Refunded (body_lane b0)] else []) ++ evs))).
  { intros w1 b1 refunded Hw1 Hp1 El Es Hr.
    assert (Hquiet : does w1 (bind (take_permit oracle b1) (fun _ => ret tt))
      (fun _ evs _ => settles b0 p ((if refunded then [Refunded (body_lane b0)] else []) ++ evs))).
    { seq does_take_permit as b' evs w2 [-> ->] Hw2 _. stop. rewrite El.
      exists false, refunded, None. split; [|by split]. destruct refunded; simpl; solve_Permutation. }
    destruct (usage_sink b1) eqn:Esink; [|by flatten].
    destruct (_ || _ || _); [by flatten|]. cbv zeta. destruct (is_zero _); [by flatten|].
    seq does_note as ? evs w2 -> Hw2 _; [by repeat constructor|].
    seq does_take_permit as b' evs w3 [-> ->] Hw3 _. stop. rewrite El.
    exists false, refunded, (Some (match translate b1 with Some t => usage t | None => None end)).
    split; [|by split]. destruct refunded; simpl; solve_Permutation. }
  destruct (budget_spent b) eqn:Esp.
  - seq does_refund as ? evs w1 -> Hw1 _. flatten. cbn [app].
    apply (Hrest w1 (set_spent false b) true); [done..|by rewrite <- Hsp].
  - flatten. by apply (Hrest w b false).
Qed.

Lemma does_consume_closed n : forall w inner b,
  world_ok w -> closed b -> does w (consume oracle n inner b) (fun _ evs _ => evs = []).
Proof.
  induction n as [|n IH]; intros w inner b Hw Hc; simpl.
  - seq does_drop_closed as ? evs w1 -> Hw1 _. by stop.
  - unfold poll_next. rewrite (cl_ended _ Hc). flatten.
    eapply does_bind; [done|by apply IH|]. intros rest evs w1 -> Hw1 _. by stop.
Qed.

Lemma does_consume n : forall w inner b,
  world_ok w -> live p b0 b -> does w (consume oracle n inner b) (fun _ evs _ => settles b0 p evs).
Proof.
  induction n as [|n IH]; intros w inner b Hw Hl; simpl.
  - seq does_drop_live as ? evs w1 Hs Hw1 _. stop. by rewrite app_nil_r.
  - unfold poll_next. rewrite (lv_ended _ _ _ Hl).
    seq does_poll_loop as [[q inner'] b1] evs w1 Hp Hw1 _. destruct Hp as [[-> Hl1]|[Hc Hs]].
    + eapply does_bind; [done|by apply IH|]. intros rest evs w2 Hs2 Hw2 _. stop. simpl. by rewrite app_nil_r.
    + eapply does_bind; [done|by apply does_consume_closed|]. intros rest evs' w2 -> Hw2 _. stop.
      by rewrite !app_nil_r.
Qed.
End body.

(** ** What the log of a settled body comes to *)

Section settled.
Context {T J : Type} (b0 : FirstByteBody T J) (p : Permit).

Lemma settles_permits l evs :
  settles b0 p evs -> permit_balance l evs = if Nat.eqb (body_lane b0) l then - permit_cost p else 0.
Proof.
  intros (failed & refunded & billed & -> & _). unfold permit_balance.
  destruct failed, refunded, billed; csimpl; destruct (Nat.eqb _ _); lia.
Qed.

Lemma settles_no_admission evs : settles b0 p evs -> no_admission evs.
Proof.
  intros (failed & refunded & billed & Hp & _). unfold no_admission. rewrite Hp.
  destruct failed, refunded, billed; repeat constructor.
Qed.
End settled.

(** ** Properties *)

Section properties.
Context {SemT T J : Type} `{Semaphore SemT} `{StreamTranslate T} `{JsonArrayFramer J}.
Context (oracle : nat -> Moment SemT) (oracle_ok : forall k, moment_ok (oracle k)) (lane_count : nat).

Lemma new_live sse p lane cfg pool t j sink spent tp ex ef :
  live p (FirstByteBody_new (T := T) (J := J) sse p lane cfg pool t j sink spent tp ex ef)
    (FirstByteBody_new sse p lane cfg pool t j sink spent tp ex ef).
Proof. by split. Qed.


Lemma consume_length n : forall inner (b : FirstByteBody T J) w polls w',
  consume oracle n inner b w = Some (polls, w') -> length polls = n.
Proof.
  induction n as [|n IH]; intros inner b w polls w'; simpl; unfold bind.
  - destruct (drop_body oracle b w) as [[]|]; [|done]. by intros [= <- _].
  - destruct (poll_next oracle inner b w) as [[[[q inner'] b'] w1]|]; [|done].
    destruct (consume oracle n inner' b' w1) as [[rest w2]|] eqn:E; [|done].
    intros [= <- _]. simpl. by rewrite (IH _ _ _ _ _ E).
Qed.

(** A body that relays its upstream as it is. *)
Record verbatim (b : FirstByteBody T J) : Prop := {
  vb_translate : translate b = None;
  vb_array : json_array b = None;
  vb_ended : ended b = false;
}.

Lemma verbatim_chunk chunk b w :
  verbatim b -> exists b' w', on_chunk oracle chunk b w = Some ((Some chunk, b'), w') /\ verbatim b'.
Proof.
  intros [Ht Hj He]. unfold on_chunk. simpl. rewrite Ht.
  destruct (_ && _ && _); unfold bind, ask, ret; simpl; rewrite Hj; by do 2 eexists.
Qed.

(** A same-protocol body is relayed byte for byte: the client's polls give the upstream's chunks, each
    once, unchanged and in order, whatever follows them and whatever else happens to the lane. *)
Theorem same_protocol_bytes_are_verbatim n chunks rest (b : FirstByteBody T J) w polls w' :
  translate b = None -> json_array b = None -> ended b = false ->
  consume oracle n ((Chunk <$> chunks) ++ rest) b w = Some (polls, w') ->
  take (length chunks) polls = Item <$> take n chunks.
Proof.
  intros Ht Hj He. assert (Hb : verbatim b) by done. clear Ht Hj He.
  revert n b w polls w' Hb. induction chunks as [|c chunks IH]; intros n b w polls w' Hb Hr; simpl.
  { by destruct n. }
  destruct n as [|n]; [apply consume_length in Hr; by destruct polls|]. simpl in Hr. unfold bind in Hr.
  unfold poll_next in Hr. rewrite (vb_ended _ Hb) in Hr. csimpl in Hr. simpl in Hr. unfold bind in Hr.
  destruct (verbatim_chunk c b w Hb) as (b1 & w1 & Hc & Hb1). rewrite Hc in Hr. unfold ret in Hr.
  destruct (consume oracle n _ b1 w1) as [[polls1 w2]|] eqn:E; [|done]. injection Hr as <- <-. csimpl.
  f_equal. by eapply IH.
Qed.
End properties.

(** ** Witnesses *)

Definition demo_stream : list InnerPoll := [Chunk [100]; Chunk [97; 116]].


Lemma same_protocol_bytes_are_verbatim_witness :
  exists polls w', consume (fun _ => demo_moment (Send_failed false)) 3 (demo_stream ++ [Ended]) demo_body
      demo_world = Some (polls, w')
    /\ take 2 polls = [Item [100]; Item [97; 116]].
Proof.
  destruct (consume (fun _ => demo_moment (Send_failed false)) 3 (demo_stream ++ [Ended]) demo_body demo_world)
    as [[polls w']|] eqn:E; [|by vm_compute in E].
  exists polls, w'. split; [done|].
  refine (same_protocol_bytes_are_verbatim _ 3 [[100]; [97; 116]] [Ended] demo_body demo_world polls w' _ _ _ E); reflexivity.
Defined.
