(* ===== verification/ForwardSpec.v ===== *)
(** * ForwardSpec: what one forwarded attempt comes to

    For the attempt of the failover loop and for the degraded single forward: where the permit they were
    handed ends up, what they charge, and that the recovery probe they were handed is settled. *)

From S2P Require Import Prelude Float64 Breaker BreakerFsm HealthState HealthLemmas HealthSpec HealthAdmit SwrrCore Swrr StoreRuns Classifier Bytes Selection SelectionSpec SelectionPick Ledger LaneFrame Request ResponseBody Forward ForwardLogic ResponseSpec.

#[local] Open Scope Z_scope.

(** ** The log of a run *)

Definition sent_of (e : Event) : option (bool * string * nat) :=
  match e with Sent last pool lane => Some (last, pool, lane) | _ => None end.

(** The upstream calls made: as a last resort or not, under which pool, to which lane. *)
Definition sent (evs : list Event) : list (bool * string * nat) := omap sent_of evs.

Definition charge_of (e : Event) : option (nat * bool) :=
  match e with Spent lane => Some (lane, true) | Refunded lane => Some (lane, false) | _ => None end.

(** The units taken ([true]) and given back ([false]). *)
Definition charges (evs : list Event) : list (nat * bool) := omap charge_of evs.

Lemma sent_app e1 e2 : sent (e1 ++ e2) = sent e1 ++ sent e2.
Proof. apply omap_app. Qed.
Lemma charges_app e1 e2 : charges (e1 ++ e2) = charges e1 ++ charges e2.
Proof. apply omap_app. Qed.
Lemma sent_gave i p evs : sent (Gave i p :: evs) = sent evs.
Proof. done. Qed.
Lemma charges_gave i p evs : charges (Gave i p :: evs) = charges evs.
Proof. done. Qed.
Lemma no_admission_app e1 e2 : no_admission (e1 ++ e2) <-> no_admission e1 /\ no_admission e2.
Proof. apply Forall_app. Qed.

Section spec.
Context {SemT T J : Type} `{Semaphore SemT} `{StreamTranslate T} `{JsonArrayFramer J} `{ProtocolTable T J}.
Context (parse_http_date : list Ascii.ascii -> option Z).
Context (oracle : nat -> Moment SemT) (oracle_ok : forall k, moment_ok (oracle k)) (lane_count : nat).

#[local] Notation World := (World SemT).
#[local] Notation Resp := (Response T J).
#[local] Notation does := (does oracle).
#[local] Notation world_ok := (world_ok lane_count).
#[local] Notation stays_alive := (stays_alive oracle).
Implicit Types (w : World) (r : Resp).

(** The permit a response still holds: that of its body. *)
Definition response_permit (l : nat) r : Z :=
  match r with
  | Streaming _ b => match body_permit b with
                     | Some p => if Nat.eqb (body_lane b) l then permit_cost p else 0
                     | None => 0
                     end
  | _ => 0
  end.

Definition own (i : nat) (p : Permit) (l : nat) : Z := if Nat.eqb i l then permit_cost p else 0.

(** Of what was charged for lane [i]: a stream holds its unit, anything else has either kept or
    returned it. *)
Definition charged (i : nat) r (evs : list Event) : Prop :=
  match r with
  | Streaming _ b => body_lane b = i /\ charges evs = if budget_spent b then [(i, true)] else []
  | _ => charges evs ∈ [[]; [(i, true)]; [(i, true); (i, false)]]
  end.

(** Answers that leave the lane's budget as it was: a shed request's and a relayed upstream error. *)
Definition uncharged r : bool :=
  match r with Error_response _ st _ _ => st =? 503 | Relayed _ => true | _ => false end.

(** A stream is a fresh body over the permit. *)
Definition stream_ok (i : nat) (p : Permit) r : Prop :=
  match r with
  | Streaming _ b => live p b b /\ body_lane b = i /\ cfg_valid (body_cfg b)
  | _ => True
  end.

(** The part of a run between holding lane [i]'s permit and a response. *)
Record answered (i : nat) (p : Permit) r (evs : list Event) : Prop := {
  an_permits : forall l, permit_balance l evs = response_permit l r - own i p l;
  an_charged : charged i r evs;
  an_uncharged : uncharged r = true -> charges evs = [];
  an_stream : stream_ok i p r;
  an_no_admission : no_admission evs;
}.

Lemma does_evolves {A} w (m : Engine SemT A) (Q : A -> list Event -> World -> Prop) :
  does w m Q -> does w m (fun a evs w' => Q a evs w' /\ evolves oracle w evs w').
Proof. intros (a & w' & evs & ? & ? & ?). by exists a, w', evs. Qed.

Lemma own_gave i p l e :
  permit_balance l (Gave i p :: e) = permit_balance l e - own i p l.
Proof. unfold permit_balance, own. csimpl. destruct (Nat.eqb i l); lia. Qed.

(** ** A buffered 2xx *)

(** The permit is back, the budget untouched, nothing sent. *)
Definition handed_back (i : nat) (p : Permit) (evs : list Event) : Prop :=
  exists tail, evs = Gave i p :: tail /\ free tail /\ sent tail = [].

Lemma handed_no_admission i p tail evs : free tail -> no_admission evs -> no_admission (Gave i p :: tail ++ evs).
Proof.
  intros Hf He. apply Forall_cons; split; [done|]. apply no_admission_app. split; [|done].
  by apply free_no_admission.
Qed.

#[local] Ltac leaf :=
  split; [by eexists; split; [reflexivity|]; split; [repeat constructor|]|split; [by intros|split; [by intros|done]]].

Lemma does_translate w rq i pool cfg st p armed :
  world_ok w -> (i < lane_count)%nat -> cfg_valid cfg ->
  does w (translate_response_cross_protocol oracle rq i pool cfg st p armed) (fun '(r, armed') evs _ =>
    handed_back i p evs /\ (forall s b, r <> Streaming s b) /\ (armed' = true -> armed = true)
    /\ uncharged r = false).
Proof.
  intros Hw Hl Hc. unfold translate_response_cross_protocol.
  seq does_await as gone evs w1 -> Hw1 _. destruct gone.
  { seq does_drop_permit as ? evs w2 -> Hw2 _. stop. by leaf. }
  seq does_ask as body evs w2 [-> _] Hw2 _. seq does_drop_permit as ? evs w3 -> Hw3 _.
  destruct (read_end body).
  2: { stop. by leaf. }
  2: { seq does_record_failure as ? evs w4 [-> _] Hw4 _. stop. by leaf. }
  destruct (is_json body), (decoded body) as [u|].
  1: destruct (protocol_known _).
  all: try (seq does_record_failure as ? evs w4 [-> _] Hw4 _; stop; by leaf).
  all: destruct (has_sink rq);
    [seq does_note as ? evs w4 -> Hw4 _; [by repeat constructor|]|].
  all: try (stop; repeat case_match; by leaf).
  all: destruct (has_handler _); [stop; by leaf|].
  all: flatten.
  all: seq does_record_failure as ? evs w5 [-> _] Hw5 _; stop; by leaf.
Qed.

(** ** A 2xx, streamed or buffered *)

Lemma does_deliver w rq lane i pool cfg a p flag :
  world_ok w -> (i < lane_count)%nat -> cfg_valid cfg ->
  does w (deliver oracle rq lane i pool cfg a p flag) (fun r evs _ => answered i p r evs /\ sent evs = []).
Proof.
  intros Hw Hl Hc. unfold deliver. seq does_spend as spent evs w1 -> Hw1 _. cbv zeta.
  destruct (_ && _).
  - seq does_translate as [r armed] evs w2 Ht Hw2 _. destruct Ht as ((tail & -> & Hf & Hs) & Hr & Ha & Hun).
    assert (Hno : forall l, response_permit l r = 0) by (intros l; destruct r; [..|by destruct (Hr _ _ eq_refl)|]; done).
    assert (Hch : charges tail = []) by (clear -Hf; induction Hf as [|[] tail ? ? IH]; done).
    destruct armed; simpl.
    + rewrite (Ha eq_refl). seq does_refund as ? evs w3 -> Hw3 _. stop.
      split; [split|].
      * intros l. rewrite Hno. rewrite !permit_balance_app, own_gave, ?permit_balance_app, (free_permits l tail) by done.
        unfold permit_balance. simpl. lia.
      * unfold charged. destruct r; [..|by destruct (Hr _ _ eq_refl)|]; rewrite !charges_app, charges_gave, ?charges_app, Hch; simpl;
          set_solver.
      * by rewrite Hun.
      * unfold stream_ok. destruct r; [..|by destruct (Hr _ _ eq_refl)|]; done.
      * repeat (apply no_admission_app; split); try (by repeat constructor).
        apply handed_no_admission; [done|by repeat constructor].
      * by rewrite !sent_app, sent_gave, ?sent_app, Hs.
    + stop. split; [split|].
      * intros l. rewrite Hno. rewrite !permit_balance_app, own_gave, ?permit_balance_app, (free_permits l tail) by done.
        destruct spent; unfold permit_balance; simpl; lia.
      * unfold charged. destruct r; [..|by destruct (Hr _ _ eq_refl)|]; rewrite !charges_app, charges_gave, ?charges_app, Hch; simpl;
          destruct spent; set_solver.
      * by rewrite Hun.
      * unfold stream_ok. destruct r; [..|by destruct (Hr _ _ eq_refl)|]; done.
      * repeat (apply no_admission_app; split); try (by destruct spent; repeat constructor).
        apply handed_no_admission; [done|by repeat constructor].
      * rewrite !sent_app, sent_gave, ?sent_app, Hs. by destruct spent.
  - stop. split; [|by destruct spent]. split.
    + intros l. unfold response_permit, own. simpl. destruct spent; unfold permit_balance; simpl; lia.
    + simpl. by destruct spent.
    + done.
    + done.
    + by destruct spent; repeat constructor.
Qed.

(** ** One attempt of the failover loop *)

Record app_ok (app : App) : Prop := {
  ap_lanes : length (app_lanes app) = lane_count;
  ap_breakers : forall pool, cfg_valid (resolve_breaker_cfg app pool);
  ap_fallback : forall pool cands, fallback_pools app !! pool = Some cands -> cands_ok lane_count cands;
}.

Context (app : App) (rq : Req) (Happ : app_ok app).

Lemma app_lane i : (i < lane_count)%nat -> exists lane, app_lanes app !! i = Some lane.
Proof. intros Hi. apply lookup_lt_is_Some_2. by rewrite (ap_lanes _ Happ). Qed.

(** More lanes may be excluded, nothing else. *)
Definition excludes (ctx ctx' : RequestCtx) : Prop :=
  exists X, ctx' = set_excluded X ctx /\ excluded ctx ⊆ X.

Lemma excludes_refl ctx : excludes ctx ctx.
Proof. exists (excluded ctx). by destruct ctx. Qed.

Lemma excludes_trans c1 c2 c3 : excludes c1 c2 -> excludes c2 c3 -> excludes c1 c3.
Proof. intros (X & -> & HX) (Y & -> & HY). exists Y. split; [done|]. simpl in HY. set_solver. Qed.

Lemma excludes_one ctx i : excludes ctx (exclude i ctx).
Proof. eexists. split; [done|]. set_solver. Qed.

Lemma exclude_too_small_total failed cands : forall ctx,
  Forall (fun wl => idx wl < lane_count)%nat cands ->
  exists ctx', exclude_too_small app failed cands ctx = Some ctx' /\ excludes ctx ctx'.
Proof.
  induction cands as [|wl cands IH]; intros ctx Hc; simpl; [eauto using excludes_refl|].
  apply Forall_cons in Hc as [Hi Hc]. unfold too_small. destruct (app_lane _ Hi) as [l ->].
  cbn [mbind option_bind].
  match goal with |- context [if ?b then _ else ctx] => destruct b end.
  - destruct (IH (exclude (idx wl) ctx) Hc) as (ctx' & -> & He). exists ctx'. split; [done|].
    eapply excludes_trans; [apply excludes_one|exact He].
  - by apply IH.
Qed.

(** The probe an attempt was handed is no longer in flight under its token, if the lane stays alive and
    other threads win no probe under the same token. *)
Definition probe_done w0 (pool : string) (i : nat) (epoch : Z) (w' : World) : Prop :=
  stays_alive w0 i -> (forall k, moment_respects pool i epoch (oracle k)) -> settled pool i epoch (w_store w').

Lemma probe_done_now w0 pool i epoch w' : settled pool i epoch (w_store w') -> probe_done w0 pool i epoch w'.
Proof. by intros ???. Qed.

Lemma probe_done_after w0 pool i epoch w1 evs w2 :
  evolves oracle w1 evs w2 -> no_admission evs -> probe_done w0 pool i epoch w1 -> probe_done w0 pool i epoch w2.
Proof. intros He Hn Hp Ha Hr. eapply ev_settled; eauto. Qed.

(** Recorded on a lane that has stayed alive so far. *)
Lemma probe_done_recorded w0 pool i epoch e0 w1 w2 :
  evolves oracle w0 e0 w1 -> (stays_alive w1 i -> forall epoch, settled pool i epoch (w_store w2)) ->
  probe_done w0 pool i epoch w2.
Proof. intros He Hs Ha _. apply Hs. by eapply stays_alive_evolves. Qed.

(** One call was made, or none and nothing was charged. *)
Definition called (call : bool * string * nat) r (evs : list Event) : Prop :=
  sent evs = [call] \/ (sent evs = [] /\ charges evs = [] /\ forall s b, r <> Streaming s b).

Definition attempt_post w0 (i : nat) (p : Permit) (pool : string) (epoch : Z) (ctx : RequestCtx)
    (res : Step (T := T) (J := J) * RequestCtx) (evs : list Event) (w' : World) : Prop :=
  excludes ctx res.2
  /\ match res.1 with
     | Again _ => answered i p (Gone (T := T) (J := J)) evs /\ sent evs = [(false, pool, i)] /\ charges evs = []
     | Done r => answered i p r evs
         /\ called (false, pool, i) r evs
     end
  /\ (probe_done w0 pool i epoch w' \/ res.1 = Done Gone).

Lemma does_send w ms (rem : Engine SemT Z) :
  world_ok w -> (forall w, world_ok w -> does w rem (fun _ evs _ => evs = [])) ->
  does w (send oracle ms rem) (fun _ evs _ => evs = []).
Proof.
  intros Hw Hr. unfold send.
  assert (Htail : forall w cap, world_ok w -> does w (bind (await oracle) (fun gone =>
    if gone then ret Dropped else bind (ask oracle tk_send) (fun '(r, took) => ret match cap with
      | Some cap => if cap <? took then Attempt_timeout else Sent_result r
      | None => Sent_result r end))) (fun _ evs _ => evs = [])).
  { intros w1 cap Hw1. seq does_await as gone evs w2 -> Hw2 _. destruct gone; [by stop|].
    seq does_ask as [r took] evs w3 [-> _] Hw3 _. by stop. }
  destruct ms as [ms|].
  - flatten. eapply does_bind; [done|by apply Hr|]. intros z evs w1 -> Hw1 _. flatten.
    apply (Htail w1 (Some (attempt_cap ms z)) Hw1).
  - flatten. apply (Htail w None Hw).
Qed.

#[local] Ltac ans :=
  split; [intros ?; unfold permit_balance, own, response_permit; csimpl; destruct (Nat.eqb _ _); lia
         |by repeat (first [left; done|right])|done|done|by repeat constructor].

#[local] Hint Resolve probe_done_now probe_done_after : core.

Lemma does_transport_failure w0 e0 w pool i p why ctx epoch :
  world_ok w -> evolves oracle w0 e0 w -> (i < lane_count)%nat ->
  does w (transport_failure (T := T) (J := J) oracle app pool i p why ctx) (fun res evs w' =>
    evs = [Failed pool i; Gave i p] /\ res = (Again why, ctx) /\ probe_done w0 pool i epoch w').
Proof.
  intros Hw He Hi. unfold transport_failure. pose proof (ap_breakers _ Happ pool).
  seq does_record_failure as ? evs w1 [-> Hs] Hw1 He1.
  seq does_drop_permit as ? evs w2 -> Hw2 He2. stop. split; [done|]. split; [done|].
  eapply probe_done_after; [exact He2|by repeat constructor|].
  by eapply probe_done_recorded.
Qed.

Lemma does_error_answer w0 e0 w cands pool i lane p epoch a ctx :
  world_ok w -> evolves oracle w0 e0 w -> (i < lane_count)%nat ->
  Forall (fun wl => idx wl < lane_count)%nat cands ->
  does w (on_error_answer parse_http_date oracle app rq cands pool i lane p epoch a ctx) (fun res evs w' =>
    excludes ctx res.2
    /\ match res.1 with Again _ => True | Done r => forall s b, r <> Streaming s b end
    /\ (evs = [Gave i p] \/ evs = [Failed pool i; Gave i p])
    /\ (probe_done w0 pool i epoch w' \/ res.1 = Done Gone)).
Proof.
  intros Hw He Hi Hc. unfold on_error_answer. pose proof (ap_breakers _ Happ pool).
  seq does_ask as now_ns evs w1 [-> _] Hw1 He1. seq does_await as gone evs w2 -> Hw2 He2.
  pose proof (evolves_trans _ _ _ _ _ _ He (evolves_trans _ _ _ _ _ _ He1 He2)) as He02.
  assert (Hleave : forall w3 r, world_ok w3 -> (forall s b, r <> Streaming s b) ->
    (probe_done w0 pool i epoch w3 \/ r = Gone) ->
    does w3 (bind (do_drop_permit oracle i p) (fun _ => ret (Done r, ctx))) (fun res evs w' =>
      excludes ctx res.2
      /\ match res.1 with Again _ => True | Done r => forall s b, r <> Streaming s b end
      /\ (evs = [Gave i p] \/ evs = [Failed pool i; Gave i p])
      /\ (probe_done w0 pool i epoch w' \/ res.1 = Done Gone))).
  { intros w3 r Hw3 Hr Hp. seq does_drop_permit as ? evs w4 -> Hw4 He4. stop. simpl.
    split; [apply excludes_refl|]. split; [done|]. split; [by left|].
    destruct Hp as [Hp|<-]; [left|by right]. eapply probe_done_after; [exact He4|by repeat constructor|done]. }
  destruct gone; [apply Hleave; [done|done|by right]|].
  assert (Hrelease : forall w3 r, world_ok w3 -> (forall s b, r <> Streaming s b) ->
    does w3 (bind (do_release_probe_owned oracle pool i epoch) (fun _ =>
      bind (do_drop_permit oracle i p) (fun _ => ret (Done r, ctx)))) (fun res evs w' =>
      excludes ctx res.2
      /\ match res.1 with Again _ => True | Done r => forall s b, r <> Streaming s b end
      /\ (evs = [Gave i p] \/ evs = [Failed pool i; Gave i p])
      /\ (probe_done w0 pool i epoch w' \/ res.1 = Done Gone))).
  { intros w3 r Hw3 Hr. seq does_release_owned as ? evs w4 [-> Hs] Hw4 _. cbn [Datatypes.app].
    apply Hleave; [done|done|by left; auto]. }
  destruct (_ && _).
  { cbn [Datatypes.app]. apply Hrelease; [done|]. intros; by destruct (String.eqb _ _). }
  cbv zeta. cbn [Datatypes.app]. destruct (classify_signal _).
  - seq does_client_fault as ? evs w3 -> Hw3 _. cbn [Datatypes.app]. apply Hrelease; [done|].
    intros; by destruct (String.eqb _ _).
  - seq does_record_failure as ? evs w3 [-> Hs] Hw3 _. seq does_drop_permit as ? evs w4 -> Hw4 He4. stop.
    simpl. split; [apply excludes_refl|]. split; [done|]. split; [by right|]. left.
    eapply probe_done_after; [exact He4|by repeat constructor|]. by eapply probe_done_recorded.
  - seq does_hard_down as ? evs w3 [-> Hs] Hw3 _. seq does_drop_permit as ? evs w4 -> Hw4 He4.
    assert (Hp : probe_done w0 pool i epoch w4).
    { eapply probe_done_after; [exact He4|by repeat constructor|]. auto. }
    case_match; try (stop; simpl; split; [apply excludes_refl|]; split; [done|]; split; [by right|by left]).
    case_match. stop; simpl; split; [apply excludes_refl|]; split; [done|]; split; [by right|by left].
  - destruct (exclude_too_small_total lane cands ctx Hc) as (ctx' & Hx & Hxc).
    seq does_of_option as ctx1 evs w3 [-> ->] Hw3 _.
    seq does_release_owned as ? evs w4 [-> Hs] Hw4 _. seq does_drop_permit as ? evs w5 -> Hw5 He5. stop.
    simpl. split; [done|]. split; [done|]. split; [by left|]. left.
    eapply probe_done_after; [exact He5|by repeat constructor|]. auto.
Qed.

(** A prefix that sends and a delivery. *)
Lemma answered_sent i p r evs e : free [e] -> answered i p r evs -> answered i p r (e :: evs).
Proof.
  intros Hf [Hp Hc Hu Hs Hn]. split; [| | |done|].
  - intros l. rewrite <- Hp. change (e :: evs) with ([e] ++ evs).
    by rewrite permit_balance_app, free_permits, Z.add_0_l.
  - unfold charged in *. apply Forall_inv in Hf. destruct r; by destruct e.
  - intros Hun. specialize (Hu Hun). apply Forall_inv in Hf. by destruct e.
  - apply Forall_cons; split; [|done]. apply Forall_inv in Hf. by destruct e.
Qed.

Lemma does_attempt w cands pool i p epoch ctx :
  world_ok w -> (i < lane_count)%nat -> Forall (fun wl => idx wl < lane_count)%nat cands ->
  does w (attempt parse_http_date oracle app rq cands pool i p epoch ctx)
    (attempt_post w i p pool epoch ctx).
Proof.
  intros Hw Hi Hc. unfold attempt. pose proof (ap_breakers _ Happ pool) as Hcfg.
  destruct (app_lane i Hi) as [lane Hlane].
  seq does_of_option as ? evs w1 [-> ->] Hw1 He1.
  seq does_ask as prepared evs w2 [-> _] Hw2 He2.
  pose proof (evolves_trans _ _ _ _ _ _ He1 He2) as He02. cbn [Datatypes.app] in He02.
  assert (Hbail : forall r : Resp, (forall s b, r <> Streaming s b) -> does w2
    (bind (do_release_probe oracle pool i) (fun _ => bind (do_drop_permit oracle i p) (fun _ => ret (Done r, ctx))))
    (attempt_post w i p pool epoch ctx)).
  { intros r Hr. seq does_release as ? evs w3 [-> Hs] Hw3 _. seq does_drop_permit as ? evs w4 -> Hw4 He4. stop.
    split; [apply excludes_refl|]. split.
    - simpl. split; [|by right]. destruct r; try by destruct (Hr _ _ eq_refl). all: by ans.
    - left. eapply probe_done_after; [exact He4|by repeat constructor|]. auto. }
  cbn [Datatypes.app]. destruct prepared; try (by apply Hbail).
  seq does_note as ? evs w3 -> Hw3 He3; [by repeat constructor|].
  pose proof (evolves_trans _ _ _ _ _ _ He02 He3) as He03.
  eapply does_bind; [done|apply does_send; [done|]|].
  { intros w' Hw'. seq does_now as t evs w4 [-> _] Hw4 _. by stop. }
  intros sending evs w4 -> Hw4 He4. pose proof (evolves_trans _ _ _ _ _ _ He03 He4) as He04.
  assert (Hfail : forall why, does w4 (transport_failure oracle app pool i p why ctx) (fun res evs w' =>
    attempt_post w i p pool epoch ctx res (Sent false pool i :: evs) w')).
  { intros why. eapply does_weaken; [by eapply does_transport_failure|].
    intros res evs w' (-> & -> & Hp). split; [apply excludes_refl|]. split; [|by left]. simpl.
    split; [by ans|done]. }
  destruct sending as [| |[is_timeout|ans]].
  - seq does_drop_permit as ? evs w5 -> Hw5 _. stop. split; [apply excludes_refl|]. split; [|by right].
    simpl. split; [by ans|by left].
  - apply Hfail.
  - apply Hfail.
  - destruct (negb _).
    + eapply does_weaken; [by eapply does_error_answer|]. intros [step ctx'] evs w' (Hx & Hr & Hev & Hp). cbn [Datatypes.app].
      split; [done|]. split; [|done]. simpl in *.
      destruct step as [why|r].
      * destruct Hev as [-> | ->]; (split; [by ans|done]).
      * destruct Hev as [-> | ->]; (split; [|by left]); destruct r; try (by destruct (Hr _ _ eq_refl)); by ans.
    + seq does_record_success as ? evs w5 [-> Hs] Hw5 _. seq does_record_latency as ? evs w6 -> Hw6 He6.
      eapply does_bind; [done|by apply does_evolves, does_deliver|].
      intros r evs w7 [[Ha Hsent] He7] Hw7 _. stop. cbn [Datatypes.app]. rewrite app_nil_r.
      split; [apply excludes_refl|]. split.
      * simpl. split; [by apply answered_sent; [repeat constructor|]|]. left. simpl. by rewrite Hsent.
      * left. eapply probe_done_after; [exact He7|apply Ha|].
        eapply probe_done_after; [exact He6|by repeat constructor|]. by eapply probe_done_recorded.
Qed.

(** ** One degraded forward *)

Definition once_post w0 (last : bool) (i : nat) (p : Permit) (pool : string) (probe : option Z)
    (res : option Resp) (evs : list Event) (w' : World) : Prop :=
  match res with
  | Some r => answered i p r evs
      /\ called (last, pool, i) r evs
  | None => answered i p (Gone (T := T) (J := J)) evs /\ sent evs = [(last, pool, i)] /\ charges evs = []
  end
  /\ forall epoch, probe = Some epoch -> probe_done w0 pool i epoch w'.

Lemma does_drop_guard w probe pool i :
  world_ok w -> (i < lane_count)%nat ->
  does w (drop_guard oracle probe pool i) (fun _ evs w' =>
    evs = [] /\ forall epoch, probe = Some epoch -> settled pool i epoch (w_store w')).
Proof.
  intros Hw Hi. destruct probe as [epoch|]; [|by stop].
  eapply does_weaken; [by eapply does_release_owned|]. intros ? evs w' [-> Hs]. split; [done|].
  by intros ? [= <-].
Qed.

Lemma does_forward_once w last i p timeout pool probe :
  world_ok w -> (i < lane_count)%nat ->
  does w (forward_once oracle app rq last i p timeout pool probe) (once_post w last i p pool probe).
Proof.
  intros Hw Hi. unfold forward_once. pose proof (ap_breakers _ Happ pool) as Hcfg.
  destruct (app_lane i Hi) as [lane Hlane].
  seq does_of_option as ? evs w1 [-> ->] Hw1 He1.
  seq does_ask as prepared evs w2 [-> _] Hw2 He2.
  pose proof (evolves_trans _ _ _ _ _ _ He1 He2) as He02. cbn [Datatypes.app] in *.
  (* Leaving: the guard, the permit, the answer. *)
  assert (Hleave : forall w3 (res : option Resp) evs0, world_ok w3 ->
    match res with Some r => forall s b, r <> Streaming s b | None => sent evs0 = [(last, pool, i)] end ->
    free evs0 -> sent evs0 = [] \/ sent evs0 = [(last, pool, i)] ->
    does w3 (bind (drop_guard oracle probe pool i) (fun _ =>
      bind (do_drop_permit oracle i p) (fun _ => ret res)))
      (fun res evs w' => once_post w last i p pool probe res (evs0 ++ evs) w')).
  { intros w3 res evs0 Hw3 Hres Hf Hs0. seq does_drop_guard as ? evs w4 [-> Hs] Hw4 _.
    seq does_drop_permit as ? evs w5 -> Hw5 He5. stop. cbn [Datatypes.app].
    assert (Hans : forall r : Resp, (forall s b, r <> Streaming s b) -> answered i p r (evs0 ++ [Gave i p])).
    { intros r Hr. assert (charges evs0 = []) as Hch by (clear -Hf; induction Hf as [|[] tail ? ? IH]; done).
      split.
      - intros l. rewrite permit_balance_app, free_permits by done. unfold permit_balance, own. simpl.
        destruct r; try (by destruct (Hr _ _ eq_refl)); simpl; destruct (Nat.eqb i l); lia.
      - unfold charged. rewrite charges_app, Hch. destruct r; try (by destruct (Hr _ _ eq_refl)); by left.
      - by rewrite charges_app, Hch.
      - destruct r; try (by destruct (Hr _ _ eq_refl)); done.
      - apply no_admission_app. split; [by apply free_no_admission|by repeat constructor]. }
    assert (charges (evs0 ++ [Gave i p]) = []) as Hch.
    { rewrite charges_app. clear -Hf. induction Hf as [|[] tail ? ? IH]; done. }
    assert (sent (evs0 ++ [Gave i p]) = sent evs0) as Hse by (by rewrite sent_app, app_nil_r).
    split.
    - destruct res as [r|].
      + split; [by apply Hans|]. unfold called. rewrite Hse. destruct Hs0; [by right|by left].
      + split; [by apply Hans|]. by rewrite Hse.
    - intros epoch Hp. eapply probe_done_after; [exact He5|by repeat constructor|]. auto. }
  destruct prepared; try (by apply (Hleave w2 _ []); [..|by constructor|left]).
  seq does_note as ? evs w3 -> Hw3 He3; [by repeat constructor|].
  eapply does_bind; [done|apply does_send; [done|]; intros; by stop|].
  intros sending evs w4 -> Hw4 He4.
  pose proof (evolves_trans _ _ _ _ _ _ He02 (evolves_trans _ _ _ _ _ _ He3 He4)) as He04.
  cbn [Datatypes.app] in He04 |- *.
  destruct sending as [| |[is_timeout|ans]].
  - apply (Hleave w4 _ [Sent last pool i]); [done|done|by repeat constructor|by right].
  - seq does_record_failure as ? evs w5 [-> Hs] Hw5 _. cbn [Datatypes.app].
    apply (Hleave w5 _ [Sent last pool i; Failed pool i]); [done|done|by repeat constructor|by right].
  - seq does_record_failure as ? evs w5 [-> Hs] Hw5 _.
    seq does_drop_permit as ? evs w6 -> Hw6 _. seq does_drop_guard as ? evs w7 [-> Hs'] Hw7 _. stop.
    cbn [Datatypes.app]. split; [split; [by ans|done]|]. auto.
  - destruct (negb _).
    + seq does_await as gone evs w5 -> Hw5 _. cbn [Datatypes.app]. destruct gone.
      * apply (Hleave w5 _ [Sent last pool i]); [done|done|by repeat constructor|by right].
      * seq does_record_failure as ? evs w6 [-> Hs] Hw6 _. cbn [Datatypes.app].
        apply (Hleave w6 _ [Sent last pool i; Failed pool i]); [done|..|by repeat constructor|by right].
        intros; by destruct (String.eqb _ _).
    + seq does_record_success as ? evs w5 [-> Hs] Hw5 _. seq does_record_latency as ? evs w6 -> Hw6 He6.
      eapply does_bind; [done|by apply does_evolves, does_deliver|].
      intros r evs w7 [[Ha Hsent] He7] Hw7 _. stop. cbn [Datatypes.app]. rewrite app_nil_r. split.
      * split; [by apply answered_sent; [repeat constructor|]|]. left. simpl. by rewrite Hsent.
      * intros epoch _. eapply probe_done_after; [exact He7|apply Ha|].
        eapply probe_done_after; [exact He6|by repeat constructor|]. by eapply probe_done_recorded.
Qed.
End spec.
