(* ===== verification/WalkSpec.v ===== *)
(** * WalkSpec: what a whole request's walk comes to

    From an admitted request to its response, over every attempt, fallback pool, queue and last resort:
    the walk returns, holds nothing but what its response holds, never calls a lane twice but for one
    last resort, stays within the lanes it is allowed, and charges at most one unit. *)

From S2P Require Import Prelude Float64 Breaker BreakerFsm HealthState HealthLemmas HealthSpec HealthAdmit SwrrCore Swrr StoreRuns Classifier Bytes Selection SelectionSpec SelectionPick Ledger LaneFrame Request ResponseBody Forward Walk ForwardLogic ResponseSpec ForwardSpec.

#[local] Open Scope Z_scope.

(** ** The calls of a walk *)

(** No lane of [X] is called and none twice, except that the last call of all may be a last resort. *)
Fixpoint fresh_sends (X : gset nat) (calls : list (bool * string * nat)) : Prop :=
  match calls with
  | [] => True
  | (true, _, _) :: calls => calls = []
  | (false, _, i) :: calls => i ∉ X /\ fresh_sends ({[i]} ∪ X) calls
  end.

Lemma fresh_sends_mono calls : forall X Y, X ⊆ Y -> fresh_sends Y calls -> fresh_sends X calls.
Proof.
  induction calls as [|[[[] pool] i] calls IH]; intros X Y HX; simpl; [done|done|].
  intros [Hi Hc]. split; [set_solver|]. eapply IH; [|exact Hc]. set_solver.
Qed.

(** ** The reasons of the last pick *)

Lemma at_cap_lanes_in reasons : forall i, i ∈ at_cap_lanes reasons -> i ∈ reasons.*1.
Proof.
  intros i. unfold at_cap_lanes.
  enough (forall acc, i ∈ foldl (fun lanes '(lane, reason) =>
           match reason with
           | AtCapacity _ => if bool_decide (lane ∈ lanes) then lanes else lanes ++ [lane]
           | _ => lanes
           end) acc reasons -> i ∈ acc \/ i ∈ reasons.*1) as Hg.
  { intros Hi. destruct (Hg [] Hi) as [Hn|]; [by apply elem_of_nil in Hn|done]. }
  induction reasons as [|[lane reason] reasons IH]; intros acc; simpl; [by left|].
  intros Hi. destruct (IH _ Hi) as [Ha|]; [|right; by right]. destruct reason; try by left.
  case_bool_decide; [by left|]. apply elem_of_app in Ha as [|Ha]; [by left|].
  right. apply list_elem_of_singleton in Ha as ->. by left.
Qed.

Lemma insert_by_key_elem x l y : y ∈ insert_by_key x l <-> y = x \/ y ∈ l.
Proof.
  induction l as [|z l IH]; simpl; [set_solver|]. case_match; set_solver.
Qed.

Lemma sort_by_key_elem l y : y ∈ sort_by_key l <-> y ∈ l.
Proof.
  unfold sort_by_key. induction l as [|x l IH]; [done|]. simpl. rewrite insert_by_key_elem, IH. set_solver.
Qed.

Lemma apply_restricts_sublist members rs : forall cands out,
  apply_restricts members rs cands = Ok out -> out `sublist_of` cands.
Proof.
  induction rs as [|r rs IH]; intros cands out; simpl; [by intros [= <-]|].
  destruct (restrict_filter members r cands) as [|x l] eqn:E.
  - destruct (on_empty r); [apply IH|done..].
  - intros He%IH. rewrite <- E in He. etransitivity; [exact He|]. apply sublist_filter.
Qed.

Section walk.
Context {SemT T J : Type} `{Semaphore SemT} `{StreamTranslate T} `{JsonArrayFramer J} `{ProtocolTable T J}.
Context (parse_http_date : list Ascii.ascii -> option Z).
Context (oracle : nat -> Moment SemT) (oracle_ok : forall k, moment_ok (oracle k)) (lane_count : nat).
Context (app : App) (rq : Req) (Happ : app_ok lane_count app).

#[local] Notation World := (World SemT).
#[local] Notation Resp := (Response T J).
#[local] Notation does := (does oracle).
#[local] Notation world_ok := (world_ok lane_count).
#[local] Notation cands_ok := (cands_ok lane_count).
Implicit Types (w : World) (r : Resp).

(** The compliance restricts in force, and the calls they allow: [ok pool lane]. *)
Context (rs : list RestrictConstraint) (ok : string -> nat -> Prop).
Context (ok_fallback : forall pool cands wl, fallback_pools app !! pool = Some cands -> wl ∈ cands ->
  (forall rc, rc ∈ rs -> required rc = true -> satisfies (members <$> pool_runtime app !! pool) rc wl = true) ->
  ok pool (idx wl)).

(** A walk that started with the lanes of [X] excluded. *)
Record walked (X : gset nat) r (evs : list Event) : Prop := {
  wa_permits : forall l, permit_balance l evs = response_permit l r;
  wa_sends : fresh_sends X (sent evs);
  wa_allowed : Forall (fun s => ok s.1.2 s.2) (sent evs);
  wa_charged : (charges evs = [] /\ forall s b, r <> Streaming s b)
    \/ exists s, last (sent evs) = Some s /\ charged s.2 r evs;
  wa_uncharged : uncharged r = true -> charges evs = [];
  wa_stream : match r with
              | Streaming _ b => exists p, live p b b /\ (body_lane b < lane_count)%nat /\ cfg_valid (body_cfg b)
              | _ => True
              end;
}.

(** Nothing taken, called or charged. *)
Definition idle (evs : list Event) : Prop :=
  (forall l, permit_balance l evs = 0) /\ sent evs = [] /\ charges evs = [].

Lemma idle_nil : idle [].
Proof. done. Qed.

Lemma charged_app i r e evs : charges e = [] -> charged i r evs -> charged i r (e ++ evs).
Proof. intros He. unfold charged. rewrite charges_app, He. by destruct r. Qed.

Lemma last_app_some {A} (l k : list A) x : last k = Some x -> last (l ++ k) = Some x.
Proof. intros Hk. by rewrite last_app, Hk. Qed.

(** A prefix that charged nothing. *)
Lemma walked_app X X' e r evs :
  (forall l, permit_balance l e = 0) -> charges e = [] -> Forall (fun s => ok s.1.2 s.2) (sent e) ->
  (fresh_sends X' (sent evs) -> fresh_sends X (sent e ++ sent evs)) ->
  walked X' r evs -> walked X r (e ++ evs).
Proof.
  intros Hp Hc Hs Hf [Hp' Hs' Ha' Hc' Hu' Hst']. split.
  - intros l. by rewrite permit_balance_app, Hp, Z.add_0_l.
  - rewrite sent_app. by apply Hf.
  - rewrite sent_app. by apply Forall_app_2.
  - destruct Hc' as [[Hc' Hn]|(s & Hl & Hch)]; [left; by rewrite charges_app, Hc, Hc'|right].
    exists s. rewrite sent_app. split; [by apply last_app_some|by apply charged_app].
  - intros Hu. by rewrite charges_app, Hc, Hu'.
  - done.
Qed.

Lemma walked_idle X X' e r evs : idle e -> X ⊆ X' -> walked X' r evs -> walked X r (e ++ evs).
Proof.
  intros (Hp & Hs & Hc) HX. apply walked_app; [done|done|by rewrite Hs; constructor|].
  rewrite Hs. apply fresh_sends_mono. done.
Qed.

Lemma walked_failed_over X X' e0 e1 pool i p r evs :
  (forall l, permit_balance l e0 = own i p l) -> sent e0 = [] -> charges e0 = [] ->
  answered i p (Gone (T := T) (J := J)) e1 -> sent e1 = [(false, pool, i)] -> charges e1 = [] ->
  ok pool i -> i ∉ X -> {[i]} ∪ X ⊆ X' ->
  walked X' r evs -> walked X r (e0 ++ e1 ++ evs).
Proof.
  intros Hp0 Hs0 Hc0 Ha Hs1 Hc1 Hok Hi HX Hw. rewrite app_assoc. eapply walked_app; [..|exact Hw].
  - intros l. rewrite permit_balance_app, Hp0, (an_permits _ _ _ _ Ha). simpl. lia.
  - by rewrite charges_app, Hc0.
  - rewrite sent_app, Hs0, Hs1. by repeat constructor.
  - intros Hf. rewrite sent_app, Hs0, Hs1. split; [done|]. by eapply fresh_sends_mono.
Qed.

(** The attempt that answered, as a last resort or not. *)
Lemma walked_answered X e0 e1 last pool i p r :
  (forall l, permit_balance l e0 = own i p l) -> sent e0 = [] -> charges e0 = [] ->
  answered i p r e1 -> called (last, pool, i) r e1 ->
  ok pool i -> last = true \/ i ∉ X -> (i < lane_count)%nat -> walked X r (e0 ++ e1).
Proof.
  intros Hp0 Hs0 Hc0 [Hp Hc Hu Hst Hn] Hs1 Hok Hi Hl. split.
  - intros l. rewrite permit_balance_app, Hp0, Hp. lia.
  - rewrite sent_app, Hs0. destruct Hs1 as [-> |[-> _]]; [|done]. destruct last; [done|].
    destruct Hi as [|Hi]; [done|]. by split.
  - rewrite sent_app, Hs0. destruct Hs1 as [-> |[-> _]]; by repeat constructor.
  - destruct Hs1 as [Hs1|(Hs1 & Hc1 & Hr)].
    + right. exists (last, pool, i). rewrite sent_app, Hs0, Hs1. split; [done|]. by apply charged_app.
    + left. by rewrite charges_app, Hc0.
  - intros Hun. by rewrite charges_app, Hc0, Hu.
  - destruct r; try done. destruct Hst as (Hlv & Hbl & Hcfg). exists p. by rewrite Hbl.
Qed.

(** A last resort that could not be reached, and the shed answer after it. *)
Lemma walked_shed X e0 e1 e2 last pool i p r :
  (forall l, permit_balance l e0 = own i p l) -> sent e0 = [] -> charges e0 = [] ->
  answered i p (Gone (T := T) (J := J)) e1 -> sent e1 = [(last, pool, i)] -> charges e1 = [] ->
  idle e2 -> (forall s b, r <> Streaming s b) ->
  ok pool i -> last = true \/ i ∉ X -> walked X r (e0 ++ e1 ++ e2).
Proof.
  intros Hp0 Hs0 Hc0 Ha Hs1 Hc1 (Hp2 & Hs2 & Hc2) Hr Hok Hi.
  assert (Hc : charges (e0 ++ e1 ++ e2) = []) by (by rewrite !charges_app, Hc0, Hc1, Hc2). split.
  - intros l. rewrite !permit_balance_app, Hp0, Hp2, (an_permits _ _ _ _ Ha).
    destruct r; try (by destruct (Hr _ _ eq_refl)); simpl; lia.
  - rewrite !sent_app, Hs0, Hs1, Hs2. destruct last; [done|]. destruct Hi as [|Hi]; [done|]. by split.
  - rewrite !sent_app, Hs0, Hs1, Hs2. by repeat constructor.
  - by left.
  - done.
  - destruct r; try done. by destruct (Hr _ _ eq_refl).
Qed.

Lemma walked_nothing X r : (forall s b, r <> Streaming s b) -> walked X r [].
Proof.
  intros Hr. split; try done.
  - intros l. destruct r; try done. by destruct (Hr _ _ eq_refl).
  - by left.
  - destruct r; try done. by destruct (Hr _ _ eq_refl).
Qed.

Lemma own_took i p l : permit_balance l [Took i p] = own i p l.
Proof. unfold permit_balance, own. simpl. lia. Qed.
Lemma own_admitted pool i p e l : permit_balance l [Admission pool (Some (i, p, e))] = own i p l.
Proof. unfold permit_balance, own. simpl. lia. Qed.

(** ** Status503 *)

Definition lanes_in (cands : list WeightedLane) : Prop := Forall (fun wl => idx wl < lane_count)%nat cands.

Lemma does_cooldowns cands : forall w t pool,
  world_ok w -> lanes_in cands -> does w (genuine_cooldowns oracle cands t pool) (fun _ evs _ => evs = []).
Proof.
  induction cands as [|wl cands IH]; intros w t pool Hw Hc; simpl; [by stop|].
  apply Forall_cons in Hc as [Hi Hc].
  seq does_lane_admissible as adm evs w1 -> Hw1 _. destruct adm.
  - seq does_cooldown_remaining as z evs w2 -> Hw2 _. flatten.
    eapply does_bind; [done|by apply IH|]. intros ? evs w3 -> Hw3 _. by stop.
  - flatten. eapply does_bind; [done|by apply IH|]. intros ? evs w3 -> Hw3 _. by stop.
Qed.

Definition is_503 r : Prop := exists ra, r = Error_response false 503 KIND_OVERLOADED (Some ra) /\ 1 <= ra.

Lemma is_503_response r : is_503 r -> forall s b, r <> Streaming s b.
Proof. by intros (ra & -> & _). Qed.

Lemma does_status_503 w cands t pool :
  world_ok w -> lanes_in cands ->
  does w (handle_status_503 oracle cands t pool) (fun r evs _ => evs = [] /\ is_503 r).
Proof.
  intros Hw Hc. unfold handle_status_503, retry_after_secs.
  seq does_cooldowns as cs evs w1 -> Hw1 _. stop. split; [done|]. eexists. split; [done|]. lia.
Qed.

Lemma does_shed w cands pool :
  world_ok w -> lanes_in cands -> does w (shed oracle cands pool) (fun r evs _ => evs = [] /\ is_503 r).
Proof.
  intros Hw Hc. unfold shed. seq does_now as t evs w1 [-> _] Hw1 _. by apply does_status_503.
Qed.

(** ** LeastBad *)

Lemma does_admissible_members cands : forall w,
  world_ok w -> lanes_in cands ->
  does w (admissible_members oracle cands) (fun ls evs _ => evs = [] /\ forall i, i ∈ ls -> i ∈ idx <$> cands).
Proof.
  induction cands as [|wl cands IH]; intros w Hw Hc; simpl; [by stop|].
  apply Forall_cons in Hc as [Hi Hc]. seq does_lane_admissible as adm evs w1 -> Hw1 _.
  eapply does_bind; [done|by apply IH|]. intros ls evs w2 [-> Hls] Hw2 _. stop. split; [done|].
  destruct adm; set_solver.
Qed.

Lemma does_rank ls : forall w t pool,
  world_ok w -> Forall (fun i => i < lane_count)%nat ls ->
  does w (rank oracle ls t pool) (fun rk evs _ => evs = [] /\ rk.*2 = ls).
Proof.
  induction ls as [|i ls IH]; intros w t pool Hw Hc; simpl; [by stop|].
  apply Forall_cons in Hc as [Hi Hc]. seq does_cooldown_remaining as z evs w1 -> Hw1 _.
  eapply does_bind; [done|by apply IH|]. intros rk evs w2 [-> Hrk] Hw2 _. stop. split; [done|].
  csimpl. by rewrite Hrk.
Qed.

Lemma does_first_free rk : forall w,
  world_ok w -> Forall (fun i => i < lane_count)%nat rk.*2 ->
  does w (first_free oracle rk) (fun got evs _ =>
    match got with Some (i, p) => i ∈ rk.*2 /\ evs = [Took i p] | None => evs = [] end).
Proof.
  induction rk as [|[k i] rk IH]; intros w Hw Hc; simpl; [by stop|].
  apply Forall_cons in Hc as [Hi Hc]. seq does_try_acquire as got evs w1 -> Hw1 _.
  destruct got as [p|].
  - stop. split; [by left|done].
  - eapply does_weaken; [by apply IH|]. intros [[j p]|] evs w2; simpl; [|done].
    intros [Hj ->]. split; [by right|done].
Qed.

Lemma cand_lane cands i : lanes_in cands -> i ∈ idx <$> cands -> (i < lane_count)%nat.
Proof. intros Hc Hi. apply list_elem_of_fmap in Hi as (wl & -> & Hin). exact (proj1 (Forall_forall _ _) Hc _ Hin). Qed.

Lemma does_least_bad w cands t ctx pool :
  world_ok w -> lanes_in cands -> (forall i, i ∈ idx <$> cands -> ok pool i) ->
  does w (handle_least_bad oracle app rq cands t ctx pool) (fun r evs _ => walked (excluded ctx) r evs).
Proof.
  intros Hw Hc Hok. unfold handle_least_bad.
  seq does_admissible_members as ls evs w1 [-> Hls] Hw1 _.
  assert (Hin : Forall (fun i => i < lane_count)%nat ls).
  { apply Forall_forall. intros i Hi. by eapply cand_lane, Hls. }
  seq does_rank as rk evs w2 [-> Hrk] Hw2 _.
  assert (Hsort : forall i, i ∈ (sort_by_key rk).*2 -> i ∈ ls).
  { intros i (x & -> & Hx)%list_elem_of_fmap. rewrite sort_by_key_elem in Hx. rewrite <- Hrk.
    by apply list_elem_of_fmap_2. }
  eapply does_bind; [done|apply does_first_free; [done|]|].
  { apply Forall_forall. intros i Hi. eapply Forall_forall in Hin; [exact Hin|by apply Hsort]. }
  intros got evs w3 Hgot Hw3 _. destruct got as [[i p]|].
  2: { subst evs. eapply does_weaken; [by apply does_status_503|]. intros r evs w4 [-> Hr].
       apply walked_nothing. by apply is_503_response. }
  destruct Hgot as [Hi%Hsort%Hls ->]. pose proof (cand_lane _ _ Hc Hi) as Hil.
  seq does_forward_once as res evs w4 [Hres _] Hw4 _. destruct res as [r|].
  - stop. rewrite app_nil_r. cbn [Datatypes.app]. destruct Hres as [Ha Hs].
    apply (walked_answered _ [Took i p] evs true pool i p r); try done; [apply own_took|by apply Hok|by left].
  - eapply does_weaken; [by apply does_status_503|]. intros r evs5 w5 [-> Hr]. cbn [Datatypes.app].
    destruct Hres as (Ha & Hs & Hch).
    eapply (walked_shed _ [Took i p] evs [] true pool i p r); try done;
      [apply own_took|by apply is_503_response|by apply Hok|by left].
Qed.

(** ** Queue *)

Lemma does_with_semaphores ls : forall w,
  world_ok w -> Forall (fun i => i < lane_count)%nat ls ->
  does w (with_semaphores oracle ls) (fun sems evs _ => evs = [] /\ forall i, i ∈ sems -> i ∈ ls).
Proof.
  induction ls as [|i ls IH]; intros w Hw Hc; simpl; [by stop|].
  apply Forall_cons in Hc as [Hi Hc]. seq does_lane_semaphore as sm evs w1 -> Hw1 _.
  eapply does_bind; [done|by apply IH|]. intros sems evs w2 [-> Hs] Hw2 _. stop. split; [done|].
  destruct sm; set_solver.
Qed.

Lemma does_wait w ms sems :
  world_ok w -> Forall (fun i => i < lane_count)%nat sems ->
  does w (wait_for_permit oracle ms sems) (fun got evs _ =>
    match got with Won i p => i ∈ sems /\ evs = [Took i p] | _ => evs = [] end).
Proof.
  intros Hw Hs. unfold wait_for_permit. seq does_ask as e evs w1 [-> _] Hw1 _.
  destruct e as [[[i|] after]|]; [|stop; by destruct (after <? ms)|by stop].
  destruct (after <? ms); simpl; [|by stop]. case_bool_decide as Hi; [|by stop].
  eapply Forall_forall in Hs; [|exact Hi].
  seq does_try_acquire as got evs w2 -> Hw2 _. stop. by destruct got.
Qed.

Lemma idle_readmission i p pool (res : Result Z Unavailable) :
  idle ([Took i p] ++ [Readmission pool i (match res with Ok e => Some e | Err _ => None end)] ++ [Gave i p]).
Proof. split; [|done]. intros l. unfold permit_balance. simpl. destruct (Nat.eqb i l); lia. Qed.

Lemma does_queue_loop fuel : forall w ms ls cands ctx pool,
  world_ok w -> lanes_in cands -> (forall i, i ∈ ls -> i ∈ idx <$> cands) ->
  (forall i, i ∈ idx <$> cands -> ok pool i) -> (length ls < fuel)%nat ->
  does w (queue_loop oracle app rq fuel ms ls cands ctx pool) (fun r evs _ => walked (excluded ctx) r evs).
Proof.
  induction fuel as [|fuel IH]; intros w ms ls cands ctx pool Hw Hc Hls Hok Hf; [lia|]. cbn [queue_loop].
  assert (Hshed : forall w, world_ok w ->
    does w (shed oracle cands pool) (fun r evs _ => walked (excluded ctx) r evs)).
  { intros w0 Hw0. eapply does_weaken; [by apply does_shed|]. intros r evs w' [-> Hr].
    apply walked_nothing. by apply is_503_response. }
  assert (Hlanes : Forall (fun i => i < lane_count)%nat ls).
  { apply Forall_forall. intros i Hi. by eapply cand_lane, Hls. }
  seq does_with_semaphores as sems evs w1 [-> Hsems] Hw1 _. cbn [Datatypes.app].
  destruct sems as [|sm sems']; [by apply Hshed|]. set (sems := sm :: sems') in *.
  seq does_await as gone evs w2 -> Hw2 _. destruct gone; [stop; by apply walked_nothing|].
  eapply does_bind; [done|apply does_wait; [done|]|].
  { apply Forall_forall. intros i Hi. eapply Forall_forall in Hlanes; [exact Hlanes|by apply Hsems]. }
  intros waited evs w3 Hwait Hw3 _. destruct waited as [| |i p]; [subst evs; by apply Hshed..|].
  destruct Hwait as [Hi ->]. pose proof (Hls _ (Hsems _ Hi)) as Hic. pose proof (cand_lane _ _ Hc Hic) as Hil.
  seq does_try_admit_breaker as adm evs w4 -> Hw4 _. destruct adm as [epoch|u].
  - seq does_now as t evs w5 [-> _] Hw5 _. seq does_forward_once as res evs w6 [Hres _] Hw6 _.
    assert (Hown : forall l, permit_balance l ([Took i p] ++ [Readmission pool i (Some epoch)]) = own i p l).
    { intros l. rewrite permit_balance_app, own_took. unfold permit_balance. simpl. lia. }
    destruct res as [r|].
    + stop. rewrite app_nil_r. destruct Hres as [Ha Hs].
      apply (walked_answered _ ([Took i p] ++ [Readmission pool i (Some epoch)]) evs true pool i p r); try done;
        [by apply Hok|by left].
    + eapply does_weaken; [by apply does_shed|]. intros r evs7 w7 [-> Hr].
      destruct Hres as (Ha & Hs & Hch).
      apply (walked_shed _ ([Took i p] ++ [Readmission pool i (Some epoch)]) evs [] true pool i p r); try done;
        [by apply is_503_response|by apply Hok|by left].
  - seq does_drop_permit as ? evs w5 -> Hw5 _.
    assert (Hrest : forall r evs, walked (excluded ctx) r evs -> walked (excluded ctx) r
      ([] ++ [] ++ [Took i p] ++ [Readmission pool i None] ++ [Gave i p] ++ evs)).
    { intros r evs Hr. pose proof (idle_readmission i p pool (Err u)) as Hid.
      apply (walked_idle _ (excluded ctx) _ r evs Hid ltac:(done) Hr). }
    set (ls' := filter (fun l => l <> i) ls).
    assert (Hlen : (length ls' < fuel)%nat).
    { pose proof (length_filter_lt (fun l => l <> i) ls i (Hsems _ Hi)) as Hlt.
      unfold ls'. assert (~ i <> i) as Hni by congruence. specialize (Hlt Hni). lia. }
    destruct ls' as [|l0 ls0] eqn:Els.
    + eapply does_weaken; [by apply does_shed|]. intros r evs w6 [-> Hr]. apply Hrest.
      apply walked_nothing. by apply is_503_response.
    + rewrite <- Els in *. eapply does_weaken; [apply IH; [done|done| |done|done]|].
      { intros l Hl. apply list_elem_of_filter in Hl as [_ Hl]. by apply Hls. }
      intros r evs w6 Hr. by apply Hrest.
Qed.

(** ** The rest of the loop *)

(** The reasons the context holds are about these candidates. *)
Definition reasons_of (cands : list WeightedLane) (ctx : RequestCtx) : Prop :=
  forall i, i ∈ (excluded_reasons ctx).*1 -> i ∈ idx <$> cands.

Lemma picked_reasons cands ctx ctx' :
  reasons_grow cands (set_reasons [] ctx) ctx' -> reasons_of cands ctx'
    /\ ctx' = set_reasons (excluded_reasons ctx') ctx.
Proof.
  intros (rs' & -> & Hf). split; [|by destruct ctx]. intros i Hi. simpl in Hi.
  apply list_elem_of_fmap in Hi as (x & -> & Hx). eapply Forall_forall in Hf; [|exact Hx].
  destruct Hf as (wl & Hin & <- & _). by apply list_elem_of_fmap_2.
Qed.

Lemma does_handle_queue w ms cands ctx pool :
  world_ok w -> lanes_in cands -> reasons_of cands ctx -> (forall i, i ∈ idx <$> cands -> ok pool i) ->
  does w (handle_queue oracle app rq cands ms ctx pool) (fun r evs _ => walked (excluded ctx) r evs).
Proof.
  intros Hw Hc Hr Hok. unfold handle_queue.
  assert (Hls : forall i, i ∈ at_cap_lanes (excluded_reasons ctx) -> i ∈ idx <$> cands)
    by (intros i Hi; by apply Hr, at_cap_lanes_in).
  destruct (at_cap_lanes (excluded_reasons ctx)) as [|l ls] eqn:E.
  - eapply does_weaken; [by apply does_shed|]. intros r evs w' [-> Hr'].
    apply walked_nothing. by apply is_503_response.
  - rewrite <- E in *. clear E. seq does_ask as wall evs w1 [-> _] Hw1 _. cbn [Datatypes.app].
    apply does_queue_loop; try done. lia.
Qed.

(** ** Fallback pools *)

(** What an exhaustion handler owes, for these candidates and visited pools. *)
Definition handles (exhausted : list WeightedLane -> Z -> string -> RequestCtx -> Engine SemT Resp)
    (cands : list WeightedLane) (pool : string) (visited : gset string) : Prop :=
  forall w t ctx, world_ok w -> reasons_of cands ctx -> active_restricts ctx = rs -> visited_pools ctx = visited ->
    does w (exhausted cands t pool ctx) (fun r evs _ => walked (excluded ctx) r evs).

Lemma picked_lane cands ctx pool i p e h :
  pick_sound (SemT := SemT) pool cands ctx (Some (i, p, e)) h ->
  exists wl, wl ∈ cands /\ idx wl = i /\ i ∉ excluded ctx.
Proof. intros (_ & wl & Hin & Hi & _ & Hx). by exists wl. Qed.

Lemma fill_exclude ctx cands wl :
  wl ∈ cands -> idx wl ∉ excluded ctx ->
  (length (fill_candidates (exclude (idx wl) ctx) cands) < length (fill_candidates ctx cands))%nat.
Proof.
  intros Hin Hx. unfold fill_candidates, exclude. simpl.
  assert (He : filter (fun x => idx x ∉ {[idx wl]} ∪ excluded ctx) cands
             = filter (fun x => idx x <> idx wl) (filter (fun x => idx x ∉ excluded ctx) cands)).
  { clear Hin. induction cands as [|c cands IH]; [done|]. rewrite !filter_cons.
    destruct (decide (idx c ∉ excluded ctx)) as [Hc|Hc].
    - rewrite filter_cons. destruct (decide (idx c <> idx wl)).
      + rewrite decide_True by set_solver. by rewrite IH.
      + rewrite decide_False by set_solver. done.
    - rewrite decide_False by set_solver. done. }
  rewrite He. eapply length_filter_lt with wl; [|naive_solver].
  apply list_elem_of_filter. by split.
Qed.

Lemma timed_out_walked X : walked X timed_out [].
Proof. by apply walked_nothing. Qed.

Lemma does_fallback_loop exhausted cands pool V fuel : forall w ctx,
  world_ok w -> cands_ok cands -> (forall i, i ∈ idx <$> cands -> ok pool i) ->
  handles exhausted cands pool V -> active_restricts ctx = rs -> visited_pools ctx = V ->
  (length (fill_candidates ctx cands) < fuel)%nat ->
  does w (fallback_loop oracle app rq fuel exhausted cands pool ctx) (fun r evs _ => walked (excluded ctx) r evs).
Proof.
  induction fuel as [|fuel IH]; intros w ctx Hw Hc Hok Hex Hrs HV Hf; [lia|]. cbn [fallback_loop].
  seq does_now as t evs w1 [-> _] Hw1 _. cbn [Datatypes.app].
  destruct (expired ctx t); [stop; apply timed_out_walked|].
  seq does_pick_among as [picked ctx1] evs w2 Hpick Hw2 _. destruct Hpick as (-> & Hg & Hsound).
  apply picked_reasons in Hg as [Hreasons Hctx].
  assert (Hexc : excluded ctx1 = excluded ctx) by (by rewrite Hctx).
  destruct picked as [[[i p] e]|].
  - destruct (picked_lane _ _ _ _ _ _ _ Hsound) as (wl & Hin & <- & Hx).
    assert (Hi : idx wl ∈ idx <$> cands) by (by apply list_elem_of_fmap_2).
    pose proof (cand_lane _ _ (proj2 Hc) Hi) as Hil.
    seq does_now as t2 evs w3 [-> _] Hw3 _. seq does_forward_once as res evs w4 [Hres _] Hw4 _.
    destruct res as [r|].
    + stop. rewrite app_nil_r. cbn [Datatypes.app]. destruct Hres as [Ha Hs].
      apply (walked_answered _ [Admission pool (Some (idx wl, p, e))] evs false pool (idx wl) p r); try done;
        [apply own_admitted|by apply Hok|by right].
    + destruct Hres as (Ha & Hs & Hch).
      eapply does_weaken; [apply (IH w4 (exclude (idx wl) ctx1)); try done|].
      * by rewrite Hctx.
      * by rewrite Hctx.
      * rewrite Hctx. pose proof (fill_exclude ctx cands wl Hin Hx) as Hlt.
        change (fill_candidates (exclude (idx wl) (set_reasons (excluded_reasons ctx1) ctx)) cands)
          with (fill_candidates (exclude (idx wl) ctx) cands). lia.
      * intros r evs5 w5 Hr. cbn [Datatypes.app].
        eapply (walked_failed_over (excluded ctx) _ [Admission pool (Some (idx wl, p, e))] evs pool (idx wl) p r);
          [apply own_admitted|done|done|done|done|done|by apply Hok|done| |exact Hr].
        simpl. by rewrite Hexc.
  - seq does_now as t2 evs w3 [-> _] Hw3 _. cbn [Datatypes.app].
    eapply does_weaken; [apply Hex; [done|done|by rewrite Hctx|by rewrite Hctx]|].
    intros r evs4 w4 Hr. rewrite Hexc in Hr.
    apply (walked_idle _ (excluded ctx) [Admission pool None] r evs4); [by split|done|done].
Qed.

Lemma not_excluded_total excl cands :
  cands_ok cands -> exists out, not_excluded app excl cands = Some out /\ out `sublist_of` cands.
Proof.
  intros [_ Hc]. unfold not_excluded. destruct excl as [names|]; [|by exists cands].
  induction Hc as [|wl cands Hi Hc IH]; simpl; [by exists []|].
  destruct IH as (out & -> & Hs). simpl. destruct (app_lane _ _ Happ _ Hi) as [l ->]. simpl.
  case_match; eexists; (split; [done|]); by constructor.
Qed.

Lemma cands_sublist cands out : cands_ok cands -> out `sublist_of` cands -> cands_ok out.
Proof.
  intros [Hnd Hc] Hs. split.
  - eapply sublist_NoDup; [exact Hnd|]. by apply sublist_fmap.
  - apply Forall_forall. intros wl Hin. eapply Forall_forall in Hc; [exact Hc|]. by eapply elem_of_sublist.
Qed.

Lemma does_fallback_pool exhausted w pool ctx :
  world_ok w -> active_restricts ctx = rs ->
  (forall cands V, cands_ok cands -> (forall i, i ∈ idx <$> cands -> ok pool i) ->
     pool ∉ visited_pools ctx -> is_Some (fallback_pools app !! pool) -> V = {[pool]} ∪ visited_pools ctx ->
     handles exhausted cands pool V) ->
  does w (handle_fallback_pool oracle app rq exhausted pool ctx) (fun r evs _ => walked (excluded ctx) r evs).
Proof.
  intros Hw Hrs Hex. unfold handle_fallback_pool. seq does_now as t evs w1 [-> _] Hw1 _. cbn [Datatypes.app].
  assert (Hshed : does w1 (shed oracle [] pool) (fun r evs _ => walked (excluded ctx) r evs)).
  { eapply does_weaken; [apply does_shed; [done|constructor]|]. intros r evs w' [-> Hr].
    apply walked_nothing. by apply is_503_response. }
  destruct (expired ctx t); [stop; apply timed_out_walked|].
  unfold is_pool_visited. case_bool_decide as Hv; [done|].
  destruct (fallback_pools app !! pool) as [cands|] eqn:Ef; [|done].
  pose proof (apply_restricts_spec (members <$> pool_runtime app !! pool) (active_restricts ctx) cands) as Hspec.
  pose proof (apply_restricts_sublist (members <$> pool_runtime app !! pool) (active_restricts ctx) cands) as Hsub.
  unfold enforce_restricts. rewrite lookup_fmap.
  destruct (apply_restricts _ _ cands) as [kept|name]; [|stop; by apply walked_nothing].
  destruct Hspec as (Hin & _ & _). specialize (Hsub kept eq_refl).
  pose proof (cands_sublist _ _ (ap_fallback _ _ Happ _ _ Ef) Hsub) as Hkept.
  destruct (not_excluded_total (pool_failover app pool ≫= exclusions) kept Hkept) as (out & Hne & Hout).
  seq does_of_option as ? evs w2 [-> ->] Hw2 _. cbn [Datatypes.app].
  pose proof (cands_sublist _ _ Hkept Hout) as Hok.
  assert (Hallowed : forall i, i ∈ idx <$> out -> ok pool i).
  { intros i (wl & -> & Hi)%list_elem_of_fmap. destruct (Hin wl (elem_of_sublist _ _ _ Hi Hout)) as [Hc Hr].
    eapply ok_fallback; [exact Ef|exact Hc|]. intros rc Hrc. rewrite <- Hrs in Hrc. by apply Hr. }
  eapply does_weaken.
  - eapply does_fallback_loop with (ctx := mark_pool_visited pool ctx); [done|done|done| |done|reflexivity|].
    + eapply Hex; [done|done|done|by eexists|done].
    + unfold fill_candidates. pose proof (length_filter (fun wl => idx wl ∉ excluded (mark_pool_visited pool ctx)) out).
      lia.
  - intros r evs w' Hr. done.
Qed.

(** The configured fallback pools a request has not been through. *)
Definition unvisited (V : gset string) : nat := size (dom (fallback_pools app) ∖ V).

Lemma does_exhaustion fuel : forall cands pool V,
  cands_ok cands -> (forall i, i ∈ idx <$> cands -> ok pool i) -> (unvisited V < fuel)%nat ->
  handles (handle_exhaustion_for_pool oracle app rq fuel) cands pool V.
Proof.
  induction fuel as [|fuel IH]; intros cands pool V Hc Hok Hf; [lia|].
  intros w t ctx Hw Hr Hrs HV. cbn [handle_exhaustion_for_pool].
  destruct (default Status503 (on_exhausted_cfgs app !! pool)) as [|fallback| |ms].
  - eapply does_weaken; [by apply does_status_503; [|apply Hc]|]. intros r evs w' [-> Hr'].
    apply walked_nothing. by apply is_503_response.
  - eapply does_weaken; [apply does_fallback_pool with (ctx := mark_pool_visited pool ctx); [done|done|]|].
    + intros cands' V' Hc' Hok' Hnv [c Hdom] ->. apply IH; [done|done|]. simpl in Hnv |- *. rewrite HV in Hnv |- *.
      assert (Hlt : (unvisited ({[fallback]} ∪ ({[pool]} ∪ V)) < unvisited V)%nat); [|lia].
      unfold unvisited. apply subset_size. split; [set_solver|]. intros Hsub.
      assert (fallback ∈ dom (fallback_pools app)) by (apply elem_of_dom; by exists c). set_solver.
    + intros r evs w' Hr'. done.
  - eapply does_weaken; [apply does_least_bad; [done|apply Hc|done]|]. done.
  - eapply does_weaken; [apply does_handle_queue; [done|apply Hc|done|done]|]. done.
Qed.

(** ** The failover loop *)

Lemma unvisited_all V : (unvisited V < exhaustion_fuel app)%nat.
Proof.
  unfold exhaustion_fuel, unvisited. apply Nat.lt_succ_r. apply subseteq_size. set_solver.
Qed.

Lemma does_attempt_loop cands hash order pool n : forall w ctx,
  world_ok w -> cands_ok cands -> (forall i, i ∈ idx <$> cands -> ok pool i) ->
  active_restricts ctx = rs -> reasons_of cands ctx ->
  does w (attempt_loop parse_http_date oracle app rq n cands hash order pool ctx)
    (fun r evs _ => walked (excluded ctx) r evs).
Proof.
  induction n as [|n IH]; intros w ctx Hw Hc Hok Hrs Hreas; simpl.
  { seq does_now as t evs w1 [-> _] Hw1 _.
    by apply (does_exhaustion _ cands pool (visited_pools ctx) Hc Hok (unvisited_all _)). }
  seq does_now as t evs w1 [-> _] Hw1 _. cbn [Datatypes.app].
  destruct (expired ctx t); [stop; apply timed_out_walked|].
  seq does_pick_among as [picked ctx1] evs w2 Hpick Hw2 _. destruct Hpick as (-> & Hg & Hsound).
  apply picked_reasons in Hg as [Hreasons Hctx].
  assert (Hexc : excluded ctx1 = excluded ctx) by (by rewrite Hctx).
  destruct picked as [[[i p] e]|].
  - destruct (picked_lane _ _ _ _ _ _ _ Hsound) as (wl & Hin & <- & Hx).
    assert (Hi : idx wl ∈ idx <$> cands) by (by apply list_elem_of_fmap_2).
    pose proof (cand_lane _ _ (proj2 Hc) Hi) as Hil. pose proof (proj2 Hc) as Hcl.
    seq does_attempt as [step ctx2] evs w3 Hstep Hw3 _. destruct Hstep as ((X & Hctx2 & HX) & Hres & _).
    simpl in Hctx2, Hres, HX. destruct step as [why|r].
    + destruct Hres as (Ha & Hs & Hch).
      eapply does_weaken; [apply (IH w3 ctx2); [done|done|done|by rewrite Hctx2, Hctx|]|].
      { unfold reasons_of. rewrite Hctx2. exact Hreasons. }
      intros r evs4 w4 Hr.
      eapply (walked_failed_over (excluded ctx) _ [Admission pool (Some (idx wl, p, e))] evs pool (idx wl) p r);
        [apply own_admitted|done|done|done|done|done|by apply Hok|done| |exact Hr].
      rewrite Hctx2. simpl. by rewrite <- Hexc.
    + stop. rewrite app_nil_r. destruct Hres as [Ha Hs].
      apply (walked_answered _ [Admission pool (Some (idx wl, p, e))] evs false pool (idx wl) p r); try done;
        [apply own_admitted|by apply Hok|by right].
  - assert (Hid : idle [Admission pool None]) by by split.
    assert (Hempty : does w2 (ret (ingress_error 503 KIND_OVERLOADED)) (fun r evs _ =>
      walked (excluded ctx) r ([Admission pool None] ++ evs))).
    { stop. apply (walked_idle _ (excluded ctx) _ _ [] Hid); [done|]. by apply walked_nothing. }
    destruct cands as [|c cands']; [exact Hempty|]. set (cands := c :: cands') in *.
    seq does_now as t2 evs w3 [-> _] Hw3 _. cbn [Datatypes.app].
    eapply does_weaken; [apply (does_exhaustion _ cands pool (visited_pools ctx1) Hc Hok (unvisited_all _));
      [done|done|by rewrite Hctx|done]|].
    intros r evs4 w4 Hr. rewrite Hexc in Hr. by apply (walked_idle _ (excluded ctx) _ _ _ Hid).
Qed.

Lemma supported_total cands :
  cands_ok cands -> exists res, supported_cands (T := T) (J := J) app cands = Some res
    /\ forall out, res = Ok out -> out `sublist_of` cands.
Proof.
  intros [_ Hc]. unfold supported_cands.
  match goal with |- context [foldr ?f _ cands] =>
    assert (exists kept, foldr f (Some []) cands = Some kept /\ kept `sublist_of` cands) as (kept & -> & Hs) end.
  { induction Hc as [|wl cands Hi Hc IH]; simpl; [by exists []|].
    destruct IH as (out & -> & Hs). simpl. destruct (app_lane _ _ Happ _ Hi) as [l ->]. simpl.
    case_match; eexists; (split; [done|]); by constructor. }
  simpl. eexists. split; [done|]. intros out. case_bool_decide; [by intros [= <-]|].
  destruct kept; [done|]. by intros [= <-].
Qed.
End walk.
