(* ===== verification/RoutingSpec.v ===== *)
(** * RoutingSpec: what the decision seam leaves for the failover loop

    The seam takes nothing from the store and calls nobody; it only narrows the candidates, and every
    restrict it heard is on record when the loop starts. *)

From S2P Require Import Prelude Float64 Breaker Json HookWire HookProjection Ranking BreakerFsm HealthState HealthLemmas HealthSpec HealthAdmit SwrrCore Swrr StoreRuns Classifier Bytes Selection SelectionSpec SelectionPick Ledger CostModel Governance GovStore HookPolicy LaneFrame Request ResponseBody Forward Walk ForwardLogic Routing ResponseSpec ForwardSpec WalkSpec.

#[local] Open Scope Z_scope.

(** ** Restricts *)

(** The restricts among the outcomes, as they are recorded. *)
Definition restricts_of (outcomes : list PolicyOutcome) : list RestrictConstraint :=
  omap (fun o => match o with PO_Restrict tags name on_empty => Some (mkRestrict tags on_empty name) | _ => None end)
    outcomes.

Definition push_restricts (rs : list RestrictConstraint) (ctx : RequestCtx) : RequestCtx :=
  foldl (fun c rc => push_restrict rc c) ctx rs.

Lemma push_restricts_restricts rs : forall ctx, active_restricts (push_restricts rs ctx) = active_restricts ctx ++ rs.
Proof.
  induction rs as [|rc rs IH]; intros ctx; simpl; [by rewrite app_nil_r|]. rewrite IH. simpl. by rewrite <- app_assoc.
Qed.

Lemma push_restricts_rest rs : forall ctx, excluded (push_restricts rs ctx) = excluded ctx
  /\ excluded_reasons (push_restricts rs ctx) = excluded_reasons ctx
  /\ deadline (push_restricts rs ctx) = deadline ctx.
Proof. induction rs as [|rc rs IH]; intros ctx; simpl; [done|]. by destruct (IH (push_restrict rc ctx)) as (-> & -> & ->). Qed.

(** The seam enforces restricts as the fallback pools do. *)
Lemma reconcile_restricts_apply members outcomes : forall cands ctx,
  reconcile_restricts members outcomes cands ctx
  = match apply_restricts members (restricts_of outcomes) cands with
    | Ok out => Ok (out, push_restricts (restricts_of outcomes) ctx)
    | Err _ => Err tt
    end.
Proof.
  induction outcomes as [|o outcomes IH]; intros cands ctx; [done|].
  destruct o; try apply IH. simpl. destruct (restrict_filter _ _ cands); [|apply IH].
  destruct on_empty; [apply IH|done..].
Qed.

(** ** Orders *)

Lemma reconcile_order_surviving surviving outcomes order name :
  reconcile_order surviving outcomes = Some (order, name) -> order <> [] /\ forall i, i ∈ order -> i ∈ surviving.
Proof.
  unfold reconcile_order.
  enough (forall acc, (forall o n, acc = Some (o, n) -> o <> [] /\ forall i, i ∈ o -> i ∈ surviving) ->
    foldl (fun acc outcome => match outcome with
           | PO_Order order name => match filter (fun i => i ∈ surviving) order with
                                    | [] => None | filtered => Some (filtered, name) end
           | _ => acc end) acc outcomes = Some (order, name) ->
    order <> [] /\ forall i, i ∈ order -> i ∈ surviving) as Hg by by apply Hg.
  induction outcomes as [|o outcomes IH]; intros acc Hacc; simpl; [by apply Hacc|]. apply IH.
  destruct o; try done. destruct (filter _ order0) as [|x l] eqn:E; [done|]. intros o n [= <- <-].
  split; [done|]. intros i Hi. rewrite <- E in Hi. by apply list_elem_of_filter in Hi as [? _].
Qed.

(** ** Outcomes *)

(** What an outcome may name: candidates, each once; a 4xx and a message fit to be shown. *)
Definition outcome_sound (lanes : list nat) (o : PolicyOutcome) : Prop :=
  match o with
  | PO_Order order _ => forall i, i ∈ order -> i ∈ lanes
  | PO_RejectRequest status _ _ => 400 <= status <= 499
  | _ => True
  end.

Lemma map_decision_sound d name candidates on_empty :
  outcome_sound (cand_idx <$> candidates) (map_decision d name candidates on_empty).
Proof.
  destruct d; simpl; try done; [|apply clamp_is_4xx].
  destruct (from_ranked order (candidate_set candidates)) as [o| | |] eqn:E; try done.
  apply from_ranked_order in E as (_ & _ & Hin). simpl. intros i [_ Hi]%Hin.
  by apply elem_of_list_to_set in Hi.
Qed.

Lemma coerce_sound on_error candidates name :
  outcome_sound (cand_idx <$> candidates) (coerce_on_error on_error candidates name).
Proof. destruct on_error; [done|done|by intros i]. Qed.

Section seam.
Context {SemT T J : Type} `{Semaphore SemT} `{StreamTranslate T} `{JsonArrayFramer J} `{ProtocolTable T J}.
Context (parse_http_date : list Ascii.ascii -> option Z).
Context (oracle : nat -> Moment SemT) (oracle_ok : forall k, moment_ok (oracle k)) (lane_count : nat).
Context (hooks : nat -> HookMoment).
Context (app : App) (rq : Req) (Happ : app_ok lane_count app).

#[local] Notation World := (World SemT).
#[local] Notation Resp := (Response T J).
#[local] Notation does := (does oracle).
#[local] Notation world_ok := (world_ok lane_count).
#[local] Notation cands_ok := (cands_ok lane_count).
#[local] Notation found := (found lane_count).
Implicit Types (w : World) (r : Resp).

Lemma does_consult {A} w (f : HookMoment -> A) :
  world_ok w -> does w (consult hooks f) (fun a evs _ => evs = [] /\ exists k, a = f (hooks k)).
Proof.
  intros Hw. do 3 eexists. split; [reflexivity|]; split; [|by eauto].
  destruct (evolves_refl oracle lane_count w Hw) as [Hs Hl Hp Hb]. by split.
Qed.

(** ** Reads *)

(** An access that leaves the store as it is. *)
Lemma does_read {A} w (f : HealthState SemT -> option A) :
  world_ok w -> (forall h, found h -> is_Some (f h)) ->
  does w (access oracle (fun _ h => x ← f h; Some (x, h))) (fun _ evs _ => evs = []).
Proof.
  intros Hw Hf. apply (does_access oracle oracle_ok lane_count); [done|]. intros h Hh.
  destruct (Hf h Hh) as [a Ha]. exists a, h. rewrite Ha. split; [done|]. split; [|done]. apply effect_nil, Hh.
Qed.

Lemma does_lane_latency w i : world_ok w -> (i < lane_count)%nat ->
  does w (do_lane_latency_ms oracle i) (fun _ evs _ => evs = []).
Proof.
  intros Hw Hi. apply (does_read w (fun h => lane_latency_ms h i)); [done|]. intros h Hh.
  destruct (found_lane lane_count h i Hh Hi) as [ls Hl]. unfold lane_latency_ms. rewrite Hl. by eexists.
Qed.

Lemma does_available_permits w i : world_ok w -> (i < lane_count)%nat ->
  does w (do_available_permits oracle i) (fun _ evs _ => evs = []).
Proof.
  intros Hw Hi. apply (does_access oracle oracle_ok lane_count); [done|]. intros h Hh.
  destruct (found_lane lane_count h i Hh Hi) as [ls Hl]. exists (lane_available_permits ls), h.
  unfold get_lane in *. rewrite Hl. split; [done|]. split; [|done]. apply effect_nil, Hh.
Qed.

Lemma does_lane_budget w i : world_ok w -> (i < lane_count)%nat ->
  does w (do_lane_budget_remaining oracle i) (fun _ evs _ => evs = []).
Proof.
  intros Hw Hi. apply (does_read w (fun h => lane_budget_remaining h i)); [done|]. intros h Hh.
  destruct (found_lane lane_count h i Hh Hi) as [ls Hl]. unfold lane_budget_remaining. rewrite Hl. by eexists.
Qed.

(** A read of a cell, which may create it. *)
Lemma cell_read_effect pool i (h : HealthState SemT) :
  found h -> (i < lane_count)%nat ->
  exists cr c h', load_cell pool i h = Some (cr, c, h') /\ effect oracle [] h h'.
Proof.
  intros Hh Hi. destruct (found_lane lane_count h i Hh Hi) as [ls Hl].
  destruct (load_cell_hstep pool i h ls (proj1 Hh) Hl) as (c & h0 & He & _ & _ & _ & _ & Hst).
  do 3 eexists. split; [exact He|]. apply effect_frame; [by constructor|done| |].
  - eapply load_cell_same; [..|exact He]; done.
  - by apply load_cell_probe in He as (_ & _ & ?).
Qed.

Lemma does_breaker_state w pool i : world_ok w -> (i < lane_count)%nat ->
  does w (do_breaker_state oracle pool i) (fun _ evs _ => evs = []).
Proof.
  intros Hw Hi. apply (does_access oracle oracle_ok lane_count); [done|]. intros h Hh.
  destruct (found_lane lane_count h i Hh Hi) as [ls Hl]. unfold breaker_state_for. rewrite Hl. simpl.
  destruct (ls_dead ls); [do 2 eexists; split; [done|]; split; [apply effect_nil, Hh|done]|].
  destruct (cell_read_effect pool i h Hh Hi) as (cr & c & h' & -> & Hef). simpl.
  do 2 eexists. split; [done|]. by split.
Qed.

Lemma does_error_rate w pool i t : world_ok w -> (i < lane_count)%nat ->
  does w (do_error_rate oracle pool i t) (fun _ evs _ => evs = []).
Proof.
  intros Hw Hi. apply (does_access oracle oracle_ok lane_count); [done|]. intros h Hh.
  unfold error_rate_in. destruct (cell_read_effect pool i h Hh Hi) as (cr & c & h' & -> & Hef). simpl.
  case_match; do 2 eexists; (split; [done|]; by split).
Qed.

(** ** The projection *)

Lemma does_signals w pool i t : world_ok w -> (i < lane_count)%nat ->
  does w (candidate_signals oracle app pool i t) (fun _ evs _ => evs = []).
Proof.
  intros Hw Hi. unfold candidate_signals. destruct (wants app CandidateBreakerState); flatten.
  - seq does_breaker_state as s evs w1 -> Hw1 _. flatten. destruct (wants app CandidateErrorRate); flatten.
    + seq does_error_rate as x evs w2 -> Hw2 _. by stop.
    + by stop.
  - destruct (wants app CandidateErrorRate); flatten.
    + seq does_error_rate as x evs w2 -> Hw2 _. by stop.
    + by stop.
Qed.

Lemma does_project w pool headroom t wl : world_ok w -> (idx wl < lane_count)%nat ->
  does w (project_candidate oracle app pool headroom t wl) (fun c evs _ => evs = [] /\ cand_idx c = idx wl).
Proof.
  intros Hw Hi. unfold project_candidate. destruct (app_lane lane_count app Happ _ Hi) as [lane Hl].
  seq does_of_option as ? evs w1 [-> ->] Hw1 _.
  seq does_signals as sg evs w2 -> Hw2 _. seq does_lane_latency as lat evs w3 -> Hw3 _.
  seq does_available_permits as fr evs w4 -> Hw4 _. seq does_lane_budget as bg evs w5 -> Hw5 _. by stop.
Qed.

Lemma does_projects pool headroom t live : forall w,
  world_ok w -> Forall (fun wl => idx wl < lane_count)%nat live ->
  does w (project_candidates oracle app pool headroom t live)
    (fun cs evs _ => evs = [] /\ cand_idx <$> cs = idx <$> live).
Proof.
  induction live as [|wl live IH]; intros w Hw Hl; simpl; [by stop|].
  apply Forall_cons in Hl as [Hi Hl]. seq does_project as c evs w1 [-> Hc] Hw1 _.
  eapply does_bind; [done|by apply IH|]. intros cs evs w2 [-> Hcs] Hw2 _. stop. split; [done|].
  csimpl. by rewrite Hc, Hcs.
Qed.

(** ** One policy *)

Lemma does_ask_policy w p req candidates cx : world_ok w ->
  does w (ask_policy oracle hooks p req candidates cx) (fun d evs _ => evs = []
    /\ forall x, d = Some x -> exists k, x = policy_decide (hm_answer (hooks k)) p req candidates cx).
Proof.
  intros Hw. destruct p as [n|name]; simpl.
  - stop. split; [done|]. intros x [= <-]. by exists 0%nat.
  - seq does_await as gone evs w1 -> Hw1 _. destruct gone; [by stop|].
    seq does_consult as d evs w2 [-> [k ->]] Hw2 _. stop. split; [done|]. intros x [= <-]. by exists k.
Qed.

Lemma does_chain chain : forall w terminal req candidates cx failed, world_ok w ->
  does w (run_on_error_chain oracle hooks chain terminal req candidates cx failed) (fun o evs _ => evs = []
    /\ forall x, o = Some x -> outcome_sound (cand_idx <$> candidates) x
         /\ (chain = [] -> terminal = Reject -> x = PO_Reject)).
Proof.
  induction chain as [|fb chain IH]; intros w terminal req candidates cx failed Hw; simpl.
  { stop. split; [done|]. intros x [= <-]. split; [apply coerce_sound|]. by intros _ ->. }
  seq does_ask_policy as d evs w1 [-> Hd] Hw1 _. destruct d as [[decision|]|].
  - stop. split; [done|]. intros x [= <-]. split; [apply map_decision_sound|done].
  - eapply does_weaken; [by apply IH|]. intros o evs w2 [-> Ho]. split; [done|]. intros x Hx.
    split; [by apply Ho|done].
  - stop. by split.
Qed.

(** The plugin always answers with the same decision. *)
Definition always_answers (name : string) (v : Value) : Prop :=
  forall k req candidates cx, hm_answer (hooks k) name req candidates cx = Replied v.

(** The gate always restricts to the tags. *)
Definition always_restricts (g : ResolvedPolicy) (tags : list string) : Prop :=
  exists name v, rp_policy g = Plugin name /\ always_answers name v
    /\ forall valid, normalize_reply v valid = RD_Restrict tags.

(** The plugin never answers. *)
Definition never_answers (name : string) : Prop :=
  forall k req candidates cx v, hm_answer (hooks k) name req candidates cx <> Replied v.

(** The gate refuses: it always rejects, or it always fails and was declared load-bearing. *)
Definition refuses (g : ResolvedPolicy) : Prop :=
  exists name, rp_policy g = Plugin name
    /\ ((exists v, always_answers name v /\ forall valid, exists status message,
           normalize_reply v valid = RD_Reject status message)
        \/ (never_answers name /\ rp_on_error_chain g = [] /\ rp_on_error g = Reject)).

Definition is_refusal (o : PolicyOutcome) : Prop :=
  match o with PO_Reject | PO_RejectRequest _ _ _ => True | _ => False end.

Lemma does_decide w rp cands ctx v pool gov_key :
  world_ok w -> cands_ok cands ->
  does w (decide_policy_order oracle hooks app rq rp cands ctx v pool gov_key) (fun o evs _ => evs = []
    /\ forall x, o = Some x ->
         outcome_sound (idx <$> fill_candidates ctx cands) x
         /\ (fill_candidates ctx cands <> [] -> forall tags, always_restricts rp tags ->
               x = PO_Restrict tags (policy_name (rp_policy rp)) (rp_on_empty rp))
         /\ (fill_candidates ctx cands <> [] -> refuses rp -> is_refusal x)).
Proof.
  intros Hw Hc. unfold decide_policy_order. destruct (fill_candidates ctx cands) as [|wl live] eqn:El.
  { stop. split; [done|]. intros x [= <-]. by split. }
  assert (Hlive : Forall (fun wl => idx wl < lane_count)%nat (wl :: live)).
  { rewrite <- El. apply Forall_forall. intros x [_ Hx]%list_elem_of_filter.
    exact (proj1 (Forall_forall _ _) (proj2 Hc) _ Hx). }
  seq does_consult as headroom evs w1 [-> _] Hw1 _. seq does_now as t evs w2 [-> _] Hw2 _.
  eapply does_bind; [done|by apply does_projects|]. intros candidates evs w3 [-> Hidx] Hw3 _.
  seq does_consult as budget evs w4 [-> _] Hw4 _. seq does_ask_policy as d evs w5 [-> Hd] Hw5 _.
  assert (Hrestr : forall x tags, d = Some x -> always_restricts rp tags -> x = Some (RD_Restrict tags)).
  { intros x tags Hx (name & r & Hp & Ha & Hn). destruct (Hd _ Hx) as [k ->]. rewrite Hp. simpl.
    by rewrite Ha, Hn. }
  assert (Href : forall x, d = Some x -> refuses rp ->
    (exists status message, x = Some (RD_Reject status message))
    \/ (x = None /\ rp_on_error_chain rp = [] /\ rp_on_error rp = Reject)).
  { intros x Hx (name & Hp & [(r & Ha & Hn)|(Hna & Hch & Hoe)]); destruct (Hd _ Hx) as [k ->]; rewrite Hp; simpl.
    - left. rewrite Ha. destruct (Hn (candidate_set candidates)) as (st & m & ->). by do 2 eexists.
    - right. split; [|done].
      destruct (hm_answer _ _ _ _ _) as [r| | |] eqn:E; [by destruct (Hna _ _ _ _ _ E)|done..]. }
  destruct d as [[decision|]|].
  - stop. split; [done|]. intros x [= <-]. split; [rewrite <- Hidx; apply map_decision_sound|]. split.
    + intros _ tags Ht. specialize (Hrestr _ tags eq_refl Ht) as [= ->]. done.
    + intros _ Hr. destruct (Href _ eq_refl Hr) as [(st & m & [= ->])|[? _]]; done.
  - eapply does_weaken; [by apply does_chain|]. intros o evs w6 [-> Ho]. split; [done|].
    intros x Hx. split; [rewrite <- Hidx; by apply Ho|]. split.
    + intros _ tags Ht. by specialize (Hrestr _ tags eq_refl Ht).
    + intros _ Hr. destruct (Href _ eq_refl Hr) as [(st & m & ?)|(_ & Hch & Hoe)]; [done|].
      by rewrite (proj2 (Ho x Hx) Hch Hoe).
  - stop. by split.
Qed.
(** ** The gates *)

(** What a gate's outcome may be, asked about the live candidates. *)
Definition gate_outcome (cands : list WeightedLane) (ctx : RequestCtx) (g : Z * ResolvedPolicy)
    (o : PolicyOutcome) : Prop :=
  outcome_sound (idx <$> fill_candidates ctx cands) o
  /\ (fill_candidates ctx cands <> [] -> forall tags, always_restricts g.2 tags ->
        o = PO_Restrict tags (policy_name (rp_policy g.2)) (rp_on_empty g.2))
  /\ (fill_candidates ctx cands <> [] -> refuses g.2 -> is_refusal o).

Lemma does_ask_gates chain : forall w cands ctx v pool gov_key,
  world_ok w -> cands_ok cands ->
  does w (ask_gates oracle hooks app rq chain cands ctx v pool gov_key) (fun os evs _ => evs = []
    /\ forall outcomes, os = Some outcomes -> Forall2 (gate_outcome cands ctx) chain outcomes).
Proof.
  induction chain as [|[prio g] chain IH]; intros w cands ctx v pool gov_key Hw Hc; simpl.
  { stop. split; [done|]. by intros ? [= <-]. }
  seq does_decide as o evs w1 [-> Ho] Hw1 _. destruct o as [o|]; [|by stop].
  eapply does_bind; [done|by apply IH|]. intros os evs w2 [-> Hos] Hw2 _. stop. split; [done|].
  destruct os as [os|]; [|done]. intros outcomes [= <-]. constructor; [exact (Ho o eq_refl)|by apply Hos].
Qed.

Lemma first_reject_client outcomes cands ctx chain status kind :
  Forall2 (gate_outcome cands ctx) chain outcomes -> first_reject outcomes = Some (status, kind) ->
  400 <= status <= 499 \/ status = 503.
Proof.
  induction 1 as [|g o chain outcomes [Hs _] Hf IH]; simpl; [done|].
  destruct o; try done; intros [= <- <-]; [by right|left]. simpl in Hs.
  unfold status_code, between. case_match; zbool; lia.
Qed.

Lemma refusal_rejects outcomes : Exists is_refusal outcomes -> first_reject outcomes <> None.
Proof. induction 1 as [o outcomes Ho|o outcomes Ho IH]; destruct o; simpl in *; done. Qed.

(** ** The seam *)

(** The candidates kept, and the restricts recorded, on the way from [ctx] to [ctx']. *)
Record narrowed (pool : string) (cands : list WeightedLane) (ctx : RequestCtx) (new : list RestrictConstraint)
    (cands' : list WeightedLane) (ctx' : RequestCtx) : Prop := {
  nw_sub : cands' `sublist_of` cands;
  nw_excluded : excluded ctx' = excluded ctx;
  nw_reasons : excluded_reasons ctx' = excluded_reasons ctx;
  nw_restricts : active_restricts ctx' = active_restricts ctx ++ new;
  nw_satisfied : forall wl rc, wl ∈ cands' -> rc ∈ new -> required rc = true ->
    satisfies (pool_members app pool) rc wl = true;
}.

Lemma narrowed_refl pool cands ctx : narrowed pool cands ctx [] cands ctx.
Proof. split; try done; [by rewrite app_nil_r|]. by intros wl rc _ ?%elem_of_nil. Qed.

Lemma narrowed_trans pool c1 x1 n1 c2 x2 n2 c3 x3 :
  narrowed pool c1 x1 n1 c2 x2 -> narrowed pool c2 x2 n2 c3 x3 -> narrowed pool c1 x1 (n1 ++ n2) c3 x3.
Proof.
  intros [Hs1 He1 Hr1 Ha1 Hn1] [Hs2 He2 Hr2 Ha2 Hn2]. split.
  - by etransitivity.
  - by rewrite He2.
  - by rewrite Hr2.
  - by rewrite Ha2, Ha1, app_assoc.
  - intros wl rc Hw [Hr|Hr]%elem_of_app; [|by apply Hn2]. apply Hn1; [|done]. by eapply elem_of_sublist.
Qed.

Lemma narrowed_apply pool cands ctx rs out :
  apply_restricts (pool_members app pool) rs cands = Ok out -> narrowed pool cands ctx rs out (push_restricts rs ctx).
Proof.
  intros Ha. pose proof (apply_restricts_spec (pool_members app pool) rs cands) as Hs. rewrite Ha in Hs.
  destruct (push_restricts_rest rs ctx) as (He & Hr & _). split; try done.
  - by eapply apply_restricts_sublist.
  - apply push_restricts_restricts.
  - intros wl rc Hw Hrc. by apply (proj1 Hs wl Hw).
Qed.

Definition rejection r : Prop :=
  exists status kind, r = gate_rejected status kind /\ (400 <= status <= 499 \/ status = 503).

Lemma apply_base_spec pool o cands ctx :
  outcome_sound (idx <$> fill_candidates ctx cands) o ->
  match apply_base (T := T) (J := J) app pool o cands ctx with
  | Stopped r => rejection r
  | Routed_to cands' _ _ ctx' => exists new, narrowed pool cands ctx new cands' ctx'
  end.
Proof.
  intros Ho. destruct o as [order name| | |status message name|tags name on_empty]; simpl.
  - exists []. apply narrowed_refl.
  - exists []. apply narrowed_refl.
  - do 2 eexists. split; [done|by right].
  - do 2 eexists. split; [done|]. left. simpl in Ho. unfold status_code, between. case_match; zbool; lia.
  - pose proof (narrowed_apply pool cands ctx [mkRestrict tags on_empty name]) as Hn. simpl in Hn.
    destruct (restrict_filter _ _ cands) as [|x l].
    + destruct on_empty; [eexists; by apply Hn|do 2 eexists; split; [done|by right]..].
    + eexists. by apply Hn.
Qed.

Lemma restrict_recorded outcomes tags name on_empty :
  PO_Restrict tags name on_empty ∈ outcomes -> mkRestrict tags on_empty name ∈ restricts_of outcomes.
Proof. intros Hin. apply list_elem_of_omap. eexists. split; [exact Hin|done]. Qed.

(** The restricts a gate that always restricts leaves on record. *)
Definition gate_restrict (g : ResolvedPolicy) (tags : list string) : RestrictConstraint :=
  mkRestrict tags (rp_on_empty g) (policy_name (rp_policy g)).

Definition heard (pool : string) (cands : list WeightedLane) (ctx : RequestCtx) (new : list RestrictConstraint) : Prop :=
  fill_candidates ctx cands <> [] ->
  forall prio g tags, (prio, g) ∈ gate_chain app pool -> always_restricts g tags -> gate_restrict g tags ∈ new.

Lemma reconciled pool outcomes cands ctx cands' ctx' order :
  Forall2 (gate_outcome cands ctx) (gate_chain app pool) outcomes ->
  reconcile app pool outcomes cands ctx = Ok (cands', ctx', order) ->
  narrowed pool cands ctx (restricts_of outcomes) cands' ctx' /\ heard pool cands ctx (restricts_of outcomes).
Proof.
  intros Hf. unfold reconcile. destruct (first_reject outcomes) as [[]|]; [done|].
  rewrite reconcile_restricts_apply. destruct (apply_restricts _ _ cands) as [out|] eqn:Ea; [|done].
  intros [= <- <- <-]. split; [by apply narrowed_apply|].
  intros Hlive prio g tags Hg Ht. apply list_elem_of_lookup in Hg as [i Hi].
  destruct (Forall2_lookup_l _ _ _ _ _ Hf Hi) as (o & Ho & [_ [Hr _]]).
  specialize (Hr Hlive tags Ht). simpl in Hr. subst o. apply restrict_recorded.
  by eapply list_elem_of_lookup_2.
Qed.

Lemma does_route w cands ctx body pool gov_key :
  world_ok w -> cands_ok cands ->
  does w (route (T := T) (J := J) oracle hooks app rq cands ctx body pool gov_key) (fun routed evs _ => evs = []
    /\ match routed with
       | Stopped r => r = Gone \/ rejection r
       | Routed_to cands' order _ ctx' =>
           (exists new, narrowed pool cands ctx new cands' ctx' /\ heard pool cands ctx new)
           /\ (fill_candidates ctx cands <> [] -> forall prio g, (prio, g) ∈ gate_chain app pool -> ~ refuses g)
       end).
Proof.
  intros Hw Hc. unfold route. cbv zeta. seq does_ask_gates as os evs w1 [-> Hos] Hw1 _.
  destruct os as [outcomes|]; [|stop; split; [done|by left]]. specialize (Hos _ eq_refl).
  destruct (reconcile app pool outcomes cands ctx) as [[[cands1 ctx1] order]|[status kind]] eqn:Er.
  2: { stop. split; [done|]. right. exists status, kind. split; [done|]. unfold reconcile in Er.
       destruct (first_reject outcomes) as [[]|] eqn:Ef; [simplify_eq; by eapply first_reject_client|].
       destruct (reconcile_restricts _ _ _ _) as [[]|]; [done|]. simplify_eq. by right. }
  destruct (reconciled _ _ _ _ _ _ _ Hos Er) as [Hn Hh].
  assert (Hnr : fill_candidates ctx cands <> [] -> forall prio g, (prio, g) ∈ gate_chain app pool -> ~ refuses g).
  { intros Hlive prio g Hg Hr. unfold reconcile in Er.
    enough (first_reject outcomes <> None) by (by destruct (first_reject outcomes) as [[]|]).
    apply refusal_rejects. apply list_elem_of_lookup in Hg as [i Hi].
    destruct (Forall2_lookup_l _ _ _ _ _ Hos Hi) as (o & Ho & [_ [_ Hir]]).
    apply Exists_exists. exists o. split; [by eapply list_elem_of_lookup_2|by apply Hir]. }
  destruct order as [[order name]|]; [stop; split; [done|]; split; [by eexists|done]|].
  destruct (pool_runtime app !! pool ≫= base_policy) as [rp|]; [|stop; split; [done|]; split; [by eexists|done]].
  assert (Hc1 : cands_ok cands1) by (eapply cands_sublist; [exact Hc|apply Hn]).
  seq does_decide as o evs w2 [-> Ho] Hw2 _. destruct o as [o|]; [|stop; split; [done|by left]].
  stop. split; [done|]. pose proof (apply_base_spec pool o cands1 ctx1 (proj1 (Ho o eq_refl))) as Hb.
  destruct (apply_base app pool o cands1 ctx1) as [r|cands2 order2 chosen ctx2]; [by right|].
  destruct Hb as [new Hb]. split; [|done]. eexists. split; [by eapply narrowed_trans|].
  intros Hlive prio g tags Hg Ht. apply elem_of_app. left. by eapply Hh.
Qed.

(** ** Rewrites *)

Lemma does_rewrites hs : forall w v pool id applied,
  world_ok w -> does w (apply_global_rewrites oracle hooks rq hs v pool id applied) (fun rw evs _ => evs = []
    /\ forall status, rw = Rw_rejected status -> 400 <= status <= 499).
Proof.
  induction hs as [|[t p] hs IH]; intros w v pool id applied Hw; simpl; [by stop|].
  assert (Hafter : forall w1, world_ok w1 -> does w1
    (bind (consult hooks (fun m => policy_transform (hm_transform m) p
             (build_rewrite_request v pool (ingress_protocol rq) (wants_stream rq) true id)))
       (fun outcome => match outcome with
          | TO_Rewrite rw => let '(done, v) := apply_rewrite_to_body v rw (ingress_protocol rq) in
                             apply_global_rewrites oracle hooks rq hs v pool id (applied || done)
          | TO_Reject status _ => ret (Rw_rejected status)
          | TO_Abstain => apply_global_rewrites oracle hooks rq hs v pool id applied
          end)) (fun rw evs _ => evs = [] /\ forall status, rw = Rw_rejected status -> 400 <= status <= 499)).
  { intros w1 Hw1. seq does_consult as o evs w2 [-> [k Ho]] Hw2 _. destruct o as [rw|status message|].
    - destruct (apply_rewrite_to_body v rw (ingress_protocol rq)) as [done v']. by apply IH.
    - stop. split; [done|]. intros st [= <-]. destruct p as [n|name]; simpl in Ho; [done|].
      destruct (hm_transform (hooks k) name _) as [reply| | |]; try done. unfold transform_reply in Ho.
      destruct (parse_hook_response reply) as [parsed|]; [|done]. unfold transform_outcome in Ho.
      destruct (rejecting parsed) as [d|]; [|by case_match].
      destruct (parse_reject_detail d) as [st msg] eqn:Ed. simplify_eq. unfold parse_reject_detail in Ed. simplify_eq.
      destruct ((get "status" d ≫= as_i64) ≫= try_u16); simpl; [apply clamp_is_4xx|unfold REJECT_STATUS_DEFAULT; lia].
    - by apply IH. }
  destruct p as [n|name].
  - flatten. by apply Hafter.
  - seq does_await as gone evs w1 -> Hw1 _. destruct gone; [by stop|]. by apply Hafter.
Qed.

Lemma does_rewrite_body w body pool id :
  world_ok w -> does w (rewrite_body oracle hooks app rq body pool id) (fun rw evs _ => evs = []
    /\ forall status, rw = Rw_rejected status -> 400 <= status <= 499).
Proof.
  intros Hw. unfold rewrite_body. destruct body as [v|]; [|by stop].
  eapply does_bind; [done|by apply does_rewrites|]. intros rw evs w1 [-> Hr] Hw1 _.
  destruct rw as [|status|applied v']; [by stop|stop; by split|]. by apply does_rewrites.
Qed.
(** ** The request *)

(** The lane carries one of the tags in the pool it is called through. *)
Definition tagged (p : string) (i : nat) (tags : list string) : Prop :=
  exists meta, pool_members app p ≫= (fun m => m !! i) = Some meta /\ carries_tag tags meta = true.

(** The calls a request may make: lanes of its pool and of the fallback pools, carrying in either a tag of
    every gate that always restricts and does not escape; none at all under a gate that refuses. *)
Record may_call (pool : string) (cands : list WeightedLane) (p : string) (i : nat) : Prop := {
  mc_lane : (p = pool /\ i ∈ idx <$> cands)
    \/ exists configured, fallback_pools app !! p = Some configured /\ i ∈ idx <$> configured;
  mc_tags : forall prio g tags, (prio, g) ∈ gate_chain app pool -> always_restricts g tags ->
    rp_on_empty g <> Weighted -> tagged p i tags;
  mc_refused : forall prio g, (prio, g) ∈ gate_chain app pool -> ~ refuses g;
}.

Lemma satisfies_tagged p rc wl :
  satisfies (pool_members app p) rc wl = true -> tagged p (idx wl) (tags_any rc).
Proof.
  unfold satisfies, tagged. destruct (pool_members app p) as [m|]; [|done]. simpl.
  destruct (m !! idx wl) as [meta|]; [|done]. intros Hs. by exists meta.
Qed.

(** With no candidate the loop calls nobody. *)
Lemma does_attempt_loop_nil ok n w hash order pool ctx :
  world_ok w ->
  does w (attempt_loop (T := T) (J := J) parse_http_date oracle app rq (S n) [] hash order pool ctx)
    (fun r evs _ => walked lane_count ok (excluded ctx) r evs).
Proof.
  intros Hw. simpl. seq does_now as t evs w1 [-> _] Hw1 _. cbn [Datatypes.app].
  destruct (expired ctx t); [stop; by apply walked_nothing|].
  assert (Hc : cands_ok []) by (split; constructor).
  seq does_pick_among as [picked ctx1] evs w2 Hpick Hw2 _. destruct Hpick as (-> & _ & Hsound).
  destruct picked as [[[i p] e]|].
  - destruct (picked_lane _ _ _ _ _ _ _ Hsound) as (wl & Hin & _). by apply elem_of_nil in Hin.
  - stop. apply (walked_idle lane_count ok _ (excluded ctx) [Admission pool None] _ []); [by split|done|].
    by apply walked_nothing.
Qed.

Lemma does_routed w n cands hash order pool ctx0 cands0 ctx new all :
  world_ok w -> cands_ok cands0 -> narrowed pool cands0 ctx0 new cands ctx -> heard pool cands0 ctx0 new ->
  (fill_candidates ctx0 cands0 <> [] -> forall prio g, (prio, g) ∈ gate_chain app pool -> ~ refuses g) ->
  cands0 `sublist_of` all -> excluded ctx0 = ∅ -> active_restricts ctx0 = [] -> excluded_reasons ctx0 = [] ->
  does w (dispatch (T := T) (J := J) parse_http_date oracle app rq n cands hash order pool ctx)
    (fun r evs _ => walked lane_count (may_call pool all) ∅ r evs).
Proof.
  intros Hw Hc [Hsub Hex Hre Hac Hsat] Hh Hnr Hall Hx Ha Hr. unfold dispatch. rewrite <- Hx, <- Hex.
  destruct cands as [|c cands']; [by apply does_attempt_loop_nil|]. set (cands := c :: cands') in *.
  assert (Hlive : fill_candidates ctx0 cands0 <> []).
  { unfold fill_candidates. rewrite Hx, filter_all by (apply Forall_true; set_solver).
    intros ->. by apply sublist_nil_r in Hsub. }
  assert (Htags : forall p wl, (forall rc, rc ∈ active_restricts ctx -> required rc = true ->
      satisfies (pool_members app p) rc wl = true) ->
    forall prio g tags, (prio, g) ∈ gate_chain app pool -> always_restricts g tags -> rp_on_empty g <> Weighted ->
      tagged p (idx wl) tags).
  { intros p wl Hs prio g tags Hg Ht Ho. apply (satisfies_tagged p (gate_restrict g tags)), Hs.
    - rewrite Hac, Ha. simpl. by eapply Hh.
    - unfold required. simpl. by destruct (rp_on_empty g). }
  eapply does_attempt_loop with (rs := active_restricts ctx); try done.
  - intros p configured wl Hf Hin Hs. split; [|by apply Htags|by apply Hnr].
    right. exists configured. split; [done|]. by apply list_elem_of_fmap_2.
  - by eapply cands_sublist.
  - intros i (wl & -> & Hi)%list_elem_of_fmap. split; [| |by apply Hnr].
    + left. split; [done|]. apply list_elem_of_fmap_2. eapply elem_of_sublist; [|exact Hall].
      by eapply elem_of_sublist.
    + apply Htags. intros rc Hrc. rewrite Hac, Ha in Hrc. by apply Hsat.
  - intros i. rewrite Hre, Hr. by intros ?%elem_of_nil.
Qed.

Lemma does_forward w instant_max cands body gov_key hash pool id :
  world_ok w -> cands_ok cands ->
  (forall k, tk_wall (oracle k) + MAX_FAILOVER_DEADLINE_SECS * NANOS <= instant_max) ->
  does w (forward_with_pool parse_http_date oracle hooks app rq instant_max cands body gov_key hash pool id)
    (fun r evs _ => walked lane_count (may_call pool cands) ∅ r evs).
Proof.
  intros Hw Hc Hwall. unfold forward_with_pool.
  destruct (supported_total lane_count app Happ cands Hc) as (res & Hsup & Hsub).
  seq does_of_option as ? evs w1 [-> ->] Hw1 _. cbn [Datatypes.app].
  destruct res as [kept|[]]; [|stop; by apply walked_nothing]. specialize (Hsub kept eq_refl). cbv zeta.
  pose proof (cands_sublist lane_count _ _ Hc Hsub) as Hkept.
  seq does_rewrite_body as rw evs w1' [-> _] Hw1' _. cbn [Datatypes.app].
  destruct rw as [|status|applied v]; [stop; by apply walked_nothing|stop; by apply walked_nothing|].
  seq does_now as start evs w2 [-> _] Hw2 _. seq does_ask as wall evs w3 [-> _] Hw3 _.
  seq does_ask as fb evs w4 [-> [k ->]] Hw4 _.
  match goal with |- context [RequestCtx_new start wall ?fb instant_max ?d id] =>
    destruct (RequestCtx_new start wall fb instant_max d id) as [ctx|] eqn:Ectx end.
  2: { exfalso. unfold RequestCtx_new in Ectx. destruct (checked_add instant_max wall _); [done|].
       unfold checked_add in Ectx. specialize (Hwall k). destruct (_ <=? _) eqn:E in Ectx; [done|]. zbool. lia. }
  assert (Hctx : excluded ctx = ∅ /\ active_restricts ctx = [] /\ excluded_reasons ctx = []).
  { unfold RequestCtx_new in Ectx. apply bind_Some_inv in Ectx as (z & _ & [= <-]). done. }
  destruct Hctx as (Hex & Hac & Hre).
  seq does_of_option as ? evs w5 [-> ->] Hw5 _.
  destruct (not_excluded_total lane_count app Happ (pool_failover app pool ≫= exclusions) kept Hkept) as (out & Hne & Hout).
  seq does_of_option as ? evs w6 [-> ->] Hw6 _. cbn [Datatypes.app].
  pose proof (cands_sublist lane_count _ _ Hkept Hout) as Hok.
  eapply does_bind; [done|by apply does_route|]. intros routed evs w7 [-> Hrt] Hw7 _. cbn [Datatypes.app].
  destruct routed as [r|cands' order chosen ctx'].
  - stop. destruct Hrt as [-> |(st & kind & -> & _)]; apply walked_nothing; by intros s b [=].
  - destruct Hrt as ((new & Hn & Hh) & Hnr). eapply does_weaken; [eapply (does_routed w7 _ cands'); [done|exact Hok|exact Hn|exact Hh|exact Hnr| |done|done|done]|].
    + by etransitivity.
    + by intros r evs w8 Hr.
Qed.
End seam.
