(* ===== verification/HookRuns.v ===== *)
(** * HookRuns: what the decision hooks guarantee of a request

    A restrict binds every call of the request it was heard for, in its pool and beyond; a gate that
    refuses, or fails closed, lets nothing through; and what the reject verb of an untrusted reply comes
    to. *)

From S2P Require Import Prelude Float64 Breaker Json HookWire HookProjection Ranking BreakerFsm HealthState HealthLemmas HealthSpec HealthAdmit SwrrCore Swrr StoreRuns Classifier Bytes Selection SelectionSpec SelectionPick Ledger CostModel Governance GovStore HookPolicy LaneFrame Request ResponseBody Forward Walk ForwardLogic Routing ResponseSpec ForwardSpec WalkSpec RoutingSpec.

#[local] Open Scope Z_scope.

(** ** The verbs of a reply *)

(** The reject verb fails closed only in a reply that parses. In a reply whose [order] and [abstain]
    are well typed, any [reject] but [false] rejects, whatever else the reply says and however malformed the
    verb's own details are - with a 4xx status and a message of at most 300 characters, none of them a
    control, separator, zero-width or direction mark. In a reply whose [order] is ill typed the verb is lost:
    the reply is no opinion, and no error that [on_error] would catch. *)
Theorem reject_wins_unless_the_reply_is_ill_typed fields v valid :
  field "reject" fields = Some v -> v <> Null -> is_not_false v = true -> text_ok v ->
  (forall o, field "order" fields = Some o -> is_Some (parse_order o)) /\
  (forall a, field "abstain" fields = Some a -> is_Some (as_bool a)) /\
    (exists status message, normalize_reply (Object fields) valid = RD_Reject status message
       /\ transform_reply (Object fields) = TO_Reject status message
       /\ 400 <= status <= 499 /\ presentable message)
  \/ (exists o, field "order" fields = Some o /\ parse_order o = None) /\
     normalize_reply (Object fields) valid = RD_Abstain /\ transform_reply (Object fields) = TO_Abstain
  \/ (exists a, field "abstain" fields = Some a /\ as_bool a = None) /\
     normalize_reply (Object fields) valid = RD_Abstain /\ transform_reply (Object fields) = TO_Abstain.
Proof.
  intros Hv Hn Hf Ht. unfold normalize_reply, transform_reply, parse_hook_response.
  assert (Hp : field "reject" fields ≫= parse_present = Some v) by (rewrite Hv; simpl; by destruct v).
  destruct (field "order" fields) as [o|] eqn:Eo; [destruct (parse_order o) as [o'|] eqn:Po|].
  2: { right. left. split; [by exists o|]. done. }
  all: destruct (field "abstain" fields) as [a|] eqn:Ea; [destruct (as_bool a) as [a'|] eqn:Pa|].
  all: try (right; right; split; [by exists a|]; done).
  all: left; split; [intros x Hx; simplify_eq; by eexists|]; split; [intros x Hx; simplify_eq; by eexists|].
  all: simpl; rewrite Hp; unfold normalize, transform_outcome, rejecting; simpl; rewrite Hf.
  all: do 2 eexists; split; [done|]; split; [done|]; by eapply reject_detail_ok.
Qed.

Section runs.
Context {SemT T J : Type} `{Semaphore SemT} `{StreamTranslate T} `{JsonArrayFramer J} `{ProtocolTable T J}.
Context (parse_http_date : list Ascii.ascii -> option Z).
Context (oracle : nat -> Moment SemT) (oracle_ok : forall k, moment_ok (oracle k)) (lane_count : nat).
Context (hooks : nat -> HookMoment).
Context (app : App) (rq : Req) (Happ : app_ok lane_count app).
Implicit Types (w : World SemT) (r : Response T J).

(** C19. A restrict holds to the last call. If a gate of the request - global or of its pool - always
    restricts to some tags and does not escape on an empty set, then every upstream call the request makes,
    on its first lane, in failover, over any chain of fallback pools, from a queue or as a last resort, goes
    to a lane that carries one of the tags in the pool it is called through. *)
Theorem a_restrict_holds_to_the_last_call instant_max cands body gov_key hash pool id w :
  world_ok lane_count w -> cands_ok lane_count cands ->
  (forall k, tk_wall (oracle k) + MAX_FAILOVER_DEADLINE_SECS * NANOS <= instant_max) ->
  exists r w' evs,
    forward_with_pool parse_http_date oracle hooks app rq instant_max cands body gov_key hash pool id w
      = Some (r, w')
    /\ w_log w' = w_log w ++ evs
    /\ forall resort p i, (resort, p, i) ∈ sent evs ->
         forall prio g tags, (prio, g) ∈ gate_chain app pool -> always_restricts hooks g tags ->
           rp_on_empty g <> Weighted -> tagged app p i tags.
Proof.
  intros Hw Hc Hwall.
  destruct (does_forward parse_http_date oracle oracle_ok lane_count hooks app rq Happ w instant_max cands body
    gov_key hash pool id Hw Hc Hwall) as (r & w1 & evs & He & Hev & Hwk).
  exists r, w1, evs. split; [exact He|]. split; [apply Hev|]. intros resort p i Hin.
  pose proof (wa_allowed _ _ _ _ _ Hwk) as Ha. rewrite Forall_forall in Ha.
  exact (mc_tags _ _ _ _ _ _ (Ha _ Hin)).
Qed.

(** C20. A gate that refuses lets no call through. If a gate of the request always rejects, or never answers
    and was declared load-bearing - [on_error: reject], no fallback - the request calls no upstream, holds
    no permit and charges nothing, whatever the other gates say. *)
Theorem a_refusing_gate_stops_the_request instant_max cands body gov_key hash pool id w prio g :
  world_ok lane_count w -> cands_ok lane_count cands ->
  (forall k, tk_wall (oracle k) + MAX_FAILOVER_DEADLINE_SECS * NANOS <= instant_max) ->
  (prio, g) ∈ gate_chain app pool -> refuses hooks g ->
  exists r w' evs,
    forward_with_pool parse_http_date oracle hooks app rq instant_max cands body gov_key hash pool id w
      = Some (r, w')
    /\ w_log w' = w_log w ++ evs
    /\ sent evs = [] /\ charges evs = [] /\ (forall l, permit_balance l evs = 0)
    /\ (forall s b, r <> Streaming s b).
Proof.
  intros Hw Hc Hwall Hg Hr.
  destruct (does_forward parse_http_date oracle oracle_ok lane_count hooks app rq Happ w instant_max cands body
    gov_key hash pool id Hw Hc Hwall) as (r & w1 & evs & He & Hev & Hwk).
  exists r, w1, evs. split; [exact He|]. split; [apply Hev|].
  assert (Hs : sent evs = []).
  { destruct (sent evs) as [|s l] eqn:E; [done|]. pose proof (wa_allowed _ _ _ _ _ Hwk) as Ha.
    rewrite E in Ha. apply Forall_cons in Ha as [Ha _]. by destruct (mc_refused _ _ _ _ _ _ Ha _ _ Hg). }
  destruct (wa_charged _ _ _ _ _ Hwk) as [[Hch Hst]|(s & Hl & _)]; [|by rewrite Hs in Hl].
  split; [done|]. split; [done|]. split; [|done]. intros l. rewrite (wa_permits _ _ _ _ _ Hwk).
  destruct r; try done. by destruct (Hst _ _ eq_refl).
Qed.
End runs.

(** ** Witnesses *)

(** A guardrail in front of the demo pools: only the first lane carries its tag, and only in [team]. *)
Definition guard : ResolvedPolicy := mkResolved (Plugin "phi") Reject [] 1 true false Reject.

Definition guarded_app : App :=
  mkApp demo_lanes
    (<["team" := mkPool {[0%nat := mkMeta None None ["hipaa"]]} None None None None [(10, guard)] []]> ∅) None Own
    (<["team" := FallbackPool "spare"]> ∅) (<["spare" := spare_cands]> (<["team" := team_cands]> ∅)) [] [] [].

Definition answering (v : Value) (k : nat) : HookMoment :=
  mkHookMoment (fun _ _ _ _ => Replied v) (fun _ _ => Call_failed) None [].

Definition hipaa_only : Value := Object [("restrict", Object [("tags_any", Array [Str " hipaa "])])].

Lemma guarded_app_ok : app_ok 2 guarded_app.
Proof.
  split; [done|intros pool|].
  - unfold resolve_breaker_cfg, guarded_app, pool_runtime.
    destruct (decide (pool = "team")) as [->|Hne]; [exact BreakerCfg_default_valid|].
    rewrite lookup_insert_ne, lookup_empty by done. exact BreakerCfg_default_valid.
  - intros pool cands [-> | ->]%demo_pools; [apply spare_cands_ok|apply team_cands_ok].
Qed.

Definition failing (k : nat) : Moment Z := demo_moment (Send_failed false).

Lemma failing_ok k : moment_ok (failing k).
Proof. apply demo_moment_ok. Qed.

Lemma guard_restricts : always_restricts (answering hipaa_only) guard ["hipaa"].
Proof. exists "phi", hipaa_only. split; [done|]. split; [done|]. intros valid. reflexivity. Qed.

Lemma a_restrict_holds_to_the_last_call_witness :
  exists r w' evs, forward_with_pool no_date failing (answering hipaa_only) guarded_app demo_req 100000000000000
      team_cands None None None "team" 7 demo_world = Some (r, w')
    /\ w_log w' = evs
    /\ forall resort p i, (resort, p, i) ∈ sent evs -> tagged guarded_app p i ["hipaa"].
Proof.
  destruct (a_restrict_holds_to_the_last_call no_date failing failing_ok 2 (answering hipaa_only) guarded_app
    demo_req guarded_app_ok 100000000000000 team_cands None None None "team" 7 demo_world)
    as (r & w' & evs & H1 & H2 & H3).
  - apply demo_world_ok.
  - apply team_cands_ok.
  - intros k. by vm_compute.
  - exists r, w', evs. split; [exact H1|]. split; [exact H2|]. intros resort p i Hin.
    apply (H3 resort p i Hin 10 guard); [by left|apply guard_restricts|done].
Defined.

(** The run itself: the first lane is called, the spare pool's is not. *)
Example guarded_run :
  (sent ∘ w_log ∘ snd <$> forward_with_pool no_date failing (answering hipaa_only) guarded_app demo_req
     100000000000000 team_cands None None None "team" 7 demo_world) = Some [(false, "team", 0%nat)].
Proof. vm_compute. reflexivity. Qed.

Definition refusal : Value := Object [("reject", Object [("status", Num (PosInt 70000))])].

Lemma a_refusing_gate_stops_the_request_witness :
  exists r w' evs, forward_with_pool no_date failing (answering refusal) guarded_app demo_req 100000000000000
      team_cands None None None "team" 7 demo_world = Some (r, w')
    /\ w_log w' = evs /\ sent evs = [].
Proof.
  destruct (a_refusing_gate_stops_the_request no_date failing failing_ok 2 (answering refusal) guarded_app
    demo_req guarded_app_ok 100000000000000 team_cands None None None "team" 7 demo_world 10 guard)
    as (r & w' & evs & H1 & H2 & H3 & _).
  - apply demo_world_ok.
  - apply team_cands_ok.
  - intros k. by vm_compute.
  - by left.
  - exists "phi". split; [done|]. left. exists refusal. split; [done|]. intros valid. do 2 eexists. reflexivity.
  - exists r, w', evs. split; [exact H1|]. split; [exact H2|exact H3].
Defined.

(** The same verb beside an [order] of the wrong type: no opinion. *)
Lemma reject_wins_unless_the_reply_is_ill_typed_witness :
  (exists status message, normalize_reply refusal ∅ = RD_Reject status message /\ 400 <= status <= 499)
  /\ normalize_reply (Object [("reject", Bool true); ("order", Str "none")]) ∅ = RD_Abstain.
Proof.
  split; [|reflexivity].
  destruct (reject_wins_unless_the_reply_is_ill_typed
    [("reject", Object [("status", Num (PosInt 70000))])] (Object [("status", Num (PosInt 70000))]) ∅
    eq_refl ltac:(done) eq_refl ltac:(by intros s Hs))
    as [(_ & _ & st & m & H1 & _ & H2 & _)|[[(o & Ho & _) _]|[(a & Ha & _) _]]]; [|done|done].
  exists st, m. split; [exact H1|exact H2].
Defined.

(** * a prompt reaches only the hooks it was granted to

    Two worlds whose hook plugins answer alike, but for what an ungranted plugin would say to a prompt or
    to the caller's identity, run every request alike: such a call is never made. *)


(** ** Sequencing respects equality of runs *)

Section runs.
Context {SemT : Type} `{Semaphore SemT}.

Definition same_run {A} (m1 m2 : Engine SemT A) : Prop := forall w, m1 w = m2 w.

#[export] Instance same_run_equivalence {A} : Equivalence (@same_run A).
Proof. split; [done|by intros m1 m2 He w|by intros m1 m2 m3 H1 H2 w; rewrite H1]. Qed.

Lemma bind_same {A B} (m1 m2 : Engine SemT A) (f1 f2 : A -> Engine SemT B) :
  same_run m1 m2 -> (forall a, same_run (f1 a) (f2 a)) -> same_run (bind m1 f1) (bind m2 f2).
Proof. intros Hm Hf w. unfold bind. rewrite Hm. destruct (m2 w) as [[a w']|]; [apply Hf|done]. Qed.
End runs.

(** Step into two runs that differ in their hooks only. *)
Ltac same_step :=
  match goal with
  | |- same_run ?x ?x => reflexivity
  | |- same_run (bind _ _) (bind _ _) => apply bind_same; [|intros ?]
  | |- same_run (match ?x with _ => _ end) _ => destruct x
  | |- same_run (let '(_, _) := ?x in _) _ => destruct x
  end.
Ltac same_steps := repeat (same_step; try reflexivity; try assumption).

(** ** The grants *)

Section privacy.
Context (manifest_needs : string -> option (NeedLevel * NeedLevel)).
Context (opens : string -> string -> bool).
Context (default_policy_timeout_ms : Z).
Context (registry : gmap string HookCfg).

#[local] Notation may_read := (may_read manifest_needs registry).
#[local] Notation may_identify := (may_identify manifest_needs registry).
#[local] Notation may_rewrite := (may_rewrite manifest_needs registry).
#[local] Notation policy_covered := (policy_covered manifest_needs registry).
#[local] Notation covered := (covered manifest_needs registry).

(** The request shows the plugin of hook [name] nothing it was not granted. *)
Definition shows_only_granted (name : string) (req : RoutingRequest) : Prop :=
  (rr_prompt req <> None -> may_read name) /\ (rr_identity req <> None -> may_identify name).

(** The two answer alike to every call that a granted plugin, or an unprompted one, gets. *)
Definition alike (m1 m2 : HookMoment) : Prop :=
  hm_headroom m1 = hm_headroom m2 /\ hm_budget m1 = hm_budget m2
  /\ (forall name req candidates cx, shows_only_granted name req ->
        hm_answer m1 name req candidates cx = hm_answer m2 name req candidates cx)
  /\ (forall name req, may_rewrite name -> hm_transform m1 name req = hm_transform m2 name req).

(** The hooks of an app as resolution leaves them. *)
Record hooks_resolved (app : App) : Prop := {
  hr_gates : exists names,
    resolve_gate_hooks manifest_needs opens default_policy_timeout_ms registry names = Some (global_gates app);
  hr_rewrites : exists names,
    resolve_rewrite_hooks manifest_needs opens default_policy_timeout_ms registry names = rewrite_hooks app;
  hr_pools : forall pool rt, pool_runtime app !! pool = Some rt ->
    exists cfg default_hook,
      resolve_pool_ordering manifest_needs opens default_policy_timeout_ms registry cfg default_hook
        = Some (base_policy rt)
      /\ resolve_gate_hooks manifest_needs opens default_policy_timeout_ms registry (pool_gate_names cfg)
        = Some (pool_gates rt)
      /\ resolve_rewrite_hooks manifest_needs opens default_policy_timeout_ms registry (pool_gate_names cfg)
        = pool_rewrite_hooks rt
}.

Definition rewriter_covered (x : Z * Policy) : Prop :=
  match x.2 with Plugin n => may_rewrite n | Native _ => True end.

Lemma gate_hooks_covered names gs :
  resolve_gate_hooks manifest_needs opens default_policy_timeout_ms registry names = Some gs ->
  Forall (fun g => policy_covered g.2) gs.
Proof.
  unfold resolve_gate_hooks. intros (l & Hl & ->)%fmap_Some. unfold by_priority. rewrite sort_by_perm.
  by eapply gates_covered.
Qed.

Lemma rewrite_hooks_covered names :
  Forall rewriter_covered (resolve_rewrite_hooks manifest_needs opens default_policy_timeout_ms registry names).
Proof.
  unfold resolve_rewrite_hooks, by_priority. apply Forall_fmap. rewrite sort_by_perm.
  exact (rewriters_covered manifest_needs opens default_policy_timeout_ms registry names).
Qed.

Lemma chain_covered app pool : hooks_resolved app -> Forall (fun g => policy_covered g.2) (gate_chain app pool).
Proof.
  intros Hr. unfold gate_chain, by_priority. rewrite sort_by_perm. apply Forall_app. split.
  - destruct (hr_gates _ Hr) as [names Hn]. by eapply gate_hooks_covered.
  - destruct (pool_runtime app !! pool) as [rt|] eqn:E; [|constructor].
    destruct (hr_pools _ Hr _ _ E) as (cfg & dh & _ & Hg & _). by eapply gate_hooks_covered.
Qed.

Lemma base_policy_covered app pool rp :
  hooks_resolved app -> pool_runtime app !! pool ≫= base_policy = Some rp -> policy_covered rp.
Proof.
  intros Hr (rt & Hrt & Hb)%bind_Some_inv. destruct (hr_pools _ Hr _ _ Hrt) as (cfg & dh & Ho & _).
  rewrite Hb in Ho. by eapply base_covered.
Qed.

(** ** The runs *)

Section runs.
Context {SemT T J : Type} `{Semaphore SemT} `{StreamTranslate T} `{JsonArrayFramer J} `{ProtocolTable T J}.
Context (parse_http_date : list Ascii.ascii -> option Z).
Context (oracle : nat -> Moment SemT) (h1 h2 : nat -> HookMoment) (Halike : forall k, alike (h1 k) (h2 k)).
Context (app : App) (rq : Req) (Happ : hooks_resolved app).

Lemma consult_same {A} (f1 f2 : HookMoment -> A) :
  (forall k, f1 (h1 k) = f2 (h2 k)) -> same_run (consult (SemT := SemT) h1 f1) (consult h2 f2).
Proof. intros Hf w. unfold consult. by rewrite Hf. Qed.

Lemma ask_policy_same p req candidates cx :
  match p with Plugin name => shows_only_granted name req | Native _ => True end ->
  same_run (ask_policy oracle h1 p req candidates cx) (ask_policy oracle h2 p req candidates cx).
Proof.
  intros Hp. unfold ask_policy. same_steps. apply consult_same. intros k. unfold policy_decide.
  destruct (Halike k) as (_ & _ & Ha & _). by rewrite (Ha _ _ _ _ Hp).
Qed.

Lemma fallback_shows fb req :
  link_covered manifest_needs registry fb ->
  match fb_policy fb with Plugin name => shows_only_granted name (fallback_request fb req) | Native _ => True end.
Proof.
  unfold link_covered, HookPolicy.covered. destruct (fb_policy fb); [done|]. intros [Hp Hu].
  unfold shows_only_granted, fallback_request. simpl. split.
  - destruct (fb_send_prompt fb); [auto|done].
  - destruct (fb_send_user fb); [auto|done].
Qed.

Lemma chain_same chain terminal req candidates cx failed :
  Forall (link_covered manifest_needs registry) chain ->
  same_run (run_on_error_chain oracle h1 chain terminal req candidates cx failed)
           (run_on_error_chain oracle h2 chain terminal req candidates cx failed).
Proof.
  induction 1 as [|fb chain Hfb Hc IH]; simpl; [reflexivity|].
  apply bind_same; [|intros [[d|]|]; [reflexivity|exact IH|reflexivity]].
  by apply ask_policy_same, fallback_shows.
Qed.

Lemma request_shows rp ctx v pool gov_key :
  policy_covered rp ->
  match rp_policy rp with
  | Plugin name => shows_only_granted name (routing_request rq rp ctx v pool gov_key)
  | Native _ => True
  end.
Proof.
  intros [Hc _]. unfold HookPolicy.covered in Hc. destruct (rp_policy rp); [done|]. destruct Hc as [Hp Hu].
  unfold shows_only_granted, routing_request. simpl. split.
  - destruct (rp_send_prompt rp); [auto|done].
  - destruct (rp_send_user rp); [auto|done].
Qed.

Lemma decide_same rp cands ctx v pool gov_key :
  policy_covered rp ->
  same_run (decide_policy_order oracle h1 app rq rp cands ctx v pool gov_key)
           (decide_policy_order oracle h2 app rq rp cands ctx v pool gov_key).
Proof.
  intros Hc. unfold decide_policy_order. destruct (fill_candidates ctx cands); [reflexivity|].
  apply bind_same; [apply consult_same; intros k; apply Halike|intros headroom].
  apply bind_same; [reflexivity|intros now_ts]. apply bind_same; [reflexivity|intros candidates].
  apply bind_same; [apply consult_same; intros k; apply Halike|intros budget].
  apply bind_same; [by apply ask_policy_same, request_shows|].
  intros [[d|]|]; [reflexivity| |reflexivity]. by apply chain_same, Hc.
Qed.

Lemma ask_gates_same chain cands ctx v pool gov_key :
  Forall (fun g => policy_covered g.2) chain ->
  same_run (ask_gates oracle h1 app rq chain cands ctx v pool gov_key)
           (ask_gates oracle h2 app rq chain cands ctx v pool gov_key).
Proof.
  induction 1 as [|[prio g] chain Hg Hc IH]; simpl; [reflexivity|].
  apply bind_same; [by apply decide_same|intros [o|]; [|reflexivity]].
  apply bind_same; [exact IH|reflexivity].
Qed.

Lemma route_same cands ctx body pool gov_key :
  same_run (route (T := T) (J := J) oracle h1 app rq cands ctx body pool gov_key)
           (route oracle h2 app rq cands ctx body pool gov_key).
Proof.
  unfold route. apply bind_same; [by apply ask_gates_same, chain_covered|intros [outcomes|]; [|reflexivity]].
  destruct (reconcile app pool outcomes cands ctx) as [[[cands' ctx'] [[order name]|]]|[status kind]]; [reflexivity| |reflexivity].
  destruct (pool_runtime app !! pool ≫= base_policy) as [rp|] eqn:E; [|reflexivity].
  apply bind_same; [|reflexivity]. apply decide_same. by eapply base_policy_covered.
Qed.

Lemma rewrites_same hs v pool id applied :
  Forall rewriter_covered hs ->
  same_run (apply_global_rewrites oracle h1 rq hs v pool id applied)
           (apply_global_rewrites oracle h2 rq hs v pool id applied).
Proof.
  intros Hhs. revert v applied. induction Hhs as [|[t p] hs Hp Hhs IH]; intros v applied; simpl; [reflexivity|].
  apply bind_same; [reflexivity|intros gone]. destruct gone; [reflexivity|].
  apply bind_same.
  - apply consult_same. intros k. unfold policy_transform. destruct p as [n|name]; [done|].
    destruct (Halike k) as (_ & _ & _ & Ht). by rewrite (Ht _ _ Hp).
  - intros [rw| |]; [|reflexivity|apply IH]. destruct (apply_rewrite_to_body v rw (ingress_protocol rq)). apply IH.
Qed.

Lemma rewrite_body_same body pool id :
  same_run (rewrite_body oracle h1 app rq body pool id) (rewrite_body oracle h2 app rq body pool id).
Proof.
  unfold rewrite_body. destruct body as [v|]; [|reflexivity]. apply bind_same.
  - apply rewrites_same. destruct (hr_rewrites _ Happ) as [names <-]. apply rewrite_hooks_covered.
  - intros [| |applied v']; [reflexivity..|]. apply rewrites_same.
    destruct (pool_runtime app !! pool) as [rt|] eqn:E; [|constructor].
    destruct (hr_pools _ Happ _ _ E) as (cfg & dh & _ & _ & <-). apply rewrite_hooks_covered.
Qed.

Lemma forward_same instant_max cands body gov_key hash pool id :
  same_run
    (forward_with_pool (T := T) (J := J) parse_http_date oracle h1 app rq instant_max cands body gov_key hash pool id)
    (forward_with_pool parse_http_date oracle h2 app rq instant_max cands body gov_key hash pool id).
Proof.
  unfold forward_with_pool.
  apply bind_same; [reflexivity|intros [supported|]; [|reflexivity]].
  apply bind_same; [apply rewrite_body_same|intros [| |applied v]; [reflexivity..|]].
  do 5 (apply bind_same; [reflexivity|intros ?]). apply bind_same; [apply route_same|reflexivity].
Qed.

(** C21. Prompts and identities stay with the hooks they were granted to. Where an app's gates, base
    policies, fallback chains and rewriters come out of resolution, what a plugin would answer to a prompt
    that the operator did not grant it or its manifest did not ask for - or to the caller's identity, or to
    a rewrite call - can have no effect on a request: the whole run, its response, its world and its log,
    is the same whatever that answer is, because no such call is made, by no gate, no base policy and no
    fallback of either. *)
Theorem prompts_stay_with_granted_hooks instant_max cands body gov_key hash pool id w :
  forward_with_pool (T := T) (J := J) parse_http_date oracle h1 app rq instant_max cands body gov_key hash pool id w
  = forward_with_pool (T := T) (J := J) parse_http_date oracle h2 app rq instant_max cands body gov_key hash pool id w.
Proof. exact (forward_same instant_max cands body gov_key hash pool id w). Qed.
End runs.
End privacy.

(** ** Witness

    The demo pools under a registered guard that may read prompts but not know callers. *)

Definition phi_registry : gmap string HookCfg :=
  <["phi" := mkHook Gate "phi-plugin" 0 "reject" PA_Ro UA_Ro 10 None false]> ∅.
Definition phi_needs (plugin : string) : option (NeedLevel * NeedLevel) := Some (Need_Rw, Need_No).

(** It would refuse every caller it is told of. *)
Definition curious (k : nat) : HookMoment :=
  mkHookMoment (fun _ req _ _ => match rr_identity req with Some _ => Replied refusal | None => Replied hipaa_only end)
    (fun _ _ => Replied refusal) None [].

Lemma guarded_app_resolved : hooks_resolved phi_needs (fun _ _ => true) 1 phi_registry guarded_app.
Proof.
  split; [by exists []|by exists []|]. intros pool rt. unfold guarded_app. simpl.
  destruct (decide (pool = "team")) as [->|Hne].
  - rewrite lookup_insert_eq. intros [= <-]. exists (mkPoolHooks ["phi"] PP_Weighted true), None. done.
  - by rewrite lookup_insert_ne, lookup_empty.
Qed.

Lemma no_identity_for_phi name : ~ may_identify phi_needs phi_registry name.
Proof. intros (h & _ & _ & Hn). by destruct (Hn _ eq_refl). Qed.

Lemma no_rewrite_for_phi name : ~ may_rewrite phi_needs phi_registry name.
Proof.
  intros (h & Hh & Hp & _). unfold phi_registry in Hh. apply lookup_insert_Some in Hh as [[_ <-]|[_ Hh]]; [done|by rewrite lookup_empty in Hh].
Qed.

Lemma prompts_stay_with_granted_hooks_witness :
  forward_with_pool no_date failing curious guarded_app demo_req 100000000000000 team_cands (Some Null)
    (Some ("key-1", "alice")) None "team" 7 demo_world
  = forward_with_pool no_date failing (answering hipaa_only) guarded_app demo_req 100000000000000 team_cands (Some Null)
    (Some ("key-1", "alice")) None "team" 7 demo_world.
Proof.
  apply (prompts_stay_with_granted_hooks phi_needs (fun _ _ => true) 1 phi_registry).
  - intros k. split; [done|]. split; [done|]. split.
    + intros name req candidates cx [_ Hi]. unfold curious, answering. simpl.
      destruct (rr_identity req); [|done]. exfalso. by apply (no_identity_for_phi name), Hi.
    + intros name req Hr. exfalso. by eapply no_rewrite_for_phi.
  - exact guarded_app_resolved.
Defined.
