(* ===== verification/ForwardRuns.v ===== *)
(** * ForwardRuns: the properties of a request's run

    The failover engine as a whole: what a run of it takes from the lanes and gives back, whom it calls,
    what it charges, and what it leaves in a lane's breaker. *)

From S2P Require Import Prelude Float64 Breaker Json HookWire HookProjection Ranking BreakerFsm HealthState HealthLemmas HealthSpec HealthAdmit SwrrCore Swrr StoreRuns Classifier Bytes Selection SelectionSpec SelectionPick Ledger HookPolicy LaneFrame Request ResponseBody Forward Walk ForwardLogic Routing ResponseSpec ForwardSpec WalkSpec RoutingSpec.

#[local] Open Scope Z_scope.

Section runs.
Context {SemT T J : Type} `{Semaphore SemT} `{StreamTranslate T} `{JsonArrayFramer J} `{ProtocolTable T J}.
Context (parse_http_date : list Ascii.ascii -> option Z).
Context (oracle : nat -> Moment SemT) (oracle_ok : forall k, moment_ok (oracle k)) (lane_count : nat).
Context (app : App) (rq : Req) (Happ : app_ok lane_count app).
Implicit Types (w : World SemT) (r : Response T J).

(** The calls a request may make: the lanes of its pool, and those of the fallback pools that carry every
    tag the restricts in force require. *)
Definition allowed (restricts : list RestrictConstraint) (cands : list WeightedLane) (pool p : string)
    (i : nat) : Prop :=
  (p = pool /\ i ∈ idx <$> cands)
  \/ exists configured wl, fallback_pools app !! p = Some configured /\ wl ∈ configured /\ idx wl = i
       /\ forall rc, rc ∈ restricts -> required rc = true -> satisfies (members <$> pool_runtime app !! p) rc wl = true.

(** The server's side of a response: it reads a stream as far as its client does. *)
Definition deliver_to_client (reads : nat) (inner : list InnerPoll) r : Engine SemT unit :=
  match r with
  | Streaming _ b => bind (consume oracle reads inner b) (fun _ => ret tt)
  | _ => ret tt
  end.

Lemma dispatch_walked max_cap cands hash order pool ctx w :
  world_ok lane_count w -> cands_ok lane_count cands -> excluded_reasons ctx = [] ->
  does oracle w (dispatch parse_http_date oracle app rq max_cap cands hash order pool ctx)
    (fun r evs _ => walked lane_count (allowed (active_restricts ctx) cands pool) (excluded ctx) r evs).
Proof.
  intros Hw Hc Hr. apply does_attempt_loop with (rs := active_restricts ctx); try done.
  - intros p configured wl Hf Hin Hs. right. exists configured, wl. done.
  - intros i Hi. by left.
  - intros i. rewrite Hr. by intros ?%elem_of_nil.
Qed.

Lemma stream_served reads inner r w X ok evs0 :
  world_ok lane_count w -> walked lane_count ok X r evs0 ->
  does oracle w (deliver_to_client reads inner r) (fun _ evs _ =>
    forall l, permit_balance l evs = - response_permit l r).
Proof.
  intros Hw [_ _ _ _ _ Hst]. destruct r as [| | |st b|]; simpl; try by stop; intros.
  destruct Hst as (p & Hl & Hi & Hcfg). flatten.
  eapply does_bind; [done|by apply (does_consume oracle oracle_ok lane_count b p Hi Hcfg)|].
  intros polls evs w' Hs Hw' _. stop. intros l. rewrite app_nil_r, (settles_permits _ _ l _ Hs).
  rewrite (lv_permit _ _ _ Hl). by destruct (Nat.eqb _ _).
Qed.

(** ** Properties *)

(** C18. A request returns and leaks no permit. Whatever other requests do to the store meanwhile, however
    the upstreams answer, fail or hang up, wherever the client goes away, and whatever the configuration of
    fallback pools, exhaustion modes, gates, routing policies and rewrite hooks - chains and cycles of fallback
    pools included - and whatever the hooks answer: the forward of an admitted request produces a response without panicking, the store stays well formed, and once the
    response has been read - to any point, with any upstream stream - every lane has exactly the free
    permits it had, less what other requests took. *)
Theorem a_request_leaks_no_permit hooks instant_max cands body gov_key hash pool id reads inner w :
  world_ok lane_count w -> cands_ok lane_count cands ->
  (forall k, tk_wall (oracle k) + MAX_FAILOVER_DEADLINE_SECS * NANOS <= instant_max) ->
  exists r w1 w2,
    forward_with_pool parse_http_date oracle hooks app rq instant_max cands body gov_key hash pool id w
      = Some (r, w1)
    /\ deliver_to_client reads inner r w1 = Some (tt, w2)
    /\ health_wf (w_store w2)
    /\ forall l, (forall k, moment_keeps l (oracle k)) -> forall free, lane_permits (w_store w) l = Some free ->
         lane_permits (w_store w1) l = Some (free - response_permit l r)
         /\ lane_permits (w_store w2) l = Some free.
Proof.
  intros Hw Hc Hwall.
  destruct (does_forward parse_http_date oracle oracle_ok lane_count hooks app rq Happ w instant_max cands body
    gov_key hash pool id Hw Hc Hwall) as (r & w1 & e1 & He1 & Hev1 & Hwk).
  pose proof (evolves_ok _ _ _ _ _ Hw Hev1) as Hw1.
  destruct (stream_served reads inner r w1 _ _ _ Hw1 Hwk) as ([] & w2 & e2 & He2 & Hev2 & Hback).
  exists r, w1, w2. split; [exact He1|]. split; [exact He2|]. split; [apply (ev_step _ _ _ _ Hev2)|].
  intros l Hk free Hf. pose proof (ev_permits _ _ _ _ Hev1 l Hk free Hf) as H1'.
  rewrite (wa_permits _ _ _ _ _ Hwk) in H1'. split; [exact H1'|].
  rewrite (ev_permits _ _ _ _ Hev2 l Hk _ H1'), Hback. f_equal. lia.
Qed.

(** The calls of a walk, apart: each lane once, and at most one last resort. *)
Lemma fresh_sends_split calls : forall X, fresh_sends X calls ->
  exists ordinary resort, calls = ((fun c => (false, c.1, c.2)) <$> ordinary) ++ ((fun c => (true, c.1, c.2)) <$> resort)
    /\ (length resort <= 1)%nat /\ NoDup ordinary.*2 /\ forall i, i ∈ ordinary.*2 -> i ∉ X.
Proof.
  induction calls as [|[[[] p] i] calls IH]; intros X Hf; simpl in Hf.
  - exists [], []. split; [done|]. split; [simpl; lia|]. split; [constructor|]. by intros i ?%elem_of_nil.
  - subst calls. exists [], [(p, i)]. split; [done|]. split; [done|]. split; [constructor|].
    by intros j ?%elem_of_nil.
  - destruct Hf as [Hi Hf]. destruct (IH _ Hf) as (ordinary & resort & -> & Hl & Hnd & Hx).
    exists ((p, i) :: ordinary), resort. split; [done|]. split; [done|]. csimpl. split.
    + apply NoDup_cons. split; [|done]. intros Hin. apply (Hx i Hin). set_solver.
    + intros j [->|Hj]%elem_of_cons; [done|]. specialize (Hx j Hj). set_solver.
Qed.

(** C27. A request calls no lane twice, and only lanes it may call. Over the whole dispatch - failover in its
    own pool, then any chain of fallback pools, a queue or the least bad lane - the upstream calls name
    pairwise distinct lanes, none of them excluded beforehand, save that the very last call may be one
    last resort; and each call is to a lane of the request's pool or of a configured fallback pool, in which
    case that lane carries every tag that the compliance restricts of the request require. *)
Theorem no_lane_is_called_twice max_cap cands hash order pool ctx w :
  world_ok lane_count w -> cands_ok lane_count cands -> excluded_reasons ctx = [] ->
  exists r w' evs ordinary resort,
    dispatch parse_http_date oracle app rq max_cap cands hash order pool ctx w = Some (r, w')
    /\ w_log w' = w_log w ++ evs
    /\ sent evs = ((fun c => (false, c.1, c.2)) <$> ordinary) ++ ((fun c => (true, c.1, c.2)) <$> resort)
    /\ (length resort <= 1)%nat /\ NoDup ordinary.*2 /\ (forall i, i ∈ ordinary.*2 -> i ∉ excluded ctx)
    /\ forall p i, (p, i) ∈ ordinary ++ resort -> allowed (active_restricts ctx) cands pool p i.
Proof.
  intros Hw Hc Hr.
  destruct (dispatch_walked max_cap cands hash order pool ctx w Hw Hc Hr) as (r & w' & evs & He & Hev & Hwk).
  destruct (fresh_sends_split _ _ (wa_sends _ _ _ _ _ Hwk)) as (ordinary & resort & Hs & Hl & Hnd & Hx).
  exists r, w', evs, ordinary, resort. split; [exact He|]. split; [apply Hev|]. split; [done|].
  split; [done|]. split; [done|]. split; [done|].
  intros p i Hin. pose proof (wa_allowed _ _ _ _ _ Hwk) as Ha. rewrite Hs in Ha.
  apply elem_of_app in Hin as [Hin|Hin].
  - apply Forall_app in Ha as [Ha _]. rewrite Forall_fmap in Ha. by eapply Forall_forall in Ha; [|exact Hin].
  - apply Forall_app in Ha as [_ Ha]. rewrite Forall_fmap in Ha. by eapply Forall_forall in Ha; [|exact Hin].
Qed.

Definition charge_value (l : nat) (c : nat * bool) : Z :=
  if Nat.eqb c.1 l then (if c.2 then 1 else -1) else 0.

Lemma budget_charges l evs : budget_balance l evs = Zsum (charge_value l <$> charges evs).
Proof.
  unfold budget_balance. induction evs as [|e evs IH]; [done|]. csimpl.
  destruct e; csimpl; unfold charge_value in *; simpl in *; rewrite IH; done.
Qed.

(** The lane a run leaves charged. *)
Definition left_charged (cs : list (nat * bool)) : option nat :=
  match cs with [(i, true)] => Some i | _ => None end.

Lemma charged_net i r evs l :
  charged i r evs -> budget_balance l evs = (if decide (left_charged (charges evs) = Some l) then 1 else 0)
    /\ (forall j, left_charged (charges evs) = Some j -> j = i)
    /\ match r with
       | Streaming _ b => body_lane b = i /\ left_charged (charges evs) = if budget_spent b then Some i else None
       | _ => True
       end.
Proof.
  intros Hc. rewrite budget_charges.
  assert (Hst : match r with Streaming _ b => body_lane b = i /\ left_charged (charges evs) = if budget_spent b then Some i else None | _ => True end).
  { unfold charged in Hc. destruct r; try done. destruct Hc as [-> ->]. by destruct (budget_spent body). }
  assert (Hcs : charges evs = [] \/ charges evs = [(i, true)] \/ charges evs = [(i, true); (i, false)]).
  { unfold charged in Hc. destruct r; try (by apply list_elem_of_In in Hc; simpl in Hc; naive_solver).
    destruct Hc as [_ ->]. destruct (budget_spent body); auto. }
  clear Hc. unfold charge_value. destruct Hcs as [E|[E|E]]; rewrite E in *; simpl in *; (split; [|split; [|exact Hst]]).
  - done.
  - done.
  - destruct (Nat.eqb_spec i l) as [->|]; [by rewrite decide_True|]. by rewrite decide_False by congruence.
  - by intros j [= ->].
  - by destruct (Nat.eqb i l).
  - done.
Qed.

(** A request spends at most one unit of one lane's budget. Whatever happens on the way, of the lanes
    whose budget no other request moves at most one ends a dispatch with less than it had, by exactly
    one, and it is the lane of the last upstream call; a shed request (503) and a relayed upstream error
    cost nothing; and a stream is handed over owing precisely the unit its body is marked to refund. *)
Theorem a_request_costs_one_unit_at_most max_cap cands hash order pool ctx w :
  world_ok lane_count w -> cands_ok lane_count cands -> excluded_reasons ctx = [] ->
  exists r w' evs spent,
    dispatch parse_http_date oracle app rq max_cap cands hash order pool ctx w = Some (r, w')
    /\ w_log w' = w_log w ++ evs
    /\ (forall l, (forall k, moment_keeps_account l (oracle k)) ->
         forall b, lane_budget (w_store w) l = Some b -> is_i64 b ->
           lane_budget (w_store w') l = Some (wrap_i64 (b - if decide (spent = Some l) then 1 else 0)))
    /\ (forall i, spent = Some i -> exists resort p, last (sent evs) = Some (resort, p, i))
    /\ (uncharged r = true -> spent = None)
    /\ match r with
       | Streaming _ b => spent = if budget_spent b then Some (body_lane b) else None
       | _ => True
       end.
Proof.
  intros Hw Hc Hr.
  destruct (dispatch_walked max_cap cands hash order pool ctx w Hw Hc Hr) as (r & w' & evs & He & Hev & Hwk).
  exists r, w', evs, (left_charged (charges evs)). split; [exact He|]. split; [apply Hev|].
  assert (Hnet : forall l, budget_balance l evs = (if decide (left_charged (charges evs) = Some l) then 1 else 0)).
  { intros l. destruct (wa_charged _ _ _ _ _ Hwk) as [[Hcs _]|(c & _ & Hcs)]; [|by eapply charged_net].
    rewrite budget_charges, Hcs. done. }
  split; [|split; [|split]].
  - intros l Hk b Hb Hi. destruct (ev_budget _ _ _ _ Hev l Hk b Hb Hi) as (b' & -> & Hi' & He').
    rewrite Hnet in He'. f_equal. apply i64_wrap_eq; [done|apply wrap_i64_congr|]. rewrite He'.
    symmetry. apply wrap_i64_congr.
  - intros i Hi. destruct (wa_charged _ _ _ _ _ Hwk) as [[Hcs _]|([[resort p] j] & Hl & Hcs)].
    + by rewrite Hcs in Hi.
    + destruct (charged_net _ _ _ 0 Hcs) as (_ & Hj & _). rewrite (Hj i Hi). by exists resort, p.
  - intros Hu. by rewrite (wa_uncharged _ _ _ _ _ Hwk Hu).
  - destruct r as [| | |st b|]; try done.
    destruct (wa_charged _ _ _ _ _ Hwk) as [[_ Hn]|(c & _ & Hcs)]; [by destruct (Hn st b)|].
    by destruct (charged_net _ _ _ 0 Hcs) as (_ & _ & -> & ->).
Qed.

(** C35. An attempt never strands the recovery probe it won. Whatever the upstream answers - success, a
    caller's fault, an upstream's fault, a context overflow, silence, garbage - and whatever fails before
    the call: when the attempt is over, the probe it was handed is no longer in flight under its token, so
    that the cell can be probed again; its permit is back or with the response. The one exception is a client that
    goes away while the attempt waits for the upstream. (The lane is alive, and no one else holds a
    probe under the same token.) *)
Theorem an_attempt_settles_its_probe w cands pool i p epoch ctx :
  world_ok lane_count w -> (i < lane_count)%nat -> Forall (fun wl => idx wl < lane_count)%nat cands ->
  stays_alive oracle w i -> (forall k, moment_respects pool i epoch (oracle k)) ->
  exists step ctx' w',
    attempt parse_http_date oracle app rq cands pool i p epoch ctx w = Some (step, ctx', w')
    /\ health_wf (w_store w')
    /\ (step = Done Gone \/ settled pool i epoch (w_store w'))
    /\ forall l, (forall k, moment_keeps l (oracle k)) -> forall free, lane_permits (w_store w) l = Some free ->
         lane_permits (w_store w') l
         = Some (free + own i p l - match step with Done r => response_permit l r | Again _ => 0 end).
Proof.
  intros Hw Hi Hc Ha Hr.
  destruct (does_attempt parse_http_date oracle oracle_ok lane_count app rq Happ w cands pool i p epoch ctx Hw Hi Hc)
    as ([step ctx'] & w' & evs & He & Hev & (_ & Hans & Hprobe)). simpl in *.
  exists step, ctx', w'. split; [exact He|]. split; [apply (ev_step _ _ _ _ Hev)|]. split.
  - destruct Hprobe as [Hp| ->]; [right; by apply Hp|by left].
  - intros l Hk free Hf. rewrite (ev_permits _ _ _ _ Hev l Hk free Hf). f_equal.
    destruct step; destruct Hans as [Hans _]; rewrite (an_permits _ _ _ _ Hans); simpl; lia.
Qed.

(** The degraded single forward - of a fallback pool, of a queue that was granted a lane - settles
    the probe it was handed on every way out, a vanished client included. *)
Theorem a_degraded_forward_settles_its_probe w last i p timeout pool epoch :
  world_ok lane_count w -> (i < lane_count)%nat ->
  stays_alive oracle w i -> (forall k, moment_respects pool i epoch (oracle k)) ->
  exists res w',
    forward_once oracle app rq last i p timeout pool (Some epoch) w = Some (res, w')
    /\ health_wf (w_store w') /\ settled pool i epoch (w_store w').
Proof.
  intros Hw Hi Ha Hr.
  destruct (does_forward_once oracle oracle_ok lane_count app rq Happ w last i p timeout pool (Some epoch) Hw Hi)
    as (res & w' & evs & He & Hev & (_ & Hprobe)).
  exists res, w'. split; [exact He|]. split; [apply (ev_step _ _ _ _ Hev)|]. by apply (Hprobe epoch).
Qed.
End runs.

(** ** Client faults *)

Section client_faults.
Context {SemT T J : Type} `{Semaphore SemT} `{StreamTranslate T} `{JsonArrayFramer J} `{ProtocolTable T J}.
Context (parse_http_date : list Ascii.ascii -> option Z).
Context (oracle : nat -> Moment SemT) (oracle_ok : forall k, moment_ok (oracle k)) (lane_count : nat).
Context (app : App) (rq : Req) (Happ : app_ok lane_count app).

(** Every call is answered with [a], at once, and the client stays. *)
Context (a : Answer).
Context (ready : forall k, tk_prepared (oracle k) = Ready_to_send).
Context (stays : forall k, tk_gone (oracle k) = false).
Context (answers : forall k, tk_send (oracle k) = (Answered a, 0)).

Lemma does_send_answered w rem :
  world_ok lane_count w ->
  does oracle w (send oracle None rem) (fun r evs _ => evs = [] /\ r = Sent_result (Answered a)).
Proof.
  intros Hw. unfold send. seq does_ask as gone evs w1 [-> [k ->]] Hw1 _. rewrite stays.
  seq does_ask as r evs w2 [-> [k' ->]] Hw2 _. rewrite answers. by stop.
Qed.

(** A caller's own fault costs a lane nothing on the main path but counts against it on the degraded
    one. The same answer, classified as the client's fault - a plain 400 - leaves the breaker alone when the
    failover loop receives it, as the circuit-breaker design demands; received over a fallback pool, a
    queue or the least bad lane it is recorded as a failure of the lane. *)
Theorem only_the_degraded_path_penalises_a_client_fault w cands pool i p epoch probe last timeout ctx lane :
  world_ok lane_count w -> (i < lane_count)%nat -> app_lanes app !! i = Some lane ->
  lane_attempt_timeout_ms lane = None -> effective_attempt_timeout_ms cands i None = None ->
  is_success (status a) = false -> pool_upstream_creds app pool = Own ->
  (forall ns, classify_signal (signal parse_http_date lane a ns) = D_ClientFault) ->
  (exists res w', attempt parse_http_date oracle app rq cands pool i p epoch ctx w = Some (res, w')
     /\ w_log w' = w_log w ++ [Sent false pool i; Gave i p])
  /\ exists res w', forward_once oracle app rq last i p timeout pool probe w = Some (res, w')
     /\ w_log w' = w_log w ++ [Sent last pool i; Failed pool i; Gave i p].
Proof.
  intros Hw Hi Hl Ht Heff Hst Hcreds Hclass. pose proof (ap_breakers _ _ Happ pool) as Hcfg. split.
  - enough (does oracle w (attempt parse_http_date oracle app rq cands pool i p epoch ctx)
      (fun _ evs _ => evs = [Sent false pool i; Gave i p])) as (res & w' & evs & He & Hev & ->).
    { exists res, w'. split; [exact He|apply Hev]. }
    unfold attempt. seq does_of_option as ? evs w1 [-> ->] Hw1 _. rewrite Ht.
    seq does_ask as pr evs w2 [-> [k ->]] Hw2 _. rewrite ready.
    seq does_note as ? evs w3 -> Hw3 _; [by repeat constructor|]. rewrite Heff.
    seq does_send_answered as r evs w4 [-> ->] Hw4 _. rewrite Hst. cbn [negb]. unfold on_error_answer.
    seq does_ask as ns evs w5 [-> [k5 ->]] Hw5 _. seq does_ask as gone evs w6 [-> [k6 ->]] Hw6 _.
    rewrite stays, Hcreds. simpl. rewrite Hclass.
    seq does_client_fault as ? evs w7 -> Hw7 _. seq does_release_owned as ? evs w8 [-> _] Hw8 _.
    seq does_drop_permit as ? evs w9 -> Hw9 _. by stop.
  - enough (does oracle w (forward_once oracle app rq last i p timeout pool probe)
      (fun _ evs _ => evs = [Sent last pool i; Failed pool i; Gave i p])) as (res & w' & evs & He & Hev & ->).
    { exists res, w'. split; [exact He|apply Hev]. }
    unfold forward_once. seq does_of_option as ? evs w1 [-> ->] Hw1 _. rewrite Ht.
    seq does_ask as pr evs w2 [-> [k ->]] Hw2 _. rewrite ready.
    seq does_note as ? evs w3 -> Hw3 _; [by repeat constructor|].
    seq does_send_answered as r evs w4 [-> ->] Hw4 _. rewrite Hst. cbn [negb].
    seq does_ask as gone evs w5 [-> [k5 ->]] Hw5 _. rewrite stays.
    seq does_record_failure as ? evs w6 [-> _] Hw6 _. seq does_drop_guard as ? evs w7 [-> _] Hw7 _.
    seq does_drop_permit as ? evs w8 -> Hw8 _. by stop.
Qed.
End client_faults.

(** The exception is real: when the client of an attempt goes away while the upstream call is in
    flight, the attempt ends without touching the cell, so a recovery probe it had won stays in flight
    and the lane is refused as probing at every later time, until something outside the request clears it. *)
Theorem a_vanished_client_strands_the_probe {SemT T J : Type} `{Semaphore SemT} `{StreamTranslate T}
    `{JsonArrayFramer J} `{ProtocolTable T J} parse_http_date (oracle : nat -> Moment SemT) app rq w cands
    pool i p epoch ctx lane c :
  (forall k h, tk_peer (oracle k) h = h) -> (forall k, tk_prepared (oracle k) = Ready_to_send) ->
  (forall k, tk_gone (oracle k) = true) -> app_lanes app !! i = Some lane ->
  read_cell (cell_ref pool i) (w_store w) = Some c -> breaker_state c = ST_HALF_OPEN ->
  exists w', attempt (T := T) (J := J) parse_http_date oracle app rq cands pool i p epoch ctx w
      = Some (Done Gone, ctx, w')
    /\ read_cell (cell_ref pool i) (w_store w') = Some c
    /\ forall now, breaker_verdict c now = BV_HalfOpen.
Proof.
  intros Hpeer Hready Hgone Hl Hr Hs.
  assert (Hstays : forall h, read_cell (cell_ref pool i) (drop_permit i p h) = read_cell (cell_ref pool i) h).
  { intros h. apply drop_permit_read. }
  unfold attempt, bind, of_option, ask, send. rewrite Hl. rewrite Hready. simpl. unfold bind, note.
  simpl.
  destruct (effective_attempt_timeout_ms cands i (lane_attempt_timeout_ms lane)); simpl;
    unfold bind, ret, now, ask, await; simpl; rewrite Hgone; simpl;
    unfold do_drop_permit, logged, access, bind, note_opt, note, ret; simpl; rewrite Hpeer.
  all: eexists; split; [reflexivity|]; simpl; rewrite Hstays; split; [done|].
  all: intros t; unfold breaker_verdict; by rewrite Hs.
Qed.

(** ** Witnesses *)

Lemma demo_app_ok : app_ok 2 demo_app.
Proof.
  split; [done|intros pool; rewrite demo_breakers; apply BreakerCfg_default_valid|].
  intros pool cands [-> | ->]%demo_pools; [apply spare_cands_ok|apply team_cands_ok].
Qed.

Definition quiet_oracle (r : SendResult) (k : nat) : Moment Z := demo_moment r.

Lemma quiet_oracle_ok r k : moment_ok (quiet_oracle r k).
Proof. apply demo_moment_ok. Qed.

Lemma quiet_oracle_keeps r l k : moment_keeps l (quiet_oracle r k).
Proof. split; [by intros ???|]. split; [by intros ???|]. intros k'. split_and!; by intros ???. Qed.

Lemma quiet_oracle_account r l k : moment_keeps_account l (quiet_oracle r k).
Proof.
  split; [by intros ???|]. split; [by intros ???|]. intros k'.
  split; [by intros ???|]. split; by intros ???.
Qed.

(** No hook answers. *)
Definition quiet_hooks (k : nat) : HookMoment :=
  mkHookMoment (fun _ _ _ _ => Call_failed) (fun _ _ => Call_failed) None [].

Lemma a_request_leaks_no_permit_witness :
  exists r w1 w2,
    forward_with_pool no_date (quiet_oracle (Answered (demo_answer 200))) quiet_hooks demo_app demo_req
      100000000000000 team_cands None None None "team" 7 demo_world = Some (r, w1)
    /\ deliver_to_client (quiet_oracle (Answered (demo_answer 200))) 2 demo_stream r w1 = Some (tt, w2)
    /\ lane_permits (w_store w2) 0 = Some 2.
Proof.
  destruct (a_request_leaks_no_permit no_date (quiet_oracle (Answered (demo_answer 200))) (quiet_oracle_ok _) 2
    demo_app demo_req demo_app_ok quiet_hooks 100000000000000 team_cands None None None "team" 7 2 demo_stream
    demo_world)
    as (r & w1 & w2 & H1 & H2 & _ & Hk).
  - apply demo_world_ok.
  - apply team_cands_ok.
  - intros k. by vm_compute.
  - exists r, w1, w2. split; [exact H1|]. split; [exact H2|].
    apply (Hk 0%nat (quiet_oracle_keeps _ 0%nat)). reflexivity.
Defined.

(** Both lanes fail; the fallback pools form a cycle. *)
Lemma no_lane_is_called_twice_witness :
  exists r w' evs ordinary resort,
    dispatch no_date (quiet_oracle (Send_failed false)) demo_app demo_req 3 team_cands None None "team" demo_ctx
      demo_world = Some (r, w')
    /\ w_log w' = evs
    /\ sent evs = ((fun c => (false, c.1, c.2)) <$> ordinary) ++ ((fun c => (true, c.1, c.2)) <$> resort)
    /\ NoDup ordinary.*2.
Proof.
  destruct (no_lane_is_called_twice no_date (quiet_oracle (Send_failed false)) (quiet_oracle_ok _) 2
    demo_app demo_req demo_app_ok 3 team_cands None None "team" demo_ctx demo_world)
    as (r & w' & evs & ordinary & resort & H1 & H2 & H3 & _ & H4 & _).
  - apply demo_world_ok.
  - apply team_cands_ok.
  - reflexivity.
  - exists r, w', evs, ordinary, resort. split; [exact H1|]. split; [exact H2|]. split; [exact H3|exact H4].
Defined.

Example both_lanes_are_called :
  (fun x => sent (w_log x.2)) <$> dispatch no_date (quiet_oracle (Send_failed false)) demo_app demo_req 3
    team_cands None None "team" demo_ctx demo_world
  = Some [(false, "team", 0%nat); (false, "spare", 1%nat)].
Proof. vm_compute. reflexivity. Qed.

(** Five units on the first lane. *)
Definition paid_store : HealthState Z :=
  HealthState_new [mkLaneData "gpt-4o" "openai" 2 2 true 5 0 0 false "" 0 0 0; demo_lane "claude" 1].

Definition paid_world : World Z := mkWorld paid_store 0 [].

Lemma paid_world_ok : world_ok 2 paid_world.
Proof.
  split; [|done]. apply new_with_limits_wf; [|done]. repeat constructor; simpl; try done; lia.
Qed.

Lemma a_request_costs_one_unit_at_most_witness :
  exists r w' spent,
    dispatch no_date (quiet_oracle (Answered (demo_answer 200))) demo_app demo_req 3 team_cands None None "team"
      demo_ctx paid_world = Some (r, w')
    /\ lane_budget (w_store w') 0 = Some (wrap_i64 (5 - if decide (spent = Some 0%nat) then 1 else 0)).
Proof.
  destruct (a_request_costs_one_unit_at_most no_date (quiet_oracle (Answered (demo_answer 200))) (quiet_oracle_ok _)
    2 demo_app demo_req demo_app_ok 3 team_cands None None "team" demo_ctx paid_world)
    as (r & w' & evs & spent & H1 & _ & Hb & _).
  - apply paid_world_ok.
  - apply team_cands_ok.
  - reflexivity.
  - exists r, w', spent. split; [exact H1|].
    apply (Hb 0%nat (quiet_oracle_account _ 0%nat)); [reflexivity|by vm_compute].
Defined.

(** The first lane's cell recovering: tripped, its cooldown over, its probe won under token 1. *)
Definition trigger_happy : BreakerCfg := mkBreakerCfg 15 120 true (mkTrip Consecutive 30 f64_0_5 5 1).

Definition after_op (op : StoreOp) (h : HealthState Z) : HealthState Z := default h (run_store op h).

Definition probing_store : HealthState Z :=
  after_op (SAdmitBreaker "team" 0 1000) (after_op (SFailure "team" 0 10 trigger_happy None demo_entropy) demo_store).

Definition probing_world : World Z := mkWorld probing_store 0 [].

Lemma after_op_ok op h : health_wf h -> store_op_ok (length (lanes h)) op -> hstep h (after_op op h).
Proof. intros Hw Ho. unfold after_op. by destruct (run_store_hstep op h Hw Ho) as (h' & -> & Hs). Qed.

Lemma probing_world_ok : world_ok 2 probing_world.
Proof.
  pose proof demo_store_wf as Hw.
  assert (H1 : hstep demo_store (after_op (SFailure "team" 0 10 trigger_happy None demo_entropy) demo_store)).
  { apply after_op_ok; [done|]. split; [by vm_compute; lia|]. split; [by vm_compute|]. split; by vm_compute. }
  assert (H2 : hstep (after_op (SFailure "team" 0 10 trigger_happy None demo_entropy) demo_store) probing_store).
  { apply after_op_ok; [apply H1|]. rewrite (hstep_length _ _ H1). split; [simpl; lia|by vm_compute]. }
  split; [apply H2|]. simpl. by rewrite (hstep_length _ _ H2), (hstep_length _ _ H1).
Qed.

Lemma probing_alive r : stays_alive (quiet_oracle r) probing_world 0.
Proof. split; [intros k; apply quiet_oracle_account|by vm_compute]. Qed.

Lemma quiet_oracle_respects r pool i epoch k : moment_respects pool i epoch (quiet_oracle r k).
Proof. by intros h Hs. Qed.

Lemma an_attempt_settles_its_probe_witness :
  exists step ctx' w',
    attempt no_date (quiet_oracle (Answered (demo_answer 429))) demo_app demo_req team_cands "team" 0 Bounded 1
      demo_ctx probing_world = Some (step, ctx', w')
    /\ (step = Done Gone \/ settled "team" 0 1 (w_store w')).
Proof.
  destruct (an_attempt_settles_its_probe no_date (quiet_oracle (Answered (demo_answer 429))) (quiet_oracle_ok _)
    2 demo_app demo_req demo_app_ok probing_world team_cands "team" 0 Bounded 1 demo_ctx)
    as (step & ctx' & w' & H1 & _ & H2 & _).
  - apply probing_world_ok.
  - lia.
  - repeat constructor.
  - apply probing_alive.
  - intros k. apply quiet_oracle_respects.
  - exists step, ctx', w'. split; [exact H1|exact H2].
Defined.

Lemma a_degraded_forward_settles_its_probe_witness :
  exists res w',
    forward_once (quiet_oracle (Answered (demo_answer 503))) demo_app demo_req true 0 Bounded 30 "team" (Some 1)
      probing_world = Some (res, w')
    /\ settled "team" 0 1 (w_store w').
Proof.
  destruct (a_degraded_forward_settles_its_probe (quiet_oracle (Answered (demo_answer 503))) (quiet_oracle_ok _)
    2 demo_app demo_req demo_app_ok probing_world true 0 Bounded 30 "team" 1) as (res & w' & H1 & _ & H2).
  - apply probing_world_ok.
  - lia.
  - apply probing_alive.
  - intros k. apply quiet_oracle_respects.
  - exists res, w'. split; [exact H1|exact H2].
Defined.

(** The client is gone by the first await. *)
Definition vanishing (k : nat) : Moment Z :=
  mkMoment Z id id (fun _ => quiet 1000) 1000 1000000000000 1000000 demo_entropy true Ready_to_send
    (Send_failed false, 5) (mkBuffered Complete true (Some None) false) (f64_of_Z 12) 65536 None.

Definition probing_cell : BreakerCell := default BreakerCell_new (read_cell (cell_ref "team" 0) probing_store).

Lemma a_vanished_client_strands_the_probe_witness :
  probe_in_flight probing_cell = true
  /\ exists w', attempt no_date vanishing demo_app demo_req team_cands "team" 0 Bounded 1 demo_ctx probing_world
       = Some (Done Gone, demo_ctx, w')
     /\ read_cell (cell_ref "team" 0) (w_store w') = Some probing_cell
     /\ forall now, breaker_verdict probing_cell now = BV_HalfOpen.
Proof.
  split; [by vm_compute|].
  apply (a_vanished_client_strands_the_probe no_date vanishing demo_app demo_req probing_world team_cands "team" 0
    Bounded 1 demo_ctx (mkLaneCfg "gpt-4o" "acme" "openai" ∅ None None) probing_cell).
  - intros k h. reflexivity.
  - intros k. reflexivity.
  - intros k. reflexivity.
  - reflexivity.
  - vm_compute. reflexivity.
  - vm_compute. reflexivity.
Defined.

Lemma only_the_degraded_path_penalises_a_client_fault_witness :
  (exists res w', attempt no_date (quiet_oracle (Answered (demo_answer 400))) demo_app demo_req team_cands "team" 0
       Bounded 1 demo_ctx demo_world = Some (res, w')
     /\ w_log w' = [Sent false "team" 0%nat; Gave 0 Bounded])
  /\ exists res w', forward_once (quiet_oracle (Answered (demo_answer 400))) demo_app demo_req false 0 Bounded 30
       "team" None demo_world = Some (res, w')
     /\ w_log w' = [Sent false "team" 0%nat; Failed "team" 0%nat; Gave 0 Bounded].
Proof.
  apply (only_the_degraded_path_penalises_a_client_fault no_date (quiet_oracle (Answered (demo_answer 400)))
    (quiet_oracle_ok _) 2 demo_app demo_req demo_app_ok (demo_answer 400)) with
    (lane := mkLaneCfg "gpt-4o" "acme" "openai" ∅ None None).
  - intros k. reflexivity.
  - intros k. reflexivity.
  - intros k. reflexivity.
  - apply demo_world_ok.
  - lia.
  - reflexivity.
  - reflexivity.
  - reflexivity.
  - reflexivity.
  - reflexivity.
  - intros ns. reflexivity.
Defined.
